(* ===== verification/_CoqProject ===== *)
-Q . S2P
Prelude.v
UpdateResult.v
Bitmapset.v
BitmapsetFacts.v
Bitstream.v
BitmapCompression.v
AOTupleId.v
VisimapEntry.v
Gdd.v
GddFacts.v
GddBuild.v
FtsProbe.v
FtsFacts.v
FtsCycle.v
FtsTermination.v
FsmPage.v
FsmFacts.v
BinaryHeap.v
DistributedSnapshot.v
DistributedSnapshotFacts.v
BitFields.v
Bytes.v
AOStorageFormat.v
AOStorageFacts.v
VarBlock.v
VarBlockFacts.v
Proc.v
Slru.v
SlruFacts.v
SlruStore.v
DistribLog.v
DistribLogFacts.v
DistribLogOps.v
DistribLogRun.v
DistribLogSpec.v
DistribLogReplay.v
DtxContextInfo.v
DtxContextInfoFacts.v
Dtm.v
DtmFacts.v
DtmAtomic.v
DtxRecovery.v
DtxRecoveryFacts.v
DtxRecoveryRun.v
DtxHistory.v
DtxLiveness.v
PagedLog.v
Clog.v
ClogFacts.v
SubTrans.v
SubTransFacts.v
TransAm.v
TransAmFacts.v
TransAmCommit.v
LocalDistribXact.v
ObjectIds.v
ObjectIdsFacts.v
Varsup.v
VarsupFacts.v
VarsupLimits.v
Htup.v
ComboCid.v
ComboCidFacts.v
Tqual.v
TqualFacts.v
TqualMvcc.v
TqualVacuum.v
TqualUpdate.v
TqualSelf.v
TqualSample.v
ProcArray.v
ProcArrayFacts.v
ProcArrayRun.v
ProcArraySnapshot.v
ProcArrayOldest.v
ProcArrayProgress.v
ProcArraySample.v
Standby.v
StandbyFacts.v
StandbyRun.v
