(* ===== verification/Prelude.v ===== *)
(** * Verification of core components of a massively parallel database server

    The server is a dispatcher with any number of segments, each a PostgreSQL process group of
    its own.  This library verifies the parts of its C code that keep the segments together, the
    logs in which each of them keeps the fate of its transactions, and the data structures of
    append-only storage.  Paths are relative to [src/src/backend] and [src/src/include].

    ** The parts and how they interact

    - A statement reaches a segment together with the context of its transaction: the number and
      the text identifier, the options, the nesting level and the distributed snapshot
      ([cdb/cdbdtxcontextinfo.c], [cdb/cdbtmutils.c]).  The segment sets up its own context from
      it ([setupQEDtxContext] of [cdb/cdbtm.c]) and judges the visibility of rows by the snapshot
      ([cdb/cdbdistributedsnapshot.c], with [cdblocaldistribxact.c] as a cache over the
      distributed log).
    - A transaction that changes something on a segment gets a local id ([access/transam/varsup.c],
      which also hands out object ids, with their part of checkpoints and replay in
      [access/transam/xlog.c]).  Three logs on disk hold what is known about an id: its status
      ([clog.c]), its parent ([subtrans.c]) and its distributed transaction ([distributedlog.c]).
      All three keep their pages in the buffers of [slru.c]; [transam.c] answers from status and
      parents whether a transaction committed.
    - Every process shows its transaction, its subtransactions and the xmin of its snapshots in an
      array in shared memory ([storage/ipc/procarray.c]).  From it others tell what is running, take
      snapshots, and compute which ids nobody looks at any more.  A standby has no such processes: it
      replays the log of its primary and keeps the ids that run there in an array of its own.
    - A row version of a heap table names the transactions that inserted and deleted or locked it
      ([access/htup_details.h]).  Whether it is seen, may be changed or may be removed is decided
      by [utils/time/tqual.c], which asks what became of them and notes the answer in the row; two
      commands of one transaction share a field of it ([utils/time/combocid.c]), and so do several
      lockers ([access/transam/multixact.c], [access/heap/heapam.c]).
    - The end of a transaction is a two-phase commit of the dispatcher with the segments
      ([cdb/cdbtm.c], [cdb/dispatcher/cdbdisp_dtx.c], called by [access/transam/xact.c]); after a
      crash the dispatcher redoes its log and resolves what is in doubt
      ([cdb/cdbdtxrecovery.c], [storage/ipc/procarray.c]).
    - Sessions on several segments can wait for each other in a cycle that no segment sees; the
      global deadlock detector collects their wait-for graphs, reduces them and cancels sessions
      ([utils/gdd/gdddetector.c]).
    - The fault tolerance service probes the primaries, promotes mirrors and keeps the segment
      configuration ([fts/ftsprobe.c], [fts/fts.c]).
    - Append-only tables store blocks with packed headers and checksums
      ([cdb/cdbappendonlystorageformat.c], read by [cdbappendonlystorageread.c]) whose content is
      a block of variable-length items ([cdb/cdbvarblock.c]); a row is named by a packed
      identifier ([access/appendonlytid.h]), and rows that are deleted are hidden by entries of
      the visibility map ([access/appendonly/appendonly_visimap_entry.c]), which hold a bitmap
      set ([nodes/bitmapset.c]) and are stored compressed ([utils/misc/bitmap_compression.c] over
      [utils/misc/bitstream.c]).
    - Two structures stand on their own: the pages of the free space map
      ([storage/freespace/fsmpage.c]) and the binary heap ([lib/binaryheap.c]).

    ** The files

    A file named after a component holds its data and operations under the names of the code; a
    file whose name adds [Facts], or names a topic, holds lemmas and theorems about it.

    - [Prelude]: errors as values, machine words, lists; [BitFields]: packed words; [Bytes]:
      buffers of bytes with errors for accesses outside; [Proc]: routines with state and three
      levels of errors, and their weakest preconditions.
    - [Bitmapset], [BitmapsetFacts]: [bitmapset.c], against finite sets of members.
    - [Bitstream], [BitmapCompression], [AOTupleId], [VisimapEntry]: the visibility map.
    - [Gdd]: [gdddetector.c] with its heap of vertices, edges and shared counters; [GddFacts]: the
      heap invariant and reduction; [GddBuild]: the construction, and the theorems.
    - [FtsProbe]: the probe cycle over the interface [FtsWorld] of libpq, [poll] and the clock;
      [FtsFacts], [FtsCycle]: invariants, safety, errors; [FtsTermination]: the cycle ends.
    - [FsmPage], [FsmFacts]; [BinaryHeap].
    - [DistributedSnapshot], [DistributedSnapshotFacts]: the visibility test and its caches.
    - [AOStorageFormat], [AOStorageFacts]; [VarBlock], [VarBlockFacts]: blocks.
    - [Slru]: the page buffers over the answers of the operating system; [SlruFacts]: their
      invariant; [SlruStore]: they are a store of pages.
    - [DistribLog]: the distributed log; [DistribLogFacts], [DistribLogOps], [DistribLogRun]: its
      invariant and routines; [DistribLogSpec]: it is a map; [DistribLogReplay]: crash and replay.
    - [PagedLog]: what the other two logs share; [Clog], [ClogFacts]; [SubTrans], [SubTransFacts];
      [TransAm]: verdicts; [TransAmFacts], [TransAmCommit]: they are right, and commits are atomic.
    - [ObjectIds], [ObjectIdsFacts]; [Varsup], [VarsupFacts], [VarsupLimits]: ids handed out;
      [LocalDistribXact]: the state of the transaction of a process.
    - [Htup]: headers of rows; [UpdateResult]: codes; [ComboCid], [ComboCidFacts]: command ids.
    - [Tqual]: the checks, each question answered at a later moment; [TqualFacts]: the interface
      [History] with its laws, hints stay true; [TqualMvcc], [TqualVacuum], [TqualUpdate],
      [TqualSelf]: what each check decides; [TqualSample]: a history that keeps the laws.
    - [ProcArray]: entries and their changes, and the routines that read them, one read after the
      other; [ProcArrayFacts]: changes as events, the invariant; [ProcArrayRun]:
      histories, and what stays while the lock is shared; [ProcArraySnapshot], [ProcArrayOldest],
      [ProcArrayProgress]: what the routines answer; [ProcArraySample]: a history.
    - [Standby]: the array of a standby, and what replay does to it and to the shared variables;
      [StandbyFacts]: the array is a sorted list, and the effect of replay on it; [StandbyRun]: primary
      and standby together, the theorems, and examples.
    - [DtxContextInfo], [DtxContextInfoFacts]: what a segment is told.
    - [Dtm]: dispatcher and segment sides of the two-phase commit over the interface [LocalTM] of a
      segment's own transaction manager; [DtmFacts]: commands and broadcasts; [DtmAtomic]: the
      end of a transaction.
    - [DtxRecovery]: redo, utility mode, checkpoints, the recovery run; [DtxRecoveryFacts]: redo
      refines a set; [DtxRecoveryRun]: the run; [DtxHistory]: crashes and restarts as a state
      machine; [DtxLiveness]: the run returns.

    State is passed explicitly: a record per process or object, a function per routine, and where
    a routine threads state and errors through many calls a small monad with its weakest
    preconditions ([FtsM] in [FtsProbe], [proc] in [Proc]).  Pointers into buffers are offsets,
    other pointers are indices into lists of objects; a dereference that the code does not guard
    is an error value, so that its absence is proved and not assumed.  Integers keep their width:
    [u32], [s32], [u64], [s64] wrap where the C type does.

    ** What the theorems show

    - Distributed transactions.  The end of a two-phase transaction leaves log and segments in
      agreement whatever happens to messages, segments and log records, within a bounded number of
      broadcasts; a crash at any point, any number of restarts in any role, checkpoints and
      recovery runs keep the decision, and a recovery run that returns has carried it out on every
      segment; redo refines the set of transactions that are committed and not forgotten; where
      messages, log and the redo file of utility mode are in order, recovery returns and resolves what
      checkpoint, log and file leave in doubt.  A checkpoint that finds more than one
      transaction in the array drops every second one, and one is lost that way: the theorem on
      histories therefore asks for checkpoints of at most one.
    - The context of a transaction arrives at the segment as it was sent.
    - The logs of a segment.  The page buffers are invisible: a log acts as a store of pages,
      whatever requests fail.  The distributed log is a map from local to distributed ids; moving
      its oldest id changes no answer for a snapshot in use; after a crash it holds what was logged.
      One loop of it reads behind an array.  A tree of transactions commits in one step for every
      reader, however many pages it is on, and verdicts are what the two logs determine; the
      top-level transaction found for an id is the root of its tree.
    - Ids.  A new local id has its pages in all three logs and is never half of all ids ahead of the
      oldest one; in a testing mode the first page after wrap-around is skipped.  While the counters
      have room, a new object id or file node id is in no record of the log and was not handed out
      before, except by a server that crashed and lost the log from before it did so.
    - Fault tolerance.  Messages go to the segment that is primary in the catalog at that moment, a
      mirror is promoted only when it is in sync, no internal error is raised and no connection is
      left open, the answers are recorded in exactly the two rows of a pair, and a cycle ends.
    - Deadlock detection.  Building keeps counters and lists consistent; reduction leaves the
      greatest irreducible set of waits whatever the visiting order; breaking ends with no wait
      left and cancels only live sessions, for positive identifiers; an example with identifiers above
      2^31 defeats the victim search.
    - Snapshots.  The test with its two caches answers what the test without them answers; the
      process cache keeps the most recently used entries.
    - Running transactions.  While transactions start, are prepared and move between entries, a
      snapshot is that of the moment the lock was taken; what is before the oldest id that matters
      to any database is seen by every snapshot, in use, being taken or to come; an id is said to be running if
      and only if it is, as far as the logs have not said otherwise.  The distributed part of a
      snapshot can miss a transaction that gets its id meanwhile.
    - Standbys.  A snapshot on a standby that is ready accounts for all that runs on the primary at that
      place in the log, whatever subtransactions were dropped from the array and whatever transactions
      were lost without a record.  The first list of running transactions is refused if it reaches over
      the wraparound of ids.
    - Rows.  A row is seen exactly as snapshot and fate of its transactions determine, at every
      moment of a scan and whatever hints were set; a row that vacuum may remove is seen by
      nobody; what is reported to an update, or for the present, was the case.  Vacuum forgets the
      locks on a row whose update was rolled back, so that the theorem on vacuum speaks of
      deletions and the ones on updates of hints that other checks set.  Both command ids of a row
      are found by the writer and the readers of a session.
    - Storage.  Headers, blocks, items, identifiers, compressed bitmaps and visibility entries are
      read back as they were written; bounds of every field; which damage the checks miss.  Hiding a
      row that is hidden reports on its entry of the visibility map and not on the row.
    - Structures.  Bitmap sets refine finite sets, the heap a priority queue; the free space search
      returns the first suitable slot and ends on pages of any content.

    ** Bounds and fuel

    - The reduction and breaking loops of the detector take the number of edges as fuel; they are
      proved to be done by then.
    - The main loop of a probe cycle takes any fuel: safety holds for every value, and the cycle
      ends within [(12 R + 11) ((T + 1) K + 2)] turns for [R] retries, a timeout of [T] seconds and
      a clock of [K] ticks per second.
    - The climbs and descents of the free space tree and the sifts of the heap take the size of the
      array; a search restarts once, since the rebuilt page cannot disappoint it again.
    - Reading a block takes one step more than it has items.
    - A retried broadcast takes the configured number of retries; an error while a transaction is
      being aborted is taken up again, and two attempts are enough.
    - Selecting a buffer takes two rounds more than there are buffers, reading a page two rounds,
      splitting the ids of a tree into pages as many steps as there are ids; verdicts and the walks
      over ids take a number of rounds as an argument, and are proved to be done when it exceeds
      the length of the way up, or the number of ids or pages passed.
    - The loops of a standby over ids take the distance of the ids, its binary search the number of cells
      and one; both are proved to be enough.

    ** Assumptions

    Interfaces with laws stand for what is outside the modelled code: libpq, [poll] and the clock;
    the local transaction manager of a segment; the fate of transactions and the snapshots of a
    segment ([HistoryLaws], what process array, commit log and distributed log promise); the
    comparison of a heap; the CRC routine; [malloc] for snapshots.  Where there are laws an
    instance shows that they can hold.  Recovery further assumes that an existing redo file can be
    opened and that a hash table scan visits each entry once; that it returns, also that the file can be
    read.  A message is performed while the
    broadcast waits for it or not at all.  What other sessions do while a lock is released is an
    argument of the routine.  The theorem on object ids speaks of histories that do not use up all
    ids, those on the process array of histories in which fewer than half of all ids lie between
    the oldest one of interest and the next; there a change of an entry is one step, and changes
    that need the lock do not happen while it is shared.  The theorem on the oldest id that matters is
    about all databases, and asks for a [vacuum_defer_cleanup_age] that stays within those ids.  On a
    standby all ids of a run are in one half of the ids; whether an id is prepared, committed or aborted
    is an argument of the routines that ask.

    ** Not modelled

    Debug logging, texts for messages, fault injection points, memory contexts, locks and sleeps
    inside the modelled routines.  Of the modelled components: the dispatch of subtransaction
    commands and of statements, shared snapshots of cursors, the log positions of asynchronous
    commits, the background loop of the fault tolerance service, the file access of append-only
    storage, the check of rows for logical decoding, and the two logs of multitransactions, whose
    members are an argument; of the process array, the snapshots that readers share with
    their writer, and the oldest id that matters to one database as far as theorems go; of a standby,
    the locks it holds for its primary.  Of the server: parser, planner and executor, the interconnect,
    storage manager, buffers and write-ahead log below the records used here, locks, resource
    groups and queues, memory accounting, catalogs and utilities; most of this is PostgreSQL or
    input and output around data structures.  Compilers and debuggers that are part of the source
    tree, and the Java and C++ subprojects, are other programs.

    Next in line are multitransactions and resource groups. *)
From stdpp Require Export base tactics list numbers option gmap sets strings.
From Stdlib Require Export ZArith Lia Sorted.

#[export] Set Default Goal Selector "!".
#[global] Open Scope Z_scope.

(** ** The development's proof automation

    [word_bits] rewrites the bit of a bitwise expression; [list_simpl] rewrites
    lengths and lookups. *)
Create HintDb word_bits discriminated.
Create HintDb gp discriminated.

(** ** Errors

    [elog(ERROR, ...)] unwinds the stack to the caller's handler: a routine that can
    raise returns [Err] with the message, every other one its value. *)
Inductive result (A : Type) : Type :=
  | Ok (a : A)
  | Err (msg : string).
Arguments Ok {A} a.
Arguments Err {A} msg.

#[global] Instance result_ret : MRet result := λ A a, Ok a.
#[global] Instance result_bind : MBind result := λ A B f m,
  match m with Ok a => f a | Err e => Err e end.
#[global] Instance result_fmap : FMap result := λ A B f m,
  match m with Ok a => Ok (f a) | Err e => Err e end.

#[global] Instance result_eq_dec `{EqDecision A} : EqDecision (result A).
Proof. solve_decision. Defined.

Definition is_ok {A} (r : result A) : bool :=
  match r with Ok _ => true | Err _ => false end.

Lemma result_bind_Ok {A B} (f : A → result B) (m : result A) (b : B) :
  m ≫= f = Ok b ↔ ∃ a, m = Ok a ∧ f a = Ok b.
Proof. destruct m; split; naive_solver. Qed.

(** ** Machine integers

    A [w]-bit unsigned value is a [Z] in [0 .. 2^w - 1]; an operation whose C result is
    reduced modulo [2^w] is written with the reduction. *)
Definition u8 (x : Z) : Z := x mod 2 ^ 8.
Definition u16 (x : Z) : Z := x mod 2 ^ 16.
Definition u32 (x : Z) : Z := x mod 2 ^ 32.
Definition u64 (x : Z) : Z := x mod 2 ^ 64.

(** The value of a 32-bit pattern read as a two's complement [int32]. *)
Definition s32 (x : Z) : Z :=
  let y := x mod 2 ^ 32 in if y <? 2 ^ 31 then y else y - 2 ^ 32.

(** The same for [int64]. *)
Definition s64 (x : Z) : Z :=
  let y := x mod 2 ^ 64 in if y <? 2 ^ 63 then y else y - 2 ^ 64.

Lemma s64_small x : - 2 ^ 63 ≤ x < 2 ^ 63 → s64 (x mod 2 ^ 64) = x.
Proof.
  intros Hx. unfold s64. rewrite Z.mod_mod by lia. destruct (decide (0 ≤ x)).
  - rewrite Z.mod_small by lia. destruct (Z.ltb_spec x (2 ^ 63)); lia.
  - rewrite <- (Z.mod_add x 1), Z.mul_1_l, Z.mod_small by lia.
    destruct (Z.ltb_spec (x + 2 ^ 64) (2 ^ 63)); lia.
Qed.

Lemma s32_small x : - 2 ^ 31 ≤ x < 2 ^ 31 → s32 x = x.
Proof.
  intros Hx. unfold s32. destruct (decide (0 ≤ x)).
  - rewrite Z.mod_small by lia. destruct (Z.ltb_spec x (2 ^ 31)); lia.
  - rewrite <- (Z.mod_add x 1), Z.mul_1_l, Z.mod_small by lia.
    destruct (Z.ltb_spec (x + 2 ^ 32) (2 ^ 31)); lia.
Qed.

(** [~w] on [uint32]. *)
Definition not32 (w : Z) : Z := u32 (Z.lnot w).

Definition is_u8 (w : Z) : Prop := 0 ≤ w < 2 ^ 8.
Definition is_u16 (w : Z) : Prop := 0 ≤ w < 2 ^ 16.
Definition is_u32 (w : Z) : Prop := 0 ≤ w < 2 ^ 32.

#[global] Instance is_u8_dec w : Decision (is_u8 w).
Proof. unfold is_u8; apply _. Defined.
#[global] Instance is_u16_dec w : Decision (is_u16 w).
Proof. unfold is_u16; apply _. Defined.
#[global] Instance is_u32_dec w : Decision (is_u32 w).
Proof. unfold is_u32; apply _. Defined.

Section Words.
Implicit Types w x y i : Z.

Lemma testbit_lt_pow2 w n i : 0 ≤ w < 2 ^ n → n ≤ i → Z.testbit w i = false.
Proof.
  intros Hw Hi. destruct (decide (0 ≤ n)) as [Hn|Hn].
  - rewrite <- (Z.mod_small w (2 ^ n)) by lia. by apply Z.mod_pow2_bits_high.
  - rewrite (Z.pow_neg_r 2 n) in Hw; lia.
Qed.

Lemma bits_range w n : 0 ≤ n → 0 ≤ w → (∀ i, n ≤ i → Z.testbit w i = false) → w < 2 ^ n.
Proof.
  intros Hn Hw Hbits. destruct (decide (w = 0)) as [->|]; [lia|].
  apply Z.log2_lt_pow2; [lia|]. apply Z.nle_gt; intros Hle.
  specialize (Hbits (Z.log2 w) Hle). rewrite Z.bit_log2 in Hbits; [done|lia].
Qed.

Lemma testbit_u32 w i : Z.testbit (u32 w) i = (i <? 32) && Z.testbit w i.
Proof. unfold u32. by rewrite Z.testbit_mod_pow2. Qed.

Lemma testbit_not32 w i :
  0 ≤ i → Z.testbit (not32 w) i = (i <? 32) && negb (Z.testbit w i).
Proof. intros Hi. unfold not32. by rewrite testbit_u32, Z.lnot_spec. Qed.

Lemma is_u32_lor x y : is_u32 x → is_u32 y → is_u32 (Z.lor x y).
Proof.
  unfold is_u32; intros Hx Hy. split; [apply Z.lor_nonneg; lia|].
  apply bits_range; [lia|apply Z.lor_nonneg; lia|]. intros i Hi.
  by rewrite Z.lor_spec, (testbit_lt_pow2 x 32), (testbit_lt_pow2 y 32).
Qed.

Lemma is_u32_land x y : is_u32 x → is_u32 (Z.land x y).
Proof.
  unfold is_u32; intros Hx. assert (0 ≤ Z.land x y) by (apply Z.land_nonneg; lia).
  split; [done|]. apply bits_range; [lia|done|]. intros i Hi.
  by rewrite Z.land_spec, (testbit_lt_pow2 x 32).
Qed.

Lemma is_u32_u32 x : is_u32 (u32 x).
Proof. unfold is_u32, u32. by apply Z.mod_pos_bound. Qed.

Lemma u32_small x : is_u32 x → u32 x = x.
Proof. apply Z.mod_small. Qed.

Lemma is_u32_pow2 i : 0 ≤ i < 32 → is_u32 (2 ^ i).
Proof. intros. unfold is_u32. split; [lia|]. apply Z.pow_lt_mono_r; lia. Qed.

Lemma testbit_pow2 i j : 0 ≤ i → Z.testbit (2 ^ i) j = bool_decide (i = j).
Proof.
  intros Hi. case_bool_decide; subst; [by apply Z.pow2_bits_true|].
  by apply Z.pow2_bits_false.
Qed.

Lemma word_eq_zero w :
  is_u32 w → w = 0 ↔ (∀ i, 0 ≤ i < 32 → Z.testbit w i = false).
Proof.
  intros Hw; split; [intros -> i _; apply Z.bits_0|]. intros Hb.
  apply Z.bits_inj'. intros i Hi. rewrite Z.bits_0.
  destruct (decide (i < 32)); [by apply Hb|]. apply (testbit_lt_pow2 w 32); [done|lia].
Qed.

Lemma word_nonzero w :
  is_u32 w → w ≠ 0 ↔ ∃ i, 0 ≤ i < 32 ∧ Z.testbit w i = true.
Proof.
  intros Hw; split.
  - intros Hne. exists (Z.log2 w). pose proof (Z.log2_nonneg w).
    unfold is_u32 in Hw. split; [|apply Z.bit_log2; lia].
    split; [done|]. apply Z.log2_lt_pow2; lia.
  - intros (i & _ & Hi) ->. by rewrite Z.bits_0 in Hi.
Qed.

Lemma word_ext x y :
  is_u32 x → is_u32 y → (∀ i, 0 ≤ i < 32 → Z.testbit x i = Z.testbit y i) → x = y.
Proof.
  intros Hx Hy Hb. apply Z.bits_inj'. intros i Hi.
  destruct (decide (i < 32)); [by apply Hb|].
  rewrite (testbit_lt_pow2 x 32), (testbit_lt_pow2 y 32); (done || lia).
Qed.
End Words.

#[export] Hint Resolve is_u32_lor is_u32_land is_u32_u32 is_u32_pow2 : gp.
#[export] Hint Rewrite Z.land_spec Z.lor_spec Z.lxor_spec testbit_u32 : word_bits.

(** ** Arrays of words

    [word_at ws i] reads [words[i]] (the code reads inside the array only; the default is
    never observed by it), [for_words n f ws] is the loop
    [for (i = 0; i < n; i++) words[i] = f(i, words[i])]. *)
Definition word_at (ws : list Z) (i : nat) : Z := default 0 (ws !! i).

Definition for_words (n : nat) (f : nat → Z → Z) (ws : list Z) : list Z :=
  imap (λ i w, if (i <? n)%nat then f i w else w) ws.

Section WordArrays.
Implicit Types ws : list Z.

Lemma word_at_ge ws i : (length ws ≤ i)%nat → word_at ws i = 0.
Proof. intros. unfold word_at. by rewrite lookup_ge_None_2. Qed.

Lemma word_at_u32 ws i : Forall is_u32 ws → is_u32 (word_at ws i).
Proof.
  intros Hws. unfold word_at. destruct (ws !! i) as [w|] eqn:E; simpl; [|done].
  by eapply Forall_lookup_1.
Qed.

Lemma length_for_words n f ws : length (for_words n f ws) = length ws.
Proof. unfold for_words. by rewrite length_imap. Qed.

Lemma word_at_for_words n f ws i :
  word_at (for_words n f ws) i =
    if (i <? n)%nat && (i <? length ws)%nat then f i (word_at ws i) else word_at ws i.
Proof.
  unfold word_at, for_words. rewrite list_lookup_imap.
  destruct (ws !! i) as [w|] eqn:E; simpl.
  - apply lookup_lt_Some in E. rewrite (proj2 (Nat.ltb_lt i (length ws))) by done.
    by rewrite andb_true_r.
  - apply lookup_ge_None in E. rewrite (proj2 (Nat.ltb_ge i (length ws))) by done.
    by rewrite andb_false_r.
Qed.

Lemma for_words_u32 n f ws :
  Forall is_u32 ws → (∀ i w, is_u32 w → is_u32 (f i w)) → Forall is_u32 (for_words n f ws).
Proof.
  intros Hws Hf. apply Forall_lookup_2. intros i x.
  unfold for_words. rewrite list_lookup_imap. intros (w & Hw & ->)%fmap_Some.
  pose proof (Forall_lookup_1 _ _ _ _ Hws Hw). case_match; auto.
Qed.

Lemma word_at_insert ws i j w :
  (i < length ws)%nat → word_at (<[i:=w]> ws) j = if decide (i = j) then w else word_at ws j.
Proof.
  intros Hi. unfold word_at. case_decide; subst.
  - by rewrite list_lookup_insert_eq.
  - by rewrite list_lookup_insert_ne.
Qed.

Lemma word_at_app_zeros ws n i : word_at (ws ++ replicate n 0) i = word_at ws i.
Proof.
  unfold word_at. destruct (decide (i < length ws)%nat).
  - by rewrite lookup_app_l.
  - rewrite lookup_app_r by lia. rewrite (lookup_ge_None_2 ws) by lia. simpl.
    destruct (decide (i - length ws < n)%nat).
    + by rewrite lookup_replicate_2.
    + rewrite lookup_ge_None_2; [done|]. rewrite length_replicate. lia.
Qed.
End WordArrays.

#[export] Hint Rewrite length_for_words : gp.

(** Case analysis on the tests of the code; the comparisons become hypotheses. *)
Ltac split_tests :=
  repeat match goal with
  | |- context [(?x <? ?y)%nat] => destruct (Nat.ltb_spec x y)
  | |- context [(?x <=? ?y)%nat] => destruct (Nat.leb_spec x y)
  | |- context [(?x <? ?y)%Z] => destruct (Z.ltb_spec x y)
  | |- context [(?x <=? ?y)%Z] => destruct (Z.leb_spec x y)
  | |- context [(?x =? ?y)%Z] => destruct (Z.eqb_spec x y)
  end.

(** ** Loops over an index range that return early *)
Lemma forallb_seq (f : nat → bool) s n :
  forallb f (seq s n) = true ↔ ∀ i, (s ≤ i < s + n)%nat → f i = true.
Proof. rewrite forallb_forall. by setoid_rewrite in_seq. Qed.

Lemma existsb_seq (f : nat → bool) s n :
  existsb f (seq s n) = true ↔ ∃ i, (s ≤ i < s + n)%nat ∧ f i = true.
Proof. rewrite existsb_exists. by setoid_rewrite in_seq. Qed.

(** ** Lists *)
Section Lists.
Context {A : Type}.
Implicit Types l : list A.

Lemma filter_ext_elem (P Q : A → Prop) `{∀ x, Decision (P x), ∀ x, Decision (Q x)} l :
  (∀ x, x ∈ l → P x ↔ Q x) → filter P l = filter Q l.
Proof.
  induction l as [|x l IH]; intros H'; [done|].
  rewrite !filter_cons, IH by (intros; apply H'; by right).
  specialize (H' x (list_elem_of_here _ _)). repeat case_decide; (done || tauto).
Qed.

Lemma filter_fmap {B} (P : B → Prop) `{∀ x, Decision (P x)} (f : A → B) l :
  filter P (f <$> l) = f <$> filter (λ x, P (f x)) l.
Proof.
  induction l as [|x l IH]; [done|]. rewrite fmap_cons, !filter_cons, IH. by case_decide.
Qed.

Lemma filter_none (P : A → Prop) `{∀ x, Decision (P x)} l :
  (∀ x, x ∈ l → ¬ P x) → filter P l = [].
Proof.
  intros H'. induction l as [|x l IH]; [done|]. rewrite filter_cons_False by (apply H'; left).
  apply IH. intros y Hy. apply H'. by right.
Qed.

Lemma filter_all (P : A → Prop) `{∀ x, Decision (P x)} l :
  (∀ x, x ∈ l → P x) → filter P l = l.
Proof.
  intros H'. induction l as [|x l IH]; [done|]. rewrite filter_cons_True by (apply H'; left).
  f_equal. apply IH. intros y Hy. apply H'. by right.
Qed.

Lemma lookup_last l x : (l ++ [x]) !! length l = Some x.
Proof. by rewrite lookup_app_r, Nat.sub_diag by lia. Qed.
End Lists.
