(* ===== verification/UpdateResult.v ===== *)
(** * Results of an attempt to update a row ([utils/snapshot.h])

    The codes that the checks of heap rows and of append-only rows share. *)
From S2P Require Import Prelude.

Inductive HTSU_Result :=
  | HeapTupleMayBeUpdated
  | HeapTupleInvisible
  | HeapTupleSelfUpdated
  | HeapTupleUpdated
  | HeapTupleBeingUpdated.

#[global] Instance HTSU_Result_eq_dec : EqDecision HTSU_Result.
Proof. solve_decision. Defined.
