(* ===== verification/Bitmapset.v ===== *)
(** * Bitmap sets ([nodes/bitmapset.c], [nodes/bitmapset.h])

    A [Bitmapset *] is [None] for the NULL pointer, which every routine accepts as the
    empty set, or the array of 32-bit words; [nwords] is the length of the array.  A routine
    that recycles an argument returns the recycled set; the argument is not used again.
    The specification is the finite set [bms_to_set] of the members. *)
From S2P Require Import Prelude.

Record Bitmapset := mkBitmapset { words : list Z }.

#[global] Instance Bitmapset_eq_dec : EqDecision Bitmapset.
Proof. solve_decision. Defined.

Abbreviation bms := (option Bitmapset).

Definition nwords (a : Bitmapset) : nat := length (words a).
Definition word (a : Bitmapset) (i : nat) : Z := word_at (words a) i.

Definition BITS_PER_BITMAPWORD : Z := 32.
Definition WORDNUM (x : Z) : nat := Z.to_nat (x / BITS_PER_BITMAPWORD).
Definition BITNUM (x : Z) : Z := x mod BITS_PER_BITMAPWORD.

(** [(bitmapword) RIGHTMOST_ONE(x)]: the macro works on the signed type, where the negation
    of the most negative value wraps to itself. *)
Definition RIGHTMOST_ONE (x : Z) : Z := u32 (Z.land (s32 x) (s32 (- s32 x))).
Definition HAS_MULTIPLE_ONES (x : Z) : bool := negb (RIGHTMOST_ONE x =? x).

Inductive BMS_Comparison := BMS_EQUAL | BMS_SUBSET1 | BMS_SUBSET2 | BMS_DIFFERENT.
Inductive BMS_Membership := BMS_EMPTY_SET | BMS_SINGLETON | BMS_MULTIPLE.

#[global] Instance BMS_Comparison_eq_dec : EqDecision BMS_Comparison.
Proof. solve_decision. Defined.
#[global] Instance BMS_Membership_eq_dec : EqDecision BMS_Membership.
Proof. solve_decision. Defined.

Definition rightmost_one_pos : list Z :=
  [0; 0; 1; 0; 2; 0; 1; 0; 3; 0; 1; 0; 2; 0; 1; 0;
   4; 0; 1; 0; 2; 0; 1; 0; 3; 0; 1; 0; 2; 0; 1; 0;
   5; 0; 1; 0; 2; 0; 1; 0; 3; 0; 1; 0; 2; 0; 1; 0;
   4; 0; 1; 0; 2; 0; 1; 0; 3; 0; 1; 0; 2; 0; 1; 0;
   6; 0; 1; 0; 2; 0; 1; 0; 3; 0; 1; 0; 2; 0; 1; 0;
   4; 0; 1; 0; 2; 0; 1; 0; 3; 0; 1; 0; 2; 0; 1; 0;
   5; 0; 1; 0; 2; 0; 1; 0; 3; 0; 1; 0; 2; 0; 1; 0;
   4; 0; 1; 0; 2; 0; 1; 0; 3; 0; 1; 0; 2; 0; 1; 0;
   7; 0; 1; 0; 2; 0; 1; 0; 3; 0; 1; 0; 2; 0; 1; 0;
   4; 0; 1; 0; 2; 0; 1; 0; 3; 0; 1; 0; 2; 0; 1; 0;
   5; 0; 1; 0; 2; 0; 1; 0; 3; 0; 1; 0; 2; 0; 1; 0;
   4; 0; 1; 0; 2; 0; 1; 0; 3; 0; 1; 0; 2; 0; 1; 0;
   6; 0; 1; 0; 2; 0; 1; 0; 3; 0; 1; 0; 2; 0; 1; 0;
   4; 0; 1; 0; 2; 0; 1; 0; 3; 0; 1; 0; 2; 0; 1; 0;
   5; 0; 1; 0; 2; 0; 1; 0; 3; 0; 1; 0; 2; 0; 1; 0;
   4; 0; 1; 0; 2; 0; 1; 0; 3; 0; 1; 0; 2; 0; 1; 0].

Definition number_of_ones : list Z :=
  [0; 1; 1; 2; 1; 2; 2; 3; 1; 2; 2; 3; 2; 3; 3; 4;
   1; 2; 2; 3; 2; 3; 3; 4; 2; 3; 3; 4; 3; 4; 4; 5;
   1; 2; 2; 3; 2; 3; 3; 4; 2; 3; 3; 4; 3; 4; 4; 5;
   2; 3; 3; 4; 3; 4; 4; 5; 3; 4; 4; 5; 4; 5; 5; 6;
   1; 2; 2; 3; 2; 3; 3; 4; 2; 3; 3; 4; 3; 4; 4; 5;
   2; 3; 3; 4; 3; 4; 4; 5; 3; 4; 4; 5; 4; 5; 5; 6;
   2; 3; 3; 4; 3; 4; 4; 5; 3; 4; 4; 5; 4; 5; 5; 6;
   3; 4; 4; 5; 4; 5; 5; 6; 4; 5; 5; 6; 5; 6; 6; 7;
   1; 2; 2; 3; 2; 3; 3; 4; 2; 3; 3; 4; 3; 4; 4; 5;
   2; 3; 3; 4; 3; 4; 4; 5; 3; 4; 4; 5; 4; 5; 5; 6;
   2; 3; 3; 4; 3; 4; 4; 5; 3; 4; 4; 5; 4; 5; 5; 6;
   3; 4; 4; 5; 4; 5; 5; 6; 4; 5; 5; 6; 5; 6; 6; 7;
   2; 3; 3; 4; 3; 4; 4; 5; 3; 4; 4; 5; 4; 5; 5; 6;
   3; 4; 4; 5; 4; 5; 5; 6; 4; 5; 5; 6; 5; 6; 6; 7;
   3; 4; 4; 5; 4; 5; 5; 6; 4; 5; 5; 6; 5; 6; 6; 7;
   4; 5; 5; 6; 5; 6; 6; 7; 5; 6; 6; 7; 6; 7; 7; 8].

Definition bms_copy (a : bms) : bms := a.

Definition bms_is_empty (a : bms) : bool :=
  match a with
  | None => true
  | Some a => forallb (λ wordnum, word a wordnum =? 0) (seq 0 (nwords a))
  end.

Definition bms_equal (a b : bms) : bool :=
  match a, b with
  | None, None => true
  | None, Some _ => bms_is_empty b
  | Some _, None => bms_is_empty a
  | Some a, Some b =>
      let '(shorter, longer) := if (nwords a <=? nwords b)%nat then (a, b) else (b, a) in
      let shortlen := nwords shorter in
      let longlen := nwords longer in
      forallb (λ i, word shorter i =? word longer i) (seq 0 shortlen) &&
      forallb (λ i, word longer i =? 0) (seq shortlen (longlen - shortlen))
  end.

(** The loop over the common words of [bms_compare]: its early return, if any. *)
Fixpoint bms_compare_common (a b : Bitmapset) (idx : list nat) : option Z :=
  match idx with
  | [] => None
  | i :: idx =>
      if word a i <? word b i then Some (-1)
      else if word b i <? word a i then Some 1
      else bms_compare_common a b idx
  end.

Definition bms_compare (a b : bms) : Z :=
  match a, b with
  | None, _ => if bms_is_empty b then 0 else -1
  | Some _, None => if bms_is_empty a then 0 else 1
  | Some a, Some b =>
      let '(shortlen, longlen, longer, sign) :=
        if (nwords a <=? nwords b)%nat then (nwords a, nwords b, b, -1)
        else (nwords b, nwords a, a, 1) in
      match bms_compare_common a b (seq 0 shortlen) with
      | Some r => r
      | None =>
          if existsb (λ i, negb (word longer i =? 0)) (seq shortlen (longlen - shortlen))
          then sign else 0
      end
  end.

Definition neg_member {A} : result A := Err "negative bitmapset member not allowed".

Definition bms_make_singleton (x : Z) : result bms :=
  if x <? 0 then neg_member
  else
    let wordnum := WORDNUM x in
    Ok (Some (mkBitmapset (<[wordnum := Z.shiftl 1 (BITNUM x)]> (replicate (wordnum + 1) 0)))).

Definition bms_union (a b : bms) : bms :=
  match a, b with
  | None, _ => bms_copy b
  | _, None => bms_copy a
  | Some a, Some b =>
      let '(result, other) := if (nwords a <=? nwords b)%nat then (b, a) else (a, b) in
      Some (mkBitmapset
        (for_words (nwords other) (λ i w, Z.lor w (word other i)) (words result)))
  end.

Definition bms_intersect (a b : bms) : bms :=
  match a, b with
  | None, _ | _, None => None
  | Some a, Some b =>
      let '(result, other) := if (nwords a <=? nwords b)%nat then (a, b) else (b, a) in
      Some (mkBitmapset
        (for_words (nwords result) (λ i w, Z.land w (word other i)) (words result)))
  end.

Definition bms_difference (a b : bms) : bms :=
  match a, b with
  | None, _ => None
  | _, None => bms_copy a
  | Some a, Some b =>
      let shortlen := Nat.min (nwords a) (nwords b) in
      Some (mkBitmapset
        (for_words shortlen (λ i w, Z.land w (not32 (word b i))) (words a)))
  end.

Definition bms_is_subset (a b : bms) : bool :=
  match a, b with
  | None, _ => true
  | Some _, None => bms_is_empty a
  | Some a, Some b =>
      let shortlen := Nat.min (nwords a) (nwords b) in
      forallb (λ i, Z.land (word a i) (not32 (word b i)) =? 0) (seq 0 shortlen) &&
      (if (nwords b <? nwords a)%nat
       then forallb (λ i, word a i =? 0) (seq shortlen (nwords a - shortlen))
       else true)
  end.

(** One side of the running comparison of [bms_subset_compare]: [found] says that a member of
    one set is missing from the other, which contradicts status [against] and sets [now];
    [None] is the early return of [BMS_DIFFERENT]. *)
Definition subset_status (found : bool) (against now : BMS_Comparison) (result : BMS_Comparison)
    : option BMS_Comparison :=
  if found then (if decide (result = against) then None else Some now) else Some result.

Fixpoint bms_subset_compare_common (a b : Bitmapset) (idx : list nat) (result : BMS_Comparison)
    : option BMS_Comparison :=
  match idx with
  | [] => Some result
  | i :: idx =>
      let aword := word a i in
      let bword := word b i in
      r1 ← subset_status (negb (Z.land aword (not32 bword) =? 0)) BMS_SUBSET1 BMS_SUBSET2 result;
      r2 ← subset_status (negb (Z.land bword (not32 aword) =? 0)) BMS_SUBSET2 BMS_SUBSET1 r1;
      bms_subset_compare_common a b idx r2
  end.

Fixpoint bms_subset_compare_extra (longer : Bitmapset) (against now : BMS_Comparison)
    (idx : list nat) (result : BMS_Comparison) : option BMS_Comparison :=
  match idx with
  | [] => Some result
  | i :: idx =>
      r ← subset_status (negb (word longer i =? 0)) against now result;
      bms_subset_compare_extra longer against now idx r
  end.

Definition bms_subset_compare (a b : bms) : BMS_Comparison :=
  match a, b with
  | None, None => BMS_EQUAL
  | None, Some _ => if bms_is_empty b then BMS_EQUAL else BMS_SUBSET1
  | Some _, None => if bms_is_empty a then BMS_EQUAL else BMS_SUBSET2
  | Some a, Some b =>
      let shortlen := Nat.min (nwords a) (nwords b) in
      default BMS_DIFFERENT
        (r ← bms_subset_compare_common a b (seq 0 shortlen) BMS_EQUAL;
         if (nwords b <? nwords a)%nat then
           bms_subset_compare_extra a BMS_SUBSET1 BMS_SUBSET2
             (seq shortlen (nwords a - shortlen)) r
         else if (nwords a <? nwords b)%nat then
           bms_subset_compare_extra b BMS_SUBSET2 BMS_SUBSET1
             (seq shortlen (nwords b - shortlen)) r
         else Some r)
  end.

Definition bms_is_member (x : Z) (a : bms) : result bool :=
  if x <? 0 then neg_member
  else match a with
  | None => Ok false
  | Some a =>
      let wordnum := WORDNUM x in
      if (nwords a <=? wordnum)%nat then Ok false
      else Ok (negb (Z.land (word a wordnum) (Z.shiftl 1 (BITNUM x)) =? 0))
  end.

Definition bms_overlap (a b : bms) : bool :=
  match a, b with
  | None, _ | _, None => false
  | Some a, Some b =>
      let shortlen := Nat.min (nwords a) (nwords b) in
      existsb (λ i, negb (Z.land (word a i) (word b i) =? 0)) (seq 0 shortlen)
  end.

Definition bms_nonempty_difference (a b : bms) : bool :=
  match a, b with
  | None, _ => false
  | Some _, None => negb (bms_is_empty a)
  | Some a, Some b =>
      let shortlen := Nat.min (nwords a) (nwords b) in
      existsb (λ i, negb (Z.land (word a i) (not32 (word b i)) =? 0)) (seq 0 shortlen) ||
      existsb (λ i, negb (word a i =? 0)) (seq shortlen (nwords a - shortlen))
  end.

(** [while ((w & 255) == 0) { w >>= 8; result += 8; }  result += rightmost_one_pos[w & 255];]
    on a nonzero 32-bit word: at most three shifts, so a fuel of four is never exhausted. *)
Fixpoint scan_low_byte (fuel : nat) (w result : Z) : Z :=
  match fuel with
  | O => result
  | S fuel =>
      if Z.land w 255 =? 0 then scan_low_byte fuel (Z.shiftr w 8) (result + 8)
      else result + default 0 (rightmost_one_pos !! Z.to_nat (Z.land w 255))
  end.

Fixpoint bms_singleton_member_loop (a : Bitmapset) (idx : list nat) (r : Z) : result Z :=
  match idx with
  | [] => if r <? 0 then Err "bitmapset is empty" else Ok r
  | wordnum :: idx =>
      let w := word a wordnum in
      if w =? 0 then bms_singleton_member_loop a idx r
      else if (0 <=? r) || HAS_MULTIPLE_ONES w then Err "bitmapset has multiple members"
      else bms_singleton_member_loop a idx
             (scan_low_byte 4 w (Z.of_nat wordnum * BITS_PER_BITMAPWORD))
  end.

Definition bms_singleton_member (a : bms) : result Z :=
  match a with
  | None => Err "bitmapset is empty"
  | Some a => bms_singleton_member_loop a (seq 0 (nwords a)) (-1)
  end.

(** [while (w != 0) { result += number_of_ones[w & 255]; w >>= 8; }]: a 32-bit word is zero
    after four shifts. *)
Fixpoint count_ones (fuel : nat) (w result : Z) : Z :=
  match fuel with
  | O => result
  | S fuel =>
      if w =? 0 then result
      else count_ones fuel (Z.shiftr w 8)
             (result + default 0 (number_of_ones !! Z.to_nat (Z.land w 255)))
  end.

Definition bms_num_members (a : bms) : Z :=
  match a with
  | None => 0
  | Some a => foldl (λ result wordnum, count_ones 4 (word a wordnum) result) 0 (seq 0 (nwords a))
  end.

Fixpoint bms_membership_loop (a : Bitmapset) (idx : list nat) (result : BMS_Membership)
    : BMS_Membership :=
  match idx with
  | [] => result
  | wordnum :: idx =>
      let w := word a wordnum in
      if w =? 0 then bms_membership_loop a idx result
      else if bool_decide (result ≠ BMS_EMPTY_SET) || HAS_MULTIPLE_ONES w then BMS_MULTIPLE
      else bms_membership_loop a idx BMS_SINGLETON
  end.

Definition bms_membership (a : bms) : BMS_Membership :=
  match a with
  | None => BMS_EMPTY_SET
  | Some a => bms_membership_loop a (seq 0 (nwords a)) BMS_EMPTY_SET
  end.

Definition bms_add_member (a : bms) (x : Z) : result bms :=
  if x <? 0 then neg_member
  else match a with
  | None => bms_make_singleton x
  | Some a =>
      let wordnum := WORDNUM x in
      let ws := if (nwords a <=? wordnum)%nat
                then words a ++ replicate (wordnum + 1 - nwords a) 0 else words a in
      Ok (Some (mkBitmapset (<[wordnum := Z.lor (word_at ws wordnum) (Z.shiftl 1 (BITNUM x))]> ws)))
  end.

Definition bms_covers_member (a : bms) (x : Z) : result bool :=
  if x <? 0 then neg_member
  else match a with
  | None => Ok false
  | Some a => Ok (WORDNUM x <? nwords a)%nat
  end.

Definition bms_resize (a : bms) (wc : nat) : bms :=
  match a with
  | Some a =>
      if (wc <=? nwords a)%nat then Some a
      else Some (mkBitmapset (words a ++ replicate (wc - nwords a) 0))
  | None => Some (mkBitmapset (replicate wc 0))
  end.

Definition bms_del_member (a : bms) (x : Z) : result bms :=
  if x <? 0 then neg_member
  else match a with
  | None => Ok None
  | Some a =>
      let wordnum := WORDNUM x in
      Ok (Some (if (wordnum <? nwords a)%nat
        then mkBitmapset
          (<[wordnum := Z.land (word a wordnum) (not32 (Z.shiftl 1 (BITNUM x)))]> (words a))
        else a))
  end.

Definition bms_add_members (a b : bms) : bms :=
  match a, b with
  | None, _ => bms_copy b
  | _, None => a
  | Some a, Some b =>
      let '(result, other) := if (nwords a <? nwords b)%nat then (b, a) else (a, b) in
      Some (mkBitmapset
        (for_words (nwords other) (λ i w, Z.lor w (word other i)) (words result)))
  end.

Definition bms_int_members (a b : bms) : bms :=
  match a, b with
  | None, _ | _, None => None
  | Some a, Some b =>
      let shortlen := Nat.min (nwords a) (nwords b) in
      Some (mkBitmapset
        (for_words (nwords a) (λ i w, if (i <? shortlen)%nat then Z.land w (word b i) else 0)
           (words a)))
  end.

Definition bms_del_members (a b : bms) : bms :=
  match a, b with
  | None, _ => None
  | _, None => a
  | Some a, Some b =>
      let shortlen := Nat.min (nwords a) (nwords b) in
      Some (mkBitmapset
        (for_words shortlen (λ i w, Z.land w (not32 (word b i))) (words a)))
  end.

Definition bms_join (a b : bms) : bms :=
  match a, b with
  | None, _ => b
  | _, None => a
  | Some a, Some b =>
      let '(result, other) := if (nwords a <? nwords b)%nat then (b, a) else (a, b) in
      Some (mkBitmapset
        (for_words (nwords other) (λ i w, Z.lor w (word other i)) (words result)))
  end.

Fixpoint bms_first_member_loop (a : Bitmapset) (idx : list nat) : Z * Bitmapset :=
  match idx with
  | [] => (-1, a)
  | wordnum :: idx =>
      let w := word a wordnum in
      if w =? 0 then bms_first_member_loop a idx
      else
        let w1 := RIGHTMOST_ONE w in
        (scan_low_byte 4 w1 (Z.of_nat wordnum * BITS_PER_BITMAPWORD),
         mkBitmapset (<[wordnum := Z.land w (not32 w1)]> (words a)))
  end.

(** The member found, and the set left in place of the argument. *)
Definition bms_first_member (a : bms) : Z * bms :=
  match a with
  | None => (-1, None)
  | Some a => let '(r, a') := bms_first_member_loop a (seq 0 (nwords a)) in (r, Some a')
  end.

Fixpoint bms_next_member_loop (a : Bitmapset) (idx : list nat) (mask : Z) : Z :=
  match idx with
  | [] => -2
  | wordnum :: idx =>
      let w := Z.land (word a wordnum) mask in
      if w =? 0 then bms_next_member_loop a idx (not32 0)
      else scan_low_byte 4 w (Z.of_nat wordnum * BITS_PER_BITMAPWORD)
  end.

Definition bms_next_member (a : bms) (prevbit : Z) : Z :=
  match a with
  | None => -2
  | Some a =>
      let prevbit := prevbit + 1 in
      let mask := u32 (Z.shiftl (not32 0) (BITNUM prevbit)) in
      bms_next_member_loop a (seq (WORDNUM prevbit) (nwords a - WORDNUM prevbit)) mask
  end.

Section Hash.
(** [hash_any] of [access/hash/hashfunc.c], applied to the words it is given. *)
Variable hash_any : list Z → Z.

(** [for (lastword = a->nwords; --lastword >= 0;) if (a->words[lastword] != 0) break;]:
    the number [lastword + 1] of words left. *)
Fixpoint bms_hash_lastword (a : Bitmapset) (n : nat) : nat :=
  match n with
  | O => O
  | S lastword => if word a lastword =? 0 then bms_hash_lastword a lastword else n
  end.

Definition bms_hash_value (a : bms) : Z :=
  match a with
  | None => 0
  | Some a =>
      match bms_hash_lastword a (nwords a) with
      | O => 0
      | n => hash_any (take n (words a))
      end
  end.
End Hash.

Arguments rightmost_one_pos : simpl never.
Arguments number_of_ones : simpl never.
Arguments scan_low_byte : simpl never.
Arguments count_ones : simpl never.

(** ** Specification: the finite set of members *)

Definition bit_at (ws : list Z) (x : Z) : bool :=
  Z.testbit (word_at ws (WORDNUM x)) (BITNUM x).

(** Every word of the array is a [uint32]. *)
Definition bms_wf (a : bms) : Prop :=
  match a with None => True | Some a => Forall is_u32 (words a) end.

Definition bms_has (a : bms) (x : Z) : bool :=
  match a with None => false | Some a => bit_at (words a) x end.

(** The members in ascending order, those of the first word first. *)
Fixpoint members_from (base : Z) (ws : list Z) : list Z :=
  match ws with
  | [] => []
  | w :: ws =>
      (Z.add base <$> filter (λ b, Z.testbit w b = true) (seqZ 0 32)) ++
      members_from (base + 32) ws
  end.

Definition bms_members (a : bms) : list Z :=
  match a with None => [] | Some a => members_from 0 (words a) end.

Definition bms_to_set (a : bms) : gset Z := list_to_set (bms_members a).

Section BitFacts.
Implicit Types ws : list Z.

Lemma WORDNUM_add (i : nat) b : 0 ≤ b < 32 → WORDNUM (32 * Z.of_nat i + b) = i.
Proof.
  intros. unfold WORDNUM, BITS_PER_BITMAPWORD.
  rewrite Z.mul_comm, Z.div_add_l, Z.div_small; lia.
Qed.

Lemma BITNUM_add (i : nat) b : 0 ≤ b < 32 → BITNUM (32 * Z.of_nat i + b) = b.
Proof.
  intros. unfold BITNUM, BITS_PER_BITMAPWORD.
  rewrite Z.add_comm, Z.mul_comm, Z_mod_plus_full, Z.mod_small; lia.
Qed.

Lemma BITNUM_range x : 0 ≤ BITNUM x < 32.
Proof. unfold BITNUM, BITS_PER_BITMAPWORD. by apply Z.mod_pos_bound. Qed.

Lemma WORDNUM_BITNUM x : 0 ≤ x → x = 32 * Z.of_nat (WORDNUM x) + BITNUM x.
Proof.
  intros. unfold WORDNUM, BITNUM, BITS_PER_BITMAPWORD.
  rewrite Z2Nat.id by (apply Z.div_pos; lia). by apply Z.div_mod.
Qed.

Lemma bit_at_add ws (i : nat) b :
  0 ≤ b < 32 → bit_at ws (32 * Z.of_nat i + b) = Z.testbit (word_at ws i) b.
Proof. intros. unfold bit_at. by rewrite WORDNUM_add, BITNUM_add. Qed.

(** A statement about all members is one about all bits of all words. *)
Lemma forall_bits (P : Z → Prop) :
  (∀ x, 0 ≤ x → P x) ↔ ∀ (i : nat) b, 0 ≤ b < 32 → P (32 * Z.of_nat i + b).
Proof.
  split; [intros H i b Hb; apply H; lia|]. intros H x Hx.
  rewrite (WORDNUM_BITNUM x) by done. apply H, BITNUM_range.
Qed.

Lemma bit_at_cons_lt w ws y : 0 ≤ y < 32 → bit_at (w :: ws) y = Z.testbit w y.
Proof. intros. by rewrite <- (bit_at_add (w :: ws) 0). Qed.

Lemma bit_at_cons_ge w ws y : 32 ≤ y → bit_at (w :: ws) y = bit_at ws (y - 32).
Proof.
  intros Hy. rewrite (WORDNUM_BITNUM (y - 32)) by lia.
  replace y with (32 * Z.of_nat (S (WORDNUM (y - 32))) + BITNUM (y - 32)) at 1;
    [|pose proof (WORDNUM_BITNUM (y - 32)); lia].
  rewrite !bit_at_add by apply BITNUM_range. done.
Qed.

Lemma bit_at_word_zero ws i b : word_at ws i = 0 → Z.testbit (word_at ws i) b = false.
Proof. intros ->. apply Z.bits_0. Qed.

Lemma elem_of_members_from base ws x :
  x ∈ members_from base ws ↔ base ≤ x ∧ bit_at ws (x - base) = true.
Proof.
  revert base. induction ws as [|w ws IH]; intros base; simpl.
  { split; [by intros ?%elem_of_nil|]. intros [_ H]. unfold bit_at in H.
    by rewrite word_at_ge, Z.bits_0 in H by (simpl; lia). }
  rewrite elem_of_app, IH, list_elem_of_fmap.
  setoid_rewrite list_elem_of_filter. setoid_rewrite elem_of_seqZ.
  destruct (decide (x - base < 32)).
  - split.
    + intros [(y & -> & Hw & Hy)|[? _]]; [|lia].
      replace (base + y - base) with y by lia. rewrite bit_at_cons_lt by lia. lia || (split; [lia|done]).
    + intros [Hx Hb]. left. exists (x - base). rewrite bit_at_cons_lt in Hb by lia.
      split_and!; [lia|done|lia|lia].
  - rewrite bit_at_cons_ge by lia. replace (x - base - 32) with (x - (base + 32)) by lia.
    split.
    + intros [(y & -> & _ & Hy)|[? ?]]; [lia|split; [lia|done]].
    + intros [? ?]. right. split; [lia|done].
Qed.

Lemma NoDup_members_from base ws : NoDup (members_from base ws).
Proof.
  revert base. induction ws as [|w ws IH]; intros base; simpl; [constructor|].
  apply NoDup_app. split_and!; [| |done].
  - apply NoDup_fmap_2; [intros ???; lia|]. apply NoDup_filter, NoDup_seqZ.
  - intros x (y & -> & Hy)%list_elem_of_fmap.
    apply list_elem_of_filter in Hy as [_ Hy%elem_of_seqZ].
    rewrite elem_of_members_from. lia.
Qed.
End BitFacts.

Section SetFacts.
Implicit Types a b : bms.

Lemma elem_of_bms_to_set a x : x ∈ bms_to_set a ↔ 0 ≤ x ∧ bms_has a x = true.
Proof.
  unfold bms_to_set. rewrite elem_of_list_to_set. destruct a as [a|]; simpl.
  - rewrite elem_of_members_from. by rewrite Z.sub_0_r.
  - rewrite elem_of_nil. naive_solver.
Qed.

Lemma bms_to_set_eq a b :
  bms_to_set a = bms_to_set b ↔ ∀ x, 0 ≤ x → bms_has a x = bms_has b x.
Proof.
  rewrite set_eq. setoid_rewrite elem_of_bms_to_set. split.
  - intros H x Hx. specialize (H x). destruct (bms_has a x), (bms_has b x); naive_solver.
  - intros H x. split; intros [Hx ?]; (split; [done|]); specialize (H x Hx); congruence.
Qed.

Lemma size_bms_to_set a : size (bms_to_set a) = length (bms_members a).
Proof.
  unfold bms_to_set. apply size_list_to_set.
  destruct a; [apply NoDup_members_from|constructor].
Qed.
End SetFacts.

(** ** The operations, bit by bit *)

(** Unfolds an operation on words at one bit and decides its range tests; a word outside its
    array has no bit set. *)
Ltac bit_simpl :=
  unfold bms_has, bit_at, word, nwords in *; simpl;
  repeat first
    [ rewrite word_at_for_words | progress simpl
    | match goal with |- context [word_at (if ?b then _ else _) _] => destruct b end ];
  split_tests; simpl; autorewrite with word_bits;
  rewrite ?testbit_not32 by apply BITNUM_range;
  repeat match goal with
  | |- context [word_at ?ws ?i] => rewrite (word_at_ge ws i) by lia
  end; rewrite ?Z.bits_0;
  pose proof BITNUM_range;
  repeat match goal with
  | |- context [BITNUM ?x <? 32] => rewrite (proj2 (Z.ltb_lt (BITNUM x) 32)) by apply BITNUM_range
  end; simpl; rewrite ?andb_true_r, ?andb_false_r, ?orb_false_r, ?orb_true_r; try done; try lia.

Section Pointwise.
Implicit Types a b : bms.

Lemma has_union a b x : bms_has (bms_union a b) x = bms_has a x || bms_has b x.
Proof.
  destruct a as [a|], b as [b|]; simpl; rewrite ?orb_false_r; try done.
  destruct (Nat.leb_spec (nwords a) (nwords b)); bit_simpl; by rewrite orb_comm.
Qed.

Lemma has_intersect a b x : bms_has (bms_intersect a b) x = bms_has a x && bms_has b x.
Proof.
  destruct a as [a|], b as [b|]; simpl; rewrite ?andb_false_r; try done.
  destruct (Nat.leb_spec (nwords a) (nwords b)); bit_simpl; by rewrite andb_comm.
Qed.

Lemma has_difference a b x : bms_has (bms_difference a b) x = bms_has a x && negb (bms_has b x).
Proof. destruct a as [a|], b as [b|]; simpl; rewrite ?andb_true_r; try done. bit_simpl. Qed.

Lemma has_add_members a b x : bms_has (bms_add_members a b) x = bms_has a x || bms_has b x.
Proof.
  destruct a as [a|], b as [b|]; simpl; rewrite ?orb_false_r; try done.
  destruct (Nat.ltb_spec (nwords a) (nwords b)); bit_simpl; by rewrite orb_comm.
Qed.

Lemma has_join a b x : bms_has (bms_join a b) x = bms_has a x || bms_has b x.
Proof. apply has_add_members. Qed.

Lemma has_int_members a b x : bms_has (bms_int_members a b) x = bms_has a x && bms_has b x.
Proof. destruct a as [a|], b as [b|]; simpl; rewrite ?andb_false_r; try done. bit_simpl. Qed.

Lemma has_del_members a b x :
  bms_has (bms_del_members a b) x = bms_has a x && negb (bms_has b x).
Proof. apply has_difference. Qed.
End Pointwise.

Section SingleMember.
Implicit Types a b : bms.

Lemma shiftl_1_pow2 n : 0 ≤ n → Z.shiftl 1 n = 2 ^ n.
Proof. intros. by rewrite Z.shiftl_mul_pow2, Z.mul_1_l. Qed.

Lemma member_coord x y :
  0 ≤ x → 0 ≤ y → WORDNUM x = WORDNUM y → BITNUM x = BITNUM y → x = y.
Proof. intros Hx Hy Hw Hb. rewrite (WORDNUM_BITNUM x), (WORDNUM_BITNUM y); congruence. Qed.

(** Setting one word of an array, seen at bit [y]. *)
Lemma bit_at_insert ws i w y :
  (i < length ws)%nat →
  bit_at (<[i:=w]> ws) y = if decide (i = WORDNUM y) then Z.testbit w (BITNUM y) else bit_at ws y.
Proof. intros Hi. unfold bit_at. rewrite word_at_insert by done. by case_decide. Qed.

Lemma bit_at_set_bit ws x y :
  0 ≤ x → 0 ≤ y → (WORDNUM x < length ws)%nat →
  bit_at (<[WORDNUM x := Z.lor (word_at ws (WORDNUM x)) (Z.shiftl 1 (BITNUM x))]> ws) y
  = bool_decide (y = x) || bit_at ws y.
Proof.
  intros Hx Hy Hl. pose proof (BITNUM_range x). rewrite bit_at_insert by done.
  case_decide as Hw.
  - rewrite Z.lor_spec, shiftl_1_pow2, testbit_pow2, Hw by lia. rewrite orb_comm. f_equal.
    apply bool_decide_ext. split; [|by intros ->]. intros. by apply member_coord.
  - rewrite bool_decide_eq_false_2; [done|]. by intros ->.
Qed.

Lemma bit_at_app_zeros ws n y : bit_at (ws ++ replicate n 0) y = bit_at ws y.
Proof. unfold bit_at. by rewrite word_at_app_zeros. Qed.

Lemma bit_at_zeros n y : bit_at (replicate n 0) y = false.
Proof. rewrite <- (app_nil_l (replicate n 0)), bit_at_app_zeros. apply Z.bits_0. Qed.

(** [bms_make_singleton] builds the set [{x}]. *)
Lemma has_make_singleton x y :
  0 ≤ x → 0 ≤ y → ∃ s, bms_make_singleton x = Ok s ∧ bms_has s y = bool_decide (y = x).
Proof.
  intros Hx Hy. unfold bms_make_singleton. destruct (Z.ltb_spec x 0); [lia|].
  eexists; split; [done|]. simpl. pose proof (BITNUM_range x).
  set (ws := replicate (WORDNUM x + 1) 0).
  assert (Hl : (WORDNUM x < length ws)%nat) by (unfold ws; rewrite length_replicate; lia).
  replace (Z.shiftl 1 (BITNUM x)) with (Z.lor (word_at ws (WORDNUM x)) (Z.shiftl 1 (BITNUM x))).
  - rewrite bit_at_set_bit by done. unfold ws. by rewrite bit_at_zeros, orb_false_r.
  - unfold word_at, ws. rewrite lookup_replicate_2 by lia. apply Z.lor_0_l.
Qed.

Lemma has_add_member a x y :
  0 ≤ x → 0 ≤ y → ∃ s, bms_add_member a x = Ok s ∧ bms_has s y = bool_decide (y = x) || bms_has a y.
Proof.
  intros Hx Hy. unfold bms_add_member. destruct (Z.ltb_spec x 0); [lia|].
  destruct a as [a|]; [|rewrite orb_false_r; by apply has_make_singleton].
  eexists; split; [done|]. simpl. unfold nwords.
  destruct (Nat.leb_spec (length (words a)) (WORDNUM x)).
  - rewrite bit_at_set_bit by (rewrite ?length_app, ?length_replicate; lia).
    by rewrite bit_at_app_zeros.
  - by rewrite bit_at_set_bit.
Qed.

Lemma has_del_member a x y :
  0 ≤ x → 0 ≤ y →
  ∃ s, bms_del_member a x = Ok s ∧ bms_has s y = negb (bool_decide (y = x)) && bms_has a y.
Proof.
  intros Hx Hy. unfold bms_del_member. destruct (Z.ltb_spec x 0); [lia|].
  destruct a as [a|]; simpl; [|eexists; split; [done|]; by rewrite andb_false_r].
  eexists; split; [done|]. pose proof (BITNUM_range x). pose proof (BITNUM_range y).
  unfold nwords, word. destruct (Nat.ltb_spec (WORDNUM x) (length (words a))); simpl.
  - rewrite bit_at_insert by done. case_decide as Hw.
    + rewrite Z.land_spec, testbit_not32, shiftl_1_pow2, testbit_pow2 by lia.
      rewrite (proj2 (Z.ltb_lt _ _)) by lia. simpl. rewrite Hw, andb_comm. f_equal. f_equal.
      apply bool_decide_ext. split; [|by intros ->]. intros. by apply member_coord.
    + rewrite bool_decide_eq_false_2; [done|]. by intros ->.
  - case_bool_decide as Hyx; [|done]. subst. simpl. unfold bit_at.
    rewrite word_at_ge by lia. apply Z.bits_0.
Qed.

Lemma has_resize a wc y : bms_has (bms_resize a wc) y = bms_has a y.
Proof.
  destruct a as [a|]; simpl; [|by rewrite bit_at_zeros].
  case_match; simpl; [done|]. apply bit_at_app_zeros.
Qed.

Lemma is_member_spec a x : 0 ≤ x → bms_is_member x a = Ok (bms_has a x).
Proof.
  intros Hx. unfold bms_is_member. destruct (Z.ltb_spec x 0); [lia|].
  destruct a as [a|]; [|done]. simpl. unfold nwords, word, bit_at.
  destruct (Nat.leb_spec (length (words a)) (WORDNUM x)); f_equal.
  - by rewrite word_at_ge, Z.bits_0.
  - pose proof (BITNUM_range x). rewrite shiftl_1_pow2 by lia.
    generalize (word_at (words a) (WORDNUM x)); intros w.
    destruct (Z.testbit w (BITNUM x)) eqn:E.
    + destruct (Z.eqb_spec (Z.land w (2 ^ BITNUM x)) 0) as [Hland|]; [|done].
      apply (f_equal (λ z, Z.testbit z (BITNUM x))) in Hland.
      rewrite Z.land_spec, E, Z.pow2_bits_true, Z.bits_0 in Hland by lia. done.
    + replace (Z.land w (2 ^ BITNUM x)) with 0; [done|]. symmetry. apply Z.bits_inj'.
      intros i Hi. rewrite Z.bits_0, Z.land_spec, testbit_pow2 by lia.
      case_bool_decide; subst; [by rewrite E|by rewrite andb_false_r].
Qed.
End SingleMember.

Section Predicates.
Implicit Types a b : bms.

Lemma word_zero_bits ws i :
  Forall is_u32 ws →
  word_at ws i = 0 ↔ ∀ c, 0 ≤ c < 32 → bit_at ws (32 * Z.of_nat i + c) = false.
Proof.
  intros Hws. rewrite word_eq_zero by by apply word_at_u32.
  split; intros H c Hc; specialize (H c Hc); [by rewrite bit_at_add|by rewrite bit_at_add in H].
Qed.

Lemma bms_is_empty_spec a : bms_wf a → bms_is_empty a = true ↔ ∀ x, 0 ≤ x → bms_has a x = false.
Proof.
  destruct a as [a|]; simpl; [|done]. intros Hwf. rewrite forallb_seq, forall_bits.
  setoid_rewrite Z.eqb_eq. split.
  - intros H i b Hb. destruct (decide (i < nwords a)%nat).
    + apply word_zero_bits; [done| |done]. apply H. lia.
    + rewrite bit_at_add by done. rewrite word_at_ge by (unfold nwords in *; lia). apply Z.bits_0.
  - intros H i _. apply word_zero_bits; [done|]. intros b Hb. by apply H.
Qed.

Lemma diff_word_zero x y :
  is_u32 x →
  Z.land x (not32 y) = 0 ↔ ∀ c, 0 ≤ c < 32 → Z.testbit x c = true → Z.testbit y c = true.
Proof.
  intros Hx. rewrite word_eq_zero by auto with gp. split.
  - intros H c Hc Hxc. specialize (H c Hc). rewrite Z.land_spec, testbit_not32 in H by lia.
    rewrite (proj2 (Z.ltb_lt _ _)), Hxc in H by lia. by destruct (Z.testbit y c).
  - intros H c Hc. specialize (H c Hc). rewrite Z.land_spec, testbit_not32 by lia.
    destruct (Z.testbit x c); [|done]. rewrite H by done. by rewrite andb_false_r.
Qed.

Lemma bms_is_subset_spec a b :
  bms_wf a → bms_is_subset a b = true ↔ bms_to_set a ⊆ bms_to_set b.
Proof.
  intros Hwf. transitivity (∀ x, 0 ≤ x → bms_has a x = true → bms_has b x = true).
  2:{ unfold subseteq, set_subseteq_instance. setoid_rewrite elem_of_bms_to_set. naive_solver. }
  destruct a as [a|]; simpl; [|naive_solver].
  destruct b as [b|]; simpl.
  2:{ rewrite (bms_is_empty_spec (Some a)) by done. simpl.
      split; intros H x Hx; specialize (H x Hx); destruct (bit_at (words a) x); naive_solver. }
  simpl in Hwf. rewrite andb_true_iff, forallb_seq, forall_bits. setoid_rewrite Z.eqb_eq.
  unfold word, nwords. split.
  - intros [H1 H2] i c Hc. rewrite !bit_at_add by done. intros Hia.
    destruct (decide (i < length (words a))%nat);
      [|by rewrite word_at_ge, Z.bits_0 in Hia by lia].
    destruct (decide (i < length (words b))%nat).
    + specialize (H1 i ltac:(lia)). rewrite diff_word_zero in H1 by by apply word_at_u32. by apply H1.
    + rewrite (proj2 (Nat.ltb_lt _ _)) in H2 by lia. rewrite forallb_seq in H2.
      specialize (H2 i ltac:(lia)). apply Z.eqb_eq in H2. by rewrite H2, Z.bits_0 in Hia.
  - intros H. split.
    + intros i Hi. apply diff_word_zero; [by apply word_at_u32|]. intros c Hc Hac.
      specialize (H i c Hc). rewrite !bit_at_add in H by done. by apply H.
    + case_match; [|done]. apply forallb_seq. intros i Hi. apply Z.eqb_eq.
      apply word_zero_bits; [done|]. intros c Hc. specialize (H i c Hc).
      destruct (bit_at (words a) _); [|done]. specialize (H eq_refl).
      rewrite bit_at_add, word_at_ge, Z.bits_0 in H by lia. done.
Qed.

Lemma bms_equal_spec a b :
  bms_wf a → bms_wf b → bms_equal a b = true ↔ bms_to_set a = bms_to_set b.
Proof.
  intros Ha Hb. rewrite bms_to_set_eq.
  destruct a as [a|], b as [b|]; simpl bms_equal.
  2:{ change (bms_is_empty (Some a) = true ↔ ∀ x, 0 ≤ x → bms_has (Some a) x = bms_has None x).
      by rewrite bms_is_empty_spec by done. }
  2:{ change (bms_is_empty (Some b) = true ↔ ∀ x, 0 ≤ x → bms_has None x = bms_has (Some b) x).
      rewrite bms_is_empty_spec by done. simpl. naive_solver. }
  2:{ naive_solver. }
  assert (∀ s l, Forall is_u32 (words s) → Forall is_u32 (words l) → (nwords s ≤ nwords l)%nat →
    forallb (λ i, word s i =? word l i) (seq 0 (nwords s)) &&
    forallb (λ i, word l i =? 0) (seq (nwords s) (nwords l - nwords s)) = true
    ↔ ∀ x, 0 ≤ x → bms_has (Some s) x = bms_has (Some l) x) as Hkey.
  { intros s l Hs Hl Hle. rewrite andb_true_iff, !forallb_seq. setoid_rewrite Z.eqb_eq.
    rewrite forall_bits. simpl. unfold word, nwords in *. split.
    - intros [H1 H2] i c Hc. rewrite !bit_at_add by done.
      destruct (decide (i < length (words s))%nat); [by rewrite H1 by lia|].
      rewrite (word_at_ge (words s)) by lia. destruct (decide (i < length (words l))%nat).
      + by rewrite H2 by lia.
      + by rewrite word_at_ge by lia.
    - intros H. split; intros i Hi.
      + apply word_ext; [by apply word_at_u32..|]. intros c Hc. specialize (H i c Hc).
        by rewrite !bit_at_add in H.
      + apply word_zero_bits; [done|]. intros c Hc. rewrite <- H by done.
        rewrite bit_at_add by done. rewrite word_at_ge by lia. apply Z.bits_0. }
  destruct (Nat.leb_spec (nwords a) (nwords b)); rewrite Hkey by (done || lia); [done|].
  split; intros H' x Hx; symmetry; by apply H'.
Qed.
End Predicates.

Section Overlap.
Implicit Types a b : bms.

Lemma bms_nonempty_difference_subset a b :
  bms_nonempty_difference a b = negb (bms_is_subset a b).
Proof.
  destruct a as [a|], b as [b|]; try done. simpl.
  assert (Hneg : ∀ f l, existsb (λ i : nat, negb (f i)) l = negb (forallb f l)).
  { intros f l. induction l as [|i l IH]; simpl; [done|]. rewrite IH. by destruct (f i). }
  rewrite negb_andb, (Hneg (λ i, Z.land (word a i) (not32 (word b i)) =? 0)).
  f_equal. rewrite (Hneg (λ i, word a i =? 0)). case_match eqn:Hlt; [done|].
  apply Nat.ltb_ge in Hlt. rewrite Nat.min_l, Nat.sub_diag by done. done.
Qed.

Lemma bms_overlap_spec a b :
  bms_wf a → bms_overlap a b = true ↔ ∃ x, x ∈ bms_to_set a ∩ bms_to_set b.
Proof.
  intros Hwf. setoid_rewrite elem_of_intersection. setoid_rewrite elem_of_bms_to_set.
  destruct a as [a|], b as [b|]; simpl; try naive_solver. simpl in Hwf.
  rewrite existsb_seq. setoid_rewrite negb_true_iff. setoid_rewrite Z.eqb_neq.
  unfold word, nwords. split.
  - intros (i & Hi & Hne). rewrite word_nonzero in Hne by (apply is_u32_land; by apply word_at_u32).
    destruct Hne as (c & Hc & Hbit).
    rewrite Z.land_spec, andb_true_iff in Hbit. destruct Hbit.
    exists (32 * Z.of_nat i + c). rewrite !bit_at_add by lia. split_and!; (done || lia).
  - intros (x & [Hx Ha] & _ & Hb). exists (WORDNUM x). unfold bit_at in *.
    assert (∀ ws, Z.testbit (word_at ws (WORDNUM x)) (BITNUM x) = true →
              (WORDNUM x < length ws)%nat) as Hlt.
    { intros ws Hbit. destruct (decide (WORDNUM x < length ws)%nat); [done|].
      by rewrite word_at_ge, Z.bits_0 in Hbit by lia. }
    pose proof (Hlt _ Ha). pose proof (Hlt _ Hb). split; [lia|]. intros Hland.
    apply (f_equal (λ z, Z.testbit z (BITNUM x))) in Hland.
    by rewrite Z.land_spec, Ha, Hb, Z.bits_0 in Hland.
Qed.

(** What the running status of [bms_subset_compare] records: whether a member of [a] missing
    from [b], and one of [b] missing from [a], has been seen; both is [BMS_DIFFERENT]. *)
Definition status_of (fa fb : bool) : option BMS_Comparison :=
  match fa, fb with
  | false, false => Some BMS_EQUAL
  | true, false => Some BMS_SUBSET2
  | false, true => Some BMS_SUBSET1
  | true, true => None
  end.

Lemma subset_status_a fa fb f :
  status_of fa fb ≫= subset_status f BMS_SUBSET1 BMS_SUBSET2 = status_of (fa || f) fb.
Proof. by destruct fa, fb, f. Qed.

Lemma subset_status_b fa fb f :
  status_of fa fb ≫= subset_status f BMS_SUBSET2 BMS_SUBSET1 = status_of fa (fb || f).
Proof. by destruct fa, fb, f. Qed.

Lemma subset_compare_common_status (a b : Bitmapset) idx fa fb :
  status_of fa fb ≫= bms_subset_compare_common a b idx =
  status_of (fa || existsb (λ i, negb (Z.land (word a i) (not32 (word b i)) =? 0)) idx)
            (fb || existsb (λ i, negb (Z.land (word b i) (not32 (word a i)) =? 0)) idx).
Proof.
  revert fa fb. induction idx as [|i idx IH]; intros fa fb.
  { simpl. rewrite !orb_false_r. by destruct (status_of fa fb). }
  simpl. rewrite !orb_assoc, <- IH, <- subset_status_b, <- subset_status_a.
  destruct (status_of fa fb) as [r|]; simpl; [|done].
  by destruct (subset_status _ _ _ r).
Qed.

Lemma subset_compare_extra_status_a (l : Bitmapset) idx fa fb :
  status_of fa fb ≫= bms_subset_compare_extra l BMS_SUBSET1 BMS_SUBSET2 idx =
  status_of (fa || existsb (λ i, negb (word l i =? 0)) idx) fb.
Proof.
  revert fa. induction idx as [|i idx IH]; intros fa.
  { simpl. rewrite orb_false_r. by destruct (status_of fa fb). }
  simpl. rewrite orb_assoc, <- IH, <- subset_status_a. by destruct (status_of fa fb).
Qed.

Lemma subset_compare_extra_status_b (l : Bitmapset) idx fa fb :
  status_of fa fb ≫= bms_subset_compare_extra l BMS_SUBSET2 BMS_SUBSET1 idx =
  status_of fa (fb || existsb (λ i, negb (word l i =? 0)) idx).
Proof.
  revert fb. induction idx as [|i idx IH]; intros fb.
  { simpl. rewrite orb_false_r. by destruct (status_of fa fb). }
  simpl. rewrite orb_assoc, <- IH, <- subset_status_b. by destruct (status_of fa fb).
Qed.

Lemma bms_subset_compare_status a b :
  bms_subset_compare a b =
  default BMS_DIFFERENT
    (status_of (bms_nonempty_difference a b) (bms_nonempty_difference b a)).
Proof.
  destruct a as [a|], b as [b|]; simpl; try done.
  2:{ by destruct (forallb _ _). }
  2:{ by destruct (forallb _ _). }
  f_equal. change (Some BMS_EQUAL) with (status_of false false).
  change (bms_subset_compare_common a b ?l BMS_EQUAL)
    with (status_of false false ≫= bms_subset_compare_common a b l).
  rewrite subset_compare_common_status. simpl.
  rewrite (Nat.min_comm (nwords b) (nwords a)).
  destruct (Nat.ltb_spec (nwords b) (nwords a)).
  - rewrite subset_compare_extra_status_a. rewrite Nat.min_r by lia.
    by rewrite Nat.sub_diag, orb_false_r.
  - destruct (Nat.ltb_spec (nwords a) (nwords b)).
    + rewrite subset_compare_extra_status_b. rewrite Nat.min_l by lia.
      by rewrite Nat.sub_diag, orb_false_r.
    + replace (nwords b) with (nwords a) by lia. rewrite Nat.min_id, Nat.sub_diag. simpl.
      rewrite !orb_false_r. by destruct (status_of _ _).
Qed.
End Overlap.

(** ** Well-formedness is preserved *)
Section WellFormed.
Implicit Types a b : bms.

Lemma bms_wf_word (a : Bitmapset) i : bms_wf (Some a) → is_u32 (word a i).
Proof. apply word_at_u32. Qed.

Lemma bms_wf_binop a b :
  bms_wf a → bms_wf b →
  bms_wf (bms_union a b) ∧ bms_wf (bms_intersect a b) ∧ bms_wf (bms_difference a b) ∧
  bms_wf (bms_add_members a b) ∧ bms_wf (bms_int_members a b) ∧
  bms_wf (bms_del_members a b) ∧ bms_wf (bms_join a b).
Proof.
  intros Ha Hb. destruct a as [a|], b as [b|]; simpl in *; split_and!; try done;
    repeat (case_match; simplify_eq); simpl in *; apply for_words_u32; try done;
    intros i w Hw; repeat case_match; auto using is_u32_land, is_u32_lor, bms_wf_word; done.
Qed.

Lemma Forall_u32_zeros n : Forall is_u32 (replicate n 0).
Proof. by apply Forall_replicate. Qed.

Lemma bms_wf_add_member a x s : bms_wf a → bms_add_member a x = Ok s → bms_wf s.
Proof.
  intros Ha. unfold bms_add_member, bms_make_singleton.
  pose proof (BITNUM_range x). assert (is_u32 (Z.shiftl 1 (BITNUM x))) as Hsh.
  { rewrite shiftl_1_pow2 by lia. by apply is_u32_pow2. }
  destruct a as [a|]; repeat case_match; intros [= <-]; simpl in *;
    apply Forall_insert; try done; try apply Forall_u32_zeros.
  - apply Forall_app; auto using Forall_u32_zeros.
  - apply is_u32_lor; [|done]. apply word_at_u32, Forall_app; auto using Forall_u32_zeros.
  - apply is_u32_lor; [|done]. by apply word_at_u32.
Qed.

Lemma bms_wf_del_member a x s : bms_wf a → bms_del_member a x = Ok s → bms_wf s.
Proof.
  intros Ha. unfold bms_del_member. repeat case_match; intros [= <-]; simpl in *; try done.
  apply Forall_insert; [done|]. apply is_u32_land. by apply word_at_u32.
Qed.

Lemma bms_wf_resize a wc : bms_wf a → bms_wf (bms_resize a wc).
Proof.
  intros Ha. destruct a as [a|]; simpl in *; repeat case_match; simpl; try done;
    rewrite ?Forall_app; auto using Forall_u32_zeros.
Qed.
End WellFormed.

