(* ===== verification/BitmapsetFacts.v ===== *)
(** * Bitmap sets: counting, searching, ordering, hashing, and the properties

    The facts about the routines that look inside a word: the byte tables, the isolation of the
    rightmost one, the two ways of iterating, the total order and the hash value; then the
    properties of the component against the finite sets of members. *)
From S2P Require Import Prelude Bitmapset.

(** ** Counting *)
Section Counting.

Definition ones (n w : Z) : Z := Z.of_nat (length (filter (λ b, Z.testbit w b = true) (seqZ 0 n))).

Lemma filter_testbit_ext (w w' : Z) (l : list Z) :
  (∀ b, b ∈ l → Z.testbit w b = Z.testbit w' b) →
  filter (λ b, Z.testbit w b = true) l = filter (λ b, Z.testbit w' b = true) l.
Proof. intros H. apply filter_ext_elem. by intros b Hb; rewrite H. Qed.

Lemma ones_split n w : 0 ≤ n → ones (8 + n) w = ones 8 (Z.land w 255) + ones n (Z.shiftr w 8).
Proof.
  intros Hn. unfold ones. rewrite seqZ_app by lia. rewrite filter_app, length_app.
  rewrite Nat2Z.inj_add. f_equal; f_equal.
  - f_equal. apply filter_testbit_ext. intros b Hb%elem_of_seqZ.
    rewrite Z.land_spec. change 255 with (Z.ones 8). rewrite Z.ones_spec_low by lia.
    by rewrite andb_true_r.
  - rewrite <- (Z.add_0_r (0 + 8)), <- (fmap_add_seqZ (0 + 8) 0 n).
    rewrite filter_fmap, length_fmap. f_equal. apply filter_ext_elem.
    intros b Hb%elem_of_seqZ. simpl. rewrite Z.shiftr_spec by lia.
    by replace (b + 8) with (0 + 8 + b) by lia.
Qed.

Lemma ones_0 n : ones n 0 = 0.
Proof.
  unfold ones. rewrite filter_none; [done|]. intros b _. by rewrite Z.bits_0.
Qed.

Lemma number_of_ones_table b :
  0 ≤ b < 256 → default 0 (number_of_ones !! Z.to_nat b) = ones 8 b.
Proof.
  assert (forallb (λ b, default 0 (number_of_ones !! Z.to_nat b) =? ones 8 b) (seqZ 0 256) = true)
    as Ht by (vm_compute; reflexivity).
  intros Hb. rewrite forallb_forall in Ht. apply Z.eqb_eq, Ht.
  apply list_elem_of_In, elem_of_seqZ. lia.
Qed.

Lemma land_255_range w : 0 ≤ Z.land w 255 < 256.
Proof. change 255 with (Z.ones 8). rewrite Z.land_ones by lia. by apply Z.mod_pos_bound. Qed.

Lemma count_ones_spec fuel w r :
  0 ≤ w < 2 ^ (8 * Z.of_nat fuel) → count_ones fuel w r = r + ones (8 * Z.of_nat fuel) w.
Proof.
  revert w r. induction fuel as [|fuel IH]; intros w r Hw; unfold count_ones; fold count_ones.
  { change (8 * Z.of_nat 0) with 0 in *. unfold ones. rewrite seqZ_nil by lia. simpl. lia. }
  destruct (Z.eqb_spec w 0) as [->|Hne]; [rewrite ones_0; lia|].
  replace (8 * Z.of_nat (S fuel)) with (8 + 8 * Z.of_nat fuel) in * by lia.
  rewrite ones_split, number_of_ones_table by (apply land_255_range || lia).
  rewrite IH; [lia|]. rewrite Z.shiftr_div_pow2 by lia. rewrite Z.pow_add_r in Hw by lia.
  split; [apply Z.div_pos; lia|]. apply Z.div_lt_upper_bound; lia.
Qed.

Lemma length_members_from base ws :
  Z.of_nat (length (members_from base ws)) = foldr (λ w n, ones 32 w + n) 0 ws.
Proof.
  revert base. induction ws as [|w ws IH]; intros base; simpl; [done|].
  by rewrite length_app, length_fmap, Nat2Z.inj_add, IH.
Qed.

Lemma word_at_seq ws : word_at ws <$> seq 0 (length ws) = ws.
Proof.
  apply list_eq. intros i. rewrite list_lookup_fmap.
  destruct (decide (i < length ws)%nat) as [Hi|].
  - rewrite lookup_seq_lt by done. simpl. unfold word_at.
    destruct (lookup_lt_is_Some_2 ws i Hi) as [w ->]. done.
  - rewrite lookup_seq_ge by lia. by rewrite lookup_ge_None_2 by lia.
Qed.

Lemma bms_num_members_spec a : bms_wf a → bms_num_members a = Z.of_nat (size (bms_to_set a)).
Proof.
  intros Hwf. rewrite size_bms_to_set. destruct a as [a|]; [|done]. simpl in *.
  rewrite length_members_from. rewrite <- (word_at_seq (words a)) at 1.
  unfold nwords, word. set (idx := seq 0 (length (words a))). clearbody idx.
  assert (∀ r, foldl (λ r i, count_ones 4 (word_at (words a) i) r) r idx =
               r + foldr (λ w n, ones 32 w + n) 0 (word_at (words a) <$> idx)) as Hf; [|by rewrite (Hf 0)].
  induction idx as [|i idx IH]; intros r; [simpl; lia|].
  rewrite fmap_cons. cbn [foldl foldr]. rewrite IH, count_ones_spec by (apply (word_at_u32 _ i Hwf)).
  change (8 * Z.of_nat 4) with 32. lia.
Qed.
End Counting.

(** ** Finding the lowest bit *)
Section LowestBit.

(** [k] is the position of the lowest bit set in [w]. *)
Definition lowest_bit (w k : Z) : Prop :=
  0 ≤ k ∧ Z.testbit w k = true ∧ ∀ j, 0 ≤ j < k → Z.testbit w j = false.

Lemma lowest_bit_unique w k k' : lowest_bit w k → lowest_bit w k' → k = k'.
Proof.
  intros (? & H1 & H2) (? & H3 & H4).
  destruct (Z.lt_trichotomy k k') as [|[|]]; [|done|].
  - by rewrite H4 in H1 by lia.
  - by rewrite H2 in H3 by lia.
Qed.

Lemma lowest_bit_range w k : is_u32 w → lowest_bit w k → k < 32.
Proof.
  intros Hw (_ & Hk & _). apply Z.nle_gt. intros Hle.
  by rewrite (testbit_lt_pow2 w 32) in Hk by done.
Qed.

Lemma rightmost_one_pos_table b :
  0 < b < 256 → lowest_bit b (default 0 (rightmost_one_pos !! Z.to_nat b)).
Proof.
  assert (forallb (λ b, let k := default 0 (rightmost_one_pos !! Z.to_nat b) in
      (0 <=? k) && Z.testbit b k && forallb (λ j, negb (Z.testbit b j)) (seqZ 0 k))
    (seqZ 1 255) = true) as Ht by (vm_compute; reflexivity).
  intros Hb. rewrite forallb_forall in Ht.
  specialize (Ht b ltac:(apply list_elem_of_In, elem_of_seqZ; lia)). cbv zeta in Ht. apply andb_true_iff in Ht as [[Hk Hbit]%andb_true_iff Hlow].
  rewrite forallb_forall in Hlow. split_and!; [by apply Z.leb_le|done|].
  intros j Hj. apply negb_true_iff, Hlow, list_elem_of_In, elem_of_seqZ. lia.
Qed.

Lemma testbit_land_255 w j : 0 ≤ j < 8 → Z.testbit (Z.land w 255) j = Z.testbit w j.
Proof.
  intros. rewrite Z.land_spec. change 255 with (Z.ones 8). rewrite Z.ones_spec_low by lia.
  by rewrite andb_true_r.
Qed.

Lemma lowest_bit_land_255 w k :
  lowest_bit (Z.land w 255) k → lowest_bit w k.
Proof.
  intros (Hk & Hbit & Hlow). assert (k < 8) as Hk8.
  { apply Z.nle_gt. intros Hle. rewrite (testbit_lt_pow2 (Z.land w 255) 8) in Hbit;
      [done|apply land_255_range|done]. }
  rewrite testbit_land_255 in Hbit by lia. split_and!; [done|done|].
  intros j Hj. rewrite <- testbit_land_255 by lia. by apply Hlow.
Qed.

Lemma lowest_bit_shiftr w k :
  Z.land w 255 = 0 → lowest_bit (Z.shiftr w 8) k → lowest_bit w (8 + k).
Proof.
  intros Hz (Hk & Hbit & Hlow). rewrite Z.shiftr_spec in Hbit by lia.
  split_and!; [lia|by rewrite Z.add_comm|]. intros j Hj. destruct (decide (j < 8)).
  - by rewrite <- testbit_land_255, Hz, Z.bits_0 by lia.
  - specialize (Hlow (j - 8) ltac:(lia)). rewrite Z.shiftr_spec in Hlow by lia.
    by replace (j - 8 + 8) with j in Hlow by lia.
Qed.

(** The byte scan returns [result] plus the position of the lowest bit; [fuel] bytes are
    enough for a word of [8 * fuel] bits. *)
Lemma scan_low_byte_spec fuel w r :
  0 < w < 2 ^ (8 * Z.of_nat fuel) →
  ∃ k, scan_low_byte fuel w r = r + k ∧ lowest_bit w k.
Proof.
  revert w r. induction fuel as [|fuel IH]; intros w r Hw;
    unfold scan_low_byte; fold scan_low_byte.
  { change (2 ^ (8 * Z.of_nat 0)) with 1 in Hw. lia. }
  destruct (Z.eqb_spec (Z.land w 255) 0) as [Hz|Hne].
  - assert (w = 256 * Z.shiftr w 8) as Hw'.
    { rewrite Z.shiftr_div_pow2 by lia. change 255 with (Z.ones 8) in Hz.
      rewrite Z.land_ones in Hz by lia. change (2 ^ 8) with 256 in *.
      pose proof (Z.div_mod w 256 ltac:(lia)). lia. }
    destruct (IH (Z.shiftr w 8) (r + 8)) as (k & -> & Hk).
    { replace (8 * Z.of_nat (S fuel)) with (8 + 8 * Z.of_nat fuel) in Hw by lia.
      rewrite Z.pow_add_r in Hw by lia. change (2 ^ 8) with 256 in Hw. lia. }
    exists (8 + k). split; [lia|]. by apply lowest_bit_shiftr.
  - eexists; split; [done|]. apply lowest_bit_land_255.
    pose proof (land_255_range w). apply rightmost_one_pos_table. lia.
Qed.

Lemma testbit_mod_eq x y n i :
  0 ≤ n → x mod 2 ^ n = y mod 2 ^ n → i < n → Z.testbit x i = Z.testbit y i.
Proof.
  intros Hn Heq Hi. rewrite <- (Z.mod_pow2_bits_low x n), <- (Z.mod_pow2_bits_low y n) by done.
  by rewrite Heq.
Qed.

Lemma s32_mod x : s32 x mod 2 ^ 32 = x mod 2 ^ 32.
Proof.
  unfold s32. destruct (_ <? _); [by apply Zmod_mod|].
  rewrite Zminus_mod, Z_mod_same_full, Z.sub_0_r. by rewrite !Zmod_mod.
Qed.

Lemma testbit_opp_above_lowest w k i :
  lowest_bit w k → 0 ≤ i → Z.testbit w i && Z.testbit (- w) i = bool_decide (k = i).
Proof.
  intros (Hk & Hbit & Hlow) Hi. destruct (decide (i < k)).
  { rewrite Hlow by lia. by rewrite bool_decide_eq_false_2 by lia. }
  assert (∃ m, w = (2 * m + 1) * 2 ^ k) as [m ->].
  { exists (Z.shiftr w (k + 1)).
    assert (w mod 2 ^ k = 0) as Hmod.
    { apply Z.bits_inj'. intros j Hj. rewrite Z.bits_0, Z.testbit_mod_pow2 by lia.
      destruct (Z.ltb_spec j k); [|done]. by apply Hlow. }
    apply Z.testbit_true in Hbit; [|done].
    rewrite Z.shiftr_div_pow2, Z.pow_add_r, <- Z.div_div by lia. change (2 ^ 1) with 2.
    pose proof (Z.div_mod w (2 ^ k) ltac:(lia)) as Hdiv. pose proof (Z.div_mod (w / 2 ^ k) 2 ltac:(lia)) as Hdiv2.
    rewrite Hbit in *. rewrite <- Hdiv2. lia. }
  replace (- ((2 * m + 1) * 2 ^ k)) with ((2 * Z.lnot m + 1) * 2 ^ k) by (unfold Z.lnot; lia).
  rewrite !Z.mul_pow2_bits by lia. case_bool_decide.
  - subst. rewrite Z.sub_diag. by rewrite !Z.testbit_odd_0.
  - replace (i - k) with (Z.succ (i - k - 1)) by lia.
    rewrite !Z.testbit_odd_succ, Z.lnot_spec by lia. by destruct (Z.testbit m _).
Qed.

Lemma RIGHTMOST_ONE_spec w k : is_u32 w → lowest_bit w k → RIGHTMOST_ONE w = 2 ^ k.
Proof.
  intros Hw Hlb. pose proof (lowest_bit_range _ _ Hw Hlb). destruct (Hlb) as (Hk & _).
  apply word_ext; [apply is_u32_u32|apply is_u32_pow2; lia|]. intros i Hi.
  unfold RIGHTMOST_ONE. rewrite testbit_u32, Z.land_spec, testbit_pow2 by lia.
  rewrite (proj2 (Z.ltb_lt i 32)) by lia. simpl.
  rewrite <- (testbit_opp_above_lowest w k i Hlb) by lia. f_equal.
  - apply (testbit_mod_eq _ _ 32); [lia|apply s32_mod|lia].
  - apply (testbit_mod_eq _ _ 32); [lia| |lia]. rewrite s32_mod, <- Z.sub_0_l, Zminus_mod.
    by rewrite s32_mod, <- Zminus_mod.
Qed.

Lemma word_lowest_bit w : is_u32 w → w ≠ 0 → ∃ k, lowest_bit w k ∧ k < 32.
Proof.
  intros Hw Hne. destruct (scan_low_byte_spec 4 w 0) as (k & _ & Hk).
  { unfold is_u32 in Hw. change (8 * Z.of_nat 4) with 32. lia. }
  exists k. split; [done|by apply (lowest_bit_range w)].
Qed.
End LowestBit.

(** ** Iteration *)
Section Iteration.

Lemma lowest_bit_land w mask c k :
  0 ≤ c → (∀ i, 0 ≤ i < 32 → Z.testbit mask i = (c <=? i)) →
  is_u32 w → lowest_bit (Z.land w mask) k →
  c ≤ k < 32 ∧ Z.testbit w k = true ∧ ∀ j, c ≤ j < k → Z.testbit w j = false.
Proof.
  intros Hc Hmask Hw Hlb. pose proof (lowest_bit_range (Z.land w mask) k (is_u32_land _ _ Hw) Hlb).
  destruct Hlb as (Hk & Hbit & Hlow). rewrite Z.land_spec, Hmask in Hbit by lia.
  apply andb_true_iff in Hbit as [Hbit Hck%Z.leb_le]. split_and!; [done|done|done|].
  intros j Hj. specialize (Hlow j ltac:(lia)). rewrite Z.land_spec, Hmask in Hlow by lia.
  rewrite (proj2 (Z.leb_le c j)) in Hlow by lia. by rewrite andb_true_r in Hlow.
Qed.

Lemma land_mask_zero w mask c i :
  (∀ i, 0 ≤ i < 32 → Z.testbit mask i = (c <=? i)) → Z.land w mask = 0 →
  0 ≤ i < 32 → c ≤ i → Z.testbit w i = false.
Proof.
  intros Hmask Hz Hi Hc. apply (f_equal (λ z, Z.testbit z i)) in Hz.
  rewrite Z.land_spec, Hmask, Z.bits_0, (proj2 (Z.leb_le c i)) in Hz by lia.
  by rewrite andb_true_r in Hz.
Qed.

Lemma next_member_loop_spec (a : Bitmapset) s n mask c :
  bms_wf (Some a) → 0 ≤ c < 32 → (nwords a ≤ s + n)%nat →
  (∀ i, 0 ≤ i < 32 → Z.testbit mask i = (c <=? i)) →
  let r := bms_next_member_loop a (seq s n) mask in
  let start := 32 * Z.of_nat s + c in
  (r = -2 ∧ ∀ x, start ≤ x → bms_has (Some a) x = false) ∨
  (start ≤ r ∧ bms_has (Some a) r = true ∧
   ∀ x, start ≤ x < r → bms_has (Some a) x = false).
Proof.
  intros Hwf. revert s mask c. induction n as [|n IH]; intros s mask c Hc Hlen Hmask; simpl.
  { left. split; [done|]. intros x Hx. unfold bit_at.
    rewrite word_at_ge; [apply Z.bits_0|]. unfold WORDNUM, BITS_PER_BITMAPWORD, nwords in *.
    assert (Z.of_nat s ≤ x / 32) by (apply Z.div_le_lower_bound; lia). lia. }
  pose proof (bms_wf_word a s Hwf) as Hw.
  destruct (Z.eqb_spec (Z.land (word a s) mask) 0) as [Hz|Hne].
  - assert (∀ x, 32 * Z.of_nat s + c ≤ x < 32 * Z.of_nat (S s) → bms_has (Some a) x = false) as Hword.
    { intros x Hx. replace x with (32 * Z.of_nat s + (x - 32 * Z.of_nat s)) by lia.
      simpl. rewrite bit_at_add by lia. apply (land_mask_zero _ mask c); (done || lia). }
    destruct (IH (S s) (not32 0) 0) as [[Hr Hnone]|(Hr & Hmem & Hmin)]; try lia.
    { intros i Hi. rewrite testbit_not32, Z.bits_0 by lia. simpl.
      rewrite andb_true_r. destruct (Z.ltb_spec i 32), (Z.leb_spec 0 i); (done || lia). }
    + left. split; [done|]. intros x Hx. destruct (decide (x < 32 * Z.of_nat (S s))).
      * apply Hword; lia.
      * apply Hnone; lia.
    + right. split_and!; [lia|done|]. intros x Hx. destruct (decide (x < 32 * Z.of_nat (S s))).
      * apply Hword; lia.
      * apply Hmin; lia.
  - destruct (scan_low_byte_spec 4 (Z.land (word a s) mask)
      (Z.of_nat s * BITS_PER_BITMAPWORD)) as (k & -> & Hk).
    { pose proof (is_u32_land _ mask Hw) as Hm. unfold is_u32 in Hm.
      change (8 * Z.of_nat 4) with 32. lia. }
    apply (lowest_bit_land _ _ c) in Hk as (Hk & Hbit & Hlow); [|lia|done|done].
    replace (Z.of_nat s * BITS_PER_BITMAPWORD + k) with (32 * Z.of_nat s + k)
      by (unfold BITS_PER_BITMAPWORD; lia).
    right. rewrite bit_at_add by lia. split_and!; [lia|done|]. intros x Hx.
    replace x with (32 * Z.of_nat s + (x - 32 * Z.of_nat s)) by lia.
    rewrite bit_at_add by lia. apply Hlow. lia.
Qed.

Lemma bms_next_member_spec a p :
  bms_wf a → -1 ≤ p →
  (bms_next_member a p = -2 ∧ ∀ x, p < x → x ∉ bms_to_set a) ∨
  (p < bms_next_member a p ∧ bms_next_member a p ∈ bms_to_set a ∧
   ∀ x, p < x < bms_next_member a p → x ∉ bms_to_set a).
Proof.
  intros Hwf Hp. setoid_rewrite elem_of_bms_to_set. destruct a as [a|]; [|left; naive_solver].
  pose proof (BITNUM_range (p + 1)). unfold bms_next_member; cbv zeta.
  destruct (next_member_loop_spec a (WORDNUM (p + 1)) (nwords a - WORDNUM (p + 1))
    (u32 (Z.shiftl (not32 0) (BITNUM (p + 1)))) (BITNUM (p + 1))) as [[Hr Hnone]|(Hr & Hmem & Hmin)];
    try done; try lia.
  - intros i Hi. rewrite testbit_u32, (proj2 (Z.ltb_lt i 32)) by lia. simpl.
    rewrite Z.shiftl_spec by lia. destruct (Z.leb_spec (BITNUM (p + 1)) i).
    + rewrite testbit_not32, Z.bits_0 by lia. simpl. rewrite andb_true_r. apply Z.ltb_lt. lia.
    + apply Z.testbit_neg_r. lia.
  - left. rewrite <- WORDNUM_BITNUM in Hnone by lia. split; [done|].
    intros x Hx [_ Hhas]. rewrite Hnone in Hhas by lia. done.
  - right. rewrite <- WORDNUM_BITNUM in Hr, Hmin by lia. split_and!; [lia|lia|done|].
    intros x Hx [_ Hhas]. rewrite Hmin in Hhas by lia. done.
Qed.

(** [x = -1; while ((x = bms_next_member(a, x)) >= 0) process x;] *)
Fixpoint bms_iterate (fuel : nat) (a : bms) (x : Z) : list Z :=
  match fuel with
  | O => []
  | S fuel =>
      let x' := bms_next_member a x in
      if 0 <=? x' then x' :: bms_iterate fuel a x' else []
  end.

Lemma bms_iterate_spec fuel a p :
  bms_wf a → -1 ≤ p → (size (filter (Z.lt p) (bms_to_set a)) < fuel)%nat →
  StronglySorted Z.lt (bms_iterate fuel a p) ∧
  ∀ x, x ∈ bms_iterate fuel a p ↔ p < x ∧ x ∈ bms_to_set a.
Proof.
  intros Hwf. revert p. induction fuel as [|fuel IH]; intros p Hp Hsize; [lia|]. simpl.
  destruct (bms_next_member_spec a p) as [[-> Hnone]|(Hr & Hmem & Hmin)]; [done|done| |].
  { simpl. split; [constructor|]. intros x. rewrite elem_of_nil. naive_solver. }
  set (r := bms_next_member a p) in *. rewrite (proj2 (Z.leb_le 0 r)) by lia.
  destruct (IH r) as [Hsort Helem]; [lia| |].
  { enough (filter (Z.lt r) (bms_to_set a) ⊂ filter (Z.lt p) (bms_to_set a)) as Hss%subset_size
      by lia.
    split; [set_solver by lia|]. intros Hsub. specialize (Hsub r).
    rewrite !elem_of_filter in Hsub. destruct Hsub; [by split|lia]. }
  split.
  - constructor; [done|]. apply Forall_forall. intros x Hx. by apply Helem in Hx as [? _].
  - intros x. rewrite elem_of_cons, Helem. split.
    + intros [->|[Hlt Hin]]; [done|]. split; [lia|done].
    + intros [Hlt Hin]. destruct (Z.lt_trichotomy x r) as [Hxr|[->|Hxr]]; [|by left|by right].
      destruct (Hmin x); [lia|done].
Qed.

Lemma first_member_loop_spec (a : Bitmapset) s n :
  bms_wf (Some a) → (nwords a = s + n)%nat →
  (∀ x, 0 ≤ x < 32 * Z.of_nat s → bms_has (Some a) x = false) →
  let '(r, a') := bms_first_member_loop a (seq s n) in
  (r = -1 ∧ a' = a ∧ ∀ x, 0 ≤ x → bms_has (Some a) x = false) ∨
  (0 ≤ r ∧ bms_has (Some a) r = true ∧ (∀ x, 0 ≤ x < r → bms_has (Some a) x = false) ∧
   bms_wf (Some a') ∧
   ∀ x, 0 ≤ x → bms_has (Some a') x = negb (bool_decide (x = r)) && bms_has (Some a) x).
Proof.
  intros Hwf. revert s. induction n as [|n IH]; intros s Hlen Hlow; simpl.
  { left. split_and!; [done|done|]. intros x Hx. destruct (decide (x < 32 * Z.of_nat s)).
    - apply Hlow; lia.
    - unfold bit_at. rewrite word_at_ge; [apply Z.bits_0|].
      unfold WORDNUM, BITS_PER_BITMAPWORD, nwords in *.
      assert (Z.of_nat s ≤ x / 32) by (apply Z.div_le_lower_bound; lia). lia. }
  pose proof (bms_wf_word a s Hwf) as Hw.
  destruct (Z.eqb_spec (word a s) 0) as [Hz|Hne].
  { apply IH; [lia|]. intros x Hx. destruct (decide (x < 32 * Z.of_nat s)); [apply Hlow; lia|].
    replace x with (32 * Z.of_nat s + (x - 32 * Z.of_nat s)) by lia. simpl.
    rewrite bit_at_add by lia. unfold word in Hz. by rewrite Hz, Z.bits_0. }
  destruct (word_lowest_bit _ Hw Hne) as (k & Hk & Hk32). destruct (Hk) as (Hk0 & Hbit & Hmin).
  rewrite (RIGHTMOST_ONE_spec _ k) by done.
  destruct (scan_low_byte_spec 4 (2 ^ k) (Z.of_nat s * BITS_PER_BITMAPWORD)) as (k' & -> & Hk').
  { pose proof (is_u32_pow2 k ltac:(lia)) as Hp. unfold is_u32 in Hp.
    change (8 * Z.of_nat 4) with 32. lia. }
  assert (k' = k) as ->.
  { apply (lowest_bit_unique (2 ^ k)); [done|]. split_and!; [done|by apply Z.pow2_bits_true|].
    intros j Hj. apply Z.pow2_bits_false. lia. }
  replace (Z.of_nat s * BITS_PER_BITMAPWORD + k) with (32 * Z.of_nat s + k)
    by (unfold BITS_PER_BITMAPWORD; lia).
  assert (s < length (words a))%nat as Hs by (unfold nwords in Hlen; lia).
  right. rewrite bit_at_add by lia. split_and!; [lia|done| | |].
  - intros x Hx. destruct (decide (x < 32 * Z.of_nat s)); [apply Hlow; lia|].
    replace x with (32 * Z.of_nat s + (x - 32 * Z.of_nat s)) by lia.
    rewrite bit_at_add by lia. apply Hmin. lia.
  - simpl. apply Forall_insert; [done|by apply is_u32_land].
  - intros x Hx. simpl. rewrite bit_at_insert by done. pose proof (BITNUM_range x).
    pose proof (WORDNUM_BITNUM x Hx) as Hx'. unfold bit_at.
    case_decide as Hsx; [subst s|].
    + rewrite Z.land_spec, testbit_not32, testbit_pow2 by lia.
      rewrite (proj2 (Z.ltb_lt (BITNUM x) 32)) by lia. simpl. unfold word.
      rewrite andb_comm. f_equal. f_equal. apply bool_decide_ext. lia.
    + rewrite bool_decide_eq_false_2; [done|]. intros Heq. apply Hsx.
      rewrite Heq. by rewrite WORDNUM_add by lia.
Qed.
End Iteration.

(** ** Zero, one or several members *)
Section Membership.

Definition word_members (base w : Z) : list Z :=
  Z.add base <$> filter (λ b, Z.testbit w b = true) (seqZ 0 32).

Lemma elem_of_word_members base w x :
  x ∈ word_members base w ↔ base ≤ x < base + 32 ∧ Z.testbit w (x - base) = true.
Proof.
  unfold word_members. rewrite list_elem_of_fmap. setoid_rewrite list_elem_of_filter.
  setoid_rewrite elem_of_seqZ. split.
  - intros (y & -> & Hy & Hr). replace (base + y - base) with y by lia. split; [lia|done].
  - intros [Hr Hx]. exists (x - base). split_and!; [lia|done|lia|lia].
Qed.

Lemma NoDup_word_members base w : NoDup (word_members base w).
Proof.
  apply NoDup_fmap_2; [intros ???; lia|]. apply NoDup_filter, NoDup_seqZ.
Qed.

Lemma word_members_zero base : word_members base 0 = [].
Proof. unfold word_members. rewrite filter_none; [done|]. intros b _. by rewrite Z.bits_0. Qed.

Lemma NoDup_singleton_list (l : list Z) x :
  NoDup l → (∀ y, y ∈ l ↔ y = x) → l = [x].
Proof.
  intros Hnd Hl. apply Permutation_singleton_r, NoDup_Permutation; [done|apply NoDup_singleton|].
  intros y. by rewrite Hl, list_elem_of_singleton.
Qed.

Lemma word_members_single base w :
  is_u32 w → w ≠ 0 → HAS_MULTIPLE_ONES w = false →
  word_members base w = [scan_low_byte 4 w base].
Proof.
  intros Hw Hne Hone. destruct (scan_low_byte_spec 4 w base) as (k & -> & Hk).
  { unfold is_u32 in Hw. change (8 * Z.of_nat 4) with 32. lia. }
  pose proof (lowest_bit_range _ _ Hw Hk). destruct (Hk) as (Hk0 & _).
  unfold HAS_MULTIPLE_ONES in Hone. apply negb_false_iff, Z.eqb_eq in Hone.
  rewrite (RIGHTMOST_ONE_spec w k) in Hone by done.
  apply NoDup_singleton_list; [apply NoDup_word_members|]. intros y.
  rewrite elem_of_word_members, <- Hone, testbit_pow2, bool_decide_eq_true by lia. lia.
Qed.

Lemma word_members_multiple base w :
  is_u32 w → HAS_MULTIPLE_ONES w = true → ∃ x y l, word_members base w = x :: y :: l.
Proof.
  intros Hw Hone. unfold HAS_MULTIPLE_ONES in Hone. apply negb_true_iff, Z.eqb_neq in Hone.
  destruct (decide (w = 0)) as [->|Hne]; [by vm_compute in Hone|].
  destruct (word_lowest_bit w Hw Hne) as (k & Hk & Hk32). destruct (Hk) as (Hk0 & Hbit & _).
  rewrite (RIGHTMOST_ONE_spec w k) in Hone by done.
  destruct (word_members base w) as [|x [|y l]] eqn:Hl; [| |by eauto].
  - assert (base + k ∈ word_members base w) as Hin; [|by rewrite Hl, elem_of_nil in Hin].
    apply elem_of_word_members. replace (base + k - base) with k by lia. split; [lia|done].
  - destruct Hone. apply word_ext; [by apply is_u32_pow2|done|]. intros i Hi.
    rewrite testbit_pow2 by done. case_bool_decide; [by subst|].
    destruct (Z.testbit w i) eqn:Hwi; [|done].
    assert (∀ j, 0 ≤ j < 32 → Z.testbit w j = true → base + j = x) as Hx.
    { intros j Hj Hwj. apply list_elem_of_singleton. rewrite <- Hl, elem_of_word_members.
      replace (base + j - base) with j by lia. split; [lia|done]. }
    pose proof (Hx i Hi Hwi). pose proof (Hx k ltac:(lia) Hbit). lia.
Qed.

Lemma members_from_cons base w ws :
  members_from base (w :: ws) = word_members base w ++ members_from (base + 32) ws.
Proof. done. Qed.

Lemma word_drop (a : Bitmapset) s w ws : drop s (words a) = w :: ws → word a s = w.
Proof.
  intros Hd. unfold word, word_at. rewrite <- (Nat.add_0_r s) at 1.
  by rewrite <- lookup_drop, Hd.
Qed.

Lemma drop_S_tail {A} (l : list A) s x l' : drop s l = x :: l' → drop (S s) l = l'.
Proof. intros Hd. rewrite <- Nat.add_1_r, <- drop_drop, Hd. done. Qed.

Lemma singleton_member_loop_spec (a : Bitmapset) ws s r :
  bms_wf (Some a) → drop s (words a) = ws →
  bms_singleton_member_loop a (seq s (length ws)) r =
  match members_from (32 * Z.of_nat s) ws with
  | [] => if r <? 0 then Err "bitmapset is empty" else Ok r
  | [x] => if r <? 0 then Ok x else Err "bitmapset has multiple members"
  | _ => Err "bitmapset has multiple members"
  end.
Proof.
  intros Hwf. revert s r. induction ws as [|w ws IH]; intros s r Hd; [done|].
  pose proof (word_drop a s w ws Hd) as Hws. pose proof (bms_wf_word a s Hwf) as Hw.
  rewrite Hws in Hw. rewrite members_from_cons.
  cbn [length seq bms_singleton_member_loop]. rewrite Hws.
  destruct (Z.eqb_spec w 0) as [->|Hne].
  { rewrite word_members_zero, (IH (S s)) by (by eapply drop_S_tail).
    by replace (32 * Z.of_nat (S s)) with (32 * Z.of_nat s + 32) by lia. }
  destruct (HAS_MULTIPLE_ONES w) eqn:Hone.
  { rewrite orb_true_r. by destruct (word_members_multiple (32 * Z.of_nat s) w) as (x & y & l & ->). }
  rewrite orb_false_r, (word_members_single _ w) by done.
  replace (Z.of_nat s * BITS_PER_BITMAPWORD) with (32 * Z.of_nat s)
    by (unfold BITS_PER_BITMAPWORD; lia).
  destruct (scan_low_byte_spec 4 w (32 * Z.of_nat s)) as (k & -> & Hk0 & _).
  { unfold is_u32 in Hw. change (8 * Z.of_nat 4) with 32. lia. }
  destruct (Z.leb_spec 0 r); [|].
  { rewrite (proj2 (Z.ltb_ge r 0)) by done. simpl. by destruct (members_from _ _). }
  rewrite (IH (S s)) by (by eapply drop_S_tail). rewrite (proj2 (Z.ltb_ge _ 0)) by lia.
  rewrite (proj2 (Z.ltb_lt r 0)) by lia. simpl.
  replace (32 * Z.of_nat s + 32) with (32 * Z.of_nat (S s)) by lia.
  by destruct (members_from _ _) as [|y [|y' l]].
Qed.

Lemma bms_singleton_member_spec a :
  bms_wf a →
  bms_singleton_member a =
  match bms_members a with
  | [] => Err "bitmapset is empty"
  | [x] => Ok x
  | _ => Err "bitmapset has multiple members"
  end.
Proof.
  intros Hwf. destruct a as [a|]; [|done]. simpl. unfold nwords.
  by rewrite (singleton_member_loop_spec a (words a) 0).
Qed.

Lemma membership_loop_spec (a : Bitmapset) ws s r :
  bms_wf (Some a) → drop s (words a) = ws → r ≠ BMS_MULTIPLE →
  bms_membership_loop a (seq s (length ws)) r =
  match members_from (32 * Z.of_nat s) ws with
  | [] => r
  | [x] => if decide (r = BMS_EMPTY_SET) then BMS_SINGLETON else BMS_MULTIPLE
  | _ => BMS_MULTIPLE
  end.
Proof.
  intros Hwf. revert s r. induction ws as [|w ws IH]; intros s r Hd Hr; [done|].
  pose proof (word_drop a s w ws Hd) as Hws. pose proof (bms_wf_word a s Hwf) as Hw.
  rewrite Hws in Hw. rewrite members_from_cons.
  cbn [length seq bms_membership_loop]. rewrite Hws.
  destruct (Z.eqb_spec w 0) as [->|Hne].
  { rewrite word_members_zero, (IH (S s)) by (by eapply drop_S_tail || done).
    by replace (32 * Z.of_nat (S s)) with (32 * Z.of_nat s + 32) by lia. }
  destruct (HAS_MULTIPLE_ONES w) eqn:Hone.
  { rewrite orb_true_r. by destruct (word_members_multiple (32 * Z.of_nat s) w) as (x & y & l & ->). }
  rewrite orb_false_r, (word_members_single _ w) by done.
  replace (32 * Z.of_nat s + 32) with (32 * Z.of_nat (S s)) by lia.
  destruct r; [|by destruct (members_from _ _)|done].
  simpl. rewrite (IH (S s)) by (by eapply drop_S_tail || done).
  by destruct (members_from _ _) as [|y [|y' l]].
Qed.

Lemma bms_membership_spec a :
  bms_wf a →
  bms_membership a =
  match bms_members a with [] => BMS_EMPTY_SET | [_] => BMS_SINGLETON | _ => BMS_MULTIPLE end.
Proof.
  intros Hwf. destruct a as [a|]; [|done]. simpl. unfold nwords.
  by rewrite (membership_loop_spec a (words a) 0).
Qed.
End Membership.

(** ** The order of [bms_compare] and the hash value *)
Section Order.
Implicit Types a b c : bms.

Definition bms_word (a : bms) (i : nat) : Z :=
  match a with None => 0 | Some a => word a i end.
Definition bms_nwords (a : bms) : nat := match a with None => O | Some a => nwords a end.

Lemma bms_word_ge a i : (bms_nwords a ≤ i)%nat → bms_word a i = 0.
Proof. destruct a; simpl; [|done]. apply word_at_ge. Qed.

Lemma bms_word_nonneg a i : bms_wf a → 0 ≤ bms_word a i.
Proof. destruct a as [a|]; [|done]. intros Hwf. apply (bms_wf_word a i Hwf). Qed.

Lemma bms_to_set_words a b :
  bms_wf a → bms_wf b → bms_to_set a = bms_to_set b ↔ ∀ i, bms_word a i = bms_word b i.
Proof.
  intros Ha Hb. rewrite bms_to_set_eq, forall_bits.
  assert (∀ a i k, 0 ≤ k < 32 → bms_has a (32 * Z.of_nat i + k) = Z.testbit (bms_word a i) k) as Hbit.
  { intros [a'|] i k Hk; simpl; [by apply bit_at_add|by rewrite Z.bits_0]. }
  split.
  - intros H i. apply word_ext;
      [destruct a; [by apply bms_wf_word|done]|destruct b; [by apply bms_wf_word|done]|].
    intros k Hk. rewrite <- !Hbit by done. by apply H.
  - intros H i k Hk. by rewrite !Hbit, H.
Qed.

(** Lexicographic comparison of two word sequences on an index list. *)
Fixpoint lex (f g : nat → Z) (idx : list nat) : Z :=
  match idx with
  | [] => 0
  | i :: idx => if f i <? g i then -1 else if g i <? f i then 1 else lex f g idx
  end.

Lemma lex_app f g l1 l2 : lex f g (l1 ++ l2) = if lex f g l1 =? 0 then lex f g l2 else lex f g l1.
Proof. induction l1 as [|i l1 IH]; simpl; [done|]. split_tests; try done; lia. Qed.

Lemma lex_ext f g idx : (∀ i, i ∈ idx → f i = g i) → lex f g idx = 0.
Proof.
  induction idx as [|i idx IH]; intros H; simpl; [done|].
  rewrite (H i) by left. rewrite Z.ltb_irrefl. apply IH. intros j Hj. apply H. by right.
Qed.

Lemma lex_zero f g idx : lex f g idx = 0 → ∀ i, i ∈ idx → f i = g i.
Proof.
  induction idx as [|j idx IH]; simpl; intros H i Hi; [by apply elem_of_nil in Hi|].
  revert H. split_tests; try done. intros Heq.
  apply elem_of_cons in Hi as [->|Hi]; [lia|by apply IH].
Qed.

Lemma lex_antisym f g idx : lex g f idx = - lex f g idx.
Proof. induction idx as [|i idx IH]; simpl; [done|]. split_tests; try done; lia. Qed.

Lemma lex_trans f g h idx : lex f g idx ≤ 0 → lex g h idx ≤ 0 → lex f h idx ≤ 0.
Proof.
  induction idx as [|i idx IH]; simpl; [done|]. split_tests; try lia; auto.
Qed.

Lemma compare_common_lex (a b : Bitmapset) idx :
  default 0 (bms_compare_common a b idx) = lex (word a) (word b) idx ∧
  (bms_compare_common a b idx = None ↔ lex (word a) (word b) idx = 0).
Proof. induction idx as [|i idx IH]; simpl; [done|]. split_tests; done. Qed.

Lemma lex_zero_l (g : nat → Z) idx :
  (∀ i, 0 ≤ g i) → lex (λ _, 0) g idx = if existsb (λ i, negb (g i =? 0)) idx then -1 else 0.
Proof.
  intros Hg. induction idx as [|i idx IH]; simpl; [done|]. specialize (Hg i).
  destruct (Z.eqb_spec (g i) 0) as [->|]; simpl; [apply IH|].
  destruct (Z.ltb_spec 0 (g i)); [done|lia].
Qed.

Lemma lex_zero_on_l (f g : nat → Z) idx :
  (∀ i, i ∈ idx → f i = 0) → lex f g idx = lex (λ _, 0) g idx.
Proof.
  induction idx as [|i idx IH]; intros H; simpl; [done|]. rewrite (H i) by left.
  by rewrite IH by (intros j Hj; apply H; by right).
Qed.

Lemma existsb_is_empty a : bms_is_empty a = negb (existsb (λ i, negb (bms_word a i =? 0)) (seq 0 (bms_nwords a))).
Proof.
  destruct a as [a|]; [|done]. simpl. generalize (seq 0 (nwords a)). intros l.
  induction l as [|i l IH]; simpl; [done|]. rewrite IH. by destruct (word a i =? 0).
Qed.

(** [bms_compare] is the lexicographic order of the zero-padded word sequences. *)
Lemma bms_compare_lex a b N :
  bms_wf a → bms_wf b → (bms_nwords a ≤ N)%nat → (bms_nwords b ≤ N)%nat →
  bms_compare a b = lex (bms_word a) (bms_word b) (seq 0 N).
Proof.
  intros Ha Hb Hna Hnb.
  assert (lex (bms_word a) (bms_word b) (seq 0 N) =
          lex (bms_word a) (bms_word b) (seq 0 (max (bms_nwords a) (bms_nwords b)))) as ->.
  { replace N with (max (bms_nwords a) (bms_nwords b) + (N - max (bms_nwords a) (bms_nwords b)))%nat
      by lia.
    rewrite seq_app, lex_app. case_match eqn:E; [|done]. apply Z.eqb_eq in E. rewrite E.
    apply lex_ext. intros i Hi%elem_of_seq. rewrite !bms_word_ge by lia. done. }
  assert (∀ i, 0 ≤ bms_word a i) by (intros; by apply bms_word_nonneg).
  assert (∀ i, 0 ≤ bms_word b i) by (intros; by apply bms_word_nonneg).
  destruct a as [a|].
  2:{ change (bms_compare None b) with (if bms_is_empty b then 0 else -1).
      rewrite existsb_is_empty. simpl bms_word at 2. rewrite lex_zero_l by done.
      simpl. by destruct (existsb _ _). }
  destruct b as [b|].
  2:{ change (bms_compare (Some a) None) with (if bms_is_empty (Some a) then 0 else 1).
      rewrite existsb_is_empty, lex_antisym. simpl bms_word at 2. rewrite lex_zero_l by done.
      simpl. rewrite Nat.max_0_r. by destruct (existsb _ _). }
  simpl in *. change (bms_word (Some a)) with (word a). change (bms_word (Some b)) with (word b).
  destruct (Nat.leb_spec (nwords a) (nwords b)).
  - rewrite Nat.max_r by lia.
    assert (seq 0 (nwords b) = seq 0 (nwords a) ++ seq (nwords a) (nwords b - nwords a))
      as -> by (rewrite <- seq_app; f_equal; lia).
    rewrite lex_app. destruct (compare_common_lex a b (seq 0 (nwords a))) as [Hd Hn].
    destruct (bms_compare_common a b _) as [r|] eqn:E; simpl in Hd.
    + destruct (Z.eqb_spec (lex (word a) (word b) (seq 0 (nwords a))) 0); [naive_solver|done].
    + rewrite <- Hd. simpl. rewrite lex_zero_on_l; [by rewrite lex_zero_l|].
      intros i Hi%elem_of_seq. apply word_at_ge. unfold nwords in *. lia.
  - rewrite Nat.max_l by lia.
    assert (seq 0 (nwords a) = seq 0 (nwords b) ++ seq (nwords b) (nwords a - nwords b))
      as -> by (rewrite <- seq_app; f_equal; lia).
    rewrite lex_app. destruct (compare_common_lex a b (seq 0 (nwords b))) as [Hd Hn].
    destruct (bms_compare_common a b _) as [r|] eqn:E; simpl in Hd.
    + destruct (Z.eqb_spec (lex (word a) (word b) (seq 0 (nwords b))) 0); [naive_solver|done].
    + rewrite <- Hd. simpl. rewrite lex_antisym, lex_zero_on_l.
      * rewrite lex_zero_l by done. by destruct (existsb _ _).
      * intros i Hi%elem_of_seq. apply word_at_ge. unfold nwords in *. lia.
Qed.

Lemma hash_lastword_spec (a : Bitmapset) n :
  let m := bms_hash_lastword a n in
  (m ≤ n)%nat ∧ (∀ i, (m ≤ i < n)%nat → word a i = 0) ∧ (m = O ∨ word a (pred m) ≠ 0).
Proof.
  induction n as [|n IH]; simpl; [split_and!; [lia|lia|by left]|].
  destruct (Z.eqb_spec (word a n) 0) as [Hz|Hne].
  - destruct IH as (Hle & Hzero & Hlast). split_and!; [lia| |done].
    intros i Hi. destruct (decide (i = n)) as [->|]; [done|]. apply Hzero. lia.
  - split_and!; [lia|lia|by right].
Qed.

(** The number of words up to the last nonzero one. *)
Definition sig_words (a : bms) : nat :=
  match a with None => O | Some a => bms_hash_lastword a (nwords a) end.

Lemma sig_words_spec a :
  (sig_words a ≤ bms_nwords a)%nat ∧ (∀ i, (sig_words a ≤ i)%nat → bms_word a i = 0) ∧
  (sig_words a = O ∨ bms_word a (pred (sig_words a)) ≠ 0).
Proof.
  destruct a as [a|]; simpl; [|split_and!; [lia|done|by left]].
  destruct (hash_lastword_spec a (nwords a)) as (Hle & Hz & Hl). split_and!; [done| |done].
  intros i Hi. destruct (decide (i < nwords a)%nat); [apply Hz; lia|].
  apply word_at_ge. unfold nwords in *. lia.
Qed.

Lemma sig_words_unique a b :
  (∀ i, bms_word a i = bms_word b i) → sig_words a = sig_words b.
Proof.
  intros H. destruct (sig_words_spec a) as (_ & Hza & Hla), (sig_words_spec b) as (_ & Hzb & Hlb).
  destruct (Nat.lt_trichotomy (sig_words a) (sig_words b)) as [Hlt|[|Hlt]]; [|done|].
  - destruct Hlb as [|Hlb]; [lia|]. destruct Hlb. rewrite <- H. apply Hza. lia.
  - destruct Hla as [|Hla]; [lia|]. destruct Hla. rewrite H. apply Hzb. lia.
Qed.

Lemma bms_hash_value_words hash_any a :
  bms_hash_value hash_any a =
  match sig_words a with O => 0 | n => hash_any (bms_word a <$> seq 0 n) end.
Proof.
  destruct a as [a|]; [|done]. unfold bms_hash_value, sig_words.
  destruct (hash_lastword_spec a (nwords a)) as (Hle & _ & _).
  destruct (bms_hash_lastword a (nwords a)) as [|n]; [done|]. f_equal.
  apply list_eq. intros i. rewrite list_lookup_fmap. destruct (decide (i < S n)%nat).
  - rewrite lookup_take_lt, lookup_seq_lt by done. simpl. unfold word, word_at.
    unfold nwords in Hle. destruct (lookup_lt_is_Some_2 (words a) i ltac:(lia)) as [w ->]. done.
  - rewrite lookup_take_ge, lookup_seq_ge by lia. done.
Qed.
End Order.

(** ** Properties *)

(** C36: On well-formed operands every set operation computes the finite-set operation it is
    named after, whichever operand is the longer array and whichever is NULL, the recycling
    variants agree with the copying ones, and every result is again a well-formed array. *)
Theorem bms_set_operations a b :
  bms_wf a → bms_wf b →
  (bms_to_set (bms_union a b) = bms_to_set a ∪ bms_to_set b ∧
   bms_to_set (bms_intersect a b) = bms_to_set a ∩ bms_to_set b ∧
   bms_to_set (bms_difference a b) = bms_to_set a ∖ bms_to_set b) ∧
  (bms_to_set (bms_add_members a b) = bms_to_set (bms_union a b) ∧
   bms_to_set (bms_join a b) = bms_to_set (bms_union a b) ∧
   bms_to_set (bms_int_members a b) = bms_to_set (bms_intersect a b) ∧
   bms_to_set (bms_del_members a b) = bms_to_set (bms_difference a b)) ∧
  (bms_wf (bms_union a b) ∧ bms_wf (bms_intersect a b) ∧ bms_wf (bms_difference a b) ∧
   bms_wf (bms_add_members a b) ∧ bms_wf (bms_int_members a b) ∧
   bms_wf (bms_del_members a b) ∧ bms_wf (bms_join a b)).
Proof.
  intros Ha Hb. split; [|split; [|by apply bms_wf_binop]].
  - split_and!; apply set_eq; intros x;
      rewrite ?elem_of_union, ?elem_of_intersection, ?elem_of_difference, !elem_of_bms_to_set,
        ?has_union, ?has_intersect, ?has_difference;
      destruct (bms_has a x), (bms_has b x); simpl; naive_solver.
  - split_and!; apply bms_to_set_eq; intros x _;
      by rewrite ?has_union, ?has_add_members, ?has_join, ?has_intersect, ?has_int_members,
        ?has_difference, ?has_del_members.
Qed.

Definition wit_a : bms := Some (mkBitmapset [5; 2 ^ 31]).
Definition wit_b : bms := Some (mkBitmapset [12]).

Lemma wit_wf : bms_wf wit_a ∧ bms_wf wit_b.
Proof. split; repeat constructor; vm_compute; congruence. Defined.

Lemma bms_set_operations_witness :
  bms_wf wit_a ∧ bms_wf wit_b ∧ bms_to_set (bms_difference wit_a wit_b) = {[0; 63]}.
Proof.
  destruct wit_wf as [Ha Hb]. split; [done|]. split; [done|].
  rewrite (proj2 (proj2 (proj1 (bms_set_operations wit_a wit_b Ha Hb)))).
  by apply (bool_decide_unpack _); vm_compute.
Defined.

(** A negative member is refused by every routine that takes one; for [x >= 0] adding,
    removing and testing one member act on the set of members as [∪ {x}], [∖ {x}] and [∈],
    [bms_add_member] grows the array so that it covers the member, growing with [bms_resize]
    does not change the set, and the results stay well-formed. *)
Lemma bms_member_operations a x wc :
  bms_wf a →
  (x < 0 → bms_make_singleton x = neg_member ∧ bms_is_member x a = neg_member ∧
           bms_add_member a x = neg_member ∧ bms_del_member a x = neg_member ∧
           bms_covers_member a x = neg_member) ∧
  (0 ≤ x →
   bms_is_member x a = Ok (bool_decide (x ∈ bms_to_set a)) ∧
   (∃ s, bms_make_singleton x = Ok s ∧ bms_to_set s = {[x]}) ∧
   (∃ s, bms_add_member a x = Ok s ∧ bms_to_set s = {[x]} ∪ bms_to_set a ∧ bms_wf s ∧
         bms_covers_member s x = Ok true) ∧
   (∃ s, bms_del_member a x = Ok s ∧ bms_to_set s = bms_to_set a ∖ {[x]} ∧ bms_wf s)) ∧
  bms_to_set (bms_resize a wc) = bms_to_set a ∧ bms_wf (bms_resize a wc).
Proof.
  intros Hwf. split_and!; [| |by apply bms_to_set_eq; intros; rewrite has_resize|by apply bms_wf_resize].
  { intros Hneg. unfold bms_make_singleton, bms_is_member, bms_add_member, bms_del_member,
      bms_covers_member. by rewrite (proj2 (Z.ltb_lt x 0)). }
  intros Hx. split_and!.
  - rewrite is_member_spec by done. f_equal. symmetry. case_bool_decide as Hin;
      rewrite elem_of_bms_to_set in Hin; destruct (bms_has a x); naive_solver.
  - destruct (has_make_singleton x 0) as (s & Hs & _); [done..|]. exists s. split; [done|].
    apply set_eq. intros y. rewrite elem_of_bms_to_set, elem_of_singleton. split.
    + intros [Hy Hin]. destruct (has_make_singleton x y) as (s' & Hs' & Hb); [done..|].
      assert (s' = s) as -> by congruence. rewrite Hb in Hin. by apply bool_decide_eq_true in Hin.
    + intros ->. destruct (has_make_singleton x x) as (s' & Hs' & Hb); [done..|].
      assert (s' = s) as -> by congruence. by rewrite bool_decide_eq_true_2 in Hb.
  - destruct (has_add_member a x 0) as (s & Hs & _); [done..|]. exists s. split_and!; [done| | |].
    + apply set_eq. intros y. rewrite elem_of_union, elem_of_singleton, !elem_of_bms_to_set.
      destruct (decide (0 ≤ y)); [|naive_solver].
      destruct (has_add_member a x y) as (s' & Hs' & Hb); [done..|].
      assert (s' = s) as -> by congruence. rewrite Hb.
      rewrite orb_true_iff, bool_decide_eq_true. naive_solver.
    + by eapply bms_wf_add_member.
    + revert Hs. unfold bms_add_member, bms_make_singleton, bms_covers_member.
      rewrite (proj2 (Z.ltb_ge x 0)) by done. destruct a as [a'|]; intros [= <-]; unfold nwords;
        simpl; f_equal; apply Nat.ltb_lt; rewrite length_insert, ?length_replicate; [|lia].
      destruct (Nat.leb_spec (length (words a')) (WORDNUM x)); [|done].
      rewrite length_app, length_replicate. lia.
  - destruct (has_del_member a x 0) as (s & Hs & _); [done..|]. exists s. split_and!; [done| |].
    + apply set_eq. intros y. rewrite elem_of_difference, elem_of_singleton, !elem_of_bms_to_set.
      destruct (decide (0 ≤ y)); [|naive_solver].
      destruct (has_del_member a x y) as (s' & Hs' & Hb); [done..|].
      assert (s' = s) as -> by congruence. rewrite Hb.
      rewrite andb_true_iff, negb_true_iff, bool_decide_eq_false. naive_solver.
    + by eapply bms_wf_del_member.
Qed.

(** The comparison routines decide the relations of finite sets they are named after, in
    particular they do not depend on trailing zero words or on NULL: emptiness, equality,
    inclusion, overlap, non-inclusion, and the four-way [bms_subset_compare]. *)
Lemma bms_comparisons_decide a b :
  bms_wf a → bms_wf b →
  (bms_is_empty a = true ↔ bms_to_set a = ∅) ∧
  (bms_equal a b = true ↔ bms_to_set a = bms_to_set b) ∧
  (bms_is_subset a b = true ↔ bms_to_set a ⊆ bms_to_set b) ∧
  (bms_overlap a b = true ↔ bms_to_set a ∩ bms_to_set b ≠ ∅) ∧
  (bms_nonempty_difference a b = true ↔ ¬ bms_to_set a ⊆ bms_to_set b) ∧
  match bms_subset_compare a b with
  | BMS_EQUAL => bms_to_set a = bms_to_set b
  | BMS_SUBSET1 => bms_to_set a ⊂ bms_to_set b
  | BMS_SUBSET2 => bms_to_set b ⊂ bms_to_set a
  | BMS_DIFFERENT => ¬ bms_to_set a ⊆ bms_to_set b ∧ ¬ bms_to_set b ⊆ bms_to_set a
  end.
Proof.
  intros Ha Hb. split_and!.
  - rewrite bms_is_empty_spec by done. rewrite set_eq. setoid_rewrite elem_of_bms_to_set.
    split; [|intros H x Hx; destruct (bms_has a x) eqn:E; [|done]; by destruct (proj1 (elem_of_empty x) (proj1 (H x) (conj Hx E)))].
    intros H x. split; [intros [Hx Hh]; by rewrite H in Hh|by intros ?%elem_of_empty].
  - by apply bms_equal_spec.
  - by apply bms_is_subset_spec.
  - rewrite bms_overlap_spec by done. split; [intros [x Hx] Heq; set_solver|].
    intros Hne. by apply set_choose_L in Hne.
  - rewrite bms_nonempty_difference_subset, negb_true_iff, <- bms_is_subset_spec by done.
    by destruct (bms_is_subset a b).
  - rewrite bms_subset_compare_status, !bms_nonempty_difference_subset.
    pose proof (bms_is_subset_spec a b Ha) as Hab. pose proof (bms_is_subset_spec b a Hb) as Hba.
    destruct (bms_is_subset a b), (bms_is_subset b a); simpl.
    + apply leibniz_equiv, set_equiv_subseteq. naive_solver.
    + split; [by apply Hab|]. by intros ?%Hba.
    + split; [by apply Hba|]. by intros ?%Hab.
    + split; [by intros ?%Hab|by intros ?%Hba].
Qed.

(** Counting is exact: [bms_num_members] is the cardinality of the set, [bms_membership]
    classifies it as zero, one or many, and [bms_singleton_member] returns the sole member of a
    singleton and raises its error for an empty set and for one with several members. *)
Lemma bms_counting a :
  bms_wf a →
  bms_num_members a = Z.of_nat (size (bms_to_set a)) ∧
  (bms_membership a = BMS_EMPTY_SET ↔ size (bms_to_set a) = 0%nat) ∧
  (bms_membership a = BMS_SINGLETON ↔ size (bms_to_set a) = 1%nat) ∧
  (bms_membership a = BMS_MULTIPLE ↔ (2 ≤ size (bms_to_set a))%nat) ∧
  (∀ x, bms_singleton_member a = Ok x ↔ bms_to_set a = {[x]}) ∧
  (bms_singleton_member a = Err "bitmapset is empty" ↔ bms_to_set a = ∅) ∧
  (bms_singleton_member a = Err "bitmapset has multiple members" ↔
   (2 ≤ size (bms_to_set a))%nat).
Proof.
  intros Hwf. split; [by apply bms_num_members_spec|].
  rewrite bms_membership_spec, bms_singleton_member_spec, size_bms_to_set by done.
  unfold bms_to_set. assert (NoDup (bms_members a)) as Hnd.
  { destruct a; [apply NoDup_members_from|constructor]. }
  assert (∀ x y l z, NoDup (x :: y :: l) → list_to_set (x :: y :: l) ≠@{gset Z} {[z]}) as Htwo.
  { intros x y l z [Hx _]%NoDup_cons Heq. apply Hx. assert (x = z) as -> by set_solver.
    assert (y = z) as -> by set_solver. left. }
  destruct (bms_members a) as [|x [|y l]].
  - simpl. split_and!; split; (done || lia || set_solver).
  - simpl. split_and!; split; (done || lia || set_solver).
  - cbn [length]. split_and!; split; (done || lia || set_solver).
Qed.

(** The documented iteration [x = -1; while ((x = bms_next_member(a, x)) >= 0)] terminates
    after at most one round per member, and visits every member once, in ascending order; each
    call returns the smallest member above its argument, or -2 when there is none. *)
Lemma bms_iteration_enumerates a fuel :
  bms_wf a → (size (bms_to_set a) < fuel)%nat →
  StronglySorted Z.lt (bms_iterate fuel a (-1)) ∧
  list_to_set (bms_iterate fuel a (-1)) = bms_to_set a ∧
  ∀ p, -1 ≤ p →
    (bms_next_member a p = -2 ∧ ∀ x, p < x → x ∉ bms_to_set a) ∨
    (p < bms_next_member a p ∧ bms_next_member a p ∈ bms_to_set a ∧
     ∀ x, p < x < bms_next_member a p → x ∉ bms_to_set a).
Proof.
  intros Hwf Hfuel. assert (filter (Z.lt (-1)) (bms_to_set a) = bms_to_set a) as Hf.
  { apply set_eq. intros x. rewrite elem_of_filter, elem_of_bms_to_set. naive_solver lia. }
  destruct (bms_iterate_spec fuel a (-1)) as [Hs He]; [done|lia|by rewrite Hf|].
  split_and!; [done| |intros; by apply bms_next_member_spec].
  apply set_eq. intros x. rewrite elem_of_list_to_set, He, elem_of_bms_to_set. naive_solver lia.
Qed.

(** [bms_first_member] returns -1 and leaves the set alone when it is empty, and otherwise
    returns its least member and removes exactly that member from the set in place, so the
    destructive loop [while ((x = bms_first_member(a)) >= 0)] strictly shrinks the set. *)
Lemma bms_first_member_removes_min a :
  bms_wf a →
  (bms_to_set a = ∅ ∧ bms_first_member a = (-1, a)) ∨
  (∃ r a', bms_first_member a = (r, a') ∧ r ∈ bms_to_set a ∧
     (∀ x, x ∈ bms_to_set a → r ≤ x) ∧
     bms_to_set a' = bms_to_set a ∖ {[r]} ∧ bms_wf a').
Proof.
  intros Hwf. destruct a as [a|]; [|by left]. simpl.
  pose proof (first_member_loop_spec a 0 (nwords a) Hwf eq_refl ltac:(lia)) as Hspec.
  destruct (bms_first_member_loop a (seq 0 (nwords a))) as [r a'].
  destruct Hspec as [(-> & -> & Hnone)|(Hr & Hmem & Hmin & Hwf' & Hdel)].
  - left. split; [|done]. apply set_eq. intros x. rewrite elem_of_bms_to_set.
    split; [|by intros ?%elem_of_empty]. intros [Hx Hh]. by rewrite Hnone in Hh.
  - right. exists r, (Some a'). split_and!; [done|by apply elem_of_bms_to_set| | |done].
    + intros x [Hx Hh]%elem_of_bms_to_set. apply Z.nlt_ge. intros Hlt.
      by rewrite Hmin in Hh by lia.
    + apply set_eq. intros x. rewrite elem_of_difference, elem_of_singleton, !elem_of_bms_to_set.
      destruct (decide (0 ≤ x)); [|naive_solver].
      rewrite Hdel by done. rewrite andb_true_iff, negb_true_iff, bool_decide_eq_false. naive_solver.
Qed.

(** [bms_compare] is a total order on sets: it is 0 exactly on equal sets, reversing the
    operands negates it, and it is transitive, so sorting with it groups equal sets; and two
    sets that [bms_equal] identifies have the same [bms_hash_value], whatever their trailing
    zero words, as hash tables keyed by bitmap sets require. *)
Lemma bms_compare_total_order_and_hash hash_any a b c :
  bms_wf a → bms_wf b → bms_wf c →
  (bms_compare a b = 0 ↔ bms_to_set a = bms_to_set b) ∧
  bms_compare b a = - bms_compare a b ∧
  (bms_compare a b ≤ 0 → bms_compare b c ≤ 0 → bms_compare a c ≤ 0) ∧
  (bms_equal a b = true → bms_hash_value hash_any a = bms_hash_value hash_any b).
Proof.
  intros Ha Hb Hc. set (N := (bms_nwords a + bms_nwords b + bms_nwords c)%nat).
  rewrite (bms_compare_lex a b N), (bms_compare_lex b a N), (bms_compare_lex b c N),
    (bms_compare_lex a c N) by (done || unfold N; lia).
  split_and!; [|apply lex_antisym|apply lex_trans|].
  - rewrite bms_to_set_words by done. split; [|by intros H; apply lex_ext].
    intros H i. destruct (decide (i < N)%nat).
    + apply (lex_zero _ _ _ H). apply elem_of_seq. lia.
    + rewrite !bms_word_ge by (unfold N in *; lia). done.
  - rewrite bms_equal_spec, bms_to_set_words by done. intros H.
    rewrite !bms_hash_value_words, (sig_words_unique a b H). destruct (sig_words b); [done|].
    f_equal. apply list_fmap_ext. intros. apply H.
Qed.

