(* ===== verification/Bitstream.v ===== *)
(** * Bit streams over a byte buffer ([utils/misc/bitstream.c], [utils/bitstream.h])

    The stream is a cursor (byte offset and bit offset) into a byte buffer, with a sticky error
    flag.  Bits are taken from the most significant one of each byte.  An operation that may
    fail returns the new stream with its success flag or its value; as in the code a failing
    read or write leaves the bits handled so far in place and raises the error flag. *)
From S2P Require Import Prelude.

Record Bitstream := mkBitstream {
  bitOffset : Z;
  byteOffset : Z;
  bs_data : list Z;
  dataSize : Z;
  bs_error : bool;
}.

#[global] Instance Bitstream_eq_dec : EqDecision Bitstream.
Proof. solve_decision. Defined.

Definition Bitstream_CheckForError (bs : Bitstream) : bool * Bitstream :=
  if bs_error bs then (false, bs)
  else if dataSize bs <=? byteOffset bs
  then (false, mkBitstream (bitOffset bs) 0 (bs_data bs) (dataSize bs) true)
  else (true, bs).

Definition Bitstream_Init (data : list Z) (size : Z) : Bitstream :=
  mkBitstream 0 0 data size false.

(** [bitOffset++; if (bitOffset == 8) { bitOffset = 0; byteOffset++; }] *)
Definition Bitstream_advance (bs : Bitstream) : Bitstream :=
  let b := bitOffset bs + 1 in
  if b =? 8 then mkBitstream 0 (byteOffset bs + 1) (bs_data bs) (dataSize bs) (bs_error bs)
  else mkBitstream b (byteOffset bs) (bs_data bs) (dataSize bs) (bs_error bs).

(** The byte under the cursor. *)
Definition Bitstream_byte (bs : Bitstream) : Z := word_at (bs_data bs) (Z.to_nat (byteOffset bs)).

Definition Bitstream_GetBit (bs : Bitstream) : option Z * Bitstream :=
  match Bitstream_CheckForError bs with
  | (false, bs) => (None, bs)
  | (true, bs) =>
      let c := Bitstream_byte bs in
      let mask := Z.shiftl 1 (7 - bitOffset bs) in
      (Some (if Z.land c mask =? 0 then 0 else 1), Bitstream_advance bs)
  end.

Definition Bitstream_Skip (bs : Bitstream) (skipBitCount : Z) : bool * Bitstream :=
  match Bitstream_CheckForError bs with
  | (false, bs) => (false, bs)
  | (true, bs) =>
      let newBitOffset := u32 (bitOffset bs + skipBitCount) in
      (true, mkBitstream (newBitOffset mod 8) (byteOffset bs + newBitOffset / 8)
               (bs_data bs) (dataSize bs) (bs_error bs))
  end.

Definition Bitstream_GetOffset (bs : Bitstream) : Z := byteOffset bs * 8 + bitOffset bs.

Definition Bitstream_Align (bs : Bitstream) (alignment : Z) : bool * Bitstream :=
  let forAlignment := Bitstream_GetOffset bs mod alignment in
  if 0 <? forAlignment then Bitstream_Skip bs (alignment - forAlignment) else (true, bs).

(** The returned pointer is the offset of the aligned data in the buffer. *)
Definition Bitstream_GetAlignedData (bs : Bitstream) (alignment : Z) : Z * Bitstream :=
  let bs := snd (Bitstream_Align bs alignment) in (byteOffset bs, bs).

Definition Bitstream_PutBit (bs : Bitstream) (v : Z) : bool * Bitstream :=
  match Bitstream_CheckForError bs with
  | (false, bs) => (false, bs)
  | (true, bs) =>
      let data :=
        if v =? 0 then bs_data bs
        else <[Z.to_nat (byteOffset bs) :=
               Z.lor (Bitstream_byte bs) (Z.shiftl 1 (7 - bitOffset bs))]> (bs_data bs) in
      (true, Bitstream_advance
               (mkBitstream (bitOffset bs) (byteOffset bs) data (dataSize bs) (bs_error bs)))
  end.

(** The loop of [Bitstream_Get]: [n] rounds left, [v] the bits so far. *)
Fixpoint Bitstream_Get_loop (bs : Bitstream) (n : nat) (v : Z) : option Z * Bitstream :=
  match n with
  | O => (Some v, bs)
  | S n =>
      let v := u32 (Z.shiftl v 1) in
      match Bitstream_GetBit bs with
      | (None, bs) => (None, bs)
      | (Some tmp, bs) => Bitstream_Get_loop bs n (Z.lor v tmp)
      end
  end.

(** [None] is the [false] return, where [*value] is not written. *)
Definition Bitstream_Get (bs : Bitstream) (n : nat) : option Z * Bitstream :=
  Bitstream_Get_loop bs n 0.

Fixpoint Bitstream_Put_loop (bs : Bitstream) (v : Z) (n : nat) (mask : Z) : bool * Bitstream :=
  match n with
  | O => (true, bs)
  | S n =>
      let bitValue := if Z.land v mask =? 0 then 0 else 1 in
      match Bitstream_PutBit bs bitValue with
      | (false, bs) => (false, bs)
      | (true, bs) => Bitstream_Put_loop bs v n (Z.shiftr mask 1)
      end
  end.

Definition Bitstream_Put (bs : Bitstream) (v : Z) (bitCount : nat) : bool * Bitstream :=
  Bitstream_Put_loop bs v bitCount (Z.shiftl 1 (Z.of_nat bitCount - 1)).

Definition Bitstream_HasError (bs : Bitstream) : bool := bs_error bs.

Definition Bitstream_GetRemaining (bs : Bitstream) : Z :=
  dataSize bs * 8 - Bitstream_GetOffset bs.

Definition Bitstream_GetLength (bs : Bitstream) : Z :=
  if bitOffset bs =? 0 then byteOffset bs else byteOffset bs + 1.

(** ** Specification: the bits of the buffer *)

(** Bit [p] of the buffer, counted from the most significant bit of the first byte. *)
Definition sbit (data : list Z) (p : Z) : bool :=
  Z.testbit (word_at data (Z.to_nat (p / 8))) (7 - p mod 8).

(** The cursor is inside a byte, the buffer holds [dataSize] bytes. *)
Definition bs_wf (bs : Bitstream) : Prop :=
  0 ≤ bitOffset bs < 8 ∧ 0 ≤ byteOffset bs ∧ 0 ≤ dataSize bs ≤ Z.of_nat (length (bs_data bs)).

(** The [n]-bit field [v] is stored at bit [p], most significant bit first. *)
Definition field_at (data : list Z) (p v n : Z) : Prop :=
  ∀ i, 0 ≤ i < n → sbit data (p + i) = Z.testbit v (n - 1 - i).

(** No bit of the first [size] bytes is set at or after [p]. *)
Definition zero_from (data : list Z) (size p : Z) : Prop :=
  ∀ q, p ≤ q < 8 * size → sbit data q = false.

(** The two buffers agree on the bits before [p]. *)
Definition same_before (data data' : list Z) (p : Z) : Prop :=
  ∀ q, 0 ≤ q < p → sbit data' q = sbit data q.

(** A stream without error whose cursor is at bit [p]. *)
Definition at_pos (data : list Z) (size p : Z) : Bitstream :=
  mkBitstream (p mod 8) (p / 8) data size false.

Section Cursor.
Implicit Types data : list Z.

Lemma Bitstream_Init_at_pos data size : Bitstream_Init data size = at_pos data size 0.
Proof. done. Qed.

Lemma bs_wf_at_pos bs :
  bs_wf bs → bs_error bs = false →
  bs = at_pos (bs_data bs) (dataSize bs) (Bitstream_GetOffset bs).
Proof.
  destruct bs as [bo byo d s e]; simpl. intros (Hb & _) ->. unfold at_pos, Bitstream_GetOffset.
  simpl in *. f_equal.
  - rewrite Z.add_comm, Z_mod_plus_full, Z.mod_small; lia.
  - rewrite Z.div_add_l, Z.div_small; lia.
Qed.

Lemma GetOffset_at_pos data size p : Bitstream_GetOffset (at_pos data size p) = p.
Proof. unfold Bitstream_GetOffset, at_pos; simpl. pose proof (Z.div_mod p 8). lia. Qed.

Lemma CheckForError_at_pos data size p :
  0 ≤ p →
  Bitstream_CheckForError (at_pos data size p) =
    if p <? 8 * size then (true, at_pos data size p)
    else (false, mkBitstream (p mod 8) 0 data size true).
Proof.
  intros Hp. unfold Bitstream_CheckForError, at_pos; simpl.
  destruct (Z.ltb_spec p (8 * size)), (Z.leb_spec size (p / 8)); try done.
  - assert (p / 8 < size) by (apply Z.div_lt_upper_bound; lia). lia.
  - assert (size ≤ p / 8) by (apply Z.div_le_lower_bound; lia). lia.
Qed.

Lemma advance_at_pos data size p :
  Bitstream_advance (at_pos data size p) = at_pos data size (p + 1).
Proof.
  unfold Bitstream_advance, at_pos; simpl.
  pose proof (Z.div_mod p 8 ltac:(lia)). pose proof (Z.mod_pos_bound p 8 ltac:(lia)).
  destruct (Z.eqb_spec (p mod 8 + 1) 8).
  - replace (p + 1) with ((p / 8 + 1) * 8) by lia. by rewrite Z.mod_mul, Z.div_mul.
  - rewrite <- (Z.div_unique (p + 1) 8 (p / 8) (p mod 8 + 1)) by lia.
    by rewrite <- (Z.mod_unique (p + 1) 8 (p / 8) (p mod 8 + 1)) by lia.
Qed.

Lemma land_pow2_test c k : 0 ≤ k → (if Z.land c (2 ^ k) =? 0 then 0 else 1) = Z.b2z (Z.testbit c k).
Proof.
  intros Hk. destruct (Z.eqb_spec (Z.land c (2 ^ k)) 0) as [Hz|Hnz].
  - apply (f_equal (λ z, Z.testbit z k)) in Hz.
    rewrite Z.land_spec, Z.pow2_bits_true, Z.bits_0, andb_true_r in Hz by done. by rewrite Hz.
  - destruct (Z.testbit c k) eqn:E; [done|]. destruct Hnz. apply Z.bits_inj'. intros i Hi.
    rewrite Z.bits_0, Z.land_spec, testbit_pow2 by done.
    case_bool_decide; subst; [by rewrite E|by rewrite andb_false_r].
Qed.

Lemma shiftl_1_l k : 0 ≤ k → Z.shiftl 1 k = 2 ^ k.
Proof. intros. by rewrite Z.shiftl_mul_pow2, Z.mul_1_l. Qed.

Lemma GetBit_at_pos data size p :
  0 ≤ p →
  Bitstream_GetBit (at_pos data size p) =
    if p <? 8 * size then (Some (Z.b2z (sbit data p)), at_pos data size (p + 1))
    else (None, mkBitstream (p mod 8) 0 data size true).
Proof.
  intros Hp. unfold Bitstream_GetBit. rewrite CheckForError_at_pos by done.
  destruct (p <? 8 * size); [|done]. rewrite advance_at_pos. f_equal. f_equal.
  unfold Bitstream_byte, at_pos, sbit; simpl. pose proof (Z.mod_pos_bound p 8 ltac:(lia)).
  rewrite shiftl_1_l by lia. by apply land_pow2_test; lia.
Qed.

(** The buffer after [data[p / 8] |= 1 << (7 - p % 8)] for a nonzero bit. *)
Definition set_sbit (data : list Z) (p v : Z) : list Z :=
  if v =? 0 then data
  else <[Z.to_nat (p / 8) :=
         Z.lor (word_at data (Z.to_nat (p / 8))) (Z.shiftl 1 (7 - p mod 8))]> data.

Lemma length_set_sbit data p v : length (set_sbit data p v) = length data.
Proof. unfold set_sbit. case_match; [done|]. apply length_insert. Qed.

Lemma sbit_set_sbit data p v q :
  0 ≤ q → 0 ≤ p < 8 * Z.of_nat (length data) →
  sbit (set_sbit data p v) q = sbit data q || (bool_decide (q = p) && negb (v =? 0)).
Proof.
  intros Hq Hp. unfold set_sbit, sbit. destruct (Z.eqb_spec v 0); simpl.
  { by rewrite andb_false_r, orb_false_r. }
  rewrite andb_true_r.
  pose proof (Z.div_mod p 8 ltac:(lia)) as Hdp. pose proof (Z.mod_pos_bound p 8 ltac:(lia)).
  pose proof (Z.div_mod q 8 ltac:(lia)) as Hdq. pose proof (Z.mod_pos_bound q 8 ltac:(lia)).
  assert (0 ≤ p / 8 < Z.of_nat (length data)).
  { split; [apply Z.div_pos; lia|apply Z.div_lt_upper_bound; lia]. }
  assert (0 ≤ q / 8) by (apply Z.div_pos; lia).
  rewrite word_at_insert by lia. case_decide as Hw.
  - rewrite Z.lor_spec, shiftl_1_l, testbit_pow2, Hw by lia. f_equal.
    apply bool_decide_ext. lia.
  - rewrite bool_decide_eq_false_2, orb_false_r; [done|]. by intros ->.
Qed.

Lemma PutBit_at_pos data size p v :
  0 ≤ p →
  Bitstream_PutBit (at_pos data size p) v =
    if p <? 8 * size then (true, at_pos (set_sbit data p v) size (p + 1))
    else (false, mkBitstream (p mod 8) 0 data size true).
Proof.
  intros Hp. unfold Bitstream_PutBit. rewrite CheckForError_at_pos by done.
  destruct (p <? 8 * size); [|done]. f_equal. rewrite <- advance_at_pos. done.
Qed.

Lemma Skip_at_pos data size p k :
  0 ≤ p → 0 ≤ k < 2 ^ 31 → p < 8 * size →
  Bitstream_Skip (at_pos data size p) k = (true, at_pos data size (p + k)).
Proof.
  intros Hp Hk Hlt. unfold Bitstream_Skip. rewrite CheckForError_at_pos by done.
  rewrite (proj2 (Z.ltb_lt _ _)) by done. f_equal. unfold at_pos; simpl.
  pose proof (Z.div_mod p 8 ltac:(lia)) as Hdp. pose proof (Z.mod_pos_bound p 8 ltac:(lia)).
  rewrite u32_small by (unfold is_u32; lia). f_equal.
  - rewrite Hdp at 2. replace (8 * (p / 8) + p mod 8 + k) with (p mod 8 + k + p / 8 * 8) by lia.
    by rewrite Z_mod_plus_full.
  - rewrite Hdp at 3. replace (8 * (p / 8) + p mod 8 + k) with (p / 8 * 8 + (p mod 8 + k)) by lia.
    by rewrite Z.div_add_l by lia.
Qed.
End Cursor.

Section Fields.
Implicit Types data : list Z.

Lemma field_at_S data p v (n : nat) :
  field_at data p v (Z.of_nat (S n)) ↔
  sbit data p = Z.testbit v (Z.of_nat n) ∧ field_at data (p + 1) v (Z.of_nat n).
Proof.
  unfold field_at. split.
  - intros H. split.
    + specialize (H 0 ltac:(lia)). rewrite Z.add_0_r in H. rewrite H. f_equal. lia.
    + intros i Hi. specialize (H (i + 1) ltac:(lia)).
      replace (p + 1 + i) with (p + (i + 1)) by lia. rewrite H. f_equal. lia.
  - intros [H0 H] i Hi. destruct (decide (i = 0)) as [->|].
    + rewrite Z.add_0_r, H0. f_equal. lia.
    + specialize (H (i - 1) ltac:(lia)). replace (p + 1 + (i - 1)) with (p + i) in H by lia.
      rewrite H. f_equal. lia.
Qed.

Lemma same_before_trans d1 d2 d3 p q :
  same_before d1 d2 p → same_before d2 d3 q → p ≤ q → same_before d1 d3 p.
Proof. intros H1 H2 Hle i Hi. rewrite H2 by lia. by apply H1. Qed.

Lemma field_at_same data data' p v n q :
  same_before data data' q → 0 ≤ p → p + n ≤ q → field_at data p v n → field_at data' p v n.
Proof. intros Hs Hp Hle Hf i Hi. rewrite Hs by lia. by apply Hf. Qed.

(** Reading an [n]-bit field that is stored at the cursor. *)
Lemma Get_loop_field data size p n acc w :
  0 ≤ p → p + Z.of_nat n ≤ 8 * size → (n ≤ 32)%nat →
  0 ≤ acc < 2 ^ (32 - Z.of_nat n) → 0 ≤ w < 2 ^ Z.of_nat n →
  field_at data p w (Z.of_nat n) →
  Bitstream_Get_loop (at_pos data size p) n acc =
    (Some (acc * 2 ^ Z.of_nat n + w), at_pos data size (p + Z.of_nat n)).
Proof.
  revert p acc w. induction n as [|n IH]; intros p acc w Hp Hle Hn Hacc Hw Hf.
  { simpl. change (2 ^ Z.of_nat 0) with 1 in Hw. f_equal; f_equal; lia. }
  cbn [Bitstream_Get_loop]. rewrite GetBit_at_pos by done.
  rewrite (proj2 (Z.ltb_lt _ _)) by lia. apply field_at_S in Hf as [Hbit Hf].
  rewrite Hbit. set (b := Z.testbit w (Z.of_nat n)).
  assert (2 ^ Z.of_nat (S n) = 2 * 2 ^ Z.of_nat n) as Hpow.
  { rewrite Nat2Z.inj_succ, Z.pow_succ_r by lia. done. }
  assert (2 ^ (32 - Z.of_nat n) = 2 * 2 ^ (32 - Z.of_nat (S n))) as Hpow'.
  { rewrite <- Z.pow_succ_r by lia. f_equal. lia. }
  assert (2 ^ (32 - Z.of_nat n) ≤ 2 ^ 32) by (apply Z.pow_le_mono_r; lia).
  assert (Z.lor (u32 (Z.shiftl acc 1)) (Z.b2z b) = 2 * acc + Z.b2z b) as ->.
  { rewrite Z.shiftl_mul_pow2 by lia. change (2 ^ 1) with 2. unfold u32.
    rewrite Z.mod_small by lia. pose proof (Z.add_lor_land (acc * 2) (Z.b2z b)) as Hlor.
    replace (Z.land (acc * 2) (Z.b2z b)) with 0 in Hlor; [lia|]. symmetry.
    apply Z.bits_inj'. intros i Hi.
    rewrite Z.bits_0, Z.land_spec. destruct (decide (i = 0)) as [->|].
    - by rewrite Z.mul_comm, Z.testbit_even_0.
    - rewrite (testbit_lt_pow2 (Z.b2z b) 1) by (destruct b; simpl; lia). by rewrite andb_false_r. }
  rewrite (IH (p + 1) _ (w mod 2 ^ Z.of_nat n)); try lia.
  - f_equal; [|f_equal; lia]. f_equal. rewrite Hpow.
    assert (w = Z.b2z b * 2 ^ Z.of_nat n + w mod 2 ^ Z.of_nat n) as Hw'; [|lia].
    rewrite (Z.div_mod w (2 ^ Z.of_nat n)) at 1 by lia.
    replace (w / 2 ^ Z.of_nat n) with (Z.b2z b); [lia|]. unfold b.
    assert (w / 2 ^ Z.of_nat n < 2) by (apply Z.div_lt_upper_bound; lia).
    assert (0 ≤ w / 2 ^ Z.of_nat n) by (apply Z.div_pos; lia).
    rewrite Z.testbit_spec' by lia. rewrite Z.mod_small; lia.
  - destruct b; simpl; lia.
  - apply Z.mod_pos_bound. lia.
  - intros i Hi. rewrite Hf by done. symmetry. apply Z.mod_pow2_bits_low. lia.
Qed.

Lemma Get_field data size p n w :
  0 ≤ p → p + Z.of_nat n ≤ 8 * size → (n ≤ 32)%nat → 0 ≤ w < 2 ^ Z.of_nat n →
  field_at data p w (Z.of_nat n) →
  Bitstream_Get (at_pos data size p) n = (Some w, at_pos data size (p + Z.of_nat n)).
Proof.
  intros. unfold Bitstream_Get. rewrite (Get_loop_field _ _ _ _ _ w); try done.
  split; [lia|]. apply Z.pow_pos_nonneg; lia.
Qed.

(** Writing an [n]-bit field over zero bits stores it, moves the cursor behind it and leaves the
    bits before it alone; without room for it the write fails and raises the error flag. *)
Lemma Put_loop_field data size p n v :
  0 ≤ p → size ≤ Z.of_nat (length data) → zero_from data size p →
  if decide (p + Z.of_nat n ≤ 8 * size) then
    ∃ data', Bitstream_Put_loop (at_pos data size p) v n (Z.shiftl 1 (Z.of_nat n - 1)) =
        (true, at_pos data' size (p + Z.of_nat n)) ∧
      length data' = length data ∧ same_before data data' p ∧
      field_at data' p v (Z.of_nat n) ∧ zero_from data' size (p + Z.of_nat n)
  else p ≤ 8 * size →
    ∃ bs', Bitstream_Put_loop (at_pos data size p) v n (Z.shiftl 1 (Z.of_nat n - 1)) = (false, bs')
      ∧ Bitstream_HasError bs' = true.
Proof.
  revert data p. induction n as [|n IH]; intros data p Hp Hsize Hz.
  { case_decide; [|lia]. exists data. split_and!; try done.
    - by rewrite Z.add_0_r.
    - intros i Hi. lia.
    - intros q Hq. apply Hz. lia. }
  cbn [Bitstream_Put_loop]. rewrite PutBit_at_pos by done.
  replace (Z.of_nat (S n) - 1) with (Z.of_nat n) by lia.
  destruct (Z.ltb_spec p (8 * size)) as [Hlt|Hge].
  2:{ case_decide; [lia|]. intros _. eexists. split; [done|done]. }
  rewrite shiftl_1_l, land_pow2_test by lia. set (b := Z.testbit v (Z.of_nat n)).
  assert (Hset : ∀ q, 0 ≤ q → sbit (set_sbit data p (Z.b2z b)) q = sbit data q || (bool_decide (q = p) && b)).
  { intros q Hq. rewrite sbit_set_sbit by lia. by destruct b. }
  assert (Z.shiftr (2 ^ Z.of_nat n) 1 = Z.shiftl 1 (Z.of_nat n - 1)) as ->.
  { rewrite <- shiftl_1_l by lia. rewrite Z.shiftr_shiftl_r by lia.
    destruct n; [done|]. rewrite <- Z.shiftl_opp_r. f_equal. lia. }
  specialize (IH (set_sbit data p (Z.b2z b)) (p + 1)). rewrite length_set_sbit in IH.
  assert (zero_from (set_sbit data p (Z.b2z b)) size (p + 1)) as Hz'.
  { intros q Hq. rewrite Hset, Hz, bool_decide_eq_false_2 by lia. done. }
  specialize (IH ltac:(lia) Hsize Hz').
  case_decide as Hd; case_decide as Hd'; try lia.
  - destruct IH as (data' & -> & Hl & Hsame & Hf & Hzf). exists data'.
    split_and!; [by do 2 f_equal; lia|done| | |].
    + intros q Hq. rewrite Hsame, Hset, bool_decide_eq_false_2 by lia.
      by rewrite orb_false_r.
    + apply field_at_S. split; [|done]. rewrite Hsame, Hset, Hz, bool_decide_eq_true_2 by lia. done.
    + by replace (p + Z.of_nat (S n)) with (p + 1 + Z.of_nat n) by lia.
  - intros _. apply IH. lia.
Qed.

Lemma Put_field data size p n v :
  0 ≤ p → size ≤ Z.of_nat (length data) → zero_from data size p → p + Z.of_nat n ≤ 8 * size →
  ∃ data', Bitstream_Put (at_pos data size p) v n = (true, at_pos data' size (p + Z.of_nat n)) ∧
    length data' = length data ∧ same_before data data' p ∧
    field_at data' p v (Z.of_nat n) ∧ zero_from data' size (p + Z.of_nat n).
Proof.
  intros Hp Hs Hz Hle. pose proof (Put_loop_field data size p n v Hp Hs Hz) as H.
  by rewrite decide_True in H.
Qed.

Lemma Put_full data size p n v :
  0 ≤ p ≤ 8 * size → size ≤ Z.of_nat (length data) → zero_from data size p → 8 * size < p + Z.of_nat n →
  ∃ bs', Bitstream_Put (at_pos data size p) v n = (false, bs') ∧ Bitstream_HasError bs' = true.
Proof.
  intros Hp Hs Hz Hle. pose proof (Put_loop_field data size p n v ltac:(lia) Hs Hz) as H.
  rewrite decide_False in H by lia. apply H. lia.
Qed.
End Fields.

(** ** Sequences of fields

    A field is a bit width and a value.  [put_all] writes the fields until one does not fit,
    [get_all] reads fields of the given widths. *)
Fixpoint put_all (bs : Bitstream) (fs : list (nat * Z)) : bool * Bitstream :=
  match fs with
  | [] => (true, bs)
  | (n, v) :: fs =>
      match Bitstream_Put bs v n with
      | (false, bs) => (false, bs)
      | (true, bs) => put_all bs fs
      end
  end.

Fixpoint get_all (bs : Bitstream) (ns : list nat) : option (list Z) * Bitstream :=
  match ns with
  | [] => (Some [], bs)
  | n :: ns =>
      match Bitstream_Get bs n with
      | (None, bs) => (None, bs)
      | (Some v, bs) =>
          match get_all bs ns with
          | (None, bs) => (None, bs)
          | (Some vs, bs) => (Some (v :: vs), bs)
          end
      end
  end.

Fixpoint bits_of (fs : list (nat * Z)) : Z :=
  match fs with [] => 0 | (n, _) :: fs => Z.of_nat n + bits_of fs end.

(** The fields are stored one after the other from bit [p] on. *)
Fixpoint encodes (data : list Z) (p : Z) (fs : list (nat * Z)) : Prop :=
  match fs with
  | [] => True
  | (n, v) :: fs => field_at data p v (Z.of_nat n) ∧ encodes data (p + Z.of_nat n) fs
  end.

(** A width the code supports and a value that fits in it. *)
Definition field_ok (f : nat * Z) : Prop :=
  (1 ≤ fst f ≤ 32)%nat ∧ 0 ≤ snd f < 2 ^ Z.of_nat (fst f).

Section FieldLists.
Implicit Types (data : list Z) (fs : list (nat * Z)).

Lemma bits_of_nonneg fs : 0 ≤ bits_of fs.
Proof. induction fs as [|[n v] fs IH]; simpl; lia. Qed.

Lemma bits_of_app fs gs : bits_of (fs ++ gs) = bits_of fs + bits_of gs.
Proof. induction fs as [|[n v] fs IH]; simpl; lia. Qed.

Lemma put_all_app bs fs gs :
  put_all bs (fs ++ gs) =
    match put_all bs fs with (false, bs) => (false, bs) | (true, bs) => put_all bs gs end.
Proof.
  revert bs. induction fs as [|[n v] fs IH]; intros bs; simpl; [done|].
  by destruct (Bitstream_Put bs v n) as [[] ?].
Qed.

Lemma encodes_app data p fs gs :
  encodes data p (fs ++ gs) ↔ encodes data p fs ∧ encodes data (p + bits_of fs) gs.
Proof.
  revert p. induction fs as [|[n v] fs IH]; intros p; simpl.
  - rewrite Z.add_0_r. tauto.
  - rewrite IH, Z.add_assoc. tauto.
Qed.

Lemma encodes_same data data' p fs q :
  same_before data data' q → 0 ≤ p → p + bits_of fs ≤ q → encodes data p fs → encodes data' p fs.
Proof.
  revert p. induction fs as [|[n v] fs IH]; intros p Hs Hp Hle; simpl in *; [done|].
  pose proof (bits_of_nonneg fs). intros [Hf He]. split.
  - eapply field_at_same; [done..| |done]. lia.
  - apply IH; [done|lia..|done].
Qed.

Lemma put_all_fields data size p fs :
  0 ≤ p → size ≤ Z.of_nat (length data) → zero_from data size p → p + bits_of fs ≤ 8 * size →
  ∃ data', put_all (at_pos data size p) fs = (true, at_pos data' size (p + bits_of fs)) ∧
    length data' = length data ∧ same_before data data' p ∧
    encodes data' p fs ∧ zero_from data' size (p + bits_of fs).
Proof.
  revert data p. induction fs as [|[n v] fs IH]; intros data p Hp Hs Hz Hle; simpl in *.
  { exists data. rewrite Z.add_0_r. done. }
  pose proof (bits_of_nonneg fs).
  destruct (Put_field data size p n v) as (d1 & -> & Hl1 & Hs1 & Hf1 & Hz1); [done..|lia|].
  destruct (IH d1 (p + Z.of_nat n)) as (d2 & -> & Hl2 & Hs2 & He2 & Hz2); [lia..|done|lia|].
  exists d2. rewrite Z.add_assoc. split_and!; try done.
  - congruence.
  - eapply same_before_trans; [done..|lia].
  - eapply field_at_same; [done..|lia|done].
Qed.

Lemma put_all_full data size p fs :
  0 ≤ p ≤ 8 * size → size ≤ Z.of_nat (length data) → zero_from data size p →
  8 * size < p + bits_of fs →
  ∃ bs', put_all (at_pos data size p) fs = (false, bs') ∧ Bitstream_HasError bs' = true.
Proof.
  revert data p. induction fs as [|[n v] fs IH]; intros data p Hp Hs Hz Hgt; simpl in *; [lia|].
  destruct (decide (p + Z.of_nat n ≤ 8 * size)) as [Hle|Hlt].
  - destruct (Put_field data size p n v) as (d1 & -> & Hl1 & Hs1 & Hf1 & Hz1); [lia..|done|done|].
    apply IH; [lia..|done|lia].
  - destruct (Put_full data size p n v) as (bs' & -> & He); [lia..|done|lia|]. by exists bs'.
Qed.

Lemma get_all_fields data size p fs :
  0 ≤ p → p + bits_of fs ≤ 8 * size → Forall field_ok fs → encodes data p fs →
  get_all (at_pos data size p) fs.*1 = (Some fs.*2, at_pos data size (p + bits_of fs)).
Proof.
  revert p. induction fs as [|[n v] fs IH]; intros p Hp Hle Hok He; simpl in *.
  { by rewrite Z.add_0_r. }
  pose proof (bits_of_nonneg fs). apply Forall_cons in Hok as [[Hn Hv] Hok].
  destruct He as [Hf He]. simpl in *. rewrite (Get_field _ _ _ _ v); [|lia..|done].
  rewrite IH by (done || lia). by rewrite Z.add_assoc.
Qed.

Lemma sbit_zeros n p : sbit (replicate n 0) p = false.
Proof.
  unfold sbit, word_at. destruct (replicate n 0 !! _) as [w|] eqn:E; simpl; [|by rewrite Z.bits_0].
  apply lookup_replicate in E as [-> _]. apply Z.bits_0.
Qed.

Lemma sbit_take data n q : 0 ≤ q < 8 * Z.of_nat n → sbit (take n data) q = sbit data q.
Proof.
  intros Hq. unfold sbit, word_at. rewrite lookup_take_lt; [done|].
  assert (q / 8 < Z.of_nat n) by (apply Z.div_lt_upper_bound; lia).
  assert (0 ≤ q / 8) by (apply Z.div_pos; lia). lia.
Qed.

Lemma GetLength_at_pos data size p :
  Bitstream_GetLength (at_pos data size p) = (p + 7) / 8.
Proof.
  unfold Bitstream_GetLength, at_pos; simpl. pose proof (Z.div_mod p 8 ltac:(lia)).
  pose proof (Z.mod_pos_bound p 8 ltac:(lia)). destruct (Z.eqb_spec (p mod 8) 0).
  - apply (Z.div_unique _ _ _ 7); lia.
  - apply (Z.div_unique _ _ _ (p mod 8 - 1)); lia.
Qed.
End FieldLists.

(** Fields of 1 to 32 bits written one after the other to a zeroed buffer of [size] bytes
    fit exactly when their widths add up to at most [8 * size]; then the length is the number of
    bytes touched and reading the written bytes back with the same widths gives the same values
    with no error; when they do not fit the write reports failure and the error flag is set. *)
Lemma bitstream_roundtrip fs size :
  0 ≤ size → Forall field_ok fs →
  let bs0 := Bitstream_Init (replicate (Z.to_nat size) 0) size in
  if decide (bits_of fs ≤ 8 * size) then
    ∃ bs, put_all bs0 fs = (true, bs) ∧ Bitstream_HasError bs = false ∧
      Bitstream_GetOffset bs = bits_of fs ∧
      Bitstream_GetRemaining bs = 8 * size - bits_of fs ∧
      let len := Bitstream_GetLength bs in
      8 * (len - 1) < bits_of fs ≤ 8 * len ∧
      ∃ bs', get_all (Bitstream_Init (take (Z.to_nat len) (bs_data bs)) len) fs.*1
             = (Some fs.*2, bs') ∧ Bitstream_HasError bs' = false
  else
    ∃ bs, put_all bs0 fs = (false, bs) ∧ Bitstream_HasError bs = true.
Proof.
  intros Hsize Hok bs0. subst bs0. rewrite Bitstream_Init_at_pos.
  assert (zero_from (replicate (Z.to_nat size) 0) size 0) by (intros q _; apply sbit_zeros).
  assert (size ≤ Z.of_nat (length (replicate (Z.to_nat size) 0))).
  { rewrite length_replicate. lia. }
  case_decide as Hfit.
  2:{ apply put_all_full; [lia|done|done|lia]. }
  destruct (put_all_fields (replicate (Z.to_nat size) 0) size 0 fs) as (d & Hp & Hl & _ & He & _);
    [lia|done..|].
  rewrite Z.add_0_l in Hp. eexists. split; [exact Hp|]. split; [done|].
  unfold Bitstream_GetRemaining. rewrite GetOffset_at_pos, GetLength_at_pos.
  split; [done|]. simpl dataSize. split; [lia|]. pose proof (bits_of_nonneg fs).
  pose proof (Z.div_mod (bits_of fs + 7) 8 ltac:(lia)).
  pose proof (Z.mod_pos_bound (bits_of fs + 7) 8 ltac:(lia)).
  cbv zeta. split; [lia|]. rewrite Bitstream_Init_at_pos, get_all_fields; [by eexists|lia|lia|done|].
  eapply (encodes_same d _ _ _ (bits_of fs)); [|done|done|done]. intros q Hq. apply sbit_take. lia.
Qed.

(** ** Memory safety *)

(** What an operation may do to a stream: it keeps the cursor well formed, the size and the bytes
    from [dataSize] on, it never clears the error flag, and on a stream in error it does nothing. *)
Definition confined (bs bs' : Bitstream) : Prop :=
  bs_wf bs' ∧ dataSize bs' = dataSize bs ∧ length (bs_data bs') = length (bs_data bs) ∧
  drop (Z.to_nat (dataSize bs)) (bs_data bs') = drop (Z.to_nat (dataSize bs)) (bs_data bs) ∧
  (bs_error bs = true → bs' = bs).

(** Closes the parts of [confined] that follow from the hypotheses. *)
Ltac confine := unfold confined, bs_wf; split_and!; simpl; try (done || lia || congruence).

Section Safety.
Implicit Types bs : Bitstream.

Lemma confined_refl bs : bs_wf bs → confined bs bs.
Proof. by intros H; split_and!. Qed.

Lemma confined_trans bs1 bs2 bs3 :
  confined bs1 bs2 → (bs_wf bs2 → confined bs2 bs3) → confined bs1 bs3.
Proof.
  intros (Hw & Hs & Hl & Hd & He) H2. destruct (H2 Hw) as (Hw' & Hs' & Hl' & Hd' & He').
  rewrite Hs in Hd'. split_and!; [done|congruence..|]. intros Herr.
  rewrite <- (He Herr). apply He'. by rewrite (He Herr).
Qed.

(** A passed check leaves the stream alone with the cursor inside the buffer. *)
Lemma CheckForError_spec bs :
  bs_wf bs →
  match Bitstream_CheckForError bs with
  | (true, bs') => bs' = bs ∧ bs_error bs = false ∧ byteOffset bs < dataSize bs
  | (false, bs') => confined bs bs' ∧ bs_error bs' = true ∧ bs_data bs' = bs_data bs
  end.
Proof.
  intros Hwf. unfold Bitstream_CheckForError. destruct (bs_error bs) eqn:E.
  - split; [by apply confined_refl|done].
  - destruct (Z.leb_spec (dataSize bs) (byteOffset bs)); [|done].
    split; [|done]. destruct Hwf as (? & ? & ?). confine.
Qed.

Lemma advance_confined bs bs' : confined bs bs' → bs_error bs = false → confined bs (Bitstream_advance bs').
Proof.
  intros ((? & ? & ?) & Hs & Hl & Hd & He) E. unfold Bitstream_advance.
  destruct (Z.eqb_spec (bitOffset bs' + 1) 8); confine.
Qed.

Lemma GetBit_confined bs :
  bs_wf bs → confined bs (snd (Bitstream_GetBit bs)) ∧
    bs_data (snd (Bitstream_GetBit bs)) = bs_data bs.
Proof.
  intros Hwf. unfold Bitstream_GetBit. pose proof (CheckForError_spec bs Hwf) as Hc.
  destruct (Bitstream_CheckForError bs) as [[] bs'].
  - destruct Hc as (-> & He & _). simpl. split.
    + by apply advance_confined; [apply confined_refl|].
    + unfold Bitstream_advance. by case_match.
  - by destruct Hc as (? & _ & ?).
Qed.

Lemma PutBit_confined bs v : bs_wf bs → confined bs (snd (Bitstream_PutBit bs v)).
Proof.
  intros Hwf. unfold Bitstream_PutBit. pose proof (CheckForError_spec bs Hwf) as Hc.
  destruct (Bitstream_CheckForError bs) as [[] bs']; [|by destruct Hc].
  destruct Hc as (-> & He & Hlt). cbn [snd]. apply advance_confined; [|done].
  destruct Hwf as (? & ? & ?). destruct (Z.eqb_spec v 0); confine.
  - rewrite length_insert. lia.
  - by rewrite length_insert.
  - rewrite drop_insert_lt; [done|lia].
Qed.

Lemma Get_loop_confined bs n v :
  bs_wf bs → confined bs (snd (Bitstream_Get_loop bs n v)) ∧
    bs_data (snd (Bitstream_Get_loop bs n v)) = bs_data bs.
Proof.
  revert bs v. induction n as [|n IH]; intros bs v Hwf; cbn [Bitstream_Get_loop].
  { by split; [apply confined_refl|]. }
  pose proof (GetBit_confined bs Hwf) as [Hc Hd].
  destruct (Bitstream_GetBit bs) as [[tmp|] bs']; cbn [snd] in *; [|done]. split.
  - eapply confined_trans; [done|]. intros Hw'. by apply IH.
  - rewrite <- Hd. apply IH. apply Hc.
Qed.

Lemma Put_loop_confined bs v n mask :
  bs_wf bs → confined bs (snd (Bitstream_Put_loop bs v n mask)).
Proof.
  revert bs mask. induction n as [|n IH]; intros bs mask Hwf; cbn [Bitstream_Put_loop].
  { by apply confined_refl. }
  pose proof (PutBit_confined bs (if Z.land v mask =? 0 then 0 else 1) Hwf) as Hc.
  destruct (Bitstream_PutBit bs _) as [[] bs']; cbn [snd] in *; [|done].
  eapply confined_trans; [done|]. intros Hw'. by apply IH.
Qed.

Lemma put_all_confined bs fs : bs_wf bs → confined bs (snd (put_all bs fs)).
Proof.
  revert bs. induction fs as [|[n v] fs IH]; intros bs Hwf; cbn [put_all].
  { by apply confined_refl. }
  pose proof (Put_loop_confined bs v n (Z.shiftl 1 (Z.of_nat n - 1)) Hwf) as Hc.
  change (Bitstream_Put_loop bs v n _) with (Bitstream_Put bs v n) in Hc.
  destruct (Bitstream_Put bs v n) as [[] bs']; [|done].
  eapply confined_trans; [done|]. intros Hw'. by apply IH.
Qed.

Lemma Skip_confined bs k :
  bs_wf bs → confined bs (snd (Bitstream_Skip bs k)) ∧
    bs_data (snd (Bitstream_Skip bs k)) = bs_data bs.
Proof.
  intros Hwf. unfold Bitstream_Skip. pose proof (CheckForError_spec bs Hwf) as Hc.
  destruct (Bitstream_CheckForError bs) as [[] bs']; [|by destruct Hc as (? & _ & ?)].
  destruct Hc as (-> & He & Hlt). destruct Hwf as (? & ? & ?). simpl. split; [|done].
  pose proof (is_u32_u32 (bitOffset bs + k)) as [Hu _].
  pose proof (Z.mod_pos_bound (u32 (bitOffset bs + k)) 8 ltac:(lia)).
  assert (0 ≤ u32 (bitOffset bs + k) / 8) by (apply Z.div_pos; lia).
  confine.
Qed.

Lemma Align_confined bs a :
  bs_wf bs → 0 < a → confined bs (snd (Bitstream_Align bs a)) ∧
    bs_data (snd (Bitstream_Align bs a)) = bs_data bs.
Proof.
  intros Hwf Ha. unfold Bitstream_Align.
  pose proof (Z.mod_pos_bound (Bitstream_GetOffset bs) a Ha).
  destruct (Z.ltb_spec 0 (Bitstream_GetOffset bs mod a)).
  - by apply Skip_confined.
  - by split; [apply confined_refl|].
Qed.
End Safety.

(** No operation touches memory outside the buffer it was given or leaves the cursor outside
    a byte, whatever the stream's content: a write changes bytes below [dataSize] only, reads,
    skips and alignments change no byte, and a stream in error stays exactly as it is. *)
Lemma bitstream_confined bs v n k a :
  bs_wf bs → 0 < a →
  confined bs (snd (Bitstream_Put bs v n)) ∧
  (confined bs (snd (Bitstream_Get bs n)) ∧ bs_data (snd (Bitstream_Get bs n)) = bs_data bs) ∧
  (confined bs (snd (Bitstream_Skip bs k)) ∧ bs_data (snd (Bitstream_Skip bs k)) = bs_data bs) ∧
  (confined bs (snd (Bitstream_GetAlignedData bs a)) ∧
   bs_data (snd (Bitstream_GetAlignedData bs a)) = bs_data bs).
Proof.
  intros Hwf Ha. split_and!.
  - by apply Put_loop_confined.
  - by apply Get_loop_confined.
  - by apply Get_loop_confined.
  - by apply Skip_confined.
  - by apply Skip_confined.
  - by apply Align_confined.
  - by apply Align_confined.
Qed.

