(* ===== verification/BitmapCompression.v ===== *)
(** * Compression of bitmap words ([utils/misc/bitmap_compression.c])

    A compressed bitmap is a 16-bit header (compression type, three unused bits, number of
    32-bit blocks) followed by the blocks, either raw or as a bit stream of two-bit flags with
    run lengths.  The output buffer is a list of bytes, the bitmap a list of words; [memcpy]
    between them uses the little-endian layout of the platform. *)
From S2P Require Import Prelude Bitstream.

Definition BITMAP_COMPRESSION_FLAG_ZERO : Z := 0.
Definition BITMAP_COMPRESSION_FLAG_ONE : Z := 1.
Definition BITMAP_COMPRESSION_FLAG_RLE : Z := 2.
Definition BITMAP_COMPRESSION_FLAG_RAW : Z := 3.

Definition BITMAP_COMPRESSION_TYPE_NO : Z := 0.
Definition BITMAP_COMPRESSION_TYPE_DEFAULT : Z := 1.

Record BitmapDecompressState := mkBitmapDecompressState {
  bds_bitstream : Bitstream;
  compressionType : Z;
  blockCount : Z;
}.

(** ** Raw memory *)

(** The four bytes of a [uint32] in memory, and the word they spell. *)
Definition word_bytes (w : Z) : list Z :=
  [w mod 256; w / 2 ^ 8 mod 256; w / 2 ^ 16 mod 256; w / 2 ^ 24 mod 256].

Definition bytes_word (b0 b1 b2 b3 : Z) : Z := b0 + b1 * 2 ^ 8 + b2 * 2 ^ 16 + b3 * 2 ^ 24.

Fixpoint words_of_bytes (bs : list Z) : list Z :=
  match bs with
  | b0 :: b1 :: b2 :: b3 :: bs => bytes_word b0 b1 b2 b3 :: words_of_bytes bs
  | _ => []
  end.

(** [memcpy(dst + off, src, length src)]; a copy past the end of the destination is undefined
    behaviour and is reported. *)
Definition memcpy_at (dst : list Z) (off : nat) (src : list Z) : result (list Z) :=
  if (off + length src <=? length dst)%nat
  then Ok (take off dst ++ src ++ drop (off + length src) dst)
  else Err "memcpy: write outside the buffer".

(** The [n] bytes at [off]; reading past the end is reported likewise. *)
Definition memread (src : list Z) (off n : nat) : result (list Z) :=
  if (off + n <=? length src)%nat then Ok (take n (drop off src))
  else Err "memcpy: read outside the buffer".

(** [memset(data, 0, n)] *)
Definition memset0 (data : list Z) (n : nat) : list Z := replicate n 0 ++ drop n data.

(** ** Decompression *)

(** Fills in a state, whose fields keep their old content where a failing call returns early. *)
Definition BitmapDecompress_Init (state : BitmapDecompressState) (inData : list Z) (inDataSize : Z)
    : bool * BitmapDecompressState :=
  match Bitstream_Get (Bitstream_Init inData inDataSize) 1 with
  | (None, bs) => (false, mkBitmapDecompressState bs (compressionType state) (blockCount state))
  | (Some ctype, bs) =>
      match Bitstream_Skip bs 3 with
      | (false, bs) => (false, mkBitmapDecompressState bs ctype (blockCount state))
      | (true, bs) =>
          match Bitstream_Get bs 12 with
          | (None, bs) => (false, mkBitmapDecompressState bs ctype (blockCount state))
          | (Some count, bs) => (true, mkBitmapDecompressState bs ctype count)
          end
      end
  end.

Definition BitmapDecompress_GetBlockCount (state : BitmapDecompressState) : Z := blockCount state.

Definition BitmapDecompress_GetCompressionType (state : BitmapDecompressState) : Z :=
  compressionType state.

Definition BitmapDecompress_HasError (state : BitmapDecompressState) : bool :=
  Bitstream_HasError (bds_bitstream state).

(** The variables of the decompression loop. *)
Record DecompressLoop := mkDecompressLoop {
  dl_bitstream : Bitstream;
  dl_bitmap : list Z;
  dl_last : Z;
  dl_rle : Z;
  dl_failed : bool;
}.

(** The [switch (flag)] of an iteration and the assignment of [lastBlockData] after it. *)
Definition decompress_flag (i : nat) (flag : Z) (st : DecompressLoop) : result DecompressLoop :=
  let finish bs bitmap rle failed :=
    Ok (mkDecompressLoop bs bitmap (word_at bitmap i) rle failed) in
  let bs := dl_bitstream st in
  let bitmap := dl_bitmap st in
  if flag =? BITMAP_COMPRESSION_FLAG_ZERO then finish bs (<[i := 0]> bitmap) (dl_rle st) (dl_failed st)
  else if flag =? BITMAP_COMPRESSION_FLAG_ONE then
    finish bs (<[i := 0xFFFFFFFF]> bitmap) (dl_rle st) (dl_failed st)
  else if flag =? BITMAP_COMPRESSION_FLAG_RAW then
    match Bitstream_Get bs 32 with
    | (None, bs) => finish bs bitmap (dl_rle st) true
    | (Some v, bs) => finish bs (<[i := v]> bitmap) (dl_rle st) (dl_failed st)
    end
  else if flag =? BITMAP_COMPRESSION_FLAG_RLE then
    match Bitstream_Get bs 8 with
    | (None, bs) => finish bs bitmap (dl_rle st) true
    | (Some rle, bs) => finish bs (<[i := dl_last st]> bitmap) rle (dl_failed st)
    end
  else Err "Invalid compression flag".

(** [for (i = ..; i < blockCount; i++)] with [n] iterations left. *)
Fixpoint decompress_loop (n i : nat) (st : DecompressLoop) : result DecompressLoop :=
  match n with
  | O => Ok st
  | S n =>
      if dl_rle st =? 0 then
        match Bitstream_Get (dl_bitstream st) 2 with
        | (None, bs) =>
            Ok (mkDecompressLoop bs (dl_bitmap st) (dl_last st) (dl_rle st) true)
        | (Some flag, bs) =>
            match decompress_flag i flag
                    (mkDecompressLoop bs (dl_bitmap st) (dl_last st) (dl_rle st) (dl_failed st)) with
            | Ok st => decompress_loop n (S i) st
            | Err e => Err e
            end
        end
      else
        decompress_loop n (S i)
          (mkDecompressLoop (dl_bitstream st) (<[i := dl_last st]> (dl_bitmap st)) (dl_last st)
             (u32 (dl_rle st - 1)) (dl_failed st))
  end.

(** The bitmap array afterwards; [bitmapDataSize] is its size in words. *)
Definition BitmapDecompress_Decompress (state : BitmapDecompressState) (bitmap : list Z)
    (bitmapDataSize : Z) : result (list Z) :=
  if (blockCount state <? 0) || (bitmapDataSize <? blockCount state) then
    Err "invalid block count for bitmap during decompression"
  else if compressionType state =? BITMAP_COMPRESSION_TYPE_NO then
    let '(off, bs) := Bitstream_GetAlignedData (bds_bitstream state) 16 in
    bytes ← memread (bs_data bs) (Z.to_nat off) (Z.to_nat (blockCount state * 4));
    Ok (words_of_bytes bytes ++ drop (Z.to_nat (blockCount state)) bitmap)
  else if compressionType state =? BITMAP_COMPRESSION_TYPE_DEFAULT then
    st ← decompress_loop (Z.to_nat (blockCount state)) 0
           (mkDecompressLoop (bds_bitstream state) bitmap 0 0 false);
    if 0 <? dl_rle st then Err "illegal RLE state after bitmap decompression"
    else if dl_failed st then Err "bitstream read error seen during decompression"
    else Ok (dl_bitmap st)
  else Err "illegal compression type during bitmap decompression".

(** ** Compression *)

(** [for (i = 0; i < n; i++) if (!Bitstream_Put(bitstream, flag, 2)) return false;] *)
Fixpoint put_flags (bs : Bitstream) (flag : Z) (n : nat) : bool * Bitstream :=
  match n with
  | O => (true, bs)
  | S n =>
      match Bitstream_Put bs flag 2 with
      | (false, bs) => (false, bs)
      | (true, bs) => put_flags bs flag n
      end
  end.

Definition Bitmap_EncodeRLE (bs : Bitstream) (rleRepeatCount lastBlockFlag : Z) : bool * Bitstream :=
  if (lastBlockFlag =? BITMAP_COMPRESSION_FLAG_RAW) || (4 <? rleRepeatCount) then
    match Bitstream_Put bs BITMAP_COMPRESSION_FLAG_RLE 2 with
    | (false, bs) => (false, bs)
    | (true, bs) => Bitstream_Put bs (rleRepeatCount - 1) 8
    end
  else put_flags bs lastBlockFlag (Z.to_nat rleRepeatCount).

(** [if (rleRepeatCount > 0) if (!Bitmap_EncodeRLE(..)) return false;] *)
Definition flush_rle (bs : Bitstream) (rleRepeatCount lastBlockFlag : Z) : bool * Bitstream :=
  if 0 <? rleRepeatCount then Bitmap_EncodeRLE bs rleRepeatCount lastBlockFlag else (true, bs).

(** A block of its own; returns its flag. *)
Definition put_block (bs : Bitstream) (blockData : Z) : bool * Bitstream * Z :=
  if blockData =? 0 then (Bitstream_Put bs BITMAP_COMPRESSION_FLAG_ZERO 2, BITMAP_COMPRESSION_FLAG_ZERO)
  else if blockData =? 0xFFFFFFFF then
    (Bitstream_Put bs BITMAP_COMPRESSION_FLAG_ONE 2, BITMAP_COMPRESSION_FLAG_ONE)
  else
    (match Bitstream_Put bs BITMAP_COMPRESSION_FLAG_RAW 2 with
     | (false, bs) => (false, bs)
     | (true, bs) => Bitstream_Put bs blockData 32
     end, BITMAP_COMPRESSION_FLAG_RAW).

(** The loop over the blocks from index [i] on, and the last run after it. *)
Fixpoint compress_loop (bitmap : list Z) (i : nat) (bs : Bitstream)
    (lastBlockData lastBlockFlag rleRepeatCount : Z) : bool * Bitstream :=
  match bitmap with
  | [] => flush_rle bs rleRepeatCount lastBlockFlag
  | blockData :: bitmap =>
      if (blockData =? lastBlockData) && (rleRepeatCount <=? 255) && (0 <? i)%nat then
        compress_loop bitmap (S i) bs lastBlockData lastBlockFlag (rleRepeatCount + 1)
      else
        match flush_rle bs rleRepeatCount lastBlockFlag with
        | (false, bs) => (false, bs)
        | (true, bs) =>
            match put_block bs blockData with
            | (false, bs, _) => (false, bs)
            | (true, bs, flag) => compress_loop bitmap (S i) bs blockData flag 0
            end
        end
  end.

Definition Bitmap_Compress_Default (bitmap : list Z) (blockCount : nat) (bs : Bitstream)
    : bool * Bitstream :=
  compress_loop (take blockCount bitmap) 0 bs 0 0 0.

Definition Bitmap_Compress_Write_Header (compressionType blockCount : Z) (bs : Bitstream)
    : bool * Bitstream :=
  match Bitstream_Put bs compressionType 1 with
  | (false, bs) => (false, bs)
  | (true, bs) =>
      match Bitstream_Skip bs 3 with
      | (false, bs) => (false, bs)
      | (true, bs) => Bitstream_Put bs blockCount 12
      end
  end.

(** [Bitmap_Compress] with the call for the fallback as a parameter. *)
Definition Bitmap_Compress_with (fallback : list Z → result (Z * list Z)) (compressionType : Z)
    (bitmap : list Z) (bitmapDataSize : Z) (outData : list Z) (maxOutDataSize : Z)
    : result (Z * list Z) :=
  let outData := memset0 outData (Z.to_nat maxOutDataSize) in
  match Bitmap_Compress_Write_Header compressionType bitmapDataSize
          (Bitstream_Init outData maxOutDataSize) with
  | (false, _) => Err "Failed to write bitmap compression header"
  | (true, bs) =>
      if compressionType =? BITMAP_COMPRESSION_TYPE_NO then
        if bitmapDataSize =? 0 then Ok (2, bs_data bs)
        else
          let '(off, bs) := Bitstream_GetAlignedData bs 16 in
          outData ← memcpy_at (bs_data bs) (Z.to_nat off)
                      (concat (word_bytes <$> take (Z.to_nat bitmapDataSize) bitmap));
          Ok (bitmapDataSize * 4 + 2, outData)
      else if compressionType =? BITMAP_COMPRESSION_TYPE_DEFAULT then
        match Bitmap_Compress_Default bitmap (Z.to_nat bitmapDataSize) bs with
        | (false, bs) => fallback (memset0 (bs_data bs) (Z.to_nat maxOutDataSize))
        | (true, bs) => Ok (Bitstream_GetLength bs, bs_data bs)
        end
      else Err "illegal compression type during bitmap compression"
  end.

(** The size of the compressed data and the output buffer.  The recursive call is with the type
    that does not compress, which makes no further call. *)
Definition Bitmap_Compress (compressionType : Z) (bitmap : list Z) (bitmapDataSize : Z)
    (outData : list Z) (maxOutDataSize : Z) : result (Z * list Z) :=
  Bitmap_Compress_with
    (λ outData,
       Bitmap_Compress_with (λ _, Err "unreachable") BITMAP_COMPRESSION_TYPE_NO bitmap
         bitmapDataSize outData maxOutDataSize)
    compressionType bitmap bitmapDataSize outData maxOutDataSize.

(** ** The fields the compressor emits *)

Definition rle_fields (rle flag : Z) : list (nat * Z) :=
  if (flag =? BITMAP_COMPRESSION_FLAG_RAW) || (4 <? rle)
  then [(2%nat, BITMAP_COMPRESSION_FLAG_RLE); (8%nat, rle - 1)]
  else replicate (Z.to_nat rle) (2%nat, flag).

Definition flush_fields (rle flag : Z) : list (nat * Z) :=
  if 0 <? rle then rle_fields rle flag else [].

Definition flag_of (w : Z) : Z :=
  if w =? 0 then BITMAP_COMPRESSION_FLAG_ZERO
  else if w =? 0xFFFFFFFF then BITMAP_COMPRESSION_FLAG_ONE else BITMAP_COMPRESSION_FLAG_RAW.

Definition block_fields (w : Z) : list (nat * Z) :=
  (2%nat, flag_of w) ::
    if flag_of w =? BITMAP_COMPRESSION_FLAG_RAW then [(32%nat, w)] else [].

Fixpoint compress_fields (ws : list Z) (i : nat) (last rle : Z) : list (nat * Z) :=
  match ws with
  | [] => flush_fields rle (flag_of last)
  | w :: ws =>
      if (w =? last) && (rle <=? 255) && (0 <? i)%nat
      then compress_fields ws (S i) last (rle + 1)
      else flush_fields rle (flag_of last) ++ block_fields w ++ compress_fields ws (S i) w 0
  end.

Section Compressor.
Implicit Types (bs : Bitstream) (ws : list Z).

Lemma put_flags_fields bs flag n : put_flags bs flag n = put_all bs (replicate n (2%nat, flag)).
Proof.
  revert bs. induction n as [|n IH]; intros bs; simpl; [done|].
  by destruct (Bitstream_Put bs flag 2) as [[] ?].
Qed.

Lemma flush_rle_fields bs rle flag : flush_rle bs rle flag = put_all bs (flush_fields rle flag).
Proof.
  unfold flush_rle, flush_fields, Bitmap_EncodeRLE, rle_fields.
  destruct (0 <? rle); [|done]. destruct (_ || _); [|apply put_flags_fields]. simpl.
  destruct (Bitstream_Put bs _ 2) as [[] ?]; [|done].
  by destruct (Bitstream_Put _ _ 8) as [[] ?].
Qed.

Lemma put_block_fields bs w : put_block bs w = (put_all bs (block_fields w), flag_of w).
Proof.
  unfold put_block, block_fields, flag_of.
  destruct (w =? 0); [|destruct (w =? 0xFFFFFFFF)]; simpl;
    destruct (Bitstream_Put bs _ 2) as [[] ?]; try done.
  by destruct (Bitstream_Put _ w 32) as [[] ?].
Qed.

Lemma compress_loop_fields ws i bs last rle :
  compress_loop ws i bs last (flag_of last) rle = put_all bs (compress_fields ws i last rle).
Proof.
  revert i bs last rle. induction ws as [|w ws IH]; intros i bs last rle;
    cbn [compress_loop compress_fields].
  { apply flush_rle_fields. }
  destruct (_ && _); [apply IH|]. rewrite flush_rle_fields, put_all_app.
  destruct (put_all bs (flush_fields rle (flag_of last))) as [[] bs1]; [|done].
  rewrite put_block_fields, put_all_app. destruct (put_all bs1 (block_fields w)) as [[] bs2]; [|done].
  apply IH.
Qed.
End Compressor.

Section Decompressor.
Implicit Types (data ws : list Z).

(** The loop state while reading a stream without error. *)
Definition reading data size p bitmap last rle : DecompressLoop :=
  mkDecompressLoop (at_pos data size p) bitmap last rle false.

Lemma word_at_middle (l : list Z) x k i : i = length l → word_at ((l ++ [x]) ++ k) i = x.
Proof. intros ->. unfold word_at. rewrite <- app_assoc. cbn [app]. by rewrite list_lookup_middle. Qed.

Lemma insert_middle (l k : list Z) y x i : i = length l → <[i := x]> (l ++ y :: k) = (l ++ [x]) ++ k.
Proof. intros ->. rewrite insert_app_r_alt, Nat.sub_diag by done. simpl. by rewrite <- app_assoc. Qed.

(** One flag and what belongs to it. *)
Lemma decompress_block data size p n dn rest y last w :
  0 ≤ p → p + bits_of (block_fields w) ≤ 8 * size → is_u32 w → encodes data p (block_fields w) →
  decompress_loop (S n) (length dn) (reading data size p (dn ++ y :: rest) last 0) =
  decompress_loop n (length (dn ++ [w]))
    (reading data size (p + bits_of (block_fields w)) ((dn ++ [w]) ++ rest) w 0).
Proof.
  intros Hp Hle Hw He. unfold reading. cbn [decompress_loop dl_rle dl_bitstream Z.eqb].
  unfold block_fields in *. cbn [encodes bits_of] in *. destruct He as [Hflag He].
  assert (0 ≤ flag_of w < 2 ^ Z.of_nat 2 ∧
          0 ≤ bits_of (if flag_of w =? BITMAP_COMPRESSION_FLAG_RAW then [(32%nat, w)] else [])).
  { unfold flag_of. destruct (w =? 0); [done|]. by destruct (w =? 0xFFFFFFFF). }
  rewrite (Get_field _ _ _ _ (flag_of w)); [|lia|lia|lia|lia|done].
  unfold decompress_flag; cbn [dl_bitstream dl_bitmap dl_rle dl_failed dl_last].
  rewrite length_app, Nat.add_1_r. unfold flag_of in *.
  destruct (Z.eqb_spec w 0) as [->|]; [|destruct (Z.eqb_spec w 0xFFFFFFFF) as [->|]]; simpl in *.
  - rewrite insert_middle, word_at_middle by done. done.
  - rewrite insert_middle, word_at_middle by done. done.
  - rewrite (Get_field _ _ _ _ w); [|lia..|done|by destruct He].
    rewrite insert_middle, word_at_middle by done. simpl.
    by rewrite <- Z.add_assoc.
Qed.

(** [k] more copies of the last block inside a run. *)
Lemma decompress_repeat data size p n (k : nat) dn rest last :
  (k ≤ length rest)%nat → Z.of_nat k < 2 ^ 32 →
  decompress_loop (k + n) (length dn) (reading data size p (dn ++ rest) last (Z.of_nat k)) =
  decompress_loop n (length (dn ++ replicate k last))
    (reading data size p ((dn ++ replicate k last) ++ drop k rest) last 0).
Proof.
  revert dn rest. induction k as [|k IH]; intros dn rest Hk Hr.
  { by rewrite app_nil_r. }
  destruct rest as [|y rest]; [simpl in Hk; lia|]. unfold reading in *.
  cbn [decompress_loop dl_rle dl_bitstream dl_last dl_bitmap dl_failed Nat.add].
  rewrite (proj2 (Z.eqb_neq _ _)) by lia. rewrite insert_middle by done.
  replace (Z.of_nat (S k) - 1) with (Z.of_nat k) by lia.
  rewrite u32_small by (unfold is_u32; lia).
  replace (S (length dn)) with (length (dn ++ [last])) by (rewrite length_app; simpl; lia).
  rewrite IH by (simpl in *; lia). simpl. by rewrite <- app_assoc.
Qed.

Lemma block_fields_short w :
  flag_of w ≠ BITMAP_COMPRESSION_FLAG_RAW → block_fields w = [(2%nat, flag_of w)].
Proof. intros. unfold block_fields. by rewrite (proj2 (Z.eqb_neq _ _)). Qed.

(** A run of one to four all-zero or all-one blocks written out. *)
Lemma decompress_flags data size p n (k : nat) dn rest last :
  0 ≤ p → p + 2 * Z.of_nat k ≤ 8 * size → (k ≤ length rest)%nat → is_u32 last →
  flag_of last ≠ BITMAP_COMPRESSION_FLAG_RAW →
  encodes data p (replicate k (2%nat, flag_of last)) →
  decompress_loop (k + n) (length dn) (reading data size p (dn ++ rest) last 0) =
  decompress_loop n (length (dn ++ replicate k last))
    (reading data size (p + 2 * Z.of_nat k) ((dn ++ replicate k last) ++ drop k rest) last 0).
Proof.
  intros Hp Hle Hk Hw Hflag. revert p dn rest Hp Hle Hk.
  induction k as [|k IH]; intros p dn rest Hp Hle Hk He.
  { by rewrite app_nil_r, Z.add_0_r. }
  destruct rest as [|y rest]; [simpl in Hk; lia|]. cbn [Nat.add].
  rewrite (decompress_block _ _ _ _ _ _ _ _ last); [|lia| |done|].
  - rewrite block_fields_short by done. cbn [bits_of]. rewrite Z.add_0_r.
    rewrite IH; [|lia..|simpl in Hk; lia|by destruct He].
    replace (p + Z.of_nat 2 + 2 * Z.of_nat k) with (p + 2 * Z.of_nat (S k)) by lia.
    by rewrite <- (app_assoc dn).
  - rewrite block_fields_short by done. cbn [bits_of]. lia.
  - rewrite block_fields_short by done. by destruct He.
Qed.

Lemma bits_of_flags k flag : bits_of (replicate k (2%nat, flag)) = 2 * Z.of_nat k.
Proof. induction k as [|k IH]; cbn [replicate bits_of]; lia. Qed.

(** A pending run of [rle] copies of the last block. *)
Lemma decompress_flush data size p n (rle : nat) dn rest last :
  let fs := flush_fields (Z.of_nat rle) (flag_of last) in
  0 ≤ p → p + bits_of fs ≤ 8 * size → (rle ≤ 256)%nat → (rle ≤ length rest)%nat → is_u32 last →
  encodes data p fs →
  decompress_loop (rle + n) (length dn) (reading data size p (dn ++ rest) last 0) =
  decompress_loop n (length (dn ++ replicate rle last))
    (reading data size (p + bits_of fs) ((dn ++ replicate rle last) ++ drop rle rest) last 0).
Proof.
  intros fs Hp Hle H256 Hrest Hlast He. subst fs. unfold flush_fields, rle_fields in *.
  destruct (Z.ltb_spec 0 (Z.of_nat rle)) as [Hpos|Hneg].
  2:{ assert (rle = 0%nat) as -> by lia. simpl. by rewrite app_nil_r, Z.add_0_r. }
  destruct (_ || _) eqn:Ekind.
  - destruct rle as [|k]; [lia|]. destruct rest as [|y rest]; [simpl in Hrest; lia|].
    cbn [encodes bits_of] in *. destruct He as (Hflag & Hcount & _).
    replace (Z.of_nat (S k) - 1) with (Z.of_nat k) in * by lia. unfold reading.
    cbn [decompress_loop dl_rle dl_bitstream Z.eqb Nat.add].
    rewrite (Get_field _ _ _ _ BITMAP_COMPRESSION_FLAG_RLE); [|lia..|done|done].
    unfold decompress_flag; simpl.
    rewrite (Get_field _ _ _ _ (Z.of_nat k)); [|lia..|done]. simpl.
    rewrite insert_middle, word_at_middle by done.
    replace (S (length dn)) with (length (dn ++ [last]))
      by (rewrite length_app; simpl; lia).
    pose proof (decompress_repeat data size (p + Z.of_nat 2 + Z.of_nat 8) n k (dn ++ [last]) rest
                  last ltac:(simpl in *; lia) ltac:(lia)) as Hr.
    unfold reading in Hr. rewrite Hr, <- (app_assoc dn). by rewrite Z.add_0_r, <- Z.add_assoc.
  - apply orb_false_iff in Ekind as [Eraw%Z.eqb_neq _].
    rewrite Nat2Z.id, bits_of_flags in *. by apply decompress_flags.
Qed.

(** The decompressor restores the pending run and the rest of the bitmap. *)
Lemma decompress_fields ws data size p (rle : nat) dn rest last :
  let fs := compress_fields ws (length dn + rle) last (Z.of_nat rle) in
  0 ≤ p → p + bits_of fs ≤ 8 * size → (rle ≤ 256)%nat →
  (rle + length ws ≤ length rest)%nat → is_u32 last → Forall is_u32 ws → encodes data p fs →
  ∃ last', decompress_loop (rle + length ws) (length dn)
    (reading data size p (dn ++ rest) last 0) =
    Ok (reading data size (p + bits_of fs)
      (dn ++ replicate rle last ++ ws ++ drop (rle + length ws) rest) last' 0).
Proof.
  revert p rle dn rest last.
  induction ws as [|w ws IH]; intros p rle dn rest last fs Hp Hle H256 Hlen Hlast Hws He; subst fs.
  { exists last. cbn [length compress_fields] in *. rewrite decompress_flush by (done || lia).
    simpl. by rewrite Nat.add_0_r, <- app_assoc. }
  apply Forall_cons in Hws as [Hw Hws]. cbn [compress_fields length] in *.
  destruct (_ && _) eqn:Esame.
  - apply andb_true_iff in Esame as [[Heq%Z.eqb_eq H255%Z.leb_le]%andb_true_iff _]. subst w.
    replace (S (length dn + rle)) with (length dn + S rle)%nat in * by lia.
    replace (Z.of_nat rle + 1) with (Z.of_nat (S rle)) in * by lia.
    destruct (IH p (S rle) dn rest last) as [last' Hl]; [done..|lia|lia|done|done|done|].
    exists last'. replace (rle + S (length ws))%nat with (S rle + length ws)%nat by lia.
    rewrite Hl. do 2 f_equal. f_equal. rewrite replicate_S_end, <- app_assoc. done.
  - rewrite encodes_app in He. rewrite !bits_of_app in *. destruct He as [He1 He].
    apply encodes_app in He as [He2 He3].
    pose proof (bits_of_nonneg (block_fields w)).
    pose proof (bits_of_nonneg (flush_fields (Z.of_nat rle) (flag_of last))).
    pose proof (bits_of_nonneg (compress_fields ws (S (length dn + rle)) w 0)).
    rewrite decompress_flush by (done || lia).
    destruct (drop rle rest) as [|y rest'] eqn:Erest.
    { apply (f_equal length) in Erest. rewrite length_drop in Erest. simpl in *. lia. }
    rewrite (decompress_block _ _ _ _ _ _ _ _ w); [|lia..|done|done].
    specialize (IH (p + bits_of (flush_fields (Z.of_nat rle) (flag_of last)) +
      bits_of (block_fields w)) 0%nat ((dn ++ replicate rle last) ++ [w]) rest' w).
    rewrite !length_app, length_replicate in IH. cbn [length] in IH.
    change (Z.of_nat 0) with 0 in IH. cbv zeta in IH.
    replace (length dn + rle + 1 + 0)%nat with (S (length dn + rle)) in IH by lia.
    assert (length rest' = (length rest - rle - 1)%nat) as Hr'.
    { apply (f_equal length) in Erest. rewrite length_drop in Erest. simpl in Erest. lia. }
    destruct IH as [last' Hl]; [lia..|done|done|by rewrite <- Z.add_assoc in *|].
    exists last'. rewrite !length_app, length_replicate. cbn [length Nat.add] in *.
    rewrite Hl. do 2 f_equal; [lia|]. rewrite <- !app_assoc. by rewrite <- drop_drop, Erest.
Qed.
End Decompressor.

(** ** Header and raw data *)

(** The bits of a header for type [t] and [n] blocks. *)
Definition header_at (data : list Z) (t n : Z) : Prop := field_at data 0 t 1 ∧ field_at data 4 n 12.

Section Header.
Implicit Types data : list Z.

Lemma Write_Header_spec data size t n :
  2 ≤ size ≤ Z.of_nat (length data) → zero_from data size 0 →
  ∃ data', Bitmap_Compress_Write_Header t n (Bitstream_Init data size) = (true, at_pos data' size 16)
    ∧ length data' = length data ∧ header_at data' t n ∧ zero_from data' size 16.
Proof.
  intros Hs Hz. unfold Bitmap_Compress_Write_Header. rewrite Bitstream_Init_at_pos.
  destruct (Put_field data size 0 1 t) as (d1 & -> & Hl1 & _ & Hf1 & Hz1); [lia|lia|done|lia|].
  rewrite Skip_at_pos by lia.
  destruct (Put_field d1 size (0 + Z.of_nat 1 + 3) 12 n) as (d2 & -> & Hl2 & Hs2 & Hf2 & Hz2);
    [lia|lia| |lia|].
  { intros q Hq. apply Hz1. lia. }
  exists d2. split_and!; [done|congruence| |done]. split; [|done].
  eapply (field_at_same d1); [done|lia..|done].
Qed.

Lemma Init_spec data size t n :
  2 ≤ size → 0 ≤ t < 2 → 0 ≤ n < 4096 → header_at data t n →
  ∀ st0, BitmapDecompress_Init st0 data size = (true, mkBitmapDecompressState (at_pos data size 16) t n).
Proof.
  intros Hs Ht Hn [Hf1 Hf2] st0. unfold BitmapDecompress_Init. rewrite Bitstream_Init_at_pos.
  rewrite (Get_field _ _ _ _ t); [|lia..|done]. rewrite Skip_at_pos by lia.
  by rewrite (Get_field _ _ _ _ n); [|lia..|].
Qed.

Lemma header_at_same data data' t n :
  same_before data data' 16 → header_at data t n → header_at data' t n.
Proof. intros Hs [H1 H2]. split; (eapply field_at_same; [done|lia..|done]). Qed.

Lemma AlignedData_16 data size :
  Bitstream_GetAlignedData (at_pos data size 16) 16 = (2, at_pos data size 16).
Proof. done. Qed.

Lemma zero_from_memset0 data (n : nat) : zero_from (memset0 data n) (Z.of_nat n) 0.
Proof.
  intros q Hq. unfold memset0. rewrite <- (sbit_take _ n) by lia.
  rewrite take_app_length' by (by rewrite length_replicate). apply sbit_zeros.
Qed.

Lemma length_memset0 data (n : nat) : (n ≤ length data)%nat → length (memset0 data n) = length data.
Proof. intros. unfold memset0. rewrite length_app, length_replicate, length_drop. lia. Qed.

Lemma sbit_same_take data data' n q :
  take n data' = take n data → 0 ≤ q < 8 * Z.of_nat n → sbit data' q = sbit data q.
Proof. intros Ht Hq. by rewrite <- (sbit_take data n), <- Ht, sbit_take. Qed.

Lemma same_before_take data n p : p ≤ 8 * Z.of_nat n → same_before data (take n data) p.
Proof. intros Hp q Hq. apply sbit_take. lia. Qed.

(** The words are read back from their bytes. *)
Lemma bytes_word_bytes w : is_u32 w →
  bytes_word (w mod 256) (w / 2 ^ 8 mod 256) (w / 2 ^ 16 mod 256) (w / 2 ^ 24 mod 256) = w.
Proof.
  intros Hw. unfold bytes_word, is_u32 in *.
  change (2 ^ 8) with 256. change (2 ^ 16) with (256 * 256). change (2 ^ 24) with (256 * 256 * 256).
  rewrite <- !Z.div_div by lia. set (a := w / 256). set (b := a / 256). set (c := b / 256).
  pose proof (Z.div_mod w 256 ltac:(lia)). pose proof (Z.div_mod a 256 ltac:(lia)).
  pose proof (Z.div_mod b 256 ltac:(lia)).
  assert (c mod 256 = c) as ->; [|lia]. apply Z.mod_small.
  assert (0 ≤ a < 2 ^ 24) by (split; [apply Z.div_pos|apply Z.div_lt_upper_bound]; lia).
  assert (0 ≤ b < 2 ^ 16) by (split; [apply Z.div_pos|apply Z.div_lt_upper_bound]; lia).
  split; [apply Z.div_pos|apply Z.div_lt_upper_bound]; lia.
Qed.

Lemma words_of_bytes_concat ws :
  Forall is_u32 ws → words_of_bytes (concat (word_bytes <$> ws)) = ws.
Proof.
  induction 1 as [|w ws Hw Hws IH]; [done|].
  change (words_of_bytes (concat (word_bytes <$> w :: ws))) with
    (bytes_word (w mod 256) (w / 2 ^ 8 mod 256) (w / 2 ^ 16 mod 256) (w / 2 ^ 24 mod 256)
       :: words_of_bytes (concat (word_bytes <$> ws))).
  by rewrite bytes_word_bytes, IH.
Qed.

Lemma length_word_bytes ws : length (concat (word_bytes <$> ws)) = (4 * length ws)%nat.
Proof.
  induction ws as [|w ws IH]; [done|]. rewrite fmap_cons. cbn [concat].
  rewrite length_app, IH. simpl. lia.
Qed.
End Header.

Section RoundTrip.
Context (ws out bitmap : list Z) (maxOut : Z).
Context (Hws : Forall is_u32 ws) (Hlen : (length ws ≤ 4095)%nat).
Context (Hout : maxOut ≤ Z.of_nat (length out)) (Hmax : 4 * Z.of_nat (length ws) + 2 ≤ maxOut).
Context (Hbitmap : (length ws ≤ length bitmap)%nat).

(** What the reader of a buffer that starts with the first [n] bytes of [out'] gets. *)
Definition decodes_to (t n : Z) (out' : list Z) : Prop :=
  2 ≤ n ≤ maxOut ∧ length out' = length out ∧
  ∀ buf, take (Z.to_nat n) buf = take (Z.to_nat n) out' →
  ∃ st, (∀ st0, BitmapDecompress_Init st0 buf n = (true, st)) ∧
    BitmapDecompress_GetCompressionType st = t ∧
    BitmapDecompress_GetBlockCount st = Z.of_nat (length ws) ∧
    BitmapDecompress_HasError st = false ∧
    BitmapDecompress_Decompress st bitmap (Z.of_nat (length bitmap)) =
      Ok (ws ++ drop (length ws) bitmap).

(** A header that was written is read back. *)
Lemma decode_header d out' buf (n t : Z) :
  header_at d t (Z.of_nat (length ws)) → same_before d out' 16 → 2 ≤ n → 0 ≤ t < 2 →
  take (Z.to_nat n) buf = take (Z.to_nat n) out' →
  ∀ st0, BitmapDecompress_Init st0 buf n =
    (true, mkBitmapDecompressState (at_pos buf n 16) t (Z.of_nat (length ws))).
Proof.
  intros Hh Hs Hn Ht Hbuf. apply Init_spec; [lia..|]. eapply header_at_same; [|exact Hh].
  intros q Hq. rewrite <- Hs by done. eapply sbit_same_take; [exact Hbuf|lia].
Qed.

Lemma block_count_ok :
  (Z.of_nat (length ws) <? 0) || (Z.of_nat (length bitmap) <? Z.of_nat (length ws)) = false.
Proof. by rewrite (proj2 (Z.ltb_ge _ _)), (proj2 (Z.ltb_ge _ _)) by lia. Qed.

Lemma compress_no_roundtrip fb out0 :
  length out0 = length out →
  ∃ n out', Bitmap_Compress_with fb BITMAP_COMPRESSION_TYPE_NO ws (Z.of_nat (length ws)) out0 maxOut
    = Ok (n, out') ∧ n = 4 * Z.of_nat (length ws) + 2 ∧
    decodes_to BITMAP_COMPRESSION_TYPE_NO n out'.
Proof.
  intros Hl0. unfold Bitmap_Compress_with.
  assert (length (memset0 out0 (Z.to_nat maxOut)) = length out) as Hlm
    by (rewrite length_memset0; lia).
  pose proof (zero_from_memset0 out0 (Z.to_nat maxOut)) as Hzm. rewrite Z2Nat.id in Hzm by lia.
  destruct (Write_Header_spec (memset0 out0 (Z.to_nat maxOut)) maxOut 0 (Z.of_nat (length ws)))
    as (d & Hw & Hld & Hh & Hz); [lia|done|].
  change BITMAP_COMPRESSION_TYPE_NO with 0 in *. rewrite Hw. cbn [Z.eqb].
  set (bytes := concat (word_bytes <$> ws)).
  assert (length bytes = (4 * length ws)%nat) as Hlb by apply length_word_bytes.
  exists (4 * Z.of_nat (length ws) + 2), (take 2 d ++ bytes ++ drop (2 + length bytes) d).
  split; [|split; [done|]].
  - destruct (Z.eqb_spec (Z.of_nat (length ws)) 0) as [E|E].
    { assert (ws = []) as Hnil by (apply nil_length_inv; lia). subst bytes. rewrite Hnil. simpl.
      by rewrite take_drop. }
    rewrite AlignedData_16, Nat2Z.id, firstn_all. unfold memcpy_at. cbn [bs_data at_pos].
    fold bytes. change (Z.to_nat 2) with 2%nat.
    rewrite (proj2 (Nat.leb_le _ _)) by lia. simpl. do 2 f_equal. lia.
  - split; [lia|]. split; [rewrite !length_app, length_take, length_drop; lia|]. intros buf Hbuf.
    eexists. split; [eapply decode_header; [exact Hh| |lia|lia|exact Hbuf]|].
    { intros q Hq. apply (sbit_same_take _ _ 2); [|lia]. rewrite take_app_length'; [done|].
      rewrite length_take. lia. }
    split_and!; try done. unfold BitmapDecompress_Decompress. simpl blockCount. simpl compressionType.
    rewrite block_count_ok. cbn [Z.eqb]. simpl bds_bitstream. rewrite AlignedData_16. simpl bs_data.
    replace (Z.to_nat (4 * Z.of_nat (length ws) + 2)) with (2 + length bytes)%nat in Hbuf by lia.
    rewrite app_assoc, (take_app_length' (take 2 d ++ bytes)) in Hbuf
      by (rewrite length_app, length_take; lia).
    unfold memread. replace (Z.to_nat (Z.of_nat (length ws) * 4)) with (length bytes) by lia.
    assert (2 + length bytes ≤ length buf)%nat as Hbl.
    { apply (f_equal length) in Hbuf. rewrite length_app, !length_take in Hbuf. lia. }
    change (Z.to_nat 2) with 2%nat. rewrite (proj2 (Nat.leb_le _ _)) by done. simpl.
    rewrite take_drop_commute, Hbuf, drop_app_length' by (rewrite length_take; lia).
    subst bytes. by rewrite words_of_bytes_concat, Nat2Z.id.
Qed.

Lemma compress_default_roundtrip fb :
  (∀ out0, length out0 = length out → ∃ n out', fb out0 = Ok (n, out') ∧
     n = 4 * Z.of_nat (length ws) + 2 ∧ decodes_to BITMAP_COMPRESSION_TYPE_NO n out') →
  ∃ n out', Bitmap_Compress_with fb BITMAP_COMPRESSION_TYPE_DEFAULT ws (Z.of_nat (length ws)) out
    maxOut = Ok (n, out') ∧
    let total := 16 + bits_of (compress_fields ws 0 0 0) in
    if decide (total ≤ 8 * maxOut)
    then n = (total + 7) / 8 ∧ decodes_to BITMAP_COMPRESSION_TYPE_DEFAULT n out'
    else n = 4 * Z.of_nat (length ws) + 2 ∧ decodes_to BITMAP_COMPRESSION_TYPE_NO n out'.
Proof.
  intros Hfb. unfold Bitmap_Compress_with.
  assert (length (memset0 out (Z.to_nat maxOut)) = length out) as Hlm
    by (rewrite length_memset0; lia).
  pose proof (zero_from_memset0 out (Z.to_nat maxOut)) as Hzm. rewrite Z2Nat.id in Hzm by lia.
  destruct (Write_Header_spec (memset0 out (Z.to_nat maxOut)) maxOut 1 (Z.of_nat (length ws)))
    as (d & Hw & Hld & Hh & Hz); [lia|done|].
  change BITMAP_COMPRESSION_TYPE_DEFAULT with 1 in *. rewrite Hw. cbn [Z.eqb].
  unfold Bitmap_Compress_Default. rewrite Nat2Z.id, firstn_all.
  pose proof (compress_loop_fields ws 0 (at_pos d maxOut 16) 0 0) as Hc.
  change (flag_of 0) with 0 in Hc. rewrite Hc.
  set (fs := compress_fields ws 0 0 0). pose proof (bits_of_nonneg fs). cbv zeta. case_decide as Hfit.
  - destruct (put_all_fields d maxOut 16 fs) as (d' & -> & Hl' & Hs' & He' & _); [lia..|done|lia|].
    eexists _, _. split; [done|]. rewrite GetLength_at_pos. cbn [bs_data at_pos].
    split; [done|]. set (n := (16 + bits_of fs + 7) / 8).
    assert (16 + bits_of fs ≤ 8 * n < 16 + bits_of fs + 8).
    { subst n. pose proof (Z.div_mod (16 + bits_of fs + 7) 8 ltac:(lia)).
      pose proof (Z.mod_pos_bound (16 + bits_of fs + 7) 8 ltac:(lia)). lia. }
    split; [lia|]. split; [lia|]. intros buf Hbuf. eexists.
    split; [eapply decode_header; [exact Hh|exact Hs'|lia|lia|exact Hbuf]|].
    split_and!; try done. unfold BitmapDecompress_Decompress. simpl blockCount. simpl compressionType.
    rewrite block_count_ok. cbn [Z.eqb]. simpl bds_bitstream. rewrite Nat2Z.id.
    destruct (decompress_fields ws buf n 16 0 [] bitmap 0) as [last' Hdl];
      [lia| |lia|simpl; lia|done|done| |].
    { change (compress_fields ws (length [] + 0) 0 (Z.of_nat 0)) with fs. lia. }
    { change (compress_fields ws (length [] + 0) 0 (Z.of_nat 0)) with fs.
      eapply (encodes_same d' _ _ _ (16 + bits_of fs)); [|lia|lia|done].
      intros q Hq. eapply sbit_same_take; [exact Hbuf|lia]. }
    unfold reading in Hdl. cbn [length app replicate Nat.add] in Hdl. rewrite Hdl. done.
  - destruct (put_all_full d maxOut 16 fs) as (bs1 & Eput & _); [lia..|done|lia|].
    rewrite Eput. apply Hfb.
    pose proof (put_all_confined (at_pos d maxOut 16) fs) as Hconf. rewrite Eput in Hconf.
    destruct Hconf as (_ & _ & Hl1 & _); [|simpl in Hl1].
    { unfold bs_wf, at_pos; simpl. change (16 mod 8) with 0. change (16 / 8) with 2. lia. }
    rewrite length_memset0; lia.
Qed.
End RoundTrip.

(** Compression succeeds and decodes to the bitmap, in the form that [fits] selects. *)
Lemma Bitmap_Compress_spec ctype ws out bitmap maxOut :
  ctype = BITMAP_COMPRESSION_TYPE_NO ∨ ctype = BITMAP_COMPRESSION_TYPE_DEFAULT →
  Forall is_u32 ws → (length ws ≤ 4095)%nat →
  4 * Z.of_nat (length ws) + 2 ≤ maxOut ≤ Z.of_nat (length out) → (length ws ≤ length bitmap)%nat →
  let total := 16 + bits_of (compress_fields ws 0 0 0) in
  let fits := bool_decide (ctype = BITMAP_COMPRESSION_TYPE_DEFAULT ∧ total ≤ 8 * maxOut) in
  ∃ n out',
    Bitmap_Compress ctype ws (Z.of_nat (length ws)) out maxOut = Ok (n, out') ∧
    n = (if fits then (total + 7) / 8 else 4 * Z.of_nat (length ws) + 2) ∧
    decodes_to ws out bitmap maxOut
      (if fits then BITMAP_COMPRESSION_TYPE_DEFAULT else BITMAP_COMPRESSION_TYPE_NO) n out'.
Proof.
  intros Htype Hws Hlen [Hmax Hout] Hbm total fits.
  assert (Hno := compress_no_roundtrip ws out bitmap maxOut Hws Hlen Hout Hmax Hbm).
  unfold Bitmap_Compress. destruct Htype as [-> | ->].
  - destruct (Hno (λ outData, Bitmap_Compress_with (λ _, Err "unreachable")
      BITMAP_COMPRESSION_TYPE_NO ws (Z.of_nat (length ws)) outData maxOut) out eq_refl)
      as (n & out' & Hc & Hn & Hd).
    exists n, out'. subst fits. rewrite bool_decide_eq_false_2 by naive_solver. done.
  - destruct (compress_default_roundtrip ws out bitmap maxOut Hws Hlen Hout Hmax Hbm
      (λ outData, Bitmap_Compress_with (λ _, Err "unreachable")
         BITMAP_COMPRESSION_TYPE_NO ws (Z.of_nat (length ws)) outData maxOut))
      as (n & out' & Hc & Hd).
    { apply Hno. }
    exists n, out'. split; [exact Hc|]. subst fits. cbv zeta in Hd. case_decide as Hfit.
    + rewrite bool_decide_eq_true_2 by done. done.
    + rewrite bool_decide_eq_false_2 by tauto. done.
Qed.

(** C27: compressing a bitmap of at most 4095 words, with either compression type, into a buffer
    with [maxOut] bytes, at least four per word and two for the header, always succeeds,
    whatever the buffer held, and decompressing the bytes it reports gives back the bitmap, with
    the words of the target array behind it untouched.  Compression falls back to the raw form
    exactly when the flags and run lengths do not fit, and otherwise uses the bytes the bit
    stream needs.  Any other compression type is refused. *)
Theorem bitmap_compress_roundtrip ctype ws out bitmap maxOut :
  ctype = BITMAP_COMPRESSION_TYPE_NO ∨ ctype = BITMAP_COMPRESSION_TYPE_DEFAULT →
  Forall is_u32 ws → (length ws ≤ 4095)%nat →
  4 * Z.of_nat (length ws) + 2 ≤ maxOut ≤ Z.of_nat (length out) → (length ws ≤ length bitmap)%nat →
  let total := 16 + bits_of (compress_fields ws 0 0 0) in
  let fits := bool_decide (ctype = BITMAP_COMPRESSION_TYPE_DEFAULT ∧ total ≤ 8 * maxOut) in
  ∃ n out',
    Bitmap_Compress ctype ws (Z.of_nat (length ws)) out maxOut = Ok (n, out') ∧
    n = (if fits then (total + 7) / 8 else 4 * Z.of_nat (length ws) + 2) ∧
    decodes_to ws out bitmap maxOut
      (if fits then BITMAP_COMPRESSION_TYPE_DEFAULT else BITMAP_COMPRESSION_TYPE_NO) n out' ∧
    ∀ bad, bad ≠ BITMAP_COMPRESSION_TYPE_NO → bad ≠ BITMAP_COMPRESSION_TYPE_DEFAULT →
      Bitmap_Compress bad ws (Z.of_nat (length ws)) out maxOut =
        Err "illegal compression type during bitmap compression".
Proof.
  intros Ht Hws Hlen Hmax Hbm total fits.
  destruct (Bitmap_Compress_spec ctype ws out bitmap maxOut) as (n & out' & Hc & Hn & Hd); [done..|].
  exists n, out'. split_and!; [done..|]. intros bad Hno Hdef.
  unfold Bitmap_Compress, Bitmap_Compress_with.
  pose proof (zero_from_memset0 out (Z.to_nat maxOut)) as Hzm. rewrite Z2Nat.id in Hzm by lia.
  destruct (Write_Header_spec (memset0 out (Z.to_nat maxOut)) maxOut bad (Z.of_nat (length ws)))
    as (d & -> & _); [rewrite length_memset0; lia|done|].
  by rewrite (proj2 (Z.eqb_neq _ _) Hno), (proj2 (Z.eqb_neq _ _) Hdef).
Qed.

Lemma bitmap_compress_roundtrip_witness :
  let ws := [0; 0; 0; 0; 0; 0; 7; 7; 4294967295] in
  let out := replicate 40 9 in
  (∃ n out', Bitmap_Compress BITMAP_COMPRESSION_TYPE_DEFAULT ws 9 out 38 = Ok (n, out') ∧ n = 10) ∧
  ∃ n out', Bitmap_Compress BITMAP_COMPRESSION_TYPE_DEFAULT ws 9 out 38 = Ok (n, out') ∧
    decodes_to ws out (replicate 10 5) 38 BITMAP_COMPRESSION_TYPE_DEFAULT n out'.
Proof.
  intros ws out. split; [by eexists _, _; split; [vm_compute; reflexivity|]|].
  destruct (bitmap_compress_roundtrip BITMAP_COMPRESSION_TYPE_DEFAULT ws out (replicate 10 5) 38)
    as (n & out' & Hc & _ & Hd & _).
  - by right.
  - by apply (bool_decide_unpack _); vm_compute.
  - simpl; lia.
  - simpl; lia.
  - simpl; lia.
  - exists n, out'. split; [exact Hc|exact Hd].
Defined.
