(* ===== verification/AOTupleId.v ===== *)
(** * Tuple identifiers of append-only tables ([include/access/appendonlytid.h])

    A segment file number (7 bits) and a row number (40 bits) packed into the three 16-bit
    fields of a heap item pointer. *)
From S2P Require Import Prelude.

Record AOTupleId := mkAOTupleId {
  bytes_0_1 : Z;
  bytes_2_3 : Z;
  bytes_4_5 : Z;
}.

#[global] Instance AOTupleId_eq_dec : EqDecision AOTupleId.
Proof. solve_decision. Defined.

Definition AOTupleId_MaxRowNum : Z := 1099511627775.
Definition AOTupleId_MaxSegmentFileNum : Z := 127.

Definition AOTupleIdGet_segmentFileNum (h : AOTupleId) : Z :=
  Z.shiftr (Z.land (bytes_0_1 h) 0xFE00) 9.

Definition AOTupleIdGet_rowNum (h : AOTupleId) : Z :=
  let rowNumber := Z.shiftl (Z.land (bytes_0_1 h) 0x01FF) 31 in
  let rowNumber := Z.lor rowNumber (Z.shiftl (bytes_2_3 h) 15) in
  Z.lor rowNumber (u64 (bytes_4_5 h - 1)).

Definition AOTupleIdInit (segfilenum rownum : Z) : AOTupleId :=
  let b01 := u16 (Z.shiftl (u16 (Z.land 0x007F segfilenum)) 9) in
  let b01 := Z.lor b01 (u16 (Z.shiftr (Z.land 0x000000FFFFFFFFFF rownum) 31)) in
  mkAOTupleId b01
    (u16 (Z.shiftr (Z.land 0x000000007FFFFFFF rownum) 15))
    (u16 (Z.land 0x7FFF rownum + 1)).

(** The invalid item pointer: an all-ones block number and offset zero. *)
Definition AOTupleIdSetInvalid : AOTupleId := mkAOTupleId 0xFFFF 0xFFFF 0.

(** ** Specification *)

(** The identifiers the code builds: an offset between 1 and 32768. *)
Definition aotid_wf (h : AOTupleId) : Prop :=
  is_u16 (bytes_0_1 h) ∧ is_u16 (bytes_2_3 h) ∧ 1 ≤ bytes_4_5 h ≤ 0x8000.

(** The identifier read as a heap item pointer: block number first, then offset. *)
Definition aotid_key (h : AOTupleId) : Z :=
  (bytes_0_1 h * 2 ^ 16 + bytes_2_3 h) * 2 ^ 16 + bytes_4_5 h.

Section Packing.
Implicit Types (h : AOTupleId) (seg row : Z).

(** [|] of a value shifted by [n] and an [n]-bit value is their sum. *)
Lemma lor_shiftl_add a b n : 0 ≤ n → 0 ≤ b < 2 ^ n → Z.lor (Z.shiftl a n) b = a * 2 ^ n + b.
Proof.
  intros Hn Hb. rewrite <- (Z.shiftl_mul_pow2 a n) by done.
  rewrite Z.add_nocarry_lxor, Z.lxor_lor; [done| |]; apply Z.bits_inj'; intros i Hi;
    rewrite Z.bits_0, Z.land_spec, Z.shiftl_spec by done;
    (destruct (decide (i < n)); [by rewrite Z.testbit_neg_r by lia|]);
    rewrite (testbit_lt_pow2 b n) by lia; apply andb_false_r.
Qed.

Lemma land_ones_l n x : 0 ≤ n → Z.land (2 ^ n - 1) x = x mod 2 ^ n.
Proof. intros. rewrite Z.land_comm, <- Z.land_ones by done. f_equal. by rewrite Z.ones_equiv. Qed.

Lemma segmentFileNum_div h :
  is_u16 (bytes_0_1 h) → AOTupleIdGet_segmentFileNum h = bytes_0_1 h / 2 ^ 9.
Proof.
  intros Hb. unfold AOTupleIdGet_segmentFileNum. rewrite <- Z.shiftr_div_pow2 by lia.
  apply Z.bits_inj'. intros i Hi. rewrite !Z.shiftr_spec, Z.land_spec by done.
  change 0xFE00 with (Z.shiftl (2 ^ 7 - 1) 9). rewrite Z.shiftl_spec by lia.
  replace (i + 9 - 9) with i by lia. destruct (decide (i < 7)).
  - replace (2 ^ 7 - 1) with (Z.ones 7) by done. rewrite Z.ones_spec_low by lia. apply andb_true_r.
  - rewrite (testbit_lt_pow2 (bytes_0_1 h) 16); [done|exact Hb|lia].
Qed.

Lemma rowNum_sum h :
  aotid_wf h →
  AOTupleIdGet_rowNum h =
    bytes_0_1 h mod 2 ^ 9 * 2 ^ 31 + bytes_2_3 h * 2 ^ 15 + (bytes_4_5 h - 1).
Proof.
  intros (Hb0 & Hb2 & Hb4). unfold AOTupleIdGet_rowNum, is_u16 in *.
  rewrite (Z.land_comm _ 0x01FF). change 0x01FF with (2 ^ 9 - 1). rewrite land_ones_l by lia.
  unfold u64. rewrite (Z.mod_small (bytes_4_5 h - 1)) by lia.
  rewrite lor_shiftl_add by (rewrite ?Z.shiftl_mul_pow2; lia).
  rewrite (Z.shiftl_mul_pow2 (bytes_2_3 h)) by lia.
  replace (bytes_0_1 h mod 2 ^ 9 * 2 ^ 31 + bytes_2_3 h * 2 ^ 15) with
    ((bytes_0_1 h mod 2 ^ 9 * 2 ^ 16 + bytes_2_3 h) * 2 ^ 15) by lia.
  rewrite <- (Z.shiftl_mul_pow2 _ 15), lor_shiftl_add, Z.shiftl_mul_pow2 by lia. done.
Qed.

(** The fields of a packed identifier. *)
Lemma AOTupleIdInit_fields seg row :
  0 ≤ seg ≤ AOTupleId_MaxSegmentFileNum → 0 ≤ row ≤ AOTupleId_MaxRowNum →
  AOTupleIdInit seg row =
    mkAOTupleId (seg * 2 ^ 9 + row / 2 ^ 31) (row / 2 ^ 15 mod 2 ^ 16) (row mod 2 ^ 15 + 1).
Proof.
  unfold AOTupleId_MaxSegmentFileNum, AOTupleId_MaxRowNum. intros Hs Hr. unfold AOTupleIdInit, u16.
  change 0x007F with (2 ^ 7 - 1). change 0x000000FFFFFFFFFF with (2 ^ 40 - 1).
  change 0x000000007FFFFFFF with (2 ^ 31 - 1). change 0x7FFF with (2 ^ 15 - 1).
  rewrite !land_ones_l, !Z.shiftr_div_pow2, Z.shiftl_mul_pow2 by lia.
  rewrite (Z.mod_small seg), (Z.mod_small row (2 ^ 40)) by lia.
  assert (0 ≤ row / 2 ^ 31 < 2 ^ 9) by (split; [apply Z.div_pos|apply Z.div_lt_upper_bound]; lia).
  assert (0 ≤ row mod 2 ^ 15 < 2 ^ 15) by (apply Z.mod_pos_bound; lia).
  assert (0 ≤ row mod 2 ^ 31 < 2 ^ 31) by (apply Z.mod_pos_bound; lia).
  rewrite (Z.mod_small seg), (Z.mod_small (seg * 2 ^ 9)), (Z.mod_small (row / 2 ^ 31)),
    (Z.mod_small (row mod 2 ^ 15 + 1)) by lia.
  f_equal.
  - rewrite <- (Z.shiftl_mul_pow2 seg) by lia. by rewrite lor_shiftl_add, Z.shiftl_mul_pow2 by lia.
  - change (2 ^ 31) with (2 ^ 15 * 2 ^ 16). rewrite Z.rem_mul_r by lia.
    rewrite Z.add_comm, Z.mul_comm, Z.div_add_l, (Z.div_small (row mod 2 ^ 15)) by lia.
    rewrite Z.add_0_r. by apply Z.mod_mod.
Qed.

Lemma AOTupleIdInit_wf seg row :
  0 ≤ seg ≤ AOTupleId_MaxSegmentFileNum → 0 ≤ row ≤ AOTupleId_MaxRowNum →
  aotid_wf (AOTupleIdInit seg row).
Proof.
  intros Hs Hr. rewrite AOTupleIdInit_fields by done.
  unfold AOTupleId_MaxSegmentFileNum, AOTupleId_MaxRowNum, aotid_wf, is_u16 in *; simpl.
  assert (0 ≤ row / 2 ^ 31 < 2 ^ 9) by (split; [apply Z.div_pos|apply Z.div_lt_upper_bound]; lia).
  pose proof (Z.mod_pos_bound row (2 ^ 15) ltac:(lia)).
  pose proof (Z.mod_pos_bound (row / 2 ^ 15) (2 ^ 16) ltac:(lia)). lia.
Qed.

Lemma row_digits row :
  row / 2 ^ 31 * 2 ^ 31 + row / 2 ^ 15 mod 2 ^ 16 * 2 ^ 15 + row mod 2 ^ 15 = row.
Proof.
  change (2 ^ 31) with (2 ^ 15 * 2 ^ 16) at 1. rewrite <- Z.div_div by lia.
  pose proof (Z.div_mod row (2 ^ 15) ltac:(lia)).
  pose proof (Z.div_mod (row / 2 ^ 15) (2 ^ 16) ltac:(lia)). lia.
Qed.

Lemma get_AOTupleIdInit seg row :
  0 ≤ seg ≤ AOTupleId_MaxSegmentFileNum → 0 ≤ row ≤ AOTupleId_MaxRowNum →
  AOTupleIdGet_segmentFileNum (AOTupleIdInit seg row) = seg ∧
  AOTupleIdGet_rowNum (AOTupleIdInit seg row) = row.
Proof.
  intros Hs Hr. pose proof (AOTupleIdInit_wf seg row Hs Hr) as Hwf.
  rewrite segmentFileNum_div, rowNum_sum by apply Hwf. clear Hwf.
  rewrite AOTupleIdInit_fields by done. simpl.
  unfold AOTupleId_MaxSegmentFileNum, AOTupleId_MaxRowNum in *.
  assert (0 ≤ row / 2 ^ 31 < 2 ^ 9) by (split; [apply Z.div_pos|apply Z.div_lt_upper_bound]; lia).
  split; [rewrite Z.div_add_l, Z.div_small; lia|].
  rewrite (Z.add_comm (seg * _)), Z_mod_plus_full, Z.mod_small by lia.
  pose proof (row_digits row). lia.
Qed.

Lemma aotid_ranges h :
  aotid_wf h →
  0 ≤ AOTupleIdGet_segmentFileNum h ≤ AOTupleId_MaxSegmentFileNum ∧
  0 ≤ AOTupleIdGet_rowNum h ≤ AOTupleId_MaxRowNum.
Proof.
  intros Hwf. rewrite segmentFileNum_div by apply Hwf. rewrite rowNum_sum by done.
  destruct Hwf as (Hb0 & Hb2 & Hb4). unfold is_u16 in *.
  unfold AOTupleId_MaxSegmentFileNum, AOTupleId_MaxRowNum.
  pose proof (Z.mod_pos_bound (bytes_0_1 h) (2 ^ 9) ltac:(lia)).
  assert (0 ≤ bytes_0_1 h / 2 ^ 9 < 2 ^ 7)
    by (split; [apply Z.div_pos|apply Z.div_lt_upper_bound]; lia). lia.
Qed.

Lemma AOTupleIdInit_get h :
  aotid_wf h → AOTupleIdInit (AOTupleIdGet_segmentFileNum h) (AOTupleIdGet_rowNum h) = h.
Proof.
  intros Hh. destruct (aotid_ranges h Hh). rewrite AOTupleIdInit_fields by done.
  rewrite segmentFileNum_div by apply Hh. rewrite rowNum_sum by done.
  destruct Hh as (Hb0 & Hb2 & Hb4). destruct h as [b0 b2 b4]; unfold is_u16 in *; simpl in *.
  pose proof (Z.mod_pos_bound b0 (2 ^ 9) ltac:(lia)).
  pose proof (Z.div_mod b0 (2 ^ 9) ltac:(lia)).
  f_equal.
  - replace (b0 mod 2 ^ 9 * 2 ^ 31 + b2 * 2 ^ 15 + (b4 - 1)) with
      (b0 mod 2 ^ 9 * 2 ^ 31 + (b2 * 2 ^ 15 + (b4 - 1))) by lia.
    rewrite Z.div_add_l, (Z.div_small (b2 * 2 ^ 15 + (b4 - 1))); lia.
  - replace (b0 mod 2 ^ 9 * 2 ^ 31 + b2 * 2 ^ 15 + (b4 - 1)) with
      ((b2 + b0 mod 2 ^ 9 * 2 ^ 16) * 2 ^ 15 + (b4 - 1)) by lia.
    rewrite Z.div_add_l, (Z.div_small (b4 - 1)) by lia.
    rewrite Z.add_0_r, Z_mod_plus_full, Z.mod_small; lia.
  - replace (b0 mod 2 ^ 9 * 2 ^ 31 + b2 * 2 ^ 15 + (b4 - 1)) with
      ((b4 - 1) + (b2 + b0 mod 2 ^ 9 * 2 ^ 16) * 2 ^ 15) by lia.
    rewrite Z_mod_plus_full, Z.mod_small; lia.
Qed.

Lemma aotid_ext h h' :
  aotid_wf h → aotid_wf h' → AOTupleIdGet_segmentFileNum h = AOTupleIdGet_segmentFileNum h' →
  AOTupleIdGet_rowNum h = AOTupleIdGet_rowNum h' → h = h'.
Proof.
  intros Hh Hh' Hs Hr. by rewrite <- (AOTupleIdInit_get h), <- (AOTupleIdInit_get h'), Hs, Hr.
Qed.

Lemma aotid_key_sum h :
  aotid_wf h →
  aotid_key h = (AOTupleIdGet_segmentFileNum h * 2 ^ 25 + AOTupleIdGet_rowNum h / 2 ^ 15) * 2 ^ 16 +
    AOTupleIdGet_rowNum h mod 2 ^ 15 + 1.
Proof.
  intros Hwf. rewrite segmentFileNum_div by apply Hwf. rewrite rowNum_sum by done.
  destruct Hwf as (Hb0 & Hb2 & Hb4). unfold is_u16, aotid_key in *.
  replace (bytes_0_1 h mod 2 ^ 9 * 2 ^ 31 + bytes_2_3 h * 2 ^ 15 + (bytes_4_5 h - 1)) with
    ((bytes_0_1 h mod 2 ^ 9 * 2 ^ 16 + bytes_2_3 h) * 2 ^ 15 + (bytes_4_5 h - 1)) by lia.
  rewrite Z.div_add_l, (Z.div_small (bytes_4_5 h - 1)) by lia.
  rewrite (Z.add_comm _ (bytes_4_5 h - 1)), Z_mod_plus_full, (Z.mod_small (bytes_4_5 h - 1)) by lia.
  pose proof (Z.div_mod (bytes_0_1 h) (2 ^ 9) ltac:(lia)). lia.
Qed.
End Packing.

(** Packing and unpacking a tuple identifier are inverse to each other for every segment file
    number below 128 and every row number of 40 bits; a packed identifier is never mistaken for an
    invalid item pointer, and item-pointer order on packed identifiers is the order by segment
    file and row number. *)
Lemma aotid_roundtrip_and_order seg row h h' :
  0 ≤ seg ≤ AOTupleId_MaxSegmentFileNum → 0 ≤ row ≤ AOTupleId_MaxRowNum →
  aotid_wf h → aotid_wf h' →
  (AOTupleIdGet_segmentFileNum (AOTupleIdInit seg row) = seg ∧
   AOTupleIdGet_rowNum (AOTupleIdInit seg row) = row ∧ aotid_wf (AOTupleIdInit seg row)) ∧
  AOTupleIdInit (AOTupleIdGet_segmentFileNum h) (AOTupleIdGet_rowNum h) = h ∧
  h ≠ AOTupleIdSetInvalid ∧
  (aotid_key h < aotid_key h' ↔
     AOTupleIdGet_segmentFileNum h < AOTupleIdGet_segmentFileNum h' ∨
     AOTupleIdGet_segmentFileNum h = AOTupleIdGet_segmentFileNum h' ∧
     AOTupleIdGet_rowNum h < AOTupleIdGet_rowNum h').
Proof.
  intros Hs Hr Hh Hh'. split; [|split; [|split]].
  - destruct (get_AOTupleIdInit seg row Hs Hr). by split_and!; [..|apply AOTupleIdInit_wf].
  - by apply AOTupleIdInit_get.
  - intros ->. destruct Hh as (_ & _ & H4). simpl in H4. lia.
  - rewrite !aotid_key_sum by done. destruct (aotid_ranges h Hh), (aotid_ranges h' Hh').
    unfold AOTupleId_MaxRowNum in *.
    set (r := AOTupleIdGet_rowNum h) in *. set (r' := AOTupleIdGet_rowNum h') in *.
    pose proof (Z.div_mod r (2 ^ 15) ltac:(lia)). pose proof (Z.mod_pos_bound r (2 ^ 15) ltac:(lia)).
    pose proof (Z.div_mod r' (2 ^ 15) ltac:(lia)). pose proof (Z.mod_pos_bound r' (2 ^ 15) ltac:(lia)).
    lia.
Qed.

