(* ===== verification/VisimapEntry.v ===== *)
(** * Visibility map entries of append-only tables
    ([access/appendonly/appendonly_visimap_entry.c])

    An entry covers 32768 consecutive row numbers of one segment file.  Its bitmap holds the
    offsets of the hidden rows; it is stored compressed in a tuple of the visimap relation.  The
    module ties together the bitmap sets, the compression and the tuple identifiers. *)
From S2P Require Import Prelude Bitmapset BitmapsetFacts Bitstream BitmapCompression AOTupleId UpdateResult.

Definition APPENDONLY_VISIMAP_MAX_RANGE : Z := 32768.
Definition APPENDONLY_VISIMAP_MAX_BITMAP_SIZE : Z := 4096.
Definition BITMAP_COMPRESSION_HEADER_SIZE : Z := 2.

(** [offsetof(AppendOnlyVisimapData, data)] *)
Definition VISIMAP_DATA_OFFSET : Z := 8.

Definition APPENDONLY_VISIMAP_DATA_BUFFER_SIZE : Z :=
  VISIMAP_DATA_OFFSET + APPENDONLY_VISIMAP_MAX_BITMAP_SIZE + BITMAP_COMPRESSION_HEADER_SIZE.

(** The variable-length datum: total length, version and the buffer behind them. *)
Record AppendOnlyVisimapData := mkVisimapData {
  vd_len : Z;
  vd_version : Z;
  vd_data : list Z;
}.

Record ItemPointerData := mkItemPointer { ip_blkid : Z; ip_posid : Z }.

Definition ItemPointerSetInvalid : ItemPointerData := mkItemPointer 0xFFFFFFFF 0.

Record AppendOnlyVisimapEntry := mkVisimapEntry {
  ve_data : option AppendOnlyVisimapData;
  ve_bitmap : bms;
  segmentFileNum : Z;
  firstRowNum : Z;
  dirty : bool;
  tupleTid : ItemPointerData;
}.

(** A tuple of the visimap relation; [None] is a null attribute. *)
Record VisimapTuple := mkVisimapTuple {
  t_segno : option Z;
  t_firstrownum : option Z;
  t_visimap : option AppendOnlyVisimapData;
}.

Definition AppendOnlyVisimapEntry_Finish (e : AppendOnlyVisimapEntry) : AppendOnlyVisimapEntry :=
  mkVisimapEntry None None (segmentFileNum e) (firstRowNum e) (dirty e) (tupleTid e).

Definition AppendOnlyVisimapEntry_Init (e : AppendOnlyVisimapEntry) : AppendOnlyVisimapEntry :=
  mkVisimapEntry
    (Some (mkVisimapData 0 0
       (replicate (Z.to_nat (APPENDONLY_VISIMAP_DATA_BUFFER_SIZE - VISIMAP_DATA_OFFSET)) 0)))
    None (-1) (-1) false (tupleTid e).

Definition AppendOnlyVisimapEntry_Reset (e : AppendOnlyVisimapEntry) : AppendOnlyVisimapEntry :=
  mkVisimapEntry (ve_data e) None (-1) (-1) false (tupleTid e).

Definition AppendOnlyVisimapEntry_IsValid (e : AppendOnlyVisimapEntry) : bool :=
  (0 <=? segmentFileNum e) && (0 <=? firstRowNum e).

Definition AppendOnlyVisimapEntry_GetFirstRowNum (tupleId : AOTupleId) : Z :=
  let rowNum := AOTupleIdGet_rowNum tupleId in
  Z.quot rowNum APPENDONLY_VISIMAP_MAX_RANGE * APPENDONLY_VISIMAP_MAX_RANGE.

Definition AppendOnlyVisimapEntry_New (e : AppendOnlyVisimapEntry) (tupleId : AOTupleId)
    : AppendOnlyVisimapEntry :=
  mkVisimapEntry (ve_data e) None (AOTupleIdGet_segmentFileNum tupleId)
    (AppendOnlyVisimapEntry_GetFirstRowNum tupleId) (dirty e) ItemPointerSetInvalid.

Definition set_bitmap (e : AppendOnlyVisimapEntry) (b : bms) : AppendOnlyVisimapEntry :=
  mkVisimapEntry (ve_data e) b (segmentFileNum e) (firstRowNum e) (dirty e) (tupleTid e).

Definition set_data (e : AppendOnlyVisimapEntry) (d : AppendOnlyVisimapData) : AppendOnlyVisimapEntry :=
  mkVisimapEntry (Some d) (ve_bitmap e) (segmentFileNum e) (firstRowNum e) (dirty e) (tupleTid e).

(** [stack] is the content of the local [decompressState] before it is initialised. *)
Definition AppendOnlyVisiMapEnty_ReadData (stack : BitmapDecompressState)
    (e : AppendOnlyVisimapEntry) (dataSize : Z) : result AppendOnlyVisimapEntry :=
  match ve_data e with
  | None => Err "null visimap data"
  | Some d =>
      let '(_, st) := BitmapDecompress_Init stack (vd_data d) dataSize in
      if BitmapDecompress_HasError st then
        Err "error occurred during visimap bitmap decompression"
      else
        let newWordCount := BitmapDecompress_GetBlockCount st in
        if 0 <? newWordCount then
          ws ← BitmapDecompress_Decompress st (replicate (Z.to_nat newWordCount) 0) newWordCount;
          Ok (set_bitmap e (Some (mkBitmapset ws)))
        else if newWordCount =? 0 then Ok (set_bitmap e None)
        else Err "illegal visimap block count"
  end.

Definition AppendOnlyVisimap_GetAttrNotNull {A} (attr : option A) : result A :=
  match attr with Some d => Ok d | None => Err "got invalid value: NULL" end.

Definition AppendOnlyVisimapEntry_Copyout (stack : BitmapDecompressState)
    (e : AppendOnlyVisimapEntry) (tuple : VisimapTuple) : result AppendOnlyVisimapEntry :=
  segno ← AppendOnlyVisimap_GetAttrNotNull (t_segno tuple);
  first ← AppendOnlyVisimap_GetAttrNotNull (t_firstrownum tuple);
  let e := mkVisimapEntry (ve_data e) (ve_bitmap e) (s32 segno) first (dirty e) (tupleTid e) in
  match t_visimap tuple with
  | None => Ok (set_bitmap e None)
  | Some value =>
      match ve_data e with
      | None => Err "null visimap data"
      | Some d =>
          let dataSize := vd_len value - VISIMAP_DATA_OFFSET in
          buf ← memcpy_at (vd_data d) 0 (take (Z.to_nat dataSize) (vd_data value));
          AppendOnlyVisiMapEnty_ReadData stack
            (set_data e (mkVisimapData (vd_len value) (vd_version value) buf)) dataSize
      end
  end.

Definition AppendOnlyVisimapEntry_GetHiddenTupleCount (e : AppendOnlyVisimapEntry) : Z :=
  bms_num_members (ve_bitmap e).

Definition bitmap_words (b : bms) : list Z := match b with None => [] | Some b => words b end.

Definition AppendOnlyVisimapEntry_WriteData (e : AppendOnlyVisimapEntry)
    : result AppendOnlyVisimapEntry :=
  match ve_data e with
  | None => Err "null visimap data"
  | Some d =>
      let nwords := Z.of_nat (length (bitmap_words (ve_bitmap e))) in
      let bitmapSize := nwords * 4 + BITMAP_COMPRESSION_HEADER_SIZE in
      '(compressedBitmapSize, out) ←
        Bitmap_Compress BITMAP_COMPRESSION_TYPE_DEFAULT (bitmap_words (ve_bitmap e)) nwords
          (vd_data d) bitmapSize;
      Ok (set_data e (mkVisimapData (VISIMAP_DATA_OFFSET + compressedBitmapSize) 1 out))
  end.

(** The attributes of the tuple and the entry afterwards. *)
Definition AppendOnlyVisimapEntry_Write (e : AppendOnlyVisimapEntry)
    : result (VisimapTuple * AppendOnlyVisimapEntry) :=
  let clean e :=
    mkVisimapEntry (ve_data e) (ve_bitmap e) (segmentFileNum e) (firstRowNum e) false (tupleTid e) in
  if bms_is_empty (ve_bitmap e) then
    Ok (mkVisimapTuple (Some (segmentFileNum e)) (Some (firstRowNum e)) None, clean e)
  else
    e ← AppendOnlyVisimapEntry_WriteData e;
    Ok (mkVisimapTuple (Some (segmentFileNum e)) (Some (firstRowNum e)) (ve_data e), clean e).

Definition AppendOnlyVisimapEntry_AreAllVisible (e : AppendOnlyVisimapEntry) : bool :=
  bms_is_empty (ve_bitmap e).

Definition AppendOnlyVisimapEntry_GetRownumOffset (e : AppendOnlyVisimapEntry) (rowNum : Z) : Z :=
  rowNum - firstRowNum e.

Definition AppendOnlyVisimapEntry_CoversTuple (e : AppendOnlyVisimapEntry) (tupleId : AOTupleId) : bool :=
  if negb (AppendOnlyVisimapEntry_IsValid e) then false
  else if negb (segmentFileNum e =? AOTupleIdGet_segmentFileNum tupleId) then false
  else
    let rowNum := AOTupleIdGet_rowNum tupleId in
    (firstRowNum e <=? rowNum) && (rowNum <? firstRowNum e + APPENDONLY_VISIMAP_MAX_RANGE).

(** The [int64] offset is passed as an [int]. *)
Definition AppendOnlyVisimapEntry_IsVisible (e : AppendOnlyVisimapEntry) (tupleId : AOTupleId)
    : result bool :=
  let rowNum := AOTupleIdGet_rowNum tupleId in
  if AppendOnlyVisimapEntry_AreAllVisible e then Ok true
  else
    let rowNumOffset := AppendOnlyVisimapEntry_GetRownumOffset e rowNum in
    hidden ← bms_is_member (s32 rowNumOffset) (ve_bitmap e);
    Ok (negb hidden).

Definition AppendOnlyVisimapEntry_GetMinimalSizeToCover (offset : Z) : Z :=
  let minSize := u32 (Z.quot offset BITS_PER_BITMAPWORD + 1) in
  let minSize := u32 (minSize - 1) in
  let minSize := Z.lor minSize (Z.shiftr minSize 1) in
  let minSize := Z.lor minSize (Z.shiftr minSize 2) in
  let minSize := Z.lor minSize (Z.shiftr minSize 4) in
  let minSize := Z.lor minSize (Z.shiftr minSize 8) in
  let minSize := Z.lor minSize (Z.shiftr minSize 16) in
  u32 (minSize + 1).

Definition AppendOnlyVisimapEntry_HideTuple (e : AppendOnlyVisimapEntry) (tupleId : AOTupleId)
    : result (HTSU_Result * AppendOnlyVisimapEntry) :=
  let rowNum := AOTupleIdGet_rowNum tupleId in
  let rowNumOffset := AppendOnlyVisimapEntry_GetRownumOffset e rowNum in
  covers ← bms_covers_member (ve_bitmap e) (s32 rowNumOffset);
  let bitmap :=
    if negb covers
    then bms_resize (ve_bitmap e)
           (Z.to_nat (s32 (AppendOnlyVisimapEntry_GetMinimalSizeToCover rowNumOffset)))
    else ve_bitmap e in
  member ← bms_is_member (s32 rowNumOffset) bitmap;
  '(result, bitmap) ←
    (if negb member then
       bitmap ← bms_add_member bitmap (s32 rowNumOffset);
       Ok (HeapTupleMayBeUpdated, bitmap)
     else if dirty e then Ok (HeapTupleSelfUpdated, bitmap)
     else Ok (HeapTupleUpdated, bitmap));
  Ok (result,
      mkVisimapEntry (ve_data e) bitmap (segmentFileNum e) (firstRowNum e) true (tupleTid e)).

Definition AppendOnlyVisimapEntry_HasChanged (e : AppendOnlyVisimapEntry) : bool := dirty e.

(** [None] is the [false] return, where the tuple id is left alone. *)
Definition AppendOnlyVisimapEntry_GetNextInvisible (e : AppendOnlyVisimapEntry) (tupleId : AOTupleId)
    : option AOTupleId :=
  let currentBitmapOffset :=
    if AppendOnlyVisimapEntry_CoversTuple e tupleId
    then AppendOnlyVisimapEntry_GetRownumOffset e (AOTupleIdGet_rowNum tupleId) else -1 in
  let offset := bms_next_member (ve_bitmap e) (s32 currentBitmapOffset) in
  if 0 <=? offset
  then Some (AOTupleIdInit (u16 (segmentFileNum e)) (firstRowNum e + offset))
  else None.

(** ** Invariant and abstraction *)

(** The offsets of the hidden rows. *)
Definition hidden (e : AppendOnlyVisimapEntry) : gset Z := bms_to_set (ve_bitmap e).

(** A usable entry: a buffer of the fixed size, a bitmap of at most 1024 words and an aligned
    range of row numbers of a segment file. *)
Record entry_inv (e : AppendOnlyVisimapEntry) : Prop := {
  inv_data : ∃ d, ve_data e = Some d ∧
    Z.of_nat (length (vd_data d)) = APPENDONLY_VISIMAP_DATA_BUFFER_SIZE - VISIMAP_DATA_OFFSET;
  inv_wf : bms_wf (ve_bitmap e);
  inv_words : (length (bitmap_words (ve_bitmap e)) ≤ 1024)%nat;
  inv_seg : 0 ≤ segmentFileNum e ≤ AOTupleId_MaxSegmentFileNum;
  inv_first : 0 ≤ firstRowNum e;
  inv_last : firstRowNum e + APPENDONLY_VISIMAP_MAX_RANGE - 1 ≤ AOTupleId_MaxRowNum;
  inv_aligned : firstRowNum e mod APPENDONLY_VISIMAP_MAX_RANGE = 0;
}.

Section Entry.
Implicit Types (e : AppendOnlyVisimapEntry) (t : AOTupleId).

(** The offset of a tuple in the entry. *)
Definition offset_of e t : Z := AOTupleIdGet_rowNum t - firstRowNum e.

Lemma covers_spec e t :
  entry_inv e →
  AppendOnlyVisimapEntry_CoversTuple e t = true ↔
  segmentFileNum e = AOTupleIdGet_segmentFileNum t ∧ 0 ≤ offset_of e t < APPENDONLY_VISIMAP_MAX_RANGE.
Proof.
  intros Hinv. unfold AppendOnlyVisimapEntry_CoversTuple, AppendOnlyVisimapEntry_IsValid, offset_of.
  pose proof (inv_seg e Hinv). pose proof (inv_first e Hinv).
  rewrite (proj2 (Z.leb_le 0 (segmentFileNum e))), (proj2 (Z.leb_le 0 (firstRowNum e))) by lia. simpl.
  destruct (Z.eqb_spec (segmentFileNum e) (AOTupleIdGet_segmentFileNum t)); simpl.
  - rewrite andb_true_iff, Z.leb_le, Z.ltb_lt. naive_solver lia.
  - naive_solver.
Qed.

Lemma s32_offset e t :
  0 ≤ offset_of e t < APPENDONLY_VISIMAP_MAX_RANGE →
  s32 (AppendOnlyVisimapEntry_GetRownumOffset e (AOTupleIdGet_rowNum t)) = offset_of e t.
Proof. unfold APPENDONLY_VISIMAP_MAX_RANGE. intros. apply s32_small. unfold offset_of in *.
  unfold AppendOnlyVisimapEntry_GetRownumOffset. lia. Qed.

Lemma IsVisible_spec e t :
  entry_inv e → AppendOnlyVisimapEntry_CoversTuple e t = true →
  AppendOnlyVisimapEntry_IsVisible e t = Ok (negb (bms_has (ve_bitmap e) (offset_of e t))).
Proof.
  intros Hinv [_ Hoff]%covers_spec; [|done]. unfold AppendOnlyVisimapEntry_IsVisible.
  unfold AppendOnlyVisimapEntry_AreAllVisible.
  destruct (bms_is_empty (ve_bitmap e)) eqn:Eempty.
  - rewrite bms_is_empty_spec in Eempty by apply Hinv. by rewrite Eempty by lia.
  - rewrite s32_offset, is_member_spec by lia. done.
Qed.

(** The check of the size [m] for the word index [k]. *)
Definition min_size_ok (k : nat) (m : Z) : bool :=
  (m =? 2 ^ Z.log2_up (Z.of_nat k + 1)) && (Z.of_nat k <? m) && (m <=? 1024).

Lemma min_size_ok_spec k m :
  min_size_ok k m = true → m = 2 ^ Z.log2_up (Z.of_nat k + 1) ∧ Z.of_nat k < m ≤ 1024.
Proof. unfold min_size_ok. rewrite !andb_true_iff, Z.eqb_eq, Z.ltb_lt, Z.leb_le. lia. Qed.

(** Only the index of the word matters for the size. *)
Lemma min_size_table :
  forallb (λ k, min_size_ok k (AppendOnlyVisimapEntry_GetMinimalSizeToCover (Z.of_nat k * 32)))
    (seq 0 (Z.to_nat 1024)) = true.
Proof. vm_cast_no_check (eq_refl true). Qed.

Lemma GetMinimalSizeToCover_word offset :
  0 ≤ offset →
  AppendOnlyVisimapEntry_GetMinimalSizeToCover offset =
  AppendOnlyVisimapEntry_GetMinimalSizeToCover (offset / 32 * 32).
Proof.
  intros. assert (0 ≤ offset / 32) by (apply Z.div_pos; lia).
  unfold AppendOnlyVisimapEntry_GetMinimalSizeToCover, BITS_PER_BITMAPWORD.
  rewrite (Z.quot_div_nonneg offset), (Z.quot_div_nonneg (offset / 32 * 32)), Z.div_mul by lia. done.
Qed.

(** The size is a power of two that covers the offset and never exceeds 1024 words. *)
Lemma GetMinimalSizeToCover_spec offset :
  0 ≤ offset < APPENDONLY_VISIMAP_MAX_RANGE →
  AppendOnlyVisimapEntry_GetMinimalSizeToCover offset = 2 ^ Z.log2_up (offset / 32 + 1) ∧
  offset / 32 < AppendOnlyVisimapEntry_GetMinimalSizeToCover offset ≤ 1024.
Proof.
  unfold APPENDONLY_VISIMAP_MAX_RANGE. intros Hoff.
  assert (Hk : 0 ≤ offset / 32 < 1024)
    by (split; [apply Z.div_pos|apply Z.div_lt_upper_bound]; lia).
  pose proof (proj1 (forallb_seq _ _ _) min_size_table (Z.to_nat (offset / 32)) ltac:(lia)) as Hall.
  apply min_size_ok_spec in Hall. rewrite Z2Nat.id, <- GetMinimalSizeToCover_word in Hall by lia.
  exact Hall.
Qed.

Lemma WORDNUM_lt offset (n : nat) :
  0 ≤ offset → (WORDNUM offset < n)%nat ↔ offset / 32 < Z.of_nat n.
Proof.
  intros. unfold WORDNUM, BITS_PER_BITMAPWORD. assert (0 ≤ offset / 32) by (apply Z.div_pos; lia). lia.
Qed.

(** The bitmap after the resizing step covers the offset. *)
Lemma hide_resize b offset :
  0 ≤ offset < APPENDONLY_VISIMAP_MAX_RANGE → bms_wf b → (length (bitmap_words b) ≤ 1024)%nat →
  ∃ covers b', bms_covers_member b offset = Ok covers ∧
    (if negb covers then bms_resize b
       (Z.to_nat (s32 (AppendOnlyVisimapEntry_GetMinimalSizeToCover offset))) else b) = Some b' ∧
    (WORDNUM offset < nwords b' ≤ 1024)%nat ∧ bms_wf (Some b') ∧
    ∀ y, bms_has (Some b') y = bms_has b y.
Proof.
  intros Hoff Hwf Hlen. destruct (GetMinimalSizeToCover_spec offset Hoff) as [_ Hm].
  assert (0 ≤ offset / 32) by (apply Z.div_pos; lia). unfold bms_covers_member. rewrite (proj2 (Z.ltb_ge offset 0)) by lia.
  rewrite s32_small by lia. revert Hm.
  generalize (AppendOnlyVisimapEntry_GetMinimalSizeToCover offset) as m. intros m Hm.
  pose proof (bms_wf_resize b (Z.to_nat m) Hwf) as Hwf'.
  pose proof (has_resize b (Z.to_nat m)) as Hhas.
  destruct b as [b|]; [destruct (Nat.ltb_spec (WORDNUM offset) (nwords b)) as [Hlt|Hge]|].
  - eexists true, b. by split_and!.
  - eexists false, _. split; [done|]. cbn [negb]. unfold bms_resize in *.
    assert (nwords b < Z.to_nat m)%nat.
    { apply (Nat.le_lt_trans _ (WORDNUM offset)); [done|]. apply WORDNUM_lt; lia. }
    destruct (Nat.leb_spec (Z.to_nat m) (nwords b)); [lia|].
    split_and!; [done| | |done|done]; unfold nwords in *; simpl;
      rewrite length_app, length_replicate; [|lia].
    apply WORDNUM_lt; lia.
  - eexists false, _. split; [done|]. split; [done|].
    split_and!; [| |done|done]; unfold nwords; simpl; rewrite length_replicate; [|lia].
    apply WORDNUM_lt; lia.
Qed.

Lemma add_member_inside (b : Bitmapset) x :
  0 ≤ x → (WORDNUM x < nwords b)%nat → bms_wf (Some b) →
  ∃ b', bms_add_member (Some b) x = Ok (Some b') ∧ nwords b' = nwords b ∧ bms_wf (Some b') ∧
    ∀ y, 0 ≤ y → bms_has (Some b') y = bool_decide (y = x) || bms_has (Some b) y.
Proof.
  intros Hx Hw Hwf. pose proof (λ y, has_add_member (Some b) x y Hx) as Hhas.
  pose proof (bms_wf_add_member (Some b) x) as Hwf'.
  unfold bms_add_member in *. rewrite (proj2 (Z.ltb_ge x 0)) in * by lia.
  rewrite (proj2 (Nat.leb_gt (nwords b) (WORDNUM x))) in * by lia.
  eexists. split; [done|]. split; [unfold nwords; simpl; by rewrite length_insert|].
  split; [by eapply Hwf'|]. intros y Hy. destruct (Hhas y Hy) as (s & [= <-] & Hs). exact Hs.
Qed.

(** The whole operation on a tuple the entry covers. *)
Lemma HideTuple_spec e t :
  entry_inv e → AppendOnlyVisimapEntry_CoversTuple e t = true →
  let was := bms_has (ve_bitmap e) (offset_of e t) in
  ∃ b', AppendOnlyVisimapEntry_HideTuple e t =
      Ok (if was then if dirty e then HeapTupleSelfUpdated else HeapTupleUpdated
          else HeapTupleMayBeUpdated,
          mkVisimapEntry (ve_data e) (Some b') (segmentFileNum e) (firstRowNum e) true (tupleTid e)) ∧
    (nwords b' ≤ 1024)%nat ∧ bms_wf (Some b') ∧
    ∀ y, 0 ≤ y → bms_has (Some b') y = bool_decide (y = offset_of e t) || bms_has (ve_bitmap e) y.
Proof.
  intros Hinv Hcov. apply covers_spec in Hcov as [_ Hoff]; [|done]. cbv zeta.
  destruct (hide_resize (ve_bitmap e) (offset_of e t)) as (cv & b1 & Hcv & Hb1 & Hlen & Hwf & Hhas);
    [done|apply Hinv..|].
  unfold AppendOnlyVisimapEntry_HideTuple. rewrite s32_offset, Hcv by done.
  cbn [mbind result_bind]. unfold AppendOnlyVisimapEntry_GetRownumOffset.
  fold (offset_of e t). rewrite Hb1, is_member_spec, Hhas by lia. cbn [mbind result_bind].
  destruct (bms_has (ve_bitmap e) (offset_of e t)) eqn:Ewas.
  - exists b1. split; [by destruct (dirty e)|]. split; [lia|]. split; [done|]. intros y Hy.
    rewrite Hhas. case_bool_decide; subst; [by rewrite Ewas|done].
  - destruct (add_member_inside b1 (offset_of e t)) as (b2 & Hb2 & Hn2 & Hwf2 & Hhas2); [lia..|done|].
    exists b2. cbn [negb]. rewrite Hb2. split; [done|]. split; [lia|]. split; [done|].
    intros y Hy. by rewrite Hhas2, Hhas.
Qed.

(** A hidden tuple of a changed entry. *)
Lemma hide_hidden e t :
  entry_inv e → AppendOnlyVisimapEntry_CoversTuple e t = true → dirty e = true → bms_has (ve_bitmap e) (offset_of e t) = true →
  ∃ e', AppendOnlyVisimapEntry_HideTuple e t = Ok (HeapTupleSelfUpdated, e') ∧ hidden e' = hidden e.
Proof.
  intros Hinv Hcov Hd Hh. destruct (HideTuple_spec e t Hinv Hcov) as (b' & E & _ & _ & Hhas). rewrite Hh, Hd in E. eexists. split; [exact E|].
  apply set_eq. intros y. unfold hidden. rewrite !elem_of_bms_to_set. cbn [ve_bitmap]. destruct (decide (0 ≤ y)); [|naive_solver].
  rewrite Hhas by done. case_bool_decide; subst; [|done]. by rewrite Hh.
Qed.

Lemma hidden_num e : entry_inv e →
  AppendOnlyVisimapEntry_GetHiddenTupleCount e = Z.of_nat (size (hidden e)).
Proof. intros. apply bms_num_members_spec. by apply inv_wf. Qed.

Lemma New_inv e t :
  aotid_wf t → (∃ d, ve_data e = Some d ∧ Z.of_nat (length (vd_data d)) =
    APPENDONLY_VISIMAP_DATA_BUFFER_SIZE - VISIMAP_DATA_OFFSET) →
  entry_inv (AppendOnlyVisimapEntry_New e t) ∧
  AppendOnlyVisimapEntry_CoversTuple (AppendOnlyVisimapEntry_New e t) t = true ∧
  hidden (AppendOnlyVisimapEntry_New e t) = ∅.
Proof.
  intros Hwf Hd. destruct (aotid_ranges t Hwf) as [Hs Hr].
  set (row := AOTupleIdGet_rowNum t) in *.
  assert (AppendOnlyVisimapEntry_GetFirstRowNum t = row / 32768 * 32768) as Hfirst.
  { unfold AppendOnlyVisimapEntry_GetFirstRowNum, APPENDONLY_VISIMAP_MAX_RANGE. fold row.
    by rewrite Z.quot_div_nonneg by lia. }
  pose proof (Z.div_mod row 32768 ltac:(lia)). pose proof (Z.mod_pos_bound row 32768 ltac:(lia)).
  assert (row / 32768 ≤ 33554431).
  { apply Z.lt_succ_r, Z.div_lt_upper_bound; unfold AOTupleId_MaxRowNum in *; lia. }
  assert (0 ≤ row / 32768) by (apply Z.div_pos; lia).
  assert (entry_inv (AppendOnlyVisimapEntry_New e t)) as Hinv.
  { split; simpl; rewrite ?Hfirst; unfold APPENDONLY_VISIMAP_MAX_RANGE, AOTupleId_MaxRowNum in *;
      try (done || lia). by apply Z.mod_mul. }
  split_and!; [done| |done]. apply covers_spec; [done|]. unfold offset_of. simpl. fold row.
  rewrite Hfirst. unfold APPENDONLY_VISIMAP_MAX_RANGE. split; [done|lia].
Qed.
End Entry.

(** C28: hiding a covered tuple succeeds, keeps the entry's invariant (in particular the bitmap
    never outgrows the 1024 words of the on-disk buffer), marks the entry changed, hides exactly this
    tuple among the covered ones and counts it once.  It reports that the tuple may be updated exactly if
    it was visible; for a tuple that was hidden the report depends on the entry and not on the tuple: self
    updated if any change of the entry is not yet stored, updated if none is.  So after a tuple has been
    hidden in an entry, every tuple that was hidden in the entry before, whoever hid it, is reported as
    self updated too. *)
Theorem visimap_hide_tuple e t :
  entry_inv e → aotid_wf t → AppendOnlyVisimapEntry_CoversTuple e t = true →
  ∃ visible res e',
    AppendOnlyVisimapEntry_IsVisible e t = Ok visible ∧
    AppendOnlyVisimapEntry_HideTuple e t = Ok (res, e') ∧
    res = (if visible then HeapTupleMayBeUpdated
           else if AppendOnlyVisimapEntry_HasChanged e then HeapTupleSelfUpdated
           else HeapTupleUpdated) ∧
    entry_inv e' ∧ AppendOnlyVisimapEntry_HasChanged e' = true ∧
    hidden e' = {[offset_of e t]} ∪ hidden e ∧
    AppendOnlyVisimapEntry_GetHiddenTupleCount e' =
      AppendOnlyVisimapEntry_GetHiddenTupleCount e + (if visible then 1 else 0) ∧
    ∀ t', aotid_wf t' → AppendOnlyVisimapEntry_CoversTuple e t' = true →
      AppendOnlyVisimapEntry_CoversTuple e' t' = true ∧
      AppendOnlyVisimapEntry_IsVisible e' t' =
        (if decide (t' = t) then Ok false else AppendOnlyVisimapEntry_IsVisible e t') ∧
      (AppendOnlyVisimapEntry_IsVisible e t' = Ok false →
       ∃ e'', AppendOnlyVisimapEntry_HideTuple e' t' = Ok (HeapTupleSelfUpdated, e'') ∧ hidden e'' = hidden e').
Proof.
  intros Hinv Ht Hcov. destruct (HideTuple_spec e t Hinv Hcov) as (b' & Hh & Hlen & Hwf & Hhas).
  pose proof (IsVisible_spec e t Hinv Hcov) as Hvis.
  destruct (proj1 (covers_spec e t Hinv) Hcov) as [Hseg Hoff].
  set (e' := mkVisimapEntry _ _ _ _ _ _) in Hh.
  assert (entry_inv e') as Hinv' by (destruct Hinv; by split).
  assert (hidden e' = {[offset_of e t]} ∪ hidden e) as Hset.
  { apply set_eq. intros y. unfold hidden. rewrite elem_of_union, elem_of_singleton,
      !elem_of_bms_to_set. destruct (decide (0 ≤ y)); [|naive_solver lia].
    simpl ve_bitmap. rewrite Hhas by done. rewrite orb_true_iff, bool_decide_eq_true. naive_solver. }
  eexists _, _, e'. split; [exact Hvis|]. split; [exact Hh|].
  split; [unfold AppendOnlyVisimapEntry_HasChanged;
          by destruct (bms_has (ve_bitmap e) (offset_of e t)), (dirty e)|].
  split; [done|]. split; [done|]. split; [done|]. split.
  - rewrite !hidden_num, Hset by done.
    destruct (bms_has (ve_bitmap e) (offset_of e t)) eqn:Ewas; cbn [negb].
    + rewrite subseteq_union_1_L; [lia|]. apply singleton_subseteq_l, elem_of_bms_to_set. split; [lia|done].
    + rewrite size_union, size_singleton; [lia|]. apply disjoint_singleton_l.
      unfold hidden. rewrite elem_of_bms_to_set. intros [_ ?]. congruence.
  - intros t' Ht' Hcov'. destruct (proj1 (covers_spec e t' Hinv) Hcov') as [Hseg' Hoff'].
    assert (AppendOnlyVisimapEntry_CoversTuple e' t' = true) as Hcov''
      by (apply covers_spec; [done|]; by split).
    pose proof (IsVisible_spec e t' Hinv Hcov') as Hv1. pose proof (IsVisible_spec e' t' Hinv' Hcov'') as Hv2.
    change (offset_of e' t') with (offset_of e t') in Hv2. simpl ve_bitmap in Hv2. rewrite Hhas in Hv2 by lia. split; [done|]. split.
    + rewrite Hv1, Hv2. destruct (decide (t' = t)) as [->|Heq]; [by rewrite bool_decide_eq_true_2|].
      rewrite bool_decide_eq_false_2; [done|]. intros Hoffs. apply Heq, aotid_ext; [done..|congruence|].
      unfold offset_of in Hoffs. lia.
    + rewrite Hv1. intros [= Hhid]. apply negb_false_iff in Hhid. apply hide_hidden; [done|done|done|]. change (bms_has (Some b') (offset_of e t') = true). rewrite Hhas, Hhid by lia. apply orb_true_r.
Qed.

(** An entry of the first range of segment file 2 with row 5 hidden. *)
Definition wit_entry : AppendOnlyVisimapEntry :=
  mkVisimapEntry (Some (mkVisimapData 0 0 (replicate 4098 0))) (Some (mkBitmapset [32])) 2 0 false
    ItemPointerSetInvalid.

Lemma wit_entry_inv : entry_inv wit_entry.
Proof.
  split; unfold APPENDONLY_VISIMAP_MAX_RANGE, AOTupleId_MaxRowNum, AOTupleId_MaxSegmentFileNum.
  - eexists. split; [reflexivity|]. by vm_compute.
  - by repeat constructor.
  - simpl; lia.
  - simpl; lia.
  - simpl; lia.
  - simpl; lia.
  - done.
Qed.

Lemma wit_tid_wf n : 0 ≤ n ≤ 1000 → aotid_wf (AOTupleIdInit 2 n).
Proof.
  intros. apply AOTupleIdInit_wf; unfold AOTupleId_MaxSegmentFileNum, AOTupleId_MaxRowNum; lia.
Qed.

Lemma visimap_hide_tuple_witness :
  ∃ e' e'', AppendOnlyVisimapEntry_HideTuple wit_entry (AOTupleIdInit 2 100) = Ok (HeapTupleMayBeUpdated, e') ∧
    hidden e' = {[100]} ∪ hidden wit_entry ∧
    AppendOnlyVisimapEntry_HideTuple e' (AOTupleIdInit 2 5) = Ok (HeapTupleSelfUpdated, e'').
Proof.
  destruct (visimap_hide_tuple wit_entry (AOTupleIdInit 2 100))
    as (v & res & e' & Hv & Hh & Hres & _ & _ & Hset & _ & Hother).
  - exact wit_entry_inv.
  - apply wit_tid_wf; lia.
  - reflexivity.
  - destruct (Hother (AOTupleIdInit 2 5)) as (_ & _ & Hself); [apply wit_tid_wf; lia|reflexivity|].
    destruct Hself as (e'' & Hself & _); [by vm_compute|].
    exists e', e''. assert (v = true) as -> by (vm_compute in Hv; congruence). subst res.
    split; [exact Hh|]. split; [exact Hset|exact Hself].
Defined.

(** ** Persistence *)

(** The buffer of an entry that has been initialised. *)
Definition has_buffer (e : AppendOnlyVisimapEntry) : Prop :=
  ∃ d, ve_data e = Some d ∧
    Z.of_nat (length (vd_data d)) = APPENDONLY_VISIMAP_DATA_BUFFER_SIZE - VISIMAP_DATA_OFFSET.

Lemma WriteData_spec e :
  entry_inv e →
  let ws := bitmap_words (ve_bitmap e) in
  ∃ n out, AppendOnlyVisimapEntry_WriteData e =
      Ok (set_data e (mkVisimapData (VISIMAP_DATA_OFFSET + n) 1 out)) ∧
    Z.of_nat (length out) = APPENDONLY_VISIMAP_DATA_BUFFER_SIZE - VISIMAP_DATA_OFFSET ∧
    2 ≤ n ≤ Z.of_nat (length out) ∧
    ∀ buf, take (Z.to_nat n) buf = take (Z.to_nat n) out →
      ∃ st, (∀ st0, BitmapDecompress_Init st0 buf n = (true, st)) ∧
        BitmapDecompress_HasError st = false ∧
        BitmapDecompress_GetBlockCount st = Z.of_nat (length ws) ∧
        BitmapDecompress_Decompress st (replicate (length ws) 0) (Z.of_nat (length ws)) = Ok ws.
Proof.
  intros Hinv ws. destruct (inv_data e Hinv) as (d & Hd & Hlen). pose proof (inv_words e Hinv) as Hw.
  fold ws in Hw. unfold AppendOnlyVisimapEntry_WriteData. rewrite Hd. fold ws.
  unfold APPENDONLY_VISIMAP_DATA_BUFFER_SIZE, APPENDONLY_VISIMAP_MAX_BITMAP_SIZE,
    BITMAP_COMPRESSION_HEADER_SIZE, VISIMAP_DATA_OFFSET in *.
  destruct (Bitmap_Compress_spec BITMAP_COMPRESSION_TYPE_DEFAULT ws (vd_data d)
    (replicate (length ws) 0) (Z.of_nat (length ws) * 4 + 2)) as (n & out & Hc & _ & Hn & Hl & Hdec).
  - by right.
  - subst ws. pose proof (inv_wf e Hinv) as Hwf. by destruct (ve_bitmap e).
  - lia.
  - lia.
  - by rewrite length_replicate.
  - exists n, out. rewrite Hc. split; [done|]. split; [lia|]. split; [lia|]. intros buf Hbuf.
    destruct (Hdec buf Hbuf) as (st & Hi & _ & Hcount & Herr & Hdc). exists st.
    rewrite length_replicate, drop_ge, app_nil_r in Hdc by (by rewrite length_replicate). done.
Qed.

(** Loading what [WriteData] stored. *)
Lemma ReadData_spec stack e e' n out ws :
  (∀ buf, take (Z.to_nat n) buf = take (Z.to_nat n) out →
    ∃ st, (∀ st0, BitmapDecompress_Init st0 buf n = (true, st)) ∧
      BitmapDecompress_HasError st = false ∧
      BitmapDecompress_GetBlockCount st = Z.of_nat (length ws) ∧
      BitmapDecompress_Decompress st (replicate (length ws) 0) (Z.of_nat (length ws)) = Ok ws) →
  ve_data e = Some e' → take (Z.to_nat n) (vd_data e') = take (Z.to_nat n) out →
  AppendOnlyVisiMapEnty_ReadData stack e n =
    Ok (set_bitmap e (match ws with [] => None | _ => Some (mkBitmapset ws) end)).
Proof.
  intros Hdec He Hbuf. unfold AppendOnlyVisiMapEnty_ReadData. rewrite He.
  destruct (Hdec _ Hbuf) as (st & Hi & Herr & Hcount & Hdc). rewrite Hi, Herr, Hcount.
  destruct ws as [|w ws]; [done|].
  rewrite (proj2 (Z.ltb_lt _ _)), Nat2Z.id by (simpl; lia). by rewrite Hdc.
Qed.

(** Writing an entry to a visimap tuple and loading that tuple into another initialised
    entry gives an entry with the same segment file, the same range and the same hidden rows,
    whatever the second entry held; the bitmap attribute is null exactly when nothing is hidden,
    the compressed bitmap fits the fixed buffer, and the written entry is clean. *)
Lemma visimap_write_copyout stack e e0 :
  entry_inv e → has_buffer e0 →
  ∃ tuple e1 e2,
    AppendOnlyVisimapEntry_Write e = Ok (tuple, e1) ∧
    entry_inv e1 ∧ AppendOnlyVisimapEntry_HasChanged e1 = false ∧ hidden e1 = hidden e ∧
    (t_visimap tuple = None ↔ hidden e = ∅) ∧
    AppendOnlyVisimapEntry_Copyout stack e0 tuple = Ok e2 ∧
    entry_inv e2 ∧ hidden e2 = hidden e ∧
    segmentFileNum e2 = segmentFileNum e ∧ firstRowNum e2 = firstRowNum e.
Proof.
  intros Hinv (d0 & Hd0 & Hl0).
  assert (bms_is_empty (ve_bitmap e) = true ↔ hidden e = ∅) as Hempty.
  { unfold hidden. rewrite bms_is_empty_spec by apply Hinv. rewrite set_eq.
    setoid_rewrite elem_of_bms_to_set. setoid_rewrite elem_of_empty. split.
    - intros Hn x. split; [intros [? ?]|done]. by rewrite Hn in *.
    - intros Hn x Hx. destruct (bms_has (ve_bitmap e) x) eqn:E; [|done]. by destruct (proj1 (Hn x)). }
  assert (s32 (segmentFileNum e) = segmentFileNum e) as Hseg.
  { pose proof (inv_seg e Hinv). unfold AOTupleId_MaxSegmentFileNum in *. apply s32_small. lia. }
  unfold AppendOnlyVisimapEntry_Write. destruct (bms_is_empty (ve_bitmap e)) eqn:E.
  - assert (hidden e = ∅) as Hnone by (by apply Hempty).
    eexists _, _, _. split; [reflexivity|]. split; [by destruct Hinv|]. split; [done|].
    split; [done|]. split; [done|]. split; [reflexivity|]. simpl. rewrite Hseg, Hnone.
    split_and!; try done. destruct Hinv. split; simpl; try (done || lia). by exists d0.
  - destruct (WriteData_spec e Hinv) as (n & out & Hw & Hlo & Hn & Hdec). rewrite Hw.
    eexists _, _, _. split; [reflexivity|].
    split; [destruct Hinv; split; simpl; try done; by eexists|]. split; [done|]. split; [done|].
    split; [split; [done|]; by rewrite <- Hempty|].
    unfold AppendOnlyVisimapEntry_Copyout. simpl. rewrite Hd0.
    replace (VISIMAP_DATA_OFFSET + n - VISIMAP_DATA_OFFSET) with n by lia.
    unfold memcpy_at. rewrite length_take, Nat.add_0_l.
    rewrite (proj2 (Nat.leb_le _ _)) by lia. cbn [mbind result_bind take app].
    erewrite ReadData_spec; [|exact Hdec|reflexivity|].
    2:{ simpl. rewrite take_app_length'; [done|]. rewrite length_take. lia. }
    split; [reflexivity|]. unfold hidden. simpl. rewrite Hseg.
    assert (∀ b, bms_is_empty b = false →
      match bitmap_words b with [] => None | _ => Some (mkBitmapset (bitmap_words b)) end = b) as Hb.
    { intros [[ws]|]; [|done]. simpl. by destruct ws. }
    rewrite Hb by done. split_and!; try done. destruct Hinv. split; simpl; try done.
    eexists. split; [reflexivity|]. simpl. rewrite length_app, length_take, length_drop. lia.
Qed.

(** ** Enumeration and coverage *)

Lemma has_lt_words (b : bms) x : 0 ≤ x → bms_has b x = true → x < 32 * Z.of_nat (length (bitmap_words b)).
Proof.
  intros Hx. destruct b as [b|]; [|done]. simpl. unfold bit_at. intros Hbit.
  apply Z.nle_gt. intros Hge. rewrite word_at_ge in Hbit; [by rewrite Z.bits_0 in Hbit|].
  unfold WORDNUM, BITS_PER_BITMAPWORD.
  assert (Z.of_nat (length (words b)) ≤ x / 32) by (apply Z.div_le_lower_bound; lia). lia.
Qed.

(** [t'] comes after [t] in the entry: after its row when the entry covers [t], anywhere else. *)
Definition after_in (e : AppendOnlyVisimapEntry) (t t' : AOTupleId) : Prop :=
  AppendOnlyVisimapEntry_CoversTuple e t' = true ∧
  (AppendOnlyVisimapEntry_CoversTuple e t = true → AOTupleIdGet_rowNum t < AOTupleIdGet_rowNum t').

(** The next-invisible search returns the first hidden tuple after the given one (the first
    of the entry when the entry does not cover it), as a well-formed identifier that the entry
    covers, and reports failure exactly when every later tuple of the entry is visible. *)
Lemma visimap_next_invisible e t :
  entry_inv e →
  match AppendOnlyVisimapEntry_GetNextInvisible e t with
  | Some t' =>
      aotid_wf t' ∧ after_in e t t' ∧ AppendOnlyVisimapEntry_IsVisible e t' = Ok false ∧
      ∀ u, after_in e t u → AOTupleIdGet_rowNum u < AOTupleIdGet_rowNum t' →
        AppendOnlyVisimapEntry_IsVisible e u = Ok true
  | None => ∀ u, after_in e t u → AppendOnlyVisimapEntry_IsVisible e u = Ok true
  end.
Proof.
  intros Hinv. unfold AppendOnlyVisimapEntry_GetNextInvisible.
  set (p := if AppendOnlyVisimapEntry_CoversTuple e t then _ else -1).
  assert (-1 ≤ p < 32768 ∧ ∀ u, after_in e t u → p < offset_of e u) as [Hp Hafter].
  { unfold p, after_in. pose proof (covers_spec e t Hinv) as Hc.
    unfold AppendOnlyVisimapEntry_GetRownumOffset, APPENDONLY_VISIMAP_MAX_RANGE, offset_of in *.
    destruct (AppendOnlyVisimapEntry_CoversTuple e t).
    - destruct (proj1 Hc eq_refl). split; [lia|]. intros u [_ Hu]. specialize (Hu eq_refl). lia.
    - split; [lia|]. intros u [[_ Hu]%covers_spec _]; [|done]. unfold offset_of in *. lia. }
  rewrite s32_small by lia.
  assert (∀ u, after_in e t u → bms_has (ve_bitmap e) (offset_of e u) = false →
    AppendOnlyVisimapEntry_IsVisible e u = Ok true) as Hvis.
  { intros u [Hu _] Hb. by rewrite IsVisible_spec, Hb by done. }
  pose proof (bms_next_member_spec (ve_bitmap e) p (inv_wf e Hinv) ltac:(lia)) as Hnext.
  set (o := bms_next_member (ve_bitmap e) p) in *.
  destruct Hnext as [[Ho Hnone]|(Hlt & Hin & Hmin)].
  { rewrite Ho. intros u Hu. apply Hvis; [done|]. specialize (Hnone _ (Hafter u Hu)).
    rewrite elem_of_bms_to_set in Hnone. specialize (Hafter u Hu).
    destruct (bms_has (ve_bitmap e) (offset_of e u)); [|done]. destruct Hnone. split; [lia|done]. }
  apply elem_of_bms_to_set in Hin as [Ho Hhas]. rewrite (proj2 (Z.leb_le 0 o)) by done.
  pose proof (has_lt_words _ _ Ho Hhas). pose proof (inv_words e Hinv). pose proof (inv_seg e Hinv) as Hseg.
  pose proof (inv_first e Hinv). pose proof (inv_last e Hinv).
  unfold APPENDONLY_VISIMAP_MAX_RANGE in *.
  assert (u16 (segmentFileNum e) = segmentFileNum e) as ->.
  { apply Z.mod_small. unfold AOTupleId_MaxSegmentFileNum in *. lia. }
  destruct (get_AOTupleIdInit (segmentFileNum e) (firstRowNum e + o)) as [Hgs Hgr]; [done|lia|].
  set (t' := AOTupleIdInit _ _) in *.
  assert (offset_of e t' = o) as Hot by (unfold offset_of; lia).
  assert (AppendOnlyVisimapEntry_CoversTuple e t' = true) as Hcov'.
  { apply covers_spec; [done|]. unfold APPENDONLY_VISIMAP_MAX_RANGE. rewrite Hot. split; [done|lia]. }
  split; [apply AOTupleIdInit_wf; [done|lia]|]. split.
  { split; [done|]. intros Hct. revert Hlt. unfold p. rewrite Hct.
    unfold AppendOnlyVisimapEntry_GetRownumOffset. lia. }
  split; [by rewrite IsVisible_spec, Hot, Hhas|].
  intros u Hu Hrow. apply Hvis; [done|]. specialize (Hmin (offset_of e u)).
  specialize (Hafter u Hu). rewrite elem_of_bms_to_set in Hmin.
  destruct (bms_has (ve_bitmap e) (offset_of e u)); [|done].
  destruct Hmin; [unfold offset_of in *; lia|]. split; [lia|done].
Qed.

(** A new entry for a tuple is usable, clean of hidden rows and covers the tuple, and every
    usable entry that covers the tuple has the same segment file and range, so that a tuple
    belongs to exactly one entry. *)
Lemma visimap_entry_unique e e' t :
  aotid_wf t → has_buffer e → entry_inv e' →
  entry_inv (AppendOnlyVisimapEntry_New e t) ∧
  AppendOnlyVisimapEntry_CoversTuple (AppendOnlyVisimapEntry_New e t) t = true ∧
  AppendOnlyVisimapEntry_IsVisible (AppendOnlyVisimapEntry_New e t) t = Ok true ∧
  AppendOnlyVisimapEntry_GetHiddenTupleCount (AppendOnlyVisimapEntry_New e t) = 0 ∧
  (AppendOnlyVisimapEntry_CoversTuple e' t = true ↔
     segmentFileNum e' = AOTupleIdGet_segmentFileNum t ∧
     firstRowNum e' = AppendOnlyVisimapEntry_GetFirstRowNum t).
Proof.
  intros Ht Hbuf Hinv'. destruct (New_inv e t Ht Hbuf) as (Hinv & Hcov & Hhid).
  split_and!; [done|done|by rewrite IsVisible_spec|by rewrite hidden_num, Hhid|].
  apply covers_spec in Hcov as [_ Hcov]; [|done]. rewrite covers_spec by done.
  pose proof (inv_aligned _ Hinv') as Ha'. pose proof (inv_aligned _ Hinv) as Ha.
  simpl in Ha. unfold offset_of in *. simpl in Hcov.
  unfold APPENDONLY_VISIMAP_MAX_RANGE in *.
  pose proof (Z.div_mod (firstRowNum e') 32768 ltac:(lia)).
  pose proof (Z.div_mod (AppendOnlyVisimapEntry_GetFirstRowNum t) 32768 ltac:(lia)).
  split; [intros [? ?]; split; [done|lia]|intros [? ?]; split; [done|lia]].
Qed.

