(* ===== verification/Gdd.v ===== *)
(** * The global deadlock detector ([utils/gdd/gdddetector.c], [gdddetectorpriv.h])

    The detector keeps one wait-for graph per segment.  Vertices, edges, graphs and degree
    counters are heap objects that refer to each other by pointers: an edge is in the out list of
    its source and in the in list of its target, every vertex points to the counters of its id,
    which the vertices of that id on all segments share.  A pointer is an index into the list
    that holds the objects of its kind; allocation appends to it. *)
From S2P Require Import Prelude.

(** ** Data *)

Record GddStat := mkGddStat { st_id : Z; indeg : Z; outdeg : Z }.

(** [length] is the length of [pairs]; a pair is a key and a pointer. *)
Record GddMap := mkGddMap { capacity : Z; pairs : list (Z * nat) }.

Record GddEdge := mkGddEdge { solid : bool; from : nat; to : nat }.

Record GddVert := mkGddVert {
  v_id : Z;
  v_global : option nat;
  edgesIn : list nat;
  edgesOut : list nat;
}.

Record GddGraph := mkGddGraph { g_id : Z; g_verts : GddMap }.

Record GddCtx := mkGddCtx {
  topstat : GddStat;
  globals : GddMap;
  graphs : GddMap;
  h_stats : list GddStat;
  h_verts : list GddVert;
  h_edges : list GddEdge;
  h_graphs : list GddGraph;
}.

(** Dereferencing; the code follows valid pointers only. *)
Definition vert_at (c : GddCtx) (p : nat) : GddVert := default (mkGddVert 0 None [] []) (h_verts c !! p).
Definition edge_at (c : GddCtx) (p : nat) : GddEdge := default (mkGddEdge false 0 0) (h_edges c !! p).
Definition stat_at (c : GddCtx) (p : nat) : GddStat := default (mkGddStat 0 0 0) (h_stats c !! p).
Definition graph_at (c : GddCtx) (p : nat) : GddGraph :=
  default (mkGddGraph 0 (mkGddMap 0 [])) (h_graphs c !! p).

(** Assignments through a pointer. *)
Definition set_vert (c : GddCtx) (p : nat) (f : GddVert → GddVert) : GddCtx :=
  mkGddCtx (topstat c) (globals c) (graphs c) (h_stats c) (alter f p (h_verts c)) (h_edges c)
    (h_graphs c).

Definition set_stat (c : GddCtx) (p : nat) (f : GddStat → GddStat) : GddCtx :=
  mkGddCtx (topstat c) (globals c) (graphs c) (alter f p (h_stats c)) (h_verts c) (h_edges c)
    (h_graphs c).

Definition set_graph (c : GddCtx) (p : nat) (f : GddGraph → GddGraph) : GddCtx :=
  mkGddCtx (topstat c) (globals c) (graphs c) (h_stats c) (h_verts c) (h_edges c)
    (alter f p (h_graphs c)).

Definition set_topstat (c : GddCtx) (f : GddStat → GddStat) : GddCtx :=
  mkGddCtx (f (topstat c)) (globals c) (graphs c) (h_stats c) (h_verts c) (h_edges c) (h_graphs c).

Definition add_indeg (d : Z) (s : GddStat) : GddStat := mkGddStat (st_id s) (indeg s + d) (outdeg s).
Definition add_outdeg (d : Z) (s : GddStat) : GddStat := mkGddStat (st_id s) (indeg s) (outdeg s + d).

(** ** Maps *)

Definition gddMapInit : GddMap := mkGddMap 4 [].

Definition gddMapEnsureCapacity (m : GddMap) (cap : Z) : GddMap :=
  if cap <=? capacity m then m else mkGddMap (Z.shiftl cap 1) (pairs m).

Fixpoint find_pair (ps : list (Z * nat)) (key : Z) : option (Z * nat) :=
  match ps with
  | [] => None
  | p :: ps => if fst p =? key then Some p else find_pair ps key
  end.

Definition gddMapGetPair (m : GddMap) (key : Z) : option (Z * nat) := find_pair (pairs m) key.

Definition gddMapGet (m : GddMap) (key : Z) : option nat := snd <$> gddMapGetPair m key.

Definition gddMapSetUnsafe (m : GddMap) (key : Z) (ptr : nat) : GddMap :=
  let m := gddMapEnsureCapacity m (Z.of_nat (length (pairs m)) + 1) in
  mkGddMap (capacity m) (pairs m ++ [(key, ptr)]).

(** [pairs[pos--] = pairs[--length]] *)
Definition gdd_map_iter_delete (m : GddMap) (pos : nat) : GddMap :=
  let len := (length (pairs m) - 1)%nat in
  mkGddMap (capacity m) (take len (<[pos := default (0, 0%nat) (pairs m !! len)]> (pairs m))).

(** ** Statistics, vertices, graphs *)

Definition gddStatInit (vid : Z) : GddStat := mkGddStat vid 0 0.

Definition gddStatNew (c : GddCtx) (vid : Z) : nat * GddCtx :=
  (length (h_stats c),
   mkGddCtx (topstat c) (globals c) (graphs c) (h_stats c ++ [gddStatInit vid]) (h_verts c)
     (h_edges c) (h_graphs c)).

Definition gddVertNew (c : GddCtx) (id : Z) : nat * GddCtx :=
  (length (h_verts c),
   mkGddCtx (topstat c) (globals c) (graphs c) (h_stats c) (h_verts c ++ [mkGddVert id None [] []])
     (h_edges c) (h_graphs c)).

Definition gddGraphNew (c : GddCtx) (id : Z) : nat * GddCtx :=
  (length (h_graphs c),
   mkGddCtx (topstat c) (globals c) (graphs c) (h_stats c) (h_verts c) (h_edges c)
     (h_graphs c ++ [mkGddGraph id gddMapInit])).

Definition gddEdgeNew (c : GddCtx) (vfrom vto : nat) (solid : bool) : nat * GddCtx :=
  (length (h_edges c),
   mkGddCtx (topstat c) (globals c) (graphs c) (h_stats c) (h_verts c)
     (h_edges c ++ [mkGddEdge solid vfrom vto]) (h_graphs c)).

Definition gddCtxGetGraph (c : GddCtx) (segid : Z) : nat * GddCtx :=
  match gddMapGet (graphs c) segid with
  | Some g => (g, c)
  | None =>
      let '(g, c) := gddGraphNew c segid in
      (g, mkGddCtx (topstat c) (globals c) (gddMapSetUnsafe (graphs c) segid g) (h_stats c)
            (h_verts c) (h_edges c) (h_graphs c))
  end.

Definition gddCtxGetGlobalStat (c : GddCtx) (vid : Z) : nat * GddCtx :=
  match gddMapGet (globals c) vid with
  | Some s => (s, c)
  | None =>
      let '(s, c) := gddStatNew c vid in
      (s, mkGddCtx (topstat c) (gddMapSetUnsafe (globals c) vid s) (graphs c) (h_stats c)
            (h_verts c) (h_edges c) (h_graphs c))
  end.

Definition gddGraphGetVert (c : GddCtx) (graph : nat) (vid : Z) : nat * GddCtx :=
  match gddMapGet (g_verts (graph_at c graph)) vid with
  | Some v => (v, c)
  | None =>
      let '(v, c) := gddVertNew c vid in
      (v, set_graph c graph (λ g, mkGddGraph (g_id g) (gddMapSetUnsafe (g_verts g) vid v)))
  end.

Definition gddGraphMakeEdge (c : GddCtx) (graph : nat) (vid_from vid_to : Z) (solid : bool)
    : nat * GddCtx :=
  let '(vfrom, c) := gddGraphGetVert c graph vid_from in
  let '(vto, c) := gddGraphGetVert c graph vid_to in
  gddEdgeNew c vfrom vto solid.

(** The second pointer bound, [topstat], is the context's for every vertex. *)
Definition gddVertBindStats (c : GddCtx) (v : nat) (global : nat) : GddCtx :=
  set_vert c v (λ v, mkGddVert (v_id v) (Some global) (edgesIn v) (edgesOut v)).

Definition gddVertGetInDegree (c : GddCtx) (v : nat) : nat := length (edgesIn (vert_at c v)).
Definition gddVertGetOutDegree (c : GddCtx) (v : nat) : nat := length (edgesOut (vert_at c v)).

(** ** Edges *)

(** An update of the counters a vertex points to. *)
Definition on_global (c : GddCtx) (v : nat) (f : GddStat → GddStat) : GddCtx :=
  match v_global (vert_at c v) with None => c | Some s => set_stat c s f end.

Definition gddEdgeLink (c : GddCtx) (e : nat) : GddCtx :=
  let f := from (edge_at c e) in
  let t := to (edge_at c e) in
  let c := set_topstat c (add_outdeg 1) in
  let c := set_topstat c (add_indeg 1) in
  let c := on_global c f (add_outdeg 1) in
  let c := on_global c t (add_indeg 1) in
  let c := set_vert c f (λ v, mkGddVert (v_id v) (v_global v) (edgesIn v) (edgesOut v ++ [e])) in
  set_vert c t (λ v, mkGddVert (v_id v) (v_global v) (edgesIn v ++ [e]) (edgesOut v)).

(** [list_delete_ptr]: removes the first occurrence. *)
Fixpoint list_delete_ptr (l : list nat) (x : nat) : list nat :=
  match l with
  | [] => []
  | y :: l => if (y =? x)%nat then l else y :: list_delete_ptr l x
  end.

(** Deletion from an edge list at the iterator's position, or with a scan. *)
Definition delete_edge (l : list nat) (e : nat) (iter : option nat) : list nat :=
  match iter with Some pos => delete pos l | None => list_delete_ptr l e end.

Definition gddEdgeUnlinkFrom (c : GddCtx) (e : nat) (fromiter : option nat) : GddCtx :=
  let f := from (edge_at c e) in
  let c := set_topstat c (add_outdeg (-1)) in
  let c := on_global c f (add_outdeg (-1)) in
  set_vert c f (λ v, mkGddVert (v_id v) (v_global v) (edgesIn v) (delete_edge (edgesOut v) e fromiter)).

Definition gddEdgeUnlinkTo (c : GddCtx) (e : nat) (toiter : option nat) : GddCtx :=
  let t := to (edge_at c e) in
  let c := set_topstat c (add_indeg (-1)) in
  let c := on_global c t (add_indeg (-1)) in
  set_vert c t (λ v, mkGddVert (v_id v) (v_global v) (delete_edge (edgesIn v) e toiter) (edgesOut v)).

Definition gddEdgeUnlink (c : GddCtx) (e : nat) (fromiter toiter : option nat) : GddCtx :=
  gddEdgeUnlinkTo (gddEdgeUnlinkFrom c e fromiter) e toiter.

(** ** Reduction *)

(** The loop over the in edges from position [pos] on, with [n] iterations left; a deletion
    leaves the position where it is.  [skip] are the edges the loop leaves alone. *)
Fixpoint unlink_in_edges (n pos : nat) (skip : nat → bool) (c : GddCtx) (v : nat) (dirty : bool)
    : bool * GddCtx :=
  match n with
  | O => (dirty, c)
  | S n =>
      match edgesIn (vert_at c v) !! pos with
      | None => (dirty, c)
      | Some e =>
          if skip e then unlink_in_edges n (S pos) skip c v dirty
          else unlink_in_edges n pos skip (gddEdgeUnlink c e None (Some pos)) v true
      end
  end.

Fixpoint unlink_out_edges (n pos : nat) (c : GddCtx) (v : nat) (dirty : bool) : bool * GddCtx :=
  match n with
  | O => (dirty, c)
  | S n =>
      match edgesOut (vert_at c v) !! pos with
      | None => (dirty, c)
      | Some e => unlink_out_edges n pos (gddEdgeUnlink c e (Some pos) None) v true
      end
  end.

Definition gddVertUnlinkAll (c : GddCtx) (v : nat) : bool * GddCtx :=
  let '(dirty, c) := unlink_in_edges (gddVertGetInDegree c v) 0 (λ _, false) c v false in
  unlink_out_edges (gddVertGetOutDegree c v) 0 c v dirty.

Definition gddVertReduce (c : GddCtx) (v : nat) : bool * GddCtx :=
  let global := match v_global (vert_at c v) with
                | Some s => stat_at c s | None => mkGddStat 0 0 0 end in
  if (indeg global =? 0) || (outdeg global =? 0) then gddVertUnlinkAll c v
  else if (gddVertGetOutDegree c v =? 0)%nat then
    unlink_in_edges (gddVertGetInDegree c v) 0 (λ e, solid (edge_at c e)) c v false
  else (false, c).

(** The vertices of a graph from position [pos] on, [n] at most. *)
Fixpoint reduce_verts (n pos : nat) (c : GddCtx) (graph : nat) (dirty : bool) : bool * GddCtx :=
  match n with
  | O => (dirty, c)
  | S n =>
      match pairs (g_verts (graph_at c graph)) !! pos with
      | None => (dirty, c)
      | Some (_, v) =>
          let '(d, c) := gddVertReduce c v in
          let dirty := if d then true else dirty in
          if (gddVertGetInDegree c v =? 0)%nat && (gddVertGetOutDegree c v =? 0)%nat then
            reduce_verts n pos
              (set_graph c graph (λ g, mkGddGraph (g_id g) (gdd_map_iter_delete (g_verts g) pos)))
              graph dirty
          else reduce_verts n (S pos) c graph dirty
      end
  end.

(** One round of the [while] loop: all vertices of the given graphs. *)
Fixpoint reduce_graphs (gs : list (Z * nat)) (c : GddCtx) (dirty : bool) : bool * GddCtx :=
  match gs with
  | [] => (dirty, c)
  | (_, g) :: gs =>
      let '(dirty, c) := reduce_verts (length (pairs (g_verts (graph_at c g)))) 0 c g dirty in
      reduce_graphs gs c dirty
  end.

(** [while (dirty)]; [None] when the fuel runs out. *)
Fixpoint reduce_loop (fuel : nat) (c : GddCtx) : option GddCtx :=
  match fuel with
  | O => None
  | S fuel =>
      let '(dirty, c) := reduce_graphs (pairs (graphs c)) c false in
      if dirty then reduce_loop fuel c else Some c
  end.

(** Every round that goes on removes an edge, so one round more than there are edges is enough. *)
Definition GddCtxReduce (c : GddCtx) : option GddCtx := reduce_loop (S (length (h_edges c))) c.

(** ** Breaking deadlocks *)

Definition GddCtxNew : GddCtx := mkGddCtx (gddStatInit 0) gddMapInit gddMapInit [] [] [] [].

Definition GddCtxAddEdge (c : GddCtx) (segid vid_from vid_to : Z) (solid : bool) : nat * GddCtx :=
  let '(graph, c) := gddCtxGetGraph c segid in
  let '(edge, c) := gddGraphMakeEdge c graph vid_from vid_to solid in
  let '(global, c) := gddCtxGetGlobalStat c vid_from in
  let c := gddVertBindStats c (from (edge_at c edge)) global in
  let '(global, c) := gddCtxGetGlobalStat c vid_to in
  let c := gddVertBindStats c (to (edge_at c edge)) global in
  (edge, gddEdgeLink c edge).

Definition GddCtxEmpty (c : GddCtx) : bool := indeg (topstat c) =? 0.

Definition max_vid_step (c : GddCtx) (maxvid : Z) (p : Z * nat) : Z :=
  if negb ((gddVertGetInDegree c (snd p) =? 0)%nat) || negb ((gddVertGetOutDegree c (snd p) =? 0)%nat)
  then Z.max maxvid (v_id (vert_at c (snd p))) else maxvid.

Definition gddCtxGetMaxVid (c : GddCtx) : Z :=
  foldl (λ m g, foldl (max_vid_step c) m (pairs (g_verts (graph_at c (snd g))))) 0 (pairs (graphs c)).

(** The search of [gddGraphRemoveVid] over the pairs [ps] that start at position [pos]. *)
Fixpoint remove_vid_from (ps : list (Z * nat)) (pos : nat) (c : GddCtx) (graph : nat) (vid : Z) : GddCtx :=
  match ps with
  | [] => c
  | (_, v) :: ps =>
      if v_id (vert_at c v) =? vid then
        let c := snd (gddVertUnlinkAll c v) in
        set_graph c graph (λ g, mkGddGraph (g_id g) (gdd_map_iter_delete (g_verts g) pos))
      else remove_vid_from ps (S pos) c graph vid
  end.

Definition gddGraphRemoveVid (c : GddCtx) (graph : nat) (vid : Z) : GddCtx :=
  remove_vid_from (pairs (g_verts (graph_at c graph))) 0 c graph vid.

Definition gddCtxRemoveVid (c : GddCtx) (vid : Z) : GddCtx :=
  foldl (λ c g, gddGraphRemoveVid c (snd g) vid) c (pairs (graphs c)).

(** [while (!GddCtxEmpty(ctx))]; [None] when the fuel runs out. *)
Fixpoint break_loop (fuel : nat) (c : GddCtx) (vids : list Z) : option (list Z * GddCtx) :=
  if GddCtxEmpty c then Some (vids, c)
  else match fuel with
  | O => None
  | S fuel =>
      let maxvid := gddCtxGetMaxVid c in
      match GddCtxReduce (gddCtxRemoveVid c maxvid) with
      | None => None
      | Some c => break_loop fuel c (vids ++ [maxvid])
      end
  end.

Definition GddCtxBreakDeadLock (c : GddCtx) : option (list Z * GddCtx) :=
  break_loop (length (h_edges c)) c [].
