(* ===== verification/GddFacts.v ===== *)
(** * Correctness of the global deadlock detector

    The invariant of the heap of [Gdd], the effect of every operation on the set of linked edges,
    and the theorems on reduction and deadlock breaking. *)
From S2P Require Import Prelude Gdd.

(** ** Views of the heap *)

Definition efrom (c : GddCtx) (e : nat) : nat := from (edge_at c e).
Definition eto (c : GddCtx) (e : nat) : nat := to (edge_at c e).
Definition esolid (c : GddCtx) (e : nat) : bool := solid (edge_at c e).
Definition outs (c : GddCtx) (v : nat) : list nat := edgesOut (vert_at c v).
Definition ins (c : GddCtx) (v : nat) : list nat := edgesIn (vert_at c v).
Definition vid (c : GddCtx) (v : nat) : Z := v_id (vert_at c v).
Definition gpairs (c : GddCtx) (g : nat) : list (Z * nat) := pairs (g_verts (graph_at c g)).

(** The edge is in the graph: in the out list of its source. *)
Definition linked (c : GddCtx) (e : nat) : Prop := e ∈ outs c (efrom c e).

#[global] Instance linked_dec c e : Decision (linked c e).
Proof. unfold linked. apply _. Defined.

Definition is_graph (c : GddCtx) (g : nat) : Prop := g ∈ (pairs (graphs c)).*2.
Definition in_graph (c : GddCtx) (g v : nat) : Prop := v ∈ (gpairs c g).*2.

(** The linked edges that satisfy [P], counted. *)
Definition cnt (c : GddCtx) (P : nat → bool) : nat :=
  length (filter (λ e, linked c e ∧ P e = true) (seq 0 (length (h_edges c)))).

Definition deg_out (c : GddCtx) (k : Z) : nat := cnt c (λ e, vid c (efrom c e) =? k).
Definition deg_in (c : GddCtx) (k : Z) : nat := cnt c (λ e, vid c (eto c e) =? k).
Definition total (c : GddCtx) : nat := cnt c (λ _, true).

Record ctx_inv (c : GddCtx) : Prop := {
  ci_out : ∀ v e, e ∈ outs c v → efrom c e = v ∧ (e < length (h_edges c))%nat;
  ci_in : ∀ v e, e ∈ ins c v → eto c e = v;
  ci_link : ∀ e, e ∈ ins c (eto c e) ↔ linked c e;
  ci_nodup : ∀ v, NoDup (outs c v) ∧ NoDup (ins c v);
  ci_pair : ∀ g k v, is_graph c g → (k, v) ∈ gpairs c g →
    vid c v = k ∧ ∃ s, v_global (vert_at c v) = Some s ∧ gddMapGet (globals c) k = Some s;
  ci_range : ∀ g, is_graph c g → (g < length (h_graphs c))%nat ∧
    ∀ v, in_graph c g v → (v < length (h_verts c))%nat;
  ci_keys : ∀ g, is_graph c g → NoDup (gpairs c g).*1;
  ci_ptrs : ∀ g, is_graph c g → NoDup (gpairs c g).*2;
  ci_home : ∀ e, linked c e →
    ∃ g, is_graph c g ∧ in_graph c g (efrom c e) ∧ in_graph c g (eto c e);
  ci_stat_inj : ∀ k k' s,
    gddMapGet (globals c) k = Some s → gddMapGet (globals c) k' = Some s → k = k';
  ci_stat : ∀ k s, gddMapGet (globals c) k = Some s →
    (s < length (h_stats c))%nat ∧ outdeg (stat_at c s) = Z.of_nat (deg_out c k) ∧
    indeg (stat_at c s) = Z.of_nat (deg_in c k);
  ci_top : outdeg (topstat c) = Z.of_nat (total c) ∧ indeg (topstat c) = Z.of_nat (total c);
}.

(** [c'] is [c] with some edges unlinked and some vertices taken out of the maps. *)
Record restricts (c c' : GddCtx) : Prop := {
  rs_edges : h_edges c' = h_edges c;
  rs_graphs : graphs c' = graphs c;
  rs_globals : globals c' = globals c;
  rs_vid : ∀ v, vid c' v = vid c v;
  rs_linked : ∀ e, linked c' e → linked c e;
  rs_shrink : ∀ g v, in_graph c' g v → in_graph c g v;
}.

Section Lists.
Implicit Types l : list nat.

Lemma filter_length_remove {A} (Q : A → Prop) `{∀ x, Decision (Q x)} `{EqDecision A} (l : list A) x :
  NoDup l → x ∈ l →
  length (filter Q l) = (length (filter (λ y, Q y ∧ y ≠ x) l) + if decide (Q x) then 1 else 0)%nat.
Proof.
  intros Hnd. induction Hnd as [|y l Hy Hnd IH]; intros Hx; [by apply elem_of_nil in Hx|].
  rewrite !filter_cons. apply elem_of_cons in Hx as [->|Hx].
  - rewrite (decide_False (P := Q y ∧ y ≠ y)) by naive_solver.
    rewrite (filter_ext_elem (λ z, Q z ∧ z ≠ y) Q l); [by case_decide; simpl; lia|].
    intros z Hz. split; [naive_solver|]. intros HQ. split; [done|]. by intros ->.
  - assert (x ≠ y) by (by intros ->). specialize (IH Hx).
    destruct (decide (Q y)), (decide (Q y ∧ y ≠ x)); simpl; (lia || naive_solver).
Qed.

Lemma delete_ptr_filter l x : NoDup l → list_delete_ptr l x = filter (λ y, y ≠ x) l.
Proof.
  induction 1 as [|y l Hy Hnd IH]; [done|]. simpl list_delete_ptr. rewrite filter_cons.
  destruct (Nat.eqb_spec y x) as [->|Hne].
  - rewrite decide_False by tauto. symmetry. apply filter_all. by intros z Hz ->.
  - by rewrite decide_True, IH.
Qed.

Lemma delete_filter l i x : NoDup l → l !! i = Some x → delete i l = filter (λ y, y ≠ x) l.
Proof.
  intros Hnd. revert i. induction Hnd as [|y l Hy Hnd IH]; intros i Hi; [done|].
  rewrite filter_cons. destruct i as [|i]; simpl in *.
  - injection Hi as ->. rewrite decide_False by tauto. symmetry. apply filter_all. by intros z Hz ->.
  - rewrite decide_True; [by rewrite (IH i)|]. intros ->. apply Hy. by eapply list_elem_of_lookup_2.
Qed.

Lemma delete_edge_filter l e iter :
  NoDup l → (∀ pos, iter = Some pos → l !! pos = Some e) →
  delete_edge l e iter = filter (λ y, y ≠ e) l.
Proof.
  intros Hnd Hi. destruct iter as [pos|]; simpl; [by apply delete_filter, Hi|].
  by apply delete_ptr_filter.
Qed.

Lemma filter_ne_id l e : e ∉ l → filter (λ y, y ≠ e) l = l.
Proof. intros He. apply filter_all. by intros x Hx ->. Qed.

(** The array after the last element has been moved over the one at [pos]. *)
Lemma map_delete_spec (m : GddMap) pos x :
  pairs m !! pos = Some x →
  let ps := pairs (gdd_map_iter_delete m pos) in
  take pos ps = take pos (pairs m) ∧ drop pos ps ≡ₚ drop (S pos) (pairs m) ∧
  length ps = (length (pairs m) - 1)%nat.
Proof.
  intros Hx. simpl. set (l := pairs m) in *. pose proof (lookup_lt_Some _ _ _ Hx) as Hlt.
  clearbody l. destruct l as [|y l0 _] using rev_ind; [simpl in Hlt; lia|].
  rewrite length_app in *. cbn [length] in *.
  replace (length l0 + 1 - 1)%nat with (length l0) by lia. rewrite lookup_last. cbn [default].
  destruct (decide (pos < length l0)%nat) as [Hpos|Hpos].
  - rewrite insert_app_l, take_app_length' by (rewrite ?length_insert; lia).
    rewrite length_insert. split_and!; [| |lia].
    + rewrite take_app_le by lia. by apply take_insert_ge.
    + rewrite drop_app_le by lia. rewrite (insert_take_drop l0) by lia.
      rewrite drop_app_length' by (rewrite length_take; lia). by apply Permutation_cons_append.
  - assert (pos = length l0) as -> by lia. rewrite insert_app_r_alt, Nat.sub_diag by lia. simpl.
    rewrite take_app_length'; [|done]. split_and!; [by rewrite firstn_all| |lia].
    rewrite drop_ge, drop_ge; [done| |lia]. rewrite length_app; simpl; lia.
Qed.
End Lists.

(** ** Counting *)
Section Counting.
Implicit Types c : GddCtx.

(** Counting depends on the linked edges only. *)
Lemma cnt_ext c c' P P' :
  h_edges c' = h_edges c → (∀ e, (e < length (h_edges c))%nat →
    linked c' e ∧ P' e = true ↔ linked c e ∧ P e = true) →
  cnt c' P' = cnt c P.
Proof.
  intros He H. unfold cnt. rewrite He. f_equal. apply filter_ext_elem.
  intros e Hin%elem_of_seq. apply H. lia.
Qed.

Lemma cnt_remove c c' P e :
  h_edges c' = h_edges c → (∀ x, linked c' x ↔ linked c x ∧ x ≠ e) →
  linked c e → (e < length (h_edges c))%nat →
  cnt c P = (cnt c' P + if P e then 1 else 0)%nat.
Proof.
  intros He Hl Hle Hlt. unfold cnt. rewrite He, (filter_length_remove _ _ e);
    [|apply NoDup_seq|apply elem_of_seq; lia].
  f_equal; [|by destruct (P e); case_decide; naive_solver].
  f_equal. apply list_filter_iff. intros x. rewrite Hl. naive_solver.
Qed.

Lemma cnt_zero c P :
  cnt c P = 0%nat ↔ ∀ e, linked c e → (e < length (h_edges c))%nat → P e = false.
Proof.
  unfold cnt. split.
  - intros H e Hl Hlt. destruct (P e) eqn:E; [|done]. apply nil_length_inv in H.
    exfalso. eapply (filter_nil_not_elem_of _ _ e); [exact H|done|]. apply elem_of_seq. lia.
  - intros H. rewrite filter_none; [done|]. intros e Hin%elem_of_seq [Hl HP].
    rewrite H in HP; [done|done|lia].
Qed.

Lemma cnt_pos c P : cnt c P ≠ 0%nat → ∃ e, linked c e ∧ P e = true.
Proof.
  unfold cnt. destruct (filter _ _) as [|e l] eqn:E; [done|]. intros _. exists e.
  assert (e ∈ e :: l) as Hin by left. rewrite <- E in Hin. by apply list_elem_of_filter in Hin as [? _].
Qed.

Lemma cnt_lt c c' P :
  h_edges c' = h_edges c → (∀ x, linked c' x → linked c x) →
  (∃ x, linked c x ∧ P x = true ∧ (x < length (h_edges c))%nat ∧ ¬ linked c' x) →
  (cnt c' P < cnt c P)%nat.
Proof.
  intros He Hsub (x & Hx & HP & Hlt & Hnx). unfold cnt. rewrite He.
  rewrite (filter_length_remove (λ e, linked c e ∧ P e = true) _ x);
    [|apply NoDup_seq|apply elem_of_seq; lia].
  rewrite decide_True by done.
  assert (∀ l, length (filter (λ e, linked c' e ∧ P e = true) l) ≤
               length (filter (λ e, (linked c e ∧ P e = true) ∧ e ≠ x) l))%nat as Hle;
    [|specialize (Hle (seq 0 (length (h_edges c)))); lia].
  intros l. induction l as [|y l IH]; [done|]. rewrite !filter_cons.
  destruct (decide (linked c' y ∧ P y = true)) as [[Hy HPy]|].
  - rewrite decide_True; [simpl; lia|]. split; [by split; [apply Hsub|]|]. by intros ->.
  - case_decide; simpl; lia.
Qed.

Lemma cnt_le_edges c P : (cnt c P ≤ length (h_edges c))%nat.
Proof.
  unfold cnt. etransitivity; [apply length_filter|]. by rewrite length_seq.
Qed.
End Counting.

(** ** Unlinking an edge *)
Section Unlink.
Implicit Types c : GddCtx.

Lemma vert_at_set c p f q :
  (p < length (h_verts c))%nat →
  vert_at (set_vert c p f) q = if decide (p = q) then f (vert_at c p) else vert_at c q.
Proof.
  intros Hp. unfold vert_at, set_vert; simpl. case_decide as E.
  - subst q. rewrite list_lookup_alter_eq. destruct (h_verts c !! p) eqn:El; [done|].
    apply lookup_ge_None in El. lia.
  - by rewrite list_lookup_alter_ne.
Qed.

Lemma stat_alter (l : list GddStat) s f q d :
  (s < length l)%nat →
  default d (alter f s l !! q) = if decide (s = q) then f (default d (l !! s)) else default d (l !! q).
Proof.
  intros Hs. case_decide as E.
  - subst q. rewrite list_lookup_alter_eq. destruct (l !! s) eqn:El; [done|].
    apply lookup_ge_None in El. lia.
  - by rewrite list_lookup_alter_ne.
Qed.

Lemma linked_bounds c e :
  ctx_inv c → linked c e →
  (e < length (h_edges c))%nat ∧ (efrom c e < length (h_verts c))%nat ∧
  (eto c e < length (h_verts c))%nat.
Proof.
  intros Hinv Hl. split; [by destruct (ci_out c Hinv _ _ Hl)|].
  pose proof (proj2 (ci_link c Hinv e) Hl) as Hi. unfold linked, outs, ins, vert_at in *. split.
  - destruct (h_verts c !! efrom c e) eqn:E; [by apply lookup_lt_Some in E|].
    by apply elem_of_nil in Hl.
  - destruct (h_verts c !! eto c e) eqn:E; [by apply lookup_lt_Some in E|]. by apply elem_of_nil in Hi.
Qed.

(** The counters of the endpoints of a linked edge. *)
Lemma linked_stats c e :
  ctx_inv c → linked c e →
  (∃ s, v_global (vert_at c (efrom c e)) = Some s ∧ gddMapGet (globals c) (vid c (efrom c e)) = Some s) ∧
  (∃ s, v_global (vert_at c (eto c e)) = Some s ∧ gddMapGet (globals c) (vid c (eto c e)) = Some s).
Proof.
  intros Hinv Hl. destruct (ci_home c Hinv e Hl) as (g & Hg & Hf & Ht). unfold in_graph in *.
  apply list_elem_of_fmap in Hf as ([k v] & -> & Hf), Ht as ([k' v'] & -> & Ht). simpl in *.
  destruct (ci_pair c Hinv g k v Hg Hf) as [-> ?], (ci_pair c Hinv g k' v' Hg Ht) as [-> ?]. done.
Qed.

Definition del_out (e : nat) (iter : option nat) (v : GddVert) : GddVert :=
  mkGddVert (v_id v) (v_global v) (edgesIn v) (delete_edge (edgesOut v) e iter).
Definition del_in (e : nat) (iter : option nat) (v : GddVert) : GddVert :=
  mkGddVert (v_id v) (v_global v) (delete_edge (edgesIn v) e iter) (edgesOut v).

Lemma Unlink_eq c e fi ti sf st :
  (efrom c e < length (h_verts c))%nat →
  v_global (vert_at c (efrom c e)) = Some sf → v_global (vert_at c (eto c e)) = Some st →
  gddEdgeUnlink c e fi ti =
    mkGddCtx (add_indeg (-1) (add_outdeg (-1) (topstat c))) (globals c) (graphs c)
      (alter (add_indeg (-1)) st (alter (add_outdeg (-1)) sf (h_stats c)))
      (alter (del_in e ti) (eto c e) (alter (del_out e fi) (efrom c e) (h_verts c)))
      (h_edges c) (h_graphs c).
Proof.
  intros Hb Hf Ht. unfold gddEdgeUnlink, gddEdgeUnlinkTo, gddEdgeUnlinkFrom, on_global.
  fold (efrom c e). change (vert_at (set_topstat c (add_outdeg (-1))) (efrom c e)) with
    (vert_at c (efrom c e)). rewrite Hf.
  set (c1 := set_vert (set_stat (set_topstat c (add_outdeg (-1))) sf (add_outdeg (-1))) _ _).
  change (to (edge_at c1 e)) with (eto c e).
  change (vert_at (set_topstat c1 (add_indeg (-1))) (eto c e)) with (vert_at c1 (eto c e)).
  assert (v_global (vert_at c1 (eto c e)) = Some st) as ->; [|done].
  unfold c1. rewrite vert_at_set by done. by case_decide as E; [rewrite E|].
Qed.

(** Unlinking a linked edge takes exactly it away and keeps the invariant. *)
Lemma Unlink_spec c e fi ti :
  ctx_inv c → linked c e →
  (∀ pos, fi = Some pos → outs c (efrom c e) !! pos = Some e) →
  (∀ pos, ti = Some pos → ins c (eto c e) !! pos = Some e) →
  let c' := gddEdgeUnlink c e fi ti in
  ctx_inv c' ∧ restricts c c' ∧ h_graphs c' = h_graphs c ∧
  (∀ x, linked c' x ↔ linked c x ∧ x ≠ e) ∧
  (∀ v, ins c' v = filter (λ y, y ≠ e) (ins c v)) ∧
  (∀ v, outs c' v = filter (λ y, y ≠ e) (outs c v)).
Proof.
  intros Hinv Hl Hfi Hti. cbv zeta.
  destruct (linked_bounds c e Hinv Hl) as (Hbe & Hbf & Hbt).
  destruct (linked_stats c e Hinv Hl) as [(sf & Hsf & Hgf) (st & Hst & Hgt)].
  rewrite (Unlink_eq c e fi ti sf st Hbf Hsf Hst). set (c' := mkGddCtx _ _ _ _ _ _ _).
  assert (∀ v, vert_at c' v = mkGddVert (vid c v) (v_global (vert_at c v))
    (filter (λ y, y ≠ e) (ins c v)) (filter (λ y, y ≠ e) (outs c v))) as Hv.
  { intros v. pose proof (ci_nodup c Hinv v) as [Hno Hni].
    change (vert_at c' v) with
      (vert_at (set_vert (set_vert c (efrom c e) (del_out e fi)) (eto c e) (del_in e ti)) v).
    assert (v ≠ efrom c e → filter (λ y, y ≠ e) (outs c v) = outs c v) as Hfo.
    { intros Hne. apply filter_ne_id. intros Hin. by apply (ci_out c Hinv) in Hin as [<- _]. }
    assert (v ≠ eto c e → filter (λ y, y ≠ e) (ins c v) = ins c v) as Hfi'.
    { intros Hne. apply filter_ne_id. intros Hin. by apply (ci_in c Hinv) in Hin as <-. }
    assert (v = efrom c e → delete_edge (outs c v) e fi = filter (λ y, y ≠ e) (outs c v)) as Hdo
      by (intros ->; by apply delete_edge_filter).
    assert (v = eto c e → delete_edge (ins c v) e ti = filter (λ y, y ≠ e) (ins c v)) as Hdi
      by (intros ->; by apply delete_edge_filter).
    rewrite vert_at_set by (simpl; by rewrite length_alter). rewrite !vert_at_set by done.
    unfold vid, ins, outs, del_in, del_out in *.
    destruct (decide (eto c e = v)) as [Et|Et], (decide (efrom c e = v)) as [Ef|Ef];
      rewrite ?Et, ?Ef in *; simpl.
    - rewrite decide_True by done. simpl. by rewrite <- Hdo, <- Hdi.
    - rewrite decide_False by done. simpl. by rewrite <- Hdi, Hfo.
    - by rewrite <- Hdo, Hfi'.
    - rewrite Hfo, Hfi' by done. by destruct (vert_at c v). }
  assert (∀ v, outs c' v = filter (λ y, y ≠ e) (outs c v)) as Houts by (intros v; unfold outs at 1; by rewrite Hv).
  assert (∀ v, ins c' v = filter (λ y, y ≠ e) (ins c v)) as Hins by (intros v; unfold ins at 1; by rewrite Hv).
  assert (∀ v, vid c' v = vid c v) as Hvid by (intros v; unfold vid at 1; by rewrite Hv).
  assert (∀ x, linked c' x ↔ linked c x ∧ x ≠ e) as Hlink.
  { intros x. unfold linked. change (efrom c' x) with (efrom c x). rewrite Houts, list_elem_of_filter. tauto. }
  assert (∀ P, cnt c P = (cnt c' P + if P e then 1 else 0)%nat) as Hcnt
    by (intros P; by apply cnt_remove).
  split_and!; try done.
  - split.
    + intros v x. rewrite Houts, list_elem_of_filter. intros [_ Hx]. by apply (ci_out c Hinv).
    + intros v x. rewrite Hins, list_elem_of_filter. intros [_ Hx]. by apply (ci_in c Hinv).
    + intros x. rewrite Hlink. change (eto c' x) with (eto c x). rewrite Hins, list_elem_of_filter.
      rewrite (ci_link c Hinv). tauto.
    + intros v. rewrite Houts, Hins. split; apply NoDup_filter; apply (ci_nodup c Hinv).
    + intros g k v Hg Hin. rewrite Hvid, Hv. simpl. by apply (ci_pair c Hinv g).
    + intros g Hg. simpl. rewrite !length_alter. by apply (ci_range c Hinv).
    + apply (ci_keys c Hinv).
    + apply (ci_ptrs c Hinv).
    + intros x [Hx _]%Hlink. by apply (ci_home c Hinv).
    + apply (ci_stat_inj c Hinv).
    + intros k s Hk. change (globals c') with (globals c) in Hk.
      destruct (ci_stat c Hinv k s Hk) as (Hs & Ho & Hi).
      destruct (ci_stat c Hinv _ _ Hgf) as (Hbsf & _), (ci_stat c Hinv _ _ Hgt) as (Hbst & _).
      split; [simpl; by rewrite !length_alter|].
      assert (deg_out c k = deg_out c' k + if decide (sf = s) then 1 else 0)%nat as Hdo.
      { unfold deg_out at 1. rewrite Hcnt. f_equal.
        - symmetry. apply cnt_ext; [done|]. intros x _. change (efrom c' x) with (efrom c x). by rewrite Hvid.
        - destruct (Z.eqb_spec (vid c (efrom c e)) k) as [E|E], (decide (sf = s)) as [Es|Es]; try done.
          + destruct Es. rewrite E in Hgf. congruence.
          + subst sf. by destruct E; eapply (ci_stat_inj c Hinv). }
      assert (deg_in c k = deg_in c' k + if decide (st = s) then 1 else 0)%nat as Hdi.
      { unfold deg_in at 1. rewrite Hcnt. f_equal.
        - symmetry. apply cnt_ext; [done|]. intros x _. change (eto c' x) with (eto c x). by rewrite Hvid.
        - destruct (Z.eqb_spec (vid c (eto c e)) k) as [E|E], (decide (st = s)) as [Es|Es]; try done.
          + destruct Es. rewrite E in Hgt. congruence.
          + subst st. by destruct E; eapply (ci_stat_inj c Hinv). }
      unfold stat_at in *; simpl. rewrite stat_alter by (by rewrite length_alter).
      rewrite !stat_alter by done. revert Ho Hi Hdo Hdi.
      generalize (deg_out c' k), (deg_in c' k), (deg_out c k), (deg_in c k). clear.
      intros. repeat case_decide; subst; simpl in *; (lia || done).
    + destruct (ci_top c Hinv) as [Ho Hi]. simpl. pose proof (Hcnt (λ _, true)) as Ht.
      unfold total in *. simpl in Ht. lia.
  - split; try done. by intros x [? _]%Hlink.
Qed.
End Unlink.

(** ** Unlinking the edges of a vertex *)
Section UnlinkAll.
Implicit Types c : GddCtx.

Lemma restricts_refl c : restricts c c.
Proof. by split. Qed.

Lemma restricts_trans c1 c2 c3 : restricts c1 c2 → restricts c2 c3 → restricts c1 c3.
Proof.
  intros [] []. split; try congruence; naive_solver.
Qed.

Lemma restricts_static c c' e :
  restricts c c' → efrom c' e = efrom c e ∧ eto c' e = eto c e ∧ esolid c' e = esolid c e.
Proof. intros [He _]. unfold efrom, eto, esolid, edge_at. by rewrite He. Qed.

(** What removing the edges [D] from [c] gives. *)
Record removes (c c' : GddCtx) (D : nat → Prop) : Prop := {
  rm_inv : ctx_inv c';
  rm_restricts : restricts c c';
  rm_graphs : h_graphs c' = h_graphs c;
  rm_linked : ∀ x, linked c' x ↔ linked c x ∧ ¬ D x;
}.

Lemma removes_none c (D : nat → Prop) : ctx_inv c → (∀ x, linked c x → ¬ D x) → removes c c D.
Proof. intros Hinv HD. split; [done|by apply restricts_refl|done|]. naive_solver. Qed.

Lemma removes_ext c c' (D D' : nat → Prop) :
  (∀ x, D' x ↔ D x) → removes c c' D → removes c c' D'.
Proof. intros HD [? ? ? Hl]. split; [done..|]. intros x. by rewrite Hl, HD. Qed.

Lemma removes_trans c1 c2 c3 (D1 D2 D : nat → Prop) :
  removes c1 c2 D1 → removes c2 c3 D2 → (∀ x, linked c1 x → D x ↔ D1 x ∨ D2 x) → removes c1 c3 D.
Proof.
  intros H1 H2 HD. split; [apply H2| |by rewrite (rm_graphs _ _ _ H2), (rm_graphs _ _ _ H1)|].
  - eapply restricts_trans; [apply H1|apply H2].
  - intros x. rewrite (rm_linked _ _ _ H2), (rm_linked _ _ _ H1). naive_solver.
Qed.

Lemma ins_elem c v x : ctx_inv c → x ∈ ins c v ↔ linked c x ∧ eto c x = v.
Proof.
  intros Hinv. split.
  - intros Hx. pose proof (ci_in c Hinv v x Hx) as <-. split; [|done]. by apply (ci_link c Hinv).
  - intros [Hl <-]. by apply (ci_link c Hinv).
Qed.

Lemma outs_elem c v x : ctx_inv c → x ∈ outs c v ↔ linked c x ∧ efrom c x = v.
Proof.
  intros Hinv. split.
  - intros Hx. by destruct (ci_out c Hinv v x Hx) as [<- _].
  - by intros [Hl <-].
Qed.

Lemma Unlink_removes c e fi ti :
  ctx_inv c → linked c e →
  (∀ pos, fi = Some pos → outs c (efrom c e) !! pos = Some e) →
  (∀ pos, ti = Some pos → ins c (eto c e) !! pos = Some e) →
  removes c (gddEdgeUnlink c e fi ti) (λ x, x = e).
Proof. intros. destruct (Unlink_spec c e fi ti) as (? & ? & ? & ? & _); [done..|]. by split. Qed.

Lemma unlink_in_spec n pos skip c v dirty :
  ctx_inv c → (length (ins c v) ≤ pos + n)%nat →
  (∀ i x, (i < pos)%nat → ins c v !! i = Some x → skip x = true) →
  let '(d, c') := unlink_in_edges n pos skip c v dirty in
  removes c c' (λ x, eto c x = v ∧ skip x = false) ∧
  (d = true ↔ dirty = true ∨ ∃ x, linked c x ∧ eto c x = v ∧ skip x = false).
Proof.
  assert (∀ pos c dirty, ctx_inv c → (length (ins c v) ≤ pos)%nat →
    (∀ i x, (i < pos)%nat → ins c v !! i = Some x → skip x = true) →
    removes c c (λ x, eto c x = v ∧ skip x = false) ∧
    (dirty = true ↔ dirty = true ∨ ∃ x, linked c x ∧ eto c x = v ∧ skip x = false)) as Hend.
  { clear. intros pos c dirty Hinv Hlen Hskip.
    assert (∀ x, linked c x → eto c x = v → skip x = true) as Hall.
    { intros x Hl Ht. assert (x ∈ ins c v) as Hin by (by apply ins_elem).
      apply list_elem_of_lookup in Hin as [i Hi]. apply (Hskip i); [|done].
      apply lookup_lt_Some in Hi. lia. }
    split; [apply removes_none; [done|]|]; naive_solver congruence. }
  revert pos c dirty. induction n as [|n IH]; intros pos c dirty Hinv Hlen Hskip; simpl.
  { apply (Hend pos); [done|lia|done]. }
  fold (ins c v). destruct (ins c v !! pos) as [e|] eqn:He.
  2:{ apply (Hend pos); [done| |done]. by apply lookup_ge_None in He. }
  destruct (skip e) eqn:Es.
  - apply IH; [done|lia|]. intros i x Hi Hx. destruct (decide (i = pos)) as [->|]; [congruence|].
    apply (Hskip i); [lia|done].
  - assert (linked c e ∧ eto c e = v) as [Hl Ht]
      by (apply ins_elem; [done|]; by eapply list_elem_of_lookup_2).
    destruct (Unlink_spec c e None (Some pos)) as (Hinv' & Hr & Hg & Hlink & Hins & _);
      [done..|by intros ? [= <-]; rewrite Ht|].
    pose proof (Unlink_removes c e None (Some pos) Hinv Hl ltac:(done)
      ltac:(by intros ? [= <-]; rewrite Ht)) as Hrm.
    set (c1 := gddEdgeUnlink c e None (Some pos)) in *.
    assert (ins c1 v = delete pos (ins c v)) as Hd.
    { rewrite Hins. symmetry. apply delete_filter; [apply (ci_nodup c Hinv)|done]. }
    assert (pos < length (ins c v))%nat by (by eapply lookup_lt_Some).
    specialize (IH pos c1 true Hinv').
    destruct (unlink_in_edges n pos skip c1 v true) as [d c'].
    destruct IH as [Hrm' Hdirty].
    + rewrite Hd, length_delete by done. lia.
    + intros i x Hi. rewrite Hd, list_lookup_delete_lt by lia. by apply Hskip.
    + split; [|naive_solver]. eapply removes_trans; [exact Hrm|exact Hrm'|].
      intros x Hx. simpl. destruct (restricts_static c c1 x Hr) as (_ & -> & _). naive_solver.
Qed.

Lemma unlink_out_spec n c v dirty :
  ctx_inv c → (length (outs c v) ≤ n)%nat →
  let '(d, c') := unlink_out_edges n 0 c v dirty in
  removes c c' (λ x, efrom c x = v) ∧ (d = true ↔ dirty = true ∨ ∃ x, linked c x ∧ efrom c x = v).
Proof.
  assert (∀ c dirty, ctx_inv c → outs c v = [] →
    removes c c (λ x, efrom c x = v) ∧
    (dirty = true ↔ dirty = true ∨ ∃ x, linked c x ∧ efrom c x = v)) as Hend.
  { clear. intros c dirty Hinv Hnil. assert (∀ x, linked c x → efrom c x ≠ v) as Hno.
    { intros x Hl <-. assert (x ∈ outs c (efrom c x)) as Hx by exact Hl. rewrite Hnil in Hx.
      by apply elem_of_nil in Hx. }
    split; [by apply removes_none|]. naive_solver. }
  revert c dirty. induction n as [|n IH]; intros c dirty Hinv Hlen; simpl.
  { apply Hend; [done|]. apply nil_length_inv. lia. }
  fold (outs c v). destruct (outs c v) as [|e l] eqn:He; [by apply Hend|]. simpl.
  assert (linked c e ∧ efrom c e = v) as [Hl Hf]
    by (apply outs_elem; [done|]; rewrite He; left).
  destruct (Unlink_spec c e (Some 0%nat) None) as (Hinv' & Hr & Hg & Hlink & _ & Houts);
    [done..|by intros ? [= <-]; rewrite Hf, He|done|].
  pose proof (Unlink_removes c e (Some 0%nat) None Hinv Hl
    ltac:(by intros ? [= <-]; rewrite Hf, He) ltac:(done)) as Hrm.
  set (c1 := gddEdgeUnlink c e (Some 0%nat) None) in *.
  specialize (IH c1 true Hinv'). destruct (unlink_out_edges n 0 c1 v true) as [d c'].
  destruct IH as [Hrm' Hdirty].
  - rewrite Houts, He, <- (delete_filter (e :: l) 0 e); [simpl in *; lia| |done].
    rewrite <- He. apply (ci_nodup c Hinv).
  - split; [|naive_solver]. eapply removes_trans; [exact Hrm|exact Hrm'|].
    intros x Hx. simpl. destruct (restricts_static c c1 x Hr) as (-> & _). naive_solver.
Qed.

(** The edge has the vertex as an endpoint. *)
Definition touches (c : GddCtx) (v x : nat) : Prop := efrom c x = v ∨ eto c x = v.

Lemma UnlinkAll_spec c v :
  ctx_inv c →
  let '(d, c') := gddVertUnlinkAll c v in
  removes c c' (touches c v) ∧ (d = true ↔ ∃ x, linked c x ∧ touches c v x).
Proof.
  intros Hinv. unfold gddVertUnlinkAll.
  pose proof (unlink_in_spec (gddVertGetInDegree c v) 0 (λ _, false) c v false Hinv) as Hin.
  destruct (unlink_in_edges _ 0 (λ _, false) c v false) as [d1 c1].
  destruct Hin as [H1 Hd1]; [done|intros; lia|].
  pose proof (unlink_out_spec (gddVertGetOutDegree c1 v) c1 v d1 (rm_inv _ _ _ H1) ltac:(done)) as Hout.
  destruct (unlink_out_edges _ 0 c1 v d1) as [d2 c2]. destruct Hout as [H2 Hd2].
  assert (∀ x, efrom c1 x = efrom c x) as Hf
    by (intros x; by destruct (restricts_static c c1 x (rm_restricts _ _ _ H1)) as (-> & _)).
  split.
  - eapply removes_trans; [exact H1|exact H2|]. intros x Hx. unfold touches. simpl. rewrite Hf. naive_solver.
  - rewrite Hd2, Hd1. setoid_rewrite (rm_linked _ _ _ H1). setoid_rewrite Hf. unfold touches.
    split; [naive_solver|]. intros (x & Hx & Hv). destruct (decide (eto c x = v)) as [Ht|Ht].
    + left; right. by exists x.
    + right. exists x. destruct Hv; [|done]. split; [split; [done|]|done]. by intros [? _].
Qed.
End UnlinkAll.

(** ** Reduction *)

(** The edges the rules remove at vertex [v]: all of them when no edge of any segment leads to the
    id of [v], or none leads from it, and the dotted edges to [v] when no edge of its segment
    leads from it. *)
Definition dead (c : GddCtx) (v x : nat) : Prop :=
  (touches c v x ∧ ((∀ y, linked c y → vid c (eto c y) ≠ vid c v) ∨
                    (∀ y, linked c y → vid c (efrom c y) ≠ vid c v))) ∨
  (eto c x = v ∧ esolid c x = false ∧ ∀ y, linked c y → efrom c y ≠ v).

(** A set of edges none of which a rule removes: the id of the source of an edge has an incoming
    edge, the id of its target an outgoing one, and if the edge is dotted there is one from its
    target vertex itself. *)
Definition irreducible (c : GddCtx) (S : nat → Prop) : Prop :=
  ∀ x, S x →
    (∃ y, S y ∧ vid c (eto c y) = vid c (efrom c x)) ∧
    (∃ y, S y ∧ vid c (efrom c y) = vid c (eto c x)) ∧
    (esolid c x = false → ∃ y, S y ∧ efrom c y = eto c x).

Section Reduce.
Implicit Types c : GddCtx.

Lemma irreducible_not_dead c (S : nat → Prop) v x :
  irreducible c S → (∀ y, S y → linked c y) → S x → ¬ dead c v x.
Proof.
  intros Hirr Hsub Hx. destruct (Hirr x Hx) as ((y & Hy & Ey) & (z & Hz & Ez) & Hd).
  intros [[[Hv|Hv] [Hno|Hno]]|(Hv & Hs & Hno)].
  - apply (Hno y (Hsub y Hy)). by rewrite Ey, Hv.
  - apply (Hno x (Hsub x Hx)). by rewrite Hv.
  - apply (Hno x (Hsub x Hx)). by rewrite Hv.
  - apply (Hno z (Hsub z Hz)). by rewrite Ez, Hv.
  - destruct (Hd Hs) as (w & Hw & Ew). apply (Hno w (Hsub w Hw)). congruence.
Qed.

Lemma irreducible_restricts c c' S : restricts c c' → irreducible c S → irreducible c' S.
Proof.
  intros Hr Hirr x Hx. destruct (Hirr x Hx) as (H1 & H2 & H3).
  assert (∀ y, efrom c' y = efrom c y ∧ eto c' y = eto c y ∧ esolid c' y = esolid c y) as Hst
    by (intros; by apply restricts_static).
  setoid_rewrite (λ y, proj1 (Hst y)). setoid_rewrite (λ y, proj1 (proj2 (Hst y))).
  setoid_rewrite (λ y, proj2 (proj2 (Hst y))). setoid_rewrite (rs_vid c c' Hr). done.
Qed.

(** With the same edges linked the same edges are dead. *)
Lemma dead_same c c' v x :
  restricts c c' → (∀ y, linked c y → linked c' y) → dead c v x ↔ dead c' v x.
Proof.
  intros Hr Hl. assert (∀ y, linked c' y ↔ linked c y) as Hl'
    by (intros y; split; [apply (rs_linked c c' Hr)|apply Hl]).
  assert (∀ y, efrom c' y = efrom c y ∧ eto c' y = eto c y ∧ esolid c' y = esolid c y) as Hst
    by (intros; by apply restricts_static).
  unfold dead, touches. setoid_rewrite (λ y, proj1 (Hst y)).
  setoid_rewrite (λ y, proj1 (proj2 (Hst y))). setoid_rewrite (λ y, proj2 (proj2 (Hst y))).
  setoid_rewrite (rs_vid c c' Hr). by setoid_rewrite Hl'.
Qed.

Lemma deg_in_zero c k :
  ctx_inv c → deg_in c k = 0%nat ↔ ∀ y, linked c y → vid c (eto c y) ≠ k.
Proof.
  intros Hinv. unfold deg_in. rewrite cnt_zero. setoid_rewrite Z.eqb_neq.
  split; [|naive_solver]. intros H y Hy. apply H; [done|]. by apply linked_bounds.
Qed.

Lemma deg_out_zero c k :
  ctx_inv c → deg_out c k = 0%nat ↔ ∀ y, linked c y → vid c (efrom c y) ≠ k.
Proof.
  intros Hinv. unfold deg_out. rewrite cnt_zero. setoid_rewrite Z.eqb_neq.
  split; [|naive_solver]. intros H y Hy. apply H; [done|]. by apply linked_bounds.
Qed.

Lemma outs_nil c v : ctx_inv c → outs c v = [] ↔ ∀ y, linked c y → efrom c y ≠ v.
Proof.
  intros Hinv. split.
  - intros Hnil y Hy Hf. assert (y ∈ outs c v) as Hin by (by apply outs_elem).
    rewrite Hnil in Hin. by apply elem_of_nil in Hin.
  - intros H. destruct (outs c v) as [|y l] eqn:E; [done|]. assert (y ∈ outs c v) as Hin by (rewrite E; left).
    apply outs_elem in Hin as [Hl Hf]; [|done]. by destruct (H y Hl).
Qed.

Lemma ins_nil c v : ctx_inv c → ins c v = [] ↔ ∀ y, linked c y → eto c y ≠ v.
Proof.
  intros Hinv. split.
  - intros Hnil y Hy Hf. assert (y ∈ ins c v) as Hin by (by apply ins_elem).
    rewrite Hnil in Hin. by apply elem_of_nil in Hin.
  - intros H. destruct (ins c v) as [|y l] eqn:E; [done|]. assert (y ∈ ins c v) as Hin by (rewrite E; left).
    apply ins_elem in Hin as [Hl Hf]; [|done]. by destruct (H y Hl).
Qed.

(** Reducing a vertex removes exactly its dead edges and reports whether there was one. *)
Lemma VertReduce_spec c g v :
  ctx_inv c → is_graph c g → in_graph c g v →
  let '(d, c') := gddVertReduce c v in
  removes c c' (dead c v) ∧ (d = true ↔ ∃ x, linked c x ∧ dead c v x).
Proof.
  intros Hinv Hg Hv. apply list_elem_of_fmap in Hv as ([k v'] & -> & Hv). simpl in *.
  destruct (ci_pair c Hinv g k v' Hg Hv) as (Hk & s & Hs & Hm). rename v' into v.
  destruct (ci_stat c Hinv k s Hm) as (_ & Ho & Hi). unfold gddVertReduce. rewrite Hs, Ho, Hi.
  assert ((Z.of_nat (deg_in c k) =? 0) || (Z.of_nat (deg_out c k) =? 0) = true ↔
    (∀ y, linked c y → vid c (eto c y) ≠ k) ∨ (∀ y, linked c y → vid c (efrom c y) ≠ k)) as Htest.
  { rewrite orb_true_iff, !Z.eqb_eq, <- deg_in_zero, <- deg_out_zero by done. lia. }
  destruct (_ || _).
  - pose proof (UnlinkAll_spec c v Hinv) as Hall. destruct (gddVertUnlinkAll c v) as [d c'].
    destruct Hall as [Hrm Hd].
    assert (∀ x, dead c v x ↔ touches c v x) as Hdead.
    { intros x. unfold dead. rewrite Hk. unfold touches. destruct Htest as [Ht _].
      specialize (Ht eq_refl). naive_solver. }
    split; [by eapply removes_ext|]. rewrite Hd. by setoid_rewrite Hdead.
  - assert (∀ x, dead c v x ↔ eto c x = v ∧ esolid c x = false ∧ outs c v = []) as Hdead.
    { intros x. unfold dead. rewrite Hk, outs_nil by done. destruct Htest as [_ Ht].
      split; [|naive_solver]. intros [[_ Hno]|?]; [|naive_solver]. by specialize (Ht Hno). }
    destruct (Nat.eqb_spec (gddVertGetOutDegree c v) 0) as [Hz|Hz].
    + apply nil_length_inv in Hz. fold (outs c v) in Hz.
      pose proof (unlink_in_spec (gddVertGetInDegree c v) 0 (λ e, solid (edge_at c e)) c v false Hinv
        ltac:(done) ltac:(intros; lia)) as Hin.
      destruct (unlink_in_edges _ 0 _ c v false) as [d c']. destruct Hin as [Hrm Hd]. split.
      * eapply removes_ext; [|exact Hrm]. intros x. rewrite Hdead. unfold esolid. naive_solver.
      * rewrite Hd. setoid_rewrite Hdead. unfold esolid. naive_solver.
    + assert (outs c v ≠ []) as Hne by (intros E; apply Hz; unfold gddVertGetOutDegree; unfold outs in E; by rewrite E).
      split; [apply removes_none; [done|]|]; setoid_rewrite Hdead; naive_solver.
Qed.
End Reduce.

Section ReduceLoop.
Implicit Types c : GddCtx.

Definition delete_vert (c : GddCtx) (g pos : nat) : GddCtx :=
  set_graph c g (λ g, mkGddGraph (g_id g) (gdd_map_iter_delete (g_verts g) pos)).

Lemma gpairs_set_graph c g f g' :
  gpairs (set_graph c g f) g' = gpairs c g' ∨
  (g = g' ∧ gpairs (set_graph c g f) g' = pairs (g_verts (f (graph_at c g)))).
Proof.
  unfold gpairs, graph_at, set_graph; simpl. destruct (decide (g = g')) as [<-|Hne].
  - rewrite list_lookup_alter_eq. destruct (h_graphs c !! g); [right|left]; done.
  - left. by rewrite list_lookup_alter_ne.
Qed.

(** The array of a graph without the vertex at [pos]. *)
Lemma gpairs_delete c g pos p :
  gpairs c g !! pos = Some p →
  gpairs c g ≡ₚ p :: gpairs (delete_vert c g pos) g ∧
  (∀ g', gpairs (delete_vert c g pos) g' = gpairs c g' ∨
    g' = g) ∧
  drop pos (gpairs (delete_vert c g pos) g) ≡ₚ drop (S pos) (gpairs c g) ∧
  length (gpairs (delete_vert c g pos) g) = (length (gpairs c g) - 1)%nat.
Proof.
  intros Hp. assert (gpairs (delete_vert c g pos) g =
    pairs (gdd_map_iter_delete (g_verts (graph_at c g)) pos)) as Hg.
  { unfold gpairs, delete_vert, set_graph, graph_at in *; simpl. rewrite list_lookup_alter_eq.
    by destruct (h_graphs c !! g). }
  rewrite Hg. destruct (map_delete_spec (g_verts (graph_at c g)) pos p Hp) as (Ht & Hd & Hl).
  fold (gpairs c g) in *. split_and!; [|intros g'|done|done].
  - rewrite <- (take_drop_middle (gpairs c g) pos p Hp).
    rewrite <- (take_drop pos (pairs (gdd_map_iter_delete (g_verts (graph_at c g)) pos))), Ht, Hd.
    by rewrite Permutation_middle.
  - unfold delete_vert. pose proof (gpairs_set_graph c g
      (λ g, mkGddGraph (g_id g) (gdd_map_iter_delete (g_verts g) pos)) g') as [?|[-> _]]; auto.
Qed.

(** Taking a vertex without edges out of a map. *)
Lemma delete_vert_spec c g pos k v :
  ctx_inv c → is_graph c g → gpairs c g !! pos = Some (k, v) → outs c v = [] → ins c v = [] →
  ctx_inv (delete_vert c g pos) ∧ restricts c (delete_vert c g pos) ∧
  (∀ x, linked (delete_vert c g pos) x ↔ linked c x).
Proof.
  intros Hinv Hg Hp Ho Hi. destruct (gpairs_delete c g pos _ Hp) as (Hperm & Hother & _ & _).
  assert (∀ g' p, p ∈ gpairs (delete_vert c g pos) g' → p ∈ gpairs c g') as Hsub.
  { intros g' p Hin. destruct (Hother g') as [E| ->]; [by rewrite E in Hin|].
    rewrite Hperm. by right. }
  assert (∀ g' w, in_graph c g' w → w ≠ v → in_graph (delete_vert c g pos) g' w) as Hkeep.
  { intros g' w Hw Hne. unfold in_graph in *. destruct (Hother g') as [E| ->]; [by rewrite E|].
    rewrite Hperm in Hw. simpl in Hw. by apply elem_of_cons in Hw as [->|]. }
  split_and!; [|split; try done|done].
  - destruct Hinv. split; try done.
    + intros g' k' w Hg' Hin. by apply (ci_pair0 g'), Hsub.
    + intros g' Hg'. simpl. rewrite length_alter. destruct (ci_range0 g' Hg') as [Hlt Hin].
      split; [done|]. intros w Hw. apply Hin. unfold in_graph in *.
      apply list_elem_of_fmap in Hw as (p & -> & Hw). apply list_elem_of_fmap. eauto.
    + intros g' Hg'. destruct (Hother g') as [E| ->]; [rewrite E; by apply ci_keys0|].
      specialize (ci_keys0 g Hg). rewrite Hperm in ci_keys0. by apply NoDup_cons in ci_keys0 as [_ ?].
    + intros g' Hg'. destruct (Hother g') as [E| ->]; [rewrite E; by apply ci_ptrs0|].
      specialize (ci_ptrs0 g Hg). rewrite Hperm in ci_ptrs0. by apply NoDup_cons in ci_ptrs0 as [_ ?].
    + intros x Hx. destruct (ci_home0 x Hx) as (g' & Hg' & Hf & Ht). exists g'. split; [done|].
      split; apply Hkeep; try done.
      * intros E. change (linked c x) in Hx. unfold linked in Hx. change (efrom (delete_vert c g pos) x)
          with (efrom c x) in E. rewrite E, Ho in Hx. by apply elem_of_nil in Hx.
      * intros E. pose proof (proj2 (ci_link0 x) Hx) as Hin.
        change (eto (delete_vert c g pos) x) with (eto c x) in E. rewrite E, Hi in Hin.
        by apply elem_of_nil in Hin.
  - intros g' w Hw. unfold in_graph in *. apply list_elem_of_fmap in Hw as (p & -> & Hw).
    apply list_elem_of_fmap. exists p. split; [done|]. by apply Hsub.
Qed.

(** What a part of a reduction round guarantees: the invariant, no edge of an irreducible set
    lost, and the dirty flag set exactly when an edge has been removed. *)
Record round (c c' : GddCtx) (dirty d : bool) : Prop := {
  rd_inv : ctx_inv c';
  rd_restricts : restricts c c';
  rd_keep : ∀ S, irreducible c S → (∀ x, S x → linked c x) → ∀ x, S x → linked c' x;
  rd_dirty : d = true ↔ dirty = true ∨ ∃ x, linked c x ∧ ¬ linked c' x;
}.

Lemma round_refl c dirty : ctx_inv c → round c c dirty dirty.
Proof. intros Hinv. split; [done|by apply restricts_refl|naive_solver|naive_solver]. Qed.

Lemma round_trans c1 c2 c3 d1 d2 d3 : round c1 c2 d1 d2 → round c2 c3 d2 d3 → round c1 c3 d1 d3.
Proof.
  intros H1 H2. split; [apply H2|eapply restricts_trans; [apply H1|apply H2]| |].
  - intros S Hirr Hsub. apply (rd_keep _ _ _ _ H2).
    + by eapply irreducible_restricts; [apply H1|].
    + by apply (rd_keep _ _ _ _ H1).
  - rewrite (rd_dirty _ _ _ _ H2), (rd_dirty _ _ _ _ H1).
    pose proof (rs_linked _ _ (rd_restricts _ _ _ _ H1)) as Hs1.
    pose proof (rs_linked _ _ (rd_restricts _ _ _ _ H2)) as Hs2. split.
    + intros [[?|(x & Hx & Hn)]|(x & Hx & Hn)]; [by left|right; exists x; auto..].
    + intros [?|(x & Hx & Hn)]; [by left; left|].
      destruct (decide (linked c2 x)); [right|left; right]; by exists x.
Qed.

Lemma round_clean c c' d x : round c c' d false → linked c x → linked c' x.
Proof.
  intros Hr Hx. destruct (decide (linked c' x)) as [|Hn]; [done|].
  assert (false = true); [|done]. apply (rd_dirty _ _ _ _ Hr). right. by exists x.
Qed.

Lemma VertReduce_round c g v dirty :
  ctx_inv c → is_graph c g → in_graph c g v →
  let '(d, c') := gddVertReduce c v in
  round c c' dirty (if d then true else dirty) ∧ h_graphs c' = h_graphs c ∧
  ((if d then true else dirty) = false → ∀ x, linked c x → ¬ dead c v x).
Proof.
  intros Hinv Hg Hv. pose proof (VertReduce_spec c g v Hinv Hg Hv) as H.
  destruct (gddVertReduce c v) as [d c']. destruct H as [[Hi Hr Hgr Hl] Hd]. split_and!; [|done|].
  - split; [done|done| |].
    + intros S Hirr Hsub x Hx. apply Hl. split; [auto|]. by eapply irreducible_not_dead.
    + assert ((∃ x, linked c x ∧ ¬ linked c' x) ↔ d = true) as ->; [|destruct d; naive_solver].
      split.
      * intros (x & Hx & Hn). destruct d; [done|]. destruct Hn. apply Hl. split; [done|].
        intros Hdx. assert (false = true); [|done]. apply Hd. by exists x.
      * intros (x & Hx & Hdx)%Hd. exists x. split; [done|]. rewrite Hl. by intros [_ ?].
  - intros Hf x Hx Hdx. destruct d; [done|]. assert (false = true); [|done]. apply Hd. by exists x.
Qed.

Lemma in_graph_same c c' g v : h_graphs c' = h_graphs c → in_graph c' g v ↔ in_graph c g v.
Proof. intros E. unfold in_graph, gpairs, graph_at. by rewrite E. Qed.

Lemma is_graph_restricts c c' g : restricts c c' → is_graph c' g ↔ is_graph c g.
Proof. intros Hr. unfold is_graph. by rewrite (rs_graphs c c' Hr). Qed.

(** The pass over the vertices of a graph from position [pos] on: if nothing was removed, no
    vertex from there on has a dead edge. *)
Lemma reduce_verts_spec n pos c g dirty :
  ctx_inv c → is_graph c g → (length (gpairs c g) ≤ pos + n)%nat →
  let '(d, c') := reduce_verts n pos c g dirty in
  round c c' dirty d ∧
  (d = false → ∀ v x, v ∈ (drop pos (gpairs c g)).*2 → linked c x → ¬ dead c v x).
Proof.
  revert pos c dirty. induction n as [|n IH]; intros pos c dirty Hinv Hg Hlen; cbn [reduce_verts].
  { split; [by apply round_refl|]. intros _ v x Hv. rewrite drop_ge in Hv by lia. by apply elem_of_nil in Hv. }
  fold (gpairs c g). destruct (gpairs c g !! pos) as [[k v]|] eqn:Hp.
  2:{ split; [by apply round_refl|]. intros _ v x Hv. apply lookup_ge_None in Hp.
      rewrite drop_ge in Hv by lia. by apply elem_of_nil in Hv. }
  assert (in_graph c g v) as Hv.
  { apply list_elem_of_fmap. exists (k, v). split; [done|]. by eapply list_elem_of_lookup_2. }
  pose proof (VertReduce_round c g v dirty Hinv Hg Hv) as HR.
  destruct (gddVertReduce c v) as [dv c1]. destruct HR as (Hrd & Hgr & Hnd).
  set (d1 := if dv then true else dirty) in *.
  assert (Hinv1 := rd_inv _ _ _ _ Hrd). assert (Hres1 := rd_restricts _ _ _ _ Hrd).
  assert (gpairs c1 g = gpairs c g) as Hgp by (unfold gpairs, graph_at; by rewrite Hgr).
  assert (is_graph c1 g) as Hg1 by (by apply (is_graph_restricts c c1)).
  assert (∀ d c', (d = false → d1 = false) → round c1 c' d1 d →
    (d = false → ∀ w x, w ∈ (drop (S pos) (gpairs c g)).*2 → linked c1 x → ¬ dead c1 w x) →
    d = false → ∀ w x, w ∈ (drop pos (gpairs c g)).*2 → linked c x → ¬ dead c w x) as Hcomb.
  { intros d c' Hd1 _ Hrest Hd w x Hw Hx. rewrite (drop_S _ (k, v)) in Hw by done.
    apply elem_of_cons in Hw as [->|Hw]; [by apply Hnd; [apply Hd1|]|].
    specialize (Hd1 Hd). rewrite Hd1 in Hrd.
    rewrite (dead_same c c1); [|done|intros y Hy; by eapply round_clean].
    apply Hrest; [done..|]. by eapply round_clean. }
  assert (∀ d c', round c1 c' d1 d → d = false → d1 = false) as Hmono.
  { intros d c' Hr ->. destruct d1; [|done]. assert (false = true); [|done].
    apply (rd_dirty _ _ _ _ Hr). by left. }
  destruct ((gddVertGetInDegree c1 v =? 0)%nat && (gddVertGetOutDegree c1 v =? 0)%nat) eqn:Eempty.
  - apply andb_true_iff in Eempty as [Ein%Nat.eqb_eq%nil_length_inv Eout%Nat.eqb_eq%nil_length_inv].
    assert (gpairs c1 g !! pos = Some (k, v)) as Hp1 by (by rewrite Hgp).
    fold (delete_vert c1 g pos).
    destruct (delete_vert_spec c1 g pos k v) as (Hinv2 & Hres2 & Hl2); [done..|].
    destruct (gpairs_delete c1 g pos _ Hp1) as (_ & _ & Hdrop & Hlen2).
    set (c2 := delete_vert c1 g pos) in *.
    assert (round c1 c2 d1 d1) as Hr2.
    { split; [done|done| |].
      - intros S _ Hsub x Hx. apply Hl2. auto.
      - setoid_rewrite Hl2. naive_solver. }
    assert (is_graph c2 g) as Hg2 by (by apply (is_graph_restricts c1 c2)).
    specialize (IH pos c2 d1 Hinv2 Hg2). rewrite Hlen2, Hgp in IH.
    destruct (reduce_verts n pos c2 g d1) as [d c']. destruct IH as [Hr' Hn'];
      [apply lookup_lt_Some in Hp; lia|].
    assert (round c1 c' d1 d) as Hr1' by (by eapply round_trans).
    split; [by eapply round_trans|]. apply (Hcomb d c'); [by eapply Hmono|done|].
    intros Hd w x Hw Hx. rewrite (dead_same c1 c2); [|done|intros; by apply Hl2].
    apply Hn'; [done| |by apply Hl2]. rewrite Hdrop, Hgp. done.
  - specialize (IH (S pos) c1 d1 Hinv1 Hg1). rewrite Hgp in IH.
    destruct (reduce_verts n (S pos) c1 g d1) as [d c']. destruct IH as [Hr' Hn']; [lia|].
    split; [by eapply round_trans|]. apply (Hcomb d c'); [by eapply Hmono|done|done].
Qed.

Lemma reduce_graphs_spec gs c dirty :
  ctx_inv c → (∀ g, g ∈ gs.*2 → is_graph c g) →
  let '(d, c') := reduce_graphs gs c dirty in
  round c c' dirty d ∧
  (d = false → ∀ g v x, g ∈ gs.*2 → in_graph c' g v → linked c' x → ¬ dead c' v x).
Proof.
  revert c dirty. induction gs as [|[s g] gs IH]; intros c dirty Hinv Hgs; cbn [reduce_graphs].
  { split; [by apply round_refl|]. intros _ g v x Hg. by apply elem_of_nil in Hg. }
  pose proof (reduce_verts_spec (length (gpairs c g)) 0 c g dirty Hinv) as HV.
  fold (gpairs c g). destruct (reduce_verts _ 0 c g dirty) as [d1 c1].
  destruct HV as [Hr1 Hn1]; [apply Hgs; left|lia|].
  specialize (IH c1 d1 (rd_inv _ _ _ _ Hr1)). destruct (reduce_graphs gs c1 d1) as [d c'].
  destruct IH as [Hr2 Hn2].
  { intros g' Hg'. apply (is_graph_restricts c c1); [apply Hr1|]. apply Hgs. by right. }
  split; [by eapply round_trans|]. intros -> g' v x Hg' Hv Hx. apply elem_of_cons in Hg' as [->|Hg'].
  2:{ by apply (Hn2 eq_refl g'). }
  assert (d1 = false) as ->.
  { destruct d1; [|done]. assert (false = true); [|done]. apply (rd_dirty _ _ _ _ Hr2). by left. }
  assert (round c c' dirty false) as Hr by (by eapply round_trans).
  rewrite <- (dead_same c c'); [|apply Hr|intros y Hy; by eapply round_clean].
  apply Hn1; [done| |by apply (rs_linked _ _ (rd_restricts _ _ _ _ Hr))].
  rewrite drop_0. by apply (rs_shrink _ _ (rd_restricts _ _ _ _ Hr)).
Qed.

(** Nothing dead at any vertex of a map means that the linked edges are irreducible. *)
Lemma not_dead_irreducible c :
  ctx_inv c → (∀ g v x, is_graph c g → in_graph c g v → linked c x → ¬ dead c v x) →
  irreducible c (linked c).
Proof.
  intros Hinv Hnd x Hx. destruct (ci_home c Hinv x Hx) as (g & Hg & Hf & Ht).
  pose proof (Hnd g _ x Hg Hf Hx) as Hndf. pose proof (Hnd g _ x Hg Ht Hx) as Hndt. split_and!.
  - destruct (decide (deg_in c (vid c (efrom c x)) = 0%nat)) as [Hz|Hz].
    + destruct Hndf. left. split; [by left|]. left. by apply deg_in_zero.
    + apply cnt_pos in Hz as (y & Hy & Hv%Z.eqb_eq). by exists y.
  - destruct (decide (deg_out c (vid c (eto c x)) = 0%nat)) as [Hz|Hz].
    + destruct Hndt. left. split; [by right|]. right. by apply deg_out_zero.
    + apply cnt_pos in Hz as (y & Hy & Hv%Z.eqb_eq). by exists y.
  - intros Hd. destruct (outs c (eto c x)) as [|y l] eqn:E.
    + destruct Hndt. right. split_and!; [done..|]. by apply outs_nil.
    + exists y. apply outs_elem; [done|]. rewrite E. left.
Qed.

Lemma total_zero c : ctx_inv c → total c = 0%nat ↔ ∀ x, ¬ linked c x.
Proof.
  intros Hinv. unfold total. rewrite cnt_zero. split; [|naive_solver]. intros H x Hx.
  assert (true = false); [|done]. apply (H x Hx). by apply linked_bounds.
Qed.

(** A round that removed something leaves fewer edges. *)
Lemma round_total c c' d : ctx_inv c → round c c' false d →
  if d then (total c' < total c)%nat else total c' = total c.
Proof.
  intros Hinv Hr. assert (He := rs_edges _ _ (rd_restricts _ _ _ _ Hr)).
  assert (Hsub := rs_linked _ _ (rd_restricts _ _ _ _ Hr)). destruct d.
  - destruct (proj1 (rd_dirty _ _ _ _ Hr) eq_refl) as [?|(x & Hx & Hn)]; [done|].
    apply cnt_lt; [done|done|]. exists x. split_and!; [done..|by apply linked_bounds|done].
  - apply cnt_ext; [done|]. intros x _. split; [naive_solver|]. intros [Hx _].
    split; [by eapply round_clean|done].
Qed.

(** The result of a full reduction. *)
Record reduced (c c' : GddCtx) : Prop := {
  red_inv : ctx_inv c';
  red_restricts : restricts c c';
  red_irreducible : irreducible c' (linked c');
  red_greatest : ∀ S, irreducible c S → (∀ x, S x → linked c x) → ∀ x, S x → linked c' x;
}.

Lemma reduce_loop_spec fuel c :
  ctx_inv c → (total c < fuel)%nat → ∃ c', reduce_loop fuel c = Some c' ∧ reduced c c'.
Proof.
  revert c. induction fuel as [|fuel IH]; intros c Hinv Hfuel; [lia|]. cbn [reduce_loop].
  pose proof (reduce_graphs_spec (pairs (graphs c)) c false Hinv ltac:(done)) as HG.
  destruct (reduce_graphs (pairs (graphs c)) c false) as [d c1]. destruct HG as [Hr Hn].
  pose proof (round_total c c1 d Hinv Hr) as Htot. destruct d.
  - destruct (IH c1 (rd_inv _ _ _ _ Hr) ltac:(lia)) as (c' & -> & Hred). exists c'. split; [done|].
    split; [apply Hred|eapply restricts_trans; [apply Hr|apply Hred]|apply Hred|].
    intros S Hirr Hsub. apply (red_greatest _ _ Hred); [by eapply irreducible_restricts; [apply Hr|]|].
    by apply (rd_keep _ _ _ _ Hr).
  - exists c1. split; [done|]. split; [apply Hr|apply Hr| |apply Hr].
    apply not_dead_irreducible; [apply Hr|]. intros g v x Hg. apply Hn; [done|].
    unfold is_graph in Hg. by rewrite (rs_graphs _ _ (rd_restricts _ _ _ _ Hr)) in Hg.
Qed.

Lemma Reduce_spec c : ctx_inv c → ∃ c', GddCtxReduce c = Some c' ∧ reduced c c'.
Proof. intros Hinv. apply reduce_loop_spec; [done|]. pose proof (cnt_le_edges c (λ _, true)). unfold total. lia. Qed.
End ReduceLoop.

(** ** Removing an id and breaking deadlocks *)
Section Break.
Implicit Types c : GddCtx.

(** The vertices of a graph have different ids. *)
Lemma graph_vid_inj c g v w :
  ctx_inv c → is_graph c g → in_graph c g v → in_graph c g w → vid c v = vid c w → v = w.
Proof.
  intros Hinv Hg Hv Hw E. unfold in_graph in *.
  apply list_elem_of_fmap in Hv as ([k v'] & -> & Hv), Hw as ([k' w'] & -> & Hw). simpl in *.
  destruct (ci_pair c Hinv g k v' Hg Hv) as [Hk _], (ci_pair c Hinv g k' w' Hg Hw) as [Hk' _].
  rewrite Hk, Hk' in E. subst k'. pose proof (ci_keys c Hinv g Hg) as Hnd.
  apply list_elem_of_lookup in Hv as [i Hi], Hw as [j Hj].
  assert (i = j) as ->.
  { eapply (NoDup_lookup (gpairs c g).*1); [done|..]; rewrite list_lookup_fmap.
    - by rewrite Hi.
    - by rewrite Hj. }
  congruence.
Qed.

(** [c'] is [c] without the edges at id [k] in the graphs [gs]. *)
Record removes_vid (c c' : GddCtx) (gs : list nat) (k : Z) : Prop := {
  rv_inv : ctx_inv c';
  rv_restricts : restricts c c';
  rv_keep : ∀ x, linked c x → vid c (efrom c x) ≠ k → vid c (eto c x) ≠ k → linked c' x;
  rv_gone : ∀ g v x, g ∈ gs → in_graph c' g v → vid c v = k → linked c' x → ¬ touches c v x;
}.

Lemma remove_vid_from_spec ps pos c g k :
  ctx_inv c → is_graph c g → drop pos (gpairs c g) = ps →
  (∀ v, v ∈ (take pos (gpairs c g)).*2 → vid c v ≠ k) →
  removes_vid c (remove_vid_from ps pos c g k) [g] k.
Proof.
  intros Hinv Hg. revert pos. induction ps as [|[k0 v] ps IH]; intros pos Hdrop Hbefore;
    cbn [remove_vid_from].
  { split; [done|by apply restricts_refl|done|]. intros g' v x ->%list_elem_of_singleton Hv Hk _.
    destruct (Hbefore v); [|done]. rewrite take_ge; [done|].
    apply (f_equal length) in Hdrop. rewrite length_drop in Hdrop. simpl in Hdrop. lia. }
  assert (gpairs c g !! pos = Some (k0, v)) as Hp.
  { rewrite <- (Nat.add_0_r pos), <- lookup_drop, Hdrop. done. }
  fold (vid c v). destruct (Z.eqb_spec (vid c v) k) as [Hk|Hk].
  - pose proof (UnlinkAll_spec c v Hinv) as HU. destruct (gddVertUnlinkAll c v) as [d c1].
    destruct HU as [[Hi1 Hr1 Hg1 Hl1] _]. simpl snd. fold (delete_vert c1 g pos).
    assert (gpairs c1 g = gpairs c g) as Hgp by (unfold gpairs, graph_at; by rewrite Hg1).
    assert (∀ x, linked c1 x → ¬ touches c1 v x) as Hfree.
    { intros x [_ Hx]%Hl1. unfold touches in *. by destruct (restricts_static c c1 x Hr1) as (-> & -> & _). }
    destruct (delete_vert_spec c1 g pos k0 v) as (Hi2 & Hr2 & Hl2); [done| |by rewrite Hgp| | |].
    + by apply (is_graph_restricts c c1).
    + apply outs_nil; [done|]. intros x Hx Hf. apply (Hfree x Hx). by left.
    + apply ins_nil; [done|]. intros x Hx Hf. apply (Hfree x Hx). by right.
    + split; [done|by eapply restricts_trans| |].
      * intros x Hx Hf Ht. apply Hl2, Hl1. split; [done|]. intros [<-|<-]; congruence.
      * intros g' w x ->%list_elem_of_singleton Hw Hkw Hx%Hl2.
        assert (w = v) as ->; [|by apply Hl1 in Hx as [_ ?]].
        assert (in_graph c g w).
        { apply (rs_shrink _ _ Hr1), (rs_shrink _ _ Hr2), Hw. }
        eapply (graph_vid_inj c g); [done..| |congruence].
        apply list_elem_of_fmap. exists (k0, v). split; [done|]. by eapply list_elem_of_lookup_2.
  - apply IH.
    + by rewrite <- Nat.add_1_r, <- drop_drop, Hdrop.
    + intros w. rewrite (take_S_r _ _ (k0, v)), fmap_app, elem_of_app by done.
      intros [Hw| ->%list_elem_of_singleton]; [by apply Hbefore|done].
Qed.

Lemma RemoveVid_fold (gs : list (Z * nat)) c k :
  ctx_inv c → (∀ g, g ∈ gs.*2 → is_graph c g) →
  removes_vid c (foldl (λ c g, gddGraphRemoveVid c (snd g) k) c gs) gs.*2 k.
Proof.
  revert c. induction gs as [|[s g] gs IH]; intros c Hinv Hgs; cbn [foldl].
  { split; [done|by apply restricts_refl|done|]. intros g v x Hg. by apply elem_of_nil in Hg. }
  assert (removes_vid c (gddGraphRemoveVid c g k) [g] k) as H1.
  { apply remove_vid_from_spec; [done|apply Hgs; left|by rewrite drop_0|]. intros v Hv.
    by apply elem_of_nil in Hv. }
  simpl snd. set (c1 := gddGraphRemoveVid c g k) in *.
  assert (Hr1 := rv_restricts _ _ _ _ H1).
  assert (removes_vid c1 (foldl (λ c g, gddGraphRemoveVid c (snd g) k) c1 gs) gs.*2 k) as H2.
  { apply IH; [apply H1|]. intros g' Hg'. apply (is_graph_restricts c c1 g' Hr1), Hgs. by right. }
  set (c2 := foldl _ c1 gs) in *. assert (Hr2 := rv_restricts _ _ _ _ H2).
  assert (∀ x, efrom c1 x = efrom c x ∧ eto c1 x = eto c x ∧ esolid c1 x = esolid c x) as Hst
    by (intros; by apply restricts_static).
  split; [apply H2|by eapply restricts_trans| |].
  - intros x Hx Hf Ht. apply (rv_keep _ _ _ _ H2).
    + by apply (rv_keep _ _ _ _ H1).
    + by rewrite (proj1 (Hst x)), (rs_vid _ _ Hr1).
    + by rewrite (proj1 (proj2 (Hst x))), (rs_vid _ _ Hr1).
  - intros g' v x Hg' Hv Hk Hx. apply elem_of_cons in Hg' as [->|Hg'].
    + apply (rv_gone _ _ _ _ H1 g); [by left|by apply (rs_shrink _ _ Hr2)|done|].
      by apply (rs_linked _ _ Hr2).
    + pose proof (rv_gone _ _ _ _ H2 g' v x Hg' Hv) as Hgone. rewrite (rs_vid _ _ Hr1) in Hgone.
      specialize (Hgone Hk Hx). unfold touches in *. by destruct (Hst x) as (<- & <- & _).
Qed.

(** Removing an id unlinks exactly the edges at it, on all segments. *)
Lemma RemoveVid_spec c k :
  ctx_inv c →
  ctx_inv (gddCtxRemoveVid c k) ∧ restricts c (gddCtxRemoveVid c k) ∧
  ∀ x, linked (gddCtxRemoveVid c k) x ↔
    linked c x ∧ vid c (efrom c x) ≠ k ∧ vid c (eto c x) ≠ k.
Proof.
  intros Hinv. pose proof (RemoveVid_fold (pairs (graphs c)) c k Hinv ltac:(done)) as H.
  fold (gddCtxRemoveVid c k) in H. set (c' := gddCtxRemoveVid c k) in *.
  destruct H as [Hi Hr Hkeep Hgone]. split_and!; [done..|]. intros x.
  split; [|intros (? & ? & ?); by apply Hkeep]. intros Hx. split; [by apply (rs_linked _ _ Hr)|].
  destruct (ci_home c' Hi x Hx) as (g & Hg & Hf & Ht). unfold is_graph in Hg.
  rewrite (rs_graphs _ _ Hr) in Hg. destruct (restricts_static c c' x Hr) as (Ef & Et & _).
  rewrite Ef in Hf. rewrite Et in Ht.
  split; intros Hk; [apply (Hgone g _ x Hg Hf Hk Hx); by left|apply (Hgone g _ x Hg Ht Hk Hx); by right].
Qed.

(** The ids at the ends of the linked edges. *)
Definition live_vid (c : GddCtx) (k : Z) : Prop :=
  ∃ x, linked c x ∧ (vid c (efrom c x) = k ∨ vid c (eto c x) = k).

Lemma has_edges_live c g v :
  ctx_inv c → is_graph c g → in_graph c g v →
  negb (gddVertGetInDegree c v =? 0)%nat || negb (gddVertGetOutDegree c v =? 0)%nat = true ↔
  ∃ x, linked c x ∧ touches c v x.
Proof.
  intros Hinv Hg Hv. rewrite orb_true_iff, !negb_true_iff, !Nat.eqb_neq.
  assert (gddVertGetInDegree c v ≠ 0%nat ↔ ∃ x, linked c x ∧ eto c x = v) as ->.
  { setoid_rewrite <- (λ x, ins_elem c v x Hinv). unfold gddVertGetInDegree. fold (ins c v).
    destruct (ins c v) as [|y l]; simpl; split; try done.
    - intros (x & Hx). by apply elem_of_nil in Hx.
    - intros _. exists y. left. }
  assert (gddVertGetOutDegree c v ≠ 0%nat ↔ ∃ x, linked c x ∧ efrom c x = v) as ->.
  { setoid_rewrite <- (λ x, outs_elem c v x Hinv). unfold gddVertGetOutDegree. fold (outs c v).
    destruct (outs c v) as [|y l]; simpl; split; try done.
    - intros (x & Hx). by apply elem_of_nil in Hx.
    - intros _. exists y. left. }
  unfold touches. naive_solver.
Qed.

Lemma live_restricts c c' k : restricts c c' → live_vid c' k → live_vid c k.
Proof.
  intros Hr (x & Hx & Hk). exists x. destruct (restricts_static c c' x Hr) as (Ef & Et & _).
  rewrite Ef, Et, !(rs_vid _ _ Hr) in Hk. split; [by apply (rs_linked _ _ Hr)|done].
Qed.

Lemma max_vid_fold c g (ps : list (Z * nat)) m :
  ctx_inv c → is_graph c g → (∀ v, v ∈ ps.*2 → in_graph c g v) →
  let r := foldl (max_vid_step c) m ps in
  m ≤ r ∧ (r = m ∨ live_vid c r) ∧ ∀ v x, v ∈ ps.*2 → linked c x → touches c v x → vid c v ≤ r.
Proof.
  intros Hinv Hg. revert m. induction ps as [|[k v] ps IH]; intros m Hps; cbn [foldl].
  { split_and!; [lia|by left|]. intros v x Hv. by apply elem_of_nil in Hv. }
  assert (in_graph c g v) as Hv by (apply Hps; left). pose proof (has_edges_live c g v Hinv Hg Hv) as Hlive.
  specialize (IH (max_vid_step c m (k, v)) ltac:(intros; apply Hps; by right)).
  set (m1 := max_vid_step c m (k, v)) in *. cbv zeta in IH.
  set (r := foldl (max_vid_step c) m1 ps) in *. destruct IH as (Hle & Heq & Hmax).
  assert (m ≤ m1 ∧ (m1 = m ∨ live_vid c m1) ∧ (∀ x, linked c x → touches c v x → vid c v ≤ m1)) as (H1 & H2 & H3).
  { unfold m1, max_vid_step. simpl snd. destruct (_ || _).
    - destruct (proj1 Hlive eq_refl) as (x & Hx & Ht). fold (vid c v). split_and!; [lia| |intros; lia].
      destruct (Z.max_spec m (vid c v)) as [[_ ->]|[_ ->]]; [right|by left].
      exists x. split; [done|]. destruct Ht as [<-|<-]; auto.
    - split_and!; [lia|by left|]. intros x Hx Ht. assert (false = true); [|done]. apply Hlive. by exists x. }
  split_and!; [lia| |].
  - destruct Heq as [E|]; [|by right]. rewrite E. destruct H2 as [->|]; [by left|by right].
  - intros w x Hw Hx Ht. apply elem_of_cons in Hw as [->|Hw]; [|by eapply Hmax].
    specialize (H3 x Hx Ht). simpl. lia.
Qed.

Lemma max_vid_graphs c (gs : list (Z * nat)) m :
  ctx_inv c → (∀ g, g ∈ gs.*2 → is_graph c g) →
  let r := foldl (λ m g, foldl (max_vid_step c) m (gpairs c (snd g))) m gs in
  m ≤ r ∧ (r = m ∨ live_vid c r) ∧
  ∀ g v x, g ∈ gs.*2 → in_graph c g v → linked c x → touches c v x → vid c v ≤ r.
Proof.
  intros Hinv. revert m. induction gs as [|[s g] gs IH]; intros m Hgs; cbn [foldl].
  { split_and!; [lia|by left|]. intros g v x Hg. by apply elem_of_nil in Hg. }
  destruct (max_vid_fold c g (gpairs c g) m Hinv) as (H1 & H2 & H3); [apply Hgs; left|done|].
  simpl snd. set (m1 := foldl (max_vid_step c) m (gpairs c g)) in *.
  destruct (IH m1) as (Hle & Heq & Hmax); [intros; apply Hgs; by right|].
  split_and!; [lia| |].
  - destruct Heq as [E|]; [|by right]. rewrite E. destruct H2 as [->|]; [by left|by right].
  - intros g' v x Hg' Hv Hx Ht. apply elem_of_cons in Hg' as [->|Hg']; [|by eapply Hmax].
    specialize (H3 v x Hv Hx Ht). simpl. lia.
Qed.

(** The greatest live id, when the live ids are positive. *)
Lemma MaxVid_spec c :
  ctx_inv c → (∀ k, live_vid c k → 0 < k) → (∃ x, linked c x) →
  live_vid c (gddCtxGetMaxVid c) ∧ ∀ k, live_vid c k → k ≤ gddCtxGetMaxVid c.
Proof.
  intros Hinv Hpos [x Hx].
  destruct (max_vid_graphs c (pairs (graphs c)) 0 Hinv ltac:(done)) as (H1 & H2 & H3).
  fold (gddCtxGetMaxVid c) in *.
  assert (∀ k, live_vid c k → k ≤ gddCtxGetMaxVid c) as Hmax.
  { intros k (y & Hy & Hk). destruct (ci_home c Hinv y Hy) as (g & Hg & Hf & Ht).
    destruct Hk as [<-|<-]; (eapply (H3 g); [done..|]); [by left|by right]. }
  split; [|done]. destruct H2 as [E|]; [|done].
  assert (live_vid c (vid c (efrom c x))) as Hl by (exists x; auto).
  specialize (Hmax _ Hl). specialize (Hpos _ Hl). unfold gpairs in *. fold (gddCtxGetMaxVid c) in *. lia.
Qed.

(** What breaking the deadlocks of [c] promises of the cancelled ids. *)
Record broken (c c' : GddCtx) (vids : list Z) : Prop := {
  br_inv : ctx_inv c';
  br_empty : GddCtxEmpty c' = true;
  br_live : ∀ k, k ∈ vids → live_vid c k;
  br_sorted : StronglySorted Z.gt vids;
  br_hit : ∀ S, irreducible c S → (∀ x, S x → linked c x) →
    (∀ x k, S x → k ∈ vids → vid c (efrom c x) ≠ k ∧ vid c (eto c x) ≠ k) → ∀ x, ¬ S x;
}.

Lemma Empty_spec c : ctx_inv c → GddCtxEmpty c = true ↔ ∀ x, ¬ linked c x.
Proof.
  intros Hinv. rewrite <- total_zero by done. unfold GddCtxEmpty.
  rewrite (proj2 (ci_top c Hinv)), Z.eqb_eq. lia.
Qed.

Lemma break_loop_spec fuel c vids :
  ctx_inv c → (∀ k, live_vid c k → 0 < k) → (total c ≤ fuel)%nat →
  ∃ vids' c', break_loop fuel c vids = Some (vids ++ vids', c') ∧ broken c c' vids'.
Proof.
  revert c vids. induction fuel as [|fuel IH]; intros c vids Hinv Hpos Hfuel; cbn [break_loop];
    pose proof (Empty_spec c Hinv) as Hemp; destruct (GddCtxEmpty c) eqn:Eemp.
  1,3: exists [], c; rewrite app_nil_r; split; [done|]; split; [done..|by intros k ?%elem_of_nil|constructor|];
    intros S _ Hsub _ x Hx; by apply (proj1 Hemp eq_refl x), Hsub.
  { assert (total c = 0%nat) as Hz by lia. rewrite total_zero in Hz by done.
    apply Hemp in Hz. congruence. }
  assert (∃ x, linked c x) as Hex.
  { destruct (decide (total c = 0%nat)) as [Hz|Hz].
    - rewrite total_zero in Hz by done. apply Hemp in Hz. congruence.
    - apply cnt_pos in Hz as (x & Hx & _). by exists x. }
  destruct (MaxVid_spec c Hinv Hpos Hex) as [Hlive Hmax]. set (m := gddCtxGetMaxVid c) in *.
  destruct (RemoveVid_spec c m Hinv) as (Hinv1 & Hr1 & Hl1). set (c1 := gddCtxRemoveVid c m) in *.
  destruct (Reduce_spec c1 Hinv1) as (c2 & -> & Hred).
  assert (restricts c c2) as Hr2 by (eapply restricts_trans; [done|apply Hred]).
  destruct (IH c2 (vids ++ [m])) as (vids' & c' & Hb & Hbr).
  - apply Hred.
  - intros k Hk. apply Hpos. by eapply live_restricts.
  - assert (total c2 < total c)%nat; [|lia]. destruct Hlive as (x & Hx & Hk).
    apply cnt_lt; [apply Hr2|apply Hr2|]. exists x. split_and!; [done..|by apply linked_bounds|].
    intros Hx2. apply (rs_linked _ _ (red_restricts _ _ Hred)), Hl1 in Hx2. naive_solver.
  - assert (∀ k, live_vid c2 k → k < m) as Hlt.
    { intros k Hk2. pose proof (live_restricts c c2 k Hr2 Hk2) as Hk. specialize (Hmax k Hk).
      destruct (live_restricts c1 c2 k (red_restricts _ _ Hred) Hk2) as (x & Hx & Hkx).
      destruct (restricts_static c c1 x Hr1) as (Ef & Et & _). rewrite Ef, Et, !(rs_vid _ _ Hr1) in Hkx.
      apply Hl1 in Hx as (_ & Hf & Ht). destruct (decide (k = m)); [|lia]. naive_solver. }
    exists (m :: vids'), c'. rewrite Hb, <- app_assoc. split; [done|]. split; [apply Hbr|apply Hbr| | |].
    + intros k [->|Hk]%elem_of_cons; [done|]. eapply live_restricts; [exact Hr2|]. by apply Hbr.
    + constructor; [apply Hbr|]. apply List.Forall_forall. intros k Hk%list_elem_of_In.
      apply (br_live _ _ _ Hbr), Hlt in Hk. lia.
    + intros S Hirr Hsub Havoid. apply (br_hit _ _ _ Hbr).
      * by eapply irreducible_restricts.
      * apply (red_greatest _ _ Hred); [by eapply irreducible_restricts|].
        intros x Hx. apply Hl1. split; [by apply Hsub|]. apply (Havoid x m Hx). left.
      * intros x k Hx Hk. destruct (restricts_static c c2 x Hr2) as (-> & -> & _).
        rewrite !(rs_vid _ _ Hr2). apply Havoid; [done|by right].
Qed.
End Break.
