(* ===== verification/GddBuild.v ===== *)
(** * Building the wait-for graphs: [GddCtxAddEdge] keeps the detector's invariant

    While an edge is being added, vertices that were just created are already in the map of their
    graph but not yet bound to their counters; [pre_inv c U] is the invariant up to those
    vertices [U]. *)
From S2P Require Import Prelude Gdd GddFacts.

Record pre_inv (c : GddCtx) (U : list nat) : Prop := {
  pi_out : ∀ v e, e ∈ outs c v → efrom c e = v ∧ (e < length (h_edges c))%nat;
  pi_in : ∀ v e, e ∈ ins c v → eto c e = v;
  pi_link : ∀ e, e ∈ ins c (eto c e) ↔ linked c e;
  pi_nodup : ∀ v, NoDup (outs c v) ∧ NoDup (ins c v);
  pi_pair : ∀ g k v, is_graph c g → (k, v) ∈ gpairs c g →
    vid c v = k ∧
    (v ∉ U → ∃ s, v_global (vert_at c v) = Some s ∧ gddMapGet (globals c) k = Some s);
  pi_range : ∀ g, is_graph c g → (g < length (h_graphs c))%nat ∧
    ∀ v, in_graph c g v → (v < length (h_verts c))%nat;
  pi_keys : ∀ g, is_graph c g → NoDup (gpairs c g).*1;
  pi_ptrs : ∀ g, is_graph c g → NoDup (gpairs c g).*2;
  pi_home : ∀ e, linked c e →
    ∃ g, is_graph c g ∧ in_graph c g (efrom c e) ∧ in_graph c g (eto c e);
  pi_stat_inj : ∀ k k' s,
    gddMapGet (globals c) k = Some s → gddMapGet (globals c) k' = Some s → k = k';
  pi_stat : ∀ k s, gddMapGet (globals c) k = Some s →
    (s < length (h_stats c))%nat ∧ outdeg (stat_at c s) = Z.of_nat (deg_out c k) ∧
    indeg (stat_at c s) = Z.of_nat (deg_in c k);
  pi_top : outdeg (topstat c) = Z.of_nat (total c) ∧ indeg (topstat c) = Z.of_nat (total c);
  pi_fresh : ∀ v, v ∈ U → outs c v = [] ∧ ins c v = [];
}.

Lemma pre_inv_nil c : pre_inv c [] ↔ ctx_inv c.
Proof.
  split; intros H.
  - split; try apply H. intros g k v Hg Hin. destruct (pi_pair c [] H g k v Hg Hin) as [? Hs].
    split; [done|]. apply Hs. by intros ?%elem_of_nil.
  - split; try apply H; [|by intros v ?%elem_of_nil]. intros g k v Hg Hin.
    by destruct (ci_pair c H g k v Hg Hin).
Qed.

(** [c'] has the objects of [c], with the same edges linked, and perhaps new ones. *)
Record extends (c c' : GddCtx) : Prop := {
  ex_outs : ∀ v, outs c' v = outs c v;
  ex_ins : ∀ v, ins c' v = ins c v;
  ex_vid : ∀ v, (v < length (h_verts c))%nat → vid c' v = vid c v;
  ex_verts : (length (h_verts c) ≤ length (h_verts c'))%nat;
  ex_edge : ∀ e, (e < length (h_edges c))%nat → edge_at c' e = edge_at c e;
  ex_edges : (length (h_edges c) ≤ length (h_edges c'))%nat;
  ex_graph : ∀ g, is_graph c g → is_graph c' g;
  ex_in : ∀ g v, is_graph c g → in_graph c g v → in_graph c' g v;
  ex_globals : ∀ k s, gddMapGet (globals c) k = Some s → gddMapGet (globals c') k = Some s;
}.

Section Extends.
Implicit Types c : GddCtx.

Lemma extends_refl c : extends c c.
Proof. by split. Qed.

Lemma extends_trans c1 c2 c3 : extends c1 c2 → extends c2 c3 → extends c1 c3.
Proof.
  intros [] []. split; intros; try (etransitivity; [|done]; by auto with lia); try lia; auto; [..|].
  - by rewrite ex_outs1, ex_outs0.
  - by rewrite ex_ins1, ex_ins0.
  - rewrite ex_vid1, ex_vid0; [done|lia|lia].
  - rewrite ex_edge1, ex_edge0; [done|lia|lia].
Qed.

Lemma extends_linked c c' U e :
  pre_inv c U → extends c c' → linked c' e ↔ linked c e.
Proof.
  intros Hp Hx. unfold linked. rewrite (ex_outs _ _ Hx).
  assert (∀ v, e ∈ outs c v → efrom c' e = efrom c e) as Hef.
  { intros v Hv. apply (pi_out _ _ Hp) in Hv as [_ Hlt]. unfold efrom. by rewrite (ex_edge _ _ Hx). }
  split; intros H.
  - pose proof H as H'. apply (pi_out _ _ Hp) in H' as [Hf _]. by rewrite Hf.
  - by rewrite (Hef _ H).
Qed.

Lemma find_pair_app ps k p k' :
  find_pair (ps ++ [(k, p)]) k' =
    match find_pair ps k' with Some q => Some q | None => if k =? k' then Some (k, p) else None end.
Proof. induction ps as [|q ps IH]; simpl; [done|]. by destruct (fst q =? k'). Qed.

Lemma gddMapGet_set m k p k' :
  gddMapGet (gddMapSetUnsafe m k p) k' =
    match gddMapGet m k' with Some q => Some q | None => if k =? k' then Some p else None end.
Proof.
  unfold gddMapGet, gddMapGetPair, gddMapSetUnsafe, gddMapEnsureCapacity. simpl.
  destruct (_ <=? _); simpl; rewrite find_pair_app; destruct (find_pair (pairs m) k'); simpl; try done;
    by destruct (k =? k').
Qed.

Lemma pairs_set m k p : pairs (gddMapSetUnsafe m k p) = pairs m ++ [(k, p)].
Proof. unfold gddMapSetUnsafe, gddMapEnsureCapacity. by destruct (_ <=? _). Qed.

Lemma gddMapGet_elem m k p : gddMapGet m k = Some p → (k, p) ∈ pairs m.
Proof.
  unfold gddMapGet, gddMapGetPair. induction (pairs m) as [|[k' p'] ps IH]; simpl; [done|].
  destruct (Z.eqb_spec k' k) as [->|]; simpl; [intros [= ->]; left|]. intros H. right. by apply IH.
Qed.

Lemma gddMapGet_None m k : gddMapGet m k = None → k ∉ (pairs m).*1.
Proof.
  unfold gddMapGet, gddMapGetPair. induction (pairs m) as [|[k' p'] ps IH]; simpl.
  { intros _ Hk. by apply elem_of_nil in Hk. }
  destruct (Z.eqb_spec k' k); [done|]. intros H [->|Hk]%elem_of_cons; [done|]. by apply IH.
Qed.

(** Appending to a heap does not change what its pointers lead to, except the new one. *)
Lemma default_app {A} (l : list A) (x d : A) p :
  default d ((l ++ [x]) !! p) = if decide (p = length l) then x else default d (l !! p).
Proof.
  case_decide as E; [subst; by rewrite lookup_last|]. destruct (decide (p < length l)%nat).
  - by rewrite lookup_app_l.
  - rewrite !lookup_ge_None_2; [done|lia|]. rewrite length_app. simpl. lia.
Qed.
End Extends.

#[local] Opaque gddMapSetUnsafe.

Section Steps.
Implicit Types c : GddCtx.

(** The degrees stay what they are when the linked edges and the ids of their ends do. *)
Lemma extends_cnt c c' U P P' :
  pre_inv c U → extends c c' → (∀ e, linked c e → P' e = P e) → cnt c' P' = cnt c P.
Proof.
  intros Hp Hx HP. unfold cnt. pose proof (ex_edges _ _ Hx).
  replace (length (h_edges c')) with (length (h_edges c) + (length (h_edges c') - length (h_edges c)))%nat by lia.
  rewrite seq_app, filter_app, length_app.
  rewrite (filter_none _ (seq (0 + length (h_edges c)) _)).
  - simpl. rewrite Nat.add_0_r. f_equal. apply list_filter_iff. intros e.
    rewrite (extends_linked c c' U) by done. split; intros [Hl HPe]; (split; [done|]).
    + by rewrite <- HP.
    + by rewrite HP.
  - intros e He%elem_of_seq [Hl _]. rewrite (extends_linked c c' U) in Hl by done.
    apply (pi_out _ _ Hp) in Hl as [_ ?]. lia.
Qed.

Lemma linked_ends c U e :
  pre_inv c U → linked c e →
  (e < length (h_edges c))%nat ∧ (efrom c e < length (h_verts c))%nat ∧
  (eto c e < length (h_verts c))%nat ∧ efrom c e ∉ U ∧ eto c e ∉ U.
Proof.
  intros Hp Hl. destruct (pi_home _ _ Hp e Hl) as (g & Hg & Hf & Ht).
  pose proof (proj2 (pi_range _ _ Hp g Hg)) as Hr.
  split_and!; [by destruct (pi_out _ _ Hp _ _ Hl)|by apply Hr..| |]; intros HU;
    destruct (pi_fresh _ _ Hp _ HU) as [Ho Hi].
  - unfold linked in Hl. rewrite Ho in Hl. by apply elem_of_nil in Hl.
  - apply (pi_link _ _ Hp) in Hl. rewrite Hi in Hl. by apply elem_of_nil in Hl.
Qed.

Lemma extends_deg c c' U k :
  pre_inv c U → extends c c' →
  deg_out c' k = deg_out c k ∧ deg_in c' k = deg_in c k ∧ total c' = total c.
Proof.
  intros Hp Hx. unfold deg_out, deg_in, total.
  split_and!; eapply extends_cnt; try done; intros e Hl;
    destruct (linked_ends c U e Hp Hl) as (He & Hf & Ht & _); unfold efrom, eto in *;
    by rewrite (ex_edge _ _ Hx), (ex_vid _ _ Hx).
Qed.

(** The parts of the invariant that an extension keeps without further ado. *)
Lemma extends_links c c' U :
  pre_inv c U → extends c c' →
  (∀ v e, e ∈ outs c' v → efrom c' e = v ∧ (e < length (h_edges c'))%nat) ∧
  (∀ v e, e ∈ ins c' v → eto c' e = v) ∧
  (∀ e, e ∈ ins c' (eto c' e) ↔ linked c' e) ∧
  (∀ v, NoDup (outs c' v) ∧ NoDup (ins c' v)) ∧
  (∀ e, linked c' e → ∃ g, is_graph c' g ∧ in_graph c' g (efrom c' e) ∧ in_graph c' g (eto c' e)).
Proof.
  intros Hp Hx. pose proof (ex_edges _ _ Hx).
  assert (∀ v e, e ∈ ins c v → (e < length (h_edges c))%nat) as Hin.
  { intros v e Hv. pose proof (pi_in _ _ Hp v e Hv) as <-. apply (pi_link _ _ Hp) in Hv.
    by destruct (pi_out _ _ Hp _ _ Hv). }
  split_and!.
  - intros v e. rewrite (ex_outs _ _ Hx). intros [Hf Hlt]%(pi_out _ _ Hp).
    unfold efrom in *. rewrite (ex_edge _ _ Hx) by done. split; [done|lia].
  - intros v e. rewrite (ex_ins _ _ Hx). intros Hv. pose proof (Hin v e Hv).
    unfold eto. rewrite (ex_edge _ _ Hx) by done. by apply (pi_in _ _ Hp).
  - intros e. rewrite (extends_linked c c' U), (ex_ins _ _ Hx), <- (pi_link _ _ Hp) by done. split; intros Hv.
    + pose proof (pi_in _ _ Hp _ _ Hv) as Ht. by rewrite Ht.
    + unfold eto. by rewrite (ex_edge _ _ Hx) by (by eapply Hin).
  - intros v. rewrite (ex_outs _ _ Hx), (ex_ins _ _ Hx). apply (pi_nodup _ _ Hp).
  - intros e. rewrite (extends_linked c c' U) by done. intros Hl.
    destruct (linked_ends c U e Hp Hl) as (He & _). destruct (pi_home _ _ Hp e Hl) as (g & Hg & Hf & Ht).
    exists g. unfold efrom, eto in *. rewrite (ex_edge _ _ Hx) by done.
    split_and!; [by apply Hx|by apply Hx..].
Qed.

(** An extension with the same vertices, counters and binding keeps the rest as well. *)
Lemma extends_pre c c' U :
  pre_inv c U → extends c c' →
  (∀ g k v, is_graph c' g → (k, v) ∈ gpairs c' g → vid c' v = k ∧
    (v ∉ U → ∃ s, v_global (vert_at c' v) = Some s ∧ gddMapGet (globals c') k = Some s)) →
  (∀ g, is_graph c' g → (g < length (h_graphs c'))%nat ∧
    ∀ v, in_graph c' g v → (v < length (h_verts c'))%nat) →
  (∀ g, is_graph c' g → NoDup (gpairs c' g).*1) → (∀ g, is_graph c' g → NoDup (gpairs c' g).*2) →
  topstat c' = topstat c → globals c' = globals c → h_stats c' = h_stats c → pre_inv c' U.
Proof.
  intros Hp Hx Hpair Hrange Hkeys Hptrs Htop Hglob Hst.
  destruct (extends_links c c' U Hp Hx) as (H1 & H2 & H3 & H4 & H5).
  assert (∀ k, deg_out c' k = deg_out c k ∧ deg_in c' k = deg_in c k ∧ total c' = total c) as Hdeg
    by (intros; by eapply extends_deg).
  split; try done.
  - rewrite Hglob. apply (pi_stat_inj _ _ Hp).
  - intros k s. destruct (Hdeg k) as (-> & -> & _). unfold stat_at. rewrite Hglob, Hst. apply (pi_stat _ _ Hp).
  - destruct (Hdeg 0) as (_ & _ & ->). rewrite Htop. apply (pi_top _ _ Hp).
  - intros v Hv. rewrite (ex_outs _ _ Hx), (ex_ins _ _ Hx). by apply (pi_fresh _ _ Hp).
Qed.

Lemma GetGraph_spec c U segid :
  pre_inv c U →
  let '(g, c') := gddCtxGetGraph c segid in
  pre_inv c' U ∧ extends c c' ∧ is_graph c' g ∧ gddMapGet (graphs c') segid = Some g ∧
  h_edges c' = h_edges c ∧ h_verts c' = h_verts c.
Proof.
  intros Hp. unfold gddCtxGetGraph. destruct (gddMapGet (graphs c) segid) as [g|] eqn:Eg.
  { split_and!; try done. apply list_elem_of_fmap.
    exists (segid, g). split; [done|]. by apply gddMapGet_elem. }
  unfold gddGraphNew. simpl. set (c' := mkGddCtx _ _ _ _ _ _ _).
  assert (∀ g, gpairs c' g = gpairs c g) as Hgp.
  { intros g. unfold gpairs, graph_at, c'; simpl. rewrite default_app. case_decide as E; [|done].
    subst g. by rewrite (lookup_ge_None_2 (h_graphs c)) by lia. }
  assert (∀ g, is_graph c' g ↔ is_graph c g ∨ g = length (h_graphs c)) as Hig.
  { intros g. unfold is_graph, c'; simpl. rewrite pairs_set, fmap_app, elem_of_app. simpl.
    by rewrite list_elem_of_singleton. }
  assert (gpairs c (length (h_graphs c)) = []) as Hnew.
  { unfold gpairs, graph_at. by rewrite lookup_ge_None_2 by lia. }
  assert (extends c c') as Hx.
  { split; try done.
    - intros g Hg. apply Hig. by left.
    - intros g v _. unfold in_graph. by rewrite Hgp. }
  split_and!; try done.
  - eapply extends_pre; try done.
    + intros g k v [Hg| ->]%Hig; rewrite Hgp; [by apply (pi_pair _ _ Hp)|].
      rewrite Hnew. by intros ?%elem_of_nil.
    + intros g Hg. unfold in_graph. rewrite Hgp. unfold c'; simpl. rewrite length_app. simpl.
      apply Hig in Hg as [Hg| ->].
      * destruct (pi_range _ _ Hp g Hg). split; [lia|done].
      * split; [lia|]. rewrite Hnew. by intros v ?%elem_of_nil.
    + intros g [Hg| ->]%Hig; rewrite Hgp; [by apply (pi_keys _ _ Hp)|]. rewrite Hnew. constructor.
    + intros g [Hg| ->]%Hig; rewrite Hgp; [by apply (pi_ptrs _ _ Hp)|]. rewrite Hnew. constructor.
  - apply Hig. by right.
  - unfold c'; simpl. rewrite gddMapGet_set, Eg. by rewrite Z.eqb_refl.
Qed.

(** A new vertex of graph [g]; it is not bound to its counters yet. *)
Lemma GetVert_spec c U g k :
  pre_inv c U → is_graph c g →
  let '(v, c') := gddGraphGetVert c g k in
  (∃ U', pre_inv c' U' ∧ ∀ w, w ∈ U' → w ∈ U ∨ w = v) ∧ extends c c' ∧
  in_graph c' g v ∧ vid c' v = k ∧ h_edges c' = h_edges c.
Proof.
  intros Hp Hg. unfold gddGraphGetVert. destruct (gddMapGet (g_verts (graph_at c g)) k) as [v|] eqn:Ev.
  { apply gddMapGet_elem in Ev. fold (gpairs c g) in Ev. split_and!; [|apply extends_refl| | |done].
    - exists U. auto.
    - apply list_elem_of_fmap. by exists (k, v).
    - by destruct (pi_pair _ _ Hp g k v Hg Ev). }
  apply gddMapGet_None in Ev. fold (gpairs c g) in Ev. unfold gddVertNew. simpl.
  set (n := length (h_verts c)). set (c' := set_graph _ _ _).
  destruct (pi_range _ _ Hp g Hg) as [Hglt Hgr].
  assert (∀ v, vert_at c' v = if decide (v = n) then mkGddVert k None [] [] else vert_at c v) as Hvert.
  { intros v. unfold vert_at, c'; simpl. apply default_app. }
  assert (vert_at c n = mkGddVert 0 None [] []) as Hn.
  { unfold vert_at. by rewrite lookup_ge_None_2 by lia. }
  assert (∀ g', gpairs c' g' = if decide (g' = g) then gpairs c g ++ [(k, n)] else gpairs c g') as Hgp.
  { intros g'. unfold gpairs, graph_at, c', set_graph; simpl. case_decide as E.
    - subst g'. rewrite list_lookup_alter_eq. destruct (h_graphs c !! g) eqn:El.
      + simpl. by rewrite pairs_set.
      + apply lookup_ge_None in El. lia.
    - by rewrite list_lookup_alter_ne. }
  assert (extends c c') as Hx.
  { split; try done.
    - intros v. unfold outs. rewrite Hvert. case_decide; [subst; by rewrite Hn|done].
    - intros v. unfold ins. rewrite Hvert. case_decide; [subst; by rewrite Hn|done].
    - intros v Hv. unfold vid. rewrite Hvert, decide_False by (unfold n; lia). done.
    - unfold c'; simpl. rewrite length_app. lia.
    - intros g' v _. unfold in_graph. rewrite Hgp. case_decide; [subst|done].
      rewrite fmap_app, elem_of_app. by left. }
  assert (∀ g' k' w, is_graph c g' → (k', w) ∈ gpairs c' g' →
    (k', w) ∈ gpairs c g' ∧ (w < n)%nat ∨ g' = g ∧ k' = k ∧ w = n) as Hpairs.
  { intros g' k' w Hg'. rewrite Hgp. pose proof (proj2 (pi_range _ _ Hp g' Hg')) as Hr'.
    assert ((k', w) ∈ gpairs c g' → (w < n)%nat) as Hlt.
    { intros Hin. apply Hr', list_elem_of_fmap. by exists (k', w). }
    case_decide as E; [subst|naive_solver]. rewrite elem_of_app, list_elem_of_singleton. naive_solver. }
  assert (n ∉ (gpairs c g).*2) as Hnew by (intros Hin; specialize (Hgr n Hin); unfold n in *; lia).
  split_and!; [|done| | |done].
  - exists (n :: U). split; [|intros w [->|?]%elem_of_cons; auto].
    assert (pre_inv c (n :: U)) as Hp'.
    { destruct Hp. split; try done.
      - intros g' k' v Hg' Hin. destruct (pi_pair0 g' k' v Hg' Hin) as [? Hs]. split; [done|].
        intros Hv. apply Hs. intros ?. apply Hv. by right.
      - intros v [->|Hv]%elem_of_cons; [|by apply pi_fresh0]. unfold outs, ins. by rewrite Hn. }
    eapply extends_pre; try done.
    + intros g' k' w Hg' Hin. unfold vid. rewrite Hvert.
      destruct (Hpairs g' k' w Hg' Hin) as [[Hold Hlt]|(-> & -> & ->)].
      * rewrite decide_False by lia. by apply (pi_pair _ _ Hp' g').
      * rewrite decide_True by done. split; [done|]. intros HnU. destruct HnU. left.
    + intros g' Hg'. unfold c' at 1 2; simpl. rewrite length_alter, length_app. simpl.
      split; [by apply (pi_range _ _ Hp)|]. intros w Hw. apply list_elem_of_fmap in Hw as ([k' w'] & -> & Hw).
      destruct (Hpairs g' k' w' Hg' Hw) as [[_ Hlt]|(_ & _ & ->)]; unfold n in *; simpl; lia.
    + intros g' Hg'. rewrite Hgp. case_decide; [subst|by apply (pi_keys _ _ Hp)].
      rewrite fmap_app. apply NoDup_app. split_and!; [by apply (pi_keys _ _ Hp)| |apply NoDup_singleton].
      intros x Hin ->%list_elem_of_singleton. done.
    + intros g' Hg'. rewrite Hgp. case_decide; [subst|by apply (pi_ptrs _ _ Hp)].
      rewrite fmap_app. apply NoDup_app. split_and!; [by apply (pi_ptrs _ _ Hp)| |apply NoDup_singleton].
      intros x Hin ->%list_elem_of_singleton. done.
  - unfold in_graph. rewrite Hgp, decide_True by done. rewrite fmap_app, elem_of_app. right. left.
  - unfold vid. by rewrite Hvert, decide_True.
Qed.

Lemma EdgeNew_spec c U vf vt b :
  pre_inv c U →
  let '(e, c') := gddEdgeNew c vf vt b in
  pre_inv c' U ∧ extends c c' ∧ e = length (h_edges c) ∧ edge_at c' e = mkGddEdge b vf vt ∧
  length (h_edges c') = S e.
Proof.
  intros Hp. unfold gddEdgeNew. set (c' := mkGddCtx _ _ _ _ _ _ _).
  assert (∀ e, edge_at c' e = if decide (e = length (h_edges c)) then mkGddEdge b vf vt else edge_at c e)
    as He by (intros e; apply default_app).
  assert (extends c c') as Hx.
  { split; try done; [intros e Hlt; by rewrite He, decide_False by lia|].
    unfold c'; simpl. rewrite length_app. lia. }
  split_and!; [|done|done|by rewrite He, decide_True|unfold c'; simpl; rewrite length_app; simpl; lia].
  eapply extends_pre; try done; [apply (pi_pair _ _ Hp)|apply (pi_range _ _ Hp)|apply (pi_keys _ _ Hp)|apply (pi_ptrs _ _ Hp)].
Qed.

Lemma unmapped_deg c U k :
  pre_inv c U → gddMapGet (globals c) k = None → deg_out c k = 0%nat ∧ deg_in c k = 0%nat.
Proof.
  intros Hp Hk. assert (∀ e, linked c e → vid c (efrom c e) ≠ k ∧ vid c (eto c e) ≠ k) as Hno.
  { intros e Hl. destruct (linked_ends c U e Hp Hl) as (_ & _ & _ & HfU & HtU).
    destruct (pi_home _ _ Hp e Hl) as (g & Hg & Hf & Ht).
    apply list_elem_of_fmap in Hf as ([k1 v1] & Ef & Hf), Ht as ([k2 v2] & Et & Ht). simpl in *. subst v1 v2.
    destruct (pi_pair _ _ Hp g _ _ Hg Hf) as [-> Hs1], (pi_pair _ _ Hp g _ _ Hg Ht) as [-> Hs2].
    destruct (Hs1 HfU) as (s1 & _ & E1), (Hs2 HtU) as (s2 & _ & E2). split; congruence. }
  unfold deg_out, deg_in. rewrite !cnt_zero. setoid_rewrite Z.eqb_neq. naive_solver.
Qed.

Lemma GetGlobalStat_spec c U k :
  pre_inv c U →
  let '(s, c') := gddCtxGetGlobalStat c k in
  pre_inv c' U ∧ extends c c' ∧ gddMapGet (globals c') k = Some s ∧
  h_edges c' = h_edges c ∧ (∀ v, vid c' v = vid c v).
Proof.
  intros Hp. unfold gddCtxGetGlobalStat. destruct (gddMapGet (globals c) k) as [s|] eqn:Ek; [done|].
  unfold gddStatNew. simpl. set (c' := mkGddCtx _ _ _ _ _ _ _).
  assert (∀ k', gddMapGet (globals c') k' = match gddMapGet (globals c) k' with Some q => Some q
    | None => if k =? k' then Some (length (h_stats c)) else None end) as Hget by (intros; apply gddMapGet_set).
  assert (extends c c') as Hx by (split; try done; intros k' s; rewrite Hget; by intros ->).
  destruct (extends_links c c' U Hp Hx) as (H1 & H2 & H3 & H4 & H5).
  split_and!; [|done|by rewrite Hget, Ek, Z.eqb_refl|done|done].
  split; try done; try apply Hp.
  - intros g k' v Hg Hin. destruct (pi_pair _ _ Hp g k' v Hg Hin) as [? Hs]. split; [done|].
    intros HU. destruct (Hs HU) as (s & Hs1 & Hs2). exists s. split; [done|]. by rewrite Hget, Hs2.
  - intros k1 k2 s. rewrite !Hget.
    destruct (gddMapGet (globals c) k1) as [s1|] eqn:E1, (gddMapGet (globals c) k2) as [s2|] eqn:E2.
    + intros [= ->] [= ->]. by eapply (pi_stat_inj _ _ Hp).
    + intros [= ->]. destruct (Z.eqb_spec k k2); [intros [= Es]|done].
      destruct (pi_stat _ _ Hp _ _ E1). lia.
    + destruct (Z.eqb_spec k k1); [intros [= Es]|done]. intros [= ->].
      destruct (pi_stat _ _ Hp _ _ E2). lia.
    + destruct (Z.eqb_spec k k1), (Z.eqb_spec k k2); try done. congruence.
  - intros k' s. rewrite Hget. destruct (extends_deg c c' U k' Hp Hx) as (-> & -> & _).
    unfold stat_at, c'; simpl. rewrite default_app, length_app. simpl.
    destruct (gddMapGet (globals c) k') as [q|] eqn:Eq.
    + intros [= <-]. destruct (pi_stat _ _ Hp _ _ Eq) as (Hlt & Ho & Hi).
      rewrite decide_False by lia. split; [lia|]. done.
    + destruct (Z.eqb_spec k k'); [intros [= <-]; subst k'|done]. rewrite decide_True by done.
      destruct (unmapped_deg c U k Hp Ek) as [-> ->]. split; [lia|]. done.
Qed.

(** Binding a vertex to the counters of its id. *)
Lemma Bind_spec c U v s :
  pre_inv c U → (v < length (h_verts c))%nat → gddMapGet (globals c) (vid c v) = Some s →
  pre_inv (gddVertBindStats c v s) (filter (λ w, w ≠ v) U) ∧
  extends c (gddVertBindStats c v s) ∧ h_edges (gddVertBindStats c v s) = h_edges c.
Proof.
  intros Hp Hv Hs. set (c' := gddVertBindStats c v s).
  assert (∀ w, vert_at c' w = mkGddVert (vid c w) (if decide (v = w) then Some s else v_global (vert_at c w))
    (ins c w) (outs c w)) as Hvert.
  { intros w. unfold c', gddVertBindStats. rewrite vert_at_set by done. unfold vid, ins, outs.
    case_decide; [by subst|]. by destruct (vert_at c w). }
  assert (∀ w, vid c' w = vid c w) as Hvid by (intros w; unfold vid at 1; by rewrite Hvert).
  assert (extends c c') as Hx.
  { split; try done.
    - intros w. unfold outs at 1. by rewrite Hvert.
    - intros w. unfold ins at 1. by rewrite Hvert.
    - unfold c', gddVertBindStats; simpl. by rewrite length_alter. }
  destruct (extends_links c c' U Hp Hx) as (H1 & H2 & H3 & H4 & H5).
  assert (∀ k, deg_out c' k = deg_out c k ∧ deg_in c' k = deg_in c k ∧ total c' = total c) as Hdeg
    by (intros; by eapply extends_deg).
  split_and!; [|done|done]. split; try done; try apply Hp.
  - intros g k w Hg Hin. rewrite Hvid, Hvert. simpl. destruct (pi_pair _ _ Hp g k w Hg Hin) as [<- Hw].
    split; [done|]. intros HU. case_decide; [subst; by exists s|]. apply Hw. intros HwU. apply HU.
    apply list_elem_of_filter. auto.
  - intros g Hg. unfold c', gddVertBindStats; simpl. rewrite length_alter. by apply (pi_range _ _ Hp).
  - intros k s'. destruct (Hdeg k) as (-> & -> & _). apply (pi_stat _ _ Hp).
  - destruct (Hdeg 0) as (_ & _ & ->). apply (pi_top _ _ Hp).
  - intros w [_ Hw]%list_elem_of_filter. rewrite (ex_outs _ _ Hx), (ex_ins _ _ Hx). by apply (pi_fresh _ _ Hp).
Qed.
End Steps.

Section Link.
Implicit Types c : GddCtx.

Definition add_out (e : nat) (v : GddVert) : GddVert :=
  mkGddVert (v_id v) (v_global v) (edgesIn v) (edgesOut v ++ [e]).
Definition add_in (e : nat) (v : GddVert) : GddVert :=
  mkGddVert (v_id v) (v_global v) (edgesIn v ++ [e]) (edgesOut v).

Lemma Link_eq c e sf st :
  v_global (vert_at c (efrom c e)) = Some sf → v_global (vert_at c (eto c e)) = Some st →
  gddEdgeLink c e =
    mkGddCtx (add_indeg 1 (add_outdeg 1 (topstat c))) (globals c) (graphs c)
      (alter (add_indeg 1) st (alter (add_outdeg 1) sf (h_stats c)))
      (alter (add_in e) (eto c e) (alter (add_out e) (efrom c e) (h_verts c)))
      (h_edges c) (h_graphs c).
Proof.
  intros Hf Ht. unfold gddEdgeLink, on_global. fold (efrom c e) (eto c e).
  change (vert_at (set_topstat (set_topstat c (add_outdeg 1)) (add_indeg 1)) (efrom c e)) with
    (vert_at c (efrom c e)). rewrite Hf.
  change (vert_at (set_stat (set_topstat (set_topstat c (add_outdeg 1)) (add_indeg 1)) sf (add_outdeg 1))
    (eto c e)) with (vert_at c (eto c e)). by rewrite Ht.
Qed.

(** The vertices after linking. *)
Lemma Link_verts c e sf st v :
  (efrom c e < length (h_verts c))%nat → (eto c e < length (h_verts c))%nat →
  v_global (vert_at c (efrom c e)) = Some sf → v_global (vert_at c (eto c e)) = Some st →
  vert_at (gddEdgeLink c e) v = mkGddVert (vid c v) (v_global (vert_at c v))
    (ins c v ++ if decide (eto c e = v) then [e] else [])
    (outs c v ++ if decide (efrom c e = v) then [e] else []).
Proof.
  intros Hf Ht Hsf Hst. rewrite (Link_eq c e sf st Hsf Hst).
  transitivity (vert_at (set_vert (set_vert c (efrom c e) (add_out e)) (eto c e) (add_in e)) v); [done|].
  rewrite vert_at_set by (simpl; by rewrite length_alter). rewrite !vert_at_set by done.
  unfold vid, ins, outs, add_in, add_out.
  destruct (decide (eto c e = v)) as [Et|Et], (decide (efrom c e = v)) as [Ef|Ef];
    rewrite ?Et, ?Ef in *; simpl; rewrite ?decide_True, ?decide_False by done; simpl;
    rewrite ?app_nil_r; try done. by destruct (vert_at c v).
Qed.

Lemma Link_spec c e g :
  ctx_inv c → (e < length (h_edges c))%nat → ¬ linked c e →
  is_graph c g → in_graph c g (efrom c e) → in_graph c g (eto c e) →
  let c' := gddEdgeLink c e in
  ctx_inv c' ∧ h_edges c' = h_edges c ∧ graphs c' = graphs c ∧ h_graphs c' = h_graphs c ∧
  (∀ v, vid c' v = vid c v) ∧ ∀ x, linked c' x ↔ linked c x ∨ x = e.
Proof.
  intros Hinv He Hnl Hg Hf Ht. cbv zeta.
  pose proof (proj2 (ci_range c Hinv g Hg)) as Hrange.
  assert (∃ sf, v_global (vert_at c (efrom c e)) = Some sf ∧ gddMapGet (globals c) (vid c (efrom c e)) = Some sf)
    as (sf & Hsf & Hgf).
  { apply list_elem_of_fmap in Hf as ([k v] & -> & Hin). simpl. by destruct (ci_pair c Hinv g k v Hg Hin) as [-> ?]. }
  assert (∃ st, v_global (vert_at c (eto c e)) = Some st ∧ gddMapGet (globals c) (vid c (eto c e)) = Some st)
    as (st & Hst & Hgt).
  { apply list_elem_of_fmap in Ht as ([k v] & -> & Hin). simpl. by destruct (ci_pair c Hinv g k v Hg Hin) as [-> ?]. }
  pose proof (λ v, Link_verts c e sf st v (Hrange _ Hf) (Hrange _ Ht) Hsf Hst) as Hv.
  rewrite (Link_eq c e sf st Hsf Hst) in *. set (c' := mkGddCtx _ _ _ _ _ _ _) in *.
  assert (∀ v, vid c' v = vid c v) as Hvid by (intros v; unfold vid at 1; by rewrite Hv).
  assert (∀ v x, x ∈ outs c' v ↔ x ∈ outs c v ∨ x = e ∧ efrom c e = v) as Houts.
  { intros v x. unfold outs at 1. rewrite Hv. simpl. rewrite elem_of_app.
    case_decide; [rewrite list_elem_of_singleton|rewrite elem_of_nil]; naive_solver. }
  assert (∀ v x, x ∈ ins c' v ↔ x ∈ ins c v ∨ x = e ∧ eto c e = v) as Hins.
  { intros v x. unfold ins at 1. rewrite Hv. simpl. rewrite elem_of_app.
    case_decide; [rewrite list_elem_of_singleton|rewrite elem_of_nil]; naive_solver. }
  assert (∀ x, linked c' x ↔ linked c x ∨ x = e) as Hlink.
  { intros x. unfold linked. change (efrom c' x) with (efrom c x). rewrite Houts. naive_solver. }
  assert (e ∉ outs c (efrom c e) ∧ e ∉ ins c (eto c e)) as [Hno Hni].
  { split; [done|]. by rewrite (ci_link c Hinv). }
  assert (∀ P, cnt c' P = (cnt c P + if P e then 1 else 0)%nat) as Hcnt.
  { intros P. apply cnt_remove; [done| |apply Hlink; by right|done]. intros x. rewrite Hlink.
    split; [|naive_solver]. intros Hx. split; [by left|]. by intros ->. }
  split_and!; try done. split; try apply Hinv.
  - intros v x. rewrite Houts. intros [Hx|[-> <-]]; [by apply (ci_out c Hinv)|done].
  - intros v x. rewrite Hins. intros [Hx|[-> <-]]; [by apply (ci_in c Hinv)|done].
  - intros x. rewrite Hlink, Hins. change (eto c' x) with (eto c x). rewrite (ci_link c Hinv). naive_solver.
  - intros v. unfold outs, ins. rewrite Hv. simpl. fold (outs c v) (ins c v).
    destruct (ci_nodup c Hinv v). split; apply NoDup_app; (split_and!; [done| |by case_decide; repeat constructor; intros ?%elem_of_nil]);
      intros x Hx; (case_decide; [subst v|by intros ?%elem_of_nil]); by intros ->%list_elem_of_singleton.
  - intros g' k v Hg' Hin. rewrite Hvid, Hv. simpl. by apply (ci_pair c Hinv g').
  - intros g' Hg'. simpl. rewrite !length_alter. by apply (ci_range c Hinv).
  - intros x [Hx| ->]%Hlink; [by apply (ci_home c Hinv)|]. by exists g.
  - intros k s Hk. change (globals c') with (globals c) in Hk.
    destruct (ci_stat c Hinv k s Hk) as (Hs & Ho & Hi).
    destruct (ci_stat c Hinv _ _ Hgf) as (Hbsf & _), (ci_stat c Hinv _ _ Hgt) as (Hbst & _).
    split; [simpl; by rewrite !length_alter|].
    assert (deg_out c' k = deg_out c k + if decide (sf = s) then 1 else 0)%nat as Hdo.
    { unfold deg_out. rewrite Hcnt. f_equal.
      - apply cnt_ext; [done|]. intros x _. change (efrom c' x) with (efrom c x). by rewrite Hvid.
      - change (efrom c' e) with (efrom c e). rewrite Hvid.
        destruct (Z.eqb_spec (vid c (efrom c e)) k) as [E|E], (decide (sf = s)) as [Es|Es]; try done.
        + destruct Es. rewrite E in Hgf. congruence.
        + subst sf. by destruct E; eapply (ci_stat_inj c Hinv). }
    assert (deg_in c' k = deg_in c k + if decide (st = s) then 1 else 0)%nat as Hdi.
    { unfold deg_in. rewrite Hcnt. f_equal.
      - apply cnt_ext; [done|]. intros x _. change (eto c' x) with (eto c x). by rewrite Hvid.
      - change (eto c' e) with (eto c e). rewrite Hvid.
        destruct (Z.eqb_spec (vid c (eto c e)) k) as [E|E], (decide (st = s)) as [Es|Es]; try done.
        + destruct Es. rewrite E in Hgt. congruence.
        + subst st. by destruct E; eapply (ci_stat_inj c Hinv). }
    unfold stat_at in *; simpl. rewrite stat_alter by (by rewrite length_alter).
    rewrite !stat_alter by done. revert Ho Hi Hdo Hdi.
    generalize (deg_out c' k), (deg_in c' k), (deg_out c k), (deg_in c k). clear.
    intros. repeat case_decide; subst; simpl in *; (lia || done).
  - destruct (ci_top c Hinv) as [Ho Hi]. simpl. pose proof (Hcnt (λ _, true)) as Htot.
    unfold total in *. simpl in Htot. lia.
Qed.
End Link.

(** ** Adding an edge *)

(** [e] is the edge of [c'] from id [kf] to id [kt] on segment [segid], new over [c]. *)
Record adds_edge (c c' : GddCtx) (e : nat) (segid kf kt : Z) (b : bool) : Prop := {
  ae_inv : ctx_inv c';
  ae_linked : ∀ x, linked c' x ↔ linked c x ∨ x = e;
  ae_new : ¬ linked c e;
  ae_index : e = length (h_edges c) ∧ length (h_edges c') = S e;
  ae_solid : esolid c' e = b;
  ae_from : vid c' (efrom c' e) = kf;
  ae_to : vid c' (eto c' e) = kt;
  ae_seg : ∃ g, gddMapGet (graphs c') segid = Some g ∧ in_graph c' g (efrom c' e) ∧
    in_graph c' g (eto c' e);
  ae_old : ∀ x, linked c x →
    edge_at c' x = edge_at c x ∧ vid c' (efrom c' x) = vid c (efrom c x) ∧
    vid c' (eto c' x) = vid c (eto c x);
}.

Lemma GddCtxNew_inv : ctx_inv GddCtxNew.
Proof.
  assert (∀ v, outs GddCtxNew v = []) as Ho by done. assert (∀ v, ins GddCtxNew v = []) as Hi by done.
  assert (∀ g, ¬ is_graph GddCtxNew g) as Hg by (by intros g ?%elem_of_nil).
  split; try done; try (intros g; intros; by destruct (Hg g)).
  - intros v e. rewrite Ho. by intros ?%elem_of_nil.
  - intros v e. rewrite Hi. by intros ?%elem_of_nil.
  - intros v. rewrite Ho, Hi. split; constructor.
Qed.

Lemma graphs_GetVert c g k : graphs (snd (gddGraphGetVert c g k)) = graphs c.
Proof. unfold gddGraphGetVert. by destruct (gddMapGet _ k). Qed.

Lemma graphs_GetGlobalStat c k : graphs (snd (gddCtxGetGlobalStat c k)) = graphs c.
Proof. unfold gddCtxGetGlobalStat. by destruct (gddMapGet _ k). Qed.

(** The vertices of the new edge and the edge itself, not linked yet. *)
Lemma MakeEdge_spec c g kf kt b :
  ctx_inv c → is_graph c g →
  let '(e, c') := gddGraphMakeEdge c g kf kt b in
  ∃ U, pre_inv c' U ∧ (∀ w, w ∈ U → w = efrom c' e ∨ w = eto c' e) ∧ extends c c' ∧
    graphs c' = graphs c ∧ ¬ linked c e ∧
    (e = length (h_edges c) ∧ length (h_edges c') = S e) ∧ esolid c' e = b ∧
    in_graph c' g (efrom c' e) ∧ in_graph c' g (eto c' e) ∧
    vid c' (efrom c' e) = kf ∧ vid c' (eto c' e) = kt.
Proof.
  intros Hinv Hg. apply pre_inv_nil in Hinv as Hp0. unfold gddGraphMakeEdge.
  pose proof (graphs_GetVert c g kf) as Hgr1.
  pose proof (GetVert_spec c [] g kf Hp0 Hg) as H1. destruct (gddGraphGetVert c g kf) as [vf c1].
  destruct H1 as ((U1 & Hp1 & HU1) & Hx1 & Hf1 & Hvf & He1). pose proof (ex_graph _ _ Hx1 _ Hg) as Hg1.
  pose proof (graphs_GetVert c1 g kt) as Hgr2.
  pose proof (GetVert_spec c1 U1 g kt Hp1 Hg1) as H2. destruct (gddGraphGetVert c1 g kt) as [vt c2].
  destruct H2 as ((U2 & Hp2 & HU2) & Hx2 & Ht2 & Hvt & He2). pose proof (ex_graph _ _ Hx2 _ Hg1) as Hg2.
  assert (in_graph c2 g vf) as Hf2 by (by apply (ex_in _ _ Hx2)).
  assert (vid c2 vf = kf) as Hvf2.
  { rewrite (ex_vid _ _ Hx2); [done|]. by apply (pi_range _ _ Hp1 g Hg1). }
  pose proof (EdgeNew_spec c2 U2 vf vt b Hp2) as H3. assert (graphs (snd (gddEdgeNew c2 vf vt b)) = graphs c2) as Hgr3 by done.
  destruct (gddEdgeNew c2 vf vt b) as [e c3]. destruct H3 as (Hp3 & Hx3 & Hel & Hedge & Helt).
  simpl in Hgr1, Hgr2, Hgr3. exists U2. unfold efrom, eto, esolid. rewrite Hedge. simpl.
  split_and!; try done.
  - intros w [Hw| ->]%HU2; [|by right]. apply HU1 in Hw as [?%elem_of_nil|]; [done|by left].
  - by eapply extends_trans; [eapply extends_trans|].
  - congruence.
  - intros Hl. apply (ci_out c Hinv) in Hl as [_ Hl]. rewrite He2, He1 in Hel. lia.
  - by rewrite He2, He1 in Hel.
  - by apply (ex_in _ _ Hx3).
  - by apply (ex_in _ _ Hx3).
  - rewrite (ex_vid _ _ Hx3); [done|]. by apply (pi_range _ _ Hp2 g Hg2).
  - rewrite (ex_vid _ _ Hx3); [done|]. by apply (pi_range _ _ Hp2 g Hg2).
Qed.

(** Binding both ends of an edge to the counters of their ids. *)
Lemma BindStat_spec c U v k :
  pre_inv c U → (v < length (h_verts c))%nat → vid c v = k →
  let '(s, c1) := gddCtxGetGlobalStat c k in
  let c' := gddVertBindStats c1 v s in
  pre_inv c' (filter (λ w, w ≠ v) U) ∧ extends c c' ∧ h_edges c' = h_edges c ∧ graphs c' = graphs c.
Proof.
  intros Hp Hv Hk. pose proof (GetGlobalStat_spec c U k Hp) as H1.
  pose proof (graphs_GetGlobalStat c k) as Hgr. destruct (gddCtxGetGlobalStat c k) as [s c1].
  destruct H1 as (Hp1 & Hx1 & Hs & He & Hvid).
  destruct (Bind_spec c1 U v s Hp1) as (Hp2 & Hx2 & He2).
  - pose proof (ex_verts _ _ Hx1). lia.
  - by rewrite Hvid, Hk.
  - split_and!; [done|by eapply extends_trans|congruence|done].
Qed.

Lemma AddEdge_spec c segid kf kt b :
  ctx_inv c →
  let '(e, c') := GddCtxAddEdge c segid kf kt b in adds_edge c c' e segid kf kt b.
Proof.
  intros Hinv. apply pre_inv_nil in Hinv as Hp0. unfold GddCtxAddEdge.
  pose proof (GetGraph_spec c [] segid Hp0) as H1. destruct (gddCtxGetGraph c segid) as [g c1].
  destruct H1 as (Hp1 & Hx1 & Hg1 & Hseg & He1 & _). apply pre_inv_nil in Hp1 as Hinv1.
  pose proof (MakeEdge_spec c1 g kf kt b Hinv1 Hg1) as H2.
  destruct (gddGraphMakeEdge c1 g kf kt b) as [e c2].
  destruct H2 as (U & Hp2 & HU & Hx2 & Hgr2 & Hnew & [Hidx Hlen] & Hsolid & Hf & Ht & Hvf & Hvt).
  assert (is_graph c2 g) as Hg2 by (unfold is_graph; by rewrite Hgr2).
  pose proof (proj2 (pi_range _ _ Hp2 g Hg2)) as Hrange.
  pose proof (BindStat_spec c2 U (efrom c2 e) kf Hp2 (Hrange _ Hf) Hvf) as H3.
  destruct (gddCtxGetGlobalStat c2 kf) as [sf c3'] eqn:Esf.
  assert (edge_at c3' e = edge_at c2 e) as ->.
  { pose proof (GetGlobalStat_spec c2 U kf Hp2) as Hs. rewrite Esf in Hs.
    destruct Hs as (_ & _ & _ & He & _). unfold edge_at. by rewrite He. }
  fold (efrom c2 e). set (c3 := gddVertBindStats c3' (efrom c2 e) sf) in *. cbv zeta in H3.
  destruct H3 as (Hp3 & Hx3 & He3 & Hgr3).
  assert (eto c3 e = eto c2 e ∧ efrom c3 e = efrom c2 e ∧ esolid c3 e = esolid c2 e) as (Et3 & Ef3 & Es3)
    by (unfold eto, efrom, esolid, edge_at; by rewrite He3).
  pose proof (BindStat_spec c3 _ (eto c2 e) kt Hp3) as H4.
  destruct (gddCtxGetGlobalStat c3 kt) as [st c4'] eqn:Est.
  assert (edge_at c4' e = edge_at c3 e) as ->.
  { pose proof (GetGlobalStat_spec c3 _ kt Hp3) as Hs. rewrite Est in Hs.
    destruct Hs as (_ & _ & _ & He & _). unfold edge_at. by rewrite He. }
  fold (eto c3 e). rewrite Et3. set (c4 := gddVertBindStats c4' (eto c2 e) st) in *. cbv zeta in H4.
  destruct H4 as (Hp4 & Hx4 & He4 & Hgr4).
  { pose proof (ex_verts _ _ Hx3). specialize (Hrange _ Ht). lia. }
  { by rewrite (ex_vid _ _ Hx3) by (by apply Hrange). }
  rewrite filter_none in Hp4.
  2:{ intros w [Hnf Hw]%list_elem_of_filter Hnt. by destruct (HU w Hw). }
  apply pre_inv_nil in Hp4 as Hinv4.
  assert (extends c1 c4) as Hx14 by (by eapply extends_trans; [eapply extends_trans|]).
  assert (extends c c4) as Hx04 by (by eapply extends_trans).
  assert (edge_at c4 e = edge_at c2 e) as Ee by (unfold edge_at; by rewrite He4, He3).
  assert (efrom c4 e = efrom c2 e ∧ eto c4 e = eto c2 e ∧ esolid c4 e = esolid c2 e) as (Ef & Et & Es)
    by (unfold efrom, eto, esolid; by rewrite Ee).
  assert (extends c2 c4) as Hx24 by (by eapply extends_trans).
  assert (∀ x, linked c4 x ↔ linked c x) as Hl04 by (intros; by eapply extends_linked).
  assert (¬ linked c e) as Hnew0 by (by rewrite <- (extends_linked c c1 []) by done).
  destruct (Link_spec c4 e g) as (Hi5 & He5 & Hgr5 & Hhg5 & Hvid5 & Hl5).
  - done.
  - rewrite He4, He3, Hlen. lia.
  - by rewrite Hl04.
  - by apply Hx24.
  - rewrite Ef. by apply (ex_in _ _ Hx24).
  - rewrite Et. by apply (ex_in _ _ Hx24).
  - set (c5 := gddEdgeLink c4 e) in *.
    assert (∀ x, edge_at c5 x = edge_at c4 x) as Ee5 by (intros; unfold edge_at; by rewrite He5).
    assert (∀ g v, in_graph c5 g v ↔ in_graph c4 g v) as Hin5 by (intros; by apply in_graph_same).
    split; [done|intros x; by rewrite Hl5, Hl04|done|by rewrite He5, He4, He3, <- He1|..]; unfold esolid, efrom, eto in *;
      rewrite ?Ee5, ?Ee, ?Hvid5.
    + done.
    + by rewrite (ex_vid _ _ Hx24) by (by apply Hrange).
    + by rewrite (ex_vid _ _ Hx24) by (by apply Hrange).
    + exists g. rewrite Hgr5, Hgr4, Hgr3, Hgr2, !Hin5. split_and!; [done|by apply (ex_in _ _ Hx24)..].
    + intros x Hx. destruct (linked_ends c [] x Hp0 Hx) as (Hxlt & Hxf & Hxt & _).
      rewrite Ee5, (ex_edge _ _ Hx04) by done. unfold efrom, eto in *.
      by rewrite !Hvid5, !(ex_vid _ _ Hx04).
Qed.

(** ** Theorems *)

(** The context for a list of waits: segment, waiter, holder and whether the edge is solid. *)
Definition build (l : list (Z * Z * Z * bool)) : GddCtx :=
  foldl (λ c w, let '(segid, f, t, b) := w in snd (GddCtxAddEdge c segid f t b)) GddCtxNew l.

Lemma build_snoc l segid f t b :
  build (l ++ [(segid, f, t, b)]) = snd (GddCtxAddEdge (build l) segid f t b).
Proof. unfold build. by rewrite foldl_app. Qed.

Lemma build_spec l :
  ctx_inv (build l) ∧ length (h_edges (build l)) = length l ∧
  (∀ i, linked (build l) i ↔ (i < length l)%nat) ∧
  ∀ i segid f t b, l !! i = Some (segid, f, t, b) →
    esolid (build l) i = b ∧ vid (build l) (efrom (build l) i) = f ∧ vid (build l) (eto (build l) i) = t.
Proof.
  induction l as [|[[[segid f] t] b] l IH] using rev_ind.
  { split_and!; [apply GddCtxNew_inv|done| |done]. intros i. split; [by intros ?%elem_of_nil|simpl; lia]. }
  destruct IH as (Hinv & Hlen & Hl & Hat). rewrite build_snoc, length_app. simpl length.
  pose proof (AddEdge_spec (build l) segid f t b Hinv) as HA.
  destruct (GddCtxAddEdge (build l) segid f t b) as [e c']. simpl snd. destruct HA as [? Hl' _ [He Hlen'] Hs Hf Ht _ Hold].
  rewrite Hlen in He. subst e. split_and!; [done|lia|intros i; rewrite Hl', Hl; lia|].
  intros i s' f' t' b' Hi. destruct (decide (i < length l)%nat) as [Hlt|Hge].
  - rewrite lookup_app_l in Hi by done. destruct (Hat _ _ _ _ _ Hi) as (<- & <- & <-).
    destruct (Hold i) as (Ee & -> & ->); [by apply Hl|]. split_and!; [|done..]. unfold esolid. by rewrite Ee.
  - assert (i = length l) as ->.
    { apply lookup_lt_Some in Hi. rewrite length_app in Hi. simpl in Hi. lia. }
    rewrite lookup_last in Hi. by injection Hi as <- <- <- <-.
Qed.

Lemma filter_index {A} (Q : nat → Prop) `{∀ i, Decision (Q i)} (R : A → Prop) `{∀ x, Decision (R x)} (l : list A) :
  (∀ i x, l !! i = Some x → Q i ↔ R x) →
  length (filter Q (seq 0 (length l))) = length (filter R l).
Proof.
  induction l as [|x l IH] using rev_ind; intros HQ; [done|].
  rewrite length_app, seq_app, !filter_app, !length_app. simpl length at 2. f_equal.
  - apply IH. intros i y Hi. apply HQ. by apply lookup_app_l_Some.
  - simpl seq. rewrite !filter_singleton by exact []. pose proof (HQ (length l) x (lookup_last l x)).
    repeat case_decide; tauto.
Qed.

(** Adding waits one by one to a new context keeps the detector's invariant; every wait
    becomes one linked edge with its ends and kind, the counters of an id are the numbers of waits
    from it and to it over all segments, and the overall counters the number of waits. *)
Lemma gdd_build_counters (l : list (Z * Z * Z * bool)) :
  let c := build l in
  ctx_inv c ∧
  (∀ i, linked c i ↔ (i < length l)%nat) ∧
  (∀ i segid f t b, l !! i = Some (segid, f, t, b) →
     esolid c i = b ∧ vid c (efrom c i) = f ∧ vid c (eto c i) = t) ∧
  (∀ k s, gddMapGet (globals c) k = Some s →
     outdeg (stat_at c s) = Z.of_nat (length (filter (λ w, snd (fst (fst w)) = k) l)) ∧
     indeg (stat_at c s) = Z.of_nat (length (filter (λ w, snd (fst w) = k) l))) ∧
  (indeg (topstat c) = Z.of_nat (length l) ∧ outdeg (topstat c) = Z.of_nat (length l)) ∧
  (GddCtxEmpty c = true ↔ l = []).
Proof.
  intros c. destruct (build_spec l) as (Hinv & Hlen & Hl & Hat). fold c in Hinv, Hlen, Hl, Hat.
  assert (total c = length l) as Htot.
  { unfold total, cnt. rewrite Hlen, filter_all; [apply length_seq|].
    intros i Hi%elem_of_seq. split; [apply Hl; lia|done]. }
  destruct (ci_top c Hinv) as [Hto Hti]. split_and!; try done; try lia.
  - intros k s Hk. destruct (ci_stat c Hinv k s Hk) as (_ & -> & ->).
    unfold deg_out, deg_in, cnt. rewrite Hlen. split; f_equal; apply filter_index;
      intros i [[[sg f] t] b] Hi; destruct (Hat _ _ _ _ _ Hi) as (_ & Ef & Et); simpl;
      rewrite ?Ef, ?Et, Z.eqb_eq, Hl; apply lookup_lt_Some in Hi; tauto.
  - unfold GddCtxEmpty. rewrite Hti, Htot, Z.eqb_eq. destruct l; simpl; split; (done || lia).
Qed.

(** C21: reduction terminates on every context that satisfies the invariant, keeps the invariant,
    and leaves exactly the greatest set of edges on which no reduction rule applies: what is left
    is irreducible and contains every irreducible set of edges of the original graphs, in
    whatever order the vertices were visited. *)
Theorem gdd_reduce_greatest c :
  ctx_inv c →
  ∃ c', GddCtxReduce c = Some c' ∧ ctx_inv c' ∧
    (∀ x, linked c' x → linked c x) ∧
    irreducible c (linked c') ∧
    (∀ S, irreducible c S → (∀ x, S x → linked c x) → ∀ x, S x → linked c' x) ∧
    (GddCtxEmpty c' = true ↔ ∀ S, irreducible c S → (∀ x, S x → linked c x) → ∀ x, ¬ S x).
Proof.
  intros Hinv. destruct (Reduce_spec c Hinv) as (c' & Hc & [Hi Hr Hirr Hmax]). exists c'.
  assert (irreducible c (linked c')) as Hirr'.
  { intros x Hx. destruct (Hirr x Hx) as (H1 & H2 & H3).
    assert (∀ y, efrom c' y = efrom c y ∧ eto c' y = eto c y ∧ esolid c' y = esolid c y) as Hst
      by (intros; by apply restricts_static).
    setoid_rewrite (λ y, proj1 (Hst y)) in H1. setoid_rewrite (λ y, proj1 (proj2 (Hst y))) in H1.
    setoid_rewrite (λ y, proj1 (Hst y)) in H2. setoid_rewrite (λ y, proj1 (proj2 (Hst y))) in H2.
    setoid_rewrite (λ y, proj1 (Hst y)) in H3. setoid_rewrite (λ y, proj1 (proj2 (Hst y))) in H3.
    setoid_rewrite (λ y, proj2 (proj2 (Hst y))) in H3. setoid_rewrite (rs_vid _ _ Hr) in H1.
    setoid_rewrite (rs_vid _ _ Hr) in H2. done. }
  split_and!; try done; [apply Hr|]. rewrite Empty_spec by done. split.
  - intros Hno S HS Hsub x Hx. by apply (Hno x), (Hmax S).
  - intros Hno x Hx. by apply (Hno (linked c') Hirr' (rs_linked _ _ Hr) x).
Qed.

(** Two segments: a cross-segment cycle 1 -> 2 -> 1 of solid edges and a waiter 3. *)
Definition wit_waits : list (Z * Z * Z * bool) := [(0, 1, 2, true); (1, 2, 1, true); (1, 3, 1, false)].

Lemma gdd_reduce_greatest_witness :
  ∃ c', GddCtxReduce (build wit_waits) = Some c' ∧ (total c' = 2)%nat ∧
    irreducible (build wit_waits) (linked c').
Proof.
  destruct (gdd_reduce_greatest (build wit_waits)) as (c' & Hc & _ & _ & Hirr & _).
  - apply build_spec.
  - exists c'. split; [exact Hc|]. split; [|exact Hirr]. vm_compute in Hc. by injection Hc as <-.
Defined.

(** Reduction detects deadlocks.  If the waits can be ranked so that every wait goes down
    (there is no cycle of waits between ids, over all segments), the reduced context is empty;
    and a closed chain of solid waits survives reduction, edge by edge. *)
Lemma gdd_reduce_detects c c' :
  ctx_inv c → GddCtxReduce c = Some c' →
  (∀ rank : Z → nat,
     (∀ x, linked c x → (rank (vid c (eto c x)) < rank (vid c (efrom c x)))%nat) →
     GddCtxEmpty c' = true) ∧
  (∀ cycle : list nat, cycle ≠ [] →
     (∀ i x y, cycle !! i = Some x → cycle !! (S i mod length cycle)%nat = Some y →
        linked c x ∧ esolid c x = true ∧ vid c (eto c x) = vid c (efrom c y)) →
     (∀ x, x ∈ cycle → linked c' x) ∧ GddCtxEmpty c' = false).
Proof.
  intros Hinv Hc. destruct (Reduce_spec c Hinv) as (c1 & Hc1 & [Hi Hr Hirr Hmax]).
  rewrite Hc in Hc1. injection Hc1 as <-. split.
  - intros rank Hrank. apply Empty_spec; [done|].
    assert (∀ n x, (rank (vid c (eto c x)) < n)%nat → ¬ linked c' x) as Hno; [|eauto].
    intros n. induction n as [|n IH]; intros x Hn Hx; [lia|].
    destruct (Hirr x Hx) as (_ & (y & Hy & Ey) & _).
    destruct (restricts_static c c' x Hr) as (_ & Et & _), (restricts_static c c' y Hr) as (Ef & _).
    rewrite Ef, Et, !(rs_vid _ _ Hr) in Ey. apply (IH y); [|done].
    pose proof (Hrank y (rs_linked _ _ Hr y Hy)) as Hlt. rewrite Ey in Hlt. lia.
  - intros cycle Hne Hcyc. set (n := length cycle) in *.
    assert (0 < n)%nat as Hn by (destruct cycle; [done|simpl in *; lia]).
    assert (∀ i, (i < n)%nat → ∃ x y, cycle !! i = Some x ∧ cycle !! (S i mod n)%nat = Some y ∧
      linked c x ∧ esolid c x = true ∧ vid c (eto c x) = vid c (efrom c y)) as Hnext.
    { intros i Hi'. destruct (lookup_lt_is_Some_2 cycle i Hi') as [x Hx].
      destruct (lookup_lt_is_Some_2 cycle (S i mod n)) as [y Hy]; [apply Nat.mod_upper_bound; lia|].
      exists x, y. destruct (Hcyc i x y Hx Hy) as (? & ? & ?). done. }
    assert (irreducible c (λ x, x ∈ cycle)) as HS.
    { intros x Hx. apply list_elem_of_lookup in Hx as [i Hx]. pose proof (lookup_lt_Some _ _ _ Hx) as Hlt.
      split_and!.
      - destruct (Hnext ((i + (n - 1)) mod n)%nat) as (p & q & Hp & Hq & _ & _ & E);
          [apply Nat.mod_upper_bound; lia|].
        assert (S ((i + (n - 1)) mod n) mod n = i)%nat as Ei.
        { rewrite <- Nat.add_1_r, Nat.Div0.add_mod_idemp_l.
          replace (i + (n - 1) + 1)%nat with (i + 1 * n)%nat by lia.
          by rewrite Nat.Div0.mod_add, Nat.mod_small. }
        rewrite Ei, Hx in Hq. injection Hq as <-. exists p. split; [by eapply list_elem_of_lookup_2|done].
      - destruct (Hnext i Hlt) as (p & q & Hp & Hq & _ & _ & E). rewrite Hx in Hp. injection Hp as <-.
        exists q. split; [by eapply list_elem_of_lookup_2|done].
      - destruct (Hnext i Hlt) as (p & q & Hp & Hq & _ & Hs & _). rewrite Hx in Hp. injection Hp as <-. congruence. }
    assert (∀ x, x ∈ cycle → linked c x) as Hsub.
    { intros x Hx. apply list_elem_of_lookup in Hx as [i Hx].
      destruct (Hnext i (lookup_lt_Some _ _ _ Hx)) as (p & q & Hp & _ & Hl & _). congruence. }
    assert (∀ x, x ∈ cycle → linked c' x) as Hkeep by (by apply Hmax). split; [done|].
    apply not_true_is_false. rewrite Empty_spec by done. intros Hno.
    destruct cycle as [|x cycle]; [done|]. apply (Hno x), Hkeep. left.
Qed.

(** C22: when every id at an edge is positive, breaking the deadlocks of a context terminates and
    leaves no edge; the cancelled ids are ids of waiting or holding vertices, reported from the
    youngest (greatest) down without repetition, and enough: every nonempty irreducible set of
    waits, hence every deadlock, has an edge at a cancelled id. *)
Theorem gdd_break_deadlock c :
  ctx_inv c → (∀ k, live_vid c k → 0 < k) →
  ∃ vids c', GddCtxBreakDeadLock c = Some (vids, c') ∧
    ctx_inv c' ∧ GddCtxEmpty c' = true ∧
    StronglySorted Z.gt vids ∧ (∀ k, k ∈ vids → live_vid c k) ∧
    ∀ S, irreducible c S → (∀ x, S x → linked c x) →
      (∀ x k, S x → k ∈ vids → vid c (efrom c x) ≠ k ∧ vid c (eto c x) ≠ k) → ∀ x, ¬ S x.
Proof.
  intros Hinv Hpos. unfold GddCtxBreakDeadLock.
  destruct (break_loop_spec (length (h_edges c)) c [] Hinv Hpos) as (vids & c' & Hb & []).
  { apply cnt_le_edges. }
  by exists vids, c'.
Qed.

Lemma gdd_break_deadlock_witness :
  ∃ vids c', GddCtxBreakDeadLock (build wit_waits) = Some (vids, c') ∧ GddCtxEmpty c' = true ∧
    StronglySorted Z.gt vids.
Proof.
  destruct (gdd_break_deadlock (build wit_waits)) as (vids & c' & Hb & _ & He & Hs & _).
  - apply build_spec.
  - destruct (build_spec wit_waits) as (_ & _ & Hl & Hat). intros k (x & Hx & Hk).
    rewrite Hl in Hx. destruct x as [|[|[|x]]]; [..|simpl in Hx; lia].
    + destruct (Hat 0%nat _ _ _ _ eq_refl) as (_ & Ef & Et). rewrite Ef, Et in Hk. lia.
    + destruct (Hat 1%nat _ _ _ _ eq_refl) as (_ & Ef & Et). rewrite Ef, Et in Hk. lia.
    + destruct (Hat 2%nat _ _ _ _ eq_refl) as (_ & Ef & Et). rewrite Ef, Et in Hk. lia.
  - exists vids, c'. split; [exact Hb|]. split; [exact He|exact Hs].
Defined.

(** Two distributed transactions whose 32-bit identifiers are above [2^31], waiting for each
    other on two segments; the vertex ids are [int]. *)
Definition wide_waits : list (Z * Z * Z * bool) :=
  [(0, s32 2147483649, s32 2147483650, true); (1, s32 2147483650, s32 2147483649, true)].

(** An example: with these two identifiers above [2^31], which are negative as vertex ids, the search for
    the greatest id returns its start value 0, no vertex is removed, and the loop that breaks
    deadlocks makes no progress however often it is repeated. *)
Lemma gdd_break_wide_ids_stuck fuel vids :
  let c := build wide_waits in
  GddCtxEmpty c = false ∧ gddCtxGetMaxVid c = 0 ∧ break_loop fuel c vids = None.
Proof.
  intros c. split; [by vm_compute|]. split; [by vm_compute|].
  assert (GddCtxEmpty c = false) as He by (by vm_compute).
  assert (GddCtxReduce (gddCtxRemoveVid c (gddCtxGetMaxVid c)) = Some c) as Hr by (by vm_compute).
  clearbody c. revert vids. induction fuel as [|fuel IH]; intros vids; cbn [break_loop]; rewrite He; [done|].
  rewrite Hr. apply IH.
Qed.
