(* ===== verification/FtsProbe.v ===== *)
(** * The fault tolerance prober ([fts/ftsprobe.c], [fts/fts.c:probeWalRepUpdateConfig])

    The prober connects to every primary, sends it a message, reads the answer and, from the
    answers, updates the segment configuration and sends further messages (promote the mirror of a
    failed primary, turn synchronous replication off where the mirror is down).  Every segment
    pair has its own state machine, driven by a loop of connect, poll, send, receive, retry and
    process steps.

    What libpq, [poll] and the clock answer is not under the prober's control: it is the
    interface [FtsWorld], and every theorem holds for every implementation of it that obeys [FtsWorldLaws]. *)
From S2P Require Import Prelude.
From Stdlib Require Import String Ascii.
#[local] Open Scope string_scope.
#[local] Open Scope Z_scope.

(** ** Configuration *)

Inductive SegRole := GP_SEGMENT_CONFIGURATION_ROLE_PRIMARY | GP_SEGMENT_CONFIGURATION_ROLE_MIRROR.
Inductive SegStatus := GP_SEGMENT_CONFIGURATION_STATUS_UP | GP_SEGMENT_CONFIGURATION_STATUS_DOWN.
Inductive SegMode := GP_SEGMENT_CONFIGURATION_MODE_INSYNC | GP_SEGMENT_CONFIGURATION_MODE_NOTINSYNC.

#[global] Instance SegRole_eq_dec : EqDecision SegRole.
Proof. solve_decision. Defined.
#[global] Instance SegStatus_eq_dec : EqDecision SegStatus.
Proof. solve_decision. Defined.
#[global] Instance SegMode_eq_dec : EqDecision SegMode.
Proof. solve_decision. Defined.

Record GpSegConfigEntry := mkGpSegConfigEntry {
  dbid : Z;
  segindex : Z;
  role : SegRole;
  mode : SegMode;
  status : SegStatus;
  port : Z;
  hostip : string;
}.

#[global] Instance GpSegConfigEntry_eq_dec : EqDecision GpSegConfigEntry.
Proof. solve_decision. Defined.

Record CdbComponentDatabaseInfo := mkCdbInfo { config : GpSegConfigEntry }.

Record CdbComponentDatabases := mkCdbs {
  segment_db_info : list CdbComponentDatabaseInfo;
  total_segments : Z;
}.

Definition SEGMENT_IS_ACTIVE_PRIMARY (p : CdbComponentDatabaseInfo) : bool :=
  bool_decide (role (config p) = GP_SEGMENT_CONFIGURATION_ROLE_PRIMARY).
Definition SEGMENT_IS_ALIVE (p : CdbComponentDatabaseInfo) : bool :=
  bool_decide (status (config p) = GP_SEGMENT_CONFIGURATION_STATUS_UP).
Definition SEGMENT_IS_IN_SYNC (p : CdbComponentDatabaseInfo) : bool :=
  bool_decide (mode (config p) = GP_SEGMENT_CONFIGURATION_MODE_INSYNC).

(** ** States and messages *)

Inductive FtsMessageState :=
  | FTS_PROBE_SEGMENT | FTS_SYNCREP_OFF_SEGMENT | FTS_PROMOTE_SEGMENT
  | FTS_PROBE_RETRY_WAIT | FTS_SYNCREP_OFF_RETRY_WAIT | FTS_PROMOTE_RETRY_WAIT
  | FTS_PROBE_SUCCESS | FTS_SYNCREP_OFF_SUCCESS | FTS_PROMOTE_SUCCESS
  | FTS_PROBE_FAILED | FTS_SYNCREP_OFF_FAILED | FTS_PROMOTE_FAILED
  | FTS_RESPONSE_PROCESSED.

#[global] Instance FtsMessageState_eq_dec : EqDecision FtsMessageState.
Proof. solve_decision. Defined.

Definition IsFtsMessageStateSuccess (s : FtsMessageState) : bool :=
  match s with FTS_PROBE_SUCCESS | FTS_SYNCREP_OFF_SUCCESS | FTS_PROMOTE_SUCCESS => true | _ => false end.

Definition IsFtsMessageStateFailed (s : FtsMessageState) : bool :=
  match s with FTS_PROBE_FAILED | FTS_SYNCREP_OFF_FAILED | FTS_PROMOTE_FAILED => true | _ => false end.

Definition nextSuccessState (s : FtsMessageState) : result FtsMessageState :=
  match s with
  | FTS_PROBE_SEGMENT => Ok FTS_PROBE_SUCCESS
  | FTS_SYNCREP_OFF_SEGMENT => Ok FTS_SYNCREP_OFF_SUCCESS
  | FTS_PROMOTE_SEGMENT => Ok FTS_PROMOTE_SUCCESS
  | _ => Err "cannot determine next success state"
  end.

Definition nextFailedState (s : FtsMessageState) : result FtsMessageState :=
  match s with
  | FTS_PROBE_SEGMENT | FTS_PROBE_FAILED | FTS_PROBE_RETRY_WAIT => Ok FTS_PROBE_FAILED
  | FTS_SYNCREP_OFF_SEGMENT | FTS_SYNCREP_OFF_FAILED | FTS_SYNCREP_OFF_RETRY_WAIT =>
      Ok FTS_SYNCREP_OFF_FAILED
  | FTS_PROMOTE_SEGMENT | FTS_PROMOTE_FAILED | FTS_PROMOTE_RETRY_WAIT => Ok FTS_PROMOTE_FAILED
  | FTS_PROBE_SUCCESS | FTS_SYNCREP_OFF_SUCCESS | FTS_PROMOTE_SUCCESS | FTS_RESPONSE_PROCESSED =>
      Err "cannot determine next failed state"
  end.

Inductive FtsMessageType := FTS_MSG_PROBE | FTS_MSG_SYNCREP_OFF | FTS_MSG_PROMOTE.

(** The text ["%s dbid=%d contid=%d"] by its parts. *)
Record FtsMessage := mkFtsMessage { msg_type : FtsMessageType; msg_dbid : Z; msg_contid : Z }.

Record fts_result := mkFtsResult {
  isPrimaryAlive : bool;
  isMirrorAlive : bool;
  isInSync : bool;
  isSyncRepEnabled : bool;
  isRoleMirror : bool;
  retryRequested : bool;
}.

(** The result structure after [memset] to zero. *)
Definition fts_result_zero : fts_result := mkFtsResult false false false false false false.

(** ** libpq, [poll] and the clock *)

Inductive ConnStatusType :=
  | CONNECTION_OK | CONNECTION_BAD | CONNECTION_STARTED | CONNECTION_MADE
  | CONNECTION_AWAITING_RESPONSE | CONNECTION_AUTH_OK | CONNECTION_SETENV
  | CONNECTION_SSL_STARTUP | CONNECTION_NEEDED.

#[global] Instance ConnStatusType_eq_dec : EqDecision ConnStatusType.
Proof. solve_decision. Defined.

Inductive PostgresPollingStatusType :=
  | PGRES_POLLING_FAILED | PGRES_POLLING_READING | PGRES_POLLING_WRITING | PGRES_POLLING_OK
  | PGRES_POLLING_ACTIVE.

(** A result as the prober looks at it: status is tuples-ok, size, and the integers of the row. *)
Record PGresult := mkPGresult {
  PGRES_TUPLES_OK : bool;
  PQntuples : Z;
  PQnfields : Z;
  PQgetvalue : Z → Z;
}.

(** The outcome of [poll]: interrupted, failed, or the returned events by position. *)
Inductive poll_outcome := poll_eintr | poll_error | poll_revs (revents : list Z).

Class FtsWorld (W conn : Type) := {
  PQconnectStart : string → Z → W → option conn * W;
  PQconnectPoll : conn → W → PostgresPollingStatusType * conn * W;
  PQstatus : conn → ConnStatusType;
  PQasyncIdle : conn → bool;
  PQerrorMessage : conn → string;
  PQsendQuery : conn → FtsMessage → W → bool * conn * W;
  PQconsumeInput : conn → W → bool * conn * W;
  PQisBusy : conn → W → bool * conn * W;
  PQgetResult : conn → W → option PGresult * conn * W;
  PQfinish : conn → W → W;
  sys_poll : list (option conn * Z) → W → poll_outcome * W;
  sys_time : W → Z * W;
}.

Definition POLLIN : Z := 0x001.
Definition POLLOUT : Z := 0x004.
Definition POLLERR : Z := 0x008.
Definition POLLHUP : Z := 0x010.
Definition POLLNVAL : Z := 0x020.

(** The documented behaviour the prober relies on: [poll] returns of the requested events only
    those asked for, and a query sent successfully leaves the connection open. *)
Class FtsWorldLaws (W conn : Type) `{FtsWorld W conn} := {
  poll_contract : ∀ fds w revs w' i c ev,
    sys_poll fds w = (poll_revs revs, w') → fds !! i = Some (c, ev) →
    Z.land (default 0 (revs !! i)) (Z.lor POLLIN POLLOUT) =
    Z.land (default 0 (revs !! i)) (Z.land ev (Z.lor POLLIN POLLOUT));
  send_keeps_open : ∀ c m w c' w',
    PQstatus c = CONNECTION_OK → PQsendQuery c m w = (true, c', w') → PQstatus c' = CONNECTION_OK;
}.

(** ** The context of a probe cycle *)

Section Prober.
Context {W conn : Type} `{FtsWorld W conn}.
Context (gp_fts_probe_retries gp_fts_probe_timeout : Z).

Record fts_segment_info := mkFtsInfo {
  primary_cdbinfo : CdbComponentDatabaseInfo;
  mirror_cdbinfo : CdbComponentDatabaseInfo;
  seg_result : fts_result;
  state : FtsMessageState;
  poll_events : Z;
  poll_revents : Z;
  fd_index : Z;
  startTime : Z;
  retryStartTime : Z;
  conn_of : option conn;
  retry_count : Z;
  xlogrecptr : Z;
  recovery_making_progress : bool;
}.

Definition set_primary_cdbinfo (v : CdbComponentDatabaseInfo) (i : fts_segment_info) : fts_segment_info :=
  mkFtsInfo v (mirror_cdbinfo i) (seg_result i) (state i) (poll_events i) (poll_revents i)
    (fd_index i) (startTime i) (retryStartTime i) (conn_of i) (retry_count i) (xlogrecptr i)
    (recovery_making_progress i).
Definition set_mirror_cdbinfo (v : CdbComponentDatabaseInfo) (i : fts_segment_info) : fts_segment_info :=
  mkFtsInfo (primary_cdbinfo i) v (seg_result i) (state i) (poll_events i) (poll_revents i)
    (fd_index i) (startTime i) (retryStartTime i) (conn_of i) (retry_count i) (xlogrecptr i)
    (recovery_making_progress i).
Definition set_result (v : fts_result) (i : fts_segment_info) : fts_segment_info :=
  mkFtsInfo (primary_cdbinfo i) (mirror_cdbinfo i) v (state i) (poll_events i) (poll_revents i)
    (fd_index i) (startTime i) (retryStartTime i) (conn_of i) (retry_count i) (xlogrecptr i)
    (recovery_making_progress i).
Definition set_state (v : FtsMessageState) (i : fts_segment_info) : fts_segment_info :=
  mkFtsInfo (primary_cdbinfo i) (mirror_cdbinfo i) (seg_result i) v (poll_events i)
    (poll_revents i) (fd_index i) (startTime i) (retryStartTime i) (conn_of i) (retry_count i)
    (xlogrecptr i) (recovery_making_progress i).
Definition set_poll_events (v : Z) (i : fts_segment_info) : fts_segment_info :=
  mkFtsInfo (primary_cdbinfo i) (mirror_cdbinfo i) (seg_result i) (state i) v (poll_revents i)
    (fd_index i) (startTime i) (retryStartTime i) (conn_of i) (retry_count i) (xlogrecptr i)
    (recovery_making_progress i).
Definition set_poll_revents (v : Z) (i : fts_segment_info) : fts_segment_info :=
  mkFtsInfo (primary_cdbinfo i) (mirror_cdbinfo i) (seg_result i) (state i) (poll_events i) v
    (fd_index i) (startTime i) (retryStartTime i) (conn_of i) (retry_count i) (xlogrecptr i)
    (recovery_making_progress i).
Definition set_fd_index (v : Z) (i : fts_segment_info) : fts_segment_info :=
  mkFtsInfo (primary_cdbinfo i) (mirror_cdbinfo i) (seg_result i) (state i) (poll_events i)
    (poll_revents i) v (startTime i) (retryStartTime i) (conn_of i) (retry_count i)
    (xlogrecptr i) (recovery_making_progress i).
Definition set_startTime (v : Z) (i : fts_segment_info) : fts_segment_info :=
  mkFtsInfo (primary_cdbinfo i) (mirror_cdbinfo i) (seg_result i) (state i) (poll_events i)
    (poll_revents i) (fd_index i) v (retryStartTime i) (conn_of i) (retry_count i)
    (xlogrecptr i) (recovery_making_progress i).
Definition set_retryStartTime (v : Z) (i : fts_segment_info) : fts_segment_info :=
  mkFtsInfo (primary_cdbinfo i) (mirror_cdbinfo i) (seg_result i) (state i) (poll_events i)
    (poll_revents i) (fd_index i) (startTime i) v (conn_of i) (retry_count i) (xlogrecptr i)
    (recovery_making_progress i).
Definition set_conn (v : option conn) (i : fts_segment_info) : fts_segment_info :=
  mkFtsInfo (primary_cdbinfo i) (mirror_cdbinfo i) (seg_result i) (state i) (poll_events i)
    (poll_revents i) (fd_index i) (startTime i) (retryStartTime i) v (retry_count i)
    (xlogrecptr i) (recovery_making_progress i).
Definition set_retry_count (v : Z) (i : fts_segment_info) : fts_segment_info :=
  mkFtsInfo (primary_cdbinfo i) (mirror_cdbinfo i) (seg_result i) (state i) (poll_events i)
    (poll_revents i) (fd_index i) (startTime i) (retryStartTime i) (conn_of i) v (xlogrecptr i)
    (recovery_making_progress i).
Definition set_xlogrecptr (v : Z) (i : fts_segment_info) : fts_segment_info :=
  mkFtsInfo (primary_cdbinfo i) (mirror_cdbinfo i) (seg_result i) (state i) (poll_events i)
    (poll_revents i) (fd_index i) (startTime i) (retryStartTime i) (conn_of i) (retry_count i) v
    (recovery_making_progress i).
Definition set_recovery_making_progress (v : bool) (i : fts_segment_info) : fts_segment_info :=
  mkFtsInfo (primary_cdbinfo i) (mirror_cdbinfo i) (seg_result i) (state i) (poll_events i)
    (poll_revents i) (fd_index i) (startTime i) (retryStartTime i) (conn_of i) (retry_count i)
    (xlogrecptr i) v.

(** A new entry of the zeroed array. *)
Definition fts_info_zero (primary mirror : CdbComponentDatabaseInfo) : fts_segment_info :=
  mkFtsInfo primary mirror fts_result_zero FTS_PROBE_SEGMENT 0 0 0 0 0 None 0 0 false.

(** What the cycle uses outside the context: the flag that suspends the prober (set by the caller
    before a cycle, [fts.c:FtsLoop]), the world, the catalog by [dbid], the history
    table, the status bytes of shared memory; [sent] records, for the specification, each message
    handed to libpq with the catalog of that moment. *)
Record FtsEnv := mkFtsEnv {
  skipFtsProbe : bool;
  world : W;
  catalog : gmap Z GpSegConfigEntry;
  history : list (Z * Z * SegRole * bool * bool);
  fts_status : gmap Z Z;
  sent : list (FtsMessage * gmap Z GpSegConfigEntry);
}.

Definition FtsM (A : Type) : Type := FtsEnv → result (A * FtsEnv).

#[global] Instance FtsM_ret : MRet FtsM := λ A a s, Ok (a, s).
#[global] Instance FtsM_bind : MBind FtsM := λ A B f m s,
  match m s with Ok (a, s') => f a s' | Err e => Err e end.

Definition elog_error {A} (msg : string) : FtsM A := λ _, Err msg.

(** Run a call of the interface on the world. *)
Definition on_world {A} (f : W → A * W) : FtsM A := λ s,
  let '(a, w) := f (world s) in
  Ok (a, mkFtsEnv (skipFtsProbe s) w (catalog s) (history s) (fts_status s) (sent s)).

Definition FtsIsActive : FtsM bool := λ s, Ok (negb (skipFtsProbe s), s).

Definition lift_result {A} (r : result A) : FtsM A := λ s,
  match r with Ok a => Ok (a, s) | Err e => Err e end.

(** [PQstatus] of a null connection is bad, [PQfinish] of it does nothing. *)
Definition conn_status (i : fts_segment_info) : ConnStatusType :=
  match conn_of i with Some c => PQstatus c | None => CONNECTION_BAD end.

Definition finish_conn (c : option conn) : FtsM unit :=
  match c with Some c => on_world (λ w, (tt, PQfinish c w)) | None => mret tt end.

(** ** Searching a peer, connecting *)

Definition FtsGetPeerSegment (cdbs : CdbComponentDatabases) (content dbid' : Z) :
    option CdbComponentDatabaseInfo :=
  List.find (λ seg, (segindex (config seg) =? content) && negb (dbid (config seg) =? dbid'))
    (segment_db_info cdbs).

Definition allDone (infos : list fts_segment_info) : bool :=
  forallb (λ i, bool_decide (state i = FTS_RESPONSE_PROCESSED)) infos.

Definition fail_segment (i : fts_segment_info) : FtsM fts_segment_info :=
  s ← lift_result (nextFailedState (state i)); mret (set_state s i).

Definition ftsConnectStart (i : fts_segment_info) : FtsM (bool * fts_segment_info) :=
  let cfg := config (primary_cdbinfo i) in
  c ← on_world (PQconnectStart (hostip cfg) (port cfg));
  let i := set_conn c i in
  match c with
  | None => elog_error "FTS: cannot create libpq connection object, possibly out of memory"
  | Some c =>
      if bool_decide (PQstatus c = CONNECTION_BAD) then mret (false, i)
      else
        let i := set_poll_events (Z.lor (poll_events i) POLLOUT) i in
        now ← on_world sys_time;
        mret (true, set_startTime now i)
  end.

(** The part of [s] from the first occurrence of [pat]. *)
Definition strstr (s pat : string) : option string :=
  match String.index 0 pat s with
  | Some n => Some (String.substring n (String.length s - n) s)
  | None => None
  end.

Definition POSTMASTER_IN_RECOVERY_MSG : string := "the database system is in recovery mode".
Definition POSTMASTER_IN_RECOVERY_DETAIL_MSG : string := "last replayed record at".

Definition is_space (c : ascii) : bool :=
  let n := nat_of_ascii c in ((9 <=? n) && (n <=? 13) || (n =? 32))%nat.

Definition hex_digit (c : ascii) : option Z :=
  let n := Z.of_nat (nat_of_ascii c) in
  if (48 <=? n) && (n <=? 57) then Some (n - 48)
  else if (65 <=? n) && (n <=? 70) then Some (n - 55)
  else if (97 <=? n) && (n <=? 102) then Some (n - 87)
  else None.

Fixpoint skip_spaces (s : list ascii) : list ascii :=
  match s with c :: s' => if is_space c then skip_spaces s' else s | [] => [] end.

Fixpoint scan_digits (acc : Z) (s : list ascii) : Z * list ascii :=
  match s with
  | c :: s' => match hex_digit c with Some d => scan_digits (acc * 16 + d) s' | None => (acc, s) end
  | [] => (acc, [])
  end.

(** [%X] of [sscanf]: blanks, a sign, the prefix [0x], at least one digit; the number saturates
    as [strtoul] does and is stored in 32 bits. *)
Definition scan_hex (s : list ascii) : option (Z * list ascii) :=
  let s := skip_spaces s in
  let '(neg, s) := match s with
                   | "-"%char :: s' => (true, s') | "+"%char :: s' => (false, s') | _ => (false, s)
                   end in
  let s := match s with "0"%char :: "x"%char :: s' | "0"%char :: "X"%char :: s' => s' | _ => s end in
  match s with
  | c :: _ =>
      match hex_digit c with
      | Some _ =>
          let '(v, rest) := scan_digits 0 s in
          let v := if v <? 2 ^ 64 then (if neg : bool then - v else v) else 2 ^ 64 - 1 in
          Some (u32 v, rest)
      | None => None
      end
  | [] => None
  end.

(** [sscanf(ptr, DETAIL_MSG " %X/%X\n", ...) == 2] with the two numbers. *)
Definition scan_location (ptr : string) : option (Z * Z) :=
  let s := drop (String.length POSTMASTER_IN_RECOVERY_DETAIL_MSG) (String.list_ascii_of_string ptr) in
  '(xlogid, s) ← scan_hex s;
  match s with
  | "/"%char :: s => '(xrecoff, _) ← scan_hex s; Some (xlogid, xrecoff)
  | _ => None
  end.

Definition checkIfFailedDueToRecoveryInProgress (i : fts_segment_info) : fts_segment_info :=
  let msg := match conn_of i with Some c => PQerrorMessage c | None => "connection pointer is NULL" end in
  match strstr msg POSTMASTER_IN_RECOVERY_MSG with
  | None => i
  | Some _ =>
      match strstr msg POSTMASTER_IN_RECOVERY_DETAIL_MSG ≫= scan_location with
      | None => i
      | Some (tmp_xlogid, tmp_xrecoff) =>
          let tmpptr := Z.lor (Z.shiftl tmp_xlogid 32) tmp_xrecoff in
          if tmpptr <=? xlogrecptr i then i
          else set_xlogrecptr tmpptr (set_recovery_making_progress true i)
      end
  end.

(** The states in which a message is to be sent. *)
Definition is_segment_state (s : FtsMessageState) : bool :=
  match s with FTS_PROBE_SEGMENT | FTS_SYNCREP_OFF_SEGMENT | FTS_PROMOTE_SEGMENT => true | _ => false end.

(** One turn of the loop of [ftsConnect]. *)
Definition ftsConnect_seg (i : fts_segment_info) : FtsM fts_segment_info :=
  if bool_decide (conn_status i = CONNECTION_OK) then mret i
  else if negb (is_segment_state (state i)) then mret i
  else
    let i := set_recovery_making_progress false i in
    match conn_of i with
    | None =>
        '(ok, i) ← ftsConnectStart i;
        if ok : bool then mret i else fail_segment i
    | Some c =>
        if Z.land (poll_revents i) (Z.lor POLLOUT POLLIN) =? 0 then mret i
        else
          '(r, c) ← on_world (PQconnectPoll c);
          let i := set_conn (Some c) i in
          match r with
          | PGRES_POLLING_OK => mret (set_poll_events POLLOUT i)
          | PGRES_POLLING_READING => mret (set_poll_events (Z.lor (poll_events i) POLLIN) i)
          | PGRES_POLLING_WRITING => mret (set_poll_events (Z.lor (poll_events i) POLLOUT) i)
          | PGRES_POLLING_FAILED =>
              i ← fail_segment i; mret (checkIfFailedDueToRecoveryInProgress i)
          | PGRES_POLLING_ACTIVE => elog_error "FTS: invalid response to PQconnectPoll"
          end
    end.

(** A loop over the pairs that handles each with [f]. *)
Fixpoint for_infos (f : fts_segment_info → FtsM fts_segment_info) (infos : list fts_segment_info) :
    FtsM (list fts_segment_info) :=
  match infos with
  | [] => mret []
  | i :: infos => i' ← f i; infos' ← for_infos f infos; mret (i' :: infos')
  end.

Definition ftsConnect : list fts_segment_info → FtsM (list fts_segment_info) := for_infos ftsConnect_seg.

(** ** Polling *)

Definition ftsCheckTimeout (now : Z) (i : fts_segment_info) : FtsM fts_segment_info :=
  if negb (IsFtsMessageStateSuccess (state i)) && (gp_fts_probe_timeout <? s32 (now - startTime i))
  then fail_segment i else mret i.

Definition wants_poll (i : fts_segment_info) : bool :=
  negb (Z.land (poll_events i) (Z.lor POLLIN POLLOUT) =? 0).

(** The first loop of [ftsPoll]: the entries of [PollFds] and the index of each pair in it. *)
Fixpoint fill_pollfds (nfds : Z) (infos : list fts_segment_info) :
    list fts_segment_info * list (option conn * Z) :=
  match infos with
  | [] => ([], [])
  | i :: infos =>
      if wants_poll i then
        let '(infos', fds) := fill_pollfds (nfds + 1) infos in
        (set_fd_index nfds i :: infos', (conn_of i, poll_events i) :: fds)
      else
        let '(infos', fds) := fill_pollfds nfds infos in
        (set_fd_index (-1) i :: infos', fds)
  end.

(** One turn of the second loop; [revs] holds the returned events, 0 where [poll] was interrupted. *)
Definition record_revents (revs : list Z) (now : Z) (i : fts_segment_info) : FtsM fts_segment_info :=
  if wants_poll i then
    let i := set_poll_revents (default 0 (revs !! Z.to_nat (fd_index i))) i in
    i ← (if negb (Z.land (poll_revents i) (poll_events i) =? 0) then mret (set_poll_events 0 i)
         else if negb (Z.land (poll_revents i) (Z.lor POLLHUP POLLERR) =? 0) then fail_segment i
         else if negb (poll_revents i =? 0) then fail_segment i
         else mret i);
    ftsCheckTimeout now i
  else mret i.

Definition ftsPoll (infos : list fts_segment_info) : FtsM (list fts_segment_info) :=
  let '(infos, fds) := fill_pollfds 0 infos in
  match fds with
  | [] => mret infos
  | _ =>
      r ← on_world (sys_poll fds);
      match r with
      | poll_error => elog_error "FTS: ftsPoll() failed"
      | poll_eintr => now ← on_world sys_time; for_infos (record_revents [] now) infos
      | poll_revs revs => now ← on_world sys_time; for_infos (record_revents revs now) infos
      end
  end.

(** ** Sending and receiving *)

Definition log_sent (m : FtsMessage) : FtsM unit := λ s,
  Ok (tt, mkFtsEnv (skipFtsProbe s) (world s) (catalog s) (history s) (fts_status s)
            ((m, catalog s) :: sent s)).

Definition message_type (s : FtsMessageState) : FtsMessageType :=
  match s with
  | FTS_PROBE_SEGMENT => FTS_MSG_PROBE
  | FTS_SYNCREP_OFF_SEGMENT => FTS_MSG_SYNCREP_OFF
  | _ => FTS_MSG_PROMOTE
  end.

Definition ftsSend_seg (i : fts_segment_info) : FtsM fts_segment_info :=
  if negb (is_segment_state (state i)) then mret i
  else
    match conn_of i with
    | None => mret i
    | Some c =>
        if negb (bool_decide (PQstatus c = CONNECTION_OK)) || negb (PQasyncIdle c)
           || (Z.land (poll_revents i) POLLOUT =? 0) then mret i
        else
          let cfg := config (primary_cdbinfo i) in
          let message := mkFtsMessage (message_type (state i)) (dbid cfg) (segindex cfg) in
          _ ← log_sent message;
          '(ok, c) ← on_world (PQsendQuery c message);
          let i := set_conn (Some c) i in
          if ok : bool then mret (set_poll_events POLLIN i) else fail_segment i
    end.

Definition ftsSend : list fts_segment_info → FtsM (list fts_segment_info) := for_infos ftsSend_seg.

Definition Natts_fts_message_response : Z := 5.
Definition FTS_MESSAGE_RESPONSE_NTUPLES : Z := 1.

(** An [int] stored in a [bool], which is a [char]. *)
Definition bool_of_int (v : Z) : bool := negb (u8 v =? 0).

Definition probeRecordResponse (i : fts_segment_info) (r : PGresult) : fts_segment_info :=
  set_result (mkFtsResult true (bool_of_int (PQgetvalue r 0)) (bool_of_int (PQgetvalue r 1))
                (bool_of_int (PQgetvalue r 2)) (bool_of_int (PQgetvalue r 3))
                (bool_of_int (PQgetvalue r 4))) i.

Definition ftsReceive_seg (i : fts_segment_info) : FtsM fts_segment_info :=
  if negb (is_segment_state (state i)) then mret i
  else
    match conn_of i with
    | None => mret i
    | Some c =>
        if negb (bool_decide (PQstatus c = CONNECTION_OK)) || (Z.land (poll_revents i) POLLIN =? 0)
        then mret i
        else
          '(ok, c) ← on_world (PQconsumeInput c);
          let i := set_conn (Some c) i in
          if negb ok then fail_segment i
          else
            '(busy, c) ← on_world (PQisBusy c);
            let i := set_conn (Some c) i in
            if busy : bool then fail_segment i
            else
              '(res, c) ← on_world (PQgetResult c);
              let i := set_conn (Some c) i in
              match res with
              | None => fail_segment i
              | Some r =>
                  if bool_decide (PQstatus c = CONNECTION_BAD) then fail_segment i
                  else if negb (PGRES_TUPLES_OK r) then fail_segment i
                  else if negb (PQnfields r =? Natts_fts_message_response)
                          || negb (PQntuples r =? FTS_MESSAGE_RESPONSE_NTUPLES) then fail_segment i
                  else
                    let i := probeRecordResponse i r in
                    s ← lift_result (nextSuccessState (state i));
                    mret (set_state s i)
              end
    end.

Definition ftsReceive : list fts_segment_info → FtsM (list fts_segment_info) :=
  for_infos ftsReceive_seg.

(** ** Retrying *)

Definition reset_conn (i : fts_segment_info) : FtsM fts_segment_info :=
  _ ← finish_conn (conn_of i);
  mret (set_result fts_result_zero (set_poll_revents 0 (set_poll_events 0 (set_conn None i)))).

Definition retryForFtsFailed (now : Z) (i : fts_segment_info) : FtsM fts_segment_info :=
  if retry_count i =? gp_fts_probe_retries then mret i
  else
    let i := set_retry_count (retry_count i + 1) i in
    let s := match state i with
             | FTS_PROBE_SUCCESS | FTS_PROBE_FAILED => FTS_PROBE_RETRY_WAIT
             | FTS_SYNCREP_OFF_FAILED => FTS_SYNCREP_OFF_RETRY_WAIT
             | _ => FTS_PROMOTE_RETRY_WAIT
             end in
    reset_conn (set_retryStartTime now (set_state s i)).

Definition processRetry_seg (now : Z) (i : fts_segment_info) : FtsM fts_segment_info :=
  match state i with
  | FTS_PROBE_SUCCESS =>
      if retryRequested (seg_result i) && SEGMENT_IS_ALIVE (mirror_cdbinfo i)
      then retryForFtsFailed now i else mret i
  | FTS_PROBE_FAILED | FTS_SYNCREP_OFF_FAILED | FTS_PROMOTE_FAILED => retryForFtsFailed now i
  | FTS_PROBE_RETRY_WAIT | FTS_SYNCREP_OFF_RETRY_WAIT | FTS_PROMOTE_RETRY_WAIT =>
      if s32 (now - retryStartTime i) <? 1 then mret i
      else mret (set_state (match state i with
                            | FTS_PROBE_RETRY_WAIT => FTS_PROBE_SEGMENT
                            | FTS_SYNCREP_OFF_RETRY_WAIT => FTS_SYNCREP_OFF_SEGMENT
                            | _ => FTS_PROMOTE_SEGMENT
                            end) i)
  | _ => mret i
  end.

Definition processRetry (infos : list fts_segment_info) : FtsM (list fts_segment_info) :=
  now ← on_world sys_time; for_infos (processRetry_seg now) infos.

(** ** Updating the configuration *)

Definition ftsResponseReady (i : fts_segment_info) : bool :=
  IsFtsMessageStateSuccess (state i) || IsFtsMessageStateFailed (state i).

Definition status_of (alive : bool) : SegStatus :=
  if alive then GP_SEGMENT_CONFIGURATION_STATUS_UP else GP_SEGMENT_CONFIGURATION_STATUS_DOWN.
Definition mode_of (insync : bool) : SegMode :=
  if insync then GP_SEGMENT_CONFIGURATION_MODE_INSYNC else GP_SEGMENT_CONFIGURATION_MODE_NOTINSYNC.

(** The row with role, status and mode replaced. *)
Definition modify_row (r : SegRole) (alive insync : bool) (e : GpSegConfigEntry) : GpSegConfigEntry :=
  mkGpSegConfigEntry (dbid e) (segindex e) r (mode_of insync) (status_of alive) (port e) (hostip e).

Definition probeWalRepUpdateConfig (dbid' segindex' : Z) (r : SegRole) (IsSegmentAlive IsInSync : bool) :
    FtsM unit := λ s,
  let hist := (history s ++ [(dbid', segindex', r, IsSegmentAlive, IsInSync)])%list in
  match catalog s !! dbid' with
  | None => Err "FTS cannot find dbid in gp_segment_configuration"
  | Some e =>
      Ok (tt, mkFtsEnv (skipFtsProbe s) (world s)
                (<[dbid' := modify_row r IsSegmentAlive IsInSync e]> (catalog s))
                hist (fts_status s) (sent s))
  end.

Definition FTS_STATUS_DOWN : Z := 1.

Definition FTS_STATUS_SET (alive : bool) (dbid' : Z) : FtsM unit := λ s,
  let v := default 0 (fts_status s !! dbid') in
  let v := if alive then Z.land v (Z.lnot FTS_STATUS_DOWN) else Z.lor v FTS_STATUS_DOWN in
  Ok (tt, mkFtsEnv (skipFtsProbe s) (world s) (catalog s) (history s)
            (<[dbid' := v]> (fts_status s)) (sent s)).

Definition updateConfiguration (primary mirror : CdbComponentDatabaseInfo)
    (newPrimaryRole newMirrorRole : SegRole) (IsInSync IsPrimaryAlive IsMirrorAlive : bool) :
    FtsM bool :=
  let UpdatePrimary := negb (Bool.eqb IsPrimaryAlive (SEGMENT_IS_ALIVE primary)) in
  let UpdateMirror := negb (Bool.eqb IsMirrorAlive (SEGMENT_IS_ALIVE mirror)) in
  let modeChange := negb (Bool.eqb IsInSync (SEGMENT_IS_IN_SYNC primary)) in
  let UpdatePrimary := modeChange || UpdatePrimary in
  let UpdateMirror := modeChange || UpdateMirror in
  let UpdateNeeded := UpdatePrimary || UpdateMirror in
  if UpdateNeeded then
    _ ← (if UpdatePrimary then
           probeWalRepUpdateConfig (dbid (config primary)) (segindex (config primary))
             newPrimaryRole IsPrimaryAlive IsInSync
         else mret tt);
    _ ← (if UpdateMirror then
           probeWalRepUpdateConfig (dbid (config mirror)) (segindex (config mirror))
             newMirrorRole IsMirrorAlive IsInSync
         else mret tt);
    _ ← FTS_STATUS_SET IsPrimaryAlive (dbid (config primary));
    _ ← FTS_STATUS_SET IsMirrorAlive (dbid (config mirror));
    mret UpdateNeeded
  else mret UpdateNeeded.

(** ** Processing the answers *)

(** The [switch] of [processResponse]: the new state, whether the two segments are exchanged,
    and whether the configuration was updated. *)
Definition respond (i : fts_segment_info) : FtsM (fts_segment_info * bool) :=
  let primary := primary_cdbinfo i in
  let mirror := mirror_cdbinfo i in
  let res := seg_result i in
  let IsPrimaryAlive := isPrimaryAlive res in
  let IsMirrorAlive := if IsPrimaryAlive then isMirrorAlive res else SEGMENT_IS_ALIVE mirror in
  let IsInSync := if IsPrimaryAlive then isInSync res else false in
  match state i with
  | FTS_PROBE_SUCCESS =>
      if isSyncRepEnabled res && negb IsMirrorAlive then
        if negb (retryRequested res) then
          upd ← updateConfiguration primary mirror GP_SEGMENT_CONFIGURATION_ROLE_PRIMARY
                  GP_SEGMENT_CONFIGURATION_ROLE_MIRROR IsInSync IsPrimaryAlive IsMirrorAlive;
          mret (set_state FTS_SYNCREP_OFF_SEGMENT i, upd)
        else mret (set_state FTS_RESPONSE_PROCESSED i, false)
      else if isRoleMirror res then mret (set_state FTS_PROMOTE_SEGMENT i, false)
      else
        upd ← updateConfiguration primary mirror GP_SEGMENT_CONFIGURATION_ROLE_PRIMARY
                GP_SEGMENT_CONFIGURATION_ROLE_MIRROR IsInSync IsPrimaryAlive IsMirrorAlive;
        mret (set_state FTS_RESPONSE_PROCESSED i, upd)
  | FTS_PROBE_FAILED =>
      if recovery_making_progress i then mret (set_state FTS_RESPONSE_PROCESSED i, false)
      else if SEGMENT_IS_IN_SYNC mirror then
        upd ← updateConfiguration primary mirror GP_SEGMENT_CONFIGURATION_ROLE_MIRROR
                GP_SEGMENT_CONFIGURATION_ROLE_PRIMARY IsInSync IsPrimaryAlive IsMirrorAlive;
        mret (set_mirror_cdbinfo primary (set_primary_cdbinfo mirror (set_state FTS_PROMOTE_SEGMENT i)),
              upd)
      else mret (set_state FTS_RESPONSE_PROCESSED i, false)
  | FTS_SYNCREP_OFF_FAILED | FTS_PROMOTE_FAILED | FTS_PROMOTE_SUCCESS | FTS_SYNCREP_OFF_SUCCESS =>
      mret (set_state FTS_RESPONSE_PROCESSED i, false)
  | _ => elog_error "FTS invalid internal state"
  end.

(** One turn of the loop of [processResponse] on a pair whose response is ready. *)
Definition processResponse_seg (i : fts_segment_info) : FtsM (fts_segment_info * bool) :=
  if negb (ftsResponseReady i) then mret (i, false)
  else
    '(i, upd) ← respond i;
    i ← reset_conn i;
    mret (set_retry_count 0 i, upd).

Fixpoint processResponse (infos : list fts_segment_info) : FtsM (list fts_segment_info * bool) :=
  match infos with
  | [] => mret ([], false)
  | i :: rest =>
      active ← FtsIsActive;
      if negb active then mret (infos, false)
      else
        '(i', upd) ← processResponse_seg i;
        '(rest', upds) ← processResponse rest;
        mret (i' :: rest', upd || upds)
  end.

(** ** The cycle *)

(** The loop of [FtsWalRepInitProbeContext]: the entries in order and [num_pairs]. *)
Fixpoint init_pairs (cdbs : CdbComponentDatabases) (segs : list CdbComponentDatabaseInfo)
    (infos : list fts_segment_info) (num_pairs : Z) : result (list fts_segment_info * Z) :=
  match segs with
  | [] => Ok (infos, num_pairs)
  | primary :: segs =>
      if negb (SEGMENT_IS_ACTIVE_PRIMARY primary) then init_pairs cdbs segs infos num_pairs
      else
        match FtsGetPeerSegment cdbs (segindex (config primary)) (dbid (config primary)) with
        | None => init_pairs cdbs segs infos (num_pairs - 1)
        | Some mirror =>
            if Z.of_nat (List.length infos) <? total_segments cdbs then
              init_pairs cdbs segs (infos ++ [fts_info_zero primary mirror])%list num_pairs
            else Err "write past the end of perSegInfos"
        end
  end.

(** The context: the first [num_pairs] entries.  An entry that was not filled in has a null
    [primary_cdbinfo], which [ftsConnect] dereferences. *)
Definition FtsWalRepInitProbeContext (cdbs : CdbComponentDatabases) : result (list fts_segment_info) :=
  '(infos, num_pairs) ← init_pairs cdbs (segment_db_info cdbs) [] (total_segments cdbs);
  if num_pairs <=? Z.of_nat (List.length infos) then Ok (take (Z.to_nat num_pairs) infos)
  else Err "null primary_cdbinfo".

(** One turn of the main loop. *)
Definition fts_iteration (infos : list fts_segment_info) : FtsM (list fts_segment_info * bool) :=
  infos ← ftsConnect infos;
  infos ← ftsPoll infos;
  infos ← ftsSend infos;
  infos ← ftsReceive infos;
  infos ← processRetry infos;
  processResponse infos.

(** The main loop, at most [fuel] turns; the first component says whether it ended. *)
Fixpoint fts_loop (fuel : nat) (infos : list fts_segment_info) (is_updated : bool) :
    FtsM (bool * list fts_segment_info * bool) :=
  if allDone infos then mret (true, infos, is_updated)
  else
    active ← FtsIsActive;
    if negb active then mret (true, infos, is_updated)
    else
      match fuel with
      | O => mret (false, infos, is_updated)
      | S fuel =>
          '(infos, upd) ← fts_iteration infos;
          fts_loop fuel infos (is_updated || upd)
      end.

Definition close_seg (i : fts_segment_info) : FtsM fts_segment_info :=
  match conn_of i with
  | Some _ => _ ← finish_conn (conn_of i); mret (set_conn None i)
  | None => mret i
  end.

(** What follows the loop, with the final check of builds with assertions. *)
Definition fts_finish (infos : list fts_segment_info) : FtsM unit :=
  active ← FtsIsActive;
  infos ← (if negb active then for_infos close_seg infos else mret infos);
  if existsb (λ i, match conn_of i with Some _ => true | None => false end) infos
  then elog_error "FTS libpq connection left open" else mret tt.

(** [None] when the loop has not ended after [fuel] turns. *)
Definition FtsWalRepMessageSegments (fuel : nat) (cdbs : CdbComponentDatabases) : FtsM (option bool) :=
  infos ← lift_result (FtsWalRepInitProbeContext cdbs);
  '(ended, infos, is_updated) ← fts_loop fuel infos false;
  if negb ended then mret None
  else _ ← fts_finish infos; mret (Some is_updated).
End Prober.
