(* ===== verification/FtsFacts.v ===== *)
(** * The prober: invariants of a probe cycle

    Weakest preconditions for the prober's monad, the invariant of a segment pair through the
    phases of a turn, the rank that bounds the number of state changes, and the relation between
    a pair and the catalog.  The theorems are at the end. *)
From S2P Require Import Prelude FtsProbe.
From Stdlib Require Import String.
#[local] Open Scope string_scope.
#[local] Open Scope list_scope.
#[local] Open Scope Z_scope.

(** ** Errors the prober may raise: answers of libpq and the system *)
Definition world_error (e : string) : Prop :=
  e ∈ ["FTS: cannot create libpq connection object, possibly out of memory";
       "FTS: ftsPoll() failed"; "FTS: invalid response to PQconnectPoll"].

(** ** Weakest preconditions *)

Section WP.
Context {W : Type}.

Definition wp {A} (m : FtsM (W := W) A) (Q : A → FtsEnv → Prop) (s : FtsEnv) : Prop :=
  match m s with Ok (a, s') => Q a s' | Err e => world_error e end.

Lemma wp_ret {A} (a : A) Q s : wp (mret a) Q s ↔ Q a s.
Proof. done. Qed.

Lemma wp_bind {A B} (m : FtsM A) (f : A → FtsM B) Q s :
  wp (m ≫= f) Q s ↔ wp m (λ a s', wp (f a) Q s') s.
Proof. unfold wp, mbind, FtsM_bind. by destruct (m s) as [[a s']|e]. Qed.

Lemma wp_mono {A} (m : FtsM A) (Q Q' : A → FtsEnv → Prop) s :
  wp m Q s → (∀ a s', Q a s' → Q' a s') → wp m Q' s.
Proof. unfold wp. destruct (m s) as [[a s']|e]; auto. Qed.

Lemma wp_error {A} e (Q : A → FtsEnv → Prop) s : wp (elog_error e) Q s ↔ world_error e.
Proof. done. Qed.

(** The environment with another world. *)
Definition in_world (w : W) (s : FtsEnv (W := W)) : FtsEnv (W := W) :=
  mkFtsEnv (skipFtsProbe s) w (catalog s) (history s) (fts_status s) (sent s).

Lemma wp_on_world {A} (f : W → A * W) Q s :
  wp (on_world f) Q s ↔ Q (f (world s)).1 (in_world (f (world s)).2 s).
Proof. unfold wp, on_world. by destruct (f (world s)). Qed.

Lemma wp_lift {A} (r : result A) Q s :
  wp (lift_result r) Q s ↔ match r with Ok a => Q a s | Err e => world_error e end.
Proof. unfold wp, lift_result. by destruct r. Qed.

Lemma wp_active Q s : wp FtsIsActive Q s ↔ Q (negb (skipFtsProbe s)) s.
Proof. done. Qed.
End WP.

(** One step of a computation, whatever its head. *)
Ltac wp_step :=
  first [rewrite wp_bind | rewrite wp_ret | rewrite wp_on_world | rewrite wp_error
        | rewrite wp_lift | rewrite wp_active]; cbv beta.

(** ** Stages, ranks and what a phase keeps *)

Inductive Stage := Probing | TurningOff | Promoting | Finished.

Definition stage (s : FtsMessageState) : Stage :=
  match s with
  | FTS_PROBE_SEGMENT | FTS_PROBE_RETRY_WAIT | FTS_PROBE_SUCCESS | FTS_PROBE_FAILED => Probing
  | FTS_SYNCREP_OFF_SEGMENT | FTS_SYNCREP_OFF_RETRY_WAIT | FTS_SYNCREP_OFF_SUCCESS
  | FTS_SYNCREP_OFF_FAILED => TurningOff
  | FTS_PROMOTE_SEGMENT | FTS_PROMOTE_RETRY_WAIT | FTS_PROMOTE_SUCCESS | FTS_PROMOTE_FAILED => Promoting
  | FTS_RESPONSE_PROCESSED => Finished
  end.

Definition is_wait_state (s : FtsMessageState) : bool :=
  match s with
  | FTS_PROBE_RETRY_WAIT | FTS_SYNCREP_OFF_RETRY_WAIT | FTS_PROMOTE_RETRY_WAIT => true | _ => false
  end.

Section Invariant.
Context {W conn : Type} `{FtsWorldLaws W conn}.
Context (R T : Z).
#[local] Notation info := (fts_segment_info (conn := conn)).
#[local] Notation env := (FtsEnv (W := W)).
Implicit Types (i : info) (s : env).

(** How many state changes a pair has left at most: retries left in the stage and stages left. *)
Definition phase_weight (st : FtsMessageState) : Z :=
  if is_wait_state st then 3 else if is_segment_state st then 2 else 1.

Definition rank i : Z :=
  match stage (state i) with
  | Finished => 0
  | Probing => 2 * (4 * R + 4) + 4 * (R - retry_count i) + phase_weight (state i)
  | _ => (4 * R + 4) + 4 * (R - retry_count i) + phase_weight (state i)
  end.

(** What every phase before the processing of answers keeps of a pair. *)
Definition same_pair i i' : Prop :=
  primary_cdbinfo i' = primary_cdbinfo i ∧ mirror_cdbinfo i' = mirror_cdbinfo i ∧
  stage (state i') = stage (state i) ∧
  (state i' = state i ∧ retry_count i' = retry_count i ∨ rank i' < rank i).

(** The message of a stage, and of a pair in it. *)
Definition stage_message (st : Stage) : FtsMessageType :=
  match st with Probing => FTS_MSG_PROBE | TurningOff => FTS_MSG_SYNCREP_OFF | _ => FTS_MSG_PROMOTE end.

Definition message_of i : FtsMessage :=
  mkFtsMessage (stage_message (stage (state i))) (dbid (config (primary_cdbinfo i)))
    (segindex (config (primary_cdbinfo i))).

(** ... and of the environment: only messages of the pair are added. *)
Definition same_env i s s' : Prop :=
  skipFtsProbe s' = skipFtsProbe s ∧ catalog s' = catalog s ∧
  (sent s' = sent s ∨
   stage (state i) ≠ Finished ∧ sent s' = (message_of i, catalog s) :: sent s).

Lemma same_pair_refl i : same_pair i i.
Proof. unfold same_pair. auto 6. Qed.

Lemma same_pair_trans i j k : same_pair i j → same_pair j k → same_pair i k.
Proof.
  intros (Hp & Hm & Hs & Hr) (Hp' & Hm' & Hs' & Hr'). unfold same_pair.
  split_and!; try congruence. destruct Hr as [[Es Ec]|], Hr' as [[Es' Ec']|]; [left| | |].
  - split; congruence.
  - right. unfold rank in *. by rewrite <- Es, <- Ec.
  - right. unfold rank in *. by rewrite Es', Ec'.
  - right. lia.
Qed.

#[local] Instance same_pair_transitive : Transitive same_pair.
Proof. intros i j k. apply same_pair_trans. Qed.

(** ** The invariant of a pair *)

Definition one_event (e : Z) : Prop := e = 0 ∨ e = POLLIN ∨ e = POLLOUT.

Record seg_base i : Prop := {
  sb_retry : 0 ≤ retry_count i ≤ R;
  sb_events : one_event (poll_events i);
  sb_noconn : conn_of i = None → poll_events i = 0 ∧ poll_revents i = 0;
  sb_wait : is_wait_state (state i) = true ∨ state i = FTS_RESPONSE_PROCESSED → conn_of i = None;
  sb_success : IsFtsMessageStateSuccess (state i) = true → poll_events i = 0;
  sb_alive : isPrimaryAlive (seg_result i) = IsFtsMessageStateSuccess (state i);
  sb_revents : is_segment_state (state i) = true →
    one_event (Z.land (poll_revents i) (Z.lor POLLOUT POLLIN));
}.

(** Between turns: events are still requested only where none has been returned, except on an
    open connection, which waits for the answer. *)
Definition seg_head i : Prop :=
  seg_base i ∧
  (is_segment_state (state i) = true →
   Z.land (poll_revents i) (Z.lor POLLOUT POLLIN) ≠ 0 →
   poll_events i = 0 ∨ conn_status i = CONNECTION_OK).

(** After [ftsPoll]. *)
Definition seg_polled i : Prop :=
  seg_base i ∧
  (is_segment_state (state i) = true →
   Z.land (poll_revents i) (Z.lor POLLOUT POLLIN) ≠ 0 → poll_events i = 0).

(** After [ftsSend]: no more events are requested where the answer has arrived. *)
Definition seg_sent i : Prop :=
  seg_head i ∧
  (is_segment_state (state i) = true → Z.land (poll_revents i) POLLIN ≠ 0 → poll_events i = 0).

(** A phase takes pairs with [Pre] to pairs with [Post]. *)
Definition phase (Pre Post : info → Prop) (f : info → FtsM info) : Prop :=
  ∀ i s, Pre i → wp (f i) (λ i' s', Post i' ∧ same_pair i i' ∧ same_env i s s') s.

Lemma phase_mono (Pre Pre' Post Post' : info → Prop) f :
  phase Pre Post f → (∀ i, Pre' i → Pre i) → (∀ i, Post i → Post' i) → phase Pre' Post' f.
Proof.
  intros Hf Hpre Hpost i s Hi. eapply wp_mono; [by apply Hf, Hpre|]. naive_solver.
Qed.

Lemma same_env_refl i s : same_env i s s.
Proof. unfold same_env. auto. Qed.

Lemma same_env_in i w s s' : same_env i s s' → same_env i s (in_world w s').
Proof. done. Qed.
#[local] Hint Resolve same_pair_refl same_env_refl same_env_in : gp.

(** Failing a pair that is not in a success state. *)
Lemma fail_segment_wp i s Q :
  IsFtsMessageStateSuccess (state i) = false → state i ≠ FTS_RESPONSE_PROCESSED →
  (∀ st, nextFailedState (state i) = Ok st → IsFtsMessageStateFailed st = true →
         stage st = stage (state i) → Q (set_state st i) s) →
  wp (fail_segment i) Q s.
Proof.
  intros Hns Hnp HQ. unfold fail_segment. repeat wp_step.
  destruct (state i); try done; simpl; wp_step; by apply HQ.
Qed.

(** A failed pair satisfies the invariant of every phase. *)
Lemma seg_failed i st :
  seg_base i → is_segment_state (state i) = true ∨ IsFtsMessageStateFailed (state i) = true →
  IsFtsMessageStateFailed st = true →
  seg_base (set_state st i).
Proof.
  intros [H1 H2 H3 H4 H5 H6 H7] Hst Hf. split; simpl; auto.
  - intros [?| ->]; [|done]. by destruct st.
  - by destruct st.
  - rewrite H6. destruct Hst; destruct (state i), st; done.
  - by destruct st.
Qed.

Lemma same_pair_failed i st :
  is_segment_state (state i) = true ∨ IsFtsMessageStateFailed (state i) = true →
  nextFailedState (state i) = Ok st → same_pair i (set_state st i).
Proof.
  intros Hst Hn. unfold same_pair, rank. simpl.
  destruct (state i); destruct Hst; simplify_eq/=; unfold phase_weight; simpl;
    split_and!; auto; first [by left | right; lia].
Qed.

(** ** The phases *)

Lemma one_event_lor e : one_event e → e = 0 → one_event (Z.lor e POLLIN) ∧ one_event (Z.lor e POLLOUT).
Proof. unfold one_event. intros _ ->. auto. Qed.

(** The fields the invariant reads. *)
Definition core i :=
  (retry_count i, poll_events i, poll_revents i, conn_of i, state i, isPrimaryAlive (seg_result i)).

Lemma seg_base_core i i' : core i' = core i → seg_base i → seg_base i'.
Proof.
  unfold core. intros [= E1 E2 E3 E4 E5 E6] [H1 H2 H3 H4 H5 H6 H7].
  split; rewrite ?E1, ?E2, ?E3, ?E4, ?E5, ?E6; auto.
Qed.

Lemma check_recovery_fields i :
  core (checkIfFailedDueToRecoveryInProgress i) = core i ∧
  primary_cdbinfo (checkIfFailedDueToRecoveryInProgress i) = primary_cdbinfo i ∧
  mirror_cdbinfo (checkIfFailedDueToRecoveryInProgress i) = mirror_cdbinfo i.
Proof. unfold checkIfFailedDueToRecoveryInProgress. repeat case_match; done. Qed.

(** Steps that change neither the state nor the retries of a pair. *)
Lemma same_pair_fields i i' :
  primary_cdbinfo i' = primary_cdbinfo i → mirror_cdbinfo i' = mirror_cdbinfo i →
  state i' = state i → retry_count i' = retry_count i → same_pair i i'.
Proof. unfold same_pair. intros ? ? -> ?. auto 6. Qed.

(** Requesting an event on a connection where none is requested. *)
Lemma seg_base_request i i' e :
  seg_base i → is_segment_state (state i) = true →
  core i' = (retry_count i, e, poll_revents i, conn_of i', state i, isPrimaryAlive (seg_result i)) →
  is_Some (conn_of i') → one_event e → seg_base i'.
Proof.
  intros [H1 H2 H3 H4 H5 H6 H7] Hst [= E1 E2 E3 E5 E6] [c Hc] He.
  split; rewrite ?E1, ?E2, ?E3, ?E5, ?E6, ?Hc; auto; destruct (state i); naive_solver.
Qed.

Lemma ftsConnectStart_wp i s :
  seg_base i → is_segment_state (state i) = true → conn_of i = None →
  wp (ftsConnectStart i) (λ r s', seg_base r.2 ∧ state r.2 = state i ∧ same_pair i r.2 ∧
    same_env i s s') s.
Proof.
  intros Hi Hst Hc. destruct (sb_noconn _ Hi Hc) as [He Hr].
  unfold ftsConnectStart. repeat wp_step.
  destruct (PQconnectStart _ _ _) as [[c|] w'] eqn:Hs; simpl; [|apply wp_error; by left].
  assert (Hb : ∀ t, seg_base (set_startTime t
                 (set_poll_events (Z.lor (poll_events i) POLLOUT) (set_conn (Some c) i)))).
  { intros t. eapply (seg_base_request i); [done|done|done|by eexists|]. rewrite He. by right; right. }
  case_bool_decide; repeat wp_step; simpl.
  - split_and!; [|done|by apply same_pair_fields|eauto with gp].
    eapply (seg_base_request i _ 0); [done|done| |by eexists|by left]. unfold core; simpl. by rewrite He.
  - split_and!; [apply Hb|done|by apply same_pair_fields|eauto with gp].
Qed.

(** A phase that fails the pair it is working on. *)
Lemma fail_phase_wp i0 i s0 s (Q : info → Prop) :
  seg_base i → is_segment_state (state i) = true ∨ IsFtsMessageStateFailed (state i) = true →
  same_pair i0 i → same_env i0 s0 s →
  (∀ i', seg_base i' → IsFtsMessageStateFailed (state i') = true → Q i') →
  wp (fail_segment i) (λ i' s', Q i' ∧ same_pair i0 i' ∧ same_env i0 s0 s') s.
Proof.
  intros Hi Hst Hp He HQ. apply fail_segment_wp.
  - destruct Hst; by destruct (state i).
  - destruct Hst; by destruct (state i).
  - intros st Hn Hf _. split_and!; [| |done].
    + apply HQ; [by apply seg_failed|by simpl].
    + eapply same_pair_trans; [done|by apply same_pair_failed].
Qed.

Lemma ftsConnect_phase : phase seg_head seg_base ftsConnect_seg.
Proof.
  intros i s [Hi Hh]. unfold ftsConnect_seg.
  case_bool_decide as Hok; [by wp_step; auto with gp|].
  destruct (is_segment_state (state i)) eqn:Hst; simpl;
    [|wp_step; auto with gp].
  set (j := set_recovery_making_progress false i).
  assert (Hj : seg_base j) by by apply (seg_base_core i).
  assert (Hij : same_pair i j) by by apply same_pair_fields.
  destruct (conn_of i) as [c|] eqn:Hc.
  - case_match eqn:Hrev; [wp_step; auto with gp|].
    apply Z.eqb_neq in Hrev.
    assert (He : poll_events i = 0) by (destruct (Hh eq_refl Hrev); [done|tauto]).
    do 2 wp_step. destruct (PQconnectPoll c (world s)) as [[r c'] w'] eqn:Hp; simpl.
    assert (Hreq : ∀ e, one_event e → seg_base (set_poll_events e (set_conn (Some c') j))).
    { intros e Hone. by eapply (seg_base_request j); [done|done|done|by eexists|]. }
    assert (Hb : seg_base (set_conn (Some c') j)).
    { eapply (seg_base_request j _ 0); [done|done| |by eexists|by left]. unfold core; simpl. by rewrite He. }
    rewrite He. destruct r; repeat wp_step; simpl.
    + eapply wp_mono.
      { apply (fail_phase_wp i (set_conn (Some c') j) s _ seg_base); auto with gp. }
      intros k s' (Hk & Hpk & Hek). wp_step.
      destruct (check_recovery_fields k) as (Hcore & Hpr & Hmi).
      split_and!; [by apply (seg_base_core k)| |done].
      eapply same_pair_trans; [done|]. unfold core in Hcore. by apply same_pair_fields; [| |congruence..].
    + split_and!; [apply Hreq; by right; left|by apply same_pair_fields|eauto with gp].
    + split_and!; [apply Hreq; by right; right|by apply same_pair_fields|eauto with gp].
    + split_and!; [apply Hreq; by right; right|by apply same_pair_fields|eauto with gp].
    + by right; right; left.
  - wp_step. eapply wp_mono; [exact (ftsConnectStart_wp j s Hj Hst Hc)|].
    intros [b k] s' (Hk & Hstk & Hpk & Hek); simpl in *. destruct b; repeat wp_step.
    + split_and!; [done| |done]. exact (same_pair_trans _ _ _ Hij Hpk).
    + apply fail_phase_wp; [done|left; by rewrite Hstk|exact (same_pair_trans _ _ _ Hij Hpk)|done|done].
Qed.

(** [poll] on one requested event. *)
Lemma land_one_event x e : one_event e → Z.land x e = 0 ∨ Z.land x e = e.
Proof.
  assert (Hbit : ∀ n, 0 ≤ n → Z.land x (2 ^ n) = 0 ∨ Z.land x (2 ^ n) = 2 ^ n).
  { intros n Hn. destruct (Z.testbit x n) eqn:Hx; [right|left]; apply Z.bits_inj'; intros m Hm;
      rewrite Z.land_spec, ?Z.bits_0, Z.pow2_bits_eqb by lia;
      destruct (Z.eqb_spec n m) as [->|]; by rewrite ?Hx, ?andb_false_r. }
  intros [->|[->| ->]]; [left; apply Z.land_0_r|apply (Hbit 0); lia|apply (Hbit 2); lia].
Qed.

Lemma one_event_mask e : one_event e → Z.land e (Z.lor POLLIN POLLOUT) = e.
Proof. by intros [->|[->| ->]]. Qed.

Lemma wants_poll_spec i : one_event (poll_events i) → wants_poll i = false ↔ poll_events i = 0.
Proof.
  intros He. unfold wants_poll. rewrite one_event_mask by done. rewrite negb_false_iff. apply Z.eqb_eq.
Qed.

(** A pair that waits for an event is about to send or has failed. *)
Lemma wants_poll_state i :
  seg_base i → wants_poll i = true →
  is_segment_state (state i) = true ∨ IsFtsMessageStateFailed (state i) = true.
Proof.
  intros Hi Hw.
  assert (Hne : poll_events i ≠ 0).
  { rewrite <- wants_poll_spec by apply (sb_events _ Hi). congruence. }
  assert (Hc : conn_of i ≠ None) by (intros Hc; by destruct (sb_noconn _ Hi Hc)).
  pose proof (sb_wait _ Hi) as H4. pose proof (sb_success _ Hi) as H5.
  destruct (state i); simpl in *; naive_solver.
Qed.

(** The returned events of a pair, and what [poll] promises of them. *)
Definition returned (revs : list Z) i : Z := default 0 (revs !! Z.to_nat (fd_index i)).

Definition poll_answered revs i : Prop :=
  seg_base i ∧
  (wants_poll i = true →
   Z.land (returned revs i) (Z.lor POLLIN POLLOUT) = Z.land (returned revs i) (poll_events i)).

Lemma ftsCheckTimeout_wp now i0 i s0 s :
  seg_polled i → is_segment_state (state i) = true ∨ IsFtsMessageStateFailed (state i) = true →
  same_pair i0 i → same_env i0 s0 s →
  wp (ftsCheckTimeout T now i) (λ i' s', seg_polled i' ∧ same_pair i0 i' ∧ same_env i0 s0 s') s.
Proof.
  intros Hi Hst Hp He. unfold ftsCheckTimeout. case_match; [|by wp_step].
  apply fail_phase_wp; auto; [apply Hi|]. intros i' Hi' Hf. split; [done|]. by destruct (state i').
Qed.

Lemma record_revents_phase revs now : phase (poll_answered revs) seg_polled (record_revents T revs now).
Proof.
  intros i s [Hi Hc]. unfold record_revents.
  pose proof (sb_events _ Hi) as He1. destruct (wants_poll i) eqn:Hw.
  2:{ wp_step. apply wants_poll_spec in Hw as He; [|done]. split_and!; [split; auto|eauto with gp..]. }
  assert (Hst := wants_poll_state i Hi Hw). fold (returned revs i).
  set (rv := returned revs i) in *. specialize (Hc eq_refl).
  assert (Hone : one_event (Z.land rv (Z.lor POLLOUT POLLIN))).
  { rewrite (Z.lor_comm POLLOUT), Hc. destruct (land_one_event rv _ He1) as [->| ->]; [by left|done]. }
  assert (Hj : seg_base (set_poll_revents rv i)).
  { destruct Hi as [H1 H2 H3 H4 H5 H6 H7]. split; simpl; auto. intros Hn.
    destruct (H3 Hn) as [E _]. apply wants_poll_spec in E; [congruence|done]. }
  assert (Hk : ∀ e, e = 0 → seg_polled (set_poll_events e (set_poll_revents rv i))).
  { intros e ->. split; [|by simpl]. destruct Hj as [H1 H2 H3 H4 H5 H6 H7]. split; simpl in *; auto.
    - by left.
    - intros Hn. split; [done|]. apply (H3 Hn). }
  assert (Hij : ∀ e, same_pair i (set_poll_events e (set_poll_revents rv i))) by
    by intros; apply same_pair_fields.
  wp_step. simpl. case_match eqn:Hr.
  { repeat wp_step. apply ftsCheckTimeout_wp; auto with gp. }
  assert (Hpol : seg_polled (set_poll_revents rv i)).
  { split; [done|]. simpl. rewrite (Z.lor_comm POLLOUT), Hc. intros _ Hnz.
    apply negb_false_iff, Z.eqb_eq in Hr. done. }
  assert (Hf : wp (fail_segment (set_poll_revents rv i))
    (λ a s', wp (ftsCheckTimeout T now a) (λ i' s', seg_polled i' ∧ same_pair i i' ∧ same_env i s s') s') s).
  { eapply wp_mono; [apply (fail_phase_wp i _ s s (λ k, seg_polled k ∧ IsFtsMessageStateFailed (state k) = true));
      [done|done|by apply same_pair_fields|auto with gp|]|].
    - intros k Hk1 Hk2. split; [|done]. split; [done|]. by destruct (state k).
    - intros k s' ([Hk1 Hk2] & Hk3 & Hk4). apply ftsCheckTimeout_wp; auto. }
  repeat case_match; [done|done|]. repeat wp_step.
  apply ftsCheckTimeout_wp; [done|done|by apply same_pair_fields|auto with gp].
Qed.

Lemma seg_head_failed i : seg_base i → IsFtsMessageStateFailed (state i) = true → seg_head i.
Proof. intros Hi Hf. split; [done|]. by destruct (state i). Qed.

Lemma seg_sent_failed i : seg_base i → IsFtsMessageStateFailed (state i) = true → seg_sent i.
Proof. intros Hi Hf. split; [by apply seg_head_failed|]. by destruct (state i). Qed.

Lemma seg_polled_sent i : seg_polled i → seg_sent i.
Proof.
  intros [Hi Hp]. split; [split; [done|auto]|]. intros Hst Hin. apply Hp; [done|].
  intros H5. apply Hin. apply Z.bits_inj'. intros n Hn. rewrite Z.bits_0, Z.land_spec.
  apply (f_equal (λ z, Z.testbit z n)) in H5. rewrite Z.land_spec, Z.lor_spec, Z.bits_0 in H5.
  destruct (Z.testbit (poll_revents i) n), (Z.testbit POLLIN n); try done. by rewrite orb_true_r in H5.
Qed.

(** A socket that returned writable did not return readable. *)
Lemma one_event_excl x :
  one_event (Z.land x (Z.lor POLLOUT POLLIN)) → Z.land x POLLOUT ≠ 0 → Z.land x POLLIN = 0.
Proof.
  intros Ho Hne. destruct (land_one_event x POLLIN) as [|Hin]; [by right; left|done|].
  destruct (land_one_event x POLLOUT) as [|Hout]; [by right; right|done|].
  rewrite Z.land_lor_distr_r, Hin, Hout in Ho. by destruct Ho as [|[|]].
Qed.

(** Another connection object for a pair that is sending. *)
Lemma seg_base_conn i c :
  seg_base i → is_segment_state (state i) = true → seg_base (set_conn (Some c) i).
Proof.
  intros Hi Hst. eapply (seg_base_request i); [done|done|done|by eexists|apply (sb_events _ Hi)].
Qed.

Lemma ftsSend_phase : phase seg_polled seg_sent ftsSend_seg.
Proof.
  intros i s Hp. pose proof (seg_polled_sent i Hp) as Hsent. destruct Hp as [Hi Hev].
  unfold ftsSend_seg. destruct (is_segment_state (state i)) eqn:Hst; simpl; [|wp_step; auto with gp].
  destruct (conn_of i) as [c|] eqn:Hc; [|wp_step; auto with gp].
  destruct (negb _ || _ || _) eqn:Hg; [wp_step; auto with gp|].
  apply orb_false_iff in Hg as [Hg Hout]. apply orb_false_iff in Hg as [Hok _].
  apply negb_false_iff, bool_decide_eq_true in Hok. apply Z.eqb_neq in Hout.
  rewrite wp_bind. unfold wp at 1. simpl. do 2 wp_step. simpl.
  destruct (PQsendQuery _ _ _) as [[ok c'] w'] eqn:Hs; simpl.
  match goal with |- context [in_world w' ?e] => assert (Henv : same_env i s (in_world w' e)) end.
  { split_and!; [done|done|right]. unfold message_of; simpl. by destruct (state i). }
  destruct ok.
  - wp_step. split_and!; [|by apply same_pair_fields|done]. split; [split|].
    + eapply (seg_base_request i); [done|done|done|by eexists|by right; left].
    + intros _ _. right. unfold conn_status; simpl. by eapply send_keeps_open.
    + simpl. intros _ Hin. exfalso. apply Hin, one_event_excl; [|done]. by apply (sb_revents _ Hi).
  - apply fail_phase_wp; [|by left|by apply same_pair_fields|done|apply seg_sent_failed].
    by apply seg_base_conn.
Qed.

Lemma ftsReceive_phase : phase seg_sent seg_head ftsReceive_seg.
Proof.
  intros i s [Hh Hin]. pose proof Hh as [Hi _]. unfold ftsReceive_seg.
  destruct (is_segment_state (state i)) eqn:Hst; simpl; [|wp_step; auto with gp].
  destruct (conn_of i) as [c|] eqn:Hc; [|wp_step; auto with gp].
  destruct (negb _ || _) eqn:Hg; [wp_step; auto with gp|].
  apply orb_false_iff in Hg as [_ Hr]. apply Z.eqb_neq in Hr. specialize (Hin eq_refl Hr).
  assert (Hfail : ∀ j s', seg_base j → state j = state i → same_pair i j → same_env i s s' →
    wp (fail_segment j) (λ i' s', seg_head i' ∧ same_pair i i' ∧ same_env i s s') s').
  { intros j s' Hj Hsj Hp He. apply fail_phase_wp; [done|left; by rewrite Hsj|done|done|apply seg_head_failed]. }
  do 2 wp_step. destruct (PQconsumeInput c _) as [[ok c1] w1]; simpl.
  assert (Hb1 : seg_base (set_conn (Some c1) i)) by by apply seg_base_conn.
  destruct ok; simpl; [|apply Hfail; auto using same_pair_fields with gp].
  do 2 wp_step. destruct (PQisBusy c1 _) as [[busy c2] w2]; simpl.
  apply (seg_base_conn _ c2) in Hb1; [|done].
  destruct busy; simpl; [apply Hfail; auto using same_pair_fields with gp|].
  do 2 wp_step. destruct (PQgetResult c2 _) as [[res c3] w3]; simpl.
  apply (seg_base_conn _ c3) in Hb1; [|done].
  destruct res as [r|]; [|apply Hfail; auto using same_pair_fields with gp].
  case_bool_decide; [apply Hfail; auto using same_pair_fields with gp|].
  repeat (case_match; [apply Hfail; auto using same_pair_fields with gp|]).
  repeat wp_step. unfold same_pair, rank, phase_weight.
  destruct (state i) eqn:Hsi; try done; simpl; wp_step; simpl; (split_and!; [|done|done|done|right; lia|by auto with gp]);
    (split; [|done]); destruct Hb1 as [B1 B2 B3 B4 B5 B6 B7]; split; simpl in *; auto; naive_solver.
Qed.

(** ** Retrying and resetting *)

(** What [reset_conn] does to the pair. *)
Definition cleared i : info :=
  set_result fts_result_zero (set_poll_revents 0 (set_poll_events 0 (set_conn None i))).

Lemma reset_conn_wp i s Q :
  (∀ w, Q (cleared i) (in_world w s)) → wp (reset_conn i) Q s.
Proof.
  intros HQ. unfold reset_conn, finish_conn. wp_step.
  destruct (conn_of i) as [c|]; repeat wp_step; [apply HQ|].
  specialize (HQ (world s)). by destruct s.
Qed.

(** A pair without connection that starts over or has finished. *)
Lemma seg_head_cleared i st :
  0 ≤ retry_count i ≤ R →
  IsFtsMessageStateSuccess st = false →
  seg_head (set_state st (cleared i)) ∧ seg_head (cleared (set_state st i)).
Proof.
  intros Hr Hst. split; (split; [|by simpl; auto]); split; simpl; auto; by left.
Qed.

(** Between turns a failed pair has no retry left. *)
Definition seg_retried i : Prop :=
  seg_head i ∧ (IsFtsMessageStateFailed (state i) = true → retry_count i = R).

Lemma retryForFtsFailed_wp now i s :
  seg_head i → state i = FTS_PROBE_SUCCESS ∨ IsFtsMessageStateFailed (state i) = true →
  wp (retryForFtsFailed R now i) (λ i' s', seg_retried i' ∧ same_pair i i' ∧ same_env i s s') s.
Proof.
  intros Hi Hst. unfold retryForFtsFailed. destruct (Z.eqb_spec (retry_count i) R) as [Hr|Hr].
  { wp_step. split_and!; [split; auto|auto with gp..]. }
  pose proof (sb_retry _ (proj1 Hi)) as Hrr. apply reset_conn_wp. intros w. split_and!.
  - set (st := match _ with FTS_PROBE_SUCCESS | FTS_PROBE_FAILED => _ | _ => _ end).
    assert (Hw : is_wait_state st = true) by (subst st; by case_match).
    split; [|simpl; intros ?; by destruct st].
    apply (seg_head_cleared (set_retryStartTime now (set_retry_count (retry_count i + 1) i)) st);
      [simpl; lia|by destruct st].
  - unfold same_pair, rank. destruct (state i) eqn:Hsi; destruct Hst; try done; simpl;
      unfold phase_weight; rewrite Hsi; simpl; split_and!; auto; right; simpl; lia.
  - auto with gp.
Qed.

Lemma processRetry_phase now : phase seg_head seg_retried (processRetry_seg R now).
Proof.
  intros i s Hi. unfold processRetry_seg.
  destruct (state i) eqn:Hst;
    try (wp_step; split_and!; [split; [done|by rewrite Hst]|auto with gp..]);
    try (apply retryForFtsFailed_wp; [done|rewrite Hst; auto]).
  all: try (case_match; wp_step; [split_and!; [split; [done|by rewrite Hst]|auto with gp..]|]).
  all: try (case_match; [apply retryForFtsFailed_wp; [done|rewrite Hst; auto]
           |wp_step; split_and!; [split; [done|by rewrite Hst]|auto with gp..]]).
  all: assert (Hc : conn_of i = None) by (apply (sb_wait _ (proj1 Hi)); rewrite Hst; auto).
  all: destruct (sb_noconn _ (proj1 Hi) Hc) as [He Hr]; destruct Hi as [[B1 B2 B3 B4 B5 B6 B7] _].
  all: rewrite Hst in *; split_and!; [|unfold same_pair, rank; simpl; rewrite Hst; unfold phase_weight; simpl;
         split_and!; [done|done|done|right; lia]|auto with gp].
  all: split; [|done]; split; [|simpl; rewrite Hr; by rewrite Z.land_0_l].
  all: split; simpl; rewrite ?Hr, ?Z.land_0_l; auto; by left.
Qed.

(** ** Loops over the pairs *)

Definition same_envs (infos : list info) s s' : Prop :=
  skipFtsProbe s' = skipFtsProbe s ∧ catalog s' = catalog s ∧
  ∃ l, sent s' = l ++ sent s ∧
    Forall (λ m, ∃ i, i ∈ infos ∧ stage (state i) ≠ Finished ∧ m = (message_of i, catalog s)) l.

Lemma same_envs_refl infos s : same_envs infos s s.
Proof. split_and!; [done|done|]. by exists []. Qed.

Lemma same_envs_in infos w s s' : same_envs infos s s' → same_envs infos s (in_world w s').
Proof. done. Qed.
#[local] Hint Resolve same_envs_refl same_envs_in : gp.

Lemma for_infos_phase Pre Post f infos s :
  phase Pre Post f → Forall Pre infos →
  wp (for_infos f infos)
    (λ infos' s', Forall Post infos' ∧ Forall2 same_pair infos infos' ∧ same_envs infos s s') s.
Proof.
  intros Hf. revert s. induction infos as [|i infos IH]; intros s Hpre; simpl.
  { wp_step. auto using same_envs_refl. }
  apply Forall_cons in Hpre as [Hi Hpre]. wp_step. eapply wp_mono; [by apply Hf|].
  intros i' s1 (Hi' & Hp & Hk & Hc & Hs). wp_step. eapply wp_mono; [by apply IH|].
  intros infos' s2 (Hinfos & Hps & Hk2 & Hc2 & l & Hl & Hall). wp_step.
  split_and!; [by constructor|by constructor|]. rewrite Hc in Hall.
  unfold same_envs. split_and!; [congruence..|].
  destruct Hs as [Hs|[Hst Hs]]; [exists l|exists (l ++ [(message_of i, catalog s)])].
  - split; [by rewrite Hl, Hs|]. eapply Forall_impl; [done|]. intros m (j & ? & ? & ?). exists j.
    rewrite elem_of_cons. auto.
  - split; [by rewrite Hl, Hs, <- app_assoc|]. apply Forall_app; split.
    + eapply Forall_impl; [done|]. intros m (j & ? & ? & ?). exists j. rewrite elem_of_cons. auto.
    + apply Forall_singleton. exists i. rewrite elem_of_cons. auto.
Qed.

Lemma fill_pollfds_spec n infos infos' fds :
  0 ≤ n → fill_pollfds n infos = (infos', fds) →
  Forall2 (λ i j, (∃ k, j = set_fd_index k i) ∧
    (wants_poll i = true → n ≤ fd_index j ∧
       fds !! Z.to_nat (fd_index j - n) = Some (conn_of i, poll_events i))) infos infos'.
Proof.
  revert n infos' fds. induction infos as [|i infos IH]; intros n infos' fds Hn; simpl.
  { intros [= <- <-]. constructor. }
  destruct (wants_poll i) eqn:Hw.
  - destruct (fill_pollfds (n + 1) infos) as [js ds] eqn:Hrec. intros [= <- <-].
    apply IH in Hrec; [|lia]. constructor.
    + split; [by eexists|]. intros _. split; [done|]. simpl. by rewrite Z.sub_diag.
    + eapply Forall2_impl; [done|]. intros a b [Hb Hfd]. split; [done|]. intros Ha.
      destruct (Hfd Ha) as [Hle Hlk]. split; [lia|].
      by replace (Z.to_nat (fd_index b - n)) with (S (Z.to_nat (fd_index b - (n + 1)))) by lia.
  - destruct (fill_pollfds n infos) as [js ds] eqn:Hrec. intros [= <- <-].
    apply IH in Hrec; [|done]. constructor; [|done]. split; [by eexists|congruence].
Qed.

Lemma Forall2_same_pair_trans infos1 infos2 infos3 :
  Forall2 same_pair infos1 infos2 → Forall2 same_pair infos2 infos3 → Forall2 same_pair infos1 infos3.
Proof. intros H1 H2. by etrans. Qed.

Lemma message_of_same i j : same_pair i j → message_of j = message_of i.
Proof. intros (Hp & _ & Hs & _). unfold message_of. by rewrite Hp, Hs. Qed.

Lemma same_envs_trans infos1 infos2 s1 s2 s3 :
  Forall2 same_pair infos1 infos2 →
  same_envs infos1 s1 s2 → same_envs infos2 s2 s3 → same_envs infos1 s1 s3.
Proof.
  intros Hp (Hk & Hc & l & Hl & Hall) (Hk' & Hc' & l' & Hl' & Hall').
  unfold same_envs. split_and!; [congruence..|]. exists (l' ++ l).
  split; [by rewrite Hl', Hl, app_assoc|]. apply Forall_app; split; [|done].
  eapply Forall_impl; [done|]. intros m (j & Hj & Hst & ->).
  apply list_elem_of_lookup in Hj as [k Hk2].
  destruct (Forall2_lookup_r _ _ _ _ _ Hp Hk2) as (i & Hi & Hij).
  exists i. split_and!; [by eapply list_elem_of_lookup_2| |].
  - destruct Hij as (_ & _ & Hst' & _). congruence.
  - by rewrite Hc, (message_of_same i j).
Qed.

(** A phase over all pairs: what it makes of the invariants. *)
Definition phases (Pre Post : info → Prop) (f : list info → FtsM (list info)) : Prop :=
  ∀ infos s, Forall Pre infos →
  wp (f infos)
    (λ infos' s', Forall Post infos' ∧ Forall2 same_pair infos infos' ∧ same_envs infos s s') s.

Lemma phases_bind {B} Pre Post f (k : list info → FtsM B) Q infos s0 infos0 s :
  phases Pre Post f → Forall Pre infos → Forall2 same_pair infos0 infos → same_envs infos0 s0 s →
  (∀ infos' s', Forall Post infos' → Forall2 same_pair infos0 infos' → same_envs infos0 s0 s' →
     wp (k infos') Q s') →
  wp (f infos ≫= k) Q s.
Proof.
  intros Hf Hpre Hp He Hk. wp_step. eapply wp_mono; [by apply Hf|].
  intros infos' s' (Hpost & Hp' & He'). apply Hk; [done| |].
  - by eapply Forall2_same_pair_trans.
  - by eapply same_envs_trans.
Qed.

Lemma ftsPoll_phases : phases seg_base seg_polled (ftsPoll T).
Proof.
  intros infos s Hpre. unfold ftsPoll.
  destruct (fill_pollfds 0 infos) as [js fds] eqn:Hfill. apply fill_pollfds_spec in Hfill as Hspec; [|done].
  assert (Hp : Forall2 same_pair infos js).
  { eapply Forall2_impl; [done|]. intros i j [[k ->] _]. by apply same_pair_fields. }
  assert (Hb : Forall seg_base js).
  { apply Forall_lookup. intros n j Hj. destruct (Forall2_lookup_r _ _ _ _ _ Hspec Hj) as (i & Hi & [k ->] & _).
    apply (seg_base_core i); [done|]. by eapply Forall_lookup_1 in Hpre. }
  assert (Hrec : ∀ revs now s',
    (∀ n c ev, fds !! n = Some (c, ev) →
       Z.land (default 0 (revs !! n)) (Z.lor POLLIN POLLOUT) =
       Z.land (default 0 (revs !! n)) (Z.land ev (Z.lor POLLIN POLLOUT))) →
    same_envs infos s s' →
    wp (for_infos (record_revents T revs now) js)
      (λ infos' s', Forall seg_polled infos' ∧ Forall2 same_pair infos infos' ∧ same_envs infos s s') s').
  { intros revs now s' Hrevs He. eapply wp_mono.
    - apply (for_infos_phase (poll_answered revs) seg_polled); [apply record_revents_phase|].
      apply Forall_lookup. intros n j Hj. pose proof (Forall_lookup_1 _ _ _ _ Hb Hj) as Hbj. split; [done|].
      destruct (Forall2_lookup_r _ _ _ _ _ Hspec Hj) as (i & Hi & [k ->] & Hfd).
      intros Hw. destruct (Hfd Hw) as [Hge Hlk]. rewrite Z.sub_0_r in Hlk.
      unfold returned. rewrite (Hrevs _ _ _ Hlk). by rewrite one_event_mask by apply (sb_events _ Hbj).
    - intros infos' s2 (H1 & H2 & H3). split_and!; [done|by eapply Forall2_same_pair_trans|].
      by eapply same_envs_trans. }
  destruct fds as [|fd fds'] eqn:Hfds.
  { wp_step. split_and!; [|done|apply same_envs_refl].
    apply Forall_lookup. intros n j Hj. pose proof (Forall_lookup_1 _ _ _ _ Hb Hj) as Hbj.
    destruct (Forall2_lookup_r _ _ _ _ _ Hspec Hj) as (i & Hi & [k ->] & Hfd).
    split; [done|]. intros _ _. apply (wants_poll_spec i); [apply (sb_events _ Hbj)|].
    destruct (wants_poll i) eqn:Hw; [|done]. by destruct (Hfd eq_refl) as [_ ?]. }
  rewrite <- Hfds in *. do 2 wp_step.
  destruct (sys_poll fds (world s)) as [[| |revs] w'] eqn:Hpoll; simpl.
  - do 2 wp_step. apply Hrec; [|auto with gp]. intros n c ev _. by rewrite !lookup_nil.
  - wp_step. by right; left.
  - do 2 wp_step. apply Hrec; [|auto with gp]. intros n c ev Hn. by eapply poll_contract.
Qed.

Lemma processRetry_phases : phases seg_head seg_retried (processRetry R).
Proof.
  intros infos s Hpre. unfold processRetry. do 2 wp_step.
  eapply wp_mono; [apply (for_infos_phase seg_head seg_retried); [apply processRetry_phase|done]|].
  intros infos' s' (H1 & H2 & H3). done.
Qed.
End Invariant.
