(* ===== verification/FtsCycle.v ===== *)
(** * The prober: a probe cycle and the catalog

    How a pair relates to the rows of its two segments in the catalog, what updating the
    configuration and processing an answer do to it, and the theorems on the whole cycle. *)
From S2P Require Import Prelude FtsProbe FtsFacts.
From Stdlib Require Import String.
#[local] Open Scope string_scope.
#[local] Open Scope list_scope.
#[local] Open Scope Z_scope.

#[local] Notation PRIMARY := GP_SEGMENT_CONFIGURATION_ROLE_PRIMARY.
#[local] Notation MIRROR := GP_SEGMENT_CONFIGURATION_ROLE_MIRROR.
#[local] Notation UP := GP_SEGMENT_CONFIGURATION_STATUS_UP.
#[local] Notation DOWN := GP_SEGMENT_CONFIGURATION_STATUS_DOWN.
#[local] Notation INSYNC := GP_SEGMENT_CONFIGURATION_MODE_INSYNC.
#[local] Notation NOTINSYNC := GP_SEGMENT_CONFIGURATION_MODE_NOTINSYNC.

(** ** Updating the configuration *)

Section Update.
Context {W : Type}.
Implicit Types s : FtsEnv (W := W).

(** Which of the two rows an update rewrites. *)
Definition rewrites (seg primary : CdbComponentDatabaseInfo) (insync alive : bool) : bool :=
  negb (Bool.eqb insync (SEGMENT_IS_IN_SYNC primary)) || negb (Bool.eqb alive (SEGMENT_IS_ALIVE seg)).

Definition update_row (b : bool) (seg : CdbComponentDatabaseInfo) (r : SegRole) (alive insync : bool)
    (cat : gmap Z GpSegConfigEntry) : gmap Z GpSegConfigEntry :=
  if b then <[dbid (config seg) := modify_row r alive insync (config seg)]> cat else cat.

Definition status_byte (alive : bool) (d : Z) (st : gmap Z Z) : gmap Z Z :=
  <[d := if alive then Z.land (default 0 (st !! d)) (Z.lnot FTS_STATUS_DOWN)
         else Z.lor (default 0 (st !! d)) FTS_STATUS_DOWN]> st.

Definition history_row (b : bool) (seg : CdbComponentDatabaseInfo) (r : SegRole) (alive insync : bool) :=
  if b then [(dbid (config seg), segindex (config seg), r, alive, insync)] else [].

(** The rows of the pair are the ones the cycle started with. *)
Definition rows_fresh (primary mirror : CdbComponentDatabaseInfo) (cat : gmap Z GpSegConfigEntry) : Prop :=
  dbid (config primary) ≠ dbid (config mirror) ∧
  cat !! dbid (config primary) = Some (config primary) ∧
  cat !! dbid (config mirror) = Some (config mirror).

Lemma updateConfiguration_eq primary mirror rp rm insync pa ma s :
  rows_fresh primary mirror (catalog s) →
  let bp := rewrites primary primary insync pa in
  let bm := rewrites mirror primary insync ma in
  updateConfiguration primary mirror rp rm insync pa ma s =
  Ok (bp || bm,
      if bp || bm then
        mkFtsEnv (skipFtsProbe s) (world s)
          (update_row bm mirror rm ma insync (update_row bp primary rp pa insync (catalog s)))
          (history s ++ history_row bp primary rp pa insync ++ history_row bm mirror rm ma insync)
          (status_byte ma (dbid (config mirror)) (status_byte pa (dbid (config primary)) (fts_status s)))
          (sent s)
      else s).
Proof.
  intros (Hne & Hp & Hm) bp bm. unfold updateConfiguration.
  fold (rewrites primary primary insync pa). fold (rewrites mirror primary insync ma). fold bp bm.
  clearbody bp bm. unfold mbind, FtsM_bind, mret, FtsM_ret, probeWalRepUpdateConfig, FTS_STATUS_SET,
    update_row, history_row.
  destruct s as [sk w cat hist st snt]; simpl in *.
  destruct bp, bm; simpl; rewrite ?Hp; simpl; rewrite ?(lookup_insert_ne cat) by done; rewrite ?Hm; simpl;
    rewrite <- ?app_assoc; done.
Qed.

(** The rows of the pair afterwards. *)
Lemma update_rows_lookup primary mirror rp rm insync pa ma bp bm cat :
  rows_fresh primary mirror cat →
  let cat' := update_row bm mirror rm ma insync (update_row bp primary rp pa insync cat) in
  cat' !! dbid (config primary) =
    Some (if bp then modify_row rp pa insync (config primary) else config primary) ∧
  cat' !! dbid (config mirror) =
    Some (if bm then modify_row rm ma insync (config mirror) else config mirror) ∧
  ∀ d, d ≠ dbid (config primary) → d ≠ dbid (config mirror) → cat' !! d = cat !! d.
Proof.
  intros (Hne & Hp & Hm). unfold update_row. destruct bp, bm; simpl; split_and!; intros;
    rewrite ?lookup_insert_ne by done; rewrite ?lookup_insert_eq; done.
Qed.
End Update.

(** ** A pair and the catalog *)

Section Cycle.
Context {W conn : Type} `{FtsWorldLaws W conn}.
Context (R T : Z) (cat0 : gmap Z GpSegConfigEntry).
#[local] Notation info := (fts_segment_info (conn := conn)).
#[local] Notation env := (FtsEnv (W := W)).
Implicit Types (i : info) (s : env) (cat : gmap Z GpSegConfigEntry).

(** The catalog holds the pair in a form that fits its stage; [cat0] is the catalog at the start. *)
Definition cat_inv cat i : Prop :=
  let p := config (primary_cdbinfo i) in
  let m := config (mirror_cdbinfo i) in
  dbid p ≠ dbid m ∧ segindex m = segindex p ∧ rows_fresh (primary_cdbinfo i) (mirror_cdbinfo i) cat0 ∧
  match stage (state i) with
  | Probing =>
      rows_fresh (primary_cdbinfo i) (mirror_cdbinfo i) cat ∧
      role p = PRIMARY ∧ role m = MIRROR ∧ mode p = mode m
  | TurningOff =>
      ∃ rp rm, cat !! dbid p = Some rp ∧ role rp = PRIMARY ∧ segindex rp = segindex p ∧
        cat !! dbid m = Some rm ∧ role rm = MIRROR ∧ status rm = DOWN ∧ segindex rm = segindex p
  | Promoting =>
      cat !! dbid p = Some p ∧ role p = PRIMARY ∨
      role p = MIRROR ∧ mode p = INSYNC ∧ role m = PRIMARY ∧
      ∃ alive, cat !! dbid p = Some (modify_row PRIMARY alive false p) ∧
        cat !! dbid m = Some (modify_row MIRROR false false m)
  | Finished => True
  end.

(** A message is addressed to the segment that the catalog shows as primary of its content when
    it is sent.  Synchronous replication is turned off only where the mirror is marked down, and a
    segment is told to promote itself only if it was primary from the start of the cycle, or it
    was an in-sync mirror and the old primary is already marked down, out of sync and mirror. *)
Definition send_ok (e : FtsMessage * gmap Z GpSegConfigEntry) : Prop :=
  let '(msg, cat) := e in
  ∃ row, cat !! msg_dbid msg = Some row ∧ role row = PRIMARY ∧ segindex row = msg_contid msg ∧
  match msg_type msg with
  | FTS_MSG_PROBE => cat0 !! msg_dbid msg = Some row
  | FTS_MSG_SYNCREP_OFF =>
      ∃ d rm, d ≠ msg_dbid msg ∧ cat !! d = Some rm ∧ segindex rm = msg_contid msg ∧
        role rm = MIRROR ∧ status rm = DOWN
  | FTS_MSG_PROMOTE =>
      ∃ row0, cat0 !! msg_dbid msg = Some row0 ∧
      (role row0 = PRIMARY ∨
       role row0 = MIRROR ∧ mode row0 = INSYNC ∧
       ∃ d old0 old, cat0 !! d = Some old0 ∧ role old0 = PRIMARY ∧ segindex old0 = msg_contid msg ∧
         cat !! d = Some old ∧ role old = MIRROR ∧ status old = DOWN ∧ mode old = NOTINSYNC)
  end.

Lemma message_send_ok cat i : cat_inv cat i → stage (state i) ≠ Finished → send_ok (message_of i, cat).
Proof.
  unfold cat_inv, message_of, send_ok. cbn [msg_dbid msg_contid msg_type].
  intros (Hne & Hseg & (_ & Hp0 & Hm0) & Hst) Hnf. destruct (stage (state i)); simpl; [| | |done].
  - destruct Hst as ((_ & Hp & Hm) & Hr & _). eauto 6.
  - destruct Hst as (rp & rm & ? & ? & ? & ? & ? & ? & ?). exists rp. split_and!; [done..|].
    exists (dbid (config (mirror_cdbinfo i))), rm. by split_and!.
  - destruct Hst as [[Hp Hr]|(Hr & Hmo & Hrm & alive & Hp & Hm)]; eexists; (split; [done|]); simpl.
    + eauto 7.
    + split_and!; [done..|]. eexists; split; [done|]. right. split_and!; [done..|].
      exists (dbid (config (mirror_cdbinfo i))). do 2 eexists. split_and!; try done.
Qed.

(** The two [dbid]s of a pair. *)
Definition dbids i : list Z := [dbid (config (primary_cdbinfo i)); dbid (config (mirror_cdbinfo i))].

Lemma cat_inv_frame cat cat' i :
  (∀ d, d ∈ dbids i → cat' !! d = cat !! d) → cat_inv cat i → cat_inv cat' i.
Proof.
  intros Hd. assert (Hp := Hd (dbid (config (primary_cdbinfo i))) ltac:(by left)).
  assert (Hm := Hd (dbid (config (mirror_cdbinfo i))) ltac:(by right; left)).
  unfold cat_inv, rows_fresh. by rewrite Hp, Hm.
Qed.

Lemma cat_inv_same cat i j : same_pair R i j → cat_inv cat i → cat_inv cat j.
Proof. intros (Hp & Hm & Hs & _). unfold cat_inv. by rewrite Hp, Hm, Hs. Qed.

Lemma dbids_same i j : same_pair R i j → dbids j = dbids i.
Proof. intros (Hp & Hm & _ & _). unfold dbids. by rewrite Hp, Hm. Qed.

(** ** Processing an answer *)

(** What processing makes of a pair and of the environment. *)
Definition responded i s i' s' : Prop :=
  cat_inv (catalog s') i' ∧ dbids i' ≡ₚ dbids i ∧ retry_count i' = retry_count i ∧
  skipFtsProbe s' = skipFtsProbe s ∧ sent s' = sent s ∧
  (∀ d, d ∉ dbids i → catalog s' !! d = catalog s !! d) ∧
  (state i' = FTS_RESPONSE_PROCESSED ∨
   stage (state i) = Probing ∧ (state i' = FTS_SYNCREP_OFF_SEGMENT ∨ state i' = FTS_PROMOTE_SEGMENT)).

Lemma responded_processed i s : cat_inv (catalog s) i → responded i s (set_state FTS_RESPONSE_PROCESSED i) s.
Proof. intros (? & ? & ? & _). unfold responded. split_and!; auto. done. Qed.

(** An update of a probed pair, and what the new rows must satisfy. *)
Lemma update_responded i s i' rp rm insync pa ma Q :
  let p := primary_cdbinfo i in let m := mirror_cdbinfo i in
  let bp := rewrites p p insync pa in let bm := rewrites m p insync ma in
  rows_fresh p m (catalog s) →
  (∀ upd s', skipFtsProbe s' = skipFtsProbe s → sent s' = sent s →
     (∀ d, d ∉ dbids i → catalog s' !! d = catalog s !! d) →
     catalog s' !! dbid (config p) = Some (if bp then modify_row rp pa insync (config p) else config p) →
     catalog s' !! dbid (config m) = Some (if bm then modify_row rm ma insync (config m) else config m) →
     Q (i', upd) s') →
  wp (upd ← updateConfiguration p m rp rm insync pa ma; mret (i', upd)) Q s.
Proof.
  intros p m bp bm Hf HQ. wp_step. unfold wp at 1.
  rewrite updateConfiguration_eq by done. fold bp bm. wp_step.
  pose proof (update_rows_lookup p m rp rm insync pa ma bp bm (catalog s) Hf) as (Hp & Hm & Ho).
  destruct (bp || bm) eqn:Hb; apply HQ; try done; simpl.
  - intros d Hd. apply Ho; intros ->; apply Hd; [by left|by right; left].
  - apply orb_false_iff in Hb as [-> _]. apply Hf.
  - apply orb_false_iff in Hb as [_ ->]. apply Hf.
Qed.

Lemma rows_fresh_swap p m cat : rows_fresh p m cat → rows_fresh m p cat.
Proof. intros (? & ? & ?). split_and!; auto. Qed.

Lemma not_alive_down m : SEGMENT_IS_ALIVE m = false → status (config m) = DOWN.
Proof. unfold SEGMENT_IS_ALIVE. rewrite bool_decide_eq_false. by destruct (status (config m)). Qed.

(** The mirror is found down: its row is marked down unless it was already. *)
Lemma mirror_down_inv i cat' insync :
  let p := primary_cdbinfo i in let m := mirror_cdbinfo i in
  segindex (config m) = segindex (config p) → rows_fresh p m cat0 →
  role (config p) = PRIMARY → role (config m) = MIRROR →
  cat' !! dbid (config p) =
    Some (if rewrites p p insync true then modify_row PRIMARY true insync (config p) else config p) →
  cat' !! dbid (config m) =
    Some (if rewrites m p insync false then modify_row MIRROR false insync (config m) else config m) →
  cat_inv cat' (set_state FTS_SYNCREP_OFF_SEGMENT i).
Proof.
  intros p m Hseg Hf0 Hrp Hrm Hp Hm. split_and!; [apply Hf0|done|done|]. simpl.
  do 2 eexists. split_and!; [exact Hp| | |exact Hm| | |].
  - by destruct (rewrites p p _ _).
  - by destruct (rewrites p p _ _).
  - by destruct (rewrites m p _ _).
  - destruct (rewrites m p insync false) eqn:Hb; [done|]. apply not_alive_down.
    unfold rewrites in Hb. apply orb_false_iff in Hb as [_ Hb]. by destruct (SEGMENT_IS_ALIVE m).
  - by destruct (rewrites m p _ _).
Qed.

(** Failover: both rows are rewritten and the pair is exchanged. *)
Lemma failover_inv i cat' ma :
  let p := primary_cdbinfo i in let m := mirror_cdbinfo i in
  segindex (config m) = segindex (config p) → rows_fresh p m cat0 →
  role (config p) = PRIMARY → role (config m) = MIRROR → mode (config p) = mode (config m) →
  SEGMENT_IS_IN_SYNC m = true →
  cat' !! dbid (config p) =
    Some (if rewrites p p false false then modify_row MIRROR false false (config p) else config p) →
  cat' !! dbid (config m) =
    Some (if rewrites m p false ma then modify_row PRIMARY ma false (config m) else config m) →
  cat_inv cat' (set_mirror_cdbinfo p (set_primary_cdbinfo m (set_state FTS_PROMOTE_SEGMENT i))).
Proof.
  intros p m Hseg Hf0 Hrp Hrm Hmode Hsync Hp Hm.
  assert (Hins : mode (config m) = INSYNC) by by apply bool_decide_eq_true in Hsync.
  assert (Hb : ∀ seg alive, rewrites seg p false alive = true).
  { intros seg alive. unfold rewrites, SEGMENT_IS_IN_SYNC. by rewrite Hmode, Hins. }
  rewrite !Hb in *. split_and!; simpl; [|done|by apply rows_fresh_swap|right; eauto 6].
  apply not_eq_sym, Hf0.
Qed.

Lemma respond_wp i s :
  seg_base R i → ftsResponseReady i = true → cat_inv (catalog s) i →
  wp (respond i) (λ r s', responded i s r.1 s') s.
Proof.
  intros Hi Hready Hinv. pose proof (sb_alive _ _ Hi) as Halive. unfold respond.
  destruct (state i) eqn:Hst; try (unfold ftsResponseReady in Hready; by rewrite Hst in Hready);
    try (wp_step; by apply responded_processed); rewrite Halive; simpl;
    pose proof Hinv as (Hne & Hseg & Hf0 & Hrest); rewrite Hst in Hrest; simpl in Hrest;
    destruct Hrest as (Hf & Hrp & Hrm & Hmode).
  - destruct (isSyncRepEnabled (seg_result i) && negb (isMirrorAlive (seg_result i))) eqn:Hoff.
    + apply andb_true_iff in Hoff as [_ Hdown]. apply negb_true_iff in Hdown. rewrite Hdown.
      destruct (retryRequested (seg_result i)); simpl; [wp_step; by apply responded_processed|].
      apply update_responded; [done|]. intros upd s' Hk Hs Ho Hp Hm.
      unfold responded. split_and!; try done; [by eapply mirror_down_inv|]. right. rewrite Hst. auto.
    + destruct (isRoleMirror (seg_result i)).
      * wp_step. unfold responded. split_and!; try done; [|rewrite Hst; auto].
        split_and!; [done..|]. simpl. left. split; [apply Hf|done].
      * apply update_responded; [done|]. intros upd s' Hk Hs Ho Hp Hm.
        unfold responded. split_and!; try done. by left.
  - destruct (recovery_making_progress i); [wp_step; by apply responded_processed|].
    destruct (SEGMENT_IS_IN_SYNC (mirror_cdbinfo i)) eqn:Hsync; [|wp_step; by apply responded_processed].
    apply update_responded; [done|]. intros upd s' Hk Hs Ho Hp Hm.
    unfold responded. split_and!; try done; [by eapply failover_inv| |].
    + simpl. apply Permutation_swap.
    + right. rewrite Hst. auto.
Qed.

Lemma processResponse_seg_wp i s :
  seg_retried R i → cat_inv (catalog s) i →
  wp (processResponse_seg i) (λ r s', seg_head R r.1 ∧ ftsResponseReady r.1 = false ∧
    cat_inv (catalog s') r.1 ∧ dbids r.1 ≡ₚ dbids i ∧
    (state r.1 = state i ∧ retry_count r.1 = retry_count i ∨ rank R r.1 < rank R i) ∧
    skipFtsProbe s' = skipFtsProbe s ∧ sent s' = sent s ∧
    (∀ d, d ∉ dbids i → catalog s' !! d = catalog s !! d)) s.
Proof.
  intros [Hh _] Hinv. unfold processResponse_seg. destruct (ftsResponseReady i) eqn:Hready; simpl.
  2:{ wp_step. split_and!; auto. }
  pose proof (proj1 Hh) as Hb. pose proof (sb_retry _ _ Hb) as Hr.
  wp_step. eapply wp_mono; [by apply respond_wp|].
  intros [j upd] s1 (Hinv1 & Hids & Hrc & Hk & Hs & Ho & Hst); simpl in *.
  wp_step. apply reset_conn_wp. intros w. wp_step. simpl.
  assert (Hns : ftsResponseReady j = false ∧ IsFtsMessageStateSuccess (state j) = false).
  { unfold ftsResponseReady. destruct Hst as [->|[_ [->| ->]]]; done. }
  split_and!; try done; [|apply Hns|].
  - destruct (seg_head_cleared R (set_retry_count 0 j) (state j)) as [_ Hc]; [simpl; lia|apply Hns|].
    by destruct j.
  - right. unfold rank; simpl. unfold phase_weight.
    unfold ftsResponseReady in Hready.
    destruct Hst as [->|[Hpr [->| ->]]]; simpl; [|rewrite Hpr; repeat case_match; lia..].
    destruct (state i); simpl in *; try done; lia.
Qed.

(** ** The whole turn *)

Definition all_dbids (infos : list info) : list Z := infos ≫= dbids.

Lemma all_dbids_cons i infos : all_dbids (i :: infos) = dbids i ++ all_dbids infos.
Proof. done. Qed.

(** A turn leaves the state of a pair or makes it smaller. *)
Definition advances i i' : Prop :=
  state i' = state i ∧ retry_count i' = retry_count i ∨ rank R i' < rank R i.

Lemma advances_trans i j k : advances i j → advances j k → advances i k.
Proof.
  unfold advances, rank. intros [[-> ->]|?] [[-> ->]|?]; auto. right. lia.
Qed.

Lemma same_pairs_cat infos infos' cat :
  Forall2 (same_pair R) infos infos' → Forall (cat_inv cat) infos → Forall (cat_inv cat) infos'.
Proof. induction 1; inversion_clear 1; constructor; eauto using cat_inv_same. Qed.

Lemma same_pairs_dbids infos infos' :
  Forall2 (same_pair R) infos infos' → all_dbids infos' = all_dbids infos.
Proof. induction 1 as [|i j infos infos' Hij _ IH]; [done|]. by rewrite !all_dbids_cons, (dbids_same i j), IH. Qed.

Lemma cat_inv_frames (infos : list info) cat cat' :
  (∀ d, d ∈ all_dbids infos → cat' !! d = cat !! d) → Forall (cat_inv cat) infos →
  Forall (cat_inv cat') infos.
Proof.
  intros Hd Hinv. apply Forall_lookup. intros n i Hi.
  eapply cat_inv_frame; [|by eapply Forall_lookup_1 in Hinv]. intros d Hin. apply Hd.
  apply list_elem_of_bind. exists i. split; [done|]. by eapply list_elem_of_lookup_2.
Qed.

Lemma processResponse_wp infos s :
  skipFtsProbe s = false → Forall (seg_retried R) infos → Forall (cat_inv (catalog s)) infos →
  NoDup (all_dbids infos) →
  wp (processResponse infos) (λ r s', Forall (seg_head R) r.1 ∧
    Forall (λ i, ftsResponseReady i = false) r.1 ∧ Forall (cat_inv (catalog s')) r.1 ∧
    all_dbids r.1 ≡ₚ all_dbids infos ∧ Forall2 advances infos r.1 ∧
    skipFtsProbe s' = skipFtsProbe s ∧ sent s' = sent s ∧
    (∀ d, d ∉ all_dbids infos → catalog s' !! d = catalog s !! d)) s.
Proof.
  revert s. induction infos as [|i infos IH]; intros s Hact Hret Hcat Hnd; cbn [processResponse].
  { wp_step. split_and!; try done; constructor. }
  apply Forall_cons in Hret as [Hi Hret]. apply Forall_cons in Hcat as [Hci Hcat].
  rewrite all_dbids_cons in Hnd.
  apply NoDup_app in Hnd as (_ & Hdis & Hnd).
  do 2 wp_step. rewrite Hact; cbn [negb]. wp_step. eapply wp_mono; [by apply processResponse_seg_wp|].
  intros [i' u] s1 (H1 & H2 & H3 & H4 & H5 & H6 & H7 & H8); cbn [fst snd] in *. wp_step.
  eapply wp_mono; [apply IH; [congruence|done| |done]|].
  { eapply cat_inv_frames; [|done]. intros d Hd. apply H8. intros Hd'. by apply (Hdis d). }
  intros [infos' us] s2 (G1 & G2 & G3 & G4 & G5 & G6 & G7 & G8); cbn [fst snd] in *. wp_step. cbn [fst snd].
  split_and!; try (by constructor); try congruence.
  - constructor; [|done]. eapply cat_inv_frame; [|done]. intros d Hd. apply G8.
    apply Hdis. by rewrite <- H4.
  - rewrite !all_dbids_cons. by rewrite H4, G4.
  - intros d Hd.  rewrite all_dbids_cons, not_elem_of_app in Hd. rewrite G8, H8; tauto.
Qed.

(** The invariant of the main loop. *)
Record cycle_inv (infos : list info) s : Prop := {
  cy_head : Forall (seg_head R) infos;
  cy_cat : Forall (cat_inv (catalog s)) infos;
  cy_ids : NoDup (all_dbids infos);
  cy_sent : Forall send_ok (sent s);
}.

Lemma same_envs_sent infos s s' :
  same_envs infos s s' → Forall (cat_inv (catalog s)) infos → Forall send_ok (sent s) →
  Forall send_ok (sent s').
Proof.
  intros (_ & _ & l & -> & Hl) Hcat Hs. apply Forall_app; split; [|done].
  eapply Forall_impl; [done|]. intros m (i & Hi & Hst & ->). apply message_send_ok; [|done].
  rewrite Forall_forall in Hcat. auto.
Qed.

Lemma for_infos_phases Pre Post (f : info → FtsM (W := W) info) :
  phase R Pre Post f → phases R Pre Post (for_infos f).
Proof. intros Hf infos s. by apply for_infos_phase. Qed.

Lemma fts_iteration_wp infos s :
  skipFtsProbe s = false → cycle_inv infos s →
  wp (fts_iteration R T infos) (λ r s', cycle_inv r.1 s' ∧ Forall2 advances infos r.1 ∧
    Forall (λ i, ftsResponseReady i = false) r.1 ∧ skipFtsProbe s' = false) s.
Proof.
  intros Hact [Hh Hc Hi Hs]. unfold fts_iteration.
  eapply phases_bind; [apply for_infos_phases, ftsConnect_phase|done| |apply same_envs_refl|].
  { apply Forall_Forall2_diag, Forall_true, same_pair_refl. }
  intros infos1 s1 P1 S1 E1. eapply phases_bind; [apply ftsPoll_phases|done|exact S1|exact E1|].
  intros infos2 s2 P2 S2 E2. eapply phases_bind; [apply for_infos_phases, ftsSend_phase|done|exact S2|exact E2|].
  intros infos3 s3 P3 S3 E3. eapply phases_bind; [apply for_infos_phases, ftsReceive_phase|done|exact S3|exact E3|].
  intros infos4 s4 P4 S4 E4. eapply phases_bind; [apply processRetry_phases|done|exact S4|exact E4|].
  intros infos5 s5 P5 S5 E5. pose proof E5 as (Hk5 & Hc5 & _).
  eapply wp_mono; [apply processResponse_wp|].
  - congruence.
  - done.
  - rewrite Hc5. by eapply same_pairs_cat.
  - by rewrite (same_pairs_dbids infos).
  - intros [infos6 u] s6 (G1 & G2 & G3 & G4 & G5 & G6 & G7 & G8); simpl in *.
    split_and!; [|..|done|congruence].
    + split; [done|done| |].
      * rewrite G4. by rewrite (same_pairs_dbids infos).
      * rewrite G7. by eapply same_envs_sent.
    + clear -S5 G5. revert infos6 G5.
      induction S5 as [|a b l k Hab _ IH]; intros infos6; inversion_clear 1; constructor; [|by apply IH].
      eapply advances_trans; [|done]. apply Hab.
Qed.

Lemma fts_loop_wp fuel infos u s :
  cycle_inv infos s →
  wp (fts_loop R T fuel infos u) (λ r s', cycle_inv r.1.2 s' ∧ skipFtsProbe s' = skipFtsProbe s ∧
    (r.1.1 = true → skipFtsProbe s = false → allDone r.1.2 = true)) s.
Proof.
  revert infos u s. induction fuel as [|fuel IH]; intros infos u s Hinv; simpl.
  all: destruct (allDone infos) eqn:Hd; [by wp_step|]; wp_step; wp_step.
  all: destruct (skipFtsProbe s) eqn:Hk; simpl; [by wp_step|].
  - by wp_step.
  - wp_step. eapply wp_mono; [by apply fts_iteration_wp|].
    intros [infos' upd] s' (Hinv' & _ & _ & Hk'). eapply wp_mono; [by apply IH|].
    intros r s2 (? & ? & ?). split_and!; try congruence. auto.
Qed.

(** ** The start and the end of a cycle *)

(** The pair of a segment: none for a mirror and for a primary without mirror. *)
Definition pair_of (cdbs : CdbComponentDatabases) (p : CdbComponentDatabaseInfo) : option info :=
  if SEGMENT_IS_ACTIVE_PRIMARY p
  then fts_info_zero p <$> FtsGetPeerSegment cdbs (segindex (config p)) (dbid (config p))
  else None.

(** The configuration read at the start: [dbid]s are unique, a content has one primary, which is
    counted in [total_segments], and its other segment is a mirror in the same mode. *)
Record cdbs_ok (cdbs : CdbComponentDatabases) : Prop := {
  co_total : total_segments cdbs =
    Z.of_nat (List.length (filter (λ p, SEGMENT_IS_ACTIVE_PRIMARY p = true) (segment_db_info cdbs)));
  co_ids : NoDup (map (λ p, dbid (config p)) (segment_db_info cdbs));
  co_content : NoDup (map (λ p, segindex (config p))
    (filter (λ p, SEGMENT_IS_ACTIVE_PRIMARY p = true) (segment_db_info cdbs)));
  co_peer : Forall (λ p, Forall (λ m,
    role (config p) = PRIMARY → segindex (config m) = segindex (config p) →
    dbid (config m) ≠ dbid (config p) →
    role (config m) = MIRROR ∧ mode (config p) = mode (config m)) (segment_db_info cdbs))
    (segment_db_info cdbs);
  co_cat : Forall (λ p, cat0 !! dbid (config p) = Some (config p)) (segment_db_info cdbs);
}.

Lemma FtsGetPeerSegment_Some cdbs content d m :
  FtsGetPeerSegment cdbs content d = Some m →
  m ∈ segment_db_info cdbs ∧ segindex (config m) = content ∧ dbid (config m) ≠ d.
Proof.
  intros Hf. apply List.find_some in Hf as [Hin Hc]. apply andb_true_iff in Hc as [Hc Hd].
  apply Z.eqb_eq in Hc. apply negb_true_iff, Z.eqb_neq in Hd. split_and!; [by apply list_elem_of_In|done..].
Qed.

Lemma init_pairs_eq cdbs segs infos n :
  Z.of_nat (List.length infos) +
    Z.of_nat (List.length (filter (λ p, SEGMENT_IS_ACTIVE_PRIMARY p = true) segs)) ≤ total_segments cdbs →
  init_pairs cdbs segs infos n =
  Ok (infos ++ omap (pair_of cdbs) segs,
      n - (Z.of_nat (List.length (filter (λ p, SEGMENT_IS_ACTIVE_PRIMARY p = true) segs)) -
           Z.of_nat (List.length (omap (pair_of cdbs) segs)))).
Proof.
  revert infos n. induction segs as [|p segs IH]; intros infos n Hlen; cbn [init_pairs].
  { simpl. rewrite app_nil_r. do 2 f_equal. lia. }
  cbn [omap list_omap]. rewrite filter_cons in *.
  rewrite !(eq_refl : pair_of cdbs p = if SEGMENT_IS_ACTIVE_PRIMARY p then _ else _).
  destruct (SEGMENT_IS_ACTIVE_PRIMARY p) eqn:Hp; cbn [negb].
  2:{ rewrite !decide_False in * by done. by apply IH. }
  rewrite !decide_True in * by done. cbn [List.length] in Hlen |- *.
  destruct (FtsGetPeerSegment _ _ _) as [m|]; cbn [fmap option_fmap option_map].
  - destruct (Z.ltb_spec (Z.of_nat (List.length infos)) (total_segments cdbs)); [|lia].
    rewrite IH by (rewrite List.length_app; simpl; lia). rewrite <- app_assoc. simpl.
    do 2 f_equal. lia.
  - rewrite IH by lia. do 2 f_equal. lia.
Qed.

Lemma init_context_eq cdbs :
  cdbs_ok cdbs → FtsWalRepInitProbeContext cdbs = Ok (omap (pair_of cdbs) (segment_db_info cdbs)).
Proof.
  intros Hok. pose proof (co_total _ Hok) as Ht. unfold FtsWalRepInitProbeContext.
  rewrite init_pairs_eq by (simpl; lia). unfold mbind, result_bind. rewrite app_nil_l.
  rewrite (proj2 (Z.leb_le _ _)) by lia. f_equal. apply take_ge. lia.
Qed.

(** Two pairs share no segment. *)
Lemma init_dbids_NoDup cdbs segs :
  cdbs_ok cdbs → segs ⊆ segment_db_info cdbs →
  NoDup (map (λ p, dbid (config p)) segs) →
  NoDup (map (λ p, segindex (config p)) (filter (λ p, SEGMENT_IS_ACTIVE_PRIMARY p = true) segs)) →
  NoDup (all_dbids (omap (pair_of cdbs) segs)).
Proof.
  intros Hok.
  assert (Hpair : ∀ p i, p ∈ segment_db_info cdbs → pair_of cdbs p = Some i →
    ∃ m, i = fts_info_zero p m ∧ m ∈ segment_db_info cdbs ∧ role (config p) = PRIMARY ∧
      segindex (config m) = segindex (config p) ∧ dbid (config m) ≠ dbid (config p) ∧
      role (config m) = MIRROR).
  { intros p i Hp Hi. unfold pair_of in Hi. destruct (SEGMENT_IS_ACTIVE_PRIMARY p) eqn:Hprim; [|done].
    apply bool_decide_eq_true in Hprim. apply fmap_Some in Hi as (m & Hm & ->).
    apply FtsGetPeerSegment_Some in Hm as (Hin & Hs & Hd). exists m. split_and!; try done.
    pose proof (co_peer _ Hok) as Hpeer. rewrite Forall_forall in Hpeer.
    specialize (Hpeer p Hp). rewrite Forall_forall in Hpeer. by apply Hpeer. }
  assert (Hinj : ∀ p q, p ∈ segment_db_info cdbs → q ∈ segment_db_info cdbs →
    dbid (config p) = dbid (config q) → config p = config q).
  { pose proof (co_cat _ Hok) as Hc. rewrite Forall_forall in Hc. intros p q Hp Hq E.
    apply Hc in Hp, Hq. rewrite E in Hp. congruence. }
  induction segs as [|p segs IH]; intros Hsub Hids Hcont; [constructor|].
  assert (Hp : p ∈ segment_db_info cdbs) by (apply Hsub; by left).
  assert (Hsub' : segs ⊆ segment_db_info cdbs) by (intros x Hx; apply Hsub; by right).
  apply NoDup_cons in Hids as [Hpid Hids]. rewrite filter_cons in Hcont.
  assert (Hcont' : NoDup (map (λ p, segindex (config p))
    (filter (λ p, SEGMENT_IS_ACTIVE_PRIMARY p = true) segs))).
  { case_decide; [|done]. by apply NoDup_cons in Hcont as [_ ?]. }
  specialize (IH Hsub' Hids Hcont'). cbn [omap list_omap].
  destruct (pair_of cdbs p) as [i|] eqn:Hi; [|done].
  destruct (Hpair p i Hp Hi) as (m & -> & Hm & Hrp & Hseg & Hne & Hrm).
  rewrite all_dbids_cons. apply NoDup_app. split_and!; [| |done].
  { unfold dbids; simpl. apply NoDup_cons. split; [|apply NoDup_singleton].
    rewrite list_elem_of_singleton. by apply not_eq_sym. }
  intros d Hd Hd'. apply list_elem_of_bind in Hd' as (j & Hdj & Hj).
  apply list_elem_of_omap in Hj as (q & Hq & Hj). apply Hsub' in Hq as Hq'.
  destruct (Hpair q j Hq' Hj) as (m' & -> & Hm' & Hrq & Hseg' & Hne' & Hrm').
  rewrite decide_True in Hcont by by apply bool_decide_eq_true.
  apply NoDup_cons in Hcont as [Hpc _].
  unfold dbids in Hd, Hdj; simpl in *. rewrite elem_of_cons, list_elem_of_singleton in Hd, Hdj.
  destruct Hd as [->| ->], Hdj as [E|E]; apply Hinj in E as E'; try done; try congruence.
  - apply Hpid, list_elem_of_fmap. eauto.
  - apply Hpc, list_elem_of_fmap. exists q. split; [congruence|]. apply list_elem_of_filter.
    split; [by apply bool_decide_eq_true|done].
Qed.

Lemma init_cycle_inv cdbs s :
  0 ≤ R → cdbs_ok cdbs → catalog s = cat0 → sent s = [] →
  cycle_inv (omap (pair_of cdbs) (segment_db_info cdbs)) s.
Proof.
  intros HR Hok Hcat Hsent. split; [| | |by rewrite Hsent].
  3:{ apply init_dbids_NoDup; [done|done|apply (co_ids _ Hok)|apply (co_content _ Hok)]. }
  all: rewrite Forall_forall; intros i Hi; apply list_elem_of_omap in Hi as (p & Hp & Hi).
  all: unfold pair_of in Hi; destruct (SEGMENT_IS_ACTIVE_PRIMARY p) eqn:Hprim; [|done].
  all: apply fmap_Some in Hi as (m & Hm & ->).
  - split; [|done]. split; simpl; auto; try lia; by left.
  - apply bool_decide_eq_true in Hprim. apply FtsGetPeerSegment_Some in Hm as (Hin & Hs & Hd).
    pose proof (co_cat _ Hok) as Hc. rewrite Forall_forall in Hc.
    pose proof (co_peer _ Hok) as Hpeer. rewrite Forall_forall in Hpeer. specialize (Hpeer p Hp).
    rewrite Forall_forall in Hpeer. destruct (Hpeer m Hin Hprim Hs Hd).
    rewrite Hcat. assert (rows_fresh p m cat0) by (split_and!; auto).
    split_and!; simpl; auto.
Qed.

Lemma close_segs_wp infos s (Q : list info → env → Prop) :
  (∀ w infos', Forall (λ i, conn_of i = None) infos' → Q infos' (in_world w s)) →
  wp (for_infos close_seg infos) Q s.
Proof.
  revert s Q. induction infos as [|i infos IH]; intros s Q HQ; simpl.
  { wp_step. specialize (HQ (world s) [] (Forall_nil_2 _)). by destruct s. }
  assert (Htail : ∀ j w, conn_of j = None →
    wp (infos' ← for_infos close_seg infos; mret (j :: infos')) Q (in_world w s)).
  { intros j w Hj. wp_step. apply IH. intros w' infos' Hn. wp_step. apply HQ. by constructor. }
  wp_step. unfold close_seg at 1. destruct (conn_of i) as [c|] eqn:Hc.
  - unfold finish_conn. do 3 wp_step. by apply Htail.
  - wp_step. specialize (Htail i (world s) Hc). by destruct s.
Qed.

Lemma fts_finish_wp infos s :
  cycle_inv infos s → (skipFtsProbe s = false → allDone infos = true) →
  wp (fts_finish infos) (λ _ s', sent s' = sent s) s.
Proof.
  intros Hinv Hdone. unfold fts_finish. do 2 wp_step.
  assert (Hleft : ∀ infos' w, Forall (λ i, conn_of i = None) infos' →
    wp (if existsb (λ i : info, match conn_of i with Some _ => true | None => false end) infos'
        then elog_error "FTS libpq connection left open" else mret tt)
      (λ _ s', sent s' = sent s) (in_world w s)).
  { intros infos' w Hn. destruct (existsb _ infos') eqn:Hex; [|by wp_step].
    apply existsb_exists in Hex as (i & Hi & Hc). rewrite Forall_forall in Hn.
    rewrite (Hn i) in Hc by by apply list_elem_of_In. done. }
  destruct (skipFtsProbe s) eqn:Hk; simpl; wp_step.
  - apply close_segs_wp. intros w infos' Hn. by apply Hleft.
  - wp_step. specialize (Hleft infos (world s)). destruct s; apply Hleft.
    apply Forall_forall. intros i Hi. specialize (Hdone eq_refl). unfold allDone in Hdone.
    rewrite forallb_forall in Hdone. apply list_elem_of_In in Hi as Hi'.
    apply Hdone, bool_decide_eq_true in Hi'.
    pose proof (cy_head _ _ Hinv) as Hh. rewrite Forall_forall in Hh.
    apply (sb_wait _ _ (proj1 (Hh i Hi))). auto.
Qed.

Lemma message_segments_wp fuel cdbs s :
  0 ≤ R → cdbs_ok cdbs → catalog s = cat0 → sent s = [] →
  wp (FtsWalRepMessageSegments R T fuel cdbs) (λ _ s', Forall send_ok (sent s')) s.
Proof.
  intros HR Hok Hcat Hsent. unfold FtsWalRepMessageSegments. wp_step. wp_step.
  rewrite init_context_eq by done. wp_step.
  eapply wp_mono; [apply fts_loop_wp; by apply init_cycle_inv|].
  intros [[ended infos] u] s' (Hinv & Hk & Hd); simpl in *. destruct ended; simpl; wp_step.
  - eapply wp_mono; [apply fts_finish_wp; [done|]|].
    + rewrite Hk. auto.
    + intros [] s2 Hs2. wp_step. rewrite Hs2. apply (cy_sent _ _ Hinv).
  - apply (cy_sent _ _ Hinv).
Qed.
End Cycle.

(** ** What an answer or a failure does to the catalog *)

(** A row that is not rewritten has the values it would have been given. *)
Lemma rewrites_row seg primary insync alive r :
  role (config seg) = r → mode (config seg) = mode (config primary) →
  (if rewrites seg primary insync alive then modify_row r alive insync (config seg) else config seg) =
  modify_row r alive insync (config seg).
Proof.
  intros Hr Hm. destruct (rewrites seg primary insync alive) eqn:Hb; [done|].
  unfold rewrites, SEGMENT_IS_IN_SYNC, SEGMENT_IS_ALIVE in Hb. apply orb_false_iff in Hb as [Hi Ha].
  apply negb_false_iff, Bool.eqb_prop in Hi, Ha. rewrite <- Hm in Hi.
  unfold modify_row, mode_of, status_of. clear Hm. destruct seg as [[d c r' mo st po ho]]; simpl in *. subst.
  by destruct mo, st.
Qed.

(** Nothing was rewritten exactly if both rows have their values already. *)
Lemma rewrites_changes seg primary insync alive r :
  role (config seg) = r → mode (config seg) = mode (config primary) →
  rewrites seg primary insync alive = true ↔ modify_row r alive insync (config seg) ≠ config seg.
Proof.
  intros Hr Hm. unfold rewrites, SEGMENT_IS_IN_SYNC, SEGMENT_IS_ALIVE. rewrite <- Hm.
  unfold modify_row, mode_of, status_of. clear Hm. destruct seg as [[d c r' mo st po ho]]; simpl in *. subst.
  by destruct mo, st, insync, alive.
Qed.

Section Outcomes.
Context {W conn : Type} `{FtsWorld W conn}.

(** The pair after its answer was processed: no connection, no result, no retries used. *)
Definition restarted (st : FtsMessageState) (i : fts_segment_info (conn := conn)) :=
  set_retry_count 0 (cleared (set_state st i)).

Lemma reset_conn_eq (j : fts_segment_info (conn := conn)) (s : FtsEnv (W := W)) :
  ∃ w, reset_conn j s = Ok (cleared j, in_world w s).
Proof. destruct s. unfold reset_conn, finish_conn. destruct (conn_of j); by eexists. Qed.

(** A primary that could not be reached is failed over exactly if it is not making progress in
    recovery and its mirror is in sync.  Then the catalog shows the two segments with their roles
    exchanged, the old primary down, both not in sync; the status byte of the old primary says
    down, the history has a row for each, and the pair goes on with the mirror as the segment to
    promote.  Otherwise catalog, history and status are left as they are and the pair is done. *)
Lemma fts_failover_decision (i : fts_segment_info (conn := conn)) (s : FtsEnv (W := W)) :
  let p := primary_cdbinfo i in let m := mirror_cdbinfo i in
  state i = FTS_PROBE_FAILED → seg_result i = fts_result_zero →
  rows_fresh p m (catalog s) → mode (config p) = mode (config m) →
  ∃ w, processResponse_seg i s =
  if recovery_making_progress i || negb (SEGMENT_IS_IN_SYNC m)
  then Ok ((restarted FTS_RESPONSE_PROCESSED i, false), in_world w s)
  else Ok ((set_mirror_cdbinfo p (set_primary_cdbinfo m (restarted FTS_PROMOTE_SEGMENT i)), true),
       mkFtsEnv (skipFtsProbe s) w
         (<[dbid (config m) := modify_row PRIMARY (SEGMENT_IS_ALIVE m) false (config m)]>
           (<[dbid (config p) := modify_row MIRROR false false (config p)]> (catalog s)))
         (history s ++ [(dbid (config p), segindex (config p), MIRROR, false, false);
                        (dbid (config m), segindex (config m), PRIMARY, SEGMENT_IS_ALIVE m, false)])
         (status_byte (SEGMENT_IS_ALIVE m) (dbid (config m))
           (status_byte false (dbid (config p)) (fts_status s)))
         (sent s)).
Proof.
  intros p m Hst Hres Hf Hmode. unfold processResponse_seg, ftsResponseReady, respond.
  rewrite Hst, Hres. fold p m.
  destruct (recovery_making_progress i); simpl.
  { unfold mbind, FtsM_bind, mret, FtsM_ret. destruct (reset_conn_eq (set_state FTS_RESPONSE_PROCESSED i) s) as [w Hw].
    exists w. by rewrite Hw. }
  destruct (SEGMENT_IS_IN_SYNC m) eqn:Hsync; simpl.
  2:{ unfold mbind, FtsM_bind, mret, FtsM_ret. destruct (reset_conn_eq (set_state FTS_RESPONSE_PROCESSED i) s) as [w Hw].
      exists w. by rewrite Hw. }
  assert (Hins : SEGMENT_IS_IN_SYNC p = true).
  { unfold SEGMENT_IS_IN_SYNC in *. by rewrite Hmode. }
  assert (Hb : ∀ seg alive, rewrites seg p false alive = true).
  { intros seg alive. unfold rewrites. by rewrite Hins. }
  unfold mbind, FtsM_bind, mret, FtsM_ret. rewrite updateConfiguration_eq by done. rewrite !Hb.
  cbn [orb update_row history_row]. edestruct reset_conn_eq as [w Hw]. exists w. by rewrite Hw.
Qed.

(** A primary that answered, did not say that it is a mirror and does not ask for a retry has
    its answer recorded: afterwards the catalog row of the primary says primary, up and the mode
    it reported, the row of the mirror says mirror and the reported status and mode, no other row
    changes, and an update is reported exactly if a row changed.  The pair goes on to turn
    synchronous replication off exactly if it is on and the mirror is down. *)
Lemma fts_answer_recorded (i : fts_segment_info (conn := conn)) (s : FtsEnv (W := W)) :
  let p := primary_cdbinfo i in let m := mirror_cdbinfo i in let r := seg_result i in
  state i = FTS_PROBE_SUCCESS → isPrimaryAlive r = true →
  isRoleMirror r = false → retryRequested r = false →
  rows_fresh p m (catalog s) → mode (config p) = mode (config m) →
  role (config p) = PRIMARY → role (config m) = MIRROR →
  ∃ upd s', processResponse_seg i s =
    Ok ((restarted (if isSyncRepEnabled r && negb (isMirrorAlive r) then FTS_SYNCREP_OFF_SEGMENT
                    else FTS_RESPONSE_PROCESSED) i, upd), s') ∧
  catalog s' !! dbid (config p) = Some (modify_row PRIMARY true (isInSync r) (config p)) ∧
  catalog s' !! dbid (config m) = Some (modify_row MIRROR (isMirrorAlive r) (isInSync r) (config m)) ∧
  (∀ d, d ≠ dbid (config p) → d ≠ dbid (config m) → catalog s' !! d = catalog s !! d) ∧
  (upd = true ↔ catalog s' !! dbid (config p) ≠ catalog s !! dbid (config p) ∨
                catalog s' !! dbid (config m) ≠ catalog s !! dbid (config m)).
Proof.
  intros p m r Hst Hal Hrole Hretry Hf Hmode Hrp Hrm.
  pose proof (update_rows_lookup p m PRIMARY MIRROR (isInSync r) true (isMirrorAlive r)
    (rewrites p p (isInSync r) true) (rewrites m p (isInSync r) (isMirrorAlive r)) (catalog s) Hf)
    as (Hp & Hm & Ho).
  rewrite rewrites_row in Hp, Hm by done.
  pose proof (rewrites_changes p p (isInSync r) true PRIMARY Hrp eq_refl) as Cp.
  pose proof (rewrites_changes m p (isInSync r) (isMirrorAlive r) MIRROR Hrm (eq_sym Hmode)) as Cm.
  pose proof (updateConfiguration_eq p m PRIMARY MIRROR (isInSync r) true (isMirrorAlive r) s Hf) as Hup.
  cbv zeta in Hup.
  set (bp := rewrites p p _ _) in *. set (bm := rewrites m p _ _) in *.
  set (s1 := if bp || bm then _ else s) in Hup.
  assert (Hs1 : catalog s1 = update_row bm m MIRROR (isMirrorAlive r) (isInSync r)
                  (update_row bp p PRIMARY true (isInSync r) (catalog s))).
  { subst s1. by destruct bp, bm. }
  set (st := if isSyncRepEnabled r && negb (isMirrorAlive r) then _ else _).
  destruct (reset_conn_eq (set_state st i) s1) as [w Hw]. exists (bp || bm), (in_world w s1). split_and!.
  - unfold processResponse_seg, ftsResponseReady, respond. rewrite Hst. fold p m r. rewrite Hal, Hrole, Hretry.
    simpl. subst st. unfold restarted. unfold mbind, FtsM_bind, mret, FtsM_ret.
    destruct (isSyncRepEnabled r && _); by rewrite Hup, Hw.
  - simpl. by rewrite Hs1.
  - simpl. by rewrite Hs1.
  - simpl. by rewrite Hs1.
  - simpl. rewrite Hs1, Hp, Hm. destruct Hf as (_ & Fp & Fm). rewrite Fp, Fm.
    rewrite orb_true_iff, Cp, Cm. split; intros [?|?]; (left + right); congruence.
Qed.
End Outcomes.

(** ** A simulated cluster

    Connections open and answer at once, except to the host ["dead"]; a connection to
    ["oom"] cannot be allocated; the clock advances by one
    with every reading. *)
Module Sim.
Record sim_conn := mkSim { sc_status : ConnStatusType; sc_idle : bool }.

#[global] Instance sim_world : FtsWorld N sim_conn := {
  PQconnectStart host port w :=
    (if bool_decide (host = "oom") then None
     else Some (mkSim (if bool_decide (host = "dead") then CONNECTION_BAD else CONNECTION_STARTED) true),
     w);
  PQconnectPoll c w := (PGRES_POLLING_OK, mkSim CONNECTION_OK true, w);
  PQstatus := sc_status;
  PQasyncIdle := sc_idle;
  PQerrorMessage _ := "";
  PQsendQuery c m w := (true, mkSim CONNECTION_OK false, w);
  PQconsumeInput c w := (true, c, w);
  PQisBusy c w := (false, c, w);
  PQgetResult c w := (Some (mkPGresult true 1 5 (λ _, 0)), c, w);
  PQfinish c w := w;
  sys_poll fds w := (poll_revs (map snd fds), w);
  sys_time w := (Z.of_N w, (w + 1)%N);
}.

#[global] Instance sim_laws : FtsWorldLaws N sim_conn.
Proof.
  split.
  - intros fds w revs w' i c ev [= <- <-] Hi. change (map snd fds) with (snd <$> fds).
    rewrite list_lookup_fmap, Hi. simpl. by rewrite Z.land_assoc, Z.land_diag.
  - intros c m w c' w' _ [= <- <-]. done.
Qed.

Definition seg (d c : Z) (r : SegRole) (host : string) : CdbComponentDatabaseInfo :=
  mkCdbInfo (mkGpSegConfigEntry d c r INSYNC UP 6000 host).

(** Two contents; content 1 is healthy. *)
Definition cdbs (host : string) : CdbComponentDatabases :=
  mkCdbs [seg 2 0 PRIMARY host; seg 4 0 MIRROR "h1"; seg 3 1 PRIMARY "h2"; seg 5 1 MIRROR "h1"] 2.

Definition start (host : string) : FtsEnv (W := N) :=
  mkFtsEnv false 0%N (list_to_map ((λ p, (dbid (config p), config p)) <$> segment_db_info (cdbs host))) [] ∅ [].

Lemma cdbs_ok_start host : cdbs_ok (catalog (start host)) (cdbs host).
Proof.
  split; [done|by apply (bool_decide_unpack _); vm_compute..| |].
  - repeat constructor; simpl; intros; try done; lia.
  - repeat constructor.
Qed.

(** A cycle of at most [fuel] turns. *)
Notation run host fuel :=
  (FtsWalRepMessageSegments (conn := sim_conn) 1 5 fuel (cdbs host) (start host)).

Lemma run_dead :
  match run "dead" 20 with Ok (r, s) => (r, map fst (sent s)) | Err _ => (None, []) end =
  (Some true, [mkFtsMessage FTS_MSG_PROMOTE 4 0; mkFtsMessage FTS_MSG_PROBE 3 1]).
Proof. vm_compute. reflexivity. Qed.

(** The pair of content 0 when the probe has failed, and when it was answered: the mirror is
    down and synchronous replication is on. *)
Definition failed : fts_segment_info (conn := sim_conn) :=
  set_retry_count 1 (set_state FTS_PROBE_FAILED (fts_info_zero (seg 2 0 PRIMARY "dead") (seg 4 0 MIRROR "h1"))).
Definition answered : fts_segment_info (conn := sim_conn) :=
  set_result (mkFtsResult true false false true false false) (set_state FTS_PROBE_SUCCESS failed).
End Sim.

(** ** Theorems *)

Section Theorems.
Context {W conn : Type} `{FtsWorldLaws W conn}.
Context (R T : Z) (HR : 0 ≤ R).

(** C29: A probe cycle on a well-formed configuration fails, whatever libpq, [poll] and the clock
    answer and however long it runs, only where libpq cannot allocate a connection, [poll] fails
    or libpq answers outside its protocol.  No internal error is reachable: the next state of a
    pair is always defined, its rows are in the catalog, the array of pairs is large enough and
    filled, and no connection is left open. *)
Theorem fts_cycle_errors cdbs fuel (s : FtsEnv (W := W)) e :
  cdbs_ok (catalog s) cdbs → sent s = [] →
  FtsWalRepMessageSegments R T fuel cdbs s = Err e → world_error e.
Proof.
  intros Hok Hs He. pose proof (message_segments_wp R T (catalog s) fuel cdbs s HR Hok eq_refl Hs) as Hwp.
  unfold wp in Hwp. by rewrite He in Hwp.
Qed.

(** C3: Every message of a cycle goes to the segment that the catalog shows, at that moment, as
    primary of its content.  Synchronous replication is turned off only with the mirror marked
    down.  A promotion is requested only of a segment that was the primary from the start, or
    that was an in-sync mirror at the start and whose former primary the catalog already shows
    as mirror, down and not in sync. *)
Theorem fts_messages_safe cdbs fuel (s s' : FtsEnv (W := W)) r :
  cdbs_ok (catalog s) cdbs → sent s = [] →
  FtsWalRepMessageSegments R T fuel cdbs s = Ok (r, s') → Forall (send_ok (catalog s)) (sent s').
Proof.
  intros Hok Hs He. pose proof (message_segments_wp R T (catalog s) fuel cdbs s HR Hok eq_refl Hs) as Hwp.
  unfold wp in Hwp. by rewrite He in Hwp.
Qed.

(** Along any number of turns from the start of a cycle each turn keeps the invariant of the
    loop, leaves no answer unprocessed, and either keeps the state of a pair or lowers its rank,
    which lies between 0 (finished) and [12 R + 11]: a pair changes state a bounded number of
    times, so that a cycle can only go on by waiting, for an event or for the retry delay. *)
Lemma fts_turn_progress cat0 infos (s : FtsEnv (W := W)) :
  skipFtsProbe s = false → cycle_inv R cat0 infos s →
  match fts_iteration R T infos s with
  | Ok ((infos', _), s') =>
      cycle_inv R cat0 infos' s' ∧
      Forall (λ i', ftsResponseReady i' = false) infos' ∧
      Forall2 (λ i i', state i' = state i ∧ retry_count i' = retry_count i ∨ rank R i' < rank R i)
        infos infos' ∧
      Forall (λ i', 0 ≤ rank R i' ≤ 12 * R + 11 ∧
        (rank R i' = 0 ↔ state i' = FTS_RESPONSE_PROCESSED)) infos'
  | Err e => world_error e
  end.
Proof.
  intros Hact Hinv. pose proof (fts_iteration_wp R T cat0 infos s Hact Hinv) as Hwp. unfold wp in Hwp.
  destruct (fts_iteration R T infos s) as [[[infos' u] s']|e]; [|done].
  destruct Hwp as (Hinv' & Hadv & Hready & _); simpl in *. split_and!; [done..|].
  pose proof (cy_head _ _ _ _ Hinv') as Hh. apply Forall_lookup. intros n i Hi.
  pose proof (Forall_lookup_1 _ _ _ _ Hh Hi) as [Hb _]. pose proof (Forall_lookup_1 _ _ _ _ Hready Hi) as Hr.
  pose proof (sb_retry _ _ Hb) as Hrc. unfold rank, phase_weight. unfold ftsResponseReady in Hr.
  destruct (state i); try done; simpl; (split; [lia|]); split; intros; try done; lia.
Qed.

(** The context of a cycle holds one pair for each primary that has another segment of its
    content, in the initial state with that segment as mirror, nothing else, and no segment
    belongs to two pairs. *)
Lemma fts_init_context cat0 cdbs :
  cdbs_ok cat0 cdbs →
  ∃ infos : list (fts_segment_info (conn := conn)),
    FtsWalRepInitProbeContext cdbs = Ok infos ∧ NoDup (all_dbids infos) ∧
    (∀ i, i ∈ infos → ∃ p m, i = fts_info_zero p m ∧ p ∈ segment_db_info cdbs ∧
       m ∈ segment_db_info cdbs ∧ role (config p) = PRIMARY ∧ role (config m) = MIRROR ∧
       segindex (config m) = segindex (config p)) ∧
    (∀ p m, p ∈ segment_db_info cdbs → m ∈ segment_db_info cdbs → role (config p) = PRIMARY →
       segindex (config m) = segindex (config p) → dbid (config m) ≠ dbid (config p) →
       ∃ m', fts_info_zero p m' ∈ infos).
Proof.
  intros Hok. exists (omap (pair_of cdbs) (segment_db_info cdbs)). split_and!.
  - by eapply init_context_eq.
  - eapply init_dbids_NoDup; [done|done|apply (co_ids _ _ Hok)|apply (co_content _ _ Hok)].
  - intros i Hi. apply list_elem_of_omap in Hi as (p & Hp & Hi). unfold pair_of in Hi.
    destruct (SEGMENT_IS_ACTIVE_PRIMARY p) eqn:Hprim; [|done]. apply bool_decide_eq_true in Hprim.
    apply fmap_Some in Hi as (m & Hm & ->). apply FtsGetPeerSegment_Some in Hm as (Hin & Hs & Hd).
    pose proof (co_peer _ _ Hok) as Hpeer. rewrite Forall_forall in Hpeer. specialize (Hpeer p Hp).
    rewrite Forall_forall in Hpeer. destruct (Hpeer m Hin Hprim Hs Hd). eauto 10.
  - intros p m Hp Hm Hr Hs Hd. destruct (FtsGetPeerSegment cdbs (segindex (config p)) (dbid (config p)))
      as [m'|] eqn:Hf.
    + exists m'. apply list_elem_of_omap. exists p. split; [done|]. unfold pair_of.
      unfold SEGMENT_IS_ACTIVE_PRIMARY. by rewrite bool_decide_true, Hf.
    + unfold FtsGetPeerSegment in Hf. apply list_elem_of_In in Hm.
      pose proof (List.find_none _ _ Hf m Hm) as Hn. simpl in Hn.
      rewrite Hs, Z.eqb_refl in Hn. simpl in Hn. apply negb_false_iff, Z.eqb_eq in Hn. done.
Qed.
End Theorems.

(** ** Witnesses *)

Lemma fts_cycle_errors_witness :
  world_error "FTS: cannot create libpq connection object, possibly out of memory".
Proof.
  apply (fts_cycle_errors (W := N) (conn := Sim.sim_conn) 1 5 ltac:(lia) (Sim.cdbs "oom") 20 (Sim.start "oom")).
  - apply Sim.cdbs_ok_start.
  - reflexivity.
  - vm_compute. reflexivity.
Defined.

(** A run that promotes the mirror of the lost primary. *)
Lemma fts_messages_safe_witness :
  ∃ s', Sim.run "dead" 20 = Ok (Some true, s') ∧
    map fst (sent s') = [mkFtsMessage FTS_MSG_PROMOTE 4 0; mkFtsMessage FTS_MSG_PROBE 3 1] ∧
    Forall (send_ok (catalog (Sim.start "dead"))) (sent s').
Proof.
  pose proof Sim.run_dead as Hs.
  destruct (Sim.run "dead" 20) as [[r s']|e] eqn:Hrun; [|discriminate Hs]. exists s'.
  injection Hs as -> Hs. split; [reflexivity|]. split; [exact Hs|].
  exact (fts_messages_safe (W := N) (conn := Sim.sim_conn) 1 5 ltac:(lia) (Sim.cdbs "dead") 20
    (Sim.start "dead") s' (Some true) (Sim.cdbs_ok_start "dead") eq_refl Hrun).
Defined.

