(* ===== verification/FtsTermination.v ===== *)
(** * The prober: a probe cycle ends

    Under a clock that advances, and with the documented states of a libpq connection, every pair
    leaves the states in which it waits: a connection that does not answer runs into the probe
    timeout, a retry wait into its delay.  Each turn of the main loop lowers a measure of every
    unfinished pair, so the cycle ends after a bounded number of turns. *)
From S2P Require Import Prelude FtsProbe FtsFacts FtsCycle.
From Stdlib Require Import String.
#[local] Open Scope string_scope.
#[local] Open Scope list_scope.
#[local] Open Scope Z_scope.

(** [clock w] is the time in ticks, [K] ticks to the second; [time] reads it in seconds and takes
    at least one tick, no other call turns it back.  A new connection is not open yet; a
    connection is open and idle when [PQconnectPoll] says so, and not open while it asks for
    more events. *)
Class FtsClockLaws (W conn : Type) `{FtsWorld W conn} (clock : W → Z) (K : Z) := {
  clock_unit : 0 < K;
  clock_nonneg : ∀ w, 0 ≤ clock w;
  clock_read : ∀ w, (sys_time w).1 = clock w / K ∧ clock w < clock (sys_time w).2;
  clock_start : ∀ h p w, clock w ≤ clock (PQconnectStart h p w).2;
  clock_connect : ∀ c w, clock w ≤ clock (PQconnectPoll c w).2;
  clock_send : ∀ c m w, clock w ≤ clock (PQsendQuery c m w).2;
  clock_consume : ∀ c w, clock w ≤ clock (PQconsumeInput c w).2;
  clock_busy : ∀ c w, clock w ≤ clock (PQisBusy c w).2;
  clock_result : ∀ c w, clock w ≤ clock (PQgetResult c w).2;
  clock_finish : ∀ c w, clock w ≤ clock (PQfinish c w);
  clock_poll : ∀ fds w, clock w ≤ clock (sys_poll fds w).2;
  start_not_open : ∀ h p w c w', PQconnectStart h p w = (Some c, w') → PQstatus c ≠ CONNECTION_OK;
  connect_status : ∀ c w r c' w', PQconnectPoll c w = (r, c', w') →
    match r with
    | PGRES_POLLING_OK => PQstatus c' = CONNECTION_OK ∧ PQasyncIdle c' = true
    | PGRES_POLLING_READING | PGRES_POLLING_WRITING => PQstatus c' ≠ CONNECTION_OK
    | _ => True
    end;
}.

Section Liveness.
Context {W conn : Type} `{FtsWorldLaws W conn} (clock : W → Z) (K : Z) `{!FtsClockLaws W conn clock K}.
Context (R T : Z) (HR : 0 ≤ R) (HT : 0 ≤ T).
#[local] Notation info := (fts_segment_info (conn := conn)).
#[local] Notation env := (FtsEnv (W := W)).
#[local] Notation now s := (clock (world s)).
Implicit Types (i : info) (s : env).

(** [int] arithmetic on seconds is exact up to here. *)
Definition HORIZON : Z := 2 ^ 31 * K.

Lemma wp_conj {A} (m : FtsM A) (Q Q' : A → env → Prop) s :
  wp m Q s → wp m Q' s → wp m (λ a s', Q a s' ∧ Q' a s') s.
Proof. unfold wp. by destruct (m s) as [[a s']|e]. Qed.

(** ** What a pair waits for *)

(** The connection of a pair that sends: being opened, open and idle with [POLLOUT] requested,
    or with the message sent and [POLLIN] requested; [e] are the events requested. *)
Definition awaits (c : conn) (e : Z) : Prop :=
  PQstatus c ≠ CONNECTION_OK ∨ e = POLLIN ∨ e = POLLOUT ∧ PQasyncIdle c = true.

Definition sending i : Prop := is_segment_state (state i) = true.
Definition retrying i : Prop := is_wait_state (state i) = true.

(** Between turns. *)
Definition live i : Prop :=
  sending i → ∀ c, conn_of i = Some c →
  poll_events i ≠ 0 ∧ awaits c (poll_events i) ∨
  PQstatus c ≠ CONNECTION_OK ∧ Z.land (poll_revents i) (Z.lor POLLOUT POLLIN) ≠ 0.

(** After [ftsConnect]. *)
Definition live_connected i : Prop :=
  sending i → ∃ c, conn_of i = Some c ∧ poll_events i ≠ 0 ∧ awaits c (poll_events i).

(** After [ftsPoll]: nothing was returned, or an event that the pair waits for. *)
Definition live_polled i : Prop :=
  sending i → ∃ c e, conn_of i = Some c ∧ awaits c e ∧ one_event e ∧ e ≠ 0 ∧
  (poll_events i = e ∧ poll_revents i = 0 ∨ poll_events i = 0 ∧ Z.land (poll_revents i) e ≠ 0).

(** After [ftsSend]: as between turns, or the answer is there. *)
Definition live_sent i : Prop :=
  sending i → ∃ c, conn_of i = Some c ∧
  (poll_events i ≠ 0 ∧ awaits c (poll_events i) ∨
   PQstatus c ≠ CONNECTION_OK ∧ Z.land (poll_revents i) (Z.lor POLLOUT POLLIN) ≠ 0 ∨
   PQstatus c = CONNECTION_OK ∧ Z.land (poll_revents i) POLLIN ≠ 0).

(** The recorded times are readings of the clock. *)
Definition timed i (t : Z) : Prop :=
  (sending i → conn_of i ≠ None → 0 ≤ startTime i ∧ startTime i * K ≤ t) ∧
  (retrying i → 0 ≤ retryStartTime i ∧ retryStartTime i * K ≤ t).

(** The waits of a pair were not over at time [t0], unless the clock passed the horizon. *)
Definition in_time t0 i (t : Z) : Prop :=
  HORIZON ≤ t ∨ (sending i → conn_of i ≠ None → t0 < (startTime i + T + 1) * K).
Definition in_delay t0 i (t : Z) : Prop :=
  HORIZON ≤ t ∨ (retrying i → t0 < (retryStartTime i + 1) * K).

(** A phase lowers the rank or leaves the running waits of the pair as they are. *)
Definition keeps_waiting i i' : Prop :=
  rank R i' < rank R i ∨
  state i' = state i ∧ retry_count i' = retry_count i ∧
  (retrying i → retryStartTime i' = retryStartTime i) ∧
  (sending i → conn_of i ≠ None → conn_of i' ≠ None ∧ startTime i' = startTime i).

Lemma keeps_waiting_refl i : keeps_waiting i i.
Proof. right. auto. Qed.

Lemma keeps_waiting_trans i j k : keeps_waiting i j → keeps_waiting j k → keeps_waiting i k.
Proof.
  unfold keeps_waiting, sending, retrying, rank.
  intros [?|(Es & Er & Hr & Hs)] [?|(Es' & Er' & Hr' & Hs')].
  - left. lia.
  - left. by rewrite Es', Er'.
  - left. by rewrite <- Es, <- Er.
  - right. rewrite Es in Hr', Hs'. split_and!; [congruence..| |].
    + intros Hw. rewrite (Hr' Hw). auto.
    + intros Hw Hc. destruct (Hs Hw Hc) as [Hc' <-]. auto.
Qed.

Lemma timed_mono i t t' : timed i t → t ≤ t' → timed i t'.
Proof. unfold timed. intros [H1 H2] Ht. split; intros; [destruct H1|destruct H2]; auto with lia. Qed.

Lemma in_time_mono t0 i t t' : in_time t0 i t → t ≤ t' → in_time t0 i t'.
Proof. intros [?|?] ?; [left; lia|by right]. Qed.

Lemma in_delay_mono t0 i t t' : in_delay t0 i t → t ≤ t' → in_delay t0 i t'.
Proof. intros [?|?] ?; [left; lia|by right]. Qed.

(** A pair that neither sends nor waits for a retry. *)
Definition quiet i : Prop := is_segment_state (state i) = false ∧ is_wait_state (state i) = false.

Lemma quiet_all i t0 t :
  quiet i → live i ∧ live_connected i ∧ live_polled i ∧ live_sent i ∧ timed i t ∧ in_time t0 i t ∧
  in_delay t0 i t.
Proof.
  intros [H1 H2]. unfold live, live_connected, live_polled, live_sent, timed, in_time, in_delay, sending, retrying.
  rewrite H1, H2. split_and!; try done; right; done.
Qed.

Lemma quiet_failed i : IsFtsMessageStateFailed (state i) = true → quiet i.
Proof. unfold quiet. by destruct (state i). Qed.

Lemma quiet_success i : IsFtsMessageStateSuccess (state i) = true → quiet i.
Proof. unfold quiet. by destruct (state i). Qed.

(** ** Phases *)

(** The order of time on environments. *)
Definition later s s' : Prop := now s ≤ now s'.

(** A phase on one pair from time [t0] on. *)
Definition tphase (P Q : info → Z → Prop) (f : info → FtsM info) : Prop :=
  ∀ i s, P i (now s) →
  wp (f i) (λ i' s', Q i' (now s') ∧ keeps_waiting i i' ∧ later s s') s.

Definition mono (P : info → Z → Prop) : Prop := ∀ i t t', P i t → t ≤ t' → P i t'.

Lemma for_infos_rel (P : info → Z → Prop) (Q : info → info → Z → Prop) f infos s :
  mono P → (∀ i, mono (Q i)) →
  (∀ i s, P i (now s) → wp (f i) (λ i' s', Q i i' (now s') ∧ later s s') s) →
  Forall (λ i, P i (now s)) infos →
  wp (for_infos f infos) (λ infos' s', Forall2 (λ i i', Q i i' (now s')) infos infos' ∧ later s s') s.
Proof.
  intros HP HQ Hf. revert s. induction infos as [|i infos IH]; intros s Hpre; simpl.
  { wp_step. split; [done|apply Z.le_refl]. }
  apply Forall_cons in Hpre as [Hi Hpre]. wp_step. eapply wp_mono; [by apply Hf|].
  intros i' s1 (Hi' & Hl). wp_step. eapply wp_mono; [apply IH|].
  { eapply Forall_impl; [done|]. intros j Hj. exact (HP _ _ _ Hj Hl). }
  intros infos' s2 (Hinfos & Hl2). wp_step. unfold later in *.
  split; [constructor; [by eapply HQ|done]|lia].
Qed.

(** All pairs at once, in a turn that began at [t0]. *)
Definition tphases (t0 : Z) (P Q : info → Z → Prop) (f : list info → FtsM (list info)) : Prop :=
  ∀ infos s, t0 ≤ now s → Forall (λ i, P i (now s)) infos →
  wp (f infos) (λ infos' s', Forall (λ i, Q i (now s')) infos' ∧
    Forall2 keeps_waiting infos infos' ∧ later s s') s.

Lemma Forall2_conj_r {A} (P : A → Prop) (S : A → A → Prop) (l l' : list A) :
  Forall2 (λ x y, P y ∧ S x y) l l' → Forall P l' ∧ Forall2 S l l'.
Proof. induction 1 as [|x y l l' [? ?] _ [? ?]]; auto. Qed.

Lemma for_infos_tphases t0 P Q f : mono P → mono Q → tphase P Q f → tphases t0 P Q (for_infos f).
Proof.
  intros HP HQ Hf infos s _ Hpre.
  eapply wp_mono; [apply (for_infos_rel P (λ i i' t, Q i' t ∧ keeps_waiting i i')); [done| | |done]|].
  - intros i j t t' [? ?] ?. split; [by eapply HQ|done].
  - intros i s0 Hi. eapply wp_mono; [by apply Hf|]. naive_solver.
  - intros infos' s' [H2 Hl]. apply Forall2_conj_r in H2. naive_solver.
Qed.

(** From the phases of the invariants: the rank, once the running waits are kept. *)
Lemma tphase_intro (Pre Post : info → Prop) (P Q : info → Z → Prop) f :
  phase R Pre Post f →
  (∀ i s, Pre i → P i (now s) → wp (f i) (λ i' s', Q i' (now s') ∧ later s s' ∧
     (state i' = state i → keeps_waiting i i')) s) →
  tphase (λ i t, Pre i ∧ P i t) (λ i t, Post i ∧ Q i t) f.
Proof.
  intros Hf Hq i s [Hpre Hp].
  eapply wp_mono; [apply wp_conj; [apply (Hf i s Hpre)|apply (Hq i s Hpre Hp)]|].
  intros i' s' [(Hpost & (_ & _ & _ & Hr) & _) (HQ & Hl & Hk)]. split_and!; try done.
  destruct Hr as [[Es _]|?]; [by apply Hk|by left].
Qed.

Lemma fail_segment_quiet i s :
  is_segment_state (state i) = true ∨ IsFtsMessageStateFailed (state i) = true →
  wp (fail_segment i) (λ i' s', IsFtsMessageStateFailed (state i') = true ∧ s' = s ∧
     (state i' = state i → i' = i)) s.
Proof.
  intros Hst. apply fail_segment_wp; [destruct Hst; by destruct (state i)..|].
  intros st _ Hf _. split_and!; [done..|]. simpl. intros ->. by destruct i.
Qed.

(** Failing a pair that sends. *)
Lemma fail_sending (Q : info → Z → Prop) i0 i s0 s :
  (∀ i t, quiet i → Q i t) → sending i0 → state i = state i0 → now s0 ≤ now s →
  wp (fail_segment i) (λ i' s', Q i' (now s') ∧ later s0 s' ∧
    (state i' = state i0 → keeps_waiting i0 i')) s.
Proof.
  intros HQ Hst Es Hl. unfold sending in Hst.
  eapply wp_mono; [apply fail_segment_quiet; left; congruence|].
  intros i' s' (Hf & -> & _). split_and!; [by apply HQ, quiet_failed|done|].
  intros E. exfalso. rewrite E in Hf. by destruct (state i0).
Qed.

(** Steps that keep state, retries, connection and times of the pair. *)
Lemma keeps_waiting_fields i i' :
  state i' = state i → retry_count i' = retry_count i → retryStartTime i' = retryStartTime i →
  (conn_of i ≠ None → conn_of i' ≠ None ∧ startTime i' = startTime i) → keeps_waiting i i'.
Proof. intros. right. auto. Qed.
#[local] Hint Resolve keeps_waiting_refl : gp.

Lemma lor_event_ne_0 e e' : e' = POLLIN ∨ e' = POLLOUT → Z.lor e e' ≠ 0.
Proof. intros [->| ->]; intros [_ ?]%Z.lor_eq_0_iff; done. Qed.

Lemma ftsConnect_tphase :
  tphase (λ i t, seg_head R i ∧ live i ∧ timed i t)
    (λ i t, seg_base R i ∧ live_connected i ∧ timed i t) ftsConnect_seg.
Proof.
  apply (tphase_intro (seg_head R) (seg_base R) (λ i t, live i ∧ timed i t)
    (λ i t, live_connected i ∧ timed i t)); [apply ftsConnect_phase|].
  intros i s [Hb _] [Hlive Htime]. pose proof (clock_unit (W := W) (clock := clock)) as HK.
  unfold ftsConnect_seg. case_bool_decide as Hok.
  { wp_step. split_and!; [|done|apply Z.le_refl|auto with gp].
    intros Hs. unfold conn_status in Hok. destruct (conn_of i) as [c|] eqn:Hc; [|done].
    exists c. destruct (Hlive Hs c Hc) as [[? ?]|[? _]]; done. }
  destruct (is_segment_state (state i)) eqn:Hst; simpl.
  2:{ wp_step. split_and!; [unfold live_connected, sending; congruence|done|apply Z.le_refl|auto with gp]. }
  set (j := set_recovery_making_progress false i).
  assert (Hq : ∀ (i : info) t, quiet i → live_connected i ∧ timed i t).
  { intros k t Hk. by destruct (quiet_all k 0 t Hk) as (_ & ? & _ & _ & ? & _). }
  destruct (conn_of i) as [c|] eqn:Hc.
  - case_match eqn:Hrev.
    { wp_step. split_and!; [|done|apply Z.le_refl|auto using keeps_waiting_fields].
      intros _. exists c. destruct (Hlive Hst c Hc) as [[? ?]|[_ Hne]]; [done|].
      apply Z.eqb_eq in Hrev. done. }
    do 2 wp_step. pose proof (clock_connect (clock := clock) c (world s)) as Hclk.
    destruct (PQconnectPoll c (world s)) as [[r c'] w'] eqn:Hp; simpl in Hclk |- *.
    pose proof (connect_status _ _ _ _ _ Hp) as Hcs.
    assert (Hti : ∀ e, timed (set_poll_events e (set_conn (Some c') j)) (clock w')).
    { intros e. eapply timed_mono; [|exact Hclk]. destruct Htime as [H1 H2]. split; [|done].
      intros _ _. apply H1; [done|by rewrite Hc]. }
    assert (Hkeep : ∀ e, keeps_waiting i (set_poll_events e (set_conn (Some c') j))).
    { intros e. by apply keeps_waiting_fields. }
    destruct r; repeat wp_step; simpl.
    + eapply wp_mono; [apply fail_segment_quiet; by left|]. intros k s' (Hf & -> & _). wp_step.
      destruct (check_recovery_fields k) as (Hcore & _ & _). unfold core in Hcore.
      assert (Es : state (checkIfFailedDueToRecoveryInProgress k) = state k) by congruence.
      split; [apply Hq, quiet_failed; congruence|split; [exact Hclk|]].
      rewrite Es. intros E. exfalso. rewrite E in Hf. by destruct (state i).
    + split_and!; [|apply Hti|exact Hclk|auto]. intros _. exists c'. split_and!; [done| |by left].
      apply lor_event_ne_0. auto.
    + split_and!; [|apply Hti|exact Hclk|auto]. intros _. exists c'. split_and!; [done| |by left].
      apply lor_event_ne_0. auto.
    + split_and!; [|apply Hti|exact Hclk|auto]. intros _. exists c'. split_and!; [done|done|right; right; tauto].
    + by right; right; left.
  - wp_step. unfold ftsConnectStart. do 2 wp_step.
    pose proof (clock_start (clock := clock) (hostip (config (primary_cdbinfo j)))
      (port (config (primary_cdbinfo j))) (world s)) as Hclk.
    destruct (PQconnectStart _ _ _) as [[c|] w'] eqn:Hp; simpl in Hclk |- *; [|wp_step; by left].
    case_bool_decide; repeat wp_step.
    { by apply (fail_sending (λ i t, live_connected i ∧ timed i t)). }
    cbn [in_world world]. destruct (clock_read (clock := clock) w') as [Hrd Hadv].
    split_and!; [| |unfold later; simpl; lia|].
    + intros _. exists c. simpl. split_and!; [done|apply lor_event_ne_0; auto|left; by eapply start_not_open].
    + split; [|unfold retrying; simpl; by destruct (state i)].
      intros _ _. simpl. rewrite Hrd. split; [apply Z.div_pos; [apply clock_nonneg|done]|].
      pose proof (Z.mul_div_le (clock w') K HK). lia.
    + intros _. right. split_and!; [done..| |simpl; congruence]. unfold retrying. by destruct (state i).
Qed.

(** What polling leaves alone. *)
Definition poll_frame i i' : Prop :=
  retry_count i' = retry_count i ∧ retryStartTime i' = retryStartTime i ∧
  conn_of i' = conn_of i ∧ startTime i' = startTime i.

Lemma poll_frame_keeps i i' : poll_frame i i' → state i' = state i → keeps_waiting i i'.
Proof. intros (? & ? & Hc & ?) ?. apply keeps_waiting_fields; try done. by rewrite Hc. Qed.

(** The probe timeout, read at second [n]. *)
Lemma timeout_in_time t0 n i t :
  0 ≤ t0 → t0 / K ≤ n → n * K ≤ t → timed i t →
  (sending i → s32 (n - startTime i) ≤ T) → in_time t0 i t.
Proof.
  intros Ht0 Hn Hnt [Htime _] Hs. pose proof (clock_unit (W := W) (clock := clock)) as HK.
  unfold in_time, HORIZON. destruct (decide (2 ^ 31 * K ≤ t)); [by left|right].
  intros Hsend Hc. specialize (Hs Hsend). destruct (Htime Hsend Hc) as [H1 H2].
  pose proof (Z.div_pos t0 K Ht0 HK). rewrite s32_small in Hs by nia.
  pose proof (Z.mod_pos_bound t0 K HK). pose proof (Z.div_mod t0 K). nia.
Qed.

Lemma ftsCheckTimeout_t n i s (Q : info → env → Prop) :
  (IsFtsMessageStateFailed (state i) = true ∨ is_segment_state (state i) = true) →
  (∀ st, IsFtsMessageStateFailed st = true → Q (set_state st i) s) →
  (s32 (n - startTime i) ≤ T → Q i s) →
  wp (ftsCheckTimeout T n i) Q s.
Proof.
  intros Hst Hf Hin. unfold ftsCheckTimeout.
  assert (Hns : IsFtsMessageStateSuccess (state i) = false) by by destruct (state i), Hst.
  rewrite Hns. cbn [negb andb]. destruct (Z.ltb_spec T (s32 (n - startTime i))).
  - apply fail_segment_wp; [done|by destruct (state i), Hst|]. auto.
  - wp_step. auto.
Qed.

Lemma record_revents_t t0 revs n i s :
  0 ≤ t0 → t0 / K ≤ n → n * K ≤ now s → seg_base R i → live_connected i → timed i (now s) →
  wp (record_revents T revs n i) (λ i' s', (live_polled i' ∧ timed i' (now s') ∧
    in_time t0 i' (now s') ∧ poll_frame i i') ∧ later s s') s.
Proof.
  intros Ht0 Hn Hnt Hb Hlive Htime. unfold record_revents, later.
  destruct (wants_poll i) eqn:Hw.
  2:{ apply wants_poll_spec in Hw; [|apply (sb_events _ _ Hb)].
      assert (Hns : ¬ sending i) by (intros Hs; by destruct (Hlive Hs) as (c & _ & ? & _)).
      wp_step. split_and!; [by intros ?|done|by right|done..|apply Z.le_refl]. }
  pose proof (wants_poll_state _ i Hb Hw) as Hst.
  fold (returned revs i). set (rv := returned revs i). set (j := set_poll_revents rv i).
  assert (Hquiet : ∀ k, IsFtsMessageStateFailed (state k) = true → poll_frame i k →
    (live_polled k ∧ timed k (now s) ∧ in_time t0 k (now s) ∧ poll_frame i k) ∧ now s ≤ now s).
  { intros k Hk Hfr. destruct (quiet_all k t0 (now s) (quiet_failed _ Hk)) as (_ & _ & ? & _ & ? & ? & _).
    split_and!; try done; apply Z.le_refl. }
  assert (Hfail : wp (fail_segment j) (λ a s', wp (ftsCheckTimeout T n a) (λ i' s', (live_polled i' ∧
    timed i' (now s') ∧ in_time t0 i' (now s') ∧ poll_frame i i') ∧ now s ≤ now s') s') s).
  { apply fail_segment_wp; [destruct Hst as [Hst|Hst]; simpl; by destruct (state i)..|]. intros st _ Hf _.
    apply ftsCheckTimeout_t; [by left|intros st' Hst'; by apply Hquiet|intros _; by apply Hquiet]. }
  assert (Hgo : ∀ k, state k = state i → poll_frame i k → timed k (now s) → live_polled k →
    wp (ftsCheckTimeout T n k) (λ i' s', (live_polled i' ∧ timed i' (now s') ∧
      in_time t0 i' (now s') ∧ poll_frame i i') ∧ now s ≤ now s') s).
  { intros k Es Hfr Htk Hlk. apply ftsCheckTimeout_t; [rewrite Es; tauto|intros st Hf; by apply Hquiet|].
    intros Hin. split; [|apply Z.le_refl]. split_and!; try done. by eapply timeout_in_time. }
  wp_step. cbn [poll_revents j set_poll_revents poll_events].
  destruct (Z.land rv (poll_events i) =? 0) eqn:Hr; cbn [negb].
  - destruct (Z.land rv (Z.lor POLLHUP POLLERR) =? 0); cbn [negb]; [|exact Hfail]. destruct (rv =? 0) eqn:Hz; cbn [negb]; [|exact Hfail].
    apply Z.eqb_eq in Hz. wp_step. apply Hgo; [done..|]. intros Hs. destruct (Hlive Hs) as (c & Hc & He & Ha).
    exists c, (poll_events i). split_and!; try done; [apply (sb_events _ _ Hb)|by left].
  - apply Z.eqb_neq in Hr. wp_step. apply Hgo; [done..|]. intros Hs. destruct (Hlive Hs) as (c & Hc & He & Ha).
    exists c, (poll_events i). split_and!; try done; [apply (sb_events _ _ Hb)|by right].
Qed.

Lemma Forall2_conj_l {A B} (P : A → Prop) (S : A → B → Prop) (l : list A) (l' : list B) :
  Forall P l → Forall2 S l l' → Forall2 (λ x y, P x ∧ S x y) l l'.
Proof. intros Hl. induction 1; inversion Hl; subst; auto. Qed.

Lemma Forall2_conj {A B} (S S' : A → B → Prop) (l : list A) (l' : list B) :
  Forall2 S l l' → Forall2 S' l l' → Forall2 (λ x y, S x y ∧ S' x y) l l'.
Proof. induction 1; inversion 1; subst; auto. Qed.

(** A reading of the clock. *)
Lemma clock_read_bounds t0 (w : W) :
  t0 ≤ clock w → t0 / K ≤ (sys_time w).1 ∧ (sys_time w).1 * K ≤ clock (sys_time w).2 ∧
  clock w < clock (sys_time w).2.
Proof.
  intros Ht. destruct (clock_read (clock := clock) w) as [-> Hadv].
  pose proof (clock_unit (W := W) (clock := clock)) as HK.
  pose proof (Z.mul_div_le (clock w) K HK). split_and!; [by apply Z.div_le_mono|lia|done].
Qed.

Lemma ftsPoll_t t0 infos s :
  0 ≤ t0 → t0 ≤ now s → Forall (λ i, seg_base R i ∧ live_connected i ∧ timed i (now s)) infos →
  wp (ftsPoll T infos) (λ infos' s', Forall2 (λ i i', live_polled i' ∧ timed i' (now s') ∧
    in_time t0 i' (now s') ∧ poll_frame i i') infos infos' ∧ later s s') s.
Proof.
  intros Ht0 Hts Hpre. unfold ftsPoll.
  destruct (fill_pollfds 0 infos) as [js fds] eqn:Hfill. apply fill_pollfds_spec in Hfill as Hspec; [|done].
  assert (Hrec : ∀ revs s0, later s s0 →
    wp (n ← on_world sys_time; for_infos (record_revents T revs n) js) (λ infos' s',
      Forall2 (λ i i', live_polled i' ∧ timed i' (now s') ∧ in_time t0 i' (now s') ∧ poll_frame i i')
        infos infos' ∧ later s s') s0).
  { intros revs s0 Hl. unfold later in *. do 2 wp_step.
    destruct (clock_read_bounds t0 (world s0)) as (Hn & Hnt & Hadv); [lia|].
    set (n := (sys_time (world s0)).1) in *. set (w1 := (sys_time (world s0)).2) in *.
    eapply wp_mono; [apply (for_infos_rel (λ j t, seg_base R j ∧ live_connected j ∧ timed j t ∧ n * K ≤ t)
      (λ j i' t, live_polled i' ∧ timed i' t ∧ in_time t0 i' t ∧ poll_frame j i'))|].
    - intros j t t' (? & ? & ? & ?) ?. split_and!; try done; [by eapply timed_mono|lia].
    - intros j i' t t' (? & ? & ? & ?) ?. split_and!; [done|by eapply timed_mono|by eapply in_time_mono|done].
    - intros j s1 (? & ? & ? & ?). by apply record_revents_t.
    - apply Forall_lookup. intros m j Hj. destruct (Forall2_lookup_r _ _ _ _ _ Hspec Hj) as (i & Hi & [k ->] & _).
      destruct (Forall_lookup_1 _ _ _ _ Hpre Hi) as (Hb & Hlive & Htime).
      split_and!; [by apply (seg_base_core R i)|done| |done].
      apply (timed_mono i _ (clock w1)) in Htime; [done|lia].
    - intros infos' s' [H2 Hl2]. unfold later in Hl2. simpl in Hl2. split; [|lia].
      eapply Forall2_trans; [|exact Hspec|exact H2].
      intros i j i' [[k ->] _] (? & ? & ? & ?). done. }
  destruct fds as [|fd fds'] eqn:Hfds.
  { wp_step. split; [|apply Z.le_refl]. eapply Forall2_impl; [exact (Forall2_conj_l _ _ _ _ Hpre Hspec)|].
    intros i j ((Hb & Hlive & Htime) & [k ->] & Hfd).
    assert (Hns : ¬ sending i).
    { intros Hs. destruct (Hlive Hs) as (c & _ & He & _). apply He, wants_poll_spec; [apply (sb_events _ _ Hb)|].
      destruct (wants_poll i) eqn:Hw; [|done]. by destruct (Hfd eq_refl). }
    split_and!; [by intros ?|done|by right|done..]. }
  rewrite <- Hfds. wp_step. wp_step.
  pose proof (clock_poll (clock := clock) fds (world s)) as Hclk.
  destruct (sys_poll fds (world s)) as [[| |revs] w'] eqn:Hpoll; simpl in Hclk |- *.
  - by apply Hrec.
  - wp_step. by right; left.
  - by apply Hrec.
Qed.

Lemma ftsPoll_tphases t0 :
  0 ≤ t0 →
  tphases t0 (λ i t, seg_base R i ∧ live_connected i ∧ timed i t)
    (λ i t, seg_polled R i ∧ live_polled i ∧ timed i t ∧ in_time t0 i t) (ftsPoll T).
Proof.
  intros Ht0 infos s Hts Hpre.
  eapply wp_mono; [apply wp_conj; [apply (ftsPoll_phases R T infos s)|by apply (ftsPoll_t t0)]|].
  { eapply Forall_impl; [done|]. by intros i [? _]. }
  intros infos' s' [(Hp & Hsame & _) [H2 Hl]].
  pose proof (Forall2_conj _ _ _ _ Hsame H2) as H3.
  split_and!; [| |done].
  - apply Forall_lookup. intros n i' Hi'. destruct (Forall2_lookup_r _ _ _ _ _ H2 Hi') as (i & _ & ? & ? & ? & _).
    split_and!; try done. by eapply Forall_lookup_1 in Hp.
  - eapply Forall2_impl; [exact H3|]. intros i i' [(_ & _ & _ & [[Es _]|?]) (_ & _ & _ & Hf)]; [|by left].
    by apply poll_frame_keeps.
Qed.

(** A send or a receive keeps times and connection. *)
Lemma timed_conn i c e t :
  conn_of i ≠ None → timed i t → timed (set_poll_events e (set_conn (Some c) i)) t.
Proof. intros Hc [H1 H2]. split; [|done]. intros Hs _. by apply H1. Qed.

Lemma ftsSend_tphase t0 :
  tphase (λ i t, seg_polled R i ∧ live_polled i ∧ timed i t ∧ in_time t0 i t)
    (λ i t, seg_sent R i ∧ live_sent i ∧ timed i t ∧ in_time t0 i t) ftsSend_seg.
Proof.
  apply (tphase_intro (seg_polled R) (seg_sent R) (λ i t, live_polled i ∧ timed i t ∧ in_time t0 i t)
    (λ i t, live_sent i ∧ timed i t ∧ in_time t0 i t)); [apply ftsSend_phase|].
  intros i s _ (Hlive & Htime & Hin). unfold ftsSend_seg.
  destruct (is_segment_state (state i)) eqn:Hst; simpl.
  2:{ wp_step. split; [|split; [apply Z.le_refl|auto with gp]]. unfold live_sent, sending. split_and!; congruence || done. }
  destruct (Hlive Hst) as (c & e & Hc & Ha & Ho & He & Hev). rewrite Hc.
  destruct (negb _ || _ || _) eqn:Hg.
  - wp_step. split; [|split; [apply Z.le_refl|auto with gp]]. split_and!; [|done..].
    intros _. exists c. split; [done|]. destruct Hev as [[Hpe Hz]|[Hpe Hz]]; [left; by rewrite Hpe|].
    right. destruct (decide (PQstatus c = CONNECTION_OK)) as [Hok|Hok]; [right|left; split; [done|]].
    + split; [done|]. destruct Ha as [?|[->|[-> Hidle]]]; [done|done|].
      rewrite bool_decide_true, Hidle in Hg by done. cbn [negb orb] in Hg. by apply Z.eqb_eq in Hg.
    + intros Hz'. apply Hz. rewrite Z.lor_comm, Z.land_lor_distr_r, Z.lor_eq_0_iff in Hz'.
      destruct Ho as [->|[->| ->]]; tauto.
  - apply orb_false_iff in Hg as [Hg _]. apply orb_false_iff in Hg as [Hok _].
    apply negb_false_iff, bool_decide_eq_true in Hok.
    rewrite wp_bind. unfold wp at 1. simpl. do 2 wp_step. simpl.
    match goal with |- context [PQsendQuery c ?m ?w] =>
      pose proof (clock_send (clock := clock) c m w) as Hclk;
      destruct (PQsendQuery c m w) as [[ok c'] w'] eqn:Hs end. simpl in Hclk |- *.
    destruct ok.
    + wp_step. split; [|split; [exact Hclk|intros _; apply keeps_waiting_fields; done]]. split_and!.
      * intros _. exists c'. split; [done|]. left. split; [done|]. by right; left.
      * eapply timed_mono; [apply timed_conn; [by rewrite Hc|exact Htime]|exact Hclk].
      * eapply in_time_mono; [|exact Hclk]. destruct Hin as [?|Hin]; [by left|right].
        intros _ _. apply Hin; [done|by rewrite Hc].
    + apply (fail_sending (λ i t, live_sent i ∧ timed i t ∧ in_time t0 i t)); [|done..].
      intros k t Hk. by destruct (quiet_all k t0 t Hk) as (_ & _ & _ & ? & ? & ? & _).
Qed.

Lemma ftsReceive_tphase t0 :
  tphase (λ i t, seg_sent R i ∧ live_sent i ∧ timed i t ∧ in_time t0 i t)
    (λ i t, seg_head R i ∧ live i ∧ timed i t ∧ in_time t0 i t) ftsReceive_seg.
Proof.
  apply (tphase_intro (seg_sent R) (seg_head R) (λ i t, live_sent i ∧ timed i t ∧ in_time t0 i t)
    (λ i t, live i ∧ timed i t ∧ in_time t0 i t)); [apply ftsReceive_phase|].
  intros i s _ (Hlive & Htime & Hin). unfold ftsReceive_seg.
  destruct (is_segment_state (state i)) eqn:Hst; simpl.
  2:{ wp_step. split; [|split; [apply Z.le_refl|auto with gp]]. unfold live, sending. split_and!; congruence || done. }
  destruct (Hlive Hst) as (c & Hc & Hev). rewrite Hc.
  destruct (negb _ || _) eqn:Hg.
  { wp_step. split; [|split; [apply Z.le_refl|auto with gp]]. split_and!; [|done..].
    intros _ c0 Hc0. assert (c0 = c) as -> by congruence.
    destruct Hev as [?|[?|[Hok Hz]]]; [by left|by right|]. exfalso.
    rewrite bool_decide_true in Hg by done. by apply Z.eqb_eq in Hg. }
  assert (Hq : ∀ (i : info) t, quiet i → live i ∧ timed i t ∧ in_time t0 i t).
  { intros k t Hk. by destruct (quiet_all k t0 t Hk) as (? & _ & _ & _ & ? & ? & _). }
  assert (Hfail : ∀ j s', state j = state i → now s ≤ now s' →
    wp (fail_segment j) (λ i' s', (live i' ∧ timed i' (now s') ∧ in_time t0 i' (now s')) ∧ later s s' ∧
      (state i' = state i → keeps_waiting i i')) s').
  { intros j s' Es Hl. by apply (fail_sending (λ i t, live i ∧ timed i t ∧ in_time t0 i t)). }
  do 2 wp_step. pose proof (clock_consume (clock := clock) c (world s)) as L1.
  destruct (PQconsumeInput c _) as [[ok c1] w1]; simpl in L1 |- *.
  destruct ok; simpl; [|by apply Hfail].
  do 2 wp_step. pose proof (clock_busy (clock := clock) c1 w1) as L2. simpl.
  destruct (PQisBusy c1 _) as [[busy c2] w2]; simpl in L2 |- *.
  destruct busy; simpl; [apply Hfail; [done|simpl; lia]|].
  do 2 wp_step. pose proof (clock_result (clock := clock) c2 w2) as L3. simpl.
  destruct (PQgetResult c2 _) as [[res c3] w3]; simpl in L3 |- *.
  destruct res as [r|]; [|apply Hfail; [done|simpl; lia]].
  clear Hg. case_bool_decide; [apply Hfail; [done|simpl; lia]|].
  repeat (case_match; [apply Hfail; [done|simpl; lia]|]).
  repeat wp_step. destruct (nextSuccessState (state i)) as [st|] eqn:Hn; [|by destruct (state i)].
  assert (Hss : IsFtsMessageStateSuccess st = true) by (destruct (state i); simplify_eq/=; done).
  wp_step. split; [apply Hq, quiet_success; done|split; [unfold later; simpl; lia|]].
  simpl. intros ->. by destruct (state i).
Qed.

(** A retry wait that is not over at second [n]. *)
Lemma delay_in_delay t0 n i t :
  0 ≤ t0 → t0 / K ≤ n → n * K ≤ t → timed i t →
  (retrying i → s32 (n - retryStartTime i) < 1) → in_delay t0 i t.
Proof.
  intros Ht0 Hn Hnt [_ Htime] Hs. pose proof (clock_unit (W := W) (clock := clock)) as HK.
  unfold in_delay, HORIZON. destruct (decide (2 ^ 31 * K ≤ t)); [by left|right].
  intros Hr. specialize (Hs Hr). destruct (Htime Hr) as [H1 H2].
  pose proof (Z.div_pos t0 K Ht0 HK). rewrite s32_small in Hs by nia.
  pose proof (Z.mod_pos_bound t0 K HK). pose proof (Z.div_mod t0 K). nia.
Qed.

Lemma reset_conn_t i s : wp (reset_conn i) (λ i' s', i' = cleared i ∧ later s s') s.
Proof.
  unfold reset_conn, finish_conn, later. wp_step. destruct (conn_of i) as [c|]; repeat wp_step.
  - split; [done|apply clock_finish].
  - split; [done|apply Z.le_refl].
Qed.

Lemma processRetry_t t0 n i s :
  0 ≤ t0 → t0 / K ≤ n → n * K ≤ now s → seg_head R i → live i → timed i (now s) → in_time t0 i (now s) →
  wp (processRetry_seg R n i) (λ i' s', (live i' ∧ timed i' (now s') ∧ in_time t0 i' (now s') ∧
    in_delay t0 i' (now s')) ∧ later s s' ∧ (state i' = state i → keeps_waiting i i')) s.
Proof.
  intros Ht0 Hn Hnt [Hb _] Hlive Htime Hin. pose proof (clock_unit (W := W) (clock := clock)) as HK.
  assert (Hstay : (retrying i → s32 (n - retryStartTime i) < 1) →
    (live i ∧ timed i (now s) ∧ in_time t0 i (now s) ∧ in_delay t0 i (now s)) ∧ later s s ∧
    (state i = state i → keeps_waiting i i)).
  { intros Hd. split; [|split; [apply Z.le_refl|auto with gp]]. split_and!; try done.
    by eapply delay_in_delay. }
  assert (Hretry : IsFtsMessageStateSuccess (state i) = true ∨ IsFtsMessageStateFailed (state i) = true →
    wp (retryForFtsFailed R n i) (λ i' s', (live i' ∧ timed i' (now s') ∧ in_time t0 i' (now s') ∧
    in_delay t0 i' (now s')) ∧ later s s' ∧ (state i' = state i → keeps_waiting i i')) s).
  { intros Hst. unfold retryForFtsFailed. case_match.
    - wp_step. apply Hstay. unfold retrying. destruct Hst; by destruct (state i).
    - set (st := match _ with FTS_PROBE_SUCCESS | FTS_PROBE_FAILED => _ | _ => _ end).
      assert (Hw : is_wait_state st = true) by (subst st; by case_match).
      eapply wp_mono; [apply reset_conn_t|]. intros i' s' (-> & Hl). unfold later in Hl.
      split; [|split; [exact Hl|intros E; exfalso; simpl in E; rewrite E in Hw; destruct Hst; by destruct (state i)]].
      assert (0 ≤ n) by (pose proof (Z.div_pos t0 K Ht0 HK); lia).
      split_and!; [done|split; [done|intros _; simpl; lia]|by right|].
      right. intros _. simpl. pose proof (Z.mod_pos_bound t0 K HK). pose proof (Z.div_mod t0 K). nia. }
  assert (Hresume : is_wait_state (state i) = true → ∀ st, is_segment_state st = true →
    wp (if s32 (n - retryStartTime i) <? 1 then mret i else mret (set_state st i)) (λ i' s', (live i' ∧
      timed i' (now s') ∧ in_time t0 i' (now s') ∧ in_delay t0 i' (now s')) ∧ later s s' ∧
      (state i' = state i → keeps_waiting i i')) s).
  { intros Hw st Hseg. destruct (Z.ltb_spec (s32 (n - retryStartTime i)) 1); wp_step; [by apply Hstay|].
    assert (Hc : conn_of i = None) by (apply (sb_wait _ _ Hb); auto).
    split; [|split; [apply Z.le_refl|simpl; intros ->; by destruct (state i)]].
    assert (Hnr : ¬ retrying (set_state st i)) by (unfold retrying; simpl; by destruct st).
    split_and!; [intros _ c; simpl; congruence|split; [simpl; congruence|done]|right; simpl; congruence|by right]. }
  unfold processRetry_seg. destruct (state i) eqn:Hst; cbv match; rewrite <- Hst in *;
    try (wp_step; apply Hstay; unfold retrying; by rewrite Hst);
    try (apply Hresume; [by rewrite Hst|done]); try (apply Hretry; right; by rewrite Hst).
  clear Hresume. case_match; [apply Hretry; left; by rewrite Hst|]. wp_step. apply Hstay. unfold retrying; by rewrite Hst.
Qed.

(** The facts between turns. *)
Definition waiting t0 i (t : Z) : Prop := live i ∧ timed i t ∧ in_time t0 i t ∧ in_delay t0 i t.

Lemma waiting_mono t0 : mono (waiting t0).
Proof.
  intros i t t' (? & ? & ? & ?) ?.
  split_and!; [done|by eapply timed_mono|by eapply in_time_mono|by eapply in_delay_mono].
Qed.

(** This phase always reads the clock, which makes time pass. *)
Lemma processRetry_all t0 infos s :
  0 ≤ t0 → t0 ≤ now s →
  Forall (λ i, seg_head R i ∧ live i ∧ timed i (now s) ∧ in_time t0 i (now s)) infos →
  wp (processRetry R infos) (λ infos' s', Forall (λ i, seg_retried R i ∧ waiting t0 i (now s')) infos' ∧
    Forall2 keeps_waiting infos infos' ∧ now s < now s') s.
Proof.
  intros Ht0 Hts Hpre. unfold processRetry. do 2 wp_step.
  destruct (clock_read_bounds t0 (world s)) as (Hn & Hnt & Hadv); [done|].
  set (n := (sys_time (world s)).1) in *. set (w1 := (sys_time (world s)).2) in *.
  assert (Hseg : tphase (λ i t, seg_head R i ∧ live i ∧ timed i t ∧ in_time t0 i t ∧ n * K ≤ t)
    (λ i t, seg_retried R i ∧ waiting t0 i t) (processRetry_seg R n)).
  { apply (tphase_intro (seg_head R) (seg_retried R) (λ i t, live i ∧ timed i t ∧ in_time t0 i t ∧ n * K ≤ t)
      (waiting t0)); [apply processRetry_phase|].
    intros i s0 Hh (? & ? & ? & ?). by apply processRetry_t. }
  apply (for_infos_tphases t0) in Hseg.
  - eapply wp_mono; [apply (Hseg infos); [simpl; lia|]|].
    + eapply Forall_impl; [done|]. simpl. intros i (? & ? & ? & ?).
      split_and!; [done|done|apply (timed_mono _ (now s)); [done|lia]|apply (in_time_mono _ _ (now s)); [done|lia]|done].
    + intros infos' s' (H1 & H2 & H3). unfold later in *. simpl in H3. split_and!; try done. lia.
  - intros i t t' (? & ? & ? & ? & ?) ?.
    split_and!; [done|done|by eapply timed_mono|by eapply in_time_mono|lia].
  - intros i t t' [? ?] ?. split; [done|by eapply waiting_mono].
Qed.

(** ** Processing the answers *)

(** Outcomes of a computation that returns. *)
Lemma wp_returns {A} (m : FtsM A) (Q Q' : A → env → Prop) s :
  wp m Q s → (∀ a s', m s = Ok (a, s') → Q' a s') → wp m (λ a s', Q a s' ∧ Q' a s') s.
Proof. unfold wp. destruct (m s) as [[a s']|e]; auto. Qed.

Lemma bind_returns {A B} (m : FtsM (W := W) A) (f : A → FtsM B) b s s' :
  (m ≫= f) s = Ok (b, s') → ∃ a s1, m s = Ok (a, s1) ∧ f a s1 = Ok (b, s').
Proof. unfold mbind, FtsM_bind. destruct (m s) as [[a s1]|e]; naive_solver. Qed.

Lemma updateConfiguration_time p m r1 r2 b1 b2 b3 u s s' :
  updateConfiguration p m r1 r2 b1 b2 b3 s = Ok (u, s') → world s' = world s.
Proof.
  unfold updateConfiguration, probeWalRepUpdateConfig, FTS_STATUS_SET, mbind, FtsM_bind, mret, FtsM_ret.
  intros Hu. repeat (case_match; simplify_eq/=; try done).
Qed.

(** An answer ends the pair or, after a probe, starts another stage. *)
Definition next_stage (i j : info) : Prop :=
  state j = FTS_RESPONSE_PROCESSED ∨
  stage (state i) = Probing ∧ (state j = FTS_SYNCREP_OFF_SEGMENT ∨ state j = FTS_PROMOTE_SEGMENT).

Lemma respond_returns i s j u s' :
  respond i s = Ok ((j, u), s') → world s' = world s ∧ next_stage i j.
Proof.
  assert (Hup : ∀ p m r1 r2 b1 b2 b3 j', next_stage i j' →
    (u ← updateConfiguration p m r1 r2 b1 b2 b3; mret (j', u)) s = Ok ((j, u), s') →
    world s' = world s ∧ next_stage i j).
  { intros p m r1 r2 b1 b2 b3 j' Hj' (u' & s1 & Hu & Hr)%bind_returns.
    unfold mret, FtsM_ret in Hr. simplify_eq. split; [by eapply updateConfiguration_time|done]. }
  unfold respond, mret, FtsM_ret. intros Hr. destruct (state i) eqn:Hst; try done;
    repeat (case_match; try done); simplify_eq/=;
    try (split; [done|]); try (eapply Hup; [|exact Hr]); unfold next_stage; rewrite ?Hst; simpl; auto.
Qed.

Lemma next_stage_rank i j :
  0 ≤ retry_count i ≤ R → ftsResponseReady i = true → next_stage i j →
  rank R (set_retry_count 0 (cleared j)) < rank R i ∧ is_wait_state (state j) = false.
Proof.
  unfold rank, next_stage, ftsResponseReady; simpl. unfold phase_weight. intros Hr Hready [->|[Hp [->| ->]]];
    (split; [|done]); simpl; [|rewrite Hp; repeat case_match; lia..].
  destruct (state i); simpl in *; try done; lia.
Qed.

Lemma processResponse_seg_t t0 i s i' u s' :
  seg_retried R i → waiting t0 i (now s) → processResponse_seg i s = Ok ((i', u), s') →
  waiting t0 i' (now s') ∧ later s s' ∧ keeps_waiting i i'.
Proof.
  intros [[Hb _] _] Hw. pose proof (sb_retry _ _ Hb) as Hrc.
  unfold processResponse_seg. destruct (ftsResponseReady i) eqn:Hr; cbn [negb].
  2:{ unfold mret, FtsM_ret. intros Hi. simplify_eq.
      split_and!; [done|apply Z.le_refl|auto with gp]. }
  intros ([j u1] & s1 & Hresp & Hrest)%bind_returns.
  destruct (respond_returns _ _ _ _ _ Hresp) as (Hworld & Hnext).
  destruct (next_stage_rank i j Hrc Hr Hnext) as [Hrank Hnw].
  apply bind_returns in Hrest as (k & s2 & Hreset & Hrest).
  pose proof (reset_conn_t j s1) as Hk. unfold wp in Hk. rewrite Hreset in Hk.
  destruct Hk as (-> & Hl). unfold mret, FtsM_ret in Hrest. simplify_eq. unfold later in *. rewrite Hworld in Hl.
  assert (Hnr' : ¬ retrying (set_retry_count 0 (cleared j))) by (unfold retrying; simpl; by rewrite Hnw).
  unfold waiting.
  split_and!; [by intros _ c|split; [by intros _ ?|done]|by right; intros _ ?|by right|done|by left].
Qed.

Lemma processResponse_t t0 infos s infos' u s' :
  Forall (λ i, seg_retried R i ∧ waiting t0 i (now s)) infos →
  processResponse infos s = Ok ((infos', u), s') →
  Forall2 (λ i i', waiting t0 i' (now s') ∧ keeps_waiting i i') infos infos' ∧ later s s'.
Proof.
  revert s infos' u. induction infos as [|i infos IH]; intros s infos' u Hw; cbn [processResponse].
  { unfold mret, FtsM_ret. intros E. simplify_eq. split; [done|apply Z.le_refl]. }
  intros (b & s0 & Hb & Hrest)%bind_returns. injection Hb as <- <-.
  destruct (skipFtsProbe s); cbn [negb] in Hrest.
  { unfold mret, FtsM_ret in Hrest. simplify_eq. split; [|apply Z.le_refl].
    apply Forall_Forall2_diag. eapply Forall_impl; [exact Hw|]. intros j [_ Hj]. split; [done|auto with gp]. }
  apply Forall_cons in Hw as [[Hri Hi] Hw].
  apply bind_returns in Hrest as ([i' u1] & s1 & Hseg & Hrest).
  destruct (processResponse_seg_t _ _ _ _ _ _ Hri Hi Hseg) as (Hi' & Hl & Hkeep).
  apply bind_returns in Hrest as ([js u2] & s2 & Hjs & Hrest). unfold mret, FtsM_ret in Hrest. simplify_eq.
  destruct (IH s1 js u2) as [H2 Hl2]; [|done|].
  { eapply Forall_impl; [exact Hw|]. intros j [Hrj Hj]. split; [done|exact (waiting_mono _ _ _ _ Hj Hl)]. }
  unfold later in *. split; [|lia]. constructor; [|done]. split; [exact (waiting_mono _ _ _ _ Hi' Hl2)|done].
Qed.

(** ** The whole turn *)

Lemma keeps_waitings_trans (l1 l2 l3 : list info) :
  Forall2 keeps_waiting l1 l2 → Forall2 keeps_waiting l2 l3 → Forall2 keeps_waiting l1 l3.
Proof. intros H12 H23. eapply Forall2_trans; [|done|done]. apply keeps_waiting_trans. Qed.

Lemma tphases_returns t0 P Q f infos s infos' s' :
  tphases t0 P Q f → t0 ≤ now s → Forall (λ i, P i (now s)) infos → f infos s = Ok (infos', s') →
  Forall (λ i, Q i (now s')) infos' ∧ Forall2 keeps_waiting infos infos' ∧ now s ≤ now s'.
Proof.
  intros Hf Ht Hpre Hr. specialize (Hf infos s Ht Hpre). unfold wp in Hf. by rewrite Hr in Hf.
Qed.

(** A pair that still sends has a connection after the first phase, and keeps it. *)
Lemma keeps_connected i j k :
  keeps_waiting i j → live_connected j → keeps_waiting j k →
  rank R k < rank R i ∨ (sending i → conn_of k ≠ None).
Proof.
  unfold keeps_waiting, sending, rank.
  intros [?|(Es & Er & _)] Hl [?|(Es' & Er' & _ & Hs')].
  - left. lia.
  - left. by rewrite Es', Er'.
  - left. by rewrite <- Es, <- Er.
  - right. intros Hi. destruct (Hl ltac:(unfold sending; by rewrite Es)) as (c & Hc & _).
    apply Hs'; congruence.
Qed.

Lemma fts_iteration_t infos s infos' u s' :
  Forall (λ i, seg_head R i ∧ live i ∧ timed i (now s)) infos →
  fts_iteration R T infos s = Ok ((infos', u), s') →
  Forall2 (λ i i', waiting (now s) i' (now s') ∧ keeps_waiting i i' ∧
    (rank R i' < rank R i ∨ (sending i → conn_of i' ≠ None))) infos infos' ∧ now s < now s'.
Proof.
  set (t0 := now s). assert (Ht0 : 0 ≤ t0) by apply clock_nonneg. intros Hpre. unfold fts_iteration.
  intros (l1 & s1 & E1 & Hr)%bind_returns. apply bind_returns in Hr as (l2 & s2 & E2 & Hr).
  apply bind_returns in Hr as (l3 & s3 & E3 & Hr). apply bind_returns in Hr as (l4 & s4 & E4 & Hr).
  apply bind_returns in Hr as (l5 & s5 & E5 & E6).
  eapply (tphases_returns t0) in E1 as (P1 & K1 & T1);
    [|apply for_infos_tphases, ftsConnect_tphase; by intros i t t' (? & ? & ?) ?; eauto using timed_mono
     |apply Z.le_refl|exact Hpre].
  eapply (tphases_returns t0) in E2 as (P2 & K2 & T2); [|by apply ftsPoll_tphases|lia|exact P1].
  eapply (tphases_returns t0) in E3 as (P3 & K3 & T3);
    [|apply for_infos_tphases, ftsSend_tphase;
      intros i t t' (? & ? & ? & ?) ?; split_and!; eauto using timed_mono, in_time_mono|lia|exact P2].
  eapply (tphases_returns t0) in E4 as (P4 & K4 & T4);
    [|apply for_infos_tphases, ftsReceive_tphase;
      intros i t t' (? & ? & ? & ?) ?; split_and!; eauto using timed_mono, in_time_mono|lia|exact P3].
  pose proof (processRetry_all t0 l4 s4 Ht0 ltac:(lia) P4) as Hretry. unfold wp in Hretry. rewrite E5 in Hretry.
  destruct Hretry as (P5 & K5 & T5). apply (processResponse_t t0) in E6 as [H6 T6]; [|done].
  unfold later in T6. split; [|lia].
  assert (H1 : Forall2 (λ i j, keeps_waiting i j ∧ live_connected j) infos l1).
  { apply Forall2_conj; [done|]. apply Forall2_same_length_lookup_2; [by eapply Forall2_length|].
    intros n i j _ Hj. by apply (Forall_lookup_1 _ _ _ _ P1 Hj). }
  assert (H15 : Forall2 keeps_waiting l1 l5).
  { do 3 (eapply keeps_waitings_trans; [eassumption|]). exact K5. }
  assert (H16 : Forall2 (λ i k, waiting t0 k (now s') ∧ keeps_waiting i k) l1 infos').
  { eapply Forall2_trans; [|exact H15|exact H6].
    intros i j k Hij [? ?]. split; [done|by eapply keeps_waiting_trans]. }
  eapply Forall2_trans; [|exact H1|exact H16]. intros i j k [Hij Hj] [Hw Hjk].
  split_and!; [done|by eapply keeps_waiting_trans|by eapply keeps_connected].
Qed.

(** ** The measure of a pair *)

(** More than any wait takes, in ticks. *)
Definition STEP : Z := (T + 1) * K + 2.

Definition remaining i (t : Z) : Z :=
  if is_segment_state (state i) then
    match conn_of i with None => STEP - 1 | Some _ => Z.max 0 ((startTime i + T + 1) * K - t) end
  else if is_wait_state (state i) then Z.max 0 ((retryStartTime i + 1) * K - t)
  else 0.

Definition measure i (t : Z) : Z := rank R i * STEP + remaining i t.

Lemma remaining_bounds i t : timed i t → 0 ≤ remaining i t < STEP.
Proof.
  intros [Hs Hr]. pose proof (clock_unit (W := W) (clock := clock)) as HK. unfold remaining, STEP, sending, retrying in *.
  destruct (is_segment_state (state i)); [|destruct (is_wait_state (state i)); [|nia]].
  - destruct (conn_of i); [|nia]. destruct Hs as [? ?]; [done..|]. nia.
  - destruct Hr as [? ?]; [done|]. nia.
Qed.

(** Between turns a pair that has not finished sends or waits. *)
Lemma rank_bounds i :
  seg_base R i → 0 ≤ rank R i ∧ (state i ≠ FTS_RESPONSE_PROCESSED → 1 ≤ rank R i).
Proof.
  intros Hb. pose proof (sb_retry _ _ Hb). unfold rank, phase_weight.
  destruct (state i); simpl; (split; [lia|]); intros; try done; lia.
Qed.

Lemma measure_decreases t i i' t' :
  seg_base R i → seg_base R i' → ftsResponseReady i = false → timed i t →
  waiting t i' t' → keeps_waiting i i' → (rank R i' < rank R i ∨ (sending i → conn_of i' ≠ None)) →
  t < t' < HORIZON →
  measure i' t' < measure i t ∨ state i' = FTS_RESPONSE_PROCESSED.
Proof.
  intros Hb Hb' Hready Ht (_ & Ht' & Hin & Hd) Hk Hconn Htt. pose proof (clock_unit (W := W) (clock := clock)) as HK.
  pose proof (remaining_bounds i t Ht) as B. pose proof (remaining_bounds i' t' Ht') as B'. unfold measure.
  destruct Hk as [Hrank|(Es & Er & Hkr & Hks)]; [left; nia|].
  destruct Hconn as [Hrank|Hconn]; [left; nia|].
  destruct Hin as [?|Hin]; [lia|]. destruct Hd as [?|Hd]; [lia|].
  assert (Hrk : rank R i' = rank R i) by (unfold rank; by rewrite Es, Er). rewrite Hrk.
  unfold remaining, sending, retrying, STEP in *. rewrite Es in *.
  destruct (is_segment_state (state i)) eqn:Hs.
  - left. destruct (conn_of i) as [c|] eqn:Hc.
    + destruct (Hks eq_refl) as [Hc' Hst]; [done|]. destruct (conn_of i') as [c'|]; [|done].
      rewrite Hst in *. specialize (Hin eq_refl ltac:(done)). lia.
    + destruct (conn_of i') as [c'|] eqn:Hc'; [|by destruct (Hconn eq_refl)].
      destruct Ht' as [Ht' _]. destruct Ht' as [? ?]; [unfold sending; congruence|congruence|]. nia.
  - destruct (is_wait_state (state i)) eqn:Hw.
    + left. rewrite (Hkr eq_refl) in *. specialize (Hd eq_refl). lia.
    + right. unfold ftsResponseReady in Hready. by destruct (state i).
Qed.

(** ** The loop *)

(** The state of the loop between turns, from which [fuel] turns are enough. *)
Definition loop_inv cat0 (fuel : nat) (infos : list info) s : Prop :=
  cycle_inv R cat0 infos s ∧
  Forall (λ i, live i ∧ timed i (now s) ∧ ftsResponseReady i = false) infos ∧
  (now s < HORIZON → Forall (λ i, measure i (now s) ≤ Z.of_nat fuel ∨
                                   state i = FTS_RESPONSE_PROCESSED) infos).

Lemma loop_inv_done cat0 infos s :
  loop_inv cat0 0 infos s → now s < HORIZON → allDone infos = true.
Proof.
  intros (Hcy & Ht & Hm) Hh. specialize (Hm Hh). unfold allDone. apply forallb_forall. intros i Hi%list_elem_of_In.
  apply bool_decide_eq_true. rewrite Forall_forall in Hm, Ht. destruct (Hm i Hi) as [Hle|]; [|done].
  destruct (Ht i Hi) as (_ & Hti & _). pose proof (remaining_bounds i _ Hti) as B.
  pose proof (cy_head _ _ _ _ Hcy) as Hh'. rewrite Forall_forall in Hh'.
  destruct (rank_bounds i (proj1 (Hh' i Hi))) as [R0 R1]. unfold measure in Hle.
  destruct (decide (state i = FTS_RESPONSE_PROCESSED)); [done|]. specialize (R1 ltac:(done)). nia.
Qed.

Lemma loop_inv_turn cat0 fuel infos s infos' u s' :
  loop_inv cat0 (S fuel) infos s → fts_iteration R T infos s = Ok ((infos', u), s') →
  cycle_inv R cat0 infos' s' → Forall (λ i, ftsResponseReady i = false) infos' →
  loop_inv cat0 fuel infos' s' ∧ now s < now s'.
Proof.
  intros (Hcy & Ht & Hm) Hit Hcy' Hready'.
  assert (Hpre : Forall (λ i, seg_head R i ∧ live i ∧ timed i (now s)) infos).
  { apply Forall_lookup. intros n i Hi. destruct (Forall_lookup_1 _ _ _ _ Ht Hi) as (? & ? & _).
    split_and!; try done. by eapply Forall_lookup_1 in Hi; [|apply (cy_head _ _ _ _ Hcy)]. }
  destruct (fts_iteration_t _ _ _ _ _ Hpre Hit) as [H2 Hlt]. split; [|done]. split_and!; [done| |].
  - apply Forall_lookup. intros n i' Hi'. destruct (Forall2_lookup_r _ _ _ _ _ H2 Hi') as (i & _ & (? & ? & _) & _).
    split_and!; try done. by eapply Forall_lookup_1 in Hready'.
  - intros Hh. specialize (Hm ltac:(lia)). apply Forall_lookup. intros n i' Hi'.
    destruct (Forall2_lookup_r _ _ _ _ _ H2 Hi') as (i & Hi & Hw & Hk & Hconn).
    destruct (Forall_lookup_1 _ _ _ _ Ht Hi) as (_ & Hti & Hri).
    pose proof (Forall_lookup_1 _ _ _ _ (cy_head _ _ _ _ Hcy) Hi) as [Hb _].
    pose proof (Forall_lookup_1 _ _ _ _ (cy_head _ _ _ _ Hcy') Hi') as [Hb' _].
    destruct (measure_decreases (now s) i i' (now s')) as [Hdec|]; try done; [|by right].
    destruct (Forall_lookup_1 _ _ _ _ Hm Hi) as [Hle|Hdone]; [left; lia|right].
    destruct Hk as [Hrank|(Es & _)]; [|congruence].
    destruct (rank_bounds i' Hb') as [? _]. unfold rank in Hrank at 2. rewrite Hdone in Hrank. simpl in Hrank. lia.
Qed.

Lemma fts_loop_ends cat0 fuel infos u s :
  skipFtsProbe s = false → loop_inv cat0 fuel infos s →
  wp (fts_loop R T fuel infos u) (λ r s', r.1.1 = true ∨ HORIZON ≤ now s') s.
Proof.
  assert (Hlt : ∀ t : Z, t < HORIZON ∨ HORIZON ≤ t) by lia.
  assert (Hlate : ∀ fuel infos u s, skipFtsProbe s = false → loop_inv cat0 fuel infos s →
    wp (fts_loop R T fuel infos u) (λ r s', now s ≤ now s' ∧ (r.1.1 = true ∨ HORIZON ≤ now s')) s).
  { clear fuel infos u s. induction fuel as [|fuel IH]; intros infos u s Hact Hinv; simpl.
    all: destruct (allDone infos) eqn:Hd; [wp_step; split; [apply Z.le_refl|by left]|].
    all: do 2 wp_step; rewrite Hact; cbn [negb].
    - wp_step. split; [apply Z.le_refl|]. destruct (Hlt (now s)) as [Hh|]; [|by right].
      rewrite (loop_inv_done cat0 infos s) in Hd; done.
    - wp_step. eapply wp_mono; [eapply (wp_returns _ _ (λ a s', cycle_inv R cat0 a.1 s' →
        Forall (λ i, ftsResponseReady i = false) a.1 → loop_inv cat0 fuel a.1 s' ∧ now s < now s'));
        [apply (fts_iteration_wp R T cat0 infos s); [done|apply Hinv]|]|].
      { intros [infos' upd] s' Hr. by apply (loop_inv_turn cat0 fuel infos s infos' upd s'). }
      intros [infos' upd] s' [(Hcy & _ & Hre & Hk) Hturn]; simpl in *. destruct (Hturn Hcy Hre) as [Hinv' Hadv].
      eapply wp_mono; [by apply IH|]. intros r s2 [? ?]. split; [lia|done]. }
  intros Hact Hinv. eapply wp_mono; [by apply Hlate|]. by intros r s' [_ ?].
Qed.

(** A new pair. *)
Lemma new_pair_measure p m t :
  let i := fts_info_zero (conn := conn) p m in
  live i ∧ timed i t ∧ ftsResponseReady i = false ∧ measure i t ≤ (12 * R + 11) * STEP.
Proof.
  assert (Ht : timed (fts_info_zero (conn := conn) p m) t) by by split.
  split_and!; [by intros _ c|done|done|]. pose proof (remaining_bounds _ _ Ht).
  unfold measure, rank; simpl. unfold phase_weight; simpl. nia.
Qed.
End Liveness.

(** ** The theorem *)

(** C9: A probe cycle ends.  When [time] reads a clock of [K] ticks to the second that does not go
    back and libpq keeps to its documented connection states, a cycle on a well-formed
    configuration returns its answer after at most [(12 R + 11) ((T + 1) K + 2)] turns of the main
    loop, with [R] retries and a probe timeout of [T] seconds, however the segments behave: it
    only stops earlier where libpq cannot allocate a connection, [poll] fails or libpq answers
    outside its protocol, and only lasts longer if the clock leaves the range of [int] seconds. *)
Theorem fts_cycle_terminates {W conn : Type} `{FtsWorldLaws W conn} (clock : W → Z) (K R T : Z)
    `{!FtsClockLaws W conn clock K} cdbs fuel (s : FtsEnv (W := W)) :
  0 ≤ R → 0 ≤ T → skipFtsProbe s = false → cdbs_ok (catalog s) cdbs → sent s = [] →
  (12 * R + 11) * ((T + 1) * K + 2) ≤ Z.of_nat fuel →
  match FtsWalRepMessageSegments R T fuel cdbs s with
  | Ok (Some _, _) => True
  | Ok (None, s') => 2 ^ 31 * K ≤ clock (world s')
  | Err e => world_error e
  end.
Proof.
  intros HR HT Hact Hok Hsent Hfuel.
  cut (wp (FtsWalRepMessageSegments R T fuel cdbs) (λ r s', is_Some r ∨ HORIZON K ≤ clock (world s')) s).
  { unfold wp. destruct (FtsWalRepMessageSegments _ _ _ _ _) as [[[u|] s']|e]; try done.
    intros [[? ?]|?]; done. }
  pose proof (init_cycle_inv R (catalog s) cdbs s HR Hok eq_refl Hsent) as Hcy.
  unfold FtsWalRepMessageSegments. wp_step. wp_step. rewrite (init_context_eq (catalog s)) by done. wp_step.
  eapply wp_mono; [apply wp_conj; [apply (fts_loop_wp R T (catalog s)); exact Hcy
    |apply (fts_loop_ends clock K R T HR HT (catalog s)); [done|]]|].
  - assert (Hnew : ∀ i, i ∈ omap (pair_of cdbs) (segment_db_info cdbs) → ∃ p m, i = fts_info_zero (conn := conn) p m).
    { intros i (p & _ & Hp)%list_elem_of_omap. unfold pair_of in Hp. case_match; [|done].
      apply fmap_Some in Hp as (m & _ & ->). eauto. }
    split_and!; [done|..]; [|intros _]; apply Forall_forall; intros i Hi; destruct (Hnew i Hi) as (p & m & ->);
      destruct (new_pair_measure clock K R T HT p m (clock (world s))) as (? & ? & ? & ?);
      [done|left]. unfold STEP in *. lia.
  - intros [[ended infos] u] s' [(Hinv & Hk & Hd) Hend]; simpl in *. destruct ended; simpl.
    + wp_step. eapply wp_mono; [apply (fts_finish_wp R (catalog s)); [done|rewrite Hk; auto]|].
      intros [] s2 _. wp_step. left. by eexists.
    + wp_step. destruct Hend as [?|?]; [done|by right].
Qed.

(** The simulated cluster has such a clock: one tick is a second, and every reading takes one. *)
#[global] Instance sim_clock : FtsClockLaws N Sim.sim_conn Z.of_N 1.
Proof.
  split; simpl; intros; try lia.
  - rewrite Z.div_1_r. lia.
  - case_bool_decide; simplify_eq/=. case_bool_decide; done.
  - by simplify_eq/=.
Qed.

Lemma fts_cycle_terminates_witness :
  match Sim.run "dead" 200 with
  | Ok (Some _, _) => True
  | Ok (None, s') => 2 ^ 31 * 1 ≤ Z.of_N (world s')
  | Err e => world_error e
  end.
Proof.
  exact (fts_cycle_terminates Z.of_N 1 1 5 (Sim.cdbs "dead") 200 (Sim.start "dead") ltac:(lia) ltac:(lia)
    eq_refl (Sim.cdbs_ok_start "dead") eq_refl ltac:(lia)).
Defined.
