(* ===== verification/FsmPage.v ===== *)
(** * Free space map pages ([storage/freespace/fsmpage.c])

    A page of the free space map is a binary tree in an array of bytes: the leaves are the slots,
    every other node holds the larger of its children.  The size of a page, [BLCKSZ], is chosen
    when the server is configured and is a parameter; the last level of the tree is incomplete.

    A read or write outside the array of nodes is an error value.  Other processes may change the
    page while the search exchanges its shared lock for an exclusive one: [relock] is what they
    leave. *)
From S2P Require Import Prelude.

Section FsmPage.
Context (BLCKSZ : Z).

(** [MAXALIGN(SizeOfPageHeaderData)] is 24, [offsetof(FSMPageData, fp_nodes)] is 4. *)
Definition NodesPerPage : Z := BLCKSZ - 24 - 4.
Definition NonLeafNodesPerPage : Z := BLCKSZ / 2 - 1.
Definition LeafNodesPerPage : Z := NodesPerPage - NonLeafNodesPerPage.

Record FSMPageData := mkFSMPage {
  fp_next_slot : Z;
  fp_nodes : list Z;
}.

(** The arithmetic is on nodes: [parentof] is applied to [x >= 1] only. *)
Definition leftchild (x : Z) : Z := 2 * x + 1.
Definition rightchild (x : Z) : Z := 2 * x + 2.
Definition parentof (x : Z) : Z := (x - 1) / 2.

Definition rightneighbor (x : Z) : Z :=
  let x := x + 1 in
  if Z.land (x + 1) x =? 0 then parentof x else x.

(** [fp_nodes[i]] as a value and as an assignment. *)
Definition get_node (nodes : list Z) (i : Z) : result Z :=
  if (0 <=? i) && (i <? NodesPerPage) then Ok (word_at nodes (Z.to_nat i))
  else Err "access outside the page".

Definition put_node (nodes : list Z) (i v : Z) : result (list Z) :=
  if (0 <=? i) && (i <? NodesPerPage) then Ok (<[Z.to_nat i := v]> nodes)
  else Err "access outside the page".

(** ** Rebuilding *)

(** One turn of the loop of [fsm_rebuild_page]. *)
Definition rebuild_node (nodeno : Z) (nodes : list Z) : result (bool * list Z) :=
  let lchild := leftchild nodeno in
  let rchild := lchild + 1 in
  newvalue ← (if lchild <? NodesPerPage then get_node nodes lchild else Ok 0);
  newvalue ← (if rchild <? NodesPerPage
              then r ← get_node nodes rchild; Ok (Z.max newvalue r) else Ok newvalue);
  old ← get_node nodes nodeno;
  if negb (old =? newvalue) then nodes ← put_node nodes nodeno newvalue; Ok (true, nodes)
  else Ok (false, nodes).

(** The nodes [n - 1], ..., [0]. *)
Fixpoint rebuild_loop (n : nat) (nodes : list Z) (changed : bool) : result (bool * list Z) :=
  match n with
  | O => Ok (changed, nodes)
  | S n =>
      '(c, nodes) ← rebuild_node (Z.of_nat n) nodes;
      rebuild_loop n nodes (changed || c)
  end.

Definition fsm_rebuild_page (page : FSMPageData) : result (bool * FSMPageData) :=
  '(changed, nodes) ← rebuild_loop (Z.to_nat NonLeafNodesPerPage) (fp_nodes page) false;
  Ok (changed, mkFSMPage (fp_next_slot page) nodes).

(** ** Setting and getting a slot *)

(** The [do ... while] loop of [fsm_set_avail]; the node number shrinks with every turn. *)
Fixpoint propagate (fuel : nat) (nodes : list Z) (nodeno : Z) : result (list Z) :=
  match fuel with
  | O => Err "propagate: out of fuel"
  | S fuel =>
      let nodeno := parentof nodeno in
      let lchild := leftchild nodeno in
      let rchild := lchild + 1 in
      newvalue ← get_node nodes lchild;
      newvalue ← (if rchild <? NodesPerPage
                  then r ← get_node nodes rchild; Ok (Z.max newvalue r) else Ok newvalue);
      oldvalue ← get_node nodes nodeno;
      if oldvalue =? newvalue then Ok nodes
      else
        nodes ← put_node nodes nodeno newvalue;
        if 0 <? nodeno then propagate fuel nodes nodeno else Ok nodes
  end.

Definition fsm_set_avail (page : FSMPageData) (slot value : Z) : result (bool * FSMPageData) :=
  let nodeno := NonLeafNodesPerPage + slot in
  oldvalue ← get_node (fp_nodes page) nodeno;
  root ← get_node (fp_nodes page) 0;
  if (oldvalue =? value) && (value <=? root) then Ok (false, page)
  else
    nodes ← put_node (fp_nodes page) nodeno value;
    nodes ← propagate (Z.to_nat nodeno) nodes nodeno;
    let page := mkFSMPage (fp_next_slot page) nodes in
    root ← get_node nodes 0;
    if root <? value then '(_, page) ← fsm_rebuild_page page; Ok (true, page)
    else Ok (true, page).

Definition fsm_get_avail (page : FSMPageData) (slot : Z) : result Z :=
  get_node (fp_nodes page) (NonLeafNodesPerPage + slot).

Definition fsm_get_max_avail (page : FSMPageData) : result Z := get_node (fp_nodes page) 0.

(** ** Searching *)

(** The first loop of the search: right and up until there is enough space. *)
Fixpoint climb (fuel : nat) (nodes : list Z) (minvalue nodeno : Z) : result Z :=
  if 0 <? nodeno then
    v ← get_node nodes nodeno;
    if minvalue <=? v then Ok nodeno
    else
      match fuel with
      | O => Err "climb: out of fuel"
      | S fuel => climb fuel nodes minvalue (parentof (rightneighbor nodeno))
      end
  else Ok nodeno.

(** The second loop: down to a leaf, to the left where possible.  [None] if a node promises
    space that neither child has. *)
Fixpoint descend (fuel : nat) (nodes : list Z) (minvalue nodeno : Z) : result (option Z) :=
  if nodeno <? NonLeafNodesPerPage then
    match fuel with
    | O => Err "descend: out of fuel"
    | S fuel =>
        let enough i := if i <? NodesPerPage then v ← get_node nodes i; Ok (minvalue <=? v)
                        else Ok false in
        let childnodeno := leftchild nodeno in
        l ← enough childnodeno;
        if l : bool then descend fuel nodes minvalue childnodeno
        else
          r ← enough (childnodeno + 1);
          if r : bool then descend fuel nodes minvalue (childnodeno + 1) else Ok None
    end
  else Ok (Some nodeno).

(** One pass from the label [restart]: the slot or -1, or [None] where the page is corrupt. *)
Definition search_pass (page : FSMPageData) (minvalue : Z) (advancenext : bool) :
    result (option (Z * FSMPageData)) :=
  root ← get_node (fp_nodes page) 0;
  if root <? minvalue then Ok (Some (-1, page))
  else
    let target := fp_next_slot page in
    let target := if (target <? 0) || (LeafNodesPerPage <=? target) then 0 else target in
    let target := target + NonLeafNodesPerPage in
    nodeno ← climb (Z.to_nat target) (fp_nodes page) minvalue target;
    nodeno ← descend (Z.to_nat NodesPerPage) (fp_nodes page) minvalue nodeno;
    match nodeno with
    | None => Ok None
    | Some nodeno =>
        let slot := u16 (nodeno - NonLeafNodesPerPage) in
        Ok (Some (slot, mkFSMPage (slot + (if advancenext then 1 else 0)) (fp_nodes page)))
    end.

(** The passes; a corrupt page is rebuilt under an exclusive lock before the next one. *)
Fixpoint fsm_search_avail (fuel : nat) (relock : FSMPageData → FSMPageData) (page : FSMPageData)
    (minvalue : Z) (advancenext exclusive_lock_held : bool) : result (Z * FSMPageData) :=
  r ← search_pass page minvalue advancenext;
  match r with
  | Some (slot, page) => Ok (slot, page)
  | None =>
      match fuel with
      | O => Err "fsm_search_avail: out of fuel"
      | S fuel =>
          let page := if exclusive_lock_held then page else relock page in
          '(_, page) ← fsm_rebuild_page page;
          fsm_search_avail fuel relock page minvalue advancenext true
      end
  end.

(** ** Truncating *)

(** The loop over the leaves from position [i] on. *)
Fixpoint clear_leaves (n : nat) (i : Z) (nodes : list Z) (changed : bool) : result (bool * list Z) :=
  match n with
  | O => Ok (changed, nodes)
  | S n =>
      v ← get_node nodes i;
      nodes ← put_node nodes i 0;
      clear_leaves n (i + 1) nodes (changed || negb (v =? 0))
  end.

Definition fsm_truncate_avail (page : FSMPageData) (nslots : Z) : result (bool * FSMPageData) :=
  let start := NonLeafNodesPerPage + nslots in
  '(changed, nodes) ← clear_leaves (Z.to_nat (NodesPerPage - start)) start (fp_nodes page) false;
  let page := mkFSMPage (fp_next_slot page) nodes in
  if changed : bool then '(_, page) ← fsm_rebuild_page page; Ok (true, page) else Ok (false, page).
End FsmPage.
