(* ===== verification/FsmFacts.v ===== *)
(** * Free space map pages: the tree and the search

    A page is well formed when it has its size; its tree is a heap when every upper node holds the
    larger of its children.  The theorems at the end say what each routine makes of the slots and
    of the heap, and that the search finds the first suitable slot from its hint on. *)
From S2P Require Import Prelude FsmPage.

Section Tree.
(** The leaves are on level [D], the root on level 0; block sizes are 64 bytes to 32 kB here,
    1 kB to 32 kB in the configuration. *)
Context (D : Z) (HD : 5 ≤ D ≤ 14).
#[local] Notation BLCKSZ := (2 ^ (D + 1)).
#[local] Notation N := (NodesPerPage BLCKSZ).
#[local] Notation L := (NonLeafNodesPerPage BLCKSZ).
#[local] Notation Leaf := (LeafNodesPerPage BLCKSZ).
Implicit Types nodes : list Z.

Lemma page_sizes : L = 2 ^ D - 1 ∧ N = 2 * 2 ^ D - 28 ∧ Leaf = 2 ^ D - 27 ∧ 32 ≤ 2 ^ D ≤ 2 ^ 14.
Proof.
  unfold LeafNodesPerPage, NonLeafNodesPerPage, NodesPerPage.
  assert (HP : 2 ^ (D + 1) = 2 * 2 ^ D) by (rewrite Z.pow_add_r by lia; lia).
  assert (Hdiv : 2 ^ (D + 1) / 2 = 2 ^ D) by (rewrite HP, Z.mul_comm; apply Z.div_mul; lia).
  rewrite Hdiv, HP. split_and!; try lia.
  - change 32 with (2 ^ 5). apply Z.pow_le_mono_r; lia.
  - apply Z.pow_le_mono_r; lia.
Qed.

(** ** Nodes *)

Definition val nodes (i : Z) : Z := word_at nodes (Z.to_nat i).

Record page_ok nodes : Prop := {
  po_len : Z.of_nat (length nodes) = N;
  po_u8 : Forall is_u8 nodes;
}.

Lemma val_u8 nodes i : page_ok nodes → is_u8 (val nodes i).
Proof.
  intros Hok. unfold val, word_at. destruct (nodes !! _) eqn:E; simpl; [|done].
  eapply Forall_lookup_1; [apply (po_u8 _ Hok)|done].
Qed.

Lemma get_node_ok nodes i : 0 ≤ i < N → get_node BLCKSZ nodes i = Ok (val nodes i).
Proof.
  intros Hi. unfold get_node. by rewrite (proj2 (Z.leb_le 0 i)), (proj2 (Z.ltb_lt i _)) by lia.
Qed.

Lemma put_node_ok nodes i v : 0 ≤ i < N → put_node BLCKSZ nodes i v = Ok (<[Z.to_nat i := v]> nodes).
Proof.
  intros Hi. unfold put_node. by rewrite (proj2 (Z.leb_le 0 i)), (proj2 (Z.ltb_lt i _)) by lia.
Qed.

Lemma val_insert nodes i j v :
  page_ok nodes → 0 ≤ i < N → 0 ≤ j →
  val (<[Z.to_nat i := v]> nodes) j = if decide (i = j) then v else val nodes j.
Proof.
  intros Hok Hi Hj. pose proof (po_len _ Hok). unfold val. rewrite word_at_insert by lia.
  repeat case_decide; try done; lia.
Qed.

Lemma page_ok_insert nodes i v : page_ok nodes → is_u8 v → page_ok (<[Z.to_nat i := v]> nodes).
Proof.
  intros [Hl Hu] Hv. split; [by rewrite length_insert|]. by apply Forall_insert.
Qed.

Lemma nodes_ext nodes nodes' :
  page_ok nodes → page_ok nodes' → (∀ i, 0 ≤ i < N → val nodes i = val nodes' i) → nodes = nodes'.
Proof.
  intros [Hl _] [Hl' _] Hv. apply list_eq. intros k.
  destruct (decide (Z.of_nat k < N)) as [Hk|Hk].
  - specialize (Hv (Z.of_nat k) ltac:(lia)). unfold val, word_at in Hv. rewrite Nat2Z.id in Hv.
    destruct (lookup_lt_is_Some_2 nodes k) as [x Hx]; [lia|].
    destruct (lookup_lt_is_Some_2 nodes' k) as [y Hy]; [lia|].
    rewrite Hx, Hy in Hv |- *. simpl in Hv. congruence.
  - rewrite !lookup_ge_None_2; [done|lia..].
Qed.

(** ** The heap property *)

Definition child nodes i : Z := if i <? N then val nodes i else 0.
Definition cmax nodes i : Z := Z.max (child nodes (leftchild i)) (child nodes (leftchild i + 1)).
Definition heap_from (k : Z) nodes : Prop := ∀ i, k ≤ i < L → 0 ≤ i → val nodes i = cmax nodes i.
Definition heap nodes : Prop := heap_from 0 nodes.

Lemma cmax_u8 nodes i : page_ok nodes → is_u8 (cmax nodes i).
Proof.
  intros Hok. assert (Hc : ∀ k, is_u8 (child nodes k)) by (intros k; unfold child; case_match; [by apply val_u8|done]).
  unfold cmax, is_u8. pose proof (Hc (leftchild i)) as H1. pose proof (Hc (leftchild i + 1)) as H2.
  unfold is_u8 in *. lia.
Qed.

(** A node that is not a child of [i] does not matter for it. *)
Lemma cmax_insert nodes i k v :
  page_ok nodes → 0 ≤ k < N → 0 ≤ i → k ≠ leftchild i → k ≠ leftchild i + 1 →
  cmax (<[Z.to_nat k := v]> nodes) i = cmax nodes i.
Proof.
  intros Hok Hk Hi Hl Hr. unfold cmax, child. unfold leftchild in *.
  rewrite !val_insert by (done || lia). by rewrite !decide_False by done.
Qed.

(** Every node is at most the root. *)
Lemma heap_root nodes i : page_ok nodes → heap nodes → 0 ≤ i < N → val nodes i ≤ val nodes 0.
Proof.
  intros Hok Hh Hi. pose proof page_sizes as (HL & HN & _ & Hp).
  assert (Hgen : ∀ k : nat, ∀ i, 0 ≤ i < N → i ≤ Z.of_nat k → val nodes i ≤ val nodes 0).
  { induction k as [|k IH]; intros j Hj Hjk; [by replace j with 0 by lia|].
    destruct (decide (j = 0)) as [->|Hj0]; [done|].
    assert (Hpar : 0 ≤ parentof j < L ∧ parentof j < j ∧
              (j = leftchild (parentof j) ∨ j = leftchild (parentof j) + 1)).
    { unfold parentof, leftchild. pose proof (Z.div_mod (j - 1) 2 ltac:(lia)).
      pose proof (Z.mod_pos_bound (j - 1) 2 ltac:(lia)). lia. }
    destruct Hpar as (Hp1 & Hp2 & Hp3). transitivity (val nodes (parentof j)); [|apply IH; lia].
    rewrite (Hh (parentof j)) by lia. unfold cmax, child.
    destruct Hp3 as [E|E]; rewrite <- E; rewrite (proj2 (Z.ltb_lt j N)) by lia; lia. }
  apply (Hgen (Z.to_nat i)); lia.
Qed.

(** ** Rebuilding *)

Lemma rebuild_node_eq nodes n :
  page_ok nodes → 0 ≤ n < L →
  rebuild_node BLCKSZ n nodes = Ok (negb (val nodes n =? cmax nodes n), <[Z.to_nat n := cmax nodes n]> nodes).
Proof.
  intros Hok Hn. pose proof page_sizes as (HL & HN & _ & Hp). pose proof (po_len _ Hok) as Hlen.
  unfold rebuild_node.
  assert (Hl : (if leftchild n <? N then get_node BLCKSZ nodes (leftchild n) else Ok 0) =
               Ok (child nodes (leftchild n))).
  { unfold child, leftchild. destruct (Z.ltb_spec (2 * n + 1) N); [|done]. apply get_node_ok. lia. }
  rewrite Hl. cbn [mbind result_bind].
  assert (Hr : (if leftchild n + 1 <? N
                then r ← get_node BLCKSZ nodes (leftchild n + 1); Ok (Z.max (child nodes (leftchild n)) r)
                else Ok (child nodes (leftchild n))) = Ok (cmax nodes n)).
  { unfold cmax. assert (Hc : child nodes (leftchild n + 1) =
      if leftchild n + 1 <? N then val nodes (leftchild n + 1) else 0) by done.
    rewrite Hc. destruct (Z.ltb_spec (leftchild n + 1) N).
    - rewrite get_node_ok by (unfold leftchild in *; lia). done.
    - f_equal. rewrite Z.max_l; [done|]. unfold child. case_match; [|done]. apply (val_u8 _ _ Hok). }
  rewrite Hr. cbn [mbind result_bind]. rewrite get_node_ok by lia. cbn [mbind result_bind].
  rewrite put_node_ok by lia. destruct (Z.eqb_spec (val nodes n) (cmax nodes n)) as [E|E]; simpl; [|done].
  do 2 f_equal. symmetry. apply list_insert_id. unfold val, word_at in E.
  destruct (lookup_lt_is_Some_2 nodes (Z.to_nat n)) as [x Hx]; [lia|]. rewrite Hx in *. simpl in E. congruence.
Qed.

Lemma rebuild_loop_spec n nodes ch :
  page_ok nodes → Z.of_nat n ≤ L → heap_from (Z.of_nat n) nodes →
  ∃ c nodes', rebuild_loop BLCKSZ n nodes ch = Ok (ch || c, nodes') ∧ page_ok nodes' ∧ heap nodes' ∧
    (∀ i, Z.of_nat n ≤ i → val nodes' i = val nodes i) ∧ (c = false ↔ nodes' = nodes).
Proof.
  pose proof page_sizes as (HL & HN & _ & Hp).
  revert nodes ch. induction n as [|n IH]; intros nodes ch Hok Hn Hh; cbn [rebuild_loop].
  { exists false, nodes. rewrite orb_false_r. done. }
  rewrite rebuild_node_eq by (done || lia). cbn [mbind result_bind].
  set (nodes1 := <[Z.to_nat (Z.of_nat n) := cmax nodes (Z.of_nat n)]> nodes).
  set (c1 := negb (val nodes (Z.of_nat n) =? cmax nodes (Z.of_nat n))).
  assert (Hok1 : page_ok nodes1) by (apply page_ok_insert; [done|by apply cmax_u8]).
  assert (Hval1 : ∀ j, 0 ≤ j → val nodes1 j = if decide (Z.of_nat n = j) then cmax nodes (Z.of_nat n) else val nodes j).
  { intros j Hj. apply val_insert; (done || lia). }
  assert (Hc1 : ∀ i, Z.of_nat n ≤ i → cmax nodes1 i = cmax nodes i).
  { intros i Hi. apply cmax_insert; (done || unfold leftchild; lia). }
  destruct (IH nodes1 (ch || c1)) as (c & nodes' & Hloop & Hok' & Hh' & Hsame & Hc); [done|lia| |].
  { intros i Hi Hi0. rewrite Hval1, Hc1 by lia. case_decide; [by subst|]. apply Hh; lia. }
  exists (c1 || c), nodes'. rewrite Hloop, orb_assoc. split_and!; [done|done|done| |].
  - intros i Hi. rewrite Hsame, Hval1 by lia. by rewrite decide_False by lia.
  - rewrite orb_false_iff, Hc. subst c1. rewrite negb_false_iff, Z.eqb_eq. split.
    + intros [E ->]. apply nodes_ext; [done|done|]. intros i Hi. rewrite Hval1 by lia. case_decide; congruence.
    + intros ->. pose proof (Hsame (Z.of_nat n) ltac:(lia)) as E. rewrite Hval1, decide_True in E by lia.
      split; [done|]. apply nodes_ext; [done|done|]. intros i Hi. rewrite Hval1 by lia. case_decide; congruence.
Qed.

(** Pages with the slots of [nodes]. *)
Definition same_slots nodes nodes' : Prop := ∀ i, L ≤ i → val nodes' i = val nodes i.

Lemma rebuild_page_spec p :
  page_ok (fp_nodes p) →
  ∃ c p', fsm_rebuild_page BLCKSZ p = Ok (c, p') ∧ page_ok (fp_nodes p') ∧ heap (fp_nodes p') ∧
    same_slots (fp_nodes p) (fp_nodes p') ∧ fp_next_slot p' = fp_next_slot p ∧ (c = false ↔ p' = p).
Proof.
  intros Hok. pose proof page_sizes as (HL & HN & _ & Hp). unfold fsm_rebuild_page.
  destruct (rebuild_loop_spec (Z.to_nat L) (fp_nodes p) false) as (c & nodes' & -> & Hok' & Hh & Hs & Hc);
    [done|lia|intros i Hi; lia|].
  cbn [mbind result_bind orb]. exists c, (mkFSMPage (fp_next_slot p) nodes').
  split_and!; [done|done|done| |done|].
  - intros i Hi. apply Hs. lia.
  - rewrite Hc. destruct p as [s ns]; simpl. split; [by intros ->|by intros [= ->]].
Qed.

(** ** Setting a slot *)

Definition heap_except (k : Z) nodes : Prop := ∀ i, 0 ≤ i < L → i ≠ k → val nodes i = cmax nodes i.

Lemma parentof_range i : 1 ≤ i < N → 0 ≤ parentof i < L ∧ parentof i < i ∧ leftchild (parentof i) ≤ i ≤ leftchild (parentof i) + 1.
Proof.
  pose proof page_sizes as (HL & HN & _ & Hp). unfold parentof, leftchild. intros Hi.
  pose proof (Z.div_mod (i - 1) 2 ltac:(lia)). pose proof (Z.mod_pos_bound (i - 1) 2 ltac:(lia)). lia.
Qed.

Lemma children_value nodes k :
  page_ok nodes → 0 ≤ k → leftchild k < N →
  (v ← get_node BLCKSZ nodes (leftchild k);
   if leftchild k + 1 <? N then r ← get_node BLCKSZ nodes (leftchild k + 1); Ok (Z.max v r) else Ok v) =
  Ok (cmax nodes k).
Proof.
  intros Hok Hk Hl. rewrite (get_node_ok nodes (leftchild k)) by (unfold leftchild in *; lia). cbn [mbind result_bind].
  unfold cmax, child. rewrite (proj2 (Z.ltb_lt (leftchild k) N)) by lia.
  destruct (Z.ltb_spec (leftchild k + 1) N).
  - by rewrite get_node_ok by (unfold leftchild in *; lia).
  - f_equal. rewrite Z.max_l; [done|]. apply (val_u8 _ _ Hok).
Qed.

Lemma propagate_spec fuel nodes i :
  page_ok nodes → 1 ≤ i < N → i ≤ Z.of_nat fuel →
  ∃ nodes', propagate BLCKSZ fuel nodes i = Ok nodes' ∧ page_ok nodes' ∧ same_slots nodes nodes' ∧
    (heap_except (parentof i) nodes → heap nodes').
Proof.
  pose proof page_sizes as (HL & HN & _ & Hp).
  revert nodes i. induction fuel as [|fuel IH]; intros nodes i Hok Hi Hf; [lia|].
  cbn [propagate]. destruct (parentof_range i Hi) as (Hk & Hlt & Hch). set (k := parentof i) in *.
  pose proof (children_value nodes k Hok ltac:(lia) ltac:(lia)) as Hcv.
  rewrite (get_node_ok nodes (leftchild k)) in Hcv |- * by (unfold leftchild in *; lia). cbn [mbind result_bind] in Hcv |- *.
  rewrite Hcv. cbn [mbind result_bind]. rewrite (get_node_ok nodes k) by lia. cbn [mbind result_bind].
  destruct (Z.eqb_spec (val nodes k) (cmax nodes k)) as [E|E].
  { exists nodes. split_and!; [done|done|by intros j Hj|]. intros Hex j Hj Hj0.
    destruct (decide (j = k)) as [->|]; [done|]. by apply Hex. }
  rewrite put_node_ok by lia. cbn [mbind result_bind].
  set (nodes1 := <[Z.to_nat k := cmax nodes k]> nodes).
  assert (Hok1 : page_ok nodes1) by (apply page_ok_insert; [done|by apply cmax_u8]).
  assert (Hval1 : ∀ j, 0 ≤ j → val nodes1 j = if decide (k = j) then cmax nodes k else val nodes j).
  { intros j Hj. apply val_insert; (done || lia). }
  assert (Hs1 : same_slots nodes nodes1) by (intros j Hj; rewrite Hval1, decide_False by lia; done).
  assert (Hex1 : heap_except k nodes → ∀ j, 0 ≤ j < L → k ≠ leftchild j → k ≠ leftchild j + 1 →
            val nodes1 j = cmax nodes1 j).
  { intros Hex j Hj Hl Hr. rewrite Hval1 by lia. unfold nodes1. rewrite cmax_insert by (done || lia).
    case_decide; [by subst|]. apply Hex; [done|lia]. }
  destruct (Z.ltb_spec 0 k).
  - destruct (IH nodes1 k) as (nodes' & Hpr & Hok' & Hs' & Hh'); [done|lia|lia|].
    exists nodes'. split_and!; [done|done|intros j Hj; rewrite Hs', Hs1 by done; done|].
    intros Hex. apply Hh'. intros j Hj Hne. apply Hex1; [done|done| |];
      intros Hc; apply Hne; unfold parentof; rewrite Hc; unfold leftchild;
      [rewrite <- (Z.div_mul j 2) at 1 by lia; f_equal; lia
      |apply (Z.div_unique _ _ _ 1); lia].
  - exists nodes1. split_and!; [done|done|done|]. intros Hex j Hj Hj0.
    apply Hex1; [done|lia|unfold leftchild; lia..].
Qed.

Lemma set_avail_spec p slot value :
  page_ok (fp_nodes p) → 0 ≤ slot < Leaf → is_u8 value →
  ∃ b p', fsm_set_avail BLCKSZ p slot value = Ok (b, p') ∧ page_ok (fp_nodes p') ∧
    fp_next_slot p' = fp_next_slot p ∧
    (∀ j, 0 ≤ j < Leaf → val (fp_nodes p') (L + j) = if decide (j = slot) then value else val (fp_nodes p) (L + j)) ∧
    value ≤ val (fp_nodes p') 0 ∧ (b = false → p' = p) ∧
    (heap (fp_nodes p) → heap (fp_nodes p') ∧ (b = true ↔ val (fp_nodes p) (L + slot) ≠ value)).
Proof.
  intros Hok Hslot Hv. pose proof page_sizes as (HL & HN & HLf & Hp).
  unfold fsm_set_avail. rewrite !get_node_ok by lia. cbn [mbind result_bind].
  destruct ((val (fp_nodes p) (L + slot) =? value) && (value <=? val (fp_nodes p) 0)) eqn:Hg.
  { apply andb_true_iff in Hg as [Hg1 Hg2]. apply Z.eqb_eq in Hg1. apply Z.leb_le in Hg2.
    exists false, p. split_and!; try done. intros j Hj. case_decide; [by subst|done]. }
  rewrite put_node_ok by lia. cbn [mbind result_bind].
  set (nodes1 := <[Z.to_nat (L + slot) := value]> (fp_nodes p)).
  assert (Hok1 : page_ok nodes1) by by apply page_ok_insert.
  assert (Hval1 : ∀ j, 0 ≤ j → val nodes1 j = if decide (L + slot = j) then value else val (fp_nodes p) j).
  { intros j Hj. apply val_insert; (done || lia). }
  destruct (propagate_spec (Z.to_nat (L + slot)) nodes1 (L + slot)) as (nodes2 & -> & Hok2 & Hs2 & Hh2); [done|lia|lia|].
  cbn [mbind result_bind]. rewrite get_node_ok by lia. cbn [mbind result_bind].
  assert (Hslots : ∀ nodes', same_slots nodes2 nodes' → ∀ j, 0 ≤ j < Leaf →
            val nodes' (L + j) = if decide (j = slot) then value else val (fp_nodes p) (L + j)).
  { intros nodes' Hs j Hj. rewrite Hs, Hs2, Hval1 by lia. repeat case_decide; (done || lia). }
  assert (Hheap : heap (fp_nodes p) → heap nodes2).
  { intros Hh. apply Hh2. intros i Hi Hne. destruct (parentof_range (L + slot)) as (Hk & _ & Hch); [lia|].
    rewrite Hval1, decide_False by lia. unfold nodes1. rewrite cmax_insert; [apply Hh; lia|done|lia|lia| |];
    unfold leftchild in *; lia. }
  assert (Hch : heap (fp_nodes p) → val (fp_nodes p) (L + slot) ≠ value).
  { intros Hh E. rewrite E, Z.eqb_refl in Hg. simpl in Hg. apply Z.leb_gt in Hg.
    pose proof (heap_root (fp_nodes p) (L + slot) Hok Hh ltac:(lia)). lia. }
  destruct (Z.ltb_spec (val nodes2 0) value) as [Hlt|Hge].
  - destruct (rebuild_page_spec (mkFSMPage (fp_next_slot p) nodes2)) as (c & p' & -> & Hok' & Hh' & Hs' & Hn' & _); [done|].
    cbn [mbind result_bind]. exists true, p'. split_and!; try done; [by apply Hslots| |naive_solver].
    rewrite <- (decide_True (P := slot = slot) value (val (fp_nodes p) (L + slot))) at 1 by done.
    rewrite <- (Hslots (fp_nodes p') Hs' slot Hslot). apply heap_root; [done|done|lia].
  - exists true, (mkFSMPage (fp_next_slot p) nodes2). split_and!; try done; [by apply (Hslots nodes2)|naive_solver].
Qed.

(** ** Truncating *)

Lemma clear_leaves_spec n i nodes ch :
  page_ok nodes → L ≤ i → i + Z.of_nat n = N →
  ∃ c nodes', clear_leaves BLCKSZ n i nodes ch = Ok (ch || c, nodes') ∧ page_ok nodes' ∧
    (∀ j, 0 ≤ j → val nodes' j = if decide (i ≤ j < N) then 0 else val nodes j) ∧
    (c = false ↔ nodes' = nodes).
Proof.
  pose proof page_sizes as (HL & HN & _ & Hp).
  revert i nodes ch. induction n as [|n IH]; intros i nodes ch Hok Hi Hn; cbn [clear_leaves].
  { exists false, nodes. rewrite orb_false_r. split_and!; try done. intros j Hj. by rewrite decide_False by lia. }
  rewrite get_node_ok, put_node_ok by lia. cbn [mbind result_bind].
  set (nodes1 := <[Z.to_nat i := 0]> nodes).
  assert (Hok1 : page_ok nodes1) by by apply page_ok_insert.
  assert (Hval1 : ∀ j, 0 ≤ j → val nodes1 j = if decide (i = j) then 0 else val nodes j).
  { intros j Hj. apply val_insert; (done || lia). }
  destruct (IH (i + 1) nodes1 (ch || negb (val nodes i =? 0))) as (c & nodes' & -> & Hok' & Hv & Hc); [done|lia|lia|].
  assert (Hv' : ∀ j, 0 ≤ j → val nodes' j = if decide (i ≤ j < N) then 0 else val nodes j).
  { intros j Hj. rewrite Hv, Hval1 by done. repeat case_decide; try done; lia. }
  exists (negb (val nodes i =? 0) || c), nodes'. rewrite orb_assoc. split_and!; [done|done|done|].
  rewrite orb_false_iff, Hc, negb_false_iff, Z.eqb_eq. split.
  - intros [E ->]. apply nodes_ext; [done|done|]. intros j Hj. rewrite Hval1 by lia. case_decide; congruence.
  - intros ->. assert (E : val nodes i = 0) by (rewrite Hv', decide_True by lia; done).
    split; [done|]. apply nodes_ext; [done|done|]. intros j Hj. rewrite Hval1 by lia. case_decide; congruence.
Qed.

(** ** Levels of the tree *)

(** Node [q] of level [l]; it covers the leaves [j] with [j / 2 ^ (D - l) = q]. *)
Definition nd (l q : Z) : Z := 2 ^ l - 1 + q.

Lemma pow2_succ l : 0 ≤ l → 2 ^ (l + 1) = 2 * 2 ^ l.
Proof. intros Hl. rewrite Z.pow_add_r by lia. lia. Qed.

Lemma pow2_pred l : 1 ≤ l → 2 ^ l = 2 * 2 ^ (l - 1).
Proof. intros Hl. rewrite <- pow2_succ by lia. f_equal. lia. Qed.

Lemma parentof_nd l q : 1 ≤ l → 0 ≤ q → parentof (nd l q) = nd (l - 1) (q / 2).
Proof.
  intros Hl Hq. unfold parentof, nd. rewrite (pow2_pred l) by done.
  replace (2 * 2 ^ (l - 1) - 1 + q - 1) with (q + (2 ^ (l - 1) - 1) * 2) by lia.
  rewrite Z.div_add by lia. lia.
Qed.

(** The power-of-two test of [rightneighbor]. *)
Lemma land_succ_zero l x : 0 ≤ l → 2 ^ l ≤ x < 2 ^ (l + 1) → Z.land (x + 1) x = 0 ↔ x + 1 = 2 ^ (l + 1).
Proof.
  intros Hl Hx. split.
  - intros Hz. destruct (decide (x + 1 = 2 ^ (l + 1))) as [|Hne]; [done|exfalso].
    assert (Hbit : ∀ y, 2 ^ l ≤ y < 2 ^ (l + 1) → Z.testbit y l = true).
    { intros y Hy. replace l with (Z.log2 y) at 1; [apply Z.bit_log2; lia|].
      apply Z.log2_unique; [done|]. by replace (Z.succ l) with (l + 1) by lia. }
    apply (f_equal (λ z, Z.testbit z l)) in Hz. rewrite Z.land_spec, Z.bits_0, !Hbit in Hz by lia. done.
  - intros E. rewrite E. replace x with (Z.ones (l + 1)) by (rewrite Z.ones_equiv; lia).
    rewrite Z.land_ones by lia. apply Z.mod_same. lia.
Qed.

Lemma rightneighbor_nd l q :
  0 ≤ l → 0 ≤ q < 2 ^ l → rightneighbor (nd l q) = nd l ((q + 1) mod 2 ^ l).
Proof.
  intros Hl Hq. unfold rightneighbor. pose proof (pow2_succ l Hl) as Hs.
  assert (Hx : 2 ^ l ≤ nd l q + 1 < 2 ^ (l + 1)) by (unfold nd; lia).
  pose proof (land_succ_zero l (nd l q + 1) Hl Hx) as Hz.
  destruct (Z.eqb_spec (Z.land (nd l q + 1 + 1) (nd l q + 1)) 0) as [E|E].
  - apply Hz in E. replace (nd l q + 1) with (nd (l + 1) 0) by (unfold nd in *; lia).
    rewrite parentof_nd by lia. replace (q + 1) with (2 ^ l) by (unfold nd in E; lia).
    rewrite Z.mod_same by lia. by replace (l + 1 - 1) with l by lia.
  - rewrite Z.mod_small; [unfold nd; lia|]. unfold nd in E, Hz.
    destruct (decide (q + 1 = 2 ^ l)); [|lia]. exfalso. apply E, Hz. lia.
Qed.

Lemma leftchild_nd l q : 0 ≤ l → leftchild (nd l q) = nd (l + 1) (2 * q).
Proof. intros Hl. unfold leftchild, nd. rewrite pow2_succ by done. lia. Qed.

Lemma nd_upper l q : 0 ≤ l < D → 0 ≤ q < 2 ^ l → 0 ≤ nd l q < L.
Proof.
  intros Hl Hq. destruct page_sizes as (HL & _). unfold nd.
  assert (2 ^ (l + 1) ≤ 2 ^ D) by (apply Z.pow_le_mono_r; lia). rewrite pow2_succ in * by lia. lia.
Qed.

Lemma nd_leaf q : nd D q = L + q.
Proof. destruct page_sizes as (HL & _). unfold nd. lia. Qed.

(** The children of a node share its leaves. *)
Lemma covered_split l q j :
  0 ≤ l < D → j / 2 ^ (D - l) = q ↔
  j / 2 ^ (D - (l + 1)) = 2 * q ∨ j / 2 ^ (D - (l + 1)) = 2 * q + 1.
Proof.
  intros Hl. rewrite (pow2_pred (D - l)) by lia. replace (D - l - 1) with (D - (l + 1)) by lia.
  rewrite (Z.mul_comm 2), <- Z.div_div by lia.
  pose proof (Z.div_mod (j / 2 ^ (D - (l + 1))) 2 ltac:(lia)).
  pose proof (Z.mod_pos_bound (j / 2 ^ (D - (l + 1))) 2 ltac:(lia)). lia.
Qed.

(** ** Suitable slots and nodes *)

Definition suit nodes (minv j : Z) : Prop := 0 ≤ j < Leaf ∧ minv ≤ val nodes (L + j).
Definition enough nodes (minv l q : Z) : Prop := nd l q < N ∧ minv ≤ val nodes (nd l q).

Lemma enough_children nodes minv l q :
  page_ok nodes → heap nodes → 1 ≤ minv → 0 ≤ l < D → 0 ≤ q < 2 ^ l →
  enough nodes minv l q ↔ enough nodes minv (l + 1) (2 * q) ∨ enough nodes minv (l + 1) (2 * q + 1).
Proof.
  intros Hok Hh Hm Hl Hq. pose proof page_sizes as (HL & HN & _ & Hp).
  pose proof (nd_upper l q Hl Hq) as Hu. unfold enough. rewrite (Hh (nd l q)) by lia.
  unfold cmax. rewrite leftchild_nd by lia.
  replace (nd (l + 1) (2 * q) + 1) with (nd (l + 1) (2 * q + 1)) by (unfold nd; lia).
  unfold child. destruct (Z.ltb_spec (nd (l + 1) (2 * q)) N), (Z.ltb_spec (nd (l + 1) (2 * q + 1)) N); lia.
Qed.

Lemma heap_enough nodes minv l q :
  page_ok nodes → heap nodes → 1 ≤ minv → 0 ≤ l ≤ D → 0 ≤ q < 2 ^ l →
  enough nodes minv l q ↔ ∃ j, suit nodes minv j ∧ j / 2 ^ (D - l) = q.
Proof.
  intros Hok Hh Hm Hl. pose proof page_sizes as (HL & HN & HLf & Hp).
  remember (Z.to_nat (D - l)) as n eqn:Hn. revert l q Hl Hn.
  induction n as [|n IH]; intros l q Hl Hn Hq.
  - replace l with D in * by lia. rewrite Z.sub_diag. unfold enough, suit. rewrite nd_leaf.
    setoid_rewrite Z.div_1_r. split; [intros [? ?]; exists q; split; [split; [lia|done]|done]|].
    intros (j & [? ?] & ->). split; [lia|done].
  - rewrite enough_children by (done || lia). pose proof (pow2_succ l ltac:(lia)) as Hs.
    rewrite !IH by lia. setoid_rewrite (covered_split l q); [|lia]. naive_solver.
Qed.

(** ** The two loops of the search *)

(** [Inv] is kept by every step right and up from a node without enough space. *)
Lemma climb_spec nodes minv (Inv : Z → Z → Prop) fuel l q :
  (∀ l q, 1 ≤ l ≤ D → 0 ≤ q < 2 ^ l → nd l q < N → Inv l q → ¬ enough nodes minv l q →
     Inv (l - 1) ((q + 1) mod 2 ^ l / 2)) →
  minv ≤ val nodes 0 → 0 ≤ l ≤ D → 0 ≤ q < 2 ^ l → nd l q < N → l ≤ Z.of_nat fuel → Inv l q →
  ∃ l' q', climb BLCKSZ fuel nodes minv (nd l q) = Ok (nd l' q') ∧ 0 ≤ l' ≤ D ∧ 0 ≤ q' < 2 ^ l' ∧
    enough nodes minv l' q' ∧ Inv l' q'.
Proof.
  intros Hstep Hroot. pose proof page_sizes as (HL & HN & HLf & Hp).
  revert l q. induction fuel as [|fuel IH]; intros l q Hl Hq Hn Hf Hinv.
  all: destruct (decide (l = 0)) as [->|Hl0].
  1, 3: assert (nd 0 q = 0) as Hz by (unfold nd; lia); exists 0, q; rewrite Hz; unfold enough; rewrite Hz;
    split_and!; try done; lia.
  { lia. }
  assert (Hpos : 1 ≤ nd l q) by (unfold nd; rewrite (pow2_pred l) by lia; lia).
  cbn [climb]. rewrite (proj2 (Z.ltb_lt 0 (nd l q))), get_node_ok by lia. cbn [mbind result_bind].
  destruct (Z.leb_spec minv (val nodes (nd l q))) as [He|He].
  { exists l, q. split_and!; try done; lia. }
  assert (Hne : ¬ enough nodes minv l q) by (unfold enough; lia).
  pose proof (Z.mod_pos_bound (q + 1) (2 ^ l) ltac:(lia)) as Hr.
  rewrite rightneighbor_nd, parentof_nd by lia.
  set (q2 := (q + 1) mod 2 ^ l / 2).
  assert (Hq2 : 0 ≤ q2 < 2 ^ (l - 1)).
  { subst q2. split; [apply Z.div_pos; lia|]. apply Z.div_lt_upper_bound; [lia|]. rewrite <- pow2_pred by lia. lia. }
  apply (IH (l - 1) q2); [lia|done| |lia|].
  - pose proof (nd_upper (l - 1) q2 ltac:(lia) Hq2). lia.
  - apply Hstep; (done || lia).
Qed.

Lemma child_test nodes minv l q :
  0 ≤ nd l q →
  ∃ b : bool, (if nd l q <? N then v ← get_node BLCKSZ nodes (nd l q); Ok (minv <=? v) else Ok false) = Ok b ∧
    (b = true ↔ enough nodes minv l q).
Proof.
  intros Hn. unfold enough. destruct (Z.ltb_spec (nd l q) N).
  - rewrite get_node_ok by lia. eexists; split; [done|]. rewrite Z.leb_le. tauto.
  - exists false. split; [done|]. split; [done|lia].
Qed.

(** The slot of the least suitable leaf below a node. *)
Definition least_below nodes minv l q j : Prop :=
  suit nodes minv j ∧ j / 2 ^ (D - l) = q ∧
  ∀ j', suit nodes minv j' → j' / 2 ^ (D - l) = q → j ≤ j'.

Lemma descend_spec nodes minv fuel l q :
  page_ok nodes → 0 ≤ l ≤ D → 0 ≤ q < 2 ^ l → enough nodes minv l q → D - l ≤ Z.of_nat fuel →
  ∃ r, descend BLCKSZ fuel nodes minv (nd l q) = Ok r ∧
    (∀ n, r = Some n → ∃ j, n = nd D j ∧ suit nodes minv j ∧ j / 2 ^ (D - l) = q ∧
       (heap nodes → 1 ≤ minv → least_below nodes minv l q j)) ∧
    (r = None → l < D ∧ ¬ (heap nodes ∧ 1 ≤ minv)).
Proof.
  intros Hok. pose proof page_sizes as (HL & HN & HLf & Hp).
  revert l q. induction fuel as [|fuel IH]; intros l q Hl Hq He Hf.
  all: destruct (decide (l = D)) as [->|Hlt].
  1, 3: cbn [descend]; rewrite nd_leaf, (proj2 (Z.ltb_ge (L + q) L)) by lia;
    eexists; split; [done|]; split; [|done]; intros n [= <-]; exists q; rewrite nd_leaf;
    unfold enough in He; rewrite nd_leaf in He;
    (assert (suit nodes minv q) by (split; [lia|apply He])); split_and!; try done;
    [by rewrite Z.sub_diag, Z.div_1_r|]; intros _ _; (split; [done|]); rewrite Z.sub_diag, Z.div_1_r; (split; [done|]);
    intros j' _; rewrite Z.div_1_r; lia.
  { lia. }
  cbn [descend]. rewrite (proj2 (Z.ltb_lt (nd l q) L)) by (apply nd_upper; lia).
  pose proof (pow2_succ l ltac:(lia)) as Hs. rewrite leftchild_nd by lia.
  replace (nd (l + 1) (2 * q) + 1) with (nd (l + 1) (2 * q + 1)) by (unfold nd; lia).
  assert (Hnn : ∀ q', 0 ≤ q' → 0 ≤ nd (l + 1) q') by (intros; unfold nd; lia).
  destruct (child_test nodes minv (l + 1) (2 * q)) as (bl & -> & Hbl); [apply Hnn; lia|].
  cbn [mbind result_bind]. destruct bl.
  - apply proj1 in Hbl. specialize (Hbl eq_refl).
    destruct (IH (l + 1) (2 * q)) as (r & Hr & Hsome & Hnone); [lia|lia|done|lia|].
    exists r. split_and!; [done| |intros Hr0; split; [lia|by apply Hnone]]. intros n Hn. destruct (Hsome n Hn) as (j & -> & Hj & Hjq & Hleast).
    exists j. split_and!; [done|done|apply covered_split; [lia|by left]|]. intros Hh Hm.
    destruct (Hleast Hh Hm) as (_ & _ & Hmin). split_and!; [done|apply covered_split; [lia|by left]|].
    intros j' Hj' Hq'. apply covered_split in Hq' as [Hq'|Hq']; [by apply Hmin| |lia].
    assert (Hw : 0 < 2 ^ (D - (l + 1))) by (apply Z.pow_pos_nonneg; lia).
    destruct (Z.le_gt_cases j j'); [done|]. pose proof (Z.div_le_mono j' j _ Hw ltac:(lia)). lia.
  - destruct (child_test nodes minv (l + 1) (2 * q + 1)) as (br & -> & Hbr); [apply Hnn; lia|].
    cbn [mbind result_bind].
    assert (Hnl : ¬ enough nodes minv (l + 1) (2 * q)) by (intros Hl'; apply Hbl in Hl'; done).
    destruct br.
    + apply proj1 in Hbr. specialize (Hbr eq_refl).
      destruct (IH (l + 1) (2 * q + 1)) as (r & Hr & Hsome & Hnone); [lia|lia|done|lia|].
      exists r. split_and!; [done| |intros Hr0; split; [lia|by apply Hnone]]. intros n Hn. destruct (Hsome n Hn) as (j & -> & Hj & Hjq & Hleast).
      exists j. split_and!; [done|done|apply covered_split; [lia|by right]|]. intros Hh Hm.
      destruct (Hleast Hh Hm) as (_ & _ & Hmin). split_and!; [done|apply covered_split; [lia|by right]|].
      intros j' Hj' Hq'. apply covered_split in Hq' as [Hq'|Hq']; [|by apply Hmin|lia].
      exfalso. apply Hnl, heap_enough; [done|done|done|lia|lia|by exists j'].
    + exists None. split_and!; [done|done|]. intros _. split; [lia|]. intros [Hh Hm].
      apply enough_children in He; [|done|done|done|lia|done]. destruct He as [He|He]; [done|].
      apply Hbr in He. done.
Qed.

(** ** The first suitable slot from the start on *)

(** [j] is suitable, and it is the next such slot at or to the right of [t], or, where there is
    none, the first one of the page. *)
Definition first_from nodes minv t j : Prop :=
  suit nodes minv j ∧
  (t ≤ j → ∀ k, t ≤ k < j → ¬ suit nodes minv k) ∧
  (j < t → (∀ k, t ≤ k → ¬ suit nodes minv k) ∧ ∀ k, k < j → ¬ suit nodes minv k).

(** What the climb has established at node [q] of level [l]: going right from [t], with
    wrap-around, up to the position [a] inside or at the end of the node's leaves there is no
    suitable leaf, nor among the node's leaves before [a]. *)
Definition reached nodes minv t l q : Prop :=
  ∃ a K, 0 ≤ K ∧ q * 2 ^ (D - l) ≤ a ≤ (q + 1) * 2 ^ (D - l) ∧
    (∀ j, q * 2 ^ (D - l) ≤ j < a → ¬ suit nodes minv j) ∧
    (t + K) mod 2 ^ D = a mod 2 ^ D ∧ (∀ k, 0 ≤ k < K → ¬ suit nodes minv ((t + k) mod 2 ^ D)).

Lemma reached_start nodes minv t : reached nodes minv t D t.
Proof.
  exists t, 0. rewrite Z.sub_diag. split_and!; intros; try lia. by rewrite Z.add_0_r.
Qed.

(** A node without enough space: everything up to its end is ruled out. *)
Lemma reached_end nodes minv t l q :
  page_ok nodes → heap nodes → 1 ≤ minv → 0 ≤ l ≤ D → 0 ≤ q < 2 ^ l →
  reached nodes minv t l q → ¬ enough nodes minv l q →
  (∀ j, q * 2 ^ (D - l) ≤ j < (q + 1) * 2 ^ (D - l) → ¬ suit nodes minv j) ∧
  ∃ K, 0 ≤ K ∧ (t + K) mod 2 ^ D = ((q + 1) * 2 ^ (D - l)) mod 2 ^ D ∧
    ∀ k, 0 ≤ k < K → ¬ suit nodes minv ((t + k) mod 2 ^ D).
Proof.
  intros Hok Hh Hm Hl Hq (a & K & HK & Ha & Hbefore & Hmod & Hcyc) Hne.
  assert (Hw : 0 < 2 ^ (D - l)) by (apply Z.pow_pos_nonneg; lia).
  assert (Hnone : ∀ j, q * 2 ^ (D - l) ≤ j < (q + 1) * 2 ^ (D - l) → ¬ suit nodes minv j).
  { intros j Hj Hs. apply Hne, heap_enough; try done. exists j. split; [done|].
    symmetry. apply (Z.div_unique _ _ _ (j - q * 2 ^ (D - l))); lia. }
  split; [done|]. set (b := (q + 1) * 2 ^ (D - l)) in *.
  assert (Hb : b ≤ 2 ^ D).
  { replace (2 ^ D) with (2 ^ l * 2 ^ (D - l)) by (rewrite <- Z.pow_add_r by lia; f_equal; lia).
    subst b. apply Z.mul_le_mono_nonneg_r; lia. }
  exists (K + (b - a)). split_and!; [lia| |].
  - rewrite Z.add_assoc, Z.add_mod, Hmod, <- Z.add_mod by lia. f_equal. lia.
  - intros k Hk. destruct (decide (k < K)) as [|Hge]; [apply Hcyc; lia|].
    replace (t + k) with (t + K + (k - K)) by lia.
    rewrite Z.add_mod, Hmod, <- Z.add_mod, Z.mod_small by lia. apply Hnone. lia.
Qed.

Lemma reached_step nodes minv t l q :
  page_ok nodes → heap nodes → 1 ≤ minv → 1 ≤ l ≤ D → 0 ≤ q < 2 ^ l →
  reached nodes minv t l q → ¬ enough nodes minv l q →
  reached nodes minv t (l - 1) ((q + 1) mod 2 ^ l / 2).
Proof.
  intros Hok Hh Hm Hl Hq Hr Hne.
  destruct (reached_end nodes minv t l q) as (Hnone & K & HK & Hmod & Hcyc); try done; [lia|].
  assert (Hw : 0 < 2 ^ (D - l)) by (apply Z.pow_pos_nonneg; lia).
  assert (Hw2 : 2 ^ (D - (l - 1)) = 2 * 2 ^ (D - l)) by (rewrite (pow2_pred (D - (l - 1))) by lia; do 2 f_equal; lia).
  pose proof (pow2_pred l ltac:(lia)) as Hpl. unfold reached. rewrite Hw2. set (w := 2 ^ (D - l)) in *.
  pose proof (Z.div_mod q 2 ltac:(lia)) as Hdiv. pose proof (Z.mod_pos_bound q 2 ltac:(lia)) as Hpar.
  assert (Hcase : q mod 2 = 0 ∨ q mod 2 = 1) by lia.
  destruct Hcase as [Hev|Hodd].
  - (* a left child: the parent adds the leaves of the sibling *)
    rewrite Z.mod_small by lia.
    replace ((q + 1) / 2) with (q / 2) by (apply (Z.div_unique _ _ _ 1); lia).
    exists ((q + 1) * w), K. split_and!; [done|nia|nia| |done|done].
    intros j Hj. apply Hnone. nia.
  - destruct (decide (q + 1 = 2 ^ l)) as [E|Hlt].
    + (* the right edge: wrap around to the leftmost node *)
      rewrite E, Z.mod_same, Z.div_0_l by lia. exists 0, K. split_and!; [done|lia|lia|intros; lia| |done].
      rewrite Hmod, E. subst w. rewrite <- Z.pow_add_r by lia. replace (l + (D - l)) with D by lia.
      rewrite Z.mod_same, Z.mod_0_l by lia. done.
    + (* a right child: the triangle to the right *)
      rewrite Z.mod_small by lia.
      assert (Hq2 : 2 * ((q + 1) / 2) = q + 1) by (replace ((q + 1) / 2) with (q / 2 + 1) by
        (apply (Z.div_unique _ _ _ 0); lia); lia).
      exists ((q + 1) * w), K. split_and!; [done|nia|nia|intros; nia|done|done].
Qed.

Lemma reached_first nodes minv t l q j :
  0 ≤ l ≤ D → 0 ≤ q < 2 ^ l → 0 ≤ t < Leaf → reached nodes minv t l q → least_below nodes minv l q j → first_from nodes minv t j.
Proof.
  intros Hl Hq Ht (a & K & HK & Ha & Hbefore & Hmod & Hcyc) (Hj & Hjq & Hmin).
  pose proof page_sizes as (HL & HN & HLf & Hp).
  assert (Hw : 0 < 2 ^ (D - l)) by (apply Z.pow_pos_nonneg; lia).
  pose proof (Z.div_mod j (2 ^ (D - l)) ltac:(lia)) as Hdm. pose proof (Z.mod_pos_bound j (2 ^ (D - l)) Hw) as Hmb.
  rewrite Hjq in Hdm. pose proof (proj1 Hj) as Hjr.
  assert (Haj : a ≤ j) by (destruct (Z.le_gt_cases a j); [done|exfalso; apply (Hbefore j); [nia|done]]).
  assert (Hbelow : ∀ k, a ≤ k < j → ¬ suit nodes minv k).
  { intros k Hk Hs. enough (j ≤ k) by lia. apply Hmin; [done|].
    symmetry. apply (Z.div_unique _ _ _ (k - q * 2 ^ (D - l))); nia. }
  set (M := K + (j - a)).
  assert (HM : (t + M) mod 2 ^ D = j).
  { subst M. rewrite Z.add_assoc, Z.add_mod, Hmod, <- Z.add_mod by lia. rewrite Z.mod_small; lia. }
  assert (Hall : ∀ k, 0 ≤ k < M → ¬ suit nodes minv ((t + k) mod 2 ^ D)).
  { intros k Hk. destruct (decide (k < K)) as [|Hge]; [apply Hcyc; lia|].
    replace (t + k) with (t + K + (k - K)) by lia.
    rewrite Z.add_mod, Hmod, <- Z.add_mod, Z.mod_small by nia. apply Hbelow. lia. }
  assert (HMlt : M < 2 ^ D).
  { destruct (Z.lt_ge_cases M (2 ^ D)) as [|Hge]; [done|exfalso]. apply (Hall (M - 2 ^ D)); [lia|].
    replace (t + (M - 2 ^ D)) with (t + M + (-1) * 2 ^ D) by lia. rewrite Z.mod_add by lia. by rewrite HM. }
  split; [done|]. destruct (Z.lt_ge_cases (t + M) (2 ^ D)) as [Hsm|Hbig].
  - rewrite Z.mod_small in HM by lia. split; [|lia]. intros _ k Hk Hs.
    apply (Hall (k - t)); [lia|]. rewrite Z.mod_small by lia. by replace (t + (k - t)) with k by lia.
  - assert (HM' : t + M - 2 ^ D = j).
    { replace (t + M) with (t + M - 2 ^ D + 1 * 2 ^ D) in HM by lia. rewrite Z.mod_add, Z.mod_small in HM by lia. done. }
    split; [lia|]. intros _. split; intros k Hk Hs; pose proof (proj1 Hs) as Hkr.
    + apply (Hall (k - t)); [lia|]. rewrite Z.mod_small by lia. by replace (t + (k - t)) with k by lia.
    + apply (Hall (k + 2 ^ D - t)); [lia|]. replace (t + (k + 2 ^ D - t)) with (k + 1 * 2 ^ D) by lia.
      rewrite Z.mod_add, Z.mod_small by lia. done.
Qed.

(** ** The search *)

(** The slot where the search starts. *)
Definition start_slot p : Z := if (fp_next_slot p <? 0) || (Leaf <=? fp_next_slot p) then 0 else fp_next_slot p.

Lemma start_slot_range p : 0 ≤ start_slot p < Leaf.
Proof.
  pose proof page_sizes as (HL & HN & HLf & Hp). unfold start_slot.
  destruct (Z.ltb_spec (fp_next_slot p) 0), (Z.leb_spec Leaf (fp_next_slot p)); simpl; lia.
Qed.

Definition pass_result p minv (adv : bool) (slot : Z) p' : Prop :=
  fp_nodes p' = fp_nodes p ∧
  (slot = -1 ∧ p' = p ∧ val (fp_nodes p) 0 < minv ∨
   suit (fp_nodes p) minv slot ∧ fp_next_slot p' = slot + (if adv then 1 else 0) ∧
   minv ≤ val (fp_nodes p) 0 ∧ (heap (fp_nodes p) → first_from (fp_nodes p) minv (start_slot p) slot)).

Lemma search_pass_spec p minv adv :
  page_ok (fp_nodes p) → is_u8 minv →
  ∃ r, search_pass BLCKSZ p minv adv = Ok r ∧
  match r with
  | None => ¬ heap (fp_nodes p)
  | Some (slot, p') => pass_result p minv adv slot p'
  end.
Proof.
  intros Hok Hm. pose proof page_sizes as (HL & HN & HLf & Hp). unfold is_u8 in Hm.
  pose proof (start_slot_range p) as Ht. unfold search_pass. rewrite get_node_ok by lia. cbn [mbind result_bind].
  destruct (Z.ltb_spec (val (fp_nodes p) 0) minv) as [Hr|Hr].
  { eexists; split; [done|]. simpl. split; [done|]. by left. }
  fold (start_slot p). set (t := start_slot p) in *. rewrite (Z.add_comm t), <- nd_leaf.
  destruct (climb_spec (fp_nodes p) minv
    (λ l q, (heap (fp_nodes p) → 1 ≤ minv → reached (fp_nodes p) minv t l q) ∧ (minv = 0 → l = D ∧ q = t))
    (Z.to_nat (nd D t)) D t) as (l & q & -> & Hl & Hq & He & Hreach & Hzero).
  - intros l q Hl Hq Hn [Hi Hz] Hne. split.
    + intros Hh H1. apply reached_step; auto.
    + intros ->. exfalso. apply Hne. split; [done|]. apply (val_u8 _ _ Hok).
  - done.
  - lia.
  - lia.
  - rewrite nd_leaf. lia.
  - unfold nd. pose proof (Z.pow_gt_lin_r 2 D ltac:(lia) ltac:(lia)). lia.
  - split; [intros; apply reached_start|done].
  - cbn [mbind result_bind].
    destruct (descend_spec (fp_nodes p) minv (Z.to_nat N) l q) as (r & -> & Hsome & Hnone); try done; [lia|].
    cbn [mbind result_bind]. destruct r as [n|].
    + destruct (Hsome n eq_refl) as (j & -> & Hj & Hjq & Hleast). eexists; split; [done|]. simpl.
      assert (Hu : u16 (nd D j - L) = j).
      { rewrite nd_leaf. replace (L + j - L) with j by lia. destruct Hj. apply Z.mod_small. lia. }
      rewrite Hu. split; [done|]. right. split_and!; [done|done|done|]. intros Hh.
      destruct (decide (minv = 0)) as [H0|H0].
      * destruct (Hzero H0) as [-> ->]. rewrite Z.sub_diag, Z.div_1_r in Hjq. subst j.
        split; [done|]. split; intros; lia.
      * eapply reached_first; [done|done|done|by apply Hreach; [|lia]|by apply Hleast; [|lia]].
    + eexists; split; [done|]. simpl. intros Hh. destruct (decide (minv = 0)) as [H0|H0]; [|by apply Hnone; [|split; [|lia]]].
      destruct (Hzero H0) as [-> ->]. destruct (Hnone eq_refl). lia.
Qed.

(** ** Theorems *)

(** The value of a slot. *)
Definition slot_value p j : Z := val (fp_nodes p) (L + j).

(** Rebuilding makes any page, whatever its upper nodes held after a crash, a heap with the same
    slots and hint, never leaves the page, and reports a change exactly if there was one; in
    particular a heap is left alone, and a heap is determined by its slots. *)
Lemma fsm_rebuild_correct p :
  page_ok (fp_nodes p) →
  ∃ changed p', fsm_rebuild_page BLCKSZ p = Ok (changed, p') ∧
    page_ok (fp_nodes p') ∧ heap (fp_nodes p') ∧ fp_next_slot p' = fp_next_slot p ∧
    (∀ j, 0 ≤ j < Leaf → slot_value p' j = slot_value p j) ∧
    (changed = true ↔ p' ≠ p) ∧ (heap (fp_nodes p) → p' = p).
Proof.
  intros Hok. pose proof page_sizes as (HL & HN & HLf & Hp).
  destruct (rebuild_page_spec p Hok) as (c & p' & Hr & Hok' & Hh' & Hs & Hn & Hc).
  exists c, p'. split_and!; try done.
  - intros j Hj. apply Hs. lia.
  - rewrite <- Hc. by destruct c.
  - intros Hh. destruct p as [n ns], p' as [n' ns']; simpl in *. subst n'. f_equal.
    apply nodes_ext; [done|done|].
    assert (Hgen : ∀ k : nat, ∀ i, N - Z.of_nat k ≤ i < N → 0 ≤ i → val ns' i = val ns i).
    { induction k as [|k IH]; intros i Hi Hi0; [lia|].
      destruct (Z.lt_ge_cases i L) as [Hlt|Hge]; [|by apply Hs].
      rewrite Hh', Hh by lia. unfold cmax, child, leftchild.
      destruct (Z.ltb_spec (2 * i + 1) N), (Z.ltb_spec (2 * i + 1 + 1) N); try lia; rewrite ?IH by lia; done. }
    intros i Hi. apply (Hgen (Z.to_nat N)); lia.
Qed.

(** Setting a slot changes that slot and no other, on any page, corrupt or not; afterwards the
    root promises at least the value.  A heap stays a heap, and then a change is reported exactly
    if the slot had another value. *)
Lemma fsm_set_avail_correct p slot value :
  page_ok (fp_nodes p) → 0 ≤ slot < Leaf → is_u8 value →
  ∃ changed p', fsm_set_avail BLCKSZ p slot value = Ok (changed, p') ∧ page_ok (fp_nodes p') ∧
    (∀ j, 0 ≤ j < Leaf → fsm_get_avail BLCKSZ p' j =
       if decide (j = slot) then Ok value else fsm_get_avail BLCKSZ p j) ∧
    (∃ root, fsm_get_max_avail BLCKSZ p' = Ok root ∧ value ≤ root) ∧
    (changed = false → p' = p) ∧
    (heap (fp_nodes p) → heap (fp_nodes p') ∧ (changed = true ↔ slot_value p slot ≠ value)).
Proof.
  intros Hok Hslot Hv. pose proof page_sizes as (HL & HN & HLf & Hp).
  destruct (set_avail_spec p slot value Hok Hslot Hv) as (b & p' & Hr & Hok' & _ & Hs & Hroot & Hb & Hh).
  exists b, p'. split_and!; try done.
  - intros j Hj. unfold fsm_get_avail. rewrite !get_node_ok by lia. rewrite Hs by done. by case_decide.
  - exists (val (fp_nodes p') 0). unfold fsm_get_max_avail. rewrite get_node_ok by lia. done.
Qed.

(** C37: On a heap the search needs no restart.  It returns -1 and leaves the page alone if no slot
    is large enough; else it returns the next suitable slot at or to the right of the hint, or,
    where there is none up to the end of the page, the first suitable one, and moves the hint to
    it or behind it.  A hint that is no slot counts as 0. *)
Theorem fsm_search_first fuel relock p minvalue advancenext locked :
  page_ok (fp_nodes p) → heap (fp_nodes p) → is_u8 minvalue →
  ∃ slot p', fsm_search_avail BLCKSZ fuel relock p minvalue advancenext locked = Ok (slot, p') ∧
    fp_nodes p' = fp_nodes p ∧
    ((∀ j, 0 ≤ j < Leaf → slot_value p j < minvalue) ∧ slot = -1 ∧ p' = p ∨
     first_from (fp_nodes p) minvalue (start_slot p) slot ∧
     fp_next_slot p' = slot + (if advancenext then 1 else 0)).
Proof.
  intros Hok Hh Hm. pose proof page_sizes as (HL & HN & HLf & Hp).
  destruct (search_pass_spec p minvalue advancenext Hok Hm) as (r & Hr & Hres).
  destruct r as [[slot p']|]; [|done]. destruct Hres as [Hn Hres].
  exists slot, p'. destruct fuel; cbn [fsm_search_avail]; rewrite Hr; cbn [mbind result_bind];
    (split_and!; [done|done|]);
    (destruct Hres as [(-> & -> & Hlt)|(Hs & Hnext & _ & Hfirst)]; [left|right; split; [by apply Hfirst|done]]);
    (split; [|done]); intros j Hj; pose proof (heap_root (fp_nodes p) (L + j) Hok Hh ltac:(lia));
    unfold slot_value; lia.
Qed.

(** On a page of any content, torn by a crash or changed by others while the lock is exchanged,
    the search ends after at most one rebuild, never reads outside the page, and answers with a
    slot that has enough space or with -1; slots have the values they had in the page or in the
    page found under the new lock. *)
Lemma fsm_search_any_page relock p minvalue advancenext locked :
  page_ok (fp_nodes p) → page_ok (fp_nodes (relock p)) → is_u8 minvalue →
  ∃ slot p', fsm_search_avail BLCKSZ 1 relock p minvalue advancenext locked = Ok (slot, p') ∧
    page_ok (fp_nodes p') ∧
    (slot = -1 ∨ 0 ≤ slot < Leaf ∧ minvalue ≤ slot_value p' slot) ∧
    ((∀ j, 0 ≤ j < Leaf → slot_value p' j = slot_value p j) ∨
     locked = false ∧ (∀ j, 0 ≤ j < Leaf → slot_value p' j = slot_value (relock p) j)).
Proof.
  intros Hok Hokr Hm. pose proof page_sizes as (HL & HN & HLf & Hp).
  assert (Hend : ∀ p1 slot p', page_ok (fp_nodes p1) → pass_result p1 minvalue advancenext slot p' →
    page_ok (fp_nodes p') ∧ (slot = -1 ∨ 0 ≤ slot < Leaf ∧ minvalue ≤ slot_value p' slot) ∧
    ∀ j, slot_value p' j = slot_value p1 j).
  { intros p1 slot p' Hok1 [Hn Hr]. unfold slot_value. rewrite Hn. split_and!; [done| |done].
    destruct Hr as [(-> & _)|([Hs Hv] & _)]; auto. }
  cbn [fsm_search_avail]. destruct (search_pass_spec p minvalue advancenext Hok Hm) as (r & -> & Hres).
  cbn [mbind result_bind]. destruct r as [[slot p']|].
  { exists slot, p'. destruct (Hend p slot p' Hok Hres) as (H1 & H2 & H3). split_and!; auto. }
  set (p1 := if locked then p else relock p).
  assert (Hok1 : page_ok (fp_nodes p1)) by (subst p1; by destruct locked).
  destruct (rebuild_page_spec p1 Hok1) as (c & p2 & -> & Hok2 & Hh2 & Hs2 & _ & _). cbn [mbind result_bind].
  destruct (search_pass_spec p2 minvalue advancenext Hok2 Hm) as (r & -> & Hres2).
  cbn [mbind result_bind]. destruct r as [[slot p']|]; [|done].
  exists slot, p'. destruct (Hend p2 slot p' Hok2 Hres2) as (H1 & H2 & H3). split_and!; auto.
  assert (Hv : ∀ j, 0 ≤ j < Leaf → slot_value p' j = slot_value p1 j).
  { intros j Hj. rewrite H3. apply Hs2. lia. }
  subst p1. destruct locked; auto.
Qed.

(** Truncation sets every slot from [nslots] on to zero and no other, reports a change exactly
    if one of them was not zero, and keeps the heap. *)
Lemma fsm_truncate_correct p nslots :
  page_ok (fp_nodes p) → heap (fp_nodes p) → 0 ≤ nslots < Leaf →
  ∃ changed p', fsm_truncate_avail BLCKSZ p nslots = Ok (changed, p') ∧
    page_ok (fp_nodes p') ∧ heap (fp_nodes p') ∧
    (∀ j, 0 ≤ j < Leaf → slot_value p' j = if decide (nslots ≤ j) then 0 else slot_value p j) ∧
    (changed = true ↔ ∃ j, nslots ≤ j < Leaf ∧ slot_value p j ≠ 0).
Proof.
  intros Hok Hh Hn. pose proof page_sizes as (HL & HN & HLf & Hp). unfold fsm_truncate_avail.
  destruct (clear_leaves_spec (Z.to_nat (N - (L + nslots))) (L + nslots) (fp_nodes p) false)
    as (c & nodes & -> & Hok1 & Hv & Hc); [done|lia|lia|]. cbn [mbind result_bind orb].
  assert (Hslots : ∀ nodes', same_slots nodes nodes' → ∀ j, 0 ≤ j < Leaf →
    val nodes' (L + j) = if decide (nslots ≤ j) then 0 else slot_value p j).
  { intros nodes' Hs j Hj. rewrite Hs, Hv by lia. unfold slot_value. repeat case_decide; (done || lia). }
  assert (Hch : c = true ↔ ∃ j, nslots ≤ j < Leaf ∧ slot_value p j ≠ 0).
  { rewrite <- not_false_iff_true, Hc. split.
    - intros Hne. destruct (decide (Exists (λ j, slot_value p j ≠ 0) (seqZ nslots (Leaf - nslots)))) as [He|He].
      + apply Exists_exists in He as (j & Hj & Hne'). apply elem_of_seqZ in Hj. exists j. split; [lia|done].
      + exfalso. apply Hne. apply nodes_ext; [done|done|]. intros i Hi. rewrite Hv by lia. case_decide; [|done].
        rewrite <- Forall_Exists_neg, Forall_forall in He. specialize (He (i - L)).
        rewrite elem_of_seqZ in He. specialize (He ltac:(lia)). unfold slot_value in He.
        replace (L + (i - L)) with i in He by lia. symmetry. by apply dec_stable.
    - intros (j & Hj & Hne) ->. apply Hne. unfold slot_value. rewrite Hv by lia. by rewrite decide_True by lia. }
  destruct c.
  - destruct (rebuild_page_spec (mkFSMPage (fp_next_slot p) nodes)) as (b & p' & -> & Hok' & Hh' & Hs' & _ & _); [done|].
    cbn [mbind result_bind]. exists true, p'. split_and!; try done. by apply Hslots.
  - pose proof (proj1 Hc eq_refl) as E. subst nodes. exists false, p.
    split_and!; try done; [by destruct p|by apply (Hslots (fp_nodes p))].
Qed.

(** The two conditions on pages by computation. *)
Definition heapb nodes : bool := forallb (λ i, val nodes i =? cmax nodes i) (seqZ 0 L).

Lemma heapb_heap nodes : heapb nodes = true → heap nodes.
Proof.
  unfold heapb. rewrite forallb_forall. intros Hb i Hi _. apply Z.eqb_eq, Hb, list_elem_of_In, elem_of_seqZ. lia.
Qed.
End Tree.

(** ** Witnesses: a page of 64 bytes with five slots *)
Module FsmExample.
(** Slot 1 holds 9, slot 3 holds 7; the hint is 2. *)
Definition page : FSMPageData := mkFSMPage 2
  [9; 9; 0; 9; 0; 0; 0; 9; 0; 0; 0; 0; 0; 0; 0; 9; 7; 0; 0; 0; 0; 0; 0; 0; 0; 0; 0; 0; 0; 0; 0; 0; 9; 0; 7; 0].
(** The same slots under a root that promises too much. *)
Definition torn : FSMPageData := mkFSMPage 2 (<[0%nat := 200]> (fp_nodes page)).

Lemma page_is_ok : page_ok 5 (fp_nodes page).
Proof. split; [done|]. by apply (bool_decide_unpack _); vm_compute. Qed.
Lemma torn_is_ok : page_ok 5 (fp_nodes torn).
Proof. split; [done|]. by apply (bool_decide_unpack _); vm_compute. Qed.
Lemma page_is_heap : heap 5 (fp_nodes page).
Proof. apply heapb_heap. by vm_compute. Qed.
End FsmExample.

Lemma fsm_search_first_witness :
  ∃ slot p', fsm_search_avail 64 0 id FsmExample.page 5 true false = Ok (slot, p') ∧ slot = 3 ∧
    (slot = -1 ∨ first_from 5 (fp_nodes FsmExample.page) 5 2 slot).
Proof.
  destruct (fsm_search_first 5 ltac:(lia) 0 id FsmExample.page 5 true false FsmExample.page_is_ok
    FsmExample.page_is_heap ltac:(unfold is_u8; lia)) as (slot & p' & H1 & _ & H3).
  exists slot, p'. split; [exact H1|]. split.
  - vm_compute in H1. congruence.
  - destruct H3 as [(_ & H3 & _)|[H3 _]]; [left; exact H3|right; exact H3].
Defined.

