(* ===== verification/BinaryHeap.v ===== *)
(** * The binary heap ([lib/binaryheap.c])

    An array-based heap with a caller's comparison function.  The comparison is the interface
    [HeapCompare] with the laws [HeapCompareLaws] of a total preorder, as [binaryheap.h] asks of
    it.  The theorems at the end show that the routines implement a priority queue on the multiset
    of nodes. *)
From S2P Require Import Prelude.

Class HeapCompare (A : Type) := bh_compare : A → A → Z.

(** [compare a b] is negative, zero or positive as [a] is below, level with or above [b]. *)
Class HeapCompareLaws (A : Type) `{HeapCompare A} := {
  compare_sym : ∀ a b, Z.sgn (bh_compare a b) = - Z.sgn (bh_compare b a);
  compare_trans : ∀ a b c, bh_compare a b ≤ 0 → bh_compare b c ≤ 0 → bh_compare a c ≤ 0;
}.

Section Definitions.
Context {A : Type} `{HeapCompare A} `{Inhabited A}.

(** [bh_nodes] is the whole array of [bh_space] cells; the first [bh_size] are in use. *)
Record binaryheap := mkHeap {
  bh_size : Z;
  bh_space : Z;
  bh_has_heap_property : bool;
  bh_nodes : list A;
}.

(** A new heap on allocated memory with some contents. *)
Definition binaryheap_allocate (capacity : Z) (memory : list A) : binaryheap :=
  mkHeap 0 capacity true memory.

Definition binaryheap_reset (heap : binaryheap) : binaryheap :=
  mkHeap 0 (bh_space heap) true (bh_nodes heap).

Definition left_offset (i : Z) : Z := 2 * i + 1.
Definition right_offset (i : Z) : Z := 2 * i + 2.
Definition parent_offset (i : Z) : Z := Z.quot (i - 1) 2.

Definition get (nodes : list A) (i : Z) : result A :=
  if (0 <=? i) && (i <? Z.of_nat (length nodes)) then Ok (nodes !!! Z.to_nat i)
  else Err "access outside the heap".

Definition put (nodes : list A) (i : Z) (d : A) : result (list A) :=
  if (0 <=? i) && (i <? Z.of_nat (length nodes)) then Ok (<[Z.to_nat i := d]> nodes)
  else Err "access outside the heap".

Definition swap_nodes (nodes : list A) (a b : Z) : result (list A) :=
  x ← get nodes a;
  y ← get nodes b;
  nodes ← put nodes a y;
  put nodes b x.

Fixpoint sift_up (fuel : nat) (nodes : list A) (node_off : Z) : result (list A) :=
  if node_off =? 0 then Ok nodes
  else
    let parent_off := parent_offset node_off in
    x ← get nodes node_off;
    y ← get nodes parent_off;
    if bh_compare x y <=? 0 then Ok nodes
    else
      match fuel with
      | O => Err "sift_up: out of fuel"
      | S fuel => nodes ← swap_nodes nodes node_off parent_off; sift_up fuel nodes parent_off
      end.

(** [off < bh_size && compare(nodes[i], nodes[off]) < 0]. *)
Definition below_child (nodes : list A) (size i off : Z) : result bool :=
  if off <? size then x ← get nodes i; y ← get nodes off; Ok (bh_compare x y <? 0) else Ok false.

(** The child to swap with: the larger of the children above the node, 0 if there is none. *)
Definition swap_child (nodes : list A) (size node_off : Z) : result Z :=
  let left_off := left_offset node_off in
  let right_off := right_offset node_off in
  l ← below_child nodes size node_off left_off;
  let swap_off := if l : bool then left_off else 0 in
  r ← below_child nodes size node_off right_off;
  if r : bool then
    if swap_off =? 0 then Ok right_off
    else
      x ← get nodes left_off;
      y ← get nodes right_off;
      Ok (if bh_compare x y <? 0 then right_off else swap_off)
  else Ok swap_off.

Fixpoint sift_down (fuel : nat) (nodes : list A) (size node_off : Z) : result (list A) :=
  swap_off ← swap_child nodes size node_off;
  if swap_off =? 0 then Ok nodes
  else
    match fuel with
    | O => Err "sift_down: out of fuel"
    | S fuel => nodes ← swap_nodes nodes swap_off node_off; sift_down fuel nodes size swap_off
    end.

Definition binaryheap_add_unordered (heap : binaryheap) (d : A) : result binaryheap :=
  if bh_space heap <=? bh_size heap then Err "out of binary heap slots"
  else
    nodes ← put (bh_nodes heap) (bh_size heap) d;
    Ok (mkHeap (bh_size heap + 1) (bh_space heap) false nodes).

(** [for (i = n - 1; i >= 0; i--) sift_down(heap, i);] *)
Fixpoint build_loop (n : nat) (nodes : list A) (size : Z) : result (list A) :=
  match n with
  | O => Ok nodes
  | S n => nodes ← sift_down (Z.to_nat size) nodes size (Z.of_nat n); build_loop n nodes size
  end.

Definition binaryheap_build (heap : binaryheap) : result binaryheap :=
  nodes ← build_loop (Z.to_nat (parent_offset (bh_size heap - 1) + 1)) (bh_nodes heap) (bh_size heap);
  Ok (mkHeap (bh_size heap) (bh_space heap) true nodes).

Definition binaryheap_add (heap : binaryheap) (d : A) : result binaryheap :=
  if bh_space heap <=? bh_size heap then Err "out of binary heap slots"
  else
    nodes ← put (bh_nodes heap) (bh_size heap) d;
    nodes ← sift_up (Z.to_nat (bh_size heap)) nodes (bh_size heap);
    Ok (mkHeap (bh_size heap + 1) (bh_space heap) (bh_has_heap_property heap) nodes).

Definition binaryheap_empty (heap : binaryheap) : bool := bh_size heap =? 0.

Definition binaryheap_first (heap : binaryheap) : result A := get (bh_nodes heap) 0.

Definition binaryheap_remove_first (heap : binaryheap) : result (A * binaryheap) :=
  if bh_size heap =? 1 then
    d ← get (bh_nodes heap) 0;
    Ok (d, mkHeap (bh_size heap - 1) (bh_space heap) (bh_has_heap_property heap) (bh_nodes heap))
  else
    nodes ← swap_nodes (bh_nodes heap) 0 (bh_size heap - 1);
    let size := bh_size heap - 1 in
    nodes ← sift_down (Z.to_nat size) nodes size 0;
    d ← get nodes size;
    Ok (d, mkHeap size (bh_space heap) (bh_has_heap_property heap) nodes).

Definition binaryheap_replace_first (heap : binaryheap) (d : A) : result binaryheap :=
  nodes ← put (bh_nodes heap) 0 d;
  nodes ← (if 1 <? bh_size heap
           then sift_down (Z.to_nat (bh_size heap)) nodes (bh_size heap) 0 else Ok nodes);
  Ok (mkHeap (bh_size heap) (bh_space heap) (bh_has_heap_property heap) nodes).
End Definitions.
Arguments binaryheap A : clear implicits.

(** ** Order, positions and permutations *)

Section Facts.
Context {A : Type} `{HeapCompareLaws A} `{Inhabited A}.
Implicit Types (nodes : list A) (i j k size : Z).

Definition le (x y : A) : Prop := bh_compare x y ≤ 0.

Lemma le_refl x : le x x.
Proof. unfold le. pose proof (compare_sym x x). lia. Qed.

Lemma le_trans x y z : le x y → le y z → le x z.
Proof. apply compare_trans. Qed.

Lemma le_flip x y : 0 ≤ bh_compare x y → le y x.
Proof. unfold le. pose proof (compare_sym x y). lia. Qed.

Definition at_ nodes i : A := nodes !!! Z.to_nat i.
Definition len nodes : Z := Z.of_nat (length nodes).

Lemma get_ok nodes i : 0 ≤ i < len nodes → get nodes i = Ok (at_ nodes i).
Proof. intros Hi. unfold get. by rewrite (proj2 (Z.leb_le 0 i)), (proj2 (Z.ltb_lt i _)) by (unfold len in *; lia). Qed.

Lemma put_ok nodes i d : 0 ≤ i < len nodes → put nodes i d = Ok (<[Z.to_nat i := d]> nodes).
Proof. intros Hi. unfold put. by rewrite (proj2 (Z.leb_le 0 i)), (proj2 (Z.ltb_lt i _)) by (unfold len in *; lia). Qed.

Lemma at_insert nodes i j d :
  0 ≤ i < len nodes → 0 ≤ j → at_ (<[Z.to_nat i := d]> nodes) j = if decide (i = j) then d else at_ nodes j.
Proof.
  intros Hi Hj. unfold at_, len in *. case_decide; subst.
  - apply list_lookup_total_insert_eq. lia.
  - apply list_lookup_total_insert_ne. lia.
Qed.

Lemma lookup_at nodes i : 0 ≤ i < len nodes → nodes !! Z.to_nat i = Some (at_ nodes i).
Proof. intros Hi. unfold at_, len in *. apply list_lookup_lookup_total_lt. lia. Qed.

(** [nodes'] has the first [size] nodes in another order and the rest as it was. *)
Definition shuffles size nodes nodes' : Prop :=
  len nodes' = len nodes ∧ take (Z.to_nat size) nodes' ≡ₚ take (Z.to_nat size) nodes ∧
  drop (Z.to_nat size) nodes' = drop (Z.to_nat size) nodes.

Lemma shuffles_refl size nodes : shuffles size nodes nodes.
Proof. done. Qed.

Lemma shuffles_trans size nodes1 nodes2 nodes3 :
  shuffles size nodes1 nodes2 → shuffles size nodes2 nodes3 → shuffles size nodes1 nodes3.
Proof. intros (? & P1 & ?) (? & P2 & ?). split_and!; [congruence|by rewrite P2|congruence]. Qed.

Lemma swap_nodes_spec nodes size a b :
  0 ≤ a < size → 0 ≤ b < size → size ≤ len nodes →
  ∃ nodes', swap_nodes nodes a b = Ok nodes' ∧ shuffles size nodes nodes' ∧
    ∀ i, 0 ≤ i → at_ nodes' i = if decide (i = b) then at_ nodes a
                                else if decide (i = a) then at_ nodes b else at_ nodes i.
Proof.
  intros Ha Hb Hs. unfold swap_nodes.
  assert (Hl : ∀ i d, len (<[Z.to_nat i := d]> nodes) = len nodes) by (intros; unfold len; by rewrite length_insert).
  rewrite !get_ok by lia. cbn [mbind result_bind]. rewrite put_ok by lia. cbn [mbind result_bind].
  rewrite put_ok by (rewrite Hl; lia). eexists. split; [done|]. unfold shuffles. split_and!.
  - unfold len. by rewrite !length_insert.
  - rewrite !take_insert_lt by lia. apply Permutation_insert_swap; rewrite lookup_take_lt by lia; apply lookup_at; lia.
  - by rewrite !drop_insert_lt by lia.
  - intros i Hi. rewrite at_insert by (rewrite ?Hl; lia). destruct (decide (b = i)), (decide (i = b)); try lia; [done|].
    rewrite at_insert by lia. destruct (decide (a = i)), (decide (i = a)); try lia; done.
Qed.

(** ** The heap property *)

Definition child i j : Prop := j = 2 * i + 1 ∨ j = 2 * i + 2.

(** Every node is at most its parent, for parents from [m] on. *)
Definition heap_from m size nodes : Prop :=
  ∀ i j, m ≤ i → j < size → child i j → le (at_ nodes j) (at_ nodes i).

(** The root is a largest node. *)
Lemma heap_top size nodes i : heap_from 0 size nodes → 0 ≤ i < size → le (at_ nodes i) (at_ nodes 0).
Proof.
  intros Hh. assert (Hgen : ∀ n : nat, ∀ i, 0 ≤ i < size → i ≤ Z.of_nat n → le (at_ nodes i) (at_ nodes 0)).
  { induction n as [|n IH]; intros j Hj Hn; (destruct (decide (j = 0)) as [->|]; [apply le_refl|]); [lia|].
    apply (le_trans _ (at_ nodes ((j - 1) / 2))).
    - apply Hh; [apply Z.div_pos; lia|lia|]. unfold child. pose proof (Z.div_mod (j - 1) 2 ltac:(lia)).
      pose proof (Z.mod_pos_bound (j - 1) 2 ltac:(lia)). lia.
    - pose proof (Z.div_lt_upper_bound (j - 1) 2 j ltac:(lia) ltac:(lia)). pose proof (Z.div_pos (j - 1) 2 ltac:(lia) ltac:(lia)).
      apply IH; lia. }
  intros Hi. apply (Hgen (Z.to_nat i)); lia.
Qed.

Lemma parent_child k : 1 ≤ k → 0 ≤ parent_offset k < k ∧ child (parent_offset k) k.
Proof.
  intros Hk. unfold parent_offset, child. rewrite Z.quot_div_nonneg by lia.
  pose proof (Z.div_mod (k - 1) 2 ltac:(lia)). pose proof (Z.mod_pos_bound (k - 1) 2 ltac:(lia)). lia.
Qed.

(** All but node [k] are at most their parents; its children are at most its parent. *)
Definition up_inv size nodes k : Prop :=
  (∀ i j, 0 ≤ i → j < size → child i j → j ≠ k → le (at_ nodes j) (at_ nodes i)) ∧
  (∀ i j, 0 ≤ i → j < size → child i k → child k j → le (at_ nodes j) (at_ nodes i)).

Lemma sift_up_spec fuel nodes size k :
  0 ≤ k < size → size ≤ len nodes → k ≤ Z.of_nat fuel → up_inv size nodes k →
  ∃ nodes', sift_up fuel nodes k = Ok nodes' ∧ shuffles size nodes nodes' ∧ heap_from 0 size nodes'.
Proof.
  revert nodes k. induction fuel as [|fuel IH]; intros nodes k Hk Hs Hf [Hi1 Hi2].
  all: cbn [sift_up]; destruct (Z.eqb_spec k 0) as [->|Hk0];
    [exists nodes; split_and!; [done|apply shuffles_refl|]; intros i j Hi Hj Hc; apply Hi1; unfold child in *; (done || lia)|].
  { lia. }
  destruct (parent_child k ltac:(lia)) as [Hp Hpc]. set (p := parent_offset k) in *.
  rewrite !get_ok by lia. cbn [mbind result_bind].
  destruct (Z.leb_spec (bh_compare (at_ nodes k) (at_ nodes p)) 0) as [Hle|Hgt].
  { exists nodes. split_and!; [done|apply shuffles_refl|]. intros i j Hi Hj Hc.
    destruct (decide (j = k)) as [->|]; [|by apply Hi1]. replace i with p by (unfold child in *; lia). done. }
  assert (Hpk : le (at_ nodes p) (at_ nodes k)) by (apply le_flip; lia).
  destruct (swap_nodes_spec nodes size k p) as (nodes1 & -> & Hsh & Hat); [lia..|]. cbn [mbind result_bind].
  destruct (IH nodes1 p) as (nodes' & Hr & Hsh' & Hh'); [lia|destruct Hsh; lia|lia| |].
  - split.
    + intros i j Hi Hj Hc Hne. rewrite !Hat by (unfold child in *; lia).
      destruct (decide (j = k)) as [->|Hjk].
      * replace i with p by (unfold child in *; lia). by rewrite decide_False, decide_True by lia.
      * rewrite (decide_False (P := j = p)) by done.
        destruct (decide (i = p)) as [->|]; [eapply le_trans; [|exact Hpk]; by apply Hi1|].
        destruct (decide (i = k)) as [->|]; [apply Hi2; (done || lia)|by apply Hi1].
    + intros i j Hi Hj Hc Hc'. rewrite !Hat by (unfold child in *; lia).
      rewrite !(decide_False (P := i = _)) by (unfold child in *; lia).
      rewrite (decide_False (P := j = p)) by (unfold child in *; lia).
      assert (Hpi : le (at_ nodes p) (at_ nodes i)) by (apply Hi1; (done || lia)).
      destruct (decide (j = k)); [done|]. eapply le_trans; [|exact Hpi]. apply Hi1; (done || lia).
  - exists nodes'. split_and!; [done|by eapply shuffles_trans|done].
Qed.

(** ** Sifting down *)

Lemma below_child_spec nodes size k j :
  0 ≤ k < size → 0 ≤ j → size ≤ len nodes →
  ∃ b, below_child nodes size k j = Ok b ∧
    (b = true → j < size ∧ bh_compare (at_ nodes k) (at_ nodes j) < 0) ∧
    (b = false → j < size → le (at_ nodes j) (at_ nodes k)).
Proof.
  intros Hk Hj Hs. unfold below_child. destruct (Z.ltb_spec j size).
  - rewrite !get_ok by lia. cbn [mbind result_bind]. eexists; split; [done|].
    destruct (Z.ltb_spec (bh_compare (at_ nodes k) (at_ nodes j)) 0); split; try done; intros; by apply le_flip.
  - exists false. split; [done|]. split; [done|lia].
Qed.

Lemma swap_child_spec nodes size k :
  0 ≤ k < size → size ≤ len nodes →
  ∃ c, swap_child nodes size k = Ok c ∧
    (c = 0 ∧ (∀ j, j < size → child k j → le (at_ nodes j) (at_ nodes k)) ∨
     child k c ∧ c < size ∧ le (at_ nodes k) (at_ nodes c) ∧
     ∀ j, j < size → child k j → le (at_ nodes j) (at_ nodes c)).
Proof.
  intros Hk Hs. unfold swap_child, left_offset, right_offset.
  destruct (below_child_spec nodes size k (2 * k + 1)) as (l & -> & Hl1 & Hl0); [lia..|].
  destruct (below_child_spec nodes size k (2 * k + 2)) as (r & Hr & Hr1 & Hr0); [lia..|].
  cbn [mbind result_bind]. rewrite Hr. cbn [mbind result_bind].
  assert (Hwin : ∀ c d, child k c → c < size → bh_compare (at_ nodes k) (at_ nodes c) < 0 →
    (∀ j, child k j → j = c ∨ j = d) → (d < size → le (at_ nodes d) (at_ nodes c)) →
    c = 0 ∧ (∀ j, j < size → child k j → le (at_ nodes j) (at_ nodes k)) ∨
    child k c ∧ c < size ∧ le (at_ nodes k) (at_ nodes c) ∧
    ∀ j, j < size → child k j → le (at_ nodes j) (at_ nodes c)).
  { intros c d Hc Hcs Hlt Hcd Hd. right. split_and!; [done|done|unfold le; lia|].
    intros j Hj Hcj. destruct (Hcd j Hcj) as [->| ->]; [apply le_refl|by apply Hd]. }
  assert (Hlow : ∀ c d, d < size → le (at_ nodes d) (at_ nodes k) →
    bh_compare (at_ nodes k) (at_ nodes c) < 0 → le (at_ nodes d) (at_ nodes c)).
  { intros c d Hd Hdk Hkc. eapply le_trans; [done|]. unfold le. lia. }
  destruct l, r; cbv beta iota.
  - destruct (Hl1 eq_refl), (Hr1 eq_refl). destruct (Z.eqb_spec (2 * k + 1) 0); [lia|].
    rewrite !get_ok by lia. cbn [mbind result_bind]. eexists; split; [done|].
    destruct (Z.ltb_spec (bh_compare (at_ nodes (2 * k + 1)) (at_ nodes (2 * k + 2))) 0).
    + apply (Hwin _ (2 * k + 1)); try done; unfold child, le; intros; lia.
    + apply (Hwin _ (2 * k + 2)); try done; try (unfold child; intros; lia). intros _. by apply le_flip.
  - destruct (Hl1 eq_refl). eexists; split; [done|].
    apply (Hwin _ (2 * k + 2)); try done; try (unfold child; intros; lia). intros Hd. apply Hlow; auto.
  - destruct (Hr1 eq_refl). rewrite Z.eqb_refl. eexists; split; [done|].
    apply (Hwin _ (2 * k + 1)); try done; try (unfold child; intros; lia). intros Hd. apply Hlow; auto.
  - eexists; split; [done|]. left. split; [done|]. intros j Hj [->| ->]; auto.
Qed.

(** Parents from [m] on are at least their children, except [k]; the children of [k] are at most
    its parent. *)
Definition down_inv m size nodes k : Prop :=
  (∀ i j, m ≤ i → j < size → child i j → i ≠ k → le (at_ nodes j) (at_ nodes i)) ∧
  (∀ i j, m ≤ i → j < size → child i k → child k j → le (at_ nodes j) (at_ nodes i)).

Lemma sift_down_spec fuel m nodes size k :
  0 ≤ m ≤ k → k < size → size ≤ len nodes → size - k ≤ Z.of_nat fuel → down_inv m size nodes k →
  ∃ nodes', sift_down fuel nodes size k = Ok nodes' ∧ shuffles size nodes nodes' ∧ heap_from m size nodes'.
Proof.
  revert nodes k. induction fuel as [|fuel IH]; intros nodes k Hk Hks Hs Hf [Hi1 Hi2]; [lia|].
  cbn [sift_down]. destruct (swap_child_spec nodes size k) as (c & -> & Hc); [lia..|]. cbn [mbind result_bind].
  destruct Hc as [(-> & Hle)|(Hc & Hcs & Hkc & Hmax)].
  { exists nodes. split_and!; [done|apply shuffles_refl|]. intros i j Hi Hj Hcij.
    destruct (decide (i = k)) as [->|]; [by apply Hle|by apply Hi1]. }
  destruct (Z.eqb_spec c 0); [unfold child in Hc; lia|].
  assert (Hck : k < c) by (unfold child in Hc; lia).
  destruct (swap_nodes_spec nodes size c k) as (nodes1 & -> & Hsh & Hat); [lia..|]. cbn [mbind result_bind].
  destruct (IH nodes1 c) as (nodes' & Hr & Hsh' & Hh'); [lia|lia|destruct Hsh; lia|lia| |].
  - split.
    + intros i j Hi Hj Hcij Hne. rewrite !Hat by (unfold child in *; lia).
      destruct (decide (i = k)) as [->|Hik].
      * rewrite (decide_False (P := j = k)) by (unfold child in *; lia).
        destruct (decide (j = c)) as [->|]; [done|by apply Hmax].
      * rewrite (decide_False (P := i = c)) by done.
        rewrite (decide_False (P := j = c)) by (unfold child in *; lia).
        destruct (decide (j = k)) as [->|]; [by apply Hi2|by apply Hi1].
    + intros i j Hi Hj Hcic Hccj. replace i with k by (unfold child in *; lia).
      rewrite !Hat by (unfold child in *; lia). rewrite (decide_True (P := k = k)) by done.
      rewrite !(decide_False (P := j = _)) by (unfold child in *; lia). apply Hi1; (done || lia).
  - exists nodes'. split_and!; [done|by eapply shuffles_trans|done].
Qed.

Lemma build_loop_spec n nodes size :
  0 ≤ size ≤ len nodes → Z.of_nat n ≤ size → heap_from (Z.of_nat n) size nodes →
  ∃ nodes', build_loop n nodes size = Ok nodes' ∧ shuffles size nodes nodes' ∧ heap_from 0 size nodes'.
Proof.
  revert nodes. induction n as [|n IH]; intros nodes Hs Hn Hh; cbn [build_loop].
  { exists nodes. split_and!; [done|apply shuffles_refl|done]. }
  destruct (sift_down_spec (Z.to_nat size) (Z.of_nat n) nodes size (Z.of_nat n)) as (nodes1 & -> & Hsh & Hh1); [lia..| |].
  { split; [intros i j Hi Hj Hc Hne; apply Hh; (done || lia)|]. intros i j Hi Hj Hc. unfold child in Hc. lia. }
  cbn [mbind result_bind].
  destruct (IH nodes1) as (nodes' & -> & Hsh' & Hh'); [destruct Hsh; lia|lia|done|].
  exists nodes'. split_and!; [done|by eapply shuffles_trans|done].
Qed.

(** ** The heap as a priority queue *)

Record heap_ok (h : binaryheap A) : Prop := {
  ho_size : 0 ≤ bh_size h ≤ bh_space h;
  ho_space : len (bh_nodes h) = bh_space h;
}.

(** The nodes in use. *)
Definition contents (h : binaryheap A) : list A := take (Z.to_nat (bh_size h)) (bh_nodes h).

Definition pq_ok (h : binaryheap A) : Prop := heap_ok h ∧ heap_from 0 (bh_size h) (bh_nodes h).

Lemma elem_of_contents h x :
  heap_ok h → x ∈ contents h ↔ ∃ i, 0 ≤ i < bh_size h ∧ x = at_ (bh_nodes h) i.
Proof.
  intros [Hs Hsp]. unfold contents. rewrite elem_of_take. split.
  - intros (i & Hi & Hlt). exists (Z.of_nat i). split; [lia|]. unfold at_. rewrite Nat2Z.id.
    symmetry. by apply list_lookup_total_correct.
  - intros (i & Hi & ->). exists (Z.to_nat i). split; [apply lookup_at; lia|lia].
Qed.

Lemma contents_snoc nodes size : 0 ≤ size < len nodes →
  take (Z.to_nat (size + 1)) nodes = take (Z.to_nat size) nodes ++ [at_ nodes size].
Proof.
  intros Hs. replace (Z.to_nat (size + 1)) with (S (Z.to_nat size)) by lia.
  apply take_S_r. apply lookup_at. lia.
Qed.

Lemma top_is_largest h x : pq_ok h → x ∈ contents h → le x (at_ (bh_nodes h) 0).
Proof. intros [Hok Hh] Hx. apply elem_of_contents in Hx as (i & Hi & ->); [|done]. by eapply heap_top. Qed.

Lemma at_drop size nodes nodes' i :
  drop (Z.to_nat size) nodes' = drop (Z.to_nat size) nodes → size ≤ i → at_ nodes' i = at_ nodes i.
Proof.
  intros Hd Hi. unfold at_. rewrite !list_lookup_total_alt. f_equal.
  replace (Z.to_nat i) with (Z.to_nat size + (Z.to_nat i - Z.to_nat size))%nat by lia.
  by rewrite <- !lookup_drop, Hd.
Qed.

Lemma heap_add_spec h d :
  pq_ok h → bh_size h < bh_space h →
  ∃ h', binaryheap_add h d = Ok h' ∧ pq_ok h' ∧ contents h' ≡ₚ d :: contents h.
Proof.
  intros [[Hs Hsp] Hh] Hlt. unfold binaryheap_add. rewrite (proj2 (Z.leb_gt _ _)) by lia.
  rewrite put_ok by lia. cbn [mbind result_bind].
  set (nodes1 := <[Z.to_nat (bh_size h) := d]> (bh_nodes h)).
  assert (Hl1 : len nodes1 = bh_space h) by (unfold nodes1, len; rewrite length_insert; exact Hsp).
  destruct (sift_up_spec (Z.to_nat (bh_size h)) nodes1 (bh_size h + 1) (bh_size h))
    as (nodes' & -> & (Hl & Hperm & _) & Hh'); [lia..| |].
  { split; [|intros i j Hi Hj _ Hc; unfold child in Hc; lia].
    intros i j Hi Hj Hc Hne. unfold nodes1. unfold child in Hc. rewrite !at_insert, !decide_False by lia.
    apply Hh; [lia|lia|done]. }
  cbn [mbind result_bind]. eexists; split; [done|]. split; [split; [split; simpl; lia|done]|].
  unfold contents; simpl. rewrite Hperm, contents_snoc by lia. unfold nodes1.
  rewrite take_insert_ge, at_insert, decide_True by lia. by rewrite <- Permutation_cons_append.
Qed.

Lemma remove_first_spec h :
  pq_ok h → 0 < bh_size h →
  ∃ h', binaryheap_remove_first h = Ok (at_ (bh_nodes h) 0, h') ∧ pq_ok h' ∧
    contents h ≡ₚ at_ (bh_nodes h) 0 :: contents h' ∧ bh_size h' = bh_size h - 1.
Proof.
  intros [[Hs Hsp] Hh] Hpos. unfold binaryheap_remove_first. destruct (Z.eqb_spec (bh_size h) 1) as [E|E].
  - rewrite get_ok by lia. cbn [mbind result_bind]. eexists; split; [done|]. simpl. split_and!; [|..|done].
    + split; [split; simpl; lia|]. intros i j Hi Hj Hc. simpl in *. unfold child in Hc. lia.
    + unfold contents; simpl. rewrite E. change 1 with (0 + 1). rewrite contents_snoc by lia. done.
  - destruct (swap_nodes_spec (bh_nodes h) (bh_size h) 0 (bh_size h - 1)) as (nodes1 & -> & (Hl1 & Hp1 & _) & Hat); [lia..|].
    cbn [mbind result_bind].
    destruct (sift_down_spec (Z.to_nat (bh_size h - 1)) 0 nodes1 (bh_size h - 1) 0)
      as (nodes2 & -> & (Hl2 & Hp2 & Hd2) & Hh2); [lia..| |].
    { split; [|intros i j Hi _ Hc; unfold child in Hc; lia].
      intros i j Hi Hj Hc Hne. unfold child in Hc. rewrite !Hat, !decide_False by lia. apply Hh; [lia|lia|done]. }
    cbn [mbind result_bind]. rewrite get_ok by lia. cbn [mbind result_bind].
    rewrite (at_drop _ _ _ _ Hd2), Hat, decide_True by lia.
    eexists; split; [done|]. simpl. split_and!; [split; [split; simpl; lia|done]| |done].
    unfold contents; simpl. rewrite <- Hp1.
    replace (bh_size h) with (bh_size h - 1 + 1) at 1 by lia. rewrite contents_snoc by lia.
    rewrite Hat, decide_True, Hp2 by lia. by rewrite <- Permutation_cons_append.
Qed.

Lemma replace_first_spec h d :
  pq_ok h → 0 < bh_size h →
  ∃ h' rest, binaryheap_replace_first h d = Ok h' ∧ pq_ok h' ∧
    contents h ≡ₚ at_ (bh_nodes h) 0 :: rest ∧ contents h' ≡ₚ d :: rest.
Proof.
  intros [[Hs Hsp] Hh] Hpos. unfold binaryheap_replace_first. rewrite put_ok by lia. cbn [mbind result_bind].
  set (nodes1 := <[Z.to_nat 0 := d]> (bh_nodes h)).
  assert (Hl1 : len nodes1 = bh_space h) by (unfold nodes1, len; rewrite length_insert; exact Hsp).
  assert (Hcont : ∃ rest, contents h = at_ (bh_nodes h) 0 :: rest ∧ take (Z.to_nat (bh_size h)) nodes1 = d :: rest).
  { unfold contents, nodes1, at_, len in *. destruct (bh_nodes h) as [|x t]; [simpl in Hsp; lia|].
    replace (Z.to_nat (bh_size h)) with (S (Z.to_nat (bh_size h - 1))) by lia. simpl. by eexists. }
  destruct Hcont as (rest & Hc0 & Hc1).
  assert (Hsift : ∃ nodes2, (if 1 <? bh_size h then sift_down (Z.to_nat (bh_size h)) nodes1 (bh_size h) 0 else Ok nodes1)
    = Ok nodes2 ∧ shuffles (bh_size h) nodes1 nodes2 ∧ heap_from 0 (bh_size h) nodes2).
  { destruct (Z.ltb_spec 1 (bh_size h)).
    - apply sift_down_spec; [lia..|]. split; [|intros i j Hi _ Hc; unfold child in Hc; lia].
      intros i j Hi Hj Hc Hne. unfold nodes1. unfold child in Hc. rewrite !at_insert, !decide_False by lia.
      apply Hh; [lia|lia|done].
    - exists nodes1. split_and!; [done|apply shuffles_refl|]. intros i j Hi Hj Hc. unfold child in Hc. lia. }
  destruct Hsift as (nodes2 & -> & (Hl2 & Hp2 & _) & Hh2). cbn [mbind result_bind].
  eexists _, rest. split_and!; [done|split; [split; simpl; lia|done]|by rewrite Hc0|].
  unfold contents; simpl. by rewrite Hp2, Hc1.
Qed.

Lemma heap_build_spec h :
  heap_ok h → ∃ h', binaryheap_build h = Ok h' ∧ pq_ok h' ∧ contents h' ≡ₚ contents h ∧
    bh_has_heap_property h' = true ∧ bh_size h' = bh_size h.
Proof.
  intros [Hs Hsp]. unfold binaryheap_build.
  assert (Hn : 0 ≤ parent_offset (bh_size h - 1) + 1 ≤ bh_size h ∧
               bh_size h ≤ 2 * (parent_offset (bh_size h - 1) + 1) + 1).
  { unfold parent_offset. destruct (decide (bh_size h = 0)) as [->|]; [split_and!; by vm_compute|].
    destruct (decide (bh_size h = 1)) as [->|]; [split_and!; by vm_compute|]. rewrite Z.quot_div_nonneg by lia.
    pose proof (Z.div_mod (bh_size h - 1 - 1) 2 ltac:(lia)).
    pose proof (Z.mod_pos_bound (bh_size h - 1 - 1) 2 ltac:(lia)). lia. }
  destruct (build_loop_spec (Z.to_nat (parent_offset (bh_size h - 1) + 1)) (bh_nodes h) (bh_size h))
    as (nodes' & -> & (Hl & Hp & _) & Hh); [lia|lia| |].
  { intros i j Hi Hj Hc. unfold child in Hc. lia. }
  cbn [mbind result_bind]. eexists; split; [done|]. split_and!; try done. split; [split; simpl; lia|done].
Qed.
End Facts.

(** ** Theorems *)

(** Fill a heap without order, and empty a heap from the top. *)
Fixpoint add_all_unordered {A} `{Inhabited A} (h : binaryheap A) (ds : list A) : result (binaryheap A) :=
  match ds with [] => Ok h | d :: ds => h ← binaryheap_add_unordered h d; add_all_unordered h ds end.

Fixpoint drain {A} `{HeapCompare A} `{Inhabited A} (n : nat) (h : binaryheap A) : result (list A) :=
  match n with
  | O => Ok []
  | S n =>
      if binaryheap_empty h then Ok []
      else '(d, h) ← binaryheap_remove_first h; ds ← drain n h; Ok (d :: ds)
  end.

Section Theorems.
Context {A : Type} `{HeapCompareLaws A} `{Inhabited A}.

(** C40: The heap implements a priority queue on the multiset of its nodes.  Adding fails exactly
    on a full heap and else adds the one node; the first node is a largest one; removing returns
    it and removes exactly it, replacing exchanges it for the new node.  Every operation keeps the
    heap property and stays inside the array. *)
Theorem binaryheap_priority_queue (h : binaryheap A) (d : A) :
  pq_ok h →
  (bh_space h ≤ bh_size h → binaryheap_add h d = Err "out of binary heap slots") ∧
  (bh_size h < bh_space h →
     ∃ h', binaryheap_add h d = Ok h' ∧ pq_ok h' ∧ contents h' ≡ₚ d :: contents h) ∧
  (0 < bh_size h →
     ∃ top h1 h2, binaryheap_first h = Ok top ∧ (∀ x, x ∈ contents h → le x top) ∧
       binaryheap_remove_first h = Ok (top, h1) ∧ pq_ok h1 ∧ contents h ≡ₚ top :: contents h1 ∧
       binaryheap_replace_first h d = Ok h2 ∧ pq_ok h2 ∧ contents h2 ≡ₚ d :: contents h1).
Proof.
  intros Hpq. split_and!.
  - intros Hfull. unfold binaryheap_add. by rewrite (proj2 (Z.leb_le _ _)) by lia.
  - by apply heap_add_spec.
  - intros Hpos. destruct (remove_first_spec h Hpq Hpos) as (h1 & Hr & Hok1 & Hc1 & _).
    destruct (replace_first_spec h d Hpq Hpos) as (h2 & rest & Hr2 & Hok2 & Hc2 & Hc2').
    exists (at_ (bh_nodes h) 0), h1, h2. split_and!; try done.
    + unfold binaryheap_first. apply get_ok. destruct Hpq as [[? ?] _]. lia.
    + intros x Hx. by apply top_is_largest.
    + rewrite Hc2'. f_equiv. apply (inj (at_ (bh_nodes h) 0 ::.)). by rewrite <- Hc1, <- Hc2.
Qed.

Lemma add_all_spec (h : binaryheap A) ds :
  heap_ok h → bh_size h + Z.of_nat (length ds) ≤ bh_space h →
  ∃ h', add_all_unordered h ds = Ok h' ∧ heap_ok h' ∧ contents h' = contents h ++ ds.
Proof.
  revert h. induction ds as [|d ds IH]; intros h [Hs Hsp] Hlen; cbn [add_all_unordered].
  { exists h. rewrite app_nil_r. done. }
  cbn [length] in Hlen. unfold binaryheap_add_unordered at 1. rewrite (proj2 (Z.leb_gt _ _)) by lia.
  rewrite put_ok by lia. cbn [mbind result_bind].
  match goal with |- context [add_all_unordered ?h1 ds] => destruct (IH h1) as (h' & -> & Hok & Hc) end.
  - split; simpl; [lia|]. unfold len. rewrite length_insert. exact Hsp.
  - simpl. lia.
  - exists h'. split_and!; [done|done|]. rewrite Hc. unfold contents; simpl.
    rewrite contents_snoc by (unfold len in *; rewrite length_insert; lia).
    rewrite take_insert_ge, at_insert, decide_True by lia. by rewrite <- app_assoc.
Qed.

Lemma drain_spec n (h : binaryheap A) :
  pq_ok h → bh_size h ≤ Z.of_nat n →
  ∃ l, drain n h = Ok l ∧ l ≡ₚ contents h ∧ StronglySorted (λ a b, le b a) l.
Proof.
  revert h. induction n as [|n IH]; intros h Hpq Hn.
  all: pose proof Hpq as [[Hs _] _]; cbn [drain].
  { exists []. unfold contents. replace (Z.to_nat (bh_size h)) with 0%nat by lia. split_and!; [done|done|constructor]. }
  unfold binaryheap_empty. destruct (Z.eqb_spec (bh_size h) 0) as [E|E].
  { exists []. unfold contents. rewrite E. split_and!; [done|done|constructor]. }
  destruct (remove_first_spec h Hpq ltac:(lia)) as (h1 & -> & Hpq1 & Hc1 & Hs1). cbn [mbind result_bind].
  destruct (IH h1 Hpq1 ltac:(lia)) as (l & -> & Hl & Hsort). cbn [mbind result_bind].
  eexists; split; [done|]. split; [by rewrite Hl, Hc1|]. constructor; [done|].
  apply List.Forall_forall. intros x Hx. apply top_is_largest; [done|].
  rewrite Hc1. right. rewrite <- Hl. by apply list_elem_of_In.
Qed.

(** Filling a heap without order, building it and emptying it sorts: the nodes come out in
    descending order and are the ones put in. *)
Lemma binaryheap_build_sorts (capacity : Z) (memory ds : list A) :
  Z.of_nat (length memory) = capacity → Z.of_nat (length ds) ≤ capacity →
  ∃ h1 h2 l, add_all_unordered (binaryheap_allocate capacity memory) ds = Ok h1 ∧ contents h1 = ds ∧
    binaryheap_build h1 = Ok h2 ∧ pq_ok h2 ∧ contents h2 ≡ₚ ds ∧ bh_has_heap_property h2 = true ∧
    drain (length ds) h2 = Ok l ∧ l ≡ₚ ds ∧ StronglySorted (λ a b, le b a) l.
Proof.
  intros Hmem Hds.
  destruct (add_all_spec (binaryheap_allocate capacity memory) ds) as (h1 & E1 & Hok1 & Hc1);
    [split; unfold len; simpl; lia|simpl; lia|]. simpl in Hc1.
  destruct (heap_build_spec h1 Hok1) as (h2 & E2 & Hpq2 & Hc2 & Hf2 & Hs2).
  assert (Hsize : bh_size h1 = Z.of_nat (length ds)).
  { apply (f_equal length) in Hc1. unfold contents in Hc1. rewrite length_take in Hc1.
    destruct Hok1 as [? Hsp]. unfold len in Hsp. lia. }
  destruct (drain_spec (length ds) h2 Hpq2 ltac:(lia)) as (l & E3 & Hl & Hsort).
  exists h1, h2, l. split_and!; try done; [by rewrite Hc2, Hc1|by rewrite Hl, Hc2, Hc1].
Qed.
End Theorems.

(** ** Witnesses: integers, largest first *)
Module HeapExample.
#[global] Instance Z_compare : HeapCompare Z := Z.sub.
#[global] Instance Z_compare_laws : HeapCompareLaws Z.
Proof. split; unfold bh_compare, Z_compare; lia. Qed.

Definition heap : binaryheap Z := mkHeap 4 6 true [9; 4; 7; 1; 0; 0].

Lemma heap_is_pq : pq_ok heap.
Proof.
  split; [split; [simpl; lia|reflexivity]|]. intros i j Hi Hj Hc. simpl in Hj. unfold child in Hc.
  assert (Hcases : i = 0 ∧ j = 1 ∨ i = 0 ∧ j = 2 ∨ i = 1 ∧ j = 3) by lia.
  destruct Hcases as [[-> ->]|[[-> ->]|[-> ->]]]; unfold le, bh_compare, Z_compare; vm_compute; discriminate.
Qed.
End HeapExample.

Lemma binaryheap_priority_queue_witness :
  ∃ top h1 h2, binaryheap_first HeapExample.heap = Ok top ∧
    binaryheap_remove_first HeapExample.heap = Ok (top, h1) ∧ binaryheap_replace_first HeapExample.heap 5 = Ok h2 ∧
    contents h2 ≡ₚ 5 :: contents h1.
Proof.
  destruct (binaryheap_priority_queue HeapExample.heap 5 HeapExample.heap_is_pq) as (_ & _ & Hr).
  destruct (Hr eq_refl) as (top & h1 & h2 & H1 & _ & H3 & _ & _ & H6 & _ & H8).
  exists top, h1, h2. split; [exact H1|]. split; [exact H3|]. split; [exact H6|exact H8].
Defined.

