(* ===== verification/DistributedSnapshot.v ===== *)
(** * Distributed snapshots
    ([cdb/cdbdistributedsnapshot.c], [cdb/cdblocaldistribxact.c], [access/transam/distributedlog.c])

    A segment decides whether a locally committed transaction is visible to a distributed
    snapshot: it maps the local transaction id to the distributed one with the distributed log,
    and compares that with the snapshot.  Two caches save the look-up in the log: one in the
    snapshot, of local ids known to be in progress, and one of the process, with the most
    recently used mappings.

    The distributed log is given by its entries and its oldest id ([DistribLog] has its pages), the
    process cache by its hash table and the list of ids from the most to the least
    recently used. *)
From S2P Require Import Prelude BitmapCompression.

(** ** Transaction ids *)

Definition InvalidTransactionId : Z := 0.
Definition FirstNormalTransactionId : Z := 3.
Definition MaxTransactionId : Z := 4294967295.
Definition TransactionIdIsValid (xid : Z) : bool := negb (xid =? InvalidTransactionId).
Definition TransactionIdIsNormal (xid : Z) : bool := FirstNormalTransactionId <=? xid.

Definition TransactionIdPrecedes (id1 id2 : Z) : bool :=
  if negb (TransactionIdIsNormal id1) || negb (TransactionIdIsNormal id2) then id1 <? id2
  else s32 (id1 - id2) <? 0.

Definition TransactionIdFollows (id1 id2 : Z) : bool :=
  if negb (TransactionIdIsNormal id1) || negb (TransactionIdIsNormal id2) then id2 <? id1
  else 0 <? s32 (id1 - id2).

Definition InvalidDistributedTransactionId : Z := 0.

(** ** The distributed log *)

Record DistributedLogEntry := mkLogEntry { log_timestamp : Z; log_distribXid : Z }.

(** An entry that was never set reads as zero. *)
Record DistributedLog := mkLog {
  oldestXmin : Z;
  log_entries : gmap Z DistributedLogEntry;
}.

(** What [DistributedLog_CommittedCheck] answers; [None] is the result [false]. *)
Definition log_committed_check (log : DistributedLog) (localXid : Z) : result (option (Z * Z)) :=
  if oldestXmin log =? InvalidTransactionId then Err "DistributedLog's OldestXmin not initialized yet"
  else if TransactionIdPrecedes localXid (oldestXmin log) then Ok None
  else
    let e := default (mkLogEntry 0 0) (log_entries log !! localXid) in
    let '(distribTimeStamp, distribXid) := (log_timestamp e, log_distribXid e) in
    if negb (distribTimeStamp =? 0) && negb (distribXid =? 0) then Ok (Some (distribTimeStamp, distribXid))
    else if (distribTimeStamp =? 0) && (distribXid =? 0) then Ok None
    else if distribTimeStamp =? 0 then Err "Found zero timestamp in distributed log"
    else Err "Found zero distributed xid in distributed log".

(** ** The cache of the process *)

Record LocalDistribXactCacheEntry := mkCacheEntry { ce_distribXid : Z; visits : Z }.

(** [lru]: the keys from the most to the least recently used. *)
Record LocalDistribXactCache := mkCache {
  created : bool;
  table : gmap Z LocalDistribXactCacheEntry;
  lru : list Z;
  cache_count : Z;
  hitCount : Z;
  totalCount : Z;
  addCount : Z;
  removeCount : Z;
}.

Definition LocalDistribXactCache_init : LocalDistribXactCache := mkCache true ∅ [] 0 0 0 0 0.

(** [dlist_delete] of the node of [xid]. *)
Definition dlist_delete (xid : Z) (l : list Z) : list Z := filter (λ x, x ≠ xid) l.

Section Cache.
Context (gp_max_local_distributed_cache : Z).

Definition LocalDistribXactCache_CommittedFind (c : LocalDistribXactCache) (localXid : Z) :
    option Z * LocalDistribXactCache :=
  if gp_max_local_distributed_cache =? 0 then (None, c)
  else
    let c := if created c then c else LocalDistribXactCache_init in
    match table c !! localXid with
    | Some e =>
        (Some (ce_distribXid e),
         mkCache (created c) (<[localXid := mkCacheEntry (ce_distribXid e) (visits e + 1)]> (table c))
           (localXid :: dlist_delete localXid (lru c)) (cache_count c)
           (hitCount c + 1) (totalCount c + 1) (addCount c) (removeCount c))
    | None =>
        (None, mkCache (created c) (table c) (lru c) (cache_count c)
                 (hitCount c) (totalCount c + 1) (addCount c) (removeCount c))
    end.

(** Remove the least recently used entry. *)
Definition remove_oldest (c : LocalDistribXactCache) : result LocalDistribXactCache :=
  match last (lru c) with
  | None => Err "no entry to remove"
  | Some x =>
      Ok (mkCache (created c) (delete x (table c)) (dlist_delete x (lru c)) (cache_count c - 1)
            (hitCount c) (totalCount c) (addCount c) (removeCount c + 1))
  end.

Definition LocalDistribXactCache_AddCommitted (c : LocalDistribXactCache) (localXid distribXid : Z) :
    result LocalDistribXactCache :=
  if gp_max_local_distributed_cache =? 0 then Ok c
  else
    c ← (if gp_max_local_distributed_cache <=? cache_count c then remove_oldest c else Ok c);
    match table c !! localXid with
    | Some _ => Err "Add should not have found local xid"
    | None =>
        Ok (mkCache (created c) (<[localXid := mkCacheEntry distribXid 1]> (table c))
              (localXid :: lru c) (cache_count c + 1)
              (hitCount c) (totalCount c) (addCount c + 1) (removeCount c))
    end.
End Cache.

(** ** Snapshots *)

Record DistributedSnapshot := mkDS {
  distribTransactionTimeStamp : Z;
  xminAllDistributedSnapshots : Z;
  distribSnapshotId : Z;
  xmin : Z;
  xmax : Z;
  count : Z;
  maxCount : Z;
  inProgressXidArray : option (list Z);
}.

(** The array of local ids has [maxLocalXidsCount] cells. *)
Record DistributedSnapshotWithLocalMapping := mkDslm {
  ds : DistributedSnapshot;
  minCachedLocalXid : Z;
  maxCachedLocalXid : Z;
  currentLocalXidsCount : Z;
  maxLocalXidsCount : Z;
  inProgressMappedLocalXids : list Z;
}.

Inductive DistributedSnapshotCommitted :=
  | DISTRIBUTEDSNAPSHOT_COMMITTED_NONE
  | DISTRIBUTEDSNAPSHOT_COMMITTED_INPROGRESS
  | DISTRIBUTEDSNAPSHOT_COMMITTED_VISIBLE
  | DISTRIBUTEDSNAPSHOT_COMMITTED_IGNORE.

#[global] Instance DistributedSnapshotCommitted_eq_dec : EqDecision DistributedSnapshotCommitted.
Proof. solve_decision. Defined.

(** The ids in progress: the first [count] cells. *)
Definition in_progress (d : DistributedSnapshot) : list Z :=
  take (Z.to_nat (count d)) (default [] (inProgressXidArray d)).

(** The loop over the sorted array, with its early end. *)
Fixpoint scan_in_progress (distribXid : Z) (xids : list Z) : bool :=
  match xids with
  | [] => false
  | x :: xids =>
      if distribXid =? x then true else if distribXid <? x then false else scan_in_progress distribXid xids
  end.

(** The quick check with the local ids cached in the snapshot. *)
Definition cached_in_progress (m : DistributedSnapshotWithLocalMapping) (localXid : Z) : bool :=
  if currentLocalXidsCount m =? 0 then false
  else if (localXid =? minCachedLocalXid m) || (localXid =? maxCachedLocalXid m) then true
  else if TransactionIdFollows localXid (minCachedLocalXid m) && TransactionIdPrecedes localXid (maxCachedLocalXid m)
  then existsb (Z.eqb localXid) (take (Z.to_nat (currentLocalXidsCount m)) (inProgressMappedLocalXids m))
  else false.

(** Record a local id that is in progress, while there is room. *)
Definition remember_local_xid (m : DistributedSnapshotWithLocalMapping) (localXid : Z) :
    DistributedSnapshotWithLocalMapping :=
  if currentLocalXidsCount m <? maxLocalXidsCount m then
    mkDslm (ds m)
      (if negb (TransactionIdIsValid (minCachedLocalXid m))
          || TransactionIdPrecedes localXid (minCachedLocalXid m)
       then localXid else minCachedLocalXid m)
      (if negb (TransactionIdIsValid (maxCachedLocalXid m))
          || TransactionIdFollows localXid (maxCachedLocalXid m)
       then localXid else maxCachedLocalXid m)
      (currentLocalXidsCount m + 1) (maxLocalXidsCount m)
      (<[Z.to_nat (currentLocalXidsCount m) := localXid]> (inProgressMappedLocalXids m))
  else m.

Section Test.
Context (gp_max_local_distributed_cache : Z) (log : DistributedLog).

(** Compare the distributed id with the snapshot. *)
Definition evaluate_distrib_xid (m : DistributedSnapshotWithLocalMapping) (localXid distribXid : Z)
    (isVacuumCheck : bool) : DistributedSnapshotCommitted * DistributedSnapshotWithLocalMapping :=
  if distribXid <? xminAllDistributedSnapshots (ds m) then (DISTRIBUTEDSNAPSHOT_COMMITTED_IGNORE, m)
  else if isVacuumCheck then (DISTRIBUTEDSNAPSHOT_COMMITTED_INPROGRESS, m)
  else if distribXid <? xmin (ds m) then (DISTRIBUTEDSNAPSHOT_COMMITTED_VISIBLE, m)
  else if xmax (ds m) <=? distribXid then (DISTRIBUTEDSNAPSHOT_COMMITTED_INPROGRESS, m)
  else if scan_in_progress distribXid (in_progress (ds m))
  then (DISTRIBUTEDSNAPSHOT_COMMITTED_INPROGRESS, remember_local_xid m localXid)
  else (DISTRIBUTEDSNAPSHOT_COMMITTED_VISIBLE, m).

Definition DistributedSnapshotWithLocalMapping_CommittedTest (m : DistributedSnapshotWithLocalMapping)
    (c : LocalDistribXactCache) (localXid : Z) (isVacuumCheck : bool) :
    result (DistributedSnapshotCommitted * DistributedSnapshotWithLocalMapping * LocalDistribXactCache) :=
  if negb (TransactionIdIsNormal localXid) then Ok (DISTRIBUTEDSNAPSHOT_COMMITTED_IGNORE, m, c)
  else if cached_in_progress m localXid then Ok (DISTRIBUTEDSNAPSHOT_COMMITTED_INPROGRESS, m, c)
  else
    match LocalDistribXactCache_CommittedFind gp_max_local_distributed_cache c localXid with
    | (Some distribXid, c) =>
        if distribXid =? InvalidDistributedTransactionId
        then Ok (DISTRIBUTEDSNAPSHOT_COMMITTED_IGNORE, m, c)
        else Ok (evaluate_distrib_xid m localXid distribXid isVacuumCheck, c)
    | (None, c) =>
        r ← log_committed_check log localXid;
        match r with
        | Some (checkDistribTimeStamp, distribXid) =>
            if negb (checkDistribTimeStamp =? distribTransactionTimeStamp (ds m))
            then Ok (DISTRIBUTEDSNAPSHOT_COMMITTED_IGNORE, m, c)
            else
              c ← LocalDistribXactCache_AddCommitted gp_max_local_distributed_cache c localXid distribXid;
              Ok (evaluate_distrib_xid m localXid distribXid isVacuumCheck, c)
        | None =>
            c ← LocalDistribXactCache_AddCommitted gp_max_local_distributed_cache c localXid
                  InvalidDistributedTransactionId;
            Ok (DISTRIBUTEDSNAPSHOT_COMMITTED_IGNORE, m, c)
        end
    end.
End Test.

(** ** Resetting, copying, sending *)

Definition DistributedSnapshot_Reset (d : DistributedSnapshot) : result DistributedSnapshot :=
  if maxCount d <? 0 then Err "cannot reset a copied distributed snapshot"
  else Ok (mkDS 0 InvalidDistributedTransactionId 0 InvalidDistributedTransactionId
             InvalidDistributedTransactionId 0 (maxCount d) (inProgressXidArray d)).

(** [memcpy] of [n] ids. *)
Definition copy_xids (dst src : list Z) (n : Z) : result (list Z) :=
  if (0 <=? n) && (n <=? Z.of_nat (length dst)) && (n <=? Z.of_nat (length src))
  then Ok (take (Z.to_nat n) src ++ drop (Z.to_nat n) dst)
  else Err "memcpy: access outside the array".

Section Memory.
(** [malloc] of a number of ids: the cells with some contents, or null. *)
Context (malloc : Z → option (list Z)).

(** The array to use for [n] ids: the present one if it is large enough, else a new one. *)
Definition ensure_array (n : Z) (maxCount : Z) (array : option (list Z)) : result (Z * list Z) :=
  match (if maxCount <? n then None else array) with
  | Some a => Ok (maxCount, a)
  | None =>
      match malloc (n + 10) with
      | Some a => Ok (n + 10, a)
      | None => Err "out of memory"
      end
  end.

Definition DistributedSnapshot_Copy (target source : DistributedSnapshot) : result DistributedSnapshot :=
  target ← DistributedSnapshot_Reset target;
  '(max, a) ← ensure_array (count source) (maxCount target) (inProgressXidArray target);
  a ← copy_xids a (default [] (inProgressXidArray source)) (count source);
  Ok (mkDS (distribTransactionTimeStamp source) (xminAllDistributedSnapshots source)
        (distribSnapshotId source) (xmin source) (xmax source) (count source) max (Some a)).

Definition DistributedSnapshot_SerializeSize (d : DistributedSnapshot) : Z :=
  4 + 4 + 3 * 4 + 4 + 4 * count d.

(** The fixed part in the order of the message. *)
Definition header_words (d : DistributedSnapshot) : list Z :=
  [distribTransactionTimeStamp d; xminAllDistributedSnapshots d; u32 (distribSnapshotId d);
   xmin d; xmax d; u32 (count d)].

(** Successive [memcpy]s of words to the buffer. *)
Fixpoint write_words (buf : list Z) (off : nat) (ws : list Z) : result (list Z) :=
  match ws with
  | [] => Ok buf
  | w :: ws => buf ← memcpy_at buf off (word_bytes w); write_words buf (off + 4) ws
  end.

Definition DistributedSnapshot_Serialize (d : DistributedSnapshot) (buf : list Z) : result (Z * list Z) :=
  buf ← write_words buf 0 (header_words d);
  let a := default [] (inProgressXidArray d) in
  if (0 <=? count d) && (count d <=? Z.of_nat (length a)) then
    buf ← memcpy_at buf 24 (concat (word_bytes <$> take (Z.to_nat (count d)) a));
    Ok (24 + 4 * count d, buf)
  else Err "memcpy: read outside the array".

Definition read_word (buf : list Z) (off : nat) : result Z :=
  bs ← memread buf off 4; Ok (word_at (words_of_bytes bs) 0).

Definition DistributedSnapshot_Deserialize (buf : list Z) (d : DistributedSnapshot) :
    result (Z * DistributedSnapshot) :=
  ts ← read_word buf 0;
  xminAll ← read_word buf 4;
  id ← read_word buf 8;
  min ← read_word buf 12;
  max ← read_word buf 16;
  n ← read_word buf 20;
  let n := s32 n in
  if (match inProgressXidArray d with Some _ => maxCount d <=? 0 | None => false end)
  then Err "Bad allocation of in-progress array"
  else
    '(maxCount', a) ← ensure_array n (maxCount d) (inProgressXidArray d);
    a ← (if 0 <? n
         then bs ← memread buf 24 (4 * Z.to_nat n); copy_xids a (words_of_bytes bs) n
         else Ok a);
    Ok (24 + 4 * Z.max 0 n, mkDS ts xminAll (s32 id) min max n maxCount' (Some a)).
End Memory.
