(* ===== verification/DistributedSnapshotFacts.v ===== *)
(** * Distributed snapshots: the caches are transparent

    Invariants of the process cache and of the ids cached in a snapshot, and the theorems: the
    test with both caches answers what a test without caches answers, the process cache keeps the
    most recently used entries, and a snapshot survives serialization and copying. *)
From S2P Require Import Prelude BitmapCompression DistributedSnapshot.

(** ** The cache of the process *)

Section Cache.
Context (limit : Z).
Implicit Types (c : LocalDistribXactCache) (x : Z).

Record cache_ok c : Prop := {
  ca_nodup : NoDup (lru c);
  ca_keys : ∀ x, x ∈ lru c ↔ is_Some (table c !! x);
  ca_count : cache_count c = Z.of_nat (length (lru c));
  ca_limit : cache_count c ≤ limit;
  ca_created : created c = false → table c = ∅ ∧ lru c = [] ∧ cache_count c = 0;
}.

(** The mapping a cache holds. *)
Definition mapping c x : option Z := ce_distribXid <$> table c !! x.

Lemma elem_of_dlist_delete x y l : y ∈ dlist_delete x l ↔ y ≠ x ∧ y ∈ l.
Proof. unfold dlist_delete. by rewrite list_elem_of_filter. Qed.

Lemma dlist_delete_last l x : NoDup (l ++ [x]) → dlist_delete x (l ++ [x]) = l.
Proof.
  intros (_ & Hd & _)%NoDup_app. unfold dlist_delete. rewrite filter_app, filter_cons_False by naive_solver.
  rewrite app_nil_r. apply filter_all. intros y Hy ->. apply (Hd x Hy). by left.
Qed.

Lemma length_dlist_delete x l : NoDup l → x ∈ l → (length (dlist_delete x l) = length l - 1)%nat.
Proof.
  induction l as [|y l IH]; intros Hn Hx; [by apply elem_of_nil in Hx|].
  apply NoDup_cons in Hn as [Hy Hn]. unfold dlist_delete in *. destruct (decide (y = x)) as [->|Hne].
  - rewrite filter_cons_False by naive_solver. rewrite filter_all; [simpl; lia|]. by intros z Hz ->.
  - rewrite filter_cons_True by done. apply elem_of_cons in Hx as [->|Hx]; [done|].
    simpl. rewrite IH by done. destruct l; [by apply elem_of_nil in Hx|simpl; lia].
Qed.

Lemma cache_init_ok : 0 ≤ limit → cache_ok LocalDistribXactCache_init.
Proof. intros Hl. split; simpl; auto; [constructor|]. intros x. rewrite lookup_empty, elem_of_nil. by split; [|intros []]. Qed.

Lemma find_spec c x :
  0 < limit → cache_ok c →
  let r := LocalDistribXactCache_CommittedFind limit c x in
  r.1 = mapping c x ∧ cache_ok r.2 ∧ (∀ y, mapping r.2 y = mapping c y) ∧
  lru r.2 = (if decide (is_Some (mapping c x)) then x :: dlist_delete x (lru c) else lru c) ∧
  (is_Some (mapping c x) ∨ created r.2 = true ∧ table r.2 !! x = None).
Proof.
  intros Hl Hok. unfold LocalDistribXactCache_CommittedFind. rewrite (proj2 (Z.eqb_neq _ _)) by lia.
  set (c0 := if created c then c else LocalDistribXactCache_init).
  assert (H0 : cache_ok c0 ∧ table c0 = table c ∧ lru c0 = lru c ∧ created c0 = true).
  { subst c0. destruct (created c) eqn:Hc; [done|]. destruct (ca_created _ Hok Hc) as (-> & -> & _).
    split; [apply cache_init_ok; lia|done]. }
  clearbody c0. destruct H0 as (Hok0 & Ht & Hlru & Hcr). unfold mapping. rewrite <- Ht, <- Hlru.
  destruct (table c0 !! x) as [e|] eqn:He; simpl.
  - assert (Hx : x ∈ lru c0) by by apply (ca_keys _ Hok0).
    pose proof (length_dlist_delete x (lru c0) (ca_nodup _ Hok0) Hx) as Hlen.
    assert (0 < length (lru c0))%nat by (destruct (lru c0); [by apply elem_of_nil in Hx|simpl; lia]).
    split_and!; [done| | |done|by left].
    + split; simpl.
      * apply NoDup_cons. split; [rewrite elem_of_dlist_delete; tauto|]. apply NoDup_filter, (ca_nodup _ Hok0).
      * intros y. rewrite elem_of_cons, elem_of_dlist_delete, (ca_keys _ Hok0).
        destruct (decide (y = x)) as [->|]; [rewrite lookup_insert_eq; naive_solver|].
        rewrite lookup_insert_ne by done. naive_solver.
      * rewrite (ca_count _ Hok0). lia.
      * apply (ca_limit _ Hok0).
      * congruence.
    + intros y. destruct (decide (y = x)) as [->|]; [by rewrite lookup_insert_eq, He|by rewrite lookup_insert_ne].
  - split_and!; [done| |done| |by right].
    + destruct Hok0; split; simpl; auto.
    + done.
Qed.

(** The entry that an addition to a full cache removes. *)
Definition evicted c : option Z := if limit <=? cache_count c then last (lru c) else None.

Lemma cache_add_spec c x dx :
  0 < limit → cache_ok c → created c = true → table c !! x = None →
  ∃ c', LocalDistribXactCache_AddCommitted limit c x dx = Ok c' ∧ cache_ok c' ∧ created c' = true ∧
    lru c' = x :: (if limit <=? cache_count c then removelast (lru c) else lru c) ∧
    ∀ y, mapping c' y = if decide (y = x) then Some dx else if decide (evicted c = Some y) then None else mapping c y.
Proof.
  intros Hl Hok Hcr Hx. unfold LocalDistribXactCache_AddCommitted, evicted. rewrite (proj2 (Z.eqb_neq _ _)) by lia.
  assert (Hrem : ∃ c1, (if limit <=? cache_count c then remove_oldest c else Ok c) = Ok c1 ∧ created c1 = true ∧
    lru c1 = (if limit <=? cache_count c then removelast (lru c) else lru c) ∧ NoDup (lru c1) ∧
    (∀ y, y ∈ lru c1 ↔ is_Some (table c1 !! y)) ∧ cache_count c1 = Z.of_nat (length (lru c1)) ∧ cache_count c1 < limit ∧
    ∀ y, table c1 !! y = if decide ((if limit <=? cache_count c then last (lru c) else None) = Some y) then None else table c !! y).
  { destruct (Z.leb_spec limit (cache_count c)) as [Hfull|Hroom].
    - unfold remove_oldest. pose proof (ca_count _ Hok) as Hcnt. pose proof (ca_limit _ Hok) as Hlim.
      destruct (last (lru c)) as [z|] eqn:Hlast; [|apply last_None in Hlast; rewrite Hlast in Hcnt; simpl in Hcnt; lia].
      apply last_Some in Hlast as [l Hll]. pose proof (ca_nodup _ Hok) as Hn. rewrite Hll in Hn, Hcnt.
      rewrite length_app in Hcnt. simpl in Hcnt. pose proof (ca_keys _ Hok) as Hk. rewrite Hll in Hk |- *.
      rewrite dlist_delete_last, List.removelast_last by done.
      eexists; split; [done|]. simpl. apply NoDup_app in Hn as (Hnl & Hdis & _). split_and!; [done|done|done| |lia|lia|].
      + intros y. specialize (Hk y). rewrite elem_of_app, list_elem_of_singleton in Hk.
        destruct (decide (y = z)) as [->|Hyz].
        * rewrite lookup_delete_eq. split; [intros Hy; exfalso; apply (Hdis z Hy); by left|by intros []].
        * rewrite lookup_delete_ne by done. rewrite <- Hk. naive_solver.
      + intros y. destruct (decide (y = z)) as [->|]; [by rewrite lookup_delete_eq, decide_True|].
        rewrite lookup_delete_ne by done. rewrite decide_False by congruence. done.
    - destruct Hok. exists c. split_and!; auto. }
  destruct Hrem as (c1 & -> & Hcr1 & Hl1 & Hn1 & Hk1 & Hc1 & Hlt1 & Ht1). cbn [mbind result_bind].
  assert (Hx1 : table c1 !! x = None) by (rewrite Ht1, Hx; by case_decide).
  rewrite Hx1. eexists; split; [done|]. simpl. split_and!; [|done|by rewrite Hl1|].
  - split; simpl; [..|congruence].
    + apply NoDup_cons. split; [rewrite Hk1, Hx1; by intros []|done].
    + intros y. rewrite elem_of_cons, Hk1. destruct (decide (y = x)) as [->|];
        [rewrite lookup_insert_eq; naive_solver|]. rewrite lookup_insert_ne by done. naive_solver.
    + lia.
    + lia.
  - intros y. unfold mapping; simpl. destruct (decide (y = x)) as [->|]; [by rewrite lookup_insert_eq|].
    rewrite lookup_insert_ne, Ht1 by done. by case_decide.
Qed.
End Cache.

(** ** The test *)

(** The answer for a local id without any cache. *)
Definition reference_test (log : DistributedLog) (d : DistributedSnapshot) (localXid : Z) (vacuum : bool) :
    result DistributedSnapshotCommitted :=
  if negb (TransactionIdIsNormal localXid) then Ok DISTRIBUTEDSNAPSHOT_COMMITTED_IGNORE
  else
    r ← log_committed_check log localXid;
    match r with
    | None => Ok DISTRIBUTEDSNAPSHOT_COMMITTED_IGNORE
    | Some (ts, dx) =>
        Ok (if decide (ts ≠ distribTransactionTimeStamp d ∨ dx < xminAllDistributedSnapshots d)
            then DISTRIBUTEDSNAPSHOT_COMMITTED_IGNORE
            else if vacuum then DISTRIBUTEDSNAPSHOT_COMMITTED_INPROGRESS
            else if decide (xmin d ≤ dx ∧ (xmax d ≤ dx ∨ dx ∈ in_progress d))
            then DISTRIBUTEDSNAPSHOT_COMMITTED_INPROGRESS else DISTRIBUTEDSNAPSHOT_COMMITTED_VISIBLE)
    end.

Section Test.
Context (limit : Z) (Hlimit : 0 ≤ limit) (log : DistributedLog).
Implicit Types (m : DistributedSnapshotWithLocalMapping) (c : LocalDistribXactCache) (d : DistributedSnapshot).

(** The process cache agrees with the log for the start [ts] of the coordinator; where the log
    has been truncated, the distributed id is older than [low], which no snapshot needs. *)
Definition cache_agrees (ts low : Z) c : Prop :=
  ∀ x dx, mapping c x = Some dx →
    if dx =? 0 then log_committed_check log x = Ok None
    else log_committed_check log x = Ok (Some (ts, dx)) ∨
         log_committed_check log x = Ok None ∧ dx < low.

Definition local_in_progress d x : Prop :=
  TransactionIdIsNormal x = true ∧
  ∃ dx, log_committed_check log x = Ok (Some (distribTransactionTimeStamp d, dx)) ∧
    xminAllDistributedSnapshots d ≤ dx ∧ xmin d ≤ dx ∧ dx ∈ in_progress d.

Definition cached m : list Z := take (Z.to_nat (currentLocalXidsCount m)) (inProgressMappedLocalXids m).

Record dslm_ok m : Prop := {
  dm_sorted : StronglySorted Z.le (in_progress (ds m));
  dm_count : 0 ≤ currentLocalXidsCount m ≤ maxLocalXidsCount m;
  dm_space : Z.of_nat (length (inProgressMappedLocalXids m)) = maxLocalXidsCount m;
  dm_cached : Forall (local_in_progress (ds m)) (cached m);
  dm_minmax : if currentLocalXidsCount m =? 0 then minCachedLocalXid m = 0 ∧ maxCachedLocalXid m = 0
              else minCachedLocalXid m ∈ cached m ∧ maxCachedLocalXid m ∈ cached m;
}.

(** The early end of the scan loses nothing on a sorted array. *)
Lemma scan_in_progress_spec dx l : StronglySorted Z.le l → scan_in_progress dx l = true ↔ dx ∈ l.
Proof.
  induction 1 as [|x l Hs IH Hall]; simpl; [by rewrite elem_of_nil|]. rewrite elem_of_cons.
  destruct (Z.eqb_spec dx x) as [->|Hne]; [naive_solver|]. destruct (Z.ltb_spec dx x) as [Hlt|Hge].
  - split; [done|]. intros [?|Hin]; [done|]. rewrite List.Forall_forall in Hall.
    apply list_elem_of_In, Hall in Hin. lia.
  - rewrite IH. naive_solver.
Qed.

Lemma cached_in_progress_sound m x : dslm_ok m → cached_in_progress m x = true → local_in_progress (ds m) x.
Proof.
  intros Hok. unfold cached_in_progress. pose proof (dm_minmax _ Hok) as Hmm.
  pose proof (dm_cached _ Hok) as Hc. rewrite Forall_forall in Hc.
  destruct (currentLocalXidsCount m =? 0); [done|]. destruct Hmm as [Hmin Hmax].
  destruct ((x =? _) || (x =? _)) eqn:Heq.
  - intros _. apply orb_true_iff in Heq as [->%Z.eqb_eq| ->%Z.eqb_eq]; by apply Hc.
  - destruct (_ && _); [|done]. intros Hex. apply existsb_exists in Hex as (y & Hy & ->%Z.eqb_eq).
    apply Hc. by apply list_elem_of_In.
Qed.

Lemma remember_ok m x : dslm_ok m → local_in_progress (ds m) x → dslm_ok (remember_local_xid m x).
Proof.
  intros [Hs Hcnt Hsp Hc Hmm] Hx. unfold remember_local_xid.
  destruct (Z.ltb_spec (currentLocalXidsCount m) (maxLocalXidsCount m)) as [Hlt|]; [|done].
  assert (Hcached : take (Z.to_nat (currentLocalXidsCount m + 1))
    (<[Z.to_nat (currentLocalXidsCount m) := x]> (inProgressMappedLocalXids m)) = cached m ++ [x]).
  { replace (Z.to_nat (currentLocalXidsCount m + 1)) with (S (Z.to_nat (currentLocalXidsCount m))) by lia.
    rewrite (take_S_r _ _ x) by (apply list_lookup_insert_eq; lia). by rewrite take_insert_ge by lia. }
  split; simpl; [done|lia|by rewrite length_insert| |].
  - unfold cached; simpl. rewrite Hcached. apply Forall_app. split; [done|by apply Forall_singleton].
  - unfold cached; simpl. rewrite Hcached. rewrite (proj2 (Z.eqb_neq _ _)) by lia.
    assert (Hlast : ∀ b : bool, ∀ y, (b = false → y ∈ cached m) → (if b then x else y) ∈ cached m ++ [x]).
    { intros [] y Hy; apply elem_of_app; [right; by left|left; by apply Hy]. }
    destruct (Z.eqb_spec (currentLocalXidsCount m) 0) as [E|E].
    + destruct Hmm as [-> ->]. split; apply Hlast; done.
    + destruct Hmm as [Hmin Hmax]. split; apply Hlast; done.
Qed.

(** Evaluating a distributed id that the log confirms. *)
Lemma evaluate_spec m x dx vac :
  dslm_ok m → TransactionIdIsNormal x = true →
  log_committed_check log x = Ok (Some (distribTransactionTimeStamp (ds m), dx)) →
  let r := evaluate_distrib_xid m x dx vac in
  reference_test log (ds m) x vac = Ok r.1 ∧ dslm_ok r.2 ∧ ds r.2 = ds m.
Proof.
  intros Hok Hx Hlog. unfold evaluate_distrib_xid, reference_test. rewrite Hx, Hlog. cbn [negb mbind result_bind].
  destruct (Z.ltb_spec dx (xminAllDistributedSnapshots (ds m))) as [Hlow|Hlow].
  { rewrite decide_True by auto. done. }
  rewrite decide_False by (intros [|]; [done|lia]). destruct vac; [done|].
  destruct (Z.ltb_spec dx (xmin (ds m))); [by rewrite decide_False by lia|].
  destruct (Z.leb_spec (xmax (ds m)) dx); [rewrite decide_True by lia; done|].
  pose proof (scan_in_progress_spec dx _ (dm_sorted _ Hok)) as Hscan.
  destruct (scan_in_progress dx (in_progress (ds m))).
  - assert (Hin : dx ∈ in_progress (ds m)) by by apply Hscan. simpl. rewrite decide_True by auto.
    split_and!; [done|apply remember_ok; [done|split; [done|by exists dx]]|].
    unfold remember_local_xid. by case_match.
  - simpl. rewrite decide_False; [done|]. intros [_ [?|Hin]]; [lia|]. apply Hscan in Hin. done.
Qed.

Lemma check_nonzero x ts dx : log_committed_check log x = Ok (Some (ts, dx)) → dx ≠ 0.
Proof.
  unfold log_committed_check. repeat case_match; try done. intros [= <- <-].
  by match goal with H : _ && _ = true |- _ => apply andb_true_iff in H as [_ H]; apply negb_true_iff, Z.eqb_neq in H end.
Qed.

(** Looking up, and adding after a miss, with the cache enabled or not. *)
Lemma find_or_add c x :
  cache_ok limit c →
  let r := LocalDistribXactCache_CommittedFind limit c x in
  cache_ok limit r.2 ∧ (∀ y v, mapping r.2 y = Some v → mapping c y = Some v) ∧
  match r.1 with
  | Some dx => mapping c x = Some dx
  | None => ∀ dx, ∃ c', LocalDistribXactCache_AddCommitted limit r.2 x dx = Ok c' ∧ cache_ok limit c' ∧
      ∀ y v, mapping c' y = Some v → y = x ∧ v = dx ∨ mapping c y = Some v
  end.
Proof.
  intros Hok. destruct (decide (limit = 0)) as [H0|H0].
  - unfold LocalDistribXactCache_CommittedFind, LocalDistribXactCache_AddCommitted.
    rewrite (proj2 (Z.eqb_eq _ _)) by done. simpl. split_and!; [done|done|]. intros dx. exists c. eauto.
  - destruct (find_spec limit c x) as (Hr & Hok' & Hmap & _ & Hmiss); [lia|done|].
    destruct (LocalDistribXactCache_CommittedFind limit c x) as [[dx|] c1]; simpl in *.
    + split_and!; [done|intros y v; by rewrite Hmap|done].
    + split_and!; [done|intros y v; by rewrite Hmap|]. intros dx.
      destruct Hmiss as [[? Hs]|[Hcr Hnone]]; [congruence|].
      destruct (cache_add_spec limit c1 x dx) as (c' & Ha & Hoka & _ & _ & Hma); [lia|done|done|done|].
      exists c'. split_and!; [done|done|]. intros y v. rewrite Hma, Hmap. repeat case_decide; naive_solver.
Qed.

Lemma in_progress_reference d x vac :
  local_in_progress d x → reference_test log d x vac = Ok DISTRIBUTEDSNAPSHOT_COMMITTED_INPROGRESS.
Proof.
  intros (Hx & dx & Hlog & H1 & H2 & H3). unfold reference_test. rewrite Hx, Hlog. cbn [negb mbind result_bind].
  rewrite decide_False by (intros [|]; [done|lia]). destruct vac; [done|]. by rewrite decide_True by auto.
Qed.

(** The test with both caches against the one without. *)
Lemma committed_test_spec m c x vac low :
  dslm_ok m → cache_ok limit c → low ≤ xminAllDistributedSnapshots (ds m) →
  cache_agrees (distribTransactionTimeStamp (ds m)) low c →
  match DistributedSnapshotWithLocalMapping_CommittedTest limit log m c x vac with
  | Ok (r, m', c') =>
      reference_test log (ds m) x vac = Ok r ∧ dslm_ok m' ∧ ds m' = ds m ∧
      cache_ok limit c' ∧ cache_agrees (distribTransactionTimeStamp (ds m)) low c'
  | Err e => reference_test log (ds m) x vac = Err e
  end.
Proof.
  intros Hm Hc Hlow Hag. unfold DistributedSnapshotWithLocalMapping_CommittedTest.
  destruct (TransactionIdIsNormal x) eqn:Hx; simpl; [|unfold reference_test; by rewrite Hx].
  destruct (cached_in_progress m x) eqn:Hcip.
  { apply cached_in_progress_sound in Hcip; [|done]. by rewrite (in_progress_reference _ _ _ Hcip). }
  destruct (find_or_add c x Hc) as (Hc1 & Hsub & Hfind).
  destruct (LocalDistribXactCache_CommittedFind limit c x) as [[dx|] c1]; simpl in *.
  - assert (Hag1 : cache_agrees (distribTransactionTimeStamp (ds m)) low c1) by (intros y v Hy; by apply Hag, Hsub).
    pose proof (Hag x dx Hfind) as Hdx. unfold InvalidDistributedTransactionId.
    destruct (Z.eqb_spec dx 0); [by unfold reference_test; rewrite Hx, Hdx|].
    destruct Hdx as [Hlog|[Hlog Hold]].
    + destruct (evaluate_spec m x dx vac Hm Hx Hlog) as (H1 & H2 & H3).
      destruct (evaluate_distrib_xid m x dx vac) as [r m']; simpl in *. done.
    + unfold evaluate_distrib_xid. rewrite (proj2 (Z.ltb_lt _ _)) by lia.
      unfold reference_test. by rewrite Hx, Hlog.
  - destruct (log_committed_check log x) as [[[ts dx]|]|e] eqn:Hlog; cbn [mbind result_bind];
      [| |unfold reference_test; by rewrite Hx, Hlog].
    + destruct (Z.eqb_spec ts (distribTransactionTimeStamp (ds m))) as [->|Hne]; simpl.
      2:{ unfold reference_test. rewrite Hx, Hlog. simpl. rewrite decide_True by auto.
          split_and!; try done. intros y v Hy. by apply Hag, Hsub. }
      destruct (Hfind dx) as (c2 & -> & Hc2 & Hsub2). cbn [mbind result_bind].
      destruct (evaluate_spec m x dx vac Hm Hx Hlog) as (H1 & H2 & H3).
      destruct (evaluate_distrib_xid m x dx vac) as [r m']; simpl in *. split_and!; try done.
      intros y v Hy. destruct (Hsub2 y v Hy) as [[-> ->]|Hy']; [|by apply Hag].
      apply check_nonzero in Hlog as Hnz. rewrite (proj2 (Z.eqb_neq _ _)) by done. by left.
    + destruct (Hfind 0) as (c2 & Hadd & Hc2 & Hsub2). unfold InvalidDistributedTransactionId. rewrite Hadd.
      cbn [mbind result_bind]. split_and!; try done; [unfold reference_test; by rewrite Hx, Hlog|].
      intros y v Hy. destruct (Hsub2 y v Hy) as [[-> ->]|Hy']; [done|by apply Hag].
Qed.

(** The caches learn nothing but the id that is tested. *)
Lemma committed_test_touches m c x vac r m' c' :
  cache_ok limit c → DistributedSnapshotWithLocalMapping_CommittedTest limit log m c x vac = Ok (r, m', c') →
  (∀ y v, mapping c' y = Some v → y = x ∨ mapping c y = Some v) ∧
  (Z.of_nat (length (inProgressMappedLocalXids m)) = maxLocalXidsCount m → 0 ≤ currentLocalXidsCount m →
   ∀ y, y ∈ cached m' → y = x ∨ y ∈ cached m).
Proof.
  intros Hc. unfold DistributedSnapshotWithLocalMapping_CommittedTest.
  assert (Hev : ∀ dx, let r := evaluate_distrib_xid m x dx vac in
    Z.of_nat (length (inProgressMappedLocalXids m)) = maxLocalXidsCount m → 0 ≤ currentLocalXidsCount m →
    ∀ y, y ∈ cached r.2 → y = x ∨ y ∈ cached m).
  { intros dx. unfold evaluate_distrib_xid. repeat case_match; simpl; auto.
    unfold remember_local_xid. case_match eqn:Hlt; [|auto]. apply Z.ltb_lt in Hlt. intros Hlen Hpos y. unfold cached. simpl.
    replace (Z.to_nat (currentLocalXidsCount m + 1)) with (S (Z.to_nat (currentLocalXidsCount m))) by lia.
    rewrite (take_S_r _ _ x) by (apply list_lookup_insert_eq; lia). rewrite take_insert_ge by lia.
    rewrite elem_of_app, list_elem_of_singleton. tauto. }
  destruct (TransactionIdIsNormal x); [|intros [= <- <- <-]; by auto]. cbn [negb].
  destruct (cached_in_progress m x); [intros [= <- <- <-]; by auto|].
  destruct (find_or_add c x Hc) as (Hc1 & Hsub & Hfind).
  destruct (LocalDistribXactCache_CommittedFind limit c x) as [[dx|] c1]; cbn [fst snd] in *.
  - specialize (Hev dx). destruct (dx =? _); [intros [= <- <- <-]; by eauto|].
    destruct (evaluate_distrib_xid m x dx vac) as [r1 m1]. intros [= <- <- <-]. eauto.
  - destruct (log_committed_check log x) as [[[ts dx]|]|] eqn:El; cbn [mbind result_bind]; [| |done].
    + destruct (negb _); [intros [= <- <- <-]; by eauto|]. destruct (Hfind dx) as (c2 & -> & _ & Hadd). cbn [mbind result_bind].
      specialize (Hev dx). destruct (evaluate_distrib_xid m x dx vac) as [r1 m1]. intros [= <- <- <-].
      split; [|done]. intros y v [[-> _]|]%Hadd; auto.
    + destruct (Hfind InvalidDistributedTransactionId) as (c2 & -> & _ & Hadd). cbn [mbind result_bind].
      intros [= <- <- <-]. split; [|by auto]. intros y v [[-> _]|]%Hadd; auto.
Qed.

(** C18: The visibility test with both caches answers exactly what the test without caches answers,
    errors of the log included, whatever the order of local transaction ids after wrap-around, and
    leaves both caches correct: a sequence of tests against any snapshots of the same start of the
    coordinator never sees a wrong cached answer, also when the log is truncated of ids that no
    snapshot needs.  The cache never reports a duplicate. *)
Theorem ds_committed_test_transparent m c x vac low :
  dslm_ok m → cache_ok limit c → low ≤ xminAllDistributedSnapshots (ds m) →
  cache_agrees (distribTransactionTimeStamp (ds m)) low c →
  match DistributedSnapshotWithLocalMapping_CommittedTest limit log m c x vac with
  | Ok (r, m', c') =>
      reference_test log (ds m) x vac = Ok r ∧ dslm_ok m' ∧ ds m' = ds m ∧
      cache_ok limit c' ∧ cache_agrees (distribTransactionTimeStamp (ds m)) low c'
  | Err e => reference_test log (ds m) x vac = Err e
  end.
Proof. apply committed_test_spec. Qed.
End Test.

(** The process cache is a bounded cache with least-recently-used replacement.  A look-up answers
    the stored mapping, changes no mapping and moves the id to the front; an addition after a miss
    succeeds, puts the id in front and, if the cache is full, drops exactly the id used longest
    ago.  There are never more entries than [gp_max_local_distributed_cache]. *)
Lemma local_cache_lru limit c x dx :
  0 < limit → cache_ok limit c →
  let '(r, c1) := LocalDistribXactCache_CommittedFind limit c x in
  r = mapping c x ∧ cache_ok limit c1 ∧ (∀ y, mapping c1 y = mapping c y) ∧
  (r ≠ None → lru c1 = x :: dlist_delete x (lru c)) ∧ (r = None → lru c1 = lru c) ∧
  (r = None → ∃ c2, LocalDistribXactCache_AddCommitted limit c1 x dx = Ok c2 ∧ cache_ok limit c2 ∧
     lru c2 = x :: (if limit <=? cache_count c1 then removelast (lru c) else lru c) ∧
     ∀ y, mapping c2 y = if decide (y = x) then Some dx
                         else if decide (evicted limit c1 = Some y) then None else mapping c y).
Proof.
  intros Hl Hok. destruct (find_spec limit c x Hl Hok) as (Hr & Hok' & Hmap & Hlru & Hmiss).
  destruct (LocalDistribXactCache_CommittedFind limit c x) as [r c1]; simpl in *. subst r.
  split_and!; [done|done|done| | |].
  - intros Hne. rewrite Hlru, decide_True; [done|]. by destruct (mapping c x); [eexists|].
  - intros E. rewrite Hlru, E. done.
  - intros E. destruct Hmiss as [[? Hs]|[Hcr Hnone]]; [congruence|].
    destruct (cache_add_spec limit c1 x dx Hl Hok' Hcr Hnone) as (c2 & Ha & Hok2 & _ & Hl2 & Hm2).
    exists c2. rewrite Hlru, E in Hl2. split_and!; [done|done|done|].
    intros y. rewrite Hm2, Hmap. done.
Qed.

(** ** Sending and copying a snapshot *)

(** Two snapshots that answer alike: all but the allocated space. *)
Definition same_snapshot (d d' : DistributedSnapshot) : Prop :=
  distribTransactionTimeStamp d' = distribTransactionTimeStamp d ∧
  xminAllDistributedSnapshots d' = xminAllDistributedSnapshots d ∧
  distribSnapshotId d' = distribSnapshotId d ∧ xmin d' = xmin d ∧ xmax d' = xmax d ∧
  count d' = count d ∧ in_progress d' = in_progress d.

Lemma same_snapshot_trans d1 d2 d3 : same_snapshot d1 d2 → same_snapshot d2 d3 → same_snapshot d1 d3.
Proof.
  intros (? & ? & ? & ? & ? & ? & ?) (? & ? & ? & ? & ? & ? & ?). split_and!; congruence.
Qed.

(** A snapshot whose fields have their widths and whose ids lie in its array. *)
Record snapshot_ok (d : DistributedSnapshot) : Prop := {
  so_words : Forall is_u32 [distribTransactionTimeStamp d; xminAllDistributedSnapshots d; xmin d; xmax d];
  so_id : - 2 ^ 31 ≤ distribSnapshotId d < 2 ^ 31;
  so_count : 0 ≤ count d < 2 ^ 31;
  so_space : count d ≤ Z.of_nat (length (default [] (inProgressXidArray d)));
  so_xids : Forall is_u32 (in_progress d);
}.

(** A structure to receive a snapshot: no array, or one of [maxCount] cells. *)
Definition receiver_ok (d : DistributedSnapshot) : Prop :=
  0 ≤ maxCount d ∧
  match inProgressXidArray d with Some a => 0 < maxCount d ∧ Z.of_nat (length a) = maxCount d | None => True end.

Lemma write_words_eq buf off ws :
  (off + 4 * length ws ≤ length buf)%nat →
  write_words buf off ws =
  Ok (take off buf ++ concat (word_bytes <$> ws) ++ drop (off + 4 * length ws) buf).
Proof.
  revert buf off. induction ws as [|w ws IH]; intros buf off Hlen; cbn [write_words].
  { cbn [length]. rewrite Nat.mul_0_r, Nat.add_0_r. simpl. by rewrite take_drop. }
  cbn [length] in Hlen |- *. unfold memcpy_at. change (length (word_bytes w)) with 4%nat.
  rewrite (proj2 (Nat.leb_le _ _)) by lia. cbn [mbind result_bind].
  set (p := take off buf ++ word_bytes w).
  assert (Hp : length p = (off + 4)%nat) by (unfold p; rewrite length_app, length_take; simpl; lia).
  rewrite app_assoc. fold p. rewrite IH by (rewrite length_app, length_drop, Hp; lia).
  rewrite (take_app_length' p) by done. rewrite drop_app_ge by lia. rewrite drop_drop, Hp. unfold p. rewrite fmap_cons. cbn [concat].
  rewrite <- !app_assoc. do 4 f_equal. f_equal. lia.
Qed.

Lemma read_word_app pre w post : is_u32 w → read_word (pre ++ word_bytes w ++ post) (length pre) = Ok w.
Proof.
  intros Hw. unfold read_word, memread. rewrite !length_app. change (length (word_bytes w)) with 4%nat.
  rewrite (proj2 (Nat.leb_le _ _)) by lia. cbn [mbind result_bind].
  rewrite drop_app_length. rewrite (take_app_length' (word_bytes w)) by done.
  cbn [word_bytes words_of_bytes]. unfold word_at; simpl. f_equal. by apply bytes_word_bytes.
Qed.

(** The [n]-th word of a message. *)
Lemma read_word_nth ws w n post :
  Forall is_u32 ws → ws !! n = Some w → read_word (concat (word_bytes <$> ws) ++ post) (4 * n) = Ok w.
Proof.
  intros Hws Hn. pose proof (Forall_lookup_1 _ _ _ _ Hws Hn) as Hw.
  rewrite <- (take_drop_middle _ _ _ Hn) at 1. rewrite fmap_app, fmap_cons, concat_app. cbn [concat].
  rewrite <- !app_assoc. replace (4 * n)%nat with (length (concat (word_bytes <$> take n ws))).
  - by apply read_word_app.
  - rewrite length_word_bytes, length_take. apply lookup_lt_Some in Hn. lia.
Qed.

Lemma s32_u32 z : - 2 ^ 31 ≤ z < 2 ^ 31 → s32 (u32 z) = z.
Proof.
  intros Hz. unfold s32, u32. rewrite Z.mod_mod by lia. destruct (Z.lt_ge_cases z 0).
  - replace (z mod 2 ^ 32) with (z + 2 ^ 32) by (apply (Z.mod_unique z (2 ^ 32) (-1)); lia).
    rewrite (proj2 (Z.ltb_ge _ _)) by lia. lia.
  - rewrite Z.mod_small by lia. rewrite (proj2 (Z.ltb_lt _ _)) by lia. done.
Qed.

Lemma ensure_array_spec malloc n d :
  0 ≤ n → (∃ a, malloc (n + 10) = Some a ∧ Z.of_nat (length a) = n + 10) → receiver_ok d →
  ∃ max a, ensure_array malloc n (maxCount d) (inProgressXidArray d) = Ok (max, a) ∧
    0 < max ∧ Z.of_nat (length a) = max ∧ n ≤ max.
Proof.
  intros Hn (a & Ha & Hla) [Hm0 Hm]. unfold ensure_array.
  destruct (Z.ltb_spec (maxCount d) n).
  - rewrite Ha. exists (n + 10), a. split_and!; try done; lia.
  - destruct (inProgressXidArray d) as [b|].
    + exists (maxCount d), b. split_and!; try done; lia.
    + rewrite Ha. exists (n + 10), a. split_and!; try done; lia.
Qed.

Lemma copy_xids_spec dst src n :
  0 ≤ n ≤ Z.of_nat (length dst) → n ≤ Z.of_nat (length src) →
  ∃ a, copy_xids dst src n = Ok a ∧ length a = length dst ∧ take (Z.to_nat n) a = take (Z.to_nat n) src.
Proof.
  intros H1 H2. unfold copy_xids. rewrite (proj2 (Z.leb_le 0 n)), (proj2 (Z.leb_le n (Z.of_nat (length dst)))),
    (proj2 (Z.leb_le n (Z.of_nat (length src)))) by lia. eexists; split; [done|]. split.
  - rewrite length_app, length_take, length_drop. lia.
  - rewrite take_app_length'; [done|]. rewrite length_take. lia.
Qed.

(** The bytes of a serialized snapshot. *)
Lemma serialize_eq d buf :
  snapshot_ok d → DistributedSnapshot_SerializeSize d ≤ Z.of_nat (length buf) →
  DistributedSnapshot_Serialize d buf =
  Ok (DistributedSnapshot_SerializeSize d,
      concat (word_bytes <$> header_words d) ++ concat (word_bytes <$> in_progress d) ++
      drop (Z.to_nat (DistributedSnapshot_SerializeSize d)) buf).
Proof.
  intros Hok Hlen. pose proof (so_count _ Hok). pose proof (so_space _ Hok).
  unfold DistributedSnapshot_SerializeSize in *. unfold DistributedSnapshot_Serialize.
  rewrite write_words_eq by (simpl; lia). cbn [mbind result_bind]. rewrite take_0, app_nil_l.
  rewrite (proj2 (Z.leb_le 0 _)), (proj2 (Z.leb_le (count d) _)) by lia. cbn [andb].
  change (0 + 4 * length (header_words d))%nat with 24%nat.
  set (h := concat (word_bytes <$> header_words d)). assert (Hh : length h = 24%nat) by done.
  fold (in_progress d). set (x := concat (word_bytes <$> in_progress d)).
  assert (Hx : length x = (4 * Z.to_nat (count d))%nat).
  { unfold x. rewrite length_word_bytes. unfold in_progress. rewrite length_take. lia. }
  unfold memcpy_at. rewrite length_app, Hh, length_drop, Hx, (proj2 (Nat.leb_le _ _)) by lia.
  cbn [mbind result_bind]. f_equal. f_equal.
  rewrite take_app_length' by done. do 2 f_equal. rewrite drop_app_ge, Hh, drop_drop by lia. f_equal. lia.
Qed.

(** The snapshot [d] in the space of a receiver. *)
Definition received d max a : DistributedSnapshot :=
  mkDS (distribTransactionTimeStamp d) (xminAllDistributedSnapshots d) (distribSnapshotId d)
    (xmin d) (xmax d) (count d) max (Some a).

Lemma received_ok d max a :
  snapshot_ok d → 0 < max → Z.of_nat (length a) = max → count d ≤ max →
  take (Z.to_nat (count d)) a = in_progress d →
  same_snapshot d (received d max a) ∧ snapshot_ok (received d max a) ∧ receiver_ok (received d max a).
Proof.
  intros Hok Hmax Hla Hle Ht. assert (Hi : in_progress (received d max a) = in_progress d) by done.
  split; [by split_and!|]. split; [|split; simpl; lia].
  destruct Hok. split; simpl; try done; [lia|by rewrite Hi].
Qed.

Lemma length_in_progress d : snapshot_ok d → Z.of_nat (length (in_progress d)) = count d.
Proof. intros [_ _ Hc Hs _]. unfold in_progress. rewrite length_take. lia. Qed.

Section Receive.
Context (malloc : Z → option (list Z)) (d target : DistributedSnapshot).
Context (Hok : snapshot_ok d) (Hrec : receiver_ok target)
        (Hmal : ∃ a, malloc (count d + 10) = Some a ∧ Z.of_nat (length a) = count d + 10).

(** Space for the ids, filled with them. *)
Lemma receive_array :
  ∃ max a a', ensure_array malloc (count d) (maxCount target) (inProgressXidArray target) = Ok (max, a) ∧
    copy_xids a (in_progress d) (count d) = Ok a' ∧ 0 < max ∧ Z.of_nat (length a') = max ∧
    Z.of_nat (length a) = max ∧ count d ≤ max ∧ take (Z.to_nat (count d)) a' = in_progress d.
Proof.
  pose proof (length_in_progress d Hok) as Hl. pose proof (so_count _ Hok) as Hc.
  destruct (ensure_array_spec malloc (count d) target) as (max & a & Hens & Hmax & Hla & Hle); [lia|done|done|].
  destruct (copy_xids_spec a (in_progress d) (count d)) as (a' & Hcp & Hla' & Hta'); [lia|lia|].
  rewrite (take_ge (in_progress d)) in Hta' by lia. exists max, a, a'. split_and!; (done || lia).
Qed.

Lemma deserialize_spec post :
  ∃ d', DistributedSnapshot_Deserialize malloc
      (concat (word_bytes <$> header_words d) ++ concat (word_bytes <$> in_progress d) ++ post) target =
    Ok (DistributedSnapshot_SerializeSize d, d') ∧
    same_snapshot d d' ∧ snapshot_ok d' ∧ receiver_ok d'.
Proof.
  destruct receive_array as (max & a & a' & Hens & Hcp & Hmax & Hla' & Hla & Hle & Hta').
  pose proof (length_in_progress d Hok) as Hl. pose proof (so_count _ Hok) as Hc.
  set (h := concat (word_bytes <$> header_words d)). set (x := concat (word_bytes <$> in_progress d)).
  assert (Hread : ∀ n w, header_words d !! n = Some w → read_word (h ++ x ++ post) (4 * n) = Ok w).
  { intros n w Hn. apply read_word_nth; [|done]. pose proof (so_words _ Hok) as Hw. rewrite !Forall_cons in Hw.
    pose proof (is_u32_u32 (distribSnapshotId d)). pose proof (is_u32_u32 (count d)).
    unfold header_words. rewrite !Forall_cons. tauto. }
  assert (Hxl : length x = (4 * Z.to_nat (count d))%nat) by (unfold x; rewrite length_word_bytes; lia).
  assert (Htl : memread (h ++ x ++ post) 24 (4 * Z.to_nat (count d)) = Ok x).
  { unfold memread. change 24%nat with (length h). rewrite !length_app, Hxl.
    rewrite (proj2 (Nat.leb_le _ _)) by lia. by rewrite drop_app_length, take_app_length'. }
  unfold DistributedSnapshot_Deserialize.
  rewrite (Hread 0%nat _ eq_refl : read_word _ 0 = _), (Hread 1%nat _ eq_refl : read_word _ 4 = _),
    (Hread 2%nat _ eq_refl : read_word _ 8 = _), (Hread 3%nat _ eq_refl : read_word _ 12 = _),
    (Hread 4%nat _ eq_refl : read_word _ 16 = _), (Hread 5%nat _ eq_refl : read_word _ 20 = _).
  cbn [mbind result_bind]. rewrite !s32_u32 by (try apply (so_id _ Hok); lia).
  assert (Hbad : match inProgressXidArray target with Some _ => maxCount target <=? 0 | None => false end = false).
  { destruct Hrec as [_ Hr]. destruct (inProgressXidArray target); [apply Z.leb_gt; tauto|done]. }
  rewrite Hbad, Hens. cbn [mbind result_bind]. destruct (Z.ltb_spec 0 (count d)) as [Hpos|Hz].
  - rewrite Htl. cbn [mbind result_bind]. unfold x. rewrite words_of_bytes_concat, Hcp by apply (so_xids _ Hok).
    cbn [mbind result_bind]. eexists. split; [|by apply (received_ok d max a')].
    unfold DistributedSnapshot_SerializeSize, received. do 2 f_equal. lia.
  - cbn [mbind result_bind]. eexists. split; [|apply (received_ok d max a); try done].
    + unfold DistributedSnapshot_SerializeSize, received. do 2 f_equal. lia.
    + replace (count d) with 0 in * by lia. destruct (in_progress d); [done|simpl in Hl; lia].
Qed.

Lemma copy_spec :
  ∃ d', DistributedSnapshot_Copy malloc target d = Ok d' ∧ same_snapshot d d' ∧ snapshot_ok d' ∧ receiver_ok d'.
Proof.
  destruct receive_array as (max & a & _ & Hens & _ & Hmax & _ & Hla & Hle & _).
  pose proof (so_count _ Hok) as Hc. pose proof (so_space _ Hok) as Hsp.
  unfold DistributedSnapshot_Copy, DistributedSnapshot_Reset. destruct Hrec as [Hm0 _].
  rewrite (proj2 (Z.ltb_ge _ _)) by lia. cbn [mbind result_bind maxCount inProgressXidArray].
  rewrite Hens. cbn [mbind result_bind].
  destruct (copy_xids_spec a (default [] (inProgressXidArray d)) (count d)) as (b & -> & Hlb & Htb); [lia|lia|].
  cbn [mbind result_bind]. destruct (received_ok d max b) as (H1 & H2 & H3); try done; [lia|].
  eexists. split; [done|]. done.
Qed.
End Receive.

(** A snapshot that is serialized into a buffer of the announced size and read back into any
    structure, with or without an array of its own, is the same snapshot; exactly the announced
    number of bytes is written and read, and the array has room for the ids.  Copying gives the
    same snapshot too, and is refused where the target is itself a copy. *)
Lemma ds_transport malloc d target buf :
  snapshot_ok d → receiver_ok target →
  (∃ a, malloc (count d + 10) = Some a ∧ Z.of_nat (length a) = count d + 10) →
  DistributedSnapshot_SerializeSize d ≤ Z.of_nat (length buf) →
  (∃ bytes d', DistributedSnapshot_Serialize d buf = Ok (DistributedSnapshot_SerializeSize d, bytes) ∧
     length bytes = length buf ∧
     drop (Z.to_nat (DistributedSnapshot_SerializeSize d)) bytes =
     drop (Z.to_nat (DistributedSnapshot_SerializeSize d)) buf ∧
     DistributedSnapshot_Deserialize malloc bytes target = Ok (DistributedSnapshot_SerializeSize d, d') ∧
     same_snapshot d d' ∧ snapshot_ok d' ∧ receiver_ok d') ∧
  (∃ d', DistributedSnapshot_Copy malloc target d = Ok d' ∧ same_snapshot d d' ∧ receiver_ok d') ∧
  (∀ copied, maxCount copied < 0 →
     DistributedSnapshot_Copy malloc copied d = Err "cannot reset a copied distributed snapshot").
Proof.
  intros Hok Hrec Hmal Hlen. split_and!.
  - rewrite serialize_eq by done.
    destruct (deserialize_spec malloc d target Hok Hrec Hmal
      (drop (Z.to_nat (DistributedSnapshot_SerializeSize d)) buf)) as (d' & Hd & Hsame).
    eexists _, d'. split; [done|]. pose proof (length_in_progress d Hok) as Hl. pose proof (so_count _ Hok).
    assert (Hsz : length (concat (word_bytes <$> header_words d) ++ concat (word_bytes <$> in_progress d)) =
      Z.to_nat (DistributedSnapshot_SerializeSize d)).
    { rewrite length_app, !length_word_bytes. unfold DistributedSnapshot_SerializeSize. simpl. lia. }
    split; [|split; [|split; [exact Hd|exact Hsame]]]; rewrite app_assoc.
    + rewrite length_app, Hsz, length_drop. lia.
    + rewrite <- Hsz at 1. by rewrite drop_app_length.
  - destruct (copy_spec malloc d target Hok Hrec Hmal) as (d' & Hc & Hs & _ & Hr). eauto.
  - intros copied Hneg. unfold DistributedSnapshot_Copy, DistributedSnapshot_Reset.
    by rewrite (proj2 (Z.ltb_lt _ _)).
Qed.

(** ** Witnesses *)
Module SnapshotExample.
(** Local ids 10 and 11 belong to the distributed ids 100 and 105 of start 7. *)
Definition log : DistributedLog :=
  mkLog 3 (<[10 := mkLogEntry 7 100]> (<[11 := mkLogEntry 7 105]> ∅)).
(** Ids 100 and 103 are in progress. *)
Definition snapshot : DistributedSnapshot := mkDS 7 90 1 100 110 2 4 (Some [100; 103; 0; 0]).
Definition mapped : DistributedSnapshotWithLocalMapping := mkDslm snapshot 10 10 1 3 [10; 0; 0].
(** A cache of two entries that knows that 12 is local. *)
Definition cache : LocalDistribXactCache := mkCache true (<[12 := mkCacheEntry 0 1]> ∅) [12] 1 0 1 1 0.

Lemma mapped_ok : dslm_ok log mapped.
Proof.
  split; simpl; [|lia|done| |].
  - unfold in_progress; simpl. repeat constructor; lia.
  - unfold cached; simpl. apply Forall_singleton. split; [done|]. exists 100. split; [done|]. simpl.
    unfold in_progress; simpl. split_and!; try lia. by left.
  - unfold cached; simpl. split; by left.
Qed.

Lemma cache_is_ok : cache_ok 2 cache.
Proof.
  split; simpl; [apply NoDup_singleton| |done|lia|done].
  intros x. rewrite list_elem_of_singleton, lookup_insert, lookup_empty. case_decide; naive_solver.
Qed.

Lemma cache_is_right : cache_agrees log 7 90 cache.
Proof.
  intros x dx. unfold mapping, cache; simpl. rewrite lookup_insert, lookup_empty. case_decide; [|done].
  subst x. intros [= <-]. done.
Qed.

Lemma snapshot_is_ok : snapshot_ok snapshot.
Proof.
  split; simpl; [|lia|lia|lia|].
  - by apply (bool_decide_unpack _); vm_compute.
  - by apply (bool_decide_unpack _); vm_compute.
Qed.
End SnapshotExample.

(** Id 11 is committed and visible; the cache learns the mapping. *)
Lemma ds_committed_test_transparent_witness :
  ∃ m' c', DistributedSnapshotWithLocalMapping_CommittedTest 2 SnapshotExample.log SnapshotExample.mapped
      SnapshotExample.cache 11 false = Ok (DISTRIBUTEDSNAPSHOT_COMMITTED_VISIBLE, m', c') ∧
    cache_ok 2 c' ∧ cache_agrees SnapshotExample.log 7 90 c'.
Proof.
  pose proof (ds_committed_test_transparent 2 ltac:(lia) SnapshotExample.log SnapshotExample.mapped
    SnapshotExample.cache 11 false 90 SnapshotExample.mapped_ok SnapshotExample.cache_is_ok ltac:(simpl; lia)
    SnapshotExample.cache_is_right) as Ht.
  assert (Hr : ∃ m' c', DistributedSnapshotWithLocalMapping_CommittedTest 2 SnapshotExample.log
    SnapshotExample.mapped SnapshotExample.cache 11 false = Ok (DISTRIBUTEDSNAPSHOT_COMMITTED_VISIBLE, m', c'))
    by (do 2 eexists; reflexivity).
  destruct Hr as (m' & c' & Hr). rewrite Hr in Ht. destruct Ht as (_ & _ & _ & Hok & Hag).
  exists m', c'. split; [exact Hr|]. split; [exact Hok|exact Hag].
Defined.

