(* ===== verification/BitFields.v ===== *)
(** * Bit fields

    Fields of a word that is put together with shifts and masks, shared by the formats that pack
    their headers that way. *)
From S2P Require Import Prelude.

(** The field of [w] bits at position [p] of a word, and a word with that field alone. *)
Definition field (p w x : Z) : Z := Z.shiftr x p mod 2 ^ w.
Definition placed (p w e : Z) : Z := Z.shiftl (e mod 2 ^ w) p.

Section Fields.
Implicit Types p w e x y : Z.

Lemma testbit_placed p w e i :
  0 ≤ p → 0 ≤ w → 0 ≤ i → Z.testbit (placed p w e) i = (p <=? i) && (i <? p + w) && Z.testbit e (i - p).
Proof.
  intros Hp Hw Hi. unfold placed. rewrite Z.shiftl_spec by done.
  destruct (Z.leb_spec p i); [|by rewrite Z.testbit_neg_r by lia].
  rewrite Z.testbit_mod_pow2 by done. cbn [andb]. f_equal.
  destruct (Z.ltb_spec (i - p) w), (Z.ltb_spec i (p + w)); lia.
Qed.

Lemma testbit_field p w x i :
  0 ≤ p → 0 ≤ w → 0 ≤ i → Z.testbit (field p w x) i = (i <? w) && Z.testbit x (i + p).
Proof. intros. unfold field. by rewrite Z.testbit_mod_pow2, Z.shiftr_spec. Qed.

Lemma mask_placed p w e : 0 ≤ p → 0 ≤ w → Z.land (Z.shiftl (Z.ones w) p) (Z.shiftl e p) = placed p w e.
Proof.
  intros Hp Hw. rewrite <- Z.shiftl_land, Z.land_comm, Z.land_ones by done. done.
Qed.

Lemma mask_field p w x : 0 ≤ p → 0 ≤ w → Z.shiftr (Z.land x (Z.shiftl (Z.ones w) p)) p = field p w x.
Proof.
  intros Hp Hw. apply Z.bits_inj'. intros i Hi. rewrite testbit_field, Z.shiftr_spec, Z.land_spec by done.
  rewrite Z.shiftl_spec by lia. rewrite Z.add_simpl_r, Z.testbit_ones_nonneg by lia. apply andb_comm.
Qed.

Lemma field_lor p w x y : 0 ≤ p → 0 ≤ w → field p w (Z.lor x y) = Z.lor (field p w x) (field p w y).
Proof.
  intros. apply Z.bits_inj'. intros i Hi. rewrite Z.lor_spec, !testbit_field, Z.lor_spec by done.
  by destruct (_ <? _).
Qed.

Lemma field_same p w e : 0 ≤ p → 0 ≤ w → field p w (placed p w e) = e mod 2 ^ w.
Proof.
  intros Hp Hw. unfold field, placed. rewrite Z.shiftr_shiftl_l, Z.sub_diag by lia.
  rewrite Z.shiftl_0_r. apply Z.mod_mod. lia.
Qed.

Lemma field_disjoint p w p' w' e :
  0 ≤ p → 0 ≤ w → 0 ≤ p' → 0 ≤ w' → p + w ≤ p' ∨ p' + w' ≤ p → field p w (placed p' w' e) = 0.
Proof.
  intros Hp Hw Hp' Hw' Hd. apply Z.bits_inj'. intros i Hi. rewrite Z.bits_0, testbit_field, testbit_placed by lia.
  destruct (Z.ltb_spec i w), (Z.leb_spec p' (i + p)), (Z.ltb_spec (i + p) (p' + w')); simpl; done || lia.
Qed.

Lemma field_0 p w : field p w 0 = 0.
Proof. unfold field. by rewrite Z.shiftr_0_l, Zmod_0_l. Qed.

Lemma placed_u32 p w e : 0 ≤ p → 0 ≤ w → p + w ≤ 32 → is_u32 (placed p w e).
Proof.
  intros Hp Hw Hpw. unfold is_u32, placed. pose proof (Z.mod_pos_bound e (2 ^ w) ltac:(lia)).
  rewrite Z.shiftl_mul_pow2 by done. split; [nia|].
  apply Z.lt_le_trans with (2 ^ w * 2 ^ p); [nia|]. rewrite <- Z.pow_add_r by done.
  apply Z.pow_le_mono_r; lia.
Qed.

(** A number in two parts. *)
Lemma join_parts e a b :
  0 ≤ a → 0 ≤ b → Z.lor (Z.shiftl (Z.shiftr e b mod 2 ^ a) b) (e mod 2 ^ b) = e mod 2 ^ (a + b).
Proof.
  intros Ha Hb. apply Z.bits_inj'. intros i Hi.
  rewrite Z.lor_spec, Z.shiftl_spec, !Z.testbit_mod_pow2 by lia.
  destruct (Z.ltb_spec i b).
  - rewrite Z.testbit_neg_r, andb_false_r by lia. destruct (Z.ltb_spec i (a + b)); [done|lia].
  - rewrite Z.shiftr_spec, Z.sub_add by lia. cbn [andb]. rewrite orb_false_r.
    destruct (Z.ltb_spec (i - b) a), (Z.ltb_spec i (a + b)); done || lia.
Qed.
Lemma mask_low w e : 0 ≤ w → Z.land (Z.ones w) e = placed 0 w e.
Proof. intros Hw. unfold placed. by rewrite Z.shiftl_0_r, Z.land_comm, Z.land_ones. Qed.

Lemma field_low w x : 0 ≤ w → Z.land x (Z.ones w) = field 0 w x.
Proof. intros Hw. unfold field. by rewrite Z.shiftr_0_r, Z.land_ones. Qed.

(** A number below the bits of another. *)
Lemma lor_below a n e : 0 ≤ n → 0 ≤ e < 2 ^ n → Z.lor (a * 2 ^ n) e = a * 2 ^ n + e.
Proof.
  intros Hn He. assert (Hd : Z.land (a * 2 ^ n) e = 0).
  { rewrite <- Z.shiftl_mul_pow2 by done. apply Z.bits_inj'. intros i Hi.
    rewrite Z.land_spec, Z.shiftl_spec, Z.bits_0 by done. destruct (Z.ltb_spec i n).
    - by rewrite Z.testbit_neg_r by lia.
    - rewrite (testbit_lt_pow2 e n) by lia. apply andb_false_r. }
  by rewrite <- Z.lxor_lor, Z.add_nocarry_lxor.
Qed.
End Fields.
