(* ===== verification/Bytes.v ===== *)
(** * Buffers of bytes

    A buffer is a list of bytes; an access outside of it is an error value.  Integers are stored
    in the little-endian order of the platform.  [holds mem off bs] says that the bytes [bs] are
    in the buffer at the offset [off]; writes keep what is held elsewhere. *)
From S2P Require Import Prelude.

Abbreviation zlen l := (Z.of_nat (length l)).

Definition peek (mem : list Z) (off n : Z) : result (list Z) :=
  if (0 <=? off) && (0 <=? n) && (off + n <=? zlen mem)
  then Ok (take (Z.to_nat n) (drop (Z.to_nat off) mem)) else Err "read outside the buffer".

Definition poke (mem : list Z) (off : Z) (bs : list Z) : result (list Z) :=
  if (0 <=? off) && (off + zlen bs <=? zlen mem)
  then Ok (take (Z.to_nat off) mem ++ bs ++ drop (Z.to_nat off + length bs) mem)
  else Err "write outside the buffer".

Fixpoint le_bytes (n : nat) (v : Z) : list Z :=
  match n with O => [] | S n => v mod 256 :: le_bytes n (v / 256) end.

Definition le_value (bs : list Z) : Z := foldr (λ b acc, b + 256 * acc) 0 bs.

(** Unsigned integers of [n] bytes. *)
Definition load (n : nat) (mem : list Z) (off : Z) : result Z :=
  bs ← peek mem off (Z.of_nat n); Ok (le_value bs).
Definition store (n : nat) (mem : list Z) (off v : Z) : result (list Z) := poke mem off (le_bytes n v).

Section Bytes.
Implicit Types (mem bs : list Z) (off v : Z).

Lemma length_le_bytes n v : length (le_bytes n v) = n.
Proof. revert v. induction n; intros v; simpl; auto. Qed.

Lemma le_bytes_u8 n v : Forall is_u8 (le_bytes n v).
Proof.
  revert v. induction n; intros v; simpl; constructor; [|done]. by apply Z.mod_pos_bound.
Qed.

Lemma le_value_bytes n v : le_value (le_bytes n v) = v mod 256 ^ Z.of_nat n.
Proof.
  revert v. induction n as [|n IH]; intros v; [by rewrite Z.mod_1_r|].
  cbn [le_bytes le_value foldr]. fold (le_value (le_bytes n (v / 256))). rewrite IH.
  rewrite Nat2Z.inj_succ, Z.pow_succ_r, Z.rem_mul_r by lia. done.
Qed.

Lemma le_value_inj bs1 bs2 :
  Forall is_u8 bs1 → Forall is_u8 bs2 → length bs1 = length bs2 → le_value bs1 = le_value bs2 → bs1 = bs2.
Proof.
  revert bs2. induction bs1 as [|b1 bs1 IH]; intros [|b2 bs2] H1 H2 Hl Hv; try done.
  apply Forall_cons in H1 as [Hb1 H1]. apply Forall_cons in H2 as [Hb2 H2]. unfold is_u8 in *.
  cbn [le_value foldr] in Hv. fold (le_value bs1) (le_value bs2) in Hv.
  assert (b1 = b2 ∧ le_value bs1 = le_value bs2) as [-> Hv'] by lia. f_equal. apply IH; auto.
Qed.

(** ** What a buffer holds *)

Definition holds mem off bs : Prop :=
  0 ≤ off ∧ ∀ i b, bs !! i = Some b → mem !! (Z.to_nat off + i)%nat = Some b.

Lemma holds_nil mem off : 0 ≤ off → holds mem off [].
Proof. split; [done|]. intros i b. by rewrite lookup_nil. Qed.

Lemma holds_app mem off bs1 bs2 :
  holds mem off (bs1 ++ bs2) ↔ holds mem off bs1 ∧ holds mem (off + zlen bs1) bs2.
Proof.
  split.
  - intros [H0 H]. split; (split; [lia|]); intros i b Hi.
    + apply H. by apply lookup_app_l_Some.
    + replace (Z.to_nat (off + zlen bs1) + i)%nat with (Z.to_nat off + (length bs1 + i))%nat by lia.
      apply H. rewrite lookup_app_r by lia. by replace (length bs1 + i - length bs1)%nat with i by lia.
  - intros [[H0 H1] [_ H2]]. split; [done|]. intros i b [Hi|[Hl Hi]]%lookup_app_Some; [auto|].
    apply H2 in Hi. by replace (Z.to_nat off + i)%nat with
      (Z.to_nat (off + zlen bs1) + (i - length bs1))%nat by lia.
Qed.

Lemma holds_bound mem off bs : holds mem off bs → bs = [] ∨ off + zlen bs ≤ zlen mem.
Proof.
  intros [H0 H]. destruct bs as [|b bs] using rev_ind; [by left|right].
  specialize (H (length bs) b (lookup_last _ _)). apply lookup_lt_Some in H. rewrite length_app. simpl. lia.
Qed.

Lemma peek_holds mem off bs :
  holds mem off bs → off + zlen bs ≤ zlen mem → peek mem off (zlen bs) = Ok bs.
Proof.
  intros [H0 H] Hl. unfold peek. rewrite (proj2 (Z.leb_le 0 off)), (proj2 (Z.leb_le 0 _)), (proj2 (Z.leb_le _ _))
    by lia. simpl. f_equal. rewrite Nat2Z.id. apply list_eq_same_length with (length bs); [done| |].
  - rewrite length_take, length_drop. lia.
  - intros i x y Hi Hx Hy. rewrite lookup_take_lt, lookup_drop in Hx by lia.
    apply H in Hy. congruence.
Qed.

Lemma poke_spec mem off bs :
  0 ≤ off → off + zlen bs ≤ zlen mem →
  ∃ mem', poke mem off bs = Ok mem' ∧ length mem' = length mem ∧
    ∀ i, mem' !! i = if decide (Z.to_nat off ≤ i < Z.to_nat off + length bs)%nat
                     then bs !! (i - Z.to_nat off)%nat else mem !! i.
Proof.
  intros H0 Hl. unfold poke. rewrite (proj2 (Z.leb_le 0 off)), (proj2 (Z.leb_le _ _)) by lia. simpl.
  eexists. split; [done|]. split; [rewrite !length_app, length_take, length_drop; lia|]. intros i.
  assert (Htake : length (take (Z.to_nat off) mem) = Z.to_nat off) by (rewrite length_take; lia).
  case_decide as Hi.
  - rewrite lookup_app_r, Htake by lia. by rewrite lookup_app_l by lia.
  - destruct (decide (i < Z.to_nat off)%nat).
    + rewrite lookup_app_l by lia. by rewrite lookup_take_lt.
    + rewrite lookup_app_r, Htake, lookup_app_r, lookup_drop by lia. f_equal. lia.
Qed.

(** A write: the written bytes are held, and whatever does not overlap them. *)
Lemma poke_holds mem off bs :
  0 ≤ off → off + zlen bs ≤ zlen mem →
  ∃ mem', poke mem off bs = Ok mem' ∧ length mem' = length mem ∧ holds mem' off bs ∧
    ∀ off' bs', holds mem off' bs' → off' + zlen bs' ≤ off ∨ off + zlen bs ≤ off' → holds mem' off' bs'.
Proof.
  intros H0 Hl. destruct (poke_spec mem off bs H0 Hl) as (mem' & Hp & Hlen & Hat).
  exists mem'. split_and!; [done|done| |].
  - split; [done|]. intros i b Hi. apply lookup_lt_Some in Hi as Hlt. rewrite Hat, decide_True by lia.
    by replace (Z.to_nat off + i - Z.to_nat off)%nat with i by lia.
  - intros off' bs' [H0' Hh] Hdis. split; [done|]. intros i b Hi. apply lookup_lt_Some in Hi as Hlt.
    rewrite Hat, decide_False by lia. auto.
Qed.

Lemma holds_length_unique mem off bs1 bs2 :
  holds mem off bs1 → holds mem off bs2 → length bs1 = length bs2 → bs1 = bs2.
Proof.
  intros [_ H1] [_ H2] Hl. apply list_eq_same_length with (length bs2); [done|done|].
  intros i x y Hi Hx Hy. apply H1 in Hx. apply H2 in Hy. congruence.
Qed.

Lemma load_holds n mem off v :
  holds mem off (le_bytes n v) → off + Z.of_nat n ≤ zlen mem → load n mem off = Ok (v mod 256 ^ Z.of_nat n).
Proof.
  intros Hh Hl. unfold load. pose proof (peek_holds mem off (le_bytes n v) Hh) as Hp.
  rewrite length_le_bytes in Hp. rewrite Hp by done. simpl. by rewrite le_value_bytes.
Qed.

Lemma store_holds n mem off v :
  0 ≤ off → off + Z.of_nat n ≤ zlen mem →
  ∃ mem', store n mem off v = Ok mem' ∧ length mem' = length mem ∧ holds mem' off (le_bytes n v) ∧
    ∀ off' bs', holds mem off' bs' → off' + zlen bs' ≤ off ∨ off + Z.of_nat n ≤ off' → holds mem' off' bs'.
Proof.
  intros H0 Hl. unfold store. pose proof (poke_holds mem off (le_bytes n v) H0) as Hp.
  rewrite length_le_bytes in Hp. auto.
Qed.

(** Everything held outside [from .. to - 1] stays. *)
Definition frames (mem mem' : list Z) (from to : Z) : Prop :=
  length mem' = length mem ∧
  ∀ off bs, holds mem off bs → off + zlen bs ≤ from ∨ to ≤ off → holds mem' off bs.

Lemma frames_trans mem1 mem2 mem3 a b c d :
  frames mem1 mem2 a b → frames mem2 mem3 c d → frames mem1 mem3 (Z.min a c) (Z.max b d).
Proof. intros [L1 F1] [L2 F2]. split; [congruence|]. intros off bs Hh Hd. apply F2; [apply F1; [done|lia]|lia]. Qed.

Lemma frames_weaken mem mem' a b a' b' :
  frames mem mem' a b → a' ≤ a → b ≤ b' → frames mem mem' a' b'.
Proof. intros [L F] Ha Hb. split; [done|]. intros off bs Hh Hd. apply F; [done|lia]. Qed.

Lemma peek_total mem off n :
  0 ≤ off → 0 ≤ n → off + n ≤ zlen mem → ∃ bs, peek mem off n = Ok bs ∧ holds mem off bs ∧ zlen bs = n.
Proof.
  intros H0 Hn Hl. exists (take (Z.to_nat n) (drop (Z.to_nat off) mem)).
  assert (Hlen : zlen (take (Z.to_nat n) (drop (Z.to_nat off) mem)) = n)
    by (rewrite length_take, length_drop; lia).
  assert (Hh : holds mem off (take (Z.to_nat n) (drop (Z.to_nat off) mem))).
  { split; [done|]. intros i b Hi. apply lookup_take_Some in Hi as [Hi _]. by rewrite lookup_drop in Hi. }
  split_and!; [|done|done]. rewrite <- Hlen at 1. apply peek_holds; [done|lia].
Qed.

(** Reads of a part that is framed. *)
Lemma peek_frames mem mem' from to off n :
  frames mem mem' from to → off + n ≤ from → 0 ≤ off → 0 ≤ n → off + n ≤ zlen mem →
  peek mem' off n = peek mem off n.
Proof.
  intros [Hl F] Hfrom H0 Hn Hb. destruct (peek_total mem off n H0 Hn Hb) as (bs & -> & Hh & <-).
  apply peek_holds; [|by rewrite Hl]. apply F; [done|by left].
Qed.

Lemma frames_store n mem off v :
  0 ≤ off → off + Z.of_nat n ≤ zlen mem →
  ∃ mem', store n mem off v = Ok mem' ∧ holds mem' off (le_bytes n v) ∧ frames mem mem' off (off + Z.of_nat n).
Proof.
  intros H0 Hl. destruct (store_holds n mem off v H0 Hl) as (mem' & Hs & Hlen & Hh & F). exists mem'. by split_and!.
Qed.

Lemma frames_poke mem off bs :
  0 ≤ off → off + zlen bs ≤ zlen mem →
  ∃ mem', poke mem off bs = Ok mem' ∧ holds mem' off bs ∧ frames mem mem' off (off + zlen bs).
Proof.
  intros H0 Hl. destruct (poke_holds mem off bs H0 Hl) as (mem' & Hs & Hlen & Hh & F). exists mem'. by split_and!.
Qed.

Lemma load_small n mem off v :
  holds mem off (le_bytes n v) → (0 < n)%nat → 0 ≤ v < 256 ^ Z.of_nat n → load n mem off = Ok v.
Proof.
  intros Hh Hn Hv. destruct (holds_bound _ _ _ Hh) as [Hnil|Hb].
  - apply (f_equal length) in Hnil. rewrite length_le_bytes in Hnil. simpl in Hnil. lia.
  - rewrite length_le_bytes in Hb. rewrite (load_holds n mem off v) by done. by rewrite Z.mod_small.
Qed.

(** ** Arrays of integers of [n] bytes *)

Definition array (n : nat) (vs : list Z) : list Z := flat_map (le_bytes n) vs.

Lemma array_app n vs1 vs2 : array n (vs1 ++ vs2) = array n vs1 ++ array n vs2.
Proof. apply flat_map_app. Qed.

Lemma length_array n vs : length (array n vs) = (n * length vs)%nat.
Proof.
  induction vs as [|v vs IH]; [simpl; lia|]. change (array n (v :: vs)) with (le_bytes n v ++ array n vs).
  rewrite length_app, length_le_bytes, IH. cbn [length]. lia.
Qed.

Lemma array_lookup n mem off vs i v :
  holds mem off (array n vs) → vs !! i = Some v → holds mem (off + Z.of_nat i * Z.of_nat n) (le_bytes n v).
Proof.
  intros Hh Hi. apply list_elem_of_split_length in Hi as (vs1 & vs2 & -> & ->).
  rewrite array_app in Hh. apply holds_app in Hh as [_ Hh]. rewrite length_array in Hh.
  change (array n (v :: vs2)) with (le_bytes n v ++ array n vs2) in Hh. apply holds_app in Hh as [Hh _].
  by replace (off + Z.of_nat (length vs1) * Z.of_nat n) with (off + Z.of_nat (n * length vs1)) by lia.
Qed.
End Bytes.
