(* ===== verification/AOStorageFormat.v ===== *)
(** * Block headers of append-only storage
    ([cdb/cdbappendonlystorageformat.c], [cdb/cdbappendonlystorage_int.h], [cdb/cdbappendonlystorage.h])

    A block of an append-only table starts with a header of 8 or 16 bytes whose bit fields are
    packed with shifts and masks into 32-bit words, two optional checksums behind the first 8
    bytes, and an optional first row number.  The buffer of the block is a list of bytes.  The
    CRC routine is chosen for the processor at run time and is a parameter. *)
From S2P Require Import Prelude Bytes.

Definition AORelationVersion_None : Z := 0.
Definition AORelationVersion_Original : Z := 1.
Definition MaxAORelationVersion : Z := 4.

Definition AORelationVersion_IsValid (version : Z) : bool :=
  (AORelationVersion_None <? version) && (version <? MaxAORelationVersion).

Definition IsAOBlockAndMemtupleAlignmentFixed (version : Z) : result bool :=
  if AORelationVersion_IsValid version then Ok (AORelationVersion_Original <? version)
  else Err "append-only table version is invalid".

(** Lengths are not negative here. *)
Definition AOStorage_RoundUp4 (l : Z) : Z := (l + 3) / 4 * 4.
Definition AOStorage_RoundUp8 (l : Z) : Z := (l + 7) / 8 * 8.

Definition AOStorage_RoundUp (l version : Z) : result Z :=
  fixed ← IsAOBlockAndMemtupleAlignmentFixed version;
  Ok (if fixed : bool then AOStorage_RoundUp8 l else AOStorage_RoundUp4 l).

Inductive AoHeaderKind :=
  | AoHeaderKind_SmallContent | AoHeaderKind_LargeContent
  | AoHeaderKind_NonBulkDenseContent | AoHeaderKind_BulkDenseContent.

#[global] Instance AoHeaderKind_eq_dec : EqDecision AoHeaderKind.
Proof. solve_decision. Defined.

Definition AoHeaderKind_None : Z := 0.
Definition MaxAoHeaderKind : Z := 5.

Definition kind_value (k : AoHeaderKind) : Z :=
  match k with
  | AoHeaderKind_SmallContent => 1
  | AoHeaderKind_LargeContent => 2
  | AoHeaderKind_NonBulkDenseContent => 3
  | AoHeaderKind_BulkDenseContent => 4
  end.

(** The kind of a value, for the values the code has a case for. *)
Definition kind_of_value (v : Z) : option AoHeaderKind :=
  List.find (λ k, kind_value k =? v)
    [AoHeaderKind_SmallContent; AoHeaderKind_LargeContent; AoHeaderKind_NonBulkDenseContent;
     AoHeaderKind_BulkDenseContent].

Definition AoHeader_RegularSize : Z := 8.
Definition AoHeader_LongSize : Z := 16.
Definition sizeof_pg_crc32 : Z := 4.
Definition sizeof_int64 : Z := 8.

Definition AoHeader_IsLong (v : Z) : result bool :=
  match kind_of_value v with
  | Some AoHeaderKind_BulkDenseContent => Ok true
  | Some _ => Ok false
  | None => Err "Unexpected Append-Only header kind"
  end.

Definition AoHeader_Size (isLong hasChecksums hasFirstRowNum : bool) : Z :=
  let headerLen := if isLong then AoHeader_LongSize else AoHeader_RegularSize in
  let headerLen := if hasChecksums then headerLen + 2 * sizeof_pg_crc32 else headerLen in
  if hasFirstRowNum then headerLen + sizeof_int64 else headerLen.

Inductive AOHeaderCheckError :=
  | AOHeaderCheckFirst32BitsAllZeroes | AOHeaderCheckReservedBit0Not0
  | AOHeaderCheckInvalidHeaderKindNone | AOHeaderCheckInvalidHeaderKind
  | AOHeaderCheckInvalidCompressedLen | AOHeaderCheckInvalidOverallBlockLen
  | AOHeaderCheckLargeContentLenIsZero.

#[global] Instance AOHeaderCheckError_eq_dec : EqDecision AOHeaderCheckError.
Proof. solve_decision. Defined.

(** ** The packed words

    The header structures of the four kinds have the same two words. *)
Record AOHeader := mkAOHeader { header_bytes_0_3 : Z; header_bytes_4_7 : Z }.

Definition AOHeaderGet_reserved0 (h : AOHeader) : Z := Z.shiftr (header_bytes_0_3 h) 31.
Definition AOHeaderGet_headerKind (h : AOHeader) : Z :=
  Z.shiftr (Z.land (header_bytes_0_3 h) 0x70000000) 28.

Definition AOHeaderInit_Init : AOHeader := mkAOHeader 0 0.
Definition or_0_3 (v : Z) (h : AOHeader) : AOHeader :=
  mkAOHeader (Z.lor (header_bytes_0_3 h) v) (header_bytes_4_7 h).
Definition or_4_7 (v : Z) (h : AOHeader) : AOHeader :=
  mkAOHeader (header_bytes_0_3 h) (Z.lor (header_bytes_4_7 h) v).

(** The fields all kinds share. *)
Definition AOHeaderInit_headerKind (e : Z) : AOHeader → AOHeader :=
  or_0_3 (Z.land 0x70000000 (Z.shiftl e 28)).
Definition AOHeaderInit_hasFirstRowNum (e : bool) (h : AOHeader) : AOHeader :=
  if e then or_0_3 0x08000000 h else h.
Definition AOHeaderInit_executorBlockKind (e : Z) : AOHeader → AOHeader :=
  or_0_3 (Z.land 0x07000000 (Z.shiftl e 24)).

Definition AOHeaderGet_hasFirstRowNum (h : AOHeader) : bool :=
  negb (Z.shiftr (Z.land (header_bytes_0_3 h) 0x08000000) 27 =? 0).
Definition AOHeaderGet_executorBlockKind (h : AOHeader) : Z :=
  Z.shiftr (Z.land (header_bytes_0_3 h) 0x07000000) 24.

(** Small content; the bulk dense header has the same two lengths. *)
Definition AOSmallContentHeaderInit_rowCount (e : Z) : AOHeader → AOHeader :=
  or_0_3 (Z.land 0x00FFFC00 (Z.shiftl e 10)).
Definition AOSmallContentHeaderInit_dataLength (e : Z) (h : AOHeader) : AOHeader :=
  or_4_7 (Z.land 0xFFE00000 (Z.shiftl e 21)) (or_0_3 (Z.land 0x000003FF (Z.shiftr e 11)) h).
Definition AOSmallContentHeaderInit_compressedLength (e : Z) : AOHeader → AOHeader :=
  or_4_7 (Z.land 0x001FFFFF e).
Definition AOSmallContentHeaderGet_rowCount (h : AOHeader) : Z :=
  Z.shiftr (Z.land (header_bytes_0_3 h) 0x00FFFC00) 10.
Definition AOSmallContentHeaderGet_dataLength (h : AOHeader) : Z :=
  Z.lor (Z.shiftl (Z.land (header_bytes_0_3 h) 0x000003FF) 11)
        (Z.shiftr (Z.land (header_bytes_4_7 h) 0xFFE00000) 21).
Definition AOSmallContentHeaderGet_compressedLength (h : AOHeader) : Z :=
  Z.land (header_bytes_4_7 h) 0x001FFFFF.

(** Large content. *)
Definition AOLargeContentHeaderInit_largeRowCount (e : Z) (h : AOHeader) : AOHeader :=
  or_4_7 (Z.land 0xC0000000 (Z.shiftl e 30)) (or_0_3 (Z.land 0x007FFFFF (Z.shiftr e 2)) h).
Definition AOLargeContentHeaderInit_largeContentLength (e : Z) : AOHeader → AOHeader :=
  or_4_7 (Z.land 0x3FFFFFFF e).
Definition AOLargeContentHeaderGet_largeRowCount (h : AOHeader) : Z :=
  Z.lor (Z.shiftl (Z.land (header_bytes_0_3 h) 0x007FFFFF) 2)
        (Z.shiftr (Z.land (header_bytes_4_7 h) 0xC0000000) 30).
Definition AOLargeContentHeaderGet_largeContentLength (h : AOHeader) : Z :=
  Z.land (header_bytes_4_7 h) 0x3FFFFFFF.

(** Non-bulk dense content. *)
Definition AONonBulkDenseContentHeaderInit_dataLength (e : Z) : AOHeader → AOHeader :=
  or_0_3 (Z.land 0x001FFFFF e).
Definition AONonBulkDenseContentHeaderInit_largeRowCount (e : Z) : AOHeader → AOHeader :=
  or_4_7 (Z.land 0x3FFFFFFF e).
Definition AONonBulkDenseContentHeaderGet_dataLength (h : AOHeader) : Z :=
  Z.land (header_bytes_0_3 h) 0x001FFFFF.
Definition AONonBulkDenseContentHeaderGet_largeRowCount (h : AOHeader) : Z :=
  Z.land (header_bytes_4_7 h) 0x3FFFFFFF.

(** Bulk dense content: the extension with the row count. *)
Definition AOBulkDenseContentHeaderExtInit_largeRowCount (e : Z) : AOHeader → AOHeader :=
  or_4_7 (Z.land 0x3FFFFFFF e).
Definition AOBulkDenseContentHeaderExtGet_largeRowCount (h : AOHeader) : Z :=
  Z.land (header_bytes_4_7 h) 0x3FFFFFFF.

(** The header words of the four kinds, in the order of the [Make] routines. *)
Definition small_content_header (hasFirstRowNum : bool)
    (executorKind rowCount dataLength compressedLength : Z) : AOHeader :=
  let h := AOHeaderInit_Init in
  let h := AOHeaderInit_headerKind (kind_value AoHeaderKind_SmallContent) h in
  let h := AOHeaderInit_executorBlockKind executorKind h in
  let h := AOSmallContentHeaderInit_rowCount rowCount h in
  let h := AOSmallContentHeaderInit_dataLength dataLength h in
  let h := AOHeaderInit_hasFirstRowNum hasFirstRowNum h in
  if 0 <? compressedLength then AOSmallContentHeaderInit_compressedLength compressedLength h else h.

Definition large_content_header (hasFirstRowNum : bool)
    (executorKind largeRowCount largeContentLength : Z) : AOHeader :=
  let h := AOHeaderInit_Init in
  let h := AOHeaderInit_headerKind (kind_value AoHeaderKind_LargeContent) h in
  let h := AOHeaderInit_executorBlockKind executorKind h in
  let h := AOLargeContentHeaderInit_largeRowCount largeRowCount h in
  let h := AOLargeContentHeaderInit_largeContentLength largeContentLength h in
  AOHeaderInit_hasFirstRowNum hasFirstRowNum h.

Definition nonbulk_dense_content_header (hasFirstRowNum : bool)
    (executorKind rowCount dataLength : Z) : AOHeader :=
  let h := AOHeaderInit_Init in
  let h := AOHeaderInit_headerKind (kind_value AoHeaderKind_NonBulkDenseContent) h in
  let h := AOHeaderInit_executorBlockKind executorKind h in
  let h := AONonBulkDenseContentHeaderInit_largeRowCount rowCount h in
  let h := AONonBulkDenseContentHeaderInit_dataLength dataLength h in
  AOHeaderInit_hasFirstRowNum hasFirstRowNum h.

Definition bulk_dense_content_header (hasFirstRowNum : bool)
    (executorKind dataLength compressedLength : Z) : AOHeader :=
  let h := AOHeaderInit_Init in
  let h := AOHeaderInit_headerKind (kind_value AoHeaderKind_BulkDenseContent) h in
  let h := AOHeaderInit_executorBlockKind executorKind h in
  let h := AOSmallContentHeaderInit_dataLength dataLength h in
  let h := AOHeaderInit_hasFirstRowNum hasFirstRowNum h in
  if 0 <? compressedLength then AOSmallContentHeaderInit_compressedLength compressedLength h else h.

Definition bulk_dense_content_ext (rowCount : Z) : AOHeader :=
  AOBulkDenseContentHeaderExtInit_largeRowCount rowCount AOHeaderInit_Init.

(** ** Headers in the buffer *)

Definition read_header (mem : list Z) (off : Z) : result AOHeader :=
  w0 ← load 4 mem off; w1 ← load 4 mem (off + 4); Ok (mkAOHeader w0 w1).

Definition write_header (mem : list Z) (off : Z) (h : AOHeader) : result (list Z) :=
  mem ← store 4 mem off (header_bytes_0_3 h); store 4 mem (off + 4) (header_bytes_4_7 h).

Section Format.
Context (COMP_CRC32C : Z → list Z → Z).

Definition INIT_CRC32C : Z := 0xFFFFFFFF.

(** A [pg_crc32] has 32 bits. *)
Definition AppendOnlyStorageFormat_ComputeHeaderChecksum (mem : list Z) (headerLen : Z) : result Z :=
  bs ← peek mem 0 headerLen; Ok (u32 (COMP_CRC32C INIT_CRC32C bs)).

Definition AppendOnlyStorageFormat_ComputeBlockChecksum (mem : list Z) (headerLen overallBlockLen : Z) :
    result Z :=
  let dataOffset := headerLen + sizeof_pg_crc32 in
  bs ← peek mem dataOffset (overallBlockLen - dataOffset); Ok (u32 (COMP_CRC32C INIT_CRC32C bs)).

Definition AppendOnlyStorageFormat_RegularHeaderLenNeeded (usingChecksum : bool) : Z :=
  AoHeader_RegularSize + (if usingChecksum then 2 * sizeof_pg_crc32 else 0).

Definition AppendOnlyStorageFormat_AddFirstRowNum (mem : list Z) (usingChecksums : bool)
    (firstRowNum : Z) : result (list Z) :=
  h ← read_header mem 0;
  isLong ← AoHeader_IsLong (AOHeaderGet_headerKind h);
  let offsetToFirstRowNum := if isLong : bool then AoHeader_LongSize else AoHeader_RegularSize in
  let offsetToFirstRowNum :=
    if usingChecksums then offsetToFirstRowNum + 2 * sizeof_pg_crc32 else offsetToFirstRowNum in
  store 8 mem offsetToFirstRowNum firstRowNum.

Definition AppendOnlyStorageFormat_AddBlockHeaderChecksums (mem : list Z)
    (isCompressed hasFirstRowNum : bool) (version dataLength compressedLength : Z) : result (list Z) :=
  h ← read_header mem 0;
  let firstHeaderLen := AoHeader_RegularSize in
  let firstHeaderAndBlockChecksumLen := firstHeaderLen + sizeof_pg_crc32 in
  let offset := firstHeaderAndBlockChecksumLen + sizeof_pg_crc32 in
  isLong ← AoHeader_IsLong (AOHeaderGet_headerKind h);
  let offset := if isLong : bool then offset + AoHeader_RegularSize else offset in
  let offset := if hasFirstRowNum then offset + sizeof_int64 else offset in
  rounded ← AOStorage_RoundUp (if isCompressed then compressedLength else dataLength) version;
  let overallBlockLen := offset + rounded in
  blockChecksum ← AppendOnlyStorageFormat_ComputeBlockChecksum mem firstHeaderAndBlockChecksumLen
                    overallBlockLen;
  mem ← store 4 mem firstHeaderLen blockChecksum;
  headerChecksum ← AppendOnlyStorageFormat_ComputeHeaderChecksum mem firstHeaderAndBlockChecksumLen;
  store 4 mem firstHeaderAndBlockChecksumLen headerChecksum.

(** The optional parts behind the header, in the order of the code. *)
Definition add_first_row (mem : list Z) (usingChecksums hasFirstRowNum : bool) (firstRowNum : Z) :
    result (list Z) :=
  if hasFirstRowNum then AppendOnlyStorageFormat_AddFirstRowNum mem usingChecksums firstRowNum
  else Ok mem.

Definition AppendOnlyStorageFormat_MakeSmallContentHeader (mem : list Z)
    (usingChecksums hasFirstRowNum : bool)
    (version firstRowNum executorKind rowCount dataLength compressedLength : Z) : result (list Z) :=
  let isCompressed := 0 <? compressedLength in
  mem ← write_header mem 0
          (small_content_header hasFirstRowNum executorKind rowCount dataLength compressedLength);
  mem ← add_first_row mem usingChecksums hasFirstRowNum firstRowNum;
  if usingChecksums
  then AppendOnlyStorageFormat_AddBlockHeaderChecksums mem isCompressed hasFirstRowNum version
         dataLength compressedLength
  else Ok mem.

Definition AppendOnlyStorageFormat_MakeLargeContentHeader (mem : list Z)
    (usingChecksums hasFirstRowNum : bool)
    (version firstRowNum executorKind largeRowCount largeContentLength : Z) : result (list Z) :=
  mem ← write_header mem 0
          (large_content_header hasFirstRowNum executorKind largeRowCount largeContentLength);
  mem ← add_first_row mem usingChecksums hasFirstRowNum firstRowNum;
  if usingChecksums
  then AppendOnlyStorageFormat_AddBlockHeaderChecksums mem false false version 0 0
  else Ok mem.

Definition AppendOnlyStorageFormat_MakeNonBulkDenseContentHeader (mem : list Z)
    (usingChecksums hasFirstRowNum : bool)
    (version firstRowNum executorKind rowCount dataLength : Z) : result (list Z) :=
  mem ← write_header mem 0
          (nonbulk_dense_content_header hasFirstRowNum executorKind rowCount dataLength);
  mem ← add_first_row mem usingChecksums hasFirstRowNum firstRowNum;
  if usingChecksums
  then AppendOnlyStorageFormat_AddBlockHeaderChecksums mem false hasFirstRowNum version dataLength 0
  else Ok mem.

Definition AppendOnlyStorageFormat_MakeBulkDenseContentHeader (mem : list Z)
    (usingChecksums hasFirstRowNum : bool)
    (version firstRowNum executorKind rowCount dataLength compressedLength : Z) : result (list Z) :=
  let firstHeaderAndChecksumsLen :=
    AoHeader_RegularSize + (if usingChecksums then 2 * sizeof_pg_crc32 else 0) in
  let isCompressed := 0 <? compressedLength in
  mem ← write_header mem 0
          (bulk_dense_content_header hasFirstRowNum executorKind dataLength compressedLength);
  mem ← write_header mem firstHeaderAndChecksumsLen (bulk_dense_content_ext rowCount);
  mem ← add_first_row mem usingChecksums hasFirstRowNum firstRowNum;
  if usingChecksums
  then AppendOnlyStorageFormat_AddBlockHeaderChecksums mem isCompressed hasFirstRowNum version
         dataLength compressedLength
  else Ok mem.

(** ** Reading a header

    A header that fails a check gives [inl] the error. *)

Definition AppendOnlyStorageFormat_GetHeaderInfo (mem : list Z) (usingChecksums : bool) :
    result (AOHeaderCheckError + AoHeaderKind * Z) :=
  h ← read_header mem 0;
  if header_bytes_0_3 h =? 0 then Ok (inl AOHeaderCheckFirst32BitsAllZeroes)
  else if negb (AOHeaderGet_reserved0 h =? 0) then Ok (inl AOHeaderCheckReservedBit0Not0)
  else
    let headerKind := AOHeaderGet_headerKind h in
    if headerKind =? AoHeaderKind_None then Ok (inl AOHeaderCheckInvalidHeaderKindNone)
    else if MaxAoHeaderKind <=? headerKind then Ok (inl AOHeaderCheckInvalidHeaderKind)
    else
      match kind_of_value headerKind with
      | Some k =>
          let size := match k with
                      | AoHeaderKind_BulkDenseContent => AoHeader_LongSize
                      | _ => AoHeader_RegularSize
                      end in
          let actualHeaderLen := size + (if usingChecksums then 2 * sizeof_pg_crc32 else 0) in
          Ok (inr (k, if AOHeaderGet_hasFirstRowNum h then actualHeaderLen + sizeof_int64
                      else actualHeaderLen))
      | None => Err "Unexpected Append-Only header kind"
      end.

Record BlockInfo := mkBlockInfo {
  overallBlockLen : Z;
  offset : Z;
  uncompressedLen : Z;
  executorBlockKind : Z;
  hasFirstRowNum : bool;
  firstRowNum : Z;
  rowCount : Z;
}.

Record CompressionInfo := mkCompressionInfo { isCompressed : bool; compressedLen : Z }.

Record LargeInfo := mkLargeInfo {
  largeContentLen : Z;
  li_executorBlockKind : Z;
  li_hasFirstRowNum : bool;
  li_firstRowNum : Z;
  largeRowCount : Z;
}.

(** The first row number behind [offset], -1 where there is none, and the offset behind it; the
    offset is compared with the caller's header length. *)
Definition read_first_row (mem : list Z) (has : bool) (offset headerLen : Z) : result (Z * Z) :=
  '(row, offset) ← (if has then v ← load 8 mem offset; Ok (s64 v, offset + sizeof_int64)
                    else Ok (-1, offset));
  if offset =? headerLen then Ok (row, offset)
  else Err "Content offset doesn't equal header length parameter".

Definition AppendOnlyStorageFormat_GetSmallContentHeaderInfo (mem : list Z) (headerLen : Z)
    (usingChecksums : bool) (blockLimitLen version : Z) :
    result (AOHeaderCheckError + BlockInfo * CompressionInfo) :=
  h ← read_header mem 0;
  let has := AOHeaderGet_hasFirstRowNum h in
  '(row, off) ← read_first_row mem has
                  (AoHeader_RegularSize + (if usingChecksums then 2 * sizeof_pg_crc32 else 0)) headerLen;
  let uncompressed := AOSmallContentHeaderGet_dataLength h in
  let compressed := AOSmallContentHeaderGet_compressedLength h in
  let isComp := negb (compressed =? 0) in
  if isComp && (uncompressed <? compressed) then Ok (inl AOHeaderCheckInvalidCompressedLen)
  else
    rounded ← AOStorage_RoundUp (if isComp then compressed else uncompressed) version;
    let overall := off + rounded in
    if blockLimitLen <? overall then Ok (inl AOHeaderCheckInvalidOverallBlockLen)
    else Ok (inr (mkBlockInfo overall off uncompressed (AOHeaderGet_executorBlockKind h) has row
                    (AOSmallContentHeaderGet_rowCount h), mkCompressionInfo isComp compressed)).

Definition AppendOnlyStorageFormat_GetCompressedLen (mem : list Z) : result Z :=
  h ← read_header mem 0; Ok (AOSmallContentHeaderGet_compressedLength h).

Definition AppendOnlyStorageFormat_GetLargeContentHeaderInfo (mem : list Z) (headerLen : Z)
    (usingChecksums : bool) : result (AOHeaderCheckError + LargeInfo) :=
  h ← read_header mem 0;
  let has := AOHeaderGet_hasFirstRowNum h in
  let len := AOLargeContentHeaderGet_largeContentLength h in
  if len =? 0 then Ok (inl AOHeaderCheckLargeContentLenIsZero)
  else
    '(row, _) ← read_first_row mem has
                  (AoHeader_RegularSize + (if usingChecksums then 2 * sizeof_pg_crc32 else 0)) headerLen;
    Ok (inr (mkLargeInfo len (AOHeaderGet_executorBlockKind h) has row
               (AOLargeContentHeaderGet_largeRowCount h))).

Definition AppendOnlyStorageFormat_GetNonBulkDenseContentHeaderInfo (mem : list Z) (headerLen : Z)
    (usingChecksums : bool) (blockLimitLen version : Z) : result (AOHeaderCheckError + BlockInfo) :=
  h ← read_header mem 0;
  let has := AOHeaderGet_hasFirstRowNum h in
  '(row, off) ← read_first_row mem has
                  (AoHeader_RegularSize + (if usingChecksums then 2 * sizeof_pg_crc32 else 0)) headerLen;
  let uncompressed := AONonBulkDenseContentHeaderGet_dataLength h in
  rounded ← AOStorage_RoundUp uncompressed version;
  let overall := off + rounded in
  if blockLimitLen <? overall then Ok (inl AOHeaderCheckInvalidOverallBlockLen)
  else Ok (inr (mkBlockInfo overall off uncompressed (AOHeaderGet_executorBlockKind h) has row
                  (AONonBulkDenseContentHeaderGet_largeRowCount h))).

Definition AppendOnlyStorageFormat_GetBulkDenseContentHeaderInfo (mem : list Z) (headerLen : Z)
    (usingChecksums : bool) (blockLimitLen version : Z) :
    result (AOHeaderCheckError + BlockInfo * CompressionInfo) :=
  h ← read_header mem 0;
  let firstHeaderAndChecksumsLen :=
    AoHeader_RegularSize + (if usingChecksums then 2 * sizeof_pg_crc32 else 0) in
  ext ← read_header mem firstHeaderAndChecksumsLen;
  let has := AOHeaderGet_hasFirstRowNum h in
  '(row, off) ← read_first_row mem has (firstHeaderAndChecksumsLen + AoHeader_RegularSize) headerLen;
  let uncompressed := AOSmallContentHeaderGet_dataLength h in
  let compressed := AOSmallContentHeaderGet_compressedLength h in
  let isComp := negb (compressed =? 0) in
  if isComp && (uncompressed <? compressed) then Ok (inl AOHeaderCheckInvalidCompressedLen)
  else
    rounded ← AOStorage_RoundUp (if isComp then compressed else uncompressed) version;
    let overall := off + rounded in
    if blockLimitLen <? overall then Ok (inl AOHeaderCheckInvalidOverallBlockLen)
    else Ok (inr (mkBlockInfo overall off uncompressed (AOHeaderGet_executorBlockKind h) has row
                    (AOBulkDenseContentHeaderExtGet_largeRowCount ext), mkCompressionInfo isComp compressed)).

Definition AppendOnlyStorageFormat_VerifyHeaderChecksum (mem : list Z) : result (bool * Z * Z) :=
  let firstHeaderAndBlockChecksumLen := AoHeader_RegularSize + sizeof_pg_crc32 in
  storedChecksum ← load 4 mem firstHeaderAndBlockChecksumLen;
  computedChecksum ← AppendOnlyStorageFormat_ComputeHeaderChecksum mem firstHeaderAndBlockChecksumLen;
  Ok (storedChecksum =? computedChecksum, storedChecksum, computedChecksum).

Definition AppendOnlyStorageFormat_VerifyBlockChecksum (mem : list Z) (overallBlockLen : Z) :
    result (bool * Z * Z) :=
  storedChecksum ← load 4 mem AoHeader_RegularSize;
  computedChecksum ← AppendOnlyStorageFormat_ComputeBlockChecksum mem
                       (AoHeader_RegularSize + sizeof_pg_crc32) overallBlockLen;
  Ok (storedChecksum =? computedChecksum, storedChecksum, computedChecksum).

(** ** Examining a block ([cdb/cdbappendonlystorageread.c])

    [mem] is the block with what follows it in the read buffer. *)
Record AppendOnlyStorageReadCurrent := mkCurrent {
  cur_headerKind : AoHeaderKind;
  cur_actualHeaderLen : Z;
  cur_overallBlockLen : Z;
  cur_contentOffset : Z;
  cur_uncompressedLen : Z;
  cur_executorBlockKind : Z;
  cur_hasFirstRowNum : bool;
  cur_firstRowNum : Z;
  cur_rowCount : Z;
  cur_isLarge : bool;
  cur_isCompressed : bool;
  cur_compressedLen : Z;
}.

Definition current_of_block (k : AoHeaderKind) (headerLen : Z) (b : BlockInfo) (c : CompressionInfo) :
    AppendOnlyStorageReadCurrent :=
  mkCurrent k headerLen (overallBlockLen b) (offset b) (uncompressedLen b) (executorBlockKind b)
    (hasFirstRowNum b) (firstRowNum b) (rowCount b) false (isCompressed c) (compressedLen c).

(** The part of [AppendOnlyStorageRead_ReadNextBlock] behind the positioning. *)
Definition examine_header (mem : list Z) (checksum gp_appendonly_verify_block_checksums : bool)
    (blockLimitLen formatVersion : Z) : result AppendOnlyStorageReadCurrent :=
  _ ← (if checksum && gp_appendonly_verify_block_checksums then
         '(ok, _, _) ← AppendOnlyStorageFormat_VerifyHeaderChecksum mem;
         if ok : bool then Ok tt else Err "header checksum does not match"
       else Ok tt);
  r ← AppendOnlyStorageFormat_GetHeaderInfo mem checksum;
  match r with
  | inl _ => Err "bad append-only storage header"
  | inr (kind, actualHeaderLen) =>
      if (AppendOnlyStorageFormat_RegularHeaderLenNeeded checksum <? actualHeaderLen)
         && (zlen mem <? actualHeaderLen)
      then Err "fewer bytes than the header length"
      else
        match kind with
        | AoHeaderKind_SmallContent =>
            r ← AppendOnlyStorageFormat_GetSmallContentHeaderInfo mem actualHeaderLen checksum
                  blockLimitLen formatVersion;
            match r with
            | inl _ => Err "bad append-only storage header of type small content"
            | inr (b, c) => Ok (current_of_block kind actualHeaderLen b c)
            end
        | AoHeaderKind_LargeContent =>
            r ← AppendOnlyStorageFormat_GetLargeContentHeaderInfo mem actualHeaderLen checksum;
            match r with
            | inl _ => Err "bad append-only storage header of type large content"
            | inr l => Ok (mkCurrent kind actualHeaderLen 0 0 (largeContentLen l) (li_executorBlockKind l)
                             (li_hasFirstRowNum l) (li_firstRowNum l) (largeRowCount l) true false 0)
            end
        | AoHeaderKind_NonBulkDenseContent =>
            r ← AppendOnlyStorageFormat_GetNonBulkDenseContentHeaderInfo mem actualHeaderLen checksum
                  blockLimitLen formatVersion;
            match r with
            | inl _ => Err "bad append-only storage header of type non-bulk dense content"
            | inr b => Ok (current_of_block kind actualHeaderLen b (mkCompressionInfo false 0))
            end
        | AoHeaderKind_BulkDenseContent =>
            r ← AppendOnlyStorageFormat_GetBulkDenseContentHeaderInfo mem actualHeaderLen checksum
                  blockLimitLen formatVersion;
            match r with
            | inl _ => Err "bad append-only storage header of type bulk dense content"
            | inr (b, c) => Ok (current_of_block kind actualHeaderLen b c)
            end
        end
  end.

(** The offset of the content, once the whole block is there and its checksum was verified. *)
Definition AppendOnlyStorageRead_InternalGetBuffer (mem : list Z)
    (checksum gp_appendonly_verify_block_checksums : bool) (cur : AppendOnlyStorageReadCurrent) : result Z :=
  if zlen mem <? cur_overallBlockLen cur then Err "wrong buffer length"
  else
    _ ← (if checksum && gp_appendonly_verify_block_checksums then
           '(ok, _, _) ← AppendOnlyStorageFormat_VerifyBlockChecksum mem (cur_overallBlockLen cur);
           if ok : bool then Ok tt else Err "block checksum does not match"
         else Ok tt);
    Ok (cur_contentOffset cur).
End Format.
