(* ===== verification/AOStorageFacts.v ===== *)
(** * Block headers of append-only storage: round trips and bounds

    Bit fields as intervals of a word, headers and checksums in the buffer, and the theorems:
    what a header routine writes is what the reader finds, for counts and lengths that fit their
    fields; what happens to those that do not; and what the checksums cover. *)
From S2P Require Import Prelude BitFields Bytes AOStorageFormat.

(** ** The header words as fields *)

Section Words.
Implicit Types (h : AOHeader) (e : Z).

Lemma init_headerKind e h : AOHeaderInit_headerKind e h = or_0_3 (placed 28 3 e) h.
Proof. unfold AOHeaderInit_headerKind. change 0x70000000 with (Z.shiftl (Z.ones 3) 28). by rewrite mask_placed. Qed.

Lemma init_executorBlockKind e h : AOHeaderInit_executorBlockKind e h = or_0_3 (placed 24 3 e) h.
Proof. unfold AOHeaderInit_executorBlockKind. change 0x07000000 with (Z.shiftl (Z.ones 3) 24). by rewrite mask_placed. Qed.

Lemma init_hasFirstRowNum (has : bool) h : AOHeaderInit_hasFirstRowNum has h = or_0_3 (placed 27 1 (Z.b2z has)) h.
Proof.
  destruct has; [done|]. unfold or_0_3. change (placed 27 1 (Z.b2z false)) with 0. rewrite Z.lor_0_r. by destruct h.
Qed.

Lemma init_rowCount e h : AOSmallContentHeaderInit_rowCount e h = or_0_3 (placed 10 14 e) h.
Proof. unfold AOSmallContentHeaderInit_rowCount. change 0x00FFFC00 with (Z.shiftl (Z.ones 14) 10). by rewrite mask_placed. Qed.

Lemma init_dataLength e h :
  AOSmallContentHeaderInit_dataLength e h = or_4_7 (placed 21 11 e) (or_0_3 (placed 0 10 (Z.shiftr e 11)) h).
Proof.
  unfold AOSmallContentHeaderInit_dataLength. change 0xFFE00000 with (Z.shiftl (Z.ones 11) 21).
  change 0x000003FF with (Z.ones 10). by rewrite mask_placed, mask_low.
Qed.

Lemma init_compressedLength (b : bool) e h :
  (if b then AOSmallContentHeaderInit_compressedLength e h else h) = or_4_7 (placed 0 21 (if b then e else 0)) h.
Proof.
  unfold AOSmallContentHeaderInit_compressedLength. change 0x001FFFFF with (Z.ones 21).
  destruct b; [by rewrite mask_low|]. change (placed 0 21 0) with 0. unfold or_4_7. rewrite Z.lor_0_r. by destruct h.
Qed.

Lemma init_largeRowCount e h :
  AOLargeContentHeaderInit_largeRowCount e h = or_4_7 (placed 30 2 e) (or_0_3 (placed 0 23 (Z.shiftr e 2)) h).
Proof.
  unfold AOLargeContentHeaderInit_largeRowCount. change 0xC0000000 with (Z.shiftl (Z.ones 2) 30).
  change 0x007FFFFF with (Z.ones 23). by rewrite mask_placed, mask_low.
Qed.

Lemma init_largeContentLength e h : AOLargeContentHeaderInit_largeContentLength e h = or_4_7 (placed 0 30 e) h.
Proof.
  unfold AOLargeContentHeaderInit_largeContentLength. change 0x3FFFFFFF with (Z.ones 30). by rewrite mask_low.
Qed.

Lemma init_denseRowCount e h : AONonBulkDenseContentHeaderInit_largeRowCount e h = or_4_7 (placed 0 30 e) h.
Proof. apply init_largeContentLength. Qed.

Lemma init_denseLength e h : AONonBulkDenseContentHeaderInit_dataLength e h = or_0_3 (placed 0 21 e) h.
Proof.
  unfold AONonBulkDenseContentHeaderInit_dataLength. change 0x001FFFFF with (Z.ones 21). by rewrite mask_low.
Qed.

Lemma get_headerKind h : AOHeaderGet_headerKind h = field 28 3 (header_bytes_0_3 h).
Proof. unfold AOHeaderGet_headerKind. change 0x70000000 with (Z.shiftl (Z.ones 3) 28). by rewrite mask_field. Qed.

Lemma get_hasFirstRowNum h : AOHeaderGet_hasFirstRowNum h = negb (field 27 1 (header_bytes_0_3 h) =? 0).
Proof. unfold AOHeaderGet_hasFirstRowNum. change 0x08000000 with (Z.shiftl (Z.ones 1) 27). by rewrite mask_field. Qed.

Lemma get_executorBlockKind h : AOHeaderGet_executorBlockKind h = field 24 3 (header_bytes_0_3 h).
Proof. unfold AOHeaderGet_executorBlockKind. change 0x07000000 with (Z.shiftl (Z.ones 3) 24). by rewrite mask_field. Qed.

Lemma get_rowCount h : AOSmallContentHeaderGet_rowCount h = field 10 14 (header_bytes_0_3 h).
Proof. unfold AOSmallContentHeaderGet_rowCount. change 0x00FFFC00 with (Z.shiftl (Z.ones 14) 10). by rewrite mask_field. Qed.

Lemma get_dataLength h :
  AOSmallContentHeaderGet_dataLength h =
  Z.lor (Z.shiftl (field 0 10 (header_bytes_0_3 h)) 11) (field 21 11 (header_bytes_4_7 h)).
Proof.
  unfold AOSmallContentHeaderGet_dataLength. change 0xFFE00000 with (Z.shiftl (Z.ones 11) 21).
  change 0x000003FF with (Z.ones 10). by rewrite mask_field, field_low.
Qed.

Lemma get_compressedLength h : AOSmallContentHeaderGet_compressedLength h = field 0 21 (header_bytes_4_7 h).
Proof. unfold AOSmallContentHeaderGet_compressedLength. change 0x001FFFFF with (Z.ones 21). by rewrite field_low. Qed.

Lemma get_largeRowCount h :
  AOLargeContentHeaderGet_largeRowCount h =
  Z.lor (Z.shiftl (field 0 23 (header_bytes_0_3 h)) 2) (field 30 2 (header_bytes_4_7 h)).
Proof.
  unfold AOLargeContentHeaderGet_largeRowCount. change 0xC0000000 with (Z.shiftl (Z.ones 2) 30).
  change 0x007FFFFF with (Z.ones 23). by rewrite mask_field, field_low.
Qed.

Lemma get_largeContentLength h : AOLargeContentHeaderGet_largeContentLength h = field 0 30 (header_bytes_4_7 h).
Proof. unfold AOLargeContentHeaderGet_largeContentLength. change 0x3FFFFFFF with (Z.ones 30). by rewrite field_low. Qed.

Lemma get_denseRowCount h : AONonBulkDenseContentHeaderGet_largeRowCount h = field 0 30 (header_bytes_4_7 h).
Proof. apply get_largeContentLength. Qed.

Lemma get_denseLength h : AONonBulkDenseContentHeaderGet_dataLength h = field 0 21 (header_bytes_0_3 h).
Proof. unfold AONonBulkDenseContentHeaderGet_dataLength. change 0x001FFFFF with (Z.ones 21). by rewrite field_low. Qed.
End Words.

#[local] Hint Rewrite init_headerKind init_executorBlockKind init_hasFirstRowNum init_rowCount init_dataLength
  init_compressedLength init_largeRowCount init_largeContentLength init_denseRowCount init_denseLength : ao_init.
#[local] Hint Rewrite get_headerKind get_hasFirstRowNum get_executorBlockKind get_rowCount get_dataLength
  get_compressedLength get_largeRowCount get_largeContentLength get_denseRowCount get_denseLength : ao_get.

(** Fields of a word that was put together from fields. *)
Ltac fields :=
  cbn [header_bytes_0_3 header_bytes_4_7 or_0_3 or_4_7 AOHeaderInit_Init];
  rewrite ?Z.lor_0_l, ?field_lor by lia;
  repeat (rewrite field_same by lia); repeat (rewrite field_disjoint by lia);
  rewrite ?Z.lor_0_l, ?Z.lor_0_r.

(** What every kind of header has in common. *)
Definition header_ok (k : AoHeaderKind) (has : bool) (exec : Z) (h : AOHeader) : Prop :=
  is_u32 (header_bytes_0_3 h) ∧ is_u32 (header_bytes_4_7 h) ∧
  AOHeaderGet_headerKind h = kind_value k ∧ AOHeaderGet_reserved0 h = 0 ∧
  AOHeaderGet_hasFirstRowNum h = has ∧ AOHeaderGet_executorBlockKind h = exec mod 2 ^ 3.

Lemma get_reserved0 h : is_u32 (header_bytes_0_3 h) → AOHeaderGet_reserved0 h = field 31 1 (header_bytes_0_3 h).
Proof.
  intros Hu. unfold AOHeaderGet_reserved0, field. symmetry. apply Z.mod_small. unfold is_u32 in Hu.
  rewrite Z.shiftr_div_pow2 by lia. split; [apply Z.div_pos; lia|]. apply Z.div_lt_upper_bound; lia.
Qed.

Ltac words_u32 :=
  cbn [header_bytes_0_3 header_bytes_4_7 or_0_3 or_4_7 AOHeaderInit_Init];
  repeat apply is_u32_lor; first [done|apply placed_u32; lia].

(** The common part of a header from its fields. *)
Lemma header_ok_intro k has exec h :
  is_u32 (header_bytes_0_3 h) → is_u32 (header_bytes_4_7 h) →
  field 31 1 (header_bytes_0_3 h) = 0 → field 28 3 (header_bytes_0_3 h) = kind_value k mod 2 ^ 3 →
  field 27 1 (header_bytes_0_3 h) = Z.b2z has mod 2 ^ 1 → field 24 3 (header_bytes_0_3 h) = exec mod 2 ^ 3 →
  header_ok k has exec h.
Proof.
  intros H0 H4 Hr Hk Hf He. unfold header_ok. rewrite get_reserved0 by done. autorewrite with ao_get.
  rewrite Hr, Hk, Hf, He. split_and!; try done; [by destruct k|by destruct has].
Qed.

Lemma small_header_fields has exec rows len clen :
  let h := small_content_header has exec rows len clen in
  header_ok AoHeaderKind_SmallContent has exec h ∧ AOSmallContentHeaderGet_rowCount h = rows mod 2 ^ 14 ∧
  AOSmallContentHeaderGet_dataLength h = len mod 2 ^ 21 ∧
  AOSmallContentHeaderGet_compressedLength h = (if 0 <? clen then clen else 0) mod 2 ^ 21.
Proof.
  intros h. unfold h, small_content_header. autorewrite with ao_init ao_get.
  split_and!; [apply header_ok_intro; [words_u32|words_u32|fields; done..]|fields..]; try done.
  apply (join_parts len 10 11); lia.
Qed.

Lemma bulk_header_fields has exec len clen :
  let h := bulk_dense_content_header has exec len clen in
  header_ok AoHeaderKind_BulkDenseContent has exec h ∧
  AOSmallContentHeaderGet_dataLength h = len mod 2 ^ 21 ∧
  AOSmallContentHeaderGet_compressedLength h = (if 0 <? clen then clen else 0) mod 2 ^ 21.
Proof.
  intros h. unfold h, bulk_dense_content_header. autorewrite with ao_init ao_get.
  split_and!; [apply header_ok_intro; [words_u32|words_u32|fields; done..]|fields..]; try done.
  apply (join_parts len 10 11); lia.
Qed.

Lemma large_header_fields has exec rows len :
  let h := large_content_header has exec rows len in
  header_ok AoHeaderKind_LargeContent has exec h ∧ AOLargeContentHeaderGet_largeRowCount h = rows mod 2 ^ 25 ∧
  AOLargeContentHeaderGet_largeContentLength h = len mod 2 ^ 30.
Proof.
  intros h. unfold h, large_content_header. autorewrite with ao_init ao_get.
  split_and!; [apply header_ok_intro; [words_u32|words_u32|fields; done..]|fields..]; try done.
  apply (join_parts rows 23 2); lia.
Qed.

Lemma dense_header_fields has exec rows len :
  let h := nonbulk_dense_content_header has exec rows len in
  header_ok AoHeaderKind_NonBulkDenseContent has exec h ∧
  AONonBulkDenseContentHeaderGet_largeRowCount h = rows mod 2 ^ 30 ∧
  AONonBulkDenseContentHeaderGet_dataLength h = len mod 2 ^ 21.
Proof.
  intros h. unfold h, nonbulk_dense_content_header. autorewrite with ao_init ao_get.
  split_and!; [apply header_ok_intro; [words_u32|words_u32|fields; done..]|fields..]; done.
Qed.

Lemma bulk_ext_fields rows :
  let h := bulk_dense_content_ext rows in
  is_u32 (header_bytes_0_3 h) ∧ is_u32 (header_bytes_4_7 h) ∧
  AOBulkDenseContentHeaderExtGet_largeRowCount h = rows mod 2 ^ 30.
Proof.
  intros h. unfold h, bulk_dense_content_ext, AOBulkDenseContentHeaderExtInit_largeRowCount,
    AOBulkDenseContentHeaderExtGet_largeRowCount. change 0x3FFFFFFF with (Z.ones 30).
  rewrite mask_low, field_low by lia. split_and!; [words_u32|words_u32|fields; done].
Qed.

(** ** Headers in the buffer *)

Definition header_bytes (h : AOHeader) : list Z :=
  le_bytes 4 (header_bytes_0_3 h) ++ le_bytes 4 (header_bytes_4_7 h).

Lemma length_header_bytes h : zlen (header_bytes h) = 8.
Proof. unfold header_bytes. by rewrite length_app, !length_le_bytes. Qed.

Lemma write_header_spec mem off h :
  0 ≤ off → off + 8 ≤ zlen mem →
  ∃ mem', write_header mem off h = Ok mem' ∧ frames mem mem' off (off + 8) ∧ holds mem' off (header_bytes h).
Proof.
  intros H0 Hl. unfold write_header.
  destruct (store_holds 4 mem off (header_bytes_0_3 h)) as (m1 & -> & L1 & H1 & F1); [lia..|]. simpl.
  destruct (store_holds 4 m1 (off + 4) (header_bytes_4_7 h)) as (m2 & -> & L2 & H2 & F2); [lia..|].
  exists m2. split_and!; [done| |].
  - split; [congruence|]. intros off' bs' Hh Hd. apply F2; [apply F1; [done|lia]|lia].
  - unfold header_bytes. apply holds_app. rewrite length_le_bytes. split; [|done].
    apply F2; [done|rewrite length_le_bytes; lia].
Qed.

Lemma read_header_spec mem off h :
  is_u32 (header_bytes_0_3 h) → is_u32 (header_bytes_4_7 h) → holds mem off (header_bytes h) →
  read_header mem off = Ok h.
Proof.
  intros U0 U4 Hh. destruct (holds_bound _ _ _ Hh) as [Hn|Hb].
  { by apply (f_equal length) in Hn; unfold header_bytes in Hn; rewrite length_app, !length_le_bytes in Hn. }
  rewrite length_header_bytes in Hb. unfold header_bytes in Hh. apply holds_app in Hh as [H1 H2].
  rewrite length_le_bytes in H2. unfold read_header.
  rewrite (load_holds 4 mem off (header_bytes_0_3 h)) by (done || lia). simpl.
  rewrite (load_holds 4 mem (off + 4) (header_bytes_4_7 h)) by (done || lia). simpl.
  change (256 ^ Z.of_nat 4) with (2 ^ 32). unfold is_u32 in *. rewrite !Z.mod_small by done. by destruct h.
Qed.

(** The kinds that have a second header. *)
Definition is_long (k : AoHeaderKind) : bool := bool_decide (k = AoHeaderKind_BulkDenseContent).

Lemma AoHeader_IsLong_kind k has exec h :
  header_ok k has exec h → AoHeader_IsLong (AOHeaderGet_headerKind h) = Ok (is_long k).
Proof. intros (_ & _ & -> & _). by destruct k. Qed.

(** A reading of the buffer that a later write does not touch. *)

Section Checksums.
Context (crc : Z → list Z → Z).

(** Both checksums of a block of [L] bytes match. *)
Definition verifies (mem : list Z) (L : Z) : Prop :=
  (∃ c, AppendOnlyStorageFormat_VerifyHeaderChecksum crc mem = Ok (true, c, c)) ∧
  (∃ c, AppendOnlyStorageFormat_VerifyBlockChecksum crc mem L = Ok (true, c, c)).

Lemma add_checksums_spec mem h k has exec comp hfr version len clen r :
  holds mem 0 (header_bytes h) → header_ok k has exec h →
  AOStorage_RoundUp (if comp : bool then clen else len) version = Ok r → 0 ≤ r →
  let L := 16 + (if is_long k then 8 else 0) + (if hfr : bool then 8 else 0) + r in L ≤ zlen mem →
  ∃ mem', AppendOnlyStorageFormat_AddBlockHeaderChecksums crc mem comp hfr version len clen = Ok mem' ∧
    frames mem mem' 8 16 ∧ verifies mem' L.
Proof.
  intros Hh Hok Hround Hr L HL. unfold AppendOnlyStorageFormat_AddBlockHeaderChecksums.
  pose proof Hok as (U0 & U4 & _). rewrite (read_header_spec mem 0 h U0 U4 Hh). cbn [mbind result_bind].
  rewrite (AoHeader_IsLong_kind k has exec h Hok). cbn [mbind result_bind]. rewrite Hround. cbn [mbind result_bind].
  match goal with |- context [AppendOnlyStorageFormat_ComputeBlockChecksum _ _ _ ?l] =>
    assert (EL : l = L) by (unfold L; destruct (is_long k), hfr;
      unfold AoHeader_RegularSize, sizeof_int64, sizeof_pg_crc32; lia);
    rewrite EL; clear EL end.
  assert (16 ≤ L) by (unfold L; destruct (is_long k), hfr; lia). clearbody L.
  unfold AppendOnlyStorageFormat_ComputeBlockChecksum at 1.
  change (AoHeader_RegularSize + sizeof_pg_crc32) with 12. change (12 + sizeof_pg_crc32) with 16.
  destruct (peek_total mem 16 (L - 16)) as (content & Hpk & Hcontent & Hlen); [lia..|].
  cbn [mbind result_bind]. rewrite Hpk. cbn [mbind result_bind].
  set (bc := u32 (crc INIT_CRC32C content)). assert (Hbc : is_u32 bc) by apply is_u32_u32.
  destruct (store_holds 4 mem 8 bc) as (m1 & Hs1 & L1 & H1 & F1); [lia..|]. unfold AoHeader_RegularSize. rewrite Hs1.
  cbn [mbind result_bind].
  unfold AppendOnlyStorageFormat_ComputeHeaderChecksum at 1.
  destruct (peek_total m1 0 12) as (hd & Hpk1 & Hhd & Hlen1); [lia..|]. rewrite Hpk1. cbn [mbind result_bind].
  set (hc := u32 (crc INIT_CRC32C hd)). assert (Hhc : is_u32 hc) by apply is_u32_u32.
  destruct (store_holds 4 m1 12 hc) as (m2 & Hs2 & L2 & H2 & F2); [lia..|]. rewrite Hs2.
  assert (Hld : ∀ off v, is_u32 v → holds m2 off (le_bytes 4 v) → off + 4 ≤ zlen m2 → load 4 m2 off = Ok v).
  { intros off v Hv Hhv Hb. rewrite (load_holds 4 m2 off v) by done. f_equal. by apply Z.mod_small. }
  exists m2. split_and!; [done| |split].
  - split; [congruence|]. intros off bs Hb Hd. apply F2; [apply F1; [done|lia]|lia].
  - exists hc. unfold AppendOnlyStorageFormat_VerifyHeaderChecksum, AppendOnlyStorageFormat_ComputeHeaderChecksum.
    change (AoHeader_RegularSize + sizeof_pg_crc32) with 12. rewrite (Hld 12 hc) by (done || lia). cbn [mbind result_bind].
    rewrite <- Hlen1, (peek_holds m2 0 hd) by (try apply F2; (done || lia)). cbn [mbind result_bind]. fold hc. by rewrite Z.eqb_refl.
  - exists bc. unfold AppendOnlyStorageFormat_VerifyBlockChecksum, AppendOnlyStorageFormat_ComputeBlockChecksum.
    change (AoHeader_RegularSize + sizeof_pg_crc32 + sizeof_pg_crc32) with 16. unfold AoHeader_RegularSize.
    rewrite (Hld 8 bc) by (try apply F2; try rewrite length_le_bytes; (done || lia)). cbn [mbind result_bind].
    rewrite <- Hlen, (peek_holds m2 16 content) by (try apply F2; try apply F1; (done || lia)). cbn [mbind result_bind]. fold bc.
    by rewrite Z.eqb_refl.
Qed.

(** The part common to the four routines: the first row number and the checksums behind a
    header that is in place. *)
Lemma make_tail_spec mem h k (has checks comp hfr : bool) exec row version len clen r :
  holds mem 0 (header_bytes h) → header_ok k has exec h → AoHeader_Size (is_long k) checks has ≤ zlen mem →
  AOStorage_RoundUp (if comp then clen else len) version = Ok r → 0 ≤ r →
  let L := 16 + (if is_long k then 8 else 0) + (if hfr then 8 else 0) + r in (checks = true → L ≤ zlen mem) →
  ∃ mem', (m ← add_first_row mem checks has row;
           if checks then AppendOnlyStorageFormat_AddBlockHeaderChecksums crc m comp hfr version len clen
           else Ok m) = Ok mem' ∧
    length mem' = length mem ∧
    (∀ off bs, holds mem off bs →
       off + zlen bs ≤ 8 ∨
       8 + (if checks then 8 else 0) ≤ off ∧ off + zlen bs ≤ AoHeader_Size (is_long k) checks false ∨
       AoHeader_Size (is_long k) checks has ≤ off → holds mem' off bs) ∧
    (has = true → holds mem' (AoHeader_Size (is_long k) checks false) (le_bytes 8 row)) ∧
    (checks = true → verifies mem' L).
Proof.
  intros Hh Hok Hsize Hround Hr L HL. pose proof Hok as (U0 & U4 & _).
  set (o := AoHeader_Size (is_long k) checks false) in *.
  assert (Ho : AoHeader_Size (is_long k) checks has = o + (if has then 8 else 0) ∧
               8 + (if checks then 8 else 0) ≤ o).
  { unfold o, AoHeader_Size, AoHeader_LongSize, AoHeader_RegularSize, sizeof_pg_crc32, sizeof_int64.
    destruct (is_long k), checks, has; lia. }
  destruct Ho as [Ho Ho8]. rewrite Ho in *. assert (0 ≤ if has then 8 else 0) by by destruct has.
  assert (Hadd : ∃ m, add_first_row mem checks has row = Ok m ∧ frames mem m o (o + if has then 8 else 0) ∧
    (has = true → holds m o (le_bytes 8 row))).
  { unfold add_first_row. destruct has; [|exists mem; split_and!; try done].
    unfold AppendOnlyStorageFormat_AddFirstRowNum. rewrite (read_header_spec mem 0 h) by done. cbn [mbind result_bind].
    rewrite (AoHeader_IsLong_kind k true exec h Hok). cbn [mbind result_bind].
    destruct (store_holds 8 mem o row) as (m & Hs & L1 & H1 & F1); [destruct checks; lia|lia|].
    exists m. split_and!; [|by split|done]. by rewrite <- Hs. }
  destruct Hadd as (m & -> & [Lm Fm] & Hrow). cbn [mbind result_bind].
  destruct checks.
  - destruct (add_checksums_spec m h k has exec comp hfr version len clen r) as (m' & -> & [Lm' Fm'] & Hv).
    + apply Fm; [done|]. rewrite length_header_bytes. left. lia.
    + done.
    + done.
    + done.
    + rewrite Lm. by apply HL.
    + exists m'. split_and!; [done|congruence| |intros ?|done].
      * intros off bs Hb Hd. apply Fm'; [apply Fm; [done|lia]|lia].
      * apply Fm'; [auto|]. lia.
  - exists m. split_and!; [done|done| |done|done]. intros off bs Hb Hd. apply Fm; [done|lia].
Qed.

(** ** Blocks *)

(** The arguments of a [Make] routine; the compressed length counts for two of the kinds. *)
Record ao_block := mkAoBlock {
  ab_kind : AoHeaderKind;
  ab_checks : bool;
  ab_has : bool;
  ab_version : Z;
  ab_row : Z;
  ab_exec : Z;
  ab_rows : Z;
  ab_len : Z;
  ab_clen : Z;
}.

Definition make_header (b : ao_block) (mem : list Z) : result (list Z) :=
  match ab_kind b with
  | AoHeaderKind_SmallContent =>
      AppendOnlyStorageFormat_MakeSmallContentHeader crc mem (ab_checks b) (ab_has b) (ab_version b)
        (ab_row b) (ab_exec b) (ab_rows b) (ab_len b) (ab_clen b)
  | AoHeaderKind_LargeContent =>
      AppendOnlyStorageFormat_MakeLargeContentHeader crc mem (ab_checks b) (ab_has b) (ab_version b)
        (ab_row b) (ab_exec b) (ab_rows b) (ab_len b)
  | AoHeaderKind_NonBulkDenseContent =>
      AppendOnlyStorageFormat_MakeNonBulkDenseContentHeader crc mem (ab_checks b) (ab_has b) (ab_version b)
        (ab_row b) (ab_exec b) (ab_rows b) (ab_len b)
  | AoHeaderKind_BulkDenseContent =>
      AppendOnlyStorageFormat_MakeBulkDenseContentHeader crc mem (ab_checks b) (ab_has b) (ab_version b)
        (ab_row b) (ab_exec b) (ab_rows b) (ab_len b) (ab_clen b)
  end.

Definition ab_words (b : ao_block) : AOHeader :=
  match ab_kind b with
  | AoHeaderKind_SmallContent => small_content_header (ab_has b) (ab_exec b) (ab_rows b) (ab_len b) (ab_clen b)
  | AoHeaderKind_LargeContent => large_content_header (ab_has b) (ab_exec b) (ab_rows b) (ab_len b)
  | AoHeaderKind_NonBulkDenseContent => nonbulk_dense_content_header (ab_has b) (ab_exec b) (ab_rows b) (ab_len b)
  | AoHeaderKind_BulkDenseContent => bulk_dense_content_header (ab_has b) (ab_exec b) (ab_len b) (ab_clen b)
  end.

Definition ab_size (b : ao_block) : Z := AoHeader_Size (is_long (ab_kind b)) (ab_checks b) (ab_has b).

(** Whether the content is stored compressed, and the length of what is stored behind the header:
    nothing behind the header of large content. *)
Definition ab_compressed (b : ao_block) : bool :=
  match ab_kind b with
  | AoHeaderKind_SmallContent | AoHeaderKind_BulkDenseContent => 0 <? ab_clen b
  | _ => false
  end.

Definition ab_stored (b : ao_block) : Z :=
  match ab_kind b with
  | AoHeaderKind_LargeContent => 0
  | _ => if ab_compressed b then ab_clen b else ab_len b
  end.

Lemma ab_words_ok b : header_ok (ab_kind b) (ab_has b) (ab_exec b) (ab_words b).
Proof.
  unfold ab_words. destruct (ab_kind b);
    [apply small_header_fields|apply large_header_fields|apply dense_header_fields|apply bulk_header_fields].
Qed.

(** The length of a header by its parts. *)
Lemma AoHeader_Size_parts (long checks has : bool) :
  AoHeader_Size long checks has =
  8 + (if checks then 8 else 0) + (if long then 8 else 0) + (if has then 8 else 0).
Proof. by destruct long, checks, has. Qed.

(** The second header, of the kind that has one. *)
Lemma second_header_spec b mem m1 :
  ab_size b ≤ zlen mem → frames mem m1 0 8 → holds m1 0 (header_bytes (ab_words b)) →
  ∃ m2, (if is_long (ab_kind b)
         then write_header m1 (8 + if ab_checks b then 8 else 0) (bulk_dense_content_ext (ab_rows b))
         else Ok m1) = Ok m2 ∧
    length m2 = length mem ∧ holds m2 0 (header_bytes (ab_words b)) ∧
    (is_long (ab_kind b) = true →
       holds m2 (8 + if ab_checks b then 8 else 0) (header_bytes (bulk_dense_content_ext (ab_rows b)))) ∧
    ∀ off bs, holds mem off bs → ab_size b ≤ off → holds m2 off bs.
Proof.
  unfold ab_size. rewrite AoHeader_Size_parts. intros Hl [L1 F1] Hh1.
  assert (Hb8 : ∀ c : bool, 0 ≤ if c then 8 else 0) by by intros [].
  pose proof (Hb8 (ab_checks b)). pose proof (Hb8 (ab_has b)).
  destruct (is_long (ab_kind b)).
  - destruct (write_header_spec m1 (8 + if ab_checks b then 8 else 0) (bulk_dense_content_ext (ab_rows b)))
      as (m2 & -> & [L2 F2] & Hh2); [lia..|].
    exists m2. split_and!; [done|congruence| |done|].
    + apply F2; [done|]. rewrite length_header_bytes. lia.
    + intros off bs Hb Ho. apply F2; [apply F1; [done|]|]; lia.
  - exists m1. split_and!; try done. intros off bs Hb Ho. apply F1; [done|lia].
Qed.

(** What a [Make] routine leaves in the buffer. *)
Lemma make_header_spec b mem r :
  AOStorage_RoundUp (ab_stored b) (ab_version b) = Ok r → 0 ≤ r → ab_size b + r ≤ zlen mem →
  ∃ mem', make_header b mem = Ok mem' ∧ length mem' = length mem ∧
    (∀ off bs, holds mem off bs → ab_size b ≤ off → holds mem' off bs) ∧
    holds mem' 0 (header_bytes (ab_words b)) ∧
    (ab_kind b = AoHeaderKind_BulkDenseContent →
       holds mem' (8 + if ab_checks b then 8 else 0) (header_bytes (bulk_dense_content_ext (ab_rows b)))) ∧
    (ab_has b = true →
       holds mem' (AoHeader_Size (is_long (ab_kind b)) (ab_checks b) false) (le_bytes 8 (ab_row b))) ∧
    (ab_checks b = true →
       verifies mem' (if bool_decide (ab_kind b = AoHeaderKind_LargeContent) then 16 else ab_size b + r)).
Proof.
  intros Hround Hr Hl. pose proof (ab_words_ok b) as Hok. unfold ab_size in *.
  pose proof (AoHeader_Size_parts (is_long (ab_kind b)) (ab_checks b) (ab_has b)) as Hsz. symmetry in Hsz.
  assert (Hb8 : ∀ c : bool, 0 ≤ if c then 8 else 0) by by intros [].
  pose proof (Hb8 (ab_checks b)). pose proof (Hb8 (is_long (ab_kind b))). pose proof (Hb8 (ab_has b)).
  destruct (write_header_spec mem 0 (ab_words b)) as (m1 & Hw1 & [L1 F1] & Hh1); [lia..|].
  destruct (second_header_spec b mem m1) as (m2 & Hw2 & L2 & Hh2 & He2 & F2); [unfold ab_size; lia|by split|done|].
  unfold ab_size in F2.
  assert (Htail : ∀ comp hfr len clen,
    AOStorage_RoundUp (if comp : bool then clen else len) (ab_version b) = Ok r →
    (if hfr : bool then 8 else 0) ≤ (if ab_has b then 8 else 0) →
    (m ← add_first_row m2 (ab_checks b) (ab_has b) (ab_row b);
     if ab_checks b then AppendOnlyStorageFormat_AddBlockHeaderChecksums crc m comp hfr (ab_version b) len clen
     else Ok m) = make_header b mem →
    (16 + (if is_long (ab_kind b) then 8 else 0) + (if hfr then 8 else 0) + r =
      if bool_decide (ab_kind b = AoHeaderKind_LargeContent) then 16
      else 16 + (if is_long (ab_kind b) then 8 else 0) + (if ab_has b then 8 else 0) + r) →
    ∃ mem', make_header b mem = Ok mem' ∧ length mem' = length mem ∧
      (∀ off bs, holds mem off bs → AoHeader_Size (is_long (ab_kind b)) (ab_checks b) (ab_has b) ≤ off →
         holds mem' off bs) ∧
      holds mem' 0 (header_bytes (ab_words b)) ∧
      (ab_kind b = AoHeaderKind_BulkDenseContent →
         holds mem' (8 + if ab_checks b then 8 else 0) (header_bytes (bulk_dense_content_ext (ab_rows b)))) ∧
      (ab_has b = true →
         holds mem' (AoHeader_Size (is_long (ab_kind b)) (ab_checks b) false) (le_bytes 8 (ab_row b))) ∧
      (ab_checks b = true → verifies mem' (if bool_decide (ab_kind b = AoHeaderKind_LargeContent) then 16
         else AoHeader_Size (is_long (ab_kind b)) (ab_checks b) (ab_has b) + r))).
  { intros comp hfr len clen Hrd Hhfr Heq HL.
    destruct (make_tail_spec m2 (ab_words b) (ab_kind b) (ab_has b) (ab_checks b) comp hfr (ab_exec b) (ab_row b)
      (ab_version b) len clen r) as (m3 & Hm3 & L3 & F3 & Hrow & Hv); try done.
    { rewrite L2. lia. } { intros Hc. rewrite Hc in *. rewrite L2. lia. }
    rewrite Heq in Hm3. exists m3. split_and!; [done|congruence| | | |done|].
    - intros off bs Hb Ho. apply F3; [by apply F2|]. lia.
    - apply F3; [done|]. rewrite length_header_bytes. lia.
    - intros Hk. apply F3; [apply He2; unfold is_long; by apply bool_decide_eq_true|].
      rewrite length_header_bytes. right. left. split; [lia|].
      unfold AoHeader_Size, is_long. rewrite Hk. simpl. destruct (ab_checks b); done.
    - intros Hc. specialize (Hv Hc). rewrite HL in Hv. rewrite <- Hsz, Hc.
      destruct (bool_decide _); [done|]. replace (8 + 8) with 16 by lia. done. }
  assert (Hr0 : ab_kind b = AoHeaderKind_LargeContent → r = 0).
  { intros Hk. unfold ab_stored in Hround. rewrite Hk in Hround. unfold AOStorage_RoundUp in Hround.
    destruct (IsAOBlockAndMemtupleAlignmentFixed _) as [[]|]; simplify_eq/=; done. }
  unfold make_header, ab_stored, ab_compressed, ab_words, is_long in *. destruct (ab_kind b) eqn:Hk; simpl in *.
  - apply (Htail (0 <? ab_clen b) (ab_has b) (ab_len b) (ab_clen b)); try done.
    unfold AppendOnlyStorageFormat_MakeSmallContentHeader. rewrite Hw1. simplify_eq. done.
  - apply (Htail false false 0 0); try done; [|rewrite Hr0 by done; done].
    unfold AppendOnlyStorageFormat_MakeLargeContentHeader. rewrite Hw1. simplify_eq. done.
  - apply (Htail false (ab_has b) (ab_len b) 0); try done.
    unfold AppendOnlyStorageFormat_MakeNonBulkDenseContentHeader. rewrite Hw1. simplify_eq. done.
  - apply (Htail (0 <? ab_clen b) (ab_has b) (ab_len b) (ab_clen b)); try done.
    unfold AppendOnlyStorageFormat_MakeBulkDenseContentHeader. rewrite Hw1. cbn [mbind result_bind].
    change (AoHeader_RegularSize + (if ab_checks b then 2 * sizeof_pg_crc32 else 0)) with
      (8 + (if ab_checks b then 8 else 0)). by rewrite Hw2.
Qed.

(** ** Reading *)

Lemma read_first_row_spec mem (has : bool) o n row :
  0 ≤ o → (has = true → holds mem o (le_bytes 8 row)) → n = o + (if has then 8 else 0) → n ≤ zlen mem →
  - 2 ^ 63 ≤ row < 2 ^ 63 →
  read_first_row mem has o n = Ok (if has then row else -1, n).
Proof.
  intros Ho Hh -> Hl Hrow. unfold read_first_row. destruct has.
  - rewrite (load_holds 8 mem o row) by (auto; lia). cbn [mbind result_bind].
    unfold sizeof_int64. rewrite Z.eqb_refl. do 2 f_equal. by apply s64_small.
  - cbn [mbind result_bind]. by rewrite Z.add_0_r, Z.eqb_refl.
Qed.

Lemma GetHeaderInfo_spec mem k has exec h (checks : bool) :
  holds mem 0 (header_bytes h) → header_ok k has exec h →
  AppendOnlyStorageFormat_GetHeaderInfo mem checks = Ok (inr (k, AoHeader_Size (is_long k) checks has)).
Proof.
  intros Hh (U0 & U4 & Hk & Hr & Hf & He). unfold AppendOnlyStorageFormat_GetHeaderInfo.
  rewrite (read_header_spec mem 0 h U0 U4 Hh). cbn [mbind result_bind].
  destruct (Z.eqb_spec (header_bytes_0_3 h) 0) as [Hz|_].
  { rewrite get_headerKind, Hz, field_0 in Hk. by destruct k. }
  rewrite Hr, Hk, Hf. by destruct k, checks, has.
Qed.

(** Counts and lengths fit their fields. *)
Definition ab_fits (b : ao_block) : Prop :=
  0 ≤ ab_exec b < 2 ^ 3 ∧ - 2 ^ 63 ≤ ab_row b < 2 ^ 63 ∧
  match ab_kind b with
  | AoHeaderKind_SmallContent => 0 ≤ ab_rows b < 2 ^ 14 ∧ 0 ≤ ab_clen b ≤ ab_len b ∧ ab_len b < 2 ^ 21
  | AoHeaderKind_LargeContent => 0 ≤ ab_rows b < 2 ^ 25 ∧ 0 < ab_len b < 2 ^ 30
  | AoHeaderKind_NonBulkDenseContent => 0 ≤ ab_rows b < 2 ^ 30 ∧ 0 ≤ ab_len b < 2 ^ 21
  | AoHeaderKind_BulkDenseContent => 0 ≤ ab_rows b < 2 ^ 30 ∧ 0 ≤ ab_clen b ≤ ab_len b ∧ ab_len b < 2 ^ 21
  end.

#[global] Instance ab_fits_dec b : Decision (ab_fits b).
Proof. unfold ab_fits. destruct (ab_kind b); apply _. Defined.

(** What the reader should find. *)
Definition ab_current (b : ao_block) (r : Z) : AppendOnlyStorageReadCurrent :=
  let large := bool_decide (ab_kind b = AoHeaderKind_LargeContent) in
  mkCurrent (ab_kind b) (ab_size b) (if large then 0 else ab_size b + r) (if large then 0 else ab_size b)
    (ab_len b) (ab_exec b) (ab_has b) (if ab_has b then ab_row b else -1) (ab_rows b) large
    (ab_compressed b) (if ab_compressed b then ab_clen b else 0).

(** The header information of the kinds with one or two lengths, once first row and fields are
    known. *)
Lemma GetSmall_spec mem h (checks has : bool) exec rows len clen row n limit version r :
  h = small_content_header has exec rows len clen → holds mem 0 (header_bytes h) →
  0 ≤ exec < 2 ^ 3 → 0 ≤ rows < 2 ^ 14 → 0 ≤ clen ≤ len → len < 2 ^ 21 →
  read_first_row mem has (8 + if checks then 8 else 0) n = Ok (row, n) →
  AOStorage_RoundUp (if 0 <? clen then clen else len) version = Ok r → n + r ≤ limit →
  AppendOnlyStorageFormat_GetSmallContentHeaderInfo mem n checks limit version =
  Ok (inr (mkBlockInfo (n + r) n len exec has row rows, mkCompressionInfo (0 <? clen) clen)).
Proof.
  intros -> Hh He Hrows Hc Hlen Hrow Hround Hlim.
  destruct (small_header_fields has exec rows len clen) as ((U0 & U4 & _ & _ & Hf & Hx) & Hr & Hd & Hcl).
  assert (Hclen : (if 0 <? clen then clen else 0) = clen) by (destruct (Z.ltb_spec 0 clen); lia).
  rewrite Hclen in Hcl. rewrite Z.mod_small in Hx, Hr, Hd, Hcl by lia.
  unfold AppendOnlyStorageFormat_GetSmallContentHeaderInfo. rewrite (read_header_spec mem 0 _ U0 U4 Hh).
  cbn [mbind result_bind]. rewrite Hf, Hx, Hr, Hd, Hcl.
  change (AoHeader_RegularSize + (if checks then 2 * sizeof_pg_crc32 else 0)) with
    (8 + if checks then 8 else 0). rewrite Hrow. cbn [mbind result_bind].
  assert (Hneg : negb (clen =? 0) = (0 <? clen)) by (destruct (Z.eqb_spec clen 0), (Z.ltb_spec 0 clen); done || lia).
  rewrite Hneg. destruct (Z.ltb_spec len clen); [lia|]. rewrite andb_false_r, Hround. cbn [mbind result_bind].
  destruct (Z.ltb_spec limit (n + r)); [lia|done].
Qed.

Lemma GetBulk_spec mem h (checks has : bool) exec rows len clen row n limit version r :
  h = bulk_dense_content_header has exec len clen → holds mem 0 (header_bytes h) →
  holds mem (8 + if checks then 8 else 0) (header_bytes (bulk_dense_content_ext rows)) →
  0 ≤ exec < 2 ^ 3 → 0 ≤ rows < 2 ^ 30 → 0 ≤ clen ≤ len → len < 2 ^ 21 →
  read_first_row mem has (8 + (if checks then 8 else 0) + 8) n = Ok (row, n) →
  AOStorage_RoundUp (if 0 <? clen then clen else len) version = Ok r → n + r ≤ limit →
  AppendOnlyStorageFormat_GetBulkDenseContentHeaderInfo mem n checks limit version =
  Ok (inr (mkBlockInfo (n + r) n len exec has row rows, mkCompressionInfo (0 <? clen) clen)).
Proof.
  intros -> Hh Hext He Hrows Hc Hlen Hrow Hround Hlim.
  destruct (bulk_header_fields has exec len clen) as ((U0 & U4 & _ & _ & Hf & Hx) & Hd & Hcl).
  destruct (bulk_ext_fields rows) as (V0 & V4 & Hr).
  assert (Hclen : (if 0 <? clen then clen else 0) = clen) by (destruct (Z.ltb_spec 0 clen); lia).
  rewrite Hclen in Hcl. rewrite Z.mod_small in Hx, Hr, Hd, Hcl by lia.
  unfold AppendOnlyStorageFormat_GetBulkDenseContentHeaderInfo. rewrite (read_header_spec mem 0 _ U0 U4 Hh).
  cbn [mbind result_bind].
  change (AoHeader_RegularSize + (if checks then 2 * sizeof_pg_crc32 else 0)) with
    (8 + if checks then 8 else 0). rewrite (read_header_spec mem _ _ V0 V4 Hext). cbn [mbind result_bind].
  rewrite Hf, Hx, Hr, Hd, Hcl. unfold AoHeader_RegularSize. rewrite Hrow. cbn [mbind result_bind].
  assert (Hneg : negb (clen =? 0) = (0 <? clen)) by (destruct (Z.eqb_spec clen 0), (Z.ltb_spec 0 clen); done || lia).
  rewrite Hneg. destruct (Z.ltb_spec len clen); [lia|]. rewrite andb_false_r, Hround. cbn [mbind result_bind].
  destruct (Z.ltb_spec limit (n + r)); [lia|done].
Qed.

Lemma GetDense_spec mem h (checks has : bool) exec rows len row n limit version r :
  h = nonbulk_dense_content_header has exec rows len → holds mem 0 (header_bytes h) →
  0 ≤ exec < 2 ^ 3 → 0 ≤ rows < 2 ^ 30 → 0 ≤ len < 2 ^ 21 →
  read_first_row mem has (8 + if checks then 8 else 0) n = Ok (row, n) →
  AOStorage_RoundUp len version = Ok r → n + r ≤ limit →
  AppendOnlyStorageFormat_GetNonBulkDenseContentHeaderInfo mem n checks limit version =
  Ok (inr (mkBlockInfo (n + r) n len exec has row rows)).
Proof.
  intros -> Hh He Hrows Hlen Hrow Hround Hlim.
  destruct (dense_header_fields has exec rows len) as ((U0 & U4 & _ & _ & Hf & Hx) & Hr & Hd).
  rewrite Z.mod_small in Hx, Hr, Hd by lia.
  unfold AppendOnlyStorageFormat_GetNonBulkDenseContentHeaderInfo. rewrite (read_header_spec mem 0 _ U0 U4 Hh).
  cbn [mbind result_bind]. rewrite Hf, Hx, Hr, Hd.
  change (AoHeader_RegularSize + (if checks then 2 * sizeof_pg_crc32 else 0)) with
    (8 + if checks then 8 else 0). rewrite Hrow. cbn [mbind result_bind]. rewrite Hround. cbn [mbind result_bind].
  destruct (Z.ltb_spec limit (n + r)); [lia|done].
Qed.

Lemma GetLarge_spec mem h (checks has : bool) exec rows len row n :
  h = large_content_header has exec rows len → holds mem 0 (header_bytes h) →
  0 ≤ exec < 2 ^ 3 → 0 ≤ rows < 2 ^ 25 → 0 < len < 2 ^ 30 →
  read_first_row mem has (8 + if checks then 8 else 0) n = Ok (row, n) →
  AppendOnlyStorageFormat_GetLargeContentHeaderInfo mem n checks =
  Ok (inr (mkLargeInfo len exec has row rows)).
Proof.
  intros -> Hh He Hrows Hlen Hrow.
  destruct (large_header_fields has exec rows len) as ((U0 & U4 & _ & _ & Hf & Hx) & Hr & Hd).
  rewrite Z.mod_small in Hx, Hr, Hd by lia.
  unfold AppendOnlyStorageFormat_GetLargeContentHeaderInfo. rewrite (read_header_spec mem 0 _ U0 U4 Hh).
  cbn [mbind result_bind]. rewrite Hf, Hx, Hr, Hd. destruct (Z.eqb_spec len 0); [lia|].
  change (AoHeader_RegularSize + (if checks then 2 * sizeof_pg_crc32 else 0)) with
    (8 + if checks then 8 else 0). by rewrite Hrow.
Qed.

Lemma examine_spec b mem r limit verify :
  ab_fits b → AOStorage_RoundUp (ab_stored b) (ab_version b) = Ok r → 0 ≤ r →
  ab_size b + r ≤ zlen mem → ab_size b + r ≤ limit →
  holds mem 0 (header_bytes (ab_words b)) →
  (ab_kind b = AoHeaderKind_BulkDenseContent →
     holds mem (8 + if ab_checks b then 8 else 0) (header_bytes (bulk_dense_content_ext (ab_rows b)))) →
  (ab_has b = true →
     holds mem (AoHeader_Size (is_long (ab_kind b)) (ab_checks b) false) (le_bytes 8 (ab_row b))) →
  (ab_checks b = true → ∃ c, AppendOnlyStorageFormat_VerifyHeaderChecksum crc mem = Ok (true, c, c)) →
  examine_header crc mem (ab_checks b) verify limit (ab_version b) = Ok (ab_current b r).
Proof.
  intros (Hexec & Hrow & Hfit) Hround Hr Hl Hlim Hh Hext Hfirst Hsum. unfold examine_header.
  assert (Hver : (if ab_checks b && verify then
     '(ok, _, _) ← AppendOnlyStorageFormat_VerifyHeaderChecksum crc mem;
     if ok : bool then Ok tt else Err "header checksum does not match" else Ok tt) = Ok tt).
  { destruct (ab_checks b); [|done]. destruct verify; [|done]. by destruct (Hsum eq_refl) as [c ->]. }
  rewrite Hver. cbn [mbind result_bind].
  rewrite (GetHeaderInfo_spec _ _ _ _ _ (ab_checks b) Hh (ab_words_ok b)). cbn [mbind result_bind]. fold (ab_size b).
  destruct (Z.ltb_spec (zlen mem) (ab_size b)); [lia|]. rewrite andb_false_r.
  assert (Hrd : read_first_row mem (ab_has b)
    (if is_long (ab_kind b) then 8 + (if ab_checks b then 8 else 0) + 8 else 8 + if ab_checks b then 8 else 0)
    (ab_size b) = Ok (if ab_has b then ab_row b else -1, ab_size b)).
  { pose proof (AoHeader_Size_parts (is_long (ab_kind b)) (ab_checks b) (ab_has b)) as Hs.
    fold (ab_size b) in Hs. rewrite AoHeader_Size_parts in Hfirst.
    apply read_first_row_spec; [destruct (is_long _), (ab_checks b); lia| | |lia|done].
    - intros Hhas. specialize (Hfirst Hhas). rewrite Z.add_0_r in Hfirst.
      destruct (is_long _); [done|]. by rewrite Z.add_0_r in Hfirst.
    - destruct (is_long _); lia. }
  clear Hfirst Hver Hsum. unfold ab_current, ab_words, ab_stored, ab_compressed in *.
  destruct (ab_kind b) eqn:Hk; cbv match beta in *.
  - destruct Hfit as (? & ? & ?).
    rewrite (GetSmall_spec mem _ _ (ab_has b) (ab_exec b) (ab_rows b) (ab_len b) (ab_clen b)
      (if ab_has b then ab_row b else -1) _ _ _ r eq_refl); try done. cbn [mbind result_bind].
    destruct (0 <? ab_clen b) eqn:Hc; [done|]. apply Z.ltb_ge in Hc. by replace (ab_clen b) with 0 by lia.
  - destruct Hfit as (? & ?).
    by rewrite (GetLarge_spec mem _ _ (ab_has b) (ab_exec b) (ab_rows b) (ab_len b)
      (if ab_has b then ab_row b else -1) _ eq_refl).
  - destruct Hfit as (? & ?).
    by rewrite (GetDense_spec mem _ _ (ab_has b) (ab_exec b) (ab_rows b) (ab_len b)
      (if ab_has b then ab_row b else -1) _ _ _ r eq_refl).
  - destruct Hfit as (? & ? & ?).
    rewrite (GetBulk_spec mem _ _ (ab_has b) (ab_exec b) (ab_rows b) (ab_len b) (ab_clen b)
      (if ab_has b then ab_row b else -1) _ _ _ r eq_refl); try done; [|by apply Hext]. cbn [mbind result_bind].
    destruct (0 <? ab_clen b) eqn:Hc; [done|]. apply Z.ltb_ge in Hc. by replace (ab_clen b) with 0 by lia.
Qed.

Lemma AOStorage_RoundUp_nonneg l version r : AOStorage_RoundUp l version = Ok r → 0 ≤ l → l ≤ r.
Proof.
  unfold AOStorage_RoundUp, AOStorage_RoundUp8, AOStorage_RoundUp4. intros H Hl.
  destruct (IsAOBlockAndMemtupleAlignmentFixed version) as [[]|]; cbn [mbind result_bind] in H; [..|done];
    injection H as <-; Z.div_mod_to_equations; lia.
Qed.

Lemma ab_fits_stored b : ab_fits b → 0 ≤ ab_stored b.
Proof.
  unfold ab_fits, ab_stored, ab_compressed. intros (_ & _ & H). destruct (ab_kind b), (0 <? ab_clen b); lia.
Qed.

(** The content is found at its offset, with the checksum of the block verified. *)
Lemma get_buffer_spec b mem r verify :
  ab_kind b ≠ AoHeaderKind_LargeContent → ab_size b + r ≤ zlen mem →
  (ab_checks b = true → verifies mem (ab_size b + r)) →
  AppendOnlyStorageRead_InternalGetBuffer crc mem (ab_checks b) verify (ab_current b r) = Ok (ab_size b).
Proof.
  intros Hk Hl Hv. unfold AppendOnlyStorageRead_InternalGetBuffer, ab_current.
  rewrite (bool_decide_eq_false_2 _ Hk). cbn [cur_overallBlockLen cur_contentOffset].
  destruct (Z.ltb_spec (zlen mem) (ab_size b + r)); [lia|].
  destruct (ab_checks b); [|done]. destruct verify; [|done]. destruct (Hv eq_refl) as [_ [c ->]]. done.
Qed.

(** C30: a block written by one of the four header routines is read back: for every kind of
    header, with and without checksums and first row number, compressed or not, when the counts
    and lengths fit their fields and the block fits the buffer and the block limit, the routine
    succeeds and leaves the content behind the header alone; the reader then verifies the header
    checksum, finds the kind, the header and block lengths, the content offset, the lengths, the
    executor kind, the first row number and the row count that were written, and, for the kinds
    with content behind the header, verifies the block checksum and returns the content. *)
Theorem ao_block_roundtrip b mem r limit verify content :
  ab_fits b → AOStorage_RoundUp (ab_stored b) (ab_version b) = Ok r →
  ab_size b + r ≤ zlen mem → ab_size b + r ≤ limit → holds mem (ab_size b) content →
  ∃ mem', make_header b mem = Ok mem' ∧ length mem' = length mem ∧ holds mem' (ab_size b) content ∧
    examine_header crc mem' (ab_checks b) verify limit (ab_version b) = Ok (ab_current b r) ∧
    (ab_kind b ≠ AoHeaderKind_LargeContent →
     AppendOnlyStorageRead_InternalGetBuffer crc mem' (ab_checks b) verify (ab_current b r) = Ok (ab_size b)).
Proof.
  intros Hfit Hround Hl Hlim Hcontent.
  pose proof (AOStorage_RoundUp_nonneg _ _ _ Hround (ab_fits_stored b Hfit)) as Hr.
  pose proof (ab_fits_stored b Hfit).
  destruct (make_header_spec b mem r Hround ltac:(lia) Hl) as (mem' & Hm & Hlen & Hkeep & Hh & Hext & Hrow & Hv).
  exists mem'. split_and!; [done|done|by apply Hkeep| |].
  - apply examine_spec; try done; [lia|by rewrite Hlen|]. intros Hc. by destruct (Hv Hc) as [? _].
  - intros Hk. apply get_buffer_spec; [done|by rewrite Hlen|]. by rewrite bool_decide_eq_false_2 in Hv.
Qed.

(** The fields of the header of a block, whatever the arguments are. *)
Definition ab_residues (b : ao_block) (h : AOHeader) : Prop :=
  match ab_kind b with
  | AoHeaderKind_SmallContent =>
      AOSmallContentHeaderGet_rowCount h = ab_rows b mod 2 ^ 14 ∧
      AOSmallContentHeaderGet_dataLength h = ab_len b mod 2 ^ 21 ∧
      AOSmallContentHeaderGet_compressedLength h = Z.max 0 (ab_clen b) mod 2 ^ 21
  | AoHeaderKind_LargeContent =>
      AOLargeContentHeaderGet_largeRowCount h = ab_rows b mod 2 ^ 25 ∧
      AOLargeContentHeaderGet_largeContentLength h = ab_len b mod 2 ^ 30
  | AoHeaderKind_NonBulkDenseContent =>
      AONonBulkDenseContentHeaderGet_largeRowCount h = ab_rows b mod 2 ^ 30 ∧
      AONonBulkDenseContentHeaderGet_dataLength h = ab_len b mod 2 ^ 21
  | AoHeaderKind_BulkDenseContent =>
      AOSmallContentHeaderGet_dataLength h = ab_len b mod 2 ^ 21 ∧
      AOSmallContentHeaderGet_compressedLength h = Z.max 0 (ab_clen b) mod 2 ^ 21
  end.

Lemma ab_words_residues b : ab_residues b (ab_words b).
Proof.
  assert (Hmax : (if 0 <? ab_clen b then ab_clen b else 0) = Z.max 0 (ab_clen b))
    by (destruct (Z.ltb_spec 0 (ab_clen b)); lia).
  unfold ab_residues, ab_words. rewrite <- Hmax.
  destruct (ab_kind b); [apply small_header_fields|apply large_header_fields|apply dense_header_fields|
    apply bulk_header_fields].
Qed.

(** Each field of a header keeps its argument modulo the width of the field and disturbs no
    other field: whatever counts and lengths a routine is given, the kind, the reserved bit and
    the flag of the first row number read back exactly, the executor kind modulo [2^3], the row
    count modulo [2^14], [2^25] or [2^30] and the lengths modulo [2^21] or [2^30] by kind, the row
    count of bulk dense content from the second header.  So a count or length reads back as
    written exactly when it is below that bound. *)
Lemma ao_header_bounds b mem r :
  AOStorage_RoundUp (ab_stored b) (ab_version b) = Ok r → 0 ≤ r → ab_size b + r ≤ zlen mem →
  ∃ mem' h, make_header b mem = Ok mem' ∧ read_header mem' 0 = Ok h ∧
    AOHeaderGet_headerKind h = kind_value (ab_kind b) ∧ AOHeaderGet_reserved0 h = 0 ∧
    AOHeaderGet_hasFirstRowNum h = ab_has b ∧ AOHeaderGet_executorBlockKind h = ab_exec b mod 2 ^ 3 ∧
    ab_residues b h ∧
    (ab_kind b = AoHeaderKind_BulkDenseContent →
     ∃ ext, read_header mem' (AppendOnlyStorageFormat_RegularHeaderLenNeeded (ab_checks b)) = Ok ext ∧
       AOBulkDenseContentHeaderExtGet_largeRowCount ext = ab_rows b mod 2 ^ 30).
Proof.
  intros Hround Hr Hl.
  destruct (make_header_spec b mem r Hround Hr Hl) as (mem' & Hm & _ & _ & Hh & Hext & _).
  destruct (ab_words_ok b) as (U0 & U4 & Hk & H0 & Hf & He). exists mem', (ab_words b).
  split_and!; try done; [by apply read_header_spec|apply ab_words_residues|].
  intros Hkind. destruct (bulk_ext_fields (ab_rows b)) as (V0 & V4 & Hrc).
  exists (bulk_dense_content_ext (ab_rows b)). split; [|done]. by apply read_header_spec; auto.
Qed.

Lemma verify_header_frames mem mem' to :
  frames mem mem' 16 to → 16 ≤ zlen mem →
  AppendOnlyStorageFormat_VerifyHeaderChecksum crc mem' = AppendOnlyStorageFormat_VerifyHeaderChecksum crc mem.
Proof.
  intros F Hl. unfold AppendOnlyStorageFormat_VerifyHeaderChecksum,
    AppendOnlyStorageFormat_ComputeHeaderChecksum, load.
  by rewrite !(peek_frames mem mem' 16 to) by (done || unfold AoHeader_RegularSize, sizeof_pg_crc32; lia).
Qed.

Definition with_row (b : ao_block) (row : Z) : ao_block :=
  mkAoBlock (ab_kind b) (ab_checks b) (ab_has b) (ab_version b) row (ab_exec b) (ab_rows b) (ab_len b) (ab_clen b).

(** No checksum covers the first row number of a large content header: when it is overwritten
    behind the checksums, the header still verifies and the reader reports the changed number,
    with everything else as it was written. *)
Lemma ao_large_row_unprotected b mem r limit row :
  ab_kind b = AoHeaderKind_LargeContent → ab_checks b = true → ab_has b = true → ab_fits b →
  AOStorage_RoundUp (ab_stored b) (ab_version b) = Ok r → ab_size b + r ≤ zlen mem → ab_size b + r ≤ limit →
  - 2 ^ 63 ≤ row < 2 ^ 63 →
  ∃ mem' mem'', make_header b mem = Ok mem' ∧
    store 8 mem' (AppendOnlyStorageFormat_RegularHeaderLenNeeded true) row = Ok mem'' ∧
    examine_header crc mem'' true true limit (ab_version b) = Ok (ab_current (with_row b row) r).
Proof.
  intros Hk Hc Hhas Hfit Hround Hl Hlim Hrow.
  pose proof (AOStorage_RoundUp_nonneg _ _ _ Hround (ab_fits_stored b Hfit)) as Hr.
  pose proof (ab_fits_stored b Hfit).
  destruct (make_header_spec b mem r Hround ltac:(lia) Hl) as (mem' & Hm & Hlen & _ & Hh & _ & _ & Hv).
  assert (Hsz : ab_size b = 24) by (unfold ab_size; by rewrite Hk, Hc, Hhas).
  destruct (store_holds 8 mem' 16 row) as (mem'' & Hs & Hlen' & Hr' & F); [lia|lia|].
  exists mem', mem''. split_and!; [done|done|].
  rewrite <- Hc. change (ab_checks b) with (ab_checks (with_row b row)).
  change (ab_version b) with (ab_version (with_row b row)). apply examine_spec; try done.
  - destruct Hfit as (H1 & _ & H2). exact (conj H1 (conj Hrow H2)).
  - lia.
  - rewrite Hlen', Hlen. done.
  - apply F; [done|]. rewrite length_header_bytes. lia.
  - simpl. by rewrite Hk.
  - intros _. simpl. by rewrite Hk, Hc.
  - intros _. destruct (Hv Hc) as [[c Hvh] _]. exists c. rewrite <- Hvh. apply (verify_header_frames mem' mem'' 24).
    + split; [done|]. intros off bs Hb Hd. apply F; [done|lia].
    + lia.
Qed.
End Checksums.

(** ** Witnesses *)

(** A function in the place of the CRC routine. *)
Definition mix (crc : Z) (bs : list Z) : Z := foldl (λ c b, c * 31 + b) crc bs.

Definition wit_bulk : ao_block := mkAoBlock AoHeaderKind_BulkDenseContent true true 2 7 1 5 10 3.
Definition wit_large : ao_block := mkAoBlock AoHeaderKind_LargeContent true true 3 7 2 1 100000 0.
Definition wit_wide : ao_block := mkAoBlock AoHeaderKind_SmallContent true false 1 (-1) 9 (2 ^ 14 + 3) 8 0.
Definition wit_mem : list Z := replicate 32 0 ++ [1; 2; 3] ++ replicate 9 0.

Lemma wit_content : holds wit_mem (ab_size wit_bulk) [1; 2; 3].
Proof. split; [done|]. intros [|[|[|i]]] b Hb; vm_compute in Hb; by simplify_eq. Qed.

Lemma ao_block_roundtrip_witness :
  ∃ mem', make_header mix wit_bulk wit_mem = Ok mem' ∧ length mem' = length wit_mem ∧
    holds mem' (ab_size wit_bulk) [1; 2; 3] ∧
    examine_header mix mem' true true 40 2 = Ok (ab_current wit_bulk 8) ∧
    (ab_kind wit_bulk ≠ AoHeaderKind_LargeContent →
     AppendOnlyStorageRead_InternalGetBuffer mix mem' true true (ab_current wit_bulk 8) = Ok (ab_size wit_bulk)).
Proof.
  refine (ao_block_roundtrip mix wit_bulk wit_mem 8 40 true [1; 2; 3] _ eq_refl _ _ wit_content).
  - apply (bool_decide_unpack (ab_fits wit_bulk)). exact I.
  - vm_compute. discriminate.
  - vm_compute. discriminate.
Defined.

