(* ===== verification/VarBlock.v ===== *)
(** * Blocks of variable-length items ([cdb/cdbvarblock.c], [cdb/cdbvarblock.h])

    A block is a header of two packed words, the items one behind the other, and an array with
    the offset of each item, of 2 or 3 bytes each.  While a block is made the offsets are kept in
    a scratch area; the maker starts with 2-byte offsets and converts the scratch area in place
    when an item would start behind the last offset it allows for them.  The buffer and the
    scratch area are lists of bytes, pointers into the buffer are offsets, and an access outside
    is an error value. *)
From S2P Require Import Prelude Bytes.

Definition InitialVersion : Z := 1.
Definition VARBLOCK_BYTE_OFFSET_24_LEN : Z := 3.
Definition VARBLOCK_HEADER_LEN : Z := 8.

(** ** The header at the start of the buffer *)

Definition VarBlockGet_offsetsAreSmall (mem : list Z) : result bool :=
  w ← load 4 mem 0; Ok (negb (Z.shiftr w 31 =? 0)).
Definition VarBlockGet_reserved (mem : list Z) : result Z :=
  w ← load 4 mem 0; Ok (Z.shiftr (Z.land w 0x7C000000) 26).
Definition VarBlockGet_version (mem : list Z) : result Z :=
  w ← load 4 mem 0; Ok (Z.shiftr (Z.land w 0x03000000) 24).
Definition VarBlockGet_itemLenSum (mem : list Z) : result Z :=
  w ← load 4 mem 0; Ok (Z.land w 0x00FFFFFF).
Definition VarBlockGet_moreReserved (mem : list Z) : result Z :=
  w ← load 4 mem 4; Ok (Z.shiftr (Z.land w 0xFF000000) 24).
Definition VarBlockGet_itemCount (mem : list Z) : result Z :=
  w ← load 4 mem 4; Ok (Z.land w 0x00FFFFFF).

Definition VarBlockSet_offsetsAreSmall (mem : list Z) (e : bool) : result (list Z) :=
  w ← load 4 mem 0; store 4 mem 0 (if e then Z.lor w 0x80000000 else Z.land w 0x7FFFFFFF).
Definition VarBlockSet_version (mem : list Z) (e : Z) : result (list Z) :=
  w ← load 4 mem 0; store 4 mem 0 (Z.lor (Z.land w 0xFCFFFFFF) (Z.land 0x03000000 (Z.shiftl e 24))).
Definition VarBlockSet_itemLenSum (mem : list Z) (e : Z) : result (list Z) :=
  w ← load 4 mem 0; store 4 mem 0 (Z.lor (Z.land w 0xFF000000) (Z.land 0x00FFFFFF e)).
Definition VarBlockSet_itemCount (mem : list Z) (e : Z) : result (list Z) :=
  w ← load 4 mem 4; store 4 mem 4 (Z.lor (Z.land w 0xFF000000) (Z.land 0x00FFFFFF e)).

(** ** The maker *)

Record VarBlockMaker := mkMaker {
  vbm_buffer : list Z;
  vbm_maxBufferLen : Z;
  vbm_currentItemLenSum : Z;
  vbm_tempScratchSpace : list Z;
  vbm_tempScratchSpaceLen : Z;
  vbm_nextItemPtr : Z;
  vbm_last2ByteOffsetPtr : Z;
  vbm_currentItemCount : Z;
  vbm_maxItemCount : Z;
}.

Definition with_buffer (mk : VarBlockMaker) (buffer : list Z) : VarBlockMaker :=
  mkMaker buffer (vbm_maxBufferLen mk) (vbm_currentItemLenSum mk) (vbm_tempScratchSpace mk)
    (vbm_tempScratchSpaceLen mk) (vbm_nextItemPtr mk) (vbm_last2ByteOffsetPtr mk)
    (vbm_currentItemCount mk) (vbm_maxItemCount mk).

(** The header is cleared, then version and size of the offsets are set. *)
Definition init_header (buffer : list Z) : result (list Z) :=
  buffer ← poke buffer 0 (replicate (Z.to_nat VARBLOCK_HEADER_LEN) 0);
  buffer ← VarBlockSet_version buffer InitialVersion;
  VarBlockSet_offsetsAreSmall buffer true.

Definition VarBlockMakerInit (buffer : list Z) (maxBufferLen : Z) (tempScratchSpace : list Z)
    (tempScratchSpaceLen : Z) : result VarBlockMaker :=
  buffer ← init_header buffer;
  Ok (mkMaker buffer maxBufferLen 0 tempScratchSpace tempScratchSpaceLen VARBLOCK_HEADER_LEN
        (63 * 1024) 0 (Z.quot tempScratchSpaceLen 2)).

Definition VarBlockMakerReset (mk : VarBlockMaker) : result VarBlockMaker :=
  buffer ← init_header (vbm_buffer mk);
  Ok (mkMaker buffer (vbm_maxBufferLen mk) 0 (vbm_tempScratchSpace mk) (vbm_tempScratchSpaceLen mk)
        VARBLOCK_HEADER_LEN (vbm_last2ByteOffsetPtr mk) 0 (Z.quot (vbm_tempScratchSpaceLen mk) 2)).

(** Round-up to even length. *)
Definition round_even (l : Z) : Z := Z.quot (s32 (l + 1)) 2 * 2.

(** The reverse move of the scratch area to 3-byte offsets, for [r] from [n - 1] down to 0. *)
Fixpoint widen_offsets (scratch : list Z) (n : nat) : result (list Z) :=
  match n with
  | O => Ok scratch
  | S r =>
      v ← load 2 scratch (Z.of_nat r * 2);
      scratch ← store 3 scratch (Z.of_nat r * VARBLOCK_BYTE_OFFSET_24_LEN) v;
      widen_offsets scratch r
  end.

(** The three cases for the offset of the next item: the buffer, the scratch area and the limit
    of items behind them, or nothing when the block is full. *)
Definition convert_offsets (mk : VarBlockMaker) (nextItemOffset newItemLenSum : Z) :
    result (option (list Z * list Z * Z)) :=
  let currentItemCount := vbm_currentItemCount mk in
  let offsetArrayLenRounded := round_even ((currentItemCount + 1) * VARBLOCK_BYTE_OFFSET_24_LEN) in
  let newTotalLen := s32 (VARBLOCK_HEADER_LEN + round_even newItemLenSum + offsetArrayLenRounded) in
  if vbm_maxBufferLen mk <? newTotalLen then Ok None
  else
    let newMaxItemCount := Z.quot (vbm_tempScratchSpaceLen mk) VARBLOCK_BYTE_OFFSET_24_LEN in
    if newMaxItemCount <=? currentItemCount then Ok None
    else
      buffer ← VarBlockSet_offsetsAreSmall (vbm_buffer mk) false;
      scratch ← widen_offsets (vbm_tempScratchSpace mk) (S (Z.to_nat currentItemCount));
      scratch ← store 3 scratch (currentItemCount * VARBLOCK_BYTE_OFFSET_24_LEN) nextItemOffset;
      Ok (Some (buffer, scratch, newMaxItemCount)).

Definition add_small_offset (mk : VarBlockMaker) (nextItemOffset newItemLenSum : Z) :
    result (option (list Z * list Z * Z)) :=
  let currentItemCount := vbm_currentItemCount mk in
  let newTotalLen :=
    s32 (VARBLOCK_HEADER_LEN + round_even newItemLenSum + currentItemCount * 2 + 2) in
  if vbm_maxBufferLen mk <? newTotalLen then Ok None
  else
    scratch ← store 2 (vbm_tempScratchSpace mk) (currentItemCount * 2) nextItemOffset;
    Ok (Some (vbm_buffer mk, scratch, vbm_maxItemCount mk)).

Definition add_large_offset (mk : VarBlockMaker) (nextItemOffset newItemLenSum : Z) :
    result (option (list Z * list Z * Z)) :=
  let currentItemCount := vbm_currentItemCount mk in
  let offsetArrayLenRounded := round_even ((currentItemCount + 1) * VARBLOCK_BYTE_OFFSET_24_LEN) in
  let newTotalLen := s32 (VARBLOCK_HEADER_LEN + round_even newItemLenSum + offsetArrayLenRounded) in
  if vbm_maxBufferLen mk <? newTotalLen then Ok None
  else
    scratch ← store 3 (vbm_tempScratchSpace mk) (currentItemCount * VARBLOCK_BYTE_OFFSET_24_LEN)
                nextItemOffset;
    Ok (Some (vbm_buffer mk, scratch, vbm_maxItemCount mk)).

(** The offset of the item in the buffer, or NULL. *)
Definition VarBlockMakerGetNextItemPtr (mk : VarBlockMaker) (itemLen : Z) :
    result (option Z * VarBlockMaker) :=
  if vbm_maxItemCount mk <=? vbm_currentItemCount mk then Ok (None, mk)
  else
    let nextItemPtr := vbm_nextItemPtr mk in
    let newItemLenSum := s32 (vbm_currentItemLenSum mk + itemLen) in
    small ← VarBlockGet_offsetsAreSmall (vbm_buffer mk);
    r ← (if small : bool then
           if vbm_last2ByteOffsetPtr mk <? nextItemPtr
           then convert_offsets mk nextItemPtr newItemLenSum
           else add_small_offset mk nextItemPtr newItemLenSum
         else add_large_offset mk nextItemPtr newItemLenSum);
    match r with
    | None => Ok (None, mk)
    | Some (buffer, scratch, maxItemCount) =>
        Ok (Some nextItemPtr,
            mkMaker buffer (vbm_maxBufferLen mk) newItemLenSum scratch (vbm_tempScratchSpaceLen mk)
              (nextItemPtr + itemLen) (vbm_last2ByteOffsetPtr mk) (vbm_currentItemCount mk + 1)
              maxItemCount)
    end.

Definition VarBlockMakerItemCount (mk : VarBlockMaker) : Z := vbm_currentItemCount mk.

(** [buffer[z] = 0] for [z] from [from] up to [to]. *)
Definition zero_pad (mem : list Z) (from to : Z) : result (list Z) :=
  poke mem from (replicate (Z.to_nat (to - from)) 0).

Definition VarBlockMakerFinish (mk : VarBlockMaker) : result (list Z * Z) :=
  let buffer := vbm_buffer mk in
  let itemCount := vbm_currentItemCount mk in
  let itemLenSum := vbm_currentItemLenSum mk in
  let offsetToOffsetArray := VARBLOCK_HEADER_LEN + round_even itemLenSum in
  small ← VarBlockGet_offsetsAreSmall buffer;
  let multiplier := if small : bool then 2 else VARBLOCK_BYTE_OFFSET_24_LEN in
  offsets ← peek (vbm_tempScratchSpace mk) 0 (itemCount * multiplier);
  buffer ← poke buffer offsetToOffsetArray offsets;
  buffer ← zero_pad buffer (VARBLOCK_HEADER_LEN + itemLenSum) offsetToOffsetArray;
  buffer ← VarBlockSet_itemLenSum buffer itemLenSum;
  buffer ← VarBlockSet_itemCount buffer itemCount;
  let offsetArrayLen := itemCount * multiplier in
  let offsetArrayLenRounded := round_even offsetArrayLen in
  buffer ← zero_pad buffer (offsetToOffsetArray + offsetArrayLen)
             (offsetToOffsetArray + offsetArrayLenRounded);
  Ok (buffer, offsetToOffsetArray + offsetArrayLenRounded).

(** ** Checks *)

Inductive VarBlockCheckError :=
  | VarBlockCheckOk | VarBlockCheckBadVersion | VarBlockCheckReservedNot0
  | VarBlockCheckMoreReservedNot0 | VarBlockCheckItemSumLenBad1 | VarBlockCheckItemSumLenBad2
  | VarBlockCheckZeroPadBad1 | VarBlockCheckZeroPadBad2 | VarBlockCheckItemCountBad1
  | VarBlockCheckItemCountBad2 | VarBlockCheckOffsetBad1 | VarBlockCheckOffsetBad2
  | VarBlockCheckOffsetBad3.

#[global] Instance VarBlockCheckError_eq_dec : EqDecision VarBlockCheckError.
Proof. solve_decision. Defined.

Definition VarBlockGetOffset (mem : list Z) (offsetToOffsetArray itemIndex : Z) : result Z :=
  small ← VarBlockGet_offsetsAreSmall mem;
  if small : bool then load 2 mem (offsetToOffsetArray + itemIndex * 2)
  else load 3 mem (offsetToOffsetArray + itemIndex * VARBLOCK_BYTE_OFFSET_24_LEN).

Definition VarBlockHeaderIsValid (mem : list Z) : result VarBlockCheckError :=
  version ← VarBlockGet_version mem;
  if negb (version =? InitialVersion) then Ok VarBlockCheckBadVersion
  else
    reserved ← VarBlockGet_reserved mem;
    if negb (reserved =? 0) then Ok VarBlockCheckReservedNot0
    else
      moreReserved ← VarBlockGet_moreReserved mem;
      if negb (moreReserved =? 0) then Ok VarBlockCheckMoreReservedNot0 else Ok VarBlockCheckOk.

(** Whether the bytes of a pad are all zero. *)
Definition pad_is_zero (mem : list Z) (from to : Z) : result bool :=
  if from <? to then bs ← peek mem from (to - from); Ok (forallb (λ b, b =? 0) bs) else Ok true.

(** The loop over the items behind the first, for the indexes still to come: [prevOffset] is
    [offset] in each round, which is not read again. *)
Fixpoint check_offsets (offset itemLenSum : Z) (n : nat) : VarBlockCheckError :=
  match n with
  | O => VarBlockCheckOk
  | S n =>
      let prevOffset := offset in
      if offset <? prevOffset then VarBlockCheckOffsetBad2
      else if itemLenSum + VARBLOCK_HEADER_LEN <? offset then VarBlockCheckOffsetBad3
      else check_offsets offset itemLenSum n
  end.

(** The part of [VarBlockIsValid] for a block with items. *)
Definition check_items (mem : list Z) (bufferLen itemLenSum offsetToOffsetArray itemCount : Z) :
    result VarBlockCheckError :=
  small ← VarBlockGet_offsetsAreSmall mem;
  let multiplier := if small : bool then 2 else VARBLOCK_BYTE_OFFSET_24_LEN in
  let actualOffsetArrayLenRounded := bufferLen - offsetToOffsetArray in
  let calculatedOffsetArrayLen := itemCount * multiplier in
  let calculatedOffsetArrayLenRounded := round_even calculatedOffsetArrayLen in
  if negb (actualOffsetArrayLenRounded =? calculatedOffsetArrayLenRounded)
  then Ok VarBlockCheckItemCountBad2
  else
    offset ← VarBlockGetOffset mem offsetToOffsetArray 0;
    if negb (offset =? VARBLOCK_HEADER_LEN) then Ok VarBlockCheckOffsetBad1
    else
      match check_offsets offset itemLenSum (Z.to_nat (itemCount - 1)) with
      | VarBlockCheckOk =>
          zero ← pad_is_zero mem (offsetToOffsetArray + calculatedOffsetArrayLen)
                   (offsetToOffsetArray + calculatedOffsetArrayLenRounded);
          Ok (if zero : bool then VarBlockCheckOk else VarBlockCheckZeroPadBad2)
      | e => Ok e
      end.

Definition VarBlockIsValid (mem : list Z) (bufferLen : Z) : result VarBlockCheckError :=
  varBlockCheckError ← VarBlockHeaderIsValid mem;
  if bool_decide (varBlockCheckError ≠ VarBlockCheckOk) then Ok varBlockCheckError
  else
    itemLenSum ← VarBlockGet_itemLenSum mem;
    if bufferLen <=? itemLenSum then Ok VarBlockCheckItemSumLenBad1
    else
      let offsetToOffsetArray := VARBLOCK_HEADER_LEN + round_even itemLenSum in
      if bufferLen <? offsetToOffsetArray then Ok VarBlockCheckItemSumLenBad2
      else
        zero ← pad_is_zero mem (VARBLOCK_HEADER_LEN + itemLenSum) offsetToOffsetArray;
        if negb zero then Ok VarBlockCheckZeroPadBad1
        else
          itemCount ← VarBlockGet_itemCount mem;
          if itemCount =? 0
          then Ok (if negb (offsetToOffsetArray =? bufferLen) then VarBlockCheckItemCountBad1
                   else VarBlockCheckOk)
          else check_items mem bufferLen itemLenSum offsetToOffsetArray itemCount.

(** A length below the header length ends the process. *)
Definition VarBlockLenFromHeader (mem : list Z) (peekLen : Z) : result Z :=
  if peekLen <? VARBLOCK_HEADER_LEN then Err "exit"
  else
    itemLenSum ← VarBlockGet_itemLenSum mem;
    let offsetToOffsetArray := VARBLOCK_HEADER_LEN + round_even itemLenSum in
    small ← VarBlockGet_offsetsAreSmall mem;
    let multiplier := if small : bool then 2 else VARBLOCK_BYTE_OFFSET_24_LEN in
    itemCount ← VarBlockGet_itemCount mem;
    Ok (offsetToOffsetArray + round_even (itemCount * multiplier)).

(** ** The reader *)

Record VarBlockReader := mkReader {
  vbr_buffer : list Z;
  vbr_bufferLen : Z;
  vbr_nextIndex : Z;
  vbr_nextItemPtr : Z;
  vbr_offsetToOffsetArray : Z;
}.

Definition VarBlockReaderInit (buffer : list Z) (bufferLen : Z) : result VarBlockReader :=
  itemLenSum ← VarBlockGet_itemLenSum buffer;
  let offsetToOffsetArray := VARBLOCK_HEADER_LEN + round_even itemLenSum in
  Ok (mkReader buffer bufferLen 0 VARBLOCK_HEADER_LEN offsetToOffsetArray).

Definition VarBlockGetItemLen (rd : VarBlockReader) (itemIndex : Z) : result Z :=
  let mem := vbr_buffer rd in
  offset ← VarBlockGetOffset mem (vbr_offsetToOffsetArray rd) itemIndex;
  itemCount ← VarBlockGet_itemCount mem;
  if u32 itemIndex <? u32 (itemCount - 1) then
    nextOffset ← VarBlockGetOffset mem (vbr_offsetToOffsetArray rd) (itemIndex + 1);
    Ok (nextOffset - offset)
  else
    itemLenSum ← VarBlockGet_itemLenSum mem;
    Ok (VARBLOCK_HEADER_LEN + itemLenSum - offset).

Definition VarBlockGetItemPtrAndLen (rd : VarBlockReader) (itemIndex : Z) : result (Z * Z) :=
  let mem := vbr_buffer rd in
  offset ← VarBlockGetOffset mem (vbr_offsetToOffsetArray rd) itemIndex;
  itemCount ← VarBlockGet_itemCount mem;
  itemLen ← (if u32 itemIndex <? u32 (itemCount - 1) then
               nextOffset ← VarBlockGetOffset mem (vbr_offsetToOffsetArray rd) (itemIndex + 1);
               Ok (nextOffset - offset)
             else
               itemLenSum ← VarBlockGet_itemLenSum mem;
               Ok (VARBLOCK_HEADER_LEN + itemLenSum - offset));
  Ok (offset, itemLen).

(** The item's offset and length, or NULL. *)
Definition VarBlockReaderGetNextItemPtr (rd : VarBlockReader) :
    result (option (Z * Z) * VarBlockReader) :=
  itemCount ← VarBlockGet_itemCount (vbr_buffer rd);
  if itemCount <=? vbr_nextIndex rd then Ok (None, rd)
  else
    itemLen ← VarBlockGetItemLen rd (vbr_nextIndex rd);
    let nextItemPtr := vbr_nextItemPtr rd in
    Ok (Some (nextItemPtr, itemLen),
        mkReader (vbr_buffer rd) (vbr_bufferLen rd) (vbr_nextIndex rd + 1) (nextItemPtr + itemLen)
          (vbr_offsetToOffsetArray rd)).

Definition VarBlockReaderItemCount (rd : VarBlockReader) : result Z :=
  VarBlockGet_itemCount (vbr_buffer rd).

Definition VarBlockReaderGetItemPtr (rd : VarBlockReader) (itemIndex : Z) : result (Z * Z) :=
  VarBlockGetItemPtrAndLen rd itemIndex.

(** [memmove] reads all it copies before it writes, so that separate buffers stand for
    overlapping ones too. *)
Definition VarBlockCollapseToSingleItem (target source : list Z) (sourceLen : Z) :
    result (list Z * Z) :=
  rd ← VarBlockReaderInit source sourceLen;
  '(itemPtr, itemLen) ← VarBlockReaderGetItemPtr rd 0;
  bs ← peek source itemPtr itemLen;
  target ← poke target 0 bs;
  Ok (target, itemLen).
