(* ===== verification/VarBlockFacts.v ===== *)
(** * Blocks of variable-length items: the maker, the checks and the reader agree

    The state of a maker is described by the list of items that were added.  The theorems: an
    item is accepted exactly when the block with it fits the buffer and the scratch area, with
    2-byte or 3-byte offsets as its layout demands; a finished block is valid and is read back
    item by item and by index; and what the check of the offsets lets through. *)
From S2P Require Import Prelude BitFields Bytes VarBlock.

(** ** The header *)

Definition vb_word (small : bool) (sum : Z) : Z := Z.b2z small * 2 ^ 31 + 2 ^ 24 + sum.

Definition vb_header (mem : list Z) (small : bool) (sum count : Z) : Prop :=
  holds mem 0 (le_bytes 4 (vb_word small sum)) ∧ holds mem 4 (le_bytes 4 count) ∧
  0 ≤ sum < 2 ^ 24 ∧ 0 ≤ count < 2 ^ 24.

Section Header.
Implicit Types (mem : list Z) (small : bool) (sum count : Z).

Lemma vb_load mem small sum count :
  vb_header mem small sum count → load 4 mem 0 = Ok (vb_word small sum) ∧ load 4 mem 4 = Ok count.
Proof.
  intros (H0 & H4 & Hs & Hc). split; apply load_small; try done; try lia;
    change (256 ^ Z.of_nat 4) with (2 ^ 32); unfold vb_word; destruct small; simpl Z.b2z; lia.
Qed.

Lemma vb_field_sum small sum : 0 ≤ sum < 2 ^ 24 → Z.land (vb_word small sum) 0x00FFFFFF = sum.
Proof.
  intros Hs. change 0x00FFFFFF with (Z.ones 24). rewrite Z.land_ones by lia. unfold vb_word.
  rewrite <- (Z.mod_small sum (2 ^ 24)) at 2 by done. destruct small; simpl Z.b2z; Z.div_mod_to_equations; lia.
Qed.

(** Every field of the header. *)
Lemma vb_getters mem small sum count :
  vb_header mem small sum count →
  VarBlockGet_offsetsAreSmall mem = Ok small ∧ VarBlockGet_itemLenSum mem = Ok sum ∧
  VarBlockGet_itemCount mem = Ok count ∧ VarBlockHeaderIsValid mem = Ok VarBlockCheckOk.
Proof.
  intros Hh. destruct (vb_load _ _ _ _ Hh) as [L0 L4]. destruct Hh as (_ & _ & Hs & Hc).
  unfold VarBlockHeaderIsValid, VarBlockGet_offsetsAreSmall, VarBlockGet_itemLenSum, VarBlockGet_itemCount,
    VarBlockGet_version, VarBlockGet_reserved, VarBlockGet_moreReserved.
  rewrite L0, L4. cbn [mbind result_bind]. rewrite vb_field_sum by done.
  change 0x00FFFFFF with (Z.ones 24). rewrite Z.land_ones, Z.mod_small by lia.
  change 0x03000000 with (Z.shiftl (Z.ones 2) 24). change 0x7C000000 with (Z.shiftl (Z.ones 5) 26).
  change 0xFF000000 with (Z.shiftl (Z.ones 8) 24). rewrite !mask_field by lia.
  unfold field. rewrite !Z.shiftr_div_pow2 by lia.
  assert (E1 : vb_word small sum / 2 ^ 31 = Z.b2z small).
  { unfold vb_word. destruct small; simpl Z.b2z; Z.div_mod_to_equations; lia. }
  assert (E2 : (vb_word small sum / 2 ^ 24) mod 2 ^ 2 = 1).
  { unfold vb_word. destruct small; simpl Z.b2z; Z.div_mod_to_equations; lia. }
  assert (E3 : (vb_word small sum / 2 ^ 26) mod 2 ^ 5 = 0).
  { unfold vb_word. destruct small; simpl Z.b2z; Z.div_mod_to_equations; lia. }
  assert (E4 : (count / 2 ^ 24) mod 2 ^ 8 = 0) by (Z.div_mod_to_equations; lia).
  rewrite E1, E2, E3, E4. split_and!; try done. by destruct small.
Qed.

Lemma vb_header_frames mem mem' small sum count from to :
  vb_header mem small sum count → frames mem mem' from to → 8 ≤ from → vb_header mem' small sum count.
Proof.
  intros (H0 & H4 & Hs) [_ F] Hf.
  split; [|split; [|done]]; (apply F; [done|]); rewrite length_le_bytes; lia.
Qed.

Lemma vb_length mem small sum count : vb_header mem small sum count → 8 ≤ zlen mem.
Proof.
  intros (_ & H4 & _). destruct (holds_bound _ _ _ H4) as [Hn|Hb].
  - apply (f_equal length) in Hn. by rewrite length_le_bytes in Hn.
  - rewrite length_le_bytes in Hb. lia.
Qed.

Lemma vb_set_word0 mem small sum count v small' sum' :
  vb_header mem small sum count → 0 ≤ sum' < 2 ^ 24 → v = vb_word small' sum' →
  ∃ mem', store 4 mem 0 v = Ok mem' ∧ frames mem mem' 0 8 ∧ vb_header mem' small' sum' count.
Proof.
  intros Hh Hs' ->. pose proof (vb_length _ _ _ _ Hh). destruct Hh as (H0 & H4 & Hs & Hc).
  destruct (frames_store 4 mem 0 (vb_word small' sum')) as (mem' & Hst & Hh' & F); [lia..|].
  exists mem'. unfold vb_header. split_and!; try done; try lia.
  - by apply (frames_weaken _ _ _ _ _ _ F).
  - apply F; [done|]. by right.
Qed.

Lemma vb_set_large mem :
  vb_header mem true 0 0 →
  ∃ mem', VarBlockSet_offsetsAreSmall mem false = Ok mem' ∧ frames mem mem' 0 8 ∧ vb_header mem' false 0 0.
Proof.
  intros Hh. unfold VarBlockSet_offsetsAreSmall. rewrite (proj1 (vb_load _ _ _ _ Hh)). cbn [mbind result_bind].
  by apply (vb_set_word0 mem true 0 0).
Qed.

Lemma vb_set_sum mem small sum count :
  vb_header mem small 0 count → 0 ≤ sum < 2 ^ 24 →
  ∃ mem', VarBlockSet_itemLenSum mem sum = Ok mem' ∧ frames mem mem' 0 8 ∧ vb_header mem' small sum count.
Proof.
  intros Hh Hs. unfold VarBlockSet_itemLenSum. rewrite (proj1 (vb_load _ _ _ _ Hh)). cbn [mbind result_bind].
  apply (vb_set_word0 mem small 0 count); [done|done|]. change 0x00FFFFFF with (Z.ones 24).
  rewrite Z.land_comm, (Z.land_comm (Z.ones 24)), Z.land_ones, Z.mod_small by lia. unfold vb_word.
  assert (E : Z.land 0xFF000000 (Z.b2z small * 2 ^ 31 + 2 ^ 24 + 0) = (Z.b2z small * 2 ^ 7 + 1) * 2 ^ 24)
    by by destruct small.
  rewrite E, lor_below by lia. lia.
Qed.

Lemma vb_set_count mem small sum count :
  vb_header mem small sum 0 → 0 ≤ count < 2 ^ 24 →
  ∃ mem', VarBlockSet_itemCount mem count = Ok mem' ∧ frames mem mem' 0 8 ∧ vb_header mem' small sum count.
Proof.
  intros Hh Hc. unfold VarBlockSet_itemCount. rewrite (proj2 (vb_load _ _ _ _ Hh)). cbn [mbind result_bind].
  pose proof (vb_length _ _ _ _ Hh). destruct Hh as (H0 & H4 & Hs & _).
  change 0x00FFFFFF with (Z.ones 24). rewrite (Z.land_comm (Z.ones 24)), Z.land_ones, Z.mod_small by lia.
  rewrite Z.land_0_l, Z.lor_0_l.
  destruct (frames_store 4 mem 4 count) as (mem' & Hst & Hh' & F); [lia..|].
  exists mem'. unfold vb_header. split_and!; try done; try lia.
  - by apply (frames_weaken _ _ _ _ _ _ F).
  - apply F; [done|]. by left.
Qed.

Lemma init_header_spec mem :
  8 ≤ zlen mem → ∃ mem', init_header mem = Ok mem' ∧ frames mem mem' 0 8 ∧ vb_header mem' true 0 0.
Proof.
  intros Hl. unfold init_header.
  destruct (frames_poke mem 0 (replicate (Z.to_nat VARBLOCK_HEADER_LEN) 0)) as (m1 & -> & H1 & F1);
    [done|simpl length; lia|]. cbn [mbind result_bind].
  change (replicate (Z.to_nat VARBLOCK_HEADER_LEN) 0) with (le_bytes 4 0 ++ le_bytes 4 0) in H1.
  apply holds_app in H1 as [H1 H1']. change (0 + zlen (le_bytes 4 0)) with 4 in H1'.
  destruct F1 as [L1 F1]. unfold VarBlockSet_version. rewrite (load_small 4 m1 0 0) by (done || lia). cbn [mbind result_bind].
  destruct (frames_store 4 m1 0 (vb_word false 0)) as (m2 & Hs2 & H2 & F2); [lia..|].
  change (Z.lor (Z.land 0 0xFCFFFFFF) (Z.land 0x03000000 (Z.shiftl InitialVersion 24))) with (vb_word false 0).
  rewrite Hs2. cbn [mbind result_bind].
  assert (Hh2 : vb_header m2 false 0 0). { unfold vb_header. split_and!; try done. apply F2; [done|]. by right. }
  unfold VarBlockSet_offsetsAreSmall. rewrite (proj1 (vb_load _ _ _ _ Hh2)). cbn [mbind result_bind].
  destruct (vb_set_word0 m2 false 0 0 (Z.lor (vb_word false 0) 0x80000000) true 0 Hh2) as (m3 & -> & F3 & Hh3); [done|done|].
  exists m3. split_and!; [done| |done]. 
  apply (frames_trans m1 m2 m3 0 4 0 8) in F3; [|done].
  split; [rewrite (proj1 F3); done|]. intros off bs Hb Hd. apply F3; [apply F1; [done|]|]; simpl length; lia.
Qed.
End Header.

(** ** The layout of a list of items *)

Implicit Types (items : list (list Z)) (item : list Z).

(** The least even number that is not smaller. *)
Definition even (l : Z) : Z := (l + 1) / 2 * 2.

Lemma even_bounds l : l ≤ even l ≤ l + 1.
Proof. unfold even. Z.div_mod_to_equations; lia. Qed.

Lemma even_double l : even (l * 2) = l * 2.
Proof. unfold even. Z.div_mod_to_equations; lia. Qed.

Lemma round_even_spec l : 0 ≤ l < 2 ^ 31 - 1 → round_even l = even l.
Proof.
  intros Hl. unfold round_even, even. rewrite s32_small by lia. by rewrite Z.quot_div_nonneg by lia.
Qed.

(** Where the items start, the first at [at_]. *)
Fixpoint offsets (at_ : Z) (items : list (list Z)) : list Z :=
  match items with [] => [] | item :: items => at_ :: offsets (at_ + zlen item) items end.

Abbreviation total items := (zlen (concat items)).

(** Two bytes are enough for the offsets. *)
Definition small_of (items : list (list Z)) : bool :=
  forallb (λ o, o <=? 63 * 1024) (offsets VARBLOCK_HEADER_LEN items).
Definition width (small : bool) : nat := if small then 2 else 3.
Abbreviation width_of items := (width (small_of items)).

(** The length of the block, and what limits it. *)
Definition vb_len (items : list (list Z)) : Z :=
  VARBLOCK_HEADER_LEN + even (total items) + even (zlen items * Z.of_nat (width_of items)).
Definition vb_capacity (maxBufferLen tempScratchSpaceLen : Z) (items : list (list Z)) : bool :=
  (vb_len items <=? maxBufferLen) && (zlen items <=? tempScratchSpaceLen / Z.of_nat (width_of items)).

Lemma offsets_app at_ items1 items2 :
  offsets at_ (items1 ++ items2) = offsets at_ items1 ++ offsets (at_ + total items1) items2.
Proof.
  revert at_. induction items1 as [|x items1 IH]; intros at_; [simpl; f_equal; lia|].
  cbn [offsets app concat]. rewrite IH, length_app. do 2 f_equal. f_equal. lia.
Qed.

Lemma length_offsets at_ items : length (offsets at_ items) = length items.
Proof. revert at_. induction items as [|x items IH]; intros at_; simpl; auto. Qed.

Lemma offsets_lookup at_ items i :
  (i < length items)%nat → offsets at_ items !! i = Some (at_ + total (take i items)).
Proof.
  revert at_ i. induction items as [|x items IH]; intros at_ [|i] Hi; simpl in Hi; try lia.
  - cbn. f_equal. lia.
  - cbn [offsets take concat]. rewrite lookup_cons_ne_0 by done. simpl Nat.pred. rewrite IH by lia.
    rewrite length_app. f_equal. lia.
Qed.

Lemma total_app items1 items2 : total (items1 ++ items2) = total items1 + total items2.
Proof. rewrite concat_app, length_app. lia. Qed.

Lemma total_snoc items item : total (items ++ [item]) = total items + zlen item.
Proof. rewrite total_app. cbn [concat]. rewrite app_nil_r. lia. Qed.

Lemma offsets_snoc at_ items item : offsets at_ (items ++ [item]) = offsets at_ items ++ [at_ + total items].
Proof. by rewrite offsets_app. Qed.

Lemma small_of_snoc items item :
  small_of (items ++ [item]) = small_of items && (VARBLOCK_HEADER_LEN + total items <=? 63 * 1024).
Proof. unfold small_of. rewrite offsets_snoc, forallb_app. cbn [forallb]. by rewrite andb_true_r. Qed.

Lemma offsets_range at_ items : Forall (λ o, at_ ≤ o ≤ at_ + total items) (offsets at_ items).
Proof.
  revert at_. induction items as [|x items IH]; intros at_; constructor; [lia|].
  eapply Forall_impl; [apply IH|]. intros o Ho. cbn [concat] in *. rewrite length_app. lia.
Qed.

Lemma width_pos items : 2 ≤ Z.of_nat (width_of items) ≤ 3.
Proof. destruct (small_of items); simpl; lia. Qed.

(** ** Making a block *)

(** The client's part: the item is copied to where it was given room. *)
Definition add_item (mk : VarBlockMaker) (item : list Z) : result (option VarBlockMaker) :=
  '(ptr, mk) ← VarBlockMakerGetNextItemPtr mk (zlen item);
  match ptr with
  | None => Ok None
  | Some ptr => buffer ← poke (vbm_buffer mk) ptr item; Ok (Some (with_buffer mk buffer))
  end.

(** The state of a maker that was given [items]. *)
Record maker_ok (mk : VarBlockMaker) (items : list (list Z)) : Prop := {
  mo_header : vb_header (vbm_buffer mk) (small_of items) 0 0;
  mo_max : vbm_maxBufferLen mk ≤ 2 ^ 24;
  mo_buffer : vbm_maxBufferLen mk ≤ zlen (vbm_buffer mk);
  mo_scratch : vbm_tempScratchSpaceLen mk = zlen (vbm_tempScratchSpace mk);
  mo_sum : vbm_currentItemLenSum mk = total items;
  mo_next : vbm_nextItemPtr mk = VARBLOCK_HEADER_LEN + total items;
  mo_last2 : vbm_last2ByteOffsetPtr mk = 63 * 1024;
  mo_count : vbm_currentItemCount mk = zlen items;
  mo_maxCount : vbm_maxItemCount mk = vbm_tempScratchSpaceLen mk / Z.of_nat (width_of items);
  mo_items : holds (vbm_buffer mk) VARBLOCK_HEADER_LEN (concat items);
  mo_offsets : holds (vbm_tempScratchSpace mk) 0
                 (array (width_of items) (offsets VARBLOCK_HEADER_LEN items));
  mo_fits : vb_len items ≤ vbm_maxBufferLen mk;
}.

(** The reverse move does not overwrite an offset that it still has to read. *)
Lemma widen_offsets_spec vs scratch :
  Forall (λ v, 0 ≤ v < 2 ^ 16) vs → holds scratch 0 (array 2 vs) → 3 * zlen vs ≤ zlen scratch →
  ∃ scratch', widen_offsets scratch (length vs) = Ok scratch' ∧ holds scratch' 0 (array 3 vs) ∧
    frames scratch scratch' 0 (3 * zlen vs).
Proof.
  revert scratch. induction vs as [|v vs IH] using rev_ind; intros scratch Hvs Hh Hl.
  - exists scratch. split_and!; [done|by apply holds_nil|by split].
  - rewrite length_app in *. cbn [length] in *. replace (length vs + 1)%nat with (S (length vs)) by lia.
    cbn [widen_offsets]. apply Forall_app in Hvs as [Hvs [Hv _]%Forall_cons].
    pose proof (array_lookup 2 scratch 0 _ (length vs) v Hh (list_lookup_middle _ [] _ _ eq_refl)) as Hat.
    rewrite (load_small 2 scratch (Z.of_nat (length vs) * 2) v) by (done || lia). cbn [mbind result_bind].
    destruct (frames_store 3 scratch (Z.of_nat (length vs) * 3) v) as (s1 & Hs1 & H1 & F1); [lia..|].
    unfold VARBLOCK_BYTE_OFFSET_24_LEN. rewrite Hs1. cbn [mbind result_bind].
    rewrite array_app in Hh. apply holds_app in Hh as [Hh _].
    destruct (IH s1) as (s2 & Hs2 & H2 & F2); [done| |rewrite (proj1 F1); lia|].
    { apply F1; [done|]. rewrite length_array. lia. }
    exists s2. split_and!; [done| |].
    + rewrite array_app. apply holds_app. split; [done|]. rewrite length_array.
      cbn [array flat_map]. rewrite app_nil_r. replace (0 + Z.of_nat (3 * length vs)) with (zlen vs * 3) by lia.
      apply F2; [done|]. lia.
    + eapply frames_weaken; [exact (frames_trans _ _ _ _ _ _ _ F1 F2)|lia|lia].
Qed.

Lemma maker_bounds mk items : maker_ok mk items → total items < 2 ^ 24 ∧ zlen items < 2 ^ 24 ∧ 0 ≤ total items.
Proof.
  intros Hok. pose proof (mo_fits _ _ Hok) as Hf. pose proof (mo_max _ _ Hok). unfold vb_len, VARBLOCK_HEADER_LEN in Hf.
  pose proof (even_bounds (total items)). pose proof (width_pos items).
  pose proof (even_bounds (zlen items * Z.of_nat (width_of items))). nia.
Qed.

Lemma vb_len_snoc items item small :
  small_of (items ++ [item]) = small →
  vb_len (items ++ [item]) =
  VARBLOCK_HEADER_LEN + even (total items + zlen item) + even ((zlen items + 1) * Z.of_nat (width small)).
Proof.
  intros <-. unfold vb_len. rewrite total_snoc, length_app. cbn [length]. do 2 f_equal. f_equal. lia.
Qed.

(** What each of the three cases for the offset has to do. *)
Definition offset_added (mk : VarBlockMaker) (items : list (list Z)) (item : list Z)
    (r : result (option (list Z * list Z * Z))) : Prop :=
  let items' := items ++ [item] in
  if vb_capacity (vbm_maxBufferLen mk) (vbm_tempScratchSpaceLen mk) items' then
    ∃ buffer scratch,
      r = Ok (Some (buffer, scratch, vbm_tempScratchSpaceLen mk / Z.of_nat (width_of items'))) ∧
      vb_header buffer (small_of items') 0 0 ∧ frames (vbm_buffer mk) buffer 0 8 ∧
      length scratch = length (vbm_tempScratchSpace mk) ∧
      holds scratch 0 (array (width_of items') (offsets VARBLOCK_HEADER_LEN items'))
  else r = Ok None.

Section Offsets.
Context (mk : VarBlockMaker) (items : list (list Z)) (item : list Z).
Context (Hok : maker_ok mk items) (Hlen : zlen item ≤ 2 ^ 30).

Lemma capacity_split small :
  small_of (items ++ [item]) = small →
  vb_capacity (vbm_maxBufferLen mk) (vbm_tempScratchSpaceLen mk) (items ++ [item]) =
  negb (vbm_maxBufferLen mk <? VARBLOCK_HEADER_LEN + even (total items + zlen item) +
          even ((zlen items + 1) * Z.of_nat (width small))) &&
  (zlen items <? vbm_tempScratchSpaceLen mk / Z.of_nat (width small)).
Proof.
  intros Hs. unfold vb_capacity. rewrite (vb_len_snoc _ _ _ Hs), Hs, length_app. cbn [length].
  rewrite Z.leb_antisym. f_equal. destruct (Z.ltb_spec (zlen items) (vbm_tempScratchSpaceLen mk / Z.of_nat (width small)));
    [apply Z.leb_le|apply Z.leb_gt]; lia.
Qed.

(** The new total length does not overflow. *)
Lemma new_total_large :
  s32 (VARBLOCK_HEADER_LEN + round_even (total items + zlen item) +
       round_even ((zlen items + 1) * VARBLOCK_BYTE_OFFSET_24_LEN)) =
  VARBLOCK_HEADER_LEN + even (total items + zlen item) + even ((zlen items + 1) * 3).
Proof.
  destruct (maker_bounds _ _ Hok) as (? & ? & ?). unfold VARBLOCK_HEADER_LEN, VARBLOCK_BYTE_OFFSET_24_LEN.
  pose proof (even_bounds (total items + zlen item)). pose proof (even_bounds ((zlen items + 1) * 3)).
  rewrite !round_even_spec by lia. apply s32_small. lia.
Qed.

Lemma add_small_offset_spec :
  small_of (items ++ [item]) = true → zlen items < vbm_maxItemCount mk →
  offset_added mk items item
    (add_small_offset mk (VARBLOCK_HEADER_LEN + total items) (total items + zlen item)).
Proof.
  intros Hs Hc. pose proof Hs as Hs'. rewrite small_of_snoc in Hs'. apply andb_true_iff in Hs' as [Hs0 H64].
  destruct (maker_bounds _ _ Hok) as (? & ? & ?). pose proof (mo_maxCount _ _ Hok) as Hmax. rewrite Hs0 in Hmax.
  pose proof (even_bounds (total items + zlen item)).
  unfold offset_added, add_small_offset. rewrite (mo_count _ _ Hok), (capacity_split true Hs), Hs.
  cbn [width] in *. change (Z.of_nat 2) with 2 in *. rewrite round_even_spec by lia.
  rewrite s32_small by (unfold VARBLOCK_HEADER_LEN; lia). rewrite even_double, <- Hmax, (proj2 (Z.ltb_lt _ _) Hc).
  rewrite andb_true_r. replace ((zlen items + 1) * 2) with (zlen items * 2 + 2) by lia. rewrite Z.add_assoc.
  destruct (_ <? _); cbn [negb]; [done|].
  assert (Hroom : zlen items * 2 + 2 ≤ zlen (vbm_tempScratchSpace mk)).
  { rewrite <- (mo_scratch _ _ Hok). rewrite Hmax in Hc. clear - Hc. Z.div_mod_to_equations; lia. }
  destruct (frames_store 2 (vbm_tempScratchSpace mk) (zlen items * 2) (VARBLOCK_HEADER_LEN + total items))
    as (scratch & -> & Hh & F); [lia..|]. cbn [mbind result_bind]. exists (vbm_buffer mk), scratch.
  pose proof (mo_offsets _ _ Hok) as Ho. pose proof (mo_header _ _ Hok) as Hhd. rewrite Hs0 in Ho, Hhd.
  split_and!; [done|done|by split|apply F|].
  rewrite offsets_snoc, array_app. apply holds_app. split.
  - apply F; [done|]. rewrite length_array, length_offsets. simpl width. lia.
  - rewrite length_array, length_offsets. cbn [array flat_map]. rewrite app_nil_r.
    by replace (0 + Z.of_nat (2 * length items)) with (zlen items * 2) by lia.
Qed.

(** The 3-byte offset of the new item behind the 3-byte offsets of the others. *)
Lemma store_large_offset scratch :
  length scratch = length (vbm_tempScratchSpace mk) →
  small_of (items ++ [item]) = false → holds scratch 0 (array 3 (offsets VARBLOCK_HEADER_LEN items)) →
  zlen items < vbm_tempScratchSpaceLen mk / 3 →
  ∃ scratch', store 3 scratch (zlen items * VARBLOCK_BYTE_OFFSET_24_LEN) (VARBLOCK_HEADER_LEN + total items) =
      Ok scratch' ∧ length scratch' = length (vbm_tempScratchSpace mk) ∧
    holds scratch' 0 (array (width_of (items ++ [item])) (offsets VARBLOCK_HEADER_LEN (items ++ [item]))).
Proof.
  intros Hl Hs Ho Hc. unfold VARBLOCK_BYTE_OFFSET_24_LEN.
  assert (Hroom : zlen items * 3 + 3 ≤ zlen scratch).
  { rewrite Hl, <- (mo_scratch _ _ Hok). clear - Hc. Z.div_mod_to_equations; lia. }
  destruct (frames_store 3 scratch (zlen items * 3) (VARBLOCK_HEADER_LEN + total items))
    as (scratch' & Hst & Hh & F); [lia..|].
  exists scratch'. split_and!; [done|rewrite (proj1 F); done|].
  rewrite Hs, offsets_snoc, array_app. apply holds_app. split.
  - apply F; [done|]. rewrite length_array, length_offsets. simpl width. lia.
  - rewrite length_array, length_offsets. cbn [array flat_map width]. rewrite app_nil_r.
    by replace (0 + Z.of_nat (3 * length items)) with (zlen items * 3) by lia.
Qed.

Lemma add_large_offset_spec :
  small_of items = false → zlen items < vbm_maxItemCount mk →
  offset_added mk items item
    (add_large_offset mk (VARBLOCK_HEADER_LEN + total items) (total items + zlen item)).
Proof.
  intros Hs0 Hc. assert (Hs : small_of (items ++ [item]) = false) by by rewrite small_of_snoc, Hs0.
  pose proof (mo_maxCount _ _ Hok) as Hmax. rewrite Hs0 in Hmax.
  unfold offset_added, add_large_offset. rewrite (mo_count _ _ Hok), (capacity_split false Hs), new_total_large.
  cbn [width] in *. change (Z.of_nat 3) with 3 in *. rewrite <- Hmax, (proj2 (Z.ltb_lt _ _) Hc), andb_true_r.
  destruct (_ <? _); cbn [negb]; [done|].
  pose proof (mo_offsets _ _ Hok) as Ho. pose proof (mo_header _ _ Hok) as Hhd. rewrite Hs0 in Ho, Hhd.
  destruct (store_large_offset (vbm_tempScratchSpace mk)) as (scratch & -> & Hl & Hh); [done..|by rewrite <- Hmax|].
  cbn [mbind result_bind]. exists (vbm_buffer mk), scratch. rewrite Hs in *.
  split_and!; [by rewrite Hmax|done|by split|done|done].
Qed.

Lemma convert_offsets_spec :
  small_of items = true → small_of (items ++ [item]) = false → zlen items < vbm_maxItemCount mk →
  offset_added mk items item
    (convert_offsets mk (VARBLOCK_HEADER_LEN + total items) (total items + zlen item)).
Proof.
  intros Hs0 Hs Hc. pose proof (mo_maxCount _ _ Hok) as Hmax. rewrite Hs0 in Hmax.
  unfold offset_added, convert_offsets. rewrite (mo_count _ _ Hok), (capacity_split false Hs), new_total_large.
  cbn [width] in *. change (Z.of_nat 3) with 3 in *. change (Z.of_nat 2) with 2 in *.
  destruct (_ <? _); cbn [negb andb]; [done|].
  pose proof (mo_scratch _ _ Hok) as Hsl. 
  assert (Hq : Z.quot (vbm_tempScratchSpaceLen mk) VARBLOCK_BYTE_OFFSET_24_LEN = vbm_tempScratchSpaceLen mk / 3)
    by (rewrite Z.quot_div_nonneg by (unfold VARBLOCK_BYTE_OFFSET_24_LEN; lia); done).
  rewrite Hq, Z.leb_antisym. destruct (Z.ltb_spec (zlen items) (vbm_tempScratchSpaceLen mk / 3)) as [Hc3|]; cbn [negb]; [|done].
  pose proof (mo_offsets _ _ Hok) as Ho. pose proof (mo_header _ _ Hok) as Hhd. rewrite Hs0 in Ho, Hhd. cbn [width] in Ho.
  destruct (vb_set_large _ Hhd) as (buffer & -> & Fb & Hhd'). cbn [mbind result_bind]. rewrite Nat2Z.id.
  assert (Hroom : zlen items * 3 + 3 ≤ zlen (vbm_tempScratchSpace mk)).
  { rewrite <- Hsl. clear - Hc3. Z.div_mod_to_equations; lia. }
  cbn [widen_offsets].
  destruct (peek_total (vbm_tempScratchSpace mk) (zlen items * 2) (Z.of_nat 2)) as (bs & Hpk & _ & _); [lia..|].
  unfold load at 1. rewrite Hpk. cbn [mbind result_bind].
  change (zlen items * VARBLOCK_BYTE_OFFSET_24_LEN) with (zlen items * 3).
  destruct (frames_store 3 (vbm_tempScratchSpace mk) (zlen items * 3) (le_value bs)) as (s1 & -> & _ & F1); [lia..|].
  cbn [mbind result_bind]. replace (widen_offsets s1 (length items)) with
    (widen_offsets s1 (length (offsets VARBLOCK_HEADER_LEN items))) by by rewrite length_offsets.
  destruct (widen_offsets_spec (offsets VARBLOCK_HEADER_LEN items) s1) as (s2 & -> & H2 & F2).
  - unfold small_of in Hs0. rewrite forallb_forall in Hs0.
    pose proof (offsets_range VARBLOCK_HEADER_LEN items) as Hr. rewrite Forall_forall in Hr |- *. intros v Hv.
    specialize (Hr v Hv). apply list_elem_of_In, Hs0, Z.leb_le in Hv. unfold VARBLOCK_HEADER_LEN in Hr. lia.
  - apply F1; [done|]. rewrite length_array, length_offsets. lia.
  - rewrite length_offsets, (proj1 F1). lia.
  - cbn [mbind result_bind]. destruct (store_large_offset s2) as (s3 & Hst & Hl & Hh); try done.
    { rewrite (proj1 F2). apply F1. }
    unfold VARBLOCK_BYTE_OFFSET_24_LEN in Hst. rewrite Hst. cbn [mbind result_bind].
    exists buffer, s3. rewrite Hs in *. by split_and!.
Qed.
End Offsets.

(** The part of the state that a step leaves alone. *)
Definition same_limits (mk mk' : VarBlockMaker) : Prop :=
  vbm_maxBufferLen mk' = vbm_maxBufferLen mk ∧ vbm_tempScratchSpaceLen mk' = vbm_tempScratchSpaceLen mk ∧
  length (vbm_buffer mk') = length (vbm_buffer mk).

Lemma next_offset_spec mk items item :
  maker_ok mk items → zlen item ≤ 2 ^ 30 → zlen items < vbm_maxItemCount mk →
  offset_added mk items item
    (if small_of items then
       if vbm_last2ByteOffsetPtr mk <? VARBLOCK_HEADER_LEN + total items
       then convert_offsets mk (VARBLOCK_HEADER_LEN + total items) (total items + zlen item)
       else add_small_offset mk (VARBLOCK_HEADER_LEN + total items) (total items + zlen item)
     else add_large_offset mk (VARBLOCK_HEADER_LEN + total items) (total items + zlen item)).
Proof.
  intros Hok Hlen Hc. pose proof (small_of_snoc items item) as Hsn. rewrite (mo_last2 _ _ Hok).
  destruct (small_of items) eqn:Hs; [|by apply add_large_offset_spec].
  destruct (Z.ltb_spec (63 * 1024) (VARBLOCK_HEADER_LEN + total items)) as [Hgt|Hle].
  - apply convert_offsets_spec; try done. rewrite Hsn. by apply Z.leb_gt.
  - apply add_small_offset_spec; try done. rewrite Hsn. by apply Z.leb_le.
Qed.

(** One step of the maker on the list of its items. *)
Lemma add_item_spec mk items item :
  maker_ok mk items → zlen item ≤ 2 ^ 30 →
  if vb_capacity (vbm_maxBufferLen mk) (vbm_tempScratchSpaceLen mk) (items ++ [item])
  then ∃ mk', add_item mk item = Ok (Some mk') ∧ maker_ok mk' (items ++ [item]) ∧ same_limits mk mk'
  else add_item mk item = Ok None.
Proof.
  intros Hok Hlen. destruct (maker_bounds _ _ Hok) as (? & ? & ?).
  unfold add_item, VarBlockMakerGetNextItemPtr. rewrite (mo_count _ _ Hok), (mo_sum _ _ Hok), (mo_next _ _ Hok).
  destruct (Z.leb_spec (vbm_maxItemCount mk) (zlen items)) as [Hfull|Hc].
  - assert (Hcap : vb_capacity (vbm_maxBufferLen mk) (vbm_tempScratchSpaceLen mk) (items ++ [item]) = false); [|by rewrite Hcap].
    rewrite (capacity_split mk items item _ eq_refl). apply andb_false_iff. right. apply Z.ltb_ge.
    rewrite (mo_maxCount _ _ Hok) in Hfull. etrans; [|done]. rewrite small_of_snoc, (mo_scratch _ _ Hok).
    destruct (small_of items), (_ <=? 63 * 1024); cbn [andb width]; try done.
    apply Z.div_le_compat_l; lia.
  - rewrite (s32_small (total items + zlen item)) by lia.
    rewrite (proj1 (vb_getters _ _ _ _ (mo_header _ _ Hok))). cbn [mbind result_bind].
    pose proof (next_offset_spec mk items item Hok Hlen Hc) as Hadd. unfold offset_added in Hadd.
    destruct (vb_capacity _ _ _) eqn:Hcap; [|by rewrite Hadd].
    destruct Hadd as (buffer & scratch & -> & Hhd & Fb & Hsl & Ho). cbn [mbind result_bind vbm_buffer].
    apply andb_true_iff in Hcap as [Hfit Hcnt]. apply Z.leb_le in Hfit.
    assert (Hroom : VARBLOCK_HEADER_LEN + total items + zlen item ≤ vbm_maxBufferLen mk).
    { rewrite (vb_len_snoc _ _ _ eq_refl) in Hfit. pose proof (even_bounds (total items + zlen item)).
      pose proof (even_bounds ((zlen items + 1) * Z.of_nat (width_of (items ++ [item])))).
      pose proof (width_pos (items ++ [item])). nia. }
    pose proof (mo_buffer _ _ Hok) as Hbl.
    destruct (frames_poke buffer (VARBLOCK_HEADER_LEN + total items) item) as (buffer' & -> & Hit & F);
      [unfold VARBLOCK_HEADER_LEN; lia|rewrite (proj1 Fb); lia|]. cbn [mbind result_bind].
    eexists. split; [done|]. split; [|split; [done|split; [done|]]].
    + split; cbn [with_buffer vbm_buffer vbm_maxBufferLen vbm_currentItemLenSum vbm_tempScratchSpace
        vbm_tempScratchSpaceLen vbm_nextItemPtr vbm_last2ByteOffsetPtr vbm_currentItemCount vbm_maxItemCount]; try apply Hok.
      * apply (vb_header_frames _ _ _ _ _ _ _ Hhd F). unfold VARBLOCK_HEADER_LEN. lia.
      * by rewrite (proj1 F), (proj1 Fb).
      * by rewrite Hsl, (mo_scratch _ _ Hok).
      * by rewrite total_snoc.
      * rewrite total_snoc. lia.
      * rewrite length_app. cbn [length]. lia.
      * done.
      * rewrite concat_app. apply holds_app. cbn [concat]. rewrite app_nil_r. split; [|done].
        apply F; [apply Fb; [apply Hok|by right]|lia].
      * done.
      * done.
    + cbn [with_buffer vbm_buffer]. by rewrite (proj1 F), (proj1 Fb).
Qed.

Lemma maker_ok_start buffer maxBufferLen scratch sl next last2 count maxCount sum :
  vb_header buffer true 0 0 → 8 ≤ maxBufferLen ≤ 2 ^ 24 → maxBufferLen ≤ zlen buffer → sl = zlen scratch →
  next = VARBLOCK_HEADER_LEN → last2 = 63 * 1024 → count = 0 → sum = 0 → maxCount = Z.quot sl 2 →
  maker_ok (mkMaker buffer maxBufferLen sum scratch sl next last2 count maxCount) [].
Proof.
  intros Hhd Hmax Hl -> -> -> -> -> ->. split; cbn; try done; try lia; try (by apply holds_nil).
  - by rewrite Z.quot_div_nonneg by lia.
  - change (vb_len []) with 8. lia.
Qed.

Lemma VarBlockMakerInit_spec buffer maxBufferLen scratch :
  8 ≤ maxBufferLen ≤ 2 ^ 24 → maxBufferLen ≤ zlen buffer →
  ∃ mk, VarBlockMakerInit buffer maxBufferLen scratch (zlen scratch) = Ok mk ∧ maker_ok mk [] ∧
    vbm_maxBufferLen mk = maxBufferLen ∧ vbm_tempScratchSpaceLen mk = zlen scratch ∧
    length (vbm_buffer mk) = length buffer.
Proof.
  intros Hmax Hl. unfold VarBlockMakerInit. destruct (init_header_spec buffer) as (b & -> & F & Hhd); [lia|].
  cbn [mbind result_bind]. eexists. split_and!; [done| |done|done|apply F].
  apply maker_ok_start; try done. by rewrite (proj1 F).
Qed.

(** ** The finished block *)

Definition zeros (n : Z) : list Z := replicate (Z.to_nat n) 0.

Record vb_block (mem : list Z) (items : list (list Z)) : Prop := {
  vb_hd : vb_header mem (small_of items) (total items) (zlen items);
  vb_items : holds mem VARBLOCK_HEADER_LEN (concat items);
  vb_pad1 : holds mem (VARBLOCK_HEADER_LEN + total items) (zeros (even (total items) - total items));
  vb_offs : holds mem (VARBLOCK_HEADER_LEN + even (total items))
              (array (width_of items) (offsets VARBLOCK_HEADER_LEN items));
  vb_pad2 : let l := zlen items * Z.of_nat (width_of items) in
            holds mem (VARBLOCK_HEADER_LEN + even (total items) + l) (zeros (even l - l));
  vb_fits : vb_len items ≤ zlen mem ∧ vb_len items ≤ 2 ^ 24;
}.

Lemma length_zeros n : 0 ≤ n → zlen (zeros n) = n.
Proof. intros Hn. unfold zeros. rewrite length_replicate. lia. Qed.

Lemma zero_pad_spec mem from to :
  0 ≤ from ≤ to → to ≤ zlen mem →
  ∃ mem', zero_pad mem from to = Ok mem' ∧ holds mem' from (zeros (to - from)) ∧ frames mem mem' from to.
Proof.
  intros Hf Hl. unfold zero_pad. fold (zeros (to - from)).
  destruct (frames_poke mem from (zeros (to - from))) as (mem' & Hp & Hh & F); [lia|rewrite length_zeros; lia|].
  rewrite length_zeros in F by lia. exists mem'. split_and!; [done|done|]. by replace (from + (to - from)) with to in F by lia.
Qed.

Lemma Finish_spec mk items :
  maker_ok mk items →
  ∃ mem, VarBlockMakerFinish mk = Ok (mem, vb_len items) ∧ vb_block mem items ∧
    length mem = length (vbm_buffer mk).
Proof.
  intros Hok. destruct (maker_bounds _ _ Hok) as (? & ? & ?).
  pose proof (mo_fits _ _ Hok) as Hfit. pose proof (mo_max _ _ Hok). pose proof (mo_buffer _ _ Hok).
  unfold VarBlockMakerFinish. rewrite (mo_count _ _ Hok), (mo_sum _ _ Hok).
  rewrite (proj1 (vb_getters _ _ _ _ (mo_header _ _ Hok))). cbn [mbind result_bind].
  replace (if small_of items then 2 else VARBLOCK_BYTE_OFFSET_24_LEN) with (Z.of_nat (width_of items))
    by by destruct (small_of items).
  set (w := Z.of_nat (width_of items)). assert (Hw : 2 ≤ w ≤ 3) by apply width_pos.
  pose proof (even_bounds (total items)). pose proof (even_bounds (zlen items * w)).
  unfold vb_len in Hfit. fold w in Hfit. unfold VARBLOCK_HEADER_LEN in Hfit.
  rewrite (round_even_spec (total items)), (round_even_spec (zlen items * w)) by nia.
  assert (Hal : zlen (array (width_of items) (offsets VARBLOCK_HEADER_LEN items)) = zlen items * w)
    by (rewrite length_array, length_offsets; lia).
  assert (Hpk : peek (vbm_tempScratchSpace mk) 0 (zlen items * w) =
    Ok (array (width_of items) (offsets VARBLOCK_HEADER_LEN items))).
  { rewrite <- Hal. apply peek_holds; [apply Hok|]. destruct (holds_bound _ _ _ (mo_offsets _ _ Hok)) as [->|Hb]; simpl; lia. }
  rewrite Hpk. cbn [mbind result_bind]. set (o := VARBLOCK_HEADER_LEN + even (total items)).
  assert (Ho : o = 8 + even (total items)) by done.
  destruct (frames_poke (vbm_buffer mk) o (array (width_of items) (offsets VARBLOCK_HEADER_LEN items)))
    as (m1 & -> & K1 & F1); [lia|lia|]. cbn [mbind result_bind]. rewrite Hal in F1.
  destruct (zero_pad_spec m1 (VARBLOCK_HEADER_LEN + total items) o) as (m2 & -> & K2 & F2);
    [unfold VARBLOCK_HEADER_LEN; lia|rewrite (proj1 F1); lia|]. cbn [mbind result_bind].
  assert (Hh2 : vb_header m2 (small_of items) 0 0).
  { eapply vb_header_frames; [|exact F2|unfold VARBLOCK_HEADER_LEN; lia].
    eapply vb_header_frames; [|exact F1|lia]. apply Hok. }
  destruct (vb_set_sum m2 _ (total items) _ Hh2) as (m3 & -> & F3 & Hh3); [lia|]. cbn [mbind result_bind].
  destruct (vb_set_count m3 _ _ (zlen items) Hh3) as (m4 & -> & F4 & Hh4); [lia|]. cbn [mbind result_bind].
  destruct (zero_pad_spec m4 (o + zlen items * w) (o + even (zlen items * w))) as (m5 & -> & K5 & F5);
    [lia|rewrite (proj1 F4), (proj1 F3), (proj1 F2), (proj1 F1); lia|]. cbn [mbind result_bind].
  exists m5. assert (Hlen : length m5 = length (vbm_buffer mk))
    by by rewrite (proj1 F5), (proj1 F4), (proj1 F3), (proj1 F2), (proj1 F1).
  split_and!; [done| |done].
  split; fold w; fold o.
  - apply (vb_header_frames _ _ _ _ _ _ _ Hh4 F5). lia.
  - apply F5; [apply F4; [apply F3; [apply F2; [apply F1; [apply Hok|]|]|]|]|]; unfold VARBLOCK_HEADER_LEN; lia.
  - replace (even (total items) - total items) with (o - (VARBLOCK_HEADER_LEN + total items)) by (unfold o; lia).
    apply F5; [apply F4; [apply F3; [done|]|]|]; rewrite ?length_zeros; unfold VARBLOCK_HEADER_LEN; lia.
  - apply F5; [apply F4; [apply F3; [apply F2; [done|]|]|]|]; rewrite ?Hal; lia.
  - cbv zeta. fold o. replace (even (zlen items * w) - zlen items * w) with (o + even (zlen items * w) - (o + zlen items * w)) by lia.
    exact K5.
  - unfold vb_len. fold w o. rewrite Hlen. lia.
Qed.

(** ** Checking and reading *)

Lemma pad_is_zero_spec mem from to :
  from ≤ to → holds mem from (zeros (to - from)) → pad_is_zero mem from to = Ok true.
Proof.
  intros Hf Hh. unfold pad_is_zero. destruct (Z.ltb_spec from to) as [Hlt|]; [|done].
  pose proof (length_zeros (to - from) ltac:(lia)) as Hl.
  destruct (holds_bound _ _ _ Hh) as [Hn|Hb]; [rewrite Hn in Hl; simpl in Hl; lia|].
  pose proof (peek_holds _ _ _ Hh Hb) as Hp. rewrite Hl in Hp. rewrite Hp. cbn [mbind result_bind]. f_equal.
  apply forallb_forall. intros x Hx%list_elem_of_In. unfold zeros in Hx. by apply elem_of_replicate_inv in Hx as ->.
Qed.

Lemma check_offsets_spec itemLenSum n :
  0 ≤ itemLenSum → check_offsets VARBLOCK_HEADER_LEN itemLenSum n = VarBlockCheckOk.
Proof.
  intros Hs. induction n as [|n IH]; [done|]. cbn [check_offsets]. rewrite Z.ltb_irrefl.
  destruct (Z.ltb_spec (itemLenSum + VARBLOCK_HEADER_LEN) VARBLOCK_HEADER_LEN); [lia|done].
Qed.

(** All that the check of a block looks at: the header, the two pads and the first offset. *)
Lemma VarBlockIsValid_spec mem small sum count :
  let o := VARBLOCK_HEADER_LEN + even sum in let l := count * Z.of_nat (width small) in
  vb_header mem small sum count → holds mem (VARBLOCK_HEADER_LEN + sum) (zeros (even sum - sum)) →
  holds mem (o + l) (zeros (even l - l)) → (0 < count → VarBlockGetOffset mem o 0 = Ok VARBLOCK_HEADER_LEN) →
  VarBlockIsValid mem (o + even l) = Ok VarBlockCheckOk ∧
  VarBlockLenFromHeader mem (o + even l) = Ok (o + even l).
Proof.
  intros o l Hh Hp1 Hp2 Hfirst. pose proof Hh as (_ & _ & Hsum & Hcount).
  destruct (vb_getters _ _ _ _ Hh) as (Gs & Gl & Gc & Gv).
  assert (Hw : (if small then 2 else VARBLOCK_BYTE_OFFSET_24_LEN) = Z.of_nat (width small)) by by destruct small.
  assert (2 ≤ Z.of_nat (width small) ≤ 3) by (destruct small; simpl; lia).
  pose proof (even_bounds sum). pose proof (even_bounds l).
  assert (Ho : VARBLOCK_HEADER_LEN + round_even sum = o) by (unfold o; by rewrite round_even_spec by lia).
  assert (Hl : round_even l = even l) by (apply round_even_spec; unfold l; nia).
  assert (0 ≤ l) by (unfold l; nia). unfold VARBLOCK_HEADER_LEN in o.
  split.
  - unfold VarBlockIsValid. rewrite Gv. cbn [mbind result_bind]. rewrite bool_decide_eq_false_2 by auto.
    rewrite Gl. cbn [mbind result_bind]. rewrite Ho. destruct (Z.leb_spec (o + even l) sum); [unfold o in *; lia|].
    destruct (Z.ltb_spec (o + even l) o); [lia|].
    rewrite pad_is_zero_spec by (unfold o, VARBLOCK_HEADER_LEN in *; try lia;
      by replace (8 + even sum - (8 + sum)) with (even sum - sum) by lia).
    cbn [mbind result_bind negb]. rewrite Gc. cbn [mbind result_bind]. destruct (Z.eqb_spec count 0) as [->|Hne].
    + assert (even l = 0) by done. by rewrite (proj2 (Z.eqb_eq o (o + even l))) by lia.
    + unfold check_items. rewrite Gs. cbn [mbind result_bind]. rewrite Hw. fold l. rewrite Hl.
      rewrite (proj2 (Z.eqb_eq (o + even l - o) (even l))) by lia. cbn [negb].
      rewrite Hfirst by lia. cbn [mbind result_bind]. rewrite Z.eqb_refl, check_offsets_spec by lia. cbn [negb].
      rewrite pad_is_zero_spec; [done|lia|]. by replace (o + even l - (o + l)) with (even l - l) by lia.
  - unfold VarBlockLenFromHeader. destruct (Z.ltb_spec (o + even l) VARBLOCK_HEADER_LEN);
      [unfold o, VARBLOCK_HEADER_LEN in *; lia|].
    rewrite Gl. cbn [mbind result_bind]. rewrite Gs. cbn [mbind result_bind]. rewrite Gc. cbn [mbind result_bind].
    rewrite Ho, Hw. fold l. by rewrite Hl.
Qed.

(** [VARBLOCK_HEADER_LEN + even (total items)], where the offsets are. *)
Abbreviation array_at items := (VARBLOCK_HEADER_LEN + even (total items)).

Lemma GetOffset_spec mem items i :
  vb_block mem items → (i < length items)%nat →
  VarBlockGetOffset mem (array_at items) (Z.of_nat i) = Ok (VARBLOCK_HEADER_LEN + total (take i items)).
Proof.
  intros Hb Hi. unfold VarBlockGetOffset. rewrite (proj1 (vb_getters _ _ _ _ (vb_hd _ _ Hb))). cbn [mbind result_bind].
  pose proof (offsets_lookup VARBLOCK_HEADER_LEN items i Hi) as Hat.
  pose proof (array_lookup _ _ _ _ _ _ (vb_offs _ _ Hb) Hat) as Hh.
  pose proof (proj1 (Forall_forall _ _) (offsets_range VARBLOCK_HEADER_LEN items) _ (list_elem_of_lookup_2 _ _ _ Hat)) as Hr.
  destruct (small_of items) eqn:Hs; cbn [width] in Hh; apply load_small; try done; try lia.
  - unfold small_of in Hs. rewrite forallb_forall in Hs.
    specialize (Hs _ (proj1 (list_elem_of_In _ _) (list_elem_of_lookup_2 _ _ _ Hat))). apply Z.leb_le in Hs.
    change (256 ^ Z.of_nat 2) with (2 ^ 16). unfold VARBLOCK_HEADER_LEN in *. lia.
  - destruct (vb_fits _ _ Hb) as [_ Hf]. unfold vb_len in Hf. pose proof (even_bounds (total items)).
    pose proof (even_bounds (zlen items * Z.of_nat (width_of items))). pose proof (width_pos items).
    change (256 ^ Z.of_nat 3) with (2 ^ 24). unfold VARBLOCK_HEADER_LEN in *. nia.
Qed.

Lemma vb_block_valid mem items :
  vb_block mem items →
  VarBlockIsValid mem (vb_len items) = Ok VarBlockCheckOk ∧
  VarBlockLenFromHeader mem (vb_len items) = Ok (vb_len items).
Proof.
  intros Hb. apply VarBlockIsValid_spec; try apply Hb. intros Hc.
  by apply (GetOffset_spec mem items 0 Hb); lia.
Qed.

Lemma total_take_S items i item :
  items !! i = Some item → total (take (S i) items) = total (take i items) + zlen item.
Proof. intros Hi. rewrite (take_S_r _ _ _ Hi). apply total_snoc. Qed.

(** The length of an item from its neighbours in the array. *)
Lemma item_len_spec mem items i item :
  vb_block mem items → items !! i = Some item →
  (if u32 (Z.of_nat i) <? u32 (zlen items - 1) then
     nextOffset ← VarBlockGetOffset mem (array_at items) (Z.of_nat i + 1);
     Ok (nextOffset - (VARBLOCK_HEADER_LEN + total (take i items)))
   else
     itemLenSum ← VarBlockGet_itemLenSum mem;
     Ok (VARBLOCK_HEADER_LEN + itemLenSum - (VARBLOCK_HEADER_LEN + total (take i items)))) = Ok (zlen item).
Proof.
  intros Hb Hi. pose proof (lookup_lt_Some _ _ _ Hi) as Hlt. pose proof (vb_hd _ _ Hb) as Hh.
  pose proof (total_take_S _ _ _ Hi) as Hn. destruct Hh as (? & ? & ? & Hc).
  unfold u32. rewrite !Z.mod_small by lia. destruct (Z.ltb_spec (Z.of_nat i) (zlen items - 1)).
  - replace (Z.of_nat i + 1) with (Z.of_nat (S i)) by lia. rewrite GetOffset_spec by (done || lia).
    cbn [mbind result_bind]. f_equal. lia.
  - rewrite (proj1 (proj2 (vb_getters _ _ _ _ (vb_hd _ _ Hb)))). cbn [mbind result_bind].
    rewrite take_ge in Hn by lia. f_equal. lia.
Qed.

Definition reader_of (mem : list Z) (len : Z) (items : list (list Z)) (i : nat) : VarBlockReader :=
  mkReader mem len (Z.of_nat i) (VARBLOCK_HEADER_LEN + total (take i items)) (array_at items).

Lemma ReaderInit_spec mem items len :
  vb_block mem items → VarBlockReaderInit mem len = Ok (reader_of mem len items 0).
Proof.
  intros Hb. unfold VarBlockReaderInit. destruct (vb_getters _ _ _ _ (vb_hd _ _ Hb)) as (_ & -> & _).
  cbn [mbind result_bind]. destruct (vb_hd _ _ Hb) as (_ & _ & ? & _). by rewrite round_even_spec by lia.
Qed.

Lemma ReaderGetItemPtr_spec mem items len i j item :
  vb_block mem items → items !! i = Some item →
  VarBlockReaderGetItemPtr (reader_of mem len items j) (Z.of_nat i) =
    Ok (VARBLOCK_HEADER_LEN + total (take i items), zlen item).
Proof.
  intros Hb Hi. unfold VarBlockReaderGetItemPtr, VarBlockGetItemPtrAndLen. cbn [reader_of vbr_buffer vbr_offsetToOffsetArray].
  rewrite GetOffset_spec by (done || by eapply lookup_lt_Some). cbn [mbind result_bind].
  destruct (vb_getters _ _ _ _ (vb_hd _ _ Hb)) as (_ & _ & -> & _). cbn [mbind result_bind].
  by rewrite (item_len_spec _ _ _ _ Hb Hi).
Qed.

Lemma ReaderGetNext_spec mem items len i :
  vb_block mem items →
  VarBlockReaderGetNextItemPtr (reader_of mem len items i) =
  Ok match items !! i with
     | Some item => (Some (VARBLOCK_HEADER_LEN + total (take i items), zlen item), reader_of mem len items (S i))
     | None => (None, reader_of mem len items i)
     end.
Proof.
  intros Hb. unfold VarBlockReaderGetNextItemPtr. cbn [reader_of vbr_buffer vbr_nextIndex vbr_nextItemPtr].
  destruct (vb_getters _ _ _ _ (vb_hd _ _ Hb)) as (_ & _ & -> & _). cbn [mbind result_bind].
  destruct (items !! i) as [item|] eqn:Hi.
  - pose proof (lookup_lt_Some _ _ _ Hi). destruct (Z.leb_spec (zlen items) (Z.of_nat i)); [lia|].
    unfold VarBlockGetItemLen. cbn [reader_of vbr_buffer vbr_offsetToOffsetArray].
    rewrite GetOffset_spec by done. cbn [mbind result_bind].
    destruct (vb_getters _ _ _ _ (vb_hd _ _ Hb)) as (_ & _ & -> & _). cbn [mbind result_bind].
    rewrite (item_len_spec _ _ _ _ Hb Hi). cbn [mbind result_bind]. unfold reader_of.
    rewrite (total_take_S _ _ _ Hi). do 3 f_equal; lia.
  - apply lookup_ge_None in Hi. by destruct (Z.leb_spec (zlen items) (Z.of_nat i)); [|lia].
Qed.

(** ** Blocks of items *)

(** The loops of the clients: items are added until one is refused, and read until there is no
    more; the fuel of the latter is one more than the number of items. *)
Fixpoint add_items (mk : VarBlockMaker) (items : list (list Z)) : result (option VarBlockMaker) :=
  match items with
  | [] => Ok (Some mk)
  | item :: items =>
      r ← add_item mk item;
      match r with Some mk => add_items mk items | None => Ok None end
  end.

Fixpoint read_items (fuel : nat) (rd : VarBlockReader) : result (list (list Z)) :=
  match fuel with
  | O => Err "fuel"
  | S fuel =>
      '(r, rd') ← VarBlockReaderGetNextItemPtr rd;
      match r with
      | None => Ok []
      | Some (ptr, len) =>
          item ← peek (vbr_buffer rd) ptr len; items ← read_items fuel rd'; Ok (item :: items)
      end
  end.

(** The capacity of a prefix. *)
Lemma vb_capacity_prefix maxBufferLen sl items1 items2 :
  0 ≤ sl → vb_capacity maxBufferLen sl (items1 ++ items2) = true → vb_capacity maxBufferLen sl items1 = true.
Proof.
  intros Hsl. unfold vb_capacity, vb_len. rewrite total_app, length_app, Nat2Z.inj_add.
  assert (Hw : Z.of_nat (width_of items1) ≤ Z.of_nat (width_of (items1 ++ items2))).
  { unfold small_of. rewrite offsets_app, forallb_app. destruct (forallb _ (offsets _ items1)); simpl; [|lia].
    destruct (forallb _ _); simpl; lia. }
  pose proof (width_pos items1). pose proof (width_pos (items1 ++ items2)).
  rewrite !andb_true_iff, !Z.leb_le. intros [H1 H2]. split.
  - assert (Hm : ∀ x y, x ≤ y → even x ≤ even y) by (intros x y Hxy; unfold even; Z.div_mod_to_equations; lia).
    pose proof (Hm (total items1) (total items1 + total items2) ltac:(lia)).
    pose proof (Hm (zlen items1 * Z.of_nat (width_of items1))
      ((zlen items1 + zlen items2) * Z.of_nat (width_of (items1 ++ items2))) ltac:(nia)). lia.
  - pose proof (Z.div_le_compat_l sl (Z.of_nat (width_of items1)) (Z.of_nat (width_of (items1 ++ items2))) Hsl ltac:(lia)). lia.
Qed.

Lemma add_items_spec mk done_ items :
  maker_ok mk done_ → Forall (λ item, zlen item ≤ 2 ^ 30) items →
  vb_capacity (vbm_maxBufferLen mk) (vbm_tempScratchSpaceLen mk) done_ = true →
  if vb_capacity (vbm_maxBufferLen mk) (vbm_tempScratchSpaceLen mk) (done_ ++ items)
  then ∃ mk', add_items mk items = Ok (Some mk') ∧ maker_ok mk' (done_ ++ items) ∧ same_limits mk mk'
  else add_items mk items = Ok None.
Proof.
  revert mk done_. induction items as [|item items IH]; intros mk done_ Hok Hlen Hcap.
  - rewrite app_nil_r, Hcap. exists mk. by split_and!.
  - apply Forall_cons in Hlen as [Hl Hlen]. pose proof (add_item_spec mk done_ item Hok Hl) as Hadd.
    replace (done_ ++ item :: items) with ((done_ ++ [item]) ++ items) by by rewrite <- (assoc_L (++)).
    destruct (vb_capacity _ _ (done_ ++ [item])) eqn:Hc1; cbn [add_items].
    + destruct Hadd as (mk' & -> & Hok' & Hsame). cbn [mbind result_bind]. pose proof Hsame as (E1 & E2 & E3).
      specialize (IH mk' (done_ ++ [item]) Hok' Hlen). rewrite E1, E2 in IH. specialize (IH Hc1).
      destruct (vb_capacity _ _ ((done_ ++ [item]) ++ items)); [|done].
      destruct IH as (mk'' & -> & Hok'' & (E1' & E2' & E3')). exists mk''. split; [done|]. split; [done|].
      split; [congruence|split; congruence].
    + rewrite Hadd. cbn [mbind result_bind].
      destruct (vb_capacity _ _ ((done_ ++ [item]) ++ items)) eqn:Hc2; [|done].
      apply vb_capacity_prefix in Hc2; [congruence|]. rewrite (mo_scratch _ _ Hok). lia.
Qed.

Lemma peek_item mem items i item :
  vb_block mem items → items !! i = Some item →
  peek mem (VARBLOCK_HEADER_LEN + total (take i items)) (zlen item) = Ok item.
Proof.
  intros Hb Hi. pose proof (vb_items _ _ Hb) as Hh. rewrite <- (take_drop_middle _ _ _ Hi), concat_app in Hh.
  apply holds_app in Hh as [_ Hh]. cbn [concat] in Hh. apply holds_app in Hh as [Hh _]. apply peek_holds; [done|].
  destruct (vb_fits _ _ Hb) as [Hf _]. unfold vb_len in Hf. pose proof (even_bounds (total items)).
  pose proof (total_take_S _ _ _ Hi) as Ht. pose proof (even_bounds (zlen items * Z.of_nat (width_of items))).
  assert (total (take (S i) items) ≤ total items).
  { rewrite <- (take_drop (S i) items) at 2. rewrite total_app. lia. }
  unfold VARBLOCK_HEADER_LEN in *. nia.
Qed.

Lemma read_items_spec mem items len fuel i :
  vb_block mem items → (length items < fuel + i)%nat → (i ≤ length items)%nat →
  read_items fuel (reader_of mem len items i) = Ok (drop i items).
Proof.
  intros Hb. revert i. induction fuel as [|fuel IH]; intros i Hf Hi; [lia|].
  cbn [read_items]. rewrite ReaderGetNext_spec by done. cbn [mbind result_bind].
  destruct (items !! i) as [item|] eqn:Hat.
  - cbn [reader_of vbr_buffer]. rewrite (peek_item _ _ _ _ Hb Hat). cbn [mbind result_bind].
    pose proof (lookup_lt_Some _ _ _ Hat). rewrite IH by lia. cbn [mbind result_bind]. by rewrite (drop_S _ _ _ Hat).
  - apply lookup_ge_None in Hat. by rewrite drop_ge.
Qed.

(** What is in the block, for those who read it. *)
Definition readable (mem : list Z) (items : list (list Z)) : Prop :=
  VarBlockIsValid mem (vb_len items) = Ok VarBlockCheckOk ∧
  VarBlockLenFromHeader mem (vb_len items) = Ok (vb_len items) ∧
  ∃ rd, VarBlockReaderInit mem (vb_len items) = Ok rd ∧ VarBlockReaderItemCount rd = Ok (zlen items) ∧
    read_items (S (length items)) rd = Ok items ∧
    (∀ i item, items !! i = Some item → ∃ ptr,
       VarBlockReaderGetItemPtr rd (Z.of_nat i) = Ok (ptr, zlen item) ∧ peek mem ptr (zlen item) = Ok item) ∧
    (∀ item target, items = [item] → zlen item ≤ zlen target → ∃ target',
       VarBlockCollapseToSingleItem target mem (vb_len items) = Ok (target', zlen item) ∧
       holds target' 0 item ∧ length target' = length target).

Lemma vb_block_readable mem items : vb_block mem items → readable mem items.
Proof.
  intros Hb. destruct (vb_block_valid _ _ Hb) as [Hv Hl]. split; [done|]. split; [done|].
  exists (reader_of mem (vb_len items) items 0). split_and!.
  - by apply ReaderInit_spec.
  - apply (vb_getters _ _ _ _ (vb_hd _ _ Hb)).
  - rewrite read_items_spec by (done || lia). done.
  - intros i item Hi. eexists. split; [by apply ReaderGetItemPtr_spec|by apply peek_item].
  - intros item target -> Ht. unfold VarBlockCollapseToSingleItem. rewrite (ReaderInit_spec _ [item]) by done.
    cbn [mbind result_bind]. rewrite (ReaderGetItemPtr_spec _ [item] _ 0 0 item Hb eq_refl). cbn [mbind result_bind].
    rewrite (peek_item _ [item] 0 item Hb eq_refl). cbn [mbind result_bind].
    destruct (frames_poke target 0 item) as (target' & -> & Hh & F); [lia..|]. cbn [mbind result_bind].
    exists target'. split_and!; [done|done|apply F].
Qed.

(** A maker between two blocks: its limits, whatever its buffer holds. *)
Definition maker_ready (mk : VarBlockMaker) (maxBufferLen sl : Z) : Prop :=
  vbm_maxBufferLen mk = maxBufferLen ∧ maxBufferLen ≤ zlen (vbm_buffer mk) ∧
  vbm_tempScratchSpaceLen mk = sl ∧ zlen (vbm_tempScratchSpace mk) = sl ∧
  vbm_last2ByteOffsetPtr mk = 63 * 1024.

(** What a maker does with [items] from a start. *)
Definition makes (start : result VarBlockMaker) (maxBufferLen sl : Z) (items : list (list Z)) : Prop :=
  ∃ mk, start = Ok mk ∧
  if vb_capacity maxBufferLen sl items then
    ∃ mk' mem, add_items mk items = Ok (Some mk') ∧ VarBlockMakerItemCount mk' = zlen items ∧
      VarBlockMakerFinish mk' = Ok (mem, vb_len items) ∧ vb_len items ≤ maxBufferLen ∧
      maker_ready (with_buffer mk' mem) maxBufferLen sl ∧ readable mem items
  else add_items mk items = Ok None.

Lemma makes_from_start mk maxBufferLen sl items :
  maker_ok mk [] → vbm_maxBufferLen mk = maxBufferLen → vbm_tempScratchSpaceLen mk = sl →
  Forall (λ item, zlen item ≤ 2 ^ 30) items → makes (Ok mk) maxBufferLen sl items.
Proof.
  intros Hok <- <- Hlen. exists mk. split; [done|].
  pose proof (add_items_spec mk [] items Hok Hlen) as Hadd. rewrite app_nil_l in Hadd.
  assert (Hc : vb_capacity (vbm_maxBufferLen mk) (vbm_tempScratchSpaceLen mk) [] = true).
  { unfold vb_capacity. apply andb_true_iff. split; apply Z.leb_le; [apply Hok|].
    rewrite (mo_scratch _ _ Hok). apply Z.div_pos; simpl; lia. }
  specialize (Hadd Hc). destruct (vb_capacity _ _ items) eqn:Hcap; [|done].
  destruct Hadd as (mk' & Hadd & Hok' & E1 & E2 & E3).
  destruct (Finish_spec _ _ Hok') as (mem & Hfin & Hb & Hml). exists mk', mem.
  split_and!; [done|apply Hok'|done|rewrite <- E1; apply Hok'| |by apply vb_block_readable].
  unfold maker_ready. cbn [with_buffer vbm_buffer vbm_maxBufferLen vbm_tempScratchSpaceLen vbm_tempScratchSpace
    vbm_last2ByteOffsetPtr]. rewrite Hml.
  split_and!; [done|rewrite <- E1; apply Hok'|done|rewrite <- E2; symmetry; apply Hok'|apply Hok'].
Qed.

Lemma VarBlockMakerReset_spec mk maxBufferLen sl :
  maker_ready mk maxBufferLen sl → 8 ≤ maxBufferLen ≤ 2 ^ 24 →
  ∃ mk', VarBlockMakerReset mk = Ok mk' ∧ maker_ok mk' [] ∧ vbm_maxBufferLen mk' = maxBufferLen ∧
    vbm_tempScratchSpaceLen mk' = sl.
Proof.
  intros (<- & Hb & <- & Hs & Hl2) Hmax. unfold VarBlockMakerReset.
  destruct (init_header_spec (vbm_buffer mk)) as (b & -> & F & Hhd); [lia|]. cbn [mbind result_bind].
  eexists. split_and!; [done| |done|done]. apply maker_ok_start; try done. by rewrite (proj1 F).
Qed.

(** C35: a maker accepts items exactly as long as the block with them fits its buffer and its
    scratch area, with 2-byte offsets while no item starts behind 63 * 1024 and 3-byte offsets
    then (no item is refused earlier, and the conversion of the scratch area in place keeps all
    offsets); the finished block has the computed length, within the limit, passes the check,
    announces its length in its header, and is read back: the number of items, the items one by
    one, each item by its index, and a single item moved to the front.  This holds from a new
    maker and from one that is reset after a block, which the maker is ready for. *)
Theorem varblock_roundtrip maxBufferLen items :
  8 ≤ maxBufferLen ≤ 2 ^ 24 → Forall (λ item, zlen item ≤ 2 ^ 30) items →
  (∀ buffer scratch, maxBufferLen ≤ zlen buffer →
     makes (VarBlockMakerInit buffer maxBufferLen scratch (zlen scratch)) maxBufferLen (zlen scratch) items) ∧
  (∀ mk sl, maker_ready mk maxBufferLen sl → makes (VarBlockMakerReset mk) maxBufferLen sl items).
Proof.
  intros Hmax Hlen. split.
  - intros buffer scratch Hl.
    destruct (VarBlockMakerInit_spec buffer maxBufferLen scratch Hmax Hl) as (mk & -> & Hok & E1 & E2 & _).
    by apply makes_from_start.
  - intros mk sl Hr. destruct (VarBlockMakerReset_spec mk maxBufferLen sl Hr Hmax) as (mk' & -> & Hok & E1 & E2).
    by apply makes_from_start.
Qed.

(** Storing an offset behind the first leaves what the check looks at. *)
Lemma store_offset_spec mem items i v :
  vb_block mem items → (0 < i < length items)%nat →
  let w := width_of items in
  ∃ mem', store w mem (array_at items + Z.of_nat i * Z.of_nat w) v = Ok mem' ∧
    holds mem' (array_at items + Z.of_nat i * Z.of_nat w) (le_bytes w v) ∧
    vb_header mem' (small_of items) (total items) (zlen items) ∧ length mem' = length mem ∧
    VarBlockIsValid mem' (vb_len items) = Ok VarBlockCheckOk.
Proof.
  intros Hb Hi w. destruct (vb_fits _ _ Hb) as [Hf _]. pose proof (width_pos items) as Hw. fold w in Hw.
  unfold vb_len in Hf. fold w in Hf. pose proof (even_bounds (total items)). pose proof (even_bounds (zlen items * Z.of_nat w)).
  assert (Hiw : Z.of_nat i * Z.of_nat w + Z.of_nat w ≤ zlen items * Z.of_nat w ∧ Z.of_nat w ≤ Z.of_nat i * Z.of_nat w) by nia.
  set (o := array_at items) in *. assert (Ho : o = 8 + even (total items)) by done.
  destruct (frames_store w mem (o + Z.of_nat i * Z.of_nat w) v) as (mem' & Hst & Hh & F); [lia..|].
  assert (Hh' : vb_header mem' (small_of items) (total items) (zlen items)).
  { apply (vb_header_frames _ _ _ _ _ _ _ (vb_hd _ _ Hb) F). lia. }
  exists mem'. split_and!; [done|done|done|apply F|]. apply VarBlockIsValid_spec; [done| | |intros _]; fold w; fold o.
  - apply F; [apply Hb|]. rewrite length_zeros by lia. unfold VARBLOCK_HEADER_LEN. lia.
  - apply F; [apply (vb_pad2 _ _ Hb)|]. lia.
  - pose proof (GetOffset_spec mem items 0 Hb ltac:(lia)) as K0. unfold VarBlockGetOffset in *. fold o in K0.
    rewrite (proj1 (vb_getters _ _ _ _ Hh')). rewrite (proj1 (vb_getters _ _ _ _ (vb_hd _ _ Hb))) in K0.
    cbn [mbind result_bind] in *. unfold load in *. unfold w in *. cbn [take concat] in K0.
    destruct (small_of items); cbn [width] in *;
      rewrite (peek_frames _ _ _ _ _ _ F); done || (unfold VARBLOCK_BYTE_OFFSET_24_LEN; lia).
Qed.

(** An offset of the array can be read, whatever it is. *)
Lemma GetOffset_total mem items i :
  vb_header mem (small_of items) (total items) (zlen items) → vb_len items ≤ zlen mem → 0 ≤ i < zlen items →
  ∃ n, VarBlockGetOffset mem (array_at items) i = Ok n.
Proof.
  intros Hh Hl Hi. unfold VarBlockGetOffset. rewrite (proj1 (vb_getters _ _ _ _ Hh)). cbn [mbind result_bind].
  unfold vb_len, VARBLOCK_HEADER_LEN in *. pose proof (even_bounds (total items)).
  pose proof (even_bounds (zlen items * Z.of_nat (width_of items))).
  unfold load, VARBLOCK_BYTE_OFFSET_24_LEN. destruct (small_of items); cbn [width] in *.
  - destruct (peek_total mem (8 + even (total items) + i * 2) (Z.of_nat 2)) as (bs & -> & _); [lia..|]. by eexists.
  - destruct (peek_total mem (8 + even (total items) + i * 3) (Z.of_nat 3)) as (bs & -> & _); [lia..|]. by eexists.
Qed.

(** The check of a block accepts any offsets behind the first: an offset of a finished block
    can be overwritten with any value, [VarBlockIsValid] finds the block correct, and the reader
    hands out the pointer the value stands for, inside the items or not. *)
Lemma varblock_offsets_unchecked mk items i v :
  maker_ok mk items → (0 < i < length items)%nat → 0 ≤ v < 256 ^ Z.of_nat (width_of items) →
  ∃ mem mem' rd len, VarBlockMakerFinish mk = Ok (mem, vb_len items) ∧
    store (width_of items) mem (array_at items + Z.of_nat i * Z.of_nat (width_of items)) v = Ok mem' ∧
    VarBlockIsValid mem' (vb_len items) = Ok VarBlockCheckOk ∧
    VarBlockReaderInit mem' (vb_len items) = Ok rd ∧ VarBlockReaderGetItemPtr rd (Z.of_nat i) = Ok (v, len).
Proof.
  intros Hok Hi Hv. destruct (Finish_spec _ _ Hok) as (mem & Hfin & Hb & _).
  destruct (store_offset_spec mem items i v Hb Hi) as (mem' & Hst & Hh & Hhd & Hml & Hval). exists mem, mem'.
  destruct (vb_getters _ _ _ _ Hhd) as (Gs & Gl & Gc & _). destruct (maker_bounds _ _ Hok) as (? & ? & ?).
  assert (Hoff : VarBlockGetOffset mem' (array_at items) (Z.of_nat i) = Ok v).
  { unfold VarBlockGetOffset. rewrite Gs. cbn [mbind result_bind]. pose proof (width_pos items).
    destruct (small_of items); cbn [width] in *; apply load_small; done || lia. }
  unfold VarBlockReaderInit. rewrite Gl. cbn [mbind result_bind]. rewrite round_even_spec by lia.
  assert (Hnext : ∃ n, (if u32 (Z.of_nat i) <? u32 (zlen items - 1) then
    nextOffset ← VarBlockGetOffset mem' (array_at items) (Z.of_nat i + 1); Ok (nextOffset - v)
    else itemLenSum ← VarBlockGet_itemLenSum mem'; Ok (VARBLOCK_HEADER_LEN + itemLenSum - v)) = Ok n).
  { unfold u32. rewrite !Z.mod_small by lia. destruct (Z.ltb_spec (Z.of_nat i) (zlen items - 1)).
    - destruct (GetOffset_total mem' items (Z.of_nat i + 1)) as [n ->]; [done| |lia|by eexists].
      rewrite Hml. apply Hb.
    - rewrite Gl. by eexists. }
  destruct Hnext as [n Hnext]. eexists _, n. split_and!; [done|done|done|done|].
  unfold VarBlockReaderGetItemPtr, VarBlockGetItemPtrAndLen. cbn [vbr_buffer vbr_offsetToOffsetArray].
  rewrite Hoff. cbn [mbind result_bind]. rewrite Gc. cbn [mbind result_bind]. by rewrite Hnext.
Qed.

(** ** Witnesses *)

Definition wit_items : list (list Z) := [[1; 2; 3]; []; [4; 5]].

Lemma varblock_roundtrip_witness :
  vb_capacity 40 (zlen (replicate 20 9)) wit_items = true ∧
  makes (VarBlockMakerInit (replicate 40 7) 40 (replicate 20 9) (zlen (replicate 20 9))) 40
    (zlen (replicate 20 9)) wit_items.
Proof.
  split; [reflexivity|].
  apply (proj1 (varblock_roundtrip 40 wit_items ltac:(lia) ltac:(repeat constructor; vm_compute; discriminate))).
  vm_compute. discriminate.
Defined.

Lemma wit_maker : ∃ mk, (mk0 ← VarBlockMakerInit (replicate 40 7) 40 (replicate 20 9) (zlen (replicate 20 9));
                         add_items mk0 wit_items) = Ok (Some mk) ∧ maker_ok mk wit_items.
Proof.
  destruct (VarBlockMakerInit_spec (replicate 40 7) 40 (replicate 20 9)) as (mk0 & -> & Hok & E1 & E2 & _);
    [lia|vm_compute; discriminate|]. cbn [mbind result_bind].
  pose proof (add_items_spec mk0 [] wit_items Hok) as Hadd. rewrite E1, E2 in Hadd.
  destruct Hadd as (mk & Hmk & Hok' & _); [repeat constructor; vm_compute; discriminate|reflexivity|]. by exists mk.
Qed.

