(* ===== verification/Proc.v ===== *)
(** * Routines with state and errors

    A routine is a function on the state of its component that returns, or ends by an error of one
    of three levels: ERROR unwinds to the nearest handler, FATAL ends the process, PANIC restarts the
    server.  The state is the one at that point: what was changed before an error stays changed. *)
From S2P Require Import Prelude.

(** ** Control flow *)

Inductive outcome (A : Type) := Ret (a : A) | ERROR | FATAL | PANIC.
Arguments Ret {A} a.
Arguments ERROR {A}.
Arguments FATAL {A}.
Arguments PANIC {A}.

Definition proc (S A : Type) : Type := S → outcome A * S.

Section Control.
Context {S : Type}.

Definition ret {A} (a : A) : proc S A := λ s, (Ret a, s).
Definition raise {A} (e : outcome A) : proc S A := λ s, (e, s).
Definition bind {A B} (m : proc S A) (f : A → proc S B) : proc S B := λ s,
  match m s with
  | (Ret a, s) => f a s
  | (ERROR, s) => (ERROR, s)
  | (FATAL, s) => (FATAL, s)
  | (PANIC, s) => (PANIC, s)
  end.
Definition get : proc S S := λ s, (Ret s, s).
Definition modify (f : S → S) : proc S unit := λ s, (Ret tt, f s).

(** [PG_TRY] with a handler that does not rethrow, and one that does. *)
Definition pg_try {A} (m handler : proc S A) : proc S A := λ s,
  match m s with (ERROR, s) => handler s | r => r end.
Definition pg_try_rethrow {A} (m : proc S A) (handler : proc S unit) : proc S A := λ s,
  match m s with (ERROR, s) => bind handler (λ _, raise ERROR) s | r => r end.
End Control.

Declare Scope proc_scope.
Delimit Scope proc_scope with proc.
Bind Scope proc_scope with proc.
Notation "x <- m ;; k" := (bind m (λ x, k))
  (at level 100, m at next level, right associativity, only parsing) : proc_scope.
Notation "m ;; k" := (bind m (λ _, k)) (at level 100, right associativity, only parsing) : proc_scope.
Open Scope proc_scope.

(** ** Postconditions *)

Definition wp {S A} (m : proc S A) (Q : outcome A → S → Prop) (s : S) : Prop := Q (m s).1 (m s).2.

Section Wp.
Context {S : Type}.

Lemma proc_ret {A} (a : A) (Q : outcome A → S → Prop) s : Q (Ret a) s → wp (ret a) Q s.
Proof. done. Qed.

Lemma wp_raise {A} (e : outcome A) (Q : outcome A → S → Prop) s : Q e s → wp (raise e) Q s.
Proof. done. Qed.

Lemma wp_modify f (Q : outcome unit → S → Prop) s : Q (Ret tt) (f s) → wp (modify f) Q s.
Proof. done. Qed.

Lemma wp_get (Q : outcome S → S → Prop) s : Q (Ret s) s → wp get Q s.
Proof. done. Qed.

Lemma proc_mono {A} (m : proc S A) (Q Q' : outcome A → S → Prop) s :
  wp m Q s → (∀ o s', Q o s' → Q' o s') → wp m Q' s.
Proof. unfold wp. auto. Qed.

Lemma wp_and {A} (m : proc S A) (Q1 Q2 : outcome A → S → Prop) s :
  wp m Q1 s → wp m Q2 s → wp m (λ o s', Q1 o s' ∧ Q2 o s') s.
Proof. by split. Qed.

Lemma wp_run {A} (m : proc S A) (Q : outcome A → S → Prop) s o s' : wp m Q s → m s = (o, s') → Q o s'.
Proof. unfold wp. intros H E. by rewrite E in H. Qed.

(** The cases of a sequence. *)
Definition next {A B} (f : A → proc S B) (Q : outcome B → S → Prop) (o : outcome A) (s : S) : Prop :=
  match o with
  | Ret a => wp (f a) Q s
  | ERROR => Q ERROR s
  | FATAL => Q FATAL s
  | PANIC => Q PANIC s
  end.

Lemma proc_bind {A B} (m : proc S A) (f : A → proc S B) Q s : wp m (next f Q) s → wp (bind m f) Q s.
Proof. unfold wp, next, bind. destruct (m s) as [[] s']; done. Qed.

Lemma wp_try {A} (m h : proc S A) (Q : outcome A → S → Prop) s :
  wp m (λ o s', match o with ERROR => wp h Q s' | o => Q o s' end) s → wp (pg_try m h) Q s.
Proof. unfold wp, pg_try. destruct (m s) as [[] s']; done. Qed.

Lemma wp_try_rethrow {A} (m : proc S A) h (Q : outcome A → S → Prop) s :
  wp m (λ o s', match o with ERROR => wp (bind h (λ _, raise ERROR)) Q s' | o => Q o s' end) s →
  wp (pg_try_rethrow m h) Q s.
Proof. unfold wp, pg_try_rethrow. destruct (m s) as [[] s']; done. Qed.
End Wp.
