(* ===== verification/Slru.v ===== *)
(** * Simple LRU buffering of log pages ([access/transam/slru.c], [access/slru.h])

    A log that is read and written by page keeps a few of its pages in buffers and the rest in
    segment files of 32 pages.  A page is in at most one buffer; a buffer that was changed is
    written before it is used for another page.

    A routine runs under the control lock from start to end: the states of a page that is being
    read or written are passed through, and are left behind only where the code leaves them behind.
    The operating system answers each request as it likes ([io]); a write puts the whole page or
    nothing.  A file is the list of its pages, its name the number of the segment; no log
    sequence numbers are kept for the pages ([nlsns] is 0). *)
From S2P Require Import Prelude Proc.

Definition SLRU_PAGES_PER_SEGMENT : Z := 32.
Definition MAX_FLUSH_BUFFERS : nat := 16.

Inductive SlruPageStatus :=
  | SLRU_PAGE_EMPTY
  | SLRU_PAGE_READ_IN_PROGRESS
  | SLRU_PAGE_VALID
  | SLRU_PAGE_WRITE_IN_PROGRESS.

#[global] Instance SlruPageStatus_eq_dec : EqDecision SlruPageStatus.
Proof. solve_decision. Defined.

Inductive SlruErrorCause :=
  | SLRU_OPEN_FAILED
  | SLRU_SEEK_FAILED
  | SLRU_READ_FAILED
  | SLRU_WRITE_FAILED
  | SLRU_FSYNC_FAILED
  | SLRU_CLOSE_FAILED.

#[global] Instance SlruErrorCause_eq_dec : EqDecision SlruErrorCause.
Proof. solve_decision. Defined.

(** What the operating system answers; [written]: a write that failed has put the page. *)
Inductive io_answer := IoDone | IoFailed (cause : SlruErrorCause) (written : bool).

#[global] Instance io_answer_eq_dec : EqDecision io_answer.
Proof. solve_decision. Defined.

(** The control structure of a log, the state of the server and the answers to its requests:
    [InRecovery] while the write-ahead log is replayed, [data_sync_retry] if the server goes on
    after a failed [fsync]. *)
Class SlruCtl (page : Type) := mkSlruCtl {
  zero_page : page;
  PagePrecedes : Z → Z → bool;
  io : nat → io_answer;
  InRecovery : bool;
  data_sync_retry : bool;
}.

Section Slru.
Context {page : Type}.

Record slot := mkSlot {
  page_number : Z;
  page_status : SlruPageStatus;
  page_dirty : bool;
  page_lru_count : Z;
  page_buffer : page;
}.

(** [ios] counts the requests to the operating system. *)
Record slru := mkSlru {
  slots : list slot;
  cur_lru_count : Z;
  latest_page_number : Z;
  files : gmap Z (list page);
  ios : nat;
}.

Definition SimpleLruInit `{SlruCtl page} (nslots : nat) (latest : Z) (fs : gmap Z (list page)) (n : nat) : slru :=
  mkSlru (replicate nslots (mkSlot 0 SLRU_PAGE_EMPTY false 0 zero_page)) 0 latest fs n.

Definition set_slots (ss : list slot) (s : slru) : slru :=
  mkSlru ss (cur_lru_count s) (latest_page_number s) (files s) (ios s).
Definition set_slot (i : nat) (f : slot → slot) (s : slru) : slru := set_slots (alter f i (slots s)) s.
Definition set_cur_lru_count (n : Z) (s : slru) : slru :=
  mkSlru (slots s) n (latest_page_number s) (files s) (ios s).
Definition set_latest_page_number (p : Z) (s : slru) : slru :=
  mkSlru (slots s) (cur_lru_count s) p (files s) (ios s).
Definition set_files (fs : gmap Z (list page)) (s : slru) : slru :=
  mkSlru (slots s) (cur_lru_count s) (latest_page_number s) fs (ios s).

Definition with_number (p : Z) (c : slot) : slot :=
  mkSlot p (page_status c) (page_dirty c) (page_lru_count c) (page_buffer c).
Definition with_status (st : SlruPageStatus) (c : slot) : slot :=
  mkSlot (page_number c) st (page_dirty c) (page_lru_count c) (page_buffer c).
Definition with_dirty (d : bool) (c : slot) : slot :=
  mkSlot (page_number c) (page_status c) d (page_lru_count c) (page_buffer c).
Definition with_lru (n : Z) (c : slot) : slot :=
  mkSlot (page_number c) (page_status c) (page_dirty c) n (page_buffer c).
Definition with_buffer (b : page) (c : slot) : slot :=
  mkSlot (page_number c) (page_status c) (page_dirty c) (page_lru_count c) b.

(** A slot number outside the array is never used: an access there ends the server. *)
Definition the_slot (i : nat) : proc slru slot :=
  s <- get;; match slots s !! i with Some c => ret c | None => raise PANIC end.

Section Operations.
Context {ctl : SlruCtl page}.

Definition ask : proc slru io_answer :=
  s <- get;;
  modify (λ s, mkSlru (slots s) (cur_lru_count s) (latest_page_number s) (files s) (S (ios s)));;
  ret (io (ios s)).

Definition SlruReportIOError {A} (cause : SlruErrorCause) : proc slru A :=
  raise (if bool_decide (cause = SLRU_FSYNC_FAILED) && negb data_sync_retry then PANIC else ERROR).

Definition SlruRecentlyUsed (i : nat) : proc slru unit :=
  c <- the_slot i;;
  s <- get;;
  if cur_lru_count s =? page_lru_count c then ret tt
  else
    let n := s32 (cur_lru_count s + 1) in
    modify (λ s, set_slot i (with_lru n) (set_cur_lru_count n s)).

(** ** Files *)

Definition SimpleLruDoesPhysicalPageExist (pageno : Z) : proc slru bool :=
  a <- ask;;
  s <- get;;
  match files s !! (pageno `quot` SLRU_PAGES_PER_SEGMENT) with
  | None =>
      match a with
      | IoFailed SLRU_OPEN_FAILED _ => SlruReportIOError SLRU_OPEN_FAILED
      | _ => ret false
      end
  | Some f =>
      match a with
      | IoDone => ret (Z.to_nat (pageno `rem` SLRU_PAGES_PER_SEGMENT) <? length f)%nat
      | IoFailed cause _ => SlruReportIOError cause
      end
  end.

(** The page, or why it cannot be read. *)
Definition SlruPhysicalReadPage (pageno : Z) : proc slru (page + SlruErrorCause) :=
  a <- ask;;
  s <- get;;
  match files s !! (pageno `quot` SLRU_PAGES_PER_SEGMENT), a with
  | _, IoFailed cause _ => ret (inr cause)
  | None, IoDone => if negb InRecovery then ret (inr SLRU_OPEN_FAILED) else ret (inl zero_page)
  | Some f, IoDone =>
      match f !! Z.to_nat (pageno `rem` SLRU_PAGES_PER_SEGMENT) with
      | Some b => ret (inl b)
      | None => ret (inr SLRU_READ_FAILED)
      end
  end.

(** Write a page at its place in the file; what is skipped reads as zeroes. *)
Definition file_write (n : nat) (b : page) (f : list page) : list page :=
  <[n := b]> (f ++ replicate (S n - length f) zero_page).

(** [fdata] is null or the segments whose files a flush has open.  The new list and whether, or
    why not, the page was written. *)
Definition SlruPhysicalWritePage (pageno : Z) (slotno : nat) (fdata : option (list Z)) :
    proc slru (option (list Z) * option SlruErrorCause) :=
  let segno := pageno `quot` SLRU_PAGES_PER_SEGMENT in
  let offset := Z.to_nat (pageno `rem` SLRU_PAGES_PER_SEGMENT) in
  let opened := match fdata with
                | Some segs => if bool_decide (segno ∈ segs) then Some segs
                               else if (length segs <? MAX_FLUSH_BUFFERS)%nat then Some (segs ++ [segno])
                               else Some segs
                | None => None
                end in
  c <- the_slot slotno;;
  a <- ask;;
  s <- get;;
  let f := default [] (files s !! segno) in
  match a with
  | IoDone => modify (set_files (<[segno := file_write offset (page_buffer c) f]> (files s)));; ret (opened, None)
  | IoFailed SLRU_OPEN_FAILED _ => ret (fdata, Some SLRU_OPEN_FAILED)
  | IoFailed cause written =>
      modify (set_files (<[segno := if written then file_write offset (page_buffer c) f else f]> (files s)));;
      ret (opened, Some cause)
  end.

(** ** Buffers *)

(** No other process holds the lock of the buffer: its input or output has failed. *)
Definition SimpleLruWaitIO (i : nat) : proc slru unit :=
  c <- the_slot i;;
  match page_status c with
  | SLRU_PAGE_READ_IN_PROGRESS => modify (set_slot i (with_status SLRU_PAGE_EMPTY))
  | SLRU_PAGE_WRITE_IN_PROGRESS => modify (set_slot i (λ c, with_dirty true (with_status SLRU_PAGE_VALID c)))
  | _ => ret tt
  end.

Definition SlruInternalWritePage (i : nat) (fdata : option (list Z)) : proc slru (option (list Z)) :=
  c <- the_slot i;;
  let pageno := page_number c in
  (if bool_decide (page_status c = SLRU_PAGE_WRITE_IN_PROGRESS) then SimpleLruWaitIO i else ret tt);;
  c <- the_slot i;;
  if negb (page_dirty c) || bool_decide (page_status c ≠ SLRU_PAGE_VALID) || negb (page_number c =? pageno)
  then ret fdata
  else
    modify (set_slot i (λ c, with_dirty false (with_status SLRU_PAGE_WRITE_IN_PROGRESS c)));;
    r <- SlruPhysicalWritePage pageno i fdata;;
    match r.2 with
    | Some cause =>
        modify (set_slot i (λ c, with_status SLRU_PAGE_VALID (with_dirty true c)));;
        SlruReportIOError cause
    | None => modify (set_slot i (with_status SLRU_PAGE_VALID));; ret r.1
    end.

Definition SimpleLruWritePage (i : nat) : proc slru unit := SlruInternalWritePage i None;; ret tt.

(** The slot of a page in a buffer. *)
Definition holds_page (p : Z) (c : slot) : bool :=
  (page_number c =? p) && negb (bool_decide (page_status c = SLRU_PAGE_EMPTY)).

Fixpoint find_slot (p : Z) (ss : list slot) (i : nat) : option nat :=
  match ss with
  | [] => None
  | c :: ss => if holds_page p c then Some i else find_slot p ss (S i)
  end.

(** The best candidate so far: slot, age and page. *)
Record candidate := mkCandidate { c_slot : nat; c_delta : Z; c_page : Z }.

Definition better (i : nat) (delta p : Z) (v : candidate) : candidate :=
  if (c_delta v <? delta) || ((delta =? c_delta v) && PagePrecedes p (c_page v))
  then mkCandidate i delta p else v.

(** The loop over the slots: the slots with corrected counts, and the empty slot it stops at or the
    best candidates among the valid slots and among those with input or output. *)
Fixpoint scan_slots (latest cur_count : Z) (ss : list slot) (i : nat) (v w : candidate) :
    list slot * (nat + candidate * candidate) :=
  match ss with
  | [] => ([], inr (v, w))
  | c :: ss =>
      if bool_decide (page_status c = SLRU_PAGE_EMPTY) then (c :: ss, inl i)
      else
        let delta := s32 (cur_count - page_lru_count c) in
        let '(c, delta) := if delta <? 0 then (with_lru cur_count c, 0) else (c, delta) in
        let p := page_number c in
        let '(v, w) :=
          if p =? latest then (v, w)
          else if bool_decide (page_status c = SLRU_PAGE_VALID) then (better i delta p v, w)
          else (v, better i delta p w) in
        let '(ss, r) := scan_slots latest cur_count ss (S i) v w in (c :: ss, r)
  end.

Definition no_candidate : candidate := mkCandidate 0 (-1) 0.

(** [rounds] bounds the turns of the outer loop. *)
Fixpoint SlruSelectLRUPage (rounds : nat) (pageno : Z) : proc slru nat :=
  match rounds with
  | O => raise PANIC
  | S rounds =>
      s <- get;;
      match find_slot pageno (slots s) 0 with
      | Some i => ret i
      | None =>
          let cur_count := cur_lru_count s in
          let '(ss, r) := scan_slots (latest_page_number s) cur_count (slots s) 0 no_candidate no_candidate in
          modify (λ s, set_slots ss (set_cur_lru_count (s32 (cur_count + 1)) s));;
          match r with
          | inl i => ret i
          | inr (v, w) =>
              if c_delta v <? 0 then SimpleLruWaitIO (c_slot w);; SlruSelectLRUPage rounds pageno
              else
                c <- the_slot (c_slot v);;
                if negb (page_dirty c) then ret (c_slot v)
                else SlruInternalWritePage (c_slot v) None;; SlruSelectLRUPage rounds pageno
          end
      end
  end.

(** One turn for each slot that may have to be written, and one to find it clean. *)
Definition select_rounds (s : slru) : nat := S (S (length (slots s))).

Definition SimpleLruZeroPage (pageno : Z) : proc slru nat :=
  s <- get;;
  i <- SlruSelectLRUPage (select_rounds s) pageno;;
  modify (set_slot i (λ c, with_dirty true (with_status SLRU_PAGE_VALID (with_number pageno c))));;
  SlruRecentlyUsed i;;
  modify (set_slot i (with_buffer zero_page));;
  modify (set_latest_page_number pageno);;
  ret i.

Fixpoint read_page (rounds : nat) (pageno : Z) (write_ok : bool) : proc slru nat :=
  match rounds with
  | O => raise PANIC
  | S rounds =>
      s <- get;;
      i <- SlruSelectLRUPage (select_rounds s) pageno;;
      c <- the_slot i;;
      if holds_page pageno c then
        if bool_decide (page_status c = SLRU_PAGE_READ_IN_PROGRESS)
           || (bool_decide (page_status c = SLRU_PAGE_WRITE_IN_PROGRESS) && negb write_ok)
        then SimpleLruWaitIO i;; read_page rounds pageno write_ok
        else SlruRecentlyUsed i;; ret i
      else
        modify (set_slot i (λ c, with_dirty false (with_status SLRU_PAGE_READ_IN_PROGRESS (with_number pageno c))));;
        r <- SlruPhysicalReadPage pageno;;
        match r with
        | inl b =>
            modify (set_slot i (λ c, with_status SLRU_PAGE_VALID (with_buffer b c)));;
            SlruRecentlyUsed i;; ret i
        | inr cause =>
            modify (set_slot i (with_status SLRU_PAGE_EMPTY));; SlruReportIOError cause
        end
  end.

(** A slot that is waited for is ready in the next turn. *)
Definition SimpleLruReadPage (pageno : Z) (write_ok : bool) : proc slru nat := read_page 2 pageno write_ok.

Fixpoint find_readable (p : Z) (ss : list slot) (i : nat) : option nat :=
  match ss with
  | [] => None
  | c :: ss =>
      if holds_page p c && negb (bool_decide (page_status c = SLRU_PAGE_READ_IN_PROGRESS)) then Some i
      else find_readable p ss (S i)
  end.

Definition SimpleLruReadPage_ReadOnly (pageno : Z) : proc slru nat :=
  s <- get;;
  match find_readable pageno (slots s) 0 with
  | Some i => SlruRecentlyUsed i;; ret i
  | None => SimpleLruReadPage pageno true
  end.

(** ** Flushing and truncating *)

Fixpoint write_slots (idx : list nat) (fdata : option (list Z)) : proc slru (option (list Z)) :=
  match idx with
  | [] => ret fdata
  | i :: idx => fdata <- SlruInternalWritePage i fdata;; write_slots idx fdata
  end.

(** [fsync] and close: the cause of the last failure. *)
Fixpoint sync_files (segs : list Z) (failed : option SlruErrorCause) : proc slru (option SlruErrorCause) :=
  match segs with
  | [] => ret failed
  | _ :: segs =>
      a <- ask;;
      sync_files segs (match a with IoDone => failed | IoFailed cause _ => Some cause end)
  end.

Definition SimpleLruFlush : proc slru unit :=
  s <- get;;
  fdata <- write_slots (seq 0 (length (slots s))) (Some []);;
  failed <- sync_files (default [] fdata) None;;
  match failed with
  | Some cause => SlruReportIOError cause
  | None => ret tt
  end.

(** Empty the slots of pages before the cutoff; the number of a slot that needs work first. *)
Fixpoint empty_slots (cutoffPage : Z) (ss : list slot) (i : nat) : list slot * option nat :=
  match ss with
  | [] => ([], None)
  | c :: ss =>
      if bool_decide (page_status c = SLRU_PAGE_EMPTY) || negb (PagePrecedes (page_number c) cutoffPage)
      then let '(ss, r) := empty_slots cutoffPage ss (S i) in (c :: ss, r)
      else if bool_decide (page_status c = SLRU_PAGE_VALID) && negb (page_dirty c)
      then let '(ss, r) := empty_slots cutoffPage ss (S i) in (with_status SLRU_PAGE_EMPTY c :: ss, r)
      else (c :: ss, Some i)
  end.

(** The loop with its restarts; whether the log may be truncated. *)
Fixpoint truncate_slots (rounds : nat) (cutoffPage : Z) : proc slru bool :=
  match rounds with
  | O => raise PANIC
  | S rounds =>
      s <- get;;
      if PagePrecedes (latest_page_number s) cutoffPage then ret false
      else
        let '(ss, r) := empty_slots cutoffPage (slots s) 0 in
        modify (set_slots ss);;
        match r with
        | None => ret true
        | Some i =>
            c <- the_slot i;;
            (if bool_decide (page_status c = SLRU_PAGE_VALID)
             then SlruInternalWritePage i None;; ret tt else SimpleLruWaitIO i);;
            truncate_slots rounds cutoffPage
        end
  end.

(** The first page of the segment of a page. *)
Definition segment_start (p : Z) : Z := p - p `rem` SLRU_PAGES_PER_SEGMENT.

(** A file that cannot be removed stays. *)
Definition SlruDeleteSegment (segno : Z) : proc slru unit :=
  a <- ask;;
  match a with
  | IoDone => modify (λ s, set_files (delete segno (files s)) s)
  | IoFailed _ _ => ret tt
  end.

Definition SlruScanDirCbReportPresence (cutoffPage segpage : Z) : bool :=
  PagePrecedes segpage (segment_start cutoffPage).

Definition SlruScanDirCbDeleteCutoff (cutoffPage segno : Z) : proc slru unit :=
  if PagePrecedes (segno * SLRU_PAGES_PER_SEGMENT) cutoffPage then SlruDeleteSegment segno else ret tt.

Definition SlruScanDirCbDeleteAll (segno : Z) : proc slru unit := SlruDeleteSegment segno.

Fixpoint delete_segments (cutoffPage : Z) (segs : list Z) : proc slru unit :=
  match segs with
  | [] => ret tt
  | segno :: segs => SlruScanDirCbDeleteCutoff cutoffPage segno;; delete_segments cutoffPage segs
  end.

(** The segments in the directory, in the order in which it is read. *)
Definition segments (s : slru) : list Z := (map_to_list (files s)).*1.

Definition scan_for_presence (cutoffPage : Z) (s : slru) : bool :=
  existsb (λ segno, SlruScanDirCbReportPresence cutoffPage (segno * SLRU_PAGES_PER_SEGMENT)) (segments s).

Definition SimpleLruTruncate (cutoffPage : Z) : proc slru unit :=
  let cutoffPage := segment_start cutoffPage in
  s <- get;;
  go <- truncate_slots (select_rounds s) cutoffPage;;
  if negb go then ret tt
  else s <- get;; delete_segments cutoffPage (segments s).

(** The control lock is held already. *)
Definition SimpleLruTruncateWithLock (cutoffPage : Z) : proc slru unit := SimpleLruTruncate cutoffPage.
End Operations.
End Slru.
Arguments slot : clear implicits.
Arguments slru : clear implicits.
