(* ===== verification/SlruFacts.v ===== *)
(** * Simple LRU buffering: the buffers are transparent

    The pages of a log are those in its buffers and, for the others, those in its files.  The
    invariant of the buffers; selecting a slot, which may write another page, reading a page and
    creating one. *)
From S2P Require Import Prelude Proc Slru.

(** ** Pages *)

Lemma alter_lookup_some {A} (f : A → A) i (l : list A) x : l !! i = Some x → alter f i l = <[i := f x]> l.
Proof.
  revert i. induction l as [|y l IH]; intros [|i] Hl; simplify_eq/=; [done|]. f_equal. by apply IH.
Qed.

Section Pages.
Context {page : Type} {ctl : SlruCtl page}.
Implicit Types (s : slru page) (c : slot page) (p q : Z).

Fixpoint buffered (ss : list (slot page)) p : option page :=
  match ss with
  | [] => None
  | c :: ss => if holds_page p c then Some (page_buffer c) else buffered ss p
  end.

Definition on_disk (fs : gmap Z (list page)) p : option page :=
  fs !! (p `quot` SLRU_PAGES_PER_SEGMENT) ≫= λ f, f !! Z.to_nat (p `rem` SLRU_PAGES_PER_SEGMENT).

Definition view s p : option page :=
  match buffered (slots s) p with Some b => Some b | None => on_disk (files s) p end.

Record slru_inv s : Prop := mkSlruInv {
  inv_slots : (2 ≤ length (slots s))%nat;
  inv_status i c : slots s !! i = Some c → page_status c = SLRU_PAGE_EMPTY ∨ page_status c = SLRU_PAGE_VALID;
  inv_unique i j c d p : slots s !! i = Some c → slots s !! j = Some d →
    holds_page p c = true → holds_page p d = true → i = j;
  inv_clean i c : slots s !! i = Some c → page_status c = SLRU_PAGE_VALID → page_dirty c = false →
    on_disk (files s) (page_number c) = Some (page_buffer c);
  inv_nonneg i c : slots s !! i = Some c → page_status c = SLRU_PAGE_VALID → 0 ≤ page_number c;
}.

Lemma holds_page_spec p c : holds_page p c = true ↔ page_number c = p ∧ page_status c ≠ SLRU_PAGE_EMPTY.
Proof. unfold holds_page. rewrite andb_true_iff, Z.eqb_eq, negb_true_iff, bool_decide_eq_false. done. Qed.

Lemma buffered_none ss p : buffered ss p = None ↔ ∀ i c, ss !! i = Some c → holds_page p c = false.
Proof.
  induction ss as [|c ss IH]; simpl.
  - split; [intros _ i c Hi; by rewrite lookup_nil in Hi|done].
  - destruct (holds_page p c) eqn:Hc.
    + split; [done|]. intros H. specialize (H 0%nat c eq_refl). congruence.
    + rewrite IH. split; intros H; [intros [|i] d Hi; simplify_eq/=; eauto|].
      intros i d Hi. by apply (H (S i) d).
Qed.

Lemma buffered_some ss p b : buffered ss p = Some b → ∃ i c, ss !! i = Some c ∧ holds_page p c = true ∧ page_buffer c = b.
Proof.
  induction ss as [|c ss IH]; simpl; [done|].
  destruct (holds_page p c) eqn:Hc; intros Hb; simplify_eq.
  - by exists 0%nat, c.
  - destruct (IH Hb) as (i & d & Hi & Hd). by exists (S i), d.
Qed.

Lemma buffered_at s i c p :
  slru_inv s → slots s !! i = Some c → holds_page p c = true → buffered (slots s) p = Some (page_buffer c).
Proof.
  intros Hinv Hi Hp. destruct (buffered (slots s) p) as [b|] eqn:Hb.
  - apply buffered_some in Hb as (j & d & Hj & Hd & <-).
    assert (i = j) as <- by eauto using inv_unique. congruence.
  - rewrite buffered_none in Hb. specialize (Hb i c Hi). congruence.
Qed.

Lemma find_slot_spec p ss i :
  match find_slot p ss i with
  | Some k => ∃ j c, k = (i + j)%nat ∧ ss !! j = Some c ∧ holds_page p c = true
  | None => buffered ss p = None
  end.
Proof.
  revert i. induction ss as [|c ss IH]; intros i; simpl; [done|].
  destruct (holds_page p c) eqn:Hc; [by exists 0%nat, c; rewrite Nat.add_0_r|].
  specialize (IH (S i)). destruct (find_slot p ss (S i)); [|done].
  destruct IH as (j & d & -> & Hj & Hd). exists (S j), d. split; [lia|done].
Qed.

(** ** Files *)

Lemma file_write_lookup n b (f : list page) k :
  file_write n b f !! k =
  if decide (k = n) then Some b
  else match f !! k with Some x => Some x | None => if decide (k < n)%nat then Some zero_page else None end.
Proof.
  unfold file_write. set (g := f ++ replicate (S n - length f) zero_page).
  assert (Hg : (n < length g)%nat) by (unfold g; rewrite length_app, length_replicate; lia).
  destruct (decide (k = n)) as [->|Hk]; [by apply list_lookup_insert_eq|].
  rewrite list_lookup_insert_ne by done. unfold g.
  destruct (f !! k) eqn:Hf; [by rewrite lookup_app, Hf|].
  apply lookup_ge_None in Hf. rewrite lookup_app_r by lia.
  destruct (decide (k < n)%nat).
  - apply lookup_replicate_2. lia.
  - apply lookup_ge_None. rewrite length_replicate. lia.
Qed.

Lemma page_place p q : 0 ≤ p → 0 ≤ q → p `quot` SLRU_PAGES_PER_SEGMENT = q `quot` SLRU_PAGES_PER_SEGMENT →
  Z.to_nat (p `rem` SLRU_PAGES_PER_SEGMENT) = Z.to_nat (q `rem` SLRU_PAGES_PER_SEGMENT) → p = q.
Proof.
  unfold SLRU_PAGES_PER_SEGMENT. intros Hp Hq Ha Hb.
  rewrite !Z.quot_div_nonneg in Ha by lia. rewrite !Z.rem_mod_nonneg in Hb by lia.
  Z.to_euclidean_division_equations. lia.
Qed.

(** A change of the files that writes the page [b] at [p] and may fill holes with zeroes. *)
Definition written p b (fs fs' : gmap Z (list page)) : Prop :=
  on_disk fs' p = Some b ∧
  ∀ q, 0 ≤ q → q ≠ p → on_disk fs' q = on_disk fs q ∨ (on_disk fs q = None ∧ on_disk fs' q = Some zero_page).

Lemma written_file_write p b fs :
  0 ≤ p →
  let segno := p `quot` SLRU_PAGES_PER_SEGMENT in
  written p b fs (<[segno := file_write (Z.to_nat (p `rem` SLRU_PAGES_PER_SEGMENT)) b
                               (default [] (fs !! segno))]> fs).
Proof.
  intros Hp segno. split.
  - unfold on_disk. fold segno. rewrite lookup_insert_eq. cbn [mbind option_bind].
    rewrite file_write_lookup. by rewrite decide_True by done.
  - intros q Hq Hne. unfold on_disk.
    destruct (decide (q `quot` SLRU_PAGES_PER_SEGMENT = segno)) as [Hs|Hs].
    + rewrite Hs, lookup_insert_eq. cbn [mbind option_bind]. rewrite file_write_lookup.
      rewrite decide_False by (intros E; apply Hne; by apply page_place).
      destruct (fs !! segno) as [f|]; cbn [from_option id mbind option_bind]; [|rewrite lookup_nil].
      * destruct (f !! Z.to_nat (q `rem` SLRU_PAGES_PER_SEGMENT)); [by left|].
        case_decide; [by right|by left].
      * case_decide; [by right|by left].
    + rewrite lookup_insert_ne by done. by left.
Qed.

(** ** What keeps the pages *)

Record evolves s s' : Prop := mkEvolves {
  ev_slots : length (slots s') = length (slots s);
  ev_ios : (ios s ≤ ios s')%nat;
  ev_view p : 0 ≤ p → view s' p = view s p ∨ (view s p = None ∧ view s' p = Some zero_page);
  ev_disk p : 0 ≤ p → is_Some (on_disk (files s) p) → is_Some (on_disk (files s') p);
  ev_source p b : 0 ≤ p → on_disk (files s') p = Some b →
    on_disk (files s) p = Some b ∨ view s p = Some b ∨ (on_disk (files s) p = None ∧ b = zero_page);
}.

Lemma view_none_disk s p : view s p = None → on_disk (files s) p = None.
Proof. unfold view. by destruct (buffered (slots s) p). Qed.

#[export] Instance evolves_preorder : PreOrder evolves.
Proof.
  split.
  - intros s. split; eauto.
  - intros s1 s2 s3 H12 H23. split.
    + by rewrite (ev_slots _ _ H23), (ev_slots _ _ H12).
    + pose proof (ev_ios _ _ H23). pose proof (ev_ios _ _ H12). lia.
    + intros p Hp. destruct (ev_view _ _ H23 p Hp) as [E2|[E2 E2']]; [rewrite E2; by apply H12|].
      destruct (ev_view _ _ H12 p Hp) as [E1|[E1 E1']]; [|congruence]. right. split; congruence.
    + intros p Hp Hd. by apply (ev_disk _ _ H23), (ev_disk _ _ H12).
    + intros p b Hp Hb. destruct (ev_source _ _ H23 p b Hp Hb) as [Hd|[Hv|[Hn ->]]].
      * by apply (ev_source _ _ H12).
      * destruct (ev_view _ _ H12 p Hp) as [E|[E E']]; [rewrite E in Hv; auto|].
        rewrite E' in Hv. simplify_eq. right; right. split; [by apply view_none_disk|done].
      * right; right. split; [|done]. destruct (on_disk (files s1) p) eqn:E; [|done].
        destruct (ev_disk _ _ H12 p Hp) as [x Hx]; [by rewrite E|congruence].
Qed.

(** Slots that differ in their counts only. *)
Definition slot_eqv (c d : slot page) : Prop :=
  page_number c = page_number d ∧ page_status c = page_status d ∧ page_dirty c = page_dirty d ∧
  page_buffer c = page_buffer d.

#[export] Instance slot_eqv_refl : Reflexive slot_eqv.
Proof. intros c. repeat split. Qed.

Lemma with_lru_eqv n c : slot_eqv c (with_lru n c).
Proof. repeat split. Qed.

Lemma holds_page_eqv p c d : slot_eqv c d → holds_page p c = holds_page p d.
Proof. intros (H1 & H2 & _). unfold holds_page. by rewrite H1, H2. Qed.

Lemma buffered_eqv ss ss' p : Forall2 slot_eqv ss ss' → buffered ss p = buffered ss' p.
Proof.
  induction 1 as [|c d ss ss' Hc _ IH]; simpl; [done|].
  rewrite (holds_page_eqv p c d) by done. destruct Hc as (_ & _ & _ & ->). by rewrite IH.
Qed.

(** Changes of counts, of the latest page, and of the number of requests. *)
Lemma eqv_keeps s s' :
  slru_inv s → Forall2 slot_eqv (slots s) (slots s') → (∀ q, on_disk (files s') q = on_disk (files s) q) →
  (ios s ≤ ios s')%nat → slru_inv s' ∧ evolves s s'.
Proof.
  intros Hinv Hss Hf Hn.
  assert (Hlk : ∀ i d, slots s' !! i = Some d → ∃ c, slots s !! i = Some c ∧ slot_eqv c d).
  { intros i d Hi. destruct (Forall2_lookup_r _ _ _ _ _ Hss Hi) as (c & ? & ?). eauto. }
  split.
  - split.
    + rewrite <-(Forall2_length _ _ _ Hss). apply Hinv.
    + intros i d Hi. destruct (Hlk i d Hi) as (c & Hc & _ & <- & _). by apply (inv_status _ Hinv i).
    + intros i j d e p Hi Hj Hd He. destruct (Hlk i d Hi) as (c & Hc & Ec), (Hlk j e Hj) as (c' & Hc' & Ec').
      rewrite <-(holds_page_eqv p _ _ Ec) in Hd. rewrite <-(holds_page_eqv p _ _ Ec') in He.
      by apply (inv_unique _ Hinv i j c c' p).
    + intros i d Hi. destruct (Hlk i d Hi) as (c & Hc & <- & <- & <- & <-). rewrite Hf.
      by apply (inv_clean _ Hinv i).
    + intros i d Hi. destruct (Hlk i d Hi) as (c & Hc & <- & <- & _). by apply (inv_nonneg _ Hinv i).
  - split.
    + by rewrite <-(Forall2_length _ _ _ Hss).
    + done.
    + intros p _. left. unfold view. by rewrite Hf, (buffered_eqv _ _ _ Hss).
    + intros p _. by rewrite Hf.
    + intros p b _. rewrite Hf. auto.
Qed.

(** The page of a slot is written to its file. *)
Lemma files_written s s' i c :
  slru_inv s → slots s !! i = Some c → page_status c = SLRU_PAGE_VALID →
  written (page_number c) (page_buffer c) (files s) (files s') → slots s' = slots s → (ios s ≤ ios s')%nat →
  slru_inv s' ∧ evolves s s'.
Proof.
  intros Hinv Hi Hst [Hp Hq] Hss Hn.
  assert (Hv : view s (page_number c) = Some (page_buffer c)).
  { unfold view. rewrite (buffered_at s i c); [done..|]. apply holds_page_spec. by rewrite Hst. }
  split.
  - split; rewrite ?Hss; try apply Hinv.
    intros j e Hj Hje Hd. destruct (decide (page_number e = page_number c)) as [E|E].
    + assert (j = i) as -> by (apply (inv_unique _ Hinv j i e c (page_number c)); [done..| |];
        apply holds_page_spec; rewrite ?Hje, ?Hst; done). by simplify_eq.
    + pose proof (inv_clean _ Hinv j e Hj Hje Hd) as Hc. pose proof (inv_nonneg _ Hinv j e Hj Hje).
      destruct (Hq (page_number e)) as [->|[? _]]; [done..|congruence].
  - split; [by rewrite Hss|done|..].
    + intros q Hq0. destruct (decide (q = page_number c)) as [->|E].
      * left. unfold view at 1. rewrite Hss. unfold view in Hv |- *. destruct (buffered _ _); [done|congruence].
      * unfold view. rewrite Hss. destruct (buffered (slots s) q); [by left|by apply Hq].
    + intros q Hq0 Hd. destruct (decide (q = page_number c)) as [->|E]; [by rewrite Hp|].
      destruct (Hq q Hq0 E) as [->|[_ ->]]; done.
    + intros q b Hq0 Hb. destruct (decide (q = page_number c)) as [->|E]; [right; left; congruence|].
      destruct (Hq q Hq0 E) as [E'|[E' E'']]; [left; congruence|]. right; right. split; congruence.
Qed.

Lemma buffered_insert_other ss i c d p :
  ss !! i = Some c → holds_page p c = false → holds_page p d = false → buffered (<[i := d]> ss) p = buffered ss p.
Proof.
  intros Hi Hc Hd. revert i Hi. induction ss as [|x ss IH]; intros [|i] Hi; simplify_eq/=; [by rewrite Hc, Hd|].
  by rewrite IH.
Qed.

Lemma buffered_insert ss i c d p :
  ss !! i = Some c →
  (∀ j e, ss !! j = Some e → holds_page p e = true → holds_page p c = true ∨ holds_page p d = true → j = i) →
  buffered (<[i := d]> ss) p =
  if holds_page p d then Some (page_buffer d) else if holds_page p c then None else buffered ss p.
Proof.
  intros Hi Hu. assert (Hlt : (i < length ss)%nat) by by eapply lookup_lt_Some.
  destruct (holds_page p d) eqn:Hd; [|destruct (holds_page p c) eqn:Hc].
  - destruct (buffered (<[i := d]> ss) p) as [b|] eqn:Hb.
    + apply buffered_some in Hb as (j & e & Hj & He & <-).
      apply list_lookup_insert_Some in Hj as [(<- & <- & _)|[Hne Hj]]; [done|].
      exfalso; apply Hne; symmetry; eapply Hu; eauto.
    + rewrite buffered_none in Hb. rewrite (Hb i d) in Hd; [done|]. by apply list_lookup_insert_eq.
  - apply buffered_none. intros j e Hj. apply list_lookup_insert_Some in Hj as [(<- & <- & _)|[Hne Hj]]; [done|].
    destruct (holds_page p e) eqn:He; [|done]. exfalso; apply Hne; symmetry; eapply Hu; eauto.
  - by eapply buffered_insert_other.
Qed.

(** A slot is used for another page, or its page is changed. *)
Lemma replace_slot s s' i c d :
  slru_inv s → slots s !! i = Some c → slots s' = <[i := d]> (slots s) → files s' = files s →
  page_status d = SLRU_PAGE_EMPTY ∨ page_status d = SLRU_PAGE_VALID →
  (page_status d = SLRU_PAGE_VALID → 0 ≤ page_number d) →
  (page_status d = SLRU_PAGE_VALID → page_dirty d = false →
   on_disk (files s) (page_number d) = Some (page_buffer d)) →
  (∀ j e q, slots s !! j = Some e → holds_page q e = true → holds_page q d = true → j = i) →
  page_status c = SLRU_PAGE_EMPTY ∨ page_dirty c = false ∨ (∀ q, holds_page q c = true → holds_page q d = true) →
  slru_inv s' ∧ ∀ q, view s' q = if holds_page q d then Some (page_buffer d) else view s q.
Proof.
  intros Hinv Hi Hss Hf Hst Hnn Hcl Hun Hc.
  assert (Hlt : (i < length (slots s))%nat) by by eapply lookup_lt_Some.
  assert (Hsplit : ∀ j e, slots s' !! j = Some e → (j = i ∧ e = d) ∨ (j ≠ i ∧ slots s !! j = Some e)).
  { intros j e. rewrite Hss. intros Hj. apply list_lookup_insert_Some in Hj as [(<- & <- & _)|[? ?]]; auto. }
  split; [split|].
  - rewrite Hss, length_insert. apply Hinv.
  - intros j e Hj. destruct (Hsplit j e Hj) as [[-> ->]|[_ Hj']]; [done|]. by apply (inv_status _ Hinv j).
  - intros j k e f q Hj Hk He Hf'.
    destruct (Hsplit j e Hj) as [[-> ->]|[Hne Hj']], (Hsplit k f Hk) as [[-> ->]|[Hne' Hk']]; [done|..].
    + exfalso. apply Hne'. by apply (Hun k f q).
    + exfalso. apply Hne. by apply (Hun j e q).
    + by apply (inv_unique _ Hinv j k e f q).
  - intros j e Hj. rewrite Hf. destruct (Hsplit j e Hj) as [[-> ->]|[_ Hj']]; [done|]. by apply (inv_clean _ Hinv j).
  - intros j e Hj. destruct (Hsplit j e Hj) as [[-> ->]|[_ Hj']]; [done|]. by apply (inv_nonneg _ Hinv j).
  - intros q. unfold view. rewrite Hss, Hf.
    rewrite (buffered_insert _ _ c); [|done|intros j e Hj He [Hx|Hx]; [by apply (inv_unique _ Hinv j i e c q)|by eapply Hun]].
    destruct (holds_page q d) eqn:Hqd; [done|]. destruct (holds_page q c) eqn:Hqc; [|done].
    rewrite (buffered_at s i c) by done. apply holds_page_spec in Hqc as Hq. destruct Hq as [<- Hne].
    destruct Hc as [Hc|[Hc|Hc]]; [done| |rewrite (Hc _ Hqc) in Hqd; done].
    apply (inv_clean _ Hinv i); [done| |done]. by destruct (inv_status _ Hinv i c Hi).
Qed.

Lemma replace_slot_evolves s s' d i :
  slots s' = <[i := d]> (slots s) → files s' = files s → (ios s ≤ ios s')%nat →
  (∀ q, view s' q = if holds_page q d then Some (page_buffer d) else view s q) →
  (∀ q, holds_page q d = true → view s q = Some (page_buffer d)) → evolves s s'.
Proof.
  intros Hss Hf Hn Hv Hd. split; rewrite ?Hf; auto.
  - by rewrite Hss, length_insert.
  - intros q _. left. rewrite Hv. destruct (holds_page q d) eqn:E; [|done]. by rewrite Hd.
Qed.

(** ** Requests that fail *)

Definition io_failed s s' : Prop := ∃ n cause w, (ios s ≤ n < ios s')%nat ∧ io n = IoFailed cause w.
Definition fsync_failed s s' : Prop := ∃ n w, (ios s ≤ n < ios s')%nat ∧ io n = IoFailed SLRU_FSYNC_FAILED w.

(** An error needs a request that failed; the server goes down only for an [fsync] that failed. *)
Definition blamed {A} s (o : outcome A) s' : Prop :=
  match o with
  | Ret _ => True
  | ERROR => io_failed s s'
  | FATAL => False
  | PANIC => fsync_failed s s'
  end.

Lemma io_failed_mono s1 s2 s3 s4 :
  (ios s1 ≤ ios s2)%nat → (ios s3 ≤ ios s4)%nat → io_failed s2 s3 → io_failed s1 s4.
Proof. intros H1 H2 (n & c & w & Hn & Hc). exists n, c, w. split; [lia|done]. Qed.

Lemma fsync_failed_mono s1 s2 s3 s4 :
  (ios s1 ≤ ios s2)%nat → (ios s3 ≤ ios s4)%nat → fsync_failed s2 s3 → fsync_failed s1 s4.
Proof. intros H1 H2 (n & w & Hn & Hc). exists n, w. split; [lia|done]. Qed.

Lemma blamed_mono {A} s1 s2 s3 (o : outcome A) :
  (ios s1 ≤ ios s2)%nat → blamed s2 o s3 → blamed s1 o s3.
Proof. destruct o; simpl; eauto using io_failed_mono, fsync_failed_mono. Qed.

Lemma wp_the_slot i c (Q : outcome (slot page) → slru page → Prop) s :
  slots s !! i = Some c → Q (Ret c) s → wp (the_slot i) Q s.
Proof. intros Hi HQ. unfold wp, the_slot, bind, get, ret. by rewrite Hi. Qed.

Definition bump s : slru page :=
  mkSlru (slots s) (cur_lru_count s) (latest_page_number s) (files s) (S (ios s)).

Lemma wp_ask (Q : outcome io_answer → slru page → Prop) s : Q (Ret (io (ios s))) (bump s) → wp ask Q s.
Proof. done. Qed.

Lemma blamed_report {A} s s' cause w :
  (ios s < ios s')%nat → io (ios s) = IoFailed cause w →
  blamed s (@SlruReportIOError page ctl A cause s').1 s' ∧ (@SlruReportIOError page ctl A cause s').2 = s'.
Proof.
  intros Hn Ha. unfold SlruReportIOError, raise. split; [|done].
  destruct (bool_decide_reflect (cause = SLRU_FSYNC_FAILED)) as [->|]; simpl.
  - destruct data_sync_retry; simpl; [exists (ios s), SLRU_FSYNC_FAILED, w|exists (ios s), w]; (split; [lia|done]).
  - exists (ios s), cause, w. split; [lia|done].
Qed.

(** ** Writing *)

(** The files after a request to write the page of the slot [c], for the answer [a]. *)
Definition files_after (c : slot page) (a : io_answer) (fs : gmap Z (list page)) : gmap Z (list page) :=
  let segno := page_number c `quot` SLRU_PAGES_PER_SEGMENT in
  let f := default [] (fs !! segno) in
  let f' := file_write (Z.to_nat (page_number c `rem` SLRU_PAGES_PER_SEGMENT)) (page_buffer c) f in
  match a with
  | IoDone => <[segno := f']> fs
  | IoFailed SLRU_OPEN_FAILED _ => fs
  | IoFailed _ w => <[segno := if w : bool then f' else f]> fs
  end.

Lemma files_after_spec c a fs :
  0 ≤ page_number c →
  written (page_number c) (page_buffer c) fs (files_after c a fs) ∨
  (a ≠ IoDone ∧ ∀ q, on_disk (files_after c a fs) q = on_disk fs q).
Proof.
  intros Hp. assert (Hsame : ∀ segno q, on_disk (<[segno := default [] (fs !! segno)]> fs) q = on_disk fs q).
  { intros segno q. unfold on_disk. destruct (decide (q `quot` SLRU_PAGES_PER_SEGMENT = segno)) as [->|Hne].
    - rewrite lookup_insert_eq. destruct (fs !! segno); [done|]. cbn. apply lookup_nil.
    - by rewrite lookup_insert_ne. }
  destruct a as [|cause w]; [left; by apply written_file_write|].
  destruct cause, w; simpl; try (left; by apply written_file_write); right; (split; [done|]); done || apply Hsame.
Qed.

Lemma SlruInternalWritePage_eq i c fdata s :
  slots s !! i = Some c → page_status c = SLRU_PAGE_VALID → page_dirty c = true →
  wp (SlruInternalWritePage i fdata)
    (λ o s', slots s' = <[i := with_dirty (negb (bool_decide (io (ios s) = IoDone))) c]> (slots s) ∧
       files s' = files_after c (io (ios s)) (files s) ∧ cur_lru_count s' = cur_lru_count s ∧
       latest_page_number s' = latest_page_number s ∧ ios s' = S (ios s) ∧ blamed s o s' ∧
       match o with Ret _ => io (ios s) = IoDone | _ => io (ios s) ≠ IoDone end) s.
Proof.
  intros Hi Hst Hd. unfold SlruInternalWritePage.
  apply proc_bind, (wp_the_slot i c); [done|]. cbn [next].
  rewrite bool_decide_eq_false_2 by congruence. apply proc_bind, proc_ret. cbn [next].
  apply proc_bind, (wp_the_slot i c); [done|]. cbn [next].
  rewrite Hd, bool_decide_eq_false_2 by (intros E; by apply E). rewrite Z.eqb_refl. cbn [negb orb].
  apply proc_bind, wp_modify. cbn [next]. apply proc_bind. unfold SlruPhysicalWritePage.
  set (s1 := set_slot i _ s).
  set (c1 := with_dirty false (with_status SLRU_PAGE_WRITE_IN_PROGRESS c)).
  assert (E1 : slots s1 = <[i := c1]> (slots s)).
  { unfold s1, set_slot. cbn [slots set_slots]. by rewrite (alter_lookup_some _ i _ c Hi). }
  assert (H1 : slots s1 !! i = Some c1).
  { rewrite E1. apply list_lookup_insert_eq. by eapply lookup_lt_Some. }
  assert (Hs2 : ∀ f s2, slots s2 = slots s1 → slots (set_slot i f s2) = <[i := f c1]> (slots s)).
  { intros f s2 E2. unfold set_slot. simpl. rewrite E2. rewrite (alter_lookup_some _ i _ c1 H1), E1.
    apply list_insert_insert_eq. }
  apply proc_bind, (wp_the_slot i _ _ s1 H1). cbn [next].
  apply proc_bind, wp_ask. cbn [next]. apply proc_bind, wp_get. cbn [next].
  assert (Hfin : ∀ d, with_status SLRU_PAGE_VALID (with_dirty d c1) = with_dirty d c).
  { intros d. destruct c. simpl in *. by subst. }
  change (ios s1) with (ios s). destruct (io (ios s)) as [|cause w] eqn:Hio.
  - apply proc_bind, wp_modify. cbn [next]. apply proc_ret. cbn [next fst snd].
    apply proc_bind, wp_modify. cbn [next]. apply proc_ret.
    split_and!; try done. rewrite Hs2 by done. rewrite bool_decide_eq_true_2 by done.
    cbn [negb]. by rewrite <-(Hfin false).
  - rewrite bool_decide_eq_false_2 by done. cbn [negb].
    assert (Hend : ∀ r s2, slots s2 = slots s1 → ios s2 = S (ios s) →
      files s2 = files_after c (IoFailed cause w) (files s) →
      cur_lru_count s2 = cur_lru_count s → latest_page_number s2 = latest_page_number s →
      wp (bind (modify (set_slot i (λ c, with_status SLRU_PAGE_VALID (with_dirty true c))))
            (λ _, @SlruReportIOError page ctl r cause))
        (λ o s', slots s' = <[i := with_dirty true c]> (slots s) ∧
           files s' = files_after c (IoFailed cause w) (files s) ∧ cur_lru_count s' = cur_lru_count s ∧
           latest_page_number s' = latest_page_number s ∧ ios s' = S (ios s) ∧ blamed s o s' ∧
           match o with Ret _ => IoFailed cause w = IoDone | _ => IoFailed cause w ≠ IoDone end) s2).
    { intros r s2 E2 En Ef Ec El. apply proc_bind, wp_modify. cbn [next]. set (s3 := set_slot i _ s2).
      destruct (@blamed_report r s s3 cause w) as [Hb Hbs]; [unfold s3; simpl; lia|done|].
      assert (E3 : slots s3 = <[i := with_dirty true c]> (slots s)) by (rewrite <-(Hfin true); by apply Hs2).
      unfold wp. rewrite Hbs. split_and!; try done.
      unfold SlruReportIOError, raise. simpl. by destruct (bool_decide _ && _). }
    destruct cause; [apply proc_ret; cbn [next fst snd]; by apply Hend|..];
      apply proc_bind, wp_modify; cbn [next]; apply proc_ret; cbn [next fst snd]; by apply Hend.
Qed.

(** What a request to write a slot leaves behind. *)
Definition wrote i c {A} s (o : outcome A) s' : Prop :=
  slru_inv s' ∧ evolves s s' ∧ blamed s o s' ∧
  cur_lru_count s' = cur_lru_count s ∧ latest_page_number s' = latest_page_number s ∧
  ∃ d, slots s' = <[i := with_dirty d c]> (slots s) ∧
       match o with Ret _ => page_status c = SLRU_PAGE_VALID → d = false | _ => True end.

Lemma SlruInternalWritePage_spec i c fdata s :
  slru_inv s → slots s !! i = Some c → wp (SlruInternalWritePage i fdata) (wrote i c s) s.
Proof.
  intros Hinv Hi. destruct (inv_status _ Hinv i c Hi) as [Hst|Hst]; [|destruct (page_dirty c) eqn:Hd].
  1,3: unfold SlruInternalWritePage; apply proc_bind, (wp_the_slot i c); [done|]; cbn [next];
    rewrite bool_decide_eq_false_2 by congruence; apply proc_bind, proc_ret; cbn [next];
    apply proc_bind, (wp_the_slot i c); [done|]; cbn [next].
  - rewrite (bool_decide_eq_true_2 (page_status c ≠ SLRU_PAGE_VALID)) by congruence.
    rewrite orb_true_r. apply proc_ret. split_and!; try done. exists (page_dirty c). split; [|congruence].
    rewrite list_insert_id; [done|]. rewrite Hi. by destruct c.
  - rewrite Hd. apply proc_ret. split_and!; try done. exists false. split; [|done].
    rewrite list_insert_id; [done|]. rewrite Hi. destruct c; simpl in *. by subst.
  - eapply proc_mono; [by apply (SlruInternalWritePage_eq i c)|].
    intros o s' (Hss & Hf & Hc & Hl & Hn & Hb & Ho).
    pose proof (inv_nonneg _ Hinv i c Hi Hst) as Hp.
    set (a := io (ios s)) in *. set (d := negb (bool_decide (a = IoDone))) in *.
    set (m := mkSlru (slots s) (cur_lru_count s) (latest_page_number s) (files s') (ios s')).
    assert (Hm : slru_inv m ∧ evolves s m).
    { destruct (files_after_spec c a (files s) Hp) as [Hw|[_ Hsame]].
      - apply (files_written s m i c); try done; [by simpl; rewrite Hf|simpl; lia].
      - apply eqv_keeps; try done; [by simpl; rewrite Hf|simpl; lia]. }
    destruct Hm as [Hminv Hmev].
    assert (Hdisk : d = false → on_disk (files s') (page_number c) = Some (page_buffer c)).
    { unfold d. rewrite negb_false_iff, bool_decide_eq_true. intros Ha.
      destruct (files_after_spec c a (files s) Hp) as [[Hw _]|[? _]]; [by rewrite Hf|done]. }
    destruct (replace_slot m s' i c (with_dirty d c)) as [Hinv' Hv]; try done.
    + by right.
    + intros j e q Hj He Hq. by apply (inv_unique _ Hminv j i e c q).
    + by right; right.
    + assert (Hev : evolves m s').
      { apply (replace_slot_evolves m s' (with_dirty d c) i); try done.
        intros q Hq. unfold view. by rewrite (buffered_at m i c). }
      split_and!; try done; [by transitivity m|]. exists d. split; [done|].
      destruct o; try done. intros _. unfold d. by rewrite bool_decide_eq_true_2.
Qed.

(** ** Selecting a slot *)

Lemma better_delta i delta p v : c_delta v ≤ c_delta (better i delta p v) ∧ delta ≤ c_delta (better i delta p v).
Proof.
  unfold better. destruct (c_delta v <? delta) eqn:E; simpl; [lia|].
  destruct (delta =? c_delta v) eqn:E'; simpl; [destruct PagePrecedes; simpl; lia|lia].
Qed.

Lemma better_slot i delta p v : better i delta p v = v ∨ (c_slot (better i delta p v) = i ∧ c_delta (better i delta p v) = delta).
Proof. unfold better. destruct (_ || _); auto. Qed.

Lemma scan_slots_spec latest cur_count ss i v w :
  (∀ c, c ∈ ss → page_status c = SLRU_PAGE_EMPTY ∨ page_status c = SLRU_PAGE_VALID) →
  let '(ss', r) := scan_slots latest cur_count ss i v w in
  Forall2 slot_eqv ss ss' ∧
  match r with
  | inl k => ∃ j c, k = (i + j)%nat ∧ ss' !! j = Some c ∧ page_status c = SLRU_PAGE_EMPTY
  | inr (v', _) =>
      c_delta v ≤ c_delta v' ∧
      (∀ c, c ∈ ss → page_status c = SLRU_PAGE_VALID ∧ (page_number c = latest ∨ 0 ≤ c_delta v')) ∧
      (v' = v ∨ ∃ j c, c_slot v' = (i + j)%nat ∧ ss' !! j = Some c)
  end.
Proof.
  revert i v w. induction ss as [|c ss IH]; intros i v w Hst; simpl.
  { split; [done|]. split_and!; [lia| |by left]. intros c Hc. by apply elem_of_nil in Hc. }
  destruct (bool_decide_reflect (page_status c = SLRU_PAGE_EMPTY)) as [He|He].
  { split; [reflexivity|]. exists 0%nat, c. split_and!; [lia|done..]. }
  assert (Hv : page_status c = SLRU_PAGE_VALID) by (destruct (Hst c); [left|done..]).
  set (delta := s32 (cur_count - page_lru_count c)).
  assert (Hc' : ∃ c' delta', (if delta <? 0 then (with_lru cur_count c, 0) else (c, delta)) = (c', delta') ∧
                  slot_eqv c c' ∧ 0 ≤ delta').
  { destruct (delta <? 0) eqn:E; eexists _, _; (split; [done|]); split; [apply with_lru_eqv|lia|reflexivity|lia]. }
  destruct Hc' as (c' & delta' & -> & Hcc & Hdelta).
  rewrite (bool_decide_eq_true_2 (page_status c' = SLRU_PAGE_VALID)) by (destruct Hcc as (_ & <- & _); done).
  set (v1 := if page_number c' =? latest then v else better i delta' (page_number c') v).
  replace (if page_number c' =? latest then (v, w) else (better i delta' (page_number c') v, w)) with (v1, w)
    by (unfold v1; by destruct (page_number c' =? latest)).
  specialize (IH (S i) v1 w (λ x Hx, Hst x (list_elem_of_further _ _ _ Hx))).
  destruct (scan_slots latest cur_count ss (S i) v1 w) as [ss' [k|[v' w']]]; destruct IH as [Hss IH];
    (split; [by constructor|]).
  - destruct IH as (j & d & -> & Hj & Hd). exists (S j), d. split_and!; [lia|done..].
  - destruct IH as (Hle & Hall & Hwhere).
    assert (Hv1 : c_delta v ≤ c_delta v1) by (unfold v1; destruct (_ =? _); [lia|apply better_delta]).
    split_and!; [lia| |].
    + intros d [->|Hd]%elem_of_cons; [|by apply Hall]. split; [done|].
      destruct Hcc as (Hn & _). rewrite Hn. unfold v1 in Hle, Hv1.
      destruct (Z.eqb_spec (page_number c') latest); [by left|right].
      pose proof (better_delta i delta' (page_number c') v). lia.
    + destruct Hwhere as [->|(j & d & Hs & Hj)].
      * unfold v1. destruct (_ =? _); [by left|].
        destruct (better_slot i delta' (page_number c') v) as [->|[-> _]]; [by left|].
        right. exists 0%nat, c'. split; [lia|done].
      * right. exists (S j), d. split; [lia|done].
Qed.

Definition dirty_slots (ss : list (slot page)) : nat := length (filter (λ c, page_dirty c = true) ss).

Lemma dirty_slots_eqv ss ss' : Forall2 slot_eqv ss ss' → dirty_slots ss = dirty_slots ss'.
Proof.
  unfold dirty_slots. induction 1 as [|c d ss ss' (_ & _ & Hd & _) _ IH]; [done|].
  rewrite !filter_cons, Hd. case_decide; simpl; lia.
Qed.

Lemma dirty_slots_clean ss i c d :
  ss !! i = Some c → page_dirty c = true → page_dirty d = false → dirty_slots ss = S (dirty_slots (<[i := d]> ss)).
Proof.
  unfold dirty_slots. revert i. induction ss as [|x ss IH]; intros [|i] Hi Hc Hd; simplify_eq/=.
  - rewrite !filter_cons. rewrite decide_True, decide_False by congruence. done.
  - rewrite !filter_cons. case_decide; simpl; by rewrite (IH i).
Qed.

Lemma dirty_slots_length ss : (dirty_slots ss ≤ length ss)%nat.
Proof. apply length_filter. Qed.

(** A slot that holds the page, or one that can be used for it. *)
Definition selected p i s : Prop :=
  ∃ c, slots s !! i = Some c ∧
  (holds_page p c = true ∨
   (buffered (slots s) p = None ∧ (page_status c = SLRU_PAGE_EMPTY ∨ page_dirty c = false))).

Definition selects p s (o : outcome nat) s' : Prop :=
  slru_inv s' ∧ evolves s s' ∧ blamed s o s' ∧ latest_page_number s' = latest_page_number s ∧
  match o with Ret i => selected p i s' | _ => True end.

(** Some valid slot holds another page than the latest one. *)
Lemma other_page s latest :
  slru_inv s → (∀ c, c ∈ slots s → page_status c = SLRU_PAGE_VALID) → ∃ c, c ∈ slots s ∧ page_number c ≠ latest.
Proof.
  intros Hinv Hall. pose proof (inv_slots _ Hinv) as Hlen.
  destruct (slots s) as [|c0 [|c1 ss]] eqn:E; simpl in Hlen; [lia..|].
  destruct (decide (page_number c0 = latest)) as [E0|]; [|by exists c0; split; [left|]].
  exists c1. split; [by right; left|]. intros E1.
  assert (0 = 1)%nat; [|done].
  apply (inv_unique _ Hinv 0%nat 1%nat c0 c1 latest); [by rewrite E..| |];
    apply holds_page_spec; (split; [done|]); rewrite Hall by (repeat constructor); done.
Qed.

Lemma SlruSelectLRUPage_spec rounds p s :
  slru_inv s → (dirty_slots (slots s) < rounds)%nat → wp (SlruSelectLRUPage rounds p) (selects p s) s.
Proof.
  revert s. induction rounds as [|rounds IH]; intros s Hinv Hr; [lia|]. simpl.
  apply proc_bind, wp_get. cbn [next].
  pose proof (find_slot_spec p (slots s) 0) as Hfind. destruct (find_slot p (slots s) 0) as [k|].
  { destruct Hfind as (j & c & -> & Hj & Hc). apply proc_ret. split_and!; try done. exists c. auto. }
  set (cur := cur_lru_count s). set (latest := latest_page_number s).
  pose proof (scan_slots_spec latest cur (slots s) 0 no_candidate no_candidate) as Hscan.
  destruct (scan_slots latest cur (slots s) 0 no_candidate no_candidate) as [ss r].
  destruct Hscan as [Hss Hscan].
  { intros c [i Hi]%list_elem_of_lookup. by apply (inv_status _ Hinv i). }
  apply proc_bind, wp_modify. cbn [next]. set (s1 := set_slots ss _).
  destruct (eqv_keeps s s1 Hinv) as [Hinv1 Hev1]; [done..|].
  assert (Hn1 : buffered (slots s1) p = None) by (simpl; by rewrite <-(buffered_eqv _ _ _ Hss)).
  destruct r as [k|[v w]].
  { destruct Hscan as (j & c & -> & Hj & Hc). apply proc_ret. split_and!; try done.
    exists c. split; [done|]. right. auto. }
  destruct Hscan as (_ & Hall & Hwhere).
  assert (Hdelta : 0 ≤ c_delta v).
  { destruct (other_page s latest Hinv) as (c & Hc & Hne); [intros c Hc; by apply Hall|].
    destruct (Hall c Hc) as [_ [?|?]]; done. }
  destruct Hwhere as [->|(j & c & Hj & Hc)]; [by vm_compute in Hdelta|].
  rewrite (proj2 (Z.ltb_ge (c_delta v) 0)) by done. rewrite Hj.
  apply proc_bind, (wp_the_slot j c); [done|]. cbn [next]. simpl.
  destruct (page_dirty c) eqn:Hd; simpl.
  2: { apply proc_ret. split_and!; try done. exists c. split; [done|]. right. auto. }
  assert (Hst : page_status c = SLRU_PAGE_VALID).
  { destruct (Forall2_lookup_r _ _ _ _ _ Hss Hc) as (c0 & Hc0 & _ & <- & _).
    apply Hall. by apply list_elem_of_lookup_2 in Hc0. }
  apply proc_bind. eapply proc_mono; [by apply (SlruInternalWritePage_spec j c)|].
  intros o s2 (Hinv2 & Hev2 & Hb2 & _ & Hl2 & d & Hs2 & Ho).
  assert (Hev : evolves s s2) by by transitivity s1.
  assert (Hn : (ios s ≤ ios s1)%nat) by done.
  destruct o; cbn [next]; [|split_and!; try done; by eapply blamed_mono..].
  rewrite (Ho Hst) in Hs2. eapply proc_mono; [apply IH; [done|]|].
  { rewrite Hs2. rewrite (dirty_slots_eqv _ _ Hss) in Hr.
    rewrite (dirty_slots_clean ss j c (with_dirty false c)) in Hr by done. simpl. lia. }
  intros o s3 (Hinv3 & Hev3 & Hb3 & Hl3 & Ho3). split_and!; [done|by transitivity s2| |by rewrite Hl3, Hl2|done].
  eapply blamed_mono; [apply Hev|done].
Qed.

(** ** Reading and creating pages *)

Lemma insert_eqv (ss : list (slot page)) i c d : ss !! i = Some c → slot_eqv c d → Forall2 slot_eqv ss (<[i := d]> ss).
Proof.
  intros Hi Hcd. apply Forall2_same_length_lookup. split; [by rewrite length_insert|].
  intros j x y Hx Hy. apply list_lookup_insert_Some in Hy as [(<- & <- & _)|[_ Hy]]; [by simplify_eq|].
  rewrite Hx in Hy. simplify_eq. reflexivity.
Qed.

Lemma SlruRecentlyUsed_spec i c s :
  slots s !! i = Some c →
  wp (SlruRecentlyUsed i)
    (λ o s', o = Ret tt ∧ Forall2 slot_eqv (slots s) (slots s') ∧ (∃ c', slots s' !! i = Some c' ∧ slot_eqv c c') ∧
       files s' = files s ∧ ios s' = ios s ∧ latest_page_number s' = latest_page_number s) s.
Proof.
  intros Hi. unfold SlruRecentlyUsed. apply proc_bind, (wp_the_slot i c); [done|]. cbn [next].
  apply proc_bind, wp_get. cbn [next]. destruct (_ =? _).
  - apply proc_ret. split_and!; try done. exists c. split; [done|reflexivity].
  - apply wp_modify. set (n := s32 _). set (s' := set_slot _ _ _).
    assert (Hs' : slots s' = <[i := with_lru n c]> (slots s)).
    { unfold s', set_slot. cbn [slots set_slots set_cur_lru_count]. by rewrite (alter_lookup_some _ i _ c Hi). }
    split_and!; try done; rewrite Hs'.
    + by apply (insert_eqv _ _ c), with_lru_eqv.
    + exists (with_lru n c). split; [|apply with_lru_eqv]. apply list_lookup_insert_eq. by eapply lookup_lt_Some.
Qed.

(** The slot [i] holds the page [p]. *)
Definition holding p i s : Prop :=
  ∃ c, slots s !! i = Some c ∧ page_status c = SLRU_PAGE_VALID ∧ page_number c = p ∧ view s p = Some (page_buffer c).

Definition reads p s (o : outcome nat) s' : Prop :=
  slru_inv s' ∧ evolves s s' ∧ latest_page_number s' = latest_page_number s ∧
  match o with
  | Ret i => holding p i s'
  | ERROR => io_failed s s' ∨ view s' p = None
  | FATAL => False
  | PANIC => fsync_failed s s'
  end.

Lemma reads_trans p s s1 o s2 :
  evolves s s1 → latest_page_number s1 = latest_page_number s → reads p s1 o s2 → reads p s o s2.
Proof.
  intros Hev Hl (Hinv & Hev2 & Hl2 & Ho). split_and!; [done|by transitivity s1|congruence|].
  pose proof (ev_ios _ _ Hev). destruct o; simpl in *; [done| |done|eauto using fsync_failed_mono].
  destruct Ho; eauto using io_failed_mono.
Qed.

Lemma recently_used_reads p i c s :
  slru_inv s → slots s !! i = Some c → page_status c = SLRU_PAGE_VALID → page_number c = p →
  wp (bind (SlruRecentlyUsed i) (λ _, ret i)) (reads p s) s.
Proof.
  intros Hinv Hi Hst Hp. apply proc_bind. eapply proc_mono; [by apply (SlruRecentlyUsed_spec i c)|].
  intros o s2 (-> & Hss & (c' & Hi' & Hcc) & Hf & Hn & Hl2). cbn [next]. apply proc_ret.
  destruct (eqv_keeps s s2) as [Hinv2 Hev2]; [done..|by rewrite Hf|by rewrite Hn|].
  destruct Hcc as (H1 & H2 & H3 & H4).
  split_and!; [done..|]. exists c'. split_and!; try congruence.
  unfold view. rewrite (buffered_at s2 i c'); [done..|]. apply holds_page_spec. split; congruence.
Qed.

(** The page is read into a free slot. *)
Definition load_slot (p : Z) (i : nat) : proc (slru page) nat :=
  bind (modify (set_slot i (λ c, with_dirty false (with_status SLRU_PAGE_READ_IN_PROGRESS (with_number p c))))) (λ _,
  bind (SlruPhysicalReadPage p) (λ r,
    match r with
    | inl b =>
        bind (modify (set_slot i (λ c, with_status SLRU_PAGE_VALID (with_buffer b c)))) (λ _,
        bind (SlruRecentlyUsed i) (λ _, ret i))
    | inr cause =>
        bind (modify (set_slot i (with_status SLRU_PAGE_EMPTY))) (λ _, SlruReportIOError cause)
    end)).

(** The answer to the request, or why there is none. *)
Lemma SlruPhysicalReadPage_spec p s :
  wp (SlruPhysicalReadPage p)
    (λ o s', s' = bump s ∧
       match o with
       | Ret (inl b) => on_disk (files s) p = Some b ∨ (InRecovery = true ∧ on_disk (files s) p = None)
       | Ret (inr cause) => cause ≠ SLRU_FSYNC_FAILED ∧ on_disk (files s) p = None ∨
                            ∃ w, io (ios s) = IoFailed cause w
       | _ => False
       end) s.
Proof.
  unfold SlruPhysicalReadPage. apply proc_bind, wp_ask. cbn [next]. apply proc_bind, wp_get. cbn [next bump files].
  unfold on_disk. destruct (files s !! _) as [f|], (io (ios s)) as [|cause w]; cbn [mbind option_bind].
  - destruct (f !! _); apply proc_ret; (split; [done|]); auto.
  - apply proc_ret. split; [done|]. right. eauto.
  - destruct InRecovery; simpl; apply proc_ret; (split; [done|]); auto.
  - apply proc_ret. split; [done|]. right. eauto.
Qed.

Lemma load_slot_spec p i c s :
  slru_inv s → 0 ≤ p → InRecovery = false ∨ is_Some (view s p) →
  slots s !! i = Some c → buffered (slots s) p = None → page_status c = SLRU_PAGE_EMPTY ∨ page_dirty c = false →
  wp (load_slot p i) (reads p s) s.
Proof.
  intros Hinv Hp Hrec Hi Hnb Hfree. unfold load_slot. apply proc_bind, wp_modify. cbn [next].
  set (s1 := set_slot i _ s).
  set (c1 := with_dirty false (with_status SLRU_PAGE_READ_IN_PROGRESS (with_number p c))).
  assert (E1 : slots s1 = <[i := c1]> (slots s)).
  { unfold s1, set_slot. cbn [slots set_slots]. by rewrite (alter_lookup_some _ i _ c Hi). }
  assert (H1 : slots s1 !! i = Some c1) by (rewrite E1; apply list_lookup_insert_eq; by eapply lookup_lt_Some).
  assert (Hset : ∀ f, slots (set_slot i f (bump s1)) = <[i := f c1]> (slots s)).
  { intros f. unfold set_slot. cbn [slots set_slots bump]. rewrite (alter_lookup_some _ i _ c1 H1), E1.
    apply list_insert_insert_eq. }
  assert (Hvp : view s p = on_disk (files s) p) by (unfold view; by rewrite Hnb).
  assert (Hother : ∀ j e q, slots s !! j = Some e → holds_page q e = true → q = p → j = i).
  { intros j e q Hj He ->. rewrite buffered_none in Hnb. rewrite (Hnb j e Hj) in He. done. }
  apply proc_bind. eapply proc_mono; [apply SlruPhysicalReadPage_spec|].
  intros o s2 [-> Ho]. change (files s1) with (files s) in Ho. change (ios s1) with (ios s) in Ho.
  destruct o as [[b|cause]| | |]; cbn [next]; try done; apply proc_bind, wp_modify; cbn [next].
  - assert (Hb : on_disk (files s) p = Some b).
    { destruct Ho as [?|[Hr Hn]]; [done|]. rewrite Hvp, Hn, Hr in Hrec. destruct Hrec as [?|[? ?]]; done. }
    set (s3 := set_slot i _ (bump s1)). set (d := with_status SLRU_PAGE_VALID (with_buffer b c1)).
    assert (E3 : slots s3 = <[i := d]> (slots s)) by apply Hset.
    assert (Hdp : ∀ q, holds_page q d = true → q = p) by (intros q [<- _]%holds_page_spec; done).
    destruct (replace_slot s s3 i c d) as [Hinv3 Hv3]; try done.
    + by right.
    + intros j e q Hj He Hq. apply (Hother j e q); auto.
    + destruct Hfree; auto.
    + eapply proc_mono; [apply (recently_used_reads p i d s3); [done| |done..]|].
      { rewrite E3. apply list_lookup_insert_eq. by eapply lookup_lt_Some. }
      intros o s4. apply reads_trans; [|done].
      apply (replace_slot_evolves s s3 d i); [done|done|simpl; lia|done|].
      intros q ->%Hdp. by rewrite Hvp.
  - set (s3 := set_slot i _ (bump s1)). set (d := with_status SLRU_PAGE_EMPTY c1).
    assert (E3 : slots s3 = <[i := d]> (slots s)) by apply Hset.
    assert (Hd : ∀ q, holds_page q d = false).
    { intros q. unfold holds_page. by rewrite andb_false_r. }
    destruct (replace_slot s s3 i c d) as [Hinv3 Hv3]; try done.
    + by left.
    + intros j e q _ _ Hq. by rewrite Hd in Hq.
    + destruct Hfree; auto.
    + assert (Hev3 : evolves s s3).
      { apply (replace_slot_evolves s s3 d i); [done|done|simpl; lia|done|]. intros q Hq. by rewrite Hd in Hq. }
      assert (Hvs : view s3 p = on_disk (files s) p) by (by rewrite Hv3, Hd).
      destruct Ho as [[Hnf Hnone]|[w Hw]].
      * unfold SlruReportIOError. rewrite bool_decide_eq_false_2 by done. simpl. apply wp_raise.
        split_and!; try done. right. congruence.
      * destruct (@blamed_report nat s s3 cause w) as [Hbl Hs3]; [simpl; lia|done|].
        unfold wp. rewrite Hs3. split_and!; try done.
        unfold SlruReportIOError, raise in Hbl |- *. destruct (bool_decide _ && _); simpl in *; auto.
Qed.

Lemma read_page_spec rounds p write_ok s :
  slru_inv s → 0 ≤ p → InRecovery = false ∨ is_Some (view s p) →
  wp (read_page (S rounds) p write_ok) (reads p s) s.
Proof.
  intros Hinv Hp Hrec. cbn [read_page]. apply proc_bind, wp_get. cbn [next]. apply proc_bind.
  eapply proc_mono; [apply SlruSelectLRUPage_spec; [done|]|].
  { pose proof (dirty_slots_length (slots s)). unfold select_rounds. lia. }
  intros o s1 (Hinv1 & Hev1 & Hb1 & Hl1 & Hsel).
  destruct o as [i| | |]; cbn [next]; [|split_and!; simpl in *; auto; done..].
  destruct Hsel as (c & Hi & Hsel). apply proc_bind, (wp_the_slot i c); [done|]. cbn [next].
  destruct (holds_page p c) eqn:Hc.
  { apply holds_page_spec in Hc as [Hcp Hst].
    assert (Hst' : page_status c = SLRU_PAGE_VALID) by by destruct (inv_status _ Hinv1 i c Hi).
    rewrite !bool_decide_eq_false_2 by congruence. simpl. eapply proc_mono; [by apply (recently_used_reads p i c)|].
    intros o s2. by apply reads_trans. }
  destruct Hsel as [?|[Hnb Hfree]]; [congruence|].
  eapply proc_mono; [apply (load_slot_spec p i c); try done|intros o s2; by apply reads_trans].
  destruct Hrec as [?|[b Hb]]; [by left|right].
  destruct (ev_view _ _ Hev1 p Hp) as [->|[_ ->]]; eauto.
Qed.

Lemma SimpleLruReadPage_spec p write_ok s :
  slru_inv s → 0 ≤ p → InRecovery = false ∨ is_Some (view s p) → wp (SimpleLruReadPage p write_ok) (reads p s) s.
Proof. apply read_page_spec. Qed.

Lemma find_readable_spec p ss i k :
  find_readable p ss i = Some k → ∃ j c, k = (i + j)%nat ∧ ss !! j = Some c ∧ holds_page p c = true.
Proof.
  revert i. induction ss as [|c ss IH]; intros i; simpl; [done|].
  destruct (holds_page p c) eqn:Hc, (bool_decide (page_status c = SLRU_PAGE_READ_IN_PROGRESS)); simpl; intros E; simplify_eq;
    try (destruct (IH (S i) E) as (j & d & -> & Hj & Hd); exists (S j), d; split; [lia|done]).
  exists 0%nat, c. split; [lia|done].
Qed.

Lemma SimpleLruReadPage_ReadOnly_spec p s :
  slru_inv s → 0 ≤ p → InRecovery = false ∨ is_Some (view s p) → wp (SimpleLruReadPage_ReadOnly p) (reads p s) s.
Proof.
  intros Hinv Hp Hrec. unfold SimpleLruReadPage_ReadOnly. apply proc_bind, wp_get. cbn [next].
  destruct (find_readable p (slots s) 0) eqn:E; [|by apply SimpleLruReadPage_spec].
  apply find_readable_spec in E as (j & c & -> & Hj & Hc). apply holds_page_spec in Hc as [Hp' Hst].
  apply (recently_used_reads p j c); try done. by destruct (inv_status _ Hinv j c Hj).
Qed.

Lemma SimpleLruDoesPhysicalPageExist_spec p s :
  0 ≤ p →
  wp (SimpleLruDoesPhysicalPageExist p)
    (λ o s', s' = bump s ∧ blamed s o s' ∧
       match o with Ret b => b = bool_decide (is_Some (on_disk (files s) p)) | _ => True end) s.
Proof.
  intros Hp. unfold SimpleLruDoesPhysicalPageExist. apply proc_bind, wp_ask. cbn [next].
  apply proc_bind, wp_get. cbn [next bump files].
  assert (Herr : ∀ (P : bool → Prop) cause w, io (ios s) = IoFailed cause w → wp (SlruReportIOError cause)
    (λ o s', s' = bump s ∧ blamed s o s' ∧ match o with Ret b => P b | _ => True end) (bump s)).
  { intros P cause w Hw. destruct (@blamed_report bool s (bump s) cause w) as [Hb Hs]; [simpl; lia|done|].
    unfold wp. rewrite Hs. split_and!; [done..|].
    unfold SlruReportIOError, raise. by destruct (bool_decide _ && _). }
  unfold on_disk. destruct (files s !! _) as [f|], (io (ios s)) as [|cause w] eqn:Hio; cbn [mbind option_bind].
  - apply proc_ret. split_and!; [done..|]. set (n := Z.to_nat _). destruct (Nat.ltb_spec n (length f)).
    + by rewrite bool_decide_eq_true_2 by by apply lookup_lt_is_Some.
    + rewrite bool_decide_eq_false_2; [done|]. intros Hx%lookup_lt_is_Some. lia.
  - by apply (Herr (λ b, b = _) cause w).
  - apply proc_ret. done.
  - destruct cause; try (apply proc_ret; done). by apply (Herr (λ b, b = _) _ w).
Qed.

(** The page [p] is set to [b]; the other pages are kept. *)
Definition puts p b s s' : Prop :=
  ∃ m, evolves s m ∧ files s' = files m ∧ ios s' = ios m ∧ length (slots s') = length (slots m) ∧
       view s' p = Some b ∧ ∀ q, q ≠ p → view s' q = view m q.

Lemma put_buffer p i c d s s' :
  slru_inv s → slots s !! i = Some c → page_status c = SLRU_PAGE_VALID → page_number c = p →
  slots s' = <[i := d]> (slots s) → files s' = files s → ios s' = ios s →
  page_status d = SLRU_PAGE_VALID → page_number d = p → page_dirty d = true →
  slru_inv s' ∧ puts p (page_buffer d) s s'.
Proof.
  intros Hinv Hi Hst Hp Hss Hf Hn Hdst Hdp Hdd.
  destruct (replace_slot s s' i c d) as [Hinv' Hv]; try done.
  - by right.
  - intros _. rewrite Hdp, <-Hp. by apply (inv_nonneg _ Hinv i).
  - congruence.
  - intros j e q Hj He Hq. apply (inv_unique _ Hinv j i e c q); try done.
    apply holds_page_spec in Hq as [Hq _]. apply holds_page_spec. split; congruence.
  - right; right. intros q [Hq _]%holds_page_spec. apply holds_page_spec. split; congruence.
  - split; [done|]. exists s. split_and!; try done; [by rewrite Hss, length_insert| |].
    + rewrite Hv. assert (holds_page p d = true) as -> by (apply holds_page_spec; split; congruence). done.
    + intros q Hq. rewrite Hv. destruct (holds_page q d) eqn:E; [|done].
      apply holds_page_spec in E as [E _]. congruence.
Qed.

Lemma puts_evolves_l p b s s1 s2 : evolves s s1 → puts p b s1 s2 → puts p b s s2.
Proof. intros Hev (m & Hm & H'). exists m. split; [by transitivity s1|done]. Qed.

Lemma evolves_ios_slots_view s s' :
  files s' = files s → (ios s ≤ ios s')%nat → length (slots s') = length (slots s) → (∀ q, view s' q = view s q) →
  evolves s s'.
Proof. intros Hf Hn Hl Hv. split; rewrite ?Hf; auto. Qed.

Lemma slots_set_slot i f c s : slots s !! i = Some c → slots (set_slot i f s) = <[i := f c]> (slots s).
Proof. intros Hi. unfold set_slot. cbn [slots set_slots]. by rewrite (alter_lookup_some _ i _ c Hi). Qed.

(** The selected slot is marked as holding the page. *)
Lemma claim_slot p i c s :
  slru_inv s → 0 ≤ p → slots s !! i = Some c →
  holds_page p c = true ∨ (buffered (slots s) p = None ∧ (page_status c = SLRU_PAGE_EMPTY ∨ page_dirty c = false)) →
  let s' := set_slot i (λ c, with_dirty true (with_status SLRU_PAGE_VALID (with_number p c))) s in
  slru_inv s' ∧ ∀ q, q ≠ p → view s' q = view s q.
Proof.
  intros Hinv Hp Hi Hsel s'. set (d := with_dirty true (with_status SLRU_PAGE_VALID (with_number p c))).
  assert (Hdq : ∀ q, holds_page q d = true → q = p) by (intros q [<- _]%holds_page_spec; done).
  destruct (replace_slot s s' i c d) as [Hinv' Hv]; try done.
  - exact (slots_set_slot i _ c s Hi).
  - by right.
  - intros j e q Hj He ->%Hdq. destruct Hsel as [Hc|[Hn _]]; [by apply (inv_unique _ Hinv j i e c p)|].
    rewrite buffered_none in Hn. by rewrite (Hn j e Hj) in He.
  - destruct Hsel as [Hc|[_ [?|?]]]; [|by auto..]. right; right. intros q Hq. apply holds_page_spec. split; [|done].
    apply holds_page_spec in Hc as [Hc _], Hq as [Hq _]. simpl. congruence.
  - split; [done|]. intros q Hq. rewrite Hv. destruct (holds_page q d) eqn:E; [|done]. by apply Hdq in E.
Qed.

Definition zeroes p s (o : outcome nat) s' : Prop :=
  slru_inv s' ∧
  match o with
  | Ret i => holding p i s' ∧ puts p zero_page s s' ∧ latest_page_number s' = p
  | o => evolves s s' ∧ blamed s o s' ∧ latest_page_number s' = latest_page_number s
  end.

Lemma SimpleLruZeroPage_spec p s : slru_inv s → 0 ≤ p → wp (SimpleLruZeroPage p) (zeroes p s) s.
Proof.
  intros Hinv Hp. unfold SimpleLruZeroPage. apply proc_bind, wp_get. cbn [next]. apply proc_bind.
  eapply proc_mono; [apply SlruSelectLRUPage_spec; [done|]|].
  { pose proof (dirty_slots_length (slots s)). unfold select_rounds. lia. }
  intros o s1 (Hinv1 & Hev1 & Hb1 & Hl1 & Hsel). destruct o as [i| | |]; cbn [next]; [|done..].
  destruct Hsel as (c & Hi & Hsel). apply proc_bind, wp_modify. cbn [next].
  destruct (claim_slot p i c s1 Hinv1 Hp Hi Hsel) as [Hinv2 Hv2]. set (s2 := set_slot i _ s1) in *.
  assert (H2 : slots s2 !! i = Some (with_dirty true (with_status SLRU_PAGE_VALID (with_number p c)))).
  { unfold s2. rewrite (slots_set_slot i _ c) by done. apply list_lookup_insert_eq. by eapply lookup_lt_Some. }
  apply proc_bind. eapply proc_mono; [by apply (SlruRecentlyUsed_spec i)|].
  intros o s3 (-> & Hss3 & (c3 & Hi3 & Hn3 & Hst3 & Hd3 & _) & Hf3 & Hio3 & Hl3). cbn [next]. simpl in Hn3, Hst3, Hd3.
  destruct (eqv_keeps s2 s3) as [Hinv3 Hev3]; [done..|by rewrite Hf3|by rewrite Hio3|].
  apply proc_bind, wp_modify. cbn [next]. set (s4 := set_slot i _ s3).
  destruct (put_buffer p i c3 (with_buffer zero_page c3) s3 s4) as [Hinv4 Hput]; try done;
    [exact (slots_set_slot i _ c3 s3 Hi3)|].
  apply proc_bind, wp_modify. cbn [next]. apply proc_ret. set (s5 := set_latest_page_number p s4).
  destruct (eqv_keeps s4 s5) as [Hinv5 Hev5]; [done|reflexivity|done|done|].
  destruct Hput as (m & _ & _ & _ & _ & Hvp & _).
  assert (Hv5 : ∀ q, view s5 q = view s4 q) by done.
  assert (H5 : slots s5 !! i = Some (with_buffer zero_page c3)).
  { unfold s5, s4. cbn [slots set_latest_page_number]. rewrite (slots_set_slot i _ c3) by done.
    apply list_lookup_insert_eq. by eapply lookup_lt_Some. }
  split; [done|]. split_and!; [|exists s1|done].
  - exists (with_buffer zero_page c3). split_and!; try done.
  - split_and!; try done.
    + unfold s5, s4. cbn [slots set_latest_page_number]. rewrite (slots_set_slot i _ c3) by done.
      rewrite length_insert, <-(Forall2_length _ _ _ Hss3). unfold s2.
      by rewrite (slots_set_slot i _ c), length_insert.
    + intros q Hq. rewrite Hv5, <-Hv2 by done. unfold view. unfold s4. cbn [files set_slot set_slots].
      rewrite Hf3, (slots_set_slot i _ c3) by done.
      assert (Hno : ∀ d : slot page, page_number d = p → holds_page q d = false).
      { intros d Hd. unfold holds_page. rewrite Hd. by rewrite (proj2 (Z.eqb_neq p q)). }
      rewrite (buffered_insert_other _ i c3) by auto.
      by rewrite (buffered_eqv _ _ q Hss3).
Qed.
End Pages.
