(* ===== verification/SlruStore.v ===== *)
(** * Simple LRU buffering: flushing and truncating

    A flush that returns leaves every page on disk, and truncation removes whole segments before its
    cutoff.  The theorem: buffers, evictions and failing requests are invisible, the routines
    act on a store of pages. *)
From S2P Require Import Prelude Proc Slru SlruFacts.

Section Pages.
Context {page : Type} {ctl : SlruCtl page}.
Implicit Types (s : slru page) (c : slot page) (p q : Z).

(** ** Flushing *)

Definition clean_at i s : Prop :=
  ∀ c, slots s !! i = Some c → page_status c = SLRU_PAGE_VALID → page_dirty c = false.

Lemma write_slots_spec idx fdata s :
  slru_inv s → (∀ i, i ∈ idx → (i < length (slots s))%nat) →
  wp (write_slots idx fdata)
    (λ o s', slru_inv s' ∧ evolves s s' ∧ blamed s o s' ∧ latest_page_number s' = latest_page_number s ∧
       match o with Ret _ => ∀ i, i ∈ idx ∨ clean_at i s → clean_at i s' | _ => True end) s.
Proof.
  revert fdata s. induction idx as [|i idx IH]; intros fdata s Hinv Hidx; simpl.
  { apply proc_ret. split_and!; try done. intros i [Hi|Hi]; [by apply elem_of_nil in Hi|done]. }
  destruct (lookup_lt_is_Some_2 (slots s) i) as [c Hi]; [by apply Hidx; left|].
  apply proc_bind. eapply proc_mono; [by apply (SlruInternalWritePage_spec i c)|].
  intros o s1 (Hinv1 & Hev1 & Hb1 & _ & Hl1 & d & Hs1 & Ho). destruct o as [fdata'| | |]; cbn [next]; [|done..].
  eapply proc_mono; [apply IH; [done|]|].
  { intros j Hj. rewrite Hs1, length_insert. apply Hidx. by right. }
  intros o s2 (Hinv2 & Hev2 & Hb2 & Hl2 & Ho2).
  split_and!; [done|by transitivity s1|eapply blamed_mono; [apply Hev1|done]|congruence|].
  destruct o; try done. intros j Hj. apply Ho2.
  destruct (decide (j = i)) as [->|Hne].
  - right. intros e. rewrite Hs1, list_lookup_insert_eq by by eapply lookup_lt_Some. intros [= <-] Hst. by apply Ho.
  - destruct Hj as [[->|Hj]%elem_of_cons|Hj]; [done|by left|]. right. intros e. rewrite Hs1, list_lookup_insert_ne by done.
    apply Hj.
Qed.

Lemma sync_files_spec segs failed s :
  wp (sync_files segs failed)
    (λ o s', slots s' = slots s ∧ files s' = files s ∧ (ios s ≤ ios s')%nat ∧
       latest_page_number s' = latest_page_number s ∧
       ∃ r, o = Ret r ∧ (r = failed ∨ ∃ n cause w, r = Some cause ∧ (ios s ≤ n < ios s')%nat ∧ io n = IoFailed cause w)) s.
Proof.
  revert failed s. induction segs as [|g segs IH]; intros failed s; simpl.
  { apply proc_ret. split_and!; try done. eauto. }
  apply proc_bind, wp_ask. cbn [next]. eapply proc_mono; [apply IH|].
  intros o s' (H1 & H2 & H3 & H4 & r & -> & Hr). simpl in *. split_and!; try done; [lia|].
  exists r. split; [done|]. destruct Hr as [->|(n & cause & w & -> & Hn & Hc)].
  - destruct (io (ios s)) as [|cause w] eqn:E; [by left|]. right. exists (ios s), cause, w. split_and!; [done|lia..|done].
  - right. exists n, cause, w. split_and!; [done|lia..|done].
Qed.

Lemma blamed_report_at {A} s s' cause w n :
  (ios s ≤ n < ios s')%nat → io n = IoFailed cause w →
  wp (@SlruReportIOError page ctl A cause) (λ o s2, s2 = s' ∧ blamed s o s2 ∧ match o with Ret _ => False | _ => True end) s'.
Proof.
  intros Hn Ha. unfold wp, SlruReportIOError, raise. simpl.
  destruct (bool_decide_reflect (cause = SLRU_FSYNC_FAILED)) as [->|]; simpl.
  - destruct data_sync_retry; simpl; split_and!; try done; [exists n, SLRU_FSYNC_FAILED, w|exists n, w]; done.
  - split_and!; try done. exists n, cause, w. done.
Qed.

Lemma SimpleLruFlush_spec s :
  slru_inv s →
  wp SimpleLruFlush
    (λ o s', slru_inv s' ∧ evolves s s' ∧ blamed s o s' ∧ latest_page_number s' = latest_page_number s ∧
       match o with Ret _ => ∀ p, on_disk (files s') p = view s' p | _ => True end) s.
Proof.
  intros Hinv. unfold SimpleLruFlush. apply proc_bind, wp_get. cbn [next]. apply proc_bind.
  eapply proc_mono; [apply write_slots_spec; [done|]|].
  { intros i Hi. apply elem_of_seq in Hi. lia. }
  intros o s1 (Hinv1 & Hev1 & Hb1 & Hl1 & Ho1). destruct o as [fdata| | |]; cbn [next]; [|done..].
  apply proc_bind. eapply proc_mono; [apply sync_files_spec|].
  intros o s2 (Hss & Hf & Hn & Hl2 & r & -> & Hr). cbn [next].
  destruct (eqv_keeps s1 s2) as [Hinv2 Hev2]; [done|by rewrite Hss|by rewrite Hf|done|].
  assert (Hev : evolves s s2) by by transitivity s1.
  destruct r as [cause|].
  - destruct Hr as [?|(n & cause' & w & [= <-] & Hn' & Hc)]; [done|].
    eapply proc_mono; [apply (blamed_report_at s s2 cause w n); [|done]|].
    { pose proof (ev_ios _ _ Hev1). lia. }
    intros o s3 (-> & Hb & Ho). split_and!; [done..|congruence|]. by destruct o.
  - apply proc_ret. split_and!; [done..|congruence|]. intros p. unfold view.
    destruct (buffered (slots s2) p) as [b|] eqn:E; [|done].
    apply buffered_some in E as (i & c & Hi & Hc & <-). apply holds_page_spec in Hc as [<- Hst].
    assert (Hst' : page_status c = SLRU_PAGE_VALID) by by destruct (inv_status _ Hinv2 i c Hi).
    apply (inv_clean _ Hinv2 i); [done..|]. rewrite Hss in Hi. apply (Ho1 i); [left|done..].
    apply elem_of_seq. apply lookup_lt_Some in Hi. rewrite (ev_slots _ _ Hev1) in Hi. lia.
Qed.

(** ** Truncating *)

Section Truncate.
Context (cut : Z).

Definition emptied (c d : slot page) : Prop :=
  d = c ∨ (d = with_status SLRU_PAGE_EMPTY c ∧ page_status c = SLRU_PAGE_VALID ∧ page_dirty c = false).

Lemma emptied_keeps s s' :
  slru_inv s → Forall2 emptied (slots s) (slots s') → files s' = files s → ios s' = ios s →
  slru_inv s' ∧ evolves s s'.
Proof.
  intros Hinv Hss Hf Hn.
  assert (Hlk : ∀ i d, slots s' !! i = Some d → ∃ c, slots s !! i = Some c ∧ emptied c d).
  { intros i d Hi. destruct (Forall2_lookup_r _ _ _ _ _ Hss Hi) as (c & ? & ?). eauto. }
  assert (Hlk' : ∀ i d, slots s' !! i = Some d → page_status d ≠ SLRU_PAGE_EMPTY → slots s !! i = Some d).
  { intros i d Hi Hd. by destruct (Hlk i d Hi) as (c & Hc & [->|(-> & _)]). }
  assert (Hinv' : slru_inv s').
  { split.
    - rewrite <-(Forall2_length _ _ _ Hss). apply Hinv.
    - intros i d Hi. destruct (Hlk i d Hi) as (c & Hc & [->|(-> & _)]); [by apply (inv_status _ Hinv i)|by left].
    - intros i j c d p Hi Hj Hc Hd. apply holds_page_spec in Hc as Hc', Hd as Hd'.
      apply (inv_unique _ Hinv i j c d p); try done; apply Hlk'; tauto.
    - intros i d Hi Hst. rewrite Hf. apply (inv_clean _ Hinv i); [|done]. apply Hlk'; congruence.
    - intros i d Hi Hst. apply (inv_nonneg _ Hinv i); [|done]. apply Hlk'; congruence. }
  split; [done|]. apply evolves_ios_slots_view; [done|by rewrite Hn|by rewrite <-(Forall2_length _ _ _ Hss)|].
  intros q. unfold view. rewrite Hf. destruct (buffered (slots s') q) as [b|] eqn:Hb.
  - apply buffered_some in Hb as (i & d & Hi & Hd & <-). apply holds_page_spec in Hd as Hd'.
    rewrite (buffered_at s i d); [done..| |done]. apply Hlk'; tauto.
  - destruct (buffered (slots s) q) as [b|] eqn:Hb'; [|done].
    apply buffered_some in Hb' as (i & c & Hi & Hc & <-).
    destruct (Forall2_lookup_l _ _ _ _ _ Hss Hi) as (d & Hd & [->|(-> & Hst & Hdirty)]).
    + rewrite buffered_none in Hb. rewrite (Hb i c Hd) in Hc. done.
    + apply holds_page_spec in Hc as [<- _]. by apply (inv_clean _ Hinv i).
Qed.

Lemma empty_slots_spec ss i :
  (∀ c, c ∈ ss → page_status c = SLRU_PAGE_EMPTY ∨ page_status c = SLRU_PAGE_VALID) →
  let '(ss', r) := empty_slots cut ss i in
  Forall2 emptied ss ss' ∧
  match r with
  | None => ∀ c, c ∈ ss' → page_status c ≠ SLRU_PAGE_EMPTY → PagePrecedes (page_number c) cut = false
  | Some k => ∃ j c, k = (i + j)%nat ∧ ss' !! j = Some c ∧ page_status c = SLRU_PAGE_VALID ∧ page_dirty c = true
  end.
Proof.
  revert i. induction ss as [|c ss IH]; intros i Hst; simpl.
  { split; [done|]. intros c Hc. by apply elem_of_nil in Hc. }
  specialize (IH (S i) (λ x Hx, Hst x (list_elem_of_further _ _ _ Hx))).
  assert (Hnext : ∀ d, emptied c d → (page_status d ≠ SLRU_PAGE_EMPTY → PagePrecedes (page_number d) cut = false) →
    let '(ss', r) := (let '(ss, r) := empty_slots cut ss (S i) in (d :: ss, r)) in
    Forall2 emptied (c :: ss) ss' ∧
    match r with
    | None => ∀ c, c ∈ ss' → page_status c ≠ SLRU_PAGE_EMPTY → PagePrecedes (page_number c) cut = false
    | Some k => ∃ j c, k = (i + j)%nat ∧ ss' !! j = Some c ∧ page_status c = SLRU_PAGE_VALID ∧ page_dirty c = true
    end).
  { intros d Hd Hp. destruct (empty_slots cut ss (S i)) as [ss' [k|]]; destruct IH as [IH1 IH2]; (split; [by constructor|]).
    - destruct IH2 as (j & e & -> & He). exists (S j), e. split; [lia|done].
    - intros e [->|He]%elem_of_cons; auto. }
  destruct (bool_decide_reflect (page_status c = SLRU_PAGE_EMPTY)) as [He|He]; simpl.
  { apply Hnext; [by left|done]. }
  assert (Hv : page_status c = SLRU_PAGE_VALID) by (destruct (Hst c); [left|done..]).
  destruct (PagePrecedes (page_number c) cut) eqn:Hp; simpl.
  2: { apply Hnext; [by left|done]. }
  rewrite bool_decide_eq_true_2 by done. simpl. destruct (page_dirty c) eqn:Hd; simpl.
  - split; [constructor; [by left|]; clear; induction ss; constructor; [by left|done]|].
    exists 0%nat, c. split; [lia|done].
  - apply Hnext; [by right|done].
Qed.

Lemma dirty_slots_emptied ss ss' : Forall2 emptied ss ss' → dirty_slots ss = dirty_slots ss'.
Proof.
  unfold dirty_slots. induction 1 as [|c d ss ss' Hd _ IH]; [done|].
  rewrite !filter_cons. assert (page_dirty d = page_dirty c) as -> by by destruct Hd as [->|(-> & _)].
  case_decide; simpl; lia.
Qed.

Lemma truncate_slots_spec rounds s :
  slru_inv s → (dirty_slots (slots s) < rounds)%nat →
  wp (truncate_slots rounds cut)
    (λ o s', slru_inv s' ∧ evolves s s' ∧ blamed s o s' ∧ latest_page_number s' = latest_page_number s ∧
       match o with
       | Ret true => ∀ c, c ∈ slots s' → page_status c ≠ SLRU_PAGE_EMPTY → PagePrecedes (page_number c) cut = false
       | _ => True
       end) s.
Proof.
  revert s. induction rounds as [|rounds IH]; intros s Hinv Hr; [lia|]. simpl.
  apply proc_bind, wp_get. cbn [next]. destruct (PagePrecedes (latest_page_number s) cut).
  { apply proc_ret. done. }
  pose proof (empty_slots_spec (slots s) 0) as Hes. destruct (empty_slots cut (slots s) 0) as [ss r].
  destruct Hes as [Hss Hes]. { intros c [i Hi]%list_elem_of_lookup. by apply (inv_status _ Hinv i). }
  apply proc_bind, wp_modify. cbn [next]. set (s1 := set_slots ss s).
  destruct (emptied_keeps s s1 Hinv) as [Hinv1 Hev1]; [done..|].
  destruct r as [k|]; [|by apply proc_ret].
  destruct Hes as (j & c & -> & Hj & Hst & Hd). simpl.
  apply proc_bind, (wp_the_slot j c); [done|]. cbn [next]. rewrite bool_decide_eq_true_2 by done.
  apply proc_bind, proc_bind. eapply proc_mono; [by apply (SlruInternalWritePage_spec j c)|].
  intros o s2 (Hinv2 & Hev2 & Hb2 & _ & Hl2 & d & Hs2 & Ho).
  assert (Hev : evolves s s2) by by transitivity s1.
  destruct o as [?| | |]; cbn [next]; [|split_and!; try done; by apply (blamed_mono s s1 s2)..].
  apply proc_ret. cbn [next]. rewrite (Ho Hst) in Hs2. eapply proc_mono; [apply IH; [done|]|].
  { rewrite Hs2. rewrite (dirty_slots_emptied _ _ Hss) in Hr.
    rewrite (dirty_slots_clean ss j c (with_dirty false c)) in Hr by done. simpl. lia. }
  intros o s3 (Hinv3 & Hev3 & Hb3 & Hl3 & Ho3).
  split_and!; [done|by transitivity s2|eapply blamed_mono; [apply Hev|done]|by rewrite Hl3, Hl2|done].
Qed.

(** Some of the files of segments before the cutoff are removed. *)
Definition deletes s s' : Prop :=
  slots s' = slots s ∧ (ios s ≤ ios s')%nat ∧ latest_page_number s' = latest_page_number s ∧
  ∀ g, files s' !! g = files s !! g ∨ (files s' !! g = None ∧ PagePrecedes (g * SLRU_PAGES_PER_SEGMENT) cut = true).

Lemma delete_segments_spec segs s :
  wp (delete_segments cut segs) (λ o s', o = Ret tt ∧ deletes s s') s.
Proof.
  revert s. induction segs as [|g segs IH]; intros s; simpl; [apply proc_ret; split; [done|]; split_and!; auto|].
  assert (Hgo : ∀ s1, deletes s s1 → wp (delete_segments cut segs) (λ o s', o = Ret tt ∧ deletes s s') s1).
  { intros s1 (H1 & H2 & H3 & H4). eapply proc_mono; [apply IH|]. intros o s2 (-> & G1 & G2 & G3 & G4).
    split; [done|]. split_and!; [congruence|lia|congruence|]. intros h.
    destruct (G4 h) as [->|[-> Hp]]; [apply H4|by right]. }
  apply proc_bind. unfold SlruScanDirCbDeleteCutoff. destruct (PagePrecedes _ _) eqn:Hp.
  2: { apply proc_ret. cbn [next]. apply Hgo. split_and!; auto. }
  unfold SlruDeleteSegment. apply proc_bind, wp_ask. cbn [next]. destruct (io (ios s)).
  - apply wp_modify. cbn [next]. apply Hgo. split_and!; [done|simpl; lia|done|]. intros h. simpl.
    destruct (decide (h = g)) as [->|Hne]; [right; by rewrite lookup_delete_eq|left; by rewrite lookup_delete_ne].
  - apply proc_ret. cbn [next]. apply Hgo. split_and!; [done|simpl; lia|done|]. auto.
Qed.

(** The pages of whole segments before the cutoff may be lost, all others are kept. *)
Definition before_cut p : Prop := PagePrecedes (segment_start p) cut = true.

Record truncates s s' : Prop := mkTruncates {
  tr_slots : length (slots s') = length (slots s);
  tr_ios : (ios s ≤ ios s')%nat;
  tr_view p : 0 ≤ p → view s' p = view s p ∨ (view s p = None ∧ view s' p = Some zero_page) ∨
                      (before_cut p ∧ view s' p = None);
  tr_disk p : 0 ≤ p → is_Some (on_disk (files s) p) → is_Some (on_disk (files s') p) ∨ before_cut p;
  tr_source p b : 0 ≤ p → on_disk (files s') p = Some b →
    on_disk (files s) p = Some b ∨ view s p = Some b ∨ (on_disk (files s) p = None ∧ b = zero_page);
}.

Lemma evolves_truncates s s' : evolves s s' → truncates s s'.
Proof.
  intros Hev. split; try apply Hev.
  - intros p Hp. destruct (ev_view _ _ Hev p Hp); auto.
  - intros p Hp Hd. left. by apply (ev_disk _ _ Hev).
Qed.

Lemma segment_start_quot p : 0 ≤ p → segment_start p = p `quot` SLRU_PAGES_PER_SEGMENT * SLRU_PAGES_PER_SEGMENT.
Proof. unfold segment_start, SLRU_PAGES_PER_SEGMENT. intros Hp. Z.to_euclidean_division_equations. lia. Qed.

Lemma deletes_disk s s' p :
  0 ≤ p → deletes s s' →
  on_disk (files s') p = on_disk (files s) p ∨ (before_cut p ∧ on_disk (files s') p = None).
Proof.
  intros Hp (_ & _ & _ & Hf). unfold on_disk, before_cut. rewrite segment_start_quot by done.
  destruct (Hf (p `quot` SLRU_PAGES_PER_SEGMENT)) as [->|[-> ?]]; auto.
Qed.

Lemma deletes_truncates s s' :
  (∀ p, 0 ≤ p → before_cut p → PagePrecedes p cut = true) →
  (∀ c, c ∈ slots s → page_status c ≠ SLRU_PAGE_EMPTY → PagePrecedes (page_number c) cut = false) →
  slru_inv s → deletes s s' → slru_inv s' ∧ truncates s s'.
Proof.
  intros Hseg Hkeep Hinv Hdel. pose proof Hdel as (Hss & Hn & _ & _).
  assert (Hbuf : ∀ p b, buffered (slots s) p = Some b → 0 ≤ p ∧ ¬ before_cut p).
  { intros p b (i & c & Hi & Hc & _)%buffered_some. apply holds_page_spec in Hc as [<- Hst].
    assert (Hp : 0 ≤ page_number c) by (apply (inv_nonneg _ Hinv i); [done|by destruct (inv_status _ Hinv i c Hi)]).
    split; [done|]. intros Hb%Hseg; [|done]. rewrite Hkeep in Hb; [done| |done]. by apply list_elem_of_lookup_2 in Hi. }
  split.
  - split; rewrite ?Hss; try apply Hinv. intros i c Hi Hst Hd.
    destruct (Hbuf (page_number c) (page_buffer c)) as [Hp Hnb].
    { apply (buffered_at s i c); [done..|]. apply holds_page_spec. by rewrite Hst. }
    destruct (deletes_disk s s' (page_number c) Hp Hdel) as [->|[? _]]; [|done]. by apply (inv_clean _ Hinv i).
  - split; [by rewrite Hss|done|..].
    + intros p Hp. unfold view. rewrite Hss. destruct (buffered (slots s) p) as [b|] eqn:Hb; [by left|].
      destruct (deletes_disk s s' p Hp Hdel) as [->|[? ->]]; auto.
    + intros p Hp Hd. destruct (deletes_disk s s' p Hp Hdel) as [->|[? _]]; auto.
    + intros p b Hp Hb. left. destruct (deletes_disk s s' p Hp Hdel) as [<-|[_ ?]]; [done|congruence].
Qed.

Lemma truncates_trans s1 s2 s3 : evolves s1 s2 → truncates s2 s3 → truncates s1 s3.
Proof.
  intros H12 H23. split.
  - by rewrite (tr_slots _ _ H23), (ev_slots _ _ H12).
  - pose proof (tr_ios _ _ H23). pose proof (ev_ios _ _ H12). lia.
  - intros p Hp. destruct (tr_view _ _ H23 p Hp) as [E|[[E E']|[Hd E]]]; [rewrite E; destruct (ev_view _ _ H12 p Hp); auto| |auto].
    destruct (ev_view _ _ H12 p Hp) as [E1|[E1 E1']]; [|congruence]. right; left. split; congruence.
  - intros p Hp Hd. by apply (tr_disk _ _ H23), (ev_disk _ _ H12).
  - intros p b Hp Hb. destruct (tr_source _ _ H23 p b Hp Hb) as [Hd|[Hv|[Hn ->]]].
    + by apply (ev_source _ _ H12).
    + destruct (ev_view _ _ H12 p Hp) as [E|[E E']]; [rewrite E in Hv; auto|].
      rewrite E' in Hv. simplify_eq. right; right. split; [by apply view_none_disk|done].
    + right; right. split; [|done]. destruct (on_disk (files s1) p) eqn:E; [|done].
      destruct (ev_disk _ _ H12 p Hp) as [x Hx]; [by rewrite E|congruence].
Qed.
End Truncate.

Lemma SimpleLruTruncate_spec cutoffPage s :
  (∀ p, 0 ≤ p → before_cut (segment_start cutoffPage) p → PagePrecedes p (segment_start cutoffPage) = true) →
  slru_inv s →
  wp (SimpleLruTruncate cutoffPage)
    (λ o s', slru_inv s' ∧ truncates (segment_start cutoffPage) s s' ∧ blamed s o s' ∧
       latest_page_number s' = latest_page_number s) s.
Proof.
  intros Hseg Hinv. unfold SimpleLruTruncate. apply proc_bind, wp_get. cbn [next]. apply proc_bind.
  eapply proc_mono; [apply truncate_slots_spec; [done|]|].
  { pose proof (dirty_slots_length (slots s)). unfold select_rounds. lia. }
  intros o s1 (Hinv1 & Hev1 & Hb1 & Hl1 & Ho1). destruct o as [[]| | |]; cbn [next negb].
  - apply proc_bind, wp_get. cbn [next]. eapply proc_mono; [apply delete_segments_spec|].
    intros o s2 (-> & Hdel). destruct (deletes_truncates (segment_start cutoffPage) s1 s2 Hseg Ho1 Hinv1 Hdel) as [Hinv2 Htr].
    split_and!; [done|by eapply truncates_trans|done|]. destruct Hdel as (_ & _ & Hl & _). congruence.
  - apply proc_ret. split_and!; try done. by apply evolves_truncates.
  - split_and!; try done. by apply evolves_truncates.
  - done.
  - split_and!; try done. by apply evolves_truncates.
Qed.

Lemma init_inv n latest fs k :
  (2 ≤ n)%nat → slru_inv (SimpleLruInit n latest fs k) ∧ ∀ p, view (SimpleLruInit n latest fs k) p = on_disk fs p.
Proof.
  intros Hn. set (s := SimpleLruInit n latest fs k).
  assert (He : ∀ i c, slots s !! i = Some c → page_status c = SLRU_PAGE_EMPTY).
  { intros i c [-> _]%lookup_replicate. done. }
  split; [split|].
  - simpl. by rewrite length_replicate.
  - intros i c Hi. left. by apply (He i).
  - intros i j c d p Hi _ Hc. apply holds_page_spec in Hc as [_ Hc]. by rewrite (He i) in Hc.
  - intros i c Hi Hst. by rewrite (He i) in Hst.
  - intros i c Hi Hst. by rewrite (He i) in Hst.
  - intros p. unfold view. assert (buffered (slots s) p = None) as ->; [|done].
    apply buffered_none. intros i c Hi. unfold holds_page. rewrite (He i c Hi).
    rewrite bool_decide_eq_true_2 by done. apply andb_false_r.
Qed.
End Pages.

(** ** The theorem *)

(** C23: The buffers of a log are invisible.  The log starts with the pages of its files.  Reading a
    page gives a buffer with that page and keeps every page, whatever is evicted for it and whatever
    the operating system answers; it fails only for a request that failed or a page that does not
    exist.  A new page is zero and keeps the others.  A flush that returns has every page on disk.
    Truncation loses only pages of segments before its cutoff.  The server goes down only for a
    failed [fsync]; pages that were never written appear as zeroes where a segment is extended. *)
Theorem slru_page_store {page : Type} {ctl : SlruCtl page} (p cutoffPage : Z) (s : slru page) :
  slru_inv s → 0 ≤ p → InRecovery = false ∨ is_Some (view s p) →
  (∀ q, 0 ≤ q → before_cut (segment_start cutoffPage) q → PagePrecedes q (segment_start cutoffPage) = true) →
  wp (SimpleLruReadPage p true) (reads p s) s ∧
  wp (SimpleLruReadPage_ReadOnly p) (reads p s) s ∧
  wp (SimpleLruZeroPage p) (zeroes p s) s ∧
  wp (SimpleLruDoesPhysicalPageExist p)
    (λ o s', s' = bump s ∧ blamed s o s' ∧
       match o with Ret b => b = bool_decide (is_Some (on_disk (files s) p)) | _ => True end) s ∧
  wp SimpleLruFlush
    (λ o s', slru_inv s' ∧ evolves s s' ∧ blamed s o s' ∧ latest_page_number s' = latest_page_number s ∧
       match o with Ret _ => ∀ q, on_disk (files s') q = view s' q | _ => True end) s ∧
  wp (SimpleLruTruncate cutoffPage)
    (λ o s', slru_inv s' ∧ truncates (segment_start cutoffPage) s s' ∧ blamed s o s' ∧
       latest_page_number s' = latest_page_number s) s.
Proof.
  intros Hinv Hp Hrec Hseg. split_and!.
  - by apply SimpleLruReadPage_spec.
  - by apply SimpleLruReadPage_ReadOnly_spec.
  - by apply SimpleLruZeroPage_spec.
  - by apply SimpleLruDoesPhysicalPageExist_spec.
  - by apply SimpleLruFlush_spec.
  - by apply SimpleLruTruncate_spec.
Qed.

(** Two slots and one page on disk; pages are numbers. *)
Definition sample_ctl : SlruCtl Z :=
  mkSlruCtl Z 0 Z.ltb (λ _, IoDone) false true.

Definition sample_slru : slru Z := @SimpleLruInit Z sample_ctl 2 0 {[ 0 := [7; 8] ]} 0.

Lemma slru_page_store_witness :
  (∃ i c, (@SimpleLruReadPage Z sample_ctl 1 true sample_slru).1 = Ret i ∧
     slots (@SimpleLruReadPage Z sample_ctl 1 true sample_slru).2 !! i = Some c ∧ page_buffer c = 8) ∧
  view (@SimpleLruReadPage Z sample_ctl 1 true sample_slru).2 0 = Some 7.
Proof.
  destruct (@init_inv Z sample_ctl 2 0 {[ 0 := [7; 8] ]} 0) as [Hinv Hview]; [lia|].
  destruct (@slru_page_store Z sample_ctl 1 0 sample_slru) as [Hread _].
  - exact Hinv.
  - lia.
  - by left.
  - intros q Hq Hb. exfalso. revert Hb. unfold before_cut, segment_start, SLRU_PAGES_PER_SEGMENT.
    cbn [PagePrecedes sample_ctl]. rewrite Z.ltb_lt. Z.to_euclidean_division_equations. lia.
  - assert (E : (@SimpleLruReadPage Z sample_ctl 1 true sample_slru).1 = Ret 0%nat) by (vm_compute; reflexivity).
    unfold wp in Hread. rewrite E in Hread. destruct Hread as (_ & Hev & _ & c & Hc & _ & _ & Hv). split.
    + exists 0%nat, c. split_and!; [done..|].
      destruct (ev_view _ _ Hev 1) as [E1|[E1 _]]; [lia| |].
      * rewrite Hview in E1. rewrite Hv in E1. vm_compute in E1. by injection E1.
      * rewrite Hview in E1. vm_compute in E1. discriminate.
    + destruct (ev_view _ _ Hev 0) as [E0|[E0 _]]; [lia| |].
      * rewrite E0, Hview. reflexivity.
      * rewrite Hview in E0. vm_compute in E0. discriminate.
Defined.
