(* ===== verification/DistribLog.v ===== *)
(** * The distributed log ([access/transam/distributedlog.c], [access/distributedlog.h])

    A segment records for each local transaction that took part in a distributed one the time stamp
    and the number of the distributed transaction.  The log is an array of entries indexed by the
    local transaction id, cut into pages that are kept by [Slru]; an entry that was never set is
    zero.  Pages are created when ids are assigned, entries are set at commit and again when the
    write-ahead log is replayed, and segments of old pages are removed.

    Locks are left out: a routine runs while it holds them.  [BLCKSZ] is chosen when the server is
    configured.  A transaction id is an unsigned 32-bit number and wraps around. *)
From S2P Require Import Prelude Proc DistributedSnapshot Slru.

Definition NUM_DISTRIBUTEDLOG_BUFFERS : nat := 8.

(** The size of a page, the answers of the operating system, whether the write-ahead log is being
    replayed, whether the process belongs to the dispatcher; [xlog_down]: the server goes down at
    the n-th record, before or after it is written. *)
Class DlogEnv := mkDlogEnv {
  BLCKSZ : Z;
  dl_io : nat → io_answer;
  dl_InRecovery : bool;
  dl_data_sync_retry : bool;
  IS_QUERY_DISPATCHER : bool;
  xlog_down : nat → option bool;
}.

(** The records of the write-ahead log that concern the distributed log; a commit record has the
    local id, the ids of subtransactions, and the distributed transaction. *)
Inductive dlog_record :=
  | DISTRIBUTEDLOG_ZEROPAGE (page : Z)
  | DISTRIBUTEDLOG_TRUNCATE (page : Z)
  | XLOG_XACT_COMMIT (xid : Z) (nsubxacts : nat) (sub_xids : list Z) (distribTimeStamp distribXid : Z).

Definition zero_entry : DistributedLogEntry := mkLogEntry 0 0.

#[global] Instance DistributedLogEntry_eq_dec : EqDecision DistributedLogEntry.
Proof. solve_decision. Defined.

Notation dlpage := (list DistributedLogEntry).

Section DistributedLog.
Context `{DlogEnv}.

(** ** Transaction ids and pages *)

Definition ENTRIES_PER_PAGE : Z := BLCKSZ / 8.

Definition TransactionIdToPage (localXid : Z) : Z := localXid / ENTRIES_PER_PAGE.
Definition TransactionIdToEntry (localXid : Z) : Z := localXid mod ENTRIES_PER_PAGE.
Definition TransactionIdToSegment (localXid : Z) : Z := localXid / (ENTRIES_PER_PAGE * SLRU_PAGES_PER_SEGMENT).

Definition TransactionIdAdvance (xid : Z) : Z :=
  let xid := u32 (xid + 1) in
  if xid <? FirstNormalTransactionId then FirstNormalTransactionId else xid.

Definition AdvanceTransactionIdToNextPage (xid : Z) : Z :=
  let xid := u32 (xid + ENTRIES_PER_PAGE) in
  let xid := u32 (xid - xid mod ENTRIES_PER_PAGE) in
  Z.max xid FirstNormalTransactionId.

Definition DistributedLog_PagePrecedes (page1 page2 : Z) : bool :=
  let xid1 := u32 (u32 (page1 * ENTRIES_PER_PAGE) + FirstNormalTransactionId) in
  let xid2 := u32 (u32 (page2 * ENTRIES_PER_PAGE) + FirstNormalTransactionId) in
  TransactionIdPrecedes xid1 xid2.

#[global] Instance DistributedLogCtl : SlruCtl dlpage :=
  mkSlruCtl dlpage (replicate (Z.to_nat ENTRIES_PER_PAGE) zero_entry) DistributedLog_PagePrecedes
    dl_io dl_InRecovery dl_data_sync_retry.

(** ** State *)

Record dlog := mkDlog {
  dl_slru : slru dlpage;
  dl_oldestXmin : Z;
  dl_xlog : list dlog_record;
  dl_inserts : nat;
}.

Definition set_slru (s : slru dlpage) (d : dlog) : dlog :=
  mkDlog s (dl_oldestXmin d) (dl_xlog d) (dl_inserts d).
Definition set_oldestXmin (x : Z) (d : dlog) : dlog := mkDlog (dl_slru d) x (dl_xlog d) (dl_inserts d).

Definition on_slru {A} (m : proc (slru dlpage) A) : proc dlog A := λ d,
  let '(o, s) := m (dl_slru d) in (o, set_slru s d).

Definition XLogInsert (r : dlog_record) : proc dlog unit :=
  d <- get;;
  let keep b := mkDlog (dl_slru d) (dl_oldestXmin d)
                  (if b : bool then dl_xlog d ++ [r] else dl_xlog d) (S (dl_inserts d)) in
  match xlog_down (dl_inserts d) with
  | None => modify (λ _, keep true)
  | Some written => modify (λ _, keep written);; raise PANIC
  end.

(** The shared memory of the log, at the start of the server. *)
Definition DistributedLog_ShmemInit (fs : gmap Z (list dlpage)) (n : nat) (xlog : list dlog_record)
    (inserts : nat) : dlog :=
  mkDlog (SimpleLruInit NUM_DISTRIBUTEDLOG_BUFFERS 0 fs n) InvalidTransactionId xlog inserts.

(** ** Entries *)

Definition get_entry (slotno : nat) (entryno : Z) : proc dlog DistributedLogEntry :=
  c <- on_slru (the_slot slotno);;
  match page_buffer c !! Z.to_nat entryno with Some e => ret e | None => raise PANIC end.

Definition put_entry (slotno : nat) (entryno : Z) (e : DistributedLogEntry) : proc dlog unit :=
  on_slru (modify (set_slot slotno (λ c, with_dirty true
    (with_buffer (<[Z.to_nat entryno := e]> (page_buffer c)) c)))).

Definition DistributedLog_WriteZeroPageXlogRec (page : Z) : proc dlog unit :=
  XLogInsert (DISTRIBUTEDLOG_ZEROPAGE page).
Definition DistributedLog_WriteTruncateXlogRec (page : Z) : proc dlog unit :=
  XLogInsert (DISTRIBUTEDLOG_TRUNCATE page).

Definition DistributedLog_ZeroPage (page : Z) (writeXlog : bool) : proc dlog nat :=
  slotno <- on_slru (SimpleLruZeroPage page);;
  (if writeXlog then DistributedLog_WriteZeroPageXlogRec page else ret tt);;
  ret slotno.

(** ** Recording commits *)

Fixpoint set_entries (slotno : nat) (xids : list Z) (distribTimeStamp distribXid : Z) : proc dlog unit :=
  match xids with
  | [] => ret tt
  | xid :: xids =>
      e <- get_entry slotno (TransactionIdToEntry xid);;
      (if negb (log_timestamp e =? 0) || negb (log_distribXid e =? 0) then
         if negb (log_timestamp e =? distribTimeStamp) then raise ERROR
         else if negb (log_distribXid e =? distribXid) then raise ERROR
         else ret tt
       else put_entry slotno (TransactionIdToEntry xid) (mkLogEntry distribTimeStamp distribXid));;
      set_entries slotno xids distribTimeStamp distribXid
  end.

(** [localXid] has at least one id; reading another first one ends the server. *)
Definition DistributedLog_SetCommittedWithinAPage (localXid : list Z) (distribTimeStamp distribXid : Z)
    (isRedo : bool) : proc dlog unit :=
  match localXid with
  | [] => raise PANIC
  | first :: _ =>
      let page := TransactionIdToPage first in
      (if isRedo then
         found <- on_slru (SimpleLruDoesPhysicalPageExist page);;
         if negb found then DistributedLog_ZeroPage page false;; ret tt else ret tt
       else ret tt);;
      slotno <- on_slru (SimpleLruReadPage page true);;
      set_entries slotno localXid distribTimeStamp distribXid
  end.

(** The inner loop: the index of the first id on another page.  It reads the array before it
    compares the index with the number of ids. *)
Fixpoint skip_page (fuel : nat) (nsubxids : nat) (subxids : list Z) (pageno : Z) (i : nat) : proc dlog nat :=
  match fuel with
  | O => raise PANIC
  | S fuel =>
      match subxids !! i with
      | None => raise PANIC
      | Some xid =>
          if (TransactionIdToPage xid =? pageno) && (i <? nsubxids)%nat
          then skip_page fuel nsubxids subxids pageno (S i) else ret i
      end
  end.

(** [fuel] bounds the turns of the loop, one for each id. *)
Fixpoint set_by_pages (fuel : nat) (nsubxids : nat) (subxids : list Z) (distribTimeStamp distribXid : Z)
    (isRedo : bool) (i : nat) : proc dlog unit :=
  if (nsubxids <=? i)%nat then ret tt
  else
    match fuel, subxids !! i with
    | S fuel, Some xid =>
        j <- skip_page (S (S nsubxids)) nsubxids subxids (TransactionIdToPage xid) i;;
        DistributedLog_SetCommittedWithinAPage (take (j - i) (drop i subxids)) distribTimeStamp distribXid isRedo;;
        set_by_pages fuel nsubxids subxids distribTimeStamp distribXid isRedo j
    | _, _ => raise PANIC
    end.

Definition DistributedLog_SetCommittedByPages (nsubxids : nat) (subxids : list Z)
    (distribTimeStamp distribXid : Z) (isRedo : bool) : proc dlog unit :=
  set_by_pages nsubxids nsubxids subxids distribTimeStamp distribXid isRedo 0.

Definition DistributedLog_SetCommittedTree (xid : Z) (nxids : nat) (xids : list Z)
    (distribTimeStamp distribXid : Z) (isRedo : bool) : proc dlog unit :=
  if negb IS_QUERY_DISPATCHER then
    DistributedLog_SetCommittedWithinAPage [xid] distribTimeStamp distribXid isRedo;;
    DistributedLog_SetCommittedByPages nxids xids distribTimeStamp distribXid isRedo
  else ret tt.

(** ** Looking up *)

(** [None] is the result [false]. *)
Definition DistributedLog_CommittedCheck (localXid : Z) : proc dlog (option (Z * Z)) :=
  d <- get;;
  if dl_oldestXmin d =? InvalidTransactionId then raise PANIC
  else if TransactionIdPrecedes localXid (dl_oldestXmin d) then ret None
  else
    slotno <- on_slru (SimpleLruReadPage (TransactionIdToPage localXid) true);;
    e <- get_entry slotno (TransactionIdToEntry localXid);;
    if negb (log_timestamp e =? 0) && negb (log_distribXid e =? 0)
    then ret (Some (log_timestamp e, log_distribXid e))
    else if (log_timestamp e =? 0) && (log_distribXid e =? 0) then ret None
    else raise ERROR.

(** The entries of a page from [xid] down, [n] of them: the first that is set. *)
Fixpoint scan_down (slotno : nat) (n : nat) (xid : Z) : proc dlog (option (Z * DistributedLogEntry)) :=
  match n with
  | O => ret None
  | S n =>
      e <- get_entry slotno (TransactionIdToEntry xid);;
      if negb (log_timestamp e =? 0) && negb (log_distribXid e =? 0) then ret (Some (xid, e))
      else scan_down slotno n (xid - 1)
  end.

(** [rounds] bounds the number of pages. *)
Fixpoint scan_pages (rounds : nat) (highXid : Z) : proc dlog (option (Z * DistributedLogEntry)) :=
  match rounds with
  | O => raise PANIC
  | S rounds =>
      let pageno := TransactionIdToPage highXid in
      let lowXid := if u32 (pageno * ENTRIES_PER_PAGE) =? InvalidTransactionId then FirstNormalTransactionId
                    else u32 (pageno * ENTRIES_PER_PAGE) in
      found <- on_slru (SimpleLruDoesPhysicalPageExist pageno);;
      if negb found then ret None
      else
        slotno <- on_slru (SimpleLruReadPage pageno true);;
        r <- scan_down slotno (Z.to_nat (highXid - lowXid + 1)) highXid;;
        match r with
        | Some r => ret (Some r)
        | None => if lowXid =? FirstNormalTransactionId then ret None else scan_pages rounds (lowXid - 1)
        end
  end.

(** The new value of [*indexXid], and the entry if one is found. *)
Definition DistributedLog_ScanForPrevCommitted (rounds : nat) (indexXid : Z) :
    proc dlog (Z * option DistributedLogEntry) :=
  if indexXid =? InvalidTransactionId then ret (indexXid, None)
  else
    let highXid := u32 (indexXid - 1) in
    if highXid <? FirstNormalTransactionId then ret (indexXid, None)
    else
      r <- scan_pages rounds highXid;;
      match r with
      | Some (xid, e) => ret (xid, Some e)
      | None => ret (InvalidTransactionId, None)
      end.

(** ** The oldest id of interest *)

Fixpoint init_oldest (rounds : nat) (oldestXmin latestXid : Z) : proc dlog Z :=
  match rounds with
  | O => raise PANIC
  | S rounds =>
      found <- on_slru (SimpleLruDoesPhysicalPageExist (TransactionIdToPage oldestXmin));;
      if found : bool then ret oldestXmin
      else
        let xid := AdvanceTransactionIdToNextPage oldestXmin in
        if TransactionIdFollows xid latestXid then ret latestXid
        else init_oldest rounds xid latestXid
  end.

(** [oldestXid] and [latestCompletedXid] of [ShmemVariableCache]; [rounds] bounds the pages. *)
Definition DistributedLog_InitOldestXmin (rounds : nat) (oldestXid latestCompletedXid : Z) : proc dlog unit :=
  x <- init_oldest rounds oldestXid latestCompletedXid;;
  modify (set_oldestXmin x).

Definition DistributedLog_Truncate (oldestXmin : Z) : proc dlog unit :=
  let cutoffPage := TransactionIdToPage oldestXmin in
  d <- get;;
  if negb (scan_for_presence cutoffPage (dl_slru d)) then ret tt
  else
    DistributedLog_WriteTruncateXlogRec cutoffPage;;
    on_slru (SimpleLruTruncate cutoffPage).

(** The page in use, if any, and its slot; the first id that has to be kept. *)
Fixpoint advance_loop (rounds : nat) (oldestLocalXmin distribTransactionTimeStamp xminAllDistributedSnapshots : Z)
    (cur : option (Z * nat)) (oldestXmin : Z) : proc dlog Z :=
  if negb (TransactionIdPrecedes oldestXmin oldestLocalXmin) then ret oldestXmin
  else
    match rounds with
    | O => raise PANIC
    | S rounds =>
        let page := TransactionIdToPage oldestXmin in
        slotno <- match cur with
                  | Some (currPage, slotno) =>
                      if page =? currPage then ret slotno else on_slru (SimpleLruReadPage_ReadOnly page)
                  | None => on_slru (SimpleLruReadPage_ReadOnly page)
                  end;;
        e <- get_entry slotno (TransactionIdToEntry oldestXmin);;
        if (log_timestamp e =? distribTransactionTimeStamp)
           && negb (TransactionIdPrecedes (log_distribXid e) xminAllDistributedSnapshots)
        then ret oldestXmin
        else advance_loop rounds oldestLocalXmin distribTransactionTimeStamp xminAllDistributedSnapshots
               (Some (page, slotno)) (TransactionIdAdvance oldestXmin)
    end.

(** [rounds] bounds the ids that are passed. *)
Definition DistributedLog_AdvanceOldestXmin (rounds : nat) (oldestLocalXmin distribTransactionTimeStamp
    xminAllDistributedSnapshots : Z) : proc dlog Z :=
  d <- get;;
  let oldOldestXmin := dl_oldestXmin d in
  oldestXmin <- advance_loop rounds oldestLocalXmin distribTransactionTimeStamp xminAllDistributedSnapshots
                  None oldOldestXmin;;
  modify (set_oldestXmin oldestXmin);;
  (if TransactionIdToSegment oldOldestXmin <? TransactionIdToSegment oldestXmin
   then DistributedLog_Truncate oldestXmin else ret tt);;
  ret oldestXmin.

Definition DistributedLog_GetOldestXmin (oldestLocalXmin : Z) : proc dlog Z :=
  d <- get;;
  let result := dl_oldestXmin d in
  if negb (TransactionIdIsValid result) || TransactionIdFollows result oldestLocalXmin
  then ret oldestLocalXmin else ret result.

(** ** Start, extension, checkpoint and replay *)

Definition DistributedLog_BootStrap : proc dlog unit :=
  if IS_QUERY_DISPATCHER then ret tt
  else
    slotno <- DistributedLog_ZeroPage 0 false;;
    on_slru (SimpleLruWritePage slotno).

(** The pages from [currentPage] to [endPage], around the end of the ids. *)
Fixpoint zero_pages (rounds : nat) (currentPage endPage : Z) : proc dlog unit :=
  match rounds with
  | O => raise PANIC
  | S rounds =>
      let currentPage := if TransactionIdToPage MaxTransactionId <? currentPage then 0 else currentPage in
      DistributedLog_ZeroPage currentPage false;;
      if currentPage =? endPage then ret tt else zero_pages rounds (currentPage + 1) endPage
  end.

(** The rest of a page is set to zero. *)
Definition zero_rest (slotno : nat) (entryno : Z) : proc dlog unit :=
  on_slru (modify (set_slot slotno (λ c, with_dirty true
    (with_buffer (take (Z.to_nat entryno) (page_buffer c) ++
                  replicate (Z.to_nat (ENTRIES_PER_PAGE - entryno)) zero_entry) c)))).

(** [converted]: [IsBinaryUpgrade || ConvertMasterDataDirToSegment]. *)
Definition DistributedLog_Startup (converted : bool) (rounds : nat) (oldestXid latestCompletedXid : Z)
    (oldestActiveXid nextXid : Z) : proc dlog unit :=
  if IS_QUERY_DISPATCHER then ret tt
  else
    let startPage := TransactionIdToPage oldestActiveXid in
    let endPage := TransactionIdToPage nextXid in
    on_slru (modify (set_latest_page_number endPage));;
    (if converted then
       on_slru (SimpleLruTruncateWithLock startPage);;
       zero_pages rounds startPage endPage
     else ret tt);;
    (if negb (TransactionIdToEntry nextXid =? 0) then
       slotno <- on_slru (SimpleLruReadPage endPage true);;
       zero_rest slotno (TransactionIdToEntry nextXid)
     else ret tt);;
    DistributedLog_InitOldestXmin rounds oldestXid latestCompletedXid.

Definition DistributedLog_Shutdown : proc dlog unit :=
  if IS_QUERY_DISPATCHER then ret tt else on_slru SimpleLruFlush.

Definition DistributedLog_CheckPoint : proc dlog unit :=
  if IS_QUERY_DISPATCHER then ret tt else on_slru SimpleLruFlush.

Definition DistributedLog_Extend (newestXact : Z) : proc dlog unit :=
  if IS_QUERY_DISPATCHER then ret tt
  else if negb (TransactionIdToEntry newestXact =? 0) && negb (newestXact =? FirstNormalTransactionId) then ret tt
  else DistributedLog_ZeroPage (TransactionIdToPage newestXact) true;; ret tt.

(** A commit record is replayed by [xact_redo_commit_internal]. *)
Definition DistributedLog_redo (r : dlog_record) : proc dlog unit :=
  match r with
  | DISTRIBUTEDLOG_ZEROPAGE page =>
      slotno <- DistributedLog_ZeroPage page false;;
      on_slru (SimpleLruWritePage slotno)
  | DISTRIBUTEDLOG_TRUNCATE page =>
      on_slru (modify (set_latest_page_number page));;
      on_slru (SimpleLruTruncate page)
  | XLOG_XACT_COMMIT xid nsubxacts sub_xids distribTimeStamp distribXid =>
      if negb (distribXid =? 0) && negb (distribTimeStamp =? 0)
      then DistributedLog_SetCommittedTree xid nsubxacts sub_xids distribTimeStamp distribXid true
      else ret tt
  end.
End DistributedLog.
