(* ===== verification/DistribLogFacts.v ===== *)
(** * The distributed log: contents

    What the log holds for each local id, in its buffers and on disk, and what each routine makes of
    it: which entries may be set, which pages may be lost, and which entries are on disk for good. *)
From S2P Require Import Prelude Proc DistributedSnapshot Slru SlruFacts SlruStore DistribLog.

Class BlockSize `{DlogEnv} : Prop := block_size : ∃ k, 10 ≤ k ≤ 15 ∧ BLCKSZ = 2 ^ k.

Definition xid_ok (x : Z) : Prop := 0 ≤ x < 2 ^ 32.

Section Contents.
Context {env : DlogEnv} {blk : BlockSize}.
Implicit Types (s : slru dlpage) (d : dlog) (p x : Z) (e : DistributedLogEntry).

(** ** Ids and pages *)

Lemma entries_per_page : ∃ j, 7 ≤ j ≤ 12 ∧ ENTRIES_PER_PAGE = 2 ^ j.
Proof.
  destruct block_size as (k & Hk & E). exists (k - 3). split; [lia|]. unfold ENTRIES_PER_PAGE. rewrite E.
  change 8 with (2 ^ 3). rewrite <-Z.pow_sub_r by lia. done.
Qed.

Lemma entries_pos : 128 ≤ ENTRIES_PER_PAGE.
Proof.
  destruct entries_per_page as (j & Hj & ->). change 128 with (2 ^ 7). apply Z.pow_le_mono_r; lia.
Qed.

Lemma page_nonneg x : 0 ≤ x → 0 ≤ TransactionIdToPage x.
Proof. intros Hx. pose proof entries_pos. apply Z.div_pos; lia. Qed.

Lemma entry_range x : 0 ≤ TransactionIdToEntry x < ENTRIES_PER_PAGE.
Proof. pose proof entries_pos. apply Z.mod_pos_bound. lia. Qed.

Lemma page_entry x : x = TransactionIdToPage x * ENTRIES_PER_PAGE + TransactionIdToEntry x.
Proof.
  pose proof entries_pos. unfold TransactionIdToPage, TransactionIdToEntry.
  pose proof (Z.div_mod x ENTRIES_PER_PAGE). lia.
Qed.

Lemma same_entry x y :
  TransactionIdToPage x = TransactionIdToPage y →
  Z.to_nat (TransactionIdToEntry x) = Z.to_nat (TransactionIdToEntry y) → x = y.
Proof.
  intros Hp He. rewrite (page_entry x), (page_entry y), Hp.
  pose proof (entry_range x). pose proof (entry_range y). lia.
Qed.

(** ** Contents *)

Definition entry_of (b : option dlpage) x : DistributedLogEntry :=
  default zero_entry (b ≫= λ b, b !! Z.to_nat (TransactionIdToEntry x)).

Definition contents s x : DistributedLogEntry := entry_of (view s (TransactionIdToPage x)) x.
Definition disk_contents s x : DistributedLogEntry := entry_of (on_disk (files s) (TransactionIdToPage x)) x.

(** The entry is on disk, and will not be changed by a buffer. *)
Definition settled s x e : Prop := disk_contents s x = e ∧ contents s x = e.

(** Every entry of the page [p] is zero or has the property [P]. *)
Definition page_good (P : Z → DistributedLogEntry → Prop) p (b : dlpage) : Prop :=
  length b = Z.to_nat ENTRIES_PER_PAGE ∧
  ∀ x, 0 ≤ x → TransactionIdToPage x = p → entry_of (Some b) x = zero_entry ∨ P x (entry_of (Some b) x).

Record dl_ok (P : Z → DistributedLogEntry → Prop) s : Prop := mkDlOk {
  ok_inv : slru_inv s;
  ok_view p b : 0 ≤ p → view s p = Some b → page_good P p b;
  ok_disk p b : 0 ≤ p → on_disk (files s) p = Some b → page_good P p b;
}.

Lemma zero_page_entry x : entry_of (Some zero_page) x = zero_entry.
Proof.
  unfold entry_of, zero_page, DistributedLogCtl. cbn [mbind option_bind].
  rewrite lookup_replicate_2; [done|]. pose proof (entry_range x). lia.
Qed.

Lemma zero_page_good P p : page_good P p zero_page.
Proof. split; [apply length_replicate|]. intros x _ _. left. apply zero_page_entry. Qed.

Lemma page_good_mono (P Q : Z → DistributedLogEntry → Prop) p b :
  (∀ x e, P x e → Q x e) → page_good P p b → page_good Q p b.
Proof. intros HPQ [Hl Hb]. split; [done|]. intros x Hx Hp. destruct (Hb x Hx Hp); auto. Qed.

Lemma dl_ok_mono (P Q : Z → DistributedLogEntry → Prop) s : (∀ x e, P x e → Q x e) → dl_ok P s → dl_ok Q s.
Proof. intros HPQ [H1 H2 H3]. split; [done|..]; intros p b Hp Hb; eapply page_good_mono; eauto. Qed.

Lemma dl_ok_contents P s x : dl_ok P s → 0 ≤ x → contents s x = zero_entry ∨ P x (contents s x).
Proof.
  intros Hok Hx. unfold contents. destruct (view s (TransactionIdToPage x)) as [b|] eqn:E; [|by left].
  by apply (ok_view _ _ Hok _ b (page_nonneg x Hx) E).
Qed.

(** ** What a routine may do

    Pages in [D] may be lost, entries in [S] may be set. *)
Record steps (D : Z → Prop) (S : Z → DistributedLogEntry → Prop) s s' : Prop := mkSteps {
  st_ios : (ios s ≤ ios s')%nat;
  st_exists p : 0 ≤ p → ¬ D p → is_Some (view s p) → is_Some (view s' p);
  st_disk p : 0 ≤ p → ¬ D p → is_Some (on_disk (files s) p) → is_Some (on_disk (files s') p);
  st_contents x : 0 ≤ x → ¬ D (TransactionIdToPage x) →
    contents s' x = contents s x ∨ (contents s x = zero_entry ∧ S x (contents s' x));
  st_settled x e : 0 ≤ x → ¬ D (TransactionIdToPage x) → e ≠ zero_entry → settled s x e → settled s' x e;
}.

Definition no_page : Z → Prop := λ _, False.
Definition no_entry : Z → DistributedLogEntry → Prop := λ _ _, False.

Lemma steps_refl D S s : steps D S s s.
Proof. split; auto. Qed.

Lemma steps_trans D S s1 s2 s3 : steps D S s1 s2 → steps D S s2 s3 → steps D S s1 s3.
Proof.
  intros H12 H23. split.
  - pose proof (st_ios _ _ _ _ H12). pose proof (st_ios _ _ _ _ H23). lia.
  - intros p Hp HD Hv. by apply (st_exists _ _ _ _ H23), (st_exists _ _ _ _ H12).
  - intros p Hp HD Hv. by apply (st_disk _ _ _ _ H23), (st_disk _ _ _ _ H12).
  - intros x Hx HD. destruct (st_contents _ _ _ _ H12 x Hx HD) as [E1|[E1 S1]],
      (st_contents _ _ _ _ H23 x Hx HD) as [E2|[E2 S2]]; [left; congruence|right; split; congruence|right..].
    + by rewrite E2.
    + done.
  - intros x e Hx HD He Hs. by apply (st_settled _ _ _ _ H23), (st_settled _ _ _ _ H12).
Qed.

Lemma steps_mono (D D' : Z → Prop) (S S' : Z → DistributedLogEntry → Prop) s s' :
  (∀ p, D p → D' p) → (∀ x e, S x e → S' x e) → steps D S s s' → steps D' S' s s'.
Proof.
  intros HD HS Hst. split; [apply Hst|..].
  - intros p Hp Hn. apply (st_exists _ _ _ _ Hst); auto.
  - intros p Hp Hn. apply (st_disk _ _ _ _ Hst); auto.
  - intros x Hx Hn. destruct (st_contents _ _ _ _ Hst x) as [?|[? ?]]; auto.
  - intros x e Hx Hn. apply (st_settled _ _ _ _ Hst); auto.
Qed.

(** From what the pages do to what the entries do. *)
Lemma entry_same b b' x : b' = b ∨ (b = None ∧ b' = Some zero_page) → entry_of b' x = entry_of b x.
Proof. intros [->|[-> ->]]; [done|]. by rewrite zero_page_entry. Qed.

(** An entry on disk stays: what is written to its page comes from the page itself. *)
Lemma disk_entry_kept s s' x e :
  e ≠ zero_entry → settled s x e →
  (∀ b, on_disk (files s') (TransactionIdToPage x) = Some b →
     on_disk (files s) (TransactionIdToPage x) = Some b ∨ view s (TransactionIdToPage x) = Some b ∨
     (on_disk (files s) (TransactionIdToPage x) = None ∧ b = zero_page)) →
  (is_Some (on_disk (files s) (TransactionIdToPage x)) → is_Some (on_disk (files s') (TransactionIdToPage x))) →
  disk_contents s' x = e.
Proof.
  unfold settled, disk_contents, contents. intros He [Hd Hv] Hsrc Hex.
  destruct (on_disk (files s') (TransactionIdToPage x)) as [b|].
  - destruct (Hsrc b eq_refl) as [E|[E|[E ->]]]; [by rewrite <-E|by rewrite <-E|].
    rewrite E in Hd. unfold entry_of in Hd. simpl in Hd. congruence.
  - destruct (on_disk (files s) (TransactionIdToPage x)) as [b|]; [|done].
    destruct Hex as [? ?]; [eauto|done].
Qed.

Lemma evolves_steps P D S s s' : dl_ok P s → slru_inv s' → evolves s s' → dl_ok P s' ∧ steps D S s s'.
Proof.
  intros Hok Hinv Hev.
  assert (Hc : ∀ x, 0 ≤ x → contents s' x = contents s x).
  { intros x Hx. apply entry_same. by apply (ev_view _ _ Hev), page_nonneg. }
  split; split.
  - done.
  - intros p b Hp Hb. destruct (ev_view _ _ Hev p Hp) as [E|[_ E]]; rewrite E in Hb;
      [by apply (ok_view _ _ Hok)|simplify_eq; apply zero_page_good].
  - intros p b Hp Hb. destruct (ev_source _ _ Hev p b Hp Hb) as [E|[E|[_ ->]]];
      [by apply (ok_disk _ _ Hok)|by apply (ok_view _ _ Hok)|apply zero_page_good].
  - apply Hev.
  - intros p Hp _ [b Hb]. destruct (ev_view _ _ Hev p Hp) as [->|[_ ->]]; eauto.
  - intros p Hp _. by apply Hev.
  - intros x Hx _. left. by apply Hc.
  - intros x e Hx _ He Hs. split; [|rewrite Hc by done; apply Hs]. pose proof (page_nonneg x Hx).
    apply (disk_entry_kept s); [done..|intros b; by apply Hev|by apply Hev].
Qed.

Lemma truncates_steps P S cut s s' :
  dl_ok P s → slru_inv s' → truncates cut s s' → dl_ok P s' ∧ steps (before_cut cut) S s s'.
Proof.
  intros Hok Hinv Htr.
  assert (Hc : ∀ x, 0 ≤ x → ¬ before_cut cut (TransactionIdToPage x) → contents s' x = contents s x).
  { intros x Hx Hn. apply entry_same. destruct (tr_view _ _ _ Htr (TransactionIdToPage x)) as [?|[?|[? _]]];
      [by apply page_nonneg|auto..|done]. }
  split; split.
  - done.
  - intros p b Hp Hb. destruct (tr_view _ _ _ Htr p Hp) as [E|[[_ E]|[_ E]]]; rewrite E in Hb;
      [by apply (ok_view _ _ Hok)|simplify_eq; apply zero_page_good|done].
  - intros p b Hp Hb. destruct (tr_source _ _ _ Htr p b Hp Hb) as [E|[E|[_ ->]]];
      [by apply (ok_disk _ _ Hok)|by apply (ok_view _ _ Hok)|apply zero_page_good].
  - apply Htr.
  - intros p Hp Hn [b Hb]. destruct (tr_view _ _ _ Htr p Hp) as [->|[[_ ->]|[? _]]]; eauto. done.
  - intros p Hp Hn Hd. by destruct (tr_disk _ _ _ Htr p Hp Hd).
  - intros x Hx Hn. left. by apply Hc.
  - intros x e Hx Hn He Hs. split; [|rewrite Hc by done; apply Hs]. pose proof (page_nonneg x Hx).
    apply (disk_entry_kept s); [done..|intros b; by apply Htr|].
    intros Hd. by destruct (tr_disk _ _ _ Htr (TransactionIdToPage x)).
Qed.

(** A page is replaced: its entries may change, the other pages are kept. *)
Lemma puts_steps P S p b s s' :
  dl_ok P s → slru_inv s' → 0 ≤ p → page_good P p b → puts p b s s' →
  dl_ok P s' ∧ steps (λ q, q = p) S s s' ∧ view s' p = Some b ∧
  (∀ q, 0 ≤ q → is_Some (on_disk (files s) q) → is_Some (on_disk (files s') q)).
Proof.
  intros Hok Hinv Hp Hb (m & Hev & Hf & Hn & Hl & Hvp & Hv).
  assert (Hd : ∀ q, on_disk (files s') q = on_disk (files m) q) by (intros q; by rewrite Hf).
  assert (Hc : ∀ x, 0 ≤ x → TransactionIdToPage x ≠ p → contents s' x = contents s x).
  { intros x Hx Hne. unfold contents. rewrite Hv by done. apply entry_same. by apply (ev_view _ _ Hev), page_nonneg. }
  split_and!; [split|split| |].
  - done.
  - intros q c Hq Hc'. destruct (decide (q = p)) as [->|Hne]; [rewrite Hvp in Hc'; by simplify_eq|].
    rewrite Hv in Hc' by done. destruct (ev_view _ _ Hev q Hq) as [E|[_ E]]; rewrite E in Hc';
      [by apply (ok_view _ _ Hok)|simplify_eq; apply zero_page_good].
  - intros q c Hq Hc'. rewrite Hd in Hc'. destruct (ev_source _ _ Hev q c Hq Hc') as [E|[E|[_ ->]]];
      [by apply (ok_disk _ _ Hok)|by apply (ok_view _ _ Hok)|apply zero_page_good].
  - rewrite Hn. apply Hev.
  - intros q Hq Hne [c Hc']. rewrite Hv by done. destruct (ev_view _ _ Hev q Hq) as [->|[_ ->]]; eauto.
  - intros q Hq _ Hs. rewrite Hd. by apply Hev.
  - intros x Hx Hne. left. by apply Hc.
  - intros x e Hx Hne He Hs. split; [|by rewrite Hc; [apply Hs|..]]. pose proof (page_nonneg x Hx).
    apply (disk_entry_kept s); rewrite ?Hd; [done..|intros b'; by apply Hev|by apply Hev].
  - done.
  - intros q Hq Hs. rewrite Hd. by apply Hev.
Qed.

(** ** Routines on the pages, seen from the log *)

Definition same_rest d d' : Prop :=
  dl_xlog d' = dl_xlog d ∧ dl_oldestXmin d' = dl_oldestXmin d ∧ dl_inserts d' = dl_inserts d.

#[export] Instance same_rest_preorder : PreOrder same_rest.
Proof. split; [done|]. intros d1 d2 d3 (?&?&?) (?&?&?). split_and!; congruence. Qed.

Lemma wp_on_slru {A} (m : proc (slru dlpage) A) (Q : outcome A → dlog → Prop) d :
  wp m (λ o s', Q o (set_slru s' d)) (dl_slru d) → wp (on_slru m) Q d.
Proof. unfold wp, on_slru. by destruct (m (dl_slru d)). Qed.

Lemma get_entry_spec P i x d :
  dl_ok P (dl_slru d) → 0 ≤ x → holding (TransactionIdToPage x) i (dl_slru d) →
  wp (get_entry i (TransactionIdToEntry x)) (λ o d', o = Ret (contents (dl_slru d) x) ∧ d' = d) d.
Proof.
  intros Hok Hx (c & Hi & Hst & Hp & Hv). unfold get_entry. apply proc_bind, wp_on_slru, (wp_the_slot i c); [done|].
  cbn [next]. destruct (ok_view _ _ Hok _ _ (page_nonneg x Hx) Hv) as [Hl _].
  unfold contents, entry_of. rewrite Hv. cbn [mbind option_bind].
  destruct (lookup_lt_is_Some_2 (page_buffer c) (Z.to_nat (TransactionIdToEntry x))) as [e He].
  { rewrite Hl. pose proof (entry_range x). lia. }
  rewrite He. apply proc_ret. split; [done|]. by destruct d.
Qed.

(** ** Setting entries *)

Lemma entry_insert b x y e :
  length b = Z.to_nat ENTRIES_PER_PAGE → TransactionIdToPage y = TransactionIdToPage x →
  entry_of (Some (<[Z.to_nat (TransactionIdToEntry x) := e]> b)) y = if decide (y = x) then e else entry_of (Some b) y.
Proof.
  intros Hl Hp. unfold entry_of. cbn [mbind option_bind]. pose proof (entry_range x).
  destruct (decide (y = x)) as [->|Hne].
  - rewrite list_lookup_insert_eq by lia. done.
  - rewrite list_lookup_insert_ne; [done|]. intros E. apply Hne. symmetry. by apply same_entry.
Qed.

Definition set_to (xs : list Z) e : Z → DistributedLogEntry → Prop := λ x f, x ∈ xs ∧ f = e.

Lemma put_entry_spec (P : Z → DistributedLogEntry → Prop) i x e d :
  dl_ok P (dl_slru d) → 0 ≤ x → holding (TransactionIdToPage x) i (dl_slru d) → P x e →
  contents (dl_slru d) x = zero_entry →
  wp (put_entry i (TransactionIdToEntry x) e)
    (λ o d', o = Ret tt ∧ same_rest d d' ∧ dl_ok P (dl_slru d') ∧ ios (dl_slru d') = ios (dl_slru d) ∧
       steps no_page (set_to [x] e) (dl_slru d) (dl_slru d') ∧
       holding (TransactionIdToPage x) i (dl_slru d') ∧ contents (dl_slru d') x = e) d.
Proof.
  intros Hok Hx Hh HP Hz. pose proof Hh as (c & Hi & Hst & Hp & Hv). unfold put_entry. apply wp_on_slru, wp_modify.
  set (s := dl_slru d) in *. set (s' := set_slot i _ s). pose proof (page_nonneg x Hx) as Hp0.
  destruct (ok_view _ _ Hok _ _ Hp0 Hv) as [Hl Hgood].
  set (b := <[Z.to_nat (TransactionIdToEntry x) := e]> (page_buffer c)).
  assert (Hss : slots s' = <[i := with_dirty true (with_buffer b c)]> (slots s)).
  { unfold s'. by rewrite (slots_set_slot i _ c s Hi). }
  destruct (put_buffer (TransactionIdToPage x) i c (with_dirty true (with_buffer b c)) s s') as [Hinv' Hput];
    try done; [apply Hok|]. cbn [page_buffer with_dirty with_buffer] in Hput.
  assert (Hold : ∀ y, TransactionIdToPage y = TransactionIdToPage x → contents s y = entry_of (Some (page_buffer c)) y).
  { intros y Hy. unfold contents. by rewrite Hy, Hv. }
  assert (Hnew : ∀ y, TransactionIdToPage y = TransactionIdToPage x →
             entry_of (Some b) y = if decide (y = x) then e else contents s y).
  { intros y Hy. unfold b. rewrite (entry_insert _ x y e Hl Hy). case_decide; [done|]. by rewrite Hold. }
  assert (Hbgood : page_good P (TransactionIdToPage x) b).
  { split; [unfold b; by rewrite length_insert|]. intros y Hy Hyp. rewrite Hnew by done.
    case_decide; [subst; by right|]. by apply dl_ok_contents. }
  destruct (puts_steps P (set_to [x] e) (TransactionIdToPage x) b s s') as (Hok' & Hsteps & Hvp & Hdisk); [done..|].
  assert (Hcx : ∀ y, TransactionIdToPage y = TransactionIdToPage x → contents s' y = if decide (y = x) then e else contents s y).
  { intros y Hy. unfold contents at 1. by rewrite Hy, Hvp, Hnew. }
  cbn [dl_slru set_slru]. split_and!; try done.
  - split; [apply Hsteps|..].
    + intros q Hq _ Hs. destruct (decide (q = TransactionIdToPage x)) as [->|Hne]; [by rewrite Hvp|].
      by apply (st_exists _ _ _ _ Hsteps).
    + intros q Hq _. by apply Hdisk.
    + intros y Hy _. destruct (decide (TransactionIdToPage y = TransactionIdToPage x)) as [E|Hne].
      * rewrite Hcx by done. case_decide; [subst|by left]. right. split; [done|]. split; [left|done].
      * by apply (st_contents _ _ _ _ Hsteps).
    + intros y f Hy _ Hf [Hs1 Hs2]. destruct (decide (TransactionIdToPage y = TransactionIdToPage x)) as [E|Hne];
        [|by apply (st_settled _ _ _ _ Hsteps y)].
      split; [done|]. rewrite Hcx by done. case_decide; [subst y; congruence|done].
  - exists (with_dirty true (with_buffer b c)). split_and!; try done. rewrite Hss.
    apply list_lookup_insert_eq. by eapply lookup_lt_Some.
  - rewrite Hcx by done. by rewrite decide_True.
Qed.

Lemma nonzero_entry e : negb (log_timestamp e =? 0) || negb (log_distribXid e =? 0) = true ↔ e ≠ zero_entry.
Proof.
  destruct e as [t x]. cbn [log_timestamp log_distribXid]. rewrite orb_true_iff, !negb_true_iff, !Z.eqb_neq.
  unfold zero_entry. split; [intros [?|?] [= -> ->]; done|]. intros Hne.
  destruct (decide (t = 0)) as [->|]; [|by left]. right. intros ->. done.
Qed.

(** An id of the list has another entry already. *)
Definition conflict s (xs : list Z) e : Prop := ∃ x, x ∈ xs ∧ contents s x ≠ zero_entry ∧ contents s x ≠ e.

Lemma conflict_back D s s1 (xs ys : list Z) e :
  steps D (set_to ys e) s s1 → (∀ x, x ∈ xs → 0 ≤ x ∧ ¬ D (TransactionIdToPage x)) →
  conflict s1 xs e → conflict s xs e.
Proof.
  intros Hst Hxs (x & Hx & Hnz & Hne). exists x. destruct (Hxs x Hx) as [H0 HD].
  destruct (st_contents _ _ _ _ Hst x H0 HD) as [<-|[_ [_ E]]]; done.
Qed.

Lemma set_entries_spec (P : Z → DistributedLogEntry → Prop) i p xs ts g d :
  let e := mkLogEntry ts g in
  e ≠ zero_entry → dl_ok P (dl_slru d) → holding p i (dl_slru d) →
  (∀ x, x ∈ xs → 0 ≤ x ∧ TransactionIdToPage x = p ∧ P x e) →
  wp (set_entries i xs ts g)
    (λ o d', same_rest d d' ∧ dl_ok P (dl_slru d') ∧ ios (dl_slru d') = ios (dl_slru d) ∧
       steps no_page (set_to xs e) (dl_slru d) (dl_slru d') ∧
       match o with
       | Ret _ => ∀ x, x ∈ xs → contents (dl_slru d') x = e
       | ERROR => conflict (dl_slru d) xs e
       | _ => False
       end) d.
Proof.
  intros e He. revert d. induction xs as [|x xs IH]; intros d Hok Hh Hxs; cbn [set_entries].
  { apply proc_ret. split_and!; try done; [apply steps_refl|]. intros x Hx. by apply elem_of_nil in Hx. }
  destruct (Hxs x) as (Hx & Hp & HP); [by left|]. subst p.
  apply proc_bind. eapply proc_mono; [by apply (get_entry_spec P)|]. intros o d1 [-> ->]. cbn [next].
  assert (Hrest : ∀ d1, same_rest d d1 → dl_ok P (dl_slru d1) → ios (dl_slru d1) = ios (dl_slru d) →
    holding (TransactionIdToPage x) i (dl_slru d1) → steps no_page (set_to [x] e) (dl_slru d) (dl_slru d1) →
    contents (dl_slru d1) x = e →
    wp (set_entries i xs ts g)
      (λ o d', same_rest d d' ∧ dl_ok P (dl_slru d') ∧ ios (dl_slru d') = ios (dl_slru d) ∧
         steps no_page (set_to (x :: xs) e) (dl_slru d) (dl_slru d') ∧
         match o with
         | Ret _ => ∀ y, y ∈ x :: xs → contents (dl_slru d') y = e
         | ERROR => conflict (dl_slru d) (x :: xs) e
         | _ => False
         end) d1).
  { intros d1 Hr1 Hok1 Hn1 Hh1 Hs1 Hc1. eapply proc_mono; [apply IH; [done..|intros y Hy; apply Hxs; by right]|].
    intros o d2 (Hr2 & Hok2 & Hn2 & Hs2 & Ho). split_and!; [by transitivity d1|done|congruence| |].
    - apply (steps_trans _ _ _ (dl_slru d1)); (eapply steps_mono; [..|done]); [done| |done|];
        intros y f [Hy ->]; (split; [|done]); [by apply list_elem_of_singleton in Hy as ->; left|by right].
    - destruct o; try done.
      + intros y [->|Hy]%elem_of_cons; [|by apply Ho].
        destruct (st_contents _ _ _ _ Hs2 x Hx) as [->|[Hz _]]; [intros []|done|congruence].
      + apply (conflict_back no_page _ (dl_slru d1) (x :: xs) [x] e); [done|intros y Hy; split; [by apply Hxs|intros []]|].
        destruct Ho as (y & Hy & Hnz). exists y. split; [by right|done]. }
  destruct (negb _ || negb _) eqn:Hnz.
  - apply nonzero_entry in Hnz.
    assert (Hconf : contents (dl_slru d) x ≠ e → conflict (dl_slru d) (x :: xs) e).
    { intros Hne. exists x. split; [by left|done]. }
    apply proc_bind. set (f := contents (dl_slru d) x) in *.
    destruct (Z.eqb_spec (log_timestamp f) ts) as [E1|E1]; cbn [negb].
    + destruct (Z.eqb_spec (log_distribXid f) g) as [E2|E2]; cbn [negb].
      * apply proc_ret. cbn [next]. apply Hrest; try done; [apply steps_refl|]. unfold e.
        rewrite <-E1, <-E2. fold f. by destruct f.
      * apply wp_raise. split_and!; try done; [apply steps_refl|]. apply Hconf. intros Ef. rewrite Ef in E2. done.
    + apply wp_raise. split_and!; try done; [apply steps_refl|]. apply Hconf. intros Ef. rewrite Ef in E1. done.
  - assert (Hz : contents (dl_slru d) x = zero_entry).
    { destruct (decide (contents (dl_slru d) x = zero_entry)) as [|Hn]; [done|].
      apply nonzero_entry in Hn. congruence. }
    apply proc_bind. eapply proc_mono; [by apply (put_entry_spec P)|].
    intros o d1 (-> & Hr1 & Hok1 & Hn1 & Hs1 & Hh1 & Hc1). cbn [next]. by apply Hrest.
Qed.
End Contents.
