(* ===== verification/DistribLogOps.v ===== *)
(** * The distributed log: its routines

    For each routine, with every failure of a request: which entries it sets, which pages it may lose,
    and when it can fail at all. *)
From S2P Require Import Prelude Proc DistributedSnapshot Slru SlruFacts SlruStore.
From S2P Require Import DistribLog DistribLogFacts.

Section Routines.
Context {env : DlogEnv} {blk : BlockSize}.
Implicit Types (s : slru dlpage) (d : dlog) (p x : Z) (e : DistributedLogEntry).
Implicit Types (P : Z → DistributedLogEntry → Prop).

Definition disk_grows s s' : Prop :=
  ∀ q, 0 ≤ q → is_Some (on_disk (files s) q) → is_Some (on_disk (files s') q).

#[export] Instance disk_grows_preorder : PreOrder disk_grows.
Proof. split; [by intros s q|]. intros s1 s2 s3 H12 H23 q Hq Hs. apply H23, H12; done. Qed.

Lemma evolves_grows s s' : evolves s s' → disk_grows s s'.
Proof. intros Hev q. apply Hev. Qed.

(** ** Records and pages *)

Lemma XLogInsert_spec r d :
  wp (XLogInsert r)
    (λ o d', dl_slru d' = dl_slru d ∧ dl_oldestXmin d' = dl_oldestXmin d ∧
       match o with
       | Ret _ => dl_xlog d' = dl_xlog d ++ [r]
       | PANIC => xlog_down (dl_inserts d) ≠ None ∧ (dl_xlog d' = dl_xlog d ∨ dl_xlog d' = dl_xlog d ++ [r])
       | _ => False
       end) d.
Proof.
  unfold XLogInsert. apply proc_bind, wp_get. cbn [next]. destruct (xlog_down (dl_inserts d)) as [w|] eqn:E.
  - apply proc_bind, wp_modify. cbn [next]. apply wp_raise. split_and!; try done. destruct w; auto.
  - apply wp_modify. done.
Qed.

(** Why the server goes down: an [fsync] that failed, or no place for a record. *)
Definition went_down d d' : Prop := fsync_failed (dl_slru d) (dl_slru d') ∨ xlog_down (dl_inserts d) ≠ None.

Definition zeroed p s (o : outcome nat) s' : Prop :=
  match o with Ret i => holding p i s' ∧ view s' p = Some zero_page | _ => True end.

Lemma SimpleLruZeroPage_steps P p s :
  dl_ok P s → 0 ≤ p →
  wp (SimpleLruZeroPage p)
    (λ o s', dl_ok P s' ∧ steps (λ q, q = p) no_entry s s' ∧ disk_grows s s' ∧ blamed s o s' ∧ zeroed p s o s') s.
Proof.
  intros Hok Hp. eapply proc_mono; [apply SimpleLruZeroPage_spec; [apply Hok|done]|].
  intros o s' [Hinv Ho]. destruct o as [i| | |].
  - destruct Ho as (Hh & Hput & _).
    destruct (puts_steps P no_entry p zero_page s s') as (Hok' & Hst & Hv & Hd); [done..|apply zero_page_good|done|].
    split_and!; done.
  - destruct Ho as (Hev & Hb & _). destruct (evolves_steps P (λ q, q = p) no_entry s s' Hok Hinv Hev).
    split_and!; try done. by apply evolves_grows.
  - destruct Ho as (_ & Hb & _). done.
  - destruct Ho as (Hev & Hb & _). destruct (evolves_steps P (λ q, q = p) no_entry s s' Hok Hinv Hev).
    split_and!; try done. by apply evolves_grows.
Qed.

Lemma DistributedLog_ZeroPage_spec P p d :
  dl_ok P (dl_slru d) → 0 ≤ p →
  wp (DistributedLog_ZeroPage p false)
    (λ o d', same_rest d d' ∧ dl_ok P (dl_slru d') ∧ steps (λ q, q = p) no_entry (dl_slru d) (dl_slru d') ∧
       disk_grows (dl_slru d) (dl_slru d') ∧ blamed (dl_slru d) o (dl_slru d') ∧
       zeroed p (dl_slru d) o (dl_slru d')) d.
Proof.
  intros Hok Hp. unfold DistributedLog_ZeroPage. apply proc_bind, wp_on_slru.
  eapply proc_mono; [by apply (SimpleLruZeroPage_steps P)|]. intros o s' (H1 & H2 & H3 & H4 & H5).
  destruct o as [i| | |]; cbn [next]; [|done..].
  apply proc_bind, proc_ret. cbn [next]. apply proc_ret. done.
Qed.

Lemma DistributedLog_ZeroPage_logged P p d :
  dl_ok P (dl_slru d) → 0 ≤ p →
  wp (DistributedLog_ZeroPage p true)
    (λ o d', dl_oldestXmin d' = dl_oldestXmin d ∧ dl_ok P (dl_slru d') ∧
       steps (λ q, q = p) no_entry (dl_slru d) (dl_slru d') ∧ disk_grows (dl_slru d) (dl_slru d') ∧
       match o with
       | Ret i => holding p i (dl_slru d') ∧ view (dl_slru d') p = Some zero_page ∧
                  dl_xlog d' = dl_xlog d ++ [DISTRIBUTEDLOG_ZEROPAGE p]
       | ERROR => dl_xlog d' = dl_xlog d ∧ io_failed (dl_slru d) (dl_slru d')
       | FATAL => False
       | PANIC => (dl_xlog d' = dl_xlog d ∨ dl_xlog d' = dl_xlog d ++ [DISTRIBUTEDLOG_ZEROPAGE p]) ∧
                  went_down d d'
       end) d.
Proof.
  intros Hok Hp. unfold DistributedLog_ZeroPage. apply proc_bind, wp_on_slru.
  eapply proc_mono; [by apply (SimpleLruZeroPage_steps P)|]. intros o s' (H1 & H2 & H3 & H4 & H5).
  destruct o as [i| | |]; cbn [next]; 
    [|split_and!; done|done|split_and!; try done; [by left|by left]].
  apply proc_bind. eapply proc_mono; [apply XLogInsert_spec|]. intros o d1 (E1 & E2 & Ho).
  destruct H5 as [H5 H6]. destruct o; cbn [next].
  - apply proc_ret. rewrite E1. split_and!; done.
  - done.
  - done.
  - unfold went_down. rewrite E1. split_and!; try done; [apply Ho|right; apply Ho].
Qed.

(** ** Recording commits *)

(** What setting the ids [xs] to [e] does; a page in [D] may be lost on the way. *)
Definition sets (D : Z → Prop) P (xs : list Z) e {A} d (o : outcome A) d' : Prop :=
  same_rest d d' ∧ dl_ok P (dl_slru d') ∧ steps D (set_to xs e) (dl_slru d) (dl_slru d') ∧
  disk_grows (dl_slru d) (dl_slru d') ∧
  match o with
  | Ret _ => ∀ x, x ∈ xs → ¬ D (TransactionIdToPage x) → contents (dl_slru d') x = e
  | ERROR => io_failed (dl_slru d) (dl_slru d') ∨
      ∃ x f, x ∈ xs ∧ P x f ∧ f ≠ e ∧ (¬ D (TransactionIdToPage x) → contents (dl_slru d) x = f)
  | FATAL => False
  | PANIC => fsync_failed (dl_slru d) (dl_slru d')
  end.

(** During replay a page that is not on disk is made anew. *)
Definition replaced (isRedo : bool) s : Z → Prop := λ q, isRedo = true ∧ 0 ≤ q ∧ on_disk (files s) q = None.

Lemma set_to_nil (xs : list Z) e x f : no_entry x f → set_to xs e x f.
Proof. intros []. Qed.

Lemma evolves_sets D P xs e {A} d (o : outcome A) s' :
  dl_ok P (dl_slru d) → slru_inv s' → evolves (dl_slru d) s' →
  match o with Ret _ => False | ERROR => io_failed (dl_slru d) s' | FATAL => False | PANIC => fsync_failed (dl_slru d) s' end →
  sets D P xs e d o (set_slru s' d).
Proof.
  intros Hok Hinv Hev Ho. destruct (evolves_steps P D (set_to xs e) (dl_slru d) s') as [Hok' Hst]; [done..|].
  split_and!; try done; [by apply evolves_grows|]. destruct o; simpl; auto; done.
Qed.

Lemma within_page_read P (D : Z → Prop) p xs ts g d d1 :
  let e := mkLogEntry ts g in
  e ≠ zero_entry → dl_ok P (dl_slru d1) → is_Some (view (dl_slru d1) p) → 0 ≤ p →
  (∀ x, x ∈ xs → 0 ≤ x ∧ TransactionIdToPage x = p ∧ P x e) →
  same_rest d d1 → disk_grows (dl_slru d) (dl_slru d1) → steps D no_entry (dl_slru d) (dl_slru d1) →
  wp (bind (on_slru (SimpleLruReadPage p true)) (λ slotno, set_entries slotno xs ts g)) (sets D P xs e d) d1.
Proof.
  intros e He Hok1 Hv1 Hp Hxs Hr1 Hg1 Hs1. apply proc_bind, wp_on_slru.
  eapply proc_mono; [apply SimpleLruReadPage_spec; [apply Hok1|done|by right]|].
  intros o s2 (Hinv2 & Hev2 & _ & Ho2).
  destruct (evolves_steps P D (set_to xs e) (dl_slru d1) s2) as [Hok2 Hs2]; [done..|].
  assert (Hs1' : steps D (set_to xs e) (dl_slru d) (dl_slru d1)) by (eapply steps_mono; [..|done]; [done|apply set_to_nil]).
  assert (Hs12 : steps D (set_to xs e) (dl_slru d) s2) by by eapply steps_trans.
  pose proof (st_ios _ _ _ _ Hs1). pose proof (ev_ios _ _ Hev2).
  assert (Hg2 : disk_grows (dl_slru d) s2) by (etransitivity; [done|by apply evolves_grows]).
  destruct o as [i| | |]; cbn [next]; [| |done|].
  - set (d2 := set_slru s2 d1). eapply proc_mono; [by apply (set_entries_spec P i p xs ts g d2)|].
    intros o d3 (Hr3 & Hok3 & Hn3 & Hs3 & Ho3).
    assert (Hs3' : steps D (set_to xs e) (dl_slru d2) (dl_slru d3)) by (eapply steps_mono; [..|done]; [intros q []|done]).
    split_and!; [etransitivity; [done|]; etransitivity; [|done]; done|done|by eapply steps_trans| |].
    + etransitivity; [done|]. intros q Hq. apply (st_disk _ _ _ _ Hs3); [done|intros []].
    + destruct o; try done; [by intros x Hx _; apply Ho3|]. right.
      destruct Ho3 as (x & Hx & Hnz & Hne). destruct (Hxs x Hx) as (Hx0 & Hxp & _).
      exists x, (contents s2 x). split_and!; [done| |done|].
      * by destruct (dl_ok_contents P s2 x Hok2 Hx0).
      * intros HD. destruct (st_contents _ _ _ _ Hs12 x) as [->|[_ [_ E]]]; done.
  - split; [done|]. split_and!; try done. destruct Ho2 as [Ho2|Ho2]; [left; by apply (io_failed_mono _ (dl_slru d1) s2)|].
    exfalso.
    destruct Hv1 as [b Hb]. destruct (ev_view _ _ Hev2 p Hp) as [E|[E _]]; congruence.
  - split; [done|]. split_and!; try done. by apply (fsync_failed_mono _ (dl_slru d1) s2).
Qed.

Lemma view_of_disk s p : is_Some (on_disk (files s) p) → is_Some (view s p).
Proof. unfold view. by destruct (buffered (slots s) p). Qed.

Lemma bump_evolves s : slru_inv s → slru_inv (bump s) ∧ evolves s (bump s).
Proof. intros Hinv. apply eqv_keeps; [done|reflexivity|done|simpl; lia]. Qed.

(** The ids [xs] all have the entry [e] coming to them. *)
Definition assigns P (xs : list Z) e : Prop := ∀ x, x ∈ xs → 0 ≤ x ∧ P x e.

Lemma DistributedLog_SetCommittedWithinAPage_spec P p xs ts g isRedo d :
  let e := mkLogEntry ts g in
  e ≠ zero_entry → dl_ok P (dl_slru d) → xs ≠ [] → assigns P xs e →
  (∀ x, x ∈ xs → TransactionIdToPage x = p) → (isRedo = false → is_Some (view (dl_slru d) p)) →
  wp (DistributedLog_SetCommittedWithinAPage xs ts g isRedo) (sets (replaced isRedo (dl_slru d)) P xs e d) d.
Proof.
  intros e He Hok Hne Ha Hxp Hview. destruct xs as [|x0 xs]; [done|]. cbn [DistributedLog_SetCommittedWithinAPage].
  rewrite (Hxp x0) by by left. set (ys := x0 :: xs) in *.
  assert (Hp : 0 ≤ p). { rewrite <-(Hxp x0) by by left. apply page_nonneg, Ha. by left. }
  assert (Hxs : ∀ x, x ∈ ys → 0 ≤ x ∧ TransactionIdToPage x = p ∧ P x e).
  { intros x Hx. destruct (Ha x Hx). split_and!; auto. }
  apply proc_bind. destruct isRedo.
  2: { apply proc_ret. cbn [next]. apply (within_page_read P _ p ys ts g d d); try done; [by apply Hview|apply steps_refl]. }
  apply proc_bind, wp_on_slru. eapply proc_mono; [by apply SimpleLruDoesPhysicalPageExist_spec|].
  intros o s1 (-> & Hb1 & Ho1). destruct (bump_evolves (dl_slru d)) as [Hinv1 Hev1]; [apply Hok|].
  set (D := replaced true (dl_slru d)).
  destruct (evolves_steps P D no_entry (dl_slru d) (bump (dl_slru d))) as [Hok1 Hs1]; [done..|].
  destruct o as [found| | |]; cbn [next]; [|by apply evolves_sets..].
  destruct (bool_decide_reflect (is_Some (on_disk (files (dl_slru d)) p))) as [Hd|Hd]; subst found; cbn [negb].
  - apply proc_ret. cbn [next]. apply (within_page_read P D p ys ts g d); try done; [by apply view_of_disk|].
    by apply evolves_grows.
  - assert (HDp : D p). { split_and!; [done..|]. by apply eq_None_not_Some. }
    apply proc_bind. eapply proc_mono; [by apply (DistributedLog_ZeroPage_spec P p (set_slru (bump (dl_slru d)) d))|].
    intros o d2 (Hr2 & Hok2 & Hs2 & Hg2 & Hb2 & Hz2). cbn [dl_slru set_slru] in Hs2, Hg2, Hb2, Hz2.
    assert (Hs2' : steps D no_entry (dl_slru d) (dl_slru d2)).
    { eapply steps_trans; [done|]. apply (steps_mono (λ q, q = p) D no_entry no_entry); [|done|done].
      intros q Hq. by rewrite Hq. }
    assert (Hg2' : disk_grows (dl_slru d) (dl_slru d2)) by done.
    assert (Hn2 : (ios (dl_slru d) ≤ ios (bump (dl_slru d)))%nat) by (simpl; lia).
    destruct o as [i| | |]; cbn [next].
    + apply proc_ret. cbn [next]. destruct Hz2 as [_ Hv2].
      apply (within_page_read P D p ys ts g d d2); done.
    + split; [done|]. split_and!; try done; [eapply steps_mono; [..|done]; [done|apply set_to_nil]|].
      left. by apply (io_failed_mono _ (bump (dl_slru d)) (dl_slru d2)).
    + done.
    + split; [done|]. split_and!; try done; [eapply steps_mono; [..|done]; [done|apply set_to_nil]|].
      by apply (fsync_failed_mono _ (bump (dl_slru d)) (dl_slru d2)).
Qed.

Lemma sets_seq isRedo P xs ys e {A} d d1 (o : outcome A) d2 (u : unit) :
  e ≠ zero_entry → assigns P xs e → assigns P ys e →
  sets (replaced isRedo (dl_slru d)) P xs e d (Ret u) d1 → sets (replaced isRedo (dl_slru d1)) P ys e d1 o d2 →
  sets (replaced isRedo (dl_slru d)) P (xs ++ ys) e d o d2.
Proof.
  intros He Ha Hb (Hr1 & Hok1 & Hs1 & Hg1 & Ho1) (Hr2 & Hok2 & Hs2 & Hg2 & Ho2).
  assert (HD : ∀ q, replaced isRedo (dl_slru d1) q → replaced isRedo (dl_slru d) q).
  { intros q (-> & Hq & Hn). split_and!; [done..|]. apply eq_None_not_Some. intros Hs%Hg1; [|done].
    by rewrite Hn in Hs; apply is_Some_None in Hs. }
  assert (Hl : ∀ zs x f, zs ⊆ xs ++ ys → set_to zs e x f → set_to (xs ++ ys) e x f).
  { intros zs x f Hz [Hx ->]. split; [by apply Hz|done]. }
  assert (Hs1' : steps (replaced isRedo (dl_slru d)) (set_to (xs ++ ys) e) (dl_slru d) (dl_slru d1)).
  { eapply steps_mono; [..|done]; [done|]. intros x f. apply Hl. set_solver. }
  assert (Hs2' : steps (replaced isRedo (dl_slru d)) (set_to (xs ++ ys) e) (dl_slru d1) (dl_slru d2)).
  { eapply steps_mono; [..|done]; [done|]. intros x f. apply Hl. set_solver. }
  pose proof (st_ios _ _ _ _ Hs1). pose proof (st_ios _ _ _ _ Hs2).
  split; [by transitivity d1|]. split_and!; [done|by eapply steps_trans|by transitivity (dl_slru d1)|].
  destruct o; try done.
  - intros x [Hx|Hx]%elem_of_app Hn; [|apply Ho2; [done|]; naive_solver].
    destruct (st_contents _ _ _ _ Hs2' x) as [->|[Hz _]]; [by apply Ha|done|by apply Ho1|].
    rewrite (Ho1 x) in Hz by done. congruence.
  - destruct Ho2 as [Ho2|(x & f & Hx & Hf)]; [left; by apply (io_failed_mono _ (dl_slru d1) (dl_slru d2))|].
    destruct Hf as (HP & Hne & Hf). right. exists x, f. split_and!; [apply elem_of_app; by right|done..|].
    intros Hn. assert (E : contents (dl_slru d1) x = f) by (apply Hf; naive_solver).
    assert (0 ≤ x) by by apply Hb. rewrite <-E.
    destruct (st_contents _ _ _ _ Hs1' x) as [->|[_ [_ E']]]; [done..|congruence].
  - by apply (fsync_failed_mono _ (dl_slru d1) (dl_slru d2)).
Qed.

(** The inner loop stops at the first id on another page, or behind the last id. *)
Lemma skip_page_spec fuel n xs pageno i d :
  (n < length xs)%nat → (i ≤ n)%nat → (n - i < fuel)%nat →
  ∃ j, skip_page fuel n xs pageno i d = (Ret j, d) ∧ (i ≤ j ≤ n)%nat ∧
    (∀ k x, (i ≤ k < j)%nat → xs !! k = Some x → TransactionIdToPage x = pageno) ∧
    ((i < n)%nat → (∀ x, xs !! i = Some x → TransactionIdToPage x = pageno) → (i < j)%nat).
Proof.
  revert i. induction fuel as [|fuel IH]; intros i Hn Hi Hf; [lia|]. cbn [skip_page].
  destruct (lookup_lt_is_Some_2 xs i) as [x Hx]; [lia|]. rewrite Hx.
  destruct (Z.eqb_spec (TransactionIdToPage x) pageno) as [Hp|Hp], (Nat.ltb_spec i n) as [Hlt|Hge]; cbn [andb].
  2-4: exists i; split_and!; [done|lia|lia|intros k y Hk; lia|intros Hlt' Hall; try lia; by specialize (Hall x eq_refl)].
  destruct (IH (S i)) as (j & -> & Hj & Hall & _); [lia..|]. exists j. split_and!; [done|lia|lia| |lia].
  intros k y Hk Hy. destruct (decide (k = i)) as [->|Hne]; [congruence|]. apply (Hall k y); [lia|done].
Qed.

Lemma elem_of_chunk (xs : list Z) i j x :
  x ∈ take (j - i) (drop i xs) → ∃ k, (i ≤ k < j)%nat ∧ xs !! k = Some x.
Proof.
  intros [k Hk]%list_elem_of_lookup. apply lookup_take_Some in Hk as [Hk Hlt]. rewrite lookup_drop in Hk.
  exists (i + k)%nat. split; [lia|done].
Qed.

Lemma chunk_split (xs : list Z) i j n :
  (i ≤ j ≤ n)%nat → take (n - i) (drop i xs) = take (j - i) (drop i xs) ++ take (n - j) (drop j xs).
Proof.
  intros Hj. replace (n - i)%nat with ((j - i) + (n - j))%nat by lia. rewrite <-take_take_drop. do 2 f_equal.
  rewrite drop_drop. f_equal. lia.
Qed.

Lemma view_kept isRedo (S : Z → DistributedLogEntry → Prop) s s1 p :
  isRedo = false → 0 ≤ p → steps (replaced isRedo s) S s s1 → is_Some (view s p) → is_Some (view s1 p).
Proof. intros Hr Hp Hst. apply (st_exists _ _ _ _ Hst); [done|]. intros (E & _). congruence. Qed.

Lemma set_by_pages_spec fuel n P xs ts g isRedo i d :
  let e := mkLogEntry ts g in
  e ≠ zero_entry → (n < length xs)%nat → (i ≤ n)%nat → (n - i ≤ fuel)%nat →
  dl_ok P (dl_slru d) → assigns P (take (n - i) (drop i xs)) e →
  (∀ x, x ∈ take (n - i) (drop i xs) → isRedo = false → is_Some (view (dl_slru d) (TransactionIdToPage x))) →
  wp (set_by_pages fuel n xs ts g isRedo i)
    (sets (replaced isRedo (dl_slru d)) P (take (n - i) (drop i xs)) e d) d.
Proof.
  intros e He Hn. revert i d. induction fuel as [|fuel IH]; intros i d Hi Hf Hok Ha Hv; cbn [set_by_pages].
  all: destruct (Nat.leb_spec n i) as [Hle|Hlt].
  1,3: replace (n - i)%nat with 0%nat by lia; apply proc_ret; (split; [done|]); split_and!; try done;
    [apply steps_refl|intros x Hx; by apply elem_of_nil in Hx].
  { lia. }
  destruct (lookup_lt_is_Some_2 xs i) as [x Hx]; [lia|]. rewrite Hx.
  destruct (skip_page_spec (S (S n)) n xs (TransactionIdToPage x) i d) as (j & Hskip & Hj & Hall & Hprog); [lia..|].
  specialize (Hprog Hlt). apply proc_bind. unfold wp at 1. rewrite Hskip. cbn [fst snd next].
  rewrite (chunk_split xs i j n) in Ha, Hv |- * by lia.
  set (ys := take (j - i) (drop i xs)) in *. set (zs := take (n - j) (drop j xs)) in *.
  assert (Hays : assigns P ys e) by (intros y Hy; apply Ha, elem_of_app; by left).
  assert (Hxy : x ∈ ys).
  { apply list_elem_of_lookup. exists 0%nat. unfold ys. rewrite lookup_take_lt, lookup_drop, Nat.add_0_r; [done|].
    assert (i < j)%nat; [|lia]. apply Hprog. intros y. congruence. }
  apply proc_bind. eapply proc_mono.
  { apply (DistributedLog_SetCommittedWithinAPage_spec P (TransactionIdToPage x) ys ts g isRedo d); try done.
    - intros E. rewrite E in Hxy. by apply elem_of_nil in Hxy.
    - intros y Hy. destruct (elem_of_chunk xs i j y Hy) as (k & Hk & Hky). by apply (Hall k y).
    - apply Hv, elem_of_app. by left. }
  intros o d1 H1. destruct o as [[]| | |]; cbn [next].
  - eapply proc_mono; [apply IH; [lia| |apply H1| |]|].
    + assert (i < j)%nat by (apply Hprog; intros y; congruence). lia.
    + intros y Hy. apply Ha, elem_of_app. by right.
    + intros y Hy Hr. pose proof H1 as (_ & _ & Hst & _). eapply (view_kept isRedo); [done| |exact Hst|].
      * apply page_nonneg, Ha, elem_of_app. by right.
      * apply Hv; [|done]. apply elem_of_app. by right.
    + intros o d2 H2. eapply sets_seq; [done..| |done|done]. intros y Hy. apply Ha, elem_of_app. by right.
  - destruct H1 as (H1 & H2 & H3 & H4 & H5). split; [done|]. split_and!; [done| |done|].
    + eapply steps_mono; [..|exact H3]; [done|]. intros y f [Hy ->]. split; [apply elem_of_app; by left|done].
    + destruct H5 as [?|(y & f & Hy & Hf')]; [by left|right]. exists y, f. split; [apply elem_of_app; by left|done].
  - by destruct H1 as (_ & _ & _ & _ & []).
  - destruct H1 as (H1 & H2 & H3 & H4 & H5). split; [done|]. split_and!; [done| |done|done].
    eapply steps_mono; [..|exact H3]; [done|]. intros y f [Hy ->]. split; [apply elem_of_app; by left|done].
Qed.

(** The ids of a transaction and of its subtransactions; the array has a cell behind the ids. *)
Definition tree_ids (xid : Z) (n : nat) (xids : list Z) : list Z := xid :: take n xids.
Definition readable (n : nat) (xids : list Z) : Prop := n = 0%nat ∨ (n < length xids)%nat.

Lemma DistributedLog_SetCommittedTree_spec P xid n xids ts g isRedo d :
  let e := mkLogEntry ts g in
  IS_QUERY_DISPATCHER = false → e ≠ zero_entry → readable n xids →
  dl_ok P (dl_slru d) → assigns P (tree_ids xid n xids) e →
  (∀ x, x ∈ tree_ids xid n xids → isRedo = false → is_Some (view (dl_slru d) (TransactionIdToPage x))) →
  wp (DistributedLog_SetCommittedTree xid n xids ts g isRedo)
    (sets (replaced isRedo (dl_slru d)) P (tree_ids xid n xids) e d) d.
Proof.
  intros e Hqd He Hread Hok Ha Hv. unfold DistributedLog_SetCommittedTree. rewrite Hqd. cbn [negb].
  apply proc_bind. eapply proc_mono.
  { apply (DistributedLog_SetCommittedWithinAPage_spec P (TransactionIdToPage xid) [xid] ts g isRedo d); try done.
    - intros y Hy%list_elem_of_singleton. subst y. apply Ha. by left.
    - by intros y ->%list_elem_of_singleton.
    - apply Hv. by left. }
  intros o d1 H1.
  assert (Hsub : ∀ y f, set_to [xid] e y f → set_to (tree_ids xid n xids) e y f).
  { intros y f [Hy%list_elem_of_singleton ->]. subst y. split; [by left|done]. }
  destruct o as [[]| | |]; cbn [next].
  - assert (Hxid : assigns P [xid] e) by (intros y Hy%list_elem_of_singleton; subst y; apply Ha; by left).
    unfold DistributedLog_SetCommittedByPages. destruct Hread as [->|Hlt].
    { cbn. apply proc_ret. pose proof H1 as (G1 & G2 & G3 & G4 & G5). split; [done|]. split_and!; try done. }
    eapply proc_mono; [apply (set_by_pages_spec n n P xids ts g isRedo 0 d1); [done|done|lia|lia|apply H1|..]|].
    + rewrite Nat.sub_0_r, drop_0. intros y Hy. apply Ha. by right.
    + rewrite Nat.sub_0_r, drop_0. intros y Hy Hr. pose proof H1 as (_ & _ & Hst & _).
      eapply (view_kept isRedo); [done| |exact Hst|].
      * apply page_nonneg, Ha. by right.
      * apply Hv; [by right|done].
    + rewrite Nat.sub_0_r, drop_0. intros o d2 H2. refine (sets_seq isRedo P [xid] _ e d d1 o d2 tt He Hxid _ H1 H2).
      intros y Hy. apply Ha. by right.
  - destruct H1 as (H1 & H2 & H3 & H4 & H5). split; [done|]. split_and!; [done| |done|].
    + eapply steps_mono; [..|exact H3]; done.
    + destruct H5 as [?|(y & f & Hy%list_elem_of_singleton & Hf')]; [by left|right]. subst y. exists xid, f.
      split; [by left|done].
  - by destruct H1 as (_ & _ & _ & _ & []).
  - destruct H1 as (H1 & H2 & H3 & H4 & H5). split; [done|]. split_and!; [done| |done|done].
    eapply steps_mono; [..|exact H3]; done.
Qed.
End Routines.
