(* ===== verification/DistribLogRun.v ===== *)
(** * The distributed log: looking up, growing and shrinking

    Looking up an id, creating the page of new ids, advancing the oldest id of interest and removing
    old segments, and starting. *)
From S2P Require Import Prelude Proc DistributedSnapshot Slru SlruFacts SlruStore.
From S2P Require Import DistribLog DistribLogFacts DistribLogOps.

Section Run.
Context {env : DlogEnv} {blk : BlockSize}.
Implicit Types (s : slru dlpage) (d : dlog) (p x : Z) (e : DistributedLogEntry).
Implicit Types (P : Z → DistributedLogEntry → Prop).

(** ** The order of pages *)

Lemma precedes_by_page p q :
  0 ≤ p → 0 ≤ q →
  DistributedLog_PagePrecedes p q = (s32 (p * ENTRIES_PER_PAGE - q * ENTRIES_PER_PAGE) <? 0).
Proof.
  intros Hp Hq. unfold DistributedLog_PagePrecedes, TransactionIdPrecedes, TransactionIdIsNormal, FirstNormalTransactionId.
  assert (Hn : ∀ r, 0 ≤ r → u32 (u32 (r * ENTRIES_PER_PAGE) + 3) = (r * ENTRIES_PER_PAGE) mod 2 ^ 32 + 3).
  { intros r Hr. unfold u32. destruct entries_per_page as (j & Hj & ->).
    apply Z.mod_small. pose proof (Z.mod_pos_bound (r * 2 ^ j) (2 ^ 32)).
    assert (H8 : ((r * 2 ^ j) mod 2 ^ 32) mod 2 ^ 7 = 0).
    { replace (2 ^ 32) with (2 ^ 7 * 2 ^ 25) by lia. rewrite Z.rem_mul_r by lia.
      rewrite Z.add_mod, Z.mul_comm, (Z.mul_comm (2 ^ 7)), Z.mod_mul, Z.add_0_r, Z.mod_mod, Z.mod_mod by lia.
      replace (2 ^ j) with (2 ^ (j - 7) * 2 ^ 7) by (rewrite <-Z.pow_add_r by lia; f_equal; lia).
      rewrite Z.mul_comm, Z.mul_assoc. apply Z.mod_mul. lia. }
    revert H8. Z.to_euclidean_division_equations. lia. }
  rewrite !Hn by done. pose proof (Z.mod_pos_bound (p * ENTRIES_PER_PAGE) (2 ^ 32)).
  pose proof (Z.mod_pos_bound (q * ENTRIES_PER_PAGE) (2 ^ 32)).
  rewrite !(proj2 (Z.leb_le 3 _)) by lia. cbn [negb orb]. f_equal.
  unfold s32. replace (_ + 3 - (_ + 3)) with
    ((p * ENTRIES_PER_PAGE) mod 2 ^ 32 - (q * ENTRIES_PER_PAGE) mod 2 ^ 32) by lia.
  by rewrite <-Zminus_mod.
Qed.

(** A page precedes the start of a segment if the start of its own segment does. *)
Lemma precedes_segment c p :
  0 ≤ c → 0 ≤ p → before_cut (segment_start c) p → PagePrecedes p (segment_start c) = true.
Proof.
  intros Hc Hp. unfold before_cut, PagePrecedes, DistributedLogCtl.
  assert (Hs : ∀ r, 0 ≤ r → ∃ t i, segment_start r = 32 * t ∧ r = 32 * t + i ∧ 0 ≤ t ∧ 0 ≤ i < 32).
  { intros r Hr. exists (r / 32), (r mod 32). unfold segment_start, SLRU_PAGES_PER_SEGMENT.
    rewrite Z.rem_mod_nonneg by lia. Z.to_euclidean_division_equations. lia. }
  destruct (Hs c Hc) as (u & _ & -> & _ & Hu & _), (Hs p Hp) as (t & i & -> & -> & Ht & Hi).
  rewrite !precedes_by_page by lia. rewrite !Z.ltb_lt. unfold s32.
  destruct entries_per_page as (j & Hj & ->).
  assert (j = 7 ∨ j = 8 ∨ j = 9 ∨ j = 10 ∨ j = 11 ∨ j = 12) as Hcase by lia.
  set (v := t - u).
  assert (Hred : ∀ k, (k = 0 ∨ k = i) → (32 * t + k) * 2 ^ j - 32 * u * 2 ^ j = (32 * v + k) * 2 ^ j)
    by (intros k _; unfold v; ring).
  replace (32 * t * 2 ^ j - 32 * u * 2 ^ j) with ((32 * v + 0) * 2 ^ j) by (unfold v; ring).
  rewrite Hred by by right. clear Hred.
  destruct Hcase as [->|[->|[->|[->|[->| ->]]]]]; repeat case_match; Z.to_euclidean_division_equations; lia.
Qed.

(** ** Looking up *)

(** Nothing is set or lost. *)
Definition quiet P d d' : Prop :=
  same_rest d d' ∧ dl_ok P (dl_slru d') ∧ steps no_page no_entry (dl_slru d) (dl_slru d').

Lemma quiet_contents P d d' x : quiet P d d' → 0 ≤ x → contents (dl_slru d') x = contents (dl_slru d) x.
Proof. intros (_ & _ & Hst) Hx. destruct (st_contents _ _ _ _ Hst x Hx) as [?|[_ []]]; [intros []|done]. Qed.

Lemma evolves_quiet P d s' :
  dl_ok P (dl_slru d) → slru_inv s' → evolves (dl_slru d) s' → quiet P d (set_slru s' d).
Proof.
  intros Hok Hinv Hev. destruct (evolves_steps P no_page no_entry (dl_slru d) s') as [? ?]; [done..|]. done.
Qed.

Lemma quiet_refl P d : dl_ok P (dl_slru d) → quiet P d d.
Proof. intros Hok. split; [done|]. split; [done|apply steps_refl]. Qed.

Lemma quiet_trans P d1 d2 d3 : quiet P d1 d2 → quiet P d2 d3 → quiet P d1 d3.
Proof. intros (?&?&?) (?&?&?). split; [by transitivity d2|]. split; [done|by eapply steps_trans]. Qed.

Lemma quiet_view P d d' p : quiet P d d' → 0 ≤ p → is_Some (view (dl_slru d) p) → is_Some (view (dl_slru d') p).
Proof. intros (_ & _ & Hst) Hp. apply (st_exists _ _ _ _ Hst); [done|intros []]. Qed.

(** Half of the entry is zero. *)
Definition torn e : Prop :=
  (log_timestamp e = 0 ∧ log_distribXid e ≠ 0) ∨ (log_timestamp e ≠ 0 ∧ log_distribXid e = 0).

Definition found e : option (Z * Z) :=
  if decide (e = zero_entry) then None else Some (log_timestamp e, log_distribXid e).

Lemma zero_entry_eta e : log_timestamp e = 0 → log_distribXid e = 0 → e = zero_entry.
Proof. destruct e. simpl. by intros -> ->. Qed.

Lemma DistributedLog_CommittedCheck_spec P x d :
  dl_ok P (dl_slru d) → 0 ≤ x → dl_oldestXmin d ≠ InvalidTransactionId →
  InRecovery = false ∨ is_Some (view (dl_slru d) (TransactionIdToPage x)) →
  wp (DistributedLog_CommittedCheck x)
    (λ o d', quiet P d d' ∧
       match o with
       | Ret r => r = if TransactionIdPrecedes x (dl_oldestXmin d) then None else found (contents (dl_slru d) x)
       | ERROR => TransactionIdPrecedes x (dl_oldestXmin d) = false ∧
                  (io_failed (dl_slru d) (dl_slru d') ∨ view (dl_slru d) (TransactionIdToPage x) = None ∨
                   torn (contents (dl_slru d) x))
       | FATAL => False
       | PANIC => fsync_failed (dl_slru d) (dl_slru d')
       end) d.
Proof.
  intros Hok Hx Hxm Hrec. unfold DistributedLog_CommittedCheck. apply proc_bind, wp_get. cbn [next].
  rewrite (proj2 (Z.eqb_neq _ _)) by done. destruct (TransactionIdPrecedes x (dl_oldestXmin d)).
  { apply proc_ret. split; [by apply quiet_refl|done]. }
  pose proof (page_nonneg x Hx) as Hp. apply proc_bind, wp_on_slru.
  eapply proc_mono; [apply SimpleLruReadPage_spec; [apply Hok|done..]|]. intros o s1 (Hinv1 & Hev1 & _ & Ho1).
  pose proof (evolves_quiet P d s1 Hok Hinv1 Hev1) as Hq1.
  destruct o as [i| | |]; cbn [next]; [| |done|done].
  2: { split; [done|]. split; [done|]. destruct Ho1 as [?|Hn]; [by left|right; left]. cbn [dl_slru set_slru].
       destruct (ev_view _ _ Hev1 _ Hp) as [<-|[_ E]]; congruence. }
  apply proc_bind. eapply proc_mono; [apply (get_entry_spec P); [apply Hq1|done..]|].
  intros o d2 [-> ->]. cbn [next]. rewrite (quiet_contents P d _ x) by done.
  set (e := contents (dl_slru d) x). unfold found.
  destruct (Z.eqb_spec (log_timestamp e) 0) as [E1|E1], (Z.eqb_spec (log_distribXid e) 0) as [E2|E2]; cbn [negb andb].
  - apply proc_ret. split; [done|]. by rewrite decide_True by by apply zero_entry_eta.
  - apply wp_raise. split; [done|]. split; [done|]. right; right. by left.
  - apply wp_raise. split; [done|]. split; [done|]. right; right. by right.
  - apply proc_ret. split; [done|]. rewrite decide_False; [done|]. intros Ez. apply E1. by rewrite Ez.
Qed.

(** ** Growing *)

Definition logged (r : dlog_record) d d' : Prop := dl_xlog d' = dl_xlog d ++ [r].

Lemma DistributedLog_Extend_spec P x d :
  IS_QUERY_DISPATCHER = false → dl_ok P (dl_slru d) → 0 ≤ x →
  wp (DistributedLog_Extend x)
    (λ o d', dl_oldestXmin d' = dl_oldestXmin d ∧ dl_ok P (dl_slru d') ∧
       steps (λ q, q = TransactionIdToPage x) no_entry (dl_slru d) (dl_slru d') ∧
       disk_grows (dl_slru d) (dl_slru d') ∧
       (dl_xlog d' = dl_xlog d ∨ logged (DISTRIBUTEDLOG_ZEROPAGE (TransactionIdToPage x)) d d') ∧
       match o with
       | Ret _ => (TransactionIdToEntry x = 0 ∨ x = FirstNormalTransactionId) →
                  view (dl_slru d') (TransactionIdToPage x) = Some zero_page ∧
                  logged (DISTRIBUTEDLOG_ZEROPAGE (TransactionIdToPage x)) d d'
       | ERROR => dl_xlog d' = dl_xlog d ∧ io_failed (dl_slru d) (dl_slru d')
       | FATAL => False
       | PANIC => went_down d d'
       end) d.
Proof.
  intros Hqd Hok Hx. unfold DistributedLog_Extend. rewrite Hqd.
  destruct (Z.eqb_spec (TransactionIdToEntry x) 0) as [E1|E1], (Z.eqb_spec x FirstNormalTransactionId) as [E2|E2];
    cbn [negb andb].
  4: { apply proc_ret. split_and!; try done; [apply steps_refl|by left|]. tauto. }
  all: apply proc_bind; eapply proc_mono;
    [apply (DistributedLog_ZeroPage_logged P); [done|by apply page_nonneg]|];
    intros o d1 (H1 & H2 & H3 & H4 & H5); destruct o as [i| | |]; cbn [next];
    [apply proc_ret; destruct H5 as (_ & ? & ?); split_and!; try done; by right| |done|];
    destruct H5 as [H5 H6]; split_and!; try done; by left.
Qed.

(** ** Shrinking *)

(** A routine may have removed segments: then it has logged it. *)
Definition shrinks P c d d' : Prop :=
  dl_ok P (dl_slru d') ∧
  ((dl_xlog d' = dl_xlog d ∧ steps no_page no_entry (dl_slru d) (dl_slru d')) ∨
   (logged (DISTRIBUTEDLOG_TRUNCATE c) d d' ∧
    steps (before_cut (segment_start c)) no_entry (dl_slru d) (dl_slru d'))).

Lemma SimpleLruTruncate_steps P c s :
  dl_ok P s → 0 ≤ c →
  wp (SimpleLruTruncate c)
    (λ o s', dl_ok P s' ∧ steps (before_cut (segment_start c)) no_entry s s' ∧ blamed s o s') s.
Proof.
  intros Hok Hc. eapply proc_mono; [apply SimpleLruTruncate_spec; [|apply Hok]|].
  { intros p Hp. by apply precedes_segment. }
  intros o s' (Hinv & Htr & Hb & _).
  destruct (truncates_steps P no_entry (segment_start c) s s') as [? ?]; [done..|]. done.
Qed.

Lemma DistributedLog_Truncate_spec P x d :
  dl_ok P (dl_slru d) → 0 ≤ x →
  wp (DistributedLog_Truncate x)
    (λ o d', dl_oldestXmin d' = dl_oldestXmin d ∧ shrinks P (TransactionIdToPage x) d d' ∧
       match o with
       | Ret _ => True
       | ERROR => io_failed (dl_slru d) (dl_slru d')
       | FATAL => False
       | PANIC => went_down d d'
       end) d.
Proof.
  intros Hok Hx. unfold DistributedLog_Truncate. apply proc_bind, wp_get. cbn [next].
  destruct (scan_for_presence _ _); cbn [negb].
  2: { apply proc_ret. split_and!; [done| |done]. split; [done|]. left. split; [done|apply steps_refl]. }
  apply proc_bind. eapply proc_mono; [apply XLogInsert_spec|]. intros o d1 (E1 & E2 & Ho1).
  assert (Hsame : dl_xlog d1 = dl_xlog d ∨ logged (DISTRIBUTEDLOG_TRUNCATE (TransactionIdToPage x)) d d1 →
    shrinks P (TransactionIdToPage x) d d1).
  { intros Hor. split; [by rewrite E1|]. rewrite E1.
    destruct Hor; [left|right]; (split; [done|apply steps_refl]). }
  destruct o as [[]| | |]; cbn [next]; 
    [|done|done|split_and!; [done|apply Hsame, Ho1|right; apply Ho1]].
  apply wp_on_slru. rewrite E1. eapply proc_mono; [apply (SimpleLruTruncate_steps P); [done|by apply page_nonneg]|].
  intros o s2 (Hok2 & Hs2 & Hb2). split_and!; [done| |destruct o; try done; left; done].
  split; [done|]. right. split; done.
Qed.

(** ** The oldest id of interest *)

(** An entry that no snapshot of [ts] needs any more. *)
Definition passable (ts xminAll : Z) e : Prop :=
  log_timestamp e = ts → TransactionIdPrecedes (log_distribXid e) xminAll = true.

Definition normal (x : Z) : Prop := FirstNormalTransactionId ≤ x < 2 ^ 32.

Lemma normal_nonneg x : normal x → 0 ≤ x.
Proof. unfold normal, FirstNormalTransactionId. lia. Qed.

(** The number of ids from [x] to [y], around the end of the ids. *)
Definition ahead (x y : Z) : Z := (y - x) mod 2 ^ 32.

Lemma precedes_ahead x y : normal x → normal y → TransactionIdPrecedes x y = true ↔ 0 < ahead x y ≤ 2 ^ 31.
Proof.
  unfold normal, TransactionIdPrecedes, TransactionIdIsNormal, FirstNormalTransactionId, ahead, s32. intros Hx Hy.
  rewrite !(proj2 (Z.leb_le 3 _)) by lia. cbn [negb orb]. rewrite Z.ltb_lt.
  case_match; Z.to_euclidean_division_equations; lia.
Qed.

Lemma ahead_nonneg x y : 0 ≤ ahead x y.
Proof. apply Z.mod_pos_bound. lia. Qed.

Lemma ahead_self x : ahead x x = 0.
Proof. unfold ahead. by rewrite Z.sub_diag. Qed.

Lemma ahead_zero x y : normal x → normal y → ahead x y = 0 ↔ x = y.
Proof. unfold normal, FirstNormalTransactionId, ahead. intros Hx Hy. Z.to_euclidean_division_equations. lia. Qed.

(** The next id is one on, or behind the ids that are not normal. *)
Lemma ahead_advance x y :
  normal x → normal y → x ≠ y →
  normal (TransactionIdAdvance x) ∧ 0 < ahead x (TransactionIdAdvance x) ∧
  ahead x y = ahead x (TransactionIdAdvance x) + ahead (TransactionIdAdvance x) y.
Proof.
  unfold normal, TransactionIdAdvance, FirstNormalTransactionId, ahead, u32. intros Hx Hy Hne.
  destruct (decide (x = 2 ^ 32 - 1)) as [->|Hlt].
  - change ((2 ^ 32 - 1 + 1) mod 2 ^ 32) with 0. cbn [Z.ltb Z.compare].
    split_and!; [lia|lia|done|]. Z.to_euclidean_division_equations. lia.
  - rewrite (Z.mod_small (x + 1)) by lia. rewrite (proj2 (Z.ltb_ge _ _)) by lia.
    replace (x + 1 - x) with 1 by lia. rewrite (Z.mod_small 1) by lia.
    split_and!; [lia..|]. Z.to_euclidean_division_equations. lia.
Qed.

Lemma advance_ahead x y z :
  normal x → normal y → normal z → x ≠ y →
  normal (TransactionIdAdvance x) ∧ ahead (TransactionIdAdvance x) y < ahead x y ∧
  (ahead x z < ahead x y → z = x ∨ (ahead (TransactionIdAdvance x) z < ahead (TransactionIdAdvance x) y)).
Proof.
  intros Hx Hy Hz Hne. destruct (ahead_advance x y) as (? & ? & ?); [done..|].
  split_and!; [done|lia|]. intros Hlt. destruct (decide (z = x)) as [|Hzx]; [by left|right].
  destruct (ahead_advance x z) as (_ & _ & ?); [done..|congruence|]. lia.
Qed.

Lemma ahead_step x y z :
  normal x → normal y → normal z → x ≠ y →
  (ahead (TransactionIdAdvance x) z ≤ ahead (TransactionIdAdvance x) y → ahead x z ≤ ahead x y) ∧
  (ahead (TransactionIdAdvance x) z < ahead (TransactionIdAdvance x) y → ahead x z < ahead x y).
Proof.
  intros Hx Hy Hz Hne. destruct (ahead_advance x y) as (? & ? & ?); [done..|].
  pose proof (ahead_nonneg (TransactionIdAdvance x) y).
  destruct (decide (x = z)) as [<-|Hxz]; [rewrite ahead_self; lia|].
  destruct (ahead_advance x z) as (_ & _ & ?); [done..|]. lia.
Qed.

(** The slot in use holds its page. *)
Definition cursor_ok (cur : option (Z * nat)) s : Prop :=
  match cur with Some (p, i) => holding p i s | None => True end.

Lemma advance_read P cur x d :
  InRecovery = false → dl_ok P (dl_slru d) → 0 ≤ x → cursor_ok cur (dl_slru d) →
  wp (match cur with
      | Some (currPage, slotno) =>
          if TransactionIdToPage x =? currPage then ret slotno
          else on_slru (SimpleLruReadPage_ReadOnly (TransactionIdToPage x))
      | None => on_slru (SimpleLruReadPage_ReadOnly (TransactionIdToPage x))
      end)
    (λ o d', quiet P d d' ∧
       match o with
       | Ret i => holding (TransactionIdToPage x) i (dl_slru d')
       | ERROR => io_failed (dl_slru d) (dl_slru d') ∨ view (dl_slru d) (TransactionIdToPage x) = None
       | FATAL => False
       | PANIC => fsync_failed (dl_slru d) (dl_slru d')
       end) d.
Proof.
  intros Hrec Hok Hx Hcur. pose proof (page_nonneg x Hx) as Hp.
  assert (Hread : wp (on_slru (SimpleLruReadPage_ReadOnly (TransactionIdToPage x)))
    (λ o d', quiet P d d' ∧
       match o with
       | Ret i => holding (TransactionIdToPage x) i (dl_slru d')
       | ERROR => io_failed (dl_slru d) (dl_slru d') ∨ view (dl_slru d) (TransactionIdToPage x) = None
       | FATAL => False
       | PANIC => fsync_failed (dl_slru d) (dl_slru d')
       end) d).
  { apply wp_on_slru. eapply proc_mono; [apply SimpleLruReadPage_ReadOnly_spec; [apply Hok|done|by left]|].
    intros o s1 (Hinv1 & Hev1 & _ & Ho1). split; [by apply evolves_quiet|].
    destruct o; try done. destruct Ho1 as [?|Hn]; [by left|right].
    destruct (ev_view _ _ Hev1 _ Hp) as [<-|[_ E]]; congruence. }
  destruct cur as [[p i]|]; [|done]. destruct (Z.eqb_spec (TransactionIdToPage x) p) as [->|]; [|done].
  apply proc_ret. split; [by apply quiet_refl|done].
Qed.

(** The loop from [x] ends at [y]: it passes only entries that may be passed, and ends at [local]
    or at an entry that has to be kept. *)
Definition advanced (local ts xminAll : Z) s (x y : Z) : Prop :=
  ((TransactionIdPrecedes x local = false ∧ y = x) ∨
   (TransactionIdPrecedes x local = true ∧ ahead x y ≤ ahead x local)) ∧
  (∀ z, normal z → ahead x z < ahead x y → passable ts xminAll (contents s z)) ∧
  (y = local ∨ TransactionIdPrecedes y local = false ∨ ¬ passable ts xminAll (contents s y)).

Lemma advance_loop_spec P rounds local ts xminAll cur x d :
  InRecovery = false → dl_ok P (dl_slru d) → normal x → normal local → cursor_ok cur (dl_slru d) →
  ahead x local ≤ Z.of_nat rounds →
  wp (advance_loop rounds local ts xminAll cur x)
    (λ o d', quiet P d d' ∧
       match o with
       | Ret y => normal y ∧ ahead y local ≤ ahead x local ∧ advanced local ts xminAll (dl_slru d) x y
       | ERROR => io_failed (dl_slru d) (dl_slru d') ∨
                  ∃ z, normal z ∧ ahead x z < ahead x local ∧ view (dl_slru d) (TransactionIdToPage z) = None
       | FATAL => False
       | PANIC => fsync_failed (dl_slru d) (dl_slru d')
       end) d.
Proof.
  intros Hrec. revert cur x d. induction rounds as [|rounds IH]; intros cur x d Hok Hx Hl Hcur Hr; cbn [advance_loop].
  all: pose proof (precedes_ahead x local Hx Hl) as Hpre; pose proof (ahead_self x) as Hxx.
  all: destruct (TransactionIdPrecedes x local) eqn:Hprec; cbn [negb].
  1: { destruct Hpre as [Hpre _]. specialize (Hpre eq_refl). lia. }
  1,3: apply proc_ret; (split; [by apply quiet_refl|]); unfold advanced; split_and!; [done|lia|by left| |by right; left];
    intros z Hz Hlt; pose proof (ahead_nonneg x z); lia.
  destruct Hpre as [Hpre _]. specialize (Hpre eq_refl).
  assert (Hne : x ≠ local) by (intros ->; lia).
  apply proc_bind. eapply proc_mono; [apply (advance_read P cur x d Hrec Hok); [by apply normal_nonneg|done]|].
  intros o d1 [Hq1 Ho1]. destruct o as [i| | |]; cbn [next]; [| |done|done].
  2: { split; [done|]. destruct Ho1 as [?|Hn]; [by left|right]. exists x. split_and!; [done|lia|done]. }
  apply proc_bind. eapply proc_mono; [apply (get_entry_spec P); [apply Hq1|by apply normal_nonneg|done]|].
  intros o d2 [-> ->]. cbn [next]. rewrite (quiet_contents P d d1) by (done || by apply normal_nonneg).
  destruct ((log_timestamp _ =? ts) && negb _) eqn:Htest.
  { apply proc_ret. split; [done|]. apply andb_true_iff in Htest as [E1%Z.eqb_eq E2%negb_true_iff].
    unfold advanced. split_and!; [done|lia|right; split; [done|lia]|intros z Hz Hlt; pose proof (ahead_nonneg x z); lia|].
    right; right. intros Hpass. rewrite (Hpass E1) in E2. done. }
  assert (Hpass : passable ts xminAll (contents (dl_slru d) x)).
  { intros E1. apply andb_false_iff in Htest as [E%Z.eqb_neq|E%negb_false_iff]; [congruence|done]. }
  set (x' := TransactionIdAdvance x).
  destruct (advance_ahead x local local Hx Hl Hl Hne) as (Hx' & Hlt' & _). fold x' in Hx', Hlt'.
  eapply proc_mono; [apply (IH (Some (TransactionIdToPage x, i)) x' d1); [apply Hq1|done..|lia]|].
  intros o d2 [Hq2 Ho2]. split; [by eapply quiet_trans|].
  pose proof Hq1 as (_ & _ & Hst1). pose proof Hq2 as (_ & _ & Hst2).
  pose proof (st_ios _ _ _ _ Hst1). pose proof (st_ios _ _ _ _ Hst2).
  destruct o as [y| | |]; [| |done|by apply (fsync_failed_mono _ (dl_slru d1) (dl_slru d2))].
  - destruct Ho2 as (Hy & Hle & Hcase & Hskip & Hend). unfold advanced. split_and!; [done|lia| | |].
    + right. split; [done|]. apply (ahead_step x local y); try done. fold x'.
      destruct Hcase as [[Hnp ->]|[_ ?]]; [|done].
      pose proof (ahead_nonneg x' local). rewrite ahead_self. lia.
    + intros z Hz Hlt. assert (Hxy : x ≠ y) by (intros ->; pose proof (ahead_nonneg y z); pose proof (ahead_self y); lia).
      destruct (advance_ahead x y z) as (_ & _ & [->|Hz']); try done.
      rewrite <-(quiet_contents P d d1) by (done || by apply normal_nonneg). by apply Hskip.
    + destruct Hend as [?|[?|Hend]]; auto. right; right.
      by rewrite <-(quiet_contents P d d1) by (done || by apply normal_nonneg).
  - destruct Ho2 as [?|(z & Hz & Hlt & Hn)]; [left; by apply (io_failed_mono _ (dl_slru d1) (dl_slru d2))|right].
    exists z. split_and!; [done|by apply (ahead_step x local z)|].
    destruct (view (dl_slru d) (TransactionIdToPage z)) eqn:E; [|done].
    destruct (quiet_view P d d1 (TransactionIdToPage z)) as [? ?]; [done|apply page_nonneg; by apply normal_nonneg|by rewrite E|congruence].
Qed.

Lemma DistributedLog_AdvanceOldestXmin_spec P rounds local ts xminAll d :
  InRecovery = false → dl_ok P (dl_slru d) → normal (dl_oldestXmin d) → normal local →
  ahead (dl_oldestXmin d) local ≤ Z.of_nat rounds →
  let x := dl_oldestXmin d in
  wp (DistributedLog_AdvanceOldestXmin rounds local ts xminAll)
    (λ o d', normal (dl_oldestXmin d') ∧ shrinks P (TransactionIdToPage (dl_oldestXmin d')) d d' ∧
       match o with
       | Ret y => y = dl_oldestXmin d' ∧ advanced local ts xminAll (dl_slru d) x y
       | ERROR => io_failed (dl_slru d) (dl_slru d') ∨
                  ∃ z, normal z ∧ ahead x z < ahead x local ∧ view (dl_slru d) (TransactionIdToPage z) = None
       | FATAL => False
       | PANIC => went_down d d'
       end ∧
       (dl_oldestXmin d' = x ∨ advanced local ts xminAll (dl_slru d) x (dl_oldestXmin d'))) d.
Proof.
  intros Hrec Hok Hx Hl Hr x. unfold DistributedLog_AdvanceOldestXmin. apply proc_bind, wp_get. cbn [next].
  apply proc_bind. eapply proc_mono; [by apply (advance_loop_spec P)|].
  intros o d1 [Hq1 Ho1]. pose proof Hq1 as ((E1 & E2 & E3) & Hok1 & Hst1).
  assert (Hsh : ∀ c, shrinks P c d d1) by (intros c; split; [done|]; by left).
  destruct o as [y| | |]; cbn [next]; 
    [|rewrite E2; split_and!; auto|done|rewrite E2; split_and!; auto; by left].
  destruct Ho1 as (Hy & Hle & Hadv).
  apply proc_bind, wp_modify. cbn [next]. set (d2 := set_oldestXmin y d1).
  apply proc_bind. destruct (_ <? _).
  2: { apply proc_ret. cbn [next]. apply proc_ret. split_and!; auto. apply Hsh. }
  eapply proc_mono; [apply (DistributedLog_Truncate_spec P y d2); [done|by apply normal_nonneg]|].
  intros o d3 (E4 & [Hok3 Hsh3] & Ho3). change (dl_oldestXmin d2) with y in E4.
  assert (Hsh3' : shrinks P (TransactionIdToPage (dl_oldestXmin d3)) d d3).
  { rewrite E4. split; [done|]. unfold logged in *. change (dl_slru d2) with (dl_slru d1) in Hsh3.
    change (dl_xlog d2) with (dl_xlog d1) in Hsh3. rewrite E1 in Hsh3.
    destruct Hsh3 as [[? ?]|[? ?]]; [left|right]; (split; [done|]); (eapply steps_trans; [|done]); [done|].
    eapply steps_mono; [..|done]; [intros q []|done]. }
  assert (Hios : (ios (dl_slru d) ≤ ios (dl_slru d1))%nat) by apply Hst1.
  assert (Hn : normal (dl_oldestXmin d3)) by by rewrite E4.
  assert (Hend : dl_oldestXmin d3 = x ∨ advanced local ts xminAll (dl_slru d) x (dl_oldestXmin d3))
    by (rewrite E4; by right).
  destruct o as [[]| | |]; cbn [next]; [apply proc_ret|..]; split_and!; try done.
  - left. by apply (io_failed_mono _ (dl_slru d1) (dl_slru d3)).
  - destruct Ho3 as [Ho3|Ho3]; [left; by apply (fsync_failed_mono _ (dl_slru d1) (dl_slru d3))|right].
    by rewrite <-E3.
Qed.
End Run.
