(* ===== verification/DistribLogSpec.v ===== *)
(** * The distributed log as a map

    While the server runs, the paged log answers as the map [DistributedLog] from local ids to
    entries does: the theorems on distributed snapshots, which are about the map, are about the
    pages.  The ids of interest lie between the oldest one and the next one to be assigned. *)
From S2P Require Import Prelude Proc DistributedSnapshot DistributedSnapshotFacts.
From S2P Require Import Slru SlruFacts SlruStore DistribLog DistribLogFacts DistribLogOps DistribLogRun.

Section Spec.
Context {env : DlogEnv} {blk : BlockSize}.
Implicit Types (s : slru dlpage) (d : dlog) (p x y z : Z) (e : DistributedLogEntry) (L : DistributedLog).

(** ** Ids of interest *)

Definition SEGMENT_IDS : Z := SLRU_PAGES_PER_SEGMENT * ENTRIES_PER_PAGE.

(** The most ids there may be between the oldest and the next one. *)
Definition window : Z := 2 ^ 31 - SEGMENT_IDS.

Definition live (old next z : Z) : Prop := normal z ∧ ahead old z < ahead old next.

Lemma segment_ids_range : 4096 ≤ SEGMENT_IDS ≤ 2 ^ 17.
Proof.
  unfold SEGMENT_IDS, SLRU_PAGES_PER_SEGMENT. destruct entries_per_page as (j & Hj & ->).
  assert (2 ^ 7 ≤ 2 ^ j ≤ 2 ^ 12) by (split; apply Z.pow_le_mono_r; lia). lia.
Qed.

Lemma ahead_add x y z : ahead x z = (ahead x y + ahead y z) mod 2 ^ 32.
Proof. unfold ahead. rewrite <-Zplus_mod. f_equal. lia. Qed.

Lemma ahead_lt x y : ahead x y < 2 ^ 32.
Proof. apply Z.mod_pos_bound. lia. Qed.

(** Walking from [x] to [z] by way of [y]. *)
Lemma ahead_between x y z : ahead x y ≤ ahead x z → ahead x z = ahead x y + ahead y z.
Proof.
  intros Hle. pose proof (ahead_add x y z) as Hz. revert Hz.
  pose proof (ahead_nonneg x y). pose proof (ahead_nonneg y z). pose proof (ahead_lt x y). pose proof (ahead_lt y z).
  Z.to_euclidean_division_equations. lia.
Qed.

Lemma ahead_sum x y z : ahead x y + ahead y z < 2 ^ 32 → ahead x z = ahead x y + ahead y z.
Proof.
  intros Hlt. rewrite (ahead_add x y z). apply Z.mod_small.
  pose proof (ahead_nonneg x y). pose proof (ahead_nonneg y z). lia.
Qed.

Lemma advance_normal x : normal x → normal (TransactionIdAdvance x).
Proof.
  unfold normal, TransactionIdAdvance, FirstNormalTransactionId, u32. intros Hx.
  pose proof (Z.mod_pos_bound (x + 1) (2 ^ 32)). case_match; lia.
Qed.

Lemma live_next old next z :
  normal next → ahead old next ≤ window → live old (TransactionIdAdvance next) z → z = next ∨ live old next z.
Proof.
  intros Hn Hw [Hz Hlt]. destruct (decide (next = z)) as [|Hne]; [by left|right]. split; [done|].
  destruct (ahead_advance next z) as (Hn' & Hpos & Hsplit); [done..|].
  destruct (Z.lt_ge_cases (ahead old z) (ahead old next)) as [|Hge]; [done|exfalso].
  pose proof (ahead_between old next z Hge). pose proof (ahead_nonneg (TransactionIdAdvance next) z).
  assert (ahead next (TransactionIdAdvance next) ≤ 4).
  { clear -Hn. revert Hn. unfold normal, TransactionIdAdvance, FirstNormalTransactionId, ahead, u32.
    intros Hn. case_match; Z.to_euclidean_division_equations; lia. }
  pose proof segment_ids_range. unfold window in Hw.
  rewrite (ahead_sum old next (TransactionIdAdvance next)) in Hlt by lia. lia.
Qed.

(** The next id begins no page. *)
Definition started (next : Z) : Prop := TransactionIdToEntry next ≠ 0 ∧ next ≠ FirstNormalTransactionId.

Lemma started_dec next : {started next} + {¬ started next}.
Proof. unfold started. destruct (decide (TransactionIdToEntry next ≠ 0 ∧ next ≠ FirstNormalTransactionId)); auto. Qed.

Lemma live_new_page old next z :
  normal next → ¬ started next → ahead old next ≤ window → live old next z →
  TransactionIdToPage z ≠ TransactionIdToPage next.
Proof.
  intros Hn Hst Hw [Hz Hlt] Hp. pose proof (entry_range z) as Hez. pose proof (entry_range next) as Hen.
  pose proof segment_ids_range as Hseg. unfold SEGMENT_IDS, SLRU_PAGES_PER_SEGMENT in Hseg.
  assert (Hle : next ≤ z).
  { unfold started in Hst. destruct (decide (TransactionIdToEntry next = 0)) as [E|E].
    - rewrite (page_entry z), (page_entry next), Hp, E. lia.
    - destruct (decide (next = FirstNormalTransactionId)) as [->|]; [apply Hz|tauto]. }
  assert (Hnz : ahead next z = z - next).
  { unfold ahead. apply Z.mod_small. pose proof (page_entry z). pose proof (page_entry next).
    unfold normal in Hz, Hn. split; [lia|]. unfold FirstNormalTransactionId in *. lia. }
  rewrite (ahead_sum old next z) in Hlt; [lia|]. rewrite Hnz.
  pose proof (page_entry z). pose proof (page_entry next). rewrite Hp in *. unfold window, SEGMENT_IDS, SLRU_PAGES_PER_SEGMENT in Hw. lia.
Qed.

(** No segment with an id up to [window] ids on is removed. *)
Lemma live_kept y z :
  normal y → normal z → ahead y z ≤ window →
  ¬ before_cut (segment_start (TransactionIdToPage y)) (TransactionIdToPage z).
Proof.
  intros Hy Hz. unfold before_cut, PagePrecedes, DistributedLogCtl, window, SEGMENT_IDS, normal,
    FirstNormalTransactionId, SLRU_PAGES_PER_SEGMENT, ahead in *.
  assert (Hs : ∀ r, 0 ≤ r → ∃ t i, segment_start (TransactionIdToPage r) = 32 * t ∧ 0 ≤ t ∧
    r = t * (32 * ENTRIES_PER_PAGE) + i ∧ 0 ≤ i < 32 * ENTRIES_PER_PAGE).
  { intros r Hr. pose proof (page_entry r) as Hpe. pose proof (entry_range r). pose proof (page_nonneg r Hr).
    unfold segment_start, SLRU_PAGES_PER_SEGMENT. rewrite Z.rem_mod_nonneg by lia.
    set (q := TransactionIdToPage r) in *. set (E := ENTRIES_PER_PAGE) in *.
    exists (q / 32), ((q mod 32) * E + TransactionIdToEntry r).
    pose proof (Z.div_mod q 32). pose proof (Z.mod_pos_bound q 32). pose proof (Z.div_pos q 32). split_and!; nia. }
  destruct (Hs y) as (u & b & -> & Hu & Ey & Hb); [lia|]. destruct (Hs z) as (t & a & -> & Ht & Ez & Ha); [lia|].
  rewrite precedes_by_page by lia. rewrite Z.ltb_lt. unfold s32. subst y z. clear Hs.
  destruct entries_per_page as (j & Hj & E). rewrite E in *.
  assert (j = 7 ∨ j = 8 ∨ j = 9 ∨ j = 10 ∨ j = 11 ∨ j = 12) as Hcase by lia.
  replace (32 * t * 2 ^ j - 32 * u * 2 ^ j) with ((t - u) * (32 * 2 ^ j)) by ring.
  replace (t * (32 * 2 ^ j) + a - (u * (32 * 2 ^ j) + b)) with ((t - u) * (32 * 2 ^ j) + (a - b)) by ring.
  set (v := t - u).
  destruct Hcase as [->|[->|[->|[->|[->| ->]]]]]; case_match; Z.to_euclidean_division_equations; lia.
Qed.

(** ** The map *)

(** Both halves of the entry are set. *)
Definition whole (x : Z) e : Prop := log_timestamp e ≠ 0 ∧ log_distribXid e ≠ 0.

Definition entry L x : DistributedLogEntry := default zero_entry (log_entries L !! x).

Definition with_oldest y L : DistributedLog := mkLog y (log_entries L).
Definition with_entries (xs : list Z) e L : DistributedLog :=
  mkLog (oldestXmin L) (foldr (λ x, <[x := e]>) (log_entries L) xs).
Definition without x L : DistributedLog := mkLog (oldestXmin L) (delete x (log_entries L)).

Record represents (next : Z) d L : Prop := mkRepresents {
  rep_ok : dl_ok whole (dl_slru d);
  rep_oldest : oldestXmin L = dl_oldestXmin d;
  rep_normal : normal (dl_oldestXmin d) ∧ normal next;
  rep_window : ahead (dl_oldestXmin d) next ≤ window;
  rep_pages z : live (dl_oldestXmin d) next z → is_Some (view (dl_slru d) (TransactionIdToPage z));
  rep_entries z : live (dl_oldestXmin d) next z → contents (dl_slru d) z = entry L z;
  rep_started : started next → is_Some (view (dl_slru d) (TransactionIdToPage next));
  rep_fresh z : started next → next ≤ z → TransactionIdToPage z = TransactionIdToPage next →
    contents (dl_slru d) z = zero_entry;
}.

Lemma entry_with_entries xs e L z : entry (with_entries xs e L) z = if decide (z ∈ xs) then e else entry L z.
Proof.
  unfold entry, with_entries. cbn [log_entries]. induction xs as [|x xs IH]; [done|]. cbn [foldr].
  destruct (decide (z = x)) as [->|Hne].
  { rewrite lookup_insert_eq. by rewrite decide_True by by left. }
  rewrite lookup_insert_ne by done. rewrite IH.
  destruct (decide (z ∈ xs)) as [Hin|Hin], (decide (z ∈ x :: xs)) as [Hin'|Hin']; try done; exfalso;
    rewrite elem_of_cons in Hin'; naive_solver.
Qed.

Lemma entry_without x L z : entry (without x L) z = if decide (z = x) then zero_entry else entry L z.
Proof.
  unfold entry, without. cbn [log_entries]. case_decide as E; [subst; by rewrite lookup_delete_eq|].
  by rewrite lookup_delete_ne.
Qed.

Lemma live_nonneg old next z : live old next z → 0 ≤ z.
Proof. intros [? _]. by apply normal_nonneg. Qed.

(** Nothing that matters is lost or set. *)
Lemma represents_keep next d d' L (xs : list Z) e :
  represents next d L → dl_ok whole (dl_slru d') → dl_oldestXmin d' = dl_oldestXmin d →
  steps no_page (set_to xs e) (dl_slru d) (dl_slru d') → (∀ x, x ∈ xs → live (dl_oldestXmin d) next x) →
  ∃ ys, ys ⊆ xs ∧ represents next d' (with_entries ys e L) ∧ ∀ x, x ∈ xs → contents (dl_slru d') x = e → x ∈ ys.
Proof.
  intros Hrep Hok Eold Hst Hxs. set (ys := filter (λ x, contents (dl_slru d') x = e) xs).
  assert (Hys : ∀ x, x ∈ ys ↔ contents (dl_slru d') x = e ∧ x ∈ xs) by (intros x; unfold ys; by rewrite list_elem_of_filter).
  exists ys. split_and!; [intros x; by rewrite Hys; intros []| |intros x Hx He; by apply Hys].
  destruct Hrep, rep_normal0 as [Hold Hnext].
  split; rewrite ?Eold; try done.
  - intros z Hz. apply (st_exists _ _ _ _ Hst); [by eapply page_nonneg, live_nonneg|intros []|auto].
  - intros z Hz. rewrite entry_with_entries, <-rep_entries0 by done.
    destruct (st_contents _ _ _ _ Hst z) as [E|[E [Hin E']]]; [by eapply live_nonneg|intros []| |].
    + rewrite E. case_decide as Hd; [|done]. apply Hys in Hd as [Hd _]. by rewrite E in Hd.
    + rewrite decide_True; [done|]. by apply Hys.
  - intros Hs. apply (st_exists _ _ _ _ Hst); [by apply page_nonneg, normal_nonneg|intros []|auto].
  - intros z Hs Hle Hp. assert (0 ≤ next) by by apply normal_nonneg.
    destruct (st_contents _ _ _ _ Hst z) as [E|[E [Hin E']]]; [lia|intros []|rewrite E; auto|exfalso].
    destruct (Hxs z Hin) as [Hz Hlt]. pose proof (entry_range z). pose proof (entry_range next).
    pose proof (page_entry z). pose proof (page_entry next). pose proof segment_ids_range as Hseg.
    assert (Hnz : ahead next z = z - next) by (apply Z.mod_small; unfold normal in Hz; lia).
    unfold window, SEGMENT_IDS, SLRU_PAGES_PER_SEGMENT in *. rewrite Hp in *.
    rewrite (ahead_sum (dl_oldestXmin d) next z) in Hlt; lia.
Qed.

Lemma represents_quiet next d d' L : represents next d L → quiet whole d d' → represents next d' L.
Proof.
  intros Hrep ((_ & E & _) & Hok & Hst).
  destruct (represents_keep next d d' L [] zero_entry) as (ys & Hys & H & _); [done..| | |].
  - eapply steps_mono; [..|exact Hst]; [done|apply set_to_nil].
  - intros x Hx. by apply elem_of_nil in Hx.
  - destruct ys as [|y ys]; [by destruct L|]. exfalso. apply (not_elem_of_nil y), Hys. by left.
Qed.

Lemma check_found L x e :
  oldestXmin L ≠ InvalidTransactionId → TransactionIdPrecedes x (oldestXmin L) = false →
  entry L x = e → e = zero_entry ∨ whole x e → log_committed_check L x = Ok (found e).
Proof.
  intros Hi Hp He Hw. unfold log_committed_check, found. rewrite (proj2 (Z.eqb_neq _ _)) by done. rewrite Hp.
  change (mkLogEntry 0 0) with zero_entry. fold (entry L x). rewrite He.
  destruct Hw as [->|[H1 H2]]; [done|].
  rewrite (proj2 (Z.eqb_neq _ _) H1), (proj2 (Z.eqb_neq _ _) H2). cbn [negb andb].
  rewrite decide_False; [done|]. intros ->. done.
Qed.

Lemma live_not_before old next z : normal old → ahead old next ≤ window → live old next z → TransactionIdPrecedes z old = false.
Proof.
  intros Ho Hw [Hz Hlt]. destruct (TransactionIdPrecedes z old) eqn:E; [exfalso|done].
  apply precedes_ahead in E; [|done..]. pose proof segment_ids_range. unfold window in Hw.
  pose proof (ahead_add z old z) as Hs. rewrite ahead_self in Hs. revert Hs.
  pose proof (ahead_nonneg old z). rewrite Z.mod_small; lia.
Qed.

(** ** The routines *)

Hypothesis HInRecovery : InRecovery = false.
Hypothesis Hsegment : IS_QUERY_DISPATCHER = false.

(** A routine ends as [Q] says, or a request or the write-ahead log failed and the log is as [R] says. *)
Definition runs {A} d (Q : A → dlog → Prop) (R : dlog → Prop) (o : outcome A) d' : Prop :=
  match o with
  | Ret a => Q a d'
  | ERROR => io_failed (dl_slru d) (dl_slru d') ∧ R d'
  | FATAL => False
  | PANIC => went_down d d'
  end.

Lemma check_refines next d L x :
  represents next d L →
  live (dl_oldestXmin d) next x ∨ (0 ≤ x ∧ TransactionIdPrecedes x (dl_oldestXmin d) = true) →
  wp (DistributedLog_CommittedCheck x)
    (runs d (λ r d', log_committed_check L x = Ok r ∧ represents next d' L) (λ d', represents next d' L)) d.
Proof.
  intros Hrep Hx. pose proof (rep_normal _ _ _ Hrep) as [Hold Hnext]. pose proof (rep_ok _ _ _ Hrep) as Hok.
  assert (Hx0 : 0 ≤ x) by (destruct Hx as [?|[? _]]; [by eapply live_nonneg|done]).
  assert (Hi : dl_oldestXmin d ≠ InvalidTransactionId).
  { destruct Hold as [Hold _]. unfold FirstNormalTransactionId, InvalidTransactionId in *. lia. }
  eapply proc_mono; [apply (DistributedLog_CommittedCheck_spec whole x d); [done..|by left]|].
  intros o d' [Hq Ho]. pose proof (represents_quiet _ _ _ _ Hrep Hq) as Hrep'.
  destruct o as [r| | |]; [| |done|by left].
  - split; [|done]. destruct Hx as [Hx|[_ Hx]].
    + rewrite (live_not_before _ _ _ Hold (rep_window _ _ _ Hrep) Hx) in Ho. subst r.
      apply check_found; rewrite ?(rep_oldest _ _ _ Hrep); [done| |by rewrite (rep_entries _ _ _ Hrep)|].
      * by apply (live_not_before _ next); [|apply Hrep|].
      * by apply dl_ok_contents.
    + unfold log_committed_check. rewrite (rep_oldest _ _ _ Hrep), Hx in *. subst r.
      by rewrite (proj2 (Z.eqb_neq _ _)).
  - split; [|done]. destruct Ho as [Hp Ho], Hx as [Hx|[_ Hx]]; [|congruence].
    destruct Ho as [?|[Hn|Ht]]; [done|exfalso..].
    + apply (rep_pages _ _ _ Hrep) in Hx as [b Hb]. congruence.
    + destruct (dl_ok_contents _ _ x Hok Hx0) as [E|[? ?]]; [|unfold torn in Ht; tauto].
      rewrite E in Ht. destruct Ht as [[_ Ht]|[Ht _]]; by apply Ht.
Qed.

Lemma commit_refines next d L xid n xids ts g :
  let e := mkLogEntry ts g in let ids := tree_ids xid n xids in
  represents next d L → ts ≠ 0 → g ≠ 0 → readable n xids → (∀ x, x ∈ ids → live (dl_oldestXmin d) next x) →
  (∀ x, x ∈ ids → entry L x = zero_entry ∨ entry L x = e) →
  wp (DistributedLog_SetCommittedTree xid n xids ts g false)
    (runs d (λ _ d', represents next d' (with_entries ids e L))
       (λ d', ∃ ys, ys ⊆ ids ∧ represents next d' (with_entries ys e L))) d.
Proof.
  intros e ids Hrep Hts Hg Hread Hlive Hfree.
  assert (He : e ≠ zero_entry) by (by intros [= ? ?]).
  eapply proc_mono; [apply (DistributedLog_SetCommittedTree_spec whole xid n xids ts g false d); try done|].
  - apply Hrep.
  - intros x Hx. split; [by eapply live_nonneg, Hlive|done].
  - intros x Hx _. by apply Hrep, Hlive.
  - fold e ids. intros o d' ((_ & Eo & _) & Hok' & Hst & _ & Ho).
    assert (Hst' : steps no_page (set_to ids e) (dl_slru d) (dl_slru d')).
    { eapply steps_mono; [..|exact Hst]; [by intros q (? & _)|done]. }
    destruct (represents_keep next d d' L ids e) as (ys & Hys & Hrep' & Hall); [done..|].
    destruct o as [[]| | |]; [| |done|by left].
    + assert (Hin : ∀ x, x ∈ ids → x ∈ ys). { intros x Hx. apply Hall; [done|]. apply Ho; [done|]. by intros (? & _). }
      assert (Eq : ∀ z, entry (with_entries ids e L) z = entry (with_entries ys e L) z).
      { intros z. rewrite !entry_with_entries.
        destruct (decide (z ∈ ids)) as [H1|H1], (decide (z ∈ ys)) as [H2|H2]; naive_solver. }
      destruct Hrep'. split; try done. intros z Hz. rewrite Eq. auto.
    + split; [|by exists ys]. destruct Ho as [?|(x & f & Hx & Hw & Hne & Hf)]; [done|exfalso].
      assert (E : entry L x = f).
      { rewrite <-(rep_entries _ _ _ Hrep) by auto. apply Hf. by intros (? & _). }
      destruct (Hfree x Hx) as [E'|E']; [|congruence]. rewrite E in E'. rewrite E' in Hw. destruct Hw as [Hw _].
      by apply Hw.
Qed.

Lemma extend_idle next d : started next → DistributedLog_Extend next d = (Ret tt, d).
Proof.
  intros [H1 H2]. unfold DistributedLog_Extend. rewrite Hsegment, !(proj2 (Z.eqb_neq _ _)) by done. done.
Qed.

(** The id behind [next] is on its page, unless it begins another one. *)
Lemma advance_page next :
  normal next → started (TransactionIdAdvance next) →
  TransactionIdAdvance next = next + 1 ∧ TransactionIdToPage (TransactionIdAdvance next) = TransactionIdToPage next.
Proof.
  intros Hn [H1 H2]. unfold TransactionIdAdvance in *. destruct (_ <? _) eqn:E; [done|]. apply Z.ltb_ge in E.
  assert (Hlt : next + 1 < 2 ^ 32).
  { destruct (decide (next = 2 ^ 32 - 1)) as [->|]; [done|]. destruct Hn. lia. }
  assert (Eu : u32 (next + 1) = next + 1) by (apply Z.mod_small; destruct Hn; unfold FirstNormalTransactionId in *; lia).
  rewrite Eu in *. split; [done|]. unfold TransactionIdToEntry, TransactionIdToPage in *. pose proof entries_pos.
  revert H1. generalize ENTRIES_PER_PAGE H. intros P HP H1. pose proof (Z.div_mod next P). pose proof (Z.mod_pos_bound next P).
  symmetry. apply (Z.div_unique_pos (next + 1) P _ (next mod P + 1)); [|lia].
  destruct (decide (next mod P + 1 = P)) as [E'|]; [|lia]. exfalso. apply H1.
  replace (next + 1) with ((next / P + 1) * P) by lia. apply Z.mod_mul. lia.
Qed.

Lemma extend_refines next d L :
  represents next d L → ahead (dl_oldestXmin d) (TransactionIdAdvance next) ≤ window →
  wp (DistributedLog_Extend next)
    (runs d (λ _ d', represents (TransactionIdAdvance next) d' (without next L)) (λ d', represents next d' L)) d.
Proof.
  intros Hrep Hw. pose proof (rep_normal _ _ _ Hrep) as [Hold Hnext]. pose proof (rep_window _ _ _ Hrep) as Hwin.
  assert (Hnext' : normal (TransactionIdAdvance next)) by by apply advance_normal.
  assert (Hcases : ∀ z, live (dl_oldestXmin d) (TransactionIdAdvance next) z → z = next ∨ live (dl_oldestXmin d) next z)
    by (intros z; by apply live_next).
  destruct (started_dec next) as [Hs|Hs].
  - unfold wp. rewrite extend_idle by done. cbn [fst snd runs]. destruct Hrep. split; try done.
    + intros z [->|Hz]%Hcases; auto.
    + intros z Hz. rewrite entry_without. destruct (Hcases z Hz) as [->|Hz']; [rewrite decide_True by done; by apply rep_fresh0|].
      case_decide as E; [|by apply rep_entries0]. subst z. destruct Hz'. lia.
    + intros Hs'. destruct (advance_page next) as [_ ->]; auto.
    + intros z Hs' Hle Hp. destruct (advance_page next) as [E1 E2]; [done..|]. apply rep_fresh0; [done|lia|congruence].
  - assert (Hnp : ∀ z, live (dl_oldestXmin d) next z → TransactionIdToPage z ≠ TransactionIdToPage next)
      by (intros z; by apply live_new_page).
    eapply proc_mono; [apply (DistributedLog_Extend_spec whole next d); [done|apply Hrep|by apply normal_nonneg]|].
    intros o d' (Eo & Hok' & Hst & _ & _ & Ho).
    assert (Hpages : ∀ z, live (dl_oldestXmin d) next z → is_Some (view (dl_slru d') (TransactionIdToPage z))).
    { intros z Hz. apply (st_exists _ _ _ _ Hst); [by eapply page_nonneg, live_nonneg|auto|by apply Hrep]. }
    assert (Hent : ∀ z, live (dl_oldestXmin d) next z → contents (dl_slru d') z = entry L z).
    { intros z Hz. rewrite <-(rep_entries _ _ _ Hrep) by done.
      destruct (st_contents _ _ _ _ Hst z) as [?|[_ []]]; [by eapply live_nonneg|auto|done]. }
    destruct o as [[]| | |]; [|split; [apply Ho|]|done|done].
    + destruct Ho as [Hv _].
      { unfold started in Hs. destruct (decide (TransactionIdToEntry next = 0)) as [|E0]; [by left|right].
        destruct (decide (next = FirstNormalTransactionId)); [done|tauto]. }
      assert (Hzero : ∀ z, TransactionIdToPage z = TransactionIdToPage next → contents (dl_slru d') z = zero_entry).
      { intros z Hz. unfold contents. rewrite Hz, Hv. apply zero_page_entry. }
      split; rewrite ?Eo; try done; [by apply Hrep|..].
      * intros z [->|Hz]%Hcases; [by rewrite Hv|auto].
      * intros z Hz. rewrite entry_without. case_decide as E; [subst z; by apply Hzero|].
        destruct (Hcases z Hz) as [?|?]; [done|auto].
      * intros Hs'. destruct (advance_page next) as [_ ->]; [done..|]. by rewrite Hv.
      * intros z Hs' Hle Hp. apply Hzero. destruct (advance_page next) as [_ E2]; [done..|]. congruence.
    + split; rewrite ?Eo; try done; by apply Hrep.
Qed.

Lemma live_later old next y z :
  normal y → ahead old y ≤ ahead old next → live y next z → live old next z.
Proof.
  intros Hy Hle [Hz Hlt]. split; [done|].
  pose proof (ahead_between old y next Hle). pose proof (ahead_lt old next). pose proof (ahead_nonneg y z).
  rewrite (ahead_sum old y z); lia.
Qed.

Lemma advance_refines rounds next d L local ts xminAll :
  let x := dl_oldestXmin d in
  represents next d L → normal local → ahead x local ≤ ahead x next → ahead x local ≤ Z.of_nat rounds →
  wp (DistributedLog_AdvanceOldestXmin rounds local ts xminAll)
    (runs d (λ y d', represents next d' (with_oldest y L) ∧ ahead x y ≤ ahead x local ∧
               (∀ z, live x y z → passable ts xminAll (entry L z)) ∧
               (y = local ∨ live x local y ∧ ¬ passable ts xminAll (entry L y)))
       (λ d', ∃ y, represents next d' (with_oldest y L))) d.
Proof.
  intros x Hrep Hl Hle Hr. pose proof (rep_normal _ _ _ Hrep) as [Hold Hnext].
  pose proof (rep_window _ _ _ Hrep) as Hwin. pose proof segment_ids_range as Hseg.
  assert (Hent : ∀ z, live x local z → live x next z). { intros z [Hz Hz']. split; [done|lia]. }
  eapply proc_mono; [by apply (DistributedLog_AdvanceOldestXmin_spec whole rounds local ts xminAll d); [|apply Hrep|..]|].
  fold x. intros o d' (Hn' & [Hok' Hsh] & Ho & Hor). set (y := dl_oldestXmin d') in *.
  assert (Hyl : ahead x y ≤ ahead x local).
  { pose proof (ahead_nonneg x local). pose proof (ahead_self x).
    destruct Hor as [->|([[_ ->]|[_ ?]] & _)]; lia. }
  assert (Hyn : ahead y next ≤ window).
  { pose proof (ahead_between x y next). pose proof (ahead_nonneg x y). fold x in Hwin. lia. }
  assert (Hst : steps (λ p, before_cut (segment_start (TransactionIdToPage y)) p) no_entry (dl_slru d) (dl_slru d')).
  { destruct Hsh as [[_ Hst]|[_ Hst]]; [|done]. eapply steps_mono; [..|exact Hst]; [intros q []|done]. }
  assert (Hlater : ∀ z, live y next z → live x next z) by (intros z; apply live_later; [done|lia]).
  assert (Hkept : ∀ z, live y next z → ¬ before_cut (segment_start (TransactionIdToPage y)) (TransactionIdToPage z)).
  { intros z [Hz Hz']. apply live_kept; [done..|lia]. }
  assert (Hkn := live_kept y next Hn' Hnext Hyn).
  assert (Hrep' : represents next d' (with_oldest y L)).
  { split; fold y; try done.
    - intros z Hz. apply (st_exists _ _ _ _ Hst); [by eapply page_nonneg, live_nonneg|auto|]. by apply Hrep, Hlater.
    - intros z Hz. change (entry (with_oldest y L) z) with (entry L z). rewrite <-(rep_entries _ _ _ Hrep) by by apply Hlater.
      destruct (st_contents _ _ _ _ Hst z) as [?|[_ []]]; [by eapply live_nonneg|auto|done].
    - intros Hs. apply (st_exists _ _ _ _ Hst); [by apply page_nonneg, normal_nonneg|done|by apply (rep_started _ _ _ Hrep)].
    - intros z Hs Hz Hp. rewrite <-(rep_fresh _ _ _ Hrep z Hs Hz Hp). pose proof (normal_nonneg _ Hnext).
      destruct (st_contents _ _ _ _ Hst z) as [?|[_ []]]; [lia|by rewrite Hp|done]. }
  destruct o as [w| | |]; [| |done|done].
  - destruct Ho as [-> (Hcase & Hskip & Hend)]. split_and!; [done..| |].
    + intros z [Hz Hz']. rewrite <-(rep_entries _ _ _ Hrep); [auto|]. split; [done|]. fold x. lia.
    + destruct (decide (y = local)) as [|Hne]; [by left|right].
      assert (Hlt : live x local y).
      { split; [done|]. destruct (Z.lt_ge_cases (ahead x y) (ahead x local)) as [|Hge]; [done|exfalso]. apply Hne.
        assert (ahead x y = ahead x local) by lia. pose proof (ahead_between x y local). apply ahead_zero; [done..|]. lia. }
      split; [done|]. rewrite <-(rep_entries _ _ _ Hrep) by auto.
      destruct Hend as [?|[Hp|?]]; [done|exfalso|done].
      assert (TransactionIdPrecedes y local = true); [|congruence]. apply precedes_ahead; [done..|].
      pose proof (ahead_between x y local). pose proof (ahead_nonneg y local). pose proof (ahead_zero y local Hn' Hl).
      destruct Hlt as [_ Hlt]. pose proof (ahead_nonneg x y). unfold window in Hwin. fold x in Hwin. lia.
  - split; [|by exists y]. destruct Ho as [?|(z & Hz & Hz' & Hv)]; [done|exfalso].
    destruct (rep_pages _ _ _ Hrep z) as [b Hb]; [|congruence]. by apply Hent.
Qed.
End Spec.

(** ** The theorems *)

(** C13: The paged log of a running segment is a map from local ids to entries.  A look-up of an id of
    interest, or of one before them, answers as the map does; recording a commit sets the entries of
    the transaction and its subtransactions and no other; assigning the next id makes place for an
    empty entry; moving the oldest id leaves every entry from the new one on, although segments may be
    removed, and it moves only over entries that may be passed, up to the first that may not.  A
    routine fails only for a request to the operating system that failed, and the log then still is a
    map; the server goes down only for a failed [fsync] or a record that could not be written. *)
Theorem dlog_refines_map {env : DlogEnv} {blk : BlockSize} (next : Z) (d : dlog) (L : DistributedLog) :
  InRecovery = false → IS_QUERY_DISPATCHER = false → represents next d L →
  let x := dl_oldestXmin d in
  (∀ y, live x next y ∨ (0 ≤ y ∧ TransactionIdPrecedes y x = true) →
   wp (DistributedLog_CommittedCheck y)
     (runs d (λ r d', log_committed_check L y = Ok r ∧ represents next d' L) (λ d', represents next d' L)) d) ∧
  (∀ xid n xids ts g, let e := mkLogEntry ts g in let ids := tree_ids xid n xids in
   ts ≠ 0 → g ≠ 0 → readable n xids → (∀ y, y ∈ ids → live x next y) →
   (∀ y, y ∈ ids → entry L y = zero_entry ∨ entry L y = e) →
   wp (DistributedLog_SetCommittedTree xid n xids ts g false)
     (runs d (λ _ d', represents next d' (with_entries ids e L))
        (λ d', ∃ ys, ys ⊆ ids ∧ represents next d' (with_entries ys e L))) d) ∧
  (ahead x (TransactionIdAdvance next) ≤ window →
   wp (DistributedLog_Extend next)
     (runs d (λ _ d', represents (TransactionIdAdvance next) d' (without next L)) (λ d', represents next d' L)) d) ∧
  (∀ rounds local ts xminAll,
   normal local → ahead x local ≤ ahead x next → ahead x local ≤ Z.of_nat rounds →
   wp (DistributedLog_AdvanceOldestXmin rounds local ts xminAll)
     (runs d (λ y d', represents next d' (with_oldest y L) ∧ ahead x y ≤ ahead x local ∧
                (∀ z, live x y z → passable ts xminAll (entry L z)) ∧
                (y = local ∨ live x local y ∧ ¬ passable ts xminAll (entry L y)))
        (λ d', ∃ y, represents next d' (with_oldest y L))) d).
Proof.
  intros Hrec Hseg Hrep x. split_and!.
  - intros y. by apply check_refines.
  - intros xid n xids ts g e ids. by apply commit_refines.
  - by apply extend_refines.
  - intros rounds local ts xminAll. by apply advance_refines.
Qed.

(** An id the modulo comparison puts before [b] is smaller, if the ids are close. *)
Lemma precedes_close a b : 0 ≤ a < 2 ^ 32 → 0 ≤ b < 2 ^ 32 → a < b + 2 ^ 31 → TransactionIdPrecedes a b = true → a < b.
Proof.
  intros Ha Hb Hw. unfold TransactionIdPrecedes. destruct (_ || _); rewrite Z.ltb_lt; [done|].
  unfold s32. case_match; Z.to_euclidean_division_equations; lia.
Qed.

Lemma passed_ignored L ts xminAll (ds : DistributedSnapshot) x :
  oldestXmin L ≠ InvalidTransactionId → distribTransactionTimeStamp ds = ts → xminAll ≤ xminAllDistributedSnapshots ds →
  0 ≤ xminAll < 2 ^ 32 → 0 ≤ log_distribXid (entry L x) < 2 ^ 32 → log_distribXid (entry L x) < xminAll + 2 ^ 31 →
  entry L x = zero_entry ∨ whole x (entry L x) →
  passable ts xminAll (entry L x) →
  reference_test L ds x false = Ok DISTRIBUTEDSNAPSHOT_COMMITTED_IGNORE ∧
  reference_test L ds x true = Ok DISTRIBUTEDSNAPSHOT_COMMITTED_IGNORE.
Proof.
  intros Hi Hts Hmin Hx1 Hx2 Hw Hwhole Hpass.
  assert (Hgo : ∀ vac, reference_test L ds x vac = Ok DISTRIBUTEDSNAPSHOT_COMMITTED_IGNORE); [|done].
  intros vac. unfold reference_test. destruct (TransactionIdIsNormal x); [|done]. cbn [negb].
  destruct (TransactionIdPrecedes x (oldestXmin L)) eqn:Hp.
  { unfold log_committed_check. by rewrite (proj2 (Z.eqb_neq _ _)), Hp. }
  rewrite (check_found L x (entry L x)) by done. unfold found. cbn [mbind result_bind].
  destruct (decide (entry L x = zero_entry)); [done|]. rewrite decide_True; [done|].
  destruct (decide (log_timestamp (entry L x) = ts)) as [E|]; [right|left; congruence].
  specialize (Hpass E). apply precedes_close in Hpass; lia.
Qed.

(** C20: Moving the oldest id of interest is invisible to the snapshots in use.  It is called with the
    time stamp of the dispatcher and the smallest [xminAllDistributedSnapshots] of any snapshot in
    use; if it returns, the test of every local id of interest against such a snapshot gives the
    answer it gave before, although the entries passed over may be gone.  The distributed ids in the
    log have to be less than [2 ^ 31] above that minimum, since this routine compares them modulo
    [2 ^ 32] and the test does not. *)
Theorem dlog_advance_transparent {env : DlogEnv} {blk : BlockSize} (next : Z) (d : dlog) (L : DistributedLog)
    (rounds : nat) (local ts xminAll : Z) :
  InRecovery = false → represents next d L →
  let x := dl_oldestXmin d in
  normal local → ahead x local ≤ ahead x next → ahead x local ≤ Z.of_nat rounds →
  0 ≤ xminAll < 2 ^ 32 →
  (∀ z, live x next z → 0 ≤ log_distribXid (entry L z) < Z.min (2 ^ 32) (xminAll + 2 ^ 31)) →
  wp (DistributedLog_AdvanceOldestXmin rounds local ts xminAll)
    (runs d (λ y d', represents next d' (with_oldest y L) ∧
               ∀ ds z vac, distribTransactionTimeStamp ds = ts → xminAll ≤ xminAllDistributedSnapshots ds →
                 live x next z → reference_test (with_oldest y L) ds z vac = reference_test L ds z vac)
       (λ d', ∃ y, represents next d' (with_oldest y L))) d.
Proof.
  intros Hrec Hrep x Hl Hle Hr Hmin Hids. pose proof (rep_normal _ _ _ Hrep) as [Hold Hnext].
  eapply proc_mono; [by apply advance_refines|]. intros o d' Ho. destruct o as [y| | |]; [|done..].
  destruct Ho as (Hrep' & Hy & Hpass & _). split; [done|]. intros ds z vac Hts Hds Hz.
  pose proof (rep_oldest _ _ _ Hrep') as Ey. pose proof (rep_normal _ _ _ Hrep') as [Hny _]. cbn in Ey.
  rewrite <-Ey in Hny. fold x in Hy.
  assert (Hnv : ∀ w, normal w → w ≠ InvalidTransactionId)
    by (intros w [Hw _]; unfold FirstNormalTransactionId, InvalidTransactionId in *; lia).
  assert (Hp : TransactionIdPrecedes z x = false) by by apply (live_not_before x next); [|apply Hrep|].
  assert (Ex : oldestXmin L = x) by apply Hrep.
  destruct (TransactionIdPrecedes z y) eqn:Hpy.
  - assert (Hzy : live x y z).
    { split; [apply Hz|]. destruct (Z.lt_ge_cases (ahead x z) (ahead x y)) as [|Hge]; [done|exfalso].
      enough (TransactionIdPrecedes z y = false) by congruence.
      apply (live_not_before y next); [done| |].
      - rewrite Ey. apply Hrep'.
      - destruct Hz as [Hz Hz']. split; [done|]. pose proof (ahead_between x y z Hge). pose proof (ahead_between x y next). lia. }
    pose proof (Hids z Hz) as Hidz.
    destruct (passed_ignored L ts xminAll ds z) as [H1 H2]; try done; [rewrite Ex; auto|lia|lia| |by apply Hpass|].
    { rewrite <-(rep_entries _ _ _ Hrep) by done. apply dl_ok_contents; [apply Hrep|by eapply live_nonneg]. }
    assert (reference_test L ds z vac = Ok DISTRIBUTEDSNAPSHOT_COMMITTED_IGNORE) as -> by by destruct vac.
    unfold reference_test, log_committed_check. cbn [oldestXmin with_oldest].
    rewrite (proj2 (Z.eqb_neq _ _)), Hpy by auto. by destruct (TransactionIdIsNormal z).
  - unfold reference_test, log_committed_check. cbn [oldestXmin with_oldest log_entries].
    by rewrite Ex, Hpy, Hp, (proj2 (Z.eqb_neq y _) (Hnv y Hny)), (proj2 (Z.eqb_neq x _) (Hnv x Hold)).
Qed.

(** A log with pages of 128 entries: two ids are assigned and the first commits. *)
Module LogSample.
#[export] Instance log_env : DlogEnv := mkDlogEnv 1024 (λ _, IoDone) false false false (λ _, None).

#[export] Instance log_blk : BlockSize.
Proof. exists 10. split; [lia|done]. Defined.

Definition d0 : dlog := set_oldestXmin 3 (DistributedLog_ShmemInit ∅ 0 [] 0).
Definition d1 : dlog := (DistributedLog_Extend 3 d0).2.
Definition d2 : dlog := (DistributedLog_Extend 4 d1).2.
Definition d3 : dlog := (DistributedLog_SetCommittedTree 3 0 [] 7 100 false d2).2.
Definition L3 : DistributedLog := mkLog 3 {[ 3 := mkLogEntry 7 100 ]}.

Lemma live_range x next z : live x next z → x ≤ next < 2 ^ 31 → 0 ≤ x → x ≤ z < next.
Proof. unfold live, normal, ahead, FirstNormalTransactionId. Z.to_euclidean_division_equations. lia. Qed.

Lemma d0_represents : represents 3 d0 (mkLog 3 ∅).
Proof.
  destruct (init_inv 8 0 (∅ : gmap Z (list dlpage)) 0) as [Hinv Hv]; [lia|].
  assert (Hlive : ∀ z, ¬ live 3 3 z) by (intros z Hz%live_range; lia).
  assert (Hdisk : ∀ p, on_disk (∅ : gmap Z (list dlpage)) p = None) by (intros p; by unfold on_disk; rewrite lookup_empty).
  assert (Hst : ¬ started 3) by by intros [_ []].
  split; try done.
  - split; [done|..]; intros p b _; [cbn [dl_slru d0 set_oldestXmin DistributedLog_ShmemInit]; rewrite Hv|];
      cbn [files dl_slru d0 set_oldestXmin DistributedLog_ShmemInit SimpleLruInit]; by rewrite Hdisk.
  - intros z Hz. by apply Hlive in Hz.
  - intros z Hz. by apply Hlive in Hz.
Qed.

Lemma wp_outcome {S A} (m : proc S A) Q (s : S) a : (m s).1 = Ret a → wp m Q s → Q (Ret a) (m s).2.
Proof. unfold wp. by intros ->. Qed.

Lemma d3_represents : represents 5 d3 L3.
Proof.
  assert (H1 : represents 4 d1 (without 3 (mkLog 3 ∅))).
  { refine (wp_outcome (DistributedLog_Extend 3) _ d0 tt _ (extend_refines eq_refl 3 d0 _ d0_represents _));
      [by vm_compute|by vm_compute]. }
  assert (H2 : represents 5 d2 (without 4 (without 3 (mkLog 3 ∅)))).
  { refine (wp_outcome (DistributedLog_Extend 4) _ d1 tt _ (extend_refines eq_refl 4 d1 _ H1 _));
      [by vm_compute|by vm_compute]. }
  assert (Ho : dl_oldestXmin d2 = 3) by by vm_compute.
  refine (wp_outcome (DistributedLog_SetCommittedTree 3 0 [] 7 100 false) _ d2 tt _
    (commit_refines eq_refl 5 d2 _ 3 0 [] 7 100 H2 _ _ _ _ _)); [by vm_compute|done|done|by left|..].
  - intros x ->%list_elem_of_singleton. rewrite Ho. by vm_compute.
  - intros x ->%list_elem_of_singleton. by left.
Qed.
Lemma d3_live : live (dl_oldestXmin d3) 5 3.
Proof.
  assert (dl_oldestXmin d3 = 3) as -> by by vm_compute.
  split; [unfold normal, FirstNormalTransactionId; lia|by vm_compute].
Qed.
End LogSample.
Import LogSample.

Lemma dlog_refines_map_witness :
  (DistributedLog_CommittedCheck 3 d3).1 = Ret (Some (7, 100)) ∧ log_committed_check L3 3 = Ok (Some (7, 100)).
Proof.
  destruct (dlog_refines_map 5 d3 L3) as [Hcheck _].
  - reflexivity.
  - reflexivity.
  - exact d3_represents.
  - assert (E : (DistributedLog_CommittedCheck 3 d3).1 = Ret (Some (7, 100))) by (vm_compute; reflexivity).
    split; [exact E|]. apply (wp_outcome (DistributedLog_CommittedCheck 3) _ d3 _ E (Hcheck 3 (or_introl d3_live))).
Defined.

Lemma dlog_advance_transparent_witness :
  (DistributedLog_AdvanceOldestXmin 2 5 7 101 d3).1 = Ret 5 ∧
  reference_test (mkLog 5 (log_entries L3)) (mkDS 7 101 1 101 110 0 0 None) 3 false =
  reference_test L3 (mkDS 7 101 1 101 110 0 0 None) 3 false.
Proof.
  assert (Hold : dl_oldestXmin d3 = 3) by (vm_compute; reflexivity).
  assert (E : (DistributedLog_AdvanceOldestXmin 2 5 7 101 d3).1 = Ret 5) by (vm_compute; reflexivity).
  assert (ids : ∀ z, live (dl_oldestXmin d3) 5 z →
    0 ≤ log_distribXid (entry L3 z) < Z.min (2 ^ 32) (101 + 2 ^ 31)).
  { rewrite Hold. intros z Hz. apply (live_range 3 5 z) in Hz; [clear Hold E|lia..].
    assert (z = 3 ∨ z = 4) as [-> | ->] by lia; by vm_compute. }
  assert (Hn : normal 5) by (unfold normal, FirstNormalTransactionId; lia).
  assert (Hr : ahead (dl_oldestXmin d3) 5 ≤ Z.of_nat 2) by (rewrite Hold; by vm_compute).
  assert (Hmin : 0 ≤ 101 < 2 ^ 32) by lia.
  split; [exact E|].
  destruct (wp_outcome (DistributedLog_AdvanceOldestXmin 2 5 7 101) _ d3 5 E
    (@dlog_advance_transparent log_env log_blk 5 d3 L3 2 5 7 101 eq_refl d3_represents Hn
       (Z.le_refl _) Hr Hmin ids)) as [_ Hds].
  apply Hds; [reflexivity|simpl; lia|exact d3_live].
Defined.
