(* ===== verification/DistribLogReplay.v ===== *)
(** * The distributed log: recovery

    What replaying a record of the write-ahead log does, what replaying a list of them from the files
    of a crashed server restores, and what the start of the log adds. *)
From S2P Require Import Prelude Proc DistributedSnapshot Slru SlruFacts SlruStore.
From S2P Require Import DistribLog DistribLogFacts DistribLogOps DistribLogRun DistribLogSpec.

Section Replay.
Context {env : DlogEnv} {blk : BlockSize}.
Implicit Types (s : slru dlpage) (d : dlog) (p x : Z) (e f : DistributedLogEntry) (r : dlog_record).
Implicit Types (P : Z → DistributedLogEntry → Prop) (rs : list dlog_record).

Hypothesis Hsegment : IS_QUERY_DISPATCHER = false.

(** ** Records *)

(** Replaying [r] sets the entry of [x] to [e]; it removes the page [p]. *)
Definition commits r x e : Prop :=
  match r with
  | XLOG_XACT_COMMIT xid n xids ts g => g ≠ 0 ∧ ts ≠ 0 ∧ x ∈ tree_ids xid n xids ∧ e = mkLogEntry ts g
  | _ => False
  end.

Definition cuts r p : Prop :=
  match r with DISTRIBUTEDLOG_TRUNCATE c => before_cut (segment_start c) p | _ => False end.

Definition record_ok r : Prop :=
  match r with
  | DISTRIBUTEDLOG_ZEROPAGE p => 0 ≤ p
  | DISTRIBUTEDLOG_TRUNCATE c => 0 ≤ c
  | XLOG_XACT_COMMIT xid n xids ts g => readable n xids ∧ ∀ x, x ∈ tree_ids xid n xids → 0 ≤ x
  end.

(** The pages whose entries may be lost: a page that is not on disk is made anew by a commit. *)
Definition loses r s p : Prop :=
  match r with
  | DISTRIBUTEDLOG_ZEROPAGE q => p = q
  | DISTRIBUTEDLOG_TRUNCATE c => before_cut (segment_start c) p
  | XLOG_XACT_COMMIT _ _ _ _ _ => replaced true s p
  end.

Definition redone P r d (o : outcome unit) d' : Prop :=
  same_rest d d' ∧ dl_ok P (dl_slru d') ∧ steps (loses r (dl_slru d)) (commits r) (dl_slru d) (dl_slru d') ∧
  (∀ q, 0 ≤ q → ¬ cuts r q → is_Some (on_disk (files (dl_slru d)) q) → is_Some (on_disk (files (dl_slru d')) q)) ∧
  match o with
  | Ret _ =>
      (∀ x e, commits r x e → is_Some (on_disk (files (dl_slru d)) (TransactionIdToPage x)) →
         contents (dl_slru d') x = e) ∧
      (∀ p, r = DISTRIBUTEDLOG_ZEROPAGE p → is_Some (on_disk (files (dl_slru d')) p))
  | ERROR => io_failed (dl_slru d) (dl_slru d') ∨ ∃ x e f, commits r x e ∧ P x f ∧ f ≠ e
  | FATAL => False
  | PANIC => fsync_failed (dl_slru d) (dl_slru d')
  end.

Lemma SimpleLruWritePage_spec p i s :
  slru_inv s → holding p i s →
  wp (SimpleLruWritePage i)
    (λ o s', slru_inv s' ∧ evolves s s' ∧ blamed s o s' ∧
       match o with Ret _ => is_Some (on_disk (files s') p) | _ => True end) s.
Proof.
  intros Hinv (c & Hi & Hst & Hp & Hv). unfold SimpleLruWritePage. apply proc_bind.
  eapply proc_mono; [by apply (SlruInternalWritePage_spec i c)|].
  intros o s' (Hinv' & Hev & Hb & _ & _ & dirty & Hss & Ho). destruct o; cbn [next]; [|done..].
  apply proc_ret. split_and!; try done. rewrite (Ho Hst) in Hss.
  assert (Hi' : slots s' !! i = Some (with_dirty false c))
    by (rewrite Hss; apply list_lookup_insert_eq; by eapply lookup_lt_Some).
  pose proof (inv_clean _ Hinv' i _ Hi') as Hd. cbn in Hd. rewrite Hp in Hd. rewrite Hd; done.
Qed.

Lemma redo_zero P p d :
  dl_ok P (dl_slru d) → 0 ≤ p →
  wp (DistributedLog_redo (DISTRIBUTEDLOG_ZEROPAGE p)) (redone P (DISTRIBUTEDLOG_ZEROPAGE p) d) d.
Proof.
  intros Hok Hp. cbn [DistributedLog_redo]. apply proc_bind.
  eapply proc_mono; [by apply (DistributedLog_ZeroPage_spec P)|]. intros o d1 (Hr1 & Hok1 & Hs1 & Hg1 & Hb1 & Hz1).
  assert (Hs1' : steps (loses (DISTRIBUTEDLOG_ZEROPAGE p) (dl_slru d)) (commits (DISTRIBUTEDLOG_ZEROPAGE p))
    (dl_slru d) (dl_slru d1)) by done.
  destruct o as [i| | |]; cbn [next]; [|split_and!; auto; by left|done|split_and!; auto].
  destruct Hz1 as [Hh1 _]. apply wp_on_slru. eapply proc_mono; [apply (SimpleLruWritePage_spec p); [apply Hok1|done]|].
  intros o s2 (Hinv2 & Hev2 & Hb2 & Ho2).
  destruct (evolves_steps P (loses (DISTRIBUTEDLOG_ZEROPAGE p) (dl_slru d)) (commits (DISTRIBUTEDLOG_ZEROPAGE p))
    (dl_slru d1) s2) as [Hok2 Hs2]; [done..|].
  pose proof (st_ios _ _ _ _ Hs1). split_and!; [done..|by eapply steps_trans| |].
  - intros q Hq _ Hd. apply (ev_disk _ _ Hev2); auto.
  - apply (blamed_mono (dl_slru d)) in Hb2; [|done]. destruct o; try done; [|by left].
    split; [intros x e []|]. by intros q [= <-].
Qed.

Lemma redo_truncate P c d :
  dl_ok P (dl_slru d) → 0 ≤ c →
  wp (DistributedLog_redo (DISTRIBUTEDLOG_TRUNCATE c)) (redone P (DISTRIBUTEDLOG_TRUNCATE c) d) d.
Proof.
  intros Hok Hc. cbn [DistributedLog_redo]. apply proc_bind, wp_on_slru, wp_modify. cbn [next].
  set (s1 := set_latest_page_number c (dl_slru d)).
  destruct (eqv_keeps (dl_slru d) s1) as [Hinv1 Hev1]; [apply Hok|reflexivity|done..|].
  destruct (evolves_steps P (loses (DISTRIBUTEDLOG_TRUNCATE c) (dl_slru d)) (commits (DISTRIBUTEDLOG_TRUNCATE c))
    (dl_slru d) s1) as [Hok1 Hs1]; [done..|].
  apply wp_on_slru. cbn [dl_slru set_slru]. eapply proc_mono; [by apply (SimpleLruTruncate_steps P c s1)|].
  intros o s2 (Hok2 & Hs2 & Hb2). split_and!; [done..| | |].
  - eapply steps_trans; [done|]. by eapply steps_mono; [..|exact Hs2].
  - intros q Hq Hn Hd. apply (st_disk _ _ _ _ Hs2); [done..|]. by apply (ev_disk _ _ Hev1).
  - pose proof (st_ios _ _ _ _ Hs1). apply (blamed_mono (dl_slru d)) in Hb2; [|done].
    destruct o; try done; by left.
Qed.

Lemma redo_commit P xid n xids ts g d :
  let r := XLOG_XACT_COMMIT xid n xids ts g in
  dl_ok P (dl_slru d) → record_ok r → (∀ x e, commits r x e → P x e) →
  wp (DistributedLog_redo r) (redone P r d) d.
Proof.
  intros r Hok [Hread Hids] HP. cbn [DistributedLog_redo r].
  destruct (negb (g =? 0) && negb (ts =? 0)) eqn:Hg.
  2: { apply proc_ret. split_and!; try done; [apply steps_refl|]. intros x e (H1 & H2 & _) _. exfalso.
       apply andb_false_iff in Hg as [E|E]; apply negb_false_iff, Z.eqb_eq in E; done. }
  apply andb_true_iff in Hg as [Hg%negb_true_iff%Z.eqb_neq Hts%negb_true_iff%Z.eqb_neq].
  assert (He : mkLogEntry ts g ≠ zero_entry) by by intros [= ? ?].
  eapply proc_mono; [apply (DistributedLog_SetCommittedTree_spec P xid n xids ts g true d); try done|].
  { intros x Hx. split; [auto|]. by apply HP. }
  intros o d' (Hr & Hok' & Hst & Hgr & Ho). split_and!; [done|done| |by intros q Hq _; apply Hgr|].
  - eapply steps_mono; [..|exact Hst]; [done|]. intros x f [Hx ->]. done.
  - destruct o; try done.
    + split; [|done]. intros x e (_ & _ & Hx & ->) [b Hb]. apply Ho; [done|]. intros (_ & _ & Hn). congruence.
    + destruct Ho as [?|(x & f & Hx & HPx & Hne & _)]; [by left|right]. exists x, (mkLogEntry ts g), f. done.
Qed.

Lemma DistributedLog_redo_spec P r d :
  dl_ok P (dl_slru d) → record_ok r → (∀ x e, commits r x e → P x e) → wp (DistributedLog_redo r) (redone P r d) d.
Proof. destruct r; intros; [by apply redo_zero|by apply redo_truncate|by apply redo_commit]. Qed.

(** ** Replaying the log *)

Fixpoint replay rs : proc dlog unit :=
  match rs with
  | [] => ret tt
  | r :: rs => DistributedLog_redo r;; replay rs
  end.

(** No record removes the page. *)
Definition kept rs p : Prop := ∀ r, r ∈ rs → ¬ cuts r p.

(** The page is there when the [k]-th record is replayed: in the files, or created by a record before. *)
Definition ready s rs (k : nat) p : Prop :=
  is_Some (on_disk (files s) p) ∨ ∃ j, (j < k)%nat ∧ rs !! j = Some (DISTRIBUTEDLOG_ZEROPAGE p).

(** The page is not created anew from the [k]-th record on. *)
Definition untouched rs (k : nat) p : Prop := ∀ j, (k ≤ j)%nat → rs !! j ≠ Some (DISTRIBUTEDLOG_ZEROPAGE p).

Definition consistent P rs : Prop :=
  ∀ r x e, r ∈ rs → commits r x e → P x e ∧ ∀ f, P x f → f = e.

Definition restores P rs d (o : outcome unit) d' : Prop :=
  same_rest d d' ∧ dl_ok P (dl_slru d') ∧ (ios (dl_slru d) ≤ ios (dl_slru d'))%nat ∧
  match o with
  | Ret _ =>
      (∀ x, 0 ≤ x → is_Some (on_disk (files (dl_slru d)) (TransactionIdToPage x)) →
         contents (dl_slru d) x ≠ zero_entry → kept rs (TransactionIdToPage x) →
         untouched rs 0 (TransactionIdToPage x) → contents (dl_slru d') x = contents (dl_slru d) x) ∧
      (∀ k r x e, rs !! k = Some r → commits r x e → kept rs (TransactionIdToPage x) →
         ready (dl_slru d) rs k (TransactionIdToPage x) → untouched rs k (TransactionIdToPage x) →
         contents (dl_slru d') x = e) ∧
      (∀ p, 0 ≤ p → kept rs p → ready (dl_slru d) rs (length rs) p → is_Some (on_disk (files (dl_slru d')) p))
  | ERROR => io_failed (dl_slru d) (dl_slru d')
  | FATAL => False
  | PANIC => fsync_failed (dl_slru d) (dl_slru d')
  end.

Lemma commits_nonneg r x e : record_ok r → commits r x e → 0 ≤ x.
Proof. destruct r; simpl; [by intros _ []..|]. intros [_ Hids] (_ & _ & Hx & _). auto. Qed.

Lemma loses_not r s p :
  ¬ cuts r p → r ≠ DISTRIBUTEDLOG_ZEROPAGE p → is_Some (on_disk (files s) p) → ¬ loses r s p.
Proof.
  destruct r; simpl; [congruence|done|]. intros _ _ [b Hb] (_ & _ & Hn). congruence.
Qed.

Lemma ready_tail s s' r rs k p :
  (is_Some (on_disk (files s) p) → is_Some (on_disk (files s') p)) →
  (r = DISTRIBUTEDLOG_ZEROPAGE p → is_Some (on_disk (files s') p)) →
  ready s (r :: rs) (S k) p → ready s' rs k p.
Proof.
  intros Hd Hz [H|([|j] & Hj & Hr)]; [left; auto|left; apply Hz; by injection Hr|right].
  exists j. split; [lia|done].
Qed.

Lemma untouched_tail r rs k p : untouched (r :: rs) k p → untouched rs (k - 1) p.
Proof. intros Hu j Hj. apply (Hu (S j)). lia. Qed.

Lemma kept_tail r rs p : kept (r :: rs) p → ¬ cuts r p ∧ kept rs p.
Proof. intros Hk. split; [apply Hk; by left|]. intros r' Hr. apply Hk. by right. Qed.

Lemma replay_restores P rs d :
  dl_ok P (dl_slru d) → Forall record_ok rs → consistent P rs → wp (replay rs) (restores P rs d) d.
Proof.
  revert d. induction rs as [|r rs IH]; intros d Hok Hrs HP; cbn [replay].
  { apply proc_ret. split_and!; try done. intros p Hp _ [?|(j & Hj & _)]; [done|simpl in Hj; lia]. }
  apply Forall_cons in Hrs as [Hr Hrs]. apply proc_bind.
  eapply proc_mono; [apply (DistributedLog_redo_spec P); [done..|]|].
  { intros x e Hc. eapply HP; [by left|done]. }
  intros o d1 (Hr1 & Hok1 & Hs1 & Hd1 & Ho1). pose proof (st_ios _ _ _ _ Hs1) as Hn1.
  destruct o as [[]| | |]; cbn [next]; [| |done|done].
  2: { split_and!; try done. destruct Ho1 as [?|(x & e & f & Hc & HPx & Hne)]; [done|exfalso].
       destruct (HP r x e) as [_ Hfun]; [by left|done|]. by apply Hne, Hfun. }
  destruct Ho1 as [Hset Hzero].
  eapply proc_mono; [apply IH; [done..|]|]. { intros r' x e Hr'. apply HP. by right. }
  intros o d2 (Hr2 & Hok2 & Hn2 & Ho2). split; [by transitivity d1|]. split_and!; [done|lia|].
  destruct o as [[]| | |]; [|by apply (io_failed_mono _ (dl_slru d1) (dl_slru d2))|done|
    by apply (fsync_failed_mono _ (dl_slru d1) (dl_slru d2))].
  destruct Ho2 as (Hold & Hnew & Hpages).
  assert (Hkeep : ∀ x, 0 ≤ x → is_Some (on_disk (files (dl_slru d)) (TransactionIdToPage x)) →
    contents (dl_slru d) x ≠ zero_entry → ¬ cuts r (TransactionIdToPage x) →
    r ≠ DISTRIBUTEDLOG_ZEROPAGE (TransactionIdToPage x) → contents (dl_slru d1) x = contents (dl_slru d) x).
  { intros x Hx Hd Hnz Hcut Hz. destruct (st_contents _ _ _ _ Hs1 x Hx) as [?|[? _]]; [by apply loses_not|done..]. }
  split_and!.
  - intros x Hx Hd Hnz [Hcut Hk]%kept_tail Hu.
    assert (E : contents (dl_slru d1) x = contents (dl_slru d) x).
    { apply Hkeep; try done. intros E. apply (Hu 0%nat); [lia|]. simpl. congruence. }
    rewrite <-E. apply Hold; [done| |congruence|done|by apply (untouched_tail r rs 0)].
    apply Hd1; [by apply page_nonneg|done..].
  - intros [|k] r' x e Hk Hc [Hcut Hkp]%kept_tail Hrdy Hu.
    + injection Hk as <-. destruct Hrdy as [Hd|(j & Hj & _)]; [|lia].
      pose proof (Hset x e Hc Hd) as E. rewrite <-E. pose proof (commits_nonneg _ _ _ Hr Hc) as Hx.
      apply Hold; [done| | |done|by apply (untouched_tail r rs 0)].
      * apply Hd1; [by apply page_nonneg|done..].
      * rewrite E. destruct r; [done..|]. destruct Hc as (? & ? & _ & ->). by intros [= ? ?].
    + assert (Hr' : record_ok r') by (eapply Forall_forall; [exact Hrs|by eapply list_elem_of_lookup_2]).
      pose proof (commits_nonneg _ _ _ Hr' Hc) as Hx. apply (Hnew k r'); [done..| |].
      * eapply (ready_tail (dl_slru d)); [..|exact Hrdy]; [|auto].
        intros Hd. apply Hd1; [by apply page_nonneg|done..].
      * pose proof (untouched_tail r rs (S k) _ Hu) as Hu'. by replace (S k - 1)%nat with k in Hu' by lia.
  - intros p Hp [Hcut Hk]%kept_tail Hrdy. apply Hpages; [done..|].
    eapply (ready_tail (dl_slru d)); [..|exact Hrdy]; [|auto]. intros Hd. by apply Hd1.
Qed.

(** ** Starting *)

(** The id at the start of the next page: all ids up to it are on the page of [x]. *)
Lemma next_page x :
  normal x →
  let x' := AdvanceTransactionIdToNextPage x in
  normal x' ∧ 0 < ahead x x' ≤ 2 ^ 13 ∧
  ∀ z, normal z → ahead x z < ahead x x' → TransactionIdToPage z = TransactionIdToPage x.
Proof.
  intros Hx. unfold AdvanceTransactionIdToNextPage. pose proof (page_entry x) as Ex. pose proof (entry_range x) as Hi.
  set (p := TransactionIdToPage x) in *. set (i := TransactionIdToEntry x) in *.
  destruct entries_per_page as (j & Hj & HE).
  assert (Hdiv : ∃ n, 2 ^ 32 = n * ENTRIES_PER_PAGE).
  { exists (2 ^ (32 - j)). rewrite HE, <-Z.pow_add_r by lia. f_equal. lia. }
  assert (HE' : 128 ≤ ENTRIES_PER_PAGE ≤ 4096).
  { rewrite HE. change 128 with (2 ^ 7). change 4096 with (2 ^ 12). split; apply Z.pow_le_mono_r; lia. }
  assert (Hpage : ∀ z k, z = p * ENTRIES_PER_PAGE + k → 0 ≤ k < ENTRIES_PER_PAGE → TransactionIdToPage z = p).
  { intros z k -> Hk. unfold TransactionIdToPage. rewrite Z.div_add_l, Z.div_small by lia. lia. }
  assert (Hmod : ∀ q, (q * ENTRIES_PER_PAGE + i) mod ENTRIES_PER_PAGE = i).
  { intros q. rewrite Z.add_comm, Z.mod_add, Z.mod_small by lia. done. }
  destruct Hdiv as [n Hn]. revert Ex Hi HE' Hpage Hmod Hn. generalize ENTRIES_PER_PAGE. intros E Ex Hi HE' Hpage Hmod Hn.
  unfold normal, FirstNormalTransactionId, ahead, u32 in *.
  assert (Hp : p < n) by nia.
  destruct (decide (p + 1 = n)) as [El|Hl].
  - assert ((x + E) mod 2 ^ 32 = i) as ->.
    { replace (x + E) with (i + 1 * 2 ^ 32) by lia. rewrite Z.mod_add, Z.mod_small by lia. done. }
    rewrite (Z.mod_small i E), Z.sub_diag by lia. change (Z.max (0 mod 2 ^ 32) 3) with 3.
    split; [lia|]. assert ((3 - x) mod 2 ^ 32 = E - i + 3) as ->.
    { replace (3 - x) with (E - i + 3 + (-1) * 2 ^ 32) by lia. rewrite Z.mod_add, Z.mod_small by lia. done. }
    split; [lia|]. intros z Hz Hlt. apply (Hpage z (z - p * E)); [lia|].
    destruct (Z.le_gt_cases x z) as [Hle|Hgt]; [rewrite Z.mod_small in Hlt by lia; lia|].
    replace (z - x) with (z - x + 2 ^ 32 + (-1) * 2 ^ 32) in Hlt by lia.
    rewrite Z.mod_add, Z.mod_small in Hlt by lia. nia.
  - assert (Hb : (p + 1) * E + E ≤ 2 ^ 32) by nia.
    rewrite (Z.mod_small (x + E)) by lia. replace (x + E) with ((p + 1) * E + i) by lia. rewrite Hmod.
    replace ((p + 1) * E + i - i) with ((p + 1) * E) by lia. rewrite Z.mod_small by nia.
    rewrite Z.max_l by nia. rewrite (Z.mod_small ((p + 1) * E - x)) by lia.
    split; [nia|]. split; [lia|]. intros z Hz Hlt. apply (Hpage z (z - p * E)); [lia|].
    destruct (Z.le_gt_cases x z) as [Hle|Hgt]; [rewrite Z.mod_small in Hlt by lia; lia|].
    replace (z - x) with (z - x + 2 ^ 32 + (-1) * 2 ^ 32) in Hlt by lia.
    rewrite Z.mod_add, Z.mod_small in Hlt by lia. nia.
Qed.

Lemma follows_ahead x y : normal x → normal y → TransactionIdFollows x y = false ↔ ahead x y ≤ 2 ^ 31.
Proof.
  unfold normal, TransactionIdFollows, TransactionIdIsNormal, FirstNormalTransactionId, ahead, s32. intros Hx Hy.
  rewrite !(proj2 (Z.leb_le 3 _)) by lia. cbn [negb orb]. rewrite Z.ltb_ge.
  case_match; Z.to_euclidean_division_equations; lia.
Qed.

(** Where the search for the first page ends, from [x]. *)
Definition searched s (latest x y : Z) : Prop :=
  normal y ∧ ahead x y ≤ ahead x latest ∧
  (∀ z, normal z → ahead x z < ahead x y → on_disk (files s) (TransactionIdToPage z) = None) ∧
  (is_Some (on_disk (files s) (TransactionIdToPage y)) ∨ y = latest).

Lemma init_oldest_spec P rounds x latest d :
  dl_ok P (dl_slru d) → normal x → normal latest → ahead x latest ≤ 2 ^ 31 → ahead x latest < Z.of_nat rounds →
  wp (init_oldest rounds x latest)
    (λ o d', quiet P d d' ∧ files (dl_slru d') = files (dl_slru d) ∧
       match o with
       | Ret y => searched (dl_slru d) latest x y
       | ERROR => io_failed (dl_slru d) (dl_slru d')
       | FATAL => False
       | PANIC => fsync_failed (dl_slru d) (dl_slru d')
       end) d.
Proof.
  revert x d. induction rounds as [|rounds IH]; intros x d Hok Hx Hl Hw Hr; [pose proof (ahead_nonneg x latest); lia|].
  cbn [init_oldest]. apply proc_bind, wp_on_slru.
  eapply proc_mono; [apply SimpleLruDoesPhysicalPageExist_spec; by apply page_nonneg, normal_nonneg|].
  intros o s1 (-> & Hb1 & Ho1). destruct (bump_evolves (dl_slru d)) as [Hinv1 Hev1]; [apply Hok|].
  pose proof (evolves_quiet P d _ Hok Hinv1 Hev1) as Hq1. set (d1 := set_slru (bump (dl_slru d)) d) in *.
  destruct o as [found| | |]; cbn [next]; [|done..].
  destruct (bool_decide_reflect (is_Some (on_disk (files (dl_slru d)) (TransactionIdToPage x)))) as [Hd|Hd]; subst found.
  { apply proc_ret. split_and!; try done. unfold searched. split_and!; [done|rewrite ahead_self; apply ahead_nonneg| |by left].
    intros z Hz Hlt. rewrite ahead_self in Hlt. pose proof (ahead_nonneg x z). lia. }
  apply eq_None_not_Some in Hd. destruct (next_page x Hx) as (Hx' & Hstep & Hsame).
  set (x' := AdvanceTransactionIdToNextPage x) in *.
  assert (Hskip : ∀ z, normal z → ahead x z < ahead x x' → on_disk (files (dl_slru d)) (TransactionIdToPage z) = None).
  { intros z Hz Hlt. by rewrite (Hsame z Hz Hlt). }
  assert (Hle : ahead x' latest ≤ 2 ^ 31 ↔ ahead x x' ≤ ahead x latest).
  { split; intros Hle.
    - destruct (Z.le_gt_cases (ahead x x') (ahead x latest)) as [|Hgt]; [done|exfalso].
      pose proof (ahead_between x latest x' (Z.lt_le_incl _ _ Hgt)) as E1.
      pose proof (ahead_sum x' latest x') as E2. rewrite ahead_self in E2.
      pose proof (ahead_nonneg x latest). pose proof (ahead_nonneg x' latest). lia.
    - pose proof (ahead_between x x' latest Hle). lia. }
  destruct (TransactionIdFollows x' latest) eqn:Hf.
  - apply proc_ret. split_and!; try done. unfold searched. split_and!; [done|lia| |by right].
    intros z Hz Hlt. apply Hskip; [done|]. apply not_false_iff_true in Hf. rewrite follows_ahead in Hf by done. lia.
  - apply follows_ahead in Hf; [|done..]. apply Hle in Hf as Hb. pose proof (ahead_between x x' latest Hb).
    eapply proc_mono; [apply (IH x' d1); [apply Hq1|done..|lia]|].
    intros o d2 (Hq2 & Hf2 & Ho2). split; [by eapply quiet_trans|]. split; [done|].
    pose proof Hq1 as (_ & _ & Hs1). pose proof Hq2 as (_ & _ & Hs2).
    pose proof (st_ios _ _ _ _ Hs1). pose proof (st_ios _ _ _ _ Hs2).
    destruct o as [y| | |]; [|by apply (io_failed_mono _ (dl_slru d1) (dl_slru d2))|done|
      by apply (fsync_failed_mono _ (dl_slru d1) (dl_slru d2))].
    destruct Ho2 as (Hy & Hyl & Hmiss & Hend).
    assert (Exy : ahead x y = ahead x x' + ahead x' y) by (apply ahead_sum; lia).
    unfold searched. split_and!; [done|lia| |done].
    intros z Hz Hlt. destruct (Z.lt_ge_cases (ahead x z) (ahead x x')) as [|Hge]; [by apply Hskip|].
    apply Hmiss; [done|]. pose proof (ahead_between x x' z Hge). lia.
Qed.

Lemma zero_rest_spec P i x d :
  dl_ok P (dl_slru d) → 0 ≤ x → holding (TransactionIdToPage x) i (dl_slru d) →
  wp (zero_rest i (TransactionIdToEntry x))
    (λ o d', o = Ret tt ∧ same_rest d d' ∧ dl_ok P (dl_slru d') ∧ ios (dl_slru d') = ios (dl_slru d) ∧
       files (dl_slru d') = files (dl_slru d) ∧
       (∀ q, is_Some (view (dl_slru d) q) → is_Some (view (dl_slru d') q)) ∧
       ∀ y, contents (dl_slru d') y =
         if decide (TransactionIdToPage y = TransactionIdToPage x ∧ x ≤ y) then zero_entry
         else contents (dl_slru d) y) d.
Proof.
  intros Hok Hx (c & Hi & Hst & Hp & Hv). unfold zero_rest. apply wp_on_slru, wp_modify.
  set (s := dl_slru d) in *. set (s' := set_slot i _ s). pose proof (page_nonneg x Hx) as Hp0.
  destruct (ok_view _ _ Hok _ _ Hp0 Hv) as [Hl Hgood]. pose proof (entry_range x) as Hex.
  set (n := Z.to_nat (TransactionIdToEntry x)) in *.
  set (b := take n (page_buffer c) ++ replicate (Z.to_nat (ENTRIES_PER_PAGE - TransactionIdToEntry x)) zero_entry).
  assert (Hss : slots s' = <[i := with_dirty true (with_buffer b c)]> (slots s))
    by (unfold s'; by rewrite (slots_set_slot i _ c s Hi)).
  destruct (put_buffer (TransactionIdToPage x) i c (with_dirty true (with_buffer b c)) s s') as [Hinv' Hput];
    try done; [apply Hok|]. cbn [page_buffer with_dirty with_buffer] in Hput.
  assert (Hb : ∀ y, TransactionIdToPage y = TransactionIdToPage x →
    entry_of (Some b) y = if decide (x ≤ y) then zero_entry else contents s y).
  { intros y Hy. unfold contents. rewrite Hy, Hv. unfold entry_of, b. cbn [mbind option_bind].
    pose proof (entry_range y) as Hey. pose proof (page_entry x) as Ex. pose proof (page_entry y) as Ey. rewrite Hy in Ey.
    destruct (decide (x ≤ y)) as [Hle|Hgt].
    - rewrite lookup_app_r by (rewrite length_take; lia). rewrite length_take, lookup_replicate_2 by lia. done.
    - rewrite lookup_app_l by (rewrite length_take; lia). rewrite lookup_take_lt by lia. done. }
  assert (Hlen : length b = Z.to_nat ENTRIES_PER_PAGE).
  { unfold b. rewrite length_app, length_take, length_replicate. lia. }
  destruct (puts_steps P no_entry (TransactionIdToPage x) b s s') as (Hok' & Hsteps & Hvp & Hdisk); [done..| |done|].
  { split; [done|]. intros y Hy Hyp. rewrite Hb by done. case_decide; [by left|]. by apply dl_ok_contents. }
  cbn [dl_slru set_slru].
  assert (Hvo : ∀ q, q ≠ TransactionIdToPage x → view s' q = view s q).
  { intros q Hne. unfold view. rewrite Hss. change (files s') with (files s).
    rewrite (buffered_insert_other _ _ c); [done..| |];
      apply not_true_iff_false; intros [E _]%holds_page_spec; cbn in E; congruence. }
  split_and!; try done.
  - intros q Hq. destruct (decide (q = TransactionIdToPage x)) as [->|Hne]; [by rewrite Hvp|by rewrite Hvo].
  - intros y. destruct (decide (TransactionIdToPage y = TransactionIdToPage x)) as [E|E].
    + unfold contents at 1. rewrite E, Hvp, Hb by done.
      destruct (decide (x ≤ y)), (decide (_ ∧ _)); naive_solver.
    + rewrite decide_False by naive_solver. unfold contents. by rewrite Hvo.
Qed.

(** The rest of the page of [x] holds [y], and [x] does not begin the page. *)
Definition beyond (x y : Z) : Prop :=
  TransactionIdToEntry x ≠ 0 ∧ TransactionIdToPage y = TransactionIdToPage x ∧ x ≤ y.

Lemma beyond_dec x y : {beyond x y} + {¬ beyond x y}.
Proof.
  unfold beyond. destruct (decide (TransactionIdToEntry x ≠ 0 ∧ TransactionIdToPage y = TransactionIdToPage x ∧ x ≤ y));
    auto.
Qed.

(** The page of the next id is read and cleared behind the last id. *)
Lemma startup_clear P nextXid d :
  dl_ok P (dl_slru d) → 0 ≤ nextXid →
  (TransactionIdToEntry nextXid ≠ 0 → is_Some (view (dl_slru d) (TransactionIdToPage nextXid))) →
  wp (if negb (TransactionIdToEntry nextXid =? 0) then
        bind (on_slru (SimpleLruReadPage (TransactionIdToPage nextXid) true))
          (λ slotno, zero_rest slotno (TransactionIdToEntry nextXid))
      else ret tt)
    (λ o d', same_rest d d' ∧ dl_ok P (dl_slru d') ∧ (ios (dl_slru d) ≤ ios (dl_slru d'))%nat ∧
       disk_grows (dl_slru d) (dl_slru d') ∧ blamed (dl_slru d) o (dl_slru d') ∧
       match o with
       | Ret _ => ∀ y, 0 ≤ y →
           contents (dl_slru d') y = if beyond_dec nextXid y then zero_entry else contents (dl_slru d) y
       | _ => True
       end) d.
Proof.
  intros Hok Hn Hv. destruct (Z.eqb_spec (TransactionIdToEntry nextXid) 0) as [E|E]; cbn [negb].
  { apply proc_ret. split_and!; try done. intros y _. by destruct (beyond_dec nextXid y) as [[? _]|]. }
  pose proof (page_nonneg nextXid Hn) as Hp. specialize (Hv E).
  apply proc_bind, wp_on_slru. eapply proc_mono; [apply SimpleLruReadPage_spec; [apply Hok|done|by right]|].
  intros o s1 (Hinv1 & Hev1 & _ & Ho1). pose proof (evolves_quiet P d s1 Hok Hinv1 Hev1) as Hq1.
  pose proof Hq1 as (Hr1 & Hok1 & Hst1). pose proof (st_ios _ _ _ _ Hst1) as Hn1.
  pose proof (evolves_grows _ _ Hev1) as Hg1.
  destruct o as [i| | |]; cbn [next].
  - eapply proc_mono; [by apply (zero_rest_spec P)|].
    intros o d2 (-> & Hr2 & Hok2 & Hn2 & Hf2 & _ & Hc2). 
    split; [by transitivity (set_slru s1 d)|]. split_and!; try done; [by rewrite Hn2| |].
    + intros q Hq Hd. rewrite Hf2. by apply Hg1.
    + intros y Hy. rewrite Hc2, (quiet_contents P d) by done.
      destruct (decide _) as [[? ?]|Hnd], (beyond_dec nextXid y) as [(? & ? & ?)|Hb]; try done; exfalso; [by apply Hb|by apply Hnd].
  - split_and!; try done. destruct Ho1 as [?|Hn']; [done|exfalso].
    destruct Hv as [b Hb], (ev_view _ _ Hev1 _ Hp) as [E'|[E' _]]; congruence.
  - done.
  - split_and!; done.
Qed.

Lemma DistributedLog_Startup_spec P rounds oldestXid latest oldestActive nextXid d :
  dl_ok P (dl_slru d) → normal nextXid → normal oldestXid → normal latest →
  ahead oldestXid latest ≤ 2 ^ 31 → ahead oldestXid latest < Z.of_nat rounds →
  (TransactionIdToEntry nextXid ≠ 0 → is_Some (view (dl_slru d) (TransactionIdToPage nextXid))) →
  wp (DistributedLog_Startup false rounds oldestXid latest oldestActive nextXid)
    (λ o d', dl_ok P (dl_slru d') ∧ blamed (dl_slru d) o (dl_slru d') ∧ disk_grows (dl_slru d) (dl_slru d') ∧
       match o with
       | Ret _ => searched (dl_slru d') latest oldestXid (dl_oldestXmin d') ∧
           ∀ y, 0 ≤ y → contents (dl_slru d') y = if beyond_dec nextXid y then zero_entry else contents (dl_slru d) y
       | _ => True
       end) d.
Proof.
  intros Hok Hn Ho Hl Hw Hr Hv. unfold DistributedLog_Startup. rewrite Hsegment.
  apply proc_bind, wp_on_slru, wp_modify. cbn [next].
  set (d1 := set_slru _ d). destruct (eqv_keeps (dl_slru d) (dl_slru d1)) as [Hinv1 Hev1]; [apply Hok|reflexivity|done..|].
  destruct (evolves_quiet P d (dl_slru d1) Hok Hinv1 Hev1) as (_ & Hok1 & _). change (dl_slru (set_slru _ _)) with (dl_slru d1) in Hok1.
  assert (Hc1 : ∀ y, contents (dl_slru d1) y = contents (dl_slru d) y) by done.
  apply proc_bind, proc_ret. cbn [next]. apply proc_bind.
  eapply proc_mono; [by apply (startup_clear P nextXid d1); [|apply normal_nonneg|]|].
  intros o d2 ((_ & _ & _) & Hok2 & Hn2 & Hg2 & Hb2 & Ho2). destruct o as [[]| | |]; cbn [next]; [|done..].
  apply proc_bind. eapply proc_mono; [by apply (init_oldest_spec P rounds oldestXid latest d2)|].
  intros o d3 (Hq3 & Hf3 & Ho3). pose proof Hq3 as (_ & Hok3 & Hst3).
  assert (Hg3 : disk_grows (dl_slru d) (dl_slru d3)) by (intros q Hq Hd; rewrite Hf3; by apply Hg2).
  pose proof (st_ios _ _ _ _ Hst3). change (ios (dl_slru d1)) with (ios (dl_slru d)) in Hn2.
  destruct o as [y| | |]; cbn [next]; [|split_and!; try done; by apply (io_failed_mono _ (dl_slru d2) (dl_slru d3))|done|
    split_and!; try done; by apply (fsync_failed_mono _ (dl_slru d2) (dl_slru d3))].
  apply wp_modify. split_and!; try done; cbn [dl_slru dl_oldestXmin set_oldestXmin].
  - destruct Ho3 as (H1 & H2 & H3 & H4). unfold searched. rewrite Hf3. done.
  - intros z Hz. by rewrite (quiet_contents P d2 d3), Ho2.
Qed.
End Replay.

(** ** The theorem *)

(** C4: The log survives a crash.  From the files [fs] and the records [rs] of the write-ahead log,
    replaying and starting return unless a request to the operating system fails.  Then the log holds
    the entry of every commit that was logged on a page that was on disk or created by a record before
    it, and of every commit that was on disk before, unless a record has removed or created the page
    since; nothing else is in the log ([P]: the commits there were); the ids from the next one on are
    empty on their page; and the oldest id of interest is before each of these commits, so that none is
    hidden from a look-up. *)
Theorem dlog_crash_recovery {env : DlogEnv} {blk : BlockSize} (P : Z → DistributedLogEntry → Prop)
    (fs : gmap Z (list dlpage)) (n0 : nat) (xlog : list dlog_record) (inserts : nat) (rs : list dlog_record)
    (rounds : nat) (oldestXid latest oldestActive nextXid : Z) :
  let d0 := DistributedLog_ShmemInit fs n0 xlog inserts in
  IS_QUERY_DISPATCHER = false →
  (∀ p b, 0 ≤ p → on_disk fs p = Some b → page_good P p b) →
  Forall record_ok rs → consistent P rs →
  normal oldestXid → normal latest → normal nextXid →
  ahead oldestXid latest ≤ 2 ^ 31 → ahead oldestXid latest < Z.of_nat rounds →
  (TransactionIdToEntry nextXid ≠ 0 →
   kept rs (TransactionIdToPage nextXid) ∧ ready (dl_slru d0) rs (length rs) (TransactionIdToPage nextXid)) →
  wp (replay rs;; DistributedLog_Startup false rounds oldestXid latest oldestActive nextXid)
    (λ o d', match o with
       | Ret _ =>
           (∀ k r x e, rs !! k = Some r → commits r x e → kept rs (TransactionIdToPage x) →
              ready (dl_slru d0) rs k (TransactionIdToPage x) → untouched rs k (TransactionIdToPage x) →
              ¬ beyond nextXid x → normal x →
              contents (dl_slru d') x = e ∧
              ahead oldestXid (dl_oldestXmin d') ≤ ahead oldestXid x) ∧
           (∀ x, normal x → disk_contents (dl_slru d0) x ≠ zero_entry → kept rs (TransactionIdToPage x) →
              untouched rs 0 (TransactionIdToPage x) → ¬ beyond nextXid x →
              contents (dl_slru d') x = disk_contents (dl_slru d0) x ∧
              ahead oldestXid (dl_oldestXmin d') ≤ ahead oldestXid x) ∧
           (∀ x, 0 ≤ x → contents (dl_slru d') x = zero_entry ∨ (¬ beyond nextXid x ∧ P x (contents (dl_slru d') x)))
       | ERROR => io_failed (dl_slru d0) (dl_slru d')
       | FATAL => False
       | PANIC => fsync_failed (dl_slru d0) (dl_slru d')
       end) d0.
Proof.
  intros d0 Hseg Hfs Hrs HP Hold Hlat Hnext Hw Hr Hend.
  destruct (init_inv NUM_DISTRIBUTEDLOG_BUFFERS 0 fs n0) as [Hinv Hview]; [unfold NUM_DISTRIBUTEDLOG_BUFFERS; lia|].
  assert (Hok : dl_ok P (dl_slru d0)).
  { split; [done|..]; intros p b Hp; [unfold d0; cbn [dl_slru DistributedLog_ShmemInit]; rewrite Hview|]; by apply Hfs. }
  assert (Hc0 : ∀ x, contents (dl_slru d0) x = disk_contents (dl_slru d0) x).
  { intros x. unfold contents, disk_contents, d0. cbn [dl_slru DistributedLog_ShmemInit]. by rewrite Hview. }
  apply proc_bind. eapply proc_mono; [by apply (replay_restores Hseg P)|].
  intros o d1 (Hr1 & Hok1 & Hn1 & Ho1). destruct o as [[]| | |]; [|done..].
  destruct Ho1 as (Hkeep & Hnew & Hpages). cbn [next].
  eapply proc_mono; [apply (DistributedLog_Startup_spec Hseg P); try done|].
  { intros E. destruct (Hend E) as [? ?]. apply view_of_disk, Hpages; [by apply page_nonneg, normal_nonneg|done..]. }
  intros o d2 (Hok2 & Hb2 & Hg2 & Ho2). apply (blamed_mono (dl_slru d0)) in Hb2; [|done]. destruct o as [[]| | |]; [|done..].
  destruct Ho2 as ((_ & _ & Hmiss & _) & Hc2).
  assert (Hseen : ∀ x, normal x → kept rs (TransactionIdToPage x) → ready (dl_slru d0) rs (length rs) (TransactionIdToPage x) →
    ahead oldestXid (dl_oldestXmin d2) ≤ ahead oldestXid x).
  { intros x Hx Hk Hrdy. destruct (Z.le_gt_cases (ahead oldestXid (dl_oldestXmin d2)) (ahead oldestXid x)) as [|Hgt]; [done|exfalso].
    pose proof (page_nonneg x (normal_nonneg x Hx)) as Hp.
    destruct (Hg2 _ Hp (Hpages _ Hp Hk Hrdy)) as [b Hb]. rewrite (Hmiss x Hx Hgt) in Hb. done. }
  assert (Hsame : ∀ x, normal x → ¬ beyond nextXid x → contents (dl_slru d2) x = contents (dl_slru d1) x).
  { intros x Hx Hb. rewrite Hc2 by by apply normal_nonneg. by destruct (beyond_dec nextXid x). }
  split_and!.
  - intros k r x e Hk Hcm Hkp Hrdy Hu Hb Hx. rewrite Hsame by done. split; [by eapply Hnew|].
    apply Hseen; [done..|]. destruct Hrdy as [?|(j & Hj & Hz)]; [by left|right]. exists j. split; [|done].
    by eapply lookup_lt_Some.
  - intros x Hx Hnz Hkp Hu Hb. rewrite Hsame, <-Hc0 in * by done.
    assert (Hd : is_Some (on_disk (files (dl_slru d0)) (TransactionIdToPage x))).
    { rewrite Hc0 in Hnz. unfold disk_contents in Hnz. by destruct (on_disk _ _). }
    split; [apply Hkeep; [by apply normal_nonneg|done..]|]. apply Hseen; [done..|by left].
  - intros x Hx. destruct (dl_ok_contents P (dl_slru d2) x Hok2 Hx) as [|HPx]; [by left|].
    destruct (beyond_dec nextXid x) as [Hb|Hb]; [left|by right]. rewrite Hc2 by done. by destruct (beyond_dec nextXid x).
Qed.

(** A file with one empty page; a transaction with a subtransaction commits, a page is created, and a
    transaction on it commits. *)
Module RecoverySample.
#[export] Instance recovery_env : DlogEnv := mkDlogEnv 1024 (λ _, IoDone) true false false (λ _, None).

#[export] Instance recovery_blk : BlockSize.
Proof. exists 10. split; [lia|done]. Defined.

Definition sample_fs : gmap Z (list dlpage) := {[ 0 := [zero_page] ]}.
Definition sample_records : list dlog_record :=
  [XLOG_XACT_COMMIT 3 1 [4; 0] 7 100; DISTRIBUTEDLOG_ZEROPAGE 1; XLOG_XACT_COMMIT 128 0 [] 7 101].
Definition sample_commits (x : Z) (e : DistributedLogEntry) : Prop :=
  ((x = 3 ∨ x = 4) ∧ e = mkLogEntry 7 100) ∨ (x = 128 ∧ e = mkLogEntry 7 101).

Lemma sample_consistent : consistent sample_commits sample_records.
Proof.
  unfold consistent, sample_records, sample_commits. intros r x e Hr Hc.
  rewrite !elem_of_cons, elem_of_nil in Hr. destruct Hr as [->|[->|[->|[]]]]; [|done|].
  - destruct Hc as (_ & _ & Hx & ->). unfold tree_ids in Hx. cbn [take] in Hx.
    rewrite !elem_of_cons, elem_of_nil in Hx. destruct Hx as [->|[->|[]]];
      (split; [left; split; [tauto|done]|intros f [[_ ->]|[E _]]; [done|lia]]).
  - destruct Hc as (_ & _ & Hx & ->). unfold tree_ids in Hx. cbn [take] in Hx.
    rewrite elem_of_cons, elem_of_nil in Hx. destruct Hx as [->|[]].
    split; [right; done|]. intros f [[[E|E] _]|[_ ->]]; [lia|lia|done].
Qed.

Lemma sample_records_ok : Forall record_ok sample_records.
Proof.
  repeat constructor; try done; unfold tree_ids; cbn [take]; intros x Hx; rewrite ?elem_of_cons, elem_of_nil in Hx; lia.
Qed.

Lemma sample_kept p : kept sample_records p.
Proof.
  intros r Hr. unfold sample_records in Hr. rewrite !elem_of_cons, elem_of_nil in Hr.
  destruct Hr as [->|[->|[->|[]]]]; by intros [].
Qed.

Lemma sample_untouched k p : p ≠ 1 ∨ (2 ≤ k)%nat → untouched sample_records k p.
Proof. intros Hp j Hj. destruct j as [|[|[|j]]]; cbn; intros [= E]; destruct Hp; lia. Qed.

Lemma sample_good p b : 0 ≤ p → on_disk sample_fs p = Some b → page_good sample_commits p b.
Proof.
  intros Hp Hb. assert (b = zero_page) as ->; [|apply zero_page_good].
  unfold on_disk, sample_fs in Hb. destruct (decide (p `quot` SLRU_PAGES_PER_SEGMENT = 0)) as [E|E].
  - rewrite E, lookup_singleton_eq in Hb. cbn [mbind option_bind] in Hb.
    destruct (Z.to_nat (p `rem` SLRU_PAGES_PER_SEGMENT)) as [|[|]]; by simplify_eq/=.
  - by rewrite lookup_singleton_ne in Hb.
Qed.
End RecoverySample.
Import RecoverySample.

Lemma dlog_crash_recovery_witness :
  ∃ d, bind (replay sample_records) (λ _, DistributedLog_Startup false 200 3 128 129 129)
         (DistributedLog_ShmemInit sample_fs 0 [] 0) = (Ret tt, d) ∧
       contents (dl_slru d) 4 = mkLogEntry 7 100 ∧ contents (dl_slru d) 128 = mkLogEntry 7 101 ∧
       dl_oldestXmin d = 3.
Proof.
  set (m := bind _ _). set (d0 := DistributedLog_ShmemInit sample_fs 0 [] 0).
  assert (E : (m d0).1 = Ret tt) by (vm_compute; reflexivity).
  assert (Eo : dl_oldestXmin (m d0).2 = 3) by (vm_compute; reflexivity).
  assert (Hn : ∀ x, 3 ≤ x < 2 ^ 32 → normal x) by (intros x Hx; exact Hx).
  assert (Hr : ready (dl_slru d0) sample_records 2 1) by (right; exists 1%nat; split; [lia|reflexivity]).
  assert (H0 : ready (dl_slru d0) sample_records 0 0) by (left; eexists; reflexivity).
  assert (Hb4 : ¬ beyond 129 4) by (intros (_ & Hb & _); vm_compute in Hb; lia).
  assert (Hb128 : ¬ beyond 129 128) by (intros (_ & _ & Hb); lia).
  assert (Hw : ahead 3 128 ≤ 2 ^ 31) by (vm_compute; discriminate).
  assert (Hf : ahead 3 128 < Z.of_nat 200) by (vm_compute; reflexivity).
  assert (Hend : TransactionIdToEntry 129 ≠ 0 → kept sample_records (TransactionIdToPage 129) ∧
    ready (dl_slru d0) sample_records (length sample_records) (TransactionIdToPage 129)).
  { intros _. split; [apply sample_kept|]. right. exists 1%nat. split; [cbn; lia|reflexivity]. }
  pose proof (@dlog_crash_recovery recovery_env recovery_blk sample_commits sample_fs 0 [] 0 sample_records 200 3 128 129
    129 eq_refl sample_good sample_records_ok sample_consistent (Hn 3 ltac:(lia)) (Hn 128 ltac:(lia)) (Hn 129 ltac:(lia))
    Hw Hf Hend) as H.
  unfold wp in H. fold m d0 in H. rewrite E in H. destruct H as (Hnew & _ & _).
  exists (m d0).2. split_and!; [rewrite <-E; by destruct (m d0)| | |exact Eo].
  - refine (proj1 (Hnew 0%nat _ 4 (mkLogEntry 7 100) eq_refl _ (sample_kept _) H0 (sample_untouched _ _ _) Hb4 (Hn _ _))); [|by left|lia].
    split_and!; try lia; [|reflexivity]. right. left.
  - refine (proj1 (Hnew 2%nat _ 128 (mkLogEntry 7 101) eq_refl _ (sample_kept _) Hr (sample_untouched _ _ _) Hb128 (Hn _ _))); [|by right|lia].
    split_and!; try lia; [|reflexivity]. left.
Defined.

(** ** A read outside the array *)

Section Overread.
Context {env : DlogEnv}.

Lemma skip_page_reads fuel n xs pageno i d j d' :
  skip_page fuel n xs pageno i d = (Ret j, d') → (j < length xs)%nat ∧ d' = d.
Proof.
  revert i. induction fuel as [|fuel IH]; intros i; cbn [skip_page]; [done|].
  destruct (xs !! i) as [x|] eqn:E; [|done]. destruct (_ && _); [apply IH|]. intros [= <- <-].
  split; [by eapply lookup_lt_Some|done].
Qed.

Lemma set_by_pages_reads fuel xs ts g isRedo i d :
  (i < length xs)%nat → (set_by_pages fuel (length xs) xs ts g isRedo i d).1 ≠ Ret tt.
Proof.
  revert i d. induction fuel as [|fuel IH]; intros i d Hi; cbn [set_by_pages];
    rewrite (proj2 (Nat.leb_gt _ _) Hi); [done|].
  destruct (xs !! i) as [x|]; [|done]. unfold bind at 1.
  destruct (skip_page _ _ xs _ i d) as [[j| | |] d1] eqn:E; [|done..]. apply skip_page_reads in E as [Hj ->].
  unfold bind. destruct (DistributedLog_SetCommittedWithinAPage _ _ _ _ _) as [[[]| | |] d2]; [|done..]. by apply IH.
Qed.
End Overread.

(** C39: Recording a commit reads behind the ids of the subtransactions.  With at least one
    subtransaction, and an array of exactly as many cells, [DistributedLog_SetCommittedByPages] never
    comes to its end without reading the cell behind the last one: its inner loop looks at
    [subxids[i]] before it compares [i] with [nsubxids]. *)
Theorem dlog_subxids_overread {env : DlogEnv} (subxids : list Z) (distribTimeStamp distribXid : Z) (isRedo : bool)
    (d : dlog) :
  subxids ≠ [] →
  (DistributedLog_SetCommittedByPages (length subxids) subxids distribTimeStamp distribXid isRedo d).1 ≠ Ret tt.
Proof. intros Hne. apply set_by_pages_reads. by destruct subxids; [|simpl; lia]. Qed.

Lemma dlog_subxids_overread_witness :
  (DistributedLog_SetCommittedByPages 1 [4] 7 100 true (DistributedLog_ShmemInit sample_fs 0 [] 0)).1 ≠ Ret tt ∧
  (DistributedLog_SetCommittedByPages 1 [4; 0] 7 100 true (DistributedLog_ShmemInit sample_fs 0 [] 0)).1 = Ret tt.
Proof.
  split; [|vm_compute; reflexivity]. apply (dlog_subxids_overread [4] 7 100 true). discriminate.
Defined.
