(* ===== verification/DtxContextInfo.v ===== *)
(** * What the dispatcher tells a segment about the transaction
    ([cdb/cdbdtxcontextinfo.c], [cdb/cdbtmutils.c], the transaction options of [cdb/cdbtm.c])

    With every statement the dispatcher sends the number and the text identifier of the distributed
    transaction, the options of the transaction as bits of an integer, the nesting level, and the
    distributed snapshot.  Texts are lists of character codes; the identifier lies in an array of
    [TMGIDSIZE] bytes and ends with a zero.  Debug logging is left out. *)
From S2P Require Import Prelude Bytes DistributedSnapshot.

(** ** The text of an identifier *)

Definition TMGIDSIZE : Z := 22.

(** The last [k] decimal digits. *)
Fixpoint dec (k : nat) (v : Z) : list Z :=
  match k with O => [] | S k => dec k (v / 10) ++ [48 + v mod 10] end.

(** Without the zeros at the front; zero itself has one digit. *)
Fixpoint strip (s : list Z) : list Z :=
  match s with
  | 48 :: ((_ :: _) as s') => strip s'
  | _ => s
  end.

(** [printf] of an unsigned integer of 32 bits by [%u] and by [%.10u]. *)
Definition print_u (v : Z) : list Z := strip (dec 10 v).
Definition print_u10 (v : Z) : list Z := dec 10 v.

Definition gid_text (tstamp gxid : Z) : list Z := print_u tstamp ++ [45] ++ print_u10 gxid.

(** [sprintf] to the array, which has to have room for the text and a zero. *)
Definition dtxFormGID (gid : list Z) (tstamp gxid : Z) : result (list Z) :=
  poke gid 0 (gid_text tstamp gxid ++ [0]).

(** [strlen]: [None] where the array has no zero. *)
Fixpoint strlen (s : list Z) : option Z :=
  match s with
  | [] => None
  | c :: s => if c =? 0 then Some 0 else n ← strlen s; Some (1 + n)
  end.

Definition isspace (c : Z) : bool := (c =? 32) || ((9 <=? c) && (c <=? 13)).
Definition isdigit (c : Z) : bool := (48 <=? c) && (c <=? 57).

Fixpoint skip_spaces (s : list Z) : list Z :=
  match s with c :: s' => if isspace c then skip_spaces s' else s | [] => [] end.

(** The value of the digits at the front, how many they are, and the rest. *)
Fixpoint scan_digits (s : list Z) (acc : Z) (n : nat) : Z * nat * list Z :=
  match s with
  | c :: s' => if isdigit c then scan_digits s' (10 * acc + (c - 48)) (S n) else (acc, n, s)
  | [] => (acc, n, [])
  end.

(** [sscanf] by [%u]: spaces, a sign, digits; the value as [strtoul] computes it, cut to 32 bits. *)
Definition scan_u (s : list Z) : option (Z * list Z) :=
  let s := skip_spaces s in
  let '(negative, s) :=
    match s with
    | 43 :: s => (false, s)
    | 45 :: s => (true, s)
    | _ => (false, s)
    end in
  match scan_digits s 0 0 with
  | (_, O, _) => None
  | (v, _, s) =>
      let v := Z.min v (2 ^ 64 - 1) in
      Some (u32 (if negative : bool then - v else v), s)
  end.

(** The text up to the zero. *)
Fixpoint c_string (s : list Z) : list Z :=
  match s with c :: s => if c =? 0 then [] else c :: c_string s | [] => [] end.

Definition dtxCrackOpenGid (gid : list Z) : result (Z * Z) :=
  match scan_u (c_string gid) with
  | Some (distribTimeStamp, 45 :: s) =>
      match scan_u s with
      | Some (distribXid, _) => Ok (distribTimeStamp, distribXid)
      | None => Err "Bad distributed transaction identifier"
      end
  | _ => Err "Bad distributed transaction identifier"
  end.

(** ** The options of a transaction *)

Definition XACT_READ_UNCOMMITTED : Z := 0.
Definition XACT_READ_COMMITTED : Z := 1.
Definition XACT_REPEATABLE_READ : Z := 2.
Definition XACT_SERIALIZABLE : Z := 3.

Definition GP_OPT_NEED_DTX : Z := 0x0001.
Definition GP_OPT_ISOLATION_LEVEL_MASK : Z := 0x000E.
Definition GP_OPT_READ_UNCOMMITTED : Z := Z.shiftl 1 1.
Definition GP_OPT_READ_COMMITTED : Z := Z.shiftl 2 1.
Definition GP_OPT_REPEATABLE_READ : Z := Z.shiftl 3 1.
Definition GP_OPT_SERIALIZABLE : Z := Z.shiftl 4 1.
Definition GP_OPT_READ_ONLY : Z := 0x0010.
Definition GP_OPT_EXPLICT_BEGIN : Z := 0x0020.

Definition mppTxnOptions (XactIsoLevel : Z) (XactReadOnly isCurrentDtxActivated explicitBeginRemembered
    needDtx : bool) : Z :=
  let options := if needDtx then Z.lor 0 GP_OPT_NEED_DTX else 0 in
  let options :=
    if XactIsoLevel =? XACT_READ_COMMITTED then Z.lor options GP_OPT_READ_COMMITTED
    else if XactIsoLevel =? XACT_REPEATABLE_READ then Z.lor options GP_OPT_REPEATABLE_READ
    else if XactIsoLevel =? XACT_SERIALIZABLE then Z.lor options GP_OPT_SERIALIZABLE
    else if XactIsoLevel =? XACT_READ_UNCOMMITTED then Z.lor options GP_OPT_READ_UNCOMMITTED
    else options in
  let options := if XactReadOnly then Z.lor options GP_OPT_READ_ONLY else options in
  if isCurrentDtxActivated && explicitBeginRemembered then Z.lor options GP_OPT_EXPLICT_BEGIN else options.

Definition mppTxOptions_IsoLevel (txnOptions : Z) : result Z :=
  let level := Z.land txnOptions GP_OPT_ISOLATION_LEVEL_MASK in
  if level =? GP_OPT_SERIALIZABLE then Ok XACT_SERIALIZABLE
  else if level =? GP_OPT_REPEATABLE_READ then Ok XACT_REPEATABLE_READ
  else if level =? GP_OPT_READ_COMMITTED then Ok XACT_READ_COMMITTED
  else if level =? GP_OPT_READ_UNCOMMITTED then Ok XACT_READ_UNCOMMITTED
  else Err "transaction options from QD did not include isolation level".

Definition isMppTxOptions_ReadOnly (txnOptions : Z) : bool := negb (Z.land txnOptions GP_OPT_READ_ONLY =? 0).
Definition isMppTxOptions_NeedDtx (txnOptions : Z) : bool := negb (Z.land txnOptions GP_OPT_NEED_DTX =? 0).
Definition isMppTxOptions_ExplicitBegin (txnOptions : Z) : bool :=
  negb (Z.land txnOptions GP_OPT_EXPLICT_BEGIN =? 0).

(** ** The context info *)

Record DtxContextInfo := mkInfo {
  distributedTimeStamp : Z;
  distributedXid : Z;
  distributedId : list Z;
  haveDistributedSnapshot : bool;
  cursorContext : bool;
  distributedSnapshot : DistributedSnapshot;
  distributedTxnOptions : Z;
  segmateSync : Z;
  nestingLevel : Z;
  curcid : Z;
}.

(** 21 spaces and a zero. *)
Definition TmGid_Init : list Z := replicate 21 32 ++ [0].

Definition DtxContextInfo_Reset (i : DtxContextInfo) : result DtxContextInfo :=
  ds ← DistributedSnapshot_Reset (distributedSnapshot i);
  Ok (mkInfo 0 InvalidDistributedTransactionId TmGid_Init false (cursorContext i) ds 0 0 0 0).

Section Context.
Context (malloc : Z → option (list Z)).

Definition DtxContextInfo_Copy (target source : DtxContextInfo) : result DtxContextInfo :=
  target ← DtxContextInfo_Reset target;
  ds ← (if haveDistributedSnapshot source
        then DistributedSnapshot_Copy malloc (distributedSnapshot target) (distributedSnapshot source)
        else Ok (distributedSnapshot target));
  Ok (mkInfo (distributedTimeStamp source) (distributedXid source) (distributedId source)
        (haveDistributedSnapshot source) (cursorContext source) ds (distributedTxnOptions source)
        (segmateSync source) (nestingLevel source) (curcid source)).

(** What the process knows of its transaction: number and time stamp of the distributed
    transaction (zero outside of one), the start time, the nesting level, and the count of
    dispatches. *)
Record master := mkMaster {
  m_gxid : Z;
  m_distribTimeStamp : Z;
  m_DtxStartTime : Z;
  m_nestLevel : Z;
  m_syncCount : Z;
}.

(** The snapshot is its command id and the distributed snapshot, if it has one. *)
Definition DtxContextInfo_CreateOnMaster (m : master) (i : DtxContextInfo) (inCursor : bool) (txnOptions : Z)
    (snapshot : option (Z * option DistributedSnapshot)) : result (DtxContextInfo * Z) :=
  let cid := match snapshot with Some (cid, _) => cid | None => 0 end in
  i ← DtxContextInfo_Reset i;
  '(ts, id, cid) ←
    (if negb (m_gxid m =? InvalidDistributedTransactionId)
     then id ← dtxFormGID (distributedId i) (m_distribTimeStamp m) (m_gxid m); Ok (m_DtxStartTime m, id, cid)
     else Ok (distributedTimeStamp i, distributedId i, curcid i));
  let syncCount := if inCursor then m_syncCount m else u32 (m_syncCount m + 1) in
  if syncCount =? 2 ^ 32 - 1 then Err "cannot have more than 2^32-2 commands in a session"
  else
    '(have, ds) ←
      (match snapshot with
       | Some (_, Some ds) => ds ← DistributedSnapshot_Copy malloc (distributedSnapshot i) ds; Ok (true, ds)
       | _ => Ok (false, distributedSnapshot i)
       end);
    Ok (mkInfo ts (m_gxid m) id have inCursor ds txnOptions syncCount (m_nestLevel m) cid, syncCount).

Definition DtxContextInfo_SerializeSize (i : DtxContextInfo) : Z :=
  4 + (if negb (distributedXid i =? InvalidDistributedTransactionId) then 4 + TMGIDSIZE + 4 else 0)
  + 4 + 4 + 1 + 1
  + (if haveDistributedSnapshot i then DistributedSnapshot_SerializeSize (distributedSnapshot i) else 0)
  + 4.

(** [memcpy] to the position and from it, which moves on. *)
Definition put (bs : list Z) (st : list Z * Z) : result (list Z * Z) :=
  let '(buffer, p) := st in buffer ← poke buffer p bs; Ok (buffer, p + zlen bs).
Definition put_bool (b : bool) (st : list Z * Z) : result (list Z * Z) := put [if b then 1 else 0] st.

Definition read_u32 (buffer : list Z) (p : Z) : result (Z * Z) :=
  bs ← peek buffer p 4; Ok (le_value bs, p + 4).
Definition read_bool (buffer : list Z) (p : Z) : result (bool * Z) :=
  bs ← peek buffer p 1; Ok (negb (le_value bs =? 0), p + 1).

Definition too_long : string := "Distribute transaction identifier too long".

(** The buffer and the number of bytes used. *)
Definition DtxContextInfo_Serialize (buffer : list Z) (i : DtxContextInfo) : result (list Z * Z) :=
  st ← put (le_bytes 4 (distributedXid i)) (buffer, 0);
  st ← (if negb (distributedXid i =? InvalidDistributedTransactionId) then
          st ← put (le_bytes 4 (distributedTimeStamp i)) st;
          match strlen (distributedId i) with
          | None => Err too_long
          | Some _ => st ← put (distributedId i) st; put (le_bytes 4 (curcid i)) st
          end
        else Ok st);
  st ← put (le_bytes 4 (segmateSync i)) st;
  st ← put (le_bytes 4 (nestingLevel i)) st;
  st ← put_bool (haveDistributedSnapshot i) st;
  '(buffer, p) ← put_bool (cursorContext i) st;
  st ← (if haveDistributedSnapshot i then
          '(used, rest) ← DistributedSnapshot_Serialize (distributedSnapshot i) (drop (Z.to_nat p) buffer);
          Ok (take (Z.to_nat p) buffer ++ rest, p + used)
        else Ok (buffer, p));
  put (le_bytes 4 (distributedTxnOptions i)) st.

(** [buffer] holds the message of [len] bytes. *)
Definition DtxContextInfo_Deserialize (buffer : list Z) (len : Z) (i : DtxContextInfo) : result DtxContextInfo :=
  i ← DtxContextInfo_Reset i;
  if 0 <? len then
    '(xid, p) ← read_u32 buffer 0;
    '(ts, id, cid, p) ←
      (if negb (xid =? InvalidDistributedTransactionId) then
         '(ts, p) ← read_u32 buffer p;
         id ← peek buffer p TMGIDSIZE;
         match strlen id with
         | None => Err too_long
         | Some _ => '(cid, p) ← read_u32 buffer (p + TMGIDSIZE); Ok (ts, id, cid, p)
         end
       else Ok (distributedTimeStamp i, distributedId i, curcid i, p));
    '(sync, p) ← read_u32 buffer p;
    '(level, p) ← read_u32 buffer p;
    '(have, p) ← read_bool buffer p;
    '(cursor, p) ← read_bool buffer p;
    '(ds, p) ←
      (if have : bool then
         '(used, ds) ← DistributedSnapshot_Deserialize malloc (drop (Z.to_nat p) buffer) (distributedSnapshot i);
         Ok (ds, p + used)
       else Ok (distributedSnapshot i, p));
    '(options, p) ← read_u32 buffer p;
    Ok (mkInfo ts xid id have cursor ds (s32 options) sync level cid)
  else Ok i.
End Context.
