(* ===== verification/DtxContextInfoFacts.v ===== *)
(** * What the dispatcher tells a segment: identifiers, options and messages

    The text of an identifier is parsed back to its numbers and fits its array; the options are
    decoded as they were encoded; a message is read back as the structure it was made from. *)
From S2P Require Import Prelude BitmapCompression Bytes DistributedSnapshot.
From S2P Require Import DistributedSnapshotFacts DtxContextInfo.

(** ** The text of an identifier *)

(** The value of a text of digits behind [acc]. *)
Abbreviation value_from := (foldl (λ a c, 10 * a + (c - 48))).

Lemma length_dec k v : length (dec k v) = k.
Proof. revert v. induction k as [|k IH]; intros v; cbn [dec]; [done|]. rewrite length_app, IH. simpl. lia. Qed.

Lemma dec_digits k v : Forall (λ c, isdigit c = true) (dec k v).
Proof.
  revert v. induction k as [|k IH]; intros v; cbn [dec]; [done|]. apply Forall_app. split; [done|].
  constructor; [|done]. pose proof (Z.mod_pos_bound v 10). apply andb_true_iff. split; apply Z.leb_le; lia.
Qed.

Lemma value_dec k v acc : 0 ≤ v → value_from acc (dec k v) = acc * 10 ^ Z.of_nat k + v mod 10 ^ Z.of_nat k.
Proof.
  revert v acc. induction k as [|k IH]; intros v acc Hv; cbn [dec foldl].
  { rewrite Z.mod_1_r. lia. }
  rewrite foldl_app, IH by (apply Z.div_pos; lia). cbn [foldl].
  rewrite Nat2Z.inj_succ, Z.pow_succ_r, Z.rem_mul_r by lia. lia.
Qed.

Lemma strip_spec s :
  Forall (λ c, isdigit c = true) s → s ≠ [] →
  Forall (λ c, isdigit c = true) (strip s) ∧ strip s ≠ [] ∧ (length (strip s) ≤ length s)%nat ∧
  value_from 0 (strip s) = value_from 0 s.
Proof.
  induction s as [|c s IH]; [done|]. intros Hd _. destruct (decide (c = 48 ∧ s ≠ [])) as [[-> Hs]|Hn].
  - apply Forall_cons in Hd as [_ Hd]. destruct (IH Hd Hs) as (H1 & H2 & H3 & H4).
    destruct s as [|c' s]; [done|]. change (strip (48 :: c' :: s)) with (strip (c' :: s)).
    split_and!; [done|done|simpl in *; lia|done].
  - assert (E : strip (c :: s) = c :: s); [|by rewrite E].
    destruct s as [|c' s]; [by repeat (destruct c as [|c|c]; try done)|].
    destruct (decide (c = 48)) as [->|Hc]; [naive_solver|].
    cbn [strip]. repeat (destruct c as [|c|c]; try done).
Qed.

(** The text does not go on with a digit. *)
Definition stops (rest : list Z) : Prop := match rest with c :: _ => isdigit c = false | [] => True end.

Lemma scan_digits_app ds rest acc n :
  Forall (λ c, isdigit c = true) ds → stops rest →
  scan_digits (ds ++ rest) acc n = (value_from acc ds, (n + length ds)%nat, rest).
Proof.
  revert acc n. induction ds as [|c ds IH]; intros acc n Hd Hr; cbn [app].
  - rewrite Nat.add_0_r. destruct rest as [|c rest]; [done|]. cbn [scan_digits]. by rewrite Hr.
  - apply Forall_cons in Hd as [Hc Hd]. cbn [scan_digits]. rewrite Hc, IH by done. do 2 f_equal. simpl. lia.
Qed.

Lemma scan_u_app ds rest :
  Forall (λ c, isdigit c = true) ds → ds ≠ [] → stops rest → is_u32 (value_from 0 ds) →
  scan_u (ds ++ rest) = Some (value_from 0 ds, rest).
Proof.
  intros Hd Hne Hr Hv. destruct ds as [|c ds]; [done|]. assert (Hc : isdigit c = true) by by inversion Hd.
  unfold scan_u. assert (Hs : skip_spaces ((c :: ds) ++ rest) = (c :: ds) ++ rest).
  { cbn [app skip_spaces]. unfold isdigit, isspace in *. apply andb_true_iff in Hc as [H1%Z.leb_le H2%Z.leb_le].
    rewrite (proj2 (Z.eqb_neq c 32)), (proj2 (Z.leb_gt c 13)) by lia. by rewrite andb_false_r. }
  rewrite Hs. cbn [app]. assert (E : ∀ s : list Z, match c :: s with
    | 43 :: s' => (false, s') | 45 :: s' => (true, s') | _ => (false, c :: s) end = (false, c :: s)).
  { intros s. unfold isdigit in Hc. apply andb_true_iff in Hc as [H1%Z.leb_le H2%Z.leb_le].
    assert (c = 48 ∨ c = 49 ∨ c = 50 ∨ c = 51 ∨ c = 52 ∨ c = 53 ∨ c = 54 ∨ c = 55 ∨ c = 56 ∨ c = 57) as Hcs by lia.
    destruct_or! Hcs; by subst c. }
  rewrite E. change (c :: ds ++ rest) with ((c :: ds) ++ rest). rewrite scan_digits_app by done. cbn [length plus].
  unfold is_u32 in Hv. rewrite Z.min_l by lia. by rewrite u32_small.
Qed.

Lemma print_u_spec v :
  is_u32 v → Forall (λ c, isdigit c = true) (print_u v) ∧ print_u v ≠ [] ∧
    (length (print_u v) ≤ 10)%nat ∧ value_from 0 (print_u v) = v.
Proof.
  intros Hv. destruct (strip_spec (dec 10 v)) as (H1 & H2 & H3 & H4); [apply dec_digits|by destruct v|].
  rewrite length_dec in H3. unfold is_u32 in Hv. rewrite value_dec, Z.mod_small in H4 by lia. by split_and!.
Qed.

Lemma print_u10_spec v :
  is_u32 v → Forall (λ c, isdigit c = true) (print_u10 v) ∧ length (print_u10 v) = 10%nat ∧
    value_from 0 (print_u10 v) = v.
Proof.
  intros Hv. unfold is_u32 in Hv. split_and!; [apply dec_digits|apply length_dec|].
  unfold print_u10. rewrite value_dec, Z.mod_small; lia.
Qed.

(** *** Texts in arrays *)

Lemma c_string_app s post : Forall (λ c, c ≠ 0) s → c_string (s ++ 0 :: post) = s.
Proof.
  induction 1 as [|c s Hc _ IH]; [done|]. cbn [app c_string]. rewrite (proj2 (Z.eqb_neq c 0)) by done. by rewrite IH.
Qed.

Lemma strlen_app s post : Forall (λ c, c ≠ 0) s → strlen (s ++ 0 :: post) = Some (zlen s).
Proof.
  induction 1 as [|c s Hc _ IH]; [done|]. cbn [app strlen]. rewrite (proj2 (Z.eqb_neq c 0)) by done.
  rewrite IH. cbn. f_equal. lia.
Qed.

Lemma digit_nonzero s : Forall (λ c, isdigit c = true) s → Forall (λ c, c ≠ 0 ∧ 0 ≤ c < 256) s.
Proof.
  intros H. eapply Forall_impl; [exact H|]. intros c Hc. cbn beta in Hc. unfold isdigit in Hc. apply andb_true_iff in Hc as [H1%Z.leb_le H2%Z.leb_le]. lia.
Qed.

Lemma gid_text_spec tstamp gxid :
  is_u32 tstamp → is_u32 gxid →
  (length (gid_text tstamp gxid) ≤ 21)%nat ∧ Forall (λ c, c ≠ 0 ∧ 0 ≤ c < 256) (gid_text tstamp gxid) ∧
  ∀ post, dtxCrackOpenGid (gid_text tstamp gxid ++ 0 :: post) = Ok (tstamp, gxid).
Proof.
  intros Ht Hx. destruct (print_u_spec _ Ht) as (D1 & N1 & L1 & V1). destruct (print_u10_spec _ Hx) as (D2 & L2 & V2).
  unfold gid_text. assert (Hnz : Forall (λ c, c ≠ 0 ∧ 0 ≤ c < 256) (print_u tstamp ++ [45] ++ print_u10 gxid)).
  { rewrite !Forall_app. split_and!; [by apply digit_nonzero| |by apply digit_nonzero]. repeat constructor; lia. }
  split_and!; [rewrite !length_app, L2; simpl; lia|done|].
  intros post. unfold dtxCrackOpenGid. rewrite c_string_app by (eapply Forall_impl; [done|]; naive_solver).
  rewrite scan_u_app by (try done; by rewrite V1). cbn [app].
  pose proof (scan_u_app (print_u10 gxid) []) as Hs. rewrite app_nil_r in Hs.
  rewrite Hs, V1, V2; try done. by rewrite V2.
Qed.

(** The identifier is written into its array and parsed back. *)
Lemma dtxFormGID_spec gid tstamp gxid :
  zlen gid = TMGIDSIZE → Forall is_u8 gid → is_u32 tstamp → is_u32 gxid →
  ∃ gid', dtxFormGID gid tstamp gxid = Ok gid' ∧ zlen gid' = TMGIDSIZE ∧ Forall is_u8 gid' ∧
    (∃ n, strlen gid' = Some n) ∧ dtxCrackOpenGid gid' = Ok (tstamp, gxid).
Proof.
  intros Hl Hu Ht Hx. destruct (gid_text_spec _ _ Ht Hx) as (Hlen & Hnz & Hcrack). unfold TMGIDSIZE in *.
  unfold dtxFormGID, poke. rewrite length_app. cbn [length].
  rewrite (proj2 (Z.leb_le 0 0)), (proj2 (Z.leb_le _ _)) by lia. cbn [andb Z.to_nat take].
  eexists. split; [done|]. rewrite app_nil_l, <- app_assoc. cbn [app]. split_and!.
  - rewrite length_app. cbn [length]. rewrite length_drop. lia.
  - apply Forall_app. split; [eapply Forall_impl; [done|]; unfold is_u8; naive_solver|].
    constructor; [unfold is_u8; lia|by apply Forall_drop].
  - rewrite strlen_app by (eapply Forall_impl; [done|]; naive_solver). eauto.
  - apply Hcrack.
Qed.

(** ** The options of a transaction *)

Lemma mppTxnOptions_spec level readOnly activated explicitBegin needDtx :
  0 ≤ level ≤ 3 →
  let options := mppTxnOptions level readOnly activated explicitBegin needDtx in
  mppTxOptions_IsoLevel options = Ok level ∧ isMppTxOptions_ReadOnly options = readOnly ∧
  isMppTxOptions_NeedDtx options = needDtx ∧
  isMppTxOptions_ExplicitBegin options = activated && explicitBegin ∧ 0 ≤ options < 64.
Proof.
  intros Hl. assert (level = 0 ∨ level = 1 ∨ level = 2 ∨ level = 3) as Hls by lia.
  destruct_or! Hls; subst level; destruct readOnly, activated, explicitBegin, needDtx; vm_compute;
    (split_and!; (reflexivity || discriminate)).
Qed.

(** ** Writing and reading a message *)

Lemma put_eq pre rest bs :
  (length bs ≤ length rest)%nat →
  put bs (pre ++ rest, zlen pre) = Ok ((pre ++ bs) ++ drop (length bs) rest, zlen (pre ++ bs)).
Proof.
  intros Hl. unfold put, poke. rewrite (proj2 (Z.leb_le 0 _)), (proj2 (Z.leb_le _ _)) by (rewrite ?length_app; lia).
  cbn [andb mbind result_bind]. rewrite Nat2Z.id, take_app_length, drop_app_add.
  by rewrite length_app, Nat2Z.inj_add, <- app_assoc.
Qed.

Lemma read_u32_holds buffer p v :
  holds buffer p (le_bytes 4 v) → is_u32 v → read_u32 buffer p = Ok (v, p + 4).
Proof.
  intros Hh Hv. unfold read_u32. pose proof (load_small 4 buffer p v Hh ltac:(lia) Hv) as Hl. unfold load in Hl.
  change (Z.of_nat 4) with 4 in Hl. destruct (peek buffer p 4); cbn [mbind result_bind] in *; by simplify_eq.
Qed.

Lemma peek_held buffer p bs : holds buffer p bs → bs ≠ [] → peek buffer p (zlen bs) = Ok bs.
Proof. intros Hh Hne. apply peek_holds; [done|]. by destruct (holds_bound _ _ _ Hh). Qed.

Lemma read_bool_holds buffer p (b : bool) :
  holds buffer p [if b then 1 else 0] → read_bool buffer p = Ok (b, p + 1).
Proof.
  intros Hh. unfold read_bool. pose proof (peek_held _ _ _ Hh ltac:(done)) as Hp.
  change (zlen [if b then 1 else 0]) with 1 in Hp. rewrite Hp. by destruct b.
Qed.

Lemma holds_drop buffer p bs : holds buffer p bs → ∃ post, drop (Z.to_nat p) buffer = bs ++ post.
Proof.
  intros [_ Hh]. exists (drop (Z.to_nat p + length bs) buffer). apply list_eq. intros i. rewrite lookup_drop.
  destruct (decide (i < length bs)%nat) as [Hi|Hi].
  - rewrite lookup_app_l by done. destruct (lookup_lt_is_Some_2 bs i Hi) as [b Hb]. rewrite Hb. by apply Hh.
  - rewrite lookup_app_r, lookup_drop by lia. f_equal. lia.
Qed.

(** ** Messages *)

Record info_ok (i : DtxContextInfo) : Prop := {
  io_words : Forall is_u32 [distributedTimeStamp i; distributedXid i; segmateSync i; nestingLevel i; curcid i];
  io_options : - 2 ^ 31 ≤ distributedTxnOptions i < 2 ^ 31;
  io_id : zlen (distributedId i) = TMGIDSIZE;
  io_text : is_Some (strlen (distributedId i));
  io_snapshot : haveDistributedSnapshot i = true → snapshot_ok (distributedSnapshot i);
}.

(** What a receiver learns: identifier, time stamp and command id only within a distributed
    transaction, the snapshot only if there is one. *)
Definition same_info (i j : DtxContextInfo) : Prop :=
  distributedXid j = distributedXid i ∧ segmateSync j = segmateSync i ∧ nestingLevel j = nestingLevel i ∧
  haveDistributedSnapshot j = haveDistributedSnapshot i ∧ cursorContext j = cursorContext i ∧
  distributedTxnOptions j = distributedTxnOptions i ∧
  (distributedXid i ≠ InvalidDistributedTransactionId →
     distributedTimeStamp j = distributedTimeStamp i ∧ distributedId j = distributedId i ∧ curcid j = curcid i) ∧
  (haveDistributedSnapshot i = true → same_snapshot (distributedSnapshot i) (distributedSnapshot j)).

Definition snapshot_bytes (d : DistributedSnapshot) : list Z :=
  concat (word_bytes <$> header_words d) ++ concat (word_bytes <$> in_progress d).

Lemma length_snapshot_bytes d : snapshot_ok d → zlen (snapshot_bytes d) = DistributedSnapshot_SerializeSize d.
Proof.
  intros Hok. pose proof (length_in_progress d Hok). unfold snapshot_bytes, DistributedSnapshot_SerializeSize.
  rewrite length_app, !length_word_bytes. simpl. lia.
Qed.

Definition id_part (i : DtxContextInfo) : list Z :=
  if negb (distributedXid i =? InvalidDistributedTransactionId)
  then le_bytes 4 (distributedTimeStamp i) ++ distributedId i ++ le_bytes 4 (curcid i) else [].

Definition snapshot_part (i : DtxContextInfo) : list Z :=
  if haveDistributedSnapshot i then snapshot_bytes (distributedSnapshot i) else [].

Definition message (i : DtxContextInfo) : list Z :=
  le_bytes 4 (distributedXid i) ++ id_part i ++ le_bytes 4 (segmateSync i) ++ le_bytes 4 (nestingLevel i) ++
  [if haveDistributedSnapshot i then 1 else 0] ++ [if cursorContext i then 1 else 0] ++ snapshot_part i ++
  le_bytes 4 (distributedTxnOptions i).

Lemma length_id_part i : info_ok i →
  zlen (id_part i) = if negb (distributedXid i =? InvalidDistributedTransactionId) then 4 + TMGIDSIZE + 4 else 0.
Proof.
  intros Hok. pose proof (io_id _ Hok) as Hid. unfold id_part. destruct (negb _); [|done].
  rewrite !length_app, !length_le_bytes. unfold TMGIDSIZE in *. lia.
Qed.

Lemma length_snapshot_part i : info_ok i →
  zlen (snapshot_part i) =
  if haveDistributedSnapshot i then DistributedSnapshot_SerializeSize (distributedSnapshot i) else 0.
Proof.
  intros Hok. pose proof (io_snapshot _ Hok). unfold snapshot_part.
  destruct (haveDistributedSnapshot i); [|done]. apply length_snapshot_bytes. auto.
Qed.

Lemma length_message i : info_ok i → zlen (message i) = DtxContextInfo_SerializeSize i.
Proof.
  intros Hok. unfold message, DtxContextInfo_SerializeSize.
  pose proof (length_id_part i Hok). pose proof (length_snapshot_part i Hok).
  rewrite !length_app, !length_le_bytes. cbn [length]. lia.
Qed.

Lemma serialize_message i buffer :
  info_ok i → DtxContextInfo_SerializeSize i ≤ zlen buffer →
  DtxContextInfo_Serialize buffer i =
  Ok (message i ++ drop (Z.to_nat (DtxContextInfo_SerializeSize i)) buffer, DtxContextInfo_SerializeSize i).
Proof.
  intros Hok Hl. pose proof (length_message i Hok) as Hm. rewrite <- Hm in *. rewrite Nat2Z.id.
  assert (Hlen : (length (message i) ≤ length buffer)%nat) by lia. clear Hl.
  unfold DtxContextInfo_Serialize. change (buffer, 0) with ([] ++ buffer, zlen (@nil Z)).
  unfold message in Hlen |- *. rewrite !length_app, !length_le_bytes in Hlen. cbn [length] in Hlen.
  rewrite put_eq by (rewrite length_le_bytes; lia). cbn [mbind result_bind app].
  set (pre1 := le_bytes 4 (distributedXid i)). set (rest1 := drop _ buffer).
  assert (Hrest1 : length rest1 = (length buffer - 4)%nat) by (unfold rest1, pre1; rewrite length_drop, length_le_bytes; lia).
  match goal with |- mbind _ ?m = _ => assert (E1 : m =
    Ok ((pre1 ++ id_part i) ++ drop (length (id_part i)) rest1, zlen (pre1 ++ id_part i))) end.
  { unfold id_part in *. destruct (negb _); [|by rewrite app_nil_r].
    rewrite !length_app, !length_le_bytes in Hlen. destruct (io_text _ Hok) as [n ->].
    rewrite put_eq by (rewrite length_le_bytes; lia). cbn [mbind result_bind].
    rewrite put_eq by (rewrite length_drop, length_le_bytes; lia). cbn [mbind result_bind].
    rewrite put_eq by (rewrite !length_drop, !length_le_bytes; lia).
    rewrite !drop_drop, !length_app, <- !app_assoc. done. }
  rewrite E1. clear E1. cbn [mbind result_bind].
  assert (Hmid : (length (id_part i) ≤ length rest1)%nat) by lia.
  rewrite put_eq by (rewrite length_drop, length_le_bytes; lia). cbn [mbind result_bind].
  rewrite put_eq by (rewrite !length_drop, !length_le_bytes; lia). cbn [mbind result_bind].
  unfold put_bool. rewrite put_eq by (rewrite !length_drop, !length_le_bytes; cbn [length]; lia). cbn [mbind result_bind].
  rewrite put_eq by (rewrite !length_drop, !length_le_bytes; cbn [length]; lia). cbn [mbind result_bind].
  set (pre2 := (((((_ ++ id_part i) ++ _) ++ _) ++ [_]) ++ [_])). set (rest2 := drop _ (drop _ _)).
  assert (Hrest2 : length rest2 = (length rest1 - length (id_part i) - 10)%nat)
    by (unfold rest2; rewrite !length_drop, !length_le_bytes; cbn [length]; lia).
  match goal with |- mbind _ ?m = _ => assert (E2 : m =
    Ok ((pre2 ++ snapshot_part i) ++ drop (length (snapshot_part i)) rest2, zlen (pre2 ++ snapshot_part i))) end.
  { unfold snapshot_part in *. pose proof (io_snapshot _ Hok) as Hs.
    destruct (haveDistributedSnapshot i); [|by rewrite app_nil_r]. specialize (Hs eq_refl).
    pose proof (length_snapshot_bytes _ Hs) as Hls. rewrite Nat2Z.id, drop_app_length, take_app_length.
    rewrite serialize_eq by (try done; lia). cbn [mbind result_bind]. rewrite <- Hls, Nat2Z.id.
    unfold snapshot_bytes. by rewrite (length_app pre2), Nat2Z.inj_add, <- !app_assoc. }
  rewrite E2. clear E2. cbn [mbind result_bind].
  rewrite put_eq by (rewrite !length_drop, !length_le_bytes; lia).
  unfold rest2, rest1, pre2, pre1. rewrite !drop_drop, !length_app, <- !app_assoc. cbn [length app].
  rewrite !length_app, <- !app_assoc. f_equal. f_equal. lia.
Qed.

Lemma reset_spec i : receiver_ok (distributedSnapshot i) →
  ∃ ds, receiver_ok ds ∧
    DtxContextInfo_Reset i = Ok (mkInfo 0 InvalidDistributedTransactionId TmGid_Init false (cursorContext i) ds 0 0 0 0).
Proof.
  intros [Hm Ha]. unfold DtxContextInfo_Reset, DistributedSnapshot_Reset. rewrite (proj2 (Z.ltb_ge _ _)) by lia.
  eexists. split; [|done]. by split.
Qed.

Lemma deserialize_message malloc i buffer len target :
  info_ok i → receiver_ok (distributedSnapshot target) → holds buffer 0 (message i) → 0 < len →
  (haveDistributedSnapshot i = true → ∃ a, malloc (count (distributedSnapshot i) + 10) = Some a ∧
     Z.of_nat (length a) = count (distributedSnapshot i) + 10) →
  ∃ j, DtxContextInfo_Deserialize malloc buffer len target = Ok j ∧ same_info i j ∧
    info_ok j ∧ receiver_ok (distributedSnapshot j).
Proof.
  intros Hok Hrec Hh Hlen Hmal. destruct (reset_spec target Hrec) as (ds & Hds & Hreset).
  unfold DtxContextInfo_Deserialize. rewrite Hreset, (proj2 (Z.ltb_lt 0 len)) by done. cbn [mbind result_bind].
  pose proof (io_words _ Hok) as Hw. rewrite !Forall_cons in Hw. destruct Hw as (Hw1 & Hw2 & Hw3 & Hw4 & Hw5 & _).
  unfold message in Hh. rewrite !holds_app, !length_le_bytes in Hh. cbn [length] in Hh.
  destruct Hh as (H1 & H2 & H3 & H4 & H5 & H6 & H7 & H8).
  rewrite (read_u32_holds _ _ _ H1) by done. cbn [mbind result_bind].
  change (Z.of_nat 4) with 4 in *. change (Z.of_nat 1) with 1 in *. set (p2 := 0 + 4 + zlen (id_part i)) in *.
  match goal with |- ∃ j, mbind _ ?m = _ ∧ _ => assert (E1 : ∃ ts id cid, m = Ok (ts, id, cid, p2) ∧
    (distributedXid i ≠ InvalidDistributedTransactionId →
     ts = distributedTimeStamp i ∧ id = distributedId i ∧ cid = curcid i) ∧
    is_u32 ts ∧ is_u32 cid ∧ zlen id = TMGIDSIZE ∧ is_Some (strlen id)) end.
  { pose proof (length_id_part i Hok) as Hli. unfold id_part in H2. destruct (Z.eqb_spec (distributedXid i)
      InvalidDistributedTransactionId) as [E|E]; cbn [negb] in *.
    - eexists _, _, _. split; [do 2 f_equal; subst p2; rewrite Hli; lia|]. split; [done|].
      by split_and!.
    - rewrite !holds_app, !length_le_bytes in H2. destruct H2 as (H21 & H22 & H23).
      pose proof (io_id _ Hok) as Hid. rewrite Hid in H23. change (Z.of_nat 4) with 4 in *.
      rewrite (read_u32_holds _ _ _ H21) by done. cbn [mbind result_bind].
      apply peek_held in H22; [|intros E'; by rewrite E' in Hid]. rewrite Hid in H22.
      rewrite H22. cbn [mbind result_bind].
      destruct (io_text _ Hok) as [n Hn]. rewrite Hn, (read_u32_holds _ _ _ H23) by done. cbn [mbind result_bind].
      eexists _, _, _. split; [do 2 f_equal; subst p2; rewrite Hli; unfold TMGIDSIZE; lia|]. split; [done|].
      by split_and!. }
  destruct E1 as (ts & id & cid & -> & Hids & Hts & Hcid & Hidl & Htext). cbn [mbind result_bind].
  rewrite (read_u32_holds _ _ _ H3) by done. cbn [mbind result_bind].
  rewrite (read_u32_holds _ _ _ H4) by done. cbn [mbind result_bind].
  rewrite (read_bool_holds _ _ _ H5). cbn [mbind result_bind].
  rewrite (read_bool_holds _ _ _ H6). cbn [mbind result_bind distributedSnapshot].
  set (p3 := p2 + 4 + 4 + 1 + 1) in *.
  match goal with |- ∃ j, mbind _ ?m = _ ∧ _ => assert (E2 : ∃ ds', m = Ok (ds', p3 + zlen (snapshot_part i)) ∧
    (haveDistributedSnapshot i = true → same_snapshot (distributedSnapshot i) ds' ∧ snapshot_ok ds') ∧
    receiver_ok ds') end.
  { unfold snapshot_part in *. pose proof (io_snapshot _ Hok) as Hs. destruct (haveDistributedSnapshot i).
    - specialize (Hs eq_refl). specialize (Hmal eq_refl). apply holds_drop in H7 as [post ->].
      unfold snapshot_bytes at 1. rewrite <- app_assoc.
      destruct (deserialize_spec malloc _ ds Hs Hds Hmal post) as (d' & -> & Hsame & Hsok & Hr).
      rewrite length_snapshot_bytes by done. by exists d'.
    - exists ds. split; [|done]. do 2 f_equal. simpl. lia. }
  destruct E2 as (ds' & -> & Hsnap & Hrds). cbn [mbind result_bind].
  pose proof (io_options _ Hok) as Hopt. unfold read_u32.
  assert (Hp : le_bytes 4 (distributedTxnOptions i) ≠ []) by discriminate.
  apply (peek_held _ _ _ H8) in Hp. rewrite length_le_bytes in Hp. change (Z.of_nat 4) with 4 in Hp.
  rewrite Hp. cbn [mbind result_bind]. rewrite le_value_bytes. change (256 ^ Z.of_nat 4) with (2 ^ 32).
  eexists. split; [done|]. unfold s32. rewrite Z.mod_mod by lia. fold (s32 (distributedTxnOptions i)).
  rewrite s32_small by done. split; [|split; [|exact Hrds]].
  - split_and!; try done. intros Hx. by apply Hsnap.
  - split; [by rewrite !Forall_cons|done..|]. intros Hx. by apply Hsnap.
Qed.

(** ** The dispatch of a transaction's context *)

Section Master.
Context (malloc : Z → option (list Z)).

(** The process and its snapshot, with values of their widths. *)
Record master_ok (m : master) : Prop := {
  mo_words : Forall is_u32 [m_gxid m; m_distribTimeStamp m; m_DtxStartTime m; m_nestLevel m; m_syncCount m];
  mo_count : m_syncCount m < 2 ^ 32 - 2;
}.
Definition snapshot_arg_ok (s : option (Z * option DistributedSnapshot)) : Prop :=
  match s with
  | Some (cid, d) => is_u32 cid ∧ match d with Some d => snapshot_ok d | None => True end
  | None => True
  end.
Definition has_snapshot (s : option (Z * option DistributedSnapshot)) : bool :=
  match s with Some (_, Some _) => true | _ => false end.

(** [malloc] does not run out of memory. *)
Definition malloc_ok : Prop := ∀ n, 0 < n → ∃ a, malloc n = Some a ∧ Z.of_nat (length a) = n.

Lemma malloc_ok_count d : malloc_ok → snapshot_ok d →
  ∃ a, malloc (count d + 10) = Some a ∧ Z.of_nat (length a) = count d + 10.
Proof. intros Hm Hd. apply Hm. pose proof (so_count _ Hd). lia. Qed.

Lemma create_spec m i inCursor options snapshot :
  malloc_ok → master_ok m → snapshot_arg_ok snapshot → receiver_ok (distributedSnapshot i) →
  - 2 ^ 31 ≤ options < 2 ^ 31 →
  ∃ j, DtxContextInfo_CreateOnMaster malloc m i inCursor options snapshot =
      Ok (j, if inCursor then m_syncCount m else m_syncCount m + 1) ∧ info_ok j ∧
    distributedXid j = m_gxid m ∧ nestingLevel j = m_nestLevel m ∧ cursorContext j = inCursor ∧
    segmateSync j = (if inCursor then m_syncCount m else m_syncCount m + 1) ∧ distributedTxnOptions j = options ∧
    (m_gxid m ≠ InvalidDistributedTransactionId →
       distributedTimeStamp j = m_DtxStartTime m ∧
       dtxCrackOpenGid (distributedId j) = Ok (m_distribTimeStamp m, m_gxid m) ∧
       curcid j = match snapshot with Some (cid, _) => cid | None => 0 end) ∧
    haveDistributedSnapshot j = has_snapshot snapshot ∧
    match snapshot with Some (_, Some d) => same_snapshot d (distributedSnapshot j) | _ => True end.
Proof.
  intros Hm [Hw Hc] Hs Hr Ho. rewrite !Forall_cons in Hw. destruct Hw as (W1 & W2 & W3 & W4 & W5 & _).
  destruct (reset_spec i Hr) as (ds & Hds & E). unfold DtxContextInfo_CreateOnMaster. rewrite E.
  cbn [mbind result_bind distributedId distributedTimeStamp curcid distributedSnapshot]. clear E.
  set (cid := match snapshot with Some (cid, _) => cid | None => 0 end).
  assert (Hcid : is_u32 cid) by (destruct snapshot as [[? ?]|]; [apply Hs|done]).
  match goal with |- ∃ j, mbind _ ?m' = _ ∧ _ => assert (E1 : ∃ ts id c, m' = Ok (ts, id, c) ∧
    is_u32 ts ∧ is_u32 c ∧ zlen id = TMGIDSIZE ∧ is_Some (strlen id) ∧
    (m_gxid m ≠ InvalidDistributedTransactionId → ts = m_DtxStartTime m ∧
      dtxCrackOpenGid id = Ok (m_distribTimeStamp m, m_gxid m) ∧ c = cid)) end.
  { destruct (Z.eqb_spec (m_gxid m) InvalidDistributedTransactionId); cbn [negb].
    - eexists _, _, _. split; [done|]. by split_and!.
    - destruct (dtxFormGID_spec TmGid_Init (m_distribTimeStamp m) (m_gxid m)) as (id & -> & L & _ & [k K] & C); try done.
      { by apply (bool_decide_unpack _); vm_compute. }
      eexists _, _, _. split; [done|]. by split_and!. }
  destruct E1 as (ts & id & c & -> & Hts & Hcc & Hid & Htext & Hx). cbn [mbind result_bind].
  assert (Esync : (if inCursor then m_syncCount m else u32 (m_syncCount m + 1)) =
    if inCursor then m_syncCount m else m_syncCount m + 1).
  { destruct inCursor; [done|]. apply u32_small. unfold is_u32 in *. lia. }
  rewrite Esync. clear Esync. set (sync := if inCursor then _ else _).
  assert (Hsync : is_u32 sync ∧ sync ≠ 2 ^ 32 - 1) by (unfold sync, is_u32 in *; destruct inCursor; lia).
  rewrite (proj2 (Z.eqb_neq _ _)) by apply Hsync.
  match goal with |- ∃ j, mbind _ ?m' = _ ∧ _ => assert (E2 : ∃ d', m' = Ok (has_snapshot snapshot, d') ∧
    (has_snapshot snapshot = true → snapshot_ok d') ∧
    match snapshot with Some (_, Some d) => same_snapshot d d' | _ => True end) end.
  { destruct snapshot as [[c' [d|]]|]; [|by eexists..]. destruct Hs as [_ Hd].
    destruct (copy_spec malloc d ds Hd Hds (malloc_ok_count d Hm Hd)) as (d' & -> & Hsame & Hok & _). by exists d'. }
  destruct E2 as (d' & -> & Hd' & Hsame). cbn [mbind result_bind]. eexists. split; [done|].
  split; [|by split_and!]. split; try done. rewrite !Forall_cons. by destruct Hsync.
Qed.
End Master.

Lemma copy_info_spec malloc target i :
  malloc_ok malloc → info_ok i → receiver_ok (distributedSnapshot target) →
  ∃ j, DtxContextInfo_Copy malloc target i = Ok j ∧ same_info i j.
Proof.
  intros Hm Hi Hr. destruct (reset_spec target Hr) as (ds & Hds & E). unfold DtxContextInfo_Copy. rewrite E.
  cbn [mbind result_bind distributedSnapshot]. pose proof (io_snapshot _ Hi) as Hs.
  destruct (haveDistributedSnapshot i) eqn:Hh.
  - specialize (Hs eq_refl). destruct (copy_spec malloc _ ds Hs Hds (malloc_ok_count _ _ Hm Hs)) as (d' & -> & Hsame & _).
    cbn [mbind result_bind]. eexists. split; [done|]. by split_and!.
  - cbn [mbind result_bind]. eexists. split; [done|]. split_and!; try done. congruence.
Qed.

(** C31: What the dispatcher knows of its transaction arrives at a segment: the context it creates
    with the encoded options is serialized into exactly the announced number of bytes, and the
    segment that reads and copies it has the number of the transaction, its time stamp, an
    identifier that is parsed to the two numbers, the command id, nesting level, dispatch number and
    cursor flag, an equal snapshot, and decodes the options to the isolation level and the flags
    that were encoded.  Resetting a context leaves its cursor flag as it is. *)
Theorem dtx_context_dispatch malloc m info received target inCursor level readOnly activated explicitBegin needDtx
    snapshot buffer :
  malloc_ok malloc → master_ok m → snapshot_arg_ok snapshot → 0 ≤ level ≤ 3 →
  receiver_ok (distributedSnapshot info) → receiver_ok (distributedSnapshot received) →
  receiver_ok (distributedSnapshot target) →
  let options := mppTxnOptions level readOnly activated explicitBegin needDtx in
  ∃ i sync, DtxContextInfo_CreateOnMaster malloc m info inCursor options snapshot = Ok (i, sync) ∧
    (zlen buffer = DtxContextInfo_SerializeSize i →
     ∃ bytes j k, DtxContextInfo_Serialize buffer i = Ok (bytes, DtxContextInfo_SerializeSize i) ∧
       length bytes = length buffer ∧
       DtxContextInfo_Deserialize malloc bytes (DtxContextInfo_SerializeSize i) received = Ok j ∧
       DtxContextInfo_Copy malloc target j = Ok k ∧
       distributedXid k = m_gxid m ∧ nestingLevel k = m_nestLevel m ∧ segmateSync k = sync ∧
       cursorContext k = inCursor ∧
       (m_gxid m ≠ InvalidDistributedTransactionId →
          distributedTimeStamp k = m_DtxStartTime m ∧
          dtxCrackOpenGid (distributedId k) = Ok (m_distribTimeStamp m, m_gxid m) ∧
          curcid k = match snapshot with Some (cid, _) => cid | None => 0 end) ∧
       mppTxOptions_IsoLevel (distributedTxnOptions k) = Ok level ∧
       isMppTxOptions_ReadOnly (distributedTxnOptions k) = readOnly ∧
       isMppTxOptions_NeedDtx (distributedTxnOptions k) = needDtx ∧
       isMppTxOptions_ExplicitBegin (distributedTxnOptions k) = activated && explicitBegin ∧
       haveDistributedSnapshot k = has_snapshot snapshot ∧
       match snapshot with Some (_, Some d) => same_snapshot d (distributedSnapshot k) | _ => True end) ∧
    (∀ r, DtxContextInfo_Reset target = Ok r → cursorContext r = cursorContext target).
Proof.
  intros Hm Hmaster Hs Hl Hr1 Hr2 Hr3 options.
  destruct (mppTxnOptions_spec level readOnly activated explicitBegin needDtx Hl) as (O1 & O2 & O3 & O4 & O5).
  fold options in O1, O2, O3, O4, O5.
  destruct (create_spec malloc m info inCursor options snapshot) as
    (i & Hc & Hi & X1 & X2 & X3 & X4 & X5 & X6 & X7 & X8); try done; [lia|].
  eexists i, _. split; [exact Hc|]. split.
  2:{ intros r Hr. destruct (reset_spec target Hr3) as (ds & _ & E). rewrite E in Hr. by simplify_eq. }
  intros Hlen. pose proof (length_message i Hi) as Hlm. rewrite (serialize_message i buffer Hi) by lia.
  rewrite drop_ge, app_nil_r by lia.
  destruct (deserialize_message malloc i (message i) (DtxContextInfo_SerializeSize i) received) as (j & Hj & Sj & Ij & Rj);
    try done.
  { rewrite <- Hlm. unfold message. rewrite length_app, length_le_bytes. lia. }
  { intros Hh. apply (malloc_ok_count malloc); [done|]. by apply Hi. }
  destruct (copy_info_spec malloc target j Hm Ij Hr3) as (k & Hk & Sk).
  exists (message i), j, k. split; [done|]. split; [lia|]. split; [done|]. split; [done|].
  destruct Sj as (J1 & J2 & J3 & J4 & J5 & J6 & J7 & J8). destruct Sk as (K1 & K2 & K3 & K4 & K5 & K6 & K7 & K8).
  rewrite K1, K2, K3, K4, K5, K6, J1, J2, J3, J4, J5, J6, X1, X2, X3, X4, X5, X7. split_and!; try done.
  - rewrite <- X1 at 1. intros Hx. destruct (J7 Hx) as (J71 & J72 & J73).
    destruct (K7 ltac:(by rewrite J1)) as (-> & -> & ->). rewrite J71, J72, J73. apply X6. by rewrite <- X1.
  - destruct snapshot as [[cid [d|]]|]; [|done..]. eapply same_snapshot_trans; [exact X8|].
    eapply same_snapshot_trans; [apply J8|apply K8; rewrite J4]; exact X7.
Qed.

(** ** Witness *)

Module ContextExample.
Definition blank : DtxContextInfo := mkInfo 0 0 TmGid_Init false true (mkDS 0 0 0 0 0 0 0 None) 0 0 0 0.
(** Transaction 9 of the start 1600000077, with a snapshot in which 100 and 103 are in progress. *)
Definition process : master := mkMaster 9 1600000077 1600000077 2 41.
Definition snapshot : DistributedSnapshot := mkDS 7 90 1 100 110 2 4 (Some [100; 103; 0; 0]).
Definition malloc (n : Z) : option (list Z) := Some (replicate (Z.to_nat n) 0).
End ContextExample.

Lemma dtx_context_dispatch_witness :
  ∃ bytes j k, length bytes = 80%nat ∧
    DtxContextInfo_Deserialize ContextExample.malloc bytes 80 ContextExample.blank = Ok j ∧
    DtxContextInfo_Copy ContextExample.malloc ContextExample.blank j = Ok k ∧
    dtxCrackOpenGid (distributedId k) = Ok (1600000077, 9) ∧
    mppTxOptions_IsoLevel (distributedTxnOptions k) = Ok XACT_SERIALIZABLE ∧
    same_snapshot ContextExample.snapshot (distributedSnapshot k).
Proof.
  destruct (dtx_context_dispatch ContextExample.malloc ContextExample.process ContextExample.blank
    ContextExample.blank ContextExample.blank false 3 false true true true
    (Some (5, Some ContextExample.snapshot)) (replicate 80 0)) as (i & sync & Hc & Hrt & _).
  - intros n Hn. eexists. split; [reflexivity|]. rewrite length_replicate. lia.
  - split; [by apply (bool_decide_unpack _); vm_compute|reflexivity].
  - split; [by split|]. apply SnapshotExample.snapshot_is_ok.
  - lia.
  - split; simpl; [lia|exact I].
  - split; simpl; [lia|exact I].
  - split; simpl; [lia|exact I].
  - assert (Hi : DtxContextInfo_SerializeSize i = 80).
    { vm_compute in Hc. injection Hc as <- _. reflexivity. }
    rewrite Hi in Hrt. destruct (Hrt ltac:(reflexivity)) as (bytes & j & k & _ & Hl & Hj & Hk & _ & _ & _ & _ & Hx & Ho & _ & _ & _ & _ & Hs).
    exists bytes, j, k. split_and!; [exact Hl|exact Hj|exact Hk| |exact Ho|exact Hs].
    apply Hx. discriminate.
Defined.
