(* ===== verification/Dtm.v ===== *)
(** * Distributed transactions: the two-phase commit
    ([cdb/cdbtm.c], [cdb/cdbtm.h], [cdb/cdbtmutils.c], [cdb/dispatcher/cdbdisp_dtx.c], the steps of
    [access/transam/xact.c] that involve it)

    The dispatcher process keeps the state of the transaction it coordinates and broadcasts
    protocol commands to the segments; a segment performs a command in the session of its writer
    process.  A routine is a function on the state that returns, or ends by an error of one of
    three levels: ERROR unwinds to the nearest handler, FATAL ends the process, PANIC restarts the
    server; the state is the one at that point.

    The local transaction manager of a segment ([xact.c], [twophase.c]) is an interface with laws;
    the fate of each message and of each log record is a parameter, so that what is proved holds
    whatever the network, the segments and the disk do.  A message is performed while the broadcast
    waits for it or not at all.  Debug logging, fault injection points, interrupt counters and
    sleeps are left out. *)
From stdpp Require Import functions.
From S2P Require Import Prelude Proc Bitmapset DistributedSnapshot DtxContextInfo.

(** ** Data *)

Inductive DtxState :=
  | DTX_STATE_NONE | DTX_STATE_ACTIVE_DISTRIBUTED | DTX_STATE_ONE_PHASE_COMMIT
  | DTX_STATE_NOTIFYING_ONE_PHASE_COMMIT | DTX_STATE_PREPARING | DTX_STATE_PREPARED
  | DTX_STATE_INSERTING_COMMITTED | DTX_STATE_INSERTED_COMMITTED
  | DTX_STATE_NOTIFYING_COMMIT_PREPARED | DTX_STATE_INSERTING_FORGET_COMMITTED
  | DTX_STATE_INSERTED_FORGET_COMMITTED | DTX_STATE_NOTIFYING_ABORT_NO_PREPARED
  | DTX_STATE_NOTIFYING_ABORT_SOME_PREPARED | DTX_STATE_NOTIFYING_ABORT_PREPARED
  | DTX_STATE_RETRY_COMMIT_PREPARED | DTX_STATE_RETRY_ABORT_PREPARED.

#[global] Instance DtxState_eq_dec : EqDecision DtxState.
Proof. solve_decision. Defined.

Inductive DtxProtocolCommand :=
  | DTX_PROTOCOL_COMMAND_NONE | DTX_PROTOCOL_COMMAND_ABORT_NO_PREPARED
  | DTX_PROTOCOL_COMMAND_PREPARE | DTX_PROTOCOL_COMMAND_ABORT_SOME_PREPARED
  | DTX_PROTOCOL_COMMAND_COMMIT_ONEPHASE | DTX_PROTOCOL_COMMAND_COMMIT_PREPARED
  | DTX_PROTOCOL_COMMAND_ABORT_PREPARED | DTX_PROTOCOL_COMMAND_RETRY_COMMIT_PREPARED
  | DTX_PROTOCOL_COMMAND_RETRY_ABORT_PREPARED | DTX_PROTOCOL_COMMAND_RECOVERY_COMMIT_PREPARED
  | DTX_PROTOCOL_COMMAND_RECOVERY_ABORT_PREPARED
  | DTX_PROTOCOL_COMMAND_SUBTRANSACTION_BEGIN_INTERNAL
  | DTX_PROTOCOL_COMMAND_SUBTRANSACTION_ROLLBACK_INTERNAL
  | DTX_PROTOCOL_COMMAND_SUBTRANSACTION_RELEASE_INTERNAL.

#[global] Instance DtxProtocolCommand_eq_dec : EqDecision DtxProtocolCommand.
Proof. solve_decision. Defined.

Inductive DtxContext :=
  | DTX_CONTEXT_LOCAL_ONLY | DTX_CONTEXT_QD_DISTRIBUTED_CAPABLE | DTX_CONTEXT_QD_RETRY_PHASE_2
  | DTX_CONTEXT_QE_ENTRY_DB_SINGLETON | DTX_CONTEXT_QE_AUTO_COMMIT_IMPLICIT
  | DTX_CONTEXT_QE_TWO_PHASE_EXPLICIT_WRITER | DTX_CONTEXT_QE_TWO_PHASE_IMPLICIT_WRITER
  | DTX_CONTEXT_QE_READER | DTX_CONTEXT_QE_PREPARED | DTX_CONTEXT_QE_FINISH_PREPARED.

#[global] Instance DtxContext_eq_dec : EqDecision DtxContext.
Proof. solve_decision. Defined.

Definition DtxProtocolCommandToString (command : DtxProtocolCommand) : string :=
  match command with
  | DTX_PROTOCOL_COMMAND_NONE => "None"
  | DTX_PROTOCOL_COMMAND_ABORT_NO_PREPARED => "Distributed Abort (No Prepared)"
  | DTX_PROTOCOL_COMMAND_PREPARE => "Distributed Prepare"
  | DTX_PROTOCOL_COMMAND_ABORT_SOME_PREPARED => "Distributed Abort (Some Prepared)"
  | DTX_PROTOCOL_COMMAND_COMMIT_ONEPHASE => "Distributed Commit (one-phase)"
  | DTX_PROTOCOL_COMMAND_COMMIT_PREPARED => "Distributed Commit Prepared"
  | DTX_PROTOCOL_COMMAND_ABORT_PREPARED => "Distributed Abort Prepared"
  | DTX_PROTOCOL_COMMAND_RETRY_COMMIT_PREPARED => "Retry Distributed Commit Prepared"
  | DTX_PROTOCOL_COMMAND_RETRY_ABORT_PREPARED => "Retry Distributed Abort Prepared"
  | DTX_PROTOCOL_COMMAND_RECOVERY_COMMIT_PREPARED => "Recovery Commit Prepared"
  | DTX_PROTOCOL_COMMAND_RECOVERY_ABORT_PREPARED => "Recovery Abort Prepared"
  | DTX_PROTOCOL_COMMAND_SUBTRANSACTION_BEGIN_INTERNAL => " Begin Internal Subtransaction"
  | DTX_PROTOCOL_COMMAND_SUBTRANSACTION_RELEASE_INTERNAL => "Release Current Subtransaction"
  | DTX_PROTOCOL_COMMAND_SUBTRANSACTION_ROLLBACK_INTERNAL => "Rollback Current Subtransaction"
  end.

(** The identifier of a distributed transaction: the time stamp and the number its text is formed
    from. *)
Abbreviation gid := (Z * Z)%type.

(** ** The local transaction manager of a segment

    An operation returns false where the C routine raises an error.  [PrepareTransactionBlock] and
    [EndTransactionBlock] may also return false, which is [Some false] here; otherwise they mark
    the block for [CommitTransactionCommand], which does the work. *)
Inductive block_mark := BlockNone | BlockPrepare (g : gid) | BlockEnd.

Inductive GpRoleValue := GP_ROLE_UTILITY | GP_ROLE_DISPATCH | GP_ROLE_EXECUTE | GP_ROLE_UNDEFINED.

#[global] Instance GpRoleValue_eq_dec : EqDecision GpRoleValue.
Proof. solve_decision. Defined.

(** Role, whether it runs on the dispatcher's host as one of its processes, whether it is the
    writer, and whether it has a slot for the shared snapshot. *)
Record qe_process := mkProcess {
  Gp_role : GpRoleValue;
  IS_QUERY_DISPATCHER : bool;
  Gp_is_writer : bool;
  SharedLocalSnapshotSlot : bool;
}.

Class LocalTM (T : Type) := {
  StartTransactionCommand : T → bool * T;
  PrepareTransactionBlock : gid → T → option bool * T;
  EndTransactionBlock : T → option bool * T;
  CommitTransactionCommand : T → bool * T;
  FinishPreparedTransaction : gid → bool → bool → T → bool * T;
  AbortOutOfAnyTransaction : T → T;
  BeginInternalSubTransaction : T → bool * T;
  ReleaseCurrentSubTransaction : T → bool * T;
  RollbackAndReleaseCurrentSubTransaction : T → bool * T;
  GetCurrentTransactionNestLevel : T → Z;
  BeginTransactionBlock : T → bool * T;
  IsTransactionOrTransactionBlock : T → bool;
  (** the process that serves the session *)
  process : T → qe_process;
  (** [pg_prepared_xacts], and the distributed transactions that are committed *)
  prepared : T → list gid;
  committed : T → gid → bool;
  mark : T → block_mark;
}.

(** Nothing is prepared, finished or committed on the way from [t] to [t']. *)
Definition same_xacts `{LocalTM T} (t t' : T) : Prop :=
  (∀ g, g ∈ prepared t' ↔ g ∈ prepared t) ∧ ∀ g, committed t' g = committed t g.

Class LocalTMLaws (T : Type) `{LocalTM T} := {
  start_law t b t' : StartTransactionCommand t = (b, t') →
    same_xacts t t' ∧ (b = true → mark t' = BlockNone);
  prepare_block_law g t r t' : PrepareTransactionBlock g t = (r, t') →
    same_xacts t t' ∧ (r = Some true → mark t' = BlockPrepare g);
  end_block_law t r t' : EndTransactionBlock t = (r, t') → same_xacts t t';
  (** a prepare is done, or it failed and the transaction is aborted *)
  commit_prepare_law g t b t' : mark t = BlockPrepare g → CommitTransactionCommand t = (b, t') →
    if b then (∀ h, h ∈ prepared t' ↔ h = g ∨ h ∈ prepared t) ∧ (∀ h, committed t' h = committed t h)
    else same_xacts t t';
  commit_none_law t b t' : mark t = BlockNone → CommitTransactionCommand t = (b, t') → same_xacts t t';
  (** a prepared transaction is finished, or not for an error; one that is not there is an error
      when that is asked for *)
  finish_law g c r t b t' : FinishPreparedTransaction g c r t = (b, t') → mark t' = mark t ∧
    if bool_decide (g ∈ prepared t) && b
    then (∀ h, h ∈ prepared t' ↔ h ≠ g ∧ h ∈ prepared t) ∧
         (∀ h, committed t' h = (c && bool_decide (h = g)) || committed t h)
    else same_xacts t t';
  finish_not_found_law g c t b t' : FinishPreparedTransaction g c true t = (b, t') →
    g ∉ prepared t → b = false;
  abort_law t : same_xacts t (AbortOutOfAnyTransaction t);
  subxact_begin_law t b t' : BeginInternalSubTransaction t = (b, t') → same_xacts t t';
  subxact_release_law t b t' : ReleaseCurrentSubTransaction t = (b, t') → same_xacts t t';
  subxact_rollback_law t b t' : RollbackAndReleaseCurrentSubTransaction t = (b, t') → same_xacts t t';
  begin_block_law t b t' : BeginTransactionBlock t = (b, t') → same_xacts t t';
}.

(** ** A segment *)

Section Segment.
Context {T : Type} `{LocalTM T}.

Record segment := mkSegment { seg_context : DtxContext; seg_local : T }.

Definition seg_set_context (c : DtxContext) : proc segment unit :=
  modify (λ s, mkSegment c (seg_local s)).

(** An operation of the local transaction manager. *)
Definition local (op : T → bool * T) : proc segment unit := λ s,
  let '(b, t) := op (seg_local s) in (if b then Ret tt else ERROR, mkSegment (seg_context s) t).
Definition local_block (op : T → option bool * T) : proc segment bool := λ s,
  let '(r, t) := op (seg_local s) in
  (match r with Some b => Ret b | None => ERROR end, mkSegment (seg_context s) t).
Definition local_total (op : T → T) : proc segment unit :=
  modify (λ s, mkSegment (seg_context s) (op (seg_local s))).

Definition requireDistributedTransactionContext (required : DtxContext) : proc segment unit :=
  s <- get;;
  if bool_decide (seg_context s ≠ required) then raise FATAL else ret tt.

(** On a segment no distributed transaction is coordinated. *)
Definition seg_finishDistributedTransactionContext : proc segment unit :=
  seg_set_context DTX_CONTEXT_LOCAL_ONLY.

Definition performDtxProtocolPrepare (g : gid) : proc segment unit :=
  local StartTransactionCommand;;
  ok <- local_block (PrepareTransactionBlock g);;
  if negb ok then raise ERROR
  else
    local CommitTransactionCommand;;
    seg_set_context DTX_CONTEXT_QE_PREPARED.

(** The flag for the commit record and the identifier are the local transaction manager's. *)
Definition performDtxProtocolCommitOnePhase : proc segment unit :=
  local StartTransactionCommand;;
  ok <- local_block EndTransactionBlock;;
  if negb ok then raise ERROR
  else
    local CommitTransactionCommand;;
    seg_finishDistributedTransactionContext.

(** The two routines that finish a prepared transaction differ in [isCommit]. *)
Definition finish_prepared (g : gid) (isCommit raiseErrorIfNotFound : bool) : proc segment unit :=
  local StartTransactionCommand;;
  pg_try_rethrow (local (FinishPreparedTransaction g isCommit raiseErrorIfNotFound))
    seg_finishDistributedTransactionContext;;
  local CommitTransactionCommand;;
  seg_finishDistributedTransactionContext.

Definition performDtxProtocolCommitPrepared (g : gid) (raiseErrorIfNotFound : bool) : proc segment unit :=
  finish_prepared g true raiseErrorIfNotFound.
Definition performDtxProtocolAbortPrepared (g : gid) (raiseErrorIfNotFound : bool) : proc segment unit :=
  finish_prepared g false raiseErrorIfNotFound.

Fixpoint rollback_subxacts (i : nat) : proc segment unit :=
  match i with
  | O => ret tt
  | S i => local RollbackAndReleaseCurrentSubTransaction;; rollback_subxacts i
  end.

Definition doQEDistributedExplicitBegin : proc segment unit :=
  local StartTransactionCommand;;
  local BeginTransactionBlock;;
  local CommitTransactionCommand.

(** The context by the kind of the process and the info; [QEDtxContextInfo], which only snapshots
    read later, is left out. *)
Definition setup_context (isEntryDbSingleton isWriterQE isReaderQE needDtx explicitBegin have : bool) :
    proc segment unit :=
  s <- get;;
  let in_transaction := IsTransactionOrTransactionBlock (seg_local s) in
  match seg_context s with
  | DTX_CONTEXT_LOCAL_ONLY =>
      if isEntryDbSingleton && have then seg_set_context DTX_CONTEXT_QE_ENTRY_DB_SINGLETON
      else if isReaderQE && have then seg_set_context DTX_CONTEXT_QE_READER
      else if isWriterQE && (explicitBegin || needDtx) then
        if in_transaction then raise ERROR
        else if explicitBegin then
          seg_set_context DTX_CONTEXT_QE_TWO_PHASE_EXPLICIT_WRITER;; doQEDistributedExplicitBegin
        else seg_set_context DTX_CONTEXT_QE_TWO_PHASE_IMPLICIT_WRITER
      else if have then
        if in_transaction then raise ERROR else seg_set_context DTX_CONTEXT_QE_AUTO_COMMIT_IMPLICIT
      else ret tt
  | DTX_CONTEXT_QE_TWO_PHASE_IMPLICIT_WRITER => if explicitBegin then raise ERROR else ret tt
  | DTX_CONTEXT_QE_AUTO_COMMIT_IMPLICIT => raise ERROR
  | DTX_CONTEXT_QE_TWO_PHASE_EXPLICIT_WRITER => ret tt
  | DTX_CONTEXT_QE_ENTRY_DB_SINGLETON | DTX_CONTEXT_QE_READER => ret tt
  | DTX_CONTEXT_QE_PREPARED | DTX_CONTEXT_QE_FINISH_PREPARED => raise ERROR
  | DTX_CONTEXT_QD_DISTRIBUTED_CAPABLE | DTX_CONTEXT_QD_RETRY_PHASE_2 => raise PANIC
  end.

Definition setupQEDtxContext (dtxContextInfo : DtxContextInfo) : proc segment unit :=
  s <- get;;
  let p := process (seg_local s) in
  let needDtx := isMppTxOptions_NeedDtx (distributedTxnOptions dtxContextInfo) in
  let explicitBegin := isMppTxOptions_ExplicitBegin (distributedTxnOptions dtxContextInfo) in
  let have := haveDistributedSnapshot dtxContextInfo in
  match Gp_role p with
  | GP_ROLE_EXECUTE =>
      if IS_QUERY_DISPATCHER p && negb (Gp_is_writer p)
      then setup_context true false false needDtx explicitBegin have
      else if negb (SharedLocalSnapshotSlot p) then
        if explicitBegin || have then raise ERROR
        else setup_context false false false needDtx explicitBegin have
      else setup_context false (Gp_is_writer p) (negb (Gp_is_writer p)) needDtx explicitBegin have
  | _ => ret tt
  end.

(** Before a statement of a client. *)
Definition setupRegularDtxContext (DtmStarted : bool) : proc segment unit :=
  s <- get;;
  match seg_context s with
  | DTX_CONTEXT_QD_DISTRIBUTED_CAPABLE | DTX_CONTEXT_QE_TWO_PHASE_EXPLICIT_WRITER => ret tt
  | DTX_CONTEXT_LOCAL_ONLY =>
      let p := process (seg_local s) in
      if bool_decide (Gp_role p = GP_ROLE_DISPATCH) && DtmStarted && SharedLocalSnapshotSlot p
      then seg_set_context DTX_CONTEXT_QD_DISTRIBUTED_CAPABLE else ret tt
  | _ => raise ERROR
  end.

Definition performDtxProtocolCommand (dtxProtocolCommand : DtxProtocolCommand) (g : gid)
    (contextInfo : DtxContextInfo) : proc segment unit :=
  s <- get;;
  match dtxProtocolCommand with
  | DTX_PROTOCOL_COMMAND_ABORT_NO_PREPARED => local_total AbortOutOfAnyTransaction
  | DTX_PROTOCOL_COMMAND_PREPARE | DTX_PROTOCOL_COMMAND_COMMIT_ONEPHASE =>
      match seg_context s with
      | DTX_CONTEXT_LOCAL_ONLY => raise ERROR
      | DTX_CONTEXT_QE_TWO_PHASE_EXPLICIT_WRITER | DTX_CONTEXT_QE_TWO_PHASE_IMPLICIT_WRITER =>
          if bool_decide (dtxProtocolCommand = DTX_PROTOCOL_COMMAND_COMMIT_ONEPHASE)
          then performDtxProtocolCommitOnePhase
          else performDtxProtocolPrepare g
      | DTX_CONTEXT_QD_DISTRIBUTED_CAPABLE | DTX_CONTEXT_QD_RETRY_PHASE_2 | DTX_CONTEXT_QE_PREPARED
      | DTX_CONTEXT_QE_FINISH_PREPARED | DTX_CONTEXT_QE_ENTRY_DB_SINGLETON | DTX_CONTEXT_QE_READER =>
          raise FATAL
      | DTX_CONTEXT_QE_AUTO_COMMIT_IMPLICIT => raise PANIC
      end
  | DTX_PROTOCOL_COMMAND_ABORT_SOME_PREPARED =>
      match seg_context s with
      | DTX_CONTEXT_LOCAL_ONLY => local_total AbortOutOfAnyTransaction
      | DTX_CONTEXT_QE_TWO_PHASE_EXPLICIT_WRITER | DTX_CONTEXT_QE_TWO_PHASE_IMPLICIT_WRITER =>
          local_total AbortOutOfAnyTransaction
      | DTX_CONTEXT_QE_PREPARED =>
          seg_set_context DTX_CONTEXT_QE_FINISH_PREPARED;; performDtxProtocolAbortPrepared g true
      | _ => raise PANIC
      end
  | DTX_PROTOCOL_COMMAND_COMMIT_PREPARED =>
      requireDistributedTransactionContext DTX_CONTEXT_QE_PREPARED;;
      seg_set_context DTX_CONTEXT_QE_FINISH_PREPARED;;
      performDtxProtocolCommitPrepared g true
  | DTX_PROTOCOL_COMMAND_ABORT_PREPARED =>
      requireDistributedTransactionContext DTX_CONTEXT_QE_PREPARED;;
      seg_set_context DTX_CONTEXT_QE_FINISH_PREPARED;;
      performDtxProtocolAbortPrepared g true
  | DTX_PROTOCOL_COMMAND_RETRY_COMMIT_PREPARED =>
      requireDistributedTransactionContext DTX_CONTEXT_LOCAL_ONLY;;
      performDtxProtocolCommitPrepared g false
  | DTX_PROTOCOL_COMMAND_RETRY_ABORT_PREPARED =>
      requireDistributedTransactionContext DTX_CONTEXT_LOCAL_ONLY;;
      performDtxProtocolAbortPrepared g false
  | DTX_PROTOCOL_COMMAND_RECOVERY_COMMIT_PREPARED =>
      requireDistributedTransactionContext DTX_CONTEXT_LOCAL_ONLY;;
      performDtxProtocolCommitPrepared g false
  | DTX_PROTOCOL_COMMAND_RECOVERY_ABORT_PREPARED =>
      requireDistributedTransactionContext DTX_CONTEXT_LOCAL_ONLY;;
      performDtxProtocolAbortPrepared g false
  | DTX_PROTOCOL_COMMAND_SUBTRANSACTION_BEGIN_INTERNAL =>
      (match seg_context s with
       | DTX_CONTEXT_LOCAL_ONLY =>
           setupQEDtxContext contextInfo;;
           local StartTransactionCommand
       | _ => ret tt
       end);;
      local BeginInternalSubTransaction
  | DTX_PROTOCOL_COMMAND_SUBTRANSACTION_RELEASE_INTERNAL => local ReleaseCurrentSubTransaction
  | DTX_PROTOCOL_COMMAND_SUBTRANSACTION_ROLLBACK_INTERNAL =>
      let level := GetCurrentTransactionNestLevel (seg_local s) in
      if level <? u32 (nestingLevel contextInfo + 1) then raise ERROR
      else rollback_subxacts (Z.to_nat (u32 (level - nestingLevel contextInfo)))
  | DTX_PROTOCOL_COMMAND_NONE => raise ERROR
  end.

(** The session ends: its open transaction is aborted and the next session starts afresh. *)
Definition end_session (s : segment) : segment :=
  mkSegment DTX_CONTEXT_LOCAL_ONLY (AbortOutOfAnyTransaction (seg_local s)).

(** A command in the session: whether it was performed, and the segment behind it.  An error
    aborts the transaction and leaves the distributed context, FATAL and PANIC end the session. *)
Definition exec_mpp_dtx_protocol_command (cmd : DtxProtocolCommand) (g : gid) (contextInfo : DtxContextInfo)
    (s : segment) : bool * segment :=
  match performDtxProtocolCommand cmd g contextInfo s with
  | (Ret _, s) => (true, s)
  | (_, s) => (false, end_session s)
  end.
End Segment.
Arguments segment : clear implicits.

(** ** The dispatcher process *)

Definition FirstDistributedTransactionId : Z := 1.
Definition LastDistributedTransactionId : Z := 0xffffffff.

(** The log records of the distributed transactions. *)
Inductive dtx_record := DistributedCommit (g : gid) | DistributedForget (g : gid).

#[global] Instance dtx_record_eq_dec : EqDecision dtx_record.
Proof. solve_decision. Defined.

Section Dispatcher.
Context {T : Type} `{LocalTM T}.

(** [MyTmGxactLocal], [MyTmGxact], the context, and what is outside the process: the shared
    variables, the log, the number of broadcasts so far and the segments. *)
Record qd := mkQd {
  q_state : DtxState;
  q_explicitBeginRemembered : bool;
  q_isOnePhaseCommit : bool;
  q_badPrepareGangs : bool;
  q_writerGangLost : bool;
  q_dtxSegmentsMap : bms;
  q_dtxSegments : list Z;
  q_distribTimeStamp : Z;
  q_gxid : Z;
  q_xminDistributedSnapshot : Z;
  q_includeInCkpt : bool;
  q_sessionId : Z;
  q_context : DtxContext;
  q_GIDSeq : Z;
  q_latestCompletedDxid : Z;
  q_wal : list dtx_record;
  q_broadcasts : nat;
  q_segs : Z → segment T;
}.

Definition setCurrentDtxState (state : DtxState) : proc qd unit := modify (λ q,
  mkQd state (q_explicitBeginRemembered q) (q_isOnePhaseCommit q) (q_badPrepareGangs q) (q_writerGangLost q)
    (q_dtxSegmentsMap q) (q_dtxSegments q) (q_distribTimeStamp q) (q_gxid q) (q_xminDistributedSnapshot q)
    (q_includeInCkpt q) (q_sessionId q) (q_context q) (q_GIDSeq q) (q_latestCompletedDxid q) (q_wal q)
    (q_broadcasts q) (q_segs q)).

Definition setDistributedTransactionContext (context : DtxContext) : proc qd unit := modify (λ q,
  mkQd (q_state q) (q_explicitBeginRemembered q) (q_isOnePhaseCommit q) (q_badPrepareGangs q) (q_writerGangLost q)
    (q_dtxSegmentsMap q) (q_dtxSegments q) (q_distribTimeStamp q) (q_gxid q) (q_xminDistributedSnapshot q)
    (q_includeInCkpt q) (q_sessionId q) context (q_GIDSeq q) (q_latestCompletedDxid q) (q_wal q)
    (q_broadcasts q) (q_segs q)).

Definition set_badPrepareGangs : proc qd unit := modify (λ q,
  mkQd (q_state q) (q_explicitBeginRemembered q) (q_isOnePhaseCommit q) true (q_writerGangLost q)
    (q_dtxSegmentsMap q) (q_dtxSegments q) (q_distribTimeStamp q) (q_gxid q) (q_xminDistributedSnapshot q)
    (q_includeInCkpt q) (q_sessionId q) (q_context q) (q_GIDSeq q) (q_latestCompletedDxid q) (q_wal q)
    (q_broadcasts q) (q_segs q)).

Definition set_dtxSegments (map : bms) (segs : list Z) : proc qd unit := modify (λ q,
  mkQd (q_state q) (q_explicitBeginRemembered q) (q_isOnePhaseCommit q) (q_badPrepareGangs q) (q_writerGangLost q)
    map segs (q_distribTimeStamp q) (q_gxid q) (q_xminDistributedSnapshot q)
    (q_includeInCkpt q) (q_sessionId q) (q_context q) (q_GIDSeq q) (q_latestCompletedDxid q) (q_wal q)
    (q_broadcasts q) (q_segs q)).

Definition set_includeInCkpt (b : bool) : proc qd unit := modify (λ q,
  mkQd (q_state q) (q_explicitBeginRemembered q) (q_isOnePhaseCommit q) (q_badPrepareGangs q) (q_writerGangLost q)
    (q_dtxSegmentsMap q) (q_dtxSegments q) (q_distribTimeStamp q) (q_gxid q) (q_xminDistributedSnapshot q)
    b (q_sessionId q) (q_context q) (q_GIDSeq q) (q_latestCompletedDxid q) (q_wal q)
    (q_broadcasts q) (q_segs q)).

Definition append_wal (r : dtx_record) : proc qd unit := modify (λ q,
  mkQd (q_state q) (q_explicitBeginRemembered q) (q_isOnePhaseCommit q) (q_badPrepareGangs q) (q_writerGangLost q)
    (q_dtxSegmentsMap q) (q_dtxSegments q) (q_distribTimeStamp q) (q_gxid q) (q_xminDistributedSnapshot q)
    (q_includeInCkpt q) (q_sessionId q) (q_context q) (q_GIDSeq q) (q_latestCompletedDxid q) (q_wal q ++ [r])
    (q_broadcasts q) (q_segs q)).

Definition set_world (broadcasts : nat) (segs : Z → segment T) : proc qd unit := modify (λ q,
  mkQd (q_state q) (q_explicitBeginRemembered q) (q_isOnePhaseCommit q) (q_badPrepareGangs q) (q_writerGangLost q)
    (q_dtxSegmentsMap q) (q_dtxSegments q) (q_distribTimeStamp q) (q_gxid q) (q_xminDistributedSnapshot q)
    (q_includeInCkpt q) (q_sessionId q) (q_context q) (q_GIDSeq q) (q_latestCompletedDxid q) (q_wal q)
    broadcasts segs).

(** The environment: the fate of each broadcast and of its message to each segment, of each log
    record, the segments of the cluster, settings and what else the process finds. *)
Inductive fate := NotDelivered | AnswerLost | Answered.
Inductive log_fate := Logged | PanicBefore | PanicAfter.

Record environment := mkEnv {
  gang_fails : nat → bool;
  fates : nat → Z → fate;
  log_fates : nat → log_fate;
  total_segments : nat;
  dtx_phase2_retry_count : Z;
  ExecutorDidWriteXLog : bool;
  markXidCommitted : bool;
  query_cancelled : bool;
  abort_after_prepared : bool;
  proc_exit_inprogress : bool;
  getDtxStartTime : Z;
  gp_session_id : Z;
}.
Context (env : environment).

Definition cdbcomponent_getCdbComponentsList : list Z := Z.of_nat <$> seq 0 (total_segments env).
Definition getgpsegmentCount : Z := Z.of_nat (total_segments env).

(** *** Broadcasts *)

Definition isDtxContext (q : qd) : bool := bool_decide (q_context q ≠ DTX_CONTEXT_LOCAL_ONLY).
Definition getDistributedTransactionId (q : qd) : Z :=
  if isDtxContext q then q_gxid q else InvalidDistributedTransactionId.
Definition getDistributedTransactionTimestamp (q : qd) : Z :=
  if isDtxContext q then q_distribTimeStamp q else 0.
Definition current_gid (q : qd) : gid := (getDistributedTransactionTimestamp q, getDistributedTransactionId q).

Definition isCurrentDtxActivated (q : qd) : bool := bool_decide (q_state q ≠ DTX_STATE_NONE).

(** The segments of a gang that are not recorded yet; the entry database is skipped. *)
Fixpoint add_gang (gang : list Z) (map : bms) (segs : list Z) : result (bms * list Z) :=
  match gang with
  | [] => Ok (map, segs)
  | segindex :: gang =>
      if segindex =? -1 then add_gang gang map segs
      else
        found ← bms_is_member segindex map;
        if found : bool then add_gang gang map segs
        else map ← bms_add_member map segindex; add_gang gang map (segs ++ [segindex])
  end.

Definition addToGxactDtxSegments (gang : list Z) : proc qd unit :=
  q <- get;;
  if negb (isCurrentDtxActivated q) then ret tt
  else if getgpsegmentCount <=? Z.of_nat (length (q_dtxSegments q)) then ret tt
  else match add_gang gang (q_dtxSegmentsMap q) (q_dtxSegments q) with
       | Ok (map, segs) => set_dtxSegments map segs
       | Err _ => raise ERROR
       end.

(** The commands that end a transaction carry no info. *)
Definition no_info : DtxContextInfo := mkInfo 0 0 TmGid_Init false false (mkDS 0 0 0 0 0 0 0 None) 0 0 0 0.

(** The answers of the segments ([None] where the connection is lost), and the segments. *)
Fixpoint dispatch_to_gang (n : nat) (cmd : DtxProtocolCommand) (g : gid) (gang : list Z)
    (segs : Z → segment T) : list (option bool) * (Z → segment T) :=
  match gang with
  | [] => ([], segs)
  | i :: gang =>
      let '(answer, s) :=
        match fates env n i with
        | NotDelivered => (None, end_session (segs i))
        | AnswerLost => (None, end_session (exec_mpp_dtx_protocol_command cmd g no_info (segs i)).2)
        | Answered => let '(ok, s) := exec_mpp_dtx_protocol_command cmd g no_info (segs i) in (Some ok, s)
        end in
      let '(answers, segs) := dispatch_to_gang n cmd g gang (<[i := s]> segs) in
      (answer :: answers, segs)
  end.

(** The results with their command status, or [None] for an error that a segment or a connection
    reported; a bad gang is recorded where the caller asks for it. *)
Definition CdbDispatchDtxProtocolCommand (cmd : DtxProtocolCommand) (g : gid) (badGangs : bool)
    (dtxSegments : list Z) : proc qd (option (list (bool * string))) :=
  q <- get;;
  let n := q_broadcasts q in
  if gang_fails env n then set_world (S n) (q_segs q);; raise ERROR
  else
    let '(answers, segs) := dispatch_to_gang n cmd g dtxSegments (q_segs q) in
    set_world (S n) segs;;
    addToGxactDtxSegments dtxSegments;;
    if forallb (λ a, bool_decide (a = Some true)) answers
    then ret (Some ((λ _, (true, DtxProtocolCommandToString cmd)) <$> answers))
    else
      (if existsb (λ a, bool_decide (a = None)) answers && badGangs then set_badPrepareGangs else ret tt);;
      ret None.

(** A result fails by its status, or when its command status is no prefix of the command. *)
Definition result_failed (cmdStr : string) (r : bool * string) : bool :=
  let '(status_ok, cmdStatus) := r in negb status_ok || negb (String.prefix cmdStatus cmdStr).

Definition doDispatchDtxProtocolCommand (cmd : DtxProtocolCommand) (g : gid) (badGangs raiseError : bool)
    (dtxSegments : list Z) : proc qd bool :=
  match dtxSegments with
  | [] => ret true
  | _ =>
      results <- CdbDispatchDtxProtocolCommand cmd g badGangs dtxSegments;;
      match results with
      | None => if raiseError then raise ERROR else ret false
      | Some results =>
          let numOfFailed := length (filter (λ r, result_failed (DtxProtocolCommandToString cmd) r = true) results) in
          ret (Nat.eqb numOfFailed 0)
      end
  end.

Definition currentDtxDispatchProtocolCommand (cmd : DtxProtocolCommand) (raiseError : bool) : proc qd bool :=
  q <- get;;
  let badgang := bool_decide (q_state q = DTX_STATE_PREPARING) in
  doDispatchDtxProtocolCommand cmd (current_gid q) badgang raiseError (q_dtxSegments q).

(** All sessions end. *)
Definition DisconnectAndDestroyAllGangs : proc qd unit :=
  q <- get;; set_world (q_broadcasts q) (λ i, end_session (q_segs q i)).

(** *** The log *)

Definition XLogInsert (r : dtx_record) : proc qd unit :=
  q <- get;;
  match log_fates env (length (q_wal q)) with
  | Logged => append_wal r
  | PanicBefore => raise PANIC
  | PanicAfter => append_wal r;; raise PANIC
  end.

(** *** Setting up and resetting *)

Definition currentDtxActivate : proc qd unit :=
  modify (λ q,
    mkQd (q_state q) (q_explicitBeginRemembered q) (q_isOnePhaseCommit q) (q_badPrepareGangs q) (q_writerGangLost q)
      (q_dtxSegmentsMap q) (q_dtxSegments q) (q_distribTimeStamp q) (u32 (q_GIDSeq q + 1))
      (q_xminDistributedSnapshot q) (q_includeInCkpt q) (q_sessionId q) (q_context q) (u32 (q_GIDSeq q + 1))
      (q_latestCompletedDxid q) (q_wal q) (q_broadcasts q) (q_segs q));;
  q <- get;;
  if q_gxid q =? LastDistributedTransactionId then raise PANIC
  else
    modify (λ q,
      mkQd (q_state q) (q_explicitBeginRemembered q) (q_isOnePhaseCommit q) (q_badPrepareGangs q) (q_writerGangLost q)
        (q_dtxSegmentsMap q) (q_dtxSegments q) (getDtxStartTime env) (q_gxid q)
        (q_xminDistributedSnapshot q) (q_includeInCkpt q) (gp_session_id env) (q_context q) (q_GIDSeq q)
        (q_latestCompletedDxid q) (q_wal q) (q_broadcasts q) (q_segs q));;
    setCurrentDtxState DTX_STATE_ACTIVE_DISTRIBUTED.

Definition setupDtxTransaction (IsTransactionState : bool) : proc qd unit :=
  q <- get;;
  if negb IsTransactionState then raise ERROR
  else
    (if negb (isCurrentDtxActivated q) then currentDtxActivate else ret tt);;
    q <- get;;
    if bool_decide (q_state q ≠ DTX_STATE_ACTIVE_DISTRIBUTED) then raise ERROR else ret tt.

Definition rememberDtxExplicitBegin : proc qd unit := modify (λ q,
  mkQd (q_state q) true (q_isOnePhaseCommit q) (q_badPrepareGangs q) (q_writerGangLost q)
    (q_dtxSegmentsMap q) (q_dtxSegments q) (q_distribTimeStamp q) (q_gxid q) (q_xminDistributedSnapshot q)
    (q_includeInCkpt q) (q_sessionId q) (q_context q) (q_GIDSeq q) (q_latestCompletedDxid q) (q_wal q)
    (q_broadcasts q) (q_segs q)).

Definition sendDtxExplicitBegin (role : GpRoleValue) (IsTransactionState : bool) : proc qd unit :=
  if bool_decide (role ≠ GP_ROLE_DISPATCH) then ret tt
  else setupDtxTransaction IsTransactionState;; rememberDtxExplicitBegin.

Definition isDtxExplicitBegin (q : qd) : bool := isCurrentDtxActivated q && q_explicitBeginRemembered q.

Definition resetGxact : proc qd unit :=
  modify (λ q,
    mkQd (q_state q) false false false false None [] 0 InvalidDistributedTransactionId
      InvalidDistributedTransactionId false 0 (q_context q) (q_GIDSeq q) (q_latestCompletedDxid q) (q_wal q)
      (q_broadcasts q) (q_segs q));;
  setCurrentDtxState DTX_STATE_NONE.

Definition ProcArrayEndGxact : proc qd unit :=
  modify (λ q,
    mkQd (q_state q) (q_explicitBeginRemembered q) (q_isOnePhaseCommit q) (q_badPrepareGangs q) (q_writerGangLost q)
      (q_dtxSegmentsMap q) (q_dtxSegments q) (q_distribTimeStamp q) (q_gxid q) (q_xminDistributedSnapshot q)
      (q_includeInCkpt q) (q_sessionId q) (q_context q) (q_GIDSeq q)
      (if negb (q_gxid q =? InvalidDistributedTransactionId) &&
          TransactionIdPrecedes (q_latestCompletedDxid q) (q_gxid q)
       then q_gxid q else q_latestCompletedDxid q)
      (q_wal q) (q_broadcasts q) (q_segs q));;
  resetGxact.

Definition clearAndResetGxact : proc qd unit := ProcArrayEndGxact.

(** The end of the local transaction in the process array is left out. *)
Definition ClearTransactionState : proc qd unit := ProcArrayEndGxact.

Definition finishDistributedTransactionContext : proc qd unit :=
  q <- get;;
  if isCurrentDtxActivated q
     && (bool_decide (q_state q ≠ DTX_STATE_RETRY_COMMIT_PREPARED)
         && bool_decide (q_state q ≠ DTX_STATE_RETRY_ABORT_PREPARED))
  then raise FATAL
  else setDistributedTransactionContext DTX_CONTEXT_LOCAL_ONLY.

(** *** The first phase *)

Definition isPreparedDtxTransaction (q : qd) : bool := bool_decide (q_state q = DTX_STATE_PREPARED).

Definition doPrepareTransaction : proc qd unit :=
  (if query_cancelled env then raise ERROR else ret tt);;
  setCurrentDtxState DTX_STATE_PREPARING;;
  succeeded <- currentDtxDispatchProtocolCommand DTX_PROTOCOL_COMMAND_PREPARE true;;
  if negb succeeded then raise ERROR else setCurrentDtxState DTX_STATE_PREPARED.

Definition prepareDtxTransaction : proc qd unit :=
  q <- get;;
  if bool_decide (q_context q ≠ DTX_CONTEXT_QD_DISTRIBUTED_CAPABLE) then ret tt
  else if negb (isCurrentDtxActivated q) then resetGxact
  else if negb (ExecutorDidWriteXLog env)
          || (negb (markXidCommitted env) && Nat.ltb (length (q_dtxSegments q)) 2)
  then setCurrentDtxState DTX_STATE_ONE_PHASE_COMMIT
  else doPrepareTransaction.

(** *** The commit record *)

Definition insertingDistributedCommitted : proc qd unit := setCurrentDtxState DTX_STATE_INSERTING_COMMITTED.

Definition insertedDistributedCommitted : proc qd unit :=
  setCurrentDtxState DTX_STATE_INSERTED_COMMITTED;; set_includeInCkpt true.

Definition RecordTransactionCommit : proc qd unit :=
  q <- get;;
  if isPreparedDtxTransaction q then
    insertingDistributedCommitted;;
    XLogInsert (DistributedCommit (current_gid q));;
    insertedDistributedCommitted
  else ret tt.

Definition doInsertForgetCommitted : proc qd unit :=
  setCurrentDtxState DTX_STATE_INSERTING_FORGET_COMMITTED;;
  q <- get;;
  XLogInsert (DistributedForget (current_gid q));;
  setCurrentDtxState DTX_STATE_INSERTED_FORGET_COMMITTED;;
  set_includeInCkpt false.

(** *** The second phase *)

Definition doNotifyingOnePhaseCommit : proc qd unit :=
  q <- get;;
  match q_dtxSegments q with
  | [] => ret tt
  | _ =>
      setCurrentDtxState DTX_STATE_NOTIFYING_ONE_PHASE_COMMIT;;
      succeeded <- currentDtxDispatchProtocolCommand DTX_PROTOCOL_COMMAND_COMMIT_ONEPHASE true;;
      if negb succeeded then raise ERROR else ret tt
  end.

(** The rounds that are left of [dtx_phase2_retry_count]. *)
Fixpoint retry_commit (rounds : nat) (succeeded : bool) : proc qd bool :=
  match rounds with
  | O => ret succeeded
  | S rounds =>
      if succeeded then ret true
      else
        DisconnectAndDestroyAllGangs;;
        succeeded <- pg_try
          (currentDtxDispatchProtocolCommand DTX_PROTOCOL_COMMAND_RETRY_COMMIT_PREPARED true) (ret false);;
        retry_commit rounds succeeded
  end.

Definition doNotifyingCommitPrepared : proc qd unit :=
  setCurrentDtxState DTX_STATE_NOTIFYING_COMMIT_PREPARED;;
  succeeded <- pg_try
    (currentDtxDispatchProtocolCommand DTX_PROTOCOL_COMMAND_COMMIT_PREPARED true) (ret false);;
  (if negb succeeded then
     setCurrentDtxState DTX_STATE_RETRY_COMMIT_PREPARED;;
     setDistributedTransactionContext DTX_CONTEXT_QD_RETRY_PHASE_2
   else ret tt);;
  succeeded <- retry_commit (Z.to_nat (dtx_phase2_retry_count env)) succeeded;;
  if negb succeeded then raise PANIC else doInsertForgetCommitted.

Fixpoint retry_abort (rounds : nat) (succeeded : bool) : proc qd bool :=
  match rounds with
  | O => ret succeeded
  | S rounds =>
      if succeeded then ret true
      else
        DisconnectAndDestroyAllGangs;;
        succeeded <- pg_try
          (q <- get;;
           set_dtxSegments (q_dtxSegmentsMap q) cdbcomponent_getCdbComponentsList;;
           currentDtxDispatchProtocolCommand DTX_PROTOCOL_COMMAND_RETRY_ABORT_PREPARED true) (ret false);;
        retry_abort rounds succeeded
  end.

Definition retryAbortPrepared : proc qd unit :=
  succeeded <- retry_abort (Z.to_nat (dtx_phase2_retry_count env)) false;;
  if negb succeeded then raise PANIC else ret tt.

Definition doNotifyingAbort : proc qd unit :=
  q <- get;;
  if bool_decide (q_state q = DTX_STATE_NOTIFYING_ABORT_NO_PREPARED) then
    if negb (q_writerGangLost q) && negb (bool_decide (q_dtxSegments q = [])) then
      succeeded <- currentDtxDispatchProtocolCommand DTX_PROTOCOL_COMMAND_ABORT_NO_PREPARED false;;
      if negb succeeded then DisconnectAndDestroyAllGangs else ret tt
    else ret tt
  else
    let cmd := if bool_decide (q_state q = DTX_STATE_NOTIFYING_ABORT_SOME_PREPARED)
               then DTX_PROTOCOL_COMMAND_ABORT_SOME_PREPARED else DTX_PROTOCOL_COMMAND_ABORT_PREPARED in
    succeeded <- pg_try (currentDtxDispatchProtocolCommand cmd true) (ret false);;
    if negb succeeded then
      setCurrentDtxState DTX_STATE_RETRY_ABORT_PREPARED;;
      setDistributedTransactionContext DTX_CONTEXT_QD_RETRY_PHASE_2;;
      retryAbortPrepared
    else ret tt.

Definition notifyCommittedDtxTransactionIsNeeded (q : qd) : bool :=
  bool_decide (q_context q = DTX_CONTEXT_QD_DISTRIBUTED_CAPABLE) && isCurrentDtxActivated q.

Definition notifyCommittedDtxTransaction : proc qd unit :=
  q <- get;;
  match q_state q with
  | DTX_STATE_INSERTED_COMMITTED => doNotifyingCommitPrepared
  | DTX_STATE_ONE_PHASE_COMMIT => doNotifyingOnePhaseCommit
  | _ => raise ERROR
  end.

(** What [rollbackDtxTransaction] does behind its switch. *)
Definition rollback_notify : proc qd unit :=
  q <- get;;
  if proc_exit_inprogress env then
    if bool_decide (q_state q = DTX_STATE_NOTIFYING_ABORT_SOME_PREPARED)
       || bool_decide (q_state q = DTX_STATE_NOTIFYING_ABORT_PREPARED)
    then raise FATAL
    else DisconnectAndDestroyAllGangs;; clearAndResetGxact
  else doNotifyingAbort;; clearAndResetGxact.

Definition rollbackDtxTransaction : proc qd unit :=
  q <- get;;
  if bool_decide (q_context q ≠ DTX_CONTEXT_QD_DISTRIBUTED_CAPABLE) then ret tt
  else if negb (isCurrentDtxActivated q) then ret tt
  else
    match q_state q with
    | DTX_STATE_ACTIVE_DISTRIBUTED =>
        setCurrentDtxState DTX_STATE_NOTIFYING_ABORT_NO_PREPARED;; rollback_notify
    | DTX_STATE_PREPARING =>
        if q_badPrepareGangs q then
          setCurrentDtxState DTX_STATE_RETRY_ABORT_PREPARED;; retryAbortPrepared;; clearAndResetGxact
        else setCurrentDtxState DTX_STATE_NOTIFYING_ABORT_SOME_PREPARED;; rollback_notify
    | DTX_STATE_PREPARED => setCurrentDtxState DTX_STATE_NOTIFYING_ABORT_PREPARED;; rollback_notify
    | DTX_STATE_ONE_PHASE_COMMIT | DTX_STATE_NOTIFYING_ONE_PHASE_COMMIT =>
        setCurrentDtxState DTX_STATE_NOTIFYING_ABORT_NO_PREPARED;; rollback_notify
    | DTX_STATE_NOTIFYING_ABORT_NO_PREPARED => DisconnectAndDestroyAllGangs;; clearAndResetGxact
    | DTX_STATE_NOTIFYING_ABORT_SOME_PREPARED | DTX_STATE_NOTIFYING_ABORT_PREPARED => raise FATAL
    | DTX_STATE_NOTIFYING_COMMIT_PREPARED | DTX_STATE_INSERTING_COMMITTED | DTX_STATE_INSERTED_COMMITTED
    | DTX_STATE_INSERTING_FORGET_COMMITTED | DTX_STATE_INSERTED_FORGET_COMMITTED
    | DTX_STATE_RETRY_COMMIT_PREPARED | DTX_STATE_RETRY_ABORT_PREPARED => clearAndResetGxact
    | DTX_STATE_NONE => raise PANIC
    end.

(** *** Ending a transaction

    The steps of [CommitTransaction] and [AbortTransaction] that involve the distributed
    transaction; an error in the former leads to the latter, and an error there to it again. *)
Definition CommitTransaction : proc qd unit :=
  prepareDtxTransaction;;
  q <- get;;
  (if abort_after_prepared env && isPreparedDtxTransaction q then raise ERROR else ret tt);;
  RecordTransactionCommit;;
  q <- get;;
  (if notifyCommittedDtxTransactionIsNeeded q
   then notifyCommittedDtxTransaction;; ClearTransactionState else ret tt);;
  finishDistributedTransactionContext.

Fixpoint abort_transaction (attempts : nat) : proc qd unit :=
  match attempts with
  | O => raise ERROR
  | S attempts => pg_try (rollbackDtxTransaction;; finishDistributedTransactionContext) (abort_transaction attempts)
  end.

(** Whether the transaction was committed. *)
Definition end_transaction (attempts : nat) : proc qd bool := λ q,
  match CommitTransaction q with
  | (Ret _, q) => (Ret true, q)
  | (ERROR, q) => bind (abort_transaction attempts) (λ _, ret false) q
  | (FATAL, q) => (FATAL, q)
  | (PANIC, q) => (PANIC, q)
  end.
End Dispatcher.
Arguments qd : clear implicits.
