(* ===== verification/DtmFacts.v ===== *)
(** * Distributed transactions: commands and broadcasts

    What a protocol command does to a segment, what a broadcast does to the segments, and what each
    phase of the commit and of the abort makes of the state of the dispatcher, the log and the
    segments. *)
From stdpp Require Import functions.
From S2P Require Import Prelude Proc Bitmapset DistributedSnapshot DtxContextInfo Dtm.

(** ** What a command does to a segment *)

Section Segment.
Context {T : Type} `{LocalTMLaws T}.
Implicit Types (s : segment T) (g : gid) (t : T).

#[global] Instance same_xacts_refl : Reflexive (@same_xacts T _).
Proof. by split. Qed.

#[global] Instance same_xacts_trans : Transitive (@same_xacts T _).
Proof.
  intros t1 t2 t3 [P1 C1] [P2 C2]. split; intros g; [by rewrite P2, P1|by rewrite C2, C1].
Qed.

Definition is_prepared g s : Prop := g ∈ prepared (seg_local s).
Definition is_committed g s : Prop := committed (seg_local s) g = true.
Definition same_seg s s' : Prop := same_xacts (seg_local s) (seg_local s').

#[global] Instance is_prepared_dec g s : Decision (is_prepared g s).
Proof. unfold is_prepared. apply _. Defined.
#[global] Instance is_committed_dec g s : Decision (is_committed g s).
Proof. unfold is_committed. apply _. Defined.

#[global] Instance same_seg_refl : Reflexive same_seg.
Proof. intros s. apply same_xacts_refl. Qed.

#[global] Instance same_seg_trans : Transitive same_seg.
Proof. intros s1 s2 s3. apply same_xacts_trans. Qed.

(** The prepared transaction [g] was finished, and nothing else. *)
Definition finished g (c : bool) s s' : Prop :=
  is_prepared g s ∧ (∀ h, is_prepared h s' ↔ h ≠ g ∧ is_prepared h s) ∧
  (∀ h, is_committed h s' ↔ (c = true ∧ h = g) ∨ is_committed h s).

Lemma same_seg_prepared h s s' : same_seg s s' → is_prepared h s' ↔ is_prepared h s.
Proof. intros [Hp _]. apply Hp. Qed.

Lemma same_seg_committed h s s' : same_seg s s' → is_committed h s' ↔ is_committed h s.
Proof. intros [_ Hc]. unfold is_committed. by rewrite Hc. Qed.

Lemma finished_same g c s s' s'' : finished g c s s' → same_seg s' s'' → finished g c s s''.
Proof.
  intros (H1 & H2 & H3) Hs. split_and!; [done| |]; intros h.
  - by rewrite (same_seg_prepared _ _ _ Hs).
  - by rewrite (same_seg_committed _ _ _ Hs).
Qed.

Lemma same_finished g c s s' s'' : same_seg s s' → finished g c s' s'' → finished g c s s''.
Proof.
  intros Hs (H1 & H2 & H3). split_and!; [by rewrite <- (same_seg_prepared _ _ _ Hs)| |]; intros h.
  - by rewrite H2, (same_seg_prepared _ _ _ Hs).
  - by rewrite H3, (same_seg_committed _ _ _ Hs).
Qed.

Lemma end_session_same s : same_seg s (end_session s).
Proof. apply abort_law. Qed.

(** *** Operations of the local transaction manager in a session *)

Lemma wp_local (op : T → bool * T) (Q : outcome unit → segment T → Prop) s :
  (∀ b t, op (seg_local s) = (b, t) → Q (if b then Ret tt else ERROR) (mkSegment (seg_context s) t)) →
  wp (local op) Q s.
Proof. intros HQ. unfold wp, local. destruct (op (seg_local s)) as [b t]. exact (HQ b t eq_refl). Qed.

Lemma wp_local_block (op : T → option bool * T) (Q : outcome bool → segment T → Prop) s :
  (∀ r t, op (seg_local s) = (r, t) →
     Q (match r with Some b => Ret b | None => ERROR end) (mkSegment (seg_context s) t)) →
  wp (local_block op) Q s.
Proof. intros HQ. unfold wp, local_block. destruct (op (seg_local s)) as [r t]. exact (HQ r t eq_refl). Qed.

(** Finishing a prepared transaction. *)
Lemma finish_prepared_spec g c r s :
  wp (finish_prepared g c r) (λ o s',
    (finished g c s s' ∨ same_seg s s') ∧
    (o = Ret tt → ¬ is_prepared g s' ∧ (r = true → is_prepared g s))) s.
Proof.
  unfold finish_prepared. apply proc_bind, wp_local. intros b1 t1 E1. destruct (start_law _ _ _ E1) as [S1 M1].
  destruct b1; [|by split; [right|]]. cbn [next].
  apply proc_bind, wp_try_rethrow, wp_local. cbn [seg_local seg_context]. intros b2 t2 E2.
  destruct (finish_law _ _ _ _ _ _ E2) as [M2 F2]. specialize (M1 eq_refl).
  set (s2 := mkSegment (seg_context s) t2).
  assert (Hfin : finished g c s s2 ∨ same_seg s s2).
  { destruct (bool_decide (g ∈ prepared t1) && b2) eqn:Hb.
    - apply andb_true_iff in Hb as [Hp%bool_decide_eq_true _]. destruct F2 as [P2 C2]. left.
      apply (same_finished _ _ _ (mkSegment (seg_context s) t1)); [done|]. split_and!; [done|exact P2|].
      intros h. unfold is_committed. cbn [seg_local s2]. rewrite C2, orb_true_iff, andb_true_iff, bool_decide_eq_true. done.
    - right. exact (same_xacts_trans _ _ _ S1 F2). }
  destruct b2; cbn [next].
  - assert (Hnp : ¬ is_prepared g s2 ∧ (r = true → is_prepared g s)).
    { destruct (decide (g ∈ prepared t1)) as [Hp|Hp].
      - rewrite (bool_decide_eq_true_2 _ Hp) in F2. destruct F2 as [P2 _]. split; [|intros _; by apply S1].
        unfold is_prepared. cbn [s2 seg_local]. rewrite P2. naive_solver.
      - rewrite (bool_decide_eq_false_2 _ Hp) in F2. destruct F2 as [P2 _]. split.
        + unfold is_prepared. cbn [s2 seg_local]. by rewrite P2.
        + intros ->. exfalso. by pose proof (finish_not_found_law _ _ _ _ _ E2 Hp). }
    apply proc_bind, wp_local. cbn [seg_local seg_context]. intros b3 t3 E3.
    assert (S3 : same_xacts t2 t3) by (eapply commit_none_law; [|exact E3]; congruence).
    assert (Hfin' : ∀ ctx, finished g c s (mkSegment ctx t3) ∨ same_seg s (mkSegment ctx t3)).
    { intros ctx. destruct Hfin as [Hf|Hf]; [left; by eapply finished_same|right; exact (same_xacts_trans _ _ _ Hf S3)]. }
    destruct b3; cbn [next]; [|by split; [apply Hfin'|]].
    unfold seg_finishDistributedTransactionContext. apply wp_modify. split; [apply Hfin'|]. intros _.
    split; [|apply Hnp]. unfold is_prepared. cbn [seg_local]. rewrite (proj1 S3 g). apply Hnp.
  - split; [|done]. destruct Hfin as [Hf|Hf]; [left|right; done]. by eapply finished_same.
Qed.

(** Aborting commands finish the transaction by an abort or leave everything; if they succeed
    it is not prepared, for the command that also meets sessions without it, in a session that
    prepared it. *)
Definition is_abort (cmd : DtxProtocolCommand) : bool :=
  match cmd with
  | DTX_PROTOCOL_COMMAND_ABORT_SOME_PREPARED | DTX_PROTOCOL_COMMAND_ABORT_PREPARED
  | DTX_PROTOCOL_COMMAND_RETRY_ABORT_PREPARED | DTX_PROTOCOL_COMMAND_RECOVERY_ABORT_PREPARED
  | DTX_PROTOCOL_COMMAND_ABORT_NO_PREPARED => true
  | _ => false
  end.

Definition is_commit (cmd : DtxProtocolCommand) : bool :=
  match cmd with
  | DTX_PROTOCOL_COMMAND_COMMIT_PREPARED | DTX_PROTOCOL_COMMAND_RETRY_COMMIT_PREPARED
  | DTX_PROTOCOL_COMMAND_RECOVERY_COMMIT_PREPARED => true
  | _ => false
  end.

(** The session is one in which the command finishes a prepared transaction. *)
Definition meets (cmd : DtxProtocolCommand) g s : Prop :=
  match cmd with
  | DTX_PROTOCOL_COMMAND_ABORT_SOME_PREPARED =>
      seg_context s = DTX_CONTEXT_QE_PREPARED ∨ ¬ is_prepared g s
  | DTX_PROTOCOL_COMMAND_ABORT_NO_PREPARED => ¬ is_prepared g s
  | _ => True
  end.

Definition finishing g c s (o : outcome unit) (s' : segment T) : Prop :=
  (finished g c s s' ∨ same_seg s s') ∧ (o = Ret tt → ¬ is_prepared g s').

Lemma finish_prepared_finishing g c r s : wp (finish_prepared g c r) (finishing g c s) s.
Proof. eapply proc_mono; [apply finish_prepared_spec|]. intros o s' [H1 H2]. split; [done|]. intros Ho. by apply H2. Qed.

Lemma finish_in_context g c r ctx s :
  wp (bind (seg_set_context ctx) (λ _, finish_prepared g c r)) (finishing g c s) s.
Proof. apply proc_bind, wp_modify. exact (finish_prepared_finishing g c r (mkSegment ctx (seg_local s))). Qed.

Lemma wp_require ctx m (Q : outcome unit → segment T → Prop) s :
  Q FATAL s → wp m Q s → wp (bind (requireDistributedTransactionContext ctx) (λ _, m)) Q s.
Proof.
  intros Hf Hm. apply proc_bind. unfold requireDistributedTransactionContext. apply proc_bind, wp_get.
  cbn [next]. by destruct (bool_decide _).
Qed.

Lemma same_finishing g c s s' o : same_seg s s' → o ≠ Ret tt ∨ ¬ is_prepared g s → finishing g c s o s'.
Proof.
  intros Hs Ho. split; [by right|]. intros ->. destruct Ho as [?|Hn]; [done|]. by rewrite (same_seg_prepared _ _ _ Hs).
Qed.

Lemma perform_commit cmd g n s :
  is_commit cmd = true → wp (performDtxProtocolCommand cmd g n) (finishing g true s) s.
Proof.
  intros Hc. unfold performDtxProtocolCommand. apply proc_bind, wp_get. cbn [next].
  destruct cmd; try discriminate Hc; (apply wp_require; [by apply same_finishing; [|left]|]);
    apply finish_in_context || apply finish_prepared_finishing.
Qed.

Lemma perform_abort cmd g n s :
  is_abort cmd = true →
  wp (performDtxProtocolCommand cmd g n)
    (λ o s', (finished g false s s' ∨ same_seg s s') ∧ (o = Ret tt → meets cmd g s → ¬ is_prepared g s')) s.
Proof.
  intros Ha. unfold performDtxProtocolCommand. apply proc_bind, wp_get. cbn [next].
  assert (Hfin : ∀ m, wp m (finishing g false s) s → wp m (λ o s', (finished g false s s' ∨ same_seg s s') ∧
    (o = Ret tt → meets cmd g s → ¬ is_prepared g s')) s).
  { intros m Hm. eapply proc_mono; [exact Hm|]. intros o s' [H1 H2]. split; [done|]. intros Ho _. by apply H2. }
  assert (Habort : (meets cmd g s → ¬ is_prepared g s) → wp (local_total AbortOutOfAnyTransaction) (λ o s',
    (finished g false s s' ∨ same_seg s s') ∧ (o = Ret tt → meets cmd g s → ¬ is_prepared g s')) s).
  { intros Hm. apply wp_modify. split; [right; apply abort_law|]. intros _ Hmeets.
    unfold is_prepared. cbn [seg_local]. rewrite (proj1 (abort_law (seg_local s)) g). by apply Hm. }
  destruct cmd; try discriminate Ha.
  - by apply Habort.
  - destruct (seg_context s) eqn:Hctx; try (by apply Hfin, wp_raise, same_finishing; [|left]);
      try (apply Habort; intros [Heq|]; [congruence|done]).
    apply Hfin, finish_in_context.
  - apply Hfin, wp_require; [by apply same_finishing; [|left]|]. apply finish_in_context.
  - apply Hfin, wp_require; [by apply same_finishing; [|left]|]. apply finish_prepared_finishing.
  - apply Hfin, wp_require; [by apply same_finishing; [|left]|]. apply finish_prepared_finishing.
Qed.

(** A prepare. *)
Definition prepared_now g s s' : Prop :=
  (∀ h, is_prepared h s' ↔ h = g ∨ is_prepared h s) ∧ (∀ h, is_committed h s' ↔ is_committed h s).

Lemma perform_prepare g n s :
  wp (performDtxProtocolCommand DTX_PROTOCOL_COMMAND_PREPARE g n) (λ o s',
    match o with
    | Ret _ => prepared_now g s s' ∧ seg_context s' = DTX_CONTEXT_QE_PREPARED
    | _ => same_seg s s'
    end) s.
Proof.
  unfold performDtxProtocolCommand. apply proc_bind, wp_get. cbn [next].
  assert (Hprep : wp (performDtxProtocolPrepare g) (λ o s', match o with
    | Ret _ => prepared_now g s s' ∧ seg_context s' = DTX_CONTEXT_QE_PREPARED | _ => same_seg s s' end) s).
  { unfold performDtxProtocolPrepare. apply proc_bind, wp_local. intros b1 t1 E1.
    destruct (start_law _ _ _ E1) as [S1 _]. destruct b1; [|exact S1]. cbn [next].
    apply proc_bind, wp_local_block. cbn [seg_local seg_context]. intros r t2 E2.
    destruct (prepare_block_law _ _ _ _ E2) as [S2 M2]. assert (S12 : same_xacts (seg_local s) t2) by by transitivity t1.
    destruct r as [[]|]; cbn [next negb]; [|exact S12|exact S12]. apply proc_bind, wp_local.
    cbn [seg_local seg_context]. intros b3 t3 E3. pose proof (commit_prepare_law _ _ _ _ (M2 eq_refl) E3) as S3.
    destruct b3; cbn [next]; [|exact (same_xacts_trans _ _ _ S12 S3)]. apply wp_modify. destruct S3 as [P3 C3]. split; [split|done].
    - intros h. unfold is_prepared. cbn [seg_local]. by rewrite P3, (proj1 S12 h).
    - intros h. unfold is_committed. cbn [seg_local]. by rewrite C3, (proj2 S12 h). }
  destruct (seg_context s); try (apply wp_raise; reflexivity); exact Hprep.
Qed.

(** *** Messages *)

(** The segment before and behind a message with its answer. *)
Definition step (cmd : DtxProtocolCommand) g (answer : option bool) s s' : Prop :=
  match answer with
  | Some ok => exec_mpp_dtx_protocol_command cmd g no_info s = (ok, s')
  | None => s' = end_session s ∨ s' = end_session (exec_mpp_dtx_protocol_command cmd g no_info s).2
  end.

(** A property of the command, whatever its end, that survives the end of the session. *)
Lemma exec_spec cmd g s (Q : bool → segment T → Prop) :
  wp (performDtxProtocolCommand cmd g no_info)
    (λ o s', match o with Ret _ => Q true s' | _ => Q false (end_session s') end) s →
  ∀ ok s', exec_mpp_dtx_protocol_command cmd g no_info s = (ok, s') → Q ok s'.
Proof.
  unfold wp, exec_mpp_dtx_protocol_command. intros HQ ok s'.
  destruct (performDtxProtocolCommand cmd g no_info s) as [[] s1]; intros ?; by simplify_eq.
Qed.

Lemma step_spec cmd g answer s s' (R : segment T → segment T → Prop) :
  (∀ s1 s2, R s s1 → same_seg s1 s2 → R s s2) → R s s →
  (∀ ok s1, exec_mpp_dtx_protocol_command cmd g no_info s = (ok, s1) → R s s1) →
  step cmd g answer s s' → R s s'.
Proof.
  intros Hsame Hrefl Hexec. destruct (exec_mpp_dtx_protocol_command cmd g no_info s) as [ok s1] eqn:E.
  specialize (Hexec _ _ eq_refl). unfold step. rewrite E. destruct answer as [ok'|].
  - intros ?. by simplify_eq.
  - intros [->| ->]; [apply (Hsame s)|apply (Hsame s1)]; try done; apply end_session_same.
Qed.

Lemma finished_or_same_step g c s s1 s2 :
  finished g c s s1 ∨ same_seg s s1 → same_seg s1 s2 → finished g c s s2 ∨ same_seg s s2.
Proof. intros [Hf|Hf] Hs; [left; by eapply finished_same|right; by transitivity s1]. Qed.

Lemma step_commit cmd g answer s s' :
  is_commit cmd = true → step cmd g answer s s' →
  (finished g true s s' ∨ same_seg s s') ∧ (answer = Some true → ¬ is_prepared g s').
Proof.
  intros Hc Hs. assert (Hexec : ∀ ok s1, exec_mpp_dtx_protocol_command cmd g no_info s = (ok, s1) →
    (finished g true s s1 ∨ same_seg s s1) ∧ (ok = true → ¬ is_prepared g s1)).
  { apply exec_spec. eapply proc_mono; [by apply perform_commit|]. intros o s1 [H1 H2].
    destruct o as [[]| | |]; [by split; [|auto]|..]; (split; [|done]);
      (eapply finished_or_same_step; [exact H1|apply end_session_same]). }
  split.
  - eapply (step_spec cmd g answer s s' (λ s s', finished g true s s' ∨ same_seg s s')); try done; [|by right|].
    + intros s1 s2. apply finished_or_same_step.
    + intros ok s1 E. by apply (Hexec ok).
  - intros ->. by apply (Hexec true).
Qed.

Lemma step_abort cmd g answer s s' :
  is_abort cmd = true → step cmd g answer s s' →
  (finished g false s s' ∨ same_seg s s') ∧ (answer = Some true → meets cmd g s → ¬ is_prepared g s').
Proof.
  intros Hc Hs. assert (Hexec : ∀ ok s1, exec_mpp_dtx_protocol_command cmd g no_info s = (ok, s1) →
    (finished g false s s1 ∨ same_seg s s1) ∧ (ok = true → meets cmd g s → ¬ is_prepared g s1)).
  { apply exec_spec. eapply proc_mono; [by apply perform_abort|]. intros o s1 [H1 H2].
    destruct o as [[]| | |]; [by split; [|auto]|..]; (split; [|done]);
      (eapply finished_or_same_step; [exact H1|apply end_session_same]). }
  split.
  - eapply (step_spec cmd g answer s s' (λ s s', finished g false s s' ∨ same_seg s s')); try done; [|by right|].
    + intros s1 s2. apply finished_or_same_step.
    + intros ok s1 E. by apply (Hexec ok).
  - intros ->. by apply (Hexec true).
Qed.

Lemma prepared_now_same g s s1 s2 : prepared_now g s s1 → same_seg s1 s2 → prepared_now g s s2.
Proof.
  intros [H1 H2] Hs. split; intros h; [by rewrite (same_seg_prepared _ _ _ Hs)|by rewrite (same_seg_committed _ _ _ Hs)].
Qed.

Lemma step_prepare g answer s s' :
  step DTX_PROTOCOL_COMMAND_PREPARE g answer s s' →
  (prepared_now g s s' ∨ same_seg s s') ∧
  (answer = Some true → prepared_now g s s' ∧ seg_context s' = DTX_CONTEXT_QE_PREPARED) ∧
  (answer = Some false → same_seg s s').
Proof.
  intros Hs. assert (Hexec : ∀ ok s1, exec_mpp_dtx_protocol_command DTX_PROTOCOL_COMMAND_PREPARE g no_info s = (ok, s1) →
    if ok : bool then prepared_now g s s1 ∧ seg_context s1 = DTX_CONTEXT_QE_PREPARED else same_seg s s1).
  { apply exec_spec. eapply proc_mono; [apply perform_prepare|]. intros o s1.
    destruct o as [[]| | |]; [done|..]; (intros Hsame; transitivity s1; [done|apply end_session_same]). }
  split_and!.
  - eapply (step_spec _ g answer s s' (λ s s', prepared_now g s s' ∨ same_seg s s')); [| |  |exact Hs].
    + intros s1 s2 [Hp|Hp] Hs12; [left; by eapply prepared_now_same|right; by transitivity s1].
    + by right.
    + intros ok s1 E. specialize (Hexec _ _ E). destruct ok; [left; apply Hexec|by right].
  - intros ->. by apply (Hexec true).
  - intros ->. by apply (Hexec false).
Qed.
End Segment.

(** ** What a broadcast does to the segments *)

Lemma prefix_refl (s : string) : String.prefix s s = true.
Proof. induction s as [|a s IH]; [done|]. simpl. by destruct (Ascii.ascii_dec a a). Qed.

Section Broadcast.
Context {T : Type} `{LocalTMLaws T} (env : environment).
Implicit Types (q : qd T) (w : Z → segment T) (g : gid) (gang : list Z) (answers : list (option bool)).

Definition all_true answers : bool := forallb (λ a, bool_decide (a = Some true)) answers.
Definition any_lost answers : bool := existsb (λ a, bool_decide (a = None)) answers.

Definition broadcast (cmd : DtxProtocolCommand) g gang answers w w' : Prop :=
  (∀ i, i ∉ gang → w' i = w i) ∧ Forall2 (λ i a, step cmd g a (w i) (w' i)) gang answers.

Lemma dispatch_to_gang_spec n cmd g gang w answers w' :
  dispatch_to_gang env n cmd g gang w = (answers, w') → NoDup gang → broadcast cmd g gang answers w w'.
Proof.
  revert w answers. induction gang as [|i gang IH]; intros w answers Hd Hnd; cbn [dispatch_to_gang] in Hd.
  { simplify_eq. split; [done|constructor]. }
  apply NoDup_cons in Hnd as [Hi Hnd].
  destruct (match fates env n i with NotDelivered => _ | AnswerLost => _ | Answered => _ end) as [a s] eqn:Ea.
  destruct (dispatch_to_gang env n cmd g gang (<[i:=s]> w)) as [answers' w2] eqn:Ed. simplify_eq.
  destruct (IH _ _ Ed Hnd) as [Hout Hin]. split.
  - intros j [Hj1 Hj2]%not_elem_of_cons. rewrite Hout by done. by rewrite fn_lookup_insert_ne.
  - assert (Hs : w' i = s) by by rewrite Hout, fn_lookup_insert. constructor.
    + rewrite Hs. unfold step. destruct (fates env n i); [simplify_eq; by left|simplify_eq; by right|].
      destruct (exec_mpp_dtx_protocol_command cmd g no_info (w i)) as [ok s'] eqn:E. by simplify_eq.
    + eapply Forall2_impl; [|intros j a' Hj; exact Hj].
      apply Forall2_same_length_lookup in Hin as [Hl Hin]. apply Forall2_same_length_lookup. split; [done|].
      intros k j a' Hj Ha'. specialize (Hin k j a' Hj Ha').
      rewrite fn_lookup_insert_ne in Hin; [done|]. intros ->. by apply Hi, list_elem_of_lookup_2 with k.
Qed.

(** A segment of the gang with its answer. *)
Lemma broadcast_in cmd g gang answers w w' i :
  broadcast cmd g gang answers w w' → i ∈ gang → ∃ a, a ∈ answers ∧ step cmd g a (w i) (w' i).
Proof.
  intros [_ Hf] [k Hk]%list_elem_of_lookup. destruct (Forall2_lookup_l _ _ _ _ _ Hf Hk) as (a & Ha & Hs).
  exists a. split; [by eapply list_elem_of_lookup_2|done].
Qed.

Lemma all_true_elem answers a : all_true answers = true → a ∈ answers → a = Some true.
Proof. unfold all_true. rewrite forallb_forall. intros Ha Hin%list_elem_of_In. by eapply bool_decide_eq_true_1, Ha. Qed.

Lemma any_lost_elem answers a : any_lost answers = false → a ∈ answers → a ≠ None.
Proof.
  unfold any_lost. intros Hl Hin ->. assert (existsb (λ a, bool_decide (a = None)) answers = true); [|congruence].
  apply existsb_exists. exists None. split; [by apply list_elem_of_In|done].
Qed.

(** The segments of the transaction are those the gang is made of. *)
Definition recorded q : Prop :=
  getgpsegmentCount env ≤ Z.of_nat (length (q_dtxSegments q)) ∨
  ∀ i, i ∈ q_dtxSegments q → 0 ≤ i ∧ bms_has (q_dtxSegmentsMap q) i = true.

Lemma add_gang_recorded gang map segs :
  (∀ i, i ∈ gang → 0 ≤ i ∧ bms_has map i = true) → add_gang gang map segs = Ok (map, segs).
Proof.
  induction gang as [|i gang IH]; intros Hg; [done|]. cbn [add_gang].
  destruct (Hg i) as [Hi Hh]; [by left|]. destruct (Z.eqb_spec i (-1)); [lia|].
  rewrite is_member_spec, Hh by done. cbn [mbind result_bind]. apply IH. intros j Hj. apply Hg. by right.
Qed.

(** What a broadcast does not touch. *)
Definition same_control q q' : Prop :=
  (q_state q', q_context q', q_dtxSegments q', q_dtxSegmentsMap q') =
    (q_state q, q_context q, q_dtxSegments q, q_dtxSegmentsMap q) ∧
  (q_gxid q', q_distribTimeStamp q', q_writerGangLost q', q_wal q') =
    (q_gxid q, q_distribTimeStamp q, q_writerGangLost q, q_wal q).

Lemma wp_addToGxactDtxSegments q Q :
  recorded q → Q (Ret tt) q → wp (addToGxactDtxSegments env (q_dtxSegments q)) Q q.
Proof.
  intros Hr HQ. unfold addToGxactDtxSegments. apply proc_bind, wp_get. cbn [next].
  destruct (isCurrentDtxActivated q); cbn [negb]; [|done].
  destruct (Z.leb_spec (getgpsegmentCount env) (Z.of_nat (length (q_dtxSegments q)))); [done|].
  destruct Hr as [?|Hr]; [lia|]. rewrite add_gang_recorded by done. apply wp_modify. by destruct q.
Qed.

Lemma no_failures cmd answers :
  length (filter (λ r, result_failed (DtxProtocolCommandToString cmd) r = true)
    ((λ _ : option bool, (true, DtxProtocolCommandToString cmd)) <$> answers)) = 0%nat.
Proof.
  induction answers as [|a answers IH]; [done|]. rewrite fmap_cons, filter_cons_False; [done|].
  unfold result_failed. rewrite prefix_refl. done.
Qed.

Lemma all_true_none_lost answers : all_true answers = true → any_lost answers = false.
Proof.
  intros Hall. apply not_true_iff_false. intros (a & Ha & Hn)%existsb_exists. apply list_elem_of_In in Ha.
  apply bool_decide_eq_true in Hn. apply (all_true_elem _ _ Hall) in Ha. congruence.
Qed.

(** A broadcast to any segments, while recording them changes nothing. *)
Lemma wp_doDispatch cmd g (badGangs raiseError : bool) gang q Q :
  (∀ n w, let q1 := (set_world (T := T) n w q).2 in addToGxactDtxSegments env gang q1 = (Ret tt, q1)) →
  NoDup gang → gang ≠ [] →
  (∀ q', same_control q q' → q_badPrepareGangs q' = q_badPrepareGangs q → q_segs q' = q_segs q →
     q_broadcasts q' = S (q_broadcasts q) → Q ERROR q') →
  (∀ q' answers, same_control q q' → q_broadcasts q' = S (q_broadcasts q) →
     broadcast cmd g gang answers (q_segs q) (q_segs q') →
     q_badPrepareGangs q' = q_badPrepareGangs q || (badGangs && any_lost answers) →
     Q (if all_true answers then Ret true else if raiseError then ERROR else Ret false) q') →
  wp (doDispatchDtxProtocolCommand env cmd g badGangs raiseError gang) Q q.
Proof.
  intros Hadd Hnd Hne Hgang Hbc. unfold doDispatchDtxProtocolCommand. destruct gang as [|i0 gang0] eqn:Hsegs; [done|].
  rewrite <- Hsegs in *. clear Hne. apply proc_bind. unfold CdbDispatchDtxProtocolCommand. apply proc_bind, wp_get. cbn [next].
  destruct (gang_fails env (q_broadcasts q)).
  { apply proc_bind, wp_modify. cbn [next]. apply wp_raise. cbn [next]. by apply Hgang. }
  destruct (dispatch_to_gang env (q_broadcasts q) cmd g gang (q_segs q)) as [answers w'] eqn:Ed.
  apply dispatch_to_gang_spec in Ed; [|done]. apply proc_bind, wp_modify. cbn [next]. apply proc_bind.
  unfold wp at 1. specialize (Hadd (S (q_broadcasts q)) w'). cbn zeta in Hadd. unfold set_world, modify in Hadd.
  cbn [snd] in Hadd. rewrite Hadd. cbn [fst snd]. clear Hadd.
  cbn [next]. fold (all_true answers). destruct (all_true answers) eqn:Hall.
  - apply proc_ret. cbn [next]. rewrite no_failures. apply proc_ret.
    assert (Hbc' := λ q', Hbc q' answers). clear Hbc. rename Hbc' into Hbc. rewrite Hall in Hbc.
    apply Hbc; [done|done|exact Ed|]. cbn [q_badPrepareGangs].
    rewrite (all_true_none_lost _ Hall). by rewrite andb_false_r, orb_false_r.
  - fold (any_lost answers). rewrite andb_comm. assert (Hbc' := λ q', Hbc q' answers). clear Hbc. rename Hbc' into Hbc.
    rewrite Hall in Hbc. apply proc_bind. destruct (badGangs && any_lost answers) eqn:Hbad.
    + apply wp_modify. cbn [next]. apply proc_ret. cbn [next].
      match goal with |- wp _ _ ?q2 => specialize (Hbc q2) end. rewrite orb_true_r in Hbc.
      destruct raiseError; by apply Hbc.
    + apply proc_ret. cbn [next]. apply proc_ret. cbn [next].
      match goal with |- wp _ _ ?q2 => specialize (Hbc q2) end. rewrite orb_false_r in Hbc.
      destruct raiseError; by apply Hbc.
Qed.

Lemma wp_dispatch cmd (raiseError : bool) q Q :
  recorded q → NoDup (q_dtxSegments q) → q_dtxSegments q ≠ [] →
  (∀ q', same_control q q' → q_badPrepareGangs q' = q_badPrepareGangs q → q_segs q' = q_segs q →
     q_broadcasts q' = S (q_broadcasts q) → Q ERROR q') →
  (∀ q' answers, same_control q q' → q_broadcasts q' = S (q_broadcasts q) →
     broadcast cmd (current_gid q) (q_dtxSegments q) answers (q_segs q) (q_segs q') →
     q_badPrepareGangs q' =
       q_badPrepareGangs q || (bool_decide (q_state q = DTX_STATE_PREPARING) && any_lost answers) →
     Q (if all_true answers then Ret true else if raiseError then ERROR else Ret false) q') →
  wp (currentDtxDispatchProtocolCommand env cmd raiseError) Q q.
Proof.
  intros Hrec Hnd Hne Hgang Hbc. unfold currentDtxDispatchProtocolCommand. apply proc_bind, wp_get. cbn [next].
  apply wp_doDispatch; try done. intros n w. cbn zeta.
  pose proof (wp_addToGxactDtxSegments (set_world (T := T) n w q).2
    (λ o q2, (o, q2) = (Ret tt, (set_world (T := T) n w q).2)) Hrec eq_refl) as Hw.
  unfold wp in Hw. by rewrite <- surjective_pairing in Hw.
Qed.
End Broadcast.

(** ** The phases of a transaction *)

Section Phases.
Context {T : Type} `{LocalTMLaws T} (env : environment).
(** The transaction and its segments. *)
Context (g : gid) (P : list Z).
Context (P_nodup : NoDup P) (P_nonempty : P ≠ [])
  (P_known : ∀ i, i ∈ P → i ∈ cdbcomponent_getCdbComponentsList env).
Implicit Types (q : qd T) (w : Z → segment T).

Definition uncommitted w : Prop :=
  (∀ i, ¬ is_committed g (w i)) ∧ (∀ i, i ∉ P → ¬ is_prepared g (w i)).
Definition clean w : Prop := ∀ i, ¬ is_committed g (w i) ∧ ¬ is_prepared g (w i).
Definition voted w : Prop :=
  (∀ i, i ∈ P → is_prepared g (w i) ∨ is_committed g (w i)) ∧
  (∀ i, i ∉ P → ¬ is_committed g (w i) ∧ ¬ is_prepared g (w i)).
Definition all_committed w : Prop :=
  (∀ i, i ∈ P → is_committed g (w i) ∧ ¬ is_prepared g (w i)) ∧
  (∀ i, i ∉ P → ¬ is_committed g (w i) ∧ ¬ is_prepared g (w i)).

(** Worlds that differ by ended sessions, pointwise. *)
Definition same_world w w' : Prop := ∀ i, same_seg (w i) (w' i).

Lemma same_world_end w : same_world w (λ i, end_session (w i)).
Proof. intros i. apply end_session_same. Qed.

Lemma same_world_views w w' i : same_world w w' →
  (is_prepared g (w' i) ↔ is_prepared g (w i)) ∧ (is_committed g (w' i) ↔ is_committed g (w i)).
Proof. intros Hw. split; [by apply same_seg_prepared|by apply same_seg_committed]. Qed.

#[global] Instance uncommitted_proper : Proper (same_world ==> impl) uncommitted.
Proof.
  intros w w' Hw [H1 H2]. split; intros i; destruct (same_world_views w w' i Hw) as [E1 E2];
    [rewrite E2; auto|rewrite E1; auto].
Qed.

#[global] Instance clean_proper : Proper (same_world ==> impl) clean.
Proof. intros w w' Hw H1 i. destruct (same_world_views w w' i Hw) as [E1 E2]. rewrite E1, E2. apply H1. Qed.

#[global] Instance voted_proper : Proper (same_world ==> impl) voted.
Proof.
  intros w w' Hw [H1 H2]. split; intros i Hi; destruct (same_world_views w w' i Hw) as [E1 E2];
    rewrite E1, E2; auto.
Qed.

#[global] Instance all_committed_proper : Proper (same_world ==> impl) all_committed.
Proof.
  intros w w' Hw [H1 H2]. split; intros i Hi; destruct (same_world_views w w' i Hw) as [E1 E2];
    rewrite E1, E2; auto.
Qed.

Lemma clean_uncommitted w : clean w → uncommitted w.
Proof. intros Hc. split; intros i; [|intros _]; apply Hc. Qed.

Lemma all_committed_voted w : all_committed w → voted w.
Proof. intros [H1 H2]. split; [|done]. intros i Hi. right. by apply H1. Qed.

(** The broadcast of the first phase. *)
Lemma bc_prepare w w' answers :
  clean w → broadcast DTX_PROTOCOL_COMMAND_PREPARE g P answers w w' →
  uncommitted w' ∧
  (all_true answers = true → ∀ i, i ∈ P → is_prepared g (w' i)) ∧
  (any_lost answers = false → ∀ i, i ∈ P →
     seg_context (w' i) = DTX_CONTEXT_QE_PREPARED ∨ ¬ is_prepared g (w' i)).
Proof.
  intros Hc Hb. assert (Hin : ∀ i, i ∈ P → ∃ a, a ∈ answers ∧ step DTX_PROTOCOL_COMMAND_PREPARE g a (w i) (w' i))
    by (intros i; by apply broadcast_in). destruct Hb as [Hout _]. split_and!; [split|..].
  - intros i. destruct (decide (i ∈ P)) as [Hi|Hi]; [|rewrite Hout by done; apply Hc].
    destruct (Hin i Hi) as (a & _ & Hs). apply step_prepare in Hs as ([[_ Hcm]|Hsame] & _).
    + rewrite Hcm. apply Hc.
    + rewrite (same_seg_committed _ _ _ Hsame). apply Hc.
  - intros i Hi. rewrite Hout by done. apply Hc.
  - intros Hall i Hi. destruct (Hin i Hi) as (a & Ha & Hs). apply (all_true_elem _ _ Hall) in Ha as ->.
    apply step_prepare in Hs as (_ & Hok & _). destruct (Hok eq_refl) as [[Hp _] _]. apply Hp. by left.
  - intros Hlost i Hi. destruct (Hin i Hi) as (a & Ha & Hs). apply (any_lost_elem _ _ Hlost) in Ha.
    apply step_prepare in Hs as (_ & Hok & Herr). destruct a as [[]|]; [|right|done].
    + left. by apply Hok.
    + rewrite (same_seg_prepared _ _ _ (Herr eq_refl)). apply Hc.
Qed.

(** The broadcast of an abort, to any gang. *)
Lemma bc_abort cmd gang w w' answers :
  is_abort cmd = true → uncommitted w → broadcast cmd g gang answers w w' →
  uncommitted w' ∧
  (clean w → clean w') ∧
  (all_true answers = true → (∀ i, i ∈ P → i ∈ gang ∧ meets cmd g (w i)) → clean w').
Proof.
  intros Hcmd [Hc Hp] Hb.
  assert (Hin : ∀ i, i ∈ gang → ∃ a, a ∈ answers ∧ step cmd g a (w i) (w' i)) by (intros i; by apply broadcast_in).
  destruct Hb as [Hout _].
  assert (Hcm : ∀ i, ¬ is_committed g (w' i)).
  { intros i. destruct (decide (i ∈ gang)) as [Hi|Hi]; [|by rewrite Hout].
    destruct (Hin i Hi) as (a & _ & Hs). apply step_abort in Hs as [[(_ & _ & Hf)|Hsame] _]; [| |done].
    - rewrite Hf. intros [[? _]|?]; [done|by eapply Hc].
    - by rewrite (same_seg_committed _ _ _ Hsame). }
  assert (Hpm : ∀ i, ¬ is_prepared g (w i) → ¬ is_prepared g (w' i)).
  { intros i Hn. destruct (decide (i ∈ gang)) as [Hi|Hi]; [|by rewrite Hout].
    destruct (Hin i Hi) as (a & _ & Hs). apply step_abort in Hs as [[(_ & Hf & _)|Hsame] _]; [| |done].
    - rewrite Hf. naive_solver.
    - by rewrite (same_seg_prepared _ _ _ Hsame). }
  split_and!; [split; [done|auto]|intros Hclean i; split; [done|apply Hpm, Hclean]|].
  intros Hall Hmeets i. split; [done|]. destruct (decide (i ∈ P)) as [Hi|Hi]; [|auto].
  destruct (Hmeets i Hi) as [Hg Hm]. destruct (Hin i Hg) as (a & Ha & Hs). apply (all_true_elem _ _ Hall) in Ha as ->.
  apply step_abort in Hs as [_ Hok]; auto.
Qed.

(** The broadcast of a commit. *)
Lemma bc_commit cmd w w' answers :
  is_commit cmd = true → voted w → broadcast cmd g P answers w w' →
  voted w' ∧ (all_true answers = true → all_committed w').
Proof.
  intros Hcmd [Hv Hn] Hb.
  assert (Hin : ∀ i, i ∈ P → ∃ a, a ∈ answers ∧ step cmd g a (w i) (w' i)) by (intros i; by apply broadcast_in).
  destruct Hb as [Hout _].
  assert (Hstep : ∀ i, i ∈ P → is_prepared g (w' i) ∨ is_committed g (w' i)).
  { intros i Hi. destruct (Hin i Hi) as (a & _ & Hs).
    apply step_commit in Hs as [[(_ & Hf1 & Hf2)|Hsame] _]; [| |done].
    - right. apply Hf2. by left.
    - rewrite (same_seg_prepared _ _ _ Hsame), (same_seg_committed _ _ _ Hsame). auto. }
  assert (Hother : ∀ i, i ∉ P → ¬ is_committed g (w' i) ∧ ¬ is_prepared g (w' i)).
  { intros i Hi. rewrite Hout by done. auto. }
  split; [by split|]. intros Hall. split; [|done]. intros i Hi.
  destruct (Hin i Hi) as (a & Ha & Hs). apply (all_true_elem _ _ Hall) in Ha as ->.
  apply step_commit in Hs as [_ Hok]; [|done]. specialize (Hok eq_refl). destruct (Hstep i Hi); [done|by split].
Qed.

(** *** The dispatcher process in its phases *)

Definition is_gid q : Prop := isDtxContext q = true ∧ (q_distribTimeStamp q, q_gxid q) = g.

Lemma is_gid_form q : is_gid q → current_gid q = g.
Proof.
  intros [Hc Hg]. unfold current_gid, getDistributedTransactionTimestamp, getDistributedTransactionId. by rewrite Hc.
Qed.

Lemma same_control_fields q q' : same_control q q' →
  q_state q' = q_state q ∧ q_context q' = q_context q ∧ q_dtxSegments q' = q_dtxSegments q ∧
  q_dtxSegmentsMap q' = q_dtxSegmentsMap q ∧ q_gxid q' = q_gxid q ∧
  q_distribTimeStamp q' = q_distribTimeStamp q ∧ q_writerGangLost q' = q_writerGangLost q ∧ q_wal q' = q_wal q.
Proof. intros [E1 E2]. injection E1 as ? ? ? ?. injection E2 as ? ? ? ?. by split_and!. Qed.

Lemma same_control_gid q q' : same_control q q' → is_gid q → is_gid q'.
Proof.
  intros (_ & E2 & _ & _ & E5 & E6 & _)%same_control_fields. unfold is_gid, isDtxContext. by rewrite E2, E5, E6.
Qed.

Lemma same_control_refl q : same_control q q.
Proof. done. Qed.

Lemma same_control_trans q1 q2 q3 : same_control q1 q2 → same_control q2 q3 → same_control q1 q3.
Proof. intros [E1 E2] [E3 E4]. split; congruence. Qed.

Lemma same_control_wal q q' : same_control q q' → q_wal q' = q_wal q.
Proof. intros (_ & _ & _ & _ & _ & _ & _ & E)%same_control_fields. done. Qed.

Lemma same_control_segs q q' :
  same_control q q' → q_dtxSegments q' = q_dtxSegments q ∧ (recorded env q → recorded env q').
Proof. intros (_ & _ & E3 & E4 & _)%same_control_fields. unfold recorded. by rewrite E3, E4. Qed.

(** Ready for the second phase of a commit. *)
Definition deciding q : Prop :=
  is_gid q ∧ q_dtxSegments q = P ∧ recorded env q ∧ voted (q_segs q).

Lemma deciding_control q q' : same_control q q' → voted (q_segs q') → deciding q → deciding q'.
Proof.
  intros Hsc Hv (Hg & Hs & Hr & _). destruct (same_control_segs _ _ Hsc) as [E1 E2].
  split_and!; [by eapply same_control_gid|congruence|auto|done].
Qed.

(** One round of the second phase; errors are caught. *)
Lemma wp_commit_round cmd q :
  is_commit cmd = true → deciding q →
  wp (pg_try (currentDtxDispatchProtocolCommand env cmd true) (ret false)) (λ o q',
    ∃ b : bool, o = Ret b ∧ same_control q q' ∧ voted (q_segs q') ∧ q_broadcasts q' = S (q_broadcasts q) ∧
      (b = true → all_committed (q_segs q'))) q.
Proof.
  intros Hcmd (Hg & Hs & Hr & Hv). apply wp_try, wp_dispatch; try by rewrite Hs. 1: done.
  - intros q' Hsc _ Hw Hn. apply proc_ret. exists false. rewrite Hw. by split_and!.
  - intros q' answers Hsc Hn Hb _. rewrite Hs, (is_gid_form _ Hg) in Hb.
    destruct (bc_commit cmd _ _ _ Hcmd Hv Hb) as [Hv' Hall].
    destruct (all_true answers); [exists true|apply proc_ret; exists false]; split_and!; auto; done.
Qed.

Lemma wp_disconnect q (Q : outcome unit → qd T → Prop) :
  (∀ q', same_control q q' → q_badPrepareGangs q' = q_badPrepareGangs q → q_broadcasts q' = q_broadcasts q →
     same_world (q_segs q) (q_segs q') → Q (Ret tt) q') →
  wp DisconnectAndDestroyAllGangs Q q.
Proof. intros HQ. apply proc_bind, wp_get. apply wp_modify, HQ; try done. cbn [q_segs]. apply same_world_end. Qed.

Lemma retry_commit_spec rounds b q :
  deciding q → (b = true → all_committed (q_segs q)) →
  wp (retry_commit env rounds b) (λ o q',
    ∃ b' : bool, o = Ret b' ∧ same_control q q' ∧ voted (q_segs q') ∧
      (q_broadcasts q' ≤ q_broadcasts q + rounds)%nat ∧ (b' = true → all_committed (q_segs q'))) q.
Proof.
  revert b q. induction rounds as [|rounds IH]; intros b q Hd Hb; cbn [retry_commit].
  { apply proc_ret. exists b. split_and!; [done|done|apply Hd|lia|done]. }
  destruct b.
  { apply proc_ret. exists true. split_and!; [done|done|apply Hd|lia|done]. }
  apply proc_bind, wp_disconnect. intros q1 Hsc1 _ Hn1 Hw1. cbn [next]. apply proc_bind.
  assert (Hd1 : deciding q1). { apply (deciding_control q); [done| |done]. apply (voted_proper _ _ Hw1), Hd. }
  eapply proc_mono; [by apply wp_commit_round|]. intros o q2 (b & -> & Hsc2 & Hv2 & Hn2 & Hb2). cbn [next].
  eapply proc_mono; [apply IH; [by apply (deciding_control q1)|done]|].
  intros o q3 (b' & -> & Hsc3 & Hv3 & Hn3 & Hb3). exists b'. split_and!; try done; [|lia].
  by eapply same_control_trans; [|eapply same_control_trans].
Qed.

(** The transaction is decided: the record is in the log, and its end may be there too. *)
Definition decided q : Prop :=
  DistributedCommit g ∈ q_wal q ∧ voted (q_segs q) ∧ (DistributedForget g ∈ q_wal q → all_committed (q_segs q)).

Lemma wp_XLogInsert r q (Q : outcome unit → qd T → Prop) :
  (∀ q', q_wal q' = q_wal q ++ [r] →
     (q_state q', q_context q', q_dtxSegments q', q_dtxSegmentsMap q') =
       (q_state q, q_context q, q_dtxSegments q, q_dtxSegmentsMap q) →
     (q_gxid q', q_distribTimeStamp q', q_segs q', q_broadcasts q') =
       (q_gxid q, q_distribTimeStamp q, q_segs q, q_broadcasts q) → Q (Ret tt) q' ∧ Q PANIC q') →
  Q PANIC q → wp (XLogInsert env r) Q q.
Proof.
  intros HQ HP. unfold XLogInsert. apply proc_bind, wp_get. cbn [next].
  destruct (log_fates env (length (q_wal q))).
  - apply wp_modify. by apply HQ.
  - by apply wp_raise.
  - apply proc_bind, wp_modify. cbn [next]. apply wp_raise. by apply HQ.
Qed.

Lemma doNotifyingCommitPrepared_spec q :
  deciding q → DistributedCommit g ∈ q_wal q → DistributedForget g ∉ q_wal q →
  wp (doNotifyingCommitPrepared env) (λ o q',
    (q_broadcasts q' ≤ S (q_broadcasts q) + Z.to_nat (dtx_phase2_retry_count env))%nat ∧
    match o with
    | Ret _ => DistributedCommit g ∈ q_wal q' ∧ DistributedForget g ∈ q_wal q' ∧ all_committed (q_segs q')
    | PANIC => decided q'
    | _ => False
    end) q.
Proof.
  intros Hd Hc Hf. unfold doNotifyingCommitPrepared. apply proc_bind, wp_modify. cbn [next].
  apply proc_bind. eapply proc_mono; [by apply wp_commit_round|].
  cbv beta. intros o q1 (b & -> & Hsc1 & Hv1 & Hn1 & Hb1). cbn [next q_broadcasts] in *. apply proc_bind.
  assert (Hd1 : deciding q1) by by eapply deciding_control.
  assert (Hwal1 : q_wal q1 = q_wal q) by by apply same_control_wal in Hsc1.
  assert (Hmid : wp (if negb b then setCurrentDtxState DTX_STATE_RETRY_COMMIT_PREPARED;;
      setDistributedTransactionContext DTX_CONTEXT_QD_RETRY_PHASE_2 else ret tt) (λ o q2, o = Ret tt ∧ deciding q2 ∧
      q_wal q2 = q_wal q ∧ q_broadcasts q2 = q_broadcasts q1 ∧ (b = true → all_committed (q_segs q2))) q1).
  { destruct b; cbn [negb]; [by apply proc_ret; split_and!; auto|]. apply proc_bind, wp_modify. cbn [next]. apply wp_modify.
    destruct Hd1 as ([_ Hg1] & H2 & H3 & H4). by split_and!. }
  eapply proc_mono; [exact Hmid|]. intros o q2 (-> & Hd2 & Hwal2 & Hn2 & Hb2). cbn [next]. apply proc_bind.
  eapply proc_mono; [by apply retry_commit_spec|]. intros o q3 (b' & -> & Hsc3 & Hv3 & Hn3 & Hb3). cbn [next].
  assert (Hwal3 : q_wal q3 = q_wal q) by by rewrite (same_control_wal _ _ Hsc3).
  destruct b'; cbn [negb].
  - specialize (Hb3 eq_refl). unfold doInsertForgetCommitted. apply proc_bind, wp_modify. cbn [next].
    apply proc_bind, wp_get. cbn [next]. apply proc_bind.
    match goal with |- wp (XLogInsert _ (DistributedForget ?x)) _ _ => assert (Hx : x = g) end.
    { apply is_gid_form. destruct Hd2 as (Hg2 & _). by apply (same_control_gid _ _ Hsc3) in Hg2. }
    rewrite Hx. apply wp_XLogInsert.
    + intros q4 Hw4 _ E4. cbn [q_wal q_segs q_broadcasts] in *. assert (Es : q_segs q4 = q_segs q3) by congruence.
      assert (En : q_broadcasts q4 = q_broadcasts q3) by congruence.
      assert (Hrec : DistributedCommit g ∈ q_wal q4) by (rewrite Hw4, Hwal3; set_solver).
      assert (Hfor : DistributedForget g ∈ q_wal q4) by (rewrite Hw4; set_solver).
      cbn [next]. split.
      * apply proc_bind, wp_modify. cbn [next]. apply wp_modify. cbn [q_wal q_segs q_broadcasts]. rewrite Es.
        split_and!; try done. lia.
      * split; [lia|]. split_and!; [done|by rewrite Es|by rewrite Es].
    + cbn [next q_broadcasts q_wal q_segs]. split; [lia|]. unfold decided. cbn [q_wal q_segs]. rewrite Hwal3.
      split_and!; try done.
  - apply wp_raise. split; [lia|]. unfold decided. rewrite Hwal3. by split_and!.
Qed.

(** *** Rolling back *)

Lemma components_nodup : NoDup (cdbcomponent_getCdbComponentsList env).
Proof. unfold cdbcomponent_getCdbComponentsList. apply NoDup_fmap_2; [apply _|]. apply NoDup_seq. Qed.

Lemma components_nonempty : cdbcomponent_getCdbComponentsList env ≠ [].
Proof.
  destruct P as [|i P'] eqn:HP; [done|]. intros He. pose proof (P_known i ltac:(by left)) as Hi. rewrite He in Hi.
  by apply not_elem_of_nil in Hi.
Qed.

Lemma retry_abort_spec rounds b q :
  is_gid q → uncommitted (q_segs q) → (b = true → clean (q_segs q)) →
  wp (retry_abort env rounds b) (λ o q',
    ∃ b' : bool, o = Ret b' ∧ uncommitted (q_segs q') ∧ q_wal q' = q_wal q ∧
      (q_broadcasts q' ≤ q_broadcasts q + rounds)%nat ∧ (b' = true → clean (q_segs q'))) q.
Proof.
  revert b q. induction rounds as [|rounds IH]; intros b q Hg Hu Hb; cbn [retry_abort].
  { apply proc_ret. exists b. split_and!; [done|done|done|lia|done]. }
  destruct b.
  { apply proc_ret. exists true. split_and!; [done|done|done|lia|done]. }
  apply proc_bind, wp_disconnect. intros q1 Hsc1 _ Hn1 Hw1. cbn [next].
  apply (same_control_gid _ _ Hsc1) in Hg. pose proof (same_control_wal _ _ Hsc1) as Hwal1.
  apply (uncommitted_proper _ _ Hw1) in Hu. apply proc_bind, wp_try, proc_bind, wp_get. cbn [next].
  apply proc_bind, wp_modify. cbn [next].
  assert (Hnext : ∀ (b : bool) q2, is_gid q2 → q_wal q2 = q_wal q1 → q_broadcasts q2 = S (q_broadcasts q1) →
    uncommitted (q_segs q2) → (b = true → clean (q_segs q2)) →
    wp (retry_abort env rounds b) (λ o q', ∃ b' : bool, o = Ret b' ∧ uncommitted (q_segs q') ∧ q_wal q' = q_wal q ∧
      (q_broadcasts q' ≤ q_broadcasts q + S rounds)%nat ∧ (b' = true → clean (q_segs q'))) q2).
  { intros b q2 Hg2 Hw2 Hn2 Hu2 Hb2. eapply proc_mono; [by apply IH|].
    intros o q3 (b' & -> & Hu3 & Hw3 & Hn3 & Hb3). exists b'. split_and!; [done|done|congruence|lia|done]. }
  apply wp_dispatch.
  - left. cbn [q_dtxSegments]. unfold cdbcomponent_getCdbComponentsList, getgpsegmentCount.
    rewrite length_fmap, length_seq. done.
  - apply components_nodup.
  - apply components_nonempty.
  - intros q2 Hsc2 _ Hw2 Hn2. apply proc_ret. cbn [next]. apply Hnext; try done; [|by apply same_control_wal in Hsc2|].
    + by apply (same_control_gid _ _ Hsc2).
    + by rewrite Hw2.
  - intros q2 answers Hsc2 Hn2 Hbc _. cbn [q_dtxSegments q_segs] in Hbc.
    match type of Hbc with broadcast _ ?x _ _ _ _ => assert (Hx : x = g) by by apply is_gid_form end.
    rewrite Hx in Hbc. apply bc_abort in Hbc as (Hu2 & _ & Hc2); [|done|done].
    assert (Hg2 : is_gid q2) by by apply (same_control_gid _ _ Hsc2).
    pose proof (same_control_wal _ _ Hsc2) as Hwal2.
    destruct (all_true answers); [cbn [next]|apply proc_ret; cbn [next]]; apply Hnext; try done.
    intros _. apply Hc2; [done|]. intros i Hi. split; [by apply P_known|exact I].
Qed.

Lemma retryAbortPrepared_spec q :
  is_gid q → uncommitted (q_segs q) →
  wp (retryAbortPrepared env) (λ o q',
    q_wal q' = q_wal q ∧
    (q_broadcasts q' ≤ q_broadcasts q + Z.to_nat (dtx_phase2_retry_count env))%nat ∧
    match o with Ret _ => clean (q_segs q') | PANIC => uncommitted (q_segs q') | _ => False end) q.
Proof.
  intros Hg Hu. unfold retryAbortPrepared. apply proc_bind. eapply proc_mono; [by apply retry_abort_spec|].
  intros o q' (b & -> & Hu' & Hw & Hn & Hb). cbn [next]. destruct b; cbn [negb]; [apply proc_ret|apply wp_raise]; auto.
Qed.

(** A transaction that has to be rolled back, by the state of the process. *)
Definition failed q : Prop :=
  is_gid q ∧ q_context q = DTX_CONTEXT_QD_DISTRIBUTED_CAPABLE ∧ q_dtxSegments q = P ∧ recorded env q ∧
  uncommitted (q_segs q) ∧
  match q_state q with
  | DTX_STATE_ACTIVE_DISTRIBUTED | DTX_STATE_NOTIFYING_ABORT_NO_PREPARED => clean (q_segs q)
  | DTX_STATE_PREPARING | DTX_STATE_NOTIFYING_ABORT_SOME_PREPARED =>
      q_badPrepareGangs q = false → ∀ i, i ∈ P →
        seg_context (q_segs q i) = DTX_CONTEXT_QE_PREPARED ∨ ¬ is_prepared g (q_segs q i)
  | DTX_STATE_PREPARED | DTX_STATE_NOTIFYING_ABORT_PREPARED => True
  | _ => False
  end.

(** The end of a rollback. *)
Definition rolled_back q (o : outcome unit) (q' : qd T) : Prop :=
  q_wal q' = q_wal q ∧
  (q_broadcasts q' ≤ S (q_broadcasts q) + Z.to_nat (dtx_phase2_retry_count env))%nat ∧
  match o with
  | Ret _ => clean (q_segs q')
  | ERROR => failed q' ∧ q_state q' = DTX_STATE_NOTIFYING_ABORT_NO_PREPARED ∧ q_broadcasts q' = S (q_broadcasts q)
  | FATAL | PANIC => uncommitted (q_segs q')
  end.

Lemma doNotifyingAbort_no_prepared q :
  failed q → q_state q = DTX_STATE_NOTIFYING_ABORT_NO_PREPARED → wp (doNotifyingAbort env) (rolled_back q) q.
Proof.
  intros (Hg & Hctx & Hs & Hr & Hu & Hst) Est. rewrite Est in Hst. unfold doNotifyingAbort.
  apply proc_bind, wp_get. cbn [next]. rewrite Est, bool_decide_eq_true_2 by done.
  destruct (negb (q_writerGangLost q) && _); [|apply proc_ret; split_and!; (done || lia)].
  apply proc_bind, wp_dispatch; try by rewrite Hs. 1: done.
  - intros q1 Hsc _ Hw Hn. cbn [next]. pose proof (same_control_fields _ _ Hsc) as (E1 & E2 & E3 & _ & _ & _ & _ & E8).
    split_and!; [done|lia|split_and!|congruence|done].
    + by apply (same_control_gid _ _ Hsc).
    + congruence.
    + congruence.
    + by apply (same_control_segs _ _ Hsc).
    + by rewrite Hw.
    + by rewrite E1, Est, Hw.
  - intros q1 answers Hsc Hn Hbc _. rewrite Hs, (is_gid_form _ Hg) in Hbc.
    apply bc_abort in Hbc as (_ & Hc & _); [|done|done]. specialize (Hc Hst).
    pose proof (same_control_wal _ _ Hsc) as Hwal. destruct (all_true answers); cbn [next negb].
    + apply proc_ret. split_and!; [done|lia|done].
    + apply wp_disconnect. intros q2 Hsc2 _ Hn2 Hw2. pose proof (same_control_wal _ _ Hsc2) as Hwal2.
      split_and!; [congruence|lia|]. by apply (clean_proper _ _ Hw2).
Qed.

Lemma doNotifyingAbort_prepared q :
  failed q → q_badPrepareGangs q = false →
  q_state q = DTX_STATE_NOTIFYING_ABORT_SOME_PREPARED ∨ q_state q = DTX_STATE_NOTIFYING_ABORT_PREPARED →
  wp (doNotifyingAbort env) (rolled_back q) q.
Proof.
  intros (Hg & Hctx & Hs & Hr & Hu & Hst) Hbad Est. unfold doNotifyingAbort. apply proc_bind, wp_get. cbn [next].
  rewrite bool_decide_eq_false_2 by (destruct Est; congruence).
  set (cmd := if bool_decide (q_state q = DTX_STATE_NOTIFYING_ABORT_SOME_PREPARED) then _ else _).
  assert (Hcmd : is_abort cmd = true) by (unfold cmd; by destruct (bool_decide _)).
  assert (Hmeets : ∀ i, i ∈ P → meets cmd g (q_segs q i)).
  { intros i Hi. unfold cmd. case_bool_decide as E; [|done]. rewrite E in Hst. by apply Hst. }
  assert (Hretry : ∀ q1, is_gid q1 → q_wal q1 = q_wal q → q_broadcasts q1 = S (q_broadcasts q) →
    uncommitted (q_segs q1) →
    wp (setCurrentDtxState DTX_STATE_RETRY_ABORT_PREPARED;;
        setDistributedTransactionContext DTX_CONTEXT_QD_RETRY_PHASE_2;; retryAbortPrepared env) (rolled_back q) q1).
  { intros q1 [_ Hg1] Hw1 Hn1 Hu1. apply proc_bind, wp_modify. cbn [next]. apply proc_bind, wp_modify. cbn [next].
    eapply proc_mono; [by apply retryAbortPrepared_spec|]. intros o q2 (Hw2 & Hn2 & Ho). cbn [q_wal q_broadcasts] in *.
    split_and!; [congruence|lia|]. by destruct o. }
  apply proc_bind, wp_try, wp_dispatch; try by rewrite Hs. 1: done.
  - intros q1 Hsc _ Hw Hn. apply proc_ret. cbn [next negb].
    apply Hretry; [by apply (same_control_gid _ _ Hsc)|by apply same_control_wal in Hsc|done|by rewrite Hw].
  - intros q1 answers Hsc Hn Hbc _. rewrite Hs, (is_gid_form _ Hg) in Hbc.
    apply bc_abort in Hbc as (Hu1 & _ & Hc); [|done|done].
    pose proof (same_control_wal _ _ Hsc) as Hwal. destruct (all_true answers); [|apply proc_ret]; cbn [next negb].
    + apply proc_ret. split_and!; [done|lia|]. apply Hc; [done|]. auto.
    + apply Hretry; try done. by apply (same_control_gid _ _ Hsc).
Qed.

Lemma clear_spec q0 q : rolled_back q0 (Ret tt) q →
  wp clearAndResetGxact (λ o q', o = Ret tt ∧ rolled_back q0 (Ret tt) q' ∧ q_state q' = DTX_STATE_NONE) q.
Proof. intros Hr. apply proc_bind, wp_modify. cbn [next]. apply proc_bind, wp_modify. by apply wp_modify. Qed.

(** Behind a rollback that returns nothing is active. *)
Definition rolled_back_done q (o : outcome unit) (q' : qd T) : Prop :=
  rolled_back q o q' ∧ (o = Ret tt → q_state q' = DTX_STATE_NONE).

Lemma then_clear q0 m q :
  wp m (rolled_back q0) q → wp (bind m (λ _, clearAndResetGxact)) (rolled_back_done q0) q.
Proof.
  intros Hm. apply proc_bind. eapply proc_mono; [exact Hm|]. intros o q' Hr.
  destruct o as [[]| | |]; cbn [next]; [|by split..].
  eapply proc_mono; [by apply clear_spec|]. intros o q'' (-> & Hr' & Hst). by split.
Qed.

Lemma rollback_notify_spec q :
  failed q → (q_state q = DTX_STATE_NOTIFYING_ABORT_NO_PREPARED ∨
    q_badPrepareGangs q = false ∧ (q_state q = DTX_STATE_NOTIFYING_ABORT_SOME_PREPARED ∨
                                   q_state q = DTX_STATE_NOTIFYING_ABORT_PREPARED)) →
  wp (rollback_notify env) (rolled_back_done q) q.
Proof.
  intros Hf Hst. unfold rollback_notify. apply proc_bind, wp_get. cbn [next].
  destruct (proc_exit_inprogress env).
  - destruct (bool_decide (q_state q = DTX_STATE_NOTIFYING_ABORT_SOME_PREPARED) || _) eqn:E.
    + apply wp_raise. split; [|done]. split_and!; [done|lia|]. apply Hf.
    + apply then_clear. apply orb_false_iff in E as [E1%bool_decide_eq_false E2%bool_decide_eq_false].
      destruct Hst as [Hst|[_ [?|?]]]; [|done|done]. destruct Hf as (_ & _ & _ & _ & _ & Hc). rewrite Hst in Hc.
      apply wp_disconnect. intros q1 Hsc1 _ Hn1 Hw1. pose proof (same_control_wal _ _ Hsc1) as Hwal1.
      split_and!; [done|lia|]. by apply (clean_proper _ _ Hw1).
  - apply then_clear. destruct Hst as [Hst|[Hb Hst]];
      [by apply doNotifyingAbort_no_prepared|by apply doNotifyingAbort_prepared].
Qed.

Lemma rollback_spec q :
  failed q → (q_state q = DTX_STATE_PREPARED → q_badPrepareGangs q = false) →
  q_state q = DTX_STATE_ACTIVE_DISTRIBUTED ∨ q_state q = DTX_STATE_PREPARING ∨ q_state q = DTX_STATE_PREPARED ∨
    q_state q = DTX_STATE_NOTIFYING_ABORT_NO_PREPARED →
  wp (rollbackDtxTransaction env) (λ o q', rolled_back_done q o q' ∧
    (q_state q = DTX_STATE_NOTIFYING_ABORT_NO_PREPARED → o = Ret tt ∧ q_broadcasts q' = q_broadcasts q)) q.
Proof.
  intros Hf Hprep Hst. pose proof Hf as (Hg & Hctx & Hs & Hr & Hu & Hw). unfold rollbackDtxTransaction.
  apply proc_bind, wp_get. cbn [next]. rewrite bool_decide_eq_false_2 by auto.
  unfold isCurrentDtxActivated. rewrite bool_decide_eq_true_2 by (destruct Hst as [E|[E|[E|E]]]; by rewrite E). cbn [negb].
  assert (Hgo : ∀ st, failed (setCurrentDtxState (T := T) st q).2 → q_state q ≠ DTX_STATE_NOTIFYING_ABORT_NO_PREPARED →
    (st = DTX_STATE_NOTIFYING_ABORT_NO_PREPARED ∨ q_badPrepareGangs q = false ∧
      (st = DTX_STATE_NOTIFYING_ABORT_SOME_PREPARED ∨ st = DTX_STATE_NOTIFYING_ABORT_PREPARED)) →
    wp (setCurrentDtxState st;; rollback_notify env) (rolled_back_done q) q).
  { intros st Hf' Hne Hcase. apply proc_bind, wp_modify. cbn [next].
    eapply proc_mono; [by apply rollback_notify_spec|]. intros o q' Hd. exact Hd. }
  destruct Hst as [E|[E|[E|E]]]; rewrite E in Hw |- *; cbv match.
  - eapply proc_mono; [apply Hgo; [|by rewrite E|by left]|intros o q' Hd; split; [exact Hd|done]]. by split_and!.
  - destruct (q_badPrepareGangs q) eqn:Hbad.
    + apply proc_bind, wp_modify. cbn [next].
      eapply proc_mono; [apply then_clear with (q0 := q)|intros o q' Hd; split; [exact Hd|done]].
      eapply proc_mono; [by apply retryAbortPrepared_spec|]. intros o q1 (Hw1 & Hn1 & Ho). cbn [q_wal q_broadcasts] in *.
      split_and!; [done|lia|]. by destruct o.
    + eapply proc_mono; [apply Hgo; [|by rewrite E|by right; split; [|left]]|intros o q' Hd; split; [exact Hd|done]].
      split_and!; try done. intros _. by apply Hw.
  - eapply proc_mono; [apply Hgo; [|by rewrite E|right; split; [by apply Hprep|by right]]|
      intros o q' Hd; split; [exact Hd|done]]. by split_and!.
  - apply proc_bind, wp_disconnect. intros q1 Hsc1 _ Hn1 Hw1. cbn [next]. pose proof (same_control_wal _ _ Hsc1) as Hwal1.
    apply (clean_proper _ _ Hw1) in Hw. apply proc_bind, wp_modify. cbn [next]. apply proc_bind, wp_modify. apply wp_modify.
    split; [split; [|done]|done]. split_and!; [done|cbn [q_broadcasts]; lia|done].
Qed.

(** *** The end of a transaction *)

Definition retries : nat := Z.to_nat (dtx_phase2_retry_count env).

Lemma abort_transaction_spec attempts q :
  (2 ≤ attempts)%nat → failed q → (q_state q = DTX_STATE_PREPARED → q_badPrepareGangs q = false) →
  q_state q = DTX_STATE_ACTIVE_DISTRIBUTED ∨ q_state q = DTX_STATE_PREPARING ∨ q_state q = DTX_STATE_PREPARED →
  wp (abort_transaction env attempts) (λ o q',
    q_wal q' = q_wal q ∧ (q_broadcasts q' ≤ S (q_broadcasts q) + retries)%nat ∧
    match o with Ret _ => clean (q_segs q') | ERROR => False | FATAL | PANIC => uncommitted (q_segs q') end) q.
Proof.
  intros Ha Hf Hprep Hst. destruct attempts as [|[|attempts]]; [lia..|]. cbn [abort_transaction].
  assert (Hfinish : ∀ q1 (Q : outcome unit → qd T → Prop), q_state q1 = DTX_STATE_NONE →
    (∀ q2, q_wal q2 = q_wal q1 → q_broadcasts q2 = q_broadcasts q1 → q_segs q2 = q_segs q1 → Q (Ret tt) q2) →
    wp finishDistributedTransactionContext Q q1).
  { intros q1 Q Hnone HQ. apply proc_bind, wp_get. cbn [next]. unfold isCurrentDtxActivated.
    rewrite bool_decide_eq_false_2 by auto. apply wp_modify. by apply HQ. }
  apply wp_try, proc_bind. eapply proc_mono; [apply rollback_spec; [done|done|tauto]|].
  intros o q1 [[(Hw1 & Hn1 & Ho) Hst1] _]. destruct o as [[]| | |]; cbn [next].
  - apply Hfinish; [by apply Hst1|]. intros q2 E1 E2 E3. rewrite E1, E2, E3. by split_and!.
  - destruct Ho as (Hf1 & Est1 & En1). apply wp_try, proc_bind.
    eapply proc_mono; [apply rollback_spec; [done|congruence|tauto]|].
    intros o q2 [[(Hw2 & Hn2 & Ho2) Hst2] Hret]. destruct (Hret Est1) as [-> Hn2']. cbn [next].
    apply Hfinish; [by apply Hst2|]. intros q3 E1 E2 E3. rewrite E1, E2, E3. split_and!; [congruence|lia|done].
  - by split_and!.
  - by split_and!.
Qed.

(** A transaction with two phases, before its end. *)
Definition two_phase : Prop :=
  ExecutorDidWriteXLog env = true ∧ (markXidCommitted env = true ∨ (2 ≤ length P)%nat).

Definition starting q : Prop :=
  is_gid q ∧ q_context q = DTX_CONTEXT_QD_DISTRIBUTED_CAPABLE ∧ q_state q = DTX_STATE_ACTIVE_DISTRIBUTED ∧
  q_badPrepareGangs q = false ∧ q_dtxSegments q = P ∧ recorded env q ∧ clean (q_segs q) ∧
  DistributedCommit g ∉ q_wal q ∧ DistributedForget g ∉ q_wal q.

(** The first phase: all segments voted for the commit, or the transaction has to be rolled back. *)
Lemma prepareDtxTransaction_spec q :
  two_phase → starting q →
  wp (prepareDtxTransaction env) (λ o q',
    q_wal q' = q_wal q ∧ (q_broadcasts q' ≤ S (q_broadcasts q))%nat ∧ failed q' ∧
    match o with
    | Ret _ => q_state q' = DTX_STATE_PREPARED ∧ q_badPrepareGangs q' = false ∧ voted (q_segs q')
    | ERROR => q_state q' = DTX_STATE_ACTIVE_DISTRIBUTED ∨ q_state q' = DTX_STATE_PREPARING
    | _ => False
    end) q.
Proof.
  intros [Hx Hp] (Hg & Hctx & Hst & Hbad & Hs & Hr & Hc & _). unfold prepareDtxTransaction.
  apply proc_bind, wp_get. cbn [next]. rewrite bool_decide_eq_false_2 by auto. unfold isCurrentDtxActivated.
  rewrite Hst, bool_decide_eq_true_2, Hx by done. cbn [negb orb].
  assert (E : negb (markXidCommitted env) && Nat.ltb (length (q_dtxSegments q)) 2 = false).
  { rewrite Hs. destruct Hp as [->|Hp]; [done|]. apply andb_false_iff. right. by apply Nat.ltb_ge. }
  rewrite E. unfold doPrepareTransaction. pose proof (clean_uncommitted _ Hc) as Hu.
  apply proc_bind. destruct (query_cancelled env).
  { apply wp_raise. cbn [next]. split_and!; [done|lia|split_and!|by left]; try done. by rewrite Hst. }
  apply proc_ret. cbn [next]. apply proc_bind, wp_modify. cbn [next]. apply proc_bind, wp_dispatch; try by rewrite ?Hs. 1: done.
  - intros q1 Hsc Hb1 Hw1 Hn1. cbn [next]. pose proof (same_control_fields _ _ Hsc) as (E1 & E2 & E3 & _ & _ & _ & _ & E8).
    cbn [q_state q_context q_dtxSegments q_wal q_segs q_broadcasts] in *.
    split_and!; [done|lia|split_and!|by right].
    + by apply (same_control_gid _ _ Hsc).
    + congruence.
    + congruence.
    + by apply (same_control_segs _ _ Hsc).
    + by rewrite Hw1.
    + rewrite E1, Hw1. intros _ i Hi. right. apply Hc.
  - intros q1 answers Hsc Hn1 Hbc Hb1. cbn [q_segs q_dtxSegments q_state q_badPrepareGangs] in *.
    match type of Hbc with broadcast _ ?x _ _ _ _ => assert (Hgx : x = g) by by apply is_gid_form end.
    rewrite Hgx, Hs in Hbc. apply bc_prepare in Hbc as (Hu1 & Hall & Hlost); [|done].
    rewrite Hbad, bool_decide_eq_true_2 in Hb1 by done. cbn [orb andb] in Hb1.
    pose proof (same_control_fields _ _ Hsc) as (E1 & E2 & E3 & _ & _ & _ & _ & E8).
    cbn [q_state q_context q_dtxSegments q_wal q_broadcasts] in *.
    assert (Hg1 : is_gid q1) by by apply (same_control_gid _ _ Hsc).
    assert (Hr1 : recorded env q1) by by apply (same_control_segs _ _ Hsc).
    assert (Hf1 : failed q1).
    { split_and!; [done|congruence|congruence|done|done|]. rewrite E1. intros Hb i Hi. apply Hlost; [congruence|done]. }
    destruct (all_true answers) eqn:Hat; cbn [next negb].
    + apply wp_modify. cbn [q_wal q_broadcasts q_state q_badPrepareGangs q_segs].
      split_and!; [done|lia|exact (conj Hg1 (conj (eq_trans E2 Hctx) (conj (eq_trans E3 Hs) (conj Hr1 (conj Hu1 I)))))|done| |split].
      * rewrite Hb1. apply not_true_iff_false. intros (a & Ha & Hn)%existsb_exists. apply list_elem_of_In in Ha.
        apply bool_decide_eq_true in Hn. apply (all_true_elem _ _ Hat) in Ha. congruence.
      * intros i Hi. left. by apply Hall.
      * intros i Hi. split; [apply Hu1|by apply Hu1].
    + split_and!; [done|lia|done|by right].
Qed.

(** The end of [CommitTransaction]. *)
Definition commit_end q (o : outcome unit) (q' : qd T) : Prop :=
  (q_broadcasts q' ≤ 2 + q_broadcasts q + retries)%nat ∧
  match o with
  | Ret _ => DistributedCommit g ∈ q_wal q' ∧ DistributedForget g ∈ q_wal q' ∧ all_committed (q_segs q')
  | ERROR => q_wal q' = q_wal q ∧ (q_broadcasts q' ≤ S (q_broadcasts q))%nat ∧ failed q' ∧
      (q_state q' = DTX_STATE_PREPARED → q_badPrepareGangs q' = false) ∧
      (q_state q' = DTX_STATE_ACTIVE_DISTRIBUTED ∨ q_state q' = DTX_STATE_PREPARING ∨
       q_state q' = DTX_STATE_PREPARED)
  | FATAL => False
  | PANIC => decided q' ∨ (q_wal q' = q_wal q ∧ uncommitted (q_segs q'))
  end.

(** Behind the commit record. *)
Lemma notify_end q0 q :
  deciding q → q_context q = DTX_CONTEXT_QD_DISTRIBUTED_CAPABLE → q_state q = DTX_STATE_INSERTED_COMMITTED →
  DistributedCommit g ∈ q_wal q → DistributedForget g ∉ q_wal q → (q_broadcasts q ≤ S (q_broadcasts q0))%nat →
  wp (q <- get;;
      (if notifyCommittedDtxTransactionIsNeeded q
       then notifyCommittedDtxTransaction env;; ClearTransactionState else ret tt);;
      finishDistributedTransactionContext) (commit_end q0) q.
Proof.
  intros Hd Hctx Hst Hc Hf Hn. apply proc_bind, wp_get. cbn [next].
  unfold notifyCommittedDtxTransactionIsNeeded, isCurrentDtxActivated.
  rewrite Hctx, Hst, !bool_decide_eq_true_2 by done. cbn [andb]. apply proc_bind, proc_bind.
  unfold notifyCommittedDtxTransaction. apply proc_bind, wp_get. cbn [next]. rewrite Hst.
  eapply proc_mono; [by apply doNotifyingCommitPrepared_spec|].
  intros o q1 [Hn1 Ho]. fold retries in Hn1. destruct o as [[]| | |]; cbn [next]; [|done|done|].
  - apply proc_bind, wp_modify. cbn [next]. apply proc_bind, wp_modify. cbn [next]. apply wp_modify. cbn [next].
    apply proc_bind, wp_get. cbn [next]. unfold isCurrentDtxActivated. cbn [q_state].
    rewrite bool_decide_eq_false_2 by auto. apply wp_modify. split; [cbn [q_broadcasts]; lia|done].
  - split; [lia|by left].
Qed.

Lemma CommitTransaction_spec q :
  two_phase → starting q → wp (CommitTransaction env) (commit_end q) q.
Proof.
  intros H2 Hstart. unfold CommitTransaction. apply proc_bind.
  eapply proc_mono; [by apply prepareDtxTransaction_spec|].
  intros o q1 (Hw1 & Hn1 & Hf1 & Ho). destruct o as [[]| | |]; cbn [next]; [|split; [lia|]|done|done].
  2:{ split_and!; [done|done|done| |tauto]. intros E. destruct Ho as [Ho|Ho]; congruence. }
  destruct Ho as (Est & Hb & Hv). destruct Hstart as (_ & _ & _ & _ & _ & _ & _ & Hnc & Hnf).
  destruct Hf1 as (Hg1 & Hctx1 & Hs1 & Hr1 & Hu1 & Hst1).
  apply proc_bind, wp_get. cbn [next]. unfold isPreparedDtxTransaction. rewrite Est, bool_decide_eq_true_2 by done.
  apply proc_bind. destruct (abort_after_prepared env); cbn [andb].
  { apply wp_raise. cbn [next]. split; [lia|]. split_and!; [done|done|by split_and!|done|tauto]. }
  apply proc_ret. cbn [next]. apply proc_bind. unfold RecordTransactionCommit. apply proc_bind, wp_get. cbn [next].
  unfold isPreparedDtxTransaction. rewrite Est, bool_decide_eq_true_2 by done. rewrite (is_gid_form _ Hg1).
  apply proc_bind, wp_modify. cbn [next]. apply proc_bind, wp_XLogInsert.
  - intros q2 Hw2 E2 E2'. cbn [q_wal q_state q_context q_dtxSegments q_dtxSegmentsMap q_gxid q_distribTimeStamp
      q_segs q_broadcasts] in *.
    assert (Hd2 : deciding q2 ∧ q_context q2 = DTX_CONTEXT_QD_DISTRIBUTED_CAPABLE ∧ q_broadcasts q2 = q_broadcasts q1).
    { injection E2 as ? Ectx Esegs Emap. injection E2' as Egx Ets Ew En. split_and!; try congruence.
      split_and!; [|congruence| |by rewrite Ew].
      - destruct Hg1 as [Hc1 Hg1]. unfold is_gid, isDtxContext in *. by rewrite Ectx, Ets, Egx.
      - unfold recorded in *. by rewrite Esegs, Emap. }
    destruct Hd2 as (Hd2 & Hctx2 & Hn2).
    assert (Hrec : DistributedCommit g ∈ q_wal q2) by (rewrite Hw2; set_solver).
    assert (Hnf2 : DistributedForget g ∉ q_wal q2) by (rewrite Hw2, Hw1; set_solver).
    split; cbn [next].
    + apply proc_bind, wp_modify. cbn [next]. apply wp_modify. cbn [next]. by apply notify_end; try (cbn [q_broadcasts]; lia).
    + split; [lia|]. left. split_and!; [done|apply Hd2|done].
  - cbn [next]. split; [cbn [q_broadcasts]; lia|]. right. by split.
Qed.
End Phases.
