(* ===== verification/DtmAtomic.v ===== *)
(** * Distributed transactions: atomicity of the two-phase commit

    What the end of a transaction promises, whatever the network, the segments and the disk do; a
    simulated local transaction manager shows that the laws of the interface can hold. *)
From stdpp Require Import functions.
From S2P Require Import Prelude Proc Bitmapset DistributedSnapshot DtxContextInfo Dtm DtmFacts.

(** ** A simulated local transaction manager *)

Record sim := mkSim { sim_prepared : list gid; sim_committed : list gid; sim_mark : block_mark }.

Definition sim_set_mark (m : block_mark) (t : sim) : sim := mkSim (sim_prepared t) (sim_committed t) m.

Definition sim_finish (g : gid) (isCommit raiseErrorIfNotFound : bool) (t : sim) : bool * sim :=
  if bool_decide (g ∈ sim_prepared t)
  then (true, mkSim (filter (.≠ g) (sim_prepared t))
                (if isCommit then g :: sim_committed t else sim_committed t) (sim_mark t))
  else (negb raiseErrorIfNotFound, t).

#[global] Instance sim_tm : LocalTM sim := {
  StartTransactionCommand t := (true, sim_set_mark BlockNone t);
  PrepareTransactionBlock g t := (Some true, sim_set_mark (BlockPrepare g) t);
  EndTransactionBlock t := (Some true, sim_set_mark BlockEnd t);
  CommitTransactionCommand t :=
    (true, match sim_mark t with
           | BlockPrepare g => mkSim (g :: sim_prepared t) (sim_committed t) BlockNone
           | _ => sim_set_mark BlockNone t
           end);
  FinishPreparedTransaction := sim_finish;
  AbortOutOfAnyTransaction := sim_set_mark BlockNone;
  BeginInternalSubTransaction t := (true, t);
  ReleaseCurrentSubTransaction t := (true, t);
  RollbackAndReleaseCurrentSubTransaction t := (true, t);
  GetCurrentTransactionNestLevel t := 1;
  BeginTransactionBlock t := (true, t);
  IsTransactionOrTransactionBlock t := false;
  process t := mkProcess GP_ROLE_EXECUTE false true true;
  prepared := sim_prepared;
  committed t g := bool_decide (g ∈ sim_committed t);
  mark := sim_mark;
}.

#[global] Instance sim_laws : LocalTMLaws sim.
Proof.
  split; cbn; try (intros; simplify_eq; by repeat split).
  - intros g t b t' Hm E. rewrite Hm in E. simplify_eq. cbn. split; [set_solver|done].
  - intros t b t' Hm E. rewrite Hm in E. by simplify_eq.
  - unfold sim_finish. intros g c r t b t' E. case_bool_decide as Hg; simplify_eq; cbn; [|done].
    split_and!; [done|intros h; rewrite list_elem_of_filter; naive_solver|].
    intros h. destruct c; cbn [andb orb]; [|done].
    rewrite (bool_decide_ext _ (h = g ∨ h ∈ sim_committed t)) by set_solver. apply bool_decide_or.
  - unfold sim_finish. intros g c t b t' E Hg. rewrite bool_decide_eq_false_2 in E by done. by simplify_eq.
Qed.

(** ** The end of a transaction *)

Lemma end_transaction_atomic {T : Type} `{LocalTMLaws T} env (g : gid) (P : list Z) attempts (q : qd T) :
  NoDup P → P ≠ [] → (∀ i, i ∈ P → i ∈ cdbcomponent_getCdbComponentsList env) → (2 ≤ attempts)%nat →
  two_phase env P → starting env g P q →
  let '(o, q') := end_transaction env attempts q in
  (q_broadcasts q' ≤ q_broadcasts q + 2 + Z.to_nat (dtx_phase2_retry_count env))%nat ∧
  match o with
  | Ret true => DistributedCommit g ∈ q_wal q' ∧ DistributedForget g ∈ q_wal q' ∧ all_committed g P (q_segs q')
  | Ret false => DistributedCommit g ∉ q_wal q' ∧ clean g (q_segs q')
  | ERROR => False
  | FATAL | PANIC => decided g P q' ∨ (DistributedCommit g ∉ q_wal q' ∧ uncommitted g P (q_segs q'))
  end.
Proof.
  intros Hnd Hne Hk Ha H2 Hs. unfold end_transaction.
  pose proof (CommitTransaction_spec env g P Hnd Hne Hk q H2 Hs) as Hc. unfold wp, commit_end, retries in Hc.
  destruct Hs as (_ & _ & _ & _ & _ & _ & _ & Hnc & _).
  destruct (CommitTransaction env q) as [[[]| | |] q1]; cbn [fst snd] in Hc.
  - destruct Hc as [Hn Hc]. split; [lia|done].
  - destruct Hc as (_ & Hw & Hn & Hf & Hprep & Hst).
    pose proof (abort_transaction_spec env g P Hnd Hne Hk attempts q1 Ha Hf Hprep Hst) as Hr.
    unfold wp, retries in Hr. unfold bind. destruct (abort_transaction env attempts q1) as [[[]| | |] q2];
      cbn [fst snd ret] in *; destruct Hr as (Hw2 & Hn2 & Ho); unfold ret; (split; [lia|]); rewrite ?Hw2, ?Hw; auto.
  - by destruct Hc.
  - destruct Hc as [Hn [Hd|[Hw Hu]]]; (split; [lia|]); [by left|right]. by rewrite Hw.
Qed.

(** C2: A transaction that needs two phases ends in agreement, whatever happens to its messages,
    its segments and its log records: a commit that returns has its commit and forget records
    logged and is committed on every participant; a rollback that returns has no commit record and
    left no participant committed or prepared; no error escapes; and where the process or the
    server ends on the way, either the commit is logged and every participant is prepared or
    committed (all committed, if the forget record is logged too), or it is not logged and no
    participant is committed.  The broadcasts on the way are bounded by the retries allowed. *)
Theorem dtx_two_phase_atomic {T : Type} `{LocalTMLaws T} env (g : gid) (P : list Z) attempts (q : qd T) :
  NoDup P → P ≠ [] → (∀ i, i ∈ P → i ∈ cdbcomponent_getCdbComponentsList env) → (2 ≤ attempts)%nat →
  two_phase env P → starting env g P q →
  let '(o, q') := end_transaction env attempts q in
  (q_broadcasts q' ≤ q_broadcasts q + 2 + Z.to_nat (dtx_phase2_retry_count env))%nat ∧
  match o with
  | Ret true => DistributedCommit g ∈ q_wal q' ∧ DistributedForget g ∈ q_wal q' ∧ all_committed g P (q_segs q')
  | Ret false => DistributedCommit g ∉ q_wal q' ∧ clean g (q_segs q')
  | ERROR => False
  | FATAL | PANIC => decided g P q' ∨ (DistributedCommit g ∉ q_wal q' ∧ uncommitted g P (q_segs q'))
  end.
Proof. apply end_transaction_atomic. Qed.

(** Two segments; the second answers the commit by a lost connection and is told again. *)
Definition sim_env : environment :=
  mkEnv (λ _, false) (λ n i, if Nat.eqb n 1 && (i =? 1) then AnswerLost else Answered) (λ _, Logged)
    2 10 true false false false false 77 5.

Definition sim_start : qd sim :=
  mkQd DTX_STATE_ACTIVE_DISTRIBUTED false false false false None [0; 1] 77 9 0 false 5
    DTX_CONTEXT_QD_DISTRIBUTED_CAPABLE 9 0 [] 0
    (λ _, mkSegment DTX_CONTEXT_QE_TWO_PHASE_IMPLICIT_WRITER (mkSim [] [] BlockNone)).

Lemma dtx_two_phase_atomic_witness :
  (end_transaction sim_env 2 sim_start).1 = Ret true ∧
  all_committed (77, 9) [0; 1] (q_segs (end_transaction sim_env 2 sim_start).2) ∧
  (q_broadcasts (end_transaction sim_env 2 sim_start).2 ≤ 12)%nat.
Proof.
  assert (E : (end_transaction sim_env 2 sim_start).1 = Ret true) by (vm_compute; reflexivity).
  split; [exact E|].
  pose proof (dtx_two_phase_atomic sim_env (77, 9) [0; 1] 2 sim_start) as Ht.
  destruct (end_transaction sim_env 2 sim_start) as [o q']. cbn [fst snd] in *. subst o.
  destruct Ht as (Hn & _ & _ & Hc).
  - apply (bool_decide_unpack _). vm_compute. exact I.
  - discriminate.
  - intros i Hi. exact Hi.
  - lia.
  - split; [reflexivity|right; cbn; lia].
  - split; [split; reflexivity|]. split_and!; try reflexivity.
    + left. vm_compute. discriminate.
    + intros i. split; intros Hx; [discriminate Hx|inversion Hx].
    + intros Hx. inversion Hx.
    + intros Hx. inversion Hx.
  - split; [exact Hc|exact Hn].
Defined.
