(* ===== verification/DtxRecovery.v ===== *)
(** * Distributed transactions: recovery after a crash
    ([cdb/cdbdtxrecovery.c], [getDtxCheckPointInfo] of [storage/ipc/procarray.c], the redo of
    distributed records in [access/transam/xact.c])

    The redo of the log collects the distributed transactions that are committed and not forgotten
    in an array of shared memory; a server in utility mode, which cannot reach the segments, saves
    the records in a file for later.  A background process then commits what is in the array on
    all segments, aborts whatever else is prepared there, and lets transactions start.

    The process has the state of a dispatcher without a transaction; array, file and checkpoint are
    around it.  A write to the file that fails leaves it as it was; the order in which a hash table
    is scanned is a parameter. *)
From stdpp Require Import functions.
From S2P Require Import Prelude Proc Bytes Bitmapset DistributedSnapshot DtxContextInfo Dtm.

Record TMGXACT_LOG := mkGxactLog { gl_gid : gid; gl_gxid : Z }.

#[global] Instance TMGXACT_LOG_eq_dec : EqDecision TMGXACT_LOG.
Proof. solve_decision. Defined.

(** The entry a transaction writes for itself. *)
Definition gxact_log (g : gid) : TMGXACT_LOG := mkGxactLog g g.2.

(** [TMGXACT_UTILITY_MODE_REDO]: whether it is a commit, and the entry. *)
Abbreviation utility_redo := (bool * TMGXACT_LOG)%type.

(** What happens to a read of the file. *)
Inductive read_fate := ReadRecord | ReadShort | ReadError.

Section Recovery.
Context {T : Type} `{LocalTM T}.

(** The recovery process, [shmCommittedGxactArray] up to [shmNumCommittedGxacts], the file of the
    utility mode, [shmDtmStarted], and the checkpoint: its entries and the number of log records
    before its redo pointer. *)
Record dtm := mkDtm {
  d_qd : qd T;
  d_committedGxacts : list TMGXACT_LOG;
  d_redoFile : option (list utility_redo);
  d_DtmStarted : bool;
  d_checkpoint : list TMGXACT_LOG;
  d_redo_from : nat;
}.

Record recovery_environment := mkRenv {
  r_env : environment;
  r_role : GpRoleValue;
  max_tm_gxacts : Z;
  open_fails : bool;
  unlink_fails : bool;
  write_fails : nat → bool;
  read_fates : nat → read_fate;
  hash_order : list gid → list gid;
}.
Context (r : recovery_environment).

Definition set_gxacts (l : list TMGXACT_LOG) : proc dtm unit := modify (λ d,
  mkDtm (d_qd d) l (d_redoFile d) (d_DtmStarted d) (d_checkpoint d) (d_redo_from d)).
Definition set_redoFile (f : option (list utility_redo)) : proc dtm unit := modify (λ d,
  mkDtm (d_qd d) (d_committedGxacts d) f (d_DtmStarted d) (d_checkpoint d) (d_redo_from d)).
Definition set_DtmStarted : proc dtm unit := modify (λ d,
  mkDtm (d_qd d) (d_committedGxacts d) (d_redoFile d) true (d_checkpoint d) (d_redo_from d)).

(** A step of the process itself. *)
Definition on_qd {A} (m : proc (qd T) A) : proc dtm A := λ d,
  let '(o, q) := m (d_qd d) in
  (o, mkDtm q (d_committedGxacts d) (d_redoFile d) (d_DtmStarted d) (d_checkpoint d) (d_redo_from d)).

(** ** The file of the utility mode *)

Definition UtilityModeFindOrCreateDtmRedoFile : proc dtm unit :=
  if bool_decide (r_role r ≠ GP_ROLE_UTILITY) then ret tt
  else if open_fails r then raise ERROR
  else d <- get;; set_redoFile (Some (default [] (d_redoFile d))).

Definition UtilityModeSaveRedo (committed : bool) (l : TMGXACT_LOG) : proc dtm unit :=
  d <- get;;
  match d_redoFile d with
  | None => raise ERROR
  | Some f => if write_fails r (length f) then raise ERROR else set_redoFile (Some (f ++ [(committed, l)]))
  end.

(** ** Redo *)

Fixpoint find_gid (g : gid) (l : list TMGXACT_LOG) (i : nat) : option nat :=
  match l with
  | [] => None
  | e :: l => if bool_decide (g = gl_gid e) then Some i else find_gid g l (S i)
  end.

Definition redoDistributedCommitRecord (l : TMGXACT_LOG) : proc dtm unit :=
  if TMGIDSIZE <=? zlen (gid_text (gl_gid l).1 (gl_gid l).2) then raise PANIC
  else if bool_decide (r_role r = GP_ROLE_UTILITY) then UtilityModeSaveRedo true l
  else
    d <- get;;
    match find_gid (gl_gid l) (d_committedGxacts d) 0 with
    | Some _ => ret tt
    | None =>
        if max_tm_gxacts r <=? Z.of_nat (length (d_committedGxacts d)) then raise FATAL
        else set_gxacts (d_committedGxacts d ++ [l])
    end.

(** The last entry takes the place of the one that is removed. *)
Definition remove_at (i : nat) (l : list TMGXACT_LOG) : list TMGXACT_LOG :=
  let n := (length l - 1)%nat in
  let l' := if Nat.eqb i n then l else match l !! n with Some e => <[i := e]> l | None => l end in
  take n l'.

Definition redoDistributedForgetCommitRecord (l : TMGXACT_LOG) : proc dtm unit :=
  if bool_decide (r_role r = GP_ROLE_UTILITY) then UtilityModeSaveRedo false l
  else
    d <- get;;
    match find_gid (gl_gid l) (d_committedGxacts d) 0 with
    | Some i => set_gxacts (remove_at i (d_committedGxacts d))
    | None => ret tt
    end.

Fixpoint redo_checkpoint_entries (ls : list TMGXACT_LOG) : proc dtm unit :=
  match ls with
  | [] => ret tt
  | l :: ls => redoDistributedCommitRecord l;; redo_checkpoint_entries ls
  end.

Definition redoDtxCheckPoint (committedGxactArray : list TMGXACT_LOG) : proc dtm unit :=
  redo_checkpoint_entries committedGxactArray.

(** The distributed part of the redo of a commit record and of a forget record. *)
Definition xact_redo_distributed_commit (l : TMGXACT_LOG) : proc dtm unit :=
  if negb (gl_gxid l =? (gl_gid l).2) then raise ERROR else redoDistributedCommitRecord l.

Definition xact_redo_distributed_forget (l : TMGXACT_LOG) : proc dtm unit :=
  redoDistributedForgetCommitRecord l.

Fixpoint redo_records (rs : list dtx_record) : proc dtm unit :=
  match rs with
  | [] => ret tt
  | DistributedCommit g :: rs => xact_redo_distributed_commit (gxact_log g);; redo_records rs
  | DistributedForget g :: rs => xact_redo_distributed_forget (gxact_log g);; redo_records rs
  end.

(** ** In-doubt transactions *)

Definition recovery_dispatch (cmd : DtxProtocolCommand) (g : gid) : proc dtm bool :=
  on_qd (doDispatchDtxProtocolCommand (r_env r) cmd g false false (cdbcomponent_getCdbComponentsList (r_env r))).

Definition doNotifyCommittedInDoubt (g : gid) : proc dtm unit :=
  succeeded <- recovery_dispatch DTX_PROTOCOL_COMMAND_RECOVERY_COMMIT_PREPARED g;;
  if negb succeeded then raise FATAL else ret tt.

Definition doAbortInDoubt (g : gid) : proc dtm unit :=
  succeeded <- recovery_dispatch DTX_PROTOCOL_COMMAND_RECOVERY_ABORT_PREPARED g;;
  if negb succeeded then raise FATAL else ret tt.

(** The query for the prepared transactions: the rows of each segment, or an error. *)
Fixpoint query_gang (n : nat) (gang : list Z) (segs : Z → segment T) : option (list (list gid)) :=
  match gang with
  | [] => Some []
  | i :: gang =>
      match fates (r_env r) n i, query_gang n gang segs with
      | Answered, Some rows => Some (prepared (seg_local (segs i)) :: rows)
      | _, _ => None
      end
  end.

Definition CdbDispatchCommand_prepared_xacts : proc (qd T) (list (list gid)) :=
  q <- get;;
  let n := q_broadcasts q in
  set_world (S n) (q_segs q);;
  if gang_fails (r_env r) n then raise ERROR
  else
    match query_gang n (cdbcomponent_getCdbComponentsList (r_env r)) (q_segs q) with
    | Some rows => ret rows
    | None => raise ERROR
    end.

(** Without duplicates; no table is an empty list. *)
Fixpoint add_gids (gids htab : list gid) : list gid :=
  match gids with
  | [] => htab
  | g :: gids => add_gids gids (if bool_decide (g ∈ htab) then htab else htab ++ [g])
  end.

Definition gatherRMInDoubtTransactions : proc dtm (list gid) :=
  rows <- on_qd CdbDispatchCommand_prepared_xacts;;
  ret (add_gids (concat rows) []).

Fixpoint abort_gids (gids : list gid) : proc dtm unit :=
  match gids with
  | [] => ret tt
  | g :: gids => doAbortInDoubt g;; abort_gids gids
  end.

Definition abortRMInDoubtTransactions (htab : list gid) : proc dtm unit := abort_gids (hash_order r htab).

(** The reads of the file, from the [n]-th record on. *)
Fixpoint replay_records (f : list utility_redo) (n : nat) : proc dtm unit :=
  match f with
  | [] => ret tt
  | (committed, l) :: f =>
      match read_fates r n with
      | ReadRecord =>
          (if committed : bool then redoDistributedCommitRecord l else redoDistributedForgetCommitRecord l);;
          replay_records f (S n)
      | ReadShort | ReadError => raise ERROR
      end
  end.

Definition ReplayRedoFromUtilityMode : proc dtm unit :=
  d <- get;;
  match d_redoFile d with
  | Some f => if open_fails r then ret tt else replay_records f 0
  | None => ret tt
  end.

Definition RemoveRedoUtilityModeFile : proc dtm unit :=
  if unlink_fails r then ret tt else set_redoFile None.

Definition RecordDistributedForgetCommitted (l : TMGXACT_LOG) : proc dtm unit :=
  on_qd (XLogInsert (r_env r) (DistributedForget (gl_gid l))).

Fixpoint notify_committed (ls : list TMGXACT_LOG) : proc dtm unit :=
  match ls with
  | [] => ret tt
  | l :: ls => doNotifyCommittedInDoubt (gl_gid l);; RecordDistributedForgetCommitted l;; notify_committed ls
  end.

Definition recoverInDoubtTransactions : proc dtm unit :=
  ReplayRedoFromUtilityMode;;
  d <- get;;
  notify_committed (d_committedGxacts d);;
  set_gxacts [];;
  htab <- gatherRMInDoubtTransactions;;
  abortRMInDoubtTransactions htab;;
  htab <- gatherRMInDoubtTransactions;;
  match htab with
  | [] => RemoveRedoUtilityModeFile
  | _ => raise FATAL
  end.

Definition recoverTM : proc dtm unit := recoverInDoubtTransactions;; set_DtmStarted.

(** ** Checkpoints and restarts *)

(** The loop over the array advances its index twice in each turn. *)
Fixpoint copy_committed (ls : list TMGXACT_LOG) : list TMGXACT_LOG :=
  match ls with
  | [] => []
  | [l] => [l]
  | l :: _ :: ls => l :: copy_committed ls
  end.

(** The transactions of the processes: whether to include them, time stamp and number. *)
Definition getDtxCheckPointInfo (is_dispatcher : bool) (committedGxacts : list TMGXACT_LOG)
    (procs : list (bool * Z * Z)) : list TMGXACT_LOG :=
  if negb is_dispatcher then []
  else
    copy_committed committedGxacts ++
    ((λ p : bool * Z * Z, let '(_, ts, gxid) := p in mkGxactLog (ts, gxid) gxid) <$>
       filter (λ p : bool * Z * Z, p.1.1 = true) procs).

(** A checkpoint at the end of the log, while no transaction runs. *)
Definition CreateCheckPoint : proc dtm unit := modify (λ d,
  mkDtm (d_qd d) (d_committedGxacts d) (d_redoFile d) (d_DtmStarted d)
    (getDtxCheckPointInfo true (d_committedGxacts d) []) (length (q_wal (d_qd d)))).

(** The process and shared memory after a crash: of the log, [n] records are on disk; all sessions
    are gone. *)
Definition crash (n : nat) (d : dtm) : dtm :=
  let q := d_qd d in
  mkDtm (mkQd DTX_STATE_NONE false false false false None [] 0 0 0 false 0 DTX_CONTEXT_LOCAL_ONLY
           FirstDistributedTransactionId InvalidDistributedTransactionId (take n (q_wal q)) (q_broadcasts q)
           (λ i, end_session (q_segs q i)))
    [] (d_redoFile d) false (d_checkpoint d) (d_redo_from d).

(** The redo of a restart: the checkpoint, then the log behind its redo pointer. *)
Definition StartupXLOG : proc dtm unit :=
  UtilityModeFindOrCreateDtmRedoFile;;
  d <- get;;
  redoDtxCheckPoint (d_checkpoint d);;
  redo_records (drop (d_redo_from d) (q_wal (d_qd d))).
End Recovery.
Arguments dtm : clear implicits.
