(* ===== verification/DtxRecoveryFacts.v ===== *)
(** * Distributed transactions: redo after a restart

    The redo of the log refines the set of transactions that are committed and not forgotten,
    directly or by way of the file that a server in utility mode writes. *)
From stdpp Require Import functions.
From S2P Require Import Prelude Proc Bytes Bitmapset DistributedSnapshot DtxContextInfo.
From S2P Require Import DtxContextInfoFacts Dtm DtmFacts DtmAtomic DtxRecovery.

(** ** The array *)

Abbreviation gids := (fmap (M := list) gl_gid).
Abbreviation array_has d h := (h ∈ gids (d_committedGxacts d)).

Lemma find_gid_Some g l n i :
  find_gid g l n = Some i → ∃ e, l !! (i - n)%nat = Some e ∧ gl_gid e = g ∧ (n ≤ i)%nat.
Proof.
  revert n. induction l as [|e l IH]; intros n; cbn [find_gid]; [done|]. case_bool_decide as Hg.
  - intros [= <-]. exists e. by rewrite Nat.sub_diag.
  - intros (e' & He & Hg' & Hle)%IH. exists e'. split_and!; [|done|lia].
    by replace (i - n)%nat with (S (i - S n)) by lia.
Qed.

Lemma find_gid_None g l n : find_gid g l n = None ↔ g ∉ gids l.
Proof.
  revert n. induction l as [|e l IH]; intros n; cbn [find_gid]; [set_solver|]. rewrite fmap_cons, not_elem_of_cons.
  case_bool_decide as Hg; [naive_solver|]. rewrite IH. naive_solver.
Qed.

Lemma remove_at_perm i l e : l !! i = Some e → e :: remove_at i l ≡ₚ l.
Proof.
  intros Hi. destruct l as [|x l _] using rev_ind; [done|]. unfold remove_at.
  rewrite length_app. cbn [length]. replace (length l + 1 - 1)%nat with (length l) by lia.
  destruct (Nat.eqb_spec i (length l)) as [->|Hne].
  - rewrite lookup_last in Hi. simplify_eq. rewrite take_app_length. by rewrite Permutation_app_comm.
  - apply lookup_lt_Some in Hi as Hlt. rewrite length_app in Hlt. cbn [length] in Hlt.
    rewrite lookup_last, insert_app_l, take_app_length' by (rewrite ?length_insert; lia).
    rewrite lookup_app_l in Hi by lia. apply list_elem_of_split_length in Hi as (l1 & l2 & -> & ->).
    rewrite insert_app_r_alt, Nat.sub_diag by lia. cbn. solve_Permutation.
Qed.

(** ** The redo of records *)

(** The set of the transactions in doubt, by the records in their order. *)
Definition in_doubt (rs : list dtx_record) (A : gset gid) : gset gid :=
  foldl (λ A r, match r with DistributedCommit g => {[g]} ∪ A | DistributedForget g => A ∖ {[g]} end) A rs.

Section Redo.
Context {T : Type} `{LocalTM T} (r : recovery_environment).
Implicit Types (d : dtm T).

Definition valid_gid (g : gid) : Prop := is_u32 g.1 ∧ is_u32 g.2.

Lemma valid_gid_text g : valid_gid g → TMGIDSIZE <=? zlen (gid_text g.1 g.2) = false.
Proof.
  intros [H1 H2]. destruct (gid_text_spec _ _ H1 H2) as (Hl & _). apply Z.leb_gt. unfold TMGIDSIZE. lia.
Qed.

(** The array holds exactly the transactions of [A], once each. *)
Definition array_is d (A : gset gid) : Prop := NoDup (gids (d_committedGxacts d)) ∧ list_to_set (gids (d_committedGxacts d)) = A.

(** Everything but the array. *)
Definition same_but_array d d' : Prop :=
  d_qd d' = d_qd d ∧ d_redoFile d' = d_redoFile d ∧ d_DtmStarted d' = d_DtmStarted d ∧
  d_checkpoint d' = d_checkpoint d ∧ d_redo_from d' = d_redo_from d.

#[global] Instance same_but_array_refl : Reflexive same_but_array.
Proof. intros d. by split_and!. Qed.
#[global] Instance same_but_array_trans : Transitive same_but_array.
Proof. intros d1 d2 d3 (? & ? & ? & ? & ?) (? & ? & ? & ? & ?). split_and!; congruence. Qed.

Lemma redo_commit_spec d A g :
  r_role r ≠ GP_ROLE_UTILITY → valid_gid g → array_is d A → Z.of_nat (size ({[g]} ∪ A)) ≤ max_tm_gxacts r →
  wp (redoDistributedCommitRecord r (gxact_log g)) (λ o d', o = Ret tt ∧ same_but_array d d' ∧ array_is d' ({[g]} ∪ A)) d.
Proof.
  intros Hr Hg [Hnd Hset] Hmax. unfold redoDistributedCommitRecord. cbn [gl_gid gxact_log].
  rewrite valid_gid_text, bool_decide_eq_false_2 by done. apply proc_bind, wp_get. cbn [next].
  destruct (find_gid g (d_committedGxacts d) 0) as [i|] eqn:Hf.
  - apply find_gid_Some in Hf as (e & He & Heg & _). apply proc_ret. split_and!; [done|done|].
    split; [done|]. rewrite Hset. assert (g ∈ A); [|set_solver].
    rewrite <- Hset. apply elem_of_list_to_set. rewrite <- Heg. apply list_elem_of_fmap_2.
    by eapply list_elem_of_lookup_2.
  - apply find_gid_None in Hf. assert (Hn : g ∉ A) by (rewrite <- Hset; by rewrite elem_of_list_to_set).
    rewrite (proj2 (Z.leb_gt _ _)).
    2:{ rewrite size_union, size_singleton in Hmax by set_solver.
        assert (E : size A = length (d_committedGxacts d)); [|lia].
        by rewrite <- Hset, size_list_to_set, length_fmap. }
    apply wp_modify. split_and!; [done|done|]. unfold array_is. cbn [d_committedGxacts]. rewrite fmap_app. split.
    + apply NoDup_app. split_and!; [done| |apply NoDup_singleton]. set_solver.
    + rewrite list_to_set_app_L, Hset. cbn. set_solver.
Qed.

Lemma redo_forget_spec d A g :
  r_role r ≠ GP_ROLE_UTILITY → array_is d A →
  wp (redoDistributedForgetCommitRecord r (gxact_log g))
    (λ o d', o = Ret tt ∧ same_but_array d d' ∧ array_is d' (A ∖ {[g]})) d.
Proof.
  intros Hr [Hnd Hset]. unfold redoDistributedForgetCommitRecord. cbn [gl_gid gxact_log].
  rewrite bool_decide_eq_false_2 by done. apply proc_bind, wp_get. cbn [next].
  destruct (find_gid g (d_committedGxacts d) 0) as [i|] eqn:Hf.
  - apply find_gid_Some in Hf as (e & He & <- & _). rewrite Nat.sub_0_r in He. apply remove_at_perm in He.
    apply wp_modify. split_and!; [done|done|]. unfold array_is. cbn [d_committedGxacts].
    apply (fmap_Permutation gl_gid) in He. rewrite fmap_cons in He. rewrite <- He in Hnd.
    apply NoDup_cons in Hnd as [Hn Hnd]. split; [done|]. apply set_eq. intros h.
    rewrite <- Hset, elem_of_difference, !elem_of_list_to_set, <- He, elem_of_cons, elem_of_singleton.
    split; [intros Hh; split; [auto|congruence]|naive_solver].
  - apply find_gid_None in Hf. apply proc_ret. split_and!; [done|done|]. split; [done|].
    rewrite Hset. assert (g ∉ A) by (rewrite <- Hset; by rewrite elem_of_list_to_set). set_solver.
Qed.

(** At no point are more transactions in doubt than the array has room for. *)
Definition fits (rs : list dtx_record) (A : gset gid) : Prop :=
  ∀ k, Z.of_nat (size (in_doubt (take k rs) A)) ≤ max_tm_gxacts r.

Definition record_gid (rec : dtx_record) : gid := match rec with DistributedCommit g | DistributedForget g => g end.

Lemma fits_cons rec rs A : fits (rec :: rs) A →
  Z.of_nat (size (in_doubt [rec] A)) ≤ max_tm_gxacts r ∧ fits rs (in_doubt [rec] A).
Proof. intros Hf. split; [apply (Hf 1%nat)|intros k; apply (Hf (S k))]. Qed.

(** A record, by whichever routine. *)
Definition redo_one (rec : dtx_record) : proc (dtm T) unit :=
  match rec with
  | DistributedCommit g => redoDistributedCommitRecord r (gxact_log g)
  | DistributedForget g => redoDistributedForgetCommitRecord r (gxact_log g)
  end.

Lemma redo_one_spec rec d A :
  r_role r ≠ GP_ROLE_UTILITY → valid_gid (record_gid rec) → array_is d A →
  Z.of_nat (size (in_doubt [rec] A)) ≤ max_tm_gxacts r →
  wp (redo_one rec) (λ o d', o = Ret tt ∧ same_but_array d d' ∧ array_is d' (in_doubt [rec] A)) d.
Proof. intros Hr Hv Ha Hm. destruct rec; [by apply redo_commit_spec|by apply redo_forget_spec]. Qed.

(** Sequences of records that a loop performs one by one. *)
Lemma redo_loop (loop : list dtx_record → nat → proc (dtm T) unit) :
  (∀ n, loop [] n = ret tt) →
  (∀ rec rs n, loop (rec :: rs) n = bind (redo_one rec) (λ _, loop rs (S n))) →
  ∀ rs n d A, r_role r ≠ GP_ROLE_UTILITY → Forall (λ rec, valid_gid (record_gid rec)) rs → array_is d A → fits rs A →
  wp (loop rs n) (λ o d', o = Ret tt ∧ same_but_array d d' ∧ array_is d' (in_doubt rs A)) d.
Proof.
  intros Hnil Hcons. induction rs as [|rec rs IH]; intros n d A Hr Hv Ha Hf.
  - rewrite Hnil. apply proc_ret. by split_and!.
  - rewrite Hcons. apply Forall_cons in Hv as [Hv Hvs]. apply fits_cons in Hf as [Hf Hfs]. apply proc_bind.
    eapply proc_mono; [by apply redo_one_spec|]. intros o d1 (-> & Hs1 & Ha1). cbn [next].
    eapply proc_mono; [by apply IH|]. intros o d2 (-> & Hs2 & Ha2). split_and!; [done|by transitivity d1|done].
Qed.

Lemma redo_records_spec rs d A :
  r_role r ≠ GP_ROLE_UTILITY → Forall (λ rec, valid_gid (record_gid rec)) rs → array_is d A → fits rs A →
  wp (redo_records r rs) (λ o d', o = Ret tt ∧ same_but_array d d' ∧ array_is d' (in_doubt rs A)) d.
Proof.
  apply (redo_loop (λ rs _, redo_records r rs)) with (n := 0%nat); [done|]. intros [g|g] rs' _; [|done].
  cbn [redo_records redo_one]. unfold xact_redo_distributed_commit. cbn [gxact_log gl_gxid gl_gid].
  by rewrite Z.eqb_refl.
Qed.

Lemma redo_checkpoint_spec gs d A :
  r_role r ≠ GP_ROLE_UTILITY → Forall valid_gid gs → array_is d A → fits (DistributedCommit <$> gs) A →
  wp (redoDtxCheckPoint r (gxact_log <$> gs))
    (λ o d', o = Ret tt ∧ same_but_array d d' ∧ array_is d' (in_doubt (DistributedCommit <$> gs) A)) d.
Proof.
  revert d A. induction gs as [|g gs IH]; intros d A Hr Hv Ha Hf; rewrite ?fmap_cons in *.
  - apply proc_ret. by split_and!.
  - apply Forall_cons in Hv as [Hv Hvs]. apply fits_cons in Hf as [Hf Hfs]. cbn [redoDtxCheckPoint redo_checkpoint_entries].
    apply proc_bind. eapply proc_mono; [by apply redo_commit_spec|]. intros o d1 (-> & Hs1 & Ha1). cbn [next].
    eapply proc_mono; [by apply IH|]. intros o d2 (-> & Hs2 & Ha2). split_and!; [done|by transitivity d1|done].
Qed.

(** The file entry of a record. *)
Definition saved_entry (rec : dtx_record) : utility_redo :=
  match rec with DistributedCommit g => (true, gxact_log g) | DistributedForget g => (false, gxact_log g) end.

Lemma replay_records_spec rs n d A :
  r_role r ≠ GP_ROLE_UTILITY → (∀ k, read_fates r k = ReadRecord) → Forall (λ rec, valid_gid (record_gid rec)) rs →
  array_is d A → fits rs A →
  wp (replay_records r (saved_entry <$> rs) n)
    (λ o d', o = Ret tt ∧ same_but_array d d' ∧ array_is d' (in_doubt rs A)) d.
Proof.
  intros Hr Hread. apply (redo_loop (λ rs n, replay_records r (saved_entry <$> rs) n)); [done| |done].
  intros rec rs' k. rewrite fmap_cons. destruct rec; cbn [saved_entry replay_records]; by rewrite Hread.
Qed.
End Redo.

(** *** In utility mode *)

Section Utility.
Context {T : Type} `{LocalTM T} (r : recovery_environment).
Implicit Types (d : dtm T).
Context (Hrole : r_role r = GP_ROLE_UTILITY) (Hwrite : ∀ n, write_fails r n = false).

(** Only the file changes, to [f]. *)
Definition saved d f d' : Prop :=
  d' = mkDtm (d_qd d) (d_committedGxacts d) (Some f) (d_DtmStarted d) (d_checkpoint d) (d_redo_from d).

Lemma save_spec d f rec :
  valid_gid (record_gid rec) → d_redoFile d = Some f →
  wp (redo_one r rec) (λ o d', o = Ret tt ∧ saved d (f ++ [saved_entry rec]) d') d.
Proof.
  intros Hv Hf. destruct rec as [g|g]; cbn [redo_one].
  - unfold redoDistributedCommitRecord. cbn [gl_gid gxact_log].
    rewrite valid_gid_text, bool_decide_eq_true_2 by done. apply proc_bind, wp_get. cbn [next]. rewrite Hf, Hwrite.
    apply wp_modify. by split.
  - unfold redoDistributedForgetCommitRecord. rewrite bool_decide_eq_true_2 by done. apply proc_bind, wp_get.
    cbn [next]. rewrite Hf, Hwrite. apply wp_modify. by split.
Qed.

Lemma save_loop (loop : list dtx_record → proc (dtm T) unit) :
  loop [] = ret tt → (∀ rec rs, loop (rec :: rs) = bind (redo_one r rec) (λ _, loop rs)) →
  ∀ rs d f, Forall (λ rec, valid_gid (record_gid rec)) rs → d_redoFile d = Some f →
  wp (loop rs) (λ o d', o = Ret tt ∧ saved d (f ++ (saved_entry <$> rs)) d') d.
Proof.
  intros Hnil Hcons. induction rs as [|rec rs IH]; intros d f Hv Hf.
  - rewrite Hnil. apply proc_ret. split; [done|]. rewrite app_nil_r. destruct d. unfold saved. cbn in *. by subst.
  - rewrite Hcons. apply Forall_cons in Hv as [Hv Hvs]. apply proc_bind.
    eapply proc_mono; [by apply save_spec|]. intros o d1 [-> ->]. cbn [next].
    eapply proc_mono; [by apply IH|]. intros o d2 [-> ->]. split; [done|]. unfold saved. cbn.
    by rewrite <- app_assoc.
Qed.

Lemma save_checkpoint gs d f :
  Forall valid_gid gs → d_redoFile d = Some f →
  wp (redoDtxCheckPoint r (gxact_log <$> gs))
    (λ o d', o = Ret tt ∧ saved d (f ++ (saved_entry <$> (DistributedCommit <$> gs))) d') d.
Proof.
  revert d f. induction gs as [|g gs IH]; intros d f Hv Hf; rewrite ?fmap_cons.
  - apply proc_ret. split; [done|]. rewrite app_nil_r. destruct d. unfold saved. cbn in *. by subst.
  - apply Forall_cons in Hv as [Hv Hvs]. cbn [redoDtxCheckPoint redo_checkpoint_entries]. apply proc_bind.
    eapply proc_mono; [by apply (save_spec d f (DistributedCommit g))|]. intros o d1 [-> ->]. cbn [next].
    eapply proc_mono; [by apply IH|]. intros o d2 [-> ->]. split; [done|]. unfold saved. cbn.
    by rewrite <- app_assoc.
Qed.
End Utility.

(** ** A restart *)

Lemma commits_valid gs :
  Forall (λ rec, valid_gid (record_gid rec)) (DistributedCommit <$> gs) → Forall valid_gid gs.
Proof. rewrite !Forall_forall. intros Hv g Hg. apply (Hv (DistributedCommit g)). by apply list_elem_of_fmap_2. Qed.

Lemma in_doubt_app rs1 rs2 A : in_doubt (rs1 ++ rs2) A = in_doubt rs2 (in_doubt rs1 A).
Proof. apply foldl_app. Qed.

Lemma fits_app r rs1 rs2 A : fits r (rs1 ++ rs2) A → fits r rs1 A ∧ fits r rs2 (in_doubt rs1 A).
Proof.
  intros Hf. split; intros k.
  - specialize (Hf (Nat.min k (length rs1))). rewrite take_app_le in Hf by lia.
    destruct (decide (k ≤ length rs1)%nat); [by rewrite Nat.min_l in Hf by lia|].
    rewrite Nat.min_r in Hf by lia. by rewrite (take_ge rs1 k), <- (take_ge rs1 (length rs1)) by lia.
  - specialize (Hf (length rs1 + k)%nat). by rewrite take_app_add, in_doubt_app in Hf.
Qed.

Section Startup.
Context {T : Type} `{LocalTM T}.
Implicit Types (d : dtm T).

(** The records a restart performs. *)
Definition redo_input d gs : list dtx_record :=
  (DistributedCommit <$> gs) ++ drop (d_redo_from d) (q_wal (d_qd d)).

Lemma startup_dispatch r d gs :
  r_role r ≠ GP_ROLE_UTILITY → d_checkpoint d = gxact_log <$> gs → d_committedGxacts d = [] →
  Forall (λ rec, valid_gid (record_gid rec)) (redo_input d gs) → fits r (redo_input d gs) ∅ →
  wp (StartupXLOG r) (λ o d', o = Ret tt ∧ same_but_array d d' ∧ array_is d' (in_doubt (redo_input d gs) ∅)) d.
Proof.
  intros Hr Hc Hn Hv Hf. apply Forall_app in Hv as [Hv1 Hv2]. apply fits_app in Hf as [Hf1 Hf2].
  unfold StartupXLOG, UtilityModeFindOrCreateDtmRedoFile. rewrite bool_decide_eq_true_2 by done.
  apply proc_bind, proc_ret. cbn [next]. apply proc_bind, wp_get. cbn [next]. rewrite Hc. apply proc_bind.
  eapply proc_mono; [apply (redo_checkpoint_spec r gs d ∅); try done|].
  - by apply commits_valid.
  - split; rewrite Hn; [apply NoDup_nil_2|done].
  - intros o d1 (-> & Hs1 & Ha1). cbn [next]. eapply proc_mono; [by apply redo_records_spec|].
    intros o d2 (-> & Hs2 & Ha2). split_and!; [done|by transitivity d1|].
    unfold redo_input. by rewrite in_doubt_app.
Qed.

Lemma startup_utility r d gs :
  r_role r = GP_ROLE_UTILITY → (∀ n, write_fails r n = false) → open_fails r = false →
  d_checkpoint d = gxact_log <$> gs → Forall (λ rec, valid_gid (record_gid rec)) (redo_input d gs) →
  wp (StartupXLOG r) (λ o d', o = Ret tt ∧
    saved d (default [] (d_redoFile d) ++ (saved_entry <$> redo_input d gs)) d') d.
Proof.
  intros Hr Hw Ho Hc [Hv1 Hv2]%Forall_app. unfold StartupXLOG, UtilityModeFindOrCreateDtmRedoFile.
  rewrite bool_decide_eq_false_2 by auto. rewrite Ho. apply proc_bind, proc_bind, wp_get. cbn [next].
  apply wp_modify. cbn [next]. apply proc_bind, wp_get. cbn [next]. apply proc_bind. cbn [d_checkpoint d_redo_from d_qd].
  rewrite Hc. apply commits_valid in Hv1. eapply proc_mono; [by apply save_checkpoint|].
  intros o d1 [-> ->]. cbn [next]. eapply proc_mono; [apply (save_loop r Hr Hw (redo_records r)); [done| |done|done]|].
  - intros [g|g] rs; [|done]. cbn [redo_records redo_one]. unfold xact_redo_distributed_commit.
    cbn [gxact_log gl_gxid gl_gid]. by rewrite Z.eqb_refl.
  - intros o d2 [-> ->]. split; [done|]. unfold saved, redo_input.
    cbn [d_qd d_committedGxacts d_redoFile d_DtmStarted d_checkpoint d_redo_from]. by rewrite fmap_app, <- app_assoc, Hc.
Qed.
End Startup.

(** ** Replaying the file, whatever happens *)

Section Replay.
Context {T : Type} `{LocalTM T} (r : recovery_environment).
Implicit Types (d : dtm T) (h : gid).

(** The file has an entry of this kind for [h]. *)
Definition in_file (c : bool) h (f : list utility_redo) : Prop := ∃ l, (c, l) ∈ f ∧ gl_gid l = h.

Context (Hrole : r_role r ≠ GP_ROLE_UTILITY).

Lemma redo_commit_any l d :
  wp (redoDistributedCommitRecord r l) (λ o d', same_but_array d d' ∧
    (∀ h, array_has d h → array_has d' h) ∧ (∀ h, array_has d' h → array_has d h ∨ h = gl_gid l) ∧
    (o = Ret tt → array_has d' (gl_gid l))) d.
Proof.
  unfold redoDistributedCommitRecord. destruct (TMGIDSIZE <=? _).
  { apply wp_raise. split_and!; try done. auto. }
  rewrite bool_decide_eq_false_2 by done. apply proc_bind, wp_get. cbn [next].
  destruct (find_gid (gl_gid l) (d_committedGxacts d) 0) as [i|] eqn:Hf.
  - apply find_gid_Some in Hf as (e & He & Heg & _). apply proc_ret. split_and!; [done|auto|auto|]. intros _.
    rewrite <- Heg. apply list_elem_of_fmap_2. by eapply list_elem_of_lookup_2.
  - destruct (_ <=? _); [apply wp_raise; split_and!; try done; auto|]. apply wp_modify. cbn [d_committedGxacts].
    split_and!; [done| | |]; intros; rewrite fmap_app in *; set_solver.
Qed.

Lemma redo_forget_any l d :
  wp (redoDistributedForgetCommitRecord r l) (λ o d', same_but_array d d' ∧
    (∀ h, h ≠ gl_gid l → array_has d h → array_has d' h) ∧ (∀ h, array_has d' h → array_has d h)) d.
Proof.
  unfold redoDistributedForgetCommitRecord. rewrite bool_decide_eq_false_2 by done. apply proc_bind, wp_get. cbn [next].
  destruct (find_gid (gl_gid l) (d_committedGxacts d) 0) as [i|] eqn:Hf.
  - apply find_gid_Some in Hf as (e & He & Heg & _). rewrite Nat.sub_0_r in He. apply remove_at_perm in He.
    apply (fmap_Permutation gl_gid) in He. rewrite fmap_cons in He.
    apply wp_modify. cbn [d_committedGxacts]. split_and!; [done| |]; intros h; rewrite <- He, elem_of_cons; naive_solver.
  - apply proc_ret. by split_and!.
Qed.

Lemma replay_any f n d :
  wp (replay_records r f n) (λ o d', same_but_array d d' ∧
    (∀ h, array_has d' h → array_has d h ∨ in_file true h f) ∧
    (∀ h, ¬ in_file false h f → array_has d h → array_has d' h) ∧
    (o = Ret tt → ∀ h, ¬ in_file false h f → in_file true h f → array_has d' h)) d.
Proof.
  revert n d. induction f as [|[c l] f IH]; intros n d; cbn [replay_records].
  { apply proc_ret. split_and!; [done|auto|auto|]. intros _ h _ (l & Hl & _). set_solver. }
  destruct (read_fates r n).
  2,3: apply wp_raise; split_and!; [done|auto|auto|done].
  assert (Hrest : ∀ b h, ¬ in_file b h ((c, l) :: f) → ¬ in_file b h f ∧ (b = c → gl_gid l ≠ h)).
  { intros b h Hn. split; [intros (l' & Hl' & E)|intros -> E]; apply Hn; [exists l'|exists l]; set_solver. }
  assert (Hmono : ∀ b h, in_file b h f → in_file b h ((c, l) :: f)) by (intros b h (l' & Hl' & E); exists l'; set_solver).
  apply proc_bind. destruct c.
  - eapply proc_mono; [apply redo_commit_any|]. intros o d1 (S1 & K1 & U1 & R1).
    destruct o as [[]| | |]; cbn [next].
    + specialize (R1 eq_refl). eapply proc_mono; [apply IH|]. intros o d2 (S2 & U2 & K2 & R2).
      split_and!; [by transitivity d1| | |].
      * intros h [Hh|Hh]%U2; [|auto]. apply U1 in Hh as [Hh| ->]; [auto|]. right. exists l. set_solver.
      * intros h [Hn _]%Hrest Hh. auto.
      * intros Ho h [Hn _]%Hrest (l' & [E|Hl']%elem_of_cons & <-).
        -- simplify_eq. auto.
        -- apply R2; [done|done|]. by exists l'.
    + split_and!; [done| |auto|done]. intros h [Hh| ->]%U1; [auto|]. right. exists l. set_solver.
    + split_and!; [done| |auto|done]. intros h [Hh| ->]%U1; [auto|]. right. exists l. set_solver.
    + split_and!; [done| |auto|done]. intros h [Hh| ->]%U1; [auto|]. right. exists l. set_solver.
  - eapply proc_mono; [apply redo_forget_any|]. intros o d1 (S1 & K1 & U1).
    destruct o as [[]| | |]; cbn [next].
    + eapply proc_mono; [apply IH|]. intros o d2 (S2 & U2 & K2 & R2). split_and!; [by transitivity d1| | |].
      * intros h [Hh|Hh]%U2; auto.
      * intros h [Hn Hne]%Hrest Hh. apply K2; [done|]. apply K1; [|done]. intros ->. by apply Hne.
      * intros Ho h [Hn _]%Hrest (l' & [E|Hl']%elem_of_cons & <-); [done|]. apply R2; [done|done|]. by exists l'.
    + split_and!; [done|auto| |done]. intros h [Hn Hne]%Hrest Hh. apply K1; [|done]. intros ->. by apply Hne.
    + split_and!; [done|auto| |done]. intros h [Hn Hne]%Hrest Hh. apply K1; [|done]. intros ->. by apply Hne.
    + split_and!; [done|auto| |done]. intros h [Hn Hne]%Hrest Hh. apply K1; [|done]. intros ->. by apply Hne.
Qed.
End Replay.

(** ** The refinement *)

(** The redo of a restart refines the set of the transactions in doubt, that of the checkpoint
    and of the records behind its redo pointer that are committed and not forgotten: the array holds
    each of them once and nothing else.  A restart in utility mode saves the records, and replaying
    the file later has the same result. *)
Lemma dtx_redo_refines {T : Type} `{LocalTM T} (r ru : recovery_environment) (d : dtm T) (gs : list gid) :
  r_role r = GP_ROLE_DISPATCH → open_fails r = false → (∀ n, read_fates r n = ReadRecord) →
  r_role ru = GP_ROLE_UTILITY → open_fails ru = false → (∀ n, write_fails ru n = false) →
  d_checkpoint d = gxact_log <$> gs → d_committedGxacts d = [] → d_redoFile d = None →
  Forall (λ rec, valid_gid (record_gid rec)) (redo_input d gs) → fits r (redo_input d gs) ∅ →
  (let '(o, d') := StartupXLOG r d in
   o = Ret tt ∧ same_but_array d d' ∧ array_is d' (in_doubt (redo_input d gs) ∅)) ∧
  (let '(o, d1) := StartupXLOG ru d in
   o = Ret tt ∧ d_committedGxacts d1 = [] ∧
   let '(o, d2) := ReplayRedoFromUtilityMode r d1 in
   o = Ret tt ∧ same_but_array d1 d2 ∧ array_is d2 (in_doubt (redo_input d gs) ∅)).
Proof.
  intros Hr Hor Hread Hru Hou Hw Hc Hn Hfile Hv Hf. split.
  - pose proof (startup_dispatch r d gs) as Hs. unfold wp in Hs. destruct (StartupXLOG r d) as [o d'].
    apply Hs; try done. congruence.
  - pose proof (startup_utility ru d gs Hru Hw Hou Hc Hv) as Hs. unfold wp in Hs.
    destruct (StartupXLOG ru d) as [o d1]. cbn [fst snd] in Hs. destruct Hs as [-> Hsv]. unfold saved in Hsv. subst d1. split; [done|]. split; [done|].
    rewrite Hfile. cbn [default app].
    match goal with |- context [ReplayRedoFromUtilityMode r ?x] => set (d1 := x) end.
    assert (Hrp : wp (ReplayRedoFromUtilityMode r)
      (λ o d2, o = Ret tt ∧ same_but_array d1 d2 ∧ array_is d2 (in_doubt (redo_input d gs) ∅)) d1).
    { unfold ReplayRedoFromUtilityMode. apply proc_bind, wp_get. cbn [next d_redoFile d1]. rewrite Hor.
      apply replay_records_spec; try done; [congruence|]. split; cbn; rewrite Hn; [apply NoDup_nil_2|done]. }
    unfold wp in Hrp. destruct (ReplayRedoFromUtilityMode r d1) as [o2 d2]. exact Hrp.
Qed.

(** ** An example *)

Module RecoveryExample.
(** Two segments, both prepared for two transactions, the first of which is committed. *)
Definition env : environment :=
  mkEnv (λ _, false) (λ _ _, Answered) (λ _, Logged) 2 10 true false false false false 77 5.
Definition renv (role : GpRoleValue) : recovery_environment :=
  mkRenv env role 10 false false (λ _, false) (λ _, ReadRecord) (λ l, l).
Definition dispatcher (log : list dtx_record) (segs : Z → segment sim) : qd sim :=
  mkQd DTX_STATE_NONE false false false false None [] 0 0 0 false 0 DTX_CONTEXT_LOCAL_ONLY 9 0 log 0 segs.
Definition segment_with (gs : list gid) : segment sim := mkSegment DTX_CONTEXT_LOCAL_ONLY (mkSim gs [] BlockNone).
Definition state : dtm sim :=
  mkDtm (dispatcher [DistributedCommit (77, 9)] (λ _, segment_with [(77, 9); (77, 10)]))
    [gxact_log (77, 9)] None false [] 0.
End RecoveryExample.
