(* ===== verification/DtxRecoveryRun.v ===== *)
(** * Distributed transactions: a run of the recovery

    The run commits the transactions of the array and aborts the others that are prepared; where it
    ends early, what it did agrees with that, and a later run can go on. *)
From stdpp Require Import functions.
From S2P Require Import Prelude Proc Bytes Bitmapset DistributedSnapshot DtxContextInfo Dtm DtmFacts.
From S2P Require Import DtmAtomic DtxRecovery DtxRecoveryFacts.

(** ** Progress of the segments *)

Section Progress.
Context {T : Type} `{LocalTMLaws T}.
Implicit Types (w : Z → segment T) (k h : gid).

(** From one world to a later one, while the transactions of [A] are committed and others aborted. *)
Record progress (A : gid → Prop) w w' : Prop := {
  pr_committed : ∀ i k, is_committed k (w' i) → is_committed k (w i) ∨ (A k ∧ is_prepared k (w i));
  pr_keeps : ∀ i k, is_committed k (w i) → is_committed k (w' i);
  pr_prepared : ∀ i k, is_prepared k (w' i) → is_prepared k (w i);
  pr_outcome : ∀ i k, A k → is_prepared k (w i) → is_prepared k (w' i) ∨ is_committed k (w' i);
}.

#[global] Instance progress_refl A : Reflexive (progress A).
Proof. intros w. split; auto. Qed.

#[global] Instance progress_trans A : Transitive (progress A).
Proof.
  intros w1 w2 w3 [C1 K1 P1 O1] [C2 K2 P2 O2]. split; intros i k.
  - intros [Hc|[Ha Hp]]%C2; [auto|right; auto].
  - auto.
  - auto.
  - intros Ha [Hp|Hc]%(O1 _ _ Ha); auto.
Qed.

(** Segments that finish [h] or do nothing. *)
Lemma progress_finish (A : gid → Prop) (c : bool) h w w' :
  (if c then A h else ¬ A h) → (∀ i, finished h c (w i) (w' i) ∨ same_seg (w i) (w' i)) → progress A w w'.
Proof.
  intros Hc Hs. split; intros i k; (destruct (Hs i) as [(Hp & P & C)|Hsame];
    [rewrite ?P, ?C|rewrite ?(same_seg_prepared _ _ _ Hsame), ?(same_seg_committed _ _ _ Hsame); tauto]).
  - intros [[-> ->]|Hk]; auto.
  - auto.
  - tauto.
  - intros Ha Hk. destruct (decide (k = h)) as [->|Hne]; [|auto]. destruct c; [auto|done].
Qed.

(** [h] is prepared on no segment of the cluster. *)
Definition resolved env h w : Prop := ∀ i, i ∈ cdbcomponent_getCdbComponentsList env → ¬ is_prepared h (w i).

Lemma resolved_progress env A h w w' : progress A w w' → resolved env h w → resolved env h w'.
Proof. intros Hp Hr i Hi Hk. apply (Hr i Hi). by eapply pr_prepared. Qed.
End Progress.

(** ** The steps of a run *)

Section Run.
Context {T : Type} `{LocalTMLaws T} (r : recovery_environment).
Implicit Types (d : dtm T) (w : Z → segment T) (h k : gid) (A : gid → Prop).
Abbreviation comps := (cdbcomponent_getCdbComponentsList (r_env r)).
Abbreviation world d := (q_segs (d_qd d)).
Abbreviation wal d := (q_wal (d_qd d)).
Context (Hcomps : comps ≠ []).

Definition idle d : Prop := q_state (d_qd d) = DTX_STATE_NONE.

(** Only the process, the segments and the log change. *)
Definition same_shared d d' : Prop :=
  d_committedGxacts d' = d_committedGxacts d ∧ d_redoFile d' = d_redoFile d ∧ d_DtmStarted d' = d_DtmStarted d ∧
  d_checkpoint d' = d_checkpoint d ∧ d_redo_from d' = d_redo_from d.

#[global] Instance same_shared_trans : Transitive same_shared.
Proof. intros d1 d2 d3 (? & ? & ? & ? & ?) (? & ? & ? & ? & ?). split_and!; congruence. Qed.

Lemma wp_on_qd {B} (m : proc (qd T) B) (Q : outcome B → dtm T → Prop) d :
  wp m (λ o q, ∀ d', d_qd d' = q → same_shared d d' → Q o d') (d_qd d) → wp (on_qd m) Q d.
Proof.
  unfold wp, on_qd. intros HQ. destruct (m (d_qd d)) as [o q]. cbn [fst snd] in *. by apply HQ.
Qed.

(** One broadcast of the recovery. *)
Lemma recovery_dispatch_spec cmd h d :
  idle d →
  wp (recovery_dispatch r cmd h) (λ o d', idle d' ∧ same_shared d d' ∧ wal d' = wal d ∧
    match o with
    | Ret b => ∃ answers, broadcast cmd h comps answers (world d) (world d') ∧ b = all_true answers
    | ERROR => world d' = world d
    | _ => False
    end) d.
Proof.
  intros Hi. apply wp_on_qd, wp_doDispatch; [|apply components_nodup|done|..].
  - intros n w. unfold addToGxactDtxSegments, bind, get, isCurrentDtxActivated. cbn [q_state set_world modify snd].
    rewrite bool_decide_eq_false_2 by auto. done.
  - intros q' Hsc _ Hs _ d' <- Hd'. destruct (same_control_fields _ _ Hsc) as (E1 & _ & _ & _ & _ & _ & _ & E8).
    unfold idle. split_and!; congruence || apply Hd'.
  - intros q' answers Hsc _ Hb _. destruct (same_control_fields _ _ Hsc) as (E1 & _ & _ & _ & _ & _ & _ & E8).
    assert (Hgoal : ∀ d', d_qd d' = q' → same_shared d d' → idle d' ∧ same_shared d d' ∧ wal d' = wal d ∧
      ∃ answers, broadcast cmd h comps answers (world d) (world d') ∧ all_true answers = all_true answers).
    { intros d' <- Hd'. unfold idle. split_and!; try congruence; try apply Hd'. eauto. }
    intros d' E Hd'. destruct (Hgoal d' E Hd') as (G1 & G2 & G3 & _). subst q'.
    destruct (all_true answers) eqn:Ha; (split_and!; [done|done|done|]); by exists answers.
Qed.

(** The two ways to finish a transaction on all segments. *)
Definition finish_cmd (c : bool) : DtxProtocolCommand :=
  if c then DTX_PROTOCOL_COMMAND_RECOVERY_COMMIT_PREPARED else DTX_PROTOCOL_COMMAND_RECOVERY_ABORT_PREPARED.

Definition finish_in_doubt (c : bool) h : proc (dtm T) unit :=
  if c then doNotifyCommittedInDoubt r h else doAbortInDoubt r h.

Lemma broadcast_finish c h answers w w' :
  broadcast (finish_cmd c) h comps answers w w' →
  (∀ i, finished h c (w i) (w' i) ∨ same_seg (w i) (w' i)) ∧
  (all_true answers = true → resolved (r_env r) h w').
Proof.
  intros Hb. assert (Hstep : ∀ a s s', step (finish_cmd c) h a s s' →
    (finished h c s s' ∨ same_seg s s') ∧ (a = Some true → ¬ is_prepared h s')).
  { intros a s s' Hs. destruct c; [by apply step_commit in Hs|].
    apply step_abort in Hs as [H1 H2]; [|done]. split; [done|]. intros Ha. by apply H2. }
  split.
  - intros i. destruct (decide (i ∈ comps)) as [Hi|Hi].
    + destruct (broadcast_in _ _ _ _ _ _ _ Hb Hi) as (a & _ & Hs). by apply (Hstep a).
    + destruct Hb as [Hout _]. right. by rewrite Hout.
  - intros Ha i Hi. destruct (broadcast_in _ _ _ _ _ _ _ Hb Hi) as (a & Hin & Hs).
    apply (Hstep a _ _ Hs). by eapply all_true_elem.
Qed.

Lemma finish_in_doubt_spec A (c : bool) h d :
  idle d → (if c then A h else ¬ A h) →
  wp (finish_in_doubt c h) (λ o d', idle d' ∧ same_shared d d' ∧ wal d' = wal d ∧ progress A (world d) (world d') ∧
    (o = Ret tt → resolved (r_env r) h (world d'))) d.
Proof.
  intros Hi HA. assert (Hm : finish_in_doubt c h = bind (recovery_dispatch r (finish_cmd c) h)
    (λ succeeded : bool, if negb succeeded then raise FATAL else ret tt)) by by destruct c.
  rewrite Hm. apply proc_bind. eapply proc_mono; [by apply recovery_dispatch_spec|].
  intros o d' (Hi' & Hs & Hw & Ho). destruct o as [b| | |]; cbn [next]; [|by rewrite Ho|done|done].
  destruct Ho as (answers & Hb & ->). apply broadcast_finish in Hb as [Hf Hr].
  assert (Hp : progress A (world d) (world d')) by by eapply progress_finish.
  destruct (all_true answers); cbn [negb]; [apply proc_ret|apply wp_raise]; by split_and!; auto.
Qed.

Lemma wp_record_forget l d (Q : outcome unit → dtm T → Prop) :
  (∀ d', same_shared d d' → wal d' = wal d ++ [DistributedForget (gl_gid l)] → world d' = world d →
     q_state (d_qd d') = q_state (d_qd d) → Q (Ret tt) d' ∧ Q PANIC d') →
  (∀ d', same_shared d d' → d_qd d' = d_qd d → Q PANIC d') → wp (RecordDistributedForgetCommitted r l) Q d.
Proof.
  intros HQ HP. apply wp_on_qd, wp_XLogInsert.
  - intros q' Hw E1 E2. injection E1 as Est _ _ _. injection E2 as _ _ Ew _.
    split; intros d' <- Hs; apply HQ; done.
  - intros d' E Hs. by apply HP.
Qed.

(** The log grows by forget records of transactions of [A] that are resolved. *)
Definition forgets A d d' : Prop :=
  ∃ F, wal d' = wal d ++ (DistributedForget <$> F) ∧ ∀ h, h ∈ F → A h ∧ resolved (r_env r) h (world d').

Lemma forgets_refl A d d' : wal d' = wal d → forgets A d d'.
Proof. intros E. exists []. rewrite E, app_nil_r. split; [done|]. set_solver. Qed.

Lemma forgets_trans A d1 d2 d3 :
  forgets A d1 d2 → forgets A d2 d3 → progress A (world d2) (world d3) → forgets A d1 d3.
Proof.
  intros (F1 & E1 & H1) (F2 & E2 & H2) Hp. exists (F1 ++ F2). rewrite E2, E1, fmap_app, <- app_assoc. split; [done|].
  intros h [Hh|Hh]%elem_of_app; [|by apply H2]. destruct (H1 h Hh) as [Ha Hr]. split; [done|].
  by eapply resolved_progress.
Qed.

(** What all parts of a run keep. *)
Definition runs A d d' : Prop := idle d' ∧ progress A (world d) (world d') ∧ forgets A d d'.

Lemma runs_same A d d' : idle d' → progress A (world d) (world d') → wal d' = wal d → runs A d d'.
Proof. intros Hi Hp Hw. split; [done|]. split; [done|by apply forgets_refl]. Qed.

Lemma runs_trans A d1 d2 d3 : runs A d1 d2 → runs A d2 d3 → runs A d1 d3.
Proof.
  intros (_ & P1 & F1) (I2 & P2 & F2). split_and!; [done|by transitivity (world d2)|by eapply forgets_trans].
Qed.

Lemma notify_committed_spec A ls d :
  idle d → (∀ l, l ∈ ls → A (gl_gid l)) →
  wp (notify_committed r ls) (λ o d', runs A d d' ∧ same_shared d d' ∧
    (o = Ret tt → ∀ l, l ∈ ls → resolved (r_env r) (gl_gid l) (world d'))) d.
Proof.
  revert d. induction ls as [|l ls IH]; intros d Hi HA; cbn [notify_committed].
  { apply proc_ret. split_and!; [by apply runs_same|done|set_solver]. }
  apply proc_bind. eapply proc_mono; [apply (finish_in_doubt_spec A true); [done|apply HA; by left]|].
  intros o d1 (I1 & S1 & W1 & P1 & R1). assert (Hr1 : runs A d d1) by by apply runs_same.
  destruct o as [[]| | |]; cbn [next]; [|by split_and!..]. specialize (R1 eq_refl).
  apply proc_bind, wp_record_forget.
  - intros d2 S2 W2 E2 I2. assert (Hr2 : runs A d d2).
    { eapply runs_trans; [exact Hr1|]. split; [unfold idle in *; congruence|]. split; [by rewrite E2|].
      exists [gl_gid l]. split; [done|]. intros h ->%list_elem_of_singleton. split; [apply HA; by left|by rewrite E2]. }
    assert (S12 : same_shared d d2) by by transitivity d1. split; cbn [next]; [|by split_and!].
    eapply proc_mono; [apply IH|].
    + apply Hr2.
    + intros l' Hl'. apply HA. by right.
    + intros o d3 (Hr3 & S3 & R3). split_and!; [by eapply runs_trans|by transitivity d2|].
      intros Ho l' [->|Hl']%elem_of_cons; [|by apply R3]. destruct Hr3 as (_ & P3 & _).
      eapply resolved_progress; [exact P3|]. by rewrite E2.
  - intros d2 S2 E2. cbn [next]. split_and!; [|by transitivity d1|done].
    destruct Hr1 as (_ & P & F). unfold runs, forgets, idle in *. rewrite E2. by split_and!.
Qed.

(** *** Gathering what is prepared *)

Lemma query_gang_spec n gang w rows :
  query_gang r n gang w = Some rows → ∀ k, k ∈ concat rows ↔ ∃ i, i ∈ gang ∧ is_prepared k (w i).
Proof.
  revert rows. induction gang as [|i gang IH]; intros rows; cbn [query_gang].
  - intros [= <-] k. set_solver.
  - destruct (fates (r_env r) n i); [done|done|]. destruct (query_gang r n gang w) as [rows'|]; [|done].
    intros [= <-] k. cbn [concat]. rewrite elem_of_app, IH by done. unfold is_prepared. set_solver.
Qed.

Lemma add_gids_spec gs htab k : k ∈ add_gids gs htab ↔ k ∈ gs ∨ k ∈ htab.
Proof.
  revert htab. induction gs as [|g gs IH]; intros htab; cbn [add_gids]; [set_solver|].
  rewrite IH. case_bool_decide; set_solver.
Qed.

Lemma gather_spec d :
  idle d →
  wp (gatherRMInDoubtTransactions r) (λ o d', idle d' ∧ same_shared d d' ∧ wal d' = wal d ∧ world d' = world d ∧
    match o with
    | Ret htab => ∀ k, k ∈ htab ↔ ∃ i, i ∈ comps ∧ is_prepared k (world d i)
    | _ => True
    end) d.
Proof.
  intros Hi. apply proc_bind, wp_on_qd. unfold CdbDispatchCommand_prepared_xacts. apply proc_bind, wp_get. cbn [next].
  apply proc_bind, wp_modify. cbn [next].
  assert (Hd : ∀ d', d_qd d' = (set_world (T := T) (S (q_broadcasts (d_qd d))) (world d) (d_qd d)).2 → same_shared d d' →
    idle d' ∧ same_shared d d' ∧ wal d' = wal d ∧ world d' = world d).
  { intros d' E Hs. unfold idle. rewrite E. by split_and!. }
  destruct (gang_fails (r_env r) (q_broadcasts (d_qd d))).
  { apply wp_raise. intros d' E Hs. cbn [next]. destruct (Hd d' E Hs) as (? & ? & ? & ?). by split_and!. }
  destruct (query_gang r _ comps (world d)) as [rows|] eqn:Hq.
  - apply proc_ret. intros d' E Hs. cbn [next]. apply proc_ret. destruct (Hd d' E Hs) as (? & ? & ? & ?). split_and!; try done.
    intros k. rewrite add_gids_spec, (query_gang_spec _ _ _ _ Hq). set_solver.
  - apply wp_raise. intros d' E Hs. cbn [next]. destruct (Hd d' E Hs) as (? & ? & ? & ?). by split_and!.
Qed.

Lemma abort_gids_spec A gs d :
  idle d → (∀ h, h ∈ gs → ¬ A h) →
  wp (abort_gids r gs) (λ o d', runs A d d' ∧ same_shared d d' ∧
    (o = Ret tt → ∀ h, h ∈ gs → resolved (r_env r) h (world d'))) d.
Proof.
  revert d. induction gs as [|g gs IH]; intros d Hi HA; cbn [abort_gids].
  { apply proc_ret. split_and!; [by apply runs_same|done|set_solver]. }
  apply proc_bind. eapply proc_mono; [apply (finish_in_doubt_spec A false); [done|apply HA; by left]|].
  intros o d1 (I1 & S1 & W1 & P1 & R1). assert (Hr1 : runs A d d1) by by apply runs_same.
  destruct o as [[]| | |]; cbn [next]; [|by split_and!..]. specialize (R1 eq_refl).
  eapply proc_mono; [apply IH; [done|]|].
  - intros h Hh. apply HA. by right.
  - intros o d2 (Hr2 & S2 & R2). split_and!; [by eapply runs_trans|by transitivity d1|].
    intros Ho h [->|Hh]%elem_of_cons; [|by apply R2]. destruct Hr2 as (_ & P2 & _). by eapply resolved_progress.
Qed.

Context (Hrole : r_role r ≠ GP_ROLE_UTILITY).

(** *** The run behind the replay *)

Context (Horder : ∀ l, hash_order r l ≡ₚ l).

Definition run_post d o d' : Prop :=
  let A h := array_has d h in
  runs A d d' ∧ d_checkpoint d' = d_checkpoint d ∧ d_redo_from d' = d_redo_from d ∧
  (d_committedGxacts d' = d_committedGxacts d ∨
   d_committedGxacts d' = [] ∧ ∀ h, A h → resolved (r_env r) h (world d')) ∧
  (d_redoFile d' = d_redoFile d ∨ d_redoFile d' = None ∧ ∀ h, A h → resolved (r_env r) h (world d')) ∧
  (o = Ret tt → d_committedGxacts d' = [] ∧ ∀ h, resolved (r_env r) h (world d')).

(** With the array emptied: what is prepared is aborted. *)
Lemma abort_rest_spec d0 d :
  let A h := array_has d0 h in
  runs A d0 d → same_shared d0 (mkDtm (d_qd d) (d_committedGxacts d0) (d_redoFile d) (d_DtmStarted d)
                              (d_checkpoint d) (d_redo_from d)) →
  d_committedGxacts d = [] → (∀ h, A h → resolved (r_env r) h (world d)) →
  wp (htab <- gatherRMInDoubtTransactions r;;
      abortRMInDoubtTransactions r htab;;
      htab <- gatherRMInDoubtTransactions r;;
      match htab with [] => RemoveRedoUtilityModeFile r | _ => raise FATAL end) (run_post d0) d.
Proof.
  intros A Hr0 (_ & Hf0 & _ & Hc0 & Hn0) He Hres. cbn [d_redoFile d_checkpoint d_redo_from] in *.
  assert (Hpost : ∀ o d', runs A d d' → same_shared d d' → o ≠ Ret tt → run_post d0 o d').
  { intros o d' Hr (E1 & E2 & _ & E4 & E5) Ho. pose proof Hr as (_ & Hp & _).
    assert (Hres' : ∀ h, A h → resolved (r_env r) h (world d')) by (intros h Hh; eapply resolved_progress; eauto).
    split_and!; [by eapply runs_trans|congruence|congruence|right; split; [congruence|done]|left; congruence|done]. }
  apply proc_bind. eapply proc_mono; [apply gather_spec, Hr0|]. intros o d1 (I1 & S1 & W1 & E1 & Hh).
  assert (Hr1 : runs A d d1) by (apply runs_same; [done|by rewrite E1|done]).
  destruct o as [htab| | |]; cbn [next]; [|by apply Hpost..].
  apply proc_bind. unfold abortRMInDoubtTransactions. eapply proc_mono; [apply (abort_gids_spec A); [done|]|].
  { intros h Hin HA. rewrite Horder in Hin. apply Hh in Hin as (i & Hi & Hp). by apply (Hres h HA i Hi). }
  intros o d2 (Hr2 & S2 & R2). assert (S12 : same_shared d d2) by by transitivity d1.
  assert (Hr12 : runs A d d2) by by eapply runs_trans.
  destruct o as [[]| | |]; cbn [next]; [|by apply Hpost..].
  apply proc_bind. eapply proc_mono; [apply gather_spec, Hr2|]. intros o d3 (I3 & S3 & W3 & E3 & Hh3).
  assert (Hr3 : runs A d d3).
  { eapply runs_trans; [exact Hr12|]. apply runs_same; [done|by rewrite E3|done]. }
  assert (S13 : same_shared d d3) by by transitivity d2.
  destruct o as [htab3| | |]; cbn [next]; [|by apply Hpost..].
  destruct htab3 as [|h3 htab3]; [|by apply wp_raise, Hpost].
  assert (Hall : ∀ h, resolved (r_env r) h (world d3)).
  { intros h i Hi Hp. rewrite E3 in Hp. assert (h ∈ @nil gid); [|set_solver]. apply Hh3. eauto. }
  destruct S13 as (G1 & G2 & _ & G4 & G5). assert (Hr03 : runs A d0 d3) by by eapply runs_trans.
  unfold RemoveRedoUtilityModeFile. destruct (unlink_fails r); [apply proc_ret|apply wp_modify];
    (split_and!; cbn [d_committedGxacts d_redoFile d_checkpoint d_redo_from];
     [exact Hr03|congruence|congruence|right; split; [congruence|auto]|(left; congruence) || (right; auto)|
      intros _; split; [congruence|auto]]).
Qed.

Lemma recover_rest_spec d :
  idle d →
  wp (notify_committed r (d_committedGxacts d);;
      set_gxacts [];;
      htab <- gatherRMInDoubtTransactions r;;
      abortRMInDoubtTransactions r htab;;
      htab <- gatherRMInDoubtTransactions r;;
      match htab with [] => RemoveRedoUtilityModeFile r | _ => raise FATAL end) (run_post d) d.
Proof.
  intros Hi. set (A h := array_has d h). apply proc_bind.
  eapply proc_mono; [apply (notify_committed_spec A); [done|]|].
  { intros l Hl. by apply list_elem_of_fmap_2. }
  intros o d1 (Hr1 & S1 & R1). destruct o as [[]| | |]; cbn [next].
  2,3,4: destruct S1 as (E1 & E2 & _ & E4 & E5); split_and!; [exact Hr1|done|done|by left|by left|done].
  apply proc_bind, wp_modify. cbn [next]. apply abort_rest_spec; [exact Hr1|by destruct S1 as (_ & S1)|done|].
  intros h (l & -> & Hl)%list_elem_of_fmap. by apply R1.
Qed.

(** *** The whole run *)

(** The replay: [d1] is the state behind it, complete or not. *)
Definition replay_post d d1 (complete : Prop) : Prop :=
  let f := default [] (d_redoFile d) in
  same_but_array d d1 ∧
  (∀ h, array_has d1 h → array_has d h ∨ in_file true h f) ∧
  (∀ h, ¬ in_file false h f → array_has d h → array_has d1 h) ∧
  (complete → open_fails r = false → ∀ h, ¬ in_file false h f → in_file true h f → array_has d1 h).

Lemma replay_spec d : wp (ReplayRedoFromUtilityMode r) (λ o d1, replay_post d d1 (o = Ret tt)) d.
Proof.
  unfold ReplayRedoFromUtilityMode. apply proc_bind, wp_get. cbn [next]. unfold replay_post.
  destruct (d_redoFile d) as [f|].
  - destruct (open_fails r) eqn:Ho; [apply proc_ret; split_and!; [done|auto|auto|done]|].
    eapply proc_mono; [by apply replay_any|]. intros o d1 (S1 & U1 & K1 & R1). by split_and!; auto.
  - apply proc_ret. split_and!; [done|auto|auto|]. intros _ _ h _ (l & Hl & _). set_solver.
Qed.

Lemma recoverTM_spec d :
  idle d →
  let d1 := (ReplayRedoFromUtilityMode r d).2 in
  wp (recoverTM r) (λ o d',
    (o ≠ Ret tt ∧ d' = d1 ∧ replay_post d d1 False) ∨
    (replay_post d d1 True ∧ run_post d1 o d' ∧ (o = Ret tt → d_DtmStarted d' = true))) d.
Proof.
  intros Hi d1. pose proof (replay_spec d) as Hrep. unfold wp in Hrep. fold d1 in Hrep. destruct Hrep as (S1 & U1 & K1 & R1).
  unfold recoverTM, recoverInDoubtTransactions. apply proc_bind, proc_bind. unfold wp at 1. fold d1.
  assert (Hi1 : idle d1) by (unfold idle; by rewrite (proj1 S1)).
  destruct (ReplayRedoFromUtilityMode r d).1 as [[]| | |]; cbn [next]; [|left; by split_and!..].
  assert (Hp1 : replay_post d d1 True) by (split_and!; auto).
  apply proc_bind, wp_get. cbn [next]. eapply proc_mono; [by apply recover_rest_spec|].
  intros o d2 Hr. destruct o as [[]| | |]; cbn [next]; [|by right; split_and!..].
  apply wp_modify. right. split_and!; [done| |done]. exact Hr.
Qed.
End Run.

(** A run of the recovery resolves what is in doubt.  The array that counts is the one behind the replay of
    the file that restarts in utility mode have left; without a file it is the array itself.  Whatever
    messages, the log and the file do, a transaction is committed on a segment only if it was, or if it is
    in the array and was prepared there; nothing committed is lost; and a transaction of the array that was
    prepared is still prepared or is committed.  If the run returns, the array is empty, transactions may
    start, nothing is prepared on any segment, and exactly the transactions of the array that were
    prepared have been committed. *)
Lemma recovery_resolves {T : Type} `{LocalTMLaws T} (r : recovery_environment) (d : dtm T) :
  cdbcomponent_getCdbComponentsList (r_env r) ≠ [] → r_role r = GP_ROLE_DISPATCH →
  (∀ l, hash_order r l ≡ₚ l) → idle d →
  let '(o, d') := recoverTM r d in
  let w := q_segs (d_qd d) in let w' := q_segs (d_qd d') in
  let array := gl_gid <$> d_committedGxacts (ReplayRedoFromUtilityMode r d).2 in
  (∀ i k, is_committed k (w' i) → is_committed k (w i) ∨ (k ∈ array ∧ is_prepared k (w i))) ∧
  (∀ i k, is_committed k (w i) → is_committed k (w' i)) ∧
  (∀ i k, k ∈ array → is_prepared k (w i) → is_prepared k (w' i) ∨ is_committed k (w' i)) ∧
  (o = Ret tt → d_DtmStarted d' = true ∧ d_committedGxacts d' = [] ∧
     ∀ i, i ∈ cdbcomponent_getCdbComponentsList (r_env r) → ∀ k,
       ¬ is_prepared k (w' i) ∧
       (is_committed k (w' i) ↔ is_committed k (w i) ∨ (k ∈ array ∧ is_prepared k (w i)))).
Proof.
  intros Hne Hrole Horder Hi.
  pose proof (recoverTM_spec r Hne ltac:(congruence) Horder d Hi) as Hr. unfold wp in Hr.
  destruct (recoverTM r d) as [o d']. cbn [fst snd] in Hr. set (d1 := (ReplayRedoFromUtilityMode r d).2) in *. clearbody d1.
  assert (Ew : q_segs (d_qd d1) = q_segs (d_qd d)) by (destruct Hr as [(_ & _ & S1 & _)|((S1 & _) & _)]; by rewrite (proj1 S1)).
  destruct Hr as [(Ho & -> & _)|(_ & Hrun & Hstart)]; rewrite <-Ew.
  - split_and!; auto. done.
  - destruct Hrun as ((_ & [C K P O] & _) & _ & _ & _ & _ & Hret).
    split_and!; [exact C|exact K|exact O|]. intros Ho. destruct (Hret Ho) as [He Hres]. split_and!; [auto|done|].
    intros i Hi' k. pose proof (Hres k i Hi') as Hn. split; [done|]. split; [apply C|].
    intros [Hk|[Hk Hp']]; [by apply K|]. by destruct (O i k Hk Hp').
Qed.
