(* ===== verification/DtxHistory.v ===== *)
(** * Distributed transactions: crashes, restarts and recovery

    The server as a state machine: it goes down at any point, is restarted in one role or another,
    takes checkpoints, and runs the recovery.  A transaction whose end began before stays decided in
    one way through every such history, provided that no checkpoint drops an entry of the array;
    a checkpoint drops every second one, and a commit that is logged can be lost that way. *)
From stdpp Require Import functions relations.
From S2P Require Import Prelude Proc Bytes Bitmapset DistributedSnapshot DtxContextInfo Dtm DtmFacts.
From S2P Require Import DtmAtomic DtxRecovery DtxRecoveryFacts DtxRecoveryRun.

(** ** Restarts, whatever happens *)

Section Restart.
Context {T : Type} `{LocalTMLaws T} (r : recovery_environment).
Implicit Types (d : dtm T) (h : gid).

(** The same environment with a file that can be read. *)
Definition reading : recovery_environment :=
  mkRenv (r_env r) (r_role r) (max_tm_gxacts r) (open_fails r) (unlink_fails r) (write_fails r)
    (λ _, ReadRecord) (hash_order r).

Lemma redo_records_reading rs n :
  redo_records (T := T) r rs = replay_records reading (saved_entry <$> rs) n.
Proof.
  revert n. induction rs as [|[g|g] rs IH]; intros n; [done|..]; rewrite fmap_cons; cbn [redo_records saved_entry replay_records reading read_fates];
    rewrite <- (IH (S n)); [|done]. unfold xact_redo_distributed_commit. cbn [gxact_log gl_gxid gl_gid].
  by rewrite Z.eqb_refl.
Qed.

Lemma redo_checkpoint_reading ls n :
  redoDtxCheckPoint (T := T) r ls = replay_records reading ((λ l, (true, l)) <$> ls) n.
Proof.
  revert n. induction ls as [|l ls IH]; intros n; [done|]. rewrite fmap_cons.
  cbn [redoDtxCheckPoint redo_checkpoint_entries replay_records reading read_fates]. by rewrite <- (IH (S n)).
Qed.

Lemma in_file_records c h rs :
  in_file c h (saved_entry <$> rs) ↔ (if c then DistributedCommit h else DistributedForget h) ∈ rs.
Proof.
  unfold in_file. split.
  - intros (l & (rec & E & Hr)%list_elem_of_fmap & <-). destruct rec, c; cbn in E; simplify_eq; exact Hr.
  - intros Hr. exists (gxact_log h). split; [|done]. apply list_elem_of_fmap. destruct c; eexists; (split; [|exact Hr]; done).
Qed.

Lemma in_file_entries c h (ls : list TMGXACT_LOG) :
  in_file c h ((λ l, (true, l)) <$> ls) ↔ c = true ∧ h ∈ gids ls.
Proof.
  unfold in_file. split.
  - intros (l & (l' & [= -> ->] & Hl)%list_elem_of_fmap & <-). split; [done|]. by apply list_elem_of_fmap_2.
  - intros (-> & (l & -> & Hl)%list_elem_of_fmap). exists l. split; [|done]. apply list_elem_of_fmap. by exists l.
Qed.

Abbreviation rest d := (drop (d_redo_from d) (q_wal (d_qd d))).

Lemma startup_any d :
  r_role r ≠ GP_ROLE_UTILITY →
  wp (StartupXLOG r) (λ o d', same_but_array d d' ∧
    (∀ h, array_has d' h → array_has d h ∨ h ∈ gids (d_checkpoint d) ∨ DistributedCommit h ∈ rest d) ∧
    (o = Ret tt → ∀ h, DistributedForget h ∉ rest d → h ∈ gids (d_checkpoint d) ∨ DistributedCommit h ∈ rest d →
       array_has d' h)) d.
Proof.
  intros Hr. unfold StartupXLOG, UtilityModeFindOrCreateDtmRedoFile. rewrite bool_decide_eq_true_2 by done.
  apply proc_bind, proc_ret. cbn [next]. apply proc_bind, wp_get. cbn [next]. apply proc_bind.
  rewrite (redo_checkpoint_reading _ 0). eapply proc_mono; [by apply (replay_any reading)|].
  intros o d1 (S1 & U1 & K1 & R1). setoid_rewrite in_file_entries in U1. setoid_rewrite in_file_entries in R1.
  destruct o as [[]| | |]; cbn [next]; [|split_and!; [done| |done]; intros h [Hh|[_ Hh]]%U1; auto..].
  rewrite (redo_records_reading _ 0). eapply proc_mono; [by apply (replay_any reading)|].
  intros o d2 (S2 & U2 & K2 & R2). setoid_rewrite in_file_records in U2. setoid_rewrite in_file_records in R2.
  setoid_rewrite in_file_records in K2. split_and!; [by transitivity d1| |].
  - intros h [Hh|Hh]%U2; [apply U1 in Hh as [?|[_ ?]]|]; auto.
  - intros Ho h Hn [Hh|Hh]; [|by apply R2]. apply K2; [done|]. apply R1; [done|naive_solver|done].
Qed.

(** In utility mode only the file changes, and it grows. *)
Definition file d : list utility_redo := default [] (d_redoFile d).
Definition same_but_file d d' : Prop :=
  d_qd d' = d_qd d ∧ d_committedGxacts d' = d_committedGxacts d ∧ d_DtmStarted d' = d_DtmStarted d ∧
  d_checkpoint d' = d_checkpoint d ∧ d_redo_from d' = d_redo_from d.

#[global] Instance same_but_file_refl : Reflexive same_but_file.
Proof. intros d. by split_and!. Qed.
#[global] Instance same_but_file_trans : Transitive same_but_file.
Proof. intros d1 d2 d3 (? & ? & ? & ? & ?) (? & ? & ? & ? & ?). split_and!; congruence. Qed.

Lemma in_file_app c h f1 f2 : in_file c h (f1 ++ f2) ↔ in_file c h f1 ∨ in_file c h f2.
Proof. unfold in_file. setoid_rewrite elem_of_app. naive_solver. Qed.

(** A loop that saves the entries of [es] one by one. *)
Lemma save_any (es : list utility_redo) d n :
  r_role r = GP_ROLE_UTILITY →
  wp (replay_records reading es n) (λ o d', same_but_file d d' ∧
    ∃ es', file d' = file d ++ es' ∧ es' `prefix_of` es ∧ (o = Ret tt → es' = es)) d.
Proof.
  intros Hr. revert d n. induction es as [|[c l] es IH]; intros d n; cbn [replay_records reading read_fates].
  { apply proc_ret. split; [done|]. exists []. by rewrite app_nil_r. }
  assert (Hnone : ∀ o, o ≠ Ret tt → same_but_file d d ∧
    ∃ es', file d = file d ++ es' ∧ es' `prefix_of` (c, l) :: es ∧ (o = Ret tt → es' = (c, l) :: es)).
  { intros o Ho. split; [done|]. exists []. rewrite app_nil_r. split_and!; [done|apply prefix_nil|done]. }
  assert (Hsave : wp (UtilityModeSaveRedo reading c l) (λ o d', (o = Ret tt ∧ same_but_file d d' ∧
    file d' = file d ++ [(c, l)]) ∨ (o = ERROR ∧ d' = d)) d).
  { unfold UtilityModeSaveRedo. apply proc_bind, wp_get. cbn [next]. destruct (d_redoFile d) as [f|] eqn:Hf.
    - destruct (write_fails reading (length f)); [apply wp_raise; by right|]. apply wp_modify. left. split_and!; try done.
      unfold file. by rewrite Hf.
    - apply wp_raise. by right. }
  assert (Hone : wp (if c then redoDistributedCommitRecord reading l else redoDistributedForgetCommitRecord reading l)
    (λ o d', (o = Ret tt ∧ same_but_file d d' ∧ file d' = file d ++ [(c, l)]) ∨ (o ≠ Ret tt ∧ d' = d)) d).
  { destruct c.
    - unfold redoDistributedCommitRecord. destruct (TMGIDSIZE <=? _); [apply wp_raise; by right|].
      rewrite bool_decide_eq_true_2 by done. eapply proc_mono; [exact Hsave|]. intros o d' [?|[-> ->]]; [by left|by right].
    - unfold redoDistributedForgetCommitRecord. rewrite bool_decide_eq_true_2 by done.
      eapply proc_mono; [exact Hsave|]. intros o d' [?|[-> ->]]; [by left|by right]. }
  apply proc_bind. eapply proc_mono; [exact Hone|]. intros o d1 [(-> & S1 & F1)|(Ho & ->)]; cbn [next].
  - eapply proc_mono; [apply IH|]. intros o d2 (S2 & es' & F2 & Hpre & Hret). split; [by transitivity d1|].
    exists ((c, l) :: es'). split_and!; [by rewrite F2, F1, <- app_assoc|by apply prefix_cons|].
    intros Ho. by rewrite Hret.
  - destruct o as [[]| | |]; [done|by apply Hnone..].
Qed.

Lemma startup_utility_any d :
  r_role r = GP_ROLE_UTILITY →
  wp (StartupXLOG r) (λ o d', same_but_file d d' ∧
    (∀ c h, in_file c h (file d) → in_file c h (file d')) ∧
    (∀ h, in_file true h (file d') →
       in_file true h (file d) ∨ h ∈ gids (d_checkpoint d) ∨ DistributedCommit h ∈ rest d) ∧
    (∀ h, in_file false h (file d') → in_file false h (file d) ∨ DistributedForget h ∈ rest d) ∧
    (o = Ret tt → ∀ h, h ∈ gids (d_checkpoint d) ∨ DistributedCommit h ∈ rest d → in_file true h (file d'))) d.
Proof.
  intros Hr. unfold StartupXLOG, UtilityModeFindOrCreateDtmRedoFile. rewrite bool_decide_eq_false_2 by auto.
  apply proc_bind. destruct (open_fails r).
  { apply wp_raise. cbn [next]. split_and!; [done|auto..|done]. }
  apply proc_bind, wp_get. cbn [next]. apply wp_modify. cbn [next]. apply proc_bind, wp_get. cbn [next]. apply proc_bind.
  cbn [d_checkpoint d_redo_from d_qd]. rewrite (redo_checkpoint_reading _ 0).
  eapply proc_mono; [by apply save_any|]. intros o d1 (S1 & es1 & F1 & [x1 Hx1] & R1).
  assert (F1' : file d1 = file d ++ es1) by exact F1. clear F1.
  assert (S1' : same_but_file d d1) by exact S1. clear S1.
  assert (Hfin : ∀ o d2 es2 x2, same_but_file d d2 → file d2 = (file d ++ es1) ++ es2 →
    saved_entry <$> rest d = es2 ++ x2 →
    (o = Ret tt → x1 = [] ∧ x2 = []) → same_but_file d d2 ∧
    (∀ c h, in_file c h (file d) → in_file c h (file d2)) ∧
    (∀ h, in_file true h (file d2) →
       in_file true h (file d) ∨ h ∈ gids (d_checkpoint d) ∨ DistributedCommit h ∈ rest d) ∧
    (∀ h, in_file false h (file d2) → in_file false h (file d) ∨ DistributedForget h ∈ rest d) ∧
    (o = Ret tt → ∀ h, h ∈ gids (d_checkpoint d) ∨ DistributedCommit h ∈ rest d → in_file true h (file d2))).
  { intros o' d2 es2 x2 S2 F2 Hx2 Ho.
    assert (Hin1 : ∀ c h, in_file c h es1 → c = true ∧ h ∈ gids (d_checkpoint d)).
    { intros c h Hh. apply in_file_entries. rewrite Hx1, in_file_app. by left. }
    assert (Hin2 : ∀ c h, in_file c h es2 → (if c then DistributedCommit h else DistributedForget h) ∈ rest d).
    { intros c h Hh. apply in_file_records. rewrite Hx2, in_file_app. by left. }
    rewrite F2. setoid_rewrite in_file_app. setoid_rewrite in_file_app. split_and!; [done|auto| | |].
    - intros h [[Hh|[_ Hh]%Hin1]|Hh%Hin2]; auto.
    - intros h [[Hh|[? Hh]%Hin1]|Hh%Hin2]; auto; done.
    - intros Ho' h. destruct (Ho Ho') as [-> ->]. rewrite app_nil_r in *. subst es1 es2.
      setoid_rewrite in_file_entries. setoid_rewrite in_file_records. naive_solver. }
  destruct o as [[]| | |]; cbn [next].
  2,3,4: apply (Hfin _ d1 [] (saved_entry <$> rest d)); [done|by rewrite app_nil_r|done|done].
  specialize (R1 eq_refl). rewrite (redo_records_reading _ 0). eapply proc_mono; [by apply save_any|].
  intros o d2 (S2 & es2 & F2 & [x2 Hx2] & R2). apply (Hfin o d2 es2 x2); [by transitivity d1|by rewrite F2, F1'|done|].
  intros Ho. split; [|specialize (R2 Ho)].
  - rewrite R1 in Hx1. apply (f_equal length) in Hx1. rewrite length_app in Hx1. apply nil_length_inv. lia.
  - rewrite R2 in Hx2. apply (f_equal length) in Hx2. rewrite length_app in Hx2. apply nil_length_inv. lia.
Qed.
End Restart.

(** ** The server *)

Definition is_forget (rec : dtx_record) : Prop := match rec with DistributedForget _ => True | _ => False end.

Section Server.
Context {T : Type} `{LocalTMLaws T}.
Implicit Types (d : dtm T) (w : Z → segment T) (st : option GpRoleValue).

(** The role in which the server is up, or [None]; forget records at the end of the log need not be
    on disk at a crash; a file that exists can be opened. *)
Inductive server_step (checkpoint_ok : list TMGXACT_LOG → Prop) (P : list Z) :
    option GpRoleValue * dtm T → option GpRoleValue * dtm T → Prop :=
  | step_restart st d r n o d' :
      (d_redo_from d ≤ n)%nat → Forall is_forget (drop n (q_wal (d_qd d))) →
      StartupXLOG r (crash n d) = (o, d') →
      server_step checkpoint_ok P (st, d) (match o with Ret _ => Some (r_role r) | _ => None end, d')
  | step_recovery d r o d' :
      r_role r = GP_ROLE_DISPATCH → open_fails r = false → (∀ l, hash_order r l ≡ₚ l) →
      (∀ i, i ∈ P → i ∈ cdbcomponent_getCdbComponentsList (r_env r)) → recoverTM r d = (o, d') →
      server_step checkpoint_ok P (Some GP_ROLE_DISPATCH, d)
        (match o with PANIC => None | _ => Some GP_ROLE_DISPATCH end, d')
  | step_checkpoint role d :
      checkpoint_ok (d_committedGxacts d) →
      server_step checkpoint_ok P (Some role, d) (Some role, (CreateCheckPoint d).2).

Context (g : gid) (P : list Z) (P_nonempty : P ≠ []).
Abbreviation rest d := (drop (d_redo_from d) (q_wal (d_qd d))).
Abbreviation world d := (q_segs (d_qd d)).
Abbreviation wal d := (q_wal (d_qd d)).

(** A commit that is not finished will be found: in the array now, and by the redo of a restart. *)
Definition recoverable st d : Prop :=
  DistributedForget g ∉ wal d ∧ ¬ in_file false g (file d) ∧
  (g ∈ gids (d_checkpoint d) ∨ DistributedCommit g ∈ rest d ∨ in_file true g (file d)) ∧
  (st ≠ None → array_has d g ∨ in_file true g (file d)).

Definition commit_decided st d : Prop :=
  DistributedCommit g ∈ wal d ∧ voted g P (world d) ∧ (all_committed g P (world d) ∨ recoverable st d).

Definition abort_decided d : Prop :=
  DistributedCommit g ∉ wal d ∧ uncommitted g P (world d) ∧ g ∉ gids (d_checkpoint d) ∧
  ¬ in_file true g (file d) ∧ ¬ array_has d g.

Definition server_inv (s : option GpRoleValue * dtm T) : Prop :=
  let '(st, d) := s in
  (st ≠ None → idle d) ∧ (d_redo_from d ≤ length (wal d))%nat ∧ (abort_decided d ∨ commit_decided st d).

(** *** The segments *)

Lemma uncommitted_progress A w w' : ¬ A g → progress A w w' → uncommitted g P w → uncommitted g P w'.
Proof.
  intros Ha [C _ Pr _] [H1 H2]. split; intros i.
  - intros [Hc|[? _]]%C; [by apply (H1 i)|done].
  - intros Hi Hp%Pr. by apply (H2 i).
Qed.

Lemma all_committed_progress A w w' : progress A w w' → all_committed g P w → all_committed g P w'.
Proof.
  intros [C K Pr _] [H1 H2]. split; intros i Hi.
  - destruct (H1 i Hi) as [Hc Hp]. split; [by apply K|]. intros Hp'%Pr. done.
  - destruct (H2 i Hi) as [Hc Hp]. split; [intros [?|[_ ?]]%C; done|intros Hp'%Pr; done].
Qed.

Lemma voted_progress (A : gid → Prop) w w' : A g → progress A w w' → voted g P w → voted g P w'.
Proof.
  intros Ha [C K Pr O] [H1 H2]. split; intros i Hi.
  - destruct (H1 i Hi) as [Hp|Hc]; [by apply O|right; by apply K].
  - destruct (H2 i Hi) as [Hc Hp]. split; [intros [?|[_ ?]]%C; done|intros Hp'%Pr; done].
Qed.

Lemma voted_resolved env w :
  (∀ i, i ∈ P → i ∈ cdbcomponent_getCdbComponentsList env) → resolved env g w → voted g P w → all_committed g P w.
Proof.
  intros Hk Hr [H1 H2]. split; [|done]. intros i Hi. pose proof (Hr i (Hk i Hi)) as Hn.
  destruct (H1 i Hi) as [Hp|Hc]; done.
Qed.

Lemma uncommitted_resolved env w :
  (∀ i, i ∈ P → i ∈ cdbcomponent_getCdbComponentsList env) → resolved env g w → uncommitted g P w → clean g w.
Proof.
  intros Hk Hr [H1 H2] i. split; [done|]. destruct (decide (i ∈ P)) as [Hi|Hi]; [by apply Hr, Hk|by apply H2].
Qed.

(** *** The steps *)

Lemma commit_kept n (l : list dtx_record) :
  Forall is_forget (drop n l) → ∀ m, (m ≤ n)%nat → DistributedCommit g ∈ drop m l → DistributedCommit g ∈ drop m (take n l).
Proof.
  intros Hf m Hm Hc. rewrite <- (take_drop n l) in Hc. rewrite drop_app in Hc.
  apply elem_of_app in Hc as [Hc|Hc]; [done|]. exfalso.
  rewrite Forall_forall in Hf. apply (Hf (DistributedCommit g)). by apply subseteq_drop in Hc.
Qed.

Lemma copy_committed_subset ls : copy_committed ls ⊆ ls.
Proof.
  assert (Hn : ∀ n ls, (length ls ≤ n)%nat → copy_committed ls ⊆ ls); [|by apply (Hn (length ls))].
  clear ls. induction n as [|n IH]; intros [|l1 [|l2 ls]] Hl; cbn [length] in Hl; try done; [lia..|].
  cbn [copy_committed]. intros x [->|Hx]%elem_of_cons; [by left|]. right. right. apply (IH ls); [lia|done].
Qed.

Lemma copy_committed_one ls : (length ls ≤ 1)%nat → copy_committed ls = ls.
Proof. destruct ls as [|l1 [|l2 ls]]; cbn [length]; [done|done|lia]. Qed.

Lemma inv_checkpoint role d :
  (length (d_committedGxacts d) ≤ 1)%nat → server_inv (Some role, d) → server_inv (Some role, (CreateCheckPoint d).2).
Proof.
  intros Hl (Hi & Hn & Hd). unfold server_inv, CreateCheckPoint, modify, getDtxCheckPointInfo. cbn [negb snd].
  rewrite app_nil_r, copy_committed_one by done. split_and!; [done|by cbn|]. destruct Hd as [(B1 & B2 & B3 & B4 & B5)|(A1 & A2 & A3)].
  - left. by split_and!.
  - right. split_and!; [done|done|]. destruct A3 as [A3|(R1 & R2 & R3 & R4)]; [by left|right]. split_and!; try done.
    cbn [d_checkpoint d_redo_from d_qd]. destruct (R4 ltac:(done)); auto.
Qed.

Lemma inv_restart st d r n o d' :
  (d_redo_from d ≤ n)%nat → Forall is_forget (drop n (wal d)) → StartupXLOG r (crash n d) = (o, d') →
  server_inv (st, d) → server_inv (match o with Ret _ => Some (r_role r) | _ => None end, d') ∧
  (DistributedCommit g ∈ wal d' ↔ DistributedCommit g ∈ wal d).
Proof.
  intros Hrf Hforget Hs (_ & Hlen & Hd). set (dc := crash n d) in *.
  assert (Hsame : same_world (world d) (world dc)) by (intros i; apply end_session_same).
  assert (Hw : ∀ rec, rec ∈ wal dc → rec ∈ wal d) by (intros rec Hrec; by apply subseteq_take in Hrec).
  assert (Hrest : ∀ rec, rec ∈ rest dc → rec ∈ wal dc) by (intros rec Hrec; by apply subseteq_drop in Hrec).
  assert (Hlenc : (d_redo_from dc ≤ length (wal dc))%nat) by (cbn; rewrite length_take; lia).
  assert (Hcommit : DistributedCommit g ∈ wal d → DistributedCommit g ∈ wal dc).
  { intros Hc. apply (commit_kept n _ Hforget 0%nat); [lia|done]. }
  assert (Hcommit' : DistributedCommit g ∈ rest d → DistributedCommit g ∈ rest dc) by by apply commit_kept.
  assert (Hdc : abort_decided dc ∨ commit_decided None dc).
  { destruct Hd as [(B1 & B2 & B3 & B4 & B5)|(A1 & A2 & A3)].
    - left. split_and!; [naive_solver|by rewrite <- Hsame|done|done|set_solver].
    - right. split_and!; [auto|by rewrite <- Hsame|].
      destruct A3 as [A3|(R1 & R2 & R3 & _)]; [left; by rewrite <- Hsame|right].
      split_and!; [naive_solver|done| |done]. destruct R3 as [R3|[R3|R3]]; auto. }
  assert (Hiff : DistributedCommit g ∈ wal dc ↔ DistributedCommit g ∈ wal d) by (split; auto).
  clear Hd Hcommit Hcommit' Hsame Hw. pose proof (f_equal fst Hs) as Ho. pose proof (f_equal snd Hs) as Ed.
  cbn [fst snd] in Ho, Ed. destruct (decide (r_role r = GP_ROLE_UTILITY)) as [Hr|Hr].
  - pose proof (startup_utility_any r dc Hr) as Hu. unfold wp in Hu. rewrite Ho, Ed in Hu.
    destruct Hu as ((Q & Q2 & _ & Q4 & Q5) & F1 & F2 & F3 & F4). unfold server_inv, idle. rewrite Q, Q5.
    split; [|done]. split_and!; [done|done|]. unfold abort_decided, commit_decided, recoverable. rewrite Q, Q2, Q4, Q5.
    destruct Hdc as [(B1 & B2 & B3 & B4 & B5)|(A1 & A2 & A3)].
    + left. split_and!; try done. intros [?|[?|?]]%F2; auto.
    + right. split_and!; [done|done|]. destruct A3 as [A3|(R1 & R2 & R3 & _)]; [by left|right].
      split_and!; [done| | |].
      * intros [?|?]%F3; [done|]. by apply R1, Hrest.
      * destruct R3 as [?|[?|?]]; auto.
      * intros Hne. right. destruct o as [[]| | |]; [|done..]. destruct R3 as [?|[?|?]]; auto.
  - pose proof (startup_any r dc Hr) as Hu. unfold wp in Hu. rewrite Ho, Ed in Hu.
    destruct Hu as ((Q & Q2 & _ & Q4 & Q5) & F1 & F2). unfold server_inv, idle. rewrite Q, Q5.
    split; [|done]. split_and!; [done|done|]. unfold abort_decided, commit_decided, recoverable, file. rewrite Q, Q2, Q4, Q5.
    destruct Hdc as [(B1 & B2 & B3 & B4 & B5)|(A1 & A2 & A3)].
    + left. split_and!; try done. intros [?|[?|?]]%F1; auto.
    + right. split_and!; [done|done|]. destruct A3 as [A3|(R1 & R2 & R3 & _)]; [by left|right].
      split_and!; try done. intros Hne. destruct o as [[]| | |]; [|done..].
      destruct R3 as [R3|[R3|R3]]; [left; apply F2; auto..|by right].
Qed.

(** A run of the recovery: it keeps the decision, and has carried it out if it returns. *)
Lemma inv_recovery d r o d' :
  r_role r = GP_ROLE_DISPATCH → open_fails r = false → (∀ l, hash_order r l ≡ₚ l) →
  (∀ i, i ∈ P → i ∈ cdbcomponent_getCdbComponentsList (r_env r)) → recoverTM r d = (o, d') →
  server_inv (Some GP_ROLE_DISPATCH, d) →
  server_inv (Some GP_ROLE_DISPATCH, d') ∧ (DistributedCommit g ∈ wal d' ↔ DistributedCommit g ∈ wal d) ∧
  (o = Ret tt → (DistributedCommit g ∈ wal d' ∧ all_committed g P (world d')) ∨
                (DistributedCommit g ∉ wal d' ∧ clean g (world d'))).
Proof.
  intros Hr Hopen Horder Hk Hrun (Hi & Hlen & Hd). specialize (Hi ltac:(done)).
  assert (Hne : cdbcomponent_getCdbComponentsList (r_env r) ≠ []).
  { destruct P as [|i P']; [done|]. intros E. specialize (Hk i ltac:(by left)). rewrite E in Hk. set_solver. }
  pose proof (recoverTM_spec r Hne ltac:(congruence) Horder d Hi) as Hspec. unfold wp in Hspec.
  rewrite Hrun in Hspec. cbn [fst snd] in Hspec. set (d1 := (ReplayRedoFromUtilityMode r d).2) in *. clearbody d1.
  destruct Hspec as [(Ho & -> & Hp)|(Hp & Hpost & _)].
  - destruct Hp as ((Q & Q2 & _ & Q4 & Q5) & U1 & K1 & _). unfold server_inv, idle. rewrite Q, Q5.
    split; [|done]. split_and!; [done|done|]. unfold abort_decided, commit_decided, recoverable, file in *. rewrite Q, Q2, Q4, Q5.
    destruct Hd as [(B1 & B2 & B3 & B4 & B5)|(A1 & A2 & A3)].
    + left. split_and!; try done. intros [?|?]%U1; auto.
    + right. split_and!; [done|done|]. destruct A3 as [A3|(R1 & R2 & R3 & R4)]; [by left|right]. split_and!; try done.
      intros Hst. destruct (R4 Hst); auto.
  - destruct Hp as ((Q & Q2 & _ & Q4 & Q5) & U1 & K1 & R1). unfold idle in *.
    destruct Hpost as ((I' & Hprog & F & HF & HF') & C' & N' & Arr & File & Hret). rewrite Q in Hprog, HF.
    set (A h := array_has d1 h) in *.
    assert (Hlen' : (d_redo_from d' ≤ length (wal d'))%nat) by (rewrite N', Q5, HF, length_app; lia).
    assert (Hcm : DistributedCommit g ∈ wal d' ↔ DistributedCommit g ∈ wal d).
    { rewrite HF, elem_of_app, list_elem_of_fmap. naive_solver. }
    destruct Hd as [(B1 & B2 & B3 & B4 & B5)|(A1 & A2 & A3)].
    + assert (Ha : ¬ A g) by (intros [?|?]%U1; auto). assert (Hu : uncommitted g P (world d')) by by eapply uncommitted_progress.
      split; [|split; [done|]].
      * split_and!; [done|done|]. left. split_and!; [by rewrite Hcm|done|by rewrite C', Q4| |].
        -- unfold file. destruct File as [->|[-> _]]; [by rewrite Q2|intros (l & Hl & _); set_solver].
        -- destruct Arr as [->|[-> _]]; [done|set_solver].
      * intros Ho. right. split; [by rewrite Hcm|]. eapply uncommitted_resolved; [done| |done]. by apply Hret.
    + assert (Hgoal : voted g P (world d') ∧ (all_committed g P (world d') ∨
        A g ∧ ¬ resolved (r_env r) g (world d') ∧ recoverable (Some GP_ROLE_DISPATCH) d)).
      { destruct A3 as [A3|R]; [split; [|left]; [apply all_committed_voted|]; by eapply all_committed_progress|].
        assert (Ha : A g) by (destruct R as (_ & R2 & _ & R4); destruct (R4 ltac:(done)); [by apply K1|by apply R1]).
        assert (Hv : voted g P (world d')) by by eapply voted_progress. split; [done|].
        destruct (decide (Forall (λ i, ¬ is_prepared g (world d' i)) (cdbcomponent_getCdbComponentsList (r_env r))))
          as [Hres|Hres].
        - left. eapply voted_resolved; [done| |done]. intros i Hii. by apply (proj1 (Forall_forall _ _) Hres).
        - right. split_and!; [done| |done]. intros Hx. apply Hres, Forall_forall. exact Hx. }
      destruct Hgoal as [Hv Hg]. split; [|split; [done|]].
      * split_and!; [done|done|]. right. split_and!; [by rewrite Hcm|done|].
        destruct Hg as [Hg|(Ha & Hnr & R1' & R2 & R3 & R4)]; [by left|right].
        assert (Ef : file d' = file d) by (unfold file; destruct File as [->|[_ Hx]]; [by rewrite Q2|by destruct Hnr; apply Hx]).
        unfold recoverable. rewrite Ef, HF, C', N', Q4, Q5. split_and!; [|done| |].
        -- intros [?|(h & [= <-] & Hh)%list_elem_of_fmap]%elem_of_app; [done|]. by apply Hnr, HF'.
        -- destruct R3 as [?|[R3|?]]; [auto| |auto]. right. left. rewrite drop_app. set_solver.
        -- intros _. left. destruct Arr as [->|[_ Hx]]; [done|]. by destruct Hnr; apply Hx.
      * intros Ho. left. split; [by rewrite Hcm|]. destruct (Hret Ho) as [_ Hres].
        eapply voted_resolved; [done|apply Hres|done].
Qed.

Lemma inv_history s s' :
  rtc (server_step (λ l, (length l ≤ 1)%nat) P) s s' → server_inv s →
  server_inv s' ∧ (DistributedCommit g ∈ wal s'.2 ↔ DistributedCommit g ∈ wal s.2).
Proof.
  induction 1 as [s|s1 s2 s3 Hs _ IH]; [done|]. intros Hinv.
  assert (Hstep : server_inv s2 ∧ (DistributedCommit g ∈ wal s2.2 ↔ DistributedCommit g ∈ wal s1.2)).
  { destruct Hs as [st d r n o d' H1 H2 H3|d r o d' H1 H2 H3 H4 H5|role d Hl]; cbn [snd].
    - by eapply inv_restart.
    - destruct (inv_recovery d r o d' H1 H2 H3 H4 H5 Hinv) as (Hi & Hiff & _). split; [|done].
      destruct o; try done. destruct Hi as (_ & Hl & Hd). split_and!; [done|done|].
      destruct Hd as [Hd|(A1 & A2 & A3)]; [by left|right]. split_and!; [done|done|].
      destruct A3 as [A3|(R1 & R2 & R3 & _)]; [by left|right]. by split_and!.
    - split; [by apply inv_checkpoint|done]. }
  destruct Hstep as [H2 E2]. destruct (IH H2) as [H3 E3]. split; [done|]. by rewrite E3.
Qed.
End Server.

(** ** Atomicity *)

(** C1: A distributed transaction is atomic across crashes.  However the end of a two-phase
    transaction went, and whatever sequence of crashes, restarts in dispatch or utility mode,
    checkpoints with at most one entry in the array and recovery runs follows, once a recovery run
    returns, the transaction is committed on all of its segments if its commit record is in the log,
    and on none of them, and prepared nowhere, if it is not; and the record is there exactly if it
    was when the end of the transaction was cut, in particular if the client was told so. *)
Theorem dtx_crash_atomic {T : Type} `{LocalTMLaws T} env (g : gid) (P : list Z) attempts (q : qd T) o q' d r d' :
  NoDup P → P ≠ [] → (∀ i, i ∈ P → i ∈ cdbcomponent_getCdbComponentsList env) → (2 ≤ attempts)%nat →
  two_phase env P → starting env g P q → end_transaction env attempts q = (o, q') →
  rtc (server_step (λ l, (length l ≤ 1)%nat) P) (None, mkDtm q' [] None false [] 0) (Some GP_ROLE_DISPATCH, d) →
  r_role r = GP_ROLE_DISPATCH → open_fails r = false → (∀ l, hash_order r l ≡ₚ l) →
  (∀ i, i ∈ P → i ∈ cdbcomponent_getCdbComponentsList (r_env r)) → recoverTM r d = (Ret tt, d') →
  (DistributedCommit g ∈ q_wal (d_qd d') ∧ all_committed g P (q_segs (d_qd d')) ∨
   DistributedCommit g ∉ q_wal (d_qd d') ∧ clean g (q_segs (d_qd d'))) ∧
  (DistributedCommit g ∈ q_wal (d_qd d') ↔ DistributedCommit g ∈ q_wal q') ∧
  (o = Ret true → DistributedCommit g ∈ q_wal q') ∧ (o = Ret false → DistributedCommit g ∉ q_wal q').
Proof.
  intros Hnd Hne Hk Ha H2 Hs He Hh H6 H7 H8 H9 H10.
  pose proof (end_transaction_atomic env g P attempts q Hnd Hne Hk Ha H2 Hs) as Hend. rewrite He in Hend.
  destruct Hend as [_ Hend].
  assert (Hinv : server_inv g P (None, mkDtm q' [] None false [] 0)).
  { split; [done|]. split; [cbn; lia|].
    assert (Hab : DistributedCommit g ∉ q_wal q' → uncommitted g P (q_segs q') → abort_decided g P (mkDtm q' [] None false [] 0)).
    { intros Hc Hu. split_and!; [done|done|set_solver| |set_solver]. intros (l & Hl & _). set_solver. }
    assert (Hdec : decided g P q' → commit_decided g P None (mkDtm q' [] None false [] 0)).
    { intros (D1 & D2 & D3). split_and!; [done|done|].
      destruct (decide (DistributedForget g ∈ q_wal q')) as [Hf|Hf]; [left; by apply D3|right].
      split_and!; [done| |auto|done]. intros (l & Hl & _). set_solver. }
    destruct o as [[]| | |]; [right|left|done|..].
    - apply Hdec. destruct Hend as (E1 & E2 & E3). split_and!; [done|by apply all_committed_voted|done].
    - destruct Hend as [E1 E2]. apply Hab; [done|by apply clean_uncommitted].
    - destruct Hend as [?|[? ?]]; [right|left]; auto.
    - destruct Hend as [?|[? ?]]; [right|left]; auto. }
  destruct (inv_history g P Hne _ _ Hh Hinv) as [Hd Hiff]. cbn [snd] in Hiff.
  destruct (inv_recovery g P Hne d r _ d' H6 H7 H8 H9 H10 Hd) as (_ & Hiff' & Hres).
  split_and!; [by apply Hres|by rewrite Hiff'| |].
  - intros ->. by destruct Hend.
  - intros ->. by destruct Hend.
Qed.

(** ** Checkpoints *)

Lemma copy_committed_lookup ls k : copy_committed ls !! k = ls !! (2 * k)%nat.
Proof.
  assert (Hn : ∀ n ls k, (length ls ≤ n)%nat → copy_committed ls !! k = ls !! (2 * k)%nat); [|by apply (Hn (length ls))].
  clear ls k. induction n as [|n IH]; intros [|l1 [|l2 ls]] k Hl; cbn [length] in Hl; try lia; try done.
  - destruct k as [|k]; [done|]. cbn [copy_committed]. by replace (2 * S k)%nat with (S (S (2 * k))) by lia.
  - destruct k as [|k]; [done|]. cbn [copy_committed]. rewrite !lookup_cons_ne_0 by lia. cbn [pred].
    rewrite IH by lia. replace (2 * S k)%nat with (S (S (2 * k))) by lia. done.
Qed.

Lemma run_eq {S A} (m : proc S A) s a : (m s).1 = a → m s = (a, (m s).2).
Proof. intros <-. by destruct (m s). Qed.

Module HistoryExample.
Definition g1 : gid := (77, 9).
Definition g2 : gid := (77, 10).
(** Two transactions are committed by the log and prepared on two segments. *)
Definition in_doubt_both : dtm sim :=
  mkDtm (RecoveryExample.dispatcher [DistributedCommit g1; DistributedCommit g2]
           (λ i, RecoveryExample.segment_with (if (i =? 0) || (i =? 1) then [g1; g2] else []))) [] None false [] 0.
Definition r : recovery_environment := RecoveryExample.renv GP_ROLE_DISPATCH.
Definition restarted : dtm sim := (StartupXLOG r (crash 2 in_doubt_both)).2.
Definition checkpointed : dtm sim := (CreateCheckPoint restarted).2.
Definition restarted_again : dtm sim := (StartupXLOG r (crash 2 checkpointed)).2.
Definition recovered : dtm sim := (recoverTM r restarted_again).2.

(** The commit of the first transaction reaches one of two segments only, and the server panics. *)
Definition cut_env : environment :=
  mkEnv (λ _, false) (λ n i, if Nat.eqb n 1 && (i =? 1) then NotDelivered else Answered) (λ _, Logged)
    2 0 true false false false false 77 5.
Definition cut : dtm sim := mkDtm (end_transaction cut_env 2 sim_start).2 [] None false [] 0.
Definition after_cut : dtm sim := (StartupXLOG r (crash 1 cut)).2.
End HistoryExample.

(** C32: A checkpoint takes only every second transaction of the array, at any length of it, and a
    committed transaction can be lost that way: with two transactions in doubt that the log has
    committed and both segments have prepared, a restart, a checkpoint and another restart followed
    by a recovery run that returns without any failure leave the second one aborted on both
    segments, while its commit record is in the log. *)
Theorem dtx_checkpoint_drops_commit :
  (∀ ls k, getDtxCheckPointInfo true ls [] !! k = ls !! (2 * k)%nat) ∧
  voted HistoryExample.g2 [0; 1] (q_segs (d_qd HistoryExample.in_doubt_both)) ∧
  rtc (server_step (λ _, True) [0; 1]) (None, HistoryExample.in_doubt_both)
    (Some GP_ROLE_DISPATCH, HistoryExample.restarted_again) ∧
  recoverTM HistoryExample.r HistoryExample.restarted_again = (Ret tt, HistoryExample.recovered) ∧
  DistributedCommit HistoryExample.g2 ∈ q_wal (d_qd HistoryExample.recovered) ∧
  Forall (λ i, ¬ is_committed HistoryExample.g2 (q_segs (d_qd HistoryExample.recovered) i) ∧
               ¬ is_prepared HistoryExample.g2 (q_segs (d_qd HistoryExample.recovered) i)) [0; 1].
Proof.
  split_and!.
  - intros ls k. unfold getDtxCheckPointInfo. cbn [negb]. by rewrite app_nil_r, copy_committed_lookup.
  - split.
    + intros i Hi. left. assert (i = 0 ∨ i = 1) as [->| ->] by set_solver; by apply (bool_decide_unpack _); vm_compute.
    + intros i Hi. cbn. assert (i ≠ 0 ∧ i ≠ 1) as [H0 H1] by set_solver.
      rewrite (proj2 (Z.eqb_neq _ _) H0), (proj2 (Z.eqb_neq _ _) H1). split; [done|]. unfold is_prepared. cbn. set_solver.
  - eapply rtc_l; [eapply (step_restart _ _ _ _ HistoryExample.r 2 (Ret tt)); [cbn; lia|constructor|]|].
    { apply run_eq. vm_compute. reflexivity. }
    eapply rtc_l; [by apply step_checkpoint|]. apply rtc_once.
    eapply (step_restart _ _ _ _ HistoryExample.r 2 (Ret tt)); [vm_compute; lia|by vm_compute|].
    apply run_eq. vm_compute. reflexivity.
  - assert (Hr : (recoverTM HistoryExample.r HistoryExample.restarted_again).1 = Ret tt) by (vm_compute; reflexivity).
    exact (run_eq (recoverTM HistoryExample.r) HistoryExample.restarted_again (Ret tt) Hr).
  - by apply (bool_decide_unpack _); vm_compute.
  - by apply (bool_decide_unpack _); vm_compute.
Qed.

(** The server panics in the second phase, is restarted and recovers. *)
Lemma dtx_crash_atomic_witness :
  (end_transaction HistoryExample.cut_env 2 sim_start).1 = PANIC ∧
  all_committed (77, 9) [0; 1] (q_segs (d_qd (recoverTM HistoryExample.r HistoryExample.after_cut).2)).
Proof.
  assert (Ho : (end_transaction HistoryExample.cut_env 2 sim_start).1 = PANIC) by (vm_compute; reflexivity).
  split; [exact Ho|].
  assert (Hr : (recoverTM HistoryExample.r HistoryExample.after_cut).1 = Ret tt) by (vm_compute; reflexivity).
  destruct (dtx_crash_atomic HistoryExample.cut_env (77, 9) [0; 1] 2 sim_start PANIC
    (end_transaction HistoryExample.cut_env 2 sim_start).2 HistoryExample.after_cut HistoryExample.r
    (recoverTM HistoryExample.r HistoryExample.after_cut).2) as [[[_ Hc]|[Hn _]] _].
  - apply (bool_decide_unpack _). vm_compute. exact I.
  - discriminate.
  - intros i Hi. exact Hi.
  - lia.
  - split; [reflexivity|right; cbn; lia].
  - split; [split; reflexivity|]. split_and!; try reflexivity.
    + left. vm_compute. discriminate.
    + intros i. split; intros Hx; [discriminate Hx|inversion Hx].
    + intros Hx. inversion Hx.
    + intros Hx. inversion Hx.
  - exact (run_eq (end_transaction HistoryExample.cut_env 2) sim_start PANIC Ho).
  - apply rtc_once. eapply (step_restart _ _ _ _ HistoryExample.r 1 (Ret tt)); [cbn; lia|vm_compute; constructor|].
    assert (Hs : (StartupXLOG HistoryExample.r (crash 1 HistoryExample.cut)).1 = Ret tt) by (vm_compute; reflexivity).
    exact (run_eq (StartupXLOG HistoryExample.r) (crash 1 HistoryExample.cut) (Ret tt) Hs).
  - reflexivity.
  - reflexivity.
  - reflexivity.
  - intros i Hi. exact Hi.
  - exact (run_eq (recoverTM HistoryExample.r) HistoryExample.after_cut (Ret tt) Hr).
  - exact Hc.
  - exfalso. apply Hn. apply (bool_decide_unpack _). vm_compute. exact I.
Defined.
