(* ===== verification/DtxLiveness.v ===== *)
(** * Distributed transactions: recovery returns

    Where segments answer and the log can be written, a run of the recovery returns. *)
From stdpp Require Import functions.
From S2P Require Import Prelude Proc Bytes Bitmapset DistributedSnapshot DtxContextInfo Dtm DtmFacts.
From S2P Require Import DtmAtomic DtxRecovery DtxRecoveryFacts DtxRecoveryRun DtxHistory.

(** A local transaction manager that can start and end a transaction and finish a prepared one. *)
Class LocalTMProgress (T : Type) `{LocalTM T} := {
  start_ok t : (StartTransactionCommand t).1 = true;
  finish_ok g c t : (FinishPreparedTransaction g c false t).1 = true;
  commit_ok t : mark t = BlockNone → (CommitTransactionCommand t).1 = true;
}.

#[global] Instance sim_progress : LocalTMProgress sim.
Proof. split; cbn; try done. intros g c t. unfold sim_finish. by case_bool_decide. Qed.

Section Liveness.
Context {T : Type} `{LocalTMLaws T, !LocalTMProgress T} (r : recovery_environment).
Implicit Types (d : dtm T) (s : segment T) (w : Z → segment T) (h : gid).
Abbreviation comps := (cdbcomponent_getCdbComponentsList (r_env r)).
Abbreviation world d := (q_segs (d_qd d)).

(** Connections, messages and the log are in order. *)
Context (Hgang : ∀ n, gang_fails (r_env r) n = false) (Hfates : ∀ n i, fates (r_env r) n i = Answered)
  (Hlog : ∀ n, log_fates (r_env r) n = Logged).
Context (Hcomps : comps ≠ []) (Horder : ∀ l, hash_order r l ≡ₚ l).

(** All sessions are outside a transaction. *)
Definition calm d : Prop := idle d ∧ ∀ i, seg_context (world d i) = DTX_CONTEXT_LOCAL_ONLY.

Lemma local_ok (op : T → bool * T) s (Q : outcome unit → segment T → Prop) :
  (op (seg_local s)).1 = true → Q (Ret tt) (mkSegment (seg_context s) (op (seg_local s)).2) → wp (local op) Q s.
Proof. intros Hop HQ. apply wp_local. intros b t E. rewrite E in *. cbn [fst snd] in *. by subst b. Qed.

Lemma exec_ok (c : bool) h s :
  seg_context s = DTX_CONTEXT_LOCAL_ONLY →
  ∃ s', exec_mpp_dtx_protocol_command (finish_cmd c) h no_info s = (true, s') ∧
    seg_context s' = DTX_CONTEXT_LOCAL_ONLY.
Proof.
  intros Hs. assert (Hf : wp (finish_prepared h c false) (λ o s', o = Ret tt ∧ seg_context s' = DTX_CONTEXT_LOCAL_ONLY) s).
  { unfold finish_prepared. apply proc_bind, local_ok; [apply start_ok|]. cbn [next].
    destruct (StartTransactionCommand (seg_local s)) as [b1 t1] eqn:E1. cbn [snd].
    assert (M1 : mark t1 = BlockNone).
    { apply (start_law _ _ _ E1). pose proof (start_ok (seg_local s)) as Hb. by rewrite E1 in Hb. }
    apply proc_bind, wp_try_rethrow, local_ok; [apply finish_ok|]. cbn [next seg_local seg_context].
    destruct (FinishPreparedTransaction h c false t1) as [b2 t2] eqn:E2. cbn [snd].
    apply proc_bind, local_ok; cbn [seg_local].
    - apply commit_ok. by rewrite (proj1 (finish_law _ _ _ _ _ _ E2)).
    - cbn [next]. by apply wp_modify. }
  assert (Hp : wp (performDtxProtocolCommand (finish_cmd c) h no_info)
    (λ o s', o = Ret tt ∧ seg_context s' = DTX_CONTEXT_LOCAL_ONLY) s).
  { unfold performDtxProtocolCommand. apply proc_bind, wp_get. cbn [next].
    destruct c; cbn [finish_cmd]; (apply proc_bind; unfold requireDistributedTransactionContext; apply proc_bind, wp_get; cbn [next];
      rewrite bool_decide_eq_false_2 by auto; apply proc_ret; cbn [next]; exact Hf). }
  unfold wp in Hp. unfold exec_mpp_dtx_protocol_command.
  destruct (performDtxProtocolCommand (finish_cmd c) h no_info s) as [o s']. cbn [fst snd] in Hp.
  destruct Hp as [-> Hc]. by exists s'.
Qed.

Lemma dispatch_ok n c h gang w answers w' :
  (∀ i, seg_context (w i) = DTX_CONTEXT_LOCAL_ONLY) →
  dispatch_to_gang (r_env r) n (finish_cmd c) h gang w = (answers, w') →
  all_true answers = true ∧ ∀ i, seg_context (w' i) = DTX_CONTEXT_LOCAL_ONLY.
Proof.
  revert w answers w'. induction gang as [|i gang IH]; intros w answers w' Hw; cbn [dispatch_to_gang].
  { intros [= <- <-]. done. }
  rewrite Hfates. destruct (exec_ok c h (w i) (Hw i)) as (s' & -> & Hs').
  destruct (dispatch_to_gang _ n _ h gang _) as [answers1 w1] eqn:E. intros [= <- <-].
  apply IH in E as [Ha Hw1].
  - split; [|done]. cbn [all_true forallb]. by rewrite bool_decide_eq_true_2.
  - intros j. destruct (decide (i = j)) as [<-|Hne]; [by rewrite fn_lookup_insert|by rewrite fn_lookup_insert_ne].
Qed.

Lemma finish_ok_spec c h d : calm d → wp (finish_in_doubt r c h) (λ o d', o = Ret tt ∧ calm d') d.
Proof.
  intros [Hi Hw]. assert (Hm : finish_in_doubt r c h = bind (recovery_dispatch r (finish_cmd c) h)
    (λ succeeded : bool, if negb succeeded then raise FATAL else ret tt)) by by destruct c.
  rewrite Hm. apply proc_bind, wp_on_qd. unfold doDispatchDtxProtocolCommand.
  destruct comps as [|i0 gang0] eqn:Ec; [done|]. rewrite <- Ec in *. clear Ec.
  apply proc_bind. unfold CdbDispatchDtxProtocolCommand. apply proc_bind, wp_get. cbn [next]. rewrite Hgang.
  destruct (dispatch_to_gang (r_env r) _ _ h comps (world d)) as [answers w'] eqn:Ed.
  apply dispatch_ok in Ed as [Ha Hw']; [|done]. apply proc_bind, wp_modify. cbn [next]. apply proc_bind.
  unfold addToGxactDtxSegments. apply proc_bind, wp_get. cbn [next]. unfold isCurrentDtxActivated. cbn [q_state].
  rewrite bool_decide_eq_false_2 by auto. cbn [negb]. apply proc_ret. cbn [next]. fold (all_true answers). rewrite Ha.
  apply proc_ret. cbn [next]. rewrite no_failures. apply proc_ret. intros d' E Hs. cbn [next Nat.eqb negb]. apply proc_ret.
  split; [done|]. split; [unfold idle; by rewrite E|]. intros i. rewrite E. apply Hw'.
Qed.

Lemma notify_ok_spec ls d :
  calm d → wp (notify_committed r ls) (λ o d', o = Ret tt ∧ calm d' ∧ d_redoFile d' = d_redoFile d) d.
Proof.
  revert d. induction ls as [|l ls IH]; intros d Hc; cbn [notify_committed]; [by apply proc_ret|].
  apply proc_bind. eapply proc_mono; [apply wp_and; [by apply (finish_ok_spec true)|
    apply (finish_in_doubt_spec r Hcomps (λ _, True) true); [apply Hc|done]]|].
  intros o d1 [[-> Hc1] (_ & S1 & _)]. cbn [next]. apply proc_bind, wp_on_qd. unfold XLogInsert.
  apply proc_bind, wp_get. cbn [next]. rewrite Hlog. apply wp_modify. intros d2 E2 S2. cbn [next].
  eapply proc_mono; [apply IH|].
  - destruct Hc1 as [Hi1 Hw1]. split; [unfold idle; by rewrite E2|]. intros i. rewrite E2. apply Hw1.
  - intros o d3 (-> & Hc3 & Hf3). split_and!; [done|done|]. destruct S1 as (_ & E1 & _), S2 as (_ & E1' & _). congruence.
Qed.

Lemma query_ok n gang w : is_Some (query_gang r n gang w).
Proof. induction gang as [|i gang [rows IH]]; cbn [query_gang]; [done|]. rewrite Hfates, IH. done. Qed.

Lemma gather_ok_spec d :
  calm d → wp (gatherRMInDoubtTransactions r) (λ o d', ∃ htab, o = Ret htab ∧ calm d') d.
Proof.
  intros [Hi Hw]. apply proc_bind, wp_on_qd. unfold CdbDispatchCommand_prepared_xacts. apply proc_bind, wp_get. cbn [next].
  apply proc_bind, wp_modify. cbn [next]. rewrite Hgang. destruct (query_ok (q_broadcasts (d_qd d)) comps (world d)) as [rows ->].
  apply proc_ret. intros d' E Hs. cbn [next]. apply proc_ret. eexists. split; [done|].
  split; [unfold idle; by rewrite E|]. intros i. rewrite E. apply Hw.
Qed.

Lemma abort_ok_spec gs d : calm d → wp (abort_gids r gs) (λ o d', o = Ret tt ∧ calm d') d.
Proof.
  revert d. induction gs as [|g gs IH]; intros d Hc; cbn [abort_gids]; [by apply proc_ret|].
  apply proc_bind. eapply proc_mono; [by apply (finish_ok_spec false)|]. intros o d1 [-> Hc1]. cbn [next]. by apply IH.
Qed.

(** The file is read, and the array gets what its entries leave in doubt. *)
Lemma replay_ok d saved A :
  r_role r ≠ GP_ROLE_UTILITY → default [] (d_redoFile d) = saved_entry <$> saved →
  (d_redoFile d ≠ None → open_fails r = false ∧ ∀ k, read_fates r k = ReadRecord) →
  Forall (λ rec, valid_gid (record_gid rec)) saved → array_is d A → fits r saved A →
  wp (ReplayRedoFromUtilityMode r) (λ o d', o = Ret tt ∧ same_but_array d d' ∧ array_is d' (in_doubt saved A)) d.
Proof.
  intros Hr Hfile Hread Hv Ha Hf. unfold ReplayRedoFromUtilityMode. apply proc_bind, wp_get. cbn [next].
  destruct (d_redoFile d) as [f|]; cbn in Hfile.
  - destruct Hread as [-> Hread]; [done|]. subst f. by apply replay_records_spec.
  - apply proc_ret. symmetry in Hfile. apply fmap_nil_inv in Hfile as ->. done.
Qed.

Lemma recover_ok d :
  calm d → wp (ReplayRedoFromUtilityMode r) (λ o d', o = Ret tt ∧ same_but_array d d') d → wp (recoverTM r) (λ o _, o = Ret tt) d.
Proof.
  intros Hc Hf. unfold recoverTM, recoverInDoubtTransactions. apply proc_bind, proc_bind. eapply proc_mono; [exact Hf|].
  intros o d0 [-> S0]. cbn [next]. assert (Hc0 : calm d0) by (destruct Hc as [Hi Hw]; split; [unfold idle; by rewrite (proj1 S0)|intros i; rewrite (proj1 S0); apply Hw]).
  clear Hc Hf S0 d. rename d0 into d, Hc0 into Hc.
  apply proc_bind, wp_get. cbn [next]. apply proc_bind. eapply proc_mono; [by apply notify_ok_spec|].
  intros o d1 (-> & Hc1 & _). cbn [next]. apply proc_bind, wp_modify. cbn [next]. clear Hc d.
  match goal with |- wp _ _ ?x => set (d := x) in * end. assert (Hc : calm d) by exact Hc1. clearbody d. clear Hc1 d1.
  apply proc_bind. eapply proc_mono; [apply wp_and; [by apply gather_ok_spec|apply (gather_spec r Hcomps), Hc]|].
  intros o d1 [(htab & -> & Hc1) (_ & _ & _ & E1 & Hh)]. cbn [next]. apply proc_bind. unfold abortRMInDoubtTransactions.
  eapply proc_mono; [apply wp_and; [by apply abort_ok_spec|
    apply (abort_gids_spec r Hcomps (λ _, False)); [apply Hc1|auto]]|].
  intros o d2 [[-> Hc2] ((_ & Hp & _) & _ & R2)]. cbn [next]. specialize (R2 eq_refl).
  apply proc_bind. eapply proc_mono; [apply wp_and; [by apply gather_ok_spec|apply (gather_spec r Hcomps), Hc2]|].
  intros o d3 [(htab3 & -> & _) (_ & _ & _ & E3 & Hh3)]. cbn [next].
  destruct htab3 as [|k htab3].
  - unfold RemoveRedoUtilityModeFile. by destruct (unlink_fails r).
  - exfalso. destruct (proj1 (Hh3 k) ltac:(by left)) as (i & Hi & Hk). apply (R2 k) with i; [|done|done].
    rewrite Horder. apply Hh. exists i. split; [done|]. rewrite <- E1. by eapply pr_prepared.
Qed.
End Liveness.

(** C14: A restart with a recovery run ends, and resolves everything: where connections, messages, the
    log and the file that restarts in utility mode have left, if there is one, are in order and the
    transactions in doubt fit the array, redo and recovery return, transactions may start, nothing is
    prepared on any segment, and of what was prepared exactly those transactions are committed that are
    in doubt by checkpoint, by the records of the log and by the entries of the file, in this order. *)
Theorem dtx_recovery_completes {T : Type} `{LocalTMLaws T, !LocalTMProgress T} (r : recovery_environment)
    (d : dtm T) (gs : list gid) (saved : list dtx_record) (n : nat) :
  (∀ n, gang_fails (r_env r) n = false) → (∀ n i, fates (r_env r) n i = Answered) →
  (∀ n, log_fates (r_env r) n = Logged) → cdbcomponent_getCdbComponentsList (r_env r) ≠ [] →
  (∀ l, hash_order r l ≡ₚ l) → r_role r = GP_ROLE_DISPATCH →
  d_checkpoint d = gxact_log <$> gs → default [] (d_redoFile d) = saved_entry <$> saved →
  (d_redoFile d ≠ None → open_fails r = false ∧ ∀ k, read_fates r k = ReadRecord) →
  let records := redo_input (crash n d) gs ++ saved in
  Forall (λ rec, valid_gid (record_gid rec)) records → fits r records ∅ →
  ∃ d1 d2, StartupXLOG r (crash n d) = (Ret tt, d1) ∧ recoverTM r d1 = (Ret tt, d2) ∧ d_DtmStarted d2 = true ∧
    ∀ i, i ∈ cdbcomponent_getCdbComponentsList (r_env r) → ∀ k,
      ¬ is_prepared k (q_segs (d_qd d2) i) ∧
      (is_committed k (q_segs (d_qd d2) i) ↔
       is_committed k (q_segs (d_qd d) i) ∨ (k ∈ in_doubt records ∅ ∧ is_prepared k (q_segs (d_qd d) i))).
Proof.
  intros Hgang Hfates Hlog Hcomps Horder Hrole Hck Hfile Hread records Hv Hfit.
  apply Forall_app in Hv as [Hv1 Hv2]. apply fits_app in Hfit as [Hfit1 Hfit2].
  pose proof (startup_dispatch r (crash n d) gs ltac:(congruence) Hck eq_refl Hv1 Hfit1) as Hs. unfold wp in Hs.
  destruct (StartupXLOG r (crash n d)) as [o d1]. cbn [fst snd] in Hs. destruct Hs as (-> & (Q & Q2 & _) & Harr).
  cbn [crash d_redoFile] in Q2. rewrite <-Q2 in Hfile, Hread.
  assert (Hc : calm d1) by (split; [unfold idle; by rewrite Q|intros i; by rewrite Q]).
  pose proof (replay_ok r d1 saved _ ltac:(congruence) Hfile Hread Hv2 Harr Hfit2) as Hrep.
  pose proof (recover_ok r Hgang Hfates Hlog Hcomps Horder d1 Hc) as Hr.
  assert (Hr' : (recoverTM r d1).1 = Ret tt) by (apply Hr; eapply proc_mono; [exact Hrep|]; by intros ? ? (? & ? & _)). clear Hr.
  pose proof (recovery_resolves r d1 Hcomps Hrole Horder (proj1 Hc)) as Hres. destruct Hrep as (_ & _ & _ & Hset).
  destruct (recoverTM r d1) as [o2 d2] eqn:Er. cbn [fst] in Hr'. subst o2. exists d1, d2.
  destruct Hres as (_ & _ & _ & Hret). destruct (Hret eq_refl) as (Hst & _ & Hseg). split; [reflexivity|]. split; [exact Er|]. split; [exact Hst|].
  intros i Hi k. destruct (Hseg i Hi k) as [Hp Hcm]. split; [done|]. rewrite Hcm, Q. cbn [crash d_qd q_segs].
  assert (Hsame : same_seg (q_segs (d_qd d) i) (end_session (q_segs (d_qd d) i))) by apply end_session_same.
  rewrite (same_seg_committed _ _ _ Hsame), (same_seg_prepared _ _ _ Hsame).
  unfold records. rewrite in_doubt_app, <- Hset, elem_of_list_to_set. done.
Qed.

(** The log commits one transaction, the file the other. *)
Definition file_state : dtm sim :=
  mkDtm (d_qd RecoveryExample.state) [] (Some [saved_entry (DistributedCommit (77, 10))]) false [] 0.

Lemma dtx_recovery_completes_witness :
  ∃ d1 d2, StartupXLOG (RecoveryExample.renv GP_ROLE_DISPATCH) (crash 1 file_state) = (Ret tt, d1) ∧
    recoverTM (RecoveryExample.renv GP_ROLE_DISPATCH) d1 = (Ret tt, d2) ∧
    is_committed (77, 9) (q_segs (d_qd d2) 0) ∧ is_committed (77, 10) (q_segs (d_qd d2) 0).
Proof.
  destruct (dtx_recovery_completes (RecoveryExample.renv GP_ROLE_DISPATCH) file_state [] [DistributedCommit (77, 10)] 1)
    as (d1 & d2 & H1 & H2 & _ & Hseg).
  - reflexivity.
  - reflexivity.
  - reflexivity.
  - discriminate.
  - reflexivity.
  - reflexivity.
  - reflexivity.
  - reflexivity.
  - intros _. split; reflexivity.
  - constructor; [split; split; vm_compute; congruence|]. constructor; [split; split; vm_compute; congruence|constructor].
  - intros [|[|[|k]]]; vm_compute; discriminate.
  - exists d1, d2. split; [exact H1|]. split; [exact H2|].
    assert (H0 : 0 ∈ cdbcomponent_getCdbComponentsList (r_env (RecoveryExample.renv GP_ROLE_DISPATCH)))
      by (apply (bool_decide_unpack _); vm_compute; exact I).
    split; [apply (Hseg 0 H0 (77, 9))|apply (Hseg 0 H0 (77, 10))]; right; (split; apply (bool_decide_unpack _); vm_compute; exact I).
Defined.
