(* ===== verification/PagedLog.v ===== *)
(** * Logs of entries on buffered pages

    What the logs above [Slru] share: an entry for each transaction id, so many to a page, read from
    the buffers and the files.  A log says how an entry lies on its page ([Paged]); here is what the
    routines of [Slru] do to the entries. *)
From S2P Require Import Prelude Proc DistributedSnapshot Slru SlruFacts SlruStore.

Class Paged (page entry : Type) := mkPaged {
  per_page : Z;
  blank : entry;
  fetch : page → nat → entry;
  page_ok : page → Prop;
}.

(** A new page is blank. *)
Class PagedLaws (page entry : Type) {shape : Paged page entry} {ctl : SlruCtl page} : Prop := {
  per_page_pos : 0 < per_page;
  zero_page_ok : page_ok zero_page;
  fetch_zero_page i : (i < Z.to_nat per_page)%nat → fetch zero_page i = blank;
}.

Section PagedLog.
Context {page entry : Type} {shape : Paged page entry} {ctl : SlruCtl page} {laws : PagedLaws page entry}.
Implicit Types (s : slru page) (p x : Z) (b : page).

Definition page_of x : Z := x / per_page.
Definition entry_no x : nat := Z.to_nat (x mod per_page).

Definition entry_at s x : entry :=
  match view s (page_of x) with Some b => fetch b (entry_no x) | None => blank end.

Record log_ok s : Prop := mkLogOk {
  lo_inv : slru_inv s;
  lo_view p b : 0 ≤ p → view s p = Some b → page_ok b;
}.

(** Nothing that can be seen changes; pages stay. *)
Definition keeps s s' : Prop :=
  log_ok s' ∧ (ios s ≤ ios s')%nat ∧ (∀ x, 0 ≤ x → entry_at s' x = entry_at s x) ∧
  (∀ p, 0 ≤ p → is_Some (view s p) → is_Some (view s' p)).

Lemma page_of_nonneg x : 0 ≤ x → 0 ≤ page_of x.
Proof. intros Hx. apply Z.div_pos; [done|apply per_page_pos]. Qed.

Lemma entry_no_lt x : (entry_no x < Z.to_nat per_page)%nat.
Proof. pose proof (Z.mod_pos_bound x per_page per_page_pos). unfold entry_no. lia. Qed.

Lemma same_place x y : page_of x = page_of y → entry_no x = entry_no y → x = y.
Proof.
  unfold page_of, entry_no. pose proof (@per_page_pos page entry _ _ _) as Hpos. intros Hp He.
  rewrite (Z.div_mod x per_page), (Z.div_mod y per_page), Hp by lia.
  pose proof (Z.mod_pos_bound x per_page Hpos). pose proof (Z.mod_pos_bound y per_page Hpos). lia.
Qed.

Lemma keeps_refl s : log_ok s → keeps s s.
Proof. done. Qed.

Lemma keeps_trans s1 s2 s3 : keeps s1 s2 → keeps s2 s3 → keeps s1 s3.
Proof.
  intros (_ & Hn1 & He1 & Hp1) (Hok & Hn2 & He2 & Hp2). split_and!; [done|lia| |auto].
  intros x Hx. by rewrite He2, He1.
Qed.

Lemma evolves_keeps s s' : log_ok s → slru_inv s' → evolves s s' → keeps s s'.
Proof.
  intros Hok Hinv Hev. split_and!.
  - split; [done|]. intros p b Hp Hb. destruct (ev_view _ _ Hev p Hp) as [E|[_ E]]; rewrite E in Hb.
    + by apply (lo_view _ Hok p).
    + simplify_eq. apply zero_page_ok.
  - apply Hev.
  - intros x Hx. unfold entry_at. destruct (ev_view _ _ Hev _ (page_of_nonneg x Hx)) as [->|[-> ->]]; [done|].
    apply fetch_zero_page, entry_no_lt.
  - intros p Hp [b Hb]. destruct (ev_view _ _ Hev p Hp) as [->|[_ ->]]; eauto.
Qed.

(** A page is put in place of another; the other pages are kept. *)
Lemma puts_log p b s s' :
  log_ok s → slru_inv s' → 0 ≤ p → page_ok b → puts p b s s' →
  log_ok s' ∧ (ios s ≤ ios s')%nat ∧ view s' p = Some b ∧
  (∀ x, 0 ≤ x → entry_at s' x = if decide (page_of x = p) then fetch b (entry_no x) else entry_at s x) ∧
  (∀ q, 0 ≤ q → is_Some (view s q) → is_Some (view s' q)).
Proof.
  intros Hok Hinv Hp Hb (m & Hev & Hf & Hn & Hl & Hvp & Hv). split_and!.
  - split; [done|]. intros q c Hq Hc. destruct (decide (q = p)) as [->|Hne]; [rewrite Hvp in Hc; by simplify_eq|].
    rewrite Hv in Hc by done. destruct (ev_view _ _ Hev q Hq) as [E|[_ E]]; rewrite E in Hc.
    + by apply (lo_view _ Hok q).
    + simplify_eq. apply zero_page_ok.
  - rewrite Hn. apply Hev.
  - done.
  - intros x Hx. unfold entry_at. case_decide as E; [by rewrite E, Hvp|]. rewrite Hv by done.
    destruct (ev_view _ _ Hev _ (page_of_nonneg x Hx)) as [->|[-> ->]]; [done|]. apply fetch_zero_page, entry_no_lt.
  - intros q Hq [c Hc]. destruct (decide (q = p)) as [->|Hne]; [by rewrite Hvp|]. rewrite Hv by done.
    destruct (ev_view _ _ Hev q Hq) as [->|[_ ->]]; eauto.
Qed.

(** The buffer of a page is changed and marked dirty. *)
Lemma put_log p i c b s s' :
  log_ok s → 0 ≤ p → slots s !! i = Some c → page_status c = SLRU_PAGE_VALID → page_number c = p →
  slots s' = <[i := with_dirty true (with_buffer b c)]> (slots s) → files s' = files s → ios s' = ios s →
  page_ok b →
  log_ok s' ∧
  (∀ x, 0 ≤ x → entry_at s' x = if decide (page_of x = p) then fetch b (entry_no x) else entry_at s x) ∧
  (∀ q, 0 ≤ q → is_Some (view s q) → is_Some (view s' q)).
Proof.
  intros Hok Hp Hi Hst Hpn Hss Hf Hn Hb.
  destruct (put_buffer p i c (with_dirty true (with_buffer b c)) s s') as [Hinv Hput]; try done; [apply Hok|].
  cbn [page_buffer with_dirty with_buffer] in Hput. destruct (puts_log p b s s') as (? & _ & _ & ? & ?); done.
Qed.

(** ** Reading and creating pages *)

Definition read_outcome p s (o : outcome nat) s' : Prop :=
  match o with
  | Ret i => holding p i s'
  | ERROR => io_failed s s' ∨ view s p = None
  | FATAL => False
  | PANIC => fsync_failed s s'
  end.

Lemma reads_log p s o s' : log_ok s → 0 ≤ p → reads p s o s' → keeps s s' ∧ read_outcome p s o s'.
Proof.
  intros Hok Hp (Hinv & Hev & _ & Ho). split; [by apply evolves_keeps|]. destruct o; try done.
  destruct Ho as [?|Hn]; [by left|right]. destruct (ev_view _ _ Hev p Hp) as [<-|[E _]]; done.
Qed.

Lemma read_log p write_ok s :
  log_ok s → 0 ≤ p → InRecovery = false ∨ is_Some (view s p) →
  wp (SimpleLruReadPage p write_ok) (λ o s', keeps s s' ∧ read_outcome p s o s') s.
Proof.
  intros Hok Hp Hr. eapply proc_mono; [apply SimpleLruReadPage_spec; [apply Hok|done..]|].
  intros o s'. by apply reads_log.
Qed.

Lemma read_only_log p s :
  log_ok s → 0 ≤ p → InRecovery = false ∨ is_Some (view s p) →
  wp (SimpleLruReadPage_ReadOnly p) (λ o s', keeps s s' ∧ read_outcome p s o s') s.
Proof.
  intros Hok Hp Hr. eapply proc_mono; [apply SimpleLruReadPage_ReadOnly_spec; [apply Hok|done..]|].
  intros o s'. by apply reads_log.
Qed.

Definition zeroed_log p s (o : outcome nat) s' : Prop :=
  log_ok s' ∧ (ios s ≤ ios s')%nat ∧ blamed s o s' ∧
  (∀ q, 0 ≤ q → is_Some (view s q) → is_Some (view s' q)) ∧
  (∀ x, 0 ≤ x → page_of x ≠ p → entry_at s' x = entry_at s x) ∧
  match o with
  | Ret i => holding p i s' ∧ is_Some (view s' p) ∧ ∀ x, 0 ≤ x → page_of x = p → entry_at s' x = blank
  | _ => ∀ x, 0 ≤ x → entry_at s' x = entry_at s x
  end.

Lemma zero_log p s : log_ok s → 0 ≤ p → wp (SimpleLruZeroPage p) (zeroed_log p s) s.
Proof.
  intros Hok Hp. eapply proc_mono; [apply SimpleLruZeroPage_spec; [apply Hok|done]|].
  intros o s' [Hinv Ho].
  assert (Hfail : evolves s s' → blamed s o s' → (∀ i, o ≠ Ret i) → zeroed_log p s o s').
  { intros Hev Hb Hne. destruct (evolves_keeps s s' Hok Hinv Hev) as (H1 & H2 & H3 & H4).
    split_and!; auto. destruct o; [by destruct (Hne a)|done..]. }
  destruct o as [i| | |]; [|apply Hfail; naive_solver..].
  destruct Ho as (Hh & Hput & _).
  destruct (puts_log p zero_page s s') as (H1 & H2 & H3 & H4 & H5); [done..|apply zero_page_ok|done|].
  split_and!; try done.
  - intros x Hx Hne. by rewrite H4, decide_False.
  - intros x Hx E. rewrite H4, decide_True by done. apply fetch_zero_page, entry_no_lt.
Qed.

(** A log after the server is started, with the pages of the files. *)
Lemma init_log n latest fs k :
  (2 ≤ n)%nat → (∀ p b, 0 ≤ p → on_disk fs p = Some b → page_ok b) → log_ok (SimpleLruInit n latest fs k).
Proof.
  intros Hn Hfs. destruct (init_inv n latest fs k Hn) as [Hi Hv]. split; [done|]. intros p b Hp. rewrite Hv. by apply Hfs.
Qed.

(** The entry of a page that is held. *)
Lemma held_entry x i s :
  holding (page_of x) i s →
  ∃ c, slots s !! i = Some c ∧ page_status c = SLRU_PAGE_VALID ∧ page_number c = page_of x ∧
       view s (page_of x) = Some (page_buffer c) ∧ entry_at s x = fetch (page_buffer c) (entry_no x).
Proof.
  intros (c & Hi & Hst & Hp & Hv). exists c. split_and!; try done. unfold entry_at. by rewrite Hv.
Qed.

(** ** Growing *)

(** A page is created for the first id on it, which on the first page is the first normal id. *)
Definition begins x : bool := (x mod per_page =? 0) || (x =? FirstNormalTransactionId).

(** The page of [x] is there and is blank from [x] on. *)
Definition usable s x : Prop :=
  is_Some (view s (page_of x)) ∧ ∀ y, x ≤ y → page_of y = page_of x → entry_at s y = blank.

(** So it is for the next id, unless its page is still to be created. *)
Definition ready s x : Prop := begins x = false → usable s x.

(** The routine that creates the page of [x] if [x] is the first id on it. *)
Record extended x s {A} (o : outcome A) s' : Prop := mkExtended {
  ex_ok : log_ok s';
  ex_ios : (ios s ≤ ios s')%nat;
  ex_view q : 0 ≤ q → is_Some (view s q) → is_Some (view s' q);
  ex_other y : 0 ≤ y → page_of y ≠ page_of x → entry_at s' y = entry_at s y;
  ex_idle y : 0 ≤ y → begins x = false → entry_at s' y = entry_at s y;
  ex_new a : o = Ret a → begins x = true →
    is_Some (view s' (page_of x)) ∧ ∀ y, 0 ≤ y → page_of y = page_of x → entry_at s' y = blank;
}.

Lemma extended_idle x s {A} (a : A) : log_ok s → begins x = false → extended x s (Ret a) s.
Proof. intros Hok Hb. split; try done. intros ?? E. congruence. Qed.

Lemma zeroed_extended x s (o : outcome nat) s' {B} (o' : outcome B) :
  begins x = true → zeroed_log (page_of x) s o s' → (∀ a, o' = Ret a → ∃ i, o = Ret i) → extended x s o' s'.
Proof.
  intros Hb (Hok & Hn & _ & Hv & He & Ho) Hret. split; try done; [intros; congruence|].
  intros b Eb _. destruct (Hret b Eb) as [i ->]. split; [apply Ho|]. intros y Hy Hp. by apply Ho.
Qed.

Lemma extended_usable x s {A} (a : A) s' : 0 ≤ x → ready s x → extended x s (Ret a) s' → usable s' x.
Proof.
  intros Hx Hr He. destruct (begins x) eqn:Hb.
  - destruct (ex_new _ _ _ _ He a eq_refl Hb) as [H1 H2]. split; [done|]. intros y Hy. apply H2. lia.
  - destruct (Hr Hb) as [H1 H2]. split; [apply (ex_view _ _ _ _ He); [by apply page_of_nonneg|done]|].
    intros y Hy Hp. rewrite (ex_idle _ _ _ _ He) by (lia || done). by apply H2.
Qed.

Lemma extended_ready x s {A} (o : outcome A) s' : 0 ≤ x → ready s x → extended x s o s' → ready s' x.
Proof.
  intros Hx Hr He Hb. destruct (Hr Hb) as [H1 H2]. split; [apply (ex_view _ _ _ _ He); [by apply page_of_nonneg|done]|].
  intros y Hy Hp. rewrite (ex_idle _ _ _ _ He) by (lia || done). by apply H2.
Qed.

(** A later id on the same page is ready too. *)
Lemma usable_ready s x n : usable s x → (begins n = false → x ≤ n ∧ page_of n = page_of x) → ready s n.
Proof.
  intros [H1 H2] Hn Hb. destruct (Hn Hb) as [Hle Ep]. split; [by rewrite Ep|].
  intros y Hy Hp. apply H2; [lia|congruence].
Qed.

Lemma begins_next x : 0 ≤ x → begins (x + 1) = false → page_of (x + 1) = page_of x.
Proof.
  intros Hx Hb. apply orb_false_iff in Hb as [Hb _]. apply Z.eqb_neq in Hb. unfold page_of.
  pose proof (@per_page_pos page entry _ _ _) as Hpos. pose proof (Z.mod_pos_bound x per_page Hpos) as Hm.
  assert (Hne : per_page ≠ 0) by (intros E0; rewrite E0 in Hpos; done). pose proof (Z.div_mod x per_page Hne) as E. symmetry.
  apply (Z.div_unique_pos (x + 1) per_page _ (x mod per_page + 1)); [|lia].
  destruct (decide (x mod per_page + 1 = per_page)) as [E'|]; [|lia]. exfalso. apply Hb.
  replace (x + 1) with ((x / per_page + 1) * per_page) by lia. apply Z.mod_mul. lia.
Qed.

(** Ids of a block that divides the pages are on one page. *)
Lemma same_block k x y : 0 < k → (k | per_page) → x / k = y / k → page_of x = page_of y.
Proof.
  intros Hk [c Ec] E. unfold page_of. pose proof (@per_page_pos page entry _ _ _) as Hpos. rewrite Ec in *.
  rewrite (Z.mul_comm c k), <-!Z.div_div by nia. by rewrite E.
Qed.
End PagedLog.
