(* ===== verification/Clog.v ===== *)
(** * The commit log ([access/transam/clog.c], [access/clog.h])

    Two bits for each transaction id say whether it is in progress, committed, aborted, or a
    committed subtransaction whose parent has not ended.  The bits lie on pages that are kept by
    [Slru].  A transaction and its subtransactions may be on several pages; the routines that set
    their status take care that a reader never sees a part of the tree committed.

    A page is the list of its bytes.  Locks are left out: a routine runs while it holds them, and the
    statuses that are set are also listed in the order in which they are set ([cl_writes]), so that
    what is seen between them can be stated.  Commits are synchronous: the location of the commit
    record that is passed along is invalid and no location is kept for a page. *)
From S2P Require Import Prelude Proc DistributedSnapshot Slru.

Definition TRANSACTION_STATUS_IN_PROGRESS : Z := 0.
Definition TRANSACTION_STATUS_COMMITTED : Z := 1.
Definition TRANSACTION_STATUS_ABORTED : Z := 2.
Definition TRANSACTION_STATUS_SUB_COMMITTED : Z := 3.

Definition BootstrapTransactionId : Z := 1.
Definition FrozenTransactionId : Z := 2.

(** The size of a page, the number of shared buffers, the answers of the operating system to the
    requests of the two logs, whether the write-ahead log is being replayed; [clog_down]: the server
    goes down at the n-th record, before or after it is written. *)
Class TransamEnv := mkTransamEnv {
  BLCKSZ : Z;
  NBuffers : Z;
  clog_io : nat → io_answer;
  subtrans_io : nat → io_answer;
  tr_InRecovery : bool;
  tr_data_sync_retry : bool;
  clog_down : nat → option bool;
}.

Inductive clog_record := CLOG_ZEROPAGE (pageno : Z) | CLOG_TRUNCATE (pageno : Z).

Notation clog_page := (list Z).

Section Clog.
Context {env : TransamEnv}.

(** ** Ids, pages, bytes and bits *)

Definition CLOG_BITS_PER_XACT : Z := 2.
Definition CLOG_XACTS_PER_BYTE : Z := 4.
Definition CLOG_XACTS_PER_PAGE : Z := BLCKSZ * CLOG_XACTS_PER_BYTE.
Definition CLOG_XACT_BITMASK : Z := Z.shiftl 1 CLOG_BITS_PER_XACT - 1.

Definition TransactionIdToPage (xid : Z) : Z := xid / CLOG_XACTS_PER_PAGE.
Definition TransactionIdToPgIndex (xid : Z) : Z := xid mod CLOG_XACTS_PER_PAGE.
Definition TransactionIdToByte (xid : Z) : Z := TransactionIdToPgIndex xid / CLOG_XACTS_PER_BYTE.
Definition TransactionIdToBIndex (xid : Z) : Z := xid mod CLOG_XACTS_PER_BYTE.

Definition CLOGPagePrecedes (page1 page2 : Z) : bool :=
  let xid1 := u32 (u32 (page1 * CLOG_XACTS_PER_PAGE) + FirstNormalTransactionId) in
  let xid2 := u32 (u32 (page2 * CLOG_XACTS_PER_PAGE) + FirstNormalTransactionId) in
  TransactionIdPrecedes xid1 xid2.

#[global] Instance ClogCtl : SlruCtl clog_page :=
  mkSlruCtl clog_page (replicate (Z.to_nat BLCKSZ) 0) CLOGPagePrecedes clog_io tr_InRecovery tr_data_sync_retry.

Definition CLOGShmemBuffers : Z := Z.min 32 (Z.max 4 (NBuffers / 512)).

(** ** State *)

Record clog := mkClog {
  cl_slru : slru clog_page;
  cl_xlog : list clog_record;
  cl_inserts : nat;
  cl_writes : list (Z * Z);
}.

Definition set_cl_slru (s : slru clog_page) (d : clog) : clog := mkClog s (cl_xlog d) (cl_inserts d) (cl_writes d).
Definition note_write (xid status : Z) (d : clog) : clog :=
  mkClog (cl_slru d) (cl_xlog d) (cl_inserts d) (cl_writes d ++ [(xid, status)]).

Definition on_clog {A} (m : proc (slru clog_page) A) : proc clog A := λ d,
  let '(o, s) := m (cl_slru d) in (o, set_cl_slru s d).

Definition clog_insert (r : clog_record) : proc clog unit :=
  d <- get;;
  let keep b := mkClog (cl_slru d) (if b : bool then cl_xlog d ++ [r] else cl_xlog d) (S (cl_inserts d)) (cl_writes d) in
  match clog_down (cl_inserts d) with
  | None => modify (λ _, keep true)
  | Some written => modify (λ _, keep written);; raise PANIC
  end.

Definition CLOGShmemInit (fs : gmap Z (list clog_page)) (n : nat) (xlog : list clog_record) (inserts : nat) : clog :=
  mkClog (SimpleLruInit (Z.to_nat CLOGShmemBuffers) 0 fs n) xlog inserts [].

(** ** Setting the status *)

Definition status_in (byte bshift : Z) : Z := Z.land (Z.shiftr byte bshift) CLOG_XACT_BITMASK.

Definition set_status_in (byte bshift status : Z) : Z :=
  Z.lor (Z.land byte (Z.lnot (Z.shiftl (Z.shiftl 1 CLOG_BITS_PER_XACT - 1) bshift))) (Z.shiftl status bshift).

(** An access outside the page ends the server. *)
Definition get_byte (slotno : nat) (byteno : Z) : proc clog Z :=
  c <- on_clog (the_slot slotno);;
  match page_buffer c !! Z.to_nat byteno with Some byte => ret byte | None => raise PANIC end.

Definition TransactionIdSetStatusBit (xid status : Z) (slotno : nat) : proc clog unit :=
  let byteno := TransactionIdToByte xid in
  let bshift := TransactionIdToBIndex xid * CLOG_BITS_PER_XACT in
  byte <- get_byte slotno byteno;;
  let curval := status_in byte bshift in
  if InRecovery && (status =? TRANSACTION_STATUS_SUB_COMMITTED) && (curval =? TRANSACTION_STATUS_COMMITTED)
  then ret tt
  else
    on_clog (modify (set_slot slotno (λ c,
      with_buffer (<[Z.to_nat byteno := set_status_in byte bshift status]> (page_buffer c)) c)));;
    modify (note_write xid status).

Fixpoint set_status_bits (subxids : list Z) (status : Z) (slotno : nat) : proc clog unit :=
  match subxids with
  | [] => ret tt
  | xid :: subxids => TransactionIdSetStatusBit xid status slotno;; set_status_bits subxids status slotno
  end.

Definition TransactionIdSetPageStatus (xid : Z) (subxids : list Z) (status pageno : Z) : proc clog unit :=
  slotno <- on_clog (SimpleLruReadPage pageno true);;
  ((if TransactionIdIsValid xid then
      (if status =? TRANSACTION_STATUS_COMMITTED
       then set_status_bits subxids TRANSACTION_STATUS_SUB_COMMITTED slotno else ret tt);;
      TransactionIdSetStatusBit xid status slotno
    else ret tt);;
   set_status_bits subxids status slotno);;
  on_clog (modify (set_slot slotno (with_dirty true))).

(** The ids up to the first one on another page, and the rest. *)
Fixpoint split_page (pageno : Z) (xids : list Z) : list Z * list Z :=
  match xids with
  | [] => ([], [])
  | xid :: rest =>
      if TransactionIdToPage xid =? pageno
      then let '(ys, zs) := split_page pageno rest in (xid :: ys, zs) else ([], xids)
  end.

(** [fuel]: the number of ids. *)
Fixpoint set_pages (fuel : nat) (subxids : list Z) (status : Z) : proc clog unit :=
  match subxids with
  | [] => ret tt
  | xid :: _ =>
      match fuel with
      | O => raise PANIC
      | S fuel =>
          let pageno := TransactionIdToPage xid in
          let '(ys, zs) := split_page pageno subxids in
          TransactionIdSetPageStatus InvalidTransactionId ys status pageno;;
          set_pages fuel zs status
      end
  end.

Definition set_status_by_pages (subxids : list Z) (status : Z) : proc clog unit :=
  set_pages (length subxids) subxids status.

Definition TransactionIdSetTreeStatus (xid : Z) (subxids : list Z) (status : Z) : proc clog unit :=
  let pageno := TransactionIdToPage xid in
  let '(first, rest) := split_page pageno subxids in
  match rest with
  | [] => TransactionIdSetPageStatus xid subxids status pageno
  | _ =>
      (if status =? TRANSACTION_STATUS_COMMITTED
       then set_status_by_pages rest TRANSACTION_STATUS_SUB_COMMITTED else ret tt);;
      TransactionIdSetPageStatus xid first status pageno;;
      set_status_by_pages rest status
  end.

(** ** Reading the status *)

Definition TransactionIdGetStatus (xid : Z) : proc clog Z :=
  let pageno := TransactionIdToPage xid in
  let byteno := TransactionIdToByte xid in
  let bshift := TransactionIdToBIndex xid * CLOG_BITS_PER_XACT in
  slotno <- on_clog (SimpleLruReadPage_ReadOnly pageno);;
  byte <- get_byte slotno byteno;;
  ret (status_in byte bshift).

(** The ids from [xid] down, [n] of them: the first that has ended. *)
Fixpoint scan_status_down (slotno : nat) (n : nat) (xid : Z) : proc clog (option (Z * Z)) :=
  match n with
  | O => ret None
  | S n =>
      byte <- get_byte slotno (TransactionIdToByte xid);;
      let status := status_in byte (TransactionIdToBIndex xid * CLOG_BITS_PER_XACT) in
      if negb (status =? TRANSACTION_STATUS_IN_PROGRESS) then ret (Some (xid, status))
      else scan_status_down slotno n (xid - 1)
  end.

(** [rounds] bounds the number of pages. *)
Fixpoint scan_status_pages (rounds : nat) (highXid : Z) : proc clog (option (Z * Z)) :=
  match rounds with
  | O => raise PANIC
  | S rounds =>
      let pageno := TransactionIdToPage highXid in
      let lowXid := if u32 (pageno * CLOG_XACTS_PER_PAGE) =? InvalidTransactionId then FirstNormalTransactionId
                    else u32 (pageno * CLOG_XACTS_PER_PAGE) in
      found <- on_clog (SimpleLruDoesPhysicalPageExist pageno);;
      if negb found then ret None
      else
        slotno <- on_clog (SimpleLruReadPage pageno false);;
        r <- scan_status_down slotno (Z.to_nat (highXid - lowXid + 1)) highXid;;
        match r with
        | Some r => ret (Some r)
        | None => if lowXid =? FirstNormalTransactionId then ret None else scan_status_pages rounds (lowXid - 1)
        end
  end.

(** The new value of [*indexXid], and the status if one is found. *)
Definition CLOGScanForPrevStatus (rounds : nat) (indexXid : Z) : proc clog (Z * option Z) :=
  if indexXid =? InvalidTransactionId then ret (indexXid, None)
  else
    let highXid := u32 (indexXid - 1) in
    if highXid <? FirstNormalTransactionId then ret (indexXid, None)
    else
      r <- scan_status_pages rounds highXid;;
      match r with
      | Some (xid, status) => ret (xid, Some status)
      | None => ret (InvalidTransactionId, None)
      end.

(** [nextXid] of [ShmemVariableCache], which may not be there yet. *)
Definition CLOGTransactionIsOld (nextXid : option Z) (xid : Z) : bool :=
  match nextXid with
  | None => false
  | Some nextXid =>
      if nextXid <? xid then false
      else CLOGShmemBuffers / 2 <? (nextXid - xid) / CLOG_XACTS_PER_PAGE
  end.

(** ** Pages *)

Definition WriteZeroPageXlogRec (pageno : Z) : proc clog unit := clog_insert (CLOG_ZEROPAGE pageno).
Definition WriteTruncateXlogRec (pageno : Z) : proc clog unit := clog_insert (CLOG_TRUNCATE pageno).

Definition ZeroCLOGPage (pageno : Z) (writeXlog : bool) : proc clog nat :=
  slotno <- on_clog (SimpleLruZeroPage pageno);;
  (if writeXlog then WriteZeroPageXlogRec pageno else ret tt);;
  ret slotno.

Definition BootStrapCLOG : proc clog unit :=
  slotno <- ZeroCLOGPage 0 false;;
  on_clog (SimpleLruWritePage slotno).

Definition StartupCLOG (nextXid : Z) : proc clog unit :=
  on_clog (modify (set_latest_page_number (TransactionIdToPage nextXid))).

(** The rest of the byte and of the page is set to zero. *)
Definition trim_page (slotno : nat) (byteno bshift : Z) : proc clog unit :=
  byte <- get_byte slotno byteno;;
  on_clog (modify (set_slot slotno (λ c, with_dirty true (with_buffer
    (take (Z.to_nat byteno) (page_buffer c) ++ Z.land byte (Z.shiftl 1 bshift - 1) ::
     replicate (Z.to_nat (BLCKSZ - byteno - 1)) 0) c)))).

Definition TrimCLOG (nextXid : Z) : proc clog unit :=
  let pageno := TransactionIdToPage nextXid in
  on_clog (modify (set_latest_page_number pageno));;
  if negb (TransactionIdToPgIndex nextXid =? 0) then
    slotno <- on_clog (SimpleLruReadPage pageno false);;
    trim_page slotno (TransactionIdToByte nextXid) (TransactionIdToBIndex nextXid * CLOG_BITS_PER_XACT)
  else ret tt.

Definition ShutdownCLOG : proc clog unit := on_clog SimpleLruFlush.
Definition CheckPointCLOG : proc clog unit := on_clog SimpleLruFlush.

Definition ExtendCLOG (newestXact : Z) : proc clog unit :=
  if negb (TransactionIdToPgIndex newestXact =? 0) && negb (newestXact =? FirstNormalTransactionId) then ret tt
  else ZeroCLOGPage (TransactionIdToPage newestXact) true;; ret tt.

Definition TruncateCLOG (oldestXact : Z) : proc clog unit :=
  let cutoffPage := TransactionIdToPage oldestXact in
  d <- get;;
  if negb (scan_for_presence cutoffPage (cl_slru d)) then ret tt
  else
    WriteTruncateXlogRec cutoffPage;;
    on_clog (SimpleLruTruncate cutoffPage).

Definition clog_redo (r : clog_record) : proc clog unit :=
  match r with
  | CLOG_ZEROPAGE pageno =>
      slotno <- ZeroCLOGPage pageno false;;
      on_clog (SimpleLruWritePage slotno)
  | CLOG_TRUNCATE pageno =>
      on_clog (modify (set_latest_page_number pageno));;
      on_clog (SimpleLruTruncate pageno)
  end.
End Clog.
