(* ===== verification/ClogFacts.v ===== *)
(** * The commit log: statuses

    The log holds a status for each id; setting the bits of an id changes its status and no other.
    What the routines that set the status of a tree write, in which order, and that reading and
    eviction change nothing. *)
From S2P Require Import Prelude Proc DistributedSnapshot Slru SlruFacts SlruStore PagedLog Clog.

Class TransamBlock `{TransamEnv} : Prop := transam_block : ∃ k, 10 ≤ k ≤ 15 ∧ BLCKSZ = 2 ^ k.

Section ClogFacts.
Context {env : TransamEnv} {blk : TransamBlock}.
Implicit Types (s : slru clog_page) (d : clog) (x : Z).

(** ** Bits *)

Lemma status_in_testbit byte sh k :
  0 ≤ sh → 0 ≤ k → Z.testbit (status_in byte sh) k = (k <? 2) && Z.testbit byte (k + sh).
Proof.
  intros Hsh Hk. unfold status_in. change CLOG_XACT_BITMASK with (Z.ones 2).
  rewrite Z.land_spec, Z.shiftr_spec, Z.testbit_ones_nonneg by lia. apply andb_comm.
Qed.

Lemma set_status_testbit byte sh status k :
  0 ≤ sh → 0 ≤ k → 0 ≤ status < 4 →
  Z.testbit (set_status_in byte sh status) k =
  if (sh <=? k) && (k <? sh + 2) then Z.testbit status (k - sh) else Z.testbit byte k.
Proof.
  intros Hsh Hk Hst. unfold set_status_in. change (Z.shiftl 1 CLOG_BITS_PER_XACT - 1) with (Z.ones 2).
  rewrite Z.lor_spec, Z.land_spec, Z.lnot_spec, !Z.shiftl_spec by lia.
  assert (Hhigh : ∀ j, 2 ≤ j → Z.testbit status j = false).
  { intros j Hj. apply (testbit_lt_pow2 status 2); [|lia]. change (2 ^ 2) with 4. lia. }
  destruct (Z.leb_spec sh k) as [H1|H1], (Z.ltb_spec k (sh + 2)) as [H2|H2]; cbn [andb].
  - rewrite Z.testbit_ones_nonneg by lia. rewrite (proj2 (Z.ltb_lt _ _)) by lia. cbn [negb]. by rewrite andb_false_r.
  - rewrite Z.testbit_ones_nonneg by lia. rewrite (proj2 (Z.ltb_ge _ _)) by lia. cbn [negb].
    rewrite andb_true_r, (Hhigh (k - sh)) by lia. apply orb_false_r.
  - rewrite !(Z.testbit_neg_r _ (k - sh)) by lia. cbn [negb]. by rewrite andb_true_r, orb_false_r.
  - lia.
Qed.

Lemma status_set_same byte sh status :
  0 ≤ sh → 0 ≤ status < 4 → status_in (set_status_in byte sh status) sh = status.
Proof.
  intros Hsh Hst. apply Z.bits_inj'. intros k Hk. rewrite status_in_testbit, set_status_testbit by lia.
  destruct (Z.ltb_spec k 2) as [H|H]; cbn [andb].
  - rewrite (proj2 (Z.leb_le _ _)), (proj2 (Z.ltb_lt _ _)) by lia. f_equal. lia.
  - symmetry. apply (testbit_lt_pow2 status 2); [|lia]. change (2 ^ 2) with 4. lia.
Qed.

Lemma status_set_other byte sh sh' status :
  0 ≤ sh → 0 ≤ sh' → sh + 2 ≤ sh' ∨ sh' + 2 ≤ sh → 0 ≤ status < 4 →
  status_in (set_status_in byte sh status) sh' = status_in byte sh'.
Proof.
  intros Hsh Hsh' Hd Hst. apply Z.bits_inj'. intros k Hk. rewrite !status_in_testbit, set_status_testbit by lia.
  destruct (Z.ltb_spec k 2) as [H|H]; [|done]. cbn [andb].
  destruct (Z.leb_spec sh (k + sh')) as [H1|H1], (Z.ltb_spec (k + sh') (sh + 2)) as [H2|H2]; done || lia.
Qed.

Lemma set_status_byte byte sh status :
  0 ≤ byte < 256 → 0 ≤ sh ≤ 6 → 0 ≤ status < 4 → 0 ≤ set_status_in byte sh status < 256.
Proof.
  intros Hb Hsh Hst.
  assert (H0 : 0 ≤ set_status_in byte sh status).
  { unfold set_status_in. apply Z.lor_nonneg. split; [apply Z.land_nonneg; by left; lia|apply Z.shiftl_nonneg; lia]. }
  split; [done|]. apply (bits_range _ 8); [lia|done|]. intros k Hk. rewrite set_status_testbit by lia.
  rewrite (proj2 (Z.ltb_ge k _)), andb_false_r by lia. apply (testbit_lt_pow2 byte 8); [|lia]. change (2 ^ 8) with 256. lia.
Qed.

(** ** Pages *)

Definition byte_at (b : clog_page) (n : nat) : Z := default 0 (b !! n).

#[global] Instance clog_paged : Paged clog_page Z :=
  mkPaged clog_page Z CLOG_XACTS_PER_PAGE TRANSACTION_STATUS_IN_PROGRESS
    (λ b i, status_in (byte_at b (i `div` 4)) (Z.of_nat (i mod 4) * CLOG_BITS_PER_XACT))
    (λ b, length b = Z.to_nat BLCKSZ ∧ Forall (λ y, 0 ≤ y < 256) b).

Lemma block_pos : 1024 ≤ BLCKSZ.
Proof. destruct transam_block as (k & Hk & ->). change 1024 with (2 ^ 10). apply Z.pow_le_mono_r; lia. Qed.

#[global] Instance clog_laws : PagedLaws clog_page Z.
Proof.
  pose proof block_pos. split.
  - unfold per_page, clog_paged, CLOG_XACTS_PER_PAGE, CLOG_XACTS_PER_BYTE. lia.
  - split; [apply length_replicate|]. apply Forall_replicate. lia.
  - intros i Hi. cbn [fetch clog_paged]. unfold byte_at, zero_page, ClogCtl.
    cbn [per_page clog_paged] in Hi. unfold CLOG_XACTS_PER_PAGE, CLOG_XACTS_PER_BYTE in Hi.
    rewrite lookup_replicate_2; [|apply Nat.div_lt_upper_bound; lia]. cbn [default from_option id].
    unfold status_in. by rewrite Z.shiftr_0_l, Z.land_0_l.
Qed.

(** The place of an id on its page. *)
Lemma place x :
  0 ≤ x →
  page_of x = TransactionIdToPage x ∧ (entry_no x `div` 4)%nat = Z.to_nat (TransactionIdToByte x) ∧
  Z.of_nat (entry_no x mod 4) * CLOG_BITS_PER_XACT = TransactionIdToBIndex x * CLOG_BITS_PER_XACT ∧
  (Z.to_nat (TransactionIdToByte x) < Z.to_nat BLCKSZ)%nat ∧ 0 ≤ TransactionIdToBIndex x * CLOG_BITS_PER_XACT ≤ 6.
Proof.
  intros Hx. pose proof block_pos as Hb.
  unfold page_of, entry_no, TransactionIdToPage, TransactionIdToByte, TransactionIdToPgIndex, TransactionIdToBIndex,
    per_page, clog_paged, CLOG_XACTS_PER_PAGE, CLOG_XACTS_PER_BYTE, CLOG_BITS_PER_XACT.
  assert (Hm : 0 ≤ x mod (BLCKSZ * 4) < BLCKSZ * 4) by (apply Z.mod_pos_bound; lia). set (m := x mod (BLCKSZ * 4)) in *.
  assert (Em : m mod 4 = x mod 4).
  { unfold m. rewrite (Z.mul_comm BLCKSZ 4), Z.rem_mul_r by lia. rewrite (Z.mul_comm 4 (_ mod _)).
    rewrite Z.mod_add by lia. apply Z.mod_mod. lia. }
  pose proof (Z.mod_pos_bound x 4 ltac:(lia)).
  split_and!; [done| | | | |].
  - apply Nat2Z.inj. rewrite Nat2Z.inj_div, !Z2Nat.id by (lia || apply Z.div_pos; lia). done.
  - rewrite Nat2Z.inj_mod, Z2Nat.id by lia. change (Z.of_nat 4) with 4. by rewrite Em.
  - assert (m / 4 < BLCKSZ) by (apply Z.div_lt_upper_bound; lia). pose proof (Z.div_pos m 4). lia.
  - lia.
  - lia.
Qed.

(** The status of [x] is set on its page. *)
Definition put_status (x status : Z) (b : clog_page) : clog_page :=
  let n := Z.to_nat (TransactionIdToByte x) in
  <[n := set_status_in (byte_at b n) (TransactionIdToBIndex x * CLOG_BITS_PER_XACT) status]> b.

Lemma put_status_ok x status b : 0 ≤ x → 0 ≤ status < 4 → page_ok b → page_ok (put_status x status b).
Proof.
  intros Hx Hst [Hl Hb]. destruct (place x Hx) as (_ & _ & _ & Hn & Hsh). split.
  - unfold put_status. by rewrite length_insert.
  - apply Forall_insert; [done|]. apply set_status_byte; [|done..]. unfold byte_at.
    destruct (lookup_lt_is_Some_2 b (Z.to_nat (TransactionIdToByte x))) as [y Hy]; [lia|]. rewrite Hy.
    by eapply Forall_lookup_1 in Hb.
Qed.

Lemma fetch_put x y status b :
  0 ≤ x → 0 ≤ y → 0 ≤ status < 4 → page_ok b → page_of x = page_of y →
  fetch (put_status x status b) (entry_no y) = if decide (y = x) then status else fetch b (entry_no y).
Proof.
  intros Hx Hy Hst [Hl _] Hp. destruct (place x Hx) as (_ & Ex1 & Ex2 & Hn & Hsh).
  destruct (place y Hy) as (_ & Ey1 & Ey2 & Hny & Hshy). cbn [fetch clog_paged]. rewrite Ey1, Ey2.
  unfold put_status, byte_at. case_decide as E.
  - subst y. rewrite list_lookup_insert_eq by lia. apply status_set_same; lia.
  - destruct (decide (Z.to_nat (TransactionIdToByte x) = Z.to_nat (TransactionIdToByte y))) as [En|En].
    2: { by rewrite list_lookup_insert_ne by congruence. }
    rewrite <-En, list_lookup_insert_eq by lia. apply status_set_other; [lia|lia| |done].
    assert (Hne : TransactionIdToBIndex x ≠ TransactionIdToBIndex y).
    { intros Eb. apply E. apply (same_place y x); [done|].
      rewrite (Nat.div_mod (entry_no y) 4), (Nat.div_mod (entry_no x) 4) by lia.
      rewrite Ey1, Ex1, En. f_equal. apply Nat2Z.inj. unfold CLOG_BITS_PER_XACT in *. lia. }
    unfold CLOG_BITS_PER_XACT. lia.
Qed.

(** ** Writes *)

Definition upd (f : Z → Z) (w : Z * Z) : Z → Z := λ y, if decide (y = w.1) then w.2 else f y.

(** The statuses after some writes. *)
Definition after (f : Z → Z) (ws : list (Z * Z)) : Z → Z := foldl upd f ws.

(** During recovery a transaction that is committed already is not set back. *)
Definition skipped (f : Z → Z) (w : Z * Z) : bool :=
  InRecovery && (w.2 =? TRANSACTION_STATUS_SUB_COMMITTED) && (f w.1 =? TRANSACTION_STATUS_COMMITTED).

(** The writes that are made, of those that are asked for. *)
Fixpoint performed (f : Z → Z) (ws : list (Z * Z)) : list (Z * Z) :=
  match ws with
  | [] => []
  | w :: ws => if skipped f w then performed f ws else w :: performed (upd f w) ws
  end.

Definition write_ok (w : Z * Z) : Prop := 0 ≤ w.1 ∧ 0 ≤ w.2 < 4.

Lemma after_app f ws1 ws2 : after f (ws1 ++ ws2) = after (after f ws1) ws2.
Proof. apply foldl_app. Qed.

Lemma after_ext f g ws y : f y = g y → after f ws y = after g ws y.
Proof.
  revert f g. induction ws as [|w ws IH]; intros f g E; [done|]. apply IH. unfold upd. by rewrite E.
Qed.

Lemma performed_ext f g ws : (∀ w, w ∈ ws → f w.1 = g w.1) → performed f ws = performed g ws.
Proof.
  revert f g. induction ws as [|w ws IH]; intros f g E; [done|]. cbn [performed]. unfold skipped.
  rewrite (E w) by by left. case_match; [apply IH; intros v Hv; apply E; by right|].
  f_equal. apply IH. intros v Hv. unfold upd. by rewrite (E v) by by right.
Qed.

Lemma performed_app f ws1 ws2 :
  performed f (ws1 ++ ws2) = performed f ws1 ++ performed (after f (performed f ws1)) ws2.
Proof.
  revert f. induction ws1 as [|w ws1 IH]; intros f; [done|]. cbn [performed app]. case_match; [apply IH|].
  cbn [app]. f_equal. apply IH.
Qed.

(** A prefix of the plan [ws] has been written, all of it if the routine returns. *)
Definition written (ws : list (Z * Z)) d {A} (o : outcome A) d' : Prop :=
  ∃ done rest, ws = done ++ rest ∧ (∀ a, o = Ret a → rest = []) ∧
    cl_writes d' = cl_writes d ++ performed (entry_at (cl_slru d)) done ∧
    cl_xlog d' = cl_xlog d ∧ log_ok (cl_slru d') ∧ (ios (cl_slru d) ≤ ios (cl_slru d'))%nat ∧
    (∀ y, 0 ≤ y → entry_at (cl_slru d') y =
       after (entry_at (cl_slru d)) (performed (entry_at (cl_slru d)) done) y) ∧
    (∀ p, 0 ≤ p → is_Some (view (cl_slru d) p) → is_Some (view (cl_slru d') p)) ∧
    blamed (cl_slru d) o (cl_slru d').

Lemma written_nil d {A} (a : A) : log_ok (cl_slru d) → written [] d (Ret a) d.
Proof. intros Hok. exists [], []. split_and!; try done. by rewrite app_nil_r. Qed.

Lemma written_seq ws1 ws2 d d1 {A B} (a : A) (o : outcome B) d2 :
  Forall write_ok ws2 → written ws1 d (Ret a) d1 → written ws2 d1 o d2 → written (ws1 ++ ws2) d o d2.
Proof.
  intros Hws (done1 & rest1 & E1 & Hr1 & Hw1 & Hx1 & Hok1 & Hn1 & He1 & Hp1 & _)
    (done2 & rest2 & E2 & Hr2 & Hw2 & Hx2 & Hok2 & Hn2 & He2 & Hp2 & Hb2).
  rewrite (Hr1 a eq_refl), app_nil_r in E1. subst ws1 ws2. exists (done1 ++ done2), rest2.
  set (f := entry_at (cl_slru d)) in *.
  assert (Eperf : performed (entry_at (cl_slru d1)) done2 = performed (after f (performed f done1)) done2).
  { apply performed_ext. intros w Hw. apply He1. apply Forall_app in Hws as [Hws _].
    rewrite Forall_forall in Hws. apply (Hws w Hw). }
  rewrite Eperf in *. split_and!.
  - by rewrite app_assoc.
  - done.
  - rewrite Hw2, Hw1, performed_app, app_assoc. done.
  - congruence.
  - done.
  - lia.
  - intros y Hy. rewrite He2, performed_app, after_app by done. apply after_ext. by apply He1.
  - auto.
  - by eapply blamed_mono.
Qed.

Lemma written_weaken ws ws' d {A} (o : outcome A) d' :
  (∀ a, o ≠ Ret a) → written ws d o d' → written (ws ++ ws') d o d'.
Proof.
  intros Hne (dn & rest & -> & H). exists dn, (rest ++ ws'). split_and!; try apply H; [by rewrite app_assoc|].
  intros a E. by destruct (Hne a).
Qed.

Lemma written_bind ws1 ws2 d {A B} (m : proc clog A) (k : A → proc clog B) :
  Forall write_ok ws2 → wp m (written ws1 d) d →
  (∀ a d1, written ws1 d (Ret a) d1 → wp (k a) (written ws2 d1) d1) →
  wp (bind m k) (written (ws1 ++ ws2) d) d.
Proof.
  intros Hws Hm Hk. apply proc_bind. eapply proc_mono; [exact Hm|]. intros o d1 H1.
  destruct o as [a| | |]; cbn [next].
  - eapply proc_mono; [by apply Hk|]. intros o d2 H2. by eapply written_seq.
  - apply written_weaken; [done|]. destruct H1 as (dn & rest & H1). exists dn, rest. split_and!; try apply H1; done.
  - apply written_weaken; [done|]. destruct H1 as (dn & rest & H1). exists dn, rest. split_and!; try apply H1; done.
  - apply written_weaken; [done|]. destruct H1 as (dn & rest & H1). exists dn, rest. split_and!; try apply H1; done.
Qed.

(** ** The writes of a page *)

(** The buffer of the slot [i] is being edited: it holds [b], and [ws] have been written. *)
Record editing (i : nat) (c : slot clog_page) d0 (b : clog_page) (ws : list (Z * Z)) d : Prop := mkEditing {
  ed_slru : cl_slru d = set_slots (<[i := with_buffer b c]> (slots (cl_slru d0))) (cl_slru d0);
  ed_xlog : cl_xlog d = cl_xlog d0;
  ed_writes : cl_writes d = cl_writes d0 ++ ws;
}.

Definition on_page (b : clog_page) : Z → Z := λ y, fetch b (entry_no y).
Definition put_all (b : clog_page) (ws : list (Z * Z)) : clog_page := foldl (λ b w, put_status w.1 w.2 b) b ws.

Lemma wp_on_clog {A} (m : proc (slru clog_page) A) (Q : outcome A → clog → Prop) d :
  wp m (λ o s', Q o (set_cl_slru s' d)) (cl_slru d) → wp (on_clog m) Q d.
Proof. unfold wp, on_clog. by destruct (m (cl_slru d)). Qed.

Lemma get_byte_spec x i c d :
  0 ≤ x → slots (cl_slru d) !! i = Some c → page_ok (page_buffer c) →
  wp (get_byte i (TransactionIdToByte x))
    (λ o d', o = Ret (byte_at (page_buffer c) (Z.to_nat (TransactionIdToByte x))) ∧ d' = d) d.
Proof.
  intros Hx Hi [Hl _]. destruct (place x Hx) as (_ & _ & _ & Hn & _). unfold get_byte.
  apply proc_bind, wp_on_clog, (wp_the_slot i c); [done|]. cbn [next]. unfold byte_at.
  destruct (lookup_lt_is_Some_2 (page_buffer c) (Z.to_nat (TransactionIdToByte x))) as [y Hy]; [lia|].
  rewrite Hy. apply proc_ret. split; [done|]. by destruct d.
Qed.

Lemma byte_status x b :
  0 ≤ x →
  status_in (byte_at b (Z.to_nat (TransactionIdToByte x))) (TransactionIdToBIndex x * CLOG_BITS_PER_XACT) = on_page b x.
Proof.
  intros Hx. destruct (place x Hx) as (_ & E1 & E2 & _). unfold on_page. cbn [fetch clog_paged]. by rewrite E1, E2.
Qed.

Lemma set_bit_edits x st i c d0 b ws d :
  slots (cl_slru d0) !! i = Some c → write_ok (x, st) → page_ok b → editing i c d0 b ws d →
  wp (TransactionIdSetStatusBit x st i)
    (λ o d', o = Ret tt ∧
       if skipped (on_page b) (x, st) then editing i c d0 b ws d'
       else editing i c d0 (put_status x st b) (ws ++ [(x, st)]) d') d.
Proof.
  intros Hi [Hx Hst] Hb Hed. pose proof Hed as [Es Ex Ew]. cbn [fst snd] in Hx, Hst.
  assert (Hi' : slots (cl_slru d) !! i = Some (with_buffer b c)).
  { rewrite Es. cbn [slots set_slots]. apply list_lookup_insert_eq. by eapply lookup_lt_Some. }
  unfold TransactionIdSetStatusBit. apply proc_bind. eapply proc_mono; [by apply (get_byte_spec x i (with_buffer b c))|].
  intros o d1 [-> ->]. cbn [next page_buffer with_buffer]. rewrite byte_status by done.
  unfold skipped. cbn [fst snd]. destruct (_ && _ && _); [by apply proc_ret|].
  apply proc_bind, wp_on_clog, wp_modify. cbn [next]. apply wp_modify. split; [done|].
  split; cbn [cl_slru cl_xlog cl_writes note_write set_cl_slru]; [|done|by rewrite Ew, app_assoc].
  unfold set_slot. rewrite Es. cbn [slots set_slots]. unfold set_slots. cbn [slots cur_lru_count latest_page_number files ios].
  f_equal. erewrite (alter_lookup_some _ i _ (with_buffer b c)).
  - by rewrite list_insert_insert_eq.
  - apply list_lookup_insert_eq. by eapply lookup_lt_Some.
Qed.

Lemma put_all_ok b ws : Forall write_ok ws → page_ok b → page_ok (put_all b ws).
Proof.
  revert b. induction ws as [|w ws IH]; intros b Hws Hb; [done|]. apply Forall_cons in Hws as [[Hx Hst] Hws].
  apply IH; [done|]. by apply put_status_ok.
Qed.

Lemma fetch_put_all p b ws y :
  Forall write_ok ws → (∀ w, w ∈ ws → page_of w.1 = p) → page_ok b → 0 ≤ y → page_of y = p →
  on_page (put_all b ws) y = after (on_page b) ws y.
Proof.
  revert b. induction ws as [|w ws IH]; intros b Hws Hp Hb Hy Hyp; [done|].
  apply Forall_cons in Hws as [[Hx Hst] Hws].
  change (put_all b (w :: ws)) with (put_all (put_status w.1 w.2 b) ws).
  change (after (on_page b) (w :: ws)) with (after (upd (on_page b) w) ws).
  rewrite IH; [|done|intros v Hv; apply Hp; by right|by apply put_status_ok|done..].
  apply after_ext. unfold on_page, upd. rewrite fetch_put; [by case_decide|done..|].
  rewrite Hyp. apply Hp. by left.
Qed.

Lemma set_bits_edits p xs st i c d0 b ws d :
  slots (cl_slru d0) !! i = Some c → Forall (λ x, 0 ≤ x ∧ page_of x = p) xs → 0 ≤ st < 4 → page_ok b →
  editing i c d0 b ws d →
  let plan := performed (on_page b) ((λ x, (x, st)) <$> xs) in
  wp (set_status_bits xs st i) (λ o d', o = Ret tt ∧ editing i c d0 (put_all b plan) (ws ++ plan) d') d.
Proof.
  intros Hi Hxs Hst. revert b ws d. induction xs as [|x xs IH]; intros b ws d Hb Hed; cbn [set_status_bits fmap list_fmap].
  { apply proc_ret. split; [done|]. cbn [performed put_all foldl]. by rewrite app_nil_r. }
  apply Forall_cons in Hxs as [[Hx Hp] Hxs]. apply proc_bind.
  eapply proc_mono; [by apply (set_bit_edits x st i c d0 b ws)|]. intros o d1 [-> H1]. cbn [next performed].
  destruct (skipped (on_page b) (x, st)).
  - by apply IH.
  - eapply proc_mono; [apply IH; [done|by apply put_status_ok|exact H1]|]. intros o d2 [-> H2]. split; [done|].
    assert (Eperf : performed (on_page (put_status x st b)) ((λ x, (x, st)) <$> xs) =
      performed (upd (on_page b) (x, st)) ((λ x, (x, st)) <$> xs)).
    { apply performed_ext. intros w Hw. apply list_elem_of_fmap in Hw as (y & -> & Hy).
      rewrite Forall_forall in Hxs. destruct (Hxs y Hy) as [Hy0 Hyp]. unfold on_page, upd. cbn [fst snd].
      by rewrite fetch_put by (done || congruence). }
    rewrite Eperf in H2. cbn [put_all foldl fst snd]. rewrite <-app_assoc in H2. exact H2.
Qed.

(** [m] makes the writes [ws] in the buffer of the slot [i]. *)
Definition edits (i : nat) (ws : list (Z * Z)) (m : proc clog unit) : Prop :=
  ∀ c d0 b acc d, slots (cl_slru d0) !! i = Some c → page_ok b → editing i c d0 b acc d →
  wp m (λ o d', o = Ret tt ∧ editing i c d0 (put_all b (performed (on_page b) ws)) (acc ++ performed (on_page b) ws) d') d.

Definition writes_on (p : Z) (ws : list (Z * Z)) : Prop := Forall (λ w, write_ok w ∧ page_of w.1 = p) ws.

Definition with_st (st : Z) (xs : list Z) : list (Z * Z) := (λ x, (x, st)) <$> xs.

Lemma writes_on_ok p ws : writes_on p ws → Forall write_ok ws.
Proof. intros H. eapply Forall_impl; [exact H|]. by intros w []. Qed.

Lemma performed_sub f ws w : w ∈ performed f ws → w ∈ ws.
Proof.
  revert f. induction ws as [|v ws IH]; intros f; [done|]. cbn [performed]. case_match.
  - intros H1%IH. by right.
  - intros [->|H1%IH]%elem_of_cons; [by left|by right].
Qed.

Lemma writes_on_performed p f ws : writes_on p ws → writes_on p (performed f ws).
Proof.
  unfold writes_on. rewrite !Forall_forall. intros Hws w Hw. by apply Hws, (performed_sub f).
Qed.

Lemma writes_on_with p st xs : (∀ x, x ∈ xs → 0 ≤ x ∧ page_of x = p) → 0 ≤ st < 4 → writes_on p (with_st st xs).
Proof.
  intros Hxs Hst. apply Forall_forall. intros w (x & -> & Hx)%list_elem_of_fmap. destruct (Hxs x Hx). done.
Qed.

Lemma edits_nil i : edits i [] (ret tt).
Proof.
  intros c d0 b acc d Hi Hb Hed. apply proc_ret. split; [done|]. cbn [performed put_all foldl]. by rewrite app_nil_r.
Qed.

Lemma edits_bit i x st : write_ok (x, st) → edits i [(x, st)] (TransactionIdSetStatusBit x st i).
Proof.
  intros Hw c d0 b acc d Hi Hb Hed. eapply proc_mono; [by apply (set_bit_edits x st i c d0 b acc)|].
  intros o d' [-> H]. split; [done|]. cbn [performed]. case_match; [cbn [put_all foldl]; by rewrite app_nil_r|done].
Qed.

Lemma edits_bits p i st xs :
  (∀ x, x ∈ xs → 0 ≤ x ∧ page_of x = p) → 0 ≤ st < 4 → edits i (with_st st xs) (set_status_bits xs st i).
Proof.
  intros Hxs Hst c d0 b acc d Hi Hb Hed. apply (set_bits_edits p); try done. by apply Forall_forall.
Qed.

Lemma edits_bind p i ws1 ws2 m1 m2 :
  writes_on p ws1 → writes_on p ws2 → edits i ws1 m1 → edits i ws2 m2 →
  edits i (ws1 ++ ws2) (bind m1 (λ _, m2)).
Proof.
  intros Hp1 Hp2 H1 H2 c d0 b acc d Hi Hb Hed. apply proc_bind. eapply proc_mono; [by apply H1|].
  intros o d1 [-> Hed1]. cbn [next]. set (ps := performed (on_page b) ws1) in *.
  assert (Hps : writes_on p ps) by by apply writes_on_performed.
  assert (Hb1 : page_ok (put_all b ps)) by (apply put_all_ok; [by eapply writes_on_ok|done]).
  eapply proc_mono; [by eapply H2|]. intros o d2 [-> Hed2]. split; [done|].
  assert (E : performed (on_page (put_all b ps)) ws2 = performed (after (on_page b) ps) ws2).
  { apply performed_ext. intros w Hw. unfold writes_on in Hp2. rewrite Forall_forall in Hp2. destruct (Hp2 w Hw) as [[Hx _] Hwp].
    apply (fetch_put_all p); [by eapply writes_on_ok| |done..].
    intros v Hv. unfold writes_on in Hps. rewrite Forall_forall in Hps. by apply Hps. }
  rewrite E in Hed2. rewrite performed_app. fold ps.
  change (put_all b (ps ++ performed (after (on_page b) ps) ws2)) with
    (foldl (λ b w, put_status w.1 w.2 b) b (ps ++ performed (after (on_page b) ps) ws2)).
  rewrite foldl_app, app_assoc. exact Hed2.
Qed.

(** The page is read, edited and marked dirty. *)
Lemma edit_page p ws (m : nat → proc clog unit) d :
  log_ok (cl_slru d) → 0 ≤ p → is_Some (view (cl_slru d) p) → writes_on p ws → (∀ i, edits i ws (m i)) →
  wp (bind (on_clog (SimpleLruReadPage p true))
       (λ i, bind (m i) (λ _, on_clog (modify (set_slot i (with_dirty true)))))) (written ws d) d.
Proof.
  intros Hok Hp Hv Hws Hm. apply proc_bind, wp_on_clog.
  eapply proc_mono; [apply read_log; [done..|by right]|]. intros o s1 [(Hok1 & Hn1 & He1 & Hp1) Ho1].
  set (d1 := set_cl_slru s1 d).
  assert (Hfail : ∀ A (o' : outcome A), (∀ a, o' ≠ Ret a) → blamed (cl_slru d) o' s1 → written ws d o' d1).
  { intros A o' Hne Hb. exists [], ws. split_and!; try done; [intros a E; by destruct (Hne a)|by rewrite app_nil_r]. }
  destruct o as [i| | |]; cbn [next]; [|apply Hfail; [done|]|done|apply Hfail; done].
  2: { destruct Ho1 as [?|E]; [done|]. destruct Hv as [b Hb]. congruence. }
  destruct Ho1 as (c & Hi & Hst & Hpn & Hvp). set (b := page_buffer c) in *.
  assert (Hb : page_ok b) by by apply (lo_view _ Hok1 p).
  assert (Hed : editing i c d1 b [] d1).
  { split; [|done|by rewrite app_nil_r]. cbn [cl_slru d1 set_cl_slru]. unfold set_slots.
    rewrite list_insert_id; [by destruct s1|]. rewrite Hi. unfold b. by destruct c. }
  apply proc_bind. eapply proc_mono; [by eapply (Hm i c d1 b [] d1)|].
  intros o d2 [-> [Es Ex Ew]]. cbn [next app] in *. apply wp_on_clog, wp_modify.
  set (ps := performed (on_page b) ws) in *.
  assert (Hps : writes_on p ps) by by apply writes_on_performed.
  set (s3 := set_slot i (with_dirty true) (cl_slru d2)).
  assert (Hss : slots s3 = <[i := with_dirty true (with_buffer (put_all b ps) c)]> (slots s1)).
  { unfold s3. rewrite (slots_set_slot i _ (with_buffer (put_all b ps) c)).
    - rewrite Es. cbn [slots set_slots]. by rewrite list_insert_insert_eq.
    - rewrite Es. cbn [slots set_slots]. apply list_lookup_insert_eq. by eapply lookup_lt_Some. }
  assert (Hfs : files s3 = files s1) by (unfold s3; cbn; by rewrite Es).
  assert (His : ios s3 = ios s1) by (unfold s3; cbn; by rewrite Es).
  destruct (put_log p i c (put_all b ps) s1 s3) as (Hok3 & He3 & Hp3); try done.
  { apply put_all_ok; [by eapply writes_on_ok|done]. }
  assert (Eperf : performed (entry_at (cl_slru d)) ws = ps).
  { apply performed_ext. intros w Hw. unfold writes_on in Hws. rewrite Forall_forall in Hws. destruct (Hws w Hw) as [[Hx _] Hwp].
    rewrite <-He1 by done. unfold entry_at, on_page. by rewrite Hwp, Hvp. }
  exists ws, []. cbn [cl_slru cl_xlog cl_writes set_cl_slru]. rewrite Eperf.
  split_and!; [by rewrite app_nil_r|done|by rewrite Ew|by rewrite Ex|done|by rewrite His| |auto|done].
  intros y Hy. rewrite He3 by done. case_decide as Eyp.
  - change (fetch (put_all b ps) (entry_no y)) with (on_page (put_all b ps) y).
    rewrite (fetch_put_all p); [|by eapply writes_on_ok| |done..].
    + apply after_ext. rewrite <-He1 by done. unfold entry_at, on_page. by rewrite Eyp, Hvp.
    + intros v Hv'. unfold writes_on in Hps. rewrite Forall_forall in Hps. by apply Hps.
  - rewrite He1 by done. clear -Hps Eyp. revert Hps. generalize (entry_at (cl_slru d)) as f. induction ps as [|w ps IH]; [done|].
    intros f Hps. apply Forall_cons in Hps as [[_ Hw] Hps].
    change (after f (w :: ps)) with (after (upd f w) ps). rewrite <-IH by done. unfold upd. rewrite decide_False; [done|].
    intros ->. done.
Qed.

(** ** Trees *)

Definition page_plan (xid : Z) (subxids : list Z) (st : Z) : list (Z * Z) :=
  (if TransactionIdIsValid xid then
     (if st =? TRANSACTION_STATUS_COMMITTED then with_st TRANSACTION_STATUS_SUB_COMMITTED subxids else []) ++ [(xid, st)]
   else []) ++ with_st st subxids.

(** What is written for a tree: the subtransactions on other pages are marked first. *)
Definition tree_plan (xid : Z) (subxids : list Z) (st : Z) : list (Z * Z) :=
  let '(first, rest) := split_page (TransactionIdToPage xid) subxids in
  match rest with
  | [] => page_plan xid subxids st
  | _ =>
      (if st =? TRANSACTION_STATUS_COMMITTED then with_st TRANSACTION_STATUS_SUB_COMMITTED rest else []) ++
      page_plan xid first st ++ with_st st rest
  end.

Definition existing d (x : Z) : Prop := 0 ≤ x ∧ is_Some (view (cl_slru d) (page_of x)).

Lemma SetPageStatus_spec xid subxids st p d :
  log_ok (cl_slru d) → 0 ≤ p → is_Some (view (cl_slru d) p) → 0 ≤ st < 4 →
  (TransactionIdIsValid xid = true → 0 ≤ xid ∧ page_of xid = p) → (∀ x, x ∈ subxids → 0 ≤ x ∧ page_of x = p) →
  wp (TransactionIdSetPageStatus xid subxids st p) (written (page_plan xid subxids st) d) d.
Proof.
  intros Hok Hp Hv Hst Hx Hs. unfold TransactionIdSetPageStatus, page_plan.
  assert (Hst3 : 0 ≤ TRANSACTION_STATUS_SUB_COMMITTED < 4) by (unfold TRANSACTION_STATUS_SUB_COMMITTED; lia).
  set (subs := if st =? TRANSACTION_STATUS_COMMITTED then with_st TRANSACTION_STATUS_SUB_COMMITTED subxids else []).
  assert (Hsubs : writes_on p subs) by (unfold subs; case_match; [by apply writes_on_with|apply Forall_nil_2]).
  set (main := if TransactionIdIsValid xid then subs ++ [(xid, st)] else []).
  assert (Hmain : writes_on p main).
  { unfold main. destruct (TransactionIdIsValid xid); [|apply Forall_nil_2]. destruct Hx as [? ?]; [done|].
    apply Forall_app. split; [done|]. by apply Forall_singleton. }
  apply edit_page; try done.
  { apply Forall_app. split; [done|]. by apply writes_on_with. }
  intros i. apply (edits_bind p); [done|by apply writes_on_with| |by apply (edits_bits p)].
  unfold main. destruct (TransactionIdIsValid xid); [|apply edits_nil]. destruct Hx as [? ?]; [done|].
  apply (edits_bind p); [done|by apply Forall_singleton| |by apply edits_bit].
  unfold subs. destruct (st =? TRANSACTION_STATUS_COMMITTED); [by apply (edits_bits p)|apply edits_nil].
Qed.

Lemma split_page_spec p xs :
  let '(ys, zs) := split_page p xs in
  xs = ys ++ zs ∧ (∀ x, x ∈ ys → TransactionIdToPage x = p) ∧
  match zs with [] => True | z :: _ => TransactionIdToPage z ≠ p end.
Proof.
  induction xs as [|x xs IH]; cbn [split_page].
  { split_and!; [done| |done]. intros x Hx. by apply elem_of_nil in Hx. }
  destruct (Z.eqb_spec (TransactionIdToPage x) p) as [E|E].
  - destruct (split_page p xs) as [ys zs]. destruct IH as (-> & Hy & Hz). split_and!; [done| |done].
    intros y [->|Hy']%elem_of_cons; auto.
  - split_and!; [done| |done]. intros y Hy. by apply elem_of_nil in Hy.
Qed.

Lemma existing_written {A} ws d (o : outcome A) d' x : written ws d o d' → existing d x → existing d' x.
Proof.
  intros (dn & rest & _ & _ & _ & _ & _ & _ & _ & Hp & _) [Hx Hv]. split; [done|]. apply Hp; [by apply page_of_nonneg|done].
Qed.

Lemma written_log_ok {A} ws d (o : outcome A) d' : written ws d o d' → log_ok (cl_slru d').
Proof. by intros (dn & rest & _ & _ & _ & _ & Hok & _). Qed.

Lemma with_st_app st xs ys : with_st st (xs ++ ys) = with_st st xs ++ with_st st ys.
Proof. apply fmap_app. Qed.

Lemma with_st_ok st xs : 0 ≤ st < 4 → (∀ x, x ∈ xs → 0 ≤ x) → Forall write_ok (with_st st xs).
Proof. intros Hst Hxs. apply Forall_forall. intros w (x & -> & Hx)%list_elem_of_fmap. split; [auto|done]. Qed.

Lemma set_pages_spec fuel xs st d :
  log_ok (cl_slru d) → 0 ≤ st < 4 → (length xs ≤ fuel)%nat → (∀ x, x ∈ xs → existing d x) →
  wp (set_pages fuel xs st) (written (with_st st xs) d) d.
Proof.
  revert xs d. induction fuel as [|fuel IH]; intros [|x xs] d Hok Hst Hf Hex; cbn [set_pages];
    [by apply proc_ret, written_nil|simpl in Hf; lia|by apply proc_ret, written_nil|].
  pose proof (split_page_spec (TransactionIdToPage x) (x :: xs)) as Hsplit.
  assert (Hne : (split_page (TransactionIdToPage x) (x :: xs)).1 ≠ []).
  { cbn [split_page]. rewrite Z.eqb_refl. by destruct (split_page _ xs). }
  destruct (split_page (TransactionIdToPage x) (x :: xs)) as [ys zs]. destruct Hsplit as (E & Hys & _). cbn [fst] in Hne.
  rewrite E in Hex |- *. rewrite with_st_app.
  assert (Hpl : page_plan InvalidTransactionId ys st = with_st st ys) by done.
  assert (Hex0 : existing d x) by (apply Hex; rewrite <-E; by left). destruct Hex0 as [Hx0 Hxv].
  destruct (place x Hx0) as [Epg _]. rewrite Epg in Hxv.
  apply written_bind.
  - apply with_st_ok; [done|]. intros z Hz. apply Hex, elem_of_app. by right.
  - rewrite <-Hpl. apply SetPageStatus_spec; try done.
    + rewrite <-Epg. by apply page_of_nonneg.
    + intros y Hy. destruct (Hex y) as [Hy0 _]; [apply elem_of_app; by left|]. split; [done|].
      destruct (place y Hy0) as [-> _]. by apply Hys.
  - intros [] d1 H1. apply IH; [by eapply written_log_ok|done| |].
    + apply (f_equal length) in E. rewrite length_app in E. destruct ys; [done|]. simpl in E, Hf. lia.
    + intros z Hz. eapply existing_written; [exact H1|]. apply Hex, elem_of_app. by right.
Qed.

Lemma TransactionIdSetTreeStatus_spec xid subxids st d :
  log_ok (cl_slru d) → 0 ≤ st < 4 → TransactionIdIsValid xid = true →
  existing d xid → (∀ x, x ∈ subxids → existing d x) →
  wp (TransactionIdSetTreeStatus xid subxids st) (written (tree_plan xid subxids st) d) d.
Proof.
  intros Hok Hst Hvx Hx Hs. unfold TransactionIdSetTreeStatus, tree_plan.
  pose proof (split_page_spec (TransactionIdToPage xid) subxids) as Hsplit.
  destruct (split_page (TransactionIdToPage xid) subxids) as [first rest]. destruct Hsplit as (-> & Hfirst & _).
  pose proof Hx as [Hx0 Hxv]. destruct (place xid Hx0) as [Epg _].
  assert (Hpos : 0 ≤ TransactionIdToPage xid) by (rewrite <-Epg; by apply page_of_nonneg).
  assert (Hf : ∀ x, x ∈ first → 0 ≤ x ∧ page_of x = TransactionIdToPage xid).
  { intros y Hy. destruct (Hs y) as [Hy0 _]; [apply elem_of_app; by left|]. split; [done|].
    destruct (place y Hy0) as [-> _]. by apply Hfirst. }
  assert (Hpage : ∀ d1, log_ok (cl_slru d1) → existing d1 xid →
    wp (TransactionIdSetPageStatus xid first st (TransactionIdToPage xid)) (written (page_plan xid first st) d1) d1).
  { intros d1 Hok1 [_ Hv1]. apply SetPageStatus_spec; try done. }
  destruct rest as [|z rest]; [rewrite app_nil_r; by apply Hpage|]. set (zs := z :: rest) in *.
  assert (Hzs : ∀ x, x ∈ zs → existing d x) by (intros y Hy; apply Hs, elem_of_app; by right).
  assert (Hz0 : ∀ x, x ∈ zs → 0 ≤ x) by (intros y Hy; by apply Hzs).
  assert (Hplan : Forall write_ok (page_plan xid first st ++ with_st st zs)).
  { apply Forall_app. split; [|by apply with_st_ok]. unfold page_plan. rewrite Hvx.
    assert (Hf0 : ∀ x, x ∈ first → 0 ≤ x) by (intros y Hy; by apply Hf).
    apply Forall_app. split; [|by apply with_st_ok]. apply Forall_app. split; [|by apply Forall_singleton].
    case_match; [|apply Forall_nil_2]. apply with_st_ok; [unfold TRANSACTION_STATUS_SUB_COMMITTED; lia|done]. }
  apply written_bind; [done| |].
  - destruct (st =? TRANSACTION_STATUS_COMMITTED); [|by apply proc_ret, written_nil].
    apply set_pages_spec; [done|unfold TRANSACTION_STATUS_SUB_COMMITTED; lia|lia|done].
  - intros [] d1 H1. apply written_bind; [by apply with_st_ok| |].
    + apply Hpage; [by eapply written_log_ok|by eapply existing_written].
    + intros [] d2 H2. apply set_pages_spec; [by eapply written_log_ok|done|lia|].
      intros y Hy. eapply existing_written; [exact H2|]. eapply existing_written; [exact H1|]. by apply Hzs.
Qed.

(** ** Reading and growing *)

Lemma TransactionIdGetStatus_spec x d :
  log_ok (cl_slru d) → 0 ≤ x → InRecovery = false ∨ is_Some (view (cl_slru d) (page_of x)) →
  wp (TransactionIdGetStatus x)
    (λ o d', keeps (cl_slru d) (cl_slru d') ∧ cl_writes d' = cl_writes d ∧ cl_xlog d' = cl_xlog d ∧
       match o with
       | Ret st => st = entry_at (cl_slru d) x
       | ERROR => io_failed (cl_slru d) (cl_slru d') ∨ view (cl_slru d) (page_of x) = None
       | FATAL => False
       | PANIC => fsync_failed (cl_slru d) (cl_slru d')
       end) d.
Proof.
  intros Hok Hx Hr. destruct (place x Hx) as (Epg & _). unfold TransactionIdGetStatus. rewrite <-Epg.
  apply proc_bind, wp_on_clog. eapply proc_mono; [apply read_only_log; [done|by apply page_of_nonneg|done]|].
  intros o s1 [Hk Ho]. destruct o as [i| | |]; cbn [next]; [|done..].
  destruct Ho as (c & Hi & Hst & Hpn & Hv). pose proof Hk as (Hok1 & _ & He1 & _).
  assert (Hb : page_ok (page_buffer c)) by (apply (lo_view _ Hok1 (page_of x)); [by apply page_of_nonneg|done]).
  apply proc_bind. eapply proc_mono; [by apply (get_byte_spec x i c (set_cl_slru s1 d))|].
  intros o d1 [-> ->]. cbn [next]. apply proc_ret. split_and!; try done.
  rewrite byte_status by done. rewrite <-He1 by done. unfold entry_at, on_page. by rewrite Hv.
Qed.
End ClogFacts.
