(* ===== verification/SubTrans.v ===== *)
(** * The subtransaction log ([access/transam/subtrans.c], [access/subtrans.h])

    For each subtransaction its parent and the top-level transaction of its tree, on pages that are
    kept by [Slru].  The log is needed only while the transactions run: it is not restored after a
    crash, and its pages are not flushed to be safe. *)
From S2P Require Import Prelude Proc DistributedSnapshot Slru SlruFacts SlruStore PagedLog Clog ClogFacts.

Definition NUM_SUBTRANS_BUFFERS : nat := 32.

Record SubTransData := mkSubTransData { parent : Z; topMostParent : Z }.

Definition zero_sub : SubTransData := mkSubTransData InvalidTransactionId InvalidTransactionId.

Notation sub_page := (list SubTransData).

Section SubTrans.
Context {env : TransamEnv}.

Definition SUBTRANS_XACTS_PER_PAGE : Z := BLCKSZ / 8.

Definition TransactionIdToPage (xid : Z) : Z := xid / SUBTRANS_XACTS_PER_PAGE.
Definition TransactionIdToEntry (xid : Z) : Z := xid mod SUBTRANS_XACTS_PER_PAGE.

Definition SubTransPagePrecedes (page1 page2 : Z) : bool :=
  let xid1 := u32 (u32 (page1 * SUBTRANS_XACTS_PER_PAGE) + FirstNormalTransactionId) in
  let xid2 := u32 (u32 (page2 * SUBTRANS_XACTS_PER_PAGE) + FirstNormalTransactionId) in
  TransactionIdPrecedes xid1 xid2.

(** [do_fsync] is off: no [fsync] is asked for, so none fails. *)
Definition without_fsync (a : io_answer) : io_answer :=
  match a with IoFailed SLRU_FSYNC_FAILED _ => IoDone | a => a end.

#[global] Instance SubTransCtl : SlruCtl sub_page :=
  mkSlruCtl sub_page (replicate (Z.to_nat SUBTRANS_XACTS_PER_PAGE) zero_sub) SubTransPagePrecedes
    (λ n, without_fsync (subtrans_io n)) tr_InRecovery tr_data_sync_retry.

Definition SUBTRANSShmemInit (fs : gmap Z (list sub_page)) (n : nat) : slru sub_page :=
  SimpleLruInit NUM_SUBTRANS_BUFFERS 0 fs n.

(** An access outside the page ends the server. *)
Definition get_sub (slotno : nat) (entryno : Z) : proc (slru sub_page) SubTransData :=
  c <- the_slot slotno;;
  match page_buffer c !! Z.to_nat entryno with Some e => ret e | None => raise PANIC end.

Definition SubTransGetData (xid : Z) : proc (slru sub_page) SubTransData :=
  let pageno := TransactionIdToPage xid in
  let entryno := TransactionIdToEntry xid in
  if negb (TransactionIdIsNormal xid) then ret (mkSubTransData InvalidTransactionId xid)
  else
    slotno <- SimpleLruReadPage_ReadOnly pageno;;
    ptr <- get_sub slotno entryno;;
    ret (mkSubTransData (parent ptr)
           (if topMostParent ptr =? InvalidTransactionId then xid else topMostParent ptr)).

Definition SubTransSetParent (xid new_parent : Z) : proc (slru sub_page) unit :=
  let pageno := TransactionIdToPage xid in
  let entryno := TransactionIdToEntry xid in
  top <- (if negb (new_parent =? InvalidTransactionId)
          then subData <- SubTransGetData new_parent;; ret (topMostParent subData)
          else ret InvalidTransactionId);;
  slotno <- SimpleLruReadPage pageno true;;
  modify (set_slot slotno (λ c, with_dirty true
    (with_buffer (<[Z.to_nat entryno := mkSubTransData new_parent top]> (page_buffer c)) c))).

Definition SubTransGetParent (xid : Z) : proc (slru sub_page) Z :=
  subData <- SubTransGetData xid;; ret (parent subData).

Definition SubTransGetTopmostTransaction (xid : Z) : proc (slru sub_page) Z :=
  subData <- SubTransGetData xid;; ret (topMostParent subData).

Definition ZeroSUBTRANSPage (pageno : Z) : proc (slru sub_page) nat := SimpleLruZeroPage pageno.

Definition BootStrapSUBTRANS : proc (slru sub_page) unit :=
  slotno <- ZeroSUBTRANSPage 0;;
  SimpleLruWritePage slotno.

(** [rounds] bounds the pages. *)
Fixpoint zero_active_pages (rounds : nat) (startPage endPage : Z) : proc (slru sub_page) unit :=
  if startPage =? endPage then ZeroSUBTRANSPage startPage;; ret tt
  else
    match rounds with
    | O => raise PANIC
    | S rounds =>
        ZeroSUBTRANSPage startPage;;
        let startPage := startPage + 1 in
        zero_active_pages rounds (if TransactionIdToPage MaxTransactionId <? startPage then 0 else startPage) endPage
    end.

Definition StartupSUBTRANS (rounds : nat) (oldestActiveXID nextXid : Z) : proc (slru sub_page) unit :=
  zero_active_pages rounds (TransactionIdToPage oldestActiveXID) (TransactionIdToPage nextXid).

Definition ShutdownSUBTRANS : proc (slru sub_page) unit := SimpleLruFlush.
Definition CheckPointSUBTRANS : proc (slru sub_page) unit := SimpleLruFlush.

Definition ExtendSUBTRANS (newestXact : Z) : proc (slru sub_page) unit :=
  if negb (TransactionIdToEntry newestXact =? 0) && negb (newestXact =? FirstNormalTransactionId) then ret tt
  else ZeroSUBTRANSPage (TransactionIdToPage newestXact);; ret tt.

(** The id before, around the end of the ids. *)
Definition TransactionIdRetreat (xid : Z) : Z :=
  let xid := u32 (xid - 1) in
  if xid <? FirstNormalTransactionId then MaxTransactionId else xid.

Definition TruncateSUBTRANS (oldestXact : Z) : proc (slru sub_page) unit :=
  let oldestXact := TransactionIdRetreat oldestXact in
  SimpleLruTruncate (TransactionIdToPage oldestXact).
End SubTrans.
