(* ===== verification/SubTransFacts.v ===== *)
(** * The subtransaction log: the root of a tree

    An entry keeps the top-level transaction next to the parent, so that it is found without walking
    up.  The two agree as long as an id is linked to its parent before an id is linked to it. *)
From S2P Require Import Prelude Proc DistributedSnapshot Slru SlruFacts SlruStore PagedLog Clog ClogFacts SubTrans.

Section SubTransFacts.
Context {env : TransamEnv} {blk : TransamBlock}.
Implicit Types (s : slru sub_page) (x y : Z).

#[global] Instance sub_paged : Paged sub_page SubTransData :=
  mkPaged sub_page SubTransData SUBTRANS_XACTS_PER_PAGE zero_sub
    (λ b i, default zero_sub (b !! i)) (λ b, length b = Z.to_nat SUBTRANS_XACTS_PER_PAGE).

Lemma sub_per_page : 128 ≤ SUBTRANS_XACTS_PER_PAGE.
Proof. pose proof block_pos. unfold SUBTRANS_XACTS_PER_PAGE. apply Z.div_le_lower_bound; lia. Qed.

#[global] Instance sub_laws : PagedLaws sub_page SubTransData.
Proof.
  pose proof sub_per_page. split.
  - unfold per_page, sub_paged. lia.
  - apply length_replicate.
  - intros i Hi. cbn [fetch sub_paged]. unfold zero_page, SubTransCtl. by rewrite lookup_replicate_2 by done.
Qed.

(** ** Trees *)

(** What is read for an id: the ids that are not normal have no parent. *)
Definition parent_of s x : Z :=
  if TransactionIdIsNormal x then parent (entry_at s x) else InvalidTransactionId.

Definition topmost_of s x : Z :=
  if TransactionIdIsNormal x then
    if topMostParent (entry_at s x) =? InvalidTransactionId then x else topMostParent (entry_at s x)
  else x.

(** The last id on the way up from [x]. *)
Inductive root s : Z → Z → Prop :=
  | root_top x : parent_of s x = InvalidTransactionId → root s x x
  | root_step x r : parent_of s x ≠ InvalidTransactionId → root s (parent_of s x) r → root s x r.

Record subtrans_ok s : Prop := mkSubtransOk {
  so_log : log_ok s;
  so_parent x : 0 ≤ x → 0 ≤ parent_of s x;
  so_root x : 0 ≤ x → root s x (topmost_of s x);
}.

(** No id is linked to [x], and [x] is not linked. *)
Definition unlinked s x : Prop :=
  parent_of s x = InvalidTransactionId ∧ ∀ y, 0 ≤ y → parent_of s y ≠ x.

Lemma root_functional s x r r' : root s x r → root s x r' → r = r'.
Proof. induction 1; inversion 1; naive_solver. Qed.

Lemma entry_parent s s' x : entry_at s' x = entry_at s x → parent_of s' x = parent_of s x.
Proof. unfold parent_of. by intros ->. Qed.

Lemma entry_topmost s s' x : entry_at s' x = entry_at s x → topmost_of s' x = topmost_of s x.
Proof. unfold topmost_of. by intros ->. Qed.

Lemma root_transfer s s' x r :
  subtrans_ok s → 0 ≤ x → (∀ y, 0 ≤ y → parent_of s' y = parent_of s y) → root s x r → root s' x r.
Proof.
  intros Hok Hx E H. induction H as [x H|x r H _ IH]; [constructor; by rewrite E|].
  apply root_step; rewrite E by done; [done|]. apply IH. by apply Hok.
Qed.

Lemma same_entries_ok s s' :
  subtrans_ok s → log_ok s' → (∀ x, 0 ≤ x → entry_at s' x = entry_at s x) → subtrans_ok s'.
Proof.
  intros Hok Hl E. split; [done| |].
  - intros x Hx. rewrite (entry_parent s) by auto. by apply Hok.
  - intros x Hx. rewrite (entry_topmost s) by auto. apply (root_transfer s); [done..| |by apply Hok].
    intros y Hy. apply entry_parent. auto.
Qed.

Lemma keeps_ok s s' : subtrans_ok s → keeps s s' → subtrans_ok s'.
Proof. intros Hok (Hl & _ & He & _). by apply (same_entries_ok s). Qed.

Lemma topmost_valid s x : TransactionIdIsValid x = true → topmost_of s x ≠ InvalidTransactionId.
Proof.
  unfold TransactionIdIsValid, topmost_of. intros Hx.
  destruct (Z.eqb_spec x InvalidTransactionId); [done|]. destruct (TransactionIdIsNormal x); [|done].
  destruct (Z.eqb_spec (topMostParent (entry_at s x)) InvalidTransactionId); done.
Qed.

(** The way up from an id other than [x] does not meet [x] while no id is linked to [x]. *)
Lemma root_avoids s s' x y r :
  subtrans_ok s → unlinked s x → 0 ≤ y → y ≠ x → (∀ z, 0 ≤ z → z ≠ x → parent_of s' z = parent_of s z) →
  root s y r → root s' y r.
Proof.
  intros Hok [_ Hu] Hy Hne E H. induction H as [y H|y r H _ IH]; [constructor; by rewrite E|].
  apply root_step; rewrite E by done; [done|]. apply IH; [by apply Hok|]. by apply Hu.
Qed.

(** An id is linked to a parent. *)
Lemma link_ok s s' x p :
  subtrans_ok s → log_ok s' → TransactionIdIsNormal x = true → TransactionIdIsValid p = true → 0 ≤ p → p ≠ x →
  unlinked s x →
  (∀ y, 0 ≤ y → entry_at s' y = if decide (y = x) then mkSubTransData p (topmost_of s p) else entry_at s y) →
  subtrans_ok s' ∧ parent_of s' x = p ∧ topmost_of s' x = topmost_of s p.
Proof.
  intros Hok Hl Hx Hp Hp0 Hpx Hu He.
  assert (Hx0 : 0 ≤ x) by (unfold TransactionIdIsNormal in Hx; apply Z.leb_le in Hx; unfold FirstNormalTransactionId in Hx; lia).
  assert (Hpne : p ≠ InvalidTransactionId) by (unfold TransactionIdIsValid in Hp; by destruct (Z.eqb_spec p InvalidTransactionId)).
  assert (Ex : parent_of s' x = p ∧ topmost_of s' x = topmost_of s p).
  { unfold parent_of at 1, topmost_of at 1. rewrite Hx, He, decide_True by done. cbn [parent topMostParent].
    split; [done|]. by rewrite (proj2 (Z.eqb_neq _ _)) by by apply topmost_valid. }
  assert (Ey : ∀ y, 0 ≤ y → y ≠ x → entry_at s' y = entry_at s y) by (intros y Hy Hne; by rewrite He, decide_False).
  assert (Hav : ∀ y, 0 ≤ y → y ≠ x → root s' y (topmost_of s y)).
  { intros y Hy Hne. eapply (root_avoids s); [done..| |by apply Hok]. intros z Hz Hzx. apply entry_parent. auto. }
  split; [|done]. split; [done| |].
  - intros y Hy. destruct (decide (y = x)) as [->|Hne]; [by rewrite (proj1 Ex)|]. rewrite (entry_parent s) by auto.
    by apply Hok.
  - intros y Hy. destruct (decide (y = x)) as [->|Hne].
    + rewrite (proj2 Ex). apply root_step; rewrite (proj1 Ex); [done|]. by apply Hav.
    + rewrite (entry_topmost s) by auto. by apply Hav.
Qed.

(** ** Reading *)

Definition readable s x : Prop := TransactionIdIsNormal x = false ∨ is_Some (view s (page_of x)).

Lemma get_sub_spec x i s :
  0 ≤ x → log_ok s → holding (page_of x) i s →
  wp (get_sub i (TransactionIdToEntry x)) (λ o s', o = Ret (entry_at s x) ∧ s' = s) s.
Proof.
  intros Hx Hl Hh. destruct (held_entry x i s Hh) as (c & Hi & _ & _ & Hv & He).
  assert (Hb : page_ok (page_buffer c)) by (apply (lo_view _ Hl (page_of x)); [by apply page_of_nonneg|done]).
  unfold get_sub. apply proc_bind, (wp_the_slot i c); [done|]. cbn [next].
  rewrite He. change (Z.to_nat (TransactionIdToEntry x)) with (entry_no x). cbn [fetch sub_paged].
  pose proof (entry_no_lt x). cbn [page_ok sub_paged] in Hb.
  destruct (lookup_lt_is_Some_2 (page_buffer c) (entry_no x)) as [e Hlk]; [by rewrite Hb|].
  rewrite Hlk. by apply proc_ret.
Qed.

Lemma SubTransGetData_spec x s :
  log_ok s → 0 ≤ x → readable s x →
  wp (SubTransGetData x)
    (λ o s', keeps s s' ∧ blamed s o s' ∧ ∀ e, o = Ret e → e = mkSubTransData (parent_of s x) (topmost_of s x)) s.
Proof.
  intros Hl Hx Hr. unfold SubTransGetData, parent_of, topmost_of. destruct (TransactionIdIsNormal x) eqn:Hn; cbn [negb].
  2: { apply proc_ret. split_and!; [by apply keeps_refl|done|]. by intros e [= <-]. }
  destruct Hr as [?|Hv]; [congruence|]. change (TransactionIdToPage x) with (page_of x).
  apply proc_bind. eapply proc_mono; [apply read_only_log; [done|by apply page_of_nonneg|by right]|].
  intros o s1 [Hk Ho]. destruct o as [i| | |]; cbn [next].
  - apply proc_bind. eapply proc_mono; [apply get_sub_spec; [done|apply Hk|exact Ho]|].
    intros o s2 [-> ->]. cbn [next]. apply proc_ret. split_and!; [done..|]. intros e [= <-].
    by rewrite (proj1 (proj2 (proj2 Hk)) x Hx).
  - split_and!; [done| |done]. destruct Ho as [?|E]; [done|]. rewrite E in Hv. by destruct Hv.
  - done.
  - done.
Qed.

Lemma SubTransGetParent_spec x s :
  log_ok s → 0 ≤ x → readable s x →
  wp (SubTransGetParent x)
    (λ o s', keeps s s' ∧ blamed s o s' ∧ ∀ p, o = Ret p → p = parent_of s x) s.
Proof.
  intros Hl Hx Hr. apply proc_bind. eapply proc_mono; [by apply SubTransGetData_spec|].
  intros o s1 (Hk & Hb & Ho). destruct o as [e| | |]; cbn [next]; [|done..].
  apply proc_ret. split_and!; [done..|]. intros p [= <-]. by rewrite (Ho e eq_refl).
Qed.

Lemma SubTransGetTopmost_spec x s :
  log_ok s → 0 ≤ x → readable s x →
  wp (SubTransGetTopmostTransaction x)
    (λ o s', keeps s s' ∧ blamed s o s' ∧ ∀ p, o = Ret p → p = topmost_of s x) s.
Proof.
  intros Hl Hx Hr. apply proc_bind. eapply proc_mono; [by apply SubTransGetData_spec|].
  intros o s1 (Hk & Hb & Ho). destruct o as [e| | |]; cbn [next]; [|done..].
  apply proc_ret. split_and!; [done..|]. intros p [= <-]. by rewrite (Ho e eq_refl).
Qed.

(** The server never goes down for this log. *)
Lemma sub_blamed {A} s (o : outcome A) s' : blamed s o s' → o ≠ FATAL ∧ o ≠ PANIC.
Proof.
  intros Hb. split; intros ->; [done|]. destruct Hb as (n & w & _ & E). revert E. cbn [io SubTransCtl].
  unfold without_fsync. repeat case_match; done.
Qed.

(** ** Linking *)

(** When [x] may be linked to [p]: before it is linked and before an id is linked to it. *)
Record may_link s x p : Prop := mkMayLink {
  ml_normal : TransactionIdIsNormal x = true;
  ml_parent : TransactionIdIsValid p = true;
  ml_nonneg : 0 ≤ p;
  ml_other : p ≠ x;
  ml_unlinked : unlinked s x;
  ml_page : is_Some (view s (page_of x));
  ml_readable : readable s p;
}.

Lemma normal_id_nonneg x : TransactionIdIsNormal x = true → 0 ≤ x.
Proof. unfold TransactionIdIsNormal, FirstNormalTransactionId. intros H%Z.leb_le. lia. Qed.

Lemma put_sub x e i s :
  log_ok s → 0 ≤ x → holding (page_of x) i s →
  let s' := set_slot i (λ c, with_dirty true
    (with_buffer (<[Z.to_nat (TransactionIdToEntry x) := e]> (page_buffer c)) c)) s in
  log_ok s' ∧ (∀ y, 0 ≤ y → entry_at s' y = if decide (y = x) then e else entry_at s y) ∧
  (∀ q, 0 ≤ q → is_Some (view s q) → is_Some (view s' q)).
Proof.
  intros Hl Hx Hh s'. destruct (held_entry x i s Hh) as (c & Hi & Hst & Hpn & Hv & _).
  assert (Hb : page_ok (page_buffer c)) by (apply (lo_view _ Hl (page_of x)); [by apply page_of_nonneg|done]).
  cbn [page_ok sub_paged] in Hb. pose proof (entry_no_lt x) as Hlt. cbn [per_page sub_paged] in Hlt.
  change (Z.to_nat (TransactionIdToEntry x)) with (entry_no x) in s'.
  destruct (put_log (page_of x) i c (<[entry_no x := e]> (page_buffer c)) s s') as (Hl' & He & Hp);
    try done; [by apply page_of_nonneg|by unfold s'; rewrite (slots_set_slot i _ c)|cbn [page_ok sub_paged]; by rewrite length_insert|].
  split_and!; [done| |done]. intros y Hy. rewrite He by done. case_decide as E.
  - cbn [fetch sub_paged]. case_decide as Eyx.
    + subst y. by rewrite list_lookup_insert_eq by lia.
    + rewrite list_lookup_insert_ne; [by unfold entry_at; rewrite E, Hv|].
      intros En. apply Eyx. by apply same_place.
  - rewrite decide_False; [done|]. by intros ->.
Qed.

Lemma SubTransSetParent_spec x p s :
  subtrans_ok s → may_link s x p →
  wp (SubTransSetParent x p)
    (λ o s', subtrans_ok s' ∧ blamed s o s' ∧ (∀ q, 0 ≤ q → is_Some (view s q) → is_Some (view s' q)) ∧
       (∀ y, 0 ≤ y → (y ≠ x ∨ o ≠ Ret tt) → entry_at s' y = entry_at s y) ∧
       (o = Ret tt → parent_of s' x = p ∧ topmost_of s' x = topmost_of s p)) s.
Proof.
  intros Hok [Hx Hp Hp0 Hpx Hu Hv Hr]. assert (Hx0 := normal_id_nonneg x Hx). pose proof Hok as [Hl _ _].
  unfold SubTransSetParent. change (negb (p =? InvalidTransactionId)) with (TransactionIdIsValid p). rewrite Hp.
  apply proc_bind, proc_bind. eapply proc_mono; [by apply SubTransGetData_spec|].
  intros o s1 (Hk1 & Hb1 & Ho1). pose proof Hk1 as (Hl1 & Hn1 & He1 & Hv1).
  assert (Hok1 : subtrans_ok s1) by by apply (keeps_ok s).
  destruct o as [e| | |]; cbn [next]; [|split_and!; naive_solver..].
  apply proc_ret. cbn [next]. rewrite (Ho1 e eq_refl). cbn [topMostParent]. change (TransactionIdToPage x) with (page_of x).
  apply proc_bind. eapply proc_mono; [apply read_log; [done|by apply page_of_nonneg|]|].
  { right. apply Hv1; [by apply page_of_nonneg|done]. }
  intros o s2 [Hk2 Ho2]. pose proof Hk2 as (Hl2 & Hn2 & He2 & Hv2).
  assert (Hok2 : subtrans_ok s2) by by apply (keeps_ok s1).
  assert (He : ∀ y, 0 ≤ y → entry_at s2 y = entry_at s y) by (intros y Hy; rewrite He2, He1; done).
  destruct o as [i| | |]; cbn [next].
  - apply wp_modify. destruct (put_sub x (mkSubTransData p (topmost_of s p)) i s2) as (Hl3 & He3 & Hv3); [done..|].
    set (s3 := set_slot i _ s2) in *.
    assert (Het : topmost_of s2 p = topmost_of s p) by by apply entry_topmost, He.
    assert (Hu2 : unlinked s2 x).
    { destruct Hu as [Hu1 Hu2]. split; [by rewrite (entry_parent s) by auto|]. intros y Hy. rewrite (entry_parent s); auto. }
    destruct (link_ok s2 s3 x p) as (Hok3 & Hp3 & Ht3); try done; [intros y Hy; by rewrite He3, Het|].
    split_and!; [done|done|auto| |by rewrite Ht3, Het].
    intros y Hy [Hne|?]; [|done]. rewrite He3, decide_False by done. auto.
  - split_and!; [done| |auto|auto|done]. destruct Ho2 as [Hf|Hnone]; [by apply (io_failed_mono s s1 s2 s2)|].
    destruct (Hv1 (page_of x)) as [b Eb]; [by apply page_of_nonneg|done|congruence].
  - done.
  - split_and!; [done| |auto|auto|done]. by apply (fsync_failed_mono s s1 s2 s2).
Qed.

(** ** Runs *)

(** What the backends do to the log while transactions run, whatever the outcome of each routine. *)
Inductive sub_step s : slru sub_page → Prop :=
  | step_link x p o s' : may_link s x p → SubTransSetParent x p s = (o, s') → sub_step s s'
  | step_lookup x o s' : 0 ≤ x → readable s x → SubTransGetData x s = (o, s') → sub_step s s'
  | step_checkpoint o s' : CheckPointSUBTRANS s = (o, s') → sub_step s s'
  | step_extend x o s' :
      0 ≤ x → view s (page_of x) = None → ExtendSUBTRANS x s = (o, s') → sub_step s s'.

(** A new page changes no entry. *)
Lemma ExtendSUBTRANS_spec x s :
  log_ok s → 0 ≤ x → view s (page_of x) = None →
  wp (ExtendSUBTRANS x) (λ o s', log_ok s' ∧ blamed s o s' ∧ ∀ y, 0 ≤ y → entry_at s' y = entry_at s y) s.
Proof.
  intros Hl Hx Hv. unfold ExtendSUBTRANS. case_match; [by apply proc_ret|].
  change (TransactionIdToPage x) with (page_of x). apply proc_bind.
  eapply proc_mono; [apply zero_log; [done|by apply page_of_nonneg]|]. intros o s' (Hl' & _ & Hb & _ & He & Ho).
  assert (Hsame : ∀ y, 0 ≤ y → entry_at s' y = entry_at s y).
  { intros y Hy. destruct (decide (page_of y = page_of x)) as [Ey|Ey]; [|by apply He]. destruct o; [|by apply Ho..].
    destruct Ho as (_ & _ & Hblank). rewrite Hblank by done. unfold entry_at. by rewrite Ey, Hv. }
  by destruct o.
Qed.

Lemma sub_step_ok s s' : subtrans_ok s → sub_step s s' → subtrans_ok s'.
Proof.
  intros Hok Hs. pose proof Hok as [Hl _ _]. destruct Hs as [x p o s' Hm E|x o s' Hx Hr E|o s' E|x o s' Hx Hv E].
  - by apply (wp_run _ _ _ _ _ (SubTransSetParent_spec x p s Hok Hm)) in E as [? _].
  - apply (wp_run _ _ _ _ _ (SubTransGetData_spec x s Hl Hx Hr)) in E as [Hk _]. by eapply keeps_ok.
  - apply (wp_run _ _ _ _ _ (SimpleLruFlush_spec s (lo_inv _ Hl))) in E as (Hi & Hev & _).
    apply (keeps_ok s); [done|]. by apply evolves_keeps.
  - apply (wp_run _ _ _ _ _ (ExtendSUBTRANS_spec x s Hl Hx Hv)) in E as (Hl' & _ & He). by apply (same_entries_ok s).
Qed.

Lemma subtrans_init_blank n x : entry_at (SUBTRANSShmemInit ∅ n) x = zero_sub.
Proof.
  destruct (init_inv NUM_SUBTRANS_BUFFERS 0 ∅ n) as [_ Hv]; [unfold NUM_SUBTRANS_BUFFERS; lia|].
  unfold entry_at, SUBTRANSShmemInit. by rewrite Hv.
Qed.

Lemma subtrans_init_ok n : subtrans_ok (SUBTRANSShmemInit ∅ n).
Proof.
  destruct (init_inv NUM_SUBTRANS_BUFFERS 0 ∅ n) as [Hi Hv]; [unfold NUM_SUBTRANS_BUFFERS; lia|].
  set (s := SUBTRANSShmemInit ∅ n).
  assert (Hnone : ∀ p, view s p = None) by (intros p; by rewrite Hv). assert (He := subtrans_init_blank n).
  assert (Hp : ∀ x, parent_of s x = InvalidTransactionId) by (intros x; unfold parent_of; rewrite He; by case_match).
  split.
  - split; [done|]. intros p b _ Hb. by rewrite Hnone in Hb.
  - intros x _. by rewrite Hp.
  - intros x _. unfold topmost_of. rewrite He. cbn. case_match; by constructor.
Qed.

Lemma sub_steps_ok n s : rtc sub_step (SUBTRANSShmemInit ∅ n) s → subtrans_ok s.
Proof.
  intros Hs. eapply (rtc_ind_r (λ s, subtrans_ok s)); [apply subtrans_init_ok| |exact Hs].
  intros s1 s2 _ Hstep Hok. by eapply sub_step_ok.
Qed.

(** C25: at any time after the server is started with an empty subtransaction log, whatever ids have
    been linked, looked up, created or written to disk in between and whatever requests to the
    operating system failed, the top-level transaction that is read for an id is the one that is
    reached by following the parents that are read, and linking an id to its parent makes the two
    share their top-level transaction; an error is raised only for a request that failed, and the
    server does not go down for it. *)
Theorem subtrans_topmost_is_root n s x p :
  rtc sub_step (SUBTRANSShmemInit ∅ n) s → 0 ≤ x → readable s x →
  wp (SubTransGetTopmostTransaction x)
    (λ o s', keeps s s' ∧ blamed s o s' ∧ o ≠ PANIC ∧ ∀ r, o = Ret r → root s x r ∧ ∀ r', root s x r' → r' = r) s ∧
  wp (SubTransGetParent x) (λ o s', keeps s s' ∧ blamed s o s' ∧ o ≠ PANIC ∧ ∀ r, o = Ret r → r = parent_of s x) s ∧
  (may_link s x p →
   wp (SubTransSetParent x p)
     (λ o s', blamed s o s' ∧ o ≠ PANIC ∧ (∀ y, 0 ≤ y → y ≠ x ∨ o ≠ Ret tt → entry_at s' y = entry_at s y) ∧
        (o = Ret tt → parent_of s' x = p ∧ ∀ r, root s' x r ↔ root s' p r)) s).
Proof.
  intros Hs Hx Hr. assert (Hok := sub_steps_ok n s Hs). pose proof Hok as [Hl _ _]. split_and!.
  - eapply proc_mono; [by apply SubTransGetTopmost_spec|]. intros o s' (Hk & Hb & Ho). split_and!; [done..|by eapply sub_blamed|].
    intros r E. rewrite (Ho r E). split; [by apply Hok|]. intros r' Hr'. eapply root_functional; [exact Hr'|]. by apply Hok.
  - eapply proc_mono; [by apply SubTransGetParent_spec|]. intros o s' (Hk & Hb & Ho).
    split_and!; [done..|by eapply sub_blamed|done].
  - intros Hm. eapply proc_mono; [by apply SubTransSetParent_spec|]. intros o s' (Hok' & Hb & _ & He & Ho).
    split_and!; [done|by eapply sub_blamed|done|]. intros E. destruct (Ho E) as [Ep _]. split; [done|].
    assert (Hne : parent_of s' x ≠ InvalidTransactionId).
    { rewrite Ep. pose proof (ml_parent _ _ _ Hm) as Hp. unfold TransactionIdIsValid in Hp.
      by destruct (Z.eqb_spec p InvalidTransactionId). }
    intros r. split.
    + intros H. destruct H; [done|]. by rewrite <-Ep.
    + intros H. apply root_step; [done|]. by rewrite Ep.
Qed.
End SubTransFacts.

(** ** An example *)

Module SubtransSample.
#[export] Instance sample_env : TransamEnv := mkTransamEnv 1024 16384 (λ _, IoDone) (λ _, IoDone) false false (λ _, None).
#[export] Instance sample_blk : TransamBlock.
Proof. exists 10. split; [lia|reflexivity]. Qed.

(** A new log, its first page, and the transaction 4 under the transaction 3. *)
Definition sub0 : slru sub_page := SUBTRANSShmemInit ∅ 0.
Definition sub1 : slru sub_page := (ExtendSUBTRANS 3 sub0).2.
Definition sub2 : slru sub_page := (SubTransSetParent 4 3 sub1).2.

Lemma sub1_blank y : 0 ≤ y → entry_at sub1 y = zero_sub.
Proof.
  intros Hy. destruct (ExtendSUBTRANS_spec 3 sub0) as (_ & _ & He); [apply subtrans_init_ok|lia|by vm_compute|].
  unfold sub1. rewrite He by done. apply subtrans_init_blank.
Qed.

Lemma sub1_may_link : may_link sub1 4 3.
Proof.
  split; [done|done|lia|lia| |vm_compute; eauto|right; vm_compute; eauto]. split.
  - unfold parent_of. by rewrite sub1_blank by lia.
  - intros y Hy. unfold parent_of. rewrite sub1_blank by done. by case_match.
Qed.

Lemma sub1_step : sub_step sub0 sub1.
Proof.
  apply (step_extend _ 3 (ExtendSUBTRANS 3 sub0).1); [lia|by vm_compute|]. unfold sub1. by destruct (ExtendSUBTRANS 3 sub0).
Qed.

Lemma sub2_reached : rtc sub_step sub0 sub2.
Proof.
  apply rtc_l with sub1; [apply sub1_step|].
  apply rtc_once. apply (step_link _ 4 3 (SubTransSetParent 4 3 sub1).1); [apply sub1_may_link|].
  unfold sub2. by destruct (SubTransSetParent 4 3 sub1).
Qed.

Lemma subtrans_topmost_is_root_witness :
  (SubTransGetTopmostTransaction 4 sub2).1 = Ret 3 ∧ root sub2 4 3.
Proof.
  assert (E : (SubTransGetTopmostTransaction 4 sub2).1 = Ret 3) by (vm_compute; reflexivity).
  split; [exact E|].
  destruct (@subtrans_topmost_is_root sample_env sample_blk 0 sub2 4 3) as [Htop _].
  - exact sub2_reached.
  - lia.
  - right. vm_compute. eauto.
  - unfold wp in Htop. destruct Htop as (_ & _ & _ & Hr). exact (proj1 (Hr 3 E)).
Defined.
End SubtransSample.
