(* ===== verification/TransAm.v ===== *)
(** * The status of transactions ([access/transam/transam.c])

    Whether a transaction committed: the status in the commit log, and for a committed subtransaction
    the status of its parent, which the subtransaction log knows.  The status of the last
    transaction that was found to have ended is remembered.

    Commits are synchronous; the location of the commit record is left out.  [TransactionXmin] is the
    horizon of the session's snapshot: what lies before it may be gone from the subtransaction log. *)
From S2P Require Import Prelude Proc DistributedSnapshot Slru Clog SubTrans.

Record transam := mkTransam {
  t_clog : clog;
  t_sub : slru sub_page;
  cachedFetchXid : Z;
  cachedFetchXidStatus : Z;
}.

(** ** The order of ids *)

Definition TransactionIdPrecedesOrEquals (id1 id2 : Z) : bool :=
  if negb (TransactionIdIsNormal id1) || negb (TransactionIdIsNormal id2) then id1 <=? id2 else s32 (id1 - id2) <=? 0.

Definition TransactionIdFollowsOrEquals (id1 id2 : Z) : bool :=
  if negb (TransactionIdIsNormal id1) || negb (TransactionIdIsNormal id2) then id2 <=? id1 else 0 <=? s32 (id1 - id2).

(** The array is scanned from its end. *)
Definition TransactionIdLatest (mainxid : Z) (xids : list Z) : Z :=
  foldr (λ xid result, if TransactionIdPrecedes result xid then xid else result) mainxid xids.

Section TransAm.
Context {env : TransamEnv}.

Definition on_t_clog {A} (m : proc clog A) : proc transam A := λ t,
  let '(o, d) := m (t_clog t) in (o, mkTransam d (t_sub t) (cachedFetchXid t) (cachedFetchXidStatus t)).
Definition on_t_sub {A} (m : proc (slru sub_page) A) : proc transam A := λ t,
  let '(o, s) := m (t_sub t) in (o, mkTransam (t_clog t) s (cachedFetchXid t) (cachedFetchXidStatus t)).
Definition remember (xid status : Z) (t : transam) : transam := mkTransam (t_clog t) (t_sub t) xid status.

(** ** Reading *)

Definition TransactionLogFetch (transactionId : Z) : proc transam Z :=
  t <- get;;
  if transactionId =? cachedFetchXid t then ret (cachedFetchXidStatus t)
  else if negb (TransactionIdIsNormal transactionId) then
    if transactionId =? BootstrapTransactionId then ret TRANSACTION_STATUS_COMMITTED
    else if transactionId =? FrozenTransactionId then ret TRANSACTION_STATUS_COMMITTED
    else ret TRANSACTION_STATUS_ABORTED
  else
    xidstatus <- on_t_clog (TransactionIdGetStatus transactionId);;
    (if negb (xidstatus =? TRANSACTION_STATUS_IN_PROGRESS) && negb (xidstatus =? TRANSACTION_STATUS_SUB_COMMITTED)
     then modify (remember transactionId xidstatus) else ret tt);;
    ret xidstatus.

(** [rounds] bounds the number of ids on the way up. *)
Fixpoint TransactionIdDidCommit (rounds : nat) (TransactionXmin transactionId : Z) : proc transam bool :=
  match rounds with
  | O => raise PANIC
  | S rounds =>
      xidstatus <- TransactionLogFetch transactionId;;
      if xidstatus =? TRANSACTION_STATUS_COMMITTED then ret true
      else if xidstatus =? TRANSACTION_STATUS_SUB_COMMITTED then
        if TransactionIdPrecedes transactionId TransactionXmin then ret false
        else
          parentXid <- on_t_sub (SubTransGetParent transactionId);;
          if negb (TransactionIdIsValid parentXid) then ret false
          else TransactionIdDidCommit rounds TransactionXmin parentXid
      else ret false
  end.

Fixpoint TransactionIdDidAbort (rounds : nat) (TransactionXmin transactionId : Z) : proc transam bool :=
  match rounds with
  | O => raise PANIC
  | S rounds =>
      xidstatus <- TransactionLogFetch transactionId;;
      if xidstatus =? TRANSACTION_STATUS_ABORTED then ret true
      else if xidstatus =? TRANSACTION_STATUS_SUB_COMMITTED then
        if TransactionIdPrecedes transactionId TransactionXmin then ret true
        else
          parentXid <- on_t_sub (SubTransGetParent transactionId);;
          if negb (TransactionIdIsValid parentXid) then ret true
          else TransactionIdDidAbort rounds TransactionXmin parentXid
      else ret false
  end.

Definition TransactionIdDidAbortForReader (transactionId : Z) : proc transam bool :=
  status <- TransactionLogFetch transactionId;;
  ret (status =? TRANSACTION_STATUS_ABORTED).

Definition TransactionIdIsKnownCompleted (transactionId : Z) (t : transam) : bool :=
  transactionId =? cachedFetchXid t.

(** ** Setting *)

Definition TransactionIdCommitTree (xid : Z) (xids : list Z) : proc transam unit :=
  on_t_clog (TransactionIdSetTreeStatus xid xids TRANSACTION_STATUS_COMMITTED).

Definition TransactionIdAbortTree (xid : Z) (xids : list Z) : proc transam unit :=
  on_t_clog (TransactionIdSetTreeStatus xid xids TRANSACTION_STATUS_ABORTED).
End TransAm.
