(* ===== verification/TransAmFacts.v ===== *)
(** * The status of transactions: verdicts and atomic commit

    What it means that a transaction committed, given the statuses and the parents; that the routines
    find it with their buffers and their cache; and that at no time a part of a tree is seen as
    committed. *)
From S2P Require Import Prelude Proc DistributedSnapshot Slru SlruFacts SlruStore PagedLog Clog ClogFacts.
From S2P Require Import SubTrans SubTransFacts TransAm.

(** ** Verdicts *)

(** The status of an id; the ids that are not normal have one that never changes. *)
Definition status_of (f : Z → Z) (x : Z) : Z :=
  if TransactionIdIsNormal x then f x
  else if (x =? BootstrapTransactionId) || (x =? FrozenTransactionId) then TRANSACTION_STATUS_COMMITTED
  else TRANSACTION_STATUS_ABORTED.

Section Verdict.
Context (f par : Z → Z) (xmin : Z).

(** The way up goes on from a committed subtransaction that is not too old and has a parent. *)
Definition goes_up (x : Z) : Prop :=
  status_of f x = TRANSACTION_STATUS_SUB_COMMITTED ∧ TransactionIdPrecedes x xmin = false ∧ par x ≠ InvalidTransactionId.

(** The way up ends at an id with the status [want], or, if [lost], at one whose parent cannot be found. *)
Inductive verdict (want : Z) (lost : bool) : Z → Prop :=
  | verdict_now x : status_of f x = want → verdict want lost x
  | verdict_lost x :
      lost = true → status_of f x = TRANSACTION_STATUS_SUB_COMMITTED →
      TransactionIdPrecedes x xmin = true ∨ par x = InvalidTransactionId → verdict want lost x
  | verdict_up x : goes_up x → verdict want lost (par x) → verdict want lost x.

Definition committed : Z → Prop := verdict TRANSACTION_STATUS_COMMITTED false.

(** A subtransaction whose parent cannot be found is taken for aborted. *)
Definition aborted : Z → Prop := verdict TRANSACTION_STATUS_ABORTED true.

(** The number of steps on the way up is at most [n]. *)
Fixpoint shallow (n : nat) (x : Z) : Prop :=
  match n with
  | O => par x = InvalidTransactionId
  | S n => par x = InvalidTransactionId ∨ shallow n (par x)
  end.

(** The verdict of an id that is not a subtransaction waiting for its parent. *)
Lemma verdict_ended want lost x :
  status_of f x ≠ TRANSACTION_STATUS_SUB_COMMITTED → verdict want lost x ↔ status_of f x = want.
Proof.
  intros Hne. split; [|by constructor]. intros H. destruct H as [x E|x _ E _|x [E _] _]; done.
Qed.

Lemma verdict_stuck want lost x :
  want ≠ TRANSACTION_STATUS_SUB_COMMITTED → status_of f x = TRANSACTION_STATUS_SUB_COMMITTED →
  TransactionIdPrecedes x xmin = true ∨ par x = InvalidTransactionId → verdict want lost x ↔ lost = true.
Proof.
  intros Hw E Hs. split; [|intros Hl; by apply verdict_lost].
  intros H. destruct H as [x E'|x Hl _ _|x (_ & Hm & Hp) _]; [congruence|done|]. destruct Hs; congruence.
Qed.

Lemma verdict_waiting want lost x :
  want ≠ TRANSACTION_STATUS_SUB_COMMITTED → goes_up x → verdict want lost x ↔ verdict want lost (par x).
Proof.
  intros Hw Hup. pose proof Hup as (E & Hm & Hp). split; [|by apply verdict_up].
  intros H. destruct H as [x E'|x _ _ Hs|x _ H]; [congruence| |done]. destruct Hs; congruence.
Qed.

Lemma not_both x : committed x → ¬ aborted x.
Proof.
  unfold committed, aborted. induction 1 as [x E|x ? _ _|x Hup _ IH]; [|done|].
  - rewrite verdict_ended by by rewrite E. by rewrite E.
  - by rewrite verdict_waiting.
Qed.
End Verdict.

(** Only the ids from zero on matter. *)
Lemma verdict_ext f g par par' xmin want lost x :
  (∀ y, 0 ≤ y → f y = g y) → (∀ y, 0 ≤ y → par y = par' y) → (∀ y, 0 ≤ y → 0 ≤ par y) → 0 ≤ x →
  verdict f par xmin want lost x → verdict g par' xmin want lost x.
Proof.
  intros Hf Hpar Hpos Hx H.
  assert (Hs : ∀ y, 0 ≤ y → status_of f y = status_of g y) by (intros y Hy; unfold status_of; by rewrite Hf).
  induction H as [x E|x Hl E Hs'|x (E & Hm & Hp) _ IH]; rewrite Hs in E by done.
  - by constructor.
  - apply verdict_lost; [done..|]. by rewrite <-Hpar.
  - apply verdict_up; [unfold goes_up; by rewrite <-Hpar|]. rewrite <-Hpar by done. apply IH. by apply Hpos.
Qed.

Section TransAmFacts.
Context {env : TransamEnv} {blk : TransamBlock}.
Implicit Types (t : transam) (x y : Z).

Definition statuses t : Z → Z := entry_at (cl_slru (t_clog t)).
Definition parents t : Z → Z := parent_of (t_sub t).

Lemma root_shallow s x r : root s x r → ∃ n, shallow (parent_of s) n x.
Proof. induction 1 as [x H|x r H _ [n IH]]; [by exists 0%nat|]. exists (S n). by right. Qed.

(** ** Reading *)

(** What is remembered is a status that will not change. *)
Record transam_ok t : Prop := mkTransamOk {
  to_clog : log_ok (cl_slru (t_clog t));
  to_sub : subtrans_ok (t_sub t);
  to_cache : cachedFetchXid t = InvalidTransactionId ∨
    (TransactionIdIsNormal (cachedFetchXid t) = true ∧ cachedFetchXidStatus t = statuses t (cachedFetchXid t) ∧
     (cachedFetchXidStatus t = TRANSACTION_STATUS_COMMITTED ∨ cachedFetchXidStatus t = TRANSACTION_STATUS_ABORTED));
}.

(** Nothing that can be seen changes. *)
Record same_verdicts t t' : Prop := mkSameVerdicts {
  sv_ok : transam_ok t';
  sv_clog : keeps (cl_slru (t_clog t)) (cl_slru (t_clog t'));
  sv_sub : keeps (t_sub t) (t_sub t');
}.

(** A request of one of the two logs failed. *)
Definition log_failed t {A} (o : outcome A) t' : Prop :=
  (∀ a, o ≠ Ret a) → blamed (cl_slru (t_clog t)) o (cl_slru (t_clog t')) ∨ blamed (t_sub t) o (t_sub t').

(** The pages of an id are there. *)
Definition available t x : Prop :=
  0 ≤ x ∧ (TransactionIdIsNormal x = true →
    is_Some (view (cl_slru (t_clog t)) (page_of (entry := Z) x)) ∧ is_Some (view (t_sub t) (page_of (entry := SubTransData) x))).

Lemma same_verdicts_refl t : transam_ok t → same_verdicts t t.
Proof. intros Hok. split; [done|apply keeps_refl, Hok|apply keeps_refl, (so_log _ (to_sub _ Hok))]. Qed.

Lemma same_verdicts_trans t1 t2 t3 : same_verdicts t1 t2 → same_verdicts t2 t3 → same_verdicts t1 t3.
Proof. intros [_ Hc1 Hs1] [Hok Hc2 Hs2]. split; [done|by eapply keeps_trans..]. Qed.

Lemma same_statuses t t' x : same_verdicts t t' → 0 ≤ x → statuses t' x = statuses t x.
Proof. intros [_ (_ & _ & He & _) _] Hx. by apply He. Qed.

Lemma same_status_of t t' x : same_verdicts t t' → 0 ≤ x → status_of (statuses t') x = status_of (statuses t) x.
Proof. intros H Hx. unfold status_of. by rewrite (same_statuses t t'). Qed.

Lemma same_parents t t' x : same_verdicts t t' → 0 ≤ x → parents t' x = parents t x.
Proof. intros [_ _ (_ & _ & He & _)] Hx. by apply entry_parent, He. Qed.

Lemma same_available t t' x : same_verdicts t t' → available t x → available t' x.
Proof.
  intros [_ (_ & _ & _ & Hc) (_ & _ & _ & Hs)] [Hx Ha]. split; [done|]. intros Hn. destruct (Ha Hn) as [H1 H2].
  split; [apply Hc|apply Hs]; done || by apply page_of_nonneg.
Qed.

Lemma log_failed_trans t1 t2 t3 {A} (o : outcome A) : same_verdicts t1 t2 → log_failed t2 o t3 → log_failed t1 o t3.
Proof.
  intros [_ (_ & Hc & _) (_ & Hs & _)] H Hne. destruct (H Hne); [left|right]; by eapply blamed_mono.
Qed.

Lemma wp_on_t_clog {A} (m : proc clog A) (Q : outcome A → transam → Prop) t :
  wp m (λ o d', Q o (mkTransam d' (t_sub t) (cachedFetchXid t) (cachedFetchXidStatus t))) (t_clog t) → wp (on_t_clog m) Q t.
Proof. unfold wp, on_t_clog. by destruct (m (t_clog t)). Qed.

Lemma wp_on_t_sub {A} (m : proc (slru sub_page) A) (Q : outcome A → transam → Prop) t :
  wp m (λ o s', Q o (mkTransam (t_clog t) s' (cachedFetchXid t) (cachedFetchXidStatus t))) (t_sub t) → wp (on_t_sub m) Q t.
Proof. unfold wp, on_t_sub. by destruct (m (t_sub t)). Qed.

(** The commit log is read; what is remembered stays true. *)
Lemma clog_kept t d' :
  transam_ok t → keeps (cl_slru (t_clog t)) (cl_slru d') →
  same_verdicts t (mkTransam d' (t_sub t) (cachedFetchXid t) (cachedFetchXidStatus t)).
Proof.
  intros Hok Hk. pose proof Hok as [Hc Hs Hcache]. split; [|done|by apply keeps_refl; apply Hs].
  split; [apply Hk|done|]. cbn [cachedFetchXid cachedFetchXidStatus]. destruct Hcache as [?|(Hn & E & Hv)]; [by left|right].
  split_and!; [done| |done]. rewrite E. symmetry. apply Hk. by apply normal_id_nonneg.
Qed.

Lemma sub_kept t s' :
  transam_ok t → keeps (t_sub t) s' →
  same_verdicts t (mkTransam (t_clog t) s' (cachedFetchXid t) (cachedFetchXidStatus t)).
Proof.
  intros [Hc Hs Hcache] Hk. split; [|by apply keeps_refl|done]. split; [done| |done]. by eapply keeps_ok.
Qed.

Lemma TransactionLogFetch_spec x t :
  transam_ok t → TransactionIdIsValid x = true → available t x →
  wp (TransactionLogFetch x)
    (λ o t', same_verdicts t t' ∧ log_failed t o t' ∧ ∀ st, o = Ret st → st = status_of (statuses t) x) t.
Proof.
  intros Hok Hvalid [Hx Ha]. unfold TransactionLogFetch. apply proc_bind, wp_get. cbn [next].
  assert (Hret : ∀ st, st = status_of (statuses t) x → wp (ret st)
    (λ o t', same_verdicts t t' ∧ log_failed t o t' ∧ ∀ st, o = Ret st → st = status_of (statuses t) x) t).
  { intros st E. apply proc_ret. split_and!; [by apply same_verdicts_refl|intros H; by destruct (H st)|]. by intros ? [= <-]. }
  destruct (Z.eqb_spec x (cachedFetchXid t)) as [E|E].
  { apply Hret. destruct (to_cache _ Hok) as [H0|(Hn & -> & _)]; unfold status_of; rewrite E; [|by rewrite Hn].
    rewrite <-E in H0. by rewrite H0 in Hvalid. }
  unfold status_of in *. destruct (TransactionIdIsNormal x) eqn:Hn; cbn [negb].
  2: { destruct (x =? BootstrapTransactionId); [by apply Hret|]. by destruct (x =? FrozenTransactionId); apply Hret. }
  destruct (Ha eq_refl) as [Hv _]. apply proc_bind, wp_on_t_clog.
  eapply proc_mono; [apply TransactionIdGetStatus_spec; [apply Hok|done|by right]|].
  intros o d' (Hk & _ & _ & Ho). assert (Hsv := clog_kept t d' Hok Hk). set (t1 := mkTransam d' _ _ _) in *.
  destruct o as [st| | |]; cbn [next].
  - assert (Hfin : ∀ t2, same_verdicts t t2 → wp (ret st) (λ o t', same_verdicts t t' ∧ log_failed t o t' ∧
      ∀ st, o = Ret st → st = statuses t x) t2).
    { intros t2 H2. apply proc_ret. split_and!; [done|intros H; by destruct (H st)|]. by intros ? [= <-]. }
    apply proc_bind. destruct (negb (st =? TRANSACTION_STATUS_IN_PROGRESS) && _) eqn:Hend; [|by apply Hfin].
    apply wp_modify. cbn [next]. apply Hfin. destruct Hsv as [[Hc1 Hs1 _] Hkc Hks]. split; [|done..].
    split; [done..|]. right. cbn [remember cachedFetchXid cachedFetchXidStatus]. split_and!; [done| |].
    + rewrite Ho. unfold statuses. cbn [t_clog remember t1]. symmetry. by apply Hkc.
    + assert (Hr : 0 ≤ st < 4).
      { rewrite Ho. unfold entry_at. destruct Hv as [b ->]. cbn [fetch clog_paged]. unfold status_in.
        change CLOG_XACT_BITMASK with (Z.ones 2). rewrite Z.land_ones by lia. apply Z.mod_pos_bound. lia. }
      revert Hend. unfold TRANSACTION_STATUS_IN_PROGRESS, TRANSACTION_STATUS_SUB_COMMITTED,
        TRANSACTION_STATUS_COMMITTED, TRANSACTION_STATUS_ABORTED. lia.
  - split_and!; [done| |done]. intros _. left. destruct Ho as [?|E1]; [done|]. rewrite E1 in Hv. by destruct Hv.
  - done.
  - split_and!; [done| |done]. intros _. by left.
Qed.

(** The ids that are met on the way up from [x]. *)
Definition above t x y : Prop := rtc (λ a b, parents t a = b ∧ b ≠ InvalidTransactionId) x y.

Lemma above_same t t' x y : same_verdicts t t' → (∀ z, above t x z → 0 ≤ z) → above t' x y → above t x y.
Proof.
  intros Hsv Hpos H. induction H as [x|x z y [E Hz] _ IH]; [apply rtc_refl|].
  rewrite (same_parents t t') in E by (done || apply Hpos, rtc_refl).
  apply rtc_l with z; [done|]. apply IH. intros v Hv. apply Hpos. by apply rtc_l with z.
Qed.

Lemma same_above t t' x :
  same_verdicts t t' → (∀ z, above t x z → available t z) → ∀ z, above t' x z → available t' z.
Proof.
  intros Hsv Ha z Hz. apply (same_available t); [done|]. apply Ha. apply (above_same t t'); [done| |done].
  intros v Hv. apply (Ha v Hv).
Qed.

Lemma verdict_same t t' xmin want lost x :
  transam_ok t → same_verdicts t t' → 0 ≤ x →
  verdict (statuses t') (parents t') xmin want lost x ↔ verdict (statuses t) (parents t) xmin want lost x.
Proof.
  intros Hok Hsv Hx. split; apply verdict_ext; try done; intros y Hy.
  - by apply same_statuses.
  - by apply same_parents.
  - by apply (so_parent _ (to_sub _ (sv_ok _ _ Hsv))).
  - symmetry. by apply same_statuses.
  - symmetry. by apply same_parents.
  - by apply (so_parent _ (to_sub _ Hok)).
Qed.

Lemma shallow_same t t' n x :
  transam_ok t → same_verdicts t t' → 0 ≤ x → shallow (parents t) n x → shallow (parents t') n x.
Proof.
  intros Hok Hsv. revert x. induction n as [|n IH]; intros x Hx; cbn [shallow]; rewrite (same_parents t t' x) by done; [done|].
  intros [?|H]; [by left|right]. apply IH; [|done]. by apply (so_parent _ (to_sub _ Hok)).
Qed.

(** ** The way up *)

(** What the two routines have in common. *)
Fixpoint walk (want : Z) (lost : bool) (rounds : nat) (xmin x : Z) : proc transam bool :=
  match rounds with
  | O => raise PANIC
  | S rounds =>
      xidstatus <- TransactionLogFetch x;;
      if xidstatus =? want then ret true
      else if xidstatus =? TRANSACTION_STATUS_SUB_COMMITTED then
        if TransactionIdPrecedes x xmin then ret lost
        else
          parentXid <- on_t_sub (SubTransGetParent x);;
          if negb (TransactionIdIsValid parentXid) then ret lost else walk want lost rounds xmin parentXid
      else ret false
  end.

Lemma DidCommit_walk rounds xmin x t :
  TransactionIdDidCommit rounds xmin x t = walk TRANSACTION_STATUS_COMMITTED false rounds xmin x t.
Proof.
  revert x t. induction rounds as [|rounds IH]; intros x t; [done|]. cbn [TransactionIdDidCommit walk].
  unfold bind. repeat (case_match; try done); apply IH.
Qed.

Lemma DidAbort_walk rounds xmin x t :
  TransactionIdDidAbort rounds xmin x t = walk TRANSACTION_STATUS_ABORTED true rounds xmin x t.
Proof.
  revert x t. induction rounds as [|rounds IH]; intros x t; [done|]. cbn [TransactionIdDidAbort walk].
  unfold bind. repeat (case_match; try done); apply IH.
Qed.

(** The answer, and that only reading was done. *)
Definition answers t (P : Prop) (o : outcome bool) t' : Prop :=
  same_verdicts t t' ∧ log_failed t o t' ∧ ∀ b, o = Ret b → (b = true ↔ P).

Lemma answers_ret t t' (P : Prop) b : same_verdicts t t' → (b = true ↔ P) → wp (ret b) (answers t P) t'.
Proof. intros Hsv Hb. apply proc_ret. split_and!; [done|intros H; by destruct (H b)|]. by intros ? [= <-]. Qed.

Lemma answers_trans t t1 P (m : proc transam bool) :
  same_verdicts t t1 → wp m (answers t1 P) t1 → wp m (answers t P) t1.
Proof.
  intros Hsv H. eapply proc_mono; [exact H|]. intros o t2 (H1 & H2 & H3).
  split_and!; [by eapply same_verdicts_trans|by eapply log_failed_trans|done].
Qed.

Lemma answers_iff t t1 (P P' : Prop) (m : proc transam bool) :
  (P' ↔ P) → wp m (answers t P') t1 → wp m (answers t P) t1.
Proof.
  intros E H. eapply proc_mono; [exact H|]. intros o t2 (H1 & H2 & H3). split_and!; [done..|].
  intros b Eb. rewrite (H3 b Eb). done.
Qed.

Lemma walk_spec want lost rounds xmin n x t :
  want ≠ TRANSACTION_STATUS_SUB_COMMITTED → transam_ok t → TransactionIdIsValid x = true →
  (∀ y, above t x y → available t y) → shallow (parents t) n x → (n < rounds)%nat →
  wp (walk want lost rounds xmin x) (answers t (verdict (statuses t) (parents t) xmin want lost x)) t.
Proof.
  intros Hw. revert n x t. induction rounds as [|rounds IH]; intros n x t Hok Hvx Hav Hsh Hn; [lia|]. cbn [walk].
  assert (Hax : available t x) by (apply Hav, rtc_refl). pose proof Hax as [Hx _].
  apply proc_bind. eapply proc_mono; [by apply TransactionLogFetch_spec|]. intros o t1 (Hsv & Hf & Ho).
  destruct o as [st| | |]; cbn [next].
  2-4: split; [done|split; [intros _; by apply Hf|done]].
  assert (E := Ho st eq_refl). clear Ho Hf.
  destruct (Z.eqb_spec st want) as [->|Hne].
  { apply answers_ret; [done|]. split; [|done]. intros _. by constructor. }
  destruct (Z.eqb_spec st TRANSACTION_STATUS_SUB_COMMITTED) as [->|Hne3].
  2: { apply answers_ret; [done|]. rewrite verdict_ended by congruence. split; [done|congruence]. }
  destruct (TransactionIdPrecedes x xmin) eqn:Hm.
  { apply answers_ret; [done|]. by rewrite verdict_stuck by auto. }
  pose proof Hsv as [Hok1 _ _]. assert (Ha1 := same_available t t1 x Hsv Hax).
  apply proc_bind, wp_on_t_sub. eapply proc_mono.
  { apply SubTransGetParent_spec; [apply (so_log _ (to_sub _ Hok1))|done|].
    destruct (TransactionIdIsNormal x) eqn:Hnx; [right; by apply Ha1|by left]. }
  intros o s2 (Hk & Hb & Ho). assert (Hsv2 := sub_kept t1 s2 Hok1 Hk). set (t2 := mkTransam _ s2 _ _) in *.
  assert (Hsv02 : same_verdicts t t2) by by eapply same_verdicts_trans.
  destruct o as [p| | |]; cbn [next].
  2-4: split; [done|split; [|done]]; apply (log_failed_trans t t1); [done|]; intros _; by right.
  assert (Ep : p = parents t x) by (rewrite <-(same_parents t t1) by done; by apply Ho).
  destruct (TransactionIdIsValid p) eqn:Hvp; cbn [negb].
  2: { apply answers_ret; [done|]. rewrite verdict_stuck; [done..|]. right. rewrite <-Ep.
       unfold TransactionIdIsValid in Hvp. by destruct (Z.eqb_spec p InvalidTransactionId). }
  assert (Hp : p ≠ InvalidTransactionId) by (unfold TransactionIdIsValid in Hvp; by destruct (Z.eqb_spec p InvalidTransactionId)).
  assert (Hp0 : 0 ≤ p) by (rewrite Ep; by apply (so_parent _ (to_sub _ Hok))).
  assert (Hshp : ∃ m, shallow (parents t) m p ∧ (m < rounds)%nat).
  { destruct n as [|n]; cbn [shallow] in Hsh; [congruence|]. destruct Hsh as [?|Hsh]; [congruence|]. exists n. split; [by rewrite Ep|lia]. }
  destruct Hshp as (m & Hshp & Hlt).
  apply (answers_trans t t2); [done|].
  apply (answers_iff t2 t2 _ (verdict (statuses t2) (parents t2) xmin want lost p)).
  { rewrite (verdict_same t t2) by done. rewrite Ep. symmetry. apply verdict_waiting; [done|]. split_and!; [done..|]. by rewrite <-Ep. }
  apply (IH m); [by destruct Hsv02|done| |by apply (shallow_same t)|done].
  apply (same_above t); [done|]. intros y Hy. apply Hav. by apply rtc_l with p.
Qed.

Lemma parents_shallow t x : transam_ok t → 0 ≤ x → ∃ n, shallow (parents t) n x.
Proof. intros Hok Hx. eapply root_shallow. by apply (so_root _ (to_sub _ Hok)). Qed.

(** C15: asking whether a transaction committed or aborted ends after as many steps as there are ids
    on the way up to its top-level transaction, and gives the answer that the statuses in the commit
    log and the parents in the subtransaction log determine, whatever is remembered from earlier
    questions; never both; nothing that can be seen changes, what is remembered stays true, and an
    error is raised only for a request to the operating system that failed. *)
Theorem transaction_verdicts xmin x t :
  transam_ok t → TransactionIdIsValid x = true → (∀ y, above t x y → available t y) →
  ∃ n, ∀ rounds, (n < rounds)%nat →
    wp (TransactionIdDidCommit rounds xmin x) (answers t (committed (statuses t) (parents t) xmin x)) t ∧
    wp (TransactionIdDidAbort rounds xmin x) (answers t (aborted (statuses t) (parents t) xmin x)) t ∧
    ¬ (committed (statuses t) (parents t) xmin x ∧ aborted (statuses t) (parents t) xmin x).
Proof.
  intros Hok Hv Ha. assert (Hx : 0 ≤ x) by (apply (Ha x), rtc_refl).
  destruct (parents_shallow t x Hok Hx) as [n Hn]. exists n. intros rounds Hr. split_and!.
  - unfold wp. rewrite DidCommit_walk. by apply (walk_spec _ _ _ _ n).
  - unfold wp. rewrite DidAbort_walk. by apply (walk_spec _ _ _ _ n).
  - intros [H1 H2]. by eapply not_both.
Qed.
End TransAmFacts.
