(* ===== verification/TransAmCommit.v ===== *)
(** * The status of transactions: a tree ends at once

    The statuses of a tree are set one after the other, on several pages.  A tree is judged by the
    statuses and the parents at any time in between: it is committed as a whole or not at all. *)
From S2P Require Import Prelude Proc DistributedSnapshot Slru SlruFacts SlruStore PagedLog Clog ClogFacts.
From S2P Require Import SubTrans SubTransFacts TransAm TransAmFacts.

Section TransAmCommit.
Context {env : TransamEnv} {blk : TransamBlock}.
Implicit Types (t : transam) (f par : Z → Z) (x y xid : Z) (subs : list Z).

(** ** Trees *)

(** The subtransactions [subs] of [xid]: the way up from each of them stays among them until it ends
    at [xid], and a reader's horizon does not hide them. *)
Record tree par xmin xid subs : Prop := mkTree {
  tr_xid : TransactionIdIsNormal xid = true;
  tr_normal y : y ∈ subs → TransactionIdIsNormal y = true;
  tr_other : xid ∉ subs;
  tr_visible y : y ∈ subs → TransactionIdPrecedes y xmin = false;
  tr_parent y : y ∈ subs → par y ∈ xid :: subs;
  tr_height y : y ∈ subs → ∃ n, shallow par n y;
}.

(** The top has not ended well, and no subtransaction is committed on its own. *)
Definition tree_open f xid subs : Prop :=
  f xid ≠ TRANSACTION_STATUS_COMMITTED ∧ f xid ≠ TRANSACTION_STATUS_SUB_COMMITTED ∧
  ∀ y, y ∈ subs → f y ≠ TRANSACTION_STATUS_COMMITTED.

(** The top is committed, its subtransactions are or depend on it. *)
Definition tree_closed f xid subs : Prop :=
  f xid = TRANSACTION_STATUS_COMMITTED ∧
  ∀ y, y ∈ subs → f y = TRANSACTION_STATUS_COMMITTED ∨ f y = TRANSACTION_STATUS_SUB_COMMITTED.

Definition all_or_none f par xmin xid subs : Prop :=
  (∀ y, y ∈ xid :: subs → committed f par xmin y) ∨ (∀ y, y ∈ xid :: subs → ¬ committed f par xmin y).

Lemma tree_member_normal par xmin xid subs y :
  tree par xmin xid subs → y ∈ xid :: subs → TransactionIdIsNormal y = true.
Proof. intros Ht [->|Hy]%elem_of_cons; by apply Ht. Qed.

Lemma status_of_normal f y : TransactionIdIsNormal y = true → status_of f y = f y.
Proof. unfold status_of. by intros ->. Qed.

Lemma open_none f par xmin xid subs y :
  tree par xmin xid subs → tree_open f xid subs → y ∈ xid :: subs → ¬ committed f par xmin y.
Proof.
  intros Ht (Hx1 & Hx3 & Hs) Hy H. revert Hy. induction H as [y E|y ? _ _|y (E & _) _ IH]; [|done|];
    intros Hy; rewrite status_of_normal in E by by eapply tree_member_normal.
  - apply elem_of_cons in Hy as [->|Hy]; [done|]. by apply (Hs y).
  - apply elem_of_cons in Hy as [->|Hy]; [done|]. by apply IH, Ht.
Qed.

Lemma closed_all f par xmin xid subs y :
  tree par xmin xid subs → tree_closed f xid subs → y ∈ xid :: subs → committed f par xmin y.
Proof.
  intros Ht [Hx Hs] Hy.
  assert (Htop : committed f par xmin xid) by (constructor; rewrite status_of_normal by apply Ht; done).
  apply elem_of_cons in Hy as [->|Hy]; [done|]. destruct (tr_height _ _ _ _ Ht y Hy) as [n Hn]. revert y Hy Hn.
  induction n as [|n IH]; intros y Hy Hn;
    assert (Hn0 : par y ≠ InvalidTransactionId)
      by (intros E; pose proof (tree_member_normal _ _ _ _ _ Ht (tr_parent _ _ _ _ Ht y Hy)) as Hp; rewrite E in Hp; done).
  - done.
  - destruct Hn as [?|Hn]; [done|]. assert (Ey := status_of_normal f y (tr_normal _ _ _ _ Ht y Hy)).
    destruct (Hs y Hy) as [E|E]; [constructor; by rewrite Ey|].
    apply verdict_up; [split_and!; [by rewrite Ey|by apply Ht|done]|].
    pose proof (tr_parent _ _ _ _ Ht y Hy) as [->|Hp]%elem_of_cons; [done|]. by apply IH.
Qed.

(** ** The writes of a commit *)

Lemma skipped_inv f w :
  skipped f w = true → w.2 = TRANSACTION_STATUS_SUB_COMMITTED ∧ f w.1 = TRANSACTION_STATUS_COMMITTED.
Proof. unfold skipped. rewrite !andb_true_iff, !Z.eqb_eq. naive_solver. Qed.

(** The writes that were made by some time are those of a part of the plan. *)
Lemma performed_take f ws k : ∃ ws', ws' `prefix_of` ws ∧ take k (performed f ws) = performed f ws'.
Proof.
  revert f k. induction ws as [|w ws IH]; intros f k.
  { exists []. split; [done|]. apply take_nil. }
  cbn [performed]. destruct (skipped f w) eqn:E.
  - destruct (IH f k) as (ws' & Hp & ->). exists (w :: ws'). split; [by apply prefix_cons|]. cbn [performed]. by rewrite E.
  - destruct k as [|k]; [exists []; split; [apply prefix_nil|done]|].
    destruct (IH (upd f w) k) as (ws' & Hp & Ek). exists (w :: ws'). split; [by apply prefix_cons|].
    cbn [performed take]. by rewrite E, Ek.
Qed.

Lemma after_other f ws y : (∀ w, w ∈ ws → w.1 ≠ y) → after f (performed f ws) y = f y.
Proof.
  revert f. induction ws as [|w ws IH]; intros f Hne; [done|]. cbn [performed].
  assert (Hr : ∀ v, v ∈ ws → v.1 ≠ y) by (intros v Hv; apply Hne; by right).
  destruct (skipped f w); [by apply IH|]. change (after f (w :: ?l)) with (after (upd f w) l).
  rewrite IH by done. unfold upd. rewrite decide_False; [done|]. intros E. apply (Hne w); [by left|done].
Qed.

Definition marking (σ : list Z) : list (Z * Z) := with_st TRANSACTION_STATUS_SUB_COMMITTED σ.
Definition ending (st : Z) (σ : list Z) : list (Z * Z) := with_st st σ.

Lemma marks_open f xid subs σ :
  (∀ y, y ∈ σ → y ∈ subs) → xid ∉ subs → tree_open f xid subs →
  tree_open (after f (performed f (marking σ))) xid subs ∧
  ∀ y, y ∈ subs → y ∈ σ ∨ f y = TRANSACTION_STATUS_SUB_COMMITTED →
    after f (performed f (marking σ)) y = TRANSACTION_STATUS_SUB_COMMITTED.
Proof.
  revert f. induction σ as [|z σ IH]; intros f Hσ Hx Ho.
  { split; [done|]. by intros y _ [?%elem_of_nil|?]. }
  assert (Hz : z ∈ subs) by (apply Hσ; by left).
  unfold marking. cbn [with_st fmap list_fmap performed].
  destruct (skipped f _) eqn:E; [apply skipped_inv in E as [_ E]; by destruct (proj2 (proj2 Ho) z Hz)|].
  change (after f (?w :: ?l)) with (after (upd f w) l). set (g := upd f (z, TRANSACTION_STATUS_SUB_COMMITTED)).
  destruct (IH g) as [Hopen Hmark]; [intros y Hy; apply Hσ; by right|done| |].
  - destruct Ho as (H1 & H3 & Hs). unfold g, upd; cbn [fst snd]. split_and!; [by rewrite decide_False by set_solver..|].
    intros y Hy. case_decide; [done|]. by apply Hs.
  - split; [done|]. intros y Hy Hor. apply Hmark; [done|]. unfold g, upd. cbn [fst snd].
    destruct (decide (y = z)) as [->|Hne]; [by right|]. destruct Hor as [[?|?]%elem_of_cons|?]; [done|by left|by right].
Qed.

Lemma writes_closed f xid subs ws :
  (∀ w, w ∈ ws → (w.1 = xid ∧ w.2 = TRANSACTION_STATUS_COMMITTED) ∨
     (w.1 ∈ subs ∧ (w.2 = TRANSACTION_STATUS_COMMITTED ∨ w.2 = TRANSACTION_STATUS_SUB_COMMITTED))) →
  xid ∉ subs → tree_closed f xid subs → tree_closed (after f (performed f ws)) xid subs.
Proof.
  revert f. induction ws as [|w ws IH]; intros f Hws Hx Hc; [done|]. cbn [performed].
  assert (Hr := λ v Hv, Hws v (list_elem_of_further v w ws Hv)).
  destruct (skipped f w); [by apply IH|]. change (after f (w :: ?l)) with (after (upd f w) l). apply IH; [done..|].
  destruct Hc as [Hxc Hs]. destruct (Hws w) as [[E1 E2]|[Hin Hst]]; [by left| |]; unfold upd; split.
  - by rewrite decide_True.
  - intros y Hy. case_decide; [|by apply Hs]. by left.
  - rewrite decide_False; [done|]. by intros ->.
  - intros y Hy. case_decide; [done|]. by apply Hs.
Qed.

(** A status other than sub-committed is always written. *)
Lemma ends_written f st σ y :
  st ≠ TRANSACTION_STATUS_SUB_COMMITTED → y ∈ σ ∨ f y = st → after f (performed f (ending st σ)) y = st.
Proof.
  intros Hst. revert f. induction σ as [|z σ IH]; intros f Hy.
  { by destruct Hy as [?%elem_of_nil|?]. }
  unfold ending. cbn [with_st fmap list_fmap performed].
  destruct (skipped f _) eqn:E; [by apply skipped_inv in E as [E _]|].
  change (after f (?w :: ?l)) with (after (upd f w) l). apply IH. unfold upd. cbn [fst snd].
  destruct (decide (y = z)) as [->|Hne]; [by right|]. destruct Hy as [[?|?]%elem_of_cons|?]; [done|by left|by right].
Qed.

Lemma commit_plan xid subs :
  TransactionIdIsValid xid = true →
  ∃ σ τ, tree_plan xid subs TRANSACTION_STATUS_COMMITTED =
           marking σ ++ (xid, TRANSACTION_STATUS_COMMITTED) :: ending TRANSACTION_STATUS_COMMITTED τ ∧
         (∀ y, y ∈ σ ↔ y ∈ subs) ∧ (∀ y, y ∈ τ ↔ y ∈ subs).
Proof.
  intros Hv. unfold tree_plan, page_plan. rewrite Hv, Z.eqb_refl.
  pose proof (split_page_spec (Clog.TransactionIdToPage xid) subs) as Hsp.
  destruct (split_page (Clog.TransactionIdToPage xid) subs) as [first rest]. destruct Hsp as (-> & _).
  destruct rest as [|z rest].
  - exists (first ++ []), (first ++ []). split_and!; [|done..]. by rewrite <-app_assoc.
  - exists ((z :: rest) ++ first), (first ++ z :: rest). split_and!; [| |done].
    + unfold marking, ending. rewrite !with_st_app, <-!app_assoc. done.
    + set_solver.
Qed.

Lemma abort_plan xid subs :
  TransactionIdIsValid xid = true →
  tree_plan xid subs TRANSACTION_STATUS_ABORTED = ending TRANSACTION_STATUS_ABORTED (xid :: subs).
Proof.
  intros Hv. unfold tree_plan, page_plan. rewrite Hv.
  pose proof (split_page_spec (Clog.TransactionIdToPage xid) subs) as Hsp.
  destruct (split_page (Clog.TransactionIdToPage xid) subs) as [first rest]. destruct Hsp as (-> & _).
  cbn. destruct rest as [|z rest]; [done|]. unfold ending. by rewrite <-with_st_app.
Qed.

(** ** Any time during a commit *)

Lemma prefix_split {A} (ws l : list A) a l' :
  ws `prefix_of` l ++ a :: l' → (∃ n, ws = take n l) ∨ ∃ n, ws = l ++ a :: take n l'.
Proof.
  intros [k E]. destruct (decide (length ws ≤ length l)%nat) as [Hle|Hgt].
  - left. exists (length ws). apply (f_equal (take (length ws))) in E.
    rewrite take_app_length, take_app_le in E by done. done.
  - right. exists (length ws - length l - 1)%nat. apply (f_equal (take (length ws))) in E.
    rewrite take_app_length, take_app_ge in E by lia. etransitivity; [exact (eq_sym E)|]. f_equal.
    destruct (length ws - length l)%nat as [|n] eqn:En; [lia|]. cbn [take]. do 2 f_equal. lia.
Qed.

Lemma commit_stages f xid subs ws :
  TransactionIdIsValid xid = true → xid ∉ subs → tree_open f xid subs ∨ tree_closed f xid subs →
  ws `prefix_of` tree_plan xid subs TRANSACTION_STATUS_COMMITTED →
  let f' := after f (performed f ws) in tree_open f' xid subs ∨ tree_closed f' xid subs.
Proof.
  intros Hv Hx Hf Hws f'. destruct (commit_plan xid subs Hv) as (σ & τ & Eplan & Hσ & Hτ). rewrite Eplan in Hws.
  destruct Hf as [Ho|Hc].
  - apply prefix_split in Hws as [[n E]|[n E]]; unfold f'; rewrite E.
    + left. unfold marking, with_st. rewrite <-fmap_take. apply marks_open; [|done..].
      intros y Hy. apply Hσ. rewrite <-(take_drop n σ). set_solver.
    + right. rewrite performed_app, after_app.
      destruct (marks_open f xid subs σ) as [_ Hm]; [by apply Hσ|done..|].
      set (g := after f (performed f (marking σ))) in *. cbn [performed].
      destruct (skipped g _) eqn:Es; [by apply skipped_inv in Es as [Es _]|].
      change (after g (?w :: ?l)) with (after (upd g w) l). apply writes_closed; [|done|].
      * intros w Hw. right. unfold ending, with_st in Hw. rewrite <-fmap_take in Hw.
        apply list_elem_of_fmap in Hw as (y & -> & Hy). split; [|by left]. apply Hτ. rewrite <-(take_drop n τ). set_solver.
      * unfold upd. split; cbn [fst snd]; [by rewrite decide_True|]. intros y Hy.
        rewrite decide_False by by intros ->. right. apply Hm; [done|]. left. by apply Hσ.
  - right. apply writes_closed; [|done..]. intros w Hw.
    assert (Hin : w ∈ marking σ ++ (xid, TRANSACTION_STATUS_COMMITTED) :: ending TRANSACTION_STATUS_COMMITTED τ)
      by (destruct Hws as [k ->]; set_solver).
    apply elem_of_app in Hin as [(y & -> & Hy)%list_elem_of_fmap|[->|(y & -> & Hy)%list_elem_of_fmap]%elem_of_cons].
    + right. split; [by apply Hσ|by right].
    + by left.
    + right. split; [by apply Hτ|by left].
Qed.

Lemma aborts_open f xid subs σ :
  tree_open f xid subs → tree_open (after f (performed f (ending TRANSACTION_STATUS_ABORTED σ))) xid subs.
Proof.
  revert f. induction σ as [|z σ IH]; intros f Ho; [done|]. unfold ending. cbn [with_st fmap list_fmap performed].
  destruct (skipped f _) eqn:E; [by apply skipped_inv in E as [E _]|].
  change (after f (?w :: ?l)) with (after (upd f w) l). apply IH. destruct Ho as (H1 & H3 & Hs). unfold upd; cbn [fst snd].
  split_and!; [by case_decide..|]. intros y Hy. case_decide; [done|]. by apply Hs.
Qed.

(** During recovery a committed transaction stays committed. *)
Lemma stays_committed f ws y :
  tr_InRecovery = true →
  (∀ w, w ∈ ws → w.2 = TRANSACTION_STATUS_COMMITTED ∨ w.2 = TRANSACTION_STATUS_SUB_COMMITTED) →
  f y = TRANSACTION_STATUS_COMMITTED → after f (performed f ws) y = TRANSACTION_STATUS_COMMITTED.
Proof.
  intros Hr. revert f. induction ws as [|w ws IH]; intros f Hws Hy; [done|]. cbn [performed].
  assert (Hr' := λ v Hv, Hws v (list_elem_of_further v w ws Hv)).
  destruct (skipped f w) eqn:E; [by apply IH|]. change (after f (w :: ?l)) with (after (upd f w) l). apply IH; [done|].
  unfold upd. case_decide as Ey; [|done]. destruct (Hws w) as [->| E3]; [by left|done|]. exfalso. revert E.
  unfold skipped. change (@InRecovery _ ClogCtl) with tr_InRecovery. by rewrite Hr, E3, <-Ey, Hy.
Qed.

(** ** Commit and abort *)

(** No transaction of the tree has ended. *)
Definition unfinished f xid subs : Prop :=
  f xid = TRANSACTION_STATUS_IN_PROGRESS ∧
  ∀ y, y ∈ subs → f y = TRANSACTION_STATUS_IN_PROGRESS ∨ f y = TRANSACTION_STATUS_SUB_COMMITTED.

Lemma unfinished_open f xid subs : unfinished f xid subs → tree_open f xid subs.
Proof. intros [Hx Hs]. split_and!; [by rewrite Hx..|]. intros y Hy. by destruct (Hs y Hy) as [->| ->]. Qed.

(** The ids of a tree are written, in the order of [ws]; every state in between satisfies [P]. *)
Record set_tree t xid subs st (P : (Z → Z) → Prop) (o : outcome unit) t' : Prop := mkSetTree {
  st_ok : transam_ok t';
  st_sub : t_sub t' = t_sub t;
  st_writes : ∃ ws, cl_writes (t_clog t') = cl_writes (t_clog t) ++ ws ∧
    (∀ y, 0 ≤ y → statuses t' y = after (statuses t) ws y) ∧ ∀ k, P (after (statuses t) (take k ws));
  st_final : o = Ret tt → ∀ y, 0 ≤ y → statuses t' y = if decide (y ∈ xid :: subs) then st else statuses t y;
  st_blamed : blamed (cl_slru (t_clog t)) o (cl_slru (t_clog t'));
}.

(** What was remembered stays true if the writes leave the ended transactions alone. *)
Lemma cache_kept t d' ws :
  transam_ok t → log_ok (cl_slru d') →
  (∀ y, 0 ≤ y → entry_at (cl_slru d') y = after (statuses t) (performed (statuses t) ws) y) →
  (∀ y, statuses t y = TRANSACTION_STATUS_COMMITTED ∨ statuses t y = TRANSACTION_STATUS_ABORTED →
     after (statuses t) (performed (statuses t) ws) y = statuses t y) →
  transam_ok (mkTransam d' (t_sub t) (cachedFetchXid t) (cachedFetchXidStatus t)).
Proof.
  intros [Hc Hs Hcache] Hl He Hk. split; [done..|]. cbn [cachedFetchXid cachedFetchXidStatus].
  destruct Hcache as [?|(Hn & E & Hst)]; [by left|right]. split_and!; [done| |done].
  unfold statuses at 1. cbn [t_clog]. rewrite He by by apply normal_id_nonneg. rewrite Hk; [done|]. by rewrite <-E.
Qed.

Lemma set_tree_spec t xid subs st (P : (Z → Z) → Prop) :
  let f := statuses t in
  transam_ok t → TransactionIdIsValid xid = true → 0 ≤ st < 4 → (∀ y, y ∈ xid :: subs → existing (t_clog t) y) →
  (∀ ws, ws `prefix_of` tree_plan xid subs st → P (after f (performed f ws))) →
  (∀ ws y, ws `prefix_of` tree_plan xid subs st → f y = TRANSACTION_STATUS_COMMITTED ∨ f y = TRANSACTION_STATUS_ABORTED →
     after f (performed f ws) y = f y) →
  (∀ y, after f (performed f (tree_plan xid subs st)) y = if decide (y ∈ xid :: subs) then st else f y) →
  wp (on_t_clog (TransactionIdSetTreeStatus xid subs st)) (set_tree t xid subs st P) t.
Proof.
  intros f Hok Hv Hst Hex HP Hcache Hfinal. apply wp_on_t_clog. eapply proc_mono.
  { apply TransactionIdSetTreeStatus_spec; [apply Hok|done|done|apply Hex; by left|]. intros y Hy. apply Hex. by right. }
  intros o d' (dn & rest & Eplan & Hrest & Hw & _ & Hl & _ & He & _ & Hb).
  assert (Hdn : dn `prefix_of` tree_plan xid subs st) by (rewrite Eplan; by apply prefix_app_r).
  split; try done.
  - apply (cache_kept t d' dn); [done..|]. intros y Hy. by apply Hcache.
  - exists (performed f dn). split_and!; [done..|]. intros k. destruct (performed_take f dn k) as (ws & Hp & ->).
    apply HP. by transitivity dn.
  - intros ->. intros y Hy. unfold statuses at 1. cbn [t_clog]. rewrite He by done.
    rewrite (Hrest tt eq_refl), app_nil_r in Eplan. rewrite <-Eplan. apply Hfinal.
Qed.

Lemma plan_ids xid subs st w :
  TransactionIdIsValid xid = true → st = TRANSACTION_STATUS_COMMITTED ∨ st = TRANSACTION_STATUS_ABORTED →
  w ∈ tree_plan xid subs st → w.1 ∈ xid :: subs ∧ (w.2 = st ∨ st = TRANSACTION_STATUS_COMMITTED ∧ w.2 = TRANSACTION_STATUS_SUB_COMMITTED).
Proof.
  intros Hv [->| ->] Hw.
  - destruct (commit_plan xid subs Hv) as (σ & τ & E & Hσ & Hτ). rewrite E in Hw.
    apply elem_of_app in Hw as [(y & -> & Hy)%list_elem_of_fmap|[->|(y & -> & Hy)%list_elem_of_fmap]%elem_of_cons]; cbn [fst snd].
    + split; [right; by apply Hσ|by right].
    + split; [by left|by left].
    + split; [right; by apply Hτ|by left].
  - rewrite abort_plan in Hw by done. apply list_elem_of_fmap in Hw as (y & -> & Hy). split; [done|by left].
Qed.

(** The ended transactions are not among those of an unfinished tree. *)
Lemma unfinished_kept f xid subs st ws y :
  TransactionIdIsValid xid = true → st = TRANSACTION_STATUS_COMMITTED ∨ st = TRANSACTION_STATUS_ABORTED →
  unfinished f xid subs → ws `prefix_of` tree_plan xid subs st →
  f y = TRANSACTION_STATUS_COMMITTED ∨ f y = TRANSACTION_STATUS_ABORTED → after f (performed f ws) y = f y.
Proof.
  intros Hv Hst [Hx Hs] [k E] Hy. apply after_other. intros w Hw <-.
  destruct (plan_ids xid subs st w) as [Hin _]; [done..|rewrite E; set_solver|].
  apply elem_of_cons in Hin as [Ex|Hin]; [rewrite Ex, Hx in Hy; by destruct Hy|].
  destruct (Hs _ Hin) as [E0|E0]; rewrite E0 in Hy; by destruct Hy.
Qed.

Lemma commit_final f xid subs y :
  TransactionIdIsValid xid = true →
  after f (performed f (tree_plan xid subs TRANSACTION_STATUS_COMMITTED)) y =
  if decide (y ∈ xid :: subs) then TRANSACTION_STATUS_COMMITTED else f y.
Proof.
  intros Hv. case_decide as Hy.
  - destruct (commit_plan xid subs Hv) as (σ & τ & -> & Hσ & Hτ). rewrite cons_middle, app_assoc, performed_app, after_app.
    apply ends_written; [done|]. apply elem_of_cons in Hy as [->|Hy]; [right|left; by apply Hτ].
    rewrite performed_app, after_app. change [(xid, TRANSACTION_STATUS_COMMITTED)] with (ending TRANSACTION_STATUS_COMMITTED [xid]).
    apply ends_written; [done|]. left. by left.
  - apply after_other. intros w Hw <-. apply Hy. by apply (plan_ids xid subs TRANSACTION_STATUS_COMMITTED w); auto.
Qed.

Lemma abort_final f xid subs y :
  TransactionIdIsValid xid = true →
  after f (performed f (tree_plan xid subs TRANSACTION_STATUS_ABORTED)) y =
  if decide (y ∈ xid :: subs) then TRANSACTION_STATUS_ABORTED else f y.
Proof.
  intros Hv. rewrite abort_plan by done. case_decide as Hy; [apply ends_written; [done|by left]|].
  apply after_other. intros w (z & -> & Hz)%list_elem_of_fmap <-. done.
Qed.

Lemma normal_valid x : TransactionIdIsNormal x = true → TransactionIdIsValid x = true.
Proof.
  unfold TransactionIdIsNormal, TransactionIdIsValid, FirstNormalTransactionId, InvalidTransactionId. lia.
Qed.

(** C7: committing a transaction with its subtransactions is atomic: at every moment between two of
    the writes to the commit log, on as many pages as they lie, a reader that asks for any of them
    finds all of them committed or none; an error in between leaves such a state; when the routine
    returns all of them are marked committed and no other status has changed.  This also holds when
    a commit is replayed during recovery that had been written in part or in full.  Aborting a tree
    never lets any of them appear committed and leaves all of them marked aborted.  What is
    remembered of other transactions stays true. *)
Theorem transaction_end_atomic xmin xid subs t :
  transam_ok t → tree (parents t) xmin xid subs → (∀ y, y ∈ xid :: subs → existing (t_clog t) y) →
  unfinished (statuses t) xid subs ∨ (tr_InRecovery = true ∧ tree_closed (statuses t) xid subs) →
  wp (TransactionIdCommitTree xid subs)
    (set_tree t xid subs TRANSACTION_STATUS_COMMITTED (λ f, all_or_none f (parents t) xmin xid subs)) t ∧
  (unfinished (statuses t) xid subs →
   wp (TransactionIdAbortTree xid subs)
     (set_tree t xid subs TRANSACTION_STATUS_ABORTED
        (λ f, ∀ y, y ∈ xid :: subs → ¬ committed f (parents t) xmin y)) t).
Proof.
  intros Hok Ht Hex Hf. assert (Hv := normal_valid xid (tr_xid _ _ _ _ Ht)). pose proof (tr_other _ _ _ _ Ht) as Hx. split.
  - apply set_tree_spec; [done|done|done|done| | |intros y; by apply commit_final].
    + intros ws Hws. destruct (commit_stages (statuses t) xid subs ws) as [Ho|Hc]; [done|done| |done| |].
      * destruct Hf as [?|[_ ?]]; [left; by apply unfinished_open|by right].
      * right. intros y Hy. by eapply open_none.
      * left. intros y Hy. by eapply closed_all.
    + intros ws y Hws Hy. destruct Hf as [Hu|[Hr [Hcx Hcs]]]; [by apply (unfinished_kept _ xid subs TRANSACTION_STATUS_COMMITTED); auto|].
      destruct (decide (y ∈ xid :: subs)) as [Hin|Hin].
      * assert (E : statuses t y = TRANSACTION_STATUS_COMMITTED).
        { apply elem_of_cons in Hin as [->|Hin]; [done|]. destruct (Hcs y Hin) as [E|E], Hy as [E'|E']; [done..|by rewrite E in E']. }
        rewrite E. apply stays_committed; [done| |done]. intros w Hw.
        destruct (plan_ids xid subs TRANSACTION_STATUS_COMMITTED w) as [_ Hst]; [done|by left| |naive_solver].
        destruct Hws as [k ->]. set_solver.
      * apply after_other. intros w Hw <-. apply Hin. apply (plan_ids xid subs TRANSACTION_STATUS_COMMITTED w); [done|by left|].
        destruct Hws as [k ->]. set_solver.
  - intros Hu. apply set_tree_spec; [done|done|done|done| | |intros y; by apply abort_final].
    + intros ws Hws y Hy. rewrite abort_plan in Hws by done.
      assert (Hpre : ∃ σ, ws = ending TRANSACTION_STATUS_ABORTED σ).
      { destruct Hws as [k E]. exists (take (length ws) (xid :: subs)). unfold ending, with_st in *. rewrite fmap_take.
        by rewrite E, take_app_length. }
      destruct Hpre as [σ ->]. eapply open_none; [done| |done]. by apply aborts_open, unfinished_open.
    + intros ws y Hws Hy. by apply (unfinished_kept _ xid subs TRANSACTION_STATUS_ABORTED); auto.
Qed.
End TransAmCommit.

(** ** An example *)

Module CommitSample.
Import SubtransSample.

(** The transaction 3 with the subtransactions 4 and 4096, which lie on two pages of the commit log
    and of the subtransaction log. *)
Definition sub3 : slru sub_page := (ExtendSUBTRANS 4096 sub2).2.
Definition sub4 : slru sub_page := (SubTransSetParent 4096 3 sub3).2.

Definition files0 : gmap Z (list clog_page) := {[ 0 := [replicate 1024 0; replicate 1024 0] ]}.
Definition clog0 : clog := CLOGShmemInit files0 0 [] 0.
Definition transam0 : transam := mkTransam clog0 sub4 InvalidTransactionId 0.

Lemma sub2_entries y : 0 ≤ y → entry_at sub2 y = if decide (y = 4) then mkSubTransData 3 3 else zero_sub.
Proof.
  intros Hy. case_decide as E; [subst y; vm_compute; reflexivity|].
  destruct (SubTransSetParent_spec 4 3 sub1) as (_ & _ & _ & He & _);
    [apply (sub_steps_ok 0), rtc_once, sub1_step|apply sub1_may_link|].
  unfold sub2. rewrite (He y Hy (or_introl E)). by apply sub1_blank.
Qed.

Lemma sub2_ok : subtrans_ok sub2.
Proof. apply (sub_steps_ok 0), sub2_reached. Qed.

Lemma sub3_spec : subtrans_ok sub3 ∧ ∀ y, 0 ≤ y → entry_at sub3 y = entry_at sub2 y.
Proof.
  destruct (ExtendSUBTRANS_spec 4096 sub2) as (Hl & _ & He); [apply sub2_ok|lia|by vm_compute|].
  split; [|done]. apply (same_entries_ok sub2); [apply sub2_ok|done..].
Qed.

Lemma sub3_may_link : may_link sub3 4096 3.
Proof.
  destruct sub3_spec as [_ He].
  split; [done|done|lia|lia| |vm_compute; eauto|right; vm_compute; eauto]. split.
  - unfold parent_of. rewrite He, sub2_entries by lia. by vm_compute.
  - intros y Hy. unfold parent_of. rewrite He, sub2_entries by done. case_match; [|done]. by case_decide.
Qed.

Lemma sub4_spec : subtrans_ok sub4 ∧ ∀ y, 0 ≤ y → entry_at sub4 y =
  if decide (y = 4096) then mkSubTransData 3 3 else entry_at sub2 y.
Proof.
  destruct sub3_spec as [Hok He3].
  destruct (SubTransSetParent_spec 4096 3 sub3) as (Hok4 & _ & _ & He & _); [done|apply sub3_may_link|].
  split; [done|]. intros y Hy. case_decide as E; [subst y; vm_compute; reflexivity|].
  unfold sub4. rewrite (He y Hy (or_introl E)). by apply He3.
Qed.

Lemma files0_pages p b : 0 ≤ p → on_disk files0 p = Some b → b = replicate 1024 0.
Proof.
  intros Hp. unfold on_disk, files0.
  destruct (decide (p `quot` SLRU_PAGES_PER_SEGMENT = 0)) as [->|Hne].
  - rewrite lookup_singleton_eq. cbn [mbind option_bind].
    destruct (Z.to_nat (p `rem` SLRU_PAGES_PER_SEGMENT)) as [|[|n]]; cbn; [by intros [= <-]..|done].
  - by rewrite lookup_singleton_ne.
Qed.

Lemma transam0_ok : transam_ok transam0.
Proof.
  split.
  - apply init_log; [vm_compute; lia|]. intros p b Hp Hb. rewrite (files0_pages p b) by done.
    split; [by vm_compute|]. apply Forall_replicate. lia.
  - apply sub4_spec.
  - by left.
Qed.

Lemma parents0 y : 0 ≤ y → parents transam0 y = if decide (y = 4 ∨ y = 4096) then 3 else 0.
Proof.
  intros Hy. destruct sub4_spec as [_ He]. unfold parents, parent_of. cbn [t_sub transam0]. rewrite He, sub2_entries by done.
  destruct (decide (y = 4096)) as [->|H1]; [done|]. destruct (decide (y = 4)) as [->|H2]; [done|].
  rewrite (decide_False (P := y = 4 ∨ y = 4096)) by naive_solver. by case_match.
Qed.

Lemma tree0 : tree (parents transam0) 3 3 [4; 4096].
Proof.
  split.
  - done.
  - intros y [->|[->|?%elem_of_nil]%elem_of_cons]%elem_of_cons; done.
  - set_solver.
  - intros y [->|[->|?%elem_of_nil]%elem_of_cons]%elem_of_cons; done.
  - intros y Hy. rewrite parents0 by set_solver by lia. rewrite decide_True by set_solver. by left.
  - intros y Hy. apply parents_shallow; [apply transam0_ok|]. revert Hy. set_unfold. lia.
Qed.

Lemma available0 y : above transam0 4 y → available transam0 y.
Proof.
  intros H. assert (Hy : y = 4 ∨ y = 3).
  { apply rtc_inv in H as [<-|(z & [E _] & H)]; [by left|right].
    rewrite parents0, decide_True in E by (lia || by left). subst z.
    apply rtc_inv in H as [<-|(z & [E Hz] & _)]; [done|]. rewrite parents0, decide_False in E by lia. by destruct Hz. }
  destruct Hy as [->| ->]; (split; [lia|]; intros _; split; vm_compute; eauto).
Qed.

Lemma transaction_verdicts_witness :
  ∃ n, ∀ rounds, (n < rounds)%nat →
    wp (TransactionIdDidCommit rounds 3 4) (answers transam0 (committed (statuses transam0) (parents transam0) 3 4)) transam0.
Proof.
  destruct (@transaction_verdicts sample_env sample_blk 3 4 transam0) as [n Hn].
  - exact transam0_ok.
  - reflexivity.
  - exact available0.
  - exists n. intros rounds Hr. exact (proj1 (Hn rounds Hr)).
Defined.

Lemma existing0 : Forall (existing clog0) [3; 4; 4096].
Proof. repeat (constructor; [split; [lia|vm_compute; eauto]|]). constructor. Qed.

Lemma unfinished0 : Forall (λ y, statuses transam0 y = TRANSACTION_STATUS_IN_PROGRESS) [4; 4096].
Proof. repeat (constructor; [vm_compute; reflexivity|]). constructor. Qed.

Lemma transaction_end_atomic_witness :
  (TransactionIdCommitTree 3 [4; 4096] transam0).1 = Ret tt ∧
  statuses (TransactionIdCommitTree 3 [4; 4096] transam0).2 4096 = TRANSACTION_STATUS_COMMITTED.
Proof.
  assert (E : (TransactionIdCommitTree 3 [4; 4096] transam0).1 = Ret tt) by (vm_compute; reflexivity).
  split; [exact E|].
  destruct (@transaction_end_atomic sample_env sample_blk 3 3 [4; 4096] transam0) as [Hcommit _].
  - exact transam0_ok.
  - exact tree0.
  - exact (proj1 (Forall_forall _ _) existing0).
  - left. split; [vm_compute; reflexivity|].
    intros y Hy. left. exact (proj1 (Forall_forall _ _) unfinished0 y Hy).
  - unfold wp in Hcommit. destruct Hcommit as [_ _ _ Hfinal _]. rewrite (Hfinal E) by lia. reflexivity.
Defined.
End CommitSample.
