(* ===== verification/LocalDistribXact.v ===== *)
(** * The local side of a distributed transaction ([cdb/cdblocaldistribxact.c])

    Each process keeps the state of the distributed transaction it takes part in.  Any change but
    the one from active to prepared, committed or aborted ends the server. *)
From S2P Require Import Prelude Proc.
From stdpp Require Import strings.

Inductive LocalDistribXactState :=
  | LOCALDISTRIBXACT_STATE_NONE
  | LOCALDISTRIBXACT_STATE_ACTIVE
  | LOCALDISTRIBXACT_STATE_COMMITTED
  | LOCALDISTRIBXACT_STATE_ABORTED
  | LOCALDISTRIBXACT_STATE_PREPARED.

#[global] Instance LocalDistribXactState_eq_dec : EqDecision LocalDistribXactState.
Proof. solve_decision. Defined.

Record LocalDistribXactData := mkLocalDistribXactData {
  ld_state : LocalDistribXactState;
  ld_distribTimeStamp : Z;
  ld_distribXid : Z;
}.

Definition LocalDistribXactStateToString (state : LocalDistribXactState) : string :=
  match state with
  | LOCALDISTRIBXACT_STATE_ACTIVE => "Active"
  | LOCALDISTRIBXACT_STATE_COMMITTED => "Committed"
  | LOCALDISTRIBXACT_STATE_ABORTED => "Aborted"
  | LOCALDISTRIBXACT_STATE_PREPARED => "Prepared"
  | LOCALDISTRIBXACT_STATE_NONE => "Unknown"
  end.

Definition set_ld_state (st : LocalDistribXactState) (x : LocalDistribXactData) : LocalDistribXactData :=
  mkLocalDistribXactData st (ld_distribTimeStamp x) (ld_distribXid x).

(** The processes are those of [ProcGlobal]; a number outside ends the server. *)
Definition LocalDistribXact_ChangeState (pgprocno : nat) (newState : LocalDistribXactState) :
    proc (list LocalDistribXactData) unit :=
  procs <- get;;
  match procs !! pgprocno with
  | None => raise PANIC
  | Some x =>
      let oldState := ld_state x in
      match newState with
      | LOCALDISTRIBXACT_STATE_PREPARED | LOCALDISTRIBXACT_STATE_COMMITTED | LOCALDISTRIBXACT_STATE_ABORTED =>
          if bool_decide (oldState = LOCALDISTRIBXACT_STATE_ACTIVE)
          then modify (λ procs, alter (set_ld_state newState) pgprocno procs)
          else raise PANIC
      | _ => raise PANIC
      end
  end.

(** A run of changes, whatever their outcome; a server that goes down makes no more. *)
Inductive changes : list LocalDistribXactData → list LocalDistribXactData → Prop :=
  | changes_refl procs : changes procs procs
  | changes_step procs p st procs' procs'' :
      LocalDistribXact_ChangeState p st procs = (Ret tt, procs') → changes procs' procs'' → changes procs procs''.

Lemma change_state_cases p st procs o procs' :
  LocalDistribXact_ChangeState p st procs = (o, procs') →
  (o = PANIC ∧ procs' = procs) ∨
  (o = Ret tt ∧ procs' = alter (set_ld_state st) p procs ∧ st ≠ LOCALDISTRIBXACT_STATE_ACTIVE ∧ st ≠ LOCALDISTRIBXACT_STATE_NONE ∧
   ∃ x, procs !! p = Some x ∧ ld_state x = LOCALDISTRIBXACT_STATE_ACTIVE).
Proof.
  unfold LocalDistribXact_ChangeState, bind, get, raise, modify. intros E.
  destruct (procs !! p) as [x|] eqn:Hx; [|by simplify_eq; left].
  destruct st; try (case_bool_decide); simplify_eq; try (by left); right; split_and!; by eauto.
Qed.

(** The end of a transaction is never taken back: over any run of changes a state that is not active
    stays, the ids are kept, and so is the number of processes. *)
Lemma local_state_final procs procs' p x :
  changes procs procs' → procs !! p = Some x →
  ∃ x', procs' !! p = Some x' ∧ ld_distribXid x' = ld_distribXid x ∧ ld_distribTimeStamp x' = ld_distribTimeStamp x ∧
        (ld_state x ≠ LOCALDISTRIBXACT_STATE_ACTIVE → x' = x).
Proof.
  intros H. revert x. induction H as [procs|procs q st procs' procs'' E _ IH]; intros x Hx; [by exists x|].
  apply change_state_cases in E as [[? _]|(_ & -> & _ & _ & y & Hy & Hact)]; [done|].
  destruct (decide (p = q)) as [->|Hne].
  - rewrite Hx in Hy. simplify_eq. destruct (IH (set_ld_state st y)) as (x' & H1 & H2 & H3 & _).
    { by rewrite list_lookup_alter_eq, Hx. }
    exists x'. split_and!; [done|by rewrite H2|by rewrite H3|]. by intros [].
  - apply IH. by rewrite list_lookup_alter_ne by done.
Qed.
