(* ===== verification/ObjectIds.v ===== *)
(** * Object identifiers ([access/transam/varsup.c], [access/transam/xlog.c])

    Object ids and file node ids come from two counters of 32 bits.  A counter is logged ahead, so
    many ids at a time, so that after a crash it is set behind all ids that may have been used.

    The write-ahead log is the list of its records; of the records of other parts only the ids they
    use matter.  The counters are read back by the parts of [xlog.c] that are modelled here. *)
From S2P Require Import Prelude Proc.

Definition VAR_OID_PREFETCH : Z := 8192.
Definition FirstBootstrapObjectId : Z := 10000.
Definition FirstNormalObjectId : Z := 16384.

Class OidEnv := mkOidEnv {
  IsPostmasterEnvironment : bool;
  oid_RecoveryInProgress : bool;
}.

Record oid_vars := mkOidVars {
  nextOid : Z;
  oidCount : Z;
  nextRelfilenode : Z;
  relfilenodeCount : Z;
}.

(** A checkpoint has the place in the log from which it is replayed, and the two counters. *)
Inductive wal_record :=
  | XLOG_NEXTOID (v : Z)
  | XLOG_NEXTRELFILENODE (v : Z)
  | XLOG_CHECKPOINT_SHUTDOWN (oid rel : Z)
  | XLOG_CHECKPOINT_ONLINE (redo : nat) (oid rel : Z)
  | uses_oid (oid : Z)
  | uses_relfilenode (rel : Z).

Record oids := mkOids { ov : oid_vars; wal : list wal_record }.

Definition set_oid (n c : Z) (s : oids) : oids :=
  mkOids (mkOidVars n c (nextRelfilenode (ov s)) (relfilenodeCount (ov s))) (wal s).
Definition set_rel (n c : Z) (s : oids) : oids :=
  mkOids (mkOidVars (nextOid (ov s)) (oidCount (ov s)) n c) (wal s).
Definition log_record (r : wal_record) (s : oids) : oids := mkOids (ov s) (wal s ++ [r]).

Definition XLogPutNextOid (v : Z) : proc oids unit := modify (log_record (XLOG_NEXTOID v)).
Definition XLogPutNextRelfilenode (v : Z) : proc oids unit := modify (log_record (XLOG_NEXTRELFILENODE v)).

Section ObjectIds.
Context {env : OidEnv}.

(** ** Assigning *)

(** A batch is logged if none is left, and the next id is taken. *)
Definition take_oid : proc oids Z :=
  s <- get;;
  (if oidCount (ov s) =? 0 then
     XLogPutNextOid (u32 (nextOid (ov s) + VAR_OID_PREFETCH));;
     modify (set_oid (nextOid (ov s)) VAR_OID_PREFETCH)
   else ret tt);;
  s <- get;;
  modify (set_oid (u32 (nextOid (ov s) + 1)) (u32 (oidCount (ov s) - 1)));;
  ret (nextOid (ov s)).

Definition take_relfilenode : proc oids Z :=
  s <- get;;
  (if relfilenodeCount (ov s) =? 0 then
     XLogPutNextRelfilenode (u32 (nextRelfilenode (ov s) + VAR_OID_PREFETCH));;
     modify (set_rel (nextRelfilenode (ov s)) VAR_OID_PREFETCH)
   else ret tt);;
  s <- get;;
  modify (set_rel (u32 (nextRelfilenode (ov s) + 1)) (u32 (relfilenodeCount (ov s) - 1)));;
  ret (nextRelfilenode (ov s)).

Definition GetNewObjectIdUnderLock : proc oids Z :=
  if oid_RecoveryInProgress then raise ERROR
  else
    s <- get;;
    (if nextOid (ov s) <? FirstNormalObjectId then
       if IsPostmasterEnvironment then modify (set_oid FirstNormalObjectId 0)
       else if nextOid (ov s) <? FirstBootstrapObjectId then modify (set_oid FirstNormalObjectId 0)
       else ret tt
     else ret tt);;
    take_oid.

Definition GetNewObjectId : proc oids Z := GetNewObjectIdUnderLock.

Definition OidFollowsNextOid (id : Z) (s : oids) : bool := 0 <? s32 (id - nextOid (ov s)).

Definition AdvanceObjectId (newOid : Z) : proc oids unit :=
  s <- get;;
  if OidFollowsNextOid newOid s then
    let nextOidDifference := s32 (newOid - nextOid (ov s)) in
    modify (set_oid newOid (oidCount (ov s)));;
    if oidCount (ov s) <=? nextOidDifference then
      XLogPutNextOid (u32 (newOid + VAR_OID_PREFETCH));;
      modify (set_oid newOid VAR_OID_PREFETCH)
    else modify (set_oid newOid (u32 (oidCount (ov s) - nextOidDifference)))
  else ret tt.

Definition GetNewSegRelfilenodeUnderLock : proc oids Z :=
  s <- get;;
  (if (nextRelfilenode (ov s) <? FirstNormalObjectId) && IsPostmasterEnvironment
   then modify (set_rel FirstNormalObjectId 0) else ret tt);;
  take_relfilenode.

Definition GetNewSegRelfilenode : proc oids Z := GetNewSegRelfilenodeUnderLock.
End ObjectIds.

(** ** Checkpoints and replay *)

(** The counters of a checkpoint, as [CreateCheckPoint] reads them. *)
Definition checkpoint_counters (shutdown : bool) (v : oid_vars) : Z * Z :=
  (if shutdown then nextOid v else u32 (nextOid v + oidCount v),
   if shutdown then nextRelfilenode v else u32 (nextRelfilenode v + relfilenodeCount v)).

Definition BootStrapXLOG : oids :=
  mkOids (mkOidVars FirstBootstrapObjectId 0 FirstBootstrapObjectId 0)
    [XLOG_CHECKPOINT_SHUTDOWN FirstBootstrapObjectId FirstBootstrapObjectId].

Definition xlog_redo (v : oid_vars) (r : wal_record) : oid_vars :=
  match r with
  | XLOG_NEXTOID n => mkOidVars n 0 (nextRelfilenode v) (relfilenodeCount v)
  | XLOG_NEXTRELFILENODE n => mkOidVars (nextOid v) (oidCount v) n 0
  | XLOG_CHECKPOINT_SHUTDOWN oid rel => mkOidVars oid 0 rel 0
  | _ => v
  end.

(** The start from the checkpoint at the place [i] of the log: its counters, then the log from its
    redo location on, which for a shutdown checkpoint is behind it. *)
Definition StartupXLOG (log : list wal_record) (i : nat) : option oids :=
  match log !! i with
  | Some (XLOG_CHECKPOINT_SHUTDOWN oid rel) =>
      Some (mkOids (foldl xlog_redo (mkOidVars oid 0 rel 0) (drop (S i) log)) log)
  | Some (XLOG_CHECKPOINT_ONLINE redo oid rel) =>
      Some (mkOids (foldl xlog_redo (mkOidVars oid 0 rel 0) (drop redo log)) log)
  | _ => None
  end.
