(* ===== verification/ObjectIdsFacts.v ===== *)
(** * Object identifiers: an id that was used is not assigned again

    A counter with the records that set it and the records that use its ids.  What is logged is the
    counter plus the ids that are left of the last batch, and the ids that a part of the log uses are
    below what that part of the log sets. *)
From S2P Require Import Prelude Proc ObjectIds.

(** ** A counter *)

Inductive event := Idle | Sets (v : Z) | Uses (o : Z).

Definition apply_event (b : Z) (e : event) : Z := match e with Sets v => v | _ => b end.
Definition bound (es : list event) (b : Z) : Z := foldl apply_event b es.

(** Whatever part of the log survives, the ids it uses are below the counter it gives. *)
Definition covered (es : list event) : Prop :=
  ∀ pre, pre `prefix_of` es → 0 ≤ bound pre 0 < 2 ^ 32 ∧ ∀ o, Uses o ∈ pre → o < bound pre 0.

(** A part of the log that reaches to where [h.1] was handed out sets a counter behind it. *)
Definition kept_behind (es : list event) (h : Z * nat) : Prop :=
  (h.2 ≤ length es)%nat ∧ ∀ pre, pre `prefix_of` es → (h.2 ≤ length pre)%nat → h.1 < bound pre 0.

(** The counter [n] with [c] ids left of the batch, and the ids that were handed out, each with the length of the log at that time. *)
Record counter_ok (es : list event) (n c : Z) (handed : list (Z * nat)) : Prop := mkCounterOk {
  ck_next : 0 ≤ n;
  ck_count : 0 ≤ c ≤ VAR_OID_PREFETCH;
  ck_bound : bound es 0 = n + c;
  ck_handed h : h ∈ handed → h.1 < n ∧ kept_behind es h;
  ck_used o : Uses o ∈ es → o < n;
  ck_covered : covered es;
}.

Lemma bound_snoc es e b : bound (es ++ [e]) b = apply_event (bound es b) e.
Proof. unfold bound. by rewrite foldl_app. Qed.

Lemma covered_snoc es e :
  covered es → 0 ≤ bound (es ++ [e]) 0 < 2 ^ 32 → (∀ o, Uses o ∈ es ++ [e] → o < bound (es ++ [e]) 0) →
  covered (es ++ [e]).
Proof.
  intros Hc Hb Hu pre [k E]. destruct k as [|x k _] using rev_ind.
  - rewrite app_nil_r in E. by subst pre.
  - rewrite app_assoc in E. apply app_inj_tail in E as [E _]. apply Hc. by exists k.
Qed.

Lemma kept_snoc es e h : kept_behind es h → h.1 < bound (es ++ [e]) 0 → kept_behind (es ++ [e]) h.
Proof.
  intros [Hl Hk] Hb. split; [rewrite length_app; lia|]. intros pre [k E] Hlen. destruct k as [|x k _] using rev_ind.
  - rewrite app_nil_r in E. by subst pre.
  - rewrite app_assoc in E. apply app_inj_tail in E as [E _]. apply Hk; [by exists k|done].
Qed.

Lemma handed_snoc es e n (handed : list (Z * nat)) (m : Z) :
  (∀ h, h ∈ handed → h.1 < n ∧ kept_behind es h) → n ≤ m → m ≤ bound (es ++ [e]) 0 →
  ∀ h, h ∈ handed → h.1 < m ∧ kept_behind (es ++ [e]) h.
Proof. intros Hh Hnm Hb h Hin. destruct (Hh h Hin) as [? ?]. split; [lia|]. apply kept_snoc; [done|lia]. Qed.

Section Counter.
Context (es : list event) (n c : Z) (handed : list (Z * nat)).
Context (Hok : counter_ok es n c handed).

Lemma counter_range : 0 ≤ bound es 0 < 2 ^ 32.
Proof using Hok. apply (ck_covered _ _ _ _ Hok es). done. Qed.

Lemma counter_idle : counter_ok (es ++ [Idle]) n c handed.
Proof using Hok.
  pose proof counter_range as Hr. destruct Hok as [Hn Hc Hb Hh Hu Hcov].
  assert (Hu' : ∀ o, Uses o ∈ es ++ [Idle] → o < n) by (intros o [?|[?|?%elem_of_nil]%elem_of_cons]%elem_of_app; auto; done).
  split; try done; rewrite ?bound_snoc; [done| |].
  - apply (handed_snoc es Idle n); [done|lia|rewrite bound_snoc; cbn [apply_event]; lia].
  - apply covered_snoc; rewrite ?bound_snoc; [done..|]. intros o Ho. apply Hu' in Ho. cbn [apply_event]. lia.
Qed.

Lemma counter_use o : o ∈ handed.*1 → counter_ok (es ++ [Uses o]) n c handed.
Proof using Hok.
  intros Ho. pose proof counter_range as Hr. destruct Hok as [Hn Hc Hb Hh Hu Hcov].
  assert (Hu' : ∀ u, Uses u ∈ es ++ [Uses o] → u < n)
    by (apply list_elem_of_fmap in Ho as (h & -> & Ho); intros u [?|[[= ->]|?%elem_of_nil]%elem_of_cons]%elem_of_app; [auto|apply Hh, Ho|done]).
  split; try done; rewrite ?bound_snoc; [done| |].
  - apply (handed_snoc es (Uses o) n); [done|lia|rewrite bound_snoc; cbn [apply_event]; lia].
  - apply covered_snoc; rewrite ?bound_snoc; [done..|]. intros u Hin. apply Hu' in Hin. cbn [apply_event]. lia.
Qed.

(** The counter is set to [n'], with [c'] ids left. *)
Lemma counter_set n' c' :
  n ≤ n' → 0 ≤ c' ≤ VAR_OID_PREFETCH → n' + c' < 2 ^ 32 → counter_ok (es ++ [Sets (n' + c')]) n' c' handed.
Proof using Hok.
  intros Hle Hc' Hlt. destruct Hok as [Hn Hc Hb Hh Hu Hcov].
  assert (Hu' : ∀ u, Uses u ∈ es ++ [Sets (n' + c')] → u < n').
  { intros u [Hin|[?|?%elem_of_nil]%elem_of_cons]%elem_of_app; [|done..]. apply Hu in Hin. lia. }
  split; try done; rewrite ?bound_snoc; [lia|done|apply (handed_snoc es _ n); [done|lia|rewrite bound_snoc; cbn [apply_event]; lia]|].
  apply covered_snoc; rewrite ?bound_snoc; [done|cbn [apply_event]; lia|].
  intros u Hin. apply Hu' in Hin. cbn [apply_event]. lia.
Qed.

(** Ids of the batch are passed over. *)
Lemma counter_pass n' c' : n ≤ n' → 0 ≤ c' → n' + c' = n + c → counter_ok es n' c' handed.
Proof using Hok.
  intros Hle Hc' E. destruct Hok as [Hn Hc Hb Hh Hu Hcov].
  split; try done; [lia|lia|lia|intros h [? ?]%Hh; split; [lia|done]|intros o Ho%Hu; lia].
Qed.

Lemma counter_take : 0 < c → counter_ok es (n + 1) (c - 1) ((n, length es) :: handed).
Proof using Hok.
  intros Hc'. destruct (counter_pass (n + 1) (c - 1)) as [H1 H2 H3 H4 H5 H6]; [lia..|]. split; try done.
  intros h [->|Ho]%elem_of_cons; [|auto]. cbn [fst snd]. split; [lia|]. split; [done|]. intros pre [k E] Hlen. cbn [fst snd] in *.
  destruct k as [|x k]; [rewrite app_nil_r in E; subst pre; lia|]. apply (f_equal length) in E. rewrite length_app in E. cbn in E. lia.
Qed.

(** A restart with a part of the log. *)
Lemma counter_restart pre : pre `prefix_of` es → counter_ok pre (bound pre 0) 0 (filter (λ h, h.2 ≤ length pre)%nat handed).
Proof using Hok.
  intros Hp. destruct (ck_covered _ _ _ _ Hok pre Hp) as [Hr Hu]. split; [lia|unfold VAR_OID_PREFETCH; lia|lia| |done|].
  - intros h [Hl Hin]%list_elem_of_filter. destruct (ck_handed _ _ _ _ Hok h Hin) as [_ [_ Hk]]. split; [by apply Hk|].
    split; [done|]. intros pre' Hp' Hl'. apply Hk; [by transitivity pre|done].
  - intros pre' Hp'. apply (ck_covered _ _ _ _ Hok). by transitivity pre.
Qed.

End Counter.

(** ** Replay *)

(** What sets the counter does so whatever it was before. *)
Lemma bound_const mid : (∀ b, bound mid b = b) ∨ ∃ v, ∀ b, bound mid b = v.
Proof.
  induction mid as [|e mid IH] using rev_ind; [by left|]. destruct e as [|v|o].
  - destruct IH as [IH|[v IH]]; [left|right; exists v]; intros b; by rewrite bound_snoc, IH.
  - right. exists v. intros b. by rewrite bound_snoc.
  - destruct IH as [IH|[v IH]]; [left|right; exists v]; intros b; by rewrite bound_snoc, IH.
Qed.

(** The counter of a checkpoint was read at some time after its redo location. *)
Definition read_at (es : list event) (i redo : nat) (o : Z) : Prop := ∃ T, (redo ≤ T ≤ i)%nat ∧ o = bound (take T es) 0.

Lemma replay_bound es i redo o : (i ≤ length es)%nat → read_at es i redo o → bound (drop redo es) o = bound es 0.
Proof.
  intros Hi (T & HT & ->). set (a := take redo es). set (mid := drop redo (take T es)). set (rest := drop T es).
  assert (ET : take T es = a ++ mid).
  { unfold a, mid. rewrite <-(take_drop redo (take T es)) at 1. f_equal. rewrite take_take. f_equal. lia. }
  assert (Er : drop redo es = mid ++ rest).
  { rewrite <-(take_drop T es) at 1. rewrite drop_app_le; [done|]. rewrite length_take. lia. }
  assert (Ees : es = a ++ mid ++ rest) by (rewrite <-Er; unfold a; by rewrite take_drop).
  rewrite ET, Er. transitivity (bound (a ++ mid ++ rest) 0); [|by rewrite <-Ees]. unfold bound. rewrite !foldl_app.
  destruct (bound_const mid) as [H|[v H]]; unfold bound in H; by rewrite !H.
Qed.

Lemma read_at_app es es' i redo o : (i ≤ length es)%nat → read_at es i redo o → read_at (es ++ es') i redo o.
Proof. intros Hi (T & HT & ->). exists T. split; [done|]. by rewrite take_app_le by lia. Qed.

Lemma read_at_prefix es pre i redo o :
  pre `prefix_of` es → (i ≤ length pre)%nat → read_at es i redo o → read_at pre i redo o.
Proof. intros [k ->] Hi (T & HT & ->). exists T. split; [done|]. by rewrite take_app_le by lia. Qed.

Definition oid_event (r : wal_record) : event :=
  match r with
  | XLOG_NEXTOID v | XLOG_CHECKPOINT_SHUTDOWN v _ => Sets v
  | uses_oid o => Uses o
  | _ => Idle
  end.

Definition rel_event (r : wal_record) : event :=
  match r with
  | XLOG_NEXTRELFILENODE v | XLOG_CHECKPOINT_SHUTDOWN _ v => Sets v
  | uses_relfilenode o => Uses o
  | _ => Idle
  end.

Notation oid_events l := (oid_event <$> l).
Notation rel_events l := (rel_event <$> l).

Lemma replay_counters v l :
  nextOid (foldl xlog_redo v l) = bound (oid_events l) (nextOid v) ∧
  nextRelfilenode (foldl xlog_redo v l) = bound (rel_events l) (nextRelfilenode v) ∧
  (oidCount v = 0 → oidCount (foldl xlog_redo v l) = 0) ∧
  (relfilenodeCount v = 0 → relfilenodeCount (foldl xlog_redo v l) = 0).
Proof.
  revert v. induction l as [|r l IH]; intros v; [done|]. cbn [foldl fmap list_fmap].
  destruct (IH (xlog_redo v r)) as (-> & -> & H3 & H4). unfold bound. cbn [foldl].
  split_and!; [by destruct r|by destruct r|intros H; apply H3; by destruct r|intros H; apply H4; by destruct r].
Qed.

(** ** Runs of a server *)

(** The server, the ids that were handed out, each with the length of the log at that time, and the checkpoint under
    way.  The ids are those of all times since the cluster was created, except where the log was lost from before they
    were handed out. *)
Record world := mkWorld {
  w_server : oids;
  w_oids : list (Z * nat);
  w_rels : list (Z * nat);
  w_checkpoint : option (nat * Z * Z);
}.

(** The counter does not reach its end: [room] is left for a batch. *)
Definition room (n : Z) : Prop := n + VAR_OID_PREFETCH < 2 ^ 32.

Record world_ok (w : world) : Prop := mkWorldOk {
  wo_oid : counter_ok (oid_events (wal (w_server w))) (nextOid (ov (w_server w))) (oidCount (ov (w_server w))) (w_oids w);
  wo_rel : counter_ok (rel_events (wal (w_server w))) (nextRelfilenode (ov (w_server w)))
             (relfilenodeCount (ov (w_server w))) (w_rels w);
  wo_logged i redo o r : wal (w_server w) !! i = Some (XLOG_CHECKPOINT_ONLINE redo o r) →
    read_at (oid_events (wal (w_server w))) i redo o ∧ read_at (rel_events (wal (w_server w))) i redo r;
  wo_pending redo o r : w_checkpoint w = Some (redo, o, r) →
    read_at (oid_events (wal (w_server w))) (length (wal (w_server w))) redo o ∧
    read_at (rel_events (wal (w_server w))) (length (wal (w_server w))) redo r;
}.

(** A record is added: what was read before is still what was read. *)
Lemma logged_snoc l r i redo o rel :
  (∀ i redo o rel, l !! i = Some (XLOG_CHECKPOINT_ONLINE redo o rel) →
     read_at (oid_events l) i redo o ∧ read_at (rel_events l) i redo rel) →
  (∀ redo' o' rel', r = XLOG_CHECKPOINT_ONLINE redo' o' rel' →
     read_at (oid_events l) (length l) redo' o' ∧ read_at (rel_events l) (length l) redo' rel') →
  (l ++ [r]) !! i = Some (XLOG_CHECKPOINT_ONLINE redo o rel) →
  read_at (oid_events (l ++ [r])) i redo o ∧ read_at (rel_events (l ++ [r])) i redo rel.
Proof.
  intros Hl Hr Hi. rewrite !fmap_app.
  assert (Hlen : (i ≤ length l)%nat) by (apply lookup_lt_Some in Hi; rewrite length_app in Hi; simpl in Hi; lia).
  assert (H : read_at (oid_events l) i redo o ∧ read_at (rel_events l) i redo rel).
  { destruct (decide (i = length l)) as [->|Hne].
    - rewrite lookup_app_r, Nat.sub_diag in Hi by done. simpl in Hi. simplify_eq. by apply Hr.
    - rewrite lookup_app_l in Hi by lia. by apply Hl. }
  destruct H as [H1 H2]. split; apply read_at_app; by rewrite ?length_fmap.
Qed.

Lemma pending_snoc l r redo o rel :
  read_at (oid_events l) (length l) redo o ∧ read_at (rel_events l) (length l) redo rel →
  read_at (oid_events (l ++ [r])) (length (l ++ [r])) redo o ∧ read_at (rel_events (l ++ [r])) (length (l ++ [r])) redo rel.
Proof.
  assert (Hmono : ∀ es i j redo o, (i ≤ j)%nat → read_at es i redo o → read_at es j redo o).
  { intros es i j redo' o' Hij (T & HT & ->). exists T. split; [lia|done]. }
  intros [H1 H2]. rewrite !fmap_app, length_app. split; eapply (Hmono _ (length l)); try lia;
    apply read_at_app; by rewrite ?length_fmap.
Qed.

(** A record that is not an online checkpoint keeps what is known of the checkpoints. *)
Lemma world_log w r v oids' rels' cp :
  world_ok w → (∀ redo o rel, r ≠ XLOG_CHECKPOINT_ONLINE redo o rel) → (cp = w_checkpoint w ∨ cp = None) →
  counter_ok (oid_events (wal (w_server w)) ++ [oid_event r]) (nextOid v) (oidCount v) oids' →
  counter_ok (rel_events (wal (w_server w)) ++ [rel_event r]) (nextRelfilenode v) (relfilenodeCount v) rels' →
  world_ok (mkWorld (mkOids v (wal (w_server w) ++ [r])) oids' rels' cp).
Proof.
  intros [_ _ Hl Hp] Hr Hcp Ho Hrel. split; cbn [w_server wal ov w_oids w_rels w_checkpoint].
  - by rewrite fmap_app.
  - by rewrite fmap_app.
  - intros i redo o rel. apply logged_snoc; [done|]. intros redo' o' rel' E. by destruct (Hr redo' o' rel').
  - intros redo o rel E. apply pending_snoc. apply Hp. destruct Hcp; congruence.
Qed.

(** The counters alone change. *)
Lemma world_set w v oids' rels' :
  world_ok w →
  counter_ok (oid_events (wal (w_server w))) (nextOid v) (oidCount v) oids' →
  counter_ok (rel_events (wal (w_server w))) (nextRelfilenode v) (relfilenodeCount v) rels' →
  world_ok (mkWorld (mkOids v (wal (w_server w))) oids' rels' (w_checkpoint w)).
Proof. intros [_ _ Hl Hp] Ho Hrel. by split. Qed.

(** A new batch is logged and its first id is handed out. *)
Lemma counter_batch es n c handed n' :
  counter_ok es n c handed → n ≤ n' → room n' →
  counter_ok (es ++ [Sets (u32 (n' + VAR_OID_PREFETCH))]) (u32 (n' + 1)) (u32 (VAR_OID_PREFETCH - 1)) ((n', S (length es)) :: handed).
Proof.
  unfold room. intros Hok Hle Hroom. pose proof (ck_next _ _ _ _ Hok). unfold VAR_OID_PREFETCH in *.
  unfold u32. rewrite !Z.mod_small by lia. pose proof (counter_set _ _ _ _ Hok n' 8192 Hle) as Hset.
  replace (S (length es)) with (length (es ++ [Sets (n' + 8192)])) by (rewrite length_app; cbn; lia).
  apply (counter_take _ _ _ _ (Hset ltac:(unfold VAR_OID_PREFETCH; lia) ltac:(lia))). lia.
Qed.

Lemma counter_next es n c handed :
  counter_ok es n c handed → c ≠ 0 → room n → counter_ok es (u32 (n + 1)) (u32 (c - 1)) ((n, length es) :: handed).
Proof.
  unfold room. intros Hok Hc Hroom. pose proof (ck_next _ _ _ _ Hok). pose proof (ck_count _ _ _ _ Hok).
  unfold VAR_OID_PREFETCH in *. unfold u32. rewrite !Z.mod_small by lia. apply counter_take; [done|lia].
Qed.

Lemma counter_fresh_from es n c handed o :
  counter_ok es n c handed → n ≤ o → o ∉ handed.*1 ∧ Uses o ∉ es.
Proof.
  intros [_ _ _ Hh Hu _] Hle. split; intros H; [apply list_elem_of_fmap in H as (h & -> & [? _]%Hh)|apply Hu in H]; lia.
Qed.

Lemma uses_oid_event o (l : list wal_record) : uses_oid o ∈ l ↔ Uses o ∈ oid_events l.
Proof.
  rewrite list_elem_of_fmap. split; [intros H; by exists (uses_oid o)|].
  intros (r & E & Hr). destruct r; simplify_eq/=; done.
Qed.

Lemma uses_rel_event o (l : list wal_record) : uses_relfilenode o ∈ l ↔ Uses o ∈ rel_events l.
Proof.
  rewrite list_elem_of_fmap. split; [intros H; by exists (uses_relfilenode o)|].
  intros (r & E & Hr). destruct r; simplify_eq/=; done.
Qed.

Section Runs.
Context {env : OidEnv}.

(** A batch that is used up leaves the counter behind some ids, or [n] with its batch as they are. *)
Definition moved (n c n' c' : Z) : Prop := n ≤ n' ∧ room n' ∧ (n' = n ∧ c' = c ∨ c' = 0).

(** The length of the log when an id is handed out. *)
Ltac handed_at n :=
  match goal with |- context [length (wal ?s)] => replace (length (wal s)) with n by (cbn -[u32]; rewrite ?length_app, length_fmap; cbn; lia) end.

Lemma take_oid_spec n c rn rc l ho hr cp n' c' :
  world_ok (mkWorld (mkOids (mkOidVars n c rn rc) l) ho hr cp) → moved n c n' c' →
  wp take_oid (λ o s', o = Ret n' ∧ world_ok (mkWorld s' ((n', length (wal s')) :: ho) hr cp)) (mkOids (mkOidVars n' c' rn rc) l).
Proof.
  intros Hok (Hle & Hroom & Hcase). pose proof Hok as [Ho Hr _ _].
  cbn [w_server ov wal nextOid oidCount nextRelfilenode relfilenodeCount w_oids w_rels] in *.
  unfold take_oid. apply proc_bind, wp_get. cbn [next ov nextOid oidCount]. apply proc_bind.
  destruct (Z.eqb_spec c' 0) as [->|Hc'].
  - unfold wp, XLogPutNextOid, bind, modify, ret, get, set_oid, log_record. cbn -[u32 VAR_OID_PREFETCH]. split; [done|]. handed_at (S (length (oid_event <$> l))).
    apply (world_log _ (XLOG_NEXTOID _) (mkOidVars _ _ rn rc) _ _ _ Hok); [done|by left|by eapply counter_batch|by apply counter_idle].
  - destruct Hcase as [[-> ->]|?]; [|done]. unfold wp, bind, modify, ret, get, set_oid. cbn -[u32]. split; [done|]. handed_at (length (oid_event <$> l)).
    apply (world_set _ (mkOidVars _ _ rn rc) _ _ Hok); [by apply counter_next|done].
Qed.

Lemma take_relfilenode_spec n c rn rc l ho hr cp n' c' :
  world_ok (mkWorld (mkOids (mkOidVars n c rn rc) l) ho hr cp) → moved rn rc n' c' →
  wp take_relfilenode (λ o s', o = Ret n' ∧ world_ok (mkWorld s' ho ((n', length (wal s')) :: hr) cp)) (mkOids (mkOidVars n c n' c') l).
Proof.
  intros Hok (Hle & Hroom & Hcase). pose proof Hok as [Ho Hr _ _].
  cbn [w_server ov wal nextOid oidCount nextRelfilenode relfilenodeCount w_oids w_rels] in *.
  unfold take_relfilenode. apply proc_bind, wp_get. cbn [next ov nextRelfilenode relfilenodeCount]. apply proc_bind.
  destruct (Z.eqb_spec c' 0) as [->|Hc'].
  - unfold wp, XLogPutNextRelfilenode, bind, modify, ret, get, set_rel, log_record. cbn -[u32 VAR_OID_PREFETCH]. split; [done|]. handed_at (S (length (rel_event <$> l))).
    apply (world_log _ (XLOG_NEXTRELFILENODE _) (mkOidVars n c _ _) _ _ _ Hok);
      [done|by left|by apply counter_idle|by eapply counter_batch].
  - destruct Hcase as [[-> ->]|?]; [|done]. unfold wp, bind, modify, ret, get, set_rel. cbn -[u32]. split; [done|]. handed_at (length (rel_event <$> l)).
    apply (world_set _ (mkOidVars n c _ _) _ _ Hok); [done|by apply counter_next].
Qed.

(** A new id: behind the counter, and not one of those reserved for the system. *)
Definition new_id_post (n : Z) (P : Z → oids → Prop) (r : outcome Z) (s' : oids) : Prop :=
  match r with
  | Ret o => P o s' ∧ n ≤ o ∧ (IsPostmasterEnvironment = true → FirstNormalObjectId ≤ o)
  | ERROR => oid_RecoveryInProgress = true
  | _ => False
  end.

Lemma moved_jump n c : n < FirstNormalObjectId → moved n c FirstNormalObjectId 0.
Proof. unfold moved, room, FirstNormalObjectId, VAR_OID_PREFETCH. lia. Qed.

Lemma GetNewObjectId_spec w :
  world_ok w → room (nextOid (ov (w_server w))) →
  wp GetNewObjectId (new_id_post (nextOid (ov (w_server w)))
    (λ o s', world_ok (mkWorld s' ((o, length (wal s')) :: w_oids w) (w_rels w) (w_checkpoint w)))) (w_server w).
Proof.
  destruct w as [[[n c rn rc] l] ho hr cp]. cbn [w_server ov nextOid w_oids w_rels w_checkpoint]. intros Hok Hroom.
  unfold GetNewObjectId, GetNewObjectIdUnderLock. destruct oid_RecoveryInProgress eqn:Hrec; [by apply wp_raise|].
  apply proc_bind, wp_get. cbn [next ov nextOid]. apply proc_bind.
  assert (Htake : ∀ n' c', moved n c n' c' → (IsPostmasterEnvironment = true → FirstNormalObjectId ≤ n') →
    wp take_oid (new_id_post n (λ o s', world_ok (mkWorld s' ((o, length (wal s')) :: ho) hr cp))) (mkOids (mkOidVars n' c' rn rc) l)).
  { intros n' c' Hm Hpm. eapply proc_mono; [by eapply take_oid_spec|]. intros o s' [-> Hw]. split_and!; [done|apply Hm|done]. }
  assert (Hsame : moved n c n c) by (split_and!; [lia|done|by left]).
  destruct (Z.ltb_spec n FirstNormalObjectId) as [Hlt|Hge]; [|apply proc_ret; cbn [next]; by apply Htake].
  assert (Hj := moved_jump n c Hlt).
  destruct IsPostmasterEnvironment eqn:Hpm; [apply wp_modify; cbn [next]; by apply Htake|].
  destruct (n <? FirstBootstrapObjectId); [apply wp_modify|apply proc_ret]; cbn [next]; by apply Htake.
Qed.

Lemma GetNewSegRelfilenode_spec w :
  world_ok w → room (nextRelfilenode (ov (w_server w))) →
  wp GetNewSegRelfilenode (new_id_post (nextRelfilenode (ov (w_server w)))
    (λ o s', world_ok (mkWorld s' (w_oids w) ((o, length (wal s')) :: w_rels w) (w_checkpoint w)))) (w_server w).
Proof.
  destruct w as [[[n c rn rc] l] ho hr cp]. cbn [w_server ov nextRelfilenode w_oids w_rels w_checkpoint]. intros Hok Hroom.
  unfold GetNewSegRelfilenode, GetNewSegRelfilenodeUnderLock.
  apply proc_bind, wp_get. cbn [next ov nextRelfilenode]. apply proc_bind.
  assert (Htake : ∀ n' c', moved rn rc n' c' → (IsPostmasterEnvironment = true → FirstNormalObjectId ≤ n') →
    wp take_relfilenode (new_id_post rn (λ o s', world_ok (mkWorld s' ho ((o, length (wal s')) :: hr) cp))) (mkOids (mkOidVars n c n' c') l)).
  { intros n' c' Hm Hpm. eapply proc_mono; [by eapply take_relfilenode_spec|]. intros o s' [-> Hw].
    split_and!; [done|apply Hm|done]. }
  assert (Hsame : moved rn rc rn rc) by (split_and!; [lia|done|by left]).
  destruct (Z.ltb_spec rn FirstNormalObjectId) as [Hlt|Hge]; cbn [andb]; [|apply proc_ret; cbn [next]; by apply Htake].
  destruct IsPostmasterEnvironment eqn:Hpm; [apply wp_modify|apply proc_ret]; cbn [next]; apply Htake; try done.
  by apply moved_jump.
Qed.

(** The given id is not half the range away from the counter. *)
Definition near (n id : Z) : Prop := 0 ≤ id ∧ - 2 ^ 31 ≤ id - n < 2 ^ 31 ∧ room id.

Lemma AdvanceObjectId_spec w newOid :
  world_ok w → near (nextOid (ov (w_server w))) newOid →
  wp (AdvanceObjectId newOid)
    (λ o s', o = Ret tt ∧ world_ok (mkWorld s' (w_oids w) (w_rels w) (w_checkpoint w)) ∧
       nextOid (ov s') = Z.max (nextOid (ov (w_server w))) newOid) (w_server w).
Proof.
  destruct w as [[[n c rn rc] l] ho hr cp]. cbn [w_server ov nextOid w_oids w_rels w_checkpoint]. intros Hok (H0 & Hnear & Hroom).
  pose proof Hok as [Ho Hr _ _]. cbn [w_server ov wal nextOid oidCount nextRelfilenode relfilenodeCount w_oids w_rels] in *.
  unfold AdvanceObjectId. apply proc_bind, wp_get. cbn [next ov nextOid oidCount]. unfold OidFollowsNextOid. cbn [ov nextOid].
  rewrite s32_small by done. destruct (Z.ltb_spec 0 (newOid - n)) as [Hlt|Hge].
  2: { apply proc_ret. split_and!; [done..|]. cbn [ov nextOid]. lia. }
  apply proc_bind, wp_modify. cbn [next]. pose proof (ck_count _ _ _ _ Ho) as Hc. unfold room in Hroom.
  destruct (Z.leb_spec c (newOid - n)) as [Hle|Hgt].
  - unfold wp, XLogPutNextOid, bind, modify, set_oid, log_record. cbn -[u32 VAR_OID_PREFETCH].
    split_and!; [done| |lia].
    apply (world_log _ (XLOG_NEXTOID _) (mkOidVars newOid VAR_OID_PREFETCH rn rc) _ _ _ Hok); [done|by left| |by apply counter_idle].
    cbn [oid_event nextOid oidCount]. unfold u32. rewrite Z.mod_small by (unfold VAR_OID_PREFETCH in *; lia).
    apply (counter_set _ n c); [done|lia|unfold VAR_OID_PREFETCH; lia|done].
  - apply wp_modify. unfold set_oid. cbn -[u32]. split_and!; [done| |lia].
    apply (world_set _ (mkOidVars newOid _ rn rc) _ _ Hok); [|done]. cbn [nextOid oidCount]. unfold u32.
    rewrite Z.mod_small by (unfold VAR_OID_PREFETCH in *; lia). apply (counter_pass _ n c); [done|lia..].
Qed.

(** ** Restarts *)

(** The ids that were handed out before the log ends. *)
Definition survivors (log : list wal_record) (handed : list (Z * nat)) : list (Z * nat) := filter (λ h, h.2 ≤ length log)%nat handed.

Lemma StartupXLOG_spec w log i s' :
  world_ok w → log `prefix_of` wal (w_server w) → StartupXLOG log i = Some s' →
  world_ok (mkWorld s' (survivors log (w_oids w)) (survivors log (w_rels w)) None) ∧ wal s' = log ∧
  nextOid (ov s') = bound (oid_events log) 0 ∧ nextRelfilenode (ov s') = bound (rel_events log) 0.
Proof.
  intros Hok Hpre Hs. pose proof Hok as [Ho Hr Hl _].
  assert (Hpo : oid_events log `prefix_of` oid_events (wal (w_server w))).
  { destruct Hpre as [k ->]. rewrite fmap_app. by exists (oid_events k). }
  assert (Hpr : rel_events log `prefix_of` rel_events (wal (w_server w))).
  { destruct Hpre as [k ->]. rewrite fmap_app. by exists (rel_events k). }
  (* the counters read from the checkpoint and the log behind it are those of the whole log *)
  assert (Hcnt : ∃ v, s' = mkOids v log ∧ oidCount v = 0 ∧ relfilenodeCount v = 0 ∧
    nextOid v = bound (oid_events log) 0 ∧ nextRelfilenode v = bound (rel_events log) 0).
  { unfold StartupXLOG in Hs. destruct (log !! i) as [r|] eqn:Hi; [|done].
    assert (Hlen := lookup_lt_Some _ _ _ Hi).
    destruct r as [| |oid rel|redo oid rel| |]; try done; injection Hs as <-; eexists; (split; [reflexivity|]).
    - destruct (replay_counters (mkOidVars oid 0 rel 0) (drop (S i) log)) as (H1 & H2 & H3 & H4).
      rewrite H3, H4, H1, H2 by done. split_and!; [done..| |].
      + rewrite <-(take_drop_middle log i _ Hi) at 2. unfold bound. by rewrite fmap_app, foldl_app.
      + rewrite <-(take_drop_middle log i _ Hi) at 2. unfold bound. by rewrite fmap_app, foldl_app.
    - destruct (replay_counters (mkOidVars oid 0 rel 0) (drop redo log)) as (H1 & H2 & H3 & H4).
      rewrite H3, H4, H1, H2 by done. cbn [nextOid nextRelfilenode].
      destruct (Hl i redo oid rel) as [Hro Hrr]; [by eapply prefix_lookup_Some|].
      rewrite !fmap_drop. split_and!; [done..| |].
      + apply (replay_bound _ i); [rewrite length_fmap; lia|]. eapply read_at_prefix; [done| |done]. rewrite length_fmap. lia.
      + apply (replay_bound _ i); [rewrite length_fmap; lia|]. eapply read_at_prefix; [done| |done]. rewrite length_fmap. lia. }
  destruct Hcnt as (v & -> & Hc1 & Hc2 & Hn1 & Hn2). split_and!; [|done..].
  split; cbn [w_server ov wal w_oids w_rels w_checkpoint]; [| | |done].
  - rewrite Hn1, Hc1. apply (counter_restart _ _ _ _ Ho) in Hpo. unfold survivors. by rewrite length_fmap in Hpo.
  - rewrite Hn2, Hc2. apply (counter_restart _ _ _ _ Hr) in Hpr. unfold survivors. by rewrite length_fmap in Hpr.
  - intros j redo o r Hj. assert (Hlen := lookup_lt_Some _ _ _ Hj).
    destruct (Hl j redo o r) as [H1 H2]; [by eapply prefix_lookup_Some|].
    split; (eapply read_at_prefix; [done| |done]; rewrite length_fmap; lia).
Qed.

(** ** What may happen *)

Definition logs (r : wal_record) (w : world) : world :=
  mkWorld (log_record r (w_server w)) (w_oids w) (w_rels w) (w_checkpoint w).

(** Ids are assigned and used, the counter is advanced for the dispatcher, checkpoints are begun and
    logged, the server is shut down and started, and it crashes with a part of its log. *)
Inductive oid_step (w : world) : world → Prop :=
  | step_new_oid o s' :
      room (nextOid (ov (w_server w))) → GetNewObjectId (w_server w) = (Ret o, s') →
      oid_step w (mkWorld s' ((o, length (wal s')) :: w_oids w) (w_rels w) (w_checkpoint w))
  | step_new_relfilenode o s' :
      room (nextRelfilenode (ov (w_server w))) → GetNewSegRelfilenode (w_server w) = (Ret o, s') →
      oid_step w (mkWorld s' (w_oids w) ((o, length (wal s')) :: w_rels w) (w_checkpoint w))
  | step_advance id o s' :
      near (nextOid (ov (w_server w))) id → AdvanceObjectId id (w_server w) = (o, s') →
      oid_step w (mkWorld s' (w_oids w) (w_rels w) (w_checkpoint w))
  | step_use_oid o : o ∈ (w_oids w).*1 → oid_step w (logs (uses_oid o) w)
  | step_use_relfilenode o : o ∈ (w_rels w).*1 → oid_step w (logs (uses_relfilenode o) w)
  | step_checkpoint_begin redo oid rel :
      (redo ≤ length (wal (w_server w)))%nat → checkpoint_counters false (ov (w_server w)) = (oid, rel) →
      oid_step w (mkWorld (w_server w) (w_oids w) (w_rels w) (Some (redo, oid, rel)))
  | step_checkpoint_end redo oid rel :
      w_checkpoint w = Some (redo, oid, rel) →
      oid_step w (mkWorld (log_record (XLOG_CHECKPOINT_ONLINE redo oid rel) (w_server w)) (w_oids w) (w_rels w) None)
  | step_shutdown oid rel s' :
      checkpoint_counters true (ov (w_server w)) = (oid, rel) →
      StartupXLOG (wal (w_server w) ++ [XLOG_CHECKPOINT_SHUTDOWN oid rel]) (length (wal (w_server w))) = Some s' →
      oid_step w (mkWorld s' (w_oids w) (w_rels w) None)
  | step_crash log i s' :
      log `prefix_of` wal (w_server w) → StartupXLOG log i = Some s' →
      oid_step w (mkWorld s' (survivors log (w_oids w)) (survivors log (w_rels w)) None).

Definition boot : world := mkWorld BootStrapXLOG [] [] None.

Lemma boot_ok : world_ok boot.
Proof.
  assert (Hc : counter_ok [Sets FirstBootstrapObjectId] FirstBootstrapObjectId 0 []).
  { split; try (unfold FirstBootstrapObjectId, VAR_OID_PREFETCH; lia); [done|..].
    - intros o H. by apply elem_of_nil in H.
    - intros o [?|H]%elem_of_cons; [done|by apply elem_of_nil in H].
    - apply (covered_snoc [] (Sets FirstBootstrapObjectId)); [|by vm_compute|].
      + intros pre [k E]. symmetry in E. apply app_nil in E as [-> _]. split; [by vm_compute|].
        intros o H. by apply elem_of_nil in H.
      + intros o [?|H]%elem_of_cons; [done|by apply elem_of_nil in H]. }
  split; cbn; [done..| |done]. intros [|[|i]] redo o r; done.
Qed.

(** The counters that a running checkpoint reads are those of the log so far. *)
Lemma checkpoint_reads w redo oid rel :
  world_ok w → (redo ≤ length (wal (w_server w)))%nat → checkpoint_counters false (ov (w_server w)) = (oid, rel) →
  read_at (oid_events (wal (w_server w))) (length (wal (w_server w))) redo oid ∧
  read_at (rel_events (wal (w_server w))) (length (wal (w_server w))) redo rel.
Proof.
  intros [Ho Hr _ _] Hle [= <- <-]. pose proof (counter_range _ _ _ _ Ho) as R1. pose proof (counter_range _ _ _ _ Hr) as R2.
  rewrite (ck_bound _ _ _ _ Ho) in R1. rewrite (ck_bound _ _ _ _ Hr) in R2. unfold u32. rewrite !Z.mod_small by done.
  split; exists (length (wal (w_server w))); (split; [lia|]).
  - rewrite firstn_all2 by (rewrite length_fmap; lia). symmetry. apply Ho.
  - rewrite firstn_all2 by (rewrite length_fmap; lia). symmetry. apply Hr.
Qed.

Lemma oid_step_ok w w' : world_ok w → oid_step w w' → world_ok w'.
Proof.
  intros Hok Hs. pose proof Hok as [Ho Hr Hl Hp]. destruct Hs as
    [o s' Hroom E|o s' Hroom E|id o s' Hn E|o Hin|o Hin|redo oid rel Hle E|redo oid rel E|oid rel s' Ec Es|log i s' Hpre Es].
  - by apply (wp_run _ _ _ _ _ (GetNewObjectId_spec w Hok Hroom)) in E as [? _].
  - by apply (wp_run _ _ _ _ _ (GetNewSegRelfilenode_spec w Hok Hroom)) in E as [? _].
  - by apply (wp_run _ _ _ _ _ (AdvanceObjectId_spec w id Hok Hn)) in E as (_ & ? & _).
  - apply (world_log w (uses_oid o) (ov (w_server w))); [done|done|by left|by apply counter_use|by apply counter_idle].
  - apply (world_log w (uses_relfilenode o) (ov (w_server w))); [done|done|by left|by apply counter_idle|by apply counter_use].
  - split; try done. cbn [w_checkpoint w_server]. intros ??? [= <- <- <-]. by apply checkpoint_reads.
  - split; cbn [w_server log_record ov wal w_oids w_rels w_checkpoint]; rewrite ?fmap_app; [by apply counter_idle..| |done].
    intros i ??? Hi. rewrite <-!fmap_app. eapply (logged_snoc _ (XLOG_CHECKPOINT_ONLINE redo oid rel)); [done| |done].
    intros ??? [= <- <- <-]. by apply Hp.
  - injection Ec as <- <-. set (rec := XLOG_CHECKPOINT_SHUTDOWN _ _) in *.
    pose (w1 := mkWorld (mkOids (mkOidVars (nextOid (ov (w_server w))) 0 (nextRelfilenode (ov (w_server w))) 0)
                  (wal (w_server w) ++ [rec])) (w_oids w) (w_rels w) None).
    assert (Hset : ∀ es n c h, counter_ok es n c h → counter_ok (es ++ [Sets n]) n 0 h).
    { intros es n c h H. pose proof (counter_range _ _ _ _ H) as R. rewrite (ck_bound _ _ _ _ H) in R.
      pose proof (ck_count _ _ _ _ H). replace n with (n + 0) at 1 by lia.
      apply (counter_set _ n c); [done|lia|unfold VAR_OID_PREFETCH in *; lia|lia]. }
    assert (Hok1 : world_ok w1) by (apply (world_log w rec); [done|done|by right|by eapply Hset..]).
    eapply (StartupXLOG_spec w1) in Es as [Hw _]; [|done|done]. unfold survivors, w1 in Hw. cbn [w_oids w_rels] in Hw.
    rewrite !filter_all in Hw; [done|..]; intros h Hh; rewrite length_app;
      [destruct (ck_handed _ _ _ _ Hr h Hh) as [_ [Hl' _]]|destruct (ck_handed _ _ _ _ Ho h Hh) as [_ [Hl' _]]]; rewrite length_fmap in Hl'; lia.
  - by eapply StartupXLOG_spec in Es as [? _].
Qed.

Lemma oid_steps_ok w : rtc oid_step boot w → world_ok w.
Proof.
  intros Hs. eapply (rtc_ind_r world_ok); [apply boot_ok| |exact Hs]. intros w1 w2 _ Hstep Hok. by eapply oid_step_ok.
Qed.

End Runs.

(** ** An example *)

Module OidSample.
#[export] Instance sample_oid_env : OidEnv := mkOidEnv true false.

(** An id is assigned and used, then the server crashes. *)
Definition log1 : list wal_record := [XLOG_CHECKPOINT_SHUTDOWN 10000 10000; XLOG_NEXTOID 24576; uses_oid 16384].
Definition world1 : world := mkWorld (mkOids (mkOidVars 24576 0 10000 0) log1) [(16384, 2%nat)] [] None.

Lemma world1_reached : rtc oid_step boot world1.
Proof.
  apply rtc_l with (mkWorld (mkOids (mkOidVars 16385 8191 10000 0) (take 2 log1)) [(16384, 2%nat)] [] None).
  { apply (step_new_oid boot 16384); by vm_compute. }
  apply rtc_l with (mkWorld (mkOids (mkOidVars 16385 8191 10000 0) log1) [(16384, 2%nat)] [] None).
  { apply (step_use_oid (mkWorld (mkOids (mkOidVars 16385 8191 10000 0) (take 2 log1)) [(16384, 2%nat)] [] None) 16384). by left. }
  apply rtc_once. apply (step_crash (mkWorld (mkOids (mkOidVars 16385 8191 10000 0) log1) [(16384, 2%nat)] [] None) log1 0 (w_server world1));
    [done|by vm_compute].
Qed.

End OidSample.
