(* ===== verification/Varsup.v ===== *)
(** * Transaction identifiers ([access/transam/varsup.c])

    The next transaction id is handed out after its pages in the commit log, the subtransaction log
    and the distributed log have been created, and no later than a safe distance before the ids come
    around to the oldest one that is still in use.

    A routine runs while it holds the lock of the counter.  Where it lets go of it, the other sessions
    act ([others]).  Of the messages only the number of ids that are left is kept. *)
From S2P Require Import Prelude Proc DistributedSnapshot Slru DistribLog Clog SubTrans TransAm.

Definition PGPROC_MAX_CACHED_SUBXIDS : nat := 64.
Definition page_extend_limit : Z := 4 * 1024.

Class VarsupEnv := mkVarsupEnv {
  IsBootstrapProcessingMode : bool;
  RecoveryInProgress : bool;
  IsUnderPostmaster : bool;
  Debug_burn_xids : bool;
  xid_stop_limit : Z;
  xid_warn_limit : Z;
  autovacuum_freeze_max_age : Z;
}.

Record VariableCacheData := mkVariableCache {
  nextXid : Z;
  oldestXid : Z;
  xidVacLimit : Z;
  xidWarnLimit : Z;
  xidStopLimit : Z;
  xidWrapLimit : Z;
  oldestXidDB : Z;
}.

(** The ids that a session shows to the others. *)
Record pgxact := mkPgxact { px_xid : Z; px_subxids : list Z; px_overflowed : bool }.

(** [xs_signals]: how often the launcher of the automatic vacuum was called; [xs_warnings]: the
    numbers of ids left, of the warnings. *)
Record xid_server := mkXidServer {
  xs_vars : VariableCacheData;
  xs_clog : clog;
  xs_sub : slru sub_page;
  xs_dlog : dlog;
  xs_proc : pgxact;
  xs_signals : nat;
  xs_warnings : list Z;
}.

Definition set_vars (v : VariableCacheData) (s : xid_server) : xid_server :=
  mkXidServer v (xs_clog s) (xs_sub s) (xs_dlog s) (xs_proc s) (xs_signals s) (xs_warnings s).
Definition set_nextXid (x : Z) (v : VariableCacheData) : VariableCacheData :=
  mkVariableCache x (oldestXid v) (xidVacLimit v) (xidWarnLimit v) (xidStopLimit v) (xidWrapLimit v) (oldestXidDB v).
Definition set_proc (p : pgxact) (s : xid_server) : xid_server :=
  mkXidServer (xs_vars s) (xs_clog s) (xs_sub s) (xs_dlog s) p (xs_signals s) (xs_warnings s).
Definition send_signal (s : xid_server) : xid_server :=
  mkXidServer (xs_vars s) (xs_clog s) (xs_sub s) (xs_dlog s) (xs_proc s) (S (xs_signals s)) (xs_warnings s).
Definition warn_left (n : Z) (s : xid_server) : xid_server :=
  mkXidServer (xs_vars s) (xs_clog s) (xs_sub s) (xs_dlog s) (xs_proc s) (xs_signals s) (xs_warnings s ++ [n]).

Definition on_xs_clog {A} (m : proc clog A) : proc xid_server A := λ s,
  let '(o, d) := m (xs_clog s) in
  (o, mkXidServer (xs_vars s) d (xs_sub s) (xs_dlog s) (xs_proc s) (xs_signals s) (xs_warnings s)).
Definition on_xs_sub {A} (m : proc (slru sub_page) A) : proc xid_server A := λ s,
  let '(o, d) := m (xs_sub s) in
  (o, mkXidServer (xs_vars s) (xs_clog s) d (xs_dlog s) (xs_proc s) (xs_signals s) (xs_warnings s)).
Definition on_xs_dlog {A} (m : proc dlog A) : proc xid_server A := λ s,
  let '(o, d) := m (xs_dlog s) in
  (o, mkXidServer (xs_vars s) (xs_clog s) (xs_sub s) d (xs_proc s) (xs_signals s) (xs_warnings s)).

Section Varsup.
Context {env : TransamEnv} {denv : DlogEnv} {venv : VarsupEnv}.

(** ** Assigning *)

(** The ids up to the last but one of a block of pages are passed over. *)
Definition burn_xids (xx : Z) : Z :=
  let r := xx mod page_extend_limit in
  if (1 <? r) && (r <? page_extend_limit - 1) then u32 (xx + (page_extend_limit - r - 1)) else xx.

Definition store_xid (isSubXact : bool) (xid : Z) (p : pgxact) : pgxact :=
  if negb isSubXact then mkPgxact xid (px_subxids p) (px_overflowed p)
  else if (length (px_subxids p) <? PGPROC_MAX_CACHED_SUBXIDS)%nat
  then mkPgxact (px_xid p) (px_subxids p ++ [xid]) (px_overflowed p)
  else mkPgxact (px_xid p) (px_subxids p) true.

(** What is done once the counter is near the oldest id, without the lock. *)
Definition near_wraparound (xid : Z) (v : VariableCacheData) : proc xid_server unit :=
  (if IsUnderPostmaster && (xid mod 65536 =? 0) then modify send_signal else ret tt);;
  if IsUnderPostmaster && TransactionIdFollowsOrEquals xid (xidStopLimit v) then raise ERROR
  else if TransactionIdFollowsOrEquals xid (xidWarnLimit v) then modify (warn_left (u32 (xidWrapLimit v - xid)))
  else ret tt.

(** Its pages are created, if they are new. *)
Definition extend_logs (xid : Z) : proc xid_server unit :=
  on_xs_clog (ExtendCLOG xid);;
  on_xs_sub (ExtendSUBTRANS xid);;
  on_xs_dlog (DistributedLog_Extend xid).

(** The id is handed out, under the lock. *)
Definition assign_xid (isSubXact : bool) (xid : Z) : proc xid_server Z :=
  extend_logs xid;;
  modify (λ s, set_vars (set_nextXid (TransactionIdAdvance (nextXid (xs_vars s))) (xs_vars s)) s);;
  (if Debug_burn_xids
   then modify (λ s, set_vars (set_nextXid (burn_xids (nextXid (xs_vars s))) (xs_vars s)) s)
   else ret tt);;
  modify (λ s, set_proc (store_xid isSubXact xid (xs_proc s)) s);;
  ret xid.

Definition GetNewTransactionId (others : xid_server → xid_server) (isSubXact : bool) : proc xid_server Z :=
  if IsBootstrapProcessingMode then ret BootstrapTransactionId
  else if RecoveryInProgress then raise ERROR
  else
    s <- get;;
    xid <- (if TransactionIdFollowsOrEquals (nextXid (xs_vars s)) (xidVacLimit (xs_vars s)) then
              near_wraparound (nextXid (xs_vars s)) (xs_vars s);;
              modify others;;
              s <- get;;
              ret (nextXid (xs_vars s))
            else ret (nextXid (xs_vars s)));;
    assign_xid isSubXact xid.

Definition ReadNewTransactionId : proc xid_server Z :=
  s <- get;; ret (nextXid (xs_vars s)).

(** ** Limits *)

Definition wrap_limit (oldest_datfrozenxid : Z) : Z :=
  let x := u32 (oldest_datfrozenxid + Z.shiftr MaxTransactionId 1) in
  if x <? FirstNormalTransactionId then u32 (x + FirstNormalTransactionId) else x.

(** So many ids before another limit. *)
Definition limit_before (limit distance : Z) : Z :=
  let x := u32 (limit - u32 distance) in
  if x <? FirstNormalTransactionId then u32 (x - FirstNormalTransactionId) else x.

Definition vac_limit (oldest_datfrozenxid : Z) : Z :=
  let x := u32 (oldest_datfrozenxid + autovacuum_freeze_max_age) in
  if x <? FirstNormalTransactionId then u32 (x + FirstNormalTransactionId) else x.

Definition SetTransactionIdLimit (oldest_datfrozenxid oldest_datoid : Z) : proc xid_server unit :=
  let xidWrapLimit := wrap_limit oldest_datfrozenxid in
  let xidStopLimit := limit_before xidWrapLimit xid_stop_limit in
  let xidWarnLimit := limit_before xidStopLimit xid_warn_limit in
  let xidVacLimit := vac_limit oldest_datfrozenxid in
  modify (λ s, set_vars (mkVariableCache (nextXid (xs_vars s)) oldest_datfrozenxid xidVacLimit xidWarnLimit
                           xidStopLimit xidWrapLimit oldest_datoid) s);;
  s <- get;;
  let curXid := nextXid (xs_vars s) in
  (if TransactionIdFollowsOrEquals curXid xidVacLimit && IsUnderPostmaster && negb tr_InRecovery
   then modify send_signal else ret tt);;
  if TransactionIdFollowsOrEquals curXid xidWarnLimit && negb tr_InRecovery
  then modify (warn_left (u32 (xidWrapLimit - curXid))) else ret tt.

(** [database_exists]: whether the catalog has the database. *)
Definition ForceTransactionIdLimitUpdate (database_exists : Z → bool) (v : VariableCacheData) : bool :=
  if negb (TransactionIdIsNormal (oldestXid v)) then true
  else if negb (TransactionIdIsValid (xidVacLimit v)) then true
  else if TransactionIdFollowsOrEquals (nextXid v) (xidVacLimit v) then true
  else negb (database_exists (oldestXidDB v)).
End Varsup.
