(* ===== verification/VarsupFacts.v ===== *)
(** * Transaction identifiers: pages and limits

    A new id has its pages in the three logs, and it is not so far from the oldest id in use that the
    order of the ids breaks. *)
From S2P Require Import Prelude Proc DistributedSnapshot Slru SlruFacts SlruStore PagedLog DistribLog DistribLogFacts.
From S2P Require Import Clog ClogFacts SubTrans SubTransFacts TransAm Varsup.

Section VarsupFacts.
Context {env : TransamEnv} {tblk : TransamBlock} {denv : DlogEnv} {dblk : BlockSize} {venv : VarsupEnv}.
Implicit Types (s : xid_server) (x : Z).

(** ** The pages of the distributed log *)

#[global] Instance dlog_paged : Paged dlpage DistributedLogEntry :=
  mkPaged dlpage DistributedLogEntry ENTRIES_PER_PAGE zero_entry
    (λ b i, default zero_entry (b !! i)) (λ b, length b = Z.to_nat ENTRIES_PER_PAGE).

#[global] Instance dlog_laws : PagedLaws dlpage DistributedLogEntry.
Proof.
  pose proof entries_pos. split.
  - unfold per_page, dlog_paged. lia.
  - apply length_replicate.
  - intros i Hi. cbn [fetch dlog_paged]. unfold zero_page, DistributedLogCtl. by rewrite lookup_replicate_2 by done.
Qed.

(** ** Creating the pages of an id *)

Lemma wp_clog_insert r (Q : outcome unit → clog → Prop) d :
  (∀ o d', cl_slru d' = cl_slru d → o = Ret tt ∨ o = PANIC → Q o d') → wp (clog_insert r) Q d.
Proof.
  intros H. unfold clog_insert. apply proc_bind, wp_get. cbn [next].
  destruct (clog_down (cl_inserts d)) as [b|]; [apply proc_bind, wp_modify; cbn [next]; apply wp_raise|apply wp_modify];
    apply H; auto.
Qed.

Lemma wp_insert_dlog r (Q : outcome unit → dlog → Prop) d :
  (∀ o d', dl_slru d' = dl_slru d → o = Ret tt ∨ o = PANIC → Q o d') → wp (XLogInsert r) Q d.
Proof.
  intros H. unfold XLogInsert. apply proc_bind, wp_get. cbn [next].
  destruct (xlog_down (dl_inserts d)) as [b|]; [apply proc_bind, wp_modify; cbn [next]; apply wp_raise|apply wp_modify];
    apply H; auto.
Qed.

Lemma ExtendCLOG_spec x (d : clog) :
  log_ok (cl_slru d) → 0 ≤ x →
  wp (ExtendCLOG x) (λ o d', extended (entry := Z) x (cl_slru d) o (cl_slru d')) d.
Proof.
  intros Hok Hx. unfold ExtendCLOG. rewrite <-negb_orb.
  change (_ || _) with (begins (page := clog_page) (entry := Z) x). destruct (begins x) eqn:Hb; cbn [negb].
  2: { apply proc_ret. by apply extended_idle. }
  change (Clog.TransactionIdToPage x) with (page_of (page := clog_page) (entry := Z) x).
  apply proc_bind, proc_bind, wp_on_clog.
  eapply proc_mono; [apply zero_log; [done|by apply page_of_nonneg]|]. intros o s' Hz.
  destruct o as [i| | |]; cbn [next cl_slru set_cl_slru]; [|eapply zeroed_extended; [done|exact Hz|naive_solver]..].
  apply proc_bind, wp_clog_insert. intros o d' E Ho. cbn [cl_slru set_cl_slru] in E.
  destruct Ho as [->| ->]; cbn [next]; [apply proc_ret; cbn [next]; apply proc_ret|]; rewrite E;
    (eapply zeroed_extended; [done|exact Hz|naive_solver]).
Qed.

Lemma ExtendSUBTRANS_extended x (d : slru sub_page) :
  log_ok d → 0 ≤ x → wp (ExtendSUBTRANS x) (λ o d', extended (entry := SubTransData) x d o d') d.
Proof.
  intros Hok Hx. unfold ExtendSUBTRANS. rewrite <-negb_orb.
  change (_ || _) with (begins (page := sub_page) (entry := SubTransData) x). destruct (begins x) eqn:Hb; cbn [negb].
  2: { apply proc_ret. by apply extended_idle. }
  change (SubTrans.TransactionIdToPage x) with (page_of (page := sub_page) (entry := SubTransData) x).
  apply proc_bind. eapply proc_mono; [apply zero_log; [done|by apply page_of_nonneg]|]. intros o s' Hz.
  destruct o as [i| | |]; cbn [next]; [apply proc_ret|..]; (eapply zeroed_extended; [done|exact Hz|naive_solver]).
Qed.

Lemma DistributedLog_Extend_extended x (d : dlog) :
  IS_QUERY_DISPATCHER = false → log_ok (dl_slru d) → 0 ≤ x →
  wp (DistributedLog_Extend x) (λ o d', extended (entry := DistributedLogEntry) x (dl_slru d) o (dl_slru d')) d.
Proof.
  intros Hqd Hok Hx. unfold DistributedLog_Extend. rewrite Hqd, <-negb_orb.
  change (_ || _) with (begins (page := dlpage) (entry := DistributedLogEntry) x). destruct (begins x) eqn:Hb; cbn [negb].
  2: { apply proc_ret. by apply extended_idle. }
  change (DistribLog.TransactionIdToPage x) with (page_of (page := dlpage) (entry := DistributedLogEntry) x).
  apply proc_bind, proc_bind, wp_on_slru.
  eapply proc_mono; [apply zero_log; [done|by apply page_of_nonneg]|]. intros o s' Hz.
  destruct o as [i| | |]; cbn [next dl_slru set_slru]; [|eapply zeroed_extended; [done|exact Hz|naive_solver]..].
  apply proc_bind, wp_insert_dlog. intros o d' E Ho. cbn [dl_slru set_slru] in E.
  destruct Ho as [->| ->]; cbn [next]; [apply proc_ret; cbn [next]; apply proc_ret|]; rewrite E;
    (eapply zeroed_extended; [done|exact Hz|naive_solver]).
Qed.

(** ** The next id *)

(** The next id has its pages, unless they are still to be created, in each of the three logs; the
    dispatcher has no distributed log. *)
Record xids_ready s x : Prop := mkXidsReady {
  xr_clog_ok : log_ok (cl_slru (xs_clog s));
  xr_clog : ready (cl_slru (xs_clog s)) x;
  xr_sub_ok : log_ok (xs_sub s);
  xr_sub : ready (xs_sub s) x;
  xr_dlog : IS_QUERY_DISPATCHER = false → log_ok (dl_slru (xs_dlog s)) ∧ ready (dl_slru (xs_dlog s)) x;
}.

Definition next_ready s : Prop :=
  FirstNormalTransactionId ≤ nextXid (xs_vars s) < 2 ^ 32 ∧ xids_ready s (nextXid (xs_vars s)).

(** The id has its pages: in progress, without a parent, not a part of a distributed transaction. *)
Definition has_pages s x : Prop :=
  usable (cl_slru (xs_clog s)) x ∧ usable (xs_sub s) x ∧
  (IS_QUERY_DISPATCHER = false → usable (dl_slru (xs_dlog s)) x).

(** The pages have at least as many entries as there are ids that may be passed over. *)
Definition wide_pages : Prop :=
  (page_extend_limit | CLOG_XACTS_PER_PAGE) ∧ (page_extend_limit | SUBTRANS_XACTS_PER_PAGE) ∧
  (page_extend_limit | ENTRIES_PER_PAGE).

Lemma wp_on_xs_clog {A} (m : proc clog A) (Q : outcome A → xid_server → Prop) s :
  wp m (λ o d, Q o (mkXidServer (xs_vars s) d (xs_sub s) (xs_dlog s) (xs_proc s) (xs_signals s) (xs_warnings s))) (xs_clog s) →
  wp (on_xs_clog m) Q s.
Proof. unfold wp, on_xs_clog. by destruct (m (xs_clog s)). Qed.

Lemma wp_on_xs_sub {A} (m : proc (slru sub_page) A) (Q : outcome A → xid_server → Prop) s :
  wp m (λ o d, Q o (mkXidServer (xs_vars s) (xs_clog s) d (xs_dlog s) (xs_proc s) (xs_signals s) (xs_warnings s))) (xs_sub s) →
  wp (on_xs_sub m) Q s.
Proof. unfold wp, on_xs_sub. by destruct (m (xs_sub s)). Qed.

Lemma wp_on_xs_dlog {A} (m : proc dlog A) (Q : outcome A → xid_server → Prop) s :
  wp m (λ o d, Q o (mkXidServer (xs_vars s) (xs_clog s) (xs_sub s) d (xs_proc s) (xs_signals s) (xs_warnings s))) (xs_dlog s) →
  wp (on_xs_dlog m) Q s.
Proof. unfold wp, on_xs_dlog. by destruct (m (xs_dlog s)). Qed.

(** The ids after the one that is handed out. *)
Definition following x : Z := if Debug_burn_xids then burn_xids (TransactionIdAdvance x) else TransactionIdAdvance x.

Lemma advance_range x : 0 ≤ x → FirstNormalTransactionId ≤ TransactionIdAdvance x < 2 ^ 32.
Proof.
  intros Hx. unfold TransactionIdAdvance, u32. pose proof (Z.mod_pos_bound (x + 1) (2 ^ 32) ltac:(lia)).
  unfold FirstNormalTransactionId in *. destruct (Z.ltb_spec ((x + 1) mod 2 ^ 32) 3); lia.
Qed.

Lemma advance_cases x :
  FirstNormalTransactionId ≤ x < 2 ^ 32 →
  (x = MaxTransactionId ∧ TransactionIdAdvance x = FirstNormalTransactionId) ∨
  (x < MaxTransactionId ∧ TransactionIdAdvance x = x + 1).
Proof.
  intros Hx. unfold TransactionIdAdvance, MaxTransactionId, FirstNormalTransactionId in *.
  destruct (decide (x = 4294967295)) as [->|Hne]; [by left|right]. split; [lia|]. unfold u32. rewrite Z.mod_small by lia.
  destruct (Z.ltb_spec (x + 1) 3); lia.
Qed.

(** Passing over ids stays in the block. *)
Lemma burn_block x :
  0 ≤ x < 2 ^ 32 → burn_xids x = x ∨
  (x ≤ burn_xids x < 2 ^ 32 ∧ burn_xids x / page_extend_limit = x / page_extend_limit ∧ 1 < x mod page_extend_limit).
Proof.
  intros Hx. unfold burn_xids. set (r := x mod page_extend_limit).
  destruct ((1 <? r) && (r <? page_extend_limit - 1)) eqn:Hr; [|by left]. right. apply andb_true_iff in Hr as [H1 H2].
  apply Z.ltb_lt in H1, H2. pose proof (Z.div_mod x page_extend_limit ltac:(done)) as E. fold r in E.
  change page_extend_limit with 4096 in *. change (4096 - r - 1) with (4096 - r - 1).
  assert (Hb : x + (4096 - r - 1) < 2 ^ 32) by (change (2 ^ 32) with (4096 * 1048576) in *; lia).
  unfold u32. rewrite Z.mod_small by lia. split_and!; [lia|lia| |lia].
  symmetry. apply (Z.div_unique_pos _ 4096 _ 4095); lia.
Qed.

Section Following.
Context {page entry : Type} {shape : Paged page entry} {ctl : SlruCtl page} {laws : PagedLaws page entry}.

(** The id that follows is on the page of [x], unless its own page is to be created. *)
Lemma following_ready (sl : slru page) x :
  FirstNormalTransactionId ≤ x < 2 ^ 32 → usable sl x →
  Debug_burn_xids = false ∨ ((page_extend_limit | per_page) ∧ x ≠ MaxTransactionId) → ready sl (following x).
Proof using laws.
  intros Hx Hu Hburn. apply (usable_ready sl x); [done|]. unfold following.
  assert (Hadv : begins (TransactionIdAdvance x) = false →
    x ≤ TransactionIdAdvance x ∧ page_of (TransactionIdAdvance x) = page_of x).
  { intros Hb. destruct (advance_cases x Hx) as [[_ E]|[_ E]]; rewrite E in *.
    - exfalso. revert Hb. unfold begins. by rewrite Z.eqb_refl, orb_true_r.
    - split; [lia|]. apply begins_next; [unfold FirstNormalTransactionId in Hx; lia|done]. }
  destruct Debug_burn_xids; [|done]. destruct Hburn as [?|[Hdiv Hmax]]; [done|].
  assert (Ha := advance_range x ltac:(unfold FirstNormalTransactionId in Hx; lia)).
  destruct (burn_block (TransactionIdAdvance x)) as [E|(Hle & Eblock & Hr)]; [unfold FirstNormalTransactionId in Ha; lia|by rewrite E|].
  intros _. destruct Hadv as [H1 H2].
  - destruct (advance_cases x Hx) as [[? _]|[_ E]]; [done|]. apply orb_false_iff. split.
    + apply Z.eqb_neq. intros E0. apply Z.mod_divide in E0; [|pose proof (@per_page_pos page entry _ _ _); lia].
      assert (Hd : (page_extend_limit | TransactionIdAdvance x)) by by transitivity (@per_page page entry _).
      apply Z.mod_divide in Hd; [lia|done].
    + apply Z.eqb_neq. unfold FirstNormalTransactionId in *. lia.
  - split; [lia|]. rewrite <-H2. by apply (same_block page_extend_limit).
Qed.
End Following.

(** ** Handing out an id *)

Definition may_burn x : Prop := Debug_burn_xids = false ∨ (wide_pages ∧ x ≠ MaxTransactionId).

(** The status of an id on another page stays, and that of every id if no page is created. *)
Definition statuses_kept x s s' : Prop :=
  ∀ y, 0 ≤ y → Clog.TransactionIdToPage y ≠ Clog.TransactionIdToPage x ∨ begins (page := clog_page) (entry := Z) x = false →
    entry_at (cl_slru (xs_clog s')) y = entry_at (cl_slru (xs_clog s)) y.

Definition assigned isSubXact s (o : outcome Z) s' : Prop :=
  let x := nextXid (xs_vars s) in
  statuses_kept x s s' ∧
  match o with
  | Ret y => y = x ∧ has_pages s' x ∧ xs_vars s' = set_nextXid (following x) (xs_vars s) ∧
             xs_proc s' = store_xid isSubXact x (xs_proc s) ∧ (may_burn x → next_ready s')
  | _ => next_ready s' ∧ xs_vars s' = xs_vars s ∧ xs_proc s' = xs_proc s
  end.

(** The pages are created one log after the other. *)
Lemma extend_all x s :
  0 ≤ x → xids_ready s x →
  wp (extend_logs x)
    (λ o s', xids_ready s' x ∧ statuses_kept x s s' ∧ xs_vars s' = xs_vars s ∧ xs_proc s' = xs_proc s ∧
       (o = Ret tt → has_pages s' x)) s.
Proof.
  intros Hx [Hc Hcr Hs Hsr Hd].
  apply proc_bind, wp_on_xs_clog. eapply proc_mono; [by apply ExtendCLOG_spec|]. intros o1 d1 He1.
  assert (Hc1 : log_ok (cl_slru d1)) by apply He1. assert (Hr1 := extended_ready x _ o1 _ Hx Hcr He1).
  assert (Hk1 : ∀ s', xs_clog s' = d1 → statuses_kept x s s').
  { intros s' E y Hy [Hp|Hb]; rewrite E; [by apply (ex_other _ _ _ _ He1)|by apply (ex_idle _ _ _ _ He1)]. }
  destruct o1 as [[]| | |]; cbn [next]; [|split_and!; [by split|by apply Hk1|done..]..].
  assert (Hu1 := extended_usable x _ tt _ Hx Hcr He1).
  apply proc_bind, wp_on_xs_sub. eapply proc_mono; [by apply ExtendSUBTRANS_extended|]. intros o2 d2 He2.
  assert (Hs2 : log_ok d2) by apply He2. assert (Hr2 := extended_ready x _ o2 _ Hx Hsr He2).
  destruct o2 as [[]| | |]; cbn [next]; [|split_and!; [by split|by apply Hk1|done..]..].
  assert (Hu2 := extended_usable x _ tt _ Hx Hsr He2).
  apply wp_on_xs_dlog. cbn [xs_dlog]. destruct IS_QUERY_DISPATCHER eqn:Hqd.
  - unfold DistributedLog_Extend. rewrite Hqd. apply proc_ret. split_and!; [|by apply Hk1|done|done|].
    + split; try done. by rewrite Hqd.
    + intros _. split_and!; [done|done|by rewrite Hqd].
  - destruct (Hd eq_refl) as [Hd1 Hdr]. eapply proc_mono; [by apply DistributedLog_Extend_extended|]. intros o3 d3 He3.
    assert (Hd3 : log_ok (dl_slru d3)) by apply He3. assert (Hr3 := extended_ready x _ o3 _ Hx Hdr He3).
    split_and!; [by split|by apply Hk1|done|done|]. intros ->. split; [done|]. split; [done|].
    intros _. by apply (extended_usable x _ tt _ Hx Hdr He3).
Qed.

Lemma assign_xid_spec isSubXact s :
  next_ready s → wp (assign_xid isSubXact (nextXid (xs_vars s))) (assigned isSubXact s) s.
Proof.
  intros [Hn Hr]. set (x := nextXid (xs_vars s)) in *. assert (Hx : 0 ≤ x) by (unfold FirstNormalTransactionId in Hn; lia).
  apply proc_bind. eapply proc_mono; [by apply extend_all|]. intros o s1 (Hr1 & Hk & Ev & Ep & Ho).
  destruct o as [[]| | |]; cbn [next]; [|split; [done|]; split_and!; try done; split; by rewrite Ev..].
  assert (Hp := Ho eq_refl). apply proc_bind, wp_modify. cbn [next].
  assert (Hfin : ∀ v, v = set_nextXid (following x) (xs_vars s) →
    wp (modify (λ s, set_proc (store_xid isSubXact x (xs_proc s)) s);; ret x) (assigned isSubXact s) (set_vars v s1)).
  { intros v ->. apply proc_bind, wp_modify. cbn [next]. apply proc_ret. split; [done|].
    split_and!; [done|done|done|cbn; by rewrite Ep|]. intros Hburn.
    destruct Hp as (Hu1 & Hu2 & Hu3), Hr1 as [Hc1 _ Hs1 _ Hd1].
    assert (Hf : FirstNormalTransactionId ≤ following x < 2 ^ 32).
    { unfold following. assert (Ha := advance_range x Hx). destruct Debug_burn_xids; [|done].
      destruct (burn_block (TransactionIdAdvance x)) as [->|(? & _)]; unfold FirstNormalTransactionId in *; lia. }
    assert (Hb : ∀ k, (wide_pages → (page_extend_limit | k)) →
      Debug_burn_xids = false ∨ ((page_extend_limit | k) ∧ x ≠ MaxTransactionId))
      by (intros k Hk'; destruct Hburn as [?|[? ?]]; auto).
    split; [done|]. split; cbn; [done|apply following_ready; [done|done|by apply Hb; intros (? & _)]|done| |].
    - apply following_ready; [done|done|by apply Hb; intros (_ & ? & _)].
    - intros Hqd. split; [by apply Hd1|]. apply following_ready; [done|by apply Hu3|by apply Hb; intros (_ & _ & ?)]. }
  apply proc_bind. unfold following in Hfin. destruct Debug_burn_xids eqn:Hburn.
  - apply wp_modify. cbn [next]. apply Hfin. cbn. by rewrite Ev.
  - apply proc_ret. cbn [next]. apply Hfin. cbn. by rewrite Ev.
Qed.

(** What the warnings do does not matter to the logs and the counter. *)
Definition only_messages s s' : Prop :=
  xs_vars s' = xs_vars s ∧ xs_clog s' = xs_clog s ∧ xs_sub s' = xs_sub s ∧ xs_dlog s' = xs_dlog s ∧ xs_proc s' = xs_proc s.

Lemma only_messages_ready s s' : only_messages s s' → next_ready s → next_ready s'.
Proof. intros (Ev & Ec & Es & Ed & _) [Hn []]. split; rewrite ?Ev; [done|]. split; by rewrite ?Ec, ?Es, ?Ed. Qed.

Lemma near_wraparound_spec xid v s :
  wp (near_wraparound xid v)
    (λ o s', only_messages s s' ∧
       o = if IsUnderPostmaster && TransactionIdFollowsOrEquals xid (xidStopLimit v) then ERROR else Ret tt) s.
Proof.
  unfold near_wraparound. apply proc_bind.
  assert (Hrest : ∀ s1, only_messages s s1 →
    wp (if IsUnderPostmaster && TransactionIdFollowsOrEquals xid (xidStopLimit v) then raise ERROR
        else if TransactionIdFollowsOrEquals xid (xidWarnLimit v) then modify (warn_left (u32 (xidWrapLimit v - xid)))
        else ret tt)
      (λ o s', only_messages s s' ∧
         o = if IsUnderPostmaster && TransactionIdFollowsOrEquals xid (xidStopLimit v) then ERROR else Ret tt) s1).
  { intros s1 H1. destruct (_ && _); [by apply wp_raise|]. by destruct (TransactionIdFollowsOrEquals xid (xidWarnLimit v)). }
  destruct (IsUnderPostmaster && (xid mod 65536 =? 0)); [apply wp_modify|apply proc_ret]; cbn [next]; by apply Hrest.
Qed.

(** What holds of the id and the counter after the call. *)
Definition handed_out isSubXact s (o : outcome Z) s' : Prop :=
  let undisturbed := TransactionIdFollowsOrEquals (nextXid (xs_vars s)) (xidVacLimit (xs_vars s)) = false in
  match o with
  | Ret x => has_pages s' x ∧ FirstNormalTransactionId ≤ x < 2 ^ 32 ∧ nextXid (xs_vars s') = following x ∧
             (∃ p, xs_proc s' = store_xid isSubXact x p) ∧ (may_burn x → next_ready s') ∧
             (undisturbed → x = nextXid (xs_vars s) ∧ statuses_kept x s s')
  | _ => next_ready s' ∧ (undisturbed → xs_vars s' = xs_vars s ∧ xs_proc s' = xs_proc s)
  end.

(** C17: a transaction id is handed out only when its pages are there: whatever the other sessions do
    while the lock is released, as long as they keep it so, the new id has a page in the commit log
    where it is in progress, one in the subtransaction log where it has no parent, and on a segment
    one in the distributed log, and the counter moves on to the following id, of which, unless the testing
    mode that skips ids is on, the same holds as soon as its own pages are created.  If the counter is
    below the limit from which vacuum is asked for, so that the lock is not released, the id is the one of
    the counter, and if a page cannot be created the counter and what is shown of the session stay as
    they were. *)
Theorem new_xid_has_pages others isSubXact s :
  IsBootstrapProcessingMode = false → (∀ s1, next_ready s1 → next_ready (others s1)) → next_ready s →
  wp (GetNewTransactionId others isSubXact) (handed_out isSubXact s) s.
Proof.
  intros Hboot Hothers Hs. unfold GetNewTransactionId. rewrite Hboot. destruct RecoveryInProgress; [by apply wp_raise|].
  apply proc_bind, wp_get. cbn [next]. apply proc_bind.
  assert (Hassign : ∀ s1, next_ready s1 →
    (TransactionIdFollowsOrEquals (nextXid (xs_vars s)) (xidVacLimit (xs_vars s)) = false → s1 = s) →
    wp (assign_xid isSubXact (nextXid (xs_vars s1))) (handed_out isSubXact s) s1).
  { intros s1 H1 Hsame. eapply proc_mono; [by apply assign_xid_spec|]. intros o s' [Hk Ho]. destruct o as [x| | |].
    - destruct Ho as (-> & Hp & Ev & Epr & Hn).
      split; [done|]. split; [apply H1|]. split_and!; [by rewrite Ev|by exists (xs_proc s1)|done|].
      intros E. by rewrite <-(Hsame E).
    - destruct Ho as (Hn & Ev & Epr). split; [done|]. intros E. rewrite Ev, Epr. by rewrite (Hsame E).
    - destruct Ho as (Hn & Ev & Epr). split; [done|]. intros E. rewrite Ev, Epr. by rewrite (Hsame E).
    - destruct Ho as (Hn & Ev & Epr). split; [done|]. intros E. rewrite Ev, Epr. by rewrite (Hsame E). }
  destruct (TransactionIdFollowsOrEquals (nextXid (xs_vars s)) (xidVacLimit (xs_vars s))) eqn:Hvac; [|apply proc_ret; by apply Hassign].
  apply proc_bind. eapply proc_mono; [apply near_wraparound_spec|]. intros o s1 [Hm ->].
  assert (Hs1 := only_messages_ready s s1 Hm Hs).
  destruct (_ && _); cbn [next]; [split; [done|]; intros E; congruence|]. apply proc_bind, wp_modify. cbn [next].
  apply proc_bind, wp_get. cbn [next]. apply proc_ret. cbn [next]. apply Hassign; [by apply Hothers|done].
Qed.
End VarsupFacts.
