(* ===== verification/VarsupLimits.v ===== *)
(** * Transaction identifiers: wraparound

    The ids are compared modulo [2^32]: an id is before another if it is less than half the ids
    behind it.  A new id must not be so far from the oldest id in use that the order breaks. *)
From S2P Require Import Prelude Proc DistributedSnapshot Slru SlruFacts SlruStore PagedLog DistribLog DistribLogFacts.
From S2P Require Import Clog ClogFacts SubTrans SubTransFacts TransAm Varsup VarsupFacts.

(** How many steps [x] is ahead of [old]. *)
Definition ahead_of (old x : Z) : Z := u32 (x - old).

Definition normal_xid (x : Z) : Prop := FirstNormalTransactionId ≤ x < 2 ^ 32.

Ltac xid_arith :=
  unfold normal_xid, ahead_of, s32, u32, MaxTransactionId, FirstNormalTransactionId in *;
  change (2 ^ 32) with 4294967296 in *; change (2 ^ 31) with 2147483648 in *; Z.to_euclidean_division_equations; lia.

Lemma follows_or_equals_ahead old a b :
  normal_xid a → normal_xid b → ahead_of old a < 2 ^ 31 → ahead_of old b ≤ 2 ^ 31 →
  TransactionIdFollowsOrEquals a b = (ahead_of old b <=? ahead_of old a).
Proof.
  intros Ha Hb Da Db. unfold TransactionIdFollowsOrEquals, TransactionIdIsNormal.
  rewrite (proj2 (Z.leb_le FirstNormalTransactionId a)), (proj2 (Z.leb_le FirstNormalTransactionId b)) by apply Ha || apply Hb.
  cbn [negb orb]. unfold s32. destruct (Z.ltb_spec ((a - b) mod 2 ^ 32) (2 ^ 31)) as [H|H];
    [rewrite (proj2 (Z.leb_le 0 _)) by (apply Z.mod_pos_bound; lia)|
     rewrite (proj2 (Z.leb_gt 0 _)) by (pose proof (Z.mod_pos_bound (a - b) (2 ^ 32)); lia)]; symmetry;
    [apply Z.leb_le|apply Z.leb_gt]; xid_arith.
Qed.

Section Limits.
Context {env : TransamEnv} {denv : DlogEnv} {venv : VarsupEnv}.
Implicit Types (s : xid_server) (x : Z).

Lemma wrap_limit_ahead old :
  normal_xid old → normal_xid (wrap_limit old) ∧ 2 ^ 31 - 1 ≤ ahead_of old (wrap_limit old) ≤ 2 ^ 31 + 2.
Proof.
  intros Ho. unfold wrap_limit. change (Z.shiftr MaxTransactionId 1) with 2147483647.
  destruct (Z.ltb_spec (u32 (old + 2147483647)) FirstNormalTransactionId); xid_arith.
Qed.

Lemma limit_before_ahead old w d :
  normal_xid w → 0 ≤ d → d + 3 ≤ ahead_of old w → ahead_of old w < 2 ^ 32 - 3 →
  normal_xid (limit_before w d) ∧ ahead_of old w - d - 3 ≤ ahead_of old (limit_before w d) ≤ ahead_of old w - d.
Proof.
  intros Hw Hd Hle Hlt. unfold limit_before.
  assert (E : u32 d = d) by xid_arith. rewrite E.
  destruct (Z.ltb_spec (u32 (w - d)) FirstNormalTransactionId); xid_arith.
Qed.

Lemma vac_limit_ahead old :
  normal_xid old → 0 ≤ autovacuum_freeze_max_age < 2 ^ 31 →
  normal_xid (vac_limit old) ∧ autovacuum_freeze_max_age ≤ ahead_of old (vac_limit old) ≤ autovacuum_freeze_max_age + 3.
Proof.
  intros Ho Hf. unfold vac_limit.
  destruct (Z.ltb_spec (u32 (old + autovacuum_freeze_max_age)) FirstNormalTransactionId); xid_arith.
Qed.

(** The limits have been set for the oldest id [old]; the counter may have moved on since. *)
Definition limits_set old s : Prop :=
  ∃ db s0 s1, SetTransactionIdLimit old db s0 = (Ret tt, s1) ∧
    xs_vars s = set_nextXid (nextXid (xs_vars s)) (xs_vars s1).

Lemma SetTransactionIdLimit_vars old db s o s' :
  SetTransactionIdLimit old db s = (o, s') →
  o = Ret tt ∧ xs_vars s' = mkVariableCache (nextXid (xs_vars s)) old (vac_limit old)
    (limit_before (limit_before (wrap_limit old) xid_stop_limit) xid_warn_limit)
    (limit_before (wrap_limit old) xid_stop_limit) (wrap_limit old) db.
Proof.
  intros E. refine (wp_run _ (λ o s', o = Ret tt ∧ xs_vars s' = _) _ _ _ _ E). unfold SetTransactionIdLimit.
  apply proc_bind, wp_modify. cbn [next]. apply proc_bind, wp_get. cbn [next]. apply proc_bind.
  destruct (_ && _); [apply wp_modify|apply proc_ret]; cbn [next]; by destruct (_ && _).
Qed.

Lemma limits_set_values old s :
  limits_set old s →
  xidVacLimit (xs_vars s) = vac_limit old ∧ xidStopLimit (xs_vars s) = limit_before (wrap_limit old) xid_stop_limit ∧
  oldestXid (xs_vars s) = old.
Proof. intros (db & s0 & s1 & E & ->). apply SetTransactionIdLimit_vars in E as [_ ->]. done. Qed.

Lemma assign_xid_value isSubXact xid s : wp (assign_xid isSubXact xid) (λ o _, ∀ x, o = Ret x → x = xid) s.
Proof.
  unfold wp, assign_xid, bind, ret, modify. destruct (extend_logs xid s) as [[[]| | |] s1]; try done.
  destruct Debug_burn_xids; cbn; naive_solver.
Qed.

(** The server stops early enough, and the vacuum is forced before that. *)
Record sane_limits (k : Z) : Prop := mkSaneLimits {
  sl_stop : k + 2 ≤ xid_stop_limit;
  sl_k : 0 ≤ k;
  sl_freeze : 0 ≤ autovacuum_freeze_max_age;
  sl_order : autovacuum_freeze_max_age + xid_stop_limit + 7 ≤ 2 ^ 31;
}.

(** The number of ids from the oldest one to the stop limit. *)
Definition stop_distance old : Z := ahead_of old (limit_before (wrap_limit old) xid_stop_limit).

Lemma sane_distances k old :
  sane_limits k → normal_xid old →
  normal_xid (limit_before (wrap_limit old) xid_stop_limit) ∧ normal_xid (vac_limit old) ∧
  ahead_of old (vac_limit old) ≤ stop_distance old ∧ stop_distance old ≤ 2 ^ 31 + 2 - xid_stop_limit.
Proof.
  intros [Hs Hk Hf Ho] Hold. destruct (wrap_limit_ahead old Hold) as [Hw Dw].
  destruct (vac_limit_ahead old Hold) as [Hv Dv]; [lia|].
  destruct (limit_before_ahead old (wrap_limit old) xid_stop_limit) as [Hl Dl]; [done|lia|lia|lia|].
  unfold stop_distance. split_and!; [done|done|lia|lia].
Qed.

(** C24: no transaction id is handed out that is half the ids or more ahead of the oldest id in use:
    with the limits set for that id and in their intended order, under the postmaster, a new id is
    after the oldest one in the order of the ids, even if other sessions take up to [k] ids between
    the check and the assignment, [k] less than the distance of the stop limit from the end; once the
    counter has reached the stop limit the call fails and leaves the counter as it is. *)
Theorem xid_wrap_safe k others isSubXact old s :
  IsBootstrapProcessingMode = false → IsUnderPostmaster = true → sane_limits k → normal_xid old → limits_set old s →
  normal_xid (nextXid (xs_vars s)) → ahead_of old (nextXid (xs_vars s)) < 2 ^ 31 →
  (∀ s1, xs_vars s1 = xs_vars s → normal_xid (nextXid (xs_vars (others s1))) ∧
     ahead_of (nextXid (xs_vars s)) (nextXid (xs_vars (others s1))) ≤ k) →
  wp (GetNewTransactionId others isSubXact)
    (λ o s', (∀ x, o = Ret x → ahead_of old x < 2 ^ 31 ∧ TransactionIdFollowsOrEquals x old = true) ∧
       (stop_distance old ≤ ahead_of old (nextXid (xs_vars s)) → o = ERROR ∧ xs_vars s' = xs_vars s)) s.
Proof.
  intros Hboot Hpm Hsane Hold Hlim Hn Dn Hothers. destruct (limits_set_values old s Hlim) as (Evac & Estop & _).
  destruct (sane_distances k old Hsane Hold) as (Nstop & Nvac & Dvac & Dstop). pose proof Hsane as [Hs Hk _ _].
  unfold GetNewTransactionId. rewrite Hboot. destruct RecoveryInProgress; [by apply wp_raise|].
  apply proc_bind, wp_get. cbn [next]. set (n := nextXid (xs_vars s)) in *. rewrite Evac.
  assert (Fvac := follows_or_equals_ahead old n (vac_limit old) Hn Nvac Dn).
  assert (Fstop := follows_or_equals_ahead old n (limit_before (wrap_limit old) xid_stop_limit) Hn Nstop Dn).
  fold (stop_distance old) in Fstop.
  assert (Hassign : ∀ x s1, normal_xid x → ahead_of old x < 2 ^ 31 → ahead_of old n < stop_distance old →
    wp (assign_xid isSubXact x) (λ o s', (∀ y, o = Ret y → ahead_of old y < 2 ^ 31 ∧ TransactionIdFollowsOrEquals y old = true) ∧
       (stop_distance old ≤ ahead_of old n → o = ERROR ∧ xs_vars s' = xs_vars s)) s1).
  { intros x s1 Hx Dx Dlt. eapply proc_mono; [apply assign_xid_value|]. intros o s' Ho. split; [|lia].
    intros y Ey. rewrite (Ho y Ey). split; [done|]. rewrite (follows_or_equals_ahead old) by (done || xid_arith).
    apply Z.leb_le. xid_arith. }
  rewrite Fvac by lia. apply proc_bind. destruct (Z.leb_spec (ahead_of old (vac_limit old)) (ahead_of old n)) as [Hge|Hlt].
  - apply proc_bind. eapply proc_mono; [apply near_wraparound_spec|]. intros o s1 [(Ev & _) ->].
    rewrite Hpm, Estop, Fstop by lia. cbn [andb]. destruct (Z.leb_spec (stop_distance old) (ahead_of old n)) as [Hst|Hst]; cbn [next]; [done|].
    apply proc_bind, wp_modify. cbn [next]. apply proc_bind, wp_get. cbn [next]. apply proc_ret. cbn [next].
    destruct (Hothers s1 Ev) as [Hx Dx]. apply Hassign; [done| |done]. revert Dx Hst Dstop Hs Hn Hx Hold. clear. intros. xid_arith.
  - apply proc_ret. cbn [next]. apply Hassign; [done|done|lia].
Qed.
End Limits.

(** ** Passing over ids *)

Section Burn.
Context {env : TransamEnv} {tblk : TransamBlock} {denv : DlogEnv} {dblk : BlockSize} {venv : VarsupEnv}.
Implicit Types (s : xid_server).

Lemma odd_not_begins k : 7 ≤ k ≤ 17 → 4095 mod 2 ^ k ≠ 0.
Proof.
  intros Hk. assert (H : k ∈ seqZ 7 11) by (apply elem_of_seqZ; lia). revert H.
  change (seqZ 7 11) with [7; 8; 9; 10; 11; 12; 13; 14; 15; 16; 17].
  rewrite !elem_of_cons, elem_of_nil. intros H. destruct_or!; subst k; done.
Qed.

(** The last but one id of the first block is the first one on no page. *)
Lemma extend_idle_4095 s : extend_logs 4095 s = (Ret tt, s).
Proof.
  destruct transam_block as (k & Hk & E). destruct block_size as (j & Hj & E'). destruct s as [v c sub d p sg w].
  assert (H1 : 4095 mod CLOG_XACTS_PER_PAGE ≠ 0).
  { unfold CLOG_XACTS_PER_PAGE, CLOG_XACTS_PER_BYTE. rewrite E. change 4 with (2 ^ 2). rewrite <-Z.pow_add_r by lia.
    apply odd_not_begins. lia. }
  assert (H2 : 4095 mod SUBTRANS_XACTS_PER_PAGE ≠ 0).
  { unfold SUBTRANS_XACTS_PER_PAGE. rewrite E. change 8 with (2 ^ 3). rewrite <-Z.pow_sub_r by lia. apply odd_not_begins. lia. }
  assert (H3 : 4095 mod ENTRIES_PER_PAGE ≠ 0).
  { unfold ENTRIES_PER_PAGE. rewrite E'. change 8 with (2 ^ 3). rewrite <-Z.pow_sub_r by lia. apply odd_not_begins. lia. }
  unfold extend_logs, bind, on_xs_clog, on_xs_sub, on_xs_dlog. cbn [xs_clog xs_sub xs_dlog].
  unfold ExtendCLOG, TransactionIdToPgIndex, ExtendSUBTRANS, SubTrans.TransactionIdToEntry, DistributedLog_Extend,
    DistribLog.TransactionIdToEntry, ret.
  rewrite !(proj2 (Z.eqb_neq _ _)) by done. cbn [negb andb]. cbn. by destruct IS_QUERY_DISPATCHER.
Qed.

(** Far from the limits the next id is handed out at once. *)
Lemma GetNewTransactionId_direct others isSubXact s :
  IsBootstrapProcessingMode = false → RecoveryInProgress = false →
  TransactionIdFollowsOrEquals (nextXid (xs_vars s)) (xidVacLimit (xs_vars s)) = false →
  GetNewTransactionId others isSubXact s = assign_xid isSubXact (nextXid (xs_vars s)) s.
Proof.
  intros Hboot Hrec Hv. unfold GetNewTransactionId. rewrite Hboot, Hrec. unfold bind at 1, get.
  unfold bind at 1. by rewrite Hv.
Qed.

Lemma assign_xid_run isSubXact xid s :
  assign_xid isSubXact xid s =
  match extend_logs xid s with
  | (Ret _, s1) => (Ret xid, set_proc (store_xid isSubXact xid (xs_proc s1))
      (set_vars (set_nextXid (following (nextXid (xs_vars s1))) (xs_vars s1)) s1))
  | (ERROR, s1) => (ERROR, s1)
  | (FATAL, s1) => (FATAL, s1)
  | (PANIC, s1) => (PANIC, s1)
  end.
Proof.
  unfold assign_xid, following, bind, modify, ret. destruct (extend_logs xid s) as [[[]| | |] s1]; try done.
  by destruct Debug_burn_xids.
Qed.

Lemma extend_logs_vars xid s : xs_vars (extend_logs xid s).2 = xs_vars s.
Proof.
  unfold extend_logs, bind, on_xs_clog, on_xs_sub, on_xs_dlog.
  destruct (ExtendCLOG xid (xs_clog s)) as [[[]| | |] c]; try done. cbn [xs_sub].
  destruct (ExtendSUBTRANS xid (xs_sub s)) as [[[]| | |] u]; try done. cbn [xs_dlog].
  by destruct (DistributedLog_Extend xid (xs_dlog s)) as [[[]| | |] d].
Qed.

(** When ids are passed over for testing, the first id after the ids have come around is passed
    over too: after the last id the counter is set to 4095, that id is handed out although no page
    is created for it in any log, and the first page of the logs is not created any more. *)
Lemma xid_burn_skips_page others isSubXact s s1 x :
  IsBootstrapProcessingMode = false → RecoveryInProgress = false → Debug_burn_xids = true →
  nextXid (xs_vars s) = MaxTransactionId →
  TransactionIdFollowsOrEquals MaxTransactionId (xidVacLimit (xs_vars s)) = false →
  TransactionIdFollowsOrEquals 4095 (xidVacLimit (xs_vars s)) = false →
  GetNewTransactionId others isSubXact s = (Ret x, s1) →
  x = MaxTransactionId ∧ nextXid (xs_vars s1) = 4095 ∧
  ∃ s2, GetNewTransactionId others isSubXact s1 = (Ret 4095, s2) ∧
    xs_clog s2 = xs_clog s1 ∧ xs_sub s2 = xs_sub s1 ∧ xs_dlog s2 = xs_dlog s1.
Proof.
  intros Hboot Hrec Hburn Hn Hv1 Hv2 E. rewrite GetNewTransactionId_direct, assign_xid_run in E by by rewrite ?Hn.
  pose proof (extend_logs_vars (nextXid (xs_vars s)) s) as Hvars. rewrite Hn in E, Hvars.
  destruct (extend_logs MaxTransactionId s) as [[[]| | |] s0]; simplify_eq. cbn [snd] in Hvars.
  assert (Ef : following (nextXid (xs_vars s0)) = 4095) by (unfold following; by rewrite Hburn, Hvars, Hn).
  rewrite Ef. set (s1 := set_proc _ _).
  assert (En : nextXid (xs_vars s1) = 4095) by done.
  assert (Ev : xidVacLimit (xs_vars s1) = xidVacLimit (xs_vars s)) by (cbn; by rewrite Hvars).
  split_and!; [done|done|]. rewrite GetNewTransactionId_direct, assign_xid_run by by rewrite ?En, ?Ev.
  rewrite En, extend_idle_4095. eexists. split; [reflexivity|]. done.
Qed.
End Burn.

(** ** An example *)

Module XidSample.
#[export] Instance sample_env : TransamEnv := mkTransamEnv 1024 16384 (λ _, IoDone) (λ _, IoDone) false false (λ _, None).
#[export] Instance sample_tblk : TransamBlock.
Proof. exists 10. split; [lia|reflexivity]. Qed.
#[export] Instance sample_denv : DlogEnv := mkDlogEnv 1024 (λ _, IoDone) false false false (λ _, None).
#[export] Instance sample_dblk : BlockSize.
Proof. exists 10. split; [lia|reflexivity]. Qed.

(** Normal operation, and operation with ids passed over. *)
Definition sample_venv (burn : bool) : VarsupEnv :=
  mkVarsupEnv false false true burn 100000000 500000000 200000000.
#[export] Instance sample_normal : VarsupEnv := sample_venv false.

(** A new cluster with empty logs. *)
Definition server_at (x : Z) : xid_server :=
  mkXidServer (mkVariableCache x 3 200000003 1547483650 2047483650 2147483650 1)
    (CLOGShmemInit ∅ 0 [] 0) (SUBTRANSShmemInit ∅ 0) (DistributedLog_ShmemInit ∅ 0 [] 0)
    (mkPgxact 0 [] false) 0 [].

Lemma empty_log {page entry} `{PagedLaws page entry} n latest k :
  (2 ≤ n)%nat → log_ok (SimpleLruInit n latest ∅ k).
Proof. intros Hn. apply init_log; [done|]. intros p b _. unfold on_disk. by rewrite lookup_empty. Qed.

Lemma server_ready : next_ready (server_at 3).
Proof.
  split; [by vm_compute|]. split.
  - apply empty_log. vm_compute. lia.
  - intros Hb. by vm_compute in Hb.
  - apply empty_log. vm_compute. lia.
  - intros Hb. by vm_compute in Hb.
  - intros _. split; [apply empty_log; vm_compute; lia|]. intros Hb. by vm_compute in Hb.
Qed.

Lemma new_xid_has_pages_witness :
  handed_out false (server_at 3) (GetNewTransactionId (λ s, s) false (server_at 3)).1
    (GetNewTransactionId (λ s, s) false (server_at 3)).2.
Proof.
  apply (@new_xid_has_pages sample_env sample_tblk sample_denv sample_dblk sample_normal (λ s, s) false (server_at 3)).
  - reflexivity.
  - intros s1 H1. exact H1.
  - exact server_ready.
Defined.

Lemma sample_limits : limits_set 3 (server_at 3).
Proof.
  destruct (SetTransactionIdLimit 3 1 (server_at 3)) as [o s1] eqn:E. pose proof E as Ev.
  apply SetTransactionIdLimit_vars in Ev as [-> Ev]. exists 1, (server_at 3), s1. split; [exact E|]. rewrite Ev.
  vm_compute. reflexivity.
Qed.

Lemma xid_wrap_safe_witness :
  wp (GetNewTransactionId (λ s, s) false)
    (λ o s', ∀ x, o = Ret x → ahead_of 3 x < 2 ^ 31 ∧ TransactionIdFollowsOrEquals x 3 = true) (server_at 3).
Proof.
  refine (proc_mono _ _ _ _
    (@xid_wrap_safe sample_env sample_denv sample_normal 0 (λ s, s) false 3 (server_at 3) _ _ _ _ _ _ _ _) _).
  - reflexivity.
  - reflexivity.
  - split; vm_compute; discriminate.
  - split; vm_compute; [discriminate|reflexivity].
  - exact sample_limits.
  - split; vm_compute; [discriminate|reflexivity].
  - vm_compute. reflexivity.
  - intros s1 E. rewrite E. split; [split|]; vm_compute; (discriminate || reflexivity).
  - intros o s' H. exact (proj1 H).
Defined.

End XidSample.
