(* ===== verification/Htup.v ===== *)
(** * Headers of heap tuples ([access/htup_details.h])

    The fields of a row version's header that decide its visibility, the bits of its two mask words,
    and the macros that read and set them.  The command id and the id of an old-style [VACUUM FULL]
    share one field. *)
From S2P Require Import Prelude DistributedSnapshot Clog.

Record HeapTupleHeader := mkHeader {
  t_xmin : Z;
  t_xmax : Z;
  t_field3 : Z;
  t_infomask2 : Z;
  t_infomask : Z;
}.

#[global] Instance HeapTupleHeader_eq_dec : EqDecision HeapTupleHeader.
Proof. solve_decision. Defined.

(** ** The bits of [t_infomask] *)

Definition HEAP_XMAX_KEYSHR_LOCK : Z := 0x0010.
Definition HEAP_COMBOCID : Z := 0x0020.
Definition HEAP_XMAX_EXCL_LOCK : Z := 0x0040.
Definition HEAP_XMAX_LOCK_ONLY : Z := 0x0080.
Definition HEAP_XMAX_SHR_LOCK : Z := Z.lor HEAP_XMAX_EXCL_LOCK HEAP_XMAX_KEYSHR_LOCK.
Definition HEAP_LOCK_MASK : Z := Z.lor (Z.lor HEAP_XMAX_SHR_LOCK HEAP_XMAX_EXCL_LOCK) HEAP_XMAX_KEYSHR_LOCK.
Definition HEAP_XMIN_COMMITTED : Z := 0x0100.
Definition HEAP_XMIN_INVALID : Z := 0x0200.
Definition HEAP_XMIN_FROZEN : Z := Z.lor HEAP_XMIN_COMMITTED HEAP_XMIN_INVALID.
Definition HEAP_XMAX_COMMITTED : Z := 0x0400.
Definition HEAP_XMAX_INVALID : Z := 0x0800.
Definition HEAP_XMAX_IS_MULTI : Z := 0x1000.
Definition HEAP_MOVED_OFF : Z := 0x4000.
Definition HEAP_MOVED_IN : Z := 0x8000.
Definition HEAP_MOVED : Z := Z.lor HEAP_MOVED_OFF HEAP_MOVED_IN.

(** ** The bits of [t_infomask2] *)

Definition HEAP_XMIN_DISTRIBUTED_SNAPSHOT_IGNORE : Z := 0x0800.
Definition HEAP_XMAX_DISTRIBUTED_SNAPSHOT_IGNORE : Z := 0x1000.

(** [mask & bits] as a condition. *)
Definition has (mask bits : Z) : bool := negb (Z.land mask bits =? 0).

Definition HEAP_XMAX_IS_LOCKED_ONLY (infomask : Z) : bool :=
  has infomask HEAP_XMAX_LOCK_ONLY ||
  (Z.land infomask (Z.lor HEAP_XMAX_IS_MULTI HEAP_LOCK_MASK) =? HEAP_XMAX_EXCL_LOCK).

Definition HEAP_LOCKED_UPGRADED (infomask : Z) : bool :=
  has infomask HEAP_XMAX_IS_MULTI && has infomask HEAP_XMAX_LOCK_ONLY &&
  (Z.land infomask (Z.lor HEAP_XMAX_EXCL_LOCK HEAP_XMAX_KEYSHR_LOCK) =? 0).

(** ** Reading and setting *)

Definition HeapTupleHeaderGetRawXmin (tup : HeapTupleHeader) : Z := t_xmin tup.
Definition HeapTupleHeaderGetRawXmax (tup : HeapTupleHeader) : Z := t_xmax tup.
Definition HeapTupleHeaderGetRawCommandId (tup : HeapTupleHeader) : Z := t_field3 tup.

Definition HeapTupleHeaderXminCommitted (tup : HeapTupleHeader) : bool := has (t_infomask tup) HEAP_XMIN_COMMITTED.
Definition HeapTupleHeaderXminInvalid (tup : HeapTupleHeader) : bool :=
  Z.land (t_infomask tup) (Z.lor HEAP_XMIN_COMMITTED HEAP_XMIN_INVALID) =? HEAP_XMIN_INVALID.
Definition HeapTupleHeaderXminFrozen (tup : HeapTupleHeader) : bool :=
  Z.land (t_infomask tup) HEAP_XMIN_FROZEN =? HEAP_XMIN_FROZEN.

Definition HeapTupleHeaderGetXmin (tup : HeapTupleHeader) : Z :=
  if HeapTupleHeaderXminFrozen tup then FrozenTransactionId else HeapTupleHeaderGetRawXmin tup.

Definition HeapTupleHeaderGetXvac (tup : HeapTupleHeader) : Z :=
  if has (t_infomask tup) HEAP_MOVED then t_field3 tup else InvalidTransactionId.

Definition HeapTupleHeaderSetCmin (cid : Z) (tup : HeapTupleHeader) : HeapTupleHeader :=
  mkHeader (t_xmin tup) (t_xmax tup) cid (t_infomask2 tup) (Z.ldiff (t_infomask tup) HEAP_COMBOCID).

Definition HeapTupleHeaderSetCmax (cid : Z) (iscombo : bool) (tup : HeapTupleHeader) : HeapTupleHeader :=
  mkHeader (t_xmin tup) (t_xmax tup) cid (t_infomask2 tup)
    (if iscombo then Z.lor (t_infomask tup) HEAP_COMBOCID else Z.ldiff (t_infomask tup) HEAP_COMBOCID).

(** Setting bits of the mask words. *)
Definition set_infomask (bits : Z) (tup : HeapTupleHeader) : HeapTupleHeader :=
  mkHeader (t_xmin tup) (t_xmax tup) (t_field3 tup) (t_infomask2 tup) (Z.lor (t_infomask tup) bits).
Definition set_infomask2 (bits : Z) (tup : HeapTupleHeader) : HeapTupleHeader :=
  mkHeader (t_xmin tup) (t_xmax tup) (t_field3 tup) (Z.lor (t_infomask2 tup) bits) (t_infomask tup).

(** ** Facts about masks *)

(** Bits outside of [bits] stay. *)
Lemma land_set_other mask bits other : Z.land bits other = 0 → Z.land (Z.lor mask bits) other = Z.land mask other.
Proof. intros H. by rewrite Z.land_lor_distr_l, H, Z.lor_0_r. Qed.

Lemma has_set_other mask bits other : Z.land bits other = 0 → has (Z.lor mask bits) other = has mask other.
Proof. intros H. unfold has. by rewrite land_set_other. Qed.

Lemma has_set mask bits : bits ≠ 0 → has (Z.lor mask bits) bits = true.
Proof.
  intros H. unfold has. assert (Z.land (Z.lor mask bits) bits = bits) as ->; [|by apply negb_true_iff, Z.eqb_neq].
  apply Z.bits_inj'. intros i _. rewrite Z.land_spec, Z.lor_spec. by destruct (Z.testbit mask i), (Z.testbit bits i).
Qed.

(** A single bit of a mask. *)
Lemma land_pow2 mask k : 0 ≤ k → Z.land mask (2 ^ k) = if Z.testbit mask k then 2 ^ k else 0.
Proof.
  intros Hk. apply Z.bits_inj'. intros i Hi. rewrite Z.land_spec, Z.pow2_bits_eqb by done.
  destruct (Z.eqb_spec k i) as [->|Hne].
  - rewrite andb_true_r. destruct (Z.testbit mask i); [by rewrite Z.pow2_bits_true|by rewrite Z.bits_0].
  - rewrite andb_false_r. destruct (Z.testbit mask k); [by rewrite Z.pow2_bits_false|by rewrite Z.bits_0].
Qed.

Lemma has_pow2 mask k : 0 ≤ k → has mask (2 ^ k) = Z.testbit mask k.
Proof.
  intros Hk. unfold has. rewrite land_pow2 by done. destruct (Z.testbit mask k); [|done].
  apply negb_true_iff, Z.eqb_neq. lia.
Qed.

(** The four states of the two bits of the inserting transaction. *)
Lemma xmin_bits mask :
  Z.land mask HEAP_XMIN_FROZEN =
    Z.lor (if has mask HEAP_XMIN_COMMITTED then HEAP_XMIN_COMMITTED else 0)
          (if has mask HEAP_XMIN_INVALID then HEAP_XMIN_INVALID else 0).
Proof.
  unfold HEAP_XMIN_FROZEN. rewrite Z.land_lor_distr_r. change HEAP_XMIN_COMMITTED with (2 ^ 8).
  change HEAP_XMIN_INVALID with (2 ^ 9). by rewrite !has_pow2, !land_pow2.
Qed.

Lemma xmin_invalid_bits tup :
  HeapTupleHeaderXminInvalid tup = negb (has (t_infomask tup) HEAP_XMIN_COMMITTED) && has (t_infomask tup) HEAP_XMIN_INVALID.
Proof.
  unfold HeapTupleHeaderXminInvalid. fold HEAP_XMIN_FROZEN. rewrite (xmin_bits (t_infomask tup)). by destruct (has _ _), (has _ _).
Qed.

Lemma xmin_frozen_bits tup :
  HeapTupleHeaderXminFrozen tup = has (t_infomask tup) HEAP_XMIN_COMMITTED && has (t_infomask tup) HEAP_XMIN_INVALID.
Proof.
  unfold HeapTupleHeaderXminFrozen. rewrite (xmin_bits (t_infomask tup)). by destruct (has _ _), (has _ _).
Qed.

Lemma has_clear mask bits : has (Z.ldiff mask bits) bits = false.
Proof.
  unfold has. assert (Z.land (Z.ldiff mask bits) bits = 0) as ->; [|done].
  apply Z.bits_inj'. intros i _. rewrite Z.land_spec, Z.ldiff_spec, Z.bits_0. by destruct (Z.testbit mask i), (Z.testbit bits i).
Qed.

Lemma has_lor mask a b : has mask (Z.lor a b) = has mask a || has mask b.
Proof.
  unfold has. rewrite Z.land_lor_distr_r, <-negb_andb. f_equal. apply eq_true_iff_eq.
  by rewrite andb_true_iff, !Z.eqb_eq, Z.lor_eq_0_iff.
Qed.

Lemma xvac_off tup : has (t_infomask tup) HEAP_MOVED_OFF = true → HeapTupleHeaderGetXvac tup = t_field3 tup.
Proof. intros H. unfold HeapTupleHeaderGetXvac, HEAP_MOVED. by rewrite has_lor, H. Qed.

Lemma xvac_in tup : has (t_infomask tup) HEAP_MOVED_IN = true → HeapTupleHeaderGetXvac tup = t_field3 tup.
Proof. intros H. unfold HeapTupleHeaderGetXvac, HEAP_MOVED. by rewrite has_lor, H, orb_true_r. Qed.
