(* ===== verification/ComboCid.v ===== *)
(** * Combo command ids ([utils/time/combocid.c])

    A row version that one transaction inserts and deletes has room for one command id only: it holds
    a combo command id, the index of a pair of them in an array of the process.  A hash table finds the
    combo id of a pair again.  The writer of a session on a segment also appends each new pair to a
    file, since the readers of the session meet the same rows; a reader has a copy of the beginning
    of the array, and for the rest reads the file, remembering what it found.

    The state is that of one process; the file and its count are shared.  An answer of the file
    system is [io_ok n] for the [n]th request; after a write that failed the file may hold a part of
    an entry, so that what is read there is anything ([torn_entry]).  Assertions are left out. *)
From S2P Require Import Prelude Proc Dtm Htup.

Record ComboCidKeyData := mkKey { k_cmin : Z; k_cmax : Z; k_xmin : Z }.

#[global] Instance ComboCidKeyData_eq_dec : EqDecision ComboCidKeyData.
Proof. solve_decision. Defined.
#[global] Instance ComboCidKeyData_countable : Countable ComboCidKeyData.
Proof. refine (inj_countable' (λ k, (k_cmin k, k_cmax k, k_xmin k)) (λ '(a, b, c), mkKey a b c) _). by intros []. Defined.

Record ComboCidEntryData := mkEntry { e_key : ComboCidKeyData; e_combocid : Z }.

Record readerComboCidKeyData := mkReaderKey { session : Z; writer_pid : Z; r_xmin : Z; r_combocid : Z }.

#[global] Instance readerComboCidKeyData_eq_dec : EqDecision readerComboCidKeyData.
Proof. solve_decision. Defined.
#[global] Instance readerComboCidKeyData_countable : Countable readerComboCidKeyData.
Proof.
  refine (inj_countable' (λ k, (session k, writer_pid k, r_xmin k, r_combocid k)) (λ '(a, b, c, d), mkReaderKey a b c d) _).
  by intros [].
Defined.

(** The file of a writer, and the number of entries that its readers may read
    ([MyProc->combocid_map_count]). *)
Record combo_file := mkFile { file_entries : list ComboCidEntryData; file_torn : bool; combocid_map_count : Z }.

(** [comboCids]: the cells of the allocated array, [None] where nothing was stored;
    [combocid_map]: whether the process has the file open; [requests]: requests made to the file
    system. *)
Record combo := mkCombo {
  comboHash : option (gmap ComboCidKeyData Z);
  comboCids : list (option ComboCidKeyData);
  usedComboCids : Z;
  sizeComboCids : Z;
  readerComboHash : option (gmap readerComboCidKeyData (Z * Z));
  combocid_map : bool;
  shared_file : combo_file;
  requests : nat;
}.

Class ComboEnv := mkComboEnv {
  cc_role : GpRoleValue;
  Gp_is_writer : bool;
  gp_session_id : Z;
  lockHolderProcPtr : option Z;
  io_ok : nat → bool;
  torn_entry : nat → ComboCidEntryData;
}.

Definition CCID_ARRAY_SIZE : Z := 100.
Definition MaxAllocSize : Z := 0x3fffffff.
Definition sizeof_ComboCidKeyData : Z := 12.

Section ComboCid.
Context {env : ComboEnv}.

(** ** The state *)

Definition with_array (a : list (option ComboCidKeyData)) (used size : Z) (s : combo) : combo :=
  mkCombo (comboHash s) a used size (readerComboHash s) (combocid_map s) (shared_file s) (requests s).
Definition with_hash (h : gmap ComboCidKeyData Z) (s : combo) : combo :=
  mkCombo (Some h) (comboCids s) (usedComboCids s) (sizeComboCids s) (readerComboHash s) (combocid_map s) (shared_file s)
    (requests s).
Definition with_reader_hash (h : gmap readerComboCidKeyData (Z * Z)) (s : combo) : combo :=
  mkCombo (comboHash s) (comboCids s) (usedComboCids s) (sizeComboCids s) (Some h) (combocid_map s) (shared_file s)
    (requests s).
Definition with_file (f : combo_file) (s : combo) : combo :=
  mkCombo (comboHash s) (comboCids s) (usedComboCids s) (sizeComboCids s) (readerComboHash s) (combocid_map s) f (requests s).
Definition with_map (s : combo) : combo :=
  mkCombo (comboHash s) (comboCids s) (usedComboCids s) (sizeComboCids s) (readerComboHash s) true (shared_file s) (requests s).

(** A request to the file system: whether it succeeds. *)
Definition request : proc combo bool := λ s,
  (Ret (io_ok (requests s)),
   mkCombo (comboHash s) (comboCids s) (usedComboCids s) (sizeComboCids s) (readerComboHash s) (combocid_map s)
     (shared_file s) (S (requests s))).

(** ** The file *)

(** [BufFileWrite] and [BufFileFlush] at the end of the file. *)
Definition append_entry (entry : ComboCidEntryData) : proc combo unit :=
  ok <- request;;
  s <- get;;
  let f := shared_file s in
  if (ok : bool) then modify (with_file (mkFile (file_entries f ++ [entry]) (file_torn f) (combocid_map_count f)))
  else modify (with_file (mkFile (file_entries f) true (combocid_map_count f)));; raise ERROR.

Definition dumpSharedComboCommandId (xmin cmin cmax combocid : Z) : proc combo unit :=
  s <- get;;
  (if combocid_map s then ret tt
   else
     modify (λ s, with_file (mkFile (file_entries (shared_file s)) (file_torn (shared_file s)) 0) s);;
     ok <- request;;
     if (ok : bool) then modify (λ s, with_map (with_file (mkFile [] false (combocid_map_count (shared_file s))) s))
     else raise ERROR);;
  append_entry (mkEntry (mkKey cmin cmax xmin) combocid);;
  modify (λ s, with_file (mkFile (file_entries (shared_file s)) (file_torn (shared_file s))
                            (u32 (combocid_map_count (shared_file s) + 1))) s).

(** The entry at a position of the file; there is none behind the end. *)
Definition read_entry (i : nat) (f : combo_file) : option ComboCidEntryData :=
  if file_torn f then Some (torn_entry i) else file_entries f !! i.

(** The loop over the file from position [i], [n] entries; [found] is the pair of [combocid]. *)
Fixpoint load_entries (n i : nat) (pid xmin combocid : Z) (found : option (Z * Z)) : proc combo (option (Z * Z)) :=
  match n with
  | O => ret found
  | S n =>
      ok <- request;;
      s <- get;;
      match (if (ok : bool) then read_entry i (shared_file s) else None) with
      | None => raise ERROR
      | Some entry =>
          if k_xmin (e_key entry) =? xmin then
            let h := default ∅ (readerComboHash s) in
            let key := mkReaderKey gp_session_id pid (k_xmin (e_key entry)) (e_combocid entry) in
            let cids := (k_cmin (e_key entry), k_cmax (e_key entry)) in
            modify (with_reader_hash (match h !! key with Some _ => h | None => <[key := cids]> h end));;
            load_entries n (S i) pid xmin combocid (if e_combocid entry =? combocid then Some cids else found)
          else load_entries n (S i) pid xmin combocid found
      end
  end.

Definition loadSharedComboCommandId (xmin combocid : Z) : proc combo (Z * Z) :=
  match lockHolderProcPtr with
  | None => raise ERROR
  | Some pid =>
      s <- get;;
      (if combocid_map s then ret tt
       else ok <- request;; if (ok : bool) then modify with_map else raise ERROR);;
      seek <- request;;
      if negb seek then raise ERROR
      else
        s <- get;;
        found <- load_entries (Z.to_nat (combocid_map_count (shared_file s))) 0 pid xmin combocid None;;
        match found with Some cids => ret cids | None => raise ERROR end
  end.

(** ** From combo ids to command ids *)

Definition getSharedComboCidEntry (xmin combocid : Z) : proc combo (Z * Z) :=
  match lockHolderProcPtr with
  | None => raise ERROR
  | Some pid =>
      modify (λ s, match readerComboHash s with Some _ => s | None => with_reader_hash ∅ s end);;
      s <- get;;
      match default ∅ (readerComboHash s) !! mkReaderKey gp_session_id pid xmin combocid with
      | Some cids => ret cids
      | None => loadSharedComboCommandId xmin combocid
      end
  end.

(** [comboCids[combocid]], read inside the used part only. *)
Definition real_pair (xmin combocid : Z) : proc combo (Z * Z) :=
  s <- get;;
  if u32 (usedComboCids s) <=? combocid then
    if Gp_is_writer then raise ERROR else getSharedComboCidEntry xmin combocid
  else
    match comboCids s !! Z.to_nat combocid with
    | Some (Some k) => ret (k_cmin k, k_cmax k)
    | _ => raise PANIC
    end.

Definition GetRealCmin (xmin combocid : Z) : proc combo Z := cids <- real_pair xmin combocid;; ret cids.1.
Definition GetRealCmax (xmin combocid : Z) : proc combo Z := cids <- real_pair xmin combocid;; ret cids.2.

Definition HeapTupleHeaderGetCmin (tup : HeapTupleHeader) : proc combo Z :=
  let cid := HeapTupleHeaderGetRawCommandId tup in
  if has (t_infomask tup) HEAP_COMBOCID then GetRealCmin (HeapTupleHeaderGetXmin tup) cid else ret cid.

Definition HeapTupleHeaderGetCmax (tup : HeapTupleHeader) : proc combo Z :=
  let cid := HeapTupleHeaderGetRawCommandId tup in
  if has (t_infomask tup) HEAP_COMBOCID then GetRealCmax (HeapTupleHeaderGetXmin tup) cid else ret cid.

(** ** New combo ids *)

(** [repalloc] of the array to twice its size; the new cells hold nothing yet. *)
Definition grow_array : proc combo unit :=
  s <- get;;
  if sizeComboCids s <=? usedComboCids s then
    let newsize := sizeComboCids s * 2 in
    if MaxAllocSize <? sizeof_ComboCidKeyData * newsize then raise ERROR
    else modify (with_array (comboCids s ++ replicate (Z.to_nat (newsize - sizeComboCids s)) None) (usedComboCids s) newsize)
  else ret tt.

(** [hash_search] enters the key before the second look at the size of the array, which never fails after
    the first. *)
Definition GetComboCommandId (xmin cmin cmax : Z) : proc combo Z :=
  if bool_decide (cc_role = GP_ROLE_EXECUTE) && negb Gp_is_writer then raise ERROR
  else
    s <- get;;
    (match comboHash s with
     | None =>
         modify (with_array (replicate (Z.to_nat CCID_ARRAY_SIZE) None) 0 CCID_ARRAY_SIZE);;
         modify (with_hash ∅)
     | Some _ => ret tt
     end);;
    grow_array;;
    s <- get;;
    let key := mkKey cmin cmax xmin in
    let h := default ∅ (comboHash s) in
    match h !! key with
    | Some combocid => ret combocid
    | None =>
        grow_array;;
        s <- get;;
        let combocid := usedComboCids s in
        modify (with_array (<[Z.to_nat combocid := Some key]> (comboCids s)) (combocid + 1) (sizeComboCids s));;
        modify (with_hash (<[key := combocid]> h));;
        if bool_decide (cc_role = GP_ROLE_UTILITY) then ret combocid
        else dumpSharedComboCommandId xmin cmin cmax combocid;; ret combocid
    end.

(** The command id to store in a row that is deleted, and whether it is a combo id. *)
Definition HeapTupleHeaderAdjustCmax (TransactionIdIsCurrentTransactionId : Z → bool) (tup : HeapTupleHeader) (cmax : Z) :
    proc combo (Z * bool) :=
  if negb (HeapTupleHeaderXminCommitted tup) && TransactionIdIsCurrentTransactionId (HeapTupleHeaderGetRawXmin tup) then
    cmin <- HeapTupleHeaderGetCmin tup;;
    cmax <- GetComboCommandId (HeapTupleHeaderGetXmin tup) cmin cmax;;
    ret (cmax, true)
  else ret (cmax, false).

Definition AtEOXact_ComboCid (s : combo) : combo :=
  mkCombo None [] 0 0 None (combocid_map s) (shared_file s) (requests s).
End ComboCid.
