(* ===== verification/ComboCidFacts.v ===== *)
(** * Combo command ids: what a row was given is what its readers read

    The invariant of a writer: array and hash table are inverse to each other, and what the file says
    about the transaction's own rows is what the array says.  A reader agrees with the writer as far
    as its copy of the array and its table of remembered pairs go.  Rows keep their two command ids
    for the writer and for every reader, over any number of deletions and transactions. *)
From S2P Require Import Prelude Proc Dtm DistributedSnapshot Clog Htup ComboCid.

(** A request was made. *)
Definition asked (s : combo) : combo :=
  mkCombo (comboHash s) (comboCids s) (usedComboCids s) (sizeComboCids s) (readerComboHash s) (combocid_map s)
    (shared_file s) (S (requests s)).

Lemma wp_request {env : ComboEnv} (Q : outcome bool → combo → Prop) s :
  Q (Ret (io_ok (requests s))) (asked s) → wp request Q s.
Proof. done. Qed.

(** One step of a routine. *)
Ltac cstep := lazymatch goal with
  | |- wp (bind _ _) _ _ => apply proc_bind
  | |- wp get _ _ => apply wp_get; cbn [next]
  | |- wp (modify _) _ _ => apply wp_modify; cbn [next]
  | |- wp (ret _) _ _ => apply proc_ret; cbn [next]
  | |- wp request _ _ => apply wp_request; cbn [next]
  | |- wp (raise _) _ _ => apply wp_raise; cbn [next]
  end.
Ltac csteps := repeat cstep.

(** Sequences associate. *)
Lemma proc_assoc {S A B C} (m : proc S A) (f : A → proc S B) (g : B → proc S C) Q s :
  wp (bind (bind m f) g) Q s → wp (bind m (λ x, bind (f x) g)) Q s.
Proof. unfold wp, bind. by destruct (m s) as [[] s']. Qed.

Section Writer.
Context {env : ComboEnv}.
Implicit Types (s w : combo) (k : ComboCidKeyData) (c : Z) (h : gmap ComboCidKeyData Z).

(** The pair behind a combo id. *)
Definition cell s c : option ComboCidKeyData :=
  if (0 <=? c) && (c <? usedComboCids s) then mjoin (comboCids s !! Z.to_nat c) else None.

Record array_ok s h : Prop := {
  ao_size : Z.of_nat (length (comboCids s)) = sizeComboCids s;
  ao_used : 0 ≤ usedComboCids s ≤ sizeComboCids s;
  ao_alloc : 0 < sizeComboCids s ∧ sizeof_ComboCidKeyData * sizeComboCids s ≤ MaxAllocSize;
  ao_filled : ∀ c, 0 ≤ c < usedComboCids s → is_Some (cell s c);
  ao_hash : ∀ k c, h !! k = Some c ↔ cell s c = Some k;
}.

(** [mine]: the ids of the transaction and its subtransactions. *)
Record writer_ok (mine : Z → Prop) s : Prop := {
  wo_array : match comboHash s with None => usedComboCids s = 0 | Some h => array_ok s h end;
  wo_count : file_torn (shared_file s) = false →
             combocid_map_count (shared_file s) = Z.of_nat (length (file_entries (shared_file s)));
  wo_closed : combocid_map s = false → file_entries (shared_file s) = [];
  wo_sound : ∀ e, e ∈ file_entries (shared_file s) → mine (k_xmin (e_key e)) → cell s (e_combocid e) = Some (e_key e);
}.

(** Every pair is in the file. *)
Definition complete s : Prop :=
  file_torn (shared_file s) = false ∧ ∀ c k, cell s c = Some k → mkEntry k c ∈ file_entries (shared_file s).

Definition room s : Prop := Z.of_nat (length (file_entries (shared_file s))) + 1 < 2 ^ 32.

Lemma cell_range s c k : cell s c = Some k → 0 ≤ c < usedComboCids s ∧ comboCids s !! Z.to_nat c = Some (Some k).
Proof.
  unfold cell. destruct (Z.leb_spec 0 c), (Z.ltb_spec c (usedComboCids s)); cbn [andb]; try done.
  destruct (comboCids s !! Z.to_nat c) as [[k'|]|]; simpl; try done. by intros [= ->].
Qed.

Lemma cell_intro s c k : 0 ≤ c < usedComboCids s → comboCids s !! Z.to_nat c = Some (Some k) → cell s c = Some k.
Proof. intros Hc Hk. unfold cell. rewrite (proj2 (Z.leb_le _ _)), (proj2 (Z.ltb_lt _ _)), Hk by lia. done. Qed.

(** What is stored in the array depends on array and count only. *)
Lemma cell_same s s' c : comboCids s' = comboCids s → usedComboCids s' = usedComboCids s → cell s' c = cell s c.
Proof. unfold cell. by intros -> ->. Qed.

Lemma array_ok_same s s' h :
  comboCids s' = comboCids s → usedComboCids s' = usedComboCids s → sizeComboCids s' = sizeComboCids s →
  array_ok s h → array_ok s' h.
Proof.
  intros H1 H2 H3 []. assert (Hc : ∀ c, cell s' c = cell s c) by (intros; by apply cell_same).
  split; rewrite ?H1, ?H2, ?H3; try done; intros; rewrite Hc; auto.
Qed.

(** A used count is an [int] that fits. *)
Lemma used_u32 s h : array_ok s h → u32 (usedComboCids s) = usedComboCids s.
Proof.
  intros []. apply Z.mod_small. unfold sizeof_ComboCidKeyData, MaxAllocSize in *. lia.
Qed.

(** *** The writer resolves what it handed out *)

Lemma writer_resolves mine s c k :
  writer_ok mine s → cell s c = Some k → real_pair (k_xmin k) c s = (Ret (k_cmin k, k_cmax k), s).
Proof.
  intros Hok Hc. destruct (cell_range _ _ _ Hc) as [Hr Hk]. unfold real_pair, bind, get.
  destruct (comboHash s) as [h|] eqn:Eh; pose proof (wo_array _ _ Hok) as Ha; rewrite Eh in Ha; [|lia].
  rewrite (used_u32 _ _ Ha), (proj2 (Z.leb_gt _ _)) by lia. by rewrite Hk.
Qed.

(** *** Growing the array *)

(** Only the file, the requests and free cells may differ. *)
Record extends s s' : Prop := {
  ex_cell : ∀ c k, cell s c = Some k → cell s' c = Some k;
  ex_req : (requests s ≤ requests s')%nat;
}.

Lemma array_extends_trans s1 s2 s3 : extends s1 s2 → extends s2 s3 → extends s1 s3.
Proof. intros [H1 H2] [H3 H4]. split; [auto|lia]. Qed.

Definition grown s s' : Prop :=
  (∀ c, cell s' c = cell s c) ∧ usedComboCids s' = usedComboCids s ∧ comboHash s' = comboHash s ∧
  shared_file s' = shared_file s ∧ requests s' = requests s ∧ combocid_map s' = combocid_map s ∧
  readerComboHash s' = readerComboHash s.

(** The array cannot grow further. *)
Definition full s : Prop :=
  sizeComboCids s ≤ usedComboCids s ∧ MaxAllocSize < sizeof_ComboCidKeyData * (sizeComboCids s * 2).

Lemma grow_spec s h :
  array_ok s h →
  wp grow_array (λ o s', grown s s' ∧ array_ok s' h ∧
    match o with Ret _ => usedComboCids s' < sizeComboCids s' | ERROR => s' = s ∧ full s | _ => False end) s.
Proof.
  intros Ha. unfold grow_array. csteps. destruct (Z.leb_spec (sizeComboCids s) (usedComboCids s)) as [Hfull|Hfree]; csteps.
  2:{ split_and!; [by repeat split|done|lia]. }
  destruct (Z.ltb_spec MaxAllocSize (sizeof_ComboCidKeyData * (sizeComboCids s * 2))); csteps.
  { split_and!; [by repeat split|done|done|by split]. }
  destruct Ha as [Hlen Hused [Hpos Halloc] Hfill Hhash].
  assert (Hcell : ∀ c, cell (with_array (comboCids s ++ replicate (Z.to_nat (sizeComboCids s * 2 - sizeComboCids s)) None)
    (usedComboCids s) (sizeComboCids s * 2) s) c = cell s c).
  { intros c. unfold cell. simpl. destruct (_ && _) eqn:E; [|done].
    apply andb_true_iff in E as [E1%Z.leb_le E2%Z.ltb_lt]. by rewrite lookup_app_l by lia. }
  split_and!; [by repeat split| |simpl; lia].
  split; simpl; [rewrite length_app, length_replicate; lia|lia|lia|..]; intros; rewrite Hcell; auto.
Qed.

(** *** The file *)

(** A request to the file system failed in between. *)
Definition io_failed s s' : Prop := ∃ n, (requests s ≤ n < requests s')%nat ∧ io_ok n = false.

Lemma io_failed_from s1 s2 s3 : (requests s1 ≤ requests s2)%nat → io_failed s2 s3 → io_failed s1 s3.
Proof. intros H (n & Hn & Hio). exists n. split; [lia|done]. Qed.

Definition same_array s s' : Prop :=
  comboCids s' = comboCids s ∧ usedComboCids s' = usedComboCids s ∧ sizeComboCids s' = sizeComboCids s ∧
  comboHash s' = comboHash s ∧ readerComboHash s' = readerComboHash s.

Lemma same_array_cell s s' c : same_array s s' → cell s' c = cell s c.
Proof. intros (H1 & H2 & _). by apply cell_same. Qed.

Lemma same_array_ok s s' :
  same_array s s' →
  match comboHash s with None => usedComboCids s = 0 | Some h => array_ok s h end →
  match comboHash s' with None => usedComboCids s' = 0 | Some h => array_ok s' h end.
Proof. intros (H1 & H2 & H3 & -> & _) Ha. destruct (comboHash s); [by apply (array_ok_same s)|lia]. Qed.

Definition complete_but s c : Prop :=
  file_torn (shared_file s) = false ∧
  ∀ c' k, c' ≠ c → cell s c' = Some k → mkEntry k c' ∈ file_entries (shared_file s).

Lemma append_spec mine s c k :
  writer_ok mine s → combocid_map s = true → cell s c = Some k → room s →
  wp (append_entry (mkEntry k c))
    (λ o s', same_array s s' ∧ (requests s < requests s')%nat ∧ combocid_map s' = true ∧
       match o with
       | Ret _ => shared_file s' = mkFile (file_entries (shared_file s) ++ [mkEntry k c]) (file_torn (shared_file s))
                    (combocid_map_count (shared_file s))
       | ERROR => writer_ok mine s' ∧ io_failed s s'
       | _ => False
       end) s.
Proof.
  intros [Ha Hn Hm Hs] Hopen Hc Hroom. unfold append_entry. csteps.
  destruct (io_ok (requests s)) eqn:Eio; csteps; split_and!; try done; simpl; try lia.
  - split; [by apply (same_array_ok s)|done|simpl; by rewrite Hopen|]. intros e He Hmine. by apply Hs.
  - exists (requests s). split; [simpl; lia|done].
Qed.

Lemma dump_spec mine s c k :
  writer_ok mine s → cell s c = Some k → room s →
  wp (dumpSharedComboCommandId (k_xmin k) (k_cmin k) (k_cmax k) c)
    (λ o s', same_array s s' ∧ (requests s ≤ requests s')%nat ∧ writer_ok mine s' ∧
       match o with
       | Ret _ => complete_but s c → complete s'
       | ERROR => io_failed s s'
       | _ => False
       end) s.
Proof.
  intros Hok Hc Hroom. unfold dumpSharedComboCommandId. csteps.
  (* the file is open, with what was in it before *)
  apply (proc_mono _ (λ o s1, same_array s s1 ∧ (requests s ≤ requests s1)%nat ∧ writer_ok mine s1 ∧
    match o with
    | Ret _ => combocid_map s1 = true ∧ file_entries (shared_file s1) = file_entries (shared_file s) ∧
               (file_torn (shared_file s) = false → file_torn (shared_file s1) = false)
    | ERROR => io_failed s s1 | _ => False end)).
  { destruct Hok as [Ha Hn Hm Hs]. destruct (combocid_map s) eqn:Hopen; csteps.
    - split_and!; [done|lia|by split; rewrite ?Hopen|done|done|done].
    - rewrite (Hm eq_refl) in *. cbn [requests with_file].
      destruct (io_ok (requests s)) eqn:Eio; csteps; split_and!; try done; simpl; try lia.
      1,2: split; [by apply (same_array_ok s)|done|done|set_solver].
      exists (requests s). split; [simpl; lia|done]. }
  intros [[]| | |] s1 (Hsame & Hreq & Hok1 & Hrest); try done.
  destruct Hrest as (Hopen & Hf & Ht). cbn [next]. cstep.
  assert (Hroom1 : room s1) by (unfold room in *; by rewrite Hf). unfold room in Hroom1.
  eapply proc_mono; [apply (append_spec mine s1 c (mkKey (k_cmin k) (k_cmax k) (k_xmin k)));
    [done|done| |done]; rewrite (same_array_cell _ _ _ Hsame); by destruct k|].
  intros [[]| | |] s2 (Hsame2 & Hreq2 & Hopen2 & Hrest2); try done; cbn [next].
  2:{ destruct Hrest2 as [Hok2 Hio]. assert (Hsame02 : same_array s s2) by
        (destruct Hsame as (?&?&?&?&?), Hsame2 as (?&?&?&?&?); repeat split; congruence).
      split_and!; [done|lia|done|by apply (io_failed_from s s1)]. }
  assert (Hsame02 : same_array s s2) by (destruct Hsame as (?&?&?&?&?), Hsame2 as (?&?&?&?&?); repeat split; congruence).
  csteps. rewrite Hrest2. cbn [file_entries file_torn combocid_map_count]. split_and!; [by destruct Hsame02 as (?&?&?&?&?)|simpl; lia| |].
  - destruct Hok1 as [Ha1 Hn1 Hm1 Hs1]. split; [apply (same_array_ok s1); [by destruct Hsame2 as (?&?&?&?&?)|done]|simpl..].
    + intros Htorn. rewrite (Hn1 Htorn). rewrite length_app. simpl. unfold u32. rewrite Z.mod_small; lia.
    + intros E. congruence.
    + intros e [He|He%list_elem_of_singleton]%elem_of_app Hmine.
      * change (cell s2 (e_combocid e) = Some (e_key e)). rewrite (same_array_cell s1 s2) by done. by apply Hs1.
      * subst e. change (cell s2 c = Some (mkKey (k_cmin k) (k_cmax k) (k_xmin k))).
        rewrite (same_array_cell s s2), Hc by done. by destruct k.
  - intros [Ht0 Hall]. split; simpl; [by apply Ht|]. intros c' k' Hc'. change (cell s2 c' = Some k') in Hc'.
    rewrite (same_array_cell s s2) in Hc' by done. apply elem_of_app.
    destruct (decide (c' = c)) as [->|Hne]; [right|left; rewrite Hf; by apply Hall].
    rewrite Hc in Hc'. injection Hc' as ->. apply list_elem_of_singleton. by destruct k'.
Qed.

(** *** A new combo id *)

Lemma cell_unused s c : usedComboCids s = 0 → cell s c = None.
Proof. intros Hu. unfold cell. rewrite Hu. destruct (Z.leb_spec 0 c), (Z.ltb_spec c 0); done || lia. Qed.

(** The array is there, and has room. *)
Lemma prepare_spec mine s :
  writer_ok mine s →
  wp ((match comboHash s with
       | None => modify (with_array (replicate (Z.to_nat CCID_ARRAY_SIZE) None) 0 CCID_ARRAY_SIZE);; modify (with_hash ∅)
       | Some _ => ret tt
       end);; grow_array)
    (λ o s', (∀ c, cell s' c = cell s c) ∧ requests s' = requests s ∧ shared_file s' = shared_file s ∧
       combocid_map s' = combocid_map s ∧ is_Some (comboHash s') ∧ writer_ok mine s' ∧
       match o with Ret _ => usedComboCids s' < sizeComboCids s' | ERROR => full s' | _ => False end) s.
Proof.
  intros [Ha Hn Hm Hs]. cstep.
  apply (proc_mono _ (λ o s1, o = Ret tt ∧ (∀ c, cell s1 c = cell s c) ∧ requests s1 = requests s ∧
    shared_file s1 = shared_file s ∧ combocid_map s1 = combocid_map s ∧ ∃ h, comboHash s1 = Some h ∧ array_ok s1 h)).
  { destruct (comboHash s) as [h|] eqn:Eh; csteps; [by eauto 10|].
    assert (Hu : ∀ c, cell s c = None) by (intros; by apply cell_unused).
    split_and!; [done|intros c; by rewrite Hu, cell_unused|done..|]. exists ∅. split; [done|].
    split; [by vm_compute|by vm_compute|by vm_compute|simpl; lia|]. intros k c. rewrite cell_unused by done.
    by rewrite lookup_empty. }
  intros o s1 (-> & Hcell & Hreq & Hfile & Hmap & h & Hh & Hok). cbn [next].
  eapply proc_mono; [by apply (grow_spec s1 h)|].
  intros o s2 ((G1 & G2 & G3 & G4 & G5 & G6 & _) & Hok2 & Ho).
  assert (Hc2 : ∀ c, cell s2 c = cell s c) by (intros; by rewrite G1).
  split_and!; [done|congruence..|rewrite G3; by eauto| |].
  - split; [by rewrite G3, Hh|by rewrite G4, Hfile|by rewrite G6, G4, Hmap, Hfile|].
    rewrite G4, Hfile. intros e He Hmine. rewrite Hc2. by apply Hs.
  - destruct o as [[]| | |]; [done| |done|done]. by destruct Ho as [-> Ho].
Qed.

(** The new pair in array and table. *)
Definition stored k s : combo :=
  with_hash (<[k := usedComboCids s]> (default ∅ (comboHash s)))
    (with_array (<[Z.to_nat (usedComboCids s) := Some k]> (comboCids s)) (usedComboCids s + 1) (sizeComboCids s) s).

Lemma stored_cell k s h c :
  array_ok s h → usedComboCids s < sizeComboCids s →
  cell (stored k s) c = if decide (c = usedComboCids s) then Some k else cell s c.
Proof.
  intros [Hlen Hused _ Hfill _] Hlt. unfold cell. simpl. destruct (decide (c = usedComboCids s)) as [->|Hne].
  - rewrite (proj2 (Z.leb_le _ _)), (proj2 (Z.ltb_lt _ _)) by lia. cbn [andb].
    by rewrite list_lookup_insert_eq by lia.
  - destruct (Z.leb_spec 0 c); cbn [andb]; [|done].
    destruct (Z.ltb_spec c (usedComboCids s + 1)), (Z.ltb_spec c (usedComboCids s)); try lia; [|done].
    by rewrite list_lookup_insert_ne by lia.
Qed.

Lemma stored_ok mine k s h :
  writer_ok mine s → comboHash s = Some h → h !! k = None → usedComboCids s < sizeComboCids s → writer_ok mine (stored k s).
Proof.
  intros [Ha Hn Hm Hs] Hh Hk Hlt. rewrite Hh in Ha. pose proof (stored_cell k s h) as Hcell.
  split; [|done|done|].
  - unfold stored. rewrite Hh. cbn [comboHash with_hash default]. fold (stored k s).
    replace (with_hash _ _) with (stored k s) by (unfold stored; by rewrite Hh).
    destruct Ha as [Hlen Hused Halloc Hfill Hhash]. split; simpl; [by rewrite length_insert|lia|done|..].
    + intros c Hc. rewrite Hcell by done. case_decide; [by eauto|]. apply Hfill. lia.
    + intros k' c. rewrite Hcell by done. destruct (decide (k' = k)) as [->|Hne].
      * rewrite lookup_insert_eq. case_decide; [naive_solver|]. split; [naive_solver|]. intros Hc%Hhash. congruence.
      * rewrite lookup_insert_ne by done. rewrite Hhash. case_decide as Hd; [|done]. subst c. split; [|naive_solver].
        intros [Hc _]%cell_range. lia.
  - intros e He Hmine. rewrite Hcell by done. specialize (Hs e He Hmine). case_decide as Hd; [|done].
    apply cell_range in Hs as [Hs _]. lia.
Qed.

Lemma get_combo_spec mine s xmin cmin cmax :
  writer_ok mine s → room s →
  wp (GetComboCommandId xmin cmin cmax)
    (λ o s', writer_ok mine s' ∧ extends s s' ∧
       match o with
       | Ret c => cell s' c = Some (mkKey cmin cmax xmin) ∧ (complete s → cc_role ≠ GP_ROLE_UTILITY → complete s')
       | ERROR => (cc_role = GP_ROLE_EXECUTE ∧ Gp_is_writer = false) ∨ io_failed s s' ∨ full s'
       | _ => False
       end) s.
Proof.
  intros Hok Hroom. unfold GetComboCommandId.
  destruct (bool_decide (cc_role = GP_ROLE_EXECUTE) && negb Gp_is_writer) eqn:Erole.
  { csteps. apply andb_true_iff in Erole as [E1%bool_decide_eq_true E2%negb_true_iff]. split_and!; [done|by split|by left]. }
  cstep. cstep. apply proc_assoc. cstep. eapply proc_mono; [by apply prepare_spec|].
  intros o s1 (Hcell & Hreq & Hfile & Hmap & [h Hh] & Hok1 & Ho).
  assert (Hex : extends s s1) by (split; [intros c k; by rewrite Hcell|lia]).
  destruct o as [[]| | |]; cbn [next]; [|by auto|done|done]. csteps. rewrite Hh. change (default ∅ (Some h)) with h.
  pose proof (wo_array _ _ Hok1) as Ha. rewrite Hh in Ha.
  destruct (h !! mkKey cmin cmax xmin) as [c|] eqn:Ek; csteps.
  { split_and!; [done|done|by apply (ao_hash _ _ Ha)|]. intros [H1 H2] _. split; [by rewrite Hfile|].
    intros c' k'. rewrite Hcell, Hfile. apply H2. }
  eapply proc_mono; [by apply (grow_spec s1 h)|]. intros [[]| | |] s2 ((G1 & G2 & G3 & G4 & G5 & G6 & _) & Ha2 & Ho2); cbn [next];
    [|exfalso; destruct Ho2 as [_ [? _]]; lia|done|done].
  set (k := mkKey cmin cmax xmin) in *. csteps.
  assert (Hok2 : writer_ok mine s2).
  { destruct Hok1 as [_ Hn Hm Hs]. split; [by rewrite G3, Hh|by rewrite G4|by rewrite G6, G4|].
    rewrite G4. intros e He Hmine. rewrite G1. by apply Hs. }
  assert (Hh2 : comboHash s2 = Some h) by congruence.
  replace (with_hash _ _) with (stored k s2) by (unfold stored; by rewrite Hh2).
  pose proof (stored_ok mine k s2 h Hok2 Hh2 Ek Ho2) as Hok3.
  pose proof (λ c, stored_cell k s2 h c Ha2 Ho2) as Hc3.
  assert (Hex3 : extends s (stored k s2)).
  { split; [|simpl; lia]. intros c' k' Hc'. rewrite Hc3. assert (Hc2 : cell s2 c' = Some k') by by rewrite G1, Hcell.
    destruct (decide (c' = usedComboCids s2)); [|done]. apply cell_range in Hc2 as [? _]. lia. }
  assert (Hnew : cell (stored k s2) (usedComboCids s2) = Some k) by (rewrite Hc3; by rewrite decide_True).
  clear Erole. destruct (bool_decide (cc_role = GP_ROLE_UTILITY)) eqn:Hut; csteps.
  { apply bool_decide_eq_true in Hut. split_and!; [done|done|done|]. by intros _ []. }
  eapply proc_mono; [apply (dump_spec mine (stored k s2) (usedComboCids s2) k); [done|done|]|].
  { unfold room in *. simpl. by rewrite G4, Hfile. }
  intros [[]| | |] s3 (Hsame & Hreq3 & Hok4 & Ho3); cbn [next]; csteps; try done; simpl in Hreq3.
  - assert (Hex4 : extends s s3).
    { split; [|lia]. intros c' k' Hc'. rewrite (same_array_cell _ _ _ Hsame). by apply Hex3. }
    split_and!; [done|done|by rewrite (same_array_cell _ _ _ Hsame)|]. intros [Ht Hall] _. apply Ho3.
    split; simpl; [by rewrite G4, Hfile|]. intros c' k' Hne. rewrite Hc3, decide_False by done.
    rewrite G1, Hcell, G4, Hfile. apply Hall.
  - split_and!; [done| |right; left; apply (io_failed_from _ (stored k s2)); [simpl; lia|done]].
    split; [|lia]. intros c' k' Hc'. rewrite (same_array_cell _ _ _ Hsame). by apply Hex3.
Qed.
End Writer.

(** ** Readers *)

Section Reader.
Context {env : ComboEnv}.
Implicit Types (w r : combo) (k : ComboCidKeyData) (c : Z).

(** A reader agrees with its writer [w]. *)
Record reader_ok (mine : Z → Prop) w r : Prop := {
  ro_file : shared_file r = shared_file w;
  ro_used : 0 ≤ usedComboCids r < 2 ^ 32;
  ro_prefix : ∀ c, 0 ≤ c < usedComboCids r → is_Some (cell r c) ∧ cell r c = cell w c;
  ro_hash : ∀ key p, default ∅ (readerComboHash r) !! key = Some p →
    session key = gp_session_id → lockHolderProcPtr = Some (writer_pid key) → mine (r_xmin key) →
    ∃ k, cell w (r_combocid key) = Some k ∧ k_xmin k = r_xmin key ∧ p = (k_cmin k, k_cmax k);
}.

(** The same but for requests made, the open file and the table. *)
Lemma reader_ok_same mine w r r' :
  shared_file r' = shared_file r → comboCids r' = comboCids r → usedComboCids r' = usedComboCids r →
  (∀ key p, default ∅ (readerComboHash r') !! key = Some p →
     default ∅ (readerComboHash r) !! key = Some p ∨
     (mine (r_xmin key) → ∃ k, cell w (r_combocid key) = Some k ∧ k_xmin k = r_xmin key ∧ p = (k_cmin k, k_cmax k))) →
  reader_ok mine w r → reader_ok mine w r'.
Proof.
  intros Hf Ha Hu Hh [Rf Ru Rp Rh]. split; [congruence|by rewrite Hu| |].
  - intros c. rewrite (cell_same r r') by done. rewrite Hu. apply Rp.
  - intros key p Hk Hs Hl Hm. destruct (Hh key p Hk) as [Ho|Hn]; [by eauto|by apply Hn].
Qed.

Definition answer k : Z * Z := (k_cmin k, k_cmax k).

Lemma load_entries_spec mine w pid c k n : ∀ i found r,
  reader_ok mine w r → writer_ok mine w → mine (k_xmin k) → cell w c = Some k → file_torn (shared_file w) = false →
  (i + n ≤ length (file_entries (shared_file w)))%nat → (found = None ∨ found = Some (answer k)) →
  wp (load_entries n i pid (k_xmin k) c found)
    (λ o r', reader_ok mine w r' ∧ (requests r ≤ requests r')%nat ∧
       match o with
       | Ret f => (f = None ∨ f = Some (answer k)) ∧
                  (found ≠ None ∨ (∃ j, (i ≤ j < i + n)%nat ∧ file_entries (shared_file w) !! j = Some (mkEntry k c)) →
                   f = Some (answer k))
       | ERROR => io_failed r r'
       | _ => False
       end) r.
Proof.
  induction n as [|n IH]; intros i found r Hr Hw Hmine Hc Ht Hlen Hfound; cbn [load_entries]; csteps.
  { split_and!; [done|lia|done|]. intros [?|(j & ? & _)]; [by destruct Hfound|lia]. }
  change (shared_file (asked r)) with (shared_file r). rewrite (ro_file _ _ _ Hr). set (r1 := asked r).
  assert (Hr1 : reader_ok mine w r1) by (apply (reader_ok_same mine w r); [done..|by left|done]).
  destruct (io_ok (requests r)) eqn:Eio; csteps.
  2:{ split_and!; [done|simpl; lia|]. exists (requests r). split; [simpl; lia|done]. }
  unfold read_entry. rewrite Ht. destruct (file_entries (shared_file w) !! i) as [entry|] eqn:Ei;
    [|apply lookup_ge_None in Ei; lia].
  assert (Hentry : mine (k_xmin (e_key entry)) → cell w (e_combocid entry) = Some (e_key entry))
    by (apply (wo_sound _ _ Hw); by apply list_elem_of_lookup_2 in Ei).
  (* what the rest of the loop finds *)
  assert (Hrest : ∀ found2 r2, reader_ok mine w r2 → (requests r1 ≤ requests r2)%nat →
    (found2 = None ∨ found2 = Some (answer k)) → (found ≠ None ∨ entry = mkEntry k c → found2 ≠ None) →
    wp (load_entries n (S i) pid (k_xmin k) c found2)
      (λ o r', reader_ok mine w r' ∧ (requests r ≤ requests r')%nat ∧
       match o with
       | Ret f => (f = None ∨ f = Some (answer k)) ∧
                  (found ≠ None ∨ (∃ j, (i ≤ j < i + S n)%nat ∧ file_entries (shared_file w) !! j = Some (mkEntry k c)) →
                   f = Some (answer k))
       | ERROR => io_failed r r'
       | _ => False
       end) r2).
  { intros found2 r2 Hr2 Hreq Hf2 Hkeep. simpl in Hreq.
    eapply proc_mono; [apply IH; [done|done|done|done|done|lia|done]|].
    intros o r3 (Hr3 & Hreq3 & Ho). split_and!; [done|lia|].
    destruct o as [f| | |]; try done; [|by apply (io_failed_from r r2); [lia|]]. destruct Ho as [Hf Hall]. split; [done|].
    intros Hcase. apply Hall. destruct Hcase as [Hne|(j & Hj & Hjk)]; [left; auto|].
    destruct (decide (j = i)) as [->|]; [left; apply Hkeep; right; congruence|right; exists j; split; [lia|done]]. }
  destruct (Z.eqb_spec (k_xmin (e_key entry)) (k_xmin k)) as [Ex|Ex]; csteps.
  - specialize (Hentry ltac:(by rewrite Ex)). apply Hrest.
    + apply (reader_ok_same mine w r1); [done..| |done]. intros key p. simpl.
      destruct (default ∅ (readerComboHash r) !! _) eqn:El; [by left|]. rewrite lookup_insert_Some.
      intros [[<- <-]|[_ Hold]]; [right|by left]. intros _. by exists (e_key entry).
    + simpl. lia.
    + destruct (Z.eqb_spec (e_combocid entry) c) as [E|]; [|done]. right. rewrite E in Hentry. unfold answer. congruence.
    + intros [Hne| ->]; [by destruct (_ =? c)|]. simpl. by rewrite Z.eqb_refl.
  - apply Hrest; [done|lia|done|]. intros [?| ->]; [done|]. by destruct Ex.
Qed.

(** A reader resolves a combo id of its writer, or a request to the file system failed. *)
Lemma reader_resolves mine w r c k pid :
  Gp_is_writer = false → lockHolderProcPtr = Some pid → complete w →
  writer_ok mine w → reader_ok mine w r → mine (k_xmin k) → cell w c = Some k →
  wp (real_pair (k_xmin k) c)
    (λ o r', reader_ok mine w r' ∧ (requests r ≤ requests r')%nat ∧
       match o with Ret p => p = answer k | ERROR => io_failed r r' | _ => False end) r.
Proof.
  intros Hread Hlock [Ht Hall] Hw Hr Hmine Hc. unfold real_pair. csteps. destruct (cell_range _ _ _ Hc) as [Hrange _].
  destruct Hr as [Rf Ru Rp Rh] eqn:Er. clear Er. unfold u32. rewrite Z.mod_small by done.
  destruct (Z.leb_spec (usedComboCids r) c) as [Hbig|Hsmall].
  2:{ destruct (Rp c) as [_ Hcell]; [lia|]. rewrite Hc in Hcell. apply cell_range in Hcell as [_ ->]. csteps.
      by split_and!; [|lia|]. }
  rewrite Hread. unfold getSharedComboCidEntry. rewrite Hlock. csteps.
  set (r1 := match readerComboHash r with Some _ => r | None => with_reader_hash ∅ r end).
  assert (Hh1 : default ∅ (readerComboHash r1) = default ∅ (readerComboHash r))
    by (subst r1; by destruct (readerComboHash r) eqn:E; rewrite ?E).
  assert (Hr1 : reader_ok mine w r1 ∧ requests r1 = requests r ∧ combocid_map r1 = combocid_map r).
  { split; [|by subst r1; destruct (readerComboHash r)].
    apply (reader_ok_same mine w r); [by subst r1; destruct (readerComboHash r)..| |done].
    intros key p. rewrite Hh1. by left. }
  destruct Hr1 as (Hr1 & Hreq1 & Hmap1). clearbody r1. rewrite Hh1.
  destruct (default ∅ (readerComboHash r) !! mkReaderKey gp_session_id pid (k_xmin k) c) as [p|] eqn:Ep; csteps.
  { destruct (Rh _ _ Ep eq_refl Hlock Hmine) as (k' & Hk' & _ & ->). simpl in Hk'. rewrite Hc in Hk'.
    injection Hk' as <-. by split_and!; [|lia|]. }
  unfold loadSharedComboCommandId. rewrite Hlock. csteps.
  apply (proc_mono _ (λ o r2, reader_ok mine w r2 ∧ (requests r ≤ requests r2)%nat ∧
    match o with Ret _ => True | ERROR => io_failed r r2 | _ => False end)).
  { destruct (combocid_map r1); csteps; [by split_and!; [|lia|]|].
    destruct (io_ok (requests r1)) eqn:Eio; csteps; (split_and!; [|simpl; lia|]); try done;
      try (apply (reader_ok_same mine w r1); [done..|by left|done]).
    exists (requests r1). split; [simpl; lia|done]. }
  intros [[]| | |] r2 (Hr2 & Hreq2 & Ho); cbn [next]; [|by split_and!|done|done]. csteps.
  destruct (io_ok (requests r2)) eqn:Eio; cbn [negb]; csteps.
  2:{ split_and!; [apply (reader_ok_same mine w r2); [done..|by left|done]|simpl; lia|].
      exists (requests r2). split; [simpl; lia|done]. }
  change (shared_file (asked r2)) with (shared_file r2). rewrite (ro_file _ _ _ Hr2), (wo_count _ _ Hw Ht), Nat2Z.id.
  eapply proc_mono; [apply (load_entries_spec mine w pid c k); [|done|done|done|done|lia|by left]|].
  { apply (reader_ok_same mine w r2); [done..|by left|done]. }
  intros [f| | |] r3 (Hr3 & Hreq3 & Ho3); cbn [next] in *; try done; cbn [requests asked] in Hreq3.
  2:{ split_and!; [done|lia|]. eapply io_failed_from; [|exact Ho3]. simpl. lia. }
  destruct Ho3 as [_ Hf]. rewrite Hf; [csteps; by split_and!; [|lia|]|]. right.
  specialize (Hall c k Hc). apply list_elem_of_lookup_1 in Hall as [j Hj]. exists j. split; [|done].
  apply lookup_lt_Some in Hj. lia.
Qed.
End Reader.

(** ** Rows *)

Section Rows.
Context {wenv renv : ComboEnv}.
Implicit Types (w r : combo) (t : HeapTupleHeader).

Lemma combo_xmin cid t : HeapTupleHeaderGetXmin (HeapTupleHeaderSetCmax cid true t) = HeapTupleHeaderGetXmin t.
Proof.
  unfold HeapTupleHeaderGetXmin, HeapTupleHeaderXminFrozen. simpl. by rewrite land_set_other.
Qed.

Lemma combo_flag cid t : has (t_infomask (HeapTupleHeaderSetCmax cid true t)) HEAP_COMBOCID = true.
Proof. simpl. by apply has_set. Qed.

(** The combo id in a row stands for [cmin] and [cmax]. *)
Definition holds w t cid cmin cmax : Prop := cell w cid = Some (mkKey cmin cmax (HeapTupleHeaderGetXmin t)).

Lemma row_writer mine w t cid cmin cmax :
  writer_ok mine w → holds w t cid cmin cmax →
  let t' := HeapTupleHeaderSetCmax cid true t in
  @HeapTupleHeaderGetCmin wenv t' w = (Ret cmin, w) ∧ @HeapTupleHeaderGetCmax wenv t' w = (Ret cmax, w).
Proof.
  intros Hok Hc t'. unfold HeapTupleHeaderGetCmin, HeapTupleHeaderGetCmax, GetRealCmin, GetRealCmax, bind.
  subst t'. rewrite combo_flag, combo_xmin. cbn [HeapTupleHeaderGetRawCommandId HeapTupleHeaderSetCmax t_field3].
  pose proof (@writer_resolves wenv mine w cid (mkKey cmin cmax (HeapTupleHeaderGetXmin t)) Hok Hc) as Hres.
  cbn [k_xmin k_cmin k_cmax] in Hres. by rewrite Hres.
Qed.

(** What a reader gets for a row. *)
Definition reads {A} (mine : Z → Prop) w r (a : A) (o : outcome A) r' : Prop :=
  @reader_ok renv mine w r' ∧
  match o with Ret b => b = a | ERROR => @io_failed renv r r' | _ => False end.

Lemma row_reader mine w r t cid cmin cmax pid :
  @Gp_is_writer renv = false → @lockHolderProcPtr renv = Some pid → complete w → writer_ok mine w →
  @reader_ok renv mine w r → mine (HeapTupleHeaderGetXmin t) → holds w t cid cmin cmax →
  let t' := HeapTupleHeaderSetCmax cid true t in
  wp (@HeapTupleHeaderGetCmin renv t') (reads mine w r cmin) r ∧ wp (@HeapTupleHeaderGetCmax renv t') (reads mine w r cmax) r.
Proof.
  intros Hread Hlock Hcomp Hok Hr Hmine Hc t'. unfold HeapTupleHeaderGetCmin, HeapTupleHeaderGetCmax, GetRealCmin, GetRealCmax.
  subst t'. rewrite combo_flag, combo_xmin. cbn [HeapTupleHeaderGetRawCommandId HeapTupleHeaderSetCmax t_field3].
  pose proof (@reader_resolves renv mine w r cid (mkKey cmin cmax (HeapTupleHeaderGetXmin t)) pid Hread Hlock Hcomp Hok Hr Hmine Hc) as Hres. cbn [k_xmin] in Hres.
  split; (cstep; eapply proc_mono; [exact Hres|]; intros [p| | |] r' (Hr' & _ & Ho); cbn [next]; csteps; try done; by subst).
Qed.

(** After the end of a transaction a new one starts with nothing, if its ids are new. *)
Lemma combo_restart (mine' : Z → Prop) mine w :
  writer_ok mine w → (∀ e, e ∈ file_entries (shared_file w) → ¬ mine' (k_xmin (e_key e))) →
  writer_ok mine' (AtEOXact_ComboCid w) ∧ (file_torn (shared_file w) = false → complete (AtEOXact_ComboCid w)).
Proof.
  intros [_ Hn Hm _] Hnew. split; [split; simpl; [done|done|done|]|].
  - intros e He Hmine. by destruct (Hnew e He).
  - intros Ht. split; [done|]. intros c k. by rewrite cell_unused.
Qed.

(** C26: Deleting a row that the same transaction inserted keeps both of its command ids: the id that is
    stored in it is resolved to the command that inserted and to the one that deleted it, by the writer
    and by every reader of the session, from a copy of the beginning of the array, from remembered
    pairs or from the file; a reader fails only for a request to the file system that failed.  All ids
    handed out before keep their meaning, and allocation fails only for a reader, a failed request or an
    array that cannot grow.  After the end of the transaction this starts anew for one with new ids. *)
Theorem combocid_roundtrip mine current w t cmin cmax pid :
  @cc_role wenv ≠ GP_ROLE_UTILITY → @Gp_is_writer renv = false → @lockHolderProcPtr renv = Some pid →
  writer_ok mine w → complete w → room w →
  HeapTupleHeaderXminCommitted t = false → current (t_xmin t) = true → mine (HeapTupleHeaderGetXmin t) →
  @HeapTupleHeaderGetCmin wenv t w = (Ret cmin, w) →
  wp (@HeapTupleHeaderAdjustCmax wenv current t cmax)
    (λ o w', writer_ok mine w' ∧ (∀ c k, cell w c = Some k → cell w' c = Some k) ∧
       (∀ mine', (∀ e, e ∈ file_entries (shared_file w') → ¬ mine' (k_xmin (e_key e))) →
          writer_ok mine' (AtEOXact_ComboCid w')) ∧
       match o with
       | Ret (cid, iscombo) =>
           let t' := HeapTupleHeaderSetCmax cid iscombo t in
           complete w' ∧ iscombo = true ∧
           @HeapTupleHeaderGetCmin wenv t' w' = (Ret cmin, w') ∧ @HeapTupleHeaderGetCmax wenv t' w' = (Ret cmax, w') ∧
           ∀ r, @reader_ok renv mine w' r →
             wp (@HeapTupleHeaderGetCmin renv t') (reads mine w' r cmin) r ∧
             wp (@HeapTupleHeaderGetCmax renv t') (reads mine w' r cmax) r
       | ERROR => @cc_role wenv = GP_ROLE_EXECUTE ∧ @Gp_is_writer wenv = false ∨ @io_failed wenv w w' ∨ full w'
       | _ => False
       end) w.
Proof.
  intros Hrole Hread Hlock Hok Hcomp Hroom Hxc Hcur Hmine Hcmin. unfold HeapTupleHeaderAdjustCmax.
  unfold HeapTupleHeaderGetRawXmin. rewrite Hxc, Hcur. cbn [negb andb]. cstep. unfold wp. rewrite Hcmin. cbn [fst snd next].
  cstep. eapply proc_mono; [by apply (@get_combo_spec wenv mine)|].
  intros o w' (Hok' & [Hex _] & Ho).
  assert (Hend : ∀ mine', (∀ e, e ∈ file_entries (shared_file w') → ¬ mine' (k_xmin (e_key e))) →
    writer_ok mine' (AtEOXact_ComboCid w')) by (intros mine' Hm; by apply (combo_restart mine' mine w')).
  destruct o as [cid| | |]; cbn [next]; csteps; [|by split_and!|done..].
  destruct Ho as [Hc Hcomp']. specialize (Hcomp' Hcomp Hrole).
  destruct (row_writer mine w' t cid cmin cmax Hok' Hc) as [H1 H2].
  split_and!; [done..|]. intros r Hr. by apply (row_reader mine w' r t cid cmin cmax pid).
Qed.
End Rows.

Module ComboSample.
(** A writer, and a reader of the same session with nothing cached. *)
Definition writer_env : ComboEnv := mkComboEnv GP_ROLE_EXECUTE true 5 None (λ _, true) (λ _, mkEntry (mkKey 0 0 0) 0).
Definition reader_env : ComboEnv := mkComboEnv GP_ROLE_EXECUTE false 5 (Some 77) (λ _, true) (λ _, mkEntry (mkKey 0 0 0) 0).
Definition w0 : combo := mkCombo None [] 0 0 None false (mkFile [] false 0) 0.
Definition row : HeapTupleHeader := mkHeader 10 0 4 0 0.
Definition mine (x : Z) : Prop := x = 10.
Definition w1 : combo := (@HeapTupleHeaderAdjustCmax writer_env (Z.eqb 10) row 6 w0).2.
Definition r1 : combo := mkCombo None [] 0 0 None false (shared_file w1) 0.

Lemma w0_ok : writer_ok mine w0.
Proof. split; [done|done|done|]. intros e He. by apply elem_of_nil in He. Qed.

Lemma r1_ok : @reader_ok reader_env mine w1 r1.
Proof. split; [done|done|simpl; lia|]. intros key p. cbn [readerComboHash r1 default]. change (default ∅ None) with (∅ : gmap readerComboCidKeyData (Z * Z)). by rewrite lookup_empty. Qed.
End ComboSample.

(** The row inserted by command 4 is deleted by command 6: the writer and the reader see both. *)
Lemma combocid_roundtrip_witness :
  ∃ t', @HeapTupleHeaderGetCmin ComboSample.writer_env t' ComboSample.w1 = (Ret 4, ComboSample.w1) ∧
    wp (@HeapTupleHeaderGetCmax ComboSample.reader_env t')
      (@reads ComboSample.reader_env _ ComboSample.mine ComboSample.w1 ComboSample.r1 6) ComboSample.r1.
Proof.
  pose proof (@combocid_roundtrip ComboSample.writer_env ComboSample.reader_env ComboSample.mine (Z.eqb 10) ComboSample.w0
    ComboSample.row 4 6 77 ltac:(discriminate) eq_refl eq_refl ComboSample.w0_ok) as Ht.
  assert (Hc : complete ComboSample.w0) by (split; [reflexivity|intros c k; by rewrite cell_unused]).
  specialize (Ht Hc ltac:(unfold room; simpl; lia) eq_refl eq_refl eq_refl eq_refl).
  assert (E : (@HeapTupleHeaderAdjustCmax ComboSample.writer_env (Z.eqb 10) ComboSample.row 6 ComboSample.w0).1 = Ret (0, true))
    by (vm_compute; reflexivity).
  unfold wp in Ht. rewrite E in Ht. destruct Ht as (_ & _ & _ & _ & _ & H1 & _ & H2).
  exists (HeapTupleHeaderSetCmax 0 true ComboSample.row). split; [exact H1|].
  exact (proj2 (H2 ComboSample.r1 ComboSample.r1_ok)).
Defined.
