(* ===== verification/Tqual.v ===== *)
(** * Visibility of row versions ([utils/time/tqual.c])

    A row version carries the id of the transaction that inserted it and of the one that deleted or
    locked it.  Whether it is to be seen follows from what became of them, which is looked up once and
    then noted in the header as a hint.  While a row is examined other sessions go on, and the answers
    of the rest of the server change: the [n]th question is answered at the moment [moments n].  The
    answers are those of [procarray.c] (transactions in progress), [transam.c] (committed ones),
    [multixact.c] (the members of a lock that several hold), [subtrans.c] (top-level transactions) and the distributed
    log; the visibility test of a distributed snapshot is the one of [DistributedSnapshot], with its
    caches, and command ids are those of [ComboCid].

    Assertions are left out.  A page that is marked dirty is a flag. *)
From S2P Require Import Prelude Proc DistributedSnapshot Clog TransAm ObjectIds UpdateResult Htup ComboCid.

(** ** Multitransactions *)

Inductive MultiXactStatus :=
  | MultiXactStatusForKeyShare | MultiXactStatusForShare | MultiXactStatusForNoKeyUpdate | MultiXactStatusForUpdate
  | MultiXactStatusNoKeyUpdate | MultiXactStatusUpdate.

Record MultiXactMember := mkMember { m_xid : Z; m_status : MultiXactStatus }.

Definition ISUPDATE_from_mxstatus (status : MultiXactStatus) : bool :=
  match status with MultiXactStatusNoKeyUpdate | MultiXactStatusUpdate => true | _ => false end.

(** ** The rest of the server *)

(** [NeedsFlush xid]: the commit record of [xid] is not on disk yet. *)
Record moment := mkMoment {
  IsInProgress : Z → bool;
  DidCommit : Z → bool;
  NeedsFlush : Z → bool;
  LogAt : DistributedLog;
  NextXid : option Z;
}.

(** The members of a multitransaction never change.  The last four are the buffer, the role of the
    process, and the relation. *)
Class TqualEnv := mkTqualEnv {
  moments : nat → moment;
  TransactionIdIsCurrentTransactionId : Z → bool;
  GetMultiXactIdMembers : Z → list MultiXactMember;
  TopmostTransaction : Z → Z;
  max_local_cache : Z;
  gp_disable_tuple_hints : bool;
  BufferIsPermanent : bool;
  IS_QUERY_DISPATCHER : bool;
  relation_id : Z;
  relation_namespace : Z;
}.

Definition PG_AOSEGMENT_NAMESPACE : Z := 6104.

(** ** Snapshots and the state of a check *)

Record SnapshotData := mkSnapshot {
  snap_xmin : Z;
  snap_xmax : Z;
  xip : list Z;
  subxip : list Z;
  suboverflowed : bool;
  takenDuringRecovery : bool;
  haveDistribSnapshot : bool;
  curcid : Z;
  distribSnapshotWithLocalMapping : DistributedSnapshotWithLocalMapping;
}.

Inductive HTSV_Result :=
  | HEAPTUPLE_DEAD | HEAPTUPLE_LIVE | HEAPTUPLE_RECENTLY_DEAD | HEAPTUPLE_INSERT_IN_PROGRESS
  | HEAPTUPLE_DELETE_IN_PROGRESS.

#[global] Instance HTSV_Result_eq_dec : EqDecision HTSV_Result.
Proof. solve_decision. Defined.

(** [now]: questions asked so far. *)
Record scan := mkScan {
  tup : HeapTupleHeader;
  dirty : bool;
  now : nat;
  snap : SnapshotData;
  xact_cache : LocalDistribXactCache;
  combos : combo;
}.

Definition with_tup (f : HeapTupleHeader → HeapTupleHeader) (s : scan) : scan :=
  mkScan (f (tup s)) (dirty s) (now s) (snap s) (xact_cache s) (combos s).
Definition mark_dirty (s : scan) : scan := mkScan (tup s) true (now s) (snap s) (xact_cache s) (combos s).
Definition tick (s : scan) : scan := mkScan (tup s) (dirty s) (S (now s)) (snap s) (xact_cache s) (combos s).

(** The mapping in the snapshot and the cache of the process. *)
Definition with_caches (m : DistributedSnapshotWithLocalMapping) (c : LocalDistribXactCache) (s : scan) : scan :=
  let S := snap s in
  mkScan (tup s) (dirty s) (now s)
    (mkSnapshot (snap_xmin S) (snap_xmax S) (xip S) (subxip S) (suboverflowed S) (takenDuringRecovery S)
       (haveDistribSnapshot S) (curcid S) m) c (combos s).

(** [HeapTupleSatisfiesDirty] gives its answer in the snapshot. *)
Definition with_bounds (lo hi : Z) (s : scan) : scan :=
  let S := snap s in
  mkScan (tup s) (dirty s) (now s)
    (mkSnapshot lo hi (xip S) (subxip S) (suboverflowed S) (takenDuringRecovery S)
       (haveDistribSnapshot S) (curcid S) (distribSnapshotWithLocalMapping S)) (xact_cache s) (combos s).

Section Tqual.
Context {env : TqualEnv} {tenv : TransamEnv} {cenv : ComboEnv}.

Definition on_combos {A} (m : proc combo A) : proc scan A := λ s,
  let '(o, c) := m (combos s) in (o, mkScan (tup s) (dirty s) (now s) (snap s) (xact_cache s) c).

Definition tuple : proc scan HeapTupleHeader := λ s, (Ret (tup s), s).

(** A question to the rest of the server. *)
Definition ask {A} (q : moment → A) : proc scan A := λ s, (Ret (q (moments (now s))), tick s).

Definition TransactionIdIsInProgress (xid : Z) : proc scan bool := ask (λ m, IsInProgress m xid).
Definition TransactionIdDidCommit (xid : Z) : proc scan bool := ask (λ m, DidCommit m xid).
(** The loop of [MultiXactIdIsRunning] over shared memory. *)
Fixpoint any_in_progress (members : list MultiXactMember) : proc scan bool :=
  match members with
  | [] => ret false
  | m :: members =>
      running <- TransactionIdIsInProgress (m_xid m);;
      if (running : bool) then ret true else any_in_progress members
  end.

Definition MultiXactIdIsRunning (multi : Z) : proc scan bool :=
  let members := GetMultiXactIdMembers multi in
  if existsb (λ m, TransactionIdIsCurrentTransactionId (m_xid m)) members then ret true else any_in_progress members.

(** The loop of [MultiXactHasRunningRemoteMembers]. *)
Fixpoint any_remote (members : list MultiXactMember) : proc scan bool :=
  match members with
  | [] => ret false
  | m :: members =>
      if TransactionIdIsCurrentTransactionId (m_xid m) then any_remote members
      else
        running <- TransactionIdIsInProgress (m_xid m);;
        if (running : bool) then ret true else any_remote members
  end.

Definition MultiXactHasRunningRemoteMembers (multi : Z) : proc scan bool := any_remote (GetMultiXactIdMembers multi).

(** The first member that is not only a locker. *)
Fixpoint find_updater (members : list MultiXactMember) : Z :=
  match members with
  | [] => InvalidTransactionId
  | m :: members => if negb (ISUPDATE_from_mxstatus (m_status m)) then find_updater members else m_xid m
  end.

Definition MultiXactIdGetUpdateXid (xmax : Z) : Z := find_updater (GetMultiXactIdMembers xmax).

Definition HeapTupleGetUpdateXid (t : HeapTupleHeader) : Z := MultiXactIdGetUpdateXid (HeapTupleHeaderGetRawXmax t).

Definition HeapTupleHeaderGetUpdateXid (t : HeapTupleHeader) : Z :=
  if negb (has (t_infomask t) HEAP_XMAX_INVALID) && has (t_infomask t) HEAP_XMAX_IS_MULTI
     && negb (has (t_infomask t) HEAP_XMAX_LOCK_ONLY)
  then HeapTupleGetUpdateXid t else HeapTupleHeaderGetRawXmax t.

(** ** Hints *)

Definition markDirty (isXmin : bool) : proc scan unit :=
  if negb gp_disable_tuple_hints then modify mark_dirty
  else if (relation_id <? FirstNormalObjectId) || (relation_namespace =? PG_AOSEGMENT_NAMESPACE) then modify mark_dirty
  else
    t <- tuple;;
    let xid := if isXmin then HeapTupleHeaderGetXmin t else HeapTupleHeaderGetRawXmax t in
    if xid =? InvalidTransactionId then modify mark_dirty
    else
      old <- ask (λ m, CLOGTransactionIsOld (NextXid m) xid);;
      if (old : bool) then modify mark_dirty else ret tt.

Definition SetHintBits (infomask xid : Z) : proc scan unit :=
  wait <- (if TransactionIdIsValid xid then ask (λ m, NeedsFlush m xid) else ret false);;
  if wait && BufferIsPermanent then ret tt
  else
    modify (with_tup (set_infomask infomask));;
    if (infomask =? HEAP_XMIN_INVALID) || (infomask =? HEAP_XMIN_COMMITTED) then markDirty true
    else if (infomask =? HEAP_XMAX_INVALID) || (infomask =? HEAP_XMAX_COMMITTED) then markDirty false
    else raise ERROR.

Definition HeapTupleSetHintBits (infomask xid : Z) : proc scan unit := SetHintBits infomask xid.

(** ** Snapshots *)

Definition XidInMVCCSnapshot_Local (xid : Z) (snapshot : SnapshotData) : bool :=
  if TransactionIdPrecedes xid (snap_xmin snapshot) then false
  else if TransactionIdFollowsOrEquals xid (snap_xmax snapshot) then true
  else if negb (takenDuringRecovery snapshot) then
    if negb (suboverflowed snapshot) then
      if existsb (Z.eqb xid) (subxip snapshot) then true else existsb (Z.eqb xid) (xip snapshot)
    else
      let xid := TopmostTransaction xid in
      if TransactionIdPrecedes xid (snap_xmin snapshot) then false else existsb (Z.eqb xid) (xip snapshot)
  else if suboverflowed snapshot then
    let xid := TopmostTransaction xid in
    if TransactionIdPrecedes xid (snap_xmin snapshot) then false else existsb (Z.eqb xid) (subxip snapshot)
  else existsb (Z.eqb xid) (subxip snapshot).

(** The second result is [*setDistributedSnapshotIgnore]. *)
Definition XidInMVCCSnapshot (xid : Z) (distributedSnapshotIgnore : bool) : proc scan (bool * bool) :=
  s <- get;;
  let local := XidInMVCCSnapshot_Local xid (snap s) in
  if haveDistribSnapshot (snap s) && negb distributedSnapshotIgnore && negb IS_QUERY_DISPATCHER then
    log <- ask LogAt;;
    match DistributedSnapshotWithLocalMapping_CommittedTest max_local_cache log
            (distribSnapshotWithLocalMapping (snap s)) (xact_cache s) xid false with
    | Err _ => raise ERROR
    | Ok (r, m, c) =>
        modify (with_caches m c);;
        match r with
        | DISTRIBUTEDSNAPSHOT_COMMITTED_INPROGRESS => ret (true, false)
        | DISTRIBUTEDSNAPSHOT_COMMITTED_VISIBLE => ret (false, false)
        | DISTRIBUTEDSNAPSHOT_COMMITTED_IGNORE => ret (local, true)
        | DISTRIBUTEDSNAPSHOT_COMMITTED_NONE => raise FATAL
        end
    end
  else ret (local, false).

(** ** The inserting transaction

    The first part of most checks: [dead] is the result for a row that was never there, [rest] goes on
    when the inserting transaction is taken as committed, [own] handles a row of the own transaction
    and [running] one that another transaction is inserting. *)

(** Rows moved by a [VACUUM FULL] of old; [other] handles all other rows. *)
Definition moved_prologue {A} (dead : A) (rest other : proc scan A) : proc scan A :=
  t <- tuple;;
  if has (t_infomask t) HEAP_MOVED_OFF then
    let xvac := HeapTupleHeaderGetXvac t in
    if TransactionIdIsCurrentTransactionId xvac then ret dead
    else
      running <- TransactionIdIsInProgress xvac;;
      if (running : bool) then rest
      else
        committed <- TransactionIdDidCommit xvac;;
        if (committed : bool) then SetHintBits HEAP_XMIN_INVALID InvalidTransactionId;; ret dead
        else SetHintBits HEAP_XMIN_COMMITTED InvalidTransactionId;; rest
  else if has (t_infomask t) HEAP_MOVED_IN then
    let xvac := HeapTupleHeaderGetXvac t in
    if TransactionIdIsCurrentTransactionId xvac then rest
    else
      running <- TransactionIdIsInProgress xvac;;
      if (running : bool) then ret dead
      else
        committed <- TransactionIdDidCommit xvac;;
        if (committed : bool) then SetHintBits HEAP_XMIN_COMMITTED InvalidTransactionId;; rest
        else SetHintBits HEAP_XMIN_INVALID InvalidTransactionId;; ret dead
  else other.

(** What became of the inserting transaction, when it is not the own one. *)
Definition inserted_by_other {A} (dead : A) (running rest : proc scan A) : proc scan A :=
  t <- tuple;;
  let xmin := HeapTupleHeaderGetRawXmin t in
  inprogress <- TransactionIdIsInProgress xmin;;
  if (inprogress : bool) then running
  else
    committed <- TransactionIdDidCommit xmin;;
    if (committed : bool) then SetHintBits HEAP_XMIN_COMMITTED xmin;; rest
    else SetHintBits HEAP_XMIN_INVALID InvalidTransactionId;; ret dead.

Definition xmin_prologue {A} (dead : A) (own running rest : proc scan A) : proc scan A :=
  t <- tuple;;
  if HeapTupleHeaderXminCommitted t then rest
  else if HeapTupleHeaderXminInvalid t then ret dead
  else
    moved_prologue dead rest
      (if TransactionIdIsCurrentTransactionId (HeapTupleHeaderGetRawXmin t) then own
       else inserted_by_other dead running rest).

(** ** A row of the own transaction in [HeapTupleSatisfiesSelf] and [HeapTupleSatisfiesDirty] *)
Definition own_row_lives : proc scan bool :=
  t <- tuple;;
  if has (t_infomask t) HEAP_XMAX_INVALID then ret true
  else if HEAP_XMAX_IS_LOCKED_ONLY (t_infomask t) then ret true
  else if has (t_infomask t) HEAP_XMAX_IS_MULTI then
    ret (negb (TransactionIdIsCurrentTransactionId (HeapTupleGetUpdateXid t)))
  else if negb (TransactionIdIsCurrentTransactionId (HeapTupleHeaderGetRawXmax t)) then
    SetHintBits HEAP_XMAX_INVALID InvalidTransactionId;; ret true
  else ret false.

(** ** The deleting transaction in [HeapTupleSatisfiesSelf] and [HeapTupleSatisfiesDirty]

    Once the row is known to be inserted for good, the two differ in what they note about a running
    transaction that deletes it. *)
Definition xmax_present (note : Z → proc scan unit) : proc scan bool :=
  t <- tuple;;
  let xmax := HeapTupleHeaderGetRawXmax t in
  if has (t_infomask t) HEAP_XMAX_INVALID then ret true
  else if has (t_infomask t) HEAP_XMAX_COMMITTED then ret (HEAP_XMAX_IS_LOCKED_ONLY (t_infomask t))
  else if has (t_infomask t) HEAP_XMAX_IS_MULTI then
    if HEAP_XMAX_IS_LOCKED_ONLY (t_infomask t) then ret true
    else
      let xmax := HeapTupleGetUpdateXid t in
      if TransactionIdIsCurrentTransactionId xmax then ret false
      else
        running <- TransactionIdIsInProgress xmax;;
        if (running : bool) then note xmax;; ret true
        else
          committed <- TransactionIdDidCommit xmax;;
          ret (negb committed)
  else if TransactionIdIsCurrentTransactionId xmax then ret (HEAP_XMAX_IS_LOCKED_ONLY (t_infomask t))
  else
    running <- TransactionIdIsInProgress xmax;;
    if (running : bool) then
      (if negb (HEAP_XMAX_IS_LOCKED_ONLY (t_infomask t)) then note xmax else ret tt);;
      ret true
    else
      committed <- TransactionIdDidCommit xmax;;
      if negb committed then SetHintBits HEAP_XMAX_INVALID InvalidTransactionId;; ret true
      else if HEAP_XMAX_IS_LOCKED_ONLY (t_infomask t) then SetHintBits HEAP_XMAX_INVALID InvalidTransactionId;; ret true
      else SetHintBits HEAP_XMAX_COMMITTED xmax;; ret false.

(** ** HeapTupleSatisfiesSelf *)
Definition HeapTupleSatisfiesSelf : proc scan bool :=
  xmin_prologue false own_row_lives (ret false) (xmax_present (λ _, ret tt)).

Definition HeapTupleSatisfiesAny : proc scan bool := ret true.

(** ** HeapTupleSatisfiesToast *)
Definition HeapTupleSatisfiesToast : proc scan bool :=
  t <- tuple;;
  if HeapTupleHeaderXminCommitted t then ret true
  else if HeapTupleHeaderXminInvalid t then ret false
  else moved_prologue false (ret true) (ret true).

(** ** HeapTupleSatisfiesUpdate *)

(** [HeapTupleHeaderGetCmax(tuple) >= curcid] for a row updated by the own transaction. *)
Definition self_updated (curcid : Z) : proc scan HTSU_Result :=
  t <- tuple;;
  cmax <- on_combos (HeapTupleHeaderGetCmax t);;
  ret (if curcid <=? cmax then HeapTupleSelfUpdated else HeapTupleInvisible).

Definition own_row_update (curcid : Z) : proc scan HTSU_Result :=
  t <- tuple;;
  cmin <- on_combos (HeapTupleHeaderGetCmin t);;
  if curcid <=? cmin then ret HeapTupleInvisible
  else if has (t_infomask t) HEAP_XMAX_INVALID then ret HeapTupleMayBeUpdated
  else if HEAP_XMAX_IS_LOCKED_ONLY (t_infomask t) then
    let xmax := HeapTupleHeaderGetRawXmax t in
    if has (t_infomask t) HEAP_XMAX_IS_MULTI then
      if HEAP_LOCKED_UPGRADED (t_infomask t) then ret HeapTupleMayBeUpdated
      else
        remote <- MultiXactHasRunningRemoteMembers xmax;;
        ret (if (remote : bool) then HeapTupleBeingUpdated else HeapTupleMayBeUpdated)
    else
      running <- TransactionIdIsInProgress xmax;;
      if negb running then ret HeapTupleMayBeUpdated
      else ret (if negb (TransactionIdIsCurrentTransactionId xmax) then HeapTupleBeingUpdated else HeapTupleMayBeUpdated)
  else if has (t_infomask t) HEAP_XMAX_IS_MULTI then
    if negb (TransactionIdIsCurrentTransactionId (HeapTupleGetUpdateXid t)) then
      remote <- MultiXactHasRunningRemoteMembers (HeapTupleHeaderGetRawXmax t);;
      ret (if (remote : bool) then HeapTupleBeingUpdated else HeapTupleMayBeUpdated)
    else self_updated curcid
  else if negb (TransactionIdIsCurrentTransactionId (HeapTupleHeaderGetRawXmax t)) then
    SetHintBits HEAP_XMAX_INVALID InvalidTransactionId;; ret HeapTupleMayBeUpdated
  else self_updated curcid.

(** The deleting transaction, once the row is known to be inserted for good. *)
Definition xmax_update (curcid : Z) : proc scan HTSU_Result :=
  t <- tuple;;
  let xmax := HeapTupleHeaderGetRawXmax t in
  if has (t_infomask t) HEAP_XMAX_INVALID then ret HeapTupleMayBeUpdated
  else if has (t_infomask t) HEAP_XMAX_COMMITTED then
    ret (if HEAP_XMAX_IS_LOCKED_ONLY (t_infomask t) then HeapTupleMayBeUpdated else HeapTupleUpdated)
  else if has (t_infomask t) HEAP_XMAX_IS_MULTI then
    if HEAP_LOCKED_UPGRADED (t_infomask t) then ret HeapTupleMayBeUpdated
    else if HEAP_XMAX_IS_LOCKED_ONLY (t_infomask t) then
      running <- MultiXactIdIsRunning xmax;;
      if (running : bool) then ret HeapTupleBeingUpdated
      else SetHintBits HEAP_XMAX_INVALID InvalidTransactionId;; ret HeapTupleMayBeUpdated
    else
      let updater := HeapTupleGetUpdateXid t in
      if TransactionIdIsCurrentTransactionId updater then self_updated curcid
      else
        running <- TransactionIdIsInProgress updater;;
        if (running : bool) then ret HeapTupleBeingUpdated
        else
          committed <- TransactionIdDidCommit updater;;
          if (committed : bool) then ret HeapTupleUpdated
          else
            lockers <- MultiXactIdIsRunning xmax;;
            if negb lockers then SetHintBits HEAP_XMAX_INVALID InvalidTransactionId;; ret HeapTupleMayBeUpdated
            else ret HeapTupleBeingUpdated
  else if TransactionIdIsCurrentTransactionId xmax then
    if HEAP_XMAX_IS_LOCKED_ONLY (t_infomask t) then ret HeapTupleMayBeUpdated else self_updated curcid
  else
    running <- TransactionIdIsInProgress xmax;;
    if (running : bool) then ret HeapTupleBeingUpdated
    else
      committed <- TransactionIdDidCommit xmax;;
      if negb committed then SetHintBits HEAP_XMAX_INVALID InvalidTransactionId;; ret HeapTupleMayBeUpdated
      else if HEAP_XMAX_IS_LOCKED_ONLY (t_infomask t) then
        SetHintBits HEAP_XMAX_INVALID InvalidTransactionId;; ret HeapTupleMayBeUpdated
      else SetHintBits HEAP_XMAX_COMMITTED xmax;; ret HeapTupleUpdated.

Definition HeapTupleSatisfiesUpdate (curcid : Z) : proc scan HTSU_Result :=
  xmin_prologue HeapTupleInvisible (own_row_update curcid) (ret HeapTupleInvisible) (xmax_update curcid).

(** ** HeapTupleSatisfiesDirty *)
Definition HeapTupleSatisfiesDirty : proc scan bool :=
  modify (with_bounds InvalidTransactionId InvalidTransactionId);;
  xmin_prologue false own_row_lives
    (t <- tuple;;
     modify (λ s, with_bounds (HeapTupleHeaderGetRawXmin t) (snap_xmax (snap s)) s);;
     ret true)
    (xmax_present (λ xmax, modify (λ s, with_bounds (snap_xmin (snap s)) xmax s))).

(** ** HeapTupleSatisfiesMVCC *)

(** [HeapTupleHeaderGetCmax(tuple) >= snapshot->curcid]. *)
Definition deleted_later : proc scan bool :=
  s <- get;;
  cmax <- on_combos (HeapTupleHeaderGetCmax (tup s));;
  ret (curcid (snap s) <=? cmax).

Definition own_row_mvcc : proc scan bool :=
  s <- get;;
  let t := tup s in
  cmin <- on_combos (HeapTupleHeaderGetCmin t);;
  if curcid (snap s) <=? cmin then ret false
  else if has (t_infomask t) HEAP_XMAX_INVALID then ret true
  else if HEAP_XMAX_IS_LOCKED_ONLY (t_infomask t) then ret true
  else if has (t_infomask t) HEAP_XMAX_IS_MULTI then
    if negb (TransactionIdIsCurrentTransactionId (HeapTupleGetUpdateXid t)) then ret true else deleted_later
  else if negb (TransactionIdIsCurrentTransactionId (HeapTupleHeaderGetRawXmax t)) then
    SetHintBits HEAP_XMAX_INVALID InvalidTransactionId;; ret true
  else deleted_later.

(** [XidInMVCCSnapshot] for the inserting or the deleting transaction, with its note in the header. *)
Definition in_snapshot_noted (isXmin : bool) (xid : Z) : proc scan bool :=
  t <- tuple;;
  let bit := if isXmin then HEAP_XMIN_DISTRIBUTED_SNAPSHOT_IGNORE else HEAP_XMAX_DISTRIBUTED_SNAPSHOT_IGNORE in
  r <- XidInMVCCSnapshot xid (has (t_infomask2 t) bit);;
  let '(inSnapshot, setDistributedSnapshotIgnore) := r in
  (if (setDistributedSnapshotIgnore : bool) then modify (with_tup (set_infomask2 bit));; markDirty isXmin else ret tt);;
  ret inSnapshot.

(** The deleting transaction, once the row is known to have been inserted before the snapshot. *)
Definition xmax_mvcc : proc scan bool :=
  t <- tuple;;
  let xmax := HeapTupleHeaderGetRawXmax t in
  if has (t_infomask t) HEAP_XMAX_INVALID then ret true
  else if HEAP_XMAX_IS_LOCKED_ONLY (t_infomask t) then ret true
  else if has (t_infomask t) HEAP_XMAX_IS_MULTI then
    let xmax := HeapTupleGetUpdateXid t in
    if TransactionIdIsCurrentTransactionId xmax then deleted_later
    else
      running <- TransactionIdIsInProgress xmax;;
      if (running : bool) then ret true
      else
        committed <- TransactionIdDidCommit xmax;;
        if (committed : bool) then in_snapshot_noted false xmax
        else ret true
  else if negb (has (t_infomask t) HEAP_XMAX_COMMITTED) then
    if TransactionIdIsCurrentTransactionId xmax then deleted_later
    else
      running <- TransactionIdIsInProgress xmax;;
      if (running : bool) then ret true
      else
        committed <- TransactionIdDidCommit xmax;;
        if negb committed then SetHintBits HEAP_XMAX_INVALID InvalidTransactionId;; ret true
        else
          SetHintBits HEAP_XMAX_COMMITTED xmax;;
          in_snapshot_noted false xmax
  else in_snapshot_noted false xmax.

Definition HeapTupleSatisfiesMVCC : proc scan bool :=
  xmin_prologue false own_row_mvcc (ret false)
    (t <- tuple;;
     if HeapTupleHeaderXminFrozen t then xmax_mvcc
     else
       inSnapshot <- in_snapshot_noted true (HeapTupleHeaderGetRawXmin t);;
       if (inSnapshot : bool) then ret false else xmax_mvcc).

(** ** HeapTupleHeaderIsOnlyLocked *)
Definition HeapTupleHeaderIsOnlyLocked : proc scan bool :=
  t <- tuple;;
  if has (t_infomask t) HEAP_XMAX_INVALID then ret true
  else if has (t_infomask t) HEAP_XMAX_LOCK_ONLY then ret true
  else if negb (TransactionIdIsValid (HeapTupleHeaderGetRawXmax t)) then ret true
  else if negb (has (t_infomask t) HEAP_XMAX_IS_MULTI) then ret false
  else
    let xmax := HeapTupleGetUpdateXid t in
    if TransactionIdIsCurrentTransactionId xmax then ret false
    else
      running <- TransactionIdIsInProgress xmax;;
      if (running : bool) then ret false
      else
        committed <- TransactionIdDidCommit xmax;;
        ret (negb committed).

(** ** HeapTupleSatisfiesVacuum *)

Definition own_row_vacuum : proc scan HTSV_Result :=
  t <- tuple;;
  if has (t_infomask t) HEAP_XMAX_INVALID then ret HEAPTUPLE_INSERT_IN_PROGRESS
  else
    locked <- (if HEAP_XMAX_IS_LOCKED_ONLY (t_infomask t) then ret true else HeapTupleHeaderIsOnlyLocked);;
    if (locked : bool) then ret HEAPTUPLE_INSERT_IN_PROGRESS
    else if TransactionIdIsCurrentTransactionId (HeapTupleHeaderGetUpdateXid t) then ret HEAPTUPLE_DELETE_IN_PROGRESS
    else ret HEAPTUPLE_INSERT_IN_PROGRESS.

(** Rows moved by a [VACUUM FULL] of old. *)
Definition moved_vacuum (rest other : proc scan HTSV_Result) : proc scan HTSV_Result :=
  t <- tuple;;
  let xvac := HeapTupleHeaderGetXvac t in
  if has (t_infomask t) HEAP_MOVED_OFF then
    if TransactionIdIsCurrentTransactionId xvac then ret HEAPTUPLE_DELETE_IN_PROGRESS
    else
      running <- TransactionIdIsInProgress xvac;;
      if (running : bool) then ret HEAPTUPLE_DELETE_IN_PROGRESS
      else
        committed <- TransactionIdDidCommit xvac;;
        if (committed : bool) then SetHintBits HEAP_XMIN_INVALID InvalidTransactionId;; ret HEAPTUPLE_DEAD
        else SetHintBits HEAP_XMIN_COMMITTED InvalidTransactionId;; rest
  else if has (t_infomask t) HEAP_MOVED_IN then
    if TransactionIdIsCurrentTransactionId xvac then ret HEAPTUPLE_INSERT_IN_PROGRESS
    else
      running <- TransactionIdIsInProgress xvac;;
      if (running : bool) then ret HEAPTUPLE_INSERT_IN_PROGRESS
      else
        committed <- TransactionIdDidCommit xvac;;
        if (committed : bool) then SetHintBits HEAP_XMIN_COMMITTED InvalidTransactionId;; rest
        else SetHintBits HEAP_XMIN_INVALID InvalidTransactionId;; ret HEAPTUPLE_DEAD
  else other.

(** A row that was only locked: the lock is forgotten once the lockers are gone. *)
Definition locked_vacuum : proc scan HTSV_Result :=
  t <- tuple;;
  if negb (has (t_infomask t) HEAP_XMAX_COMMITTED) then
    running <- (if has (t_infomask t) HEAP_XMAX_IS_MULTI then
                  if negb (HEAP_LOCKED_UPGRADED (t_infomask t)) then MultiXactIdIsRunning (HeapTupleHeaderGetRawXmax t)
                  else ret false
                else TransactionIdIsInProgress (HeapTupleHeaderGetRawXmax t));;
    if (running : bool) then ret HEAPTUPLE_LIVE
    else SetHintBits HEAP_XMAX_INVALID InvalidTransactionId;; ret HEAPTUPLE_LIVE
  else ret HEAPTUPLE_LIVE.

(** The deleting transaction committed: is it old enough? *)
Definition dead_by (OldestXmin xmax : Z) : HTSV_Result :=
  if negb (TransactionIdPrecedes xmax OldestXmin) then HEAPTUPLE_RECENTLY_DEAD else HEAPTUPLE_DEAD.

Definition xmax_vacuum (OldestXmin : Z) : proc scan HTSV_Result :=
  t <- tuple;;
  let xmax := HeapTupleHeaderGetRawXmax t in
  if has (t_infomask t) HEAP_XMAX_INVALID then ret HEAPTUPLE_LIVE
  else if HEAP_XMAX_IS_LOCKED_ONLY (t_infomask t) then locked_vacuum
  else if has (t_infomask t) HEAP_XMAX_IS_MULTI then
    let updater := HeapTupleGetUpdateXid t in
    running <- TransactionIdIsInProgress updater;;
    if (running : bool) then ret HEAPTUPLE_DELETE_IN_PROGRESS
    else
      committed <- TransactionIdDidCommit updater;;
      if (committed : bool) then ret (dead_by OldestXmin updater)
      else
        lockers <- MultiXactIdIsRunning xmax;;
        (if negb lockers then SetHintBits HEAP_XMAX_INVALID InvalidTransactionId else ret tt);;
        SetHintBits HEAP_XMAX_INVALID InvalidTransactionId;;
        ret HEAPTUPLE_LIVE
  else if negb (has (t_infomask t) HEAP_XMAX_COMMITTED) then
    running <- TransactionIdIsInProgress xmax;;
    if (running : bool) then ret HEAPTUPLE_DELETE_IN_PROGRESS
    else
      committed <- TransactionIdDidCommit xmax;;
      if (committed : bool) then SetHintBits HEAP_XMAX_COMMITTED xmax;; ret (dead_by OldestXmin xmax)
      else SetHintBits HEAP_XMAX_INVALID InvalidTransactionId;; ret HEAPTUPLE_LIVE
  else ret (dead_by OldestXmin xmax).

Definition HeapTupleSatisfiesVacuum (OldestXmin : Z) : proc scan HTSV_Result :=
  t <- tuple;;
  if HeapTupleHeaderXminCommitted t then xmax_vacuum OldestXmin
  else if HeapTupleHeaderXminInvalid t then ret HEAPTUPLE_DEAD
  else
    moved_vacuum (xmax_vacuum OldestXmin)
      (if TransactionIdIsCurrentTransactionId (HeapTupleHeaderGetRawXmin t) then own_row_vacuum
       else inserted_by_other HEAPTUPLE_DEAD (ret HEAPTUPLE_INSERT_IN_PROGRESS) (xmax_vacuum OldestXmin)).

(** ** HeapTupleIsSurelyDead *)
Definition HeapTupleIsSurelyDead (OldestXmin : Z) (t : HeapTupleHeader) : bool :=
  if negb (HeapTupleHeaderXminCommitted t) then HeapTupleHeaderXminInvalid t
  else if has (t_infomask t) HEAP_XMAX_INVALID then false
  else if HEAP_XMAX_IS_LOCKED_ONLY (t_infomask t) then false
  else if has (t_infomask t) HEAP_XMAX_IS_MULTI then false
  else if negb (has (t_infomask t) HEAP_XMAX_COMMITTED) then false
  else TransactionIdPrecedes (HeapTupleHeaderGetRawXmax t) OldestXmin.
End Tqual.
