(* ===== verification/TqualFacts.v ===== *)
(** * Visibility of row versions: hints are true, whatever happens meanwhile

    What the rest of the server promises is an interface with laws: every transaction has a fate, a
    transaction that was once found not to be in progress has reached it, and a snapshot does not see
    what was in progress when it was taken or afterwards.  Against it: the invariant of a row's hints
    and of the caches, one lemma per question, hint and first part of a check. *)
From S2P Require Import Prelude Proc DistributedSnapshot DistributedSnapshotFacts Clog TransAm ObjectIds Htup ComboCid Tqual.

(** ** The history of a segment *)

(** [fate]: whether a transaction commits in the end; [assigned n]: the ids handed out before moment
    [n]; [gxid]: the time stamp and the distributed id of a local transaction; [forgotten n]: the log
    has been truncated of it; [stamp], [low]: the start of the dispatcher, and the smallest distributed
    id that some snapshot looks up; [sessions]: the ids of each running session; [in_use],
    [my_snapshot]: the snapshots of all sessions and of this one; [track_locks]: whether the hints are
    to be true of lockers too, and not only of deletions. *)
Class History := mkHistory {
  fate : Z → bool;
  assigned : nat → Z → Prop;
  gxid : Z → option (Z * Z);
  forgotten : nat → Z → bool;
  stamp : Z;
  low : Z;
  sessions : (Z → bool) → Prop;
  in_use : SnapshotData → Prop;
  my_snapshot : SnapshotData → Prop;
  track_locks : Prop;
}.

(** A snapshot with another mapping of local ids. *)
Definition with_mapping (m : DistributedSnapshotWithLocalMapping) (S : SnapshotData) : SnapshotData :=
  mkSnapshot (snap_xmin S) (snap_xmax S) (xip S) (subxip S) (suboverflowed S) (takenDuringRecovery S)
    (haveDistribSnapshot S) (curcid S) m.

Definition dsnap (S : SnapshotData) : DistributedSnapshot := ds (distribSnapshotWithLocalMapping S).

Section Reference.
Context {env : TqualEnv} {H : History}.

Definition ended (n : nat) (x : Z) : Prop := assigned n x ∧ IsInProgress (moments n) x = false.
Definition committed (n : nat) (x : Z) : Prop := ended n x ∧ fate x = true.
Definition failed (n : nat) (x : Z) : Prop := ended n x ∧ fate x = false.

(** The distributed snapshot decides for transactions of the same dispatcher. *)
Definition distributed_view (S : SnapshotData) (x : Z) : option bool :=
  if haveDistribSnapshot S && negb IS_QUERY_DISPATCHER && TransactionIdIsNormal x then
    match gxid x with
    | Some (ts, d) =>
        if decide (ts = distribTransactionTimeStamp (dsnap S)) then
          Some (bool_decide (xmin (dsnap S) ≤ d ∧ (xmax (dsnap S) ≤ d ∨ d ∈ in_progress (dsnap S))))
        else None
    | None => None
    end
  else None.

(** Whether a transaction counts as in progress for a snapshot. *)
Definition in_snapshot (S : SnapshotData) (x : Z) : bool := default (XidInMVCCSnapshot_Local x S) (distributed_view S x).

(** The distributed snapshot need not be asked any more, by any session. *)
Definition ignorable (x : Z) : Prop := ∀ S, in_use S → in_snapshot S x = XidInMVCCSnapshot_Local x S.
End Reference.

(** The promises of the rest of the server. *)
Class HistoryLaws {env : TqualEnv} {H : History} : Prop := {
  assigned_stays : ∀ n m x, assigned n x → (n ≤ m)%nat → assigned m x;
  ended_stays : ∀ n m x, assigned n x → IsInProgress (moments n) x = false → (n ≤ m)%nat → IsInProgress (moments m) x = false;
  ended_verdict : ∀ n m x, assigned n x → IsInProgress (moments n) x = false → (n ≤ m)%nat → DidCommit (moments m) x = fate x;
  session_runs : ∀ cur n x, sessions cur → cur x = true → IsInProgress (moments n) x = true;
  my_session : sessions TransactionIdIsCurrentTransactionId;
  log_knows : ∀ n x, committed n x → TransactionIdIsNormal x = true →
    log_committed_check (LogAt (moments n)) x = Ok (if forgotten n x then None else gxid x);
  forgotten_stays : ∀ n m x, forgotten n x = true → (n ≤ m)%nat → forgotten m x = true;
  forgotten_old : ∀ n x ts d, forgotten n x = true → gxid x = Some (ts, d) → ts ≠ stamp ∨ d < low;
  snap_stamp : ∀ S, in_use S → distribTransactionTimeStamp (dsnap S) = stamp;
  snap_low : ∀ S, in_use S → low ≤ xminAllDistributedSnapshots (dsnap S);
  snap_all : ∀ S S', in_use S → in_use S' → xminAllDistributedSnapshots (dsnap S) ≤ xmin (dsnap S');
  snap_old : ∀ S x d, in_use S → fate x = true → gxid x = Some (stamp, d) → d < xmin (dsnap S) →
    XidInMVCCSnapshot_Local x S = false;
  mine_in_use : ∀ S, my_snapshot S → in_use S;
  mine_caches : ∀ S m, my_snapshot S → ds m = dsnap S → my_snapshot (with_mapping m S);
  running_unseen : ∀ S n x, my_snapshot S → assigned n x → TransactionIdIsCurrentTransactionId x = false →
    IsInProgress (moments n) x = true → fate x = true → in_snapshot S x = true;
  cache_limit : 0 ≤ max_local_cache;
}.

Section Facts.
Context {env : TqualEnv} {tenv : TransamEnv} {cenv : ComboEnv} {H : History} {laws : HistoryLaws}.
Implicit Types (n : nat) (x : Z) (S : SnapshotData) (t : HeapTupleHeader) (s : scan).

Lemma ended_later n m x : (n ≤ m)%nat → ended n x → ended m x.
Proof. intros Hm [Ha He]. split; [by apply (assigned_stays n)|by apply (ended_stays n)]. Qed.

Lemma committed_later n m x : (n ≤ m)%nat → committed n x → committed m x.
Proof. intros Hm [He Hf]. split; [by apply (ended_later n)|done]. Qed.

Lemma failed_later n m x : (n ≤ m)%nat → failed n x → failed m x.
Proof. intros Hm [He Hf]. split; [by apply (ended_later n)|done]. Qed.

Lemma ended_not_current n x cur : sessions cur → ended n x → cur x = false.
Proof. intros Hs [_ He]. destruct (cur x) eqn:E; [|done]. by rewrite (session_runs cur n x) in He. Qed.

(** ** The distributed test *)

Definition caches_ok n (m : DistributedSnapshotWithLocalMapping) (c : LocalDistribXactCache) : Prop :=
  dslm_ok (LogAt (moments n)) m ∧ cache_ok max_local_cache c ∧ cache_agrees (LogAt (moments n)) stamp low c ∧
  (∀ y v, mapping c y = Some v → committed n y ∧ TransactionIdIsNormal y = true) ∧
  (∀ y, y ∈ cached m → committed n y).

(** What the log says later. *)
Lemma log_later n n' x r :
  committed n x → TransactionIdIsNormal x = true → (n ≤ n')%nat → log_committed_check (LogAt (moments n)) x = Ok r →
  log_committed_check (LogAt (moments n')) x = Ok r ∨
  log_committed_check (LogAt (moments n')) x = Ok None ∧ ∀ ts d, r = Some (ts, d) → ts ≠ stamp ∨ d < low.
Proof.
  intros Hx Hnorm Hn. rewrite (log_knows n x), (log_knows n' x) by (done || by apply (committed_later n)). intros [= <-].
  destruct (forgotten n x) eqn:E1; [left; by rewrite (forgotten_stays n n' x)|].
  destruct (forgotten n' x) eqn:E2; [|by left]. right. split; [done|]. intros ts d Hg. by apply (forgotten_old n' x).
Qed.

Lemma caches_later n n' m c :
  (n ≤ n')%nat → distribTransactionTimeStamp (ds m) = stamp → low ≤ xminAllDistributedSnapshots (ds m) →
  caches_ok n m c → caches_ok n' m c.
Proof.
  intros Hn Hst Hlow (Hm & Hc & Hag & Hk & Hcm). split_and!; [|done| |..].
  - destruct Hm as [D1 D2 D3 D4 D5]. split; [done..| |done]. rewrite Forall_forall in D4 |- *. intros y Hy.
    destruct (D4 y Hy) as (Hnorm & dx & Hl & H1 & H2 & H3). split; [done|]. exists dx. split_and!; [|done..].
    destruct (log_later n n' y _ (Hcm y Hy) Hnorm Hn Hl) as [|[_ Hold]]; [done|].
    destruct (Hold _ _ eq_refl); [done|lia].
  - intros y dx Hy. destruct (Hk y dx Hy) as [Hcy Hnorm]. specialize (Hag y dx Hy). destruct (dx =? 0).
    + by destruct (log_later n n' y _ Hcy Hnorm Hn Hag) as [|[]].
    + destruct Hag as [Hag|[Hag Hd]].
      * destruct (log_later n n' y _ Hcy Hnorm Hn Hag) as [|[? Hold]]; [by left|right]. split; [done|].
        by destruct (Hold _ _ eq_refl).
      * right. split; [|done]. by destruct (log_later n n' y _ Hcy Hnorm Hn Hag) as [|[]].
  - intros y v Hy. destruct (Hk y v Hy). split; [by apply (committed_later n)|done].
  - intros y Hy. apply (committed_later n); auto.
Qed.

(** An id that some snapshot in use is past need not be looked up. *)
Lemma old_ignorable x d S : in_use S → fate x = true → gxid x = Some (stamp, d) → d < xminAllDistributedSnapshots (dsnap S) → ignorable x.
Proof.
  intros HS Hf Hg Hd S' HS'. pose proof (snap_all S S' HS HS'). unfold in_snapshot, distributed_view.
  destruct (_ && _ && _); [|done]. rewrite Hg. case_decide; [|done]. cbn [default from_option].
  rewrite (snap_old S' x d) by (done || lia). apply bool_decide_eq_false. lia.
Qed.

Lemma unlogged_ignorable x : (∀ ts d, gxid x = Some (ts, d) → ts ≠ stamp) → ignorable x.
Proof.
  intros Hg S HS. unfold in_snapshot, distributed_view. destruct (_ && _ && _); [|done].
  destruct (gxid x) as [[ts d]|]; [|done]. rewrite decide_False; [done|]. rewrite (snap_stamp S HS). by apply (Hg ts d).
Qed.

(** What an answer of the test says about a transaction. *)
Definition view_answer S x (r : DistributedSnapshotCommitted) : Prop :=
  match r with
  | DISTRIBUTEDSNAPSHOT_COMMITTED_INPROGRESS => in_snapshot S x = true
  | DISTRIBUTEDSNAPSHOT_COMMITTED_VISIBLE => in_snapshot S x = false
  | DISTRIBUTEDSNAPSHOT_COMMITTED_IGNORE => ignorable x
  | DISTRIBUTEDSNAPSHOT_COMMITTED_NONE => False
  end.

(** The test without caches. *)
Lemma reference_view n S x :
  in_use S → committed n x → TransactionIdIsNormal x = true → haveDistribSnapshot S = true → IS_QUERY_DISPATCHER = false →
  ∃ r, reference_test (LogAt (moments n)) (dsnap S) x false = Ok r ∧ view_answer S x r.
Proof.
  intros HS Hx Hnorm Hhave HQD.
  unfold reference_test. rewrite Hnorm. cbn [negb]. rewrite (log_knows n x Hx Hnorm). cbn [mbind result_bind].
  destruct (forgotten n x) eqn:Hfor.
  - eexists; split; [done|]. cbn.
    destruct (gxid x) as [[ts d]|] eqn:Hg; [|apply unlogged_ignorable; by rewrite Hg].
    destruct (decide (ts = stamp)) as [->|Hne]; [|apply unlogged_ignorable; rewrite Hg; by intros ? ? [= <- <-]].
    destruct (forgotten_old n x stamp d Hfor Hg) as [|Hd]; [done|].
    apply (old_ignorable x d S HS (proj2 Hx) Hg). pose proof (snap_low S HS). lia.
  - destruct (gxid x) as [[ts d]|] eqn:Hg; [|eexists; split; [done|]; cbn; apply unlogged_ignorable; by rewrite Hg].
    rewrite (snap_stamp S HS). destruct (decide (ts ≠ stamp ∨ d < xminAllDistributedSnapshots (dsnap S))) as [Hd|Hd].
    + eexists; split; [done|]. cbn. destruct (decide (ts = stamp)) as [->|Hne].
      * apply (old_ignorable x d S HS (proj2 Hx) Hg). by destruct Hd.
      * apply unlogged_ignorable. rewrite Hg. by intros ? ? [= <- <-].
    + assert (Hts : ts = stamp) by (destruct (decide (ts = stamp)); tauto).
      assert (Hv : in_snapshot S x = bool_decide (xmin (dsnap S) ≤ d ∧ (xmax (dsnap S) ≤ d ∨ d ∈ in_progress (dsnap S)))).
      { unfold in_snapshot, distributed_view. rewrite Hhave, HQD, Hnorm, Hg. cbn [negb andb].
        by rewrite (snap_stamp S HS), (decide_True (P := ts = stamp)) by done. }
      destruct (decide (xmin (dsnap S) ≤ d ∧ (xmax (dsnap S) ≤ d ∨ d ∈ in_progress (dsnap S)))) as [Hin|Hin];
        (eexists; split; [done|]; cbn; rewrite Hv); [by apply bool_decide_eq_true|by apply bool_decide_eq_false].
Qed.

(** The test answers as the snapshot determines, and keeps the caches right. *)
Lemma committed_test_view n S m c x :
  in_use S → distribSnapshotWithLocalMapping S = m → caches_ok n m c → committed n x →
  haveDistribSnapshot S = true → IS_QUERY_DISPATCHER = false →
  ∃ r m' c', DistributedSnapshotWithLocalMapping_CommittedTest max_local_cache (LogAt (moments n)) m c x false = Ok (r, m', c') ∧
    caches_ok n m' c' ∧ ds m' = ds m ∧
    view_answer S x r.
Proof.
  intros HS Em Hco Hx Hhave HQD. pose proof Hco as (Hm & Hc & Hag & Hk & Hcm).
  pose proof (committed_test_spec max_local_cache cache_limit (LogAt (moments n)) m c x false low Hm Hc) as Hspec.
  assert (Eds : ds m = dsnap S) by (unfold dsnap; by rewrite Em).
  rewrite Eds in Hspec. rewrite (snap_stamp S HS) in Hspec. specialize (Hspec (snap_low S HS) Hag).
  destruct (TransactionIdIsNormal x) eqn:Hnorm.
  2:{ unfold DistributedSnapshotWithLocalMapping_CommittedTest. rewrite Hnorm. cbn [negb]. do 3 eexists. split; [done|].
      split_and!; [done..|]. intros S' _. unfold in_snapshot, distributed_view. by rewrite Hnorm, andb_false_r. }
  destruct (reference_view n S x HS Hx Hnorm Hhave HQD) as (r0 & Hr0 & Hcase).
  destruct (DistributedSnapshotWithLocalMapping_CommittedTest _ _ _ _ _ _) as [[[r m'] c']|e] eqn:Et; [|congruence].
  destruct Hspec as (Hr & Hm' & Hds & Hc' & Hag'). rewrite Hr0 in Hr. injection Hr as ->.
  destruct (committed_test_touches max_local_cache cache_limit (LogAt (moments n)) m c x false r m' c' Hc Et) as [Htc Htm].
  exists r, m', c'. split; [done|]. split; [|by split; [congruence|]]. split_and!; [done|done|done|..].
  - intros y v Hy. destruct (Htc y v Hy) as [->|Hold]; [done|by eauto].
  - destruct Hm as [_ D2 D3 _ _]. intros y Hy. destruct (Htm D3 ltac:(lia) y Hy) as [->|Hold]; [done|by auto].
Qed.

(** ** Rows *)

(** The bits that checks may set. *)
Definition HINTS : Z := 0x0F00.

(** The same row version, perhaps with other hints. *)
Record same_row t t' : Prop := {
  sr_xmin : t_xmin t' = t_xmin t;
  sr_xmax : t_xmax t' = t_xmax t;
  sr_field3 : t_field3 t' = t_field3 t;
  sr_mask : ∀ mask, Z.land HINTS mask = 0 → Z.land (t_infomask t') mask = Z.land (t_infomask t) mask;
  sr_frozen : HeapTupleHeaderXminFrozen t' = HeapTupleHeaderXminFrozen t;
}.

#[export] Instance same_row_refl : Reflexive same_row.
Proof. by split. Qed.
#[export] Instance same_row_trans : Transitive same_row.
Proof. intros t1 t2 t3 [] []. split; try congruence. intros mask Hm. rewrite sr_mask1 by done. auto. Qed.

Lemma same_row_has t t' mask : same_row t t' → Z.land HINTS mask = 0 → has (t_infomask t') mask = has (t_infomask t) mask.
Proof. intros Hs Hm. unfold has. by rewrite (sr_mask _ _ Hs). Qed.

Definition moved t : bool := has (t_infomask t) HEAP_MOVED_OFF || has (t_infomask t) HEAP_MOVED_IN.

(** Whether the row was inserted for good. *)
Definition inserted t : bool :=
  if HeapTupleHeaderXminFrozen t then true
  else if has (t_infomask t) HEAP_MOVED_OFF then negb (fate (t_field3 t))
  else if has (t_infomask t) HEAP_MOVED_IN then fate (t_field3 t)
  else fate (t_xmin t).

(** The transaction that deleted or replaced the row, if any tried. *)
Definition updater t : option Z :=
  if HEAP_XMAX_IS_LOCKED_ONLY (t_infomask t) then None
  else if has (t_infomask t) HEAP_XMAX_IS_MULTI then Some (MultiXactIdGetUpdateXid (t_xmax t))
  else Some (t_xmax t).

(** The reference: what a session with the ids [cur] sees with a snapshot. *)
Definition deleted (cur : Z → bool) S t (cmax : Z) : bool :=
  match updater t with
  | None => false
  | Some x => if cur x then cmax <? curcid S else fate x && negb (in_snapshot S x)
  end.

Definition visible (cur : Z → bool) S t (cmin cmax : Z) : bool :=
  (if HeapTupleHeaderXminFrozen t then true
   else if cur (t_xmin t) then cmin <? curcid S
   else inserted t && negb (in_snapshot S (t_xmin t))) &&
  negb (deleted cur S t cmax).

Lemma same_row_locked t t' : same_row t t' → HEAP_XMAX_IS_LOCKED_ONLY (t_infomask t') = HEAP_XMAX_IS_LOCKED_ONLY (t_infomask t).
Proof. intros Hs. unfold HEAP_XMAX_IS_LOCKED_ONLY. rewrite (same_row_has t t') by done. by rewrite (sr_mask _ _ Hs). Qed.

Lemma same_row_inserted t t' : same_row t t' → inserted t' = inserted t.
Proof.
  intros Hs. unfold inserted. rewrite (sr_frozen _ _ Hs), !(same_row_has t t') by done.
  by rewrite (sr_xmin _ _ Hs), (sr_field3 _ _ Hs).
Qed.

Lemma same_row_updater t t' : same_row t t' → updater t' = updater t.
Proof.
  intros Hs. unfold updater. rewrite (same_row_locked t t'), !(same_row_has t t') by done. by rewrite (sr_xmax _ _ Hs).
Qed.

Lemma same_row_moved t t' : same_row t t' → moved t' = moved t.
Proof. intros Hs. unfold moved. by rewrite !(same_row_has t t'). Qed.

Lemma same_row_visible t t' cur S cmin cmax : same_row t t' → visible cur S t' cmin cmax = visible cur S t cmin cmax.
Proof.
  intros Hs. unfold visible, deleted. by rewrite (sr_frozen _ _ Hs), (sr_xmin _ _ Hs), (same_row_inserted t t'), (same_row_updater t t').
Qed.

(** Nobody holds a lock on the row any more. *)
Definition lock_gone n t : Prop :=
  if has (t_infomask t) HEAP_XMAX_IS_MULTI
  then HEAP_LOCKED_UPGRADED (t_infomask t) = true ∨ ∀ m, m ∈ GetMultiXactIdMembers (t_xmax t) → ended n (m_xid m)
  else ended n (t_xmax t).

Definition xmax_hinted t : bool := has (t_infomask t) HEAP_XMAX_INVALID || has (t_infomask t) HEAP_XMAX_COMMITTED.

(** The lockers have ids, and a hint about the deleting transaction says that there is no lock either. *)
Definition lock_ok n t : Prop :=
  (if has (t_infomask t) HEAP_XMAX_IS_MULTI then ∀ m, m ∈ GetMultiXactIdMembers (t_xmax t) → assigned n (m_xid m)
   else assigned n (t_xmax t)) ∧ (xmax_hinted t = true → lock_gone n t).

Lemma lock_gone_later n n' t : (n ≤ n')%nat → lock_gone n t → lock_gone n' t.
Proof.
  intros Hn. unfold lock_gone. destruct (has _ _); [|by apply ended_later].
  intros [?|Hm]; [by left|right]. intros m Hin. apply (ended_later n); auto.
Qed.

Lemma lock_ok_later n n' t : (n ≤ n')%nat → lock_ok n t → lock_ok n' t.
Proof.
  intros Hn [Ha Hg]. split; [|intros Hh; by apply (lock_gone_later n); [|apply Hg]].
  destruct (has _ _); [intros m Hin|]; apply (assigned_stays n); auto.
Qed.

Lemma lock_assigned n t : has (t_infomask t) HEAP_XMAX_IS_MULTI = false → lock_ok n t → assigned n (t_xmax t).
Proof. intros Hm [Ha _]. by rewrite Hm in Ha. Qed.

Lemma same_row_upgraded t t' : same_row t t' → HEAP_LOCKED_UPGRADED (t_infomask t') = HEAP_LOCKED_UPGRADED (t_infomask t).
Proof. intros Hs. unfold HEAP_LOCKED_UPGRADED. rewrite !(same_row_has t t') by done. by rewrite (sr_mask _ _ Hs). Qed.

Lemma same_row_lock_gone n t t' : same_row t t' → lock_gone n t → lock_gone n t'.
Proof.
  intros Hs. unfold lock_gone. rewrite (same_row_has t t') by done.
  by rewrite (same_row_upgraded t t' Hs), (sr_xmax _ _ Hs).
Qed.

Lemma lock_gone_single n t : has (t_infomask t) HEAP_XMAX_IS_MULTI = false → ended n (t_xmax t) → lock_gone n t.
Proof. unfold lock_gone. by intros ->. Qed.

(** What a row and its hints say is true at moment [n]. *)
Record row_ok n t : Prop := {
  rk_xmin : HeapTupleHeaderXminFrozen t = false → assigned n (t_xmin t);
  rk_updater : ∀ x, updater t = Some x → assigned n x;
  rk_moved : moved t = true → HeapTupleHeaderXminFrozen t = false →
    ended n (t_field3 t) ∧ ended n (t_xmin t) ∧ (inserted t = true → fate (t_xmin t) = true);
  rk_own : HeapTupleHeaderXminFrozen t = false → TransactionIdIsCurrentTransactionId (t_xmin t) = true →
    ∀ x, updater t = Some x → TransactionIdIsCurrentTransactionId x = true ∨ failed n x;
  rk_committed : HeapTupleHeaderXminCommitted t = true → inserted t = true ∧
    (HeapTupleHeaderXminFrozen t = false → committed n (t_xmin t));
  rk_invalid : HeapTupleHeaderXminInvalid t = true → inserted t = false ∧ ended n (t_xmin t);
  rk_xmax_committed : has (t_infomask t) HEAP_XMAX_COMMITTED = true → ∀ x, updater t = Some x → committed n x;
  rk_xmax_invalid : has (t_infomask t) HEAP_XMAX_INVALID = true → ∀ x, updater t = Some x → failed n x;
  rk_ignore_xmin : has (t_infomask2 t) HEAP_XMIN_DISTRIBUTED_SNAPSHOT_IGNORE = true →
    HeapTupleHeaderXminFrozen t = false → ignorable (t_xmin t);
  rk_ignore_xmax : has (t_infomask2 t) HEAP_XMAX_DISTRIBUTED_SNAPSHOT_IGNORE = true →
    ∀ x, updater t = Some x → ignorable x;
  rk_lock : track_locks → lock_ok n t;
}.

Lemma row_later n n' t : (n ≤ n')%nat → row_ok n t → row_ok n' t.
Proof.
  intros Hn []. split.
  - intros Hf. apply (assigned_stays n); auto.
  - intros x Hx. apply (assigned_stays n); auto.
  - intros Hm Hf. destruct (rk_moved0 Hm Hf) as (? & ? & ?). split_and!; [by apply (ended_later n)..|done].
  - intros Hf Hc x Hx. destruct (rk_own0 Hf Hc x Hx); [by left|right; by apply (failed_later n)].
  - intros Hc. destruct (rk_committed0 Hc) as [? Hk]. split; [done|]. intros Hf. apply (committed_later n); auto.
  - intros Hi. destruct (rk_invalid0 Hi). split; [done|by apply (ended_later n)].
  - intros Hc x Hx. apply (committed_later n); eauto.
  - intros Hc x Hx. apply (failed_later n); eauto.
  - done.
  - done.
  - intros Htr. apply (lock_ok_later n); auto.
Qed.

(** *** New hints *)

Lemma row_hint n t t' :
  same_row t t' → t_infomask2 t' = t_infomask2 t → row_ok n t →
  (HeapTupleHeaderXminCommitted t' = true →
     HeapTupleHeaderXminCommitted t = true ∨ inserted t = true ∧ committed n (t_xmin t)) →
  (HeapTupleHeaderXminInvalid t' = true → HeapTupleHeaderXminInvalid t = true ∨ inserted t = false ∧ ended n (t_xmin t)) →
  (has (t_infomask t') HEAP_XMAX_COMMITTED = true →
     has (t_infomask t) HEAP_XMAX_COMMITTED = true ∨ ∀ x, updater t = Some x → committed n x) →
  (has (t_infomask t') HEAP_XMAX_INVALID = true →
     has (t_infomask t) HEAP_XMAX_INVALID = true ∨ ∀ x, updater t = Some x → failed n x) →
  (xmax_hinted t' = true → xmax_hinted t = true ∨ (track_locks → lock_gone n t)) →
  row_ok n t'.
Proof.
  intros Hs H2 [] Hc Hi Hxc Hxi Hlk.
  split; rewrite ?H2, ?(same_row_updater t t' Hs), ?(same_row_inserted t t' Hs), ?(same_row_moved t t' Hs),
    ?(sr_frozen _ _ Hs), ?(sr_xmin _ _ Hs), ?(sr_field3 _ _ Hs); auto.
  - intros [?|[? ?]]%Hc; auto.
  - intros [?|[? ?]]%Hi; auto.
  - intros [?|?]%Hxc; auto.
  - intros [?|?]%Hxi; auto.
  - intros Htr. destruct (rk_lock0 Htr) as [Ha Hg]. split.
    + rewrite (same_row_has t t') by done. by rewrite (sr_xmax _ _ Hs).
    + intros Hh. apply (same_row_lock_gone n t); [done|]. destruct (Hlk Hh); auto.
Qed.

(** The hints that routines set, each with what it says. *)
Definition hint_true n t (hint : Z) : Prop :=
  hint = HEAP_XMIN_COMMITTED ∧ has (t_infomask t) HEAP_XMIN_INVALID = false ∧ inserted t = true ∧ committed n (t_xmin t) ∨
  hint = HEAP_XMIN_INVALID ∧ HeapTupleHeaderXminCommitted t = false ∧ inserted t = false ∧ ended n (t_xmin t) ∨
  hint = HEAP_XMAX_COMMITTED ∧ (∀ x, updater t = Some x → committed n x) ∧ (track_locks → lock_gone n t) ∨
  hint = HEAP_XMAX_INVALID ∧ (∀ x, updater t = Some x → failed n x) ∧ (track_locks → lock_gone n t).

Lemma hint_later n n' t hint : (n ≤ n')%nat → hint_true n t hint → hint_true n' t hint.
Proof.
  intros Hn [(-> & ? & ? & ?)|[(-> & ? & ? & ?)|[(-> & Hx & Hl)|(-> & Hx & Hl)]]].
  - left. split_and!; [done..|by apply (committed_later n)].
  - right; left. split_and!; [done..|by apply (ended_later n)].
  - do 2 right; left. split_and!; [done|intros x ?; apply (committed_later n); auto|intros; apply (lock_gone_later n); auto].
  - do 3 right. split_and!; [done|intros x ?; apply (failed_later n); auto|intros; apply (lock_gone_later n); auto].
Qed.

Lemma hint_same n t hint : hint_true n t hint → same_row t (set_infomask hint t).
Proof.
  intros Hh. split; [done..| |].
  - intros mask Hm. simpl. apply land_set_other.
    assert (Hsub : Z.land hint HINTS = hint) by by destruct Hh as [(-> & _)|[(-> & _)|[(-> & _)|(-> & _)]]].
    by rewrite <-Hsub, <-Z.land_assoc, Hm, Z.land_0_r.
  - rewrite !xmin_frozen_bits. simpl. destruct Hh as [(-> & Hn & _)|[(-> & Hn & _)|[(-> & _)|(-> & _)]]].
    + rewrite (has_set_other _ _ HEAP_XMIN_INVALID), Hn by done. by rewrite !andb_false_r.
    + rewrite (has_set_other _ _ HEAP_XMIN_COMMITTED) by done. unfold HeapTupleHeaderXminCommitted in Hn. by rewrite Hn.
    + by rewrite !has_set_other.
    + by rewrite !has_set_other.
Qed.

Lemma hint_ok n t hint : row_ok n t → hint_true n t hint → row_ok n (set_infomask hint t).
Proof.
  intros Hok Hh. pose proof (hint_same n t hint Hh) as Hs.
  apply (row_hint n t); [done..| | | | |]; clear Hs; unfold HeapTupleHeaderXminCommitted, xmax_hinted in *;
    rewrite ?xmin_invalid_bits; cbn [t_infomask set_infomask]; intros Hbit;
    destruct Hh as [(-> & Hn & Hi & Hx)|[(-> & Hn & Hi & Hx)|[(-> & Hx & Hl)|(-> & Hx & Hl)]]];
    try rewrite (has_set_other _ _ HEAP_XMIN_COMMITTED) in Hbit by done;
    try rewrite (has_set_other _ _ HEAP_XMIN_INVALID) in Hbit by done;
    try rewrite (has_set_other _ _ HEAP_XMAX_COMMITTED) in Hbit by done;
    try rewrite (has_set_other _ _ HEAP_XMAX_INVALID) in Hbit by done; auto.
  rewrite Hn, andb_false_r in Hbit. done.
Qed.

(** ** Steps of a check *)

(** [good]: the command ids can be resolved, to [cmin] and [cmax], unless there is [trouble] with the
    file of combo ids. *)
Context (good : combo → Prop) (trouble : Prop) (cmin cmax : Z).

Definition resolved (v : Z) (o : outcome Z) (c' : combo) : Prop :=
  good c' ∧ match o with Ret v' => v' = v | ERROR => trouble | _ => False end.

Definition resolves t : Prop := ∀ c, good c →
  (HeapTupleHeaderXminFrozen t = false → TransactionIdIsCurrentTransactionId (t_xmin t) = true →
   wp (HeapTupleHeaderGetCmin t) (resolved cmin) c) ∧
  (∀ x, updater t = Some x → TransactionIdIsCurrentTransactionId x = true → wp (HeapTupleHeaderGetCmax t) (resolved cmax) c).

Lemma same_row_cids t t' :
  same_row t t' → HeapTupleHeaderGetCmin t' = HeapTupleHeaderGetCmin t ∧ HeapTupleHeaderGetCmax t' = HeapTupleHeaderGetCmax t.
Proof.
  intros Hs. unfold HeapTupleHeaderGetCmin, HeapTupleHeaderGetCmax, HeapTupleHeaderGetXmin, HeapTupleHeaderGetRawCommandId,
    HeapTupleHeaderGetRawXmin.
  by rewrite (same_row_has t t'), (sr_field3 _ _ Hs), (sr_frozen _ _ Hs), (sr_xmin _ _ Hs).
Qed.

Lemma same_row_resolves t t' : same_row t t' → resolves t → resolves t'.
Proof.
  intros Hs Hr c Hc. destruct (same_row_cids t t' Hs) as [-> ->].
  rewrite (sr_frozen _ _ Hs), (sr_xmin _ _ Hs), (same_row_updater t t' Hs). by apply Hr.
Qed.

Record okay s : Prop := {
  ok_row : row_ok (now s) (tup s);
  ok_good : good (combos s);
  ok_cids : resolves (tup s);
}.

(** Time passed, and hints were set. *)
Record goes s s' : Prop := {
  go_row : same_row (tup s) (tup s');
  go_now : (now s ≤ now s')%nat;
  go_snap : snap s' = snap s;
  go_cache : xact_cache s' = xact_cache s;
}.

#[export] Instance goes_refl : Reflexive goes.
Proof. by split. Qed.
#[export] Instance goes_trans : Transitive goes.
Proof. intros s1 s2 s3 [] []. split; [by etrans|lia|congruence|congruence]. Qed.

Lemma okay_goes s s' : okay s → same_row (tup s) (tup s') → row_ok (now s') (tup s') → combos s' = combos s → okay s'.
Proof. intros [] Hs Hr Hc. split; [done|by rewrite Hc|by apply (same_row_resolves (tup s))]. Qed.

Lemma tick_ok s : okay s → okay (tick s).
Proof. intros Hok. apply (okay_goes s); [done|done| |done]. simpl. apply (row_later (now s)); [lia|apply Hok]. Qed.

Lemma tick_goes s : goes s (tick s).
Proof. split; [done|simpl; lia|done|done]. Qed.

Lemma wp_tuple (Q : outcome HeapTupleHeader → scan → Prop) s : Q (Ret (tup s)) s → wp tuple Q s.
Proof. done. Qed.

Lemma wp_question {A} (q : moment → A) (Q : outcome A → scan → Prop) s : Q (Ret (q (moments (now s)))) (tick s) → wp (ask q) Q s.
Proof. done. Qed.

Definition was_running n x : Prop := ∃ m, (n ≤ m)%nat ∧ assigned m x ∧ IsInProgress (moments m) x = true.

Lemma was_running_earlier n n' x : (n' ≤ n)%nat → was_running n x → was_running n' x.
Proof. intros Hn (m & ? & ?). exists m. split; [lia|done]. Qed.

(** What became of a transaction: it is asked whether it is in progress, and then whether it committed. *)
Lemma wp_status {A} x (R : proc scan A) (K : bool → proc scan A) Q s :
  okay s → assigned (now s) x →
  (∀ s', okay s' → goes s s' → combos s' = combos s → was_running (now s) x → wp R Q s') →
  (∀ s', okay s' → goes s s' → combos s' = combos s → ended (now s') x → wp (K (fate x)) Q s') →
  wp (bind (TransactionIdIsInProgress x) (λ running, if (running : bool) then R else bind (TransactionIdDidCommit x) K)) Q s.
Proof.
  intros Hok Ha Hrun Hend. apply proc_bind. apply wp_question. cbn [next].
  destruct (IsInProgress (moments (now s)) x) eqn:E.
  - apply Hrun; [by apply tick_ok|apply tick_goes|done|]. by exists (now s).
  - apply proc_bind. apply wp_question. cbn [next]. rewrite (ended_verdict (now s)) by (done || simpl; lia).
    apply Hend; [by apply tick_ok, tick_ok|etrans; apply tick_goes|done|].
    apply (ended_later (now s)); [simpl; lia|by split].
Qed.

(** *** Members of a multitransaction *)

Definition member_runs s (m : MultiXactMember) : Prop := ∃ n, (now s ≤ n)%nat ∧ IsInProgress (moments n) (m_xid m) = true.
Definition member_over s s' (m : MultiXactMember) : Prop :=
  ∃ n, (now s ≤ n ≤ now s')%nat ∧ IsInProgress (moments n) (m_xid m) = false.

(** An answer about members: one that [yes] holds of, or [no] of all. *)
Definition asks_members (yes : MultiXactMember → Prop) (no : scan → MultiXactMember → Prop) (ms : list MultiXactMember) s
    (o : outcome bool) s' : Prop :=
  okay s' ∧ goes s s' ∧ ∃ b, o = Ret b ∧ if (b : bool) then ∃ m, m ∈ ms ∧ yes m else ∀ m, m ∈ ms → no s' m.

Lemma asks_cons yes no m ms s s1 o s' :
  goes s s1 → (goes s1 s' → no s' m) → asks_members yes no ms s1 o s' → asks_members yes no (m :: ms) s o s'.
Proof.
  intros Hg Hm (Hok & Hg' & b & -> & Hb). split_and!; [done|by etrans|]. exists b. split; [done|]. destruct b.
  - destruct Hb as (m' & ? & ?). exists m'. split; [by right|done].
  - intros m' [->|Hin]%elem_of_cons; auto.
Qed.

Lemma tick_over s s' m : goes (tick s) s' → IsInProgress (moments (now s)) (m_xid m) = false → member_over s s' m.
Proof. intros Hg Er. exists (now s). split; [|done]. pose proof (go_now _ _ Hg) as Hn. simpl in Hn. lia. Qed.

Lemma asks_earlier yes yes' no no' ms s1 s o s' :
  (∀ m, yes m → yes' m) → (∀ m, no s' m → no' s' m) → goes s s1 → asks_members yes no ms s1 o s' → asks_members yes' no' ms s o s'.
Proof.
  intros Hy Hn Hg (Hok & Hg' & b & -> & Hb). split_and!; [done|by etrans|]. exists b. split; [done|]. destruct b; [|by auto].
  destruct Hb as (m & ? & ?). exists m. auto.
Qed.

Lemma any_in_progress_spec ms s : okay s → wp (any_in_progress ms) (asks_members (member_runs s) (member_over s) ms s) s.
Proof.
  induction ms as [|m ms IH] in s |- *; intros Hok; cbn [any_in_progress].
  { apply proc_ret. split_and!; [done|done|]. exists false. split; [done|]. by intros m ?%elem_of_nil. }
  apply proc_bind, wp_question. cbn [next]. pose proof (tick_ok s Hok). pose proof (tick_goes s) as Hg.
  destruct (IsInProgress (moments (now s)) (m_xid m)) eqn:Er.
  { apply proc_ret. split_and!; [done|done|]. exists true. split; [done|]. exists m. split; [by left|]. by exists (now s). }
  eapply proc_mono; [by apply IH|]. intros o s' Ha. apply (asks_cons _ _ _ _ s (tick s)); [done|intros; by apply tick_over|].
  eapply (asks_earlier _ _ _ _ _ (tick s)); [..|exact Ha]; [| |done].
  - intros m' (n & ? & ?). exists n. simpl in *. split; [lia|done].
  - intros m' (n & ? & ?). exists n. simpl in *. split; [lia|done].
Qed.

Lemma any_remote_spec ms s :
  okay s → wp (any_remote ms) (asks_members (λ m, TransactionIdIsCurrentTransactionId (m_xid m) = false ∧ member_runs s m)
    (λ s' m, TransactionIdIsCurrentTransactionId (m_xid m) = true ∨ member_over s s' m) ms s) s.
Proof.
  induction ms as [|m ms IH] in s |- *; intros Hok; cbn [any_remote].
  { apply proc_ret. split_and!; [done|done|]. exists false. split; [done|]. by intros m ?%elem_of_nil. }
  destruct (TransactionIdIsCurrentTransactionId (m_xid m)) eqn:Ec.
  { eapply proc_mono; [by apply IH|]. intros o s' Ha. by apply (asks_cons _ _ _ _ s s); [|by left|]. }
  apply proc_bind, wp_question. cbn [next]. pose proof (tick_ok s Hok). pose proof (tick_goes s) as Hg.
  destruct (IsInProgress (moments (now s)) (m_xid m)) eqn:Er.
  { apply proc_ret. split_and!; [done|done|]. exists true. split; [done|]. exists m. split; [by left|]. split; [done|by exists (now s)]. }
  eapply proc_mono; [by apply IH|]. intros o s' Ha.
  apply (asks_cons _ _ _ _ s (tick s)); [done|intros; right; by apply tick_over|].
  eapply (asks_earlier _ _ _ _ _ (tick s)); [..|exact Ha]; [| |done].
  - intros m' (? & n & ? & ?). split; [done|]. exists n. simpl in *. split; [lia|done].
  - intros m' [?|(n & ? & ?)]; [by left|right]. exists n. simpl in *. split; [lia|done].
Qed.

Lemma multi_running_spec multi s :
  okay s → wp (MultiXactIdIsRunning multi) (asks_members (member_runs s) (member_over s) (GetMultiXactIdMembers multi) s) s.
Proof.
  intros Hok. unfold MultiXactIdIsRunning. destruct (existsb _ _) eqn:E; [|by apply any_in_progress_spec].
  apply existsb_exists in E as (m & Hin%list_elem_of_In & Hc). apply proc_ret. split_and!; [done|done|]. exists true. split; [done|].
  exists m. split; [done|]. exists (now s). split; [done|]. by apply (session_runs TransactionIdIsCurrentTransactionId); [apply my_session|].
Qed.

Lemma member_was_running s m : assigned (now s) (m_xid m) → member_runs s m → was_running (now s) (m_xid m).
Proof. intros Ha (n & Hn & Hr). exists n. split_and!; [done|by apply (assigned_stays (now s))|done]. Qed.

Lemma member_ended s s' m : assigned (now s) (m_xid m) → member_over s s' m → ended (now s') (m_xid m).
Proof. intros Ha (n & Hn & Hr). apply (ended_later n); [lia|]. split; [apply (assigned_stays (now s)); [done|lia]|done]. Qed.

(** *** Setting hints *)

Lemma markDirty_spec isXmin s :
  okay s → wp (markDirty isXmin) (λ o s', o = Ret tt ∧ okay s' ∧ goes s s' ∧ tup s' = tup s ∧ combos s' = combos s) s.
Proof.
  intros Hok. assert (Hd : okay (mark_dirty s)) by (apply (okay_goes s); [done|done|apply Hok|done]).
  unfold markDirty. destruct (negb _); [by apply wp_modify|]. destruct (_ || _); [by apply wp_modify|].
  apply proc_bind, wp_tuple. cbn [next]. destruct (_ =? _); [by apply wp_modify|].
  apply proc_bind, wp_question. cbn [next]. destruct (CLOGTransactionIsOld _ _).
  - apply wp_modify. split_and!; [done| | |done|done].
    + apply (okay_goes (tick s)); [by apply tick_ok|done|by apply tick_ok|done].
    + split; [done|simpl; lia|done|done].
  - apply proc_ret. split_and!; [done|by apply tick_ok|apply tick_goes|done|done].
Qed.

Lemma SetHintBits_spec hint x s :
  okay s → hint_true (now s) (tup s) hint →
  wp (SetHintBits hint x) (λ o s', o = Ret tt ∧ okay s' ∧ goes s s' ∧ combos s' = combos s) s.
Proof.
  intros Hok Hh. unfold SetHintBits. apply proc_bind.
  apply (proc_mono _ (λ o s1, (∃ b, o = Ret b) ∧ okay s1 ∧ goes s s1 ∧ tup s1 = tup s ∧ combos s1 = combos s)).
  { destruct (TransactionIdIsValid x).
    - apply wp_question. split_and!; [by eexists|by apply tick_ok|apply tick_goes|done|done].
    - apply proc_ret. split_and!; [by eexists|done..]. }
  intros o s1 ([b ->] & Hok1 & Hg1 & Ht1 & Hc1). cbn [next]. destruct (_ && _); [by apply proc_ret|].
  apply proc_bind, wp_modify. cbn [next]. set (s2 := with_tup _ s1).
  assert (Hh1 : hint_true (now s1) (tup s1) hint).
  { rewrite Ht1. apply (hint_later (now s)); [apply Hg1|done]. }
  assert (Hok2 : okay s2).
  { apply (okay_goes s1); [done|by apply (hint_same (now s1))|apply hint_ok; [apply Hok1|done]|done]. }
  assert (Hg2 : goes s s2).
  { etrans; [exact Hg1|]. split; [by apply (hint_same (now s1))|done|done|done]. }
  assert (Hc2 : combos s2 = combos s) by done. clearbody s2.
  assert (Hd : ∀ b, wp (markDirty b) (λ o s', o = Ret tt ∧ okay s' ∧ goes s s' ∧ combos s' = combos s) s2).
  { intros b'. eapply proc_mono; [by apply markDirty_spec|]. intros o s3 (-> & Hok3 & Hg3 & _ & Hc3).
    split_and!; [done|done|by etrans|congruence]. }
  destruct Hh as [(-> & _)|[(-> & _)|[(-> & _)|(-> & _)]]]; apply Hd.
Qed.

(** A hint, and then the rest. *)
Lemma wp_hint {A} hint x (K : proc scan A) Q s :
  okay s → hint_true (now s) (tup s) hint →
  (∀ s', okay s' → goes s s' → combos s' = combos s → wp K Q s') → wp (bind (SetHintBits hint x) (λ _, K)) Q s.
Proof.
  intros Hok Hh HK. apply proc_bind. eapply proc_mono; [by apply SetHintBits_spec|].
  intros o s' (-> & Hok' & Hg & Hc). by apply HK.
Qed.

(** *** The inserting transaction *)

Lemma unhinted t : HeapTupleHeaderXminCommitted t = false → HeapTupleHeaderXminInvalid t = false →
  has (t_infomask t) HEAP_XMIN_INVALID = false ∧ HeapTupleHeaderXminFrozen t = false.
Proof.
  rewrite xmin_invalid_bits, xmin_frozen_bits. unfold HeapTupleHeaderXminCommitted. intros ->. by cbn [negb andb].
Qed.

(** The row was never there, for anybody. *)
Definition never_there s : Prop :=
  HeapTupleHeaderXminFrozen (tup s) = false ∧ inserted (tup s) = false ∧ ended (now s) (t_xmin (tup s)).

(** The row was inserted for good. *)
Definition there s : Prop :=
  inserted (tup s) = true ∧ (HeapTupleHeaderXminFrozen (tup s) = false → committed (now s) (t_xmin (tup s))).

Lemma never_there_goes s s' : goes s s' → never_there s → never_there s'.
Proof.
  intros [Hs Hn _ _] (H1 & H2 & H3). unfold never_there.
  rewrite (sr_frozen _ _ Hs), (same_row_inserted _ _ Hs), (sr_xmin _ _ Hs). split_and!; [done..|by apply (ended_later (now s))].
Qed.

Lemma there_goes s s' : goes s s' → there s → there s'.
Proof.
  intros [Hs Hn _ _] (H1 & H2). unfold there.
  rewrite (sr_frozen _ _ Hs), (same_row_inserted _ _ Hs), (sr_xmin _ _ Hs). split; [done|].
  intros Hf. apply (committed_later (now s)); auto.
Qed.

(** The row is known to be there, or not to be: the hint says so. *)
Lemma wp_there {A} x (K : proc scan A) Q s :
  okay s → there s → has (t_infomask (tup s)) HEAP_XMIN_INVALID = false → HeapTupleHeaderXminFrozen (tup s) = false →
  (∀ s', okay s' → goes s s' → there s' → wp K Q s') → wp (bind (SetHintBits HEAP_XMIN_COMMITTED x) (λ _, K)) Q s.
Proof.
  intros Hok [H1 H2] Hb Hf HK. apply wp_hint; [done| |].
  - left. auto.
  - intros s' Hok' Hg _. apply HK; [done|done|]. apply (there_goes s); [done|by split].
Qed.

Lemma wp_never {A} (dead : A) Q s :
  okay s → never_there s → HeapTupleHeaderXminCommitted (tup s) = false →
  (∀ s', okay s' → goes s s' → never_there s' → Q (Ret dead) s') →
  wp (bind (SetHintBits HEAP_XMIN_INVALID InvalidTransactionId) (λ _, ret dead)) Q s.
Proof.
  intros Hok Hn Hb HK. apply wp_hint; [done| |].
  - right; left. destruct Hn as (? & ? & ?). auto.
  - intros s' Hok' Hg _. apply proc_ret, HK; [done|done|by apply (never_there_goes s)].
Qed.

Lemma moved_facts s :
  okay s → moved (tup s) = true → HeapTupleHeaderXminFrozen (tup s) = false →
  TransactionIdIsCurrentTransactionId (t_field3 (tup s)) = false ∧ ended (now s) (t_field3 (tup s)) ∧
  (if inserted (tup s) then there s else never_there s).
Proof.
  intros Hok Hm Hf. destruct (rk_moved _ _ (ok_row _ Hok) Hm Hf) as (H1 & H2 & H3).
  split_and!; [by apply (ended_not_current (now s)); [apply my_session|]|done|].
  destruct (inserted (tup s)) eqn:E; [|done]. split; [done|]. intros _. split; [done|auto].
Qed.

Lemma moved_status {A} (R : proc scan A) (K : bool → proc scan A) Q s :
  okay s → ended (now s) (t_field3 (tup s)) →
  (∀ s', okay s' → goes s s' → tup s' = tup s → wp (K (fate (t_field3 (tup s)))) Q s') →
  wp (bind (TransactionIdIsInProgress (t_field3 (tup s)))
        (λ running, if (running : bool) then R else bind (TransactionIdDidCommit (t_field3 (tup s))) K)) Q s.
Proof.
  intros Hok [Ha He] HK. apply proc_bind, wp_question. cbn [next]. rewrite He. apply proc_bind, wp_question. cbn [next].
  rewrite (ended_verdict (now s)) by (done || simpl; lia). apply HK; [by apply tick_ok, tick_ok|etrans; apply tick_goes|done].
Qed.

Lemma moved_prologue_spec {A} (dead : A) rest other Q s :
  okay s → HeapTupleHeaderXminCommitted (tup s) = false → HeapTupleHeaderXminInvalid (tup s) = false →
  (∀ s', okay s' → goes s s' → there s' → wp rest Q s') →
  (∀ s', okay s' → goes s s' → never_there s' → Q (Ret dead) s') →
  (moved (tup s) = false → wp other Q s) →
  wp (moved_prologue dead rest other) Q s.
Proof.
  intros Hok Hc Hi Hrest Hdead Hother. destruct (unhinted _ Hc Hi) as [Hb Hf].
  unfold moved_prologue. apply proc_bind, wp_tuple. cbn [next].
  destruct (has (t_infomask (tup s)) HEAP_MOVED_OFF) eqn:Eoff; [|destruct (has (t_infomask (tup s)) HEAP_MOVED_IN) eqn:Ein].
  - destruct (moved_facts s Hok) as (Hcur & Hend & Hcase); [unfold moved; by rewrite Eoff|done|].
    rewrite xvac_off by done. rewrite Hcur. apply moved_status; [done|done|]. intros s1 Hok1 Hg1 Ht1.
    unfold inserted in Hcase. rewrite Hf, Eoff in Hcase. destruct (fate (t_field3 (tup s))); cbn [negb] in Hcase.
    + apply wp_never; [done|by apply (never_there_goes s)|by rewrite Ht1|]. intros s2 ? Hg2 ?. apply Hdead; [done|by etrans|done].
    + apply wp_there; [done|by apply (there_goes s)|by rewrite Ht1..|]. intros s2 ? Hg2 ?. apply Hrest; [done|by etrans|done].
  - destruct (moved_facts s Hok) as (Hcur & Hend & Hcase); [unfold moved; by rewrite Ein, orb_true_r|done|].
    rewrite xvac_in by done. rewrite Hcur. apply moved_status; [done|done|]. intros s1 Hok1 Hg1 Ht1.
    unfold inserted in Hcase. rewrite Hf, Eoff, Ein in Hcase. destruct (fate (t_field3 (tup s))).
    + apply wp_there; [done|by apply (there_goes s)|by rewrite Ht1..|]. intros s2 ? Hg2 ?. apply Hrest; [done|by etrans|done].
    + apply wp_never; [done|by apply (never_there_goes s)|by rewrite Ht1|]. intros s2 ? Hg2 ?. apply Hdead; [done|by etrans|done].
  - apply Hother. unfold moved. by rewrite Eoff, Ein.
Qed.

(** A row that another transaction inserted. *)
Lemma inserted_by_other_spec {A} (dead : A) running rest Q s :
  okay s → HeapTupleHeaderXminCommitted (tup s) = false → HeapTupleHeaderXminInvalid (tup s) = false → moved (tup s) = false →
  (∀ s', okay s' → goes s s' → there s' → wp rest Q s') →
  (∀ s', okay s' → goes s s' → never_there s' → Q (Ret dead) s') →
  (∀ s', okay s' → goes s s' → was_running (now s) (t_xmin (tup s)) → wp running Q s') →
  wp (inserted_by_other dead running rest) Q s.
Proof.
  intros Hok Hc Hi Hm Hrest Hdead Hrun. destruct (unhinted _ Hc Hi) as [Hb Hf].
  assert (Hins : inserted (tup s) = fate (t_xmin (tup s))).
  { unfold inserted, moved in *. apply orb_false_iff in Hm as [-> ->]. by rewrite Hf. }
  unfold inserted_by_other. apply proc_bind, wp_tuple. cbn [next]. unfold HeapTupleHeaderGetRawXmin.
  pose proof (rk_xmin _ _ (ok_row _ Hok) Hf) as Ha. apply proc_bind, wp_question. cbn [next].
  destruct (IsInProgress (moments (now s)) (t_xmin (tup s))) eqn:Erun.
  - apply Hrun; [by apply tick_ok|apply tick_goes|]. by exists (now s).
  - apply proc_bind, wp_question. cbn [next]. rewrite (ended_verdict (now s)) by (done || simpl; lia).
    assert (Hok2 : okay (tick (tick s))) by by apply tick_ok, tick_ok.
    assert (Hg2 : goes s (tick (tick s))) by (etrans; apply tick_goes).
    assert (He2 : ended (now (tick (tick s))) (t_xmin (tup s))) by (apply (ended_later (now s)); [apply Hg2|by split]).
    destruct (fate (t_xmin (tup s))) eqn:Efate.
    + apply wp_there; [done|split; [done|]; by split|done|done|]. intros s3 ? Hg3 ?. apply Hrest; [done|by etrans|done].
    + apply wp_never; [done|by split_and!|done|]. intros s3 ? Hg3 ?. apply Hdead; [done|by etrans|done].
Qed.

Lemma xmin_prologue_spec {A} (dead : A) own running rest Q s :
  okay s →
  (∀ s', okay s' → goes s s' → there s' → wp rest Q s') →
  (∀ s', okay s' → goes s s' → never_there s' → Q (Ret dead) s') →
  (HeapTupleHeaderXminFrozen (tup s) = false → TransactionIdIsCurrentTransactionId (t_xmin (tup s)) = true → wp own Q s) →
  (∀ s', okay s' → goes s s' → HeapTupleHeaderXminFrozen (tup s) = false →
     TransactionIdIsCurrentTransactionId (t_xmin (tup s)) = false → was_running (now s) (t_xmin (tup s)) →
     inserted (tup s) = fate (t_xmin (tup s)) → wp running Q s') →
  wp (xmin_prologue dead own running rest) Q s.
Proof.
  intros Hok Hrest Hdead Hown Hrun. unfold xmin_prologue. apply proc_bind, wp_tuple. cbn [next].
  destruct (HeapTupleHeaderXminCommitted (tup s)) eqn:Hc.
  { apply Hrest; [done|done|]. by apply (rk_committed _ _ (ok_row _ Hok)). }
  destruct (HeapTupleHeaderXminInvalid (tup s)) eqn:Hi.
  { apply proc_ret, Hdead; [done|done|]. destruct (rk_invalid _ _ (ok_row _ Hok) Hi). split_and!; [|done|done].
    rewrite xmin_frozen_bits. unfold HeapTupleHeaderXminCommitted in Hc. by rewrite Hc. }
  destruct (unhinted _ Hc Hi) as [Hb Hf].
  apply moved_prologue_spec; [done..|]. intros Hm. unfold HeapTupleHeaderGetRawXmin.
  destruct (TransactionIdIsCurrentTransactionId (t_xmin (tup s))) eqn:Hcur; [by apply Hown|].
  apply inserted_by_other_spec; [done..|]. intros s' ? ? ?. apply Hrun; [done..|].
  unfold inserted, moved in *. apply orb_false_iff in Hm as [-> ->]. by rewrite Hf.
Qed.

(** *** Command ids *)

Lemma wp_cid {A} (m : proc combo A) (v : A) Q s :
  okay s → wp m (λ o c', good c' ∧ match o with Ret v' => v' = v | ERROR => trouble | _ => False end) (combos s) →
  (∀ s', okay s' → goes s s' → tup s' = tup s → Q (Ret v) s') →
  (∀ s', okay s' → goes s s' → trouble → Q ERROR s') →
  wp (on_combos m) Q s.
Proof.
  intros Hok Hm Hret Herr. unfold wp, on_combos. unfold wp in Hm. destruct (m (combos s)) as [o c']. cbn [fst snd] in *.
  destruct Hm as [Hg Ho]. set (s' := mkScan _ _ _ _ _ c').
  assert (Hok' : okay s') by (destruct Hok; by split). assert (goes s s') by by split.
  destruct o as [v'| | |]; [subst v'; by apply Hret|by apply Herr|done|done].
Qed.

Lemma wp_cmin Q s :
  okay s → HeapTupleHeaderXminFrozen (tup s) = false → TransactionIdIsCurrentTransactionId (t_xmin (tup s)) = true →
  (∀ s', okay s' → goes s s' → tup s' = tup s → Q (Ret cmin) s') →
  (∀ s', okay s' → goes s s' → trouble → Q ERROR s') → wp (on_combos (HeapTupleHeaderGetCmin (tup s))) Q s.
Proof. intros Hok Hf Hc. apply (wp_cid _ cmin); [done|]. apply (ok_cids _ Hok); [apply Hok|done|done]. Qed.

Lemma wp_cmax x Q s :
  okay s → updater (tup s) = Some x → TransactionIdIsCurrentTransactionId x = true →
  (∀ s', okay s' → goes s s' → tup s' = tup s → Q (Ret cmax) s') →
  (∀ s', okay s' → goes s s' → trouble → Q ERROR s') → wp (on_combos (HeapTupleHeaderGetCmax (tup s))) Q s.
Proof. intros Hok Hx Hc. apply (wp_cid _ cmax); [done|]. eapply (ok_cids _ Hok); [apply Hok|done|done]. Qed.
End Facts.
