(* ===== verification/TqualMvcc.v ===== *)
(** * Visibility of row versions: snapshots

    A row is seen with an MVCC snapshot exactly if the snapshot determines so, whatever other
    transactions do while it is examined and whatever hints and caches say. *)
From S2P Require Import Prelude Proc DistributedSnapshot DistributedSnapshotFacts Clog TransAm ObjectIds Htup ComboCid Tqual TqualFacts.

Section Mvcc.
Context {env : TqualEnv} {tenv : TransamEnv} {cenv : ComboEnv} {H : History} {laws : HistoryLaws}.
Context (good : combo → Prop) (trouble : Prop) (cmin cmax : Z).
Implicit Types (n : nat) (x : Z) (S : SnapshotData) (t : HeapTupleHeader) (s : scan).

Notation okay := (okay good trouble cmin cmax).
Notation me := TransactionIdIsCurrentTransactionId.

(** ** Snapshots *)

Definition snap_ok s : Prop :=
  my_snapshot (snap s) ∧ caches_ok (now s) (distribSnapshotWithLocalMapping (snap s)) (xact_cache s).

(** The same snapshot, perhaps with other cached ids. *)
Definition same_view S S' : Prop := ∃ m, ds m = dsnap S ∧ S' = with_mapping m S.

Lemma same_view_refl S : same_view S S.
Proof. exists (distribSnapshotWithLocalMapping S). split; [done|by destruct S]. Qed.

Lemma same_view_trans S1 S2 S3 : same_view S1 S2 → same_view S2 S3 → same_view S1 S3.
Proof. intros (m1 & H1 & ->) (m2 & H2 & ->). exists m2. split; [|done]. by rewrite H2. Qed.

Lemma same_view_in_snapshot S S' x : same_view S S' → in_snapshot S' x = in_snapshot S x.
Proof. intros (m & Hm & ->). unfold in_snapshot, distributed_view.
  change (dsnap (with_mapping m S)) with (ds m). by rewrite Hm. Qed.

Lemma same_view_deleted S S' cur t : same_view S S' → deleted cur S' t cmax = deleted cur S t cmax.
Proof.
  intros Hv. unfold deleted. destruct (updater t) as [x|]; [|done]. rewrite (same_view_in_snapshot S S') by done.
  by destruct Hv as (m & _ & ->).
Qed.

(** What a check promises: the answer [b], unless a command id could not be read. *)
Definition answers s (b : bool) (o : outcome bool) s' : Prop :=
  (o = Ret b ∨ o = ERROR ∧ trouble) ∧ okay s' ∧ snap_ok s' ∧
  same_row (tup s) (tup s') ∧ (now s ≤ now s')%nat ∧ same_view (snap s) (snap s').

Lemma snap_goes s s' : goes s s' → snap_ok s → snap_ok s'.
Proof.
  intros [_ Hn Hs Hc] [Hmine Hca]. unfold snap_ok. rewrite Hs, Hc. split; [done|].
  pose proof (mine_in_use _ Hmine) as Hu. apply (caches_later (now s)); [done|by apply snap_stamp|by apply snap_low|done].
Qed.

Lemma mvcc_answer s s' b : okay s' → snap_ok s → goes s s' → answers s b (Ret b) s'.
Proof.
  intros Hok Hs Hg. split_and!; [by left|done|by apply (snap_goes s)|apply Hg|apply Hg|].
  rewrite (go_snap _ _ Hg). apply same_view_refl.
Qed.

Lemma answers_trouble s s' b : okay s' → snap_ok s → goes s s' → trouble → answers s b ERROR s'.
Proof. intros Hok Hs Hg Ht. destruct (mvcc_answer s s' b Hok Hs Hg) as (_ & Hrest). split; [by right|done]. Qed.

Lemma answers_from s s1 b o s' : goes s s1 → answers s1 b o s' → answers s b o s'.
Proof.
  intros [H1 H2 H3 H4] (Ho & Hok & Hs & Hr & Hn & Hv). split_and!; [done|done|done|by etrans|lia|by rewrite <-H3].
Qed.

(** ** A transaction and a snapshot *)

Lemma ignore_ok n t (isXmin : bool) x :
  row_ok n t → ignorable x → (if isXmin then x = t_xmin t else updater t = Some x) →
  row_ok n (set_infomask2 (if isXmin then HEAP_XMIN_DISTRIBUTED_SNAPSHOT_IGNORE else HEAP_XMAX_DISTRIBUTED_SNAPSHOT_IGNORE) t).
Proof.
  intros [] Hi Hx. split; try done; simpl; destruct isXmin; subst;
    try rewrite (has_set_other _ _ HEAP_XMIN_DISTRIBUTED_SNAPSHOT_IGNORE) by done;
    try rewrite (has_set_other _ _ HEAP_XMAX_DISTRIBUTED_SNAPSHOT_IGNORE) by done; try done.
  intros _ y Hy. change (updater t = Some y) in Hy. rewrite Hx in Hy. by injection Hy as <-.
Qed.

Lemma XidInMVCCSnapshot_spec x ignore s :
  okay s → snap_ok s → committed (now s) x → (ignore = true → ignorable x) →
  wp (XidInMVCCSnapshot x ignore)
    (λ o s', (∃ f, o = Ret (in_snapshot (snap s) x, f) ∧ (f = true → ignorable x)) ∧
       okay s' ∧ snap_ok s' ∧ tup s' = tup s ∧ (now s ≤ now s')%nat ∧ same_view (snap s) (snap s')) s.
Proof.
  intros Hok [Hmine Hca] Hx Hig. pose proof (mine_in_use _ Hmine) as Hu.
  unfold XidInMVCCSnapshot. apply proc_bind, wp_get. cbn [next].
  destruct (haveDistribSnapshot (snap s) && negb ignore && negb IS_QUERY_DISPATCHER) eqn:Edist.
  2:{ apply proc_ret. split_and!; [|done|done|done|done|apply same_view_refl]. exists false. split; [|done]. do 2 f_equal.
      destruct ignore; [symmetry; by apply Hig|]. rewrite andb_true_r in Edist. unfold in_snapshot, distributed_view.
      by rewrite Edist. }
  apply andb_true_iff in Edist as [[Hhave Hign]%andb_true_iff HQD%negb_true_iff].
  apply proc_bind, wp_question. cbn [next].
  destruct (committed_test_view (now s) (snap s) _ (xact_cache s) x Hu eq_refl Hca Hx Hhave HQD)
    as (r & m' & c' & -> & Hca' & Hds & Hr).
  set (s2 := with_caches m' c' (tick s)).
  assert (Hpost : okay s2 ∧ snap_ok s2 ∧ tup s2 = tup s ∧ (now s ≤ now s2)%nat ∧ same_view (snap s) (snap s2)).
  { split_and!; [| |done|simpl; lia|by exists m'].
    - apply (okay_goes _ _ _ _ s); [done|done| |done]. simpl. apply (row_later (now s)); [lia|apply Hok].
    - split; [by apply (mine_caches (snap s))|]. simpl.
      apply (caches_later (now s)); [lia|rewrite Hds; by apply (snap_stamp (snap s))|rewrite Hds; by apply (snap_low (snap s))|done]. }
  apply proc_bind, wp_modify. cbn [next]. change (with_caches m' c' (tick s)) with s2. clearbody s2.
  destruct r; [done|..]; apply proc_ret; (split; [|done]).
  - exists false. by rewrite Hr.
  - exists false. by rewrite Hr.
  - exists true. by rewrite (Hr _ Hu).
Qed.

Lemma in_snapshot_noted_spec (isXmin : bool) x s :
  okay s → snap_ok s → committed (now s) x →
  (if isXmin then x = t_xmin (tup s) ∧ HeapTupleHeaderXminFrozen (tup s) = false else updater (tup s) = Some x) →
  wp (in_snapshot_noted isXmin x) (answers s (in_snapshot (snap s) x)) s.
Proof.
  intros Hok Hs Hx Hwhich. unfold in_snapshot_noted. apply proc_bind, wp_tuple. cbn [next]. apply proc_bind.
  eapply proc_mono; [apply XidInMVCCSnapshot_spec; [done|done|done|]|].
  { destruct isXmin; intros Hb; [destruct Hwhich as [-> Hf]|]; [by apply (rk_ignore_xmin _ _ (ok_row _ _ _ _ _ Hok))|].
    by apply (rk_ignore_xmax _ _ (ok_row _ _ _ _ _ Hok)). }
  intros o s1 ((f & -> & Hf) & Hok1 & Hs1 & Ht1 & Hn1 & Hv1). cbn [next]. apply proc_bind.
  apply (proc_mono _ (λ o s2, o = Ret tt ∧ okay s2 ∧ goes s1 s2)).
  - destruct f; [|by apply proc_ret]. apply proc_bind, wp_modify. cbn [next].
    set (s2 := with_tup _ s1).
    assert (Hok2 : okay s2).
    { apply (okay_goes _ _ _ _ s1); [done|by split| |done]. apply (ignore_ok _ _ isXmin x); [apply Hok1|by apply Hf|].
      rewrite Ht1. destruct isXmin; [apply Hwhich|done]. }
    eapply proc_mono; [by apply markDirty_spec|]. intros o s3 (-> & Hok3 & Hg3 & _). split_and!; [done|done|].
    etrans; [|exact Hg3]. by split.
  - intros o s2 (-> & Hok2 & Hg2). cbn [next]. apply proc_ret.
    destruct (mvcc_answer s1 s2 true Hok2 Hs1 Hg2) as (_ & ? & ? & ? & ? & Hv2).
    split_and!; [by left|done|done|by rewrite <-Ht1|lia|by apply (same_view_trans _ (snap s1))].
Qed.

(** ** The deleting transaction *)

Lemma deleted_later_spec x s :
  okay s → snap_ok s → updater (tup s) = Some x → me x = true →
  wp deleted_later (answers s (curcid (snap s) <=? cmax)) s.
Proof.
  intros Hok Hs Hx Hcur. unfold deleted_later. apply proc_bind, wp_get. cbn [next]. apply proc_bind.
  apply (wp_cmax good trouble cmin cmax x); [done|done|done|..].
  - intros s' Hok' Hg _. apply proc_ret. by apply mvcc_answer.
  - intros s' Hok' Hg Ht. by apply answers_trouble.
Qed.

(** The reference for the deleting transaction. *)
Definition kept s : bool := negb (deleted me (snap s) (tup s) cmax).

Lemma kept_goes s s' : goes s s' → kept s' = kept s.
Proof. intros [Hs _ HS _]. unfold kept, deleted. by rewrite HS, (same_row_updater _ _ Hs). Qed.

Lemma kept_none s : updater (tup s) = None → kept s = true.
Proof. unfold kept, deleted. by intros ->. Qed.

Lemma kept_own s x : updater (tup s) = Some x → me x = true → kept s = (curcid (snap s) <=? cmax).
Proof. unfold kept, deleted. intros -> ->. by rewrite Z.ltb_antisym, negb_involutive. Qed.

Lemma kept_failed s x : updater (tup s) = Some x → me x = false → fate x = false → kept s = true.
Proof. unfold kept, deleted. intros -> -> ->. done. Qed.

Lemma kept_running s n x :
  snap_ok s → updater (tup s) = Some x → me x = false → was_running n x → kept s = true.
Proof.
  intros [Hm _] Hx Hcur (m & _ & Ha & Hr). unfold kept, deleted. rewrite Hx, Hcur. destruct (fate x) eqn:Ef; [|done].
  by rewrite (running_unseen (snap s) m x).
Qed.

Lemma kept_committed s x : updater (tup s) = Some x → me x = false → fate x = true → kept s = in_snapshot (snap s) x.
Proof. unfold kept, deleted. intros -> -> ->. cbn [andb]. by rewrite negb_involutive. Qed.

(** The deleting transaction committed: before the snapshot or after it? *)
Lemma committed_deleter_spec s s1 x :
  okay s1 → snap_ok s → goes s s1 → updater (tup s) = Some x → committed (now s1) x →
  wp (in_snapshot_noted false x) (answers s (kept s)) s1.
Proof.
  intros Hok1 Hs Hg Hx Hc. assert (Hcur : me x = false) by (apply (ended_not_current (now s1)); [apply my_session|apply Hc]).
  rewrite (kept_committed s x), <-(go_snap _ _ Hg); [|done|done|apply Hc].
  eapply proc_mono; [apply (in_snapshot_noted_spec false x s1); [done|by apply (snap_goes s)|done|by rewrite (same_row_updater _ _ (go_row _ _ Hg))]|].
  intros o s'. by apply answers_from.
Qed.

Lemma xmax_mvcc_spec s : okay s → snap_ok s → wp xmax_mvcc (answers s (kept s)) s.
Proof.
  intros Hok Hs. unfold xmax_mvcc. apply proc_bind, wp_tuple. cbn [next].
  pose proof (ok_row _ _ _ _ _ Hok) as Hrow. unfold HeapTupleHeaderGetRawXmax, HeapTupleGetUpdateXid.
  destruct (has (t_infomask (tup s)) HEAP_XMAX_INVALID) eqn:Einv.
  { apply proc_ret. assert (kept s = true) as ->; [|by apply mvcc_answer].
    destruct (updater (tup s)) as [x|] eqn:Hx; [|by apply kept_none].
    destruct (rk_xmax_invalid _ _ Hrow Einv x Hx) as [He Hf]. apply (kept_failed s x); [done| |done].
    apply (ended_not_current (now s)); [apply my_session|done]. }
  destruct (HEAP_XMAX_IS_LOCKED_ONLY (t_infomask (tup s))) eqn:Elock.
  { apply proc_ret. rewrite kept_none by (unfold updater; by rewrite Elock). by apply mvcc_answer. }
  destruct (has (t_infomask (tup s)) HEAP_XMAX_IS_MULTI) eqn:Emulti.
  - assert (Hx : updater (tup s) = Some (MultiXactIdGetUpdateXid (t_xmax (tup s)))) by (unfold updater; by rewrite Elock, Emulti).
    unfold HeapTupleHeaderGetRawXmax. destruct (me (MultiXactIdGetUpdateXid (t_xmax (tup s)))) eqn:Hcur.
    { rewrite (kept_own s _ Hx Hcur). by apply (deleted_later_spec (MultiXactIdGetUpdateXid (t_xmax (tup s)))). }
    apply (wp_status good trouble cmin cmax); [done|by apply (rk_updater _ _ Hrow)| |].
    + intros s1 Hok1 Hg1 _ Hrun. apply proc_ret. rewrite (kept_running s (now s) _ Hs Hx Hcur Hrun). by apply mvcc_answer.
    + intros s1 Hok1 Hg1 _ Hend. destruct (fate (MultiXactIdGetUpdateXid (t_xmax (tup s)))) eqn:Ef.
      * by apply committed_deleter_spec.
      * apply proc_ret. rewrite (kept_failed s _ Hx Hcur Ef). by apply mvcc_answer.
  - assert (Hx : updater (tup s) = Some (t_xmax (tup s))) by (unfold updater; by rewrite Elock, Emulti).
    destruct (has (t_infomask (tup s)) HEAP_XMAX_COMMITTED) eqn:Ecom; cbn [negb].
    { apply committed_deleter_spec; [done|done|done|done|]. by apply (rk_xmax_committed _ _ Hrow). }
    destruct (me (t_xmax (tup s))) eqn:Hcur.
    { rewrite (kept_own s _ Hx Hcur). by apply (deleted_later_spec (t_xmax (tup s))). }
    apply (wp_status good trouble cmin cmax); [done|by apply (rk_updater _ _ Hrow)| |].
    + intros s1 Hok1 Hg1 _ Hrun. apply proc_ret. rewrite (kept_running s (now s) _ Hs Hx Hcur Hrun). by apply mvcc_answer.
    + intros s1 Hok1 Hg1 _ Hend. assert (Hx1 : ∀ x, updater (tup s1) = Some x → x = t_xmax (tup s)).
      { rewrite (same_row_updater _ _ (go_row _ _ Hg1)), Hx. by intros ? [= <-]. }
      assert (Hgone : track_locks → lock_gone (now s1) (tup s1)).
      { intros _. apply (same_row_lock_gone _ (tup s)); [apply Hg1|by apply lock_gone_single]. }
      destruct (fate (t_xmax (tup s))) eqn:Ef; cbn [negb].
      * apply (wp_hint good trouble cmin cmax); [done|do 2 right; left; split_and!; [done|by intros x ->%Hx1|done]|].
        intros s2 Hok2 Hg2 _. apply committed_deleter_spec; [done|done|by etrans|done|].
        split; [apply (ended_later (now s1)); [apply Hg2|done]|done].
      * apply (wp_hint good trouble cmin cmax); [done|do 3 right; split_and!; [done|by intros x ->%Hx1|done]|].
        intros s2 Hok2 Hg2 _. apply proc_ret. rewrite (kept_failed s _ Hx Hcur Ef). apply mvcc_answer; [done|done|by etrans].
Qed.

(** ** The check *)

(** A row of the own transaction. *)
Lemma own_row_mvcc_spec s :
  okay s → snap_ok s → HeapTupleHeaderXminFrozen (tup s) = false → me (t_xmin (tup s)) = true →
  wp own_row_mvcc (answers s ((cmin <? curcid (snap s)) && kept s)) s.
Proof.
  intros Hok Hs Hf Hown. unfold own_row_mvcc. apply proc_bind, wp_get. cbn [next]. apply proc_bind.
  apply (wp_cmin good trouble cmin cmax); [done|done|done| |].
  2:{ intros s1 Hok1 Hg1 Ht. by apply answers_trouble. }
  intros s1 Hok1 Hg1 Ht1. cbn [next].
  destruct (Z.leb_spec (curcid (snap s)) cmin) as [Hlate|Hearly].
  { apply proc_ret. rewrite (proj2 (Z.ltb_ge _ _)) by lia. by apply mvcc_answer. }
  rewrite (proj2 (Z.ltb_lt _ _)) by lia. cbn [andb].
  pose proof (ok_row _ _ _ _ _ Hok) as Hrow. unfold HeapTupleHeaderGetRawXmax, HeapTupleGetUpdateXid.
  assert (Hlater : ∀ x, updater (tup s) = Some x → me x = true → wp deleted_later (answers s (kept s)) s1).
  { intros x Hx Hcur. rewrite (kept_own s x Hx Hcur), <-(go_snap _ _ Hg1).
    eapply proc_mono; [apply (deleted_later_spec x); [done|by apply (snap_goes s)|by rewrite Ht1|done]|].
    intros o s'. by apply answers_from. }
  assert (Hfail : ∀ x, updater (tup s) = Some x → me x = false → fate x = false)
    by (intros x Hx Hcur; destruct (rk_own _ _ Hrow Hf Hown x Hx) as [|[_ ?]]; congruence).
  destruct (has (t_infomask (tup s)) HEAP_XMAX_INVALID) eqn:Einv.
  { apply proc_ret. assert (kept s = true) as ->; [|by apply mvcc_answer].
    destruct (updater (tup s)) as [x|] eqn:Hx; [|by apply kept_none].
    destruct (rk_xmax_invalid _ _ Hrow Einv x Hx) as [He Hfx]. apply (kept_failed s x); [done| |done].
    apply (ended_not_current (now s)); [apply my_session|done]. }
  destruct (HEAP_XMAX_IS_LOCKED_ONLY (t_infomask (tup s))) eqn:Elock.
  { apply proc_ret. rewrite kept_none by (unfold updater; by rewrite Elock). by apply mvcc_answer. }
  destruct (has (t_infomask (tup s)) HEAP_XMAX_IS_MULTI) eqn:Emulti.
  - assert (Hx : updater (tup s) = Some (MultiXactIdGetUpdateXid (t_xmax (tup s)))) by (unfold updater; by rewrite Elock, Emulti).
    unfold HeapTupleHeaderGetRawXmax. destruct (me (MultiXactIdGetUpdateXid (t_xmax (tup s)))) eqn:Hcur; cbn [negb]; [by apply (Hlater _ Hx)|].
    apply proc_ret. rewrite (kept_failed s _ Hx Hcur) by by apply Hfail. by apply mvcc_answer.
  - assert (Hx : updater (tup s) = Some (t_xmax (tup s))) by (unfold updater; by rewrite Elock, Emulti).
    destruct (me (t_xmax (tup s))) eqn:Hcur; cbn [negb]; [by apply (Hlater _ Hx)|].
    apply (wp_hint good trouble cmin cmax); [done| |].
    + assert (Hfx : failed (now s1) (t_xmax (tup s))).
      { apply (failed_later (now s)); [apply Hg1|]. destruct (rk_own _ _ Hrow Hf Hown _ Hx) as [|]; [congruence|done]. }
      do 3 right. rewrite Ht1. split_and!; [done|rewrite Hx; by intros x [= <-]|].
      intros _. apply lock_gone_single; [done|apply Hfx].
    + intros s2 Hok2 Hg2 _. apply proc_ret. rewrite (kept_failed s _ Hx Hcur) by by apply Hfail.
      apply mvcc_answer; [done|done|by etrans].
Qed.

Lemma mvcc_spec s : okay s → snap_ok s → wp HeapTupleSatisfiesMVCC (answers s (visible me (snap s) (tup s) cmin cmax)) s.
Proof.
  intros Hok Hs. unfold HeapTupleSatisfiesMVCC.
  assert (Hvis : ∀ b, (if HeapTupleHeaderXminFrozen (tup s) then true
    else if me (t_xmin (tup s)) then cmin <? curcid (snap s)
    else inserted (tup s) && negb (in_snapshot (snap s) (t_xmin (tup s)))) = b →
    visible me (snap s) (tup s) cmin cmax = b && kept s) by (intros b <-; done).
  apply (xmin_prologue_spec good trouble cmin cmax); [done|..].
  - (* inserted for good *)
    intros s1 Hok1 Hg1 [Hi1 Hc1]. apply proc_bind, wp_tuple. cbn [next]. pose proof (go_row _ _ Hg1) as Hsr.
    assert (Hrest : ∀ s2, okay s2 → snap_ok s2 → same_row (tup s1) (tup s2) → (now s1 ≤ now s2)%nat →
      same_view (snap s1) (snap s2) → visible me (snap s) (tup s) cmin cmax = kept s →
      wp xmax_mvcc (answers s (visible me (snap s) (tup s) cmin cmax)) s2).
    { intros s2 Hok2 Hs2 Hr2 Hn2 Hv2 ->. rewrite (go_snap _ _ Hg1) in Hv2.
      assert (Hk : kept s = kept s2).
      { unfold kept. rewrite (same_view_deleted (snap s) (snap s2)) by done. unfold deleted.
        by rewrite (same_row_updater (tup s) (tup s2)) by (etrans; done). }
      rewrite Hk. eapply proc_mono; [by apply xmax_mvcc_spec|].
      intros o s' (Ho & ? & ? & ? & ? & ?). pose proof (go_now _ _ Hg1).
      split_and!; [done|done|done|etrans; [exact Hsr|]; by etrans|lia|by apply (same_view_trans _ (snap s2))]. }
    rewrite (sr_frozen _ _ Hsr), (same_row_inserted _ _ Hsr), (sr_xmin _ _ Hsr) in *.
    destruct (HeapTupleHeaderXminFrozen (tup s)) eqn:Hf.
    { apply Hrest; [done|by apply (snap_goes s)|done|done|apply same_view_refl|by apply (Hvis true)]. }
    specialize (Hc1 eq_refl). assert (Hcur : me (t_xmin (tup s)) = false)
      by (apply (ended_not_current (now s1)); [apply my_session|apply Hc1]).
    unfold HeapTupleHeaderGetRawXmin. rewrite (sr_xmin _ _ Hsr). apply proc_bind.
    eapply proc_mono; [apply (in_snapshot_noted_spec true (t_xmin (tup s))); [done|by apply (snap_goes s)|done|]|].
    { by rewrite (sr_xmin _ _ Hsr), (sr_frozen _ _ Hsr). }
    rewrite (go_snap _ _ Hg1). rewrite Hcur, Hi1 in Hvis. cbn [andb] in Hvis. specialize (Hvis _ eq_refl).
    intros o s2 (Ho & Hok2 & Hs2 & Hr2 & Hn2 & Hv2). pose proof (go_now _ _ Hg1) as Hn1.
    assert (Hall : okay s2 ∧ snap_ok s2 ∧ same_row (tup s) (tup s2) ∧ (now s ≤ now s2)%nat ∧ same_view (snap s) (snap s2)).
    { split_and!; [done|done|by etrans|lia|by rewrite <-(go_snap _ _ Hg1)]. }
    destruct Ho as [-> |[-> Ht]]; cbn [next]; [|split; [by right|done]].
    destruct (in_snapshot (snap s) (t_xmin (tup s))); cbn [negb andb] in Hvis.
    + apply proc_ret. rewrite Hvis. split; [by left|done].
    + by apply Hrest.
  - (* never there *)
    intros s1 Hok1 Hg1 (Hf & Hi & He). pose proof (go_row _ _ Hg1) as Hsr.
    rewrite (sr_frozen _ _ Hsr) in Hf. rewrite (same_row_inserted _ _ Hsr) in Hi. rewrite (sr_xmin _ _ Hsr) in He.
    rewrite (Hvis false); [by apply mvcc_answer|].
    rewrite Hf, Hi, (ended_not_current (now s1) _ me); [done|apply my_session|done].
  - (* own row *)
    intros Hf Hcur. rewrite (Hvis (cmin <? curcid (snap s))); [by apply own_row_mvcc_spec|by rewrite Hf, Hcur].
  - (* another transaction is inserting it *)
    intros s1 Hok1 Hg1 Hf Hcur (m & Hm & Ha & Hr) Hi. apply proc_ret. rewrite (Hvis false); [by apply mvcc_answer|].
    rewrite Hf, Hcur, Hi. destruct (fate (t_xmin (tup s))) eqn:Ef; [|done]. cbn [andb].
    by rewrite (running_unseen (snap s) m (t_xmin (tup s)) (proj1 Hs)).
Qed.

(** C5: A row is seen with a snapshot exactly if the snapshot determines so: it was inserted by a
    transaction that the snapshot sees, or by an earlier command of the own one, and not so deleted.
    The answer is the same at any later moment, whatever transactions have ended and whatever hints any
    session has set in between, for rows on a segment with a distributed snapshot as for local ones.
    The hints that the check sets and the ids that it caches are true, nothing else in the row
    changes, and an error is raised only if a command id cannot be read. *)
Theorem mvcc_visibility s :
  okay s → snap_ok s →
  let seen := visible me (snap s) (tup s) cmin cmax in
  wp HeapTupleSatisfiesMVCC (answers s seen) s ∧
  ∀ s1, okay s1 → snap_ok s1 → same_row (tup s) (tup s1) → same_view (snap s) (snap s1) →
    wp HeapTupleSatisfiesMVCC (answers s1 seen) s1.
Proof.
  intros Hok Hs seen. split; [by apply mvcc_spec|]. intros s1 Hok1 Hs1 Hr Hv.
  assert (seen = visible me (snap s1) (tup s1) cmin cmax) as ->; [|by apply mvcc_spec].
  rewrite (same_row_visible (tup s) (tup s1)) by done. unfold seen, visible.
  rewrite (same_view_deleted (snap s) (snap s1)), (same_view_in_snapshot (snap s) (snap s1)) by done.
  by destruct Hv as (m & _ & ->).
Qed.
End Mvcc.
