(* ===== verification/TqualVacuum.v ===== *)
(** * Visibility of row versions: vacuum

    A row that may be removed is seen with no snapshot of any session.  A row that an aborted update
    and a lock share loses its lock. *)
From S2P Require Import Prelude Proc DistributedSnapshot DistributedSnapshotFacts Clog TransAm ObjectIds UpdateResult Htup ComboCid Tqual TqualFacts.

(** A row that is not only locked is not marked so. *)
Lemma not_lock_only m : HEAP_XMAX_IS_LOCKED_ONLY m = false → has m HEAP_XMAX_LOCK_ONLY = false.
Proof. unfold HEAP_XMAX_IS_LOCKED_ONLY. by intros [-> _]%orb_false_iff. Qed.

Section Vacuum.
Context {env : TqualEnv} {tenv : TransamEnv} {cenv : ComboEnv} {H : History} {laws : HistoryLaws}.
Context (good : combo → Prop) (trouble : Prop) (cmin cmax : Z) (no_locks : ¬ track_locks).
Implicit Types (n : nat) (x : Z) (S : SnapshotData) (t : HeapTupleHeader) (s : scan).

Notation okay := (okay good trouble cmin cmax).
Notation me := TransactionIdIsCurrentTransactionId.

(** Nobody sees the row. *)
Definition unseen t : Prop := ∀ cur S c1 c2, sessions cur → in_use S → visible cur S t c1 c2 = false.

(** [OldestXmin]: every snapshot in use sees what committed before it. *)
Definition horizon (OldestXmin : Z) : Prop :=
  ∀ S x n, in_use S → committed n x → TransactionIdPrecedes x OldestXmin = true → in_snapshot S x = false.

Lemma never_unseen n t :
  HeapTupleHeaderXminFrozen t = false → inserted t = false → ended n (t_xmin t) → unseen t.
Proof.
  intros Hf Hi He cur S c1 c2 Hs HS. unfold visible. by rewrite Hf, Hi, (ended_not_current n _ cur).
Qed.

Lemma deleted_unseen OldestXmin n t x :
  horizon OldestXmin → updater t = Some x → committed n x → TransactionIdPrecedes x OldestXmin = true → unseen t.
Proof.
  intros Hh Hx Hc Hp cur S c1 c2 Hs HS. unfold visible, deleted. rewrite Hx.
  rewrite (ended_not_current n x cur) by (done || apply Hc). rewrite (proj2 Hc), (Hh S x n HS Hc Hp). cbn. by rewrite andb_false_r.
Qed.

(** What each result says of the row. *)
Definition vacuum_says (OldestXmin : Z) s s' (r : HTSV_Result) : Prop :=
  let t := tup s in
  match r with
  | HEAPTUPLE_DEAD => unseen t
  | HEAPTUPLE_LIVE => there s' ∧ ∀ x, updater t = Some x → failed (now s') x
  | HEAPTUPLE_RECENTLY_DEAD =>
      there s' ∧ ∃ x, updater t = Some x ∧ committed (now s') x ∧ TransactionIdPrecedes x OldestXmin = false
  | HEAPTUPLE_INSERT_IN_PROGRESS => was_running (now s) (t_xmin t)
  | HEAPTUPLE_DELETE_IN_PROGRESS => ∃ x, updater t = Some x ∧ was_running (now s) x
  end.

Definition vacuums (OldestXmin : Z) s (o : outcome HTSV_Result) s' : Prop :=
  okay s' ∧ goes s s' ∧ ∃ r, o = Ret r ∧ vacuum_says OldestXmin s s' r.

(** It said so of the row as it was before. *)
Lemma vacuums_from OldestXmin s s1 o s' : goes s s1 → vacuums OldestXmin s1 o s' → vacuums OldestXmin s o s'.
Proof.
  intros Hg (Hok & Hg' & r & -> & Hr). pose proof (go_row _ _ Hg) as Hsr. pose proof (go_now _ _ Hg) as Hn.
  split_and!; [done|by etrans|]. exists r. split; [done|]. unfold vacuum_says in *.
  rewrite (same_row_updater _ _ Hsr), (sr_xmin _ _ Hsr) in Hr.
  destruct r; try done.
  - intros cur S c1 c2 Hs HS. rewrite <-(same_row_visible _ _ cur S c1 c2 Hsr). by apply Hr.
  - destruct Hr as (m & ? & ?). exists m. split; [lia|done].
  - destruct Hr as (x & Hx & m & ? & ?). exists x. split; [done|]. exists m. split; [lia|done].
Qed.

Lemma dead_by_spec OldestXmin s s' x :
  okay s' → goes s s' → there s' → horizon OldestXmin → updater (tup s) = Some x → committed (now s') x →
  vacuums OldestXmin s (Ret (dead_by OldestXmin x)) s'.
Proof.
  intros Hok Hg Ht Hh Hx Hc. split_and!; [done|done|]. eexists; split; [done|]. unfold dead_by.
  destruct (TransactionIdPrecedes x OldestXmin) eqn:Ep; cbn [negb]; simpl.
  - by apply (deleted_unseen OldestXmin (now s') _ x).
  - by eauto.
Qed.

(** A row that is still alive, with its hint. *)
Lemma live_hint_spec OldestXmin s s1 :
  okay s1 → goes s s1 → there s → (∀ x, updater (tup s) = Some x → failed (now s1) x) →
  wp (bind (SetHintBits HEAP_XMAX_INVALID InvalidTransactionId) (λ _, ret HEAPTUPLE_LIVE)) (vacuums OldestXmin s) s1.
Proof.
  intros Hok Hg Ht Hx. apply (wp_hint good trouble cmin cmax); [done| |].
  - do 3 right. split_and!; [done|by rewrite (same_row_updater _ _ (go_row _ _ Hg))|done].
  - intros s2 Hok2 Hg2 _. apply proc_ret. split_and!; [done|by etrans|]. eexists; split; [done|]. split.
    + apply (there_goes s); [by etrans|done].
    + intros x Hu. apply (failed_later (now s1)); [apply Hg2|auto].
Qed.

Lemma live_spec OldestXmin s s1 :
  okay s1 → goes s s1 → there s → (∀ x, updater (tup s) = Some x → failed (now s1) x) →
  vacuums OldestXmin s (Ret HEAPTUPLE_LIVE) s1.
Proof.
  intros Hok Hg Ht Hx. split_and!; [done|done|]. eexists; split; [done|]. split; [by apply (there_goes s)|done].
Qed.

Lemma locked_vacuum_spec OldestXmin s :
  okay s → there s → updater (tup s) = None → wp locked_vacuum (vacuums OldestXmin s) s.
Proof.
  intros Hok Ht Hu. unfold locked_vacuum. apply proc_bind, wp_tuple. cbn [next].
  assert (Hx : ∀ n x, updater (tup s) = Some x → failed n x) by (intros n x; by rewrite Hu).
  destruct (negb _); [|apply proc_ret, live_spec; by auto].
  apply proc_bind. apply (proc_mono _ (λ o s1, (∃ b : bool, o = Ret b) ∧ okay s1 ∧ goes s s1)).
  { destruct (has _ _); [|apply wp_question; split_and!; [by eexists|by apply tick_ok|apply tick_goes]].
    destruct (negb _); [|apply proc_ret; split_and!; [by eexists|done..]].
    eapply proc_mono; [by apply (multi_running_spec good trouble cmin cmax)|]. intros o s1 (? & ? & b & -> & _). by eauto. }
  intros o s1 ([b ->] & Hok1 & Hg1). cbn [next]. destruct b; [apply proc_ret, live_spec; by auto|apply live_hint_spec; by auto].
Qed.

(** A deleting transaction that is asked about. *)
Lemma xmax_vacuum_spec OldestXmin s :
  okay s → there s → horizon OldestXmin → wp (xmax_vacuum OldestXmin) (vacuums OldestXmin s) s.
Proof.
  intros Hok Ht Hh. unfold xmax_vacuum. apply proc_bind, wp_tuple. cbn [next].
  pose proof (ok_row _ _ _ _ _ Hok) as Hrow. unfold HeapTupleGetUpdateXid, HeapTupleHeaderGetRawXmax.
  destruct (has (t_infomask (tup s)) HEAP_XMAX_INVALID) eqn:Einv.
  { apply proc_ret, live_spec; [done|done|done|]. by apply (rk_xmax_invalid _ _ Hrow). }
  destruct (HEAP_XMAX_IS_LOCKED_ONLY (t_infomask (tup s))) eqn:Elock.
  { apply locked_vacuum_spec; [done|done|]. unfold updater. by rewrite Elock. }
  destruct (has (t_infomask (tup s)) HEAP_XMAX_IS_MULTI) eqn:Emulti.
  - assert (Hx : updater (tup s) = Some (MultiXactIdGetUpdateXid (t_xmax (tup s)))) by (unfold updater; by rewrite Elock, Emulti).
    apply (wp_status good trouble cmin cmax); [done|by apply (rk_updater _ _ Hrow)|..]; intros s1 Hok1 Hg1 _ Hst.
    { apply proc_ret. split_and!; [done|done|]. eexists; split; [done|]. simpl. by eauto. }
    destruct (fate (MultiXactIdGetUpdateXid (t_xmax (tup s)))) eqn:Ef.
    { apply proc_ret, dead_by_spec; [done|done|by apply (there_goes s)|done|done|by split]. }
    assert (Hfail : ∀ x, updater (tup s) = Some x → failed (now s1) x) by (rewrite Hx; intros x [= <-]; by split).
    apply proc_bind. eapply proc_mono; [by apply (multi_running_spec good trouble cmin cmax)|].
    intros o s2 (Hok2 & Hg12 & b & -> & _). cbn [next]. assert (Hg2 : goes s s2) by by etrans.
    assert (Hfail2 : ∀ x, updater (tup s) = Some x → failed (now s2) x).
    { intros x Hu. apply (failed_later (now s1)); [apply Hg12|by apply Hfail]. }
    destruct (negb _); [|apply proc_bind, proc_ret; by apply live_hint_spec].
    apply (wp_hint good trouble cmin cmax); [done| |].
    + do 3 right. split_and!; [done|by rewrite (same_row_updater _ _ (go_row _ _ Hg2))|done].
    + intros s3 Hok3 Hg3 _. apply live_hint_spec; [done|by etrans|done|]. intros x Hu.
      apply (failed_later (now s2)); [apply Hg3|by apply Hfail2].
  - assert (Hx : updater (tup s) = Some (t_xmax (tup s))) by (unfold updater; by rewrite Elock, Emulti).
    destruct (has (t_infomask (tup s)) HEAP_XMAX_COMMITTED) eqn:Ecom; cbn [negb].
    { apply proc_ret, dead_by_spec; [done..|]. by apply (rk_xmax_committed _ _ Hrow). }
    apply (wp_status good trouble cmin cmax); [done|by apply (rk_updater _ _ Hrow)|..]; intros s1 Hok1 Hg1 _ Hst.
    { apply proc_ret. split_and!; [done|done|]. eexists; split; [done|]. simpl. by eauto. }
    destruct (fate (t_xmax (tup s))) eqn:Ef.
    + apply (wp_hint good trouble cmin cmax); [done| |].
      * do 2 right; left. split_and!; [done| |done]. rewrite (same_row_updater _ _ (go_row _ _ Hg1)), Hx. intros x [= <-]. by split.
      * intros s2 Hok2 Hg2 _. apply proc_ret, dead_by_spec; [done|by etrans|apply (there_goes s); [by etrans|done]|done|done|].
        apply (committed_later (now s1)); [apply Hg2|by split].
    + apply live_hint_spec; [done|done|done|]. rewrite Hx. intros x [= <-]. by split.
Qed.

(** ** The inserting transaction *)

Lemma current_running n x : me x = true → assigned n x → was_running n x.
Proof. intros Hc Ha. exists n. split_and!; [done|done|]. by apply (session_runs me); [apply my_session|]. Qed.

Lemma inserting_spec OldestXmin s s' :
  okay s' → goes s s' → was_running (now s) (t_xmin (tup s)) → vacuums OldestXmin s (Ret HEAPTUPLE_INSERT_IN_PROGRESS) s'.
Proof. intros Hok Hg Hr. split_and!; [done|done|]. by eexists. Qed.

Lemma only_locked_spec s :
  okay s → wp HeapTupleHeaderIsOnlyLocked (λ o s', okay s' ∧ goes s s' ∧ ∃ b, o = Ret b) s.
Proof.
  intros Hok. unfold HeapTupleHeaderIsOnlyLocked. apply proc_bind, wp_tuple. cbn [next].
  assert (Hret : ∀ s' b, okay s' → goes s s' → wp (ret b) (λ o s', okay s' ∧ goes s s' ∧ ∃ b : bool, o = Ret b) s')
    by (intros s' b ? ?; apply proc_ret; split_and!; [done|done|by eexists]).
  repeat (match goal with |- wp (if ?b then _ else _) _ _ => destruct b end; [by apply Hret|]).
  apply proc_bind, wp_question. cbn [next]. pose proof (tick_ok _ _ _ _ s Hok). pose proof (tick_goes s).
  match goal with |- wp (if ?b then _ else _) _ _ => destruct b end; [by apply Hret|].
  apply proc_bind, wp_question. cbn [next]. apply Hret; [by apply tick_ok|etrans; [done|apply tick_goes]].
Qed.

Lemma own_row_vacuum_spec OldestXmin s :
  okay s → HeapTupleHeaderXminFrozen (tup s) = false → me (t_xmin (tup s)) = true →
  wp own_row_vacuum (vacuums OldestXmin s) s.
Proof.
  intros Hok Hf Hcur. pose proof (ok_row _ _ _ _ _ Hok) as Hrow.
  assert (Hrun : was_running (now s) (t_xmin (tup s))) by (apply current_running; [done|by apply (rk_xmin _ _ Hrow)]).
  unfold own_row_vacuum. apply proc_bind, wp_tuple. cbn [next].
  destruct (has (t_infomask (tup s)) HEAP_XMAX_INVALID) eqn:Einv; [by apply proc_ret, inserting_spec|]. apply proc_bind.
  apply (proc_mono _ (λ o s', okay s' ∧ goes s s' ∧ ∃ b : bool, o = Ret b ∧
    (HEAP_XMAX_IS_LOCKED_ONLY (t_infomask (tup s)) = true → b = true))).
  { destruct (HEAP_XMAX_IS_LOCKED_ONLY (t_infomask (tup s))); [apply proc_ret; split_and!; [done|done|by exists true]|].
    eapply proc_mono; [by apply only_locked_spec|]. intros o s' (? & ? & b & ->). split_and!; [done|done|by exists b]. }
  intros o s1 (Hok1 & Hg1 & b & -> & Hb). cbn [next]. destruct b; [by apply proc_ret, inserting_spec|].
  destruct (HEAP_XMAX_IS_LOCKED_ONLY (t_infomask (tup s))) eqn:Elock; [by specialize (Hb eq_refl)|].
  destruct (me (HeapTupleHeaderGetUpdateXid (tup s))) eqn:Hupd; apply proc_ret; [|by apply inserting_spec].
  assert (Hx : updater (tup s) = Some (HeapTupleHeaderGetUpdateXid (tup s))).
  { unfold updater, HeapTupleHeaderGetUpdateXid, HeapTupleGetUpdateXid, HeapTupleHeaderGetRawXmax.
    rewrite Elock, Einv, (not_lock_only _ Elock). by destruct (has _ HEAP_XMAX_IS_MULTI). }
  split_and!; [done|done|]. eexists; split; [done|]. simpl. eexists; split; [done|].
  apply current_running; [done|by apply (rk_updater _ _ Hrow)].
Qed.

Lemma moved_vacuum_spec OldestXmin rest other s :
  okay s → HeapTupleHeaderXminCommitted (tup s) = false → HeapTupleHeaderXminInvalid (tup s) = false →
  (∀ s', okay s' → goes s s' → there s' → wp rest (vacuums OldestXmin s) s') →
  (∀ s', okay s' → goes s s' → never_there s' → vacuums OldestXmin s (Ret HEAPTUPLE_DEAD) s') →
  (moved (tup s) = false → wp other (vacuums OldestXmin s) s) →
  wp (moved_vacuum rest other) (vacuums OldestXmin s) s.
Proof.
  intros Hok Hc Hi Hrest Hdead Hother. destruct (unhinted _ Hc Hi) as [Hb Hf].
  unfold moved_vacuum. apply proc_bind, wp_tuple. cbn [next].
  destruct (has (t_infomask (tup s)) HEAP_MOVED_OFF) eqn:Eoff; [|destruct (has (t_infomask (tup s)) HEAP_MOVED_IN) eqn:Ein].
  - destruct (moved_facts good trouble cmin cmax s Hok) as (Hcur & Hend & Hcase); [unfold moved; by rewrite Eoff|done|].
    rewrite xvac_off by done. rewrite Hcur. apply (moved_status good trouble cmin cmax); [done|done|]. intros s1 Hok1 Hg1 Ht1.
    unfold inserted in Hcase. rewrite Hf, Eoff in Hcase. destruct (fate (t_field3 (tup s))); cbn [negb] in Hcase.
    + apply (wp_never good trouble cmin cmax); [done|by apply (never_there_goes s)|by rewrite Ht1|].
      intros s2 ? Hg2 ?. apply Hdead; [done|by etrans|done].
    + apply (wp_there good trouble cmin cmax); [done|by apply (there_goes s)|by rewrite Ht1..|].
      intros s2 ? Hg2 ?. apply Hrest; [done|by etrans|done].
  - destruct (moved_facts good trouble cmin cmax s Hok) as (Hcur & Hend & Hcase); [unfold moved; by rewrite Ein, orb_true_r|done|].
    rewrite xvac_in by done. rewrite Hcur. apply (moved_status good trouble cmin cmax); [done|done|]. intros s1 Hok1 Hg1 Ht1.
    unfold inserted in Hcase. rewrite Hf, Eoff, Ein in Hcase. destruct (fate (t_field3 (tup s))).
    + apply (wp_there good trouble cmin cmax); [done|by apply (there_goes s)|by rewrite Ht1..|].
      intros s2 ? Hg2 ?. apply Hrest; [done|by etrans|done].
    + apply (wp_never good trouble cmin cmax); [done|by apply (never_there_goes s)|by rewrite Ht1|].
      intros s2 ? Hg2 ?. apply Hdead; [done|by etrans|done].
  - apply Hother. unfold moved. by rewrite Eoff, Ein.
Qed.

Lemma vacuum_spec OldestXmin s :
  okay s → horizon OldestXmin → wp (HeapTupleSatisfiesVacuum OldestXmin) (vacuums OldestXmin s) s.
Proof.
  intros Hok Hh. unfold HeapTupleSatisfiesVacuum. apply proc_bind, wp_tuple. cbn [next].
  assert (Hrest : ∀ s', okay s' → goes s s' → there s' → wp (xmax_vacuum OldestXmin) (vacuums OldestXmin s) s').
  { intros s' ? ? ?. eapply proc_mono; [by apply xmax_vacuum_spec|]. intros o s''. by apply vacuums_from. }
  assert (Hdead : ∀ s', okay s' → goes s s' → never_there s' → vacuums OldestXmin s (Ret HEAPTUPLE_DEAD) s').
  { intros s' Hok' Hg (Hf & Hi & He). pose proof (go_row _ _ Hg) as Hsr.
    rewrite (sr_frozen _ _ Hsr) in Hf. rewrite (same_row_inserted _ _ Hsr) in Hi. rewrite (sr_xmin _ _ Hsr) in He.
    split_and!; [done|done|]. eexists; split; [done|]. by apply (never_unseen (now s')). }
  destruct (HeapTupleHeaderXminCommitted (tup s)) eqn:Hc.
  { apply Hrest; [done|done|]. by apply (rk_committed _ _ (ok_row _ _ _ _ _ Hok)). }
  destruct (HeapTupleHeaderXminInvalid (tup s)) eqn:Hi.
  { apply proc_ret, Hdead; [done|done|]. destruct (rk_invalid _ _ (ok_row _ _ _ _ _ Hok) Hi). split_and!; [|done|done].
    rewrite xmin_frozen_bits. unfold HeapTupleHeaderXminCommitted in Hc. by rewrite Hc. }
  destruct (unhinted _ Hc Hi) as [Hb Hf].
  apply moved_vacuum_spec; [done..|]. intros Hm. unfold HeapTupleHeaderGetRawXmin.
  destruct (me (t_xmin (tup s))) eqn:Hcur; [by apply own_row_vacuum_spec|].
  apply (inserted_by_other_spec good trouble cmin cmax); [done..|]. intros s' ? ? ?. by apply proc_ret, inserting_spec.
Qed.

(** The quick test on the hints alone. *)
Lemma surely_dead_spec OldestXmin n t :
  row_ok n t → horizon OldestXmin → HeapTupleIsSurelyDead OldestXmin t = true → unseen t.
Proof.
  intros Hrow Hh. unfold HeapTupleIsSurelyDead. destruct (HeapTupleHeaderXminCommitted t) eqn:Hc; cbn [negb].
  - destruct (has _ HEAP_XMAX_INVALID); [done|]. destruct (HEAP_XMAX_IS_LOCKED_ONLY (t_infomask t)) eqn:Elock; [done|].
    destruct (has _ HEAP_XMAX_IS_MULTI) eqn:Emulti; [done|]. destruct (has _ HEAP_XMAX_COMMITTED) eqn:Ecom; [|done].
    cbn [negb]. intros Hp. assert (Hx : updater t = Some (t_xmax t)) by (unfold updater; by rewrite Elock, Emulti).
    apply (deleted_unseen OldestXmin n t (t_xmax t)); [done|done|by apply (rk_xmax_committed _ _ Hrow)|done].
  - intros Hi. destruct (rk_invalid _ _ Hrow Hi). apply (never_unseen n); [|done|done].
    rewrite xmin_frozen_bits. unfold HeapTupleHeaderXminCommitted in Hc. by rewrite Hc.
Qed.

(** C11: What vacuum is told about a row is true, whatever other transactions do meanwhile.  A row that may
    be removed is seen by no session with any snapshot in use, now or later, if [OldestXmin] is a bound
    such that every snapshot sees what committed before it; the quick test on the hints says so only
    for such rows too.  A live row was inserted for good and its deletion, if any, failed; a recently
    dead one was deleted by a transaction that committed and is not before the bound; a row in progress
    has a transaction that was running meanwhile.  No error is raised, and hints stay true. *)
Theorem vacuum_dead_unseen OldestXmin s :
  okay s → horizon OldestXmin →
  wp (HeapTupleSatisfiesVacuum OldestXmin)
    (λ o s', okay s' ∧ goes s s' ∧ ∃ r, o = Ret r ∧ vacuum_says OldestXmin s s' r) s ∧
  (HeapTupleIsSurelyDead OldestXmin (tup s) = true → unseen (tup s)).
Proof.
  intros Hok Hh. split; [by apply vacuum_spec|]. apply (surely_dead_spec OldestXmin (now s)); [apply Hok|done].
Qed.
End Vacuum.

(** ** Locks *)

Section Lockers.
Context {env : TqualEnv} {tenv : TransamEnv} {cenv : ComboEnv}.
Implicit Types s : scan.

(** Setting a hint without a commit record to wait for. *)
Lemma set_hint_now hint s :
  hint = HEAP_XMAX_INVALID →
  ∃ s', SetHintBits hint InvalidTransactionId s = (Ret tt, s') ∧ tup s' = set_infomask hint (tup s).
Proof.
  intros ->. unfold SetHintBits, markDirty, bind, modify, ret, tuple, ask. cbn.
  repeat (match goal with |- context [if ?b then _ else _] => destruct b end; cbn); by eexists.
Qed.

Lemma run_bind {A B} (m : proc scan A) (f : A → proc scan B) s a s' : m s = (Ret a, s') → bind m f s = f a s'.
Proof. intros E. unfold bind. by rewrite E. Qed.

(** A member that runs is found. *)
Lemma locker_runs multi :
  (∃ m, m ∈ GetMultiXactIdMembers multi ∧ ∀ n, IsInProgress (moments n) (m_xid m) = true) →
  ∀ s, ∃ s', MultiXactIdIsRunning multi s = (Ret true, s') ∧ tup s' = tup s.
Proof.
  intros (m & Hin & Hrun) s. unfold MultiXactIdIsRunning. destruct (existsb _ _); [by eexists|].
  induction (GetMultiXactIdMembers multi) as [|m' ms IH] in Hin, s |- *; [by apply elem_of_nil in Hin|]. cbn [any_in_progress].
  unfold TransactionIdIsInProgress, ask, bind. destruct (IsInProgress (moments (now s)) (m_xid m')) eqn:E; [by eexists|].
  apply elem_of_cons in Hin as [->|Hin]; [by rewrite Hrun in E|]. apply (IH Hin (tick s)).
Qed.

(** C38: Vacuum forgets a lock.  A row that a transaction tried to update and others have locked since is
    reported as being updated as long as one of the lockers runs, even if the update was rolled back.
    When vacuum looks at the row in that state it marks its deletion as void although the lockers are
    running; from then on the row is reported as free, and the locks do not hold back an update. *)
Theorem vacuum_forgets_lockers OldestXmin cid s :
  let t := tup s in
  let u := MultiXactIdGetUpdateXid (t_xmax t) in
  HeapTupleHeaderXminCommitted t = true → has (t_infomask t) HEAP_XMAX_INVALID = false →
  has (t_infomask t) HEAP_XMAX_COMMITTED = false → has (t_infomask t) HEAP_XMAX_IS_MULTI = true →
  HEAP_XMAX_IS_LOCKED_ONLY (t_infomask t) = false → TransactionIdIsCurrentTransactionId u = false →
  (∀ n, IsInProgress (moments n) u = false ∧ DidCommit (moments n) u = false) →
  (∃ m, m ∈ GetMultiXactIdMembers (t_xmax t) ∧ ∀ n, IsInProgress (moments n) (m_xid m) = true) →
  (HeapTupleSatisfiesUpdate cid s).1 = Ret HeapTupleBeingUpdated ∧
  ∃ s', HeapTupleSatisfiesVacuum OldestXmin s = (Ret HEAPTUPLE_LIVE, s') ∧
    (HeapTupleSatisfiesUpdate cid s').1 = Ret HeapTupleMayBeUpdated.
Proof.
  intros t u Hc Hi Hxc Hm Hl Hcur Hmom Hlocker. pose proof (locker_runs (t_xmax t) Hlocker) as Hmulti.
  assert (Hrun : ∀ n, IsInProgress (moments n) u = false) by (intros n; apply Hmom).
  assert (Hdid : ∀ n, DidCommit (moments n) u = false) by (intros n; apply Hmom). clear Hmom Hlocker.
  assert (Hup : HEAP_LOCKED_UPGRADED (t_infomask t) = false).
  { unfold HEAP_LOCKED_UPGRADED. by rewrite (not_lock_only _ Hl), andb_false_r. }
  split.
  - unfold HeapTupleSatisfiesUpdate, xmin_prologue, xmax_update. do 2 (rewrite (run_bind tuple _ s t s) by done; rewrite ?Hc).
    cbn zeta. rewrite Hi, Hxc, Hm, Hup, Hl. unfold HeapTupleGetUpdateXid, HeapTupleHeaderGetRawXmax. fold u. rewrite Hcur.
    erewrite run_bind by (unfold TransactionIdIsInProgress, ask; by rewrite Hrun). cbv beta iota.
    erewrite run_bind by (unfold TransactionIdDidCommit, ask; by rewrite Hdid). cbv beta iota.
    destruct (Hmulti (tick (tick s))) as (s3 & E3 & _). erewrite run_bind by exact E3. cbv beta iota. done.
  - destruct (Hmulti (tick (tick s))) as (s3 & E3 & T3). destruct (set_hint_now HEAP_XMAX_INVALID s3 eq_refl) as (s4 & E4 & T4).
    exists s4. split.
    + unfold HeapTupleSatisfiesVacuum, xmax_vacuum. do 2 (rewrite (run_bind tuple _ s t s) by done; rewrite ?Hc).
      cbn zeta. rewrite Hi, Hl, Hm. unfold HeapTupleGetUpdateXid, HeapTupleHeaderGetRawXmax. fold u.
      erewrite run_bind by (unfold TransactionIdIsInProgress, ask; by rewrite Hrun). cbv beta iota.
      erewrite run_bind by (unfold TransactionIdDidCommit, ask; by rewrite Hdid). cbv beta iota.
      erewrite run_bind by exact E3. cbv beta iota. cbv beta iota delta [negb].
      erewrite run_bind by done. cbv beta. erewrite run_bind by exact E4. done.
    + unfold HeapTupleSatisfiesUpdate, xmin_prologue, xmax_update. rewrite (run_bind tuple _ s4 (tup s4) s4) by done. rewrite T4.
      rewrite T3. change (tup (tick (tick s))) with t. assert (HeapTupleHeaderXminCommitted (set_infomask HEAP_XMAX_INVALID t) = true) as ->.
      { unfold HeapTupleHeaderXminCommitted in *. simpl. by rewrite has_set_other. }
      rewrite (run_bind tuple _ s4 (tup s4) s4) by done. rewrite T4. cbn zeta. cbn [t_infomask set_infomask].
      by rewrite has_set.
Qed.
End Lockers.
