(* ===== verification/TqualUpdate.v ===== *)
(** * Visibility of row versions: updates and the present

    The checks that look at the present instead of a snapshot: what they report was the case at some
    moment while they ran. *)
From S2P Require Import Prelude Proc DistributedSnapshot DistributedSnapshotFacts Clog TransAm ObjectIds UpdateResult Htup ComboCid Tqual TqualFacts.

Section Update.
Context {env : TqualEnv} {tenv : TransamEnv} {cenv : ComboEnv} {H : History} {laws : HistoryLaws}.
Context (good : combo → Prop) (trouble : Prop) (cmin cmax : Z) (locks : track_locks).
Implicit Types (n : nat) (x : Z) (t : HeapTupleHeader) (s : scan).

Notation okay := (okay good trouble cmin cmax).
Notation me := TransactionIdIsCurrentTransactionId.

(** ** What the results say *)

(** The row is there for the session: inserted for good, or by an earlier command of its own. *)
Definition present (cid : Z) s s' : Prop :=
  there s' ∨ HeapTupleHeaderXminFrozen (tup s) = false ∧ me (t_xmin (tup s)) = true ∧ cmin < cid.

(** No other session holds a lock on the row. *)
Definition unlocked s s' : Prop :=
  let t := tup s in
  if has (t_infomask t) HEAP_XMAX_IS_MULTI then
    HEAP_LOCKED_UPGRADED (t_infomask t) = true ∨
    ∀ m, m ∈ GetMultiXactIdMembers (t_xmax t) → me (m_xid m) = true ∨ ended (now s') (m_xid m)
  else me (t_xmax t) = true ∨ ended (now s') (t_xmax t).

(** Another session was changing or locking the row; if several hold the lock, one of them was running,
    perhaps the own session. *)
Definition contended s : Prop :=
  let t := tup s in
  (∃ x, updater t = Some x ∧ me x = false ∧ was_running (now s) x) ∨
  (if has (t_infomask t) HEAP_XMAX_IS_MULTI then
     ∃ m, m ∈ GetMultiXactIdMembers (t_xmax t) ∧ was_running (now s) (m_xid m)
   else me (t_xmax t) = false ∧ was_running (now s) (t_xmax t)).

Definition update_says (cid : Z) s s' (r : HTSU_Result) : Prop :=
  let t := tup s in
  match r with
  | HeapTupleMayBeUpdated => present cid s s' ∧ (∀ x, updater t = Some x → failed (now s') x) ∧ unlocked s s'
  | HeapTupleInvisible =>
      never_there s' ∨ (me (t_xmin t) = false ∧ was_running (now s) (t_xmin t)) ∨ (me (t_xmin t) = true ∧ cid ≤ cmin) ∨
      (∃ x, updater t = Some x ∧ me x = true ∧ cmax < cid)
  | HeapTupleSelfUpdated => present cid s s' ∧ ∃ x, updater t = Some x ∧ me x = true ∧ cid ≤ cmax
  | HeapTupleUpdated => there s' ∧ ∃ x, updater t = Some x ∧ committed (now s') x
  | HeapTupleBeingUpdated => present cid s s' ∧ contended s
  end.

Definition updates (cid : Z) s (o : outcome HTSU_Result) s' : Prop :=
  okay s' ∧ goes s s' ∧ ((∃ r, o = Ret r ∧ update_says cid s s' r) ∨ o = ERROR ∧ trouble).

Lemma updates_ret cid s s' r : okay s' → goes s s' → update_says cid s s' r → updates cid s (Ret r) s'.
Proof. intros ? ? ?. split_and!; [done|done|]. left. by exists r. Qed.

Lemma unlocked_later s s1 s2 : goes s s1 → goes s1 s2 → unlocked s s1 → unlocked s s2.
Proof.
  intros Hg1 Hg2. pose proof (go_now _ _ Hg2). unfold unlocked. destruct (has _ _).
  - intros [?|Hm]; [by left|right]. intros m Hin. destruct (Hm m Hin); [by left|right]. by apply (ended_later (now s1)).
  - intros [?|?]; [by left|right]. by apply (ended_later (now s1)).
Qed.

Lemma unlocked_gone s s' : goes s s' → lock_gone (now s') (tup s) → unlocked s s'.
Proof.
  intros Hg. pose proof (go_now _ _ Hg). unfold lock_gone, unlocked. destruct (has _ _); [|by right].
  intros [?|?]; [by left|right]. by auto.
Qed.

(** It was found free, and the hint says so from then on. *)
Lemma free_hint_spec cid s s1 :
  okay s1 → goes s s1 → there s ∨ present cid s s → (∀ x, updater (tup s) = Some x → failed (now s1) x) →
  lock_gone (now s1) (tup s) →
  wp (bind (SetHintBits HEAP_XMAX_INVALID InvalidTransactionId) (λ _, ret HeapTupleMayBeUpdated)) (updates cid s) s1.
Proof.
  intros Hok Hg Hp Hx Hl. apply (wp_hint good trouble cmin cmax); [done| |].
  - do 3 right. split_and!; [done|by rewrite (same_row_updater _ _ (go_row _ _ Hg))|].
    intros _. by apply (same_row_lock_gone _ (tup s)); [apply Hg|].
  - intros s2 Hok2 Hg2 _. apply proc_ret, updates_ret; [done|by etrans|]. split_and!.
    + assert (goes s s2) by by etrans. destruct Hp as [Ht|[Ht|Hp]]; [left; by apply (there_goes s)..|by right].
    + intros x Hu. apply (failed_later (now s1)); [apply Hg2|auto].
    + apply (unlocked_later s s1); [done|done|by apply unlocked_gone].
Qed.

(** A row that the own transaction updated. *)
Lemma self_updated_spec cid s s1 x :
  okay s1 → goes s s1 → present cid s s1 → updater (tup s) = Some x → me x = true →
  wp (self_updated cid) (updates cid s) s1.
Proof.
  intros Hok Hg Hp Hx Hcur. unfold self_updated. apply proc_bind, wp_tuple. cbn [next]. apply proc_bind.
  apply (wp_cmax good trouble cmin cmax x); [done|by rewrite (same_row_updater _ _ (go_row _ _ Hg))|done|..].
  - intros s2 Hok2 Hg2 _. cbn [next]. apply proc_ret, updates_ret; [done|by etrans|].
    destruct (Z.leb_spec cid cmax); simpl; [|by eauto 10]. split; [|by eauto].
    destruct Hp as [Ht|Hp]; [left; by apply (there_goes s1)|by right].
  - intros s2 Hok2 Hg2 Ht. split_and!; [done|by etrans|by right].
Qed.

(** ** A row of the own transaction *)

(** Whether other sessions are among the members of the lock. *)
Lemma remote_members_spec cid s s1 :
  okay s1 → goes s s1 → has (t_infomask (tup s)) HEAP_XMAX_IS_MULTI = true → (∀ s', present cid s s') →
  (∀ x, updater (tup s) = Some x → failed (now s1) x) → lock_ok (now s) (tup s) →
  wp (remote <- MultiXactHasRunningRemoteMembers (t_xmax (tup s));;
      ret (if (remote : bool) then HeapTupleBeingUpdated else HeapTupleMayBeUpdated)) (updates cid s) s1.
Proof.
  intros Hok1 Hg1 Emulti Hp Hfail [Ha _]. rewrite Emulti in Ha. pose proof (go_now _ _ Hg1) as Hn1. apply proc_bind.
  assert (Ha1 : ∀ m, m ∈ GetMultiXactIdMembers (t_xmax (tup s)) → assigned (now s1) (m_xid m))
    by (intros m Hin; by apply (assigned_stays (now s)); [auto|]).
  eapply proc_mono; [by apply (any_remote_spec good trouble cmin cmax)|]. intros o s2 (Hok2 & Hg2 & b & -> & Hb). cbn [next].
  apply proc_ret, updates_ret; [done|by etrans|]. destruct b; simpl.
  - destruct Hb as (m & Hin & _ & Hm). split; [done|]. right. rewrite Emulti. exists m. split; [done|].
    apply (was_running_earlier (now s1)); [done|]. by apply member_was_running; [apply Ha1|].
  - split_and!; [done|intros x Hx; apply (failed_later (now s1)); [apply Hg2|by apply Hfail]|].
    unfold unlocked. rewrite Emulti. right. intros m Hin. destruct (Hb m Hin) as [?|Ho]; [by left|right].
    by apply (member_ended s1); [apply Ha1|].
Qed.

Lemma own_row_update_spec cid s :
  okay s → HeapTupleHeaderXminFrozen (tup s) = false → me (t_xmin (tup s)) = true → wp (own_row_update cid) (updates cid s) s.
Proof.
  intros Hok Hf Hown. unfold own_row_update. apply proc_bind, wp_tuple. cbn [next]. apply proc_bind.
  pose proof (ok_row _ _ _ _ _ Hok) as Hrow. pose proof (rk_lock _ _ Hrow locks) as Hlock.
  apply (wp_cmin good trouble cmin cmax); [done|done|done| |].
  2:{ intros s1 Hok1 Hg1 Ht. split_and!; [done|done|by right]. }
  intros s1 Hok1 Hg1 Ht1. cbn [next]. destruct (Z.leb_spec cid cmin) as [Hlate|Hearly].
  { apply proc_ret, updates_ret; [done|done|]. simpl. by auto. }
  assert (Hp : ∀ s', present cid s s') by (intros s'; right; by split_and!; [..|lia]).
  assert (Hfail : ∀ x, updater (tup s) = Some x → me x = false → failed (now s1) x).
  { intros x Hx Hcur. apply (failed_later (now s)); [apply Hg1|]. destruct (rk_own _ _ Hrow Hf Hown x Hx); [congruence|done]. }
  unfold HeapTupleGetUpdateXid, HeapTupleHeaderGetRawXmax.
  destruct (has (t_infomask (tup s)) HEAP_XMAX_INVALID) eqn:Einv.
  { apply proc_ret, updates_ret; [done|done|]. split_and!; [done| |].
    - intros x Hx. apply (failed_later (now s)); [apply Hg1|]. by apply (rk_xmax_invalid _ _ Hrow Einv).
    - apply unlocked_gone; [done|]. apply (lock_gone_later (now s)); [apply Hg1|]. apply Hlock. unfold xmax_hinted. by rewrite Einv. }
  destruct (HEAP_XMAX_IS_LOCKED_ONLY (t_infomask (tup s))) eqn:Elock.
  { assert (Hnone : ∀ n x, updater (tup s) = Some x → failed n x) by (intros n x; unfold updater; by rewrite Elock).
    destruct (has (t_infomask (tup s)) HEAP_XMAX_IS_MULTI) eqn:Emulti.
    - destruct (HEAP_LOCKED_UPGRADED (t_infomask (tup s))) eqn:Eup.
      { apply proc_ret, updates_ret; [done|done|]. split_and!; [done|by auto|]. unfold unlocked. rewrite Emulti. by left. }
      apply remote_members_spec; [done..|by apply Hnone|done].
    - apply proc_bind, wp_question. cbn [next]. pose proof (go_now _ _ Hg1) as Hn1.
      assert (Hg2 : goes s (tick s1)) by (etrans; [done|apply tick_goes]).
      assert (Ha : assigned (now s1) (t_xmax (tup s))) by (apply (assigned_stays (now s)); [by apply lock_assigned|done]).
      destruct (IsInProgress (moments (now s1)) (t_xmax (tup s))) eqn:Er; cbn [negb].
      + destruct (me (t_xmax (tup s))) eqn:Hcur; cbn [negb]; apply proc_ret, updates_ret; try done; try by apply tick_ok.
        * split_and!; [done|by auto|]. unfold unlocked. rewrite Emulti. by left.
        * split; [done|]. right. rewrite Emulti. split; [done|]. by exists (now s1).
      + apply proc_ret, updates_ret; [by apply tick_ok|done|]. split_and!; [done|by auto|]. unfold unlocked. rewrite Emulti.
        right. apply (ended_later (now s1)); [simpl; lia|by split]. }
  destruct (has (t_infomask (tup s)) HEAP_XMAX_IS_MULTI) eqn:Emulti.
  - assert (Hx : updater (tup s) = Some (MultiXactIdGetUpdateXid (t_xmax (tup s)))) by (unfold updater; by rewrite Elock, Emulti).
    unfold HeapTupleHeaderGetRawXmax. destruct (me (MultiXactIdGetUpdateXid (t_xmax (tup s)))) eqn:Hcur; cbn [negb].
    { by apply (self_updated_spec cid s s1 _ Hok1 Hg1 (Hp s1) Hx). }
    apply remote_members_spec; [done..| |done]. intros x Hx'. apply Hfail; congruence.
  - assert (Hx : updater (tup s) = Some (t_xmax (tup s))) by (unfold updater; by rewrite Elock, Emulti).
    destruct (me (t_xmax (tup s))) eqn:Hcur; cbn [negb].
    { by apply (self_updated_spec cid s s1 _ Hok1 Hg1 (Hp s1) Hx). }
    apply free_hint_spec; [done|done|by right|intros x Hx'; apply Hfail; congruence|].
    apply lock_gone_single; [done|]. by apply (Hfail _ Hx).
Qed.

(** ** A row inserted for good *)

(** It says so of the row as it was before. *)
Lemma updates_from cid s s1 o s' : goes s s1 → updates cid s1 o s' → updates cid s o s'.
Proof.
  intros Hg (Hok & Hg' & Ho). pose proof (go_row _ _ Hg) as Hsr. pose proof (go_now _ _ Hg) as Hn.
  split_and!; [done|by etrans|]. destruct Ho as [(r & -> & Hr)|?]; [left; exists r; split; [done|]|by right].
  assert (Hw : ∀ x, was_running (now s1) x → was_running (now s) x) by (intros x (m & ? & ?); exists m; split; [lia|done]).
  assert (Hpres : present cid s1 s' → present cid s s').
  { unfold present. by rewrite (sr_frozen _ _ Hsr), (sr_xmin _ _ Hsr). }
  unfold update_says, unlocked, contended in *.
  rewrite (same_row_updater _ _ Hsr), (sr_xmin _ _ Hsr), (sr_xmax _ _ Hsr), (same_row_upgraded _ _ Hsr) in Hr.
  rewrite (same_row_has _ _ HEAP_XMAX_IS_MULTI Hsr) in Hr by done.
  destruct r; cbn zeta in *.
  - destruct Hr as (? & ? & Hu). by split_and!; [auto|..].
  - destruct Hr as [?|[[? ?]|[?|?]]]; auto 6.
  - destruct Hr as (? & ?). auto.
  - done.
  - destruct Hr as (? & Hc). split; [auto|]. destruct Hc as [(x & ? & ? & ?)|Hc]; [left; exists x; by auto|right].
    destruct (has _ _); [|by destruct Hc; auto]. destruct Hc as (m & ? & ?). exists m. by auto.
Qed.

(** Whether any member of the lock runs. *)
Lemma members_spec cid s s1 (K : bool → proc scan HTSU_Result) :
  K true = ret HeapTupleBeingUpdated →
  K false = bind (SetHintBits HEAP_XMAX_INVALID InvalidTransactionId) (λ _, ret HeapTupleMayBeUpdated) →
  okay s1 → goes s s1 → there s → has (t_infomask (tup s)) HEAP_XMAX_IS_MULTI = true →
  (∀ x, updater (tup s) = Some x → failed (now s1) x) → lock_ok (now s) (tup s) →
  wp (bind (MultiXactIdIsRunning (t_xmax (tup s))) K) (updates cid s) s1.
Proof.
  intros Kt Kf Hok1 Hg1 Ht Emulti Hfail [Ha _]. rewrite Emulti in Ha. pose proof (go_now _ _ Hg1) as Hn1. apply proc_bind.
  assert (Ha1 : ∀ m, m ∈ GetMultiXactIdMembers (t_xmax (tup s)) → assigned (now s1) (m_xid m))
    by (intros m Hin; by apply (assigned_stays (now s)); [auto|]).
  eapply proc_mono; [by apply (multi_running_spec good trouble cmin cmax)|]. intros o s2 (Hok2 & Hg2 & b & -> & Hb). cbn [next].
  assert (Hg : goes s s2) by by etrans. destruct b; rewrite ?Kt, ?Kf.
  - destruct Hb as (m & Hin & Hm). apply proc_ret, updates_ret; [done|done|]. split; [left; by apply (there_goes s)|].
    right. rewrite Emulti. exists m. split; [done|].
    apply (was_running_earlier (now s1)); [done|]. by apply member_was_running; [apply Ha1|].
  - apply free_hint_spec; [done|done|by left|intros x Hx; apply (failed_later (now s1)); [apply Hg2|by apply Hfail]|].
    unfold lock_gone. rewrite Emulti. right. intros m Hin. by apply (member_ended s1); [apply Ha1|apply Hb].
Qed.

Lemma multi_update_spec cid s :
  okay s → there s → has (t_infomask (tup s)) HEAP_XMAX_IS_MULTI = true →
  HEAP_XMAX_IS_LOCKED_ONLY (t_infomask (tup s)) = false →
  let x := MultiXactIdGetUpdateXid (t_xmax (tup s)) in
  wp (if me x then self_updated cid
      else
        running <- TransactionIdIsInProgress x;;
        if (running : bool) then ret HeapTupleBeingUpdated
        else
          committed <- TransactionIdDidCommit x;;
          if (committed : bool) then ret HeapTupleUpdated
          else
            lockers <- MultiXactIdIsRunning (t_xmax (tup s));;
            if negb lockers then SetHintBits HEAP_XMAX_INVALID InvalidTransactionId;; ret HeapTupleMayBeUpdated
            else ret HeapTupleBeingUpdated) (updates cid s) s.
Proof.
  intros Hok Ht Emulti Elock x. pose proof (ok_row _ _ _ _ _ Hok) as Hrow.
  assert (Hx : updater (tup s) = Some x) by (unfold updater; by rewrite Elock, Emulti).
  destruct (me x) eqn:Hcur; [apply (self_updated_spec cid s s x); [done|done|by left|done|done]|].
  apply (wp_status good trouble cmin cmax); [done|by apply (rk_updater _ _ Hrow)|..]; intros s1 Hok1 Hg1 _ Hst.
  { apply proc_ret, updates_ret; [done|done|]. split; [left; by apply (there_goes s)|]. left. by eauto. }
  destruct (fate x) eqn:Ef.
  { apply proc_ret, updates_ret; [done|done|]. split; [by apply (there_goes s)|]. exists x. split; [done|by split]. }
  assert (Hfail : ∀ y, updater (tup s) = Some y → failed (now s1) y) by (rewrite Hx; intros y [= <-]; by split).
  by apply members_spec; [..|apply (rk_lock _ _ Hrow)].
Qed.

Lemma xmax_update_spec cid s : okay s → there s → wp (xmax_update cid) (updates cid s) s.
Proof.
  intros Hok Ht. unfold xmax_update. apply proc_bind, wp_tuple. cbn [next].
  pose proof (ok_row _ _ _ _ _ Hok) as Hrow. pose proof (rk_lock _ _ Hrow locks) as Hlock.
  unfold HeapTupleGetUpdateXid, HeapTupleHeaderGetRawXmax.
  destruct (has (t_infomask (tup s)) HEAP_XMAX_INVALID) eqn:Einv.
  { apply proc_ret, updates_ret; [done|done|]. split_and!; [by left|by apply (rk_xmax_invalid _ _ Hrow)|].
    apply unlocked_gone; [done|]. apply Hlock. unfold xmax_hinted. by rewrite Einv. }
  destruct (has (t_infomask (tup s)) HEAP_XMAX_COMMITTED) eqn:Ecom.
  { apply proc_ret, updates_ret; [done|done|]. pose proof (rk_xmax_committed _ _ Hrow Ecom) as Hc.
    destruct (HEAP_XMAX_IS_LOCKED_ONLY (t_infomask (tup s))) eqn:Elock.
    - split_and!; [by left|unfold updater; by rewrite Elock|]. apply unlocked_gone; [done|]. apply Hlock.
      unfold xmax_hinted. by rewrite Ecom, orb_true_r.
    - split; [done|]. unfold updater in *. rewrite Elock in *. destruct (has _ HEAP_XMAX_IS_MULTI); eexists; (split; [done|by apply Hc]). }
  destruct (has (t_infomask (tup s)) HEAP_XMAX_IS_MULTI) eqn:Emulti.
  { destruct (HEAP_LOCKED_UPGRADED (t_infomask (tup s))) eqn:Eup.
    { apply proc_ret, updates_ret; [done|done|]. split_and!; [by left| |unfold unlocked; rewrite Emulti; by left].
      unfold updater, HEAP_XMAX_IS_LOCKED_ONLY, HEAP_LOCKED_UPGRADED in *.
      apply andb_true_iff in Eup as [[_ Elo]%andb_true_iff _]. by rewrite Elo. }
    destruct (HEAP_XMAX_IS_LOCKED_ONLY (t_infomask (tup s))) eqn:Elock; [|by apply multi_update_spec].
    apply members_spec; [done..| |done]. unfold updater. by rewrite Elock. }
  assert (Hu : ∀ x, updater (tup s) = Some x → x = t_xmax (tup s)).
  { unfold updater. rewrite Emulti. destruct (HEAP_XMAX_IS_LOCKED_ONLY _); naive_solver. }
  assert (Hx : HEAP_XMAX_IS_LOCKED_ONLY (t_infomask (tup s)) = false → updater (tup s) = Some (t_xmax (tup s)))
    by (unfold updater; by intros ->; rewrite Emulti).
  destruct (me (t_xmax (tup s))) eqn:Hcur.
  { destruct (HEAP_XMAX_IS_LOCKED_ONLY (t_infomask (tup s))) eqn:Elock;
      [|apply (self_updated_spec cid s s (t_xmax (tup s))); [done|done|by left|auto|done]].
    apply proc_ret, updates_ret; [done|done|]. split_and!; [by left|unfold updater; by rewrite Elock|].
    unfold unlocked. rewrite Emulti. by left. }
  apply (wp_status good trouble cmin cmax); [done|by apply lock_assigned|..]; intros s1 Hok1 Hg1 _ Hst.
  { apply proc_ret, updates_ret; [done|done|]. split; [left; by apply (there_goes s)|]. right. by rewrite Emulti. }
  assert (Hgone : lock_gone (now s1) (tup s)) by by apply lock_gone_single.
  destruct (fate (t_xmax (tup s))) eqn:Ef; cbn [negb].
  2:{ apply free_hint_spec; [done|done|by left| |done]. intros x ->%Hu. by split. }
  destruct (HEAP_XMAX_IS_LOCKED_ONLY (t_infomask (tup s))) eqn:Elock.
  { apply free_hint_spec; [done|done|by left|unfold updater; by rewrite Elock|done]. }
  apply (wp_hint good trouble cmin cmax); [done| |].
  - do 2 right; left. rewrite (same_row_updater _ _ (go_row _ _ Hg1)). split_and!; [done|intros x ->%Hu; by split|].
    intros _. by apply (same_row_lock_gone _ (tup s)); [apply Hg1|].
  - intros s2 Hok2 Hg2 _. assert (Hg : goes s s2) by by etrans. apply proc_ret, updates_ret; [done|done|].
    split; [by apply (there_goes s)|]. exists (t_xmax (tup s)). split; [auto|].
    split; [apply (ended_later (now s1)); [apply Hg2|done]|done].
Qed.

(** C19: What is reported to a session that wants to update or lock a row was the case while the row was
    examined.  It may be updated: it is there, nobody deleted it, and no other session holds a lock on
    it.  It was updated: by a transaction that committed.  It is being updated: another session was
    changing or locking it, or a lock that several hold had a member that ran.  It was updated by the
    session itself, by a later command; or it is not there: never inserted for good, being inserted by
    another session, inserted by a later command or deleted by an earlier one.  Hints stay true, of
    locks too, and an error is raised only if a command id cannot be read. *)
Theorem update_verdict cid s :
  okay s →
  wp (HeapTupleSatisfiesUpdate cid)
    (λ o s', okay s' ∧ goes s s' ∧ ((∃ r, o = Ret r ∧ update_says cid s s' r) ∨ o = ERROR ∧ trouble)) s.
Proof.
  intros Hok. unfold HeapTupleSatisfiesUpdate. apply (xmin_prologue_spec good trouble cmin cmax); [done|..].
  - intros s1 Hok1 Hg1 Ht1. eapply proc_mono; [by apply xmax_update_spec|]. intros o s'. by apply updates_from.
  - intros s1 Hok1 Hg1 Hn1. apply (updates_ret cid); [done|done|]. by left.
  - intros Hf Hcur. by apply own_row_update_spec.
  - intros s1 Hok1 Hg1 Hf Hcur Hrun _. apply proc_ret, (updates_ret cid); [done|done|]. right; left. by split.
Qed.
End Update.
