(* ===== verification/TqualSelf.v ===== *)
(** * Visibility of row versions: the present

    [HeapTupleSatisfiesSelf] and [HeapTupleSatisfiesDirty] look at a row as of now, the second with
    the effects of transactions that are still open, which it names in the snapshot. *)
From S2P Require Import Prelude Proc DistributedSnapshot DistributedSnapshotFacts Clog TransAm ObjectIds Htup ComboCid Tqual TqualFacts.

Section Present.
Context {env : TqualEnv} {tenv : TransamEnv} {cenv : ComboEnv} {H : History} {laws : HistoryLaws}.
Context (good : combo → Prop) (trouble : Prop) (cmin cmax : Z) (locks : track_locks).
Implicit Types (n : nat) (x : Z) (t : HeapTupleHeader) (s : scan).

Notation okay := (okay good trouble cmin cmax).
Notation me := TransactionIdIsCurrentTransactionId.

(** The row is of the own transaction. *)
Definition own s : Prop := HeapTupleHeaderXminFrozen (tup s) = false ∧ me (t_xmin (tup s)) = true.

(** Another transaction was deleting the row. *)
Definition being_deleted s x : Prop := updater (tup s) = Some x ∧ me x = false ∧ was_running (now s) x.

(** The row was deleted, by the own transaction or by one that committed. *)
Definition gone s s' : Prop := ∃ x, updater (tup s) = Some x ∧ (me x = true ∨ committed (now s') x).

Definition undeleted s s' : Prop := ∀ x, updater (tup s) = Some x → failed (now s') x.

Definition self_says s s' (b : bool) : Prop :=
  if b then (there s' ∨ own s) ∧ (undeleted s s' ∨ ∃ x, being_deleted s x)
  else never_there s' ∨ (me (t_xmin (tup s)) = false ∧ was_running (now s) (t_xmin (tup s))) ∨ gone s s'.

(** The snapshot names the open transactions that inserted or are deleting the row. *)
Definition dirty_says s s' (b : bool) : Prop :=
  let S := snap s' in
  if b then
    (snap_xmin S = t_xmin (tup s) ∧ snap_xmax S = InvalidTransactionId ∧ me (t_xmin (tup s)) = false ∧
     was_running (now s) (t_xmin (tup s))) ∨
    ((there s' ∨ own s) ∧ snap_xmin S = InvalidTransactionId ∧
     (snap_xmax S = InvalidTransactionId ∧ undeleted s s' ∨ being_deleted s (snap_xmax S)))
  else snap_xmin S = InvalidTransactionId ∧ snap_xmax S = InvalidTransactionId ∧ (never_there s' ∨ gone s s').

(** ** Steps *)

(** As a check goes on, except for the snapshot. *)
Record passes s s' : Prop := {
  pa_row : same_row (tup s) (tup s');
  pa_now : (now s ≤ now s')%nat;
  pa_cache : xact_cache s' = xact_cache s;
}.

Lemma goes_passes s s' : goes s s' → passes s s'.
Proof. by intros []. Qed.

Lemma single_updater s x :
  has (t_infomask (tup s)) HEAP_XMAX_IS_MULTI = false → updater (tup s) = Some x → x = t_xmax (tup s).
Proof. unfold updater. intros ->. destruct (HEAP_XMAX_IS_LOCKED_ONLY _); naive_solver. Qed.

(** A hint about the deleting transaction of a row with a single one. *)
Lemma single_hint s s1 hint x (K : proc scan bool) Q :
  okay s1 → goes s s1 → has (t_infomask (tup s)) HEAP_XMAX_IS_MULTI = false → ended (now s1) (t_xmax (tup s)) →
  (hint = HEAP_XMAX_COMMITTED ∧ (∀ y, updater (tup s) = Some y → fate y = true) ∨
   hint = HEAP_XMAX_INVALID ∧ (∀ y, updater (tup s) = Some y → fate y = false)) →
  (∀ s2, okay s2 → goes s s2 → ended (now s2) (t_xmax (tup s)) → wp K Q s2) →
  wp (bind (SetHintBits hint x) (λ _, K)) Q s1.
Proof.
  intros Hok Hg Hm He Hh HK. pose proof (go_row _ _ Hg) as Hsr.
  assert (Hl : track_locks → lock_gone (now s1) (tup s1)).
  { intros _. apply (same_row_lock_gone _ (tup s)); [done|by apply lock_gone_single]. }
  apply (wp_hint good trouble cmin cmax); [done| |].
  - destruct Hh as [[-> Hy]|[-> Hy]]; do 2 right; [left|right]; (split_and!; [done| |done]);
      rewrite (same_row_updater _ _ Hsr); intros y Hu; (split; [|by apply Hy]); by rewrite (single_updater s y).
  - intros s2 Hok2 Hg2 _. apply HK; [done|by etrans|]. apply (ended_later (now s1)); [apply Hg2|done].
Qed.

Lemma own_row_lives_spec s :
  okay s → own s →
  wp own_row_lives (λ o s', okay s' ∧ goes s s' ∧ ∃ b, o = Ret b ∧ if (b : bool) then undeleted s s' else gone s s') s.
Proof.
  intros Hok [Hf Hown]. pose proof (ok_row _ _ _ _ _ Hok) as Hrow. unfold own_row_lives. apply proc_bind, wp_tuple. cbn [next].
  assert (Hret : ∀ b : bool, (if b then undeleted s s else gone s s) → wp (ret b)
    (λ o s', okay s' ∧ goes s s' ∧ ∃ b, o = Ret b ∧ if (b : bool) then undeleted s s' else gone s s') s)
    by (intros b Hb; apply proc_ret; split_and!; [done|done|by exists b]).
  assert (Hfail : ∀ x, updater (tup s) = Some x → me x = false → failed (now s) x)
    by (intros x Hx Hcur; destruct (rk_own _ _ Hrow Hf Hown x Hx); [congruence|done]).
  unfold HeapTupleGetUpdateXid, HeapTupleHeaderGetRawXmax.
  destruct (has (t_infomask (tup s)) HEAP_XMAX_INVALID) eqn:Einv; [apply Hret; intros x; by apply (rk_xmax_invalid _ _ Hrow)|].
  destruct (HEAP_XMAX_IS_LOCKED_ONLY (t_infomask (tup s))) eqn:Elock; [apply Hret; intros x; unfold updater; by rewrite Elock|].
  destruct (has (t_infomask (tup s)) HEAP_XMAX_IS_MULTI) eqn:Emulti.
  - assert (Hx : updater (tup s) = Some (MultiXactIdGetUpdateXid (t_xmax (tup s)))) by (unfold updater; by rewrite Elock, Emulti).
    unfold HeapTupleHeaderGetRawXmax. apply Hret. destruct (me (MultiXactIdGetUpdateXid (t_xmax (tup s)))) eqn:Hcur; cbn [negb].
    + by eexists; eauto.
    + intros x Hx'. apply Hfail; congruence.
  - assert (Hx : updater (tup s) = Some (t_xmax (tup s))) by (unfold updater; by rewrite Elock, Emulti).
    destruct (me (t_xmax (tup s))) eqn:Hcur; cbn [negb]; [apply Hret; by eexists; eauto|].
    destruct (Hfail _ Hx Hcur) as [He Hfate].
    apply (single_hint s s); [done|done|done|done|right; split; [done|]; intros y Hy; congruence|].
    intros s2 Hok2 Hg2 He2. apply proc_ret. split_and!; [done|done|]. exists true. split; [done|].
    rewrite <-Hfate in *. intros y Hy. assert (y = t_xmax (tup s)) as -> by congruence. by split.
Qed.

(** ** A row inserted for good *)

(** The verdict; [N]: what the snapshot becomes when a running transaction is noted. *)
Definition presents (N : Z → SnapshotData → SnapshotData) s (o : outcome bool) s' : Prop :=
  okay s' ∧ passes s s' ∧ ∃ b, o = Ret b ∧
    if (b : bool) then snap s' = snap s ∧ undeleted s s' ∨ (∃ x, being_deleted s x ∧ snap s' = N x (snap s))
    else snap s' = snap s ∧ gone s s'.

Lemma presents_kept N s s' : okay s' → goes s s' → undeleted s s' → wp (ret true) (presents N s) s'.
Proof.
  intros ? Hg ?. apply proc_ret. split_and!; [done|by apply goes_passes|]. exists true. split; [done|left; split; [apply Hg|done]].
Qed.

Lemma presents_gone N s s' : okay s' → goes s s' → gone s s' → wp (ret false) (presents N s) s'.
Proof.
  intros ? Hg ?. apply proc_ret. split_and!; [done|by apply goes_passes|]. exists false. split; [done|split; [apply Hg|done]].
Qed.

Lemma presents_deleting note N s x s' :
  note x s' = (Ret tt, mkScan (tup s') (dirty s') (now s') (N x (snap s')) (xact_cache s') (combos s')) →
  okay s' → goes s s' → being_deleted s x → wp (bind (note x) (λ _, ret true)) (presents N s) s'.
Proof.
  intros Hnote Hok' Hg Hx. unfold wp, bind. rewrite Hnote. cbn [fst snd ret]. split_and!.
  - destruct Hok'. by split.
  - destruct Hg. by split.
  - exists true. split; [done|right]. exists x. split; [done|]. simpl. by rewrite (go_snap _ _ Hg).
Qed.

Lemma xmax_present_spec note (N : Z → SnapshotData → SnapshotData) s :
  (∀ x s1, note x s1 = (Ret tt, mkScan (tup s1) (dirty s1) (now s1) (N x (snap s1)) (xact_cache s1) (combos s1))) →
  okay s → there s → wp (xmax_present note) (presents N s) s.
Proof.
  intros Hnote Hok Ht. pose proof (ok_row _ _ _ _ _ Hok) as Hrow. pose proof (rk_lock _ _ Hrow locks) as Hlock.
  unfold xmax_present. apply proc_bind, wp_tuple. cbn [next]. unfold HeapTupleGetUpdateXid, HeapTupleHeaderGetRawXmax.
  pose proof (presents_kept N s) as Hkept. pose proof (presents_gone N s) as Hgone.
  pose proof (λ x s', presents_deleting note N s x s' (Hnote x s')) as Hdel.
  destruct (has (t_infomask (tup s)) HEAP_XMAX_INVALID) eqn:Einv;
    [apply Hkept; [done|done|]; intros x; by apply (rk_xmax_invalid _ _ Hrow)|].
  destruct (HEAP_XMAX_IS_LOCKED_ONLY (t_infomask (tup s))) eqn:Elock.
  - assert (Hnone : ∀ s', undeleted s s') by (intros s' x; unfold updater; by rewrite Elock).
    destruct (has _ HEAP_XMAX_COMMITTED) eqn:Ecom; [by apply Hkept|].
    destruct (has (t_infomask (tup s)) HEAP_XMAX_IS_MULTI) eqn:Emulti; [by apply Hkept|].
    destruct (me (t_xmax (tup s))); [by apply Hkept|].
    apply (wp_status good trouble cmin cmax); [done|by apply lock_assigned|..]; intros s1 Hok1 Hg1 _ Hst.
    { apply proc_bind, proc_ret. cbn [next]. by apply Hkept. }
    destruct (fate (t_xmax (tup s))); cbn [negb];
      (apply (single_hint s s1); [done|done|done|done|right; split; [done|]; unfold updater; by rewrite Elock|]);
      intros s2 ? ? ?; by apply Hkept.
  - assert (Hu : ∃ x, updater (tup s) = Some x) by (unfold updater; rewrite Elock; destruct (has _ HEAP_XMAX_IS_MULTI); by eauto).
    destruct (has _ HEAP_XMAX_COMMITTED) eqn:Ecom.
    { destruct Hu as [x Hx]. apply Hgone; [done|done|]. exists x. split; [done|right]. by apply (rk_xmax_committed _ _ Hrow). }
    destruct (has (t_infomask (tup s)) HEAP_XMAX_IS_MULTI) eqn:Emulti.
    + assert (Hx : updater (tup s) = Some (MultiXactIdGetUpdateXid (t_xmax (tup s)))) by (unfold updater; by rewrite Elock, Emulti).
      unfold HeapTupleHeaderGetRawXmax. destruct (me (MultiXactIdGetUpdateXid (t_xmax (tup s)))) eqn:Hcur;
        [apply Hgone; [done|done|]; by eexists; eauto|].
      apply (wp_status good trouble cmin cmax); [done|by apply (rk_updater _ _ Hrow)|..]; intros s1 Hok1 Hg1 _ Hst; [by apply Hdel|].
      destruct (fate (MultiXactIdGetUpdateXid (t_xmax (tup s)))) eqn:Ef; cbn [negb].
      * apply Hgone; [done|done|]. eexists; split; [done|right]. by split.
      * apply Hkept; [done|done|]. intros y Hy. rewrite Hx in Hy. injection Hy as <-. by split.
    + assert (Hx : updater (tup s) = Some (t_xmax (tup s))) by (unfold updater; by rewrite Elock, Emulti).
      destruct (me (t_xmax (tup s))) eqn:Hcur; [apply Hgone; [done|done|]; by eexists; eauto|].
      apply (wp_status good trouble cmin cmax); [done|by apply (rk_updater _ _ Hrow)|..]; intros s1 Hok1 Hg1 _ Hst; [by apply Hdel|].
      assert (Hy : ∀ b, fate (t_xmax (tup s)) = b → ∀ y, updater (tup s) = Some y → fate y = b) by (intros b ? y ?; congruence).
      destruct (fate (t_xmax (tup s))) eqn:Ef; cbn [negb].
      * apply (single_hint s s1); [done|done|done|done|left; auto|]. intros s2 ? ? ?. apply Hgone; [done|done|].
        eexists; split; [done|right]. by split.
      * apply (single_hint s s1); [done|done|done|done|right; auto|]. intros s2 ? ? ?. apply Hkept; [done|done|].
        intros y Hy'. split; [|by apply Hy]. by rewrite (single_updater s y).
Qed.

(** The verdict about a later state of the same row. *)
Lemma verdict_from s s1 s' :
  same_row (tup s) (tup s1) → (now s ≤ now s1)%nat →
  (undeleted s1 s' → undeleted s s') ∧ (gone s1 s' → gone s s') ∧ (∀ x, being_deleted s1 x → being_deleted s x).
Proof.
  intros Hsr Hn. unfold undeleted, gone, being_deleted. rewrite (same_row_updater _ _ Hsr). split_and!; [done|done|].
  intros x (? & ? & m & ? & ?). split_and!; [done|done|]. exists m. split; [lia|done].
Qed.

Lemma self_spec s :
  okay s → wp HeapTupleSatisfiesSelf (λ o s', okay s' ∧ goes s s' ∧ ∃ b, o = Ret b ∧ self_says s s' b) s.
Proof.
  intros Hok. unfold HeapTupleSatisfiesSelf. apply (xmin_prologue_spec good trouble cmin cmax); [done|..].
  - intros s1 Hok1 Hg1 Ht1. eapply proc_mono; [apply (xmax_present_spec _ (λ _ S, S)); [|done|done]|].
    { intros x s2. by destruct s2. }
    intros o s' (Hok' & [Hr' Hn' Hc'] & b & -> & Hb).
    assert (Hg' : goes s1 s') by (split; [done|done|destruct b; naive_solver|done]).
    destruct (verdict_from s s1 s' (go_row _ _ Hg1) (go_now _ _ Hg1)) as (V1 & V2 & V3).
    split_and!; [done|by etrans|]. exists b. split; [done|].
    destruct b; simpl; [|right; right; apply V2; tauto]. split; [left; by apply (there_goes s1)|].
    destruct Hb as [[_ ?]|(x & ? & _)]; [left; auto|right; exists x; auto].
  - intros s1 Hok1 Hg1 Hn1. split_and!; [done|done|]. exists false. split; [done|by left].
  - intros Hf Hcur. eapply proc_mono; [by apply own_row_lives_spec|]. intros o s' (Hok' & Hg' & b & -> & Hb).
    split_and!; [done|done|]. exists b. split; [done|]. destruct b; [split; [by right|by left]|by right; right].
  - intros s1 Hok1 Hg1 Hf Hcur Hrun _. apply proc_ret. split_and!; [done|done|]. exists false. split; [done|]. right; left. by split.
Qed.

Lemma dirty_spec s :
  okay s → wp HeapTupleSatisfiesDirty (λ o s', okay s' ∧ same_row (tup s) (tup s') ∧ ∃ b, o = Ret b ∧ dirty_says s s' b) s.
Proof.
  intros Hok. unfold HeapTupleSatisfiesDirty. apply proc_bind, wp_modify. cbn [next].
  set (s0 := with_bounds _ _ s). assert (Hok0 : okay s0) by (destruct Hok; by split).
  assert (H0 : tup s0 = tup s ∧ now s0 = now s ∧ snap_xmin (snap s0) = InvalidTransactionId ∧
    snap_xmax (snap s0) = InvalidTransactionId) by done. clearbody s0. destruct H0 as (Et & En & E1 & E2).
  apply (xmin_prologue_spec good trouble cmin cmax); [done|..].
  - intros s1 Hok1 Hg1 Ht1.
    eapply proc_mono; [apply (xmax_present_spec _ (λ x S, mkSnapshot (snap_xmin S) x (xip S) (subxip S) (suboverflowed S)
      (takenDuringRecovery S) (haveDistribSnapshot S) (curcid S) (distribSnapshotWithLocalMapping S))); [done|done|done]|].
    intros o s' (Hok' & [Hr' Hn' Hc'] & b & -> & Hb). pose proof (go_row _ _ Hg1) as Hsr. rewrite Et in Hsr.
    pose proof (go_now _ _ Hg1) as Hn1. rewrite En in Hn1.
    destruct (verdict_from s s1 s' Hsr Hn1) as (V1 & V2 & V3). rewrite (go_snap _ _ Hg1) in Hb.
    split_and!; [done|by etrans|]. exists b. split; [done|]. unfold dirty_says.
    assert (Ht' : there s').
    { destruct Ht1 as [T1 T2]. unfold there. rewrite (same_row_inserted _ _ Hr'), (sr_frozen _ _ Hr'), (sr_xmin _ _ Hr').
      split; [done|]. intros Hf. apply (committed_later (now s1)); auto. }
    destruct b.
    + right. destruct Hb as [[-> Hu]|(x & Hx & ->)]; simpl; split_and!; auto.
    + destruct Hb as [-> Hg]. auto.
  - intros s1 Hok1 Hg1 Hn1. pose proof (go_row _ _ Hg1) as Hsr. rewrite Et in Hsr. split_and!; [done|done|].
    exists false. split; [done|]. simpl. rewrite (go_snap _ _ Hg1). auto.
  - rewrite Et. intros Hf Hcur. eapply proc_mono; [apply own_row_lives_spec; [done|unfold own; by rewrite Et]|].
    intros o s' (Hok' & Hg' & b & -> & Hb). pose proof (go_row _ _ Hg') as Hsr. rewrite Et in Hsr.
    split_and!; [done|done|]. exists b. split; [done|]. unfold dirty_says, undeleted, gone in *. rewrite Et in Hb.
    rewrite (go_snap _ _ Hg'). destruct b; [|by auto]. right. split_and!; [by right|done|by left].
  - rewrite Et, En. intros s1 Hok1 Hg1 Hf Hcur Hrun _. pose proof (go_row _ _ Hg1) as Hsr. rewrite Et in Hsr.
    apply proc_bind, wp_tuple. cbn [next]. apply proc_bind, wp_modify. cbn [next]. apply proc_ret.
    split_and!; [destruct Hok1; by split|done|]. exists true. split; [done|]. left. simpl.
    unfold HeapTupleHeaderGetRawXmin. rewrite (sr_xmin _ _ Hsr), (go_snap _ _ Hg1). auto.
Qed.

(** The two checks of the present report what was the case while they ran.  With [SnapshotSelf] a row
    is seen if it was inserted for good, or by the own transaction, and was not deleted or is only being
    deleted by another one; it is not seen if it never was there, is being inserted by another
    transaction, or was deleted by the own one or one that committed.  With a dirty snapshot a row that
    another transaction is inserting or deleting is seen, and the snapshot names that transaction and
    no other; if it names none, no open transaction of another session is involved.  Hints stay true. *)
Lemma present_verdicts s :
  okay s →
  wp HeapTupleSatisfiesSelf (λ o s', okay s' ∧ goes s s' ∧ ∃ b, o = Ret b ∧ self_says s s' b) s ∧
  wp HeapTupleSatisfiesDirty (λ o s', okay s' ∧ same_row (tup s) (tup s') ∧ ∃ b, o = Ret b ∧ dirty_says s s' b) s.
Proof. intros Hok. split; [by apply self_spec|by apply dirty_spec]. Qed.
End Present.
