(* ===== verification/TqualSample.v ===== *)
(** * Visibility of row versions: a history

    A small history that keeps the laws: transaction 10 committed long ago, 12 was rolled back, 11 is
    running and commits at moment 8, 13 runs on, and 20 is the own one.  The laws of [HistoryLaws] hold of it, and
    each theorem is applied to a row in it. *)
From S2P Require Import Prelude Proc Slru DistributedSnapshot DistributedSnapshotFacts Clog TransAm ObjectIds UpdateResult Htup Dtm ComboCid Tqual TqualFacts TqualMvcc TqualVacuum TqualUpdate TqualSelf.

Module TqualSample.
Definition log (n : nat) : DistributedLog :=
  mkLog 3 (if (8 <=? n)%nat then {[10 := mkLogEntry 7 100; 11 := mkLogEntry 7 105]} else {[10 := mkLogEntry 7 100]}).

Definition at_moment (n : nat) : moment :=
  mkMoment (λ x, (x =? 20) || (x =? 13) || ((x =? 11) && (n <? 8)%nat)) (λ x, (x =? 10) || ((x =? 11) && (8 <=? n)%nat))
    (λ _, false) (log n) (Some 30).

(** The transaction that was rolled back updated the row, another one locked it. *)
Definition members (_ : Z) : list MultiXactMember :=
  [mkMember 13 MultiXactStatusForShare; mkMember 12 MultiXactStatusNoKeyUpdate].

#[export] Instance sample_env : TqualEnv :=
  mkTqualEnv at_moment (Z.eqb 20) members (λ x, x) 4 false true false 20000 2200.
#[export] Instance sample_transam : TransamEnv := mkTransamEnv 1024 1024 (λ _, IoDone) (λ _, IoDone) false false (λ _, None).
#[export] Instance sample_combo : ComboEnv :=
  mkComboEnv GP_ROLE_EXECUTE true 5 None (λ _, true) (λ _, mkEntry (mkKey 0 0 0) 0).

Definition ds0 : DistributedSnapshot := mkDS 7 95 1 105 110 1 1 (Some [105]).
Definition mapping0 : DistributedSnapshotWithLocalMapping := mkDslm ds0 0 0 0 2 [0; 0].
Definition S0 : SnapshotData := mkSnapshot 11 21 [11; 13] [] false false true 5 mapping0.

Definition sample_fate (x : Z) : bool := (x =? 10) || (x =? 11).
Definition sample_gxid (x : Z) : option (Z * Z) := if x =? 10 then Some (7, 100) else if x =? 11 then Some (7, 105) else None.

(** The snapshots of the session and of all sessions. *)
Definition snapshots (S : SnapshotData) : Prop := ∃ m, ds m = ds0 ∧ S = with_mapping m S0.

Definition sample (locks : Prop) : History :=
  mkHistory sample_fate (λ _ _, True) sample_gxid (λ _ _, false) 7 90 (λ cur, cur = Z.eqb 20) snapshots snapshots locks.

(** Which transactions have ended, and how. *)
Lemma running_cases n x : IsInProgress (at_moment n) x = true → x = 20 ∨ x = 13 ∨ x = 11 ∧ (n < 8)%nat.
Proof.
  simpl. destruct (Z.eqb_spec x 20); [by left|]. destruct (Z.eqb_spec x 13); [by right; left|]. destruct (Z.eqb_spec x 11) as [->|]; [|done].
  destruct (Nat.ltb_spec n 8); [by right; right|done].
Qed.

Lemma ended_cases n x : IsInProgress (at_moment n) x = false → x ≠ 20 ∧ x ≠ 13 ∧ (x = 11 → (8 ≤ n)%nat).
Proof.
  simpl. destruct (Z.eqb_spec x 20); [done|]. destruct (Z.eqb_spec x 13); [done|].
  destruct (Z.eqb_spec x 11) as [->|]; [|by intros _; split_and!; [..|intros ->]].
  by destruct (Nat.ltb_spec n 8).
Qed.

Lemma fate_cases x : sample_fate x = true → x = 10 ∨ x = 11.
Proof. unfold sample_fate. destruct (Z.eqb_spec x 10); [by left|]. destruct (Z.eqb_spec x 11); [by right|done]. Qed.

(** What the snapshots see. *)
Lemma sample_local S x : snapshots S → XidInMVCCSnapshot_Local x S = XidInMVCCSnapshot_Local x S0.
Proof. by intros (m & _ & ->). Qed.

Lemma sample_dsnap S : snapshots S → dsnap S = ds0.
Proof. by intros (m & Hm & ->). Qed.

Lemma sample_in_snapshot locks S x :
  snapshots S → @in_snapshot sample_env (sample locks) S x = @in_snapshot sample_env (sample locks) S0 x.
Proof. intros (m & Hm & ->). apply (@same_view_in_snapshot sample_env (sample locks)). by exists m. Qed.

#[export] Instance sample_laws locks : @HistoryLaws sample_env (sample locks).
Proof.
  split; try done.
  - intros n m x _ (H1 & H3 & H2)%ended_cases Hm. cbn [IsInProgress moments sample_env at_moment].
    rewrite (proj2 (Z.eqb_neq x 20)), (proj2 (Z.eqb_neq x 13)) by done. destruct (Z.eqb_spec x 11) as [->|]; [|done]. specialize (H2 eq_refl).
    by rewrite (proj2 (Nat.ltb_ge m 8)) by lia.
  - intros n m x _ (H1 & _ & H2)%ended_cases Hm. cbn [DidCommit moments sample_env at_moment fate sample]. unfold sample_fate.
    destruct (Z.eqb_spec x 11) as [->|]; [|done]. specialize (H2 eq_refl). by rewrite (proj2 (Nat.leb_le 8 m)) by lia.
  - intros cur n x -> Hx%Z.eqb_eq. subst x. done.
  - intros n x [[_ Hend] Hf] _. apply ended_cases in Hend as (_ & _ & Hend). apply fate_cases in Hf as [-> | ->].
    + simpl. unfold log. destruct (8 <=? n)%nat; by vm_compute.
    + simpl. unfold log. rewrite (proj2 (Nat.leb_le 8 n)) by by apply Hend. by vm_compute.
  - intros S HS. by rewrite (sample_dsnap S HS).
  - intros S HS. by rewrite (sample_dsnap S HS).
  - intros S S' HS HS'. by rewrite (sample_dsnap S HS), (sample_dsnap S' HS').
  - intros S x d HS Hf Hg. rewrite (sample_dsnap S HS), (sample_local S x HS). simpl in Hg.
    apply fate_cases in Hf as [-> | ->]; unfold sample_gxid in Hg; simpl in Hg; injection Hg as <-; [by vm_compute|]. cbn. lia.
  - intros S m (m0 & Hm0 & ->) Hm. exists m. split; [|done]. by rewrite Hm.
  - intros S n x HS _ Hcur [-> |[-> |[-> Hn]]]%running_cases Hf; [done|done|]. rewrite (sample_in_snapshot locks S 11 HS). by vm_compute.
Qed.

(** Rows: deleted by 11; of a transaction that was rolled back; locked by others after a failed update. *)
Definition row : HeapTupleHeader := mkHeader 10 11 0 0 0.
Definition failed_row : HeapTupleHeader := mkHeader 12 0 0 0 0x0800.
Definition locked_row : HeapTupleHeader := mkHeader 10 50 0 0 0x1100.

Definition cache0 : LocalDistribXactCache := LocalDistribXactCache_init.
Definition combo0 : combo := mkCombo None [] 0 0 None false (mkFile [] false 0) 0.
Definition scan_at (t : HeapTupleHeader) (n : nat) : scan := mkScan t false n S0 cache0 combo0.

Definition any_combo (_ : combo) : Prop := True.
Notation sample_okay locks := (@okay sample_env sample_combo (sample locks) any_combo False 0 0) (only parsing).

Lemma row_is_ok locks n : sample_okay locks (scan_at row n).
Proof.
  split; [|done|].
  - split; try done.
  - intros c _. split; [done|]. intros x. vm_compute. by intros [= <-].
Qed.

Lemma failed_row_is_ok locks n : sample_okay locks (scan_at failed_row n).
Proof.
  split; [|done|].
  - split; try done. intros _ x. vm_compute. intros [= <-]. by repeat split.
  - intros c _. split; [done|]. intros x. vm_compute. by intros [= <-].
Qed.

Lemma snap_is_ok locks t n : @snap_ok sample_env (sample locks) (scan_at t n).
Proof.
  split; [by exists mapping0|]. split_and!.
  - split; [by repeat constructor|by vm_compute|by vm_compute|constructor|by vm_compute].
  - by apply cache_init_ok.
  - intros x dx. unfold mapping. simpl. by rewrite lookup_empty.
  - intros x dx. unfold mapping. simpl. by rewrite lookup_empty.
  - intros x Hx. by apply elem_of_nil in Hx.
Qed.

Lemma sample_horizon locks : @horizon sample_env (sample locks) 11.
Proof.
  intros S x n HS [_ Hf] Hp. apply fate_cases in Hf as [-> | ->]; [|done]. rewrite (sample_in_snapshot locks S 10 HS). by vm_compute.
Qed.
End TqualSample.
Import TqualSample.

(** The deleted row is seen while 11 runs, and at moment 10, when it has committed. *)
Lemma mvcc_visibility_witness :
  (HeapTupleSatisfiesMVCC (scan_at row 0)).1 = Ret true ∧
  wp HeapTupleSatisfiesMVCC (@answers sample_env sample_combo (sample False) any_combo False 0 0 (scan_at row 10) true) (scan_at row 10).
Proof.
  destruct (@mvcc_visibility sample_env sample_transam sample_combo (sample False) (sample_laws False) any_combo False 0 0
    (scan_at row 0) (row_is_ok False 0) (snap_is_ok False row 0)) as [H1 H2].
  split; [vm_compute; reflexivity|].
  assert (E : @visible sample_env (sample False) TransactionIdIsCurrentTransactionId S0 row 0 0 = true) by (vm_compute; reflexivity).
  specialize (H2 (scan_at row 10) (row_is_ok False 10) (snap_is_ok False row 10) (@reflexivity _ _ same_row_refl row) (same_view_refl S0)).
  cbn [snap tup scan_at] in H2. rewrite E in H2. exact H2.
Defined.

(** The row of the transaction that was rolled back may be removed. *)
Lemma vacuum_dead_unseen_witness :
  (HeapTupleSatisfiesVacuum 11 (scan_at failed_row 0)).1 = Ret HEAPTUPLE_DEAD ∧ @unseen sample_env (sample False) failed_row.
Proof.
  destruct (@vacuum_dead_unseen sample_env sample_transam sample_combo (sample False) (sample_laws False) any_combo False 0 0
    (λ f : False, f) 11 (scan_at failed_row 0) (failed_row_is_ok False 0) (sample_horizon False)) as [H1 _].
  assert (E : (HeapTupleSatisfiesVacuum 11 (scan_at failed_row 0)).1 = Ret HEAPTUPLE_DEAD) by (vm_compute; reflexivity).
  split; [exact E|]. unfold wp in H1. rewrite E in H1. destruct H1 as (_ & _ & r & Er & Hr).
  injection Er as <-. exact Hr.
Defined.

(** The row with a failed update and a running locker. *)
Lemma vacuum_forgets_lockers_witness :
  (HeapTupleSatisfiesUpdate 5 (scan_at locked_row 0)).1 = Ret HeapTupleBeingUpdated ∧
  ∃ s', HeapTupleSatisfiesVacuum 11 (scan_at locked_row 0) = (Ret HEAPTUPLE_LIVE, s') ∧
    (HeapTupleSatisfiesUpdate 5 s').1 = Ret HeapTupleMayBeUpdated.
Proof.
  apply (vacuum_forgets_lockers 11 5 (scan_at locked_row 0)); try reflexivity; [intros n; split; reflexivity|].
  exists (mkMember 13 MultiXactStatusForShare). split; [left|reflexivity].
Defined.

(** The deleted row is being updated as long as 11 runs. *)
Lemma update_verdict_witness :
  (HeapTupleSatisfiesUpdate 5 (scan_at row 0)).1 = Ret HeapTupleBeingUpdated ∧
  ∃ s', @update_says sample_env (sample True) 0 0 5 (scan_at row 0) s' HeapTupleBeingUpdated.
Proof.
  pose proof (@update_verdict sample_env sample_transam sample_combo (sample True) (sample_laws True) any_combo False 0 0 I 5
    (scan_at row 0) (row_is_ok True 0)) as H1.
  assert (E : (HeapTupleSatisfiesUpdate 5 (scan_at row 0)).1 = Ret HeapTupleBeingUpdated) by (vm_compute; reflexivity).
  split; [exact E|]. unfold wp in H1. rewrite E in H1. destruct H1 as (_ & _ & [(r & Er & Hr)|[Hx _]]); [|discriminate Hx].
  injection Er as <-. eexists. exact Hr.
Defined.

(** With a dirty snapshot the row is seen, and 11 is named. *)
Lemma present_verdicts_witness :
  (HeapTupleSatisfiesSelf (scan_at row 0)).1 = Ret true ∧ (HeapTupleSatisfiesDirty (scan_at row 0)).1 = Ret true ∧
  ∃ s', snap_xmax (snap s') = 11 ∧ @dirty_says sample_env (sample True) (scan_at row 0) s' true.
Proof.
  destruct (@present_verdicts sample_env sample_transam sample_combo (sample True) (sample_laws True) any_combo False 0 0 I
    (scan_at row 0) (row_is_ok True 0)) as [_ H2].
  assert (E : (HeapTupleSatisfiesDirty (scan_at row 0)).1 = Ret true) by (vm_compute; reflexivity).
  split; [vm_compute; reflexivity|]. split; [exact E|]. unfold wp in H2. rewrite E in H2.
  destruct H2 as (_ & _ & b & Eb & Hb). injection Eb as <-. exists (HeapTupleSatisfiesDirty (scan_at row 0)).2.
  split; [vm_compute; reflexivity|exact Hb].
Defined.
