(* ===== verification/ProcArray.v ===== *)
(** * The process array ([storage/ipc/procarray.c])

    Every process shows in shared memory which transaction it runs, with its subtransactions as far as
    there is room, which ids its snapshots look at, and its distributed transaction.  From this the
    others tell which transactions are running, take snapshots, and compute which rows nobody looks at.

    Processes that only read hold a lock that they share with each other: while they go through the
    array, transactions start, but none ends.  A routine that reads is therefore a sequence of reads,
    the [n]th of the array as it is at moment [n] ([memory]); a routine that changes the array is a
    function on it, and which of them may happen when is the matter of [ProcArrayFacts].

    The arrays of the three parts of an entry have the same index, so an entry is one record; the cache of
    subtransactions is read at once, since nobody removes from it meanwhile.
    [children] is no field of the code: the subtransactions that run, which [subtrans.c] keeps when
    there is no room for them.  The server is not in recovery. *)
From stdpp Require Import sorting.
From S2P Require Import Prelude Proc DistributedSnapshot Slru DistribLog Clog TransAm Varsup LocalDistribXact Dtm Htup ComboCid Tqual.

Record PGPROC := mkPGPROC {
  pid : Z;
  databaseId : Z;
  lxid : Z;
  recoveryConflictPending : bool;
  serializableIsoLevel : bool;
  localDistribState : LocalDistribXactState;
}.

(** [shown]: the transaction id, the cached subtransactions and the flag that there are more. *)
Record PGXACT := mkPGXACT {
  shown : pgxact;
  x_xmin : Z;
  vacuumFlags : Z;
  delayChkpt : bool;
}.

Record TMGXACT := mkTMGXACT {
  g_distribTimeStamp : Z;
  g_gxid : Z;
  xminDistributedSnapshot : Z;
  includeInCkpt : bool;
  g_sessionId : Z;
}.

Record proc_entry := mkSlot { s_proc : PGPROC; s_xact : PGXACT; s_gxact : TMGXACT; children : list Z }.

Definition xid_of (e : proc_entry) : Z := px_xid (shown (s_xact e)).
Definition cache_of (e : proc_entry) : list Z := px_subxids (shown (s_xact e)).
Definition overflow_of (e : proc_entry) : bool := px_overflowed (shown (s_xact e)).
Definition xmin_of (e : proc_entry) : Z := x_xmin (s_xact e).

(** [next_xid], [shmGIDSeq]: the counters of local and distributed ids. *)
Record procarray := mkProcArray {
  pgprocnos : list Z;
  maxProcs : Z;
  slots : Z → proc_entry;
  latestCompletedXid : Z;
  latestCompletedDxid : Z;
  next_xid : Z;
  shmGIDSeq : Z;
  replication_slot_xmin : Z;
  replication_slot_catalog_xmin : Z;
}.

Definition PROC_IN_ANALYZE : Z := 0x04.
Definition PROC_VACUUM_FOR_WRAPAROUND : Z := 0x08.
Definition PROC_IN_LOGICAL_DECODING : Z := 0x10.
Definition PROC_VACUUM_STATE_MASK : Z := Z.lor PROC_IN_ANALYZE PROC_VACUUM_FOR_WRAPAROUND.

Definition NormalTransactionIdPrecedes (id1 id2 : Z) : bool := s32 (id1 - id2) <? 0.

(** ** Changes *)

Definition set_entry (p : Z) (e : proc_entry) (a : procarray) : procarray :=
  mkProcArray (pgprocnos a) (maxProcs a) (λ q, if q =? p then e else slots a q) (latestCompletedXid a) (latestCompletedDxid a)
    (next_xid a) (shmGIDSeq a) (replication_slot_xmin a) (replication_slot_catalog_xmin a).
Definition set_procnos (l : list Z) (a : procarray) : procarray :=
  mkProcArray l (maxProcs a) (slots a) (latestCompletedXid a) (latestCompletedDxid a)
    (next_xid a) (shmGIDSeq a) (replication_slot_xmin a) (replication_slot_catalog_xmin a).
Definition set_next (x : Z) (a : procarray) : procarray :=
  mkProcArray (pgprocnos a) (maxProcs a) (slots a) (latestCompletedXid a) (latestCompletedDxid a)
    x (shmGIDSeq a) (replication_slot_xmin a) (replication_slot_catalog_xmin a).
Definition set_gid_seq (x : Z) (a : procarray) : procarray :=
  mkProcArray (pgprocnos a) (maxProcs a) (slots a) (latestCompletedXid a) (latestCompletedDxid a)
    (next_xid a) x (replication_slot_xmin a) (replication_slot_catalog_xmin a).

(** [latestCompletedXid] and [latestCompletedDxid] only advance. *)
Definition advance_completed (latestXid : Z) (a : procarray) : procarray :=
  if TransactionIdPrecedes (latestCompletedXid a) latestXid then
    mkProcArray (pgprocnos a) (maxProcs a) (slots a) latestXid (latestCompletedDxid a)
      (next_xid a) (shmGIDSeq a) (replication_slot_xmin a) (replication_slot_catalog_xmin a)
  else a.
Definition advance_completed_gxid (g : Z) (a : procarray) : procarray :=
  if negb (g =? InvalidDistributedTransactionId) && TransactionIdPrecedes (latestCompletedDxid a) g then
    mkProcArray (pgprocnos a) (maxProcs a) (slots a) (latestCompletedXid a) g
      (next_xid a) (shmGIDSeq a) (replication_slot_xmin a) (replication_slot_catalog_xmin a)
  else a.

Definition ProcArraySetReplicationSlotXmin (xmin catalog_xmin : Z) (a : procarray) : procarray :=
  mkProcArray (pgprocnos a) (maxProcs a) (slots a) (latestCompletedXid a) (latestCompletedDxid a)
    (next_xid a) (shmGIDSeq a) xmin catalog_xmin.

(** The array stays sorted. *)
Fixpoint insert_procno (p : Z) (l : list Z) : list Z :=
  match l with
  | [] => [p]
  | q :: l' => if (q =? -1) || (p <? q) then p :: q :: l' else q :: insert_procno p l'
  end.

Definition ProcArrayAdd (p : Z) : proc procarray unit :=
  a <- get;;
  if maxProcs a <=? Z.of_nat (length (pgprocnos a)) then raise FATAL
  else modify (set_procnos (insert_procno p (pgprocnos a))).

Fixpoint remove_procno (p : Z) (l : list Z) : list Z :=
  match l with
  | [] => []
  | q :: l' => if q =? p then l' else q :: remove_procno p l'
  end.

Definition ProcArrayRemove (role : GpRoleValue) (p latestXid : Z) (a : procarray) : procarray :=
  let a := if TransactionIdIsValid latestXid then advance_completed latestXid a else a in
  let a := if bool_decide (role = GP_ROLE_DISPATCH) then advance_completed_gxid (g_gxid (s_gxact (slots a p))) a else a in
  set_procnos (remove_procno p (pgprocnos a)) a.

Definition resetGxact (p : Z) (a : procarray) : procarray :=
  let e := slots a p in
  set_entry p (mkSlot (s_proc e) (s_xact e) (mkTMGXACT 0 InvalidDistributedTransactionId InvalidDistributedTransactionId false 0)
                (children e)) a.

Definition ProcArrayEndGxact (p : Z) (a : procarray) : procarray :=
  resetGxact p (advance_completed_gxid (g_gxid (s_gxact (slots a p))) a).

(** The entry of a process whose transaction is over. *)
Definition idle_proc (keep_distrib : bool) (p : PGPROC) : PGPROC :=
  mkPGPROC (pid p) (databaseId p) 0 false false
    (if keep_distrib then localDistribState p else LOCALDISTRIBXACT_STATE_NONE).
Definition idle_flags (f : Z) : Z := Z.ldiff f PROC_VACUUM_STATE_MASK.

Definition ProcArrayEndTransaction (role : GpRoleValue) (p latestXid : Z) (a : procarray) : procarray :=
  let e := slots a p in
  let a :=
    if TransactionIdIsValid latestXid then
      advance_completed latestXid
        (set_entry p (mkSlot (idle_proc true (s_proc e))
           (mkPGXACT (mkPgxact InvalidTransactionId [] false) InvalidTransactionId (idle_flags (vacuumFlags (s_xact e))) false)
           (s_gxact e) []) a)
    else
      set_entry p (mkSlot (idle_proc false (s_proc e))
        (mkPGXACT (shown (s_xact e)) InvalidTransactionId (idle_flags (vacuumFlags (s_xact e))) false)
        (s_gxact e) (children e)) a in
  if bool_decide (role = GP_ROLE_EXECUTE) then resetGxact p a else a.

Definition ProcArrayClearTransaction (p : Z) (a : procarray) : procarray :=
  let e := slots a p in
  set_entry p
    (mkSlot (mkPGPROC (pid (s_proc e)) (databaseId (s_proc e)) 0 false false LOCALDISTRIBXACT_STATE_NONE)
       (mkPGXACT (mkPgxact InvalidTransactionId [] false) InvalidTransactionId (idle_flags (vacuumFlags (s_xact e))) false)
       (s_gxact e) []) a.

(** The last entry of the cache that is [x] is replaced by the last of all. *)
Definition XidCacheRemove (x : Z) (l : list Z) : list Z :=
  match last (filter (λ i, l !! i = Some x) (seq 0 (length l))), last l with
  | Some j, Some y => take (length l - 1) (<[j := y]> l)
  | _, _ => l
  end.

Definition XidCacheRemoveRunningXids (p xid : Z) (xids : list Z) (latestXid : Z) (a : procarray) : procarray :=
  let e := slots a p in
  let cache := XidCacheRemove xid (foldl (λ l x, XidCacheRemove x l) (cache_of e) (reverse xids)) in
  advance_completed latestXid
    (set_entry p (mkSlot (s_proc e)
       (mkPGXACT (mkPgxact (xid_of e) cache (overflow_of e)) (xmin_of e) (vacuumFlags (s_xact e)) (delayChkpt (s_xact e)))
       (s_gxact e) (filter (λ x, x ≠ xid ∧ x ∉ xids) (children e))) a).

(** The last step of [GetNewTransactionId], for a transaction or a subtransaction. *)
Definition show_new_xid (p : Z) (isSubXact : bool) (a : procarray) : procarray :=
  let e := slots a p in
  let x := next_xid a in
  set_next (TransactionIdAdvance x)
    (set_entry p (mkSlot (s_proc e)
       (mkPGXACT (store_xid isSubXact x (shown (s_xact e))) (xmin_of e) (vacuumFlags (s_xact e)) (delayChkpt (s_xact e)))
       (s_gxact e) (if isSubXact then children e ++ [x] else children e)) a).

(** The first step of [currentDtxActivate]. *)
Definition assign_gxid (p : Z) (a : procarray) : procarray :=
  let e := slots a p in
  let g := u32 (shmGIDSeq a + 1) in
  set_gid_seq g
    (set_entry p (mkSlot (s_proc e) (s_xact e)
       (mkTMGXACT (g_distribTimeStamp (s_gxact e)) g (xminDistributedSnapshot (s_gxact e)) (includeInCkpt (s_gxact e))
          (g_sessionId (s_gxact e))) (children e)) a).

(** [MyPgXact->xmin = xmin]. *)
Definition show_xmin (p xmin : Z) (a : procarray) : procarray :=
  let e := slots a p in
  set_entry p (mkSlot (s_proc e) (mkPGXACT (shown (s_xact e)) xmin (vacuumFlags (s_xact e)) (delayChkpt (s_xact e)))
    (s_gxact e) (children e)) a.

(** ** Reading *)

(** [RecentXmin], and what [transam.c] and [subtrans.c] answer; [dlog_at]: the distributed log, of which
    [rounds] ids are passed at most. *)
Class ProcEnv := mkProcEnv {
  memory : nat → procarray;
  MyProc : Z;
  MyDatabaseId : Z;
  RecentXmin : Z;
  KnownCompleted : Z → bool;
  DidAbort : Z → bool;
  vacuum_defer_cleanup_age : Z;
  dlog_at : nat → dlog;
  rounds : nat;
  IsPostmasterEnvironment : bool;
  IsBinaryUpgrade : bool;
  gp_maintenance_mode : bool;
  shmDistribTimeStamp : Z;
  shmNumCommittedGxacts : Z;
  Debug_disable_distributed_snapshot : bool;
}.

Section ProcArray.
Context {denv : DlogEnv} {tenv : TqualEnv} {env : ProcEnv}.

(** A read of shared memory. *)
Definition read {A} (q : procarray → A) : proc nat A := λ n, (Ret (q (memory n)), S n).

(** A routine of the distributed log, called without the lock. *)
Definition in_dlog {A} (m : proc dlog A) : proc nat A := λ n, ((m (dlog_at n)).1, n).

(** *** Running transactions *)

(** The loop: an answer, or the ids of transactions that may have further children. *)
Fixpoint scan_running (xid : Z) (l : list Z) (xids : list Z) : proc nat (bool * list Z) :=
  match l with
  | [] => ret (false, xids)
  | p :: l =>
      if p =? MyProc then scan_running xid l xids
      else
        pxid <- read (λ a, xid_of (slots a p));;
        if negb (TransactionIdIsValid pxid) then scan_running xid l xids
        else if pxid =? xid then ret (true, xids)
        else if TransactionIdPrecedes xid pxid then scan_running xid l xids
        else
          cxids <- read (λ a, cache_of (slots a p));;
          if existsb (Z.eqb xid) cxids then ret (true, xids)
          else
            overflowed <- read (λ a, overflow_of (slots a p));;
            scan_running xid l (if (overflowed : bool) then xids ++ [pxid] else xids)
  end.

Definition TransactionIdIsInProgress (xid : Z) : proc nat bool :=
  if TransactionIdPrecedes xid RecentXmin then ret false
  else if KnownCompleted xid then ret false
  else if TransactionIdIsCurrentTransactionId xid then ret true
  else
    latest <- read latestCompletedXid;;
    if TransactionIdPrecedes latest xid then ret true
    else
      l <- read pgprocnos;;
      r <- scan_running xid l [];;
      let '(found, xids) := r in
      if (found : bool) then ret true
      else if bool_decide (xids = []) then ret false
      else if DidAbort xid then ret false
      else
        let topxid := TopmostTransaction xid in
        if topxid =? xid then ret false else ret (existsb (Z.eqb topxid) xids).

Fixpoint scan_active (xid : Z) (l : list Z) : proc nat bool :=
  match l with
  | [] => ret false
  | p :: l =>
      pxid <- read (λ a, xid_of (slots a p));;
      if negb (TransactionIdIsValid pxid) then scan_active xid l
      else
        i <- read (λ a, pid (s_proc (slots a p)));;
        if i =? 0 then scan_active xid l else if pxid =? xid then ret true else scan_active xid l
  end.

Definition TransactionIdIsActive (xid : Z) : proc nat bool :=
  if TransactionIdPrecedes xid RecentXmin then ret false
  else l <- read pgprocnos;; scan_active xid l.

(** *** The oldest id that matters *)

Definition earlier (xid result : Z) : Z :=
  if TransactionIdIsNormal xid && TransactionIdPrecedes xid result then xid else result.

Definition visit_oldest (allDbs : bool) (p result : Z) : proc nat Z :=
  flags <- read (λ a, vacuumFlags (s_xact (slots a p)));;
  if has flags PROC_IN_LOGICAL_DECODING then ret result
  else
    db <- read (λ a, databaseId (s_proc (slots a p)));;
    if allDbs || (db =? MyDatabaseId) || (db =? 0) then
      xid <- read (λ a, xid_of (slots a p));;
      let result := earlier xid result in
      xmin <- read (λ a, xmin_of (slots a p));;
      ret (earlier xmin result)
    else ret result.

Fixpoint scan_oldest (allDbs : bool) (l : list Z) (result : Z) : proc nat Z :=
  match l with
  | [] => ret result
  | p :: l => result <- visit_oldest allDbs p result;; scan_oldest allDbs l result
  end.

(** Not to be taken for one of the ids that are always visible. *)
Definition defer_cleanup (xid : Z) : Z :=
  let xid := u32 (xid - vacuum_defer_cleanup_age) in
  if TransactionIdIsNormal xid then xid else FirstNormalTransactionId.

Definition older_slot (slot_xmin result : Z) : Z :=
  if TransactionIdIsValid slot_xmin && NormalTransactionIdPrecedes slot_xmin result then slot_xmin else result.

(** [catalog]: no relation was given, or one that logical decoding reads. *)
Definition GetLocalOldestXmin (allDbs catalog : bool) : proc nat Z :=
  latest <- read latestCompletedXid;;
  l <- read pgprocnos;;
  result <- scan_oldest allDbs l (TransactionIdAdvance latest);;
  slot_xmin <- read replication_slot_xmin;;
  slot_catalog_xmin <- read replication_slot_catalog_xmin;;
  let result := older_slot slot_xmin (defer_cleanup result) in
  ret (if catalog then older_slot slot_catalog_xmin result else result).

Definition GetOldestXmin (allDbs catalog : bool) : proc nat Z :=
  result <- GetLocalOldestXmin allDbs catalog;;
  if IsPostmasterEnvironment && negb IS_QUERY_DISPATCHER && negb IsBinaryUpgrade && negb gp_maintenance_mode
  then in_dlog (DistributedLog_GetOldestXmin result) else ret result.

Fixpoint scan_oldest_active (l : list Z) (oldest : Z) : proc nat Z :=
  match l with
  | [] => ret oldest
  | p :: l => xid <- read (λ a, xid_of (slots a p));; scan_oldest_active l (earlier xid oldest)
  end.

Definition GetOldestActiveTransactionId : proc nat Z :=
  oldest <- read next_xid;;
  l <- read pgprocnos;;
  scan_oldest_active l oldest.

(** *** Distributed snapshots *)

(** The running distributed transactions, and the smallest ids. *)
Record gxids := mkGxids { g_xmin : Z; g_xmax : Z; g_all : Z; g_ids : list Z }.

Fixpoint scan_gxids (maxCount : Z) (l : list Z) (r : gxids) : proc nat gxids :=
  match l with
  | [] => ret r
  | p :: l =>
      dxid <- read (λ a, xminDistributedSnapshot (s_gxact (slots a p)));;
      let all := if negb (dxid =? InvalidDistributedTransactionId) && (dxid <? g_all r) then dxid else g_all r in
      g <- read (λ a, g_gxid (s_gxact (slots a p)));;
      if g =? InvalidDistributedTransactionId then scan_gxids maxCount l (mkGxids (g_xmin r) (g_xmax r) all (g_ids r))
      else
        let xmin := if g <? g_xmin r then g else g_xmin r in
        let xmax := if g_xmax r <? g then g else g_xmax r in
        if p =? MyProc then scan_gxids maxCount l (mkGxids xmin xmax all (g_ids r))
        else if maxCount <=? Z.of_nat (length (g_ids r)) then raise ERROR
        else scan_gxids maxCount l (mkGxids xmin xmax all (g_ids r ++ [g]))
  end.

(** The second result is the new [xminDistributedSnapshot] of the process; [snapshotId]: the value of
    the atomic counter. *)
Definition CreateDistributedSnapshot (snapshotId : Z) (d : DistributedSnapshot) : proc nat (DistributedSnapshot * Z) :=
  if negb (shmNumCommittedGxacts =? 0) then raise ERROR
  else
    latest <- read latestCompletedDxid;;
    let first := u32 (latest + 1) in
    l <- read pgprocnos;;
    r <- scan_gxids (maxCount d) l (mkGxids first first first []);;
    mine <- read (λ a, xminDistributedSnapshot (s_gxact (slots a MyProc)));;
    let all := if g_xmin r <? g_all r then g_xmin r else g_all r in
    let ids := merge_sort Z.le (g_ids r) in
    ret (mkDS shmDistribTimeStamp all snapshotId (g_xmin r) (g_xmax r) (Z.of_nat (length ids)) (maxCount d) (Some ids),
         if mine =? InvalidDistributedTransactionId then g_xmin r else mine).

(** *** Snapshots *)

Record running := mkRunning {
  r_xmin : Z;
  r_globalxmin : Z;
  r_xip : list Z;
  r_subxip : list Z;
  r_suboverflowed : bool;
}.

(** The body of the loop. *)
Definition visit_xact (xmax p : Z) (r : running) : proc nat running :=
  flags <- read (λ a, vacuumFlags (s_xact (slots a p)));;
  if has flags PROC_IN_LOGICAL_DECODING then ret r
  else
    xmin <- read (λ a, xmin_of (slots a p));;
    let globalxmin :=
      if TransactionIdIsNormal xmin && NormalTransactionIdPrecedes xmin (r_globalxmin r) then xmin else r_globalxmin r in
    xid <- read (λ a, xid_of (slots a p));;
    if negb (TransactionIdIsNormal xid) || negb (NormalTransactionIdPrecedes xid xmax)
    then ret (mkRunning (r_xmin r) globalxmin (r_xip r) (r_subxip r) (r_suboverflowed r))
    else
      let xmin := if NormalTransactionIdPrecedes xid (r_xmin r) then xid else r_xmin r in
      if p =? MyProc then ret (mkRunning xmin globalxmin (r_xip r) (r_subxip r) (r_suboverflowed r))
      else
        let xip := r_xip r ++ [xid] in
        if r_suboverflowed r then ret (mkRunning xmin globalxmin xip (r_subxip r) true)
        else
          overflowed <- read (λ a, overflow_of (slots a p));;
          if (overflowed : bool) then ret (mkRunning xmin globalxmin xip (r_subxip r) true)
          else
            subxids <- read (λ a, cache_of (slots a p));;
            ret (mkRunning xmin globalxmin xip (r_subxip r ++ subxids) false).

Fixpoint scan_xacts (xmax : Z) (l : list Z) (r : running) : proc nat running :=
  match l with
  | [] => ret r
  | p :: l => r <- visit_xact xmax p r;; scan_xacts xmax l r
  end.

(** The part of [GetSnapshotData] that goes through the array. *)
Definition collect_running (xmax : Z) : proc nat running :=
  l <- read pgprocnos;;
  scan_xacts xmax l (mkRunning xmax xmax [] [] false).

(** What the dispatcher sent, for the contexts that have it; [malloc] as in [DistributedSnapshot_Copy]. *)
Definition FillInDistributedSnapshot (malloc : Z → option (list Z)) (context : DtxContext) (sent d : DistributedSnapshot) :
    proc nat (bool * DistributedSnapshot) :=
  let without := (false, mkDS (distribTransactionTimeStamp d) (xminAllDistributedSnapshots d) (distribSnapshotId d)
                           (xmin d) (xmax d) 0 (maxCount d) (inProgressXidArray d)) in
  match context with
  | DTX_CONTEXT_LOCAL_ONLY | DTX_CONTEXT_QD_RETRY_PHASE_2 | DTX_CONTEXT_QE_FINISH_PREPARED => ret without
  | DTX_CONTEXT_QD_DISTRIBUTED_CAPABLE => raise ERROR
  | DTX_CONTEXT_QE_TWO_PHASE_EXPLICIT_WRITER | DTX_CONTEXT_QE_TWO_PHASE_IMPLICIT_WRITER
  | DTX_CONTEXT_QE_AUTO_COMMIT_IMPLICIT | DTX_CONTEXT_QE_ENTRY_DB_SINGLETON | DTX_CONTEXT_QE_READER =>
      if negb (distribSnapshotId sent =? 0) then
        match DistributedSnapshot_Copy malloc d sent with
        | Ok d' => ret (negb Debug_disable_distributed_snapshot, d')
        | Err _ => raise ERROR
        end
      else ret without
  | DTX_CONTEXT_QE_PREPARED => raise FATAL
  end.

(** What the process shows from then on as its xmin and its distributed xmin, and the variables it sets. *)
Record snapshot_globals := mkGlobals {
  shown_xmin : Z;
  shown_dxmin : option Z;
  g_RecentXmin : Z;
  g_RecentGlobalXmin : Z;
  g_RecentGlobalDataXmin : Z;
}.

(** [globalxmin] with the distributed snapshots in use, and what the dispatcher sent. *)
Definition distributed_part (malloc : Z → option (list Z)) (context : DtxContext) (sent : DistributedSnapshot)
    (have : bool) (d : DistributedSnapshot) (globalxmin : Z) : proc nat (bool * DistributedSnapshot * Z) :=
  if negb IS_QUERY_DISPATCHER then
    c <- FillInDistributedSnapshot malloc context sent d;;
    let '(have, d) := (c : bool * DistributedSnapshot) in
    globalxmin <-
      (if have then in_dlog (DistributedLog_AdvanceOldestXmin rounds globalxmin (distribTransactionTimeStamp d) (xminAllDistributedSnapshots d))
       else if negb gp_maintenance_mode then in_dlog (DistributedLog_GetOldestXmin globalxmin) else ret globalxmin);;
    ret (have, d, globalxmin)
  else ret (have, d, globalxmin).

(** [GetSnapshotData] for a process that is not a reader; [old]: the snapshot that is filled in, with its
    arrays allocated; [cid]: the current command.  The dispatcher takes the distributed part under the same
    lock. *)
Definition GetSnapshotData (malloc : Z → option (list Z)) (context : DtxContext) (sent : DistributedSnapshot) (snapshotId cid : Z)
    (old : SnapshotData) : proc nat (SnapshotData * snapshot_globals) :=
  let m := distribSnapshotWithLocalMapping old in
  latest <- read latestCompletedXid;;
  let xmax := TransactionIdAdvance latest in
  c <- (if bool_decide (context = DTX_CONTEXT_QD_DISTRIBUTED_CAPABLE)
        then r <- CreateDistributedSnapshot snapshotId (ds m);; ret (negb Debug_disable_distributed_snapshot, fst r, Some (snd r))
        else ret (haveDistribSnapshot old, ds m, None));;
  let '(have, d, dxmin) := (c : bool * DistributedSnapshot * option Z) in
  r <- collect_running xmax;;
  slot_xmin <- read replication_slot_xmin;;
  slot_catalog_xmin <- read replication_slot_catalog_xmin;;
  mine <- read (λ a, xmin_of (slots a MyProc));;
  let xmin := r_xmin r in
  let globalxmin := if TransactionIdPrecedes xmin (r_globalxmin r) then xmin else r_globalxmin r in
  c <- distributed_part malloc context sent have d globalxmin;;
  let '(have, d, globalxmin) := (c : bool * DistributedSnapshot * Z) in
  if TransactionIdFollows globalxmin xmin then raise ERROR
  else
    let data := older_slot slot_xmin (defer_cleanup globalxmin) in
    let global := if TransactionIdIsNormal slot_catalog_xmin then older_slot slot_catalog_xmin data else data in
    ret (mkSnapshot xmin xmax (r_xip r) (r_subxip r) (r_suboverflowed r) false have cid
           (mkDslm d (minCachedLocalXid m) (maxCachedLocalXid m) (currentLocalXidsCount m) (maxLocalXidsCount m)
              (inProgressMappedLocalXids m)),
         mkGlobals (if negb (TransactionIdIsValid mine) then xmin else mine) dxmin xmin global data).
End ProcArray.
