(* ===== verification/ProcArrayFacts.v ===== *)
(** * The process array: what happens to it

    A history of the array: which changes may happen when, what holds of the array at every moment, and
    what does not change while its lock is shared.  Ids are compared as long as fewer than half of all ids
    are between the oldest one of interest and the next one. *)
From S2P Require Import Prelude Proc DistributedSnapshot Slru DistribLog DistribLogRun DistribLogSpec Clog TransAm Varsup LocalDistribXact Dtm Htup ComboCid Tqual ProcArray.

(** ** The order of ids in a window *)

Section Order.
Context (w : Z) (Hw : normal w).

(** The place of an id in the window. *)
Definition ord (x : Z) : Z := ahead w x.

(** An id in the window. *)
Definition inside (x : Z) : Prop := normal x ∧ ord x < 2 ^ 31.

Lemma ord_inj x y : normal x → normal y → ord x = ord y → x = y.
Proof. unfold ord, ahead, normal, FirstNormalTransactionId. Z.to_euclidean_division_equations. lia. Qed.

Lemma diff_ord x y : ord x < 2 ^ 31 → ord y < 2 ^ 31 → s32 (x - y) = ord x - ord y.
Proof.
  unfold ord, ahead, s32. pose proof (Z.mod_pos_bound (x - w) (2 ^ 32)). pose proof (Z.mod_pos_bound (y - w) (2 ^ 32)).
  intros ? ?. case_match; Z.to_euclidean_division_equations; lia.
Qed.

Lemma precedes_ord x y : inside x → inside y → TransactionIdPrecedes x y = (ord x <? ord y).
Proof.
  intros [Hx Hx'] [Hy Hy']. unfold TransactionIdPrecedes, TransactionIdIsNormal. unfold normal in Hx, Hy.
  rewrite !(proj2 (Z.leb_le _ _)) by apply Hx || apply Hy. cbn [negb orb]. rewrite diff_ord by done.
  apply eq_true_iff_eq. rewrite !Z.ltb_lt. lia.
Qed.

Lemma normal_precedes_ord x y : ord x < 2 ^ 31 → ord y < 2 ^ 31 → NormalTransactionIdPrecedes x y = (ord x <? ord y).
Proof. intros ? ?. unfold NormalTransactionIdPrecedes. rewrite diff_ord by done. apply eq_true_iff_eq. rewrite !Z.ltb_lt. lia. Qed.

Lemma follows_or_equals_ord x y : inside x → inside y → TransactionIdFollowsOrEquals x y = (ord y <=? ord x).
Proof.
  intros [Hx Hx'] [Hy Hy']. unfold TransactionIdFollowsOrEquals, TransactionIdIsNormal. unfold normal in Hx, Hy.
  rewrite !(proj2 (Z.leb_le _ _)) by apply Hx || apply Hy. cbn [negb orb]. rewrite diff_ord by done.
  apply eq_true_iff_eq. rewrite !Z.leb_le. lia.
Qed.

Lemma follows_ord x y : inside x → inside y → TransactionIdFollows x y = (ord y <? ord x).
Proof.
  intros [Hx Hx'] [Hy Hy']. unfold TransactionIdFollows, TransactionIdIsNormal. unfold normal in Hx, Hy.
  rewrite !(proj2 (Z.leb_le _ _)) by apply Hx || apply Hy. cbn [negb orb]. rewrite diff_ord by done.
  apply eq_true_iff_eq. rewrite !Z.ltb_lt. lia.
Qed.

Lemma precedes_or_equals_ord x y : inside x → inside y → TransactionIdPrecedesOrEquals x y = (ord x <=? ord y).
Proof.
  intros [Hx Hx'] [Hy Hy']. unfold TransactionIdPrecedesOrEquals, TransactionIdIsNormal. unfold normal in Hx, Hy.
  rewrite !(proj2 (Z.leb_le _ _)) by apply Hx || apply Hy. cbn [negb orb]. rewrite diff_ord by done.
  apply eq_true_iff_eq. rewrite !Z.leb_le. lia.
Qed.

(** The next id is behind [x] and in front of all that are behind [x]. *)
Lemma advance_ord x y : inside x → inside y → ord x < ord y → inside (TransactionIdAdvance x) ∧ ord x < ord (TransactionIdAdvance x) ≤ ord y.
Proof.
  unfold inside, ord, ahead, normal, TransactionIdAdvance, FirstNormalTransactionId, u32. intros [Hx Hx'] [Hy Hy'] Hlt.
  unfold normal, FirstNormalTransactionId in Hw. case_match eqn:E; rewrite ?Z.ltb_lt, ?Z.ltb_ge in E;
    Z.to_euclidean_division_equations; lia.
Qed.

Lemma ord_next x : inside x → inside (TransactionIdAdvance x) →
  ord x < ord (TransactionIdAdvance x) ∧ ∀ y, inside y → ord y < ord (TransactionIdAdvance x) → ord y ≤ ord x.
Proof.
  unfold inside, ord, ahead, normal, TransactionIdAdvance, FirstNormalTransactionId, u32. intros [Hx Hx'] [Ha Ha'].
  unfold normal, FirstNormalTransactionId in Hw. case_match eqn:E; rewrite ?Z.ltb_lt, ?Z.ltb_ge in E.
  - split; [Z.to_euclidean_division_equations; lia|]. intros y [Hy Hy'] Hlt. Z.to_euclidean_division_equations; lia.
  - split; [Z.to_euclidean_division_equations; lia|]. intros y [Hy Hy'] Hlt. Z.to_euclidean_division_equations; lia.
Qed.
End Order.

(** ** Changes *)

(** The ids that an entry stands for. *)
Definition ids (e : proc_entry) : list Z := if xid_of e =? InvalidTransactionId then [] else xid_of e :: children e.

Lemma ids_cons e x : x ∈ ids e ↔ xid_of e ≠ InvalidTransactionId ∧ (x = xid_of e ∨ x ∈ children e).
Proof. unfold ids. destruct (Z.eqb_spec (xid_of e) InvalidTransactionId); [set_solver|]. rewrite elem_of_cons. tauto. Qed.

Lemma ids_nil e : ids e = [] ↔ xid_of e = InvalidTransactionId.
Proof. unfold ids. by destruct (Z.eqb_spec (xid_of e) InvalidTransactionId). Qed.

Lemma normal_not_invalid x : normal x → x ≠ InvalidTransactionId.
Proof. unfold normal, FirstNormalTransactionId, InvalidTransactionId. lia. Qed.

Definition runs (a : procarray) (x : Z) : Prop := ∃ p, p ∈ pgprocnos a ∧ x ∈ ids (slots a p).

Inductive event :=
  | Nothing
  | ShowsXid (p : Z) (isSubXact : bool)
  | ShowsXmin (p xmin : Z)
  | Ends (role : GpRoleValue) (p latestXid : Z)
  | EndsWithoutXid (role : GpRoleValue) (p : Z)
  | Clears (p : Z)
  | AbortsSub (p xid : Z) (xids : list Z) (latestXid : Z)
  | Fills (p : Z) (e : proc_entry)
  | Adds (p : Z)
  | Removes (role : GpRoleValue) (p latestXid : Z)
  | AssignsGxid (p : Z)
  | EndsGxid (p : Z)
  | SetsSlots (xmin catalog_xmin : Z)
  | Updates (p : Z) (proc : PGPROC) (flags : Z) (delay : bool) (gx : TMGXACT).

(** Fields of an entry that no routine of the array writes. *)
Definition update_slot (p : Z) (proc : PGPROC) (flags : Z) (delay : bool) (gx : TMGXACT) (a : procarray) : procarray :=
  let e := slots a p in set_entry p (mkSlot proc (mkPGXACT (shown (s_xact e)) (xmin_of e) flags delay) gx (children e)) a.

(** What happens, with the routines of the code; [Fills]: an entry that is not in the array is set up. *)
Definition effect (ev : event) (a : procarray) : procarray :=
  match ev with
  | Nothing => a
  | ShowsXid p sub => show_new_xid p sub a
  | ShowsXmin p xmin => show_xmin p xmin a
  | Ends role p latestXid => ProcArrayEndTransaction role p latestXid a
  | EndsWithoutXid role p => ProcArrayEndTransaction role p InvalidTransactionId a
  | Clears p => ProcArrayClearTransaction p a
  | AbortsSub p xid xids latestXid => XidCacheRemoveRunningXids p xid xids latestXid a
  | Fills p e => set_entry p e a
  | Adds p => (ProcArrayAdd p a).2
  | Removes role p latestXid => ProcArrayRemove role p latestXid a
  | AssignsGxid p => assign_gxid p a
  | EndsGxid p => ProcArrayEndGxact p a
  | SetsSlots x y => ProcArraySetReplicationSlotXmin x y a
  | Updates p proc flags delay gx => update_slot p proc flags delay gx a
  end.

(** What needs the lock for itself. *)
Definition exclusive (ev : event) : bool :=
  match ev with
  | Ends _ _ _ | AbortsSub _ _ _ _ | Adds _ | Removes _ _ _ | EndsGxid _ | SetsSlots _ _ => true
  | _ => false
  end.

Lemma idle_flags_decoding f : has (idle_flags f) PROC_IN_LOGICAL_DECODING = has f PROC_IN_LOGICAL_DECODING.
Proof.
  unfold has, idle_flags. do 2 f_equal. apply Z.bits_inj'. intros i Hi. rewrite !Z.land_spec, Z.ldiff_spec.
  destruct (Z.eq_dec i 4) as [->|]; [by rewrite andb_true_r|]. replace (Z.testbit PROC_IN_LOGICAL_DECODING i) with false; [by rewrite !andb_false_r|].
  change PROC_IN_LOGICAL_DECODING with (2 ^ 4). by rewrite Z.pow2_bits_false.
Qed.

(** ** The cache of subtransactions *)

Lemma cache_remove_perm x l : x ∈ l → l ≡ₚ x :: XidCacheRemove x l.
Proof.
  intros Hx. unfold XidCacheRemove. destruct (last (filter _ _)) as [j|] eqn:Ej.
  2:{ apply last_None in Ej. apply list_elem_of_lookup_1 in Hx as [i Hi]. exfalso.
      assert (Hin : i ∈ filter (λ i, l !! i = Some x) (seq 0 (length l))).
      { apply list_elem_of_filter. split; [done|]. apply elem_of_seq. apply lookup_lt_Some in Hi. lia. }
      rewrite Ej in Hin. by apply elem_of_nil in Hin. }
  apply last_Some_elem_of, list_elem_of_filter in Ej as [Hj _].
  apply list_elem_of_split_length in Hj as (l1 & l2 & -> & ->). 
  destruct l2 as [|y l2' _] using rev_ind.
  - rewrite last_snoc, insert_app_r_alt, Nat.sub_diag by lia. cbn [insert list_insert].
    rewrite length_app, Nat.add_sub, take_app_length. by rewrite Permutation_app_comm.
  - assert (E : <[length l1 := y]> (l1 ++ x :: l2' ++ [y]) = (l1 ++ y :: l2') ++ [y])
      by (rewrite insert_app_r_alt, Nat.sub_diag by lia; by rewrite <-app_assoc).
    assert (Hl : last (l1 ++ x :: l2' ++ [y]) = Some y) by (by rewrite app_comm_cons, app_assoc, last_snoc).
    assert (Hn : (length (l1 ++ x :: l2' ++ [y]) - 1 = length (l1 ++ y :: l2'))%nat).
    { rewrite !length_app. simpl. rewrite length_app. simpl. lia. }
    rewrite Hl, E, Hn, take_app_length, <-Permutation_middle, <-Permutation_cons_append. by rewrite <-Permutation_middle.
Qed.

Lemma cache_remove_absent x l : x ∉ l → XidCacheRemove x l = l.
Proof.
  intros Hx. unfold XidCacheRemove. destruct (last (filter _ _)) as [j|] eqn:Ej; [|done].
  apply last_Some_elem_of, list_elem_of_filter in Ej as [Hj _]. by apply list_elem_of_lookup_2 in Hj.
Qed.

Lemma cache_remove_spec x l : NoDup l → NoDup (XidCacheRemove x l) ∧ ∀ y, y ∈ XidCacheRemove x l ↔ y ∈ l ∧ y ≠ x.
Proof.
  intros Hl. destruct (decide (x ∈ l)) as [Hx|Hx].
  - pose proof (cache_remove_perm x l Hx) as Hp. rewrite Hp in Hl. apply NoDup_cons in Hl as [Hn Hl]. split; [done|].
    intros y. rewrite Hp at 2. rewrite elem_of_cons. naive_solver.
  - rewrite cache_remove_absent by done. split; [done|]. naive_solver.
Qed.

Lemma cache_removes_spec xs l :
  NoDup l → NoDup (foldl (λ l x, XidCacheRemove x l) l xs) ∧
  ∀ y, y ∈ foldl (λ l x, XidCacheRemove x l) l xs ↔ y ∈ l ∧ y ∉ xs.
Proof.
  induction xs as [|x xs IH] in l |- *; intros Hl; cbn [foldl]; [split; [done|set_solver]|].
  destruct (cache_remove_spec x l Hl) as [Hl' Hy]. destruct (IH _ Hl') as [? Hys]. split; [done|].
  intros y. rewrite Hys, Hy. set_solver.
Qed.

Section History.
Context {tenv : TqualEnv} (w : Z) (Hw : normal w).
Implicit Types (a : procarray) (e : proc_entry) (p x : Z).

Notation ord := (ord w).
Notation inside := (inside w).

Definition assigned a x : Prop := inside x ∧ ord x < ord (next_xid a).
Definition ended a x : Prop := assigned a x ∧ ¬ runs a x.

(** A lower bound of the ids that run or will run. *)
Definition bound a (v : Z) : Prop :=
  inside v ∧ ord v ≤ ord (TransactionIdAdvance (latestCompletedXid a)) ∧ ∀ x, runs a x → ord v ≤ ord x.

(** The oldest id that runs, or the next one to look at if none does: what a snapshot has as its xmin. *)
Definition oldest a (v : Z) : Prop := bound a v ∧ (v = TransactionIdAdvance (latestCompletedXid a) ∨ runs a v).

Definition decodes e : bool := has (vacuumFlags (s_xact e)) PROC_IN_LOGICAL_DECODING.
Definition dummy e : Prop := pid (s_proc e) = 0.

(** What holds of an entry in the array. *)
Record slot_ok a e : Prop := {
  so_ids : ∀ x, x ∈ ids e → assigned a x;
  so_idle : xid_of e = InvalidTransactionId → cache_of e = [] ∧ children e = [] ∧ overflow_of e = false;
  so_top : xid_of e ≠ InvalidTransactionId → TopmostTransaction (xid_of e) = xid_of e;
  so_children : ∀ x, x ∈ children e → ord (xid_of e) < ord x ∧ TopmostTransaction x = xid_of e;
  so_cache : ∀ x, x ∈ cache_of e → x ∈ children e;
  so_full : overflow_of e = false → ∀ x, x ∈ children e → x ∈ cache_of e;
  so_nodup : NoDup (cache_of e);
  so_decoding : decodes e = true → xid_of e = InvalidTransactionId;
  so_xmin : xmin_of e = InvalidTransactionId ∨ bound a (xmin_of e);
}.

(** The ids are the last ones of a transaction that ends. *)
Definition latest_of a (xs : list Z) (latestXid : Z) : Prop := assigned a latestXid ∧ ∀ x, x ∈ xs → ord x ≤ ord latestXid.

(** When it may happen.  Entries with process id 0 stand for prepared transactions; they do nothing
    themselves.  A process shows its xmin while it shares the lock, so what it shows is still the oldest. *)
Definition allowed (ev : event) a : Prop :=
  match ev with
  | Nothing | AssignsGxid _ | EndsGxid _ => True
  | ShowsXid p false =>
      p ∈ pgprocnos a ∧ ¬ dummy (slots a p) ∧ ids (slots a p) = [] ∧
      decodes (slots a p) = false ∧ TopmostTransaction (next_xid a) = next_xid a
  | ShowsXid p true =>
      p ∈ pgprocnos a ∧ ¬ dummy (slots a p) ∧ ids (slots a p) ≠ [] ∧
      TopmostTransaction (next_xid a) = xid_of (slots a p)
  | ShowsXmin p v => p ∈ pgprocnos a ∧ ¬ dummy (slots a p) ∧ (v = InvalidTransactionId ∨ oldest a v)
  | Ends _ p latestXid => p ∈ pgprocnos a ∧ latest_of a (ids (slots a p)) latestXid
  | EndsWithoutXid _ p => p ∈ pgprocnos a ∧ ¬ dummy (slots a p) ∧ ids (slots a p) = []
  | Clears p =>
      p ∈ pgprocnos a ∧ ¬ dummy (slots a p) ∧
      ∃ q, q ∈ pgprocnos a ∧ dummy (slots a q) ∧ ids (slots a q) = ids (slots a p)
  | AbortsSub p xid xids latestXid =>
      p ∈ pgprocnos a ∧ xid_of (slots a p) ∉ xid :: xids ∧ latest_of a (xid :: xids) latestXid
  | Fills p _ => p ∉ pgprocnos a
  | Adds p => p ∉ pgprocnos a ∧ slot_ok a (slots a p) ∧ xmin_of (slots a p) = InvalidTransactionId ∧ (∀ x, x ∈ ids (slots a p) → runs a x)
  | Removes _ p latestXid =>
      p ∈ pgprocnos a ∧
      (if TransactionIdIsValid latestXid then latest_of a (ids (slots a p)) latestXid else ids (slots a p) = [])
  | SetsSlots x y => (x = InvalidTransactionId ∨ inside x) ∧ (y = InvalidTransactionId ∨ inside y)
  | Updates p proc flags _ _ =>
      p ∈ pgprocnos a ∧ ¬ dummy (slots a p) ∧ pid proc = pid (s_proc (slots a p)) ∧
      (has flags PROC_IN_LOGICAL_DECODING = decodes (slots a p) ∨
       ids (slots a p) = [] ∧ xmin_of (slots a p) = InvalidTransactionId)
  end.

Record array_good a : Prop := {
  ag_nodup : NoDup (pgprocnos a);
  ag_slots : ∀ p, p ∈ pgprocnos a → slot_ok a (slots a p);
  ag_next : inside (next_xid a);
  ag_latest : assigned a (latestCompletedXid a);
  ag_ended : ∀ x, ended a x → ord x ≤ ord (latestCompletedXid a);
  ag_rep : replication_slot_xmin a = InvalidTransactionId ∨ inside (replication_slot_xmin a);
  ag_rep_catalog : replication_slot_catalog_xmin a = InvalidTransactionId ∨ inside (replication_slot_catalog_xmin a);
}.

(** ** The invariant *)

(** What every change does to the ids. *)
Record evolves a a' : Prop := {
  ev_next : inside (next_xid a') ∧ ord (next_xid a) ≤ ord (next_xid a');
  ev_latest : assigned a' (latestCompletedXid a') ∧ ord (latestCompletedXid a) ≤ ord (latestCompletedXid a');
  ev_runs : ∀ x, runs a' x → runs a x ∨ x = next_xid a;
  ev_ended : ∀ x, ended a' x → ended a x ∨ ord x ≤ ord (latestCompletedXid a');
}.

Lemma assigned_evolves a a' x : evolves a a' → assigned a x → assigned a' x.
Proof. intros [[? ?] _ _ _] [? ?]. split; [done|lia]. Qed.

Lemma advance_latest a : array_good a →
  inside (TransactionIdAdvance (latestCompletedXid a)) ∧
  ord (latestCompletedXid a) < ord (TransactionIdAdvance (latestCompletedXid a)) ≤ ord (next_xid a).
Proof. intros Hg. destruct (ag_latest _ Hg) as [? ?]. apply advance_ord; [done|done|apply Hg|done]. Qed.

Lemma bound_evolves a a' v : array_good a → evolves a a' → bound a v → bound a' v.
Proof.
  intros Hg [[Hn ?] [[Hl Hl'] Hll] Hr _] (Hv & Hle & Hb). pose proof (advance_latest a Hg) as [Ha ?].
  split_and!; [done| |].
  - destruct (Z.eq_dec (ord (latestCompletedXid a)) (ord (latestCompletedXid a'))) as [E|].
    + apply ord_inj in E; [by rewrite <-E|apply (ag_latest _ Hg)|apply Hl].
    + destruct (advance_ord w Hw (latestCompletedXid a) (latestCompletedXid a')) as [_ ?];
        [apply (ag_latest _ Hg)|done|lia|].
      destruct (advance_ord w Hw (latestCompletedXid a') (next_xid a')) as [_ ?]; [done|done|done|]. lia.
  - intros x [?| ->]%Hr; [by apply Hb|]. lia.
Qed.

Lemma slot_ok_evolves a a' e : array_good a → evolves a a' → slot_ok a e → slot_ok a' e.
Proof.
  intros Hg He []. split; try done.
  - intros x Hx. apply (assigned_evolves a); auto.
  - destruct so_xmin0; [by left|right; by apply (bound_evolves a)].
Qed.

Lemma good_evolves a a' :
  array_good a → evolves a a' → NoDup (pgprocnos a') →
  (∀ p, p ∈ pgprocnos a' → p ∈ pgprocnos a ∧ slots a' p = slots a p ∨ slot_ok a' (slots a' p)) →
  (replication_slot_xmin a' = InvalidTransactionId ∨ inside (replication_slot_xmin a')) →
  (replication_slot_catalog_xmin a' = InvalidTransactionId ∨ inside (replication_slot_catalog_xmin a')) →
  array_good a'.
Proof.
  intros Hg He Hnd Hs Hr1 Hr2. split; [done| |apply He|apply He| |done|done].
  - intros p Hp. destruct (Hs p Hp) as [[Hp' ->]|]; [|done]. apply (slot_ok_evolves a); [done|done|by apply Hg].
  - intros x Hx. destruct (ev_ended _ _ He x Hx) as [Hx'|]; [|done]. pose proof (ag_ended _ Hg x Hx').
    destruct (ev_latest _ _ He). lia.
Qed.
(** Arrays that differ in distributed transactions only. *)
Record same_xids a a' : Prop := {
  sx_procnos : pgprocnos a' = pgprocnos a;
  sx_next : next_xid a' = next_xid a;
  sx_latest : latestCompletedXid a' = latestCompletedXid a;
  sx_rep : replication_slot_xmin a' = replication_slot_xmin a ∧ replication_slot_catalog_xmin a' = replication_slot_catalog_xmin a;
  sx_slots : ∀ p, s_xact (slots a' p) = s_xact (slots a p) ∧ children (slots a' p) = children (slots a p) ∧
    s_proc (slots a' p) = s_proc (slots a p);
}.

Lemma same_xids_ids a a' p : same_xids a a' → ids (slots a' p) = ids (slots a p).
Proof. intros Hs. destruct (sx_slots _ _ Hs p) as (E1 & E2 & _). unfold ids, xid_of. by rewrite E1, E2. Qed.

Lemma same_xids_runs a a' x : same_xids a a' → runs a' x ↔ runs a x.
Proof.
  intros Hs. unfold runs. rewrite (sx_procnos _ _ Hs). split; intros (p & ? & Hx); exists p; (split; [done|]);
    [by rewrite <-(same_xids_ids a a')|by rewrite (same_xids_ids a a')].
Qed.

Lemma same_xids_trans a1 a2 a3 : same_xids a1 a2 → same_xids a2 a3 → same_xids a1 a3.
Proof.
  intros [] []. split; try congruence; [destruct sx_rep0, sx_rep1; split; congruence|].
  intros p. destruct (sx_slots0 p) as (? & ? & ?), (sx_slots1 p) as (? & ? & ?). split_and!; congruence.
Qed.

(** The ids stay, and so do the counters. *)
Lemma evolves_runs a a' :
  array_good a → next_xid a' = next_xid a → latestCompletedXid a' = latestCompletedXid a →
  (∀ x, runs a' x ↔ runs a x) → evolves a a'.
Proof.
  intros Hg En El Hr. split.
  - rewrite En. split; [apply Hg|done].
  - unfold assigned. rewrite El, En. split; [apply Hg|done].
  - intros x Hx. left. by apply Hr.
  - intros x [Ha Hn]. left. split; [|by rewrite <-Hr]. unfold assigned in *. by rewrite En in Ha.
Qed.

Lemma same_xids_evolves a a' : array_good a → same_xids a a' → evolves a a'.
Proof. intros Hg Hs. apply evolves_runs; [done|apply Hs|apply Hs|]. intros x. by apply same_xids_runs. Qed.

Lemma slot_ok_ext a e e' : s_xact e' = s_xact e → children e' = children e → slot_ok a e → slot_ok a e'.
Proof.
  intros E1 E2 []. split; unfold decodes, ids, xid_of, cache_of, overflow_of, xmin_of in *; by rewrite ?E1, ?E2.
Qed.

Lemma same_xids_good a a' : array_good a → same_xids a a' → array_good a'.
Proof.
  intros Hg Hs. pose proof (same_xids_evolves a a' Hg Hs) as He. destruct Hs as [Ep En El [Er1 Er2] Hs].
  apply (good_evolves a); [done|done|rewrite Ep; apply Hg| |rewrite Er1; apply Hg|rewrite Er2; apply Hg].
  intros p Hp. right. destruct (Hs p) as (E1 & E2 & _). apply (slot_ok_ext _ (slots a p)); [done|done|].
  apply (slot_ok_evolves a); [done|done|]. apply Hg. by rewrite <-Ep.
Qed.

Lemma reset_same p a : same_xids a (resetGxact p a).
Proof. split; try done. intros q. simpl. destruct (Z.eqb_spec q p) as [->|]; done. Qed.

Lemma completed_gxid_same g a : same_xids a (advance_completed_gxid g a).
Proof. unfold advance_completed_gxid. destruct (_ && _); by split. Qed.

Lemma assign_gxid_same p a : same_xids a (assign_gxid p a).
Proof. split; try done. intros q. simpl. destruct (Z.eqb_spec q p) as [->|]; done. Qed.

Lemma end_gxact_same p a : same_xids a (ProcArrayEndGxact p a).
Proof. eapply same_xids_trans; [apply completed_gxid_same|apply reset_same]. Qed.

(** *** Ends *)

(** [advance_completed] is a maximum. *)
Lemma advance_completed_spec latestXid a :
  array_good a → assigned a latestXid →
  let a' := advance_completed latestXid a in
  assigned a (latestCompletedXid a') ∧ ord (latestCompletedXid a) ≤ ord (latestCompletedXid a') ∧
  ord latestXid ≤ ord (latestCompletedXid a') ∧
  pgprocnos a' = pgprocnos a ∧ slots a' = slots a ∧ next_xid a' = next_xid a ∧
  replication_slot_xmin a' = replication_slot_xmin a ∧ replication_slot_catalog_xmin a' = replication_slot_catalog_xmin a.
Proof.
  intros Hg [Hx Hx']. destruct (ag_latest _ Hg) as [Hl Hl']. unfold advance_completed. rewrite (precedes_ord w) by done.
  destruct (Z.ltb_spec (ord (latestCompletedXid a)) (ord latestXid)); simpl; split_and!; (done || lia || by split).
Qed.

(** Transactions end, and the counter is past them. *)
Lemma evolves_ends a a' latestXid :
  array_good a → next_xid a' = next_xid a → assigned a (latestCompletedXid a') →
  ord (latestCompletedXid a) ≤ ord (latestCompletedXid a') → ord latestXid ≤ ord (latestCompletedXid a') →
  (∀ x, runs a' x → runs a x) → (∀ x, runs a x → ¬ runs a' x → ord x ≤ ord latestXid) → evolves a a'.
Proof.
  intros Hg En Hl Hll Hx Hr Hgone. split.
  - rewrite En. split; [apply Hg|done].
  - unfold assigned. rewrite En. by split.
  - auto.
  - intros x [Ha Hn]. unfold assigned in Ha. rewrite En in Ha. destruct (decide (ord x ≤ ord latestXid)); [right; lia|left].
    split; [done|]. intros Hrx. by apply n, Hgone.
Qed.
(** *** One entry changes *)

Lemma slots_set p e a q : slots (set_entry p e a) q = if q =? p then e else slots a q.
Proof. done. Qed.

Lemma runs_set p e a x :
  p ∈ pgprocnos a → runs (set_entry p e a) x ↔ x ∈ ids e ∨ ∃ q, q ≠ p ∧ q ∈ pgprocnos a ∧ x ∈ ids (slots a q).
Proof.
  intros Hp. unfold runs. simpl. split.
  - intros (q & Hq & Hx). destruct (Z.eqb_spec q p) as [->|]; [by left|right; by exists q].
  - intros [Hx|(q & Hne & Hq & Hx)].
    + exists p. by rewrite Z.eqb_refl.
    + exists q. rewrite (proj2 (Z.eqb_neq q p)) by done. done.
Qed.

Lemma runs_split p a x : p ∈ pgprocnos a → runs a x ↔ x ∈ ids (slots a p) ∨ ∃ q, q ≠ p ∧ q ∈ pgprocnos a ∧ x ∈ ids (slots a q).
Proof.
  intros Hp. split.
  - intros (q & Hq & Hx). destruct (decide (q = p)) as [->|]; [by left|right; by exists q].
  - intros [Hx|(q & _ & Hq & Hx)]; by eexists.
Qed.

Lemma good_set p e a :
  array_good a → evolves a (set_entry p e a) → (p ∈ pgprocnos a → slot_ok (set_entry p e a) e) → array_good (set_entry p e a).
Proof.
  intros Hg He Hs. apply (good_evolves a); [done|done|apply Hg| |apply Hg|apply Hg].
  intros q Hq. rewrite slots_set. destruct (Z.eqb_spec q p) as [->|]; [right; by apply Hs|by left].
Qed.

(** Its ids stay. *)
Lemma set_same_ids p e a : array_good a → ids e = ids (slots a p) ∨ p ∉ pgprocnos a → evolves a (set_entry p e a).
Proof.
  intros Hg Hids. apply evolves_runs; [done|done|done|]. intros x. unfold runs. simpl.
  split; intros (q & Hq & Hx); exists q; (split; [done|]); destruct (Z.eqb_spec q p) as [->|]; try done;
    destruct Hids as [E|?]; try done; by rewrite E in *.
Qed.

(** ** Every change keeps the invariant *)

Definition keeps a a' : Prop := evolves a a' ∧ array_good a'.

Lemma keeps_same a a' : array_good a → same_xids a a' → keeps a a'.
Proof. intros Hg Hs. split; [by apply same_xids_evolves|by apply (same_xids_good a)]. Qed.

Lemma keeps_then a a1 a2 : array_good a → keeps a a1 → same_xids a1 a2 → keeps a a2.
Proof.
  intros Hg [He Hg1] Hs. split; [|by apply (same_xids_good a1)]. destruct He as [E1 E2 E3 E4].
  pose proof (sx_next _ _ Hs) as En. pose proof (sx_latest _ _ Hs) as El.
  split; rewrite ?En, ?El; [done| |..].
  - unfold assigned in *. by rewrite En.
  - intros x Hx. apply E3. by apply (same_xids_runs a1 a2).
  - intros x [Ha Hn]. apply E4. split; [unfold assigned in *; by rewrite <-En|]. by rewrite <-(same_xids_runs a1 a2).
Qed.

Lemma show_xmin_keeps p v a : array_good a → allowed (ShowsXmin p v) a → keeps a (show_xmin p v a).
Proof.
  intros Hg (Hp & _ & Hb). assert (He : evolves a (show_xmin p v a)) by (apply set_same_ids; [done|by left]).
  split; [done|]. apply good_set; [done|done|]. intros _. fold (show_xmin p v a).
  destruct (slot_ok_evolves a _ _ Hg He (ag_slots _ Hg p Hp)). split; try done.
  destruct Hb as [->|[Hb _]]; [by left|right]. by apply (bound_evolves a).
Qed.

Lemma end_without_xid_keeps role p a :
  array_good a → allowed (EndsWithoutXid role p) a → keeps a (ProcArrayEndTransaction role p InvalidTransactionId a).
Proof.
  intros Hg (Hp & _ & Hids). unfold ProcArrayEndTransaction. cbn [TransactionIdIsValid InvalidTransactionId Z.eqb negb].
  set (a1 := set_entry p _ a). assert (He : evolves a a1) by (apply set_same_ids; [done|by left]).
  assert (Hk : keeps a a1).
  { split; [done|]. apply good_set; [done|done|]. intros _. fold a1.
    destruct (slot_ok_evolves a _ _ Hg He (ag_slots _ Hg p Hp)). split; try done; [|by left].
    unfold decodes in *. simpl. by rewrite idle_flags_decoding. }
  case_bool_decide; [|done]. apply (keeps_then a a1); [done|done|apply reset_same].
Qed.

Lemma fill_keeps p e a : array_good a → allowed (Fills p e) a → keeps a (set_entry p e a).
Proof.
  intros Hg Hp. assert (He : evolves a (set_entry p e a)) by (apply set_same_ids; [done|by right]).
  split; [done|]. by apply good_set.
Qed.

Lemma update_keeps p proc flags delay gx a :
  array_good a → allowed (Updates p proc flags delay gx) a → keeps a (update_slot p proc flags delay gx a).
Proof.
  intros Hg (Hp & _ & _ & Hf). set (a1 := update_slot _ _ _ _ _ a). assert (He : evolves a a1) by (apply set_same_ids; [done|by left]).
  split; [done|]. apply good_set; [done|done|]. intros _. fold a1.
  destruct (slot_ok_evolves a _ _ Hg He (ag_slots _ Hg p Hp)). split; try done.
  unfold decodes at 1. simpl. destruct Hf as [->|[E _]]; [done|]. intros _. revert E. unfold ids.
  destruct (Z.eqb_spec (xid_of (slots a p)) InvalidTransactionId) as [E|]; [by rewrite <-E|done].
Qed.

(** *** A new id *)

Lemma evolves_new a a' :
  array_good a → next_xid a' = TransactionIdAdvance (next_xid a) → inside (next_xid a') →
  latestCompletedXid a' = latestCompletedXid a → (∀ x, runs a' x ↔ runs a x ∨ x = next_xid a) → evolves a a'.
Proof.
  intros Hg En Hin El Hr. pose proof (ag_next _ Hg) as Hn. rewrite En in Hin. destruct (ord_next w _ Hn Hin) as [Hlt Hle].
  destruct (ag_latest _ Hg) as [Hl Hl']. split.
  - rewrite En. split; [done|lia].
  - rewrite El. split; [split; [done|rewrite En; lia]|done].
  - intros x. by rewrite Hr.
  - intros x [[Hx Hx'] Hnr]. rewrite En in Hx'. left. rewrite Hr in Hnr.
    split; [split; [done|]|tauto]. specialize (Hle x Hx Hx').
    destruct (Z.eq_dec (ord x) (ord (next_xid a))) as [E|]; [|lia]. exfalso. apply Hnr. right.
    apply (ord_inj w); [apply Hx|apply Hn|done].
Qed.

Lemma running_assigned a x : array_good a → runs a x → assigned a x.
Proof. intros Hg (p & Hp & Hx). by apply (so_ids _ _ (ag_slots _ Hg p Hp)). Qed.

Lemma new_xid_runs p (isSubXact : bool) a x :
  array_good a → p ∈ pgprocnos a →
  (if isSubXact then xid_of (slots a p) ≠ InvalidTransactionId else xid_of (slots a p) = InvalidTransactionId) →
  runs (show_new_xid p isSubXact a) x ↔ runs a x ∨ x = next_xid a.
Proof.
  intros Hg Hp Hx. unfold show_new_xid. set (e' := mkSlot _ _ _ _).
  assert (Hids : x ∈ ids e' ↔ x ∈ ids (slots a p) ∨ x = next_xid a).
  { rewrite !ids_cons. unfold e', xid_of. cbn [shown s_xact children]. unfold store_xid. destruct isSubXact; cbn [negb].
    - replace (px_xid _) with (xid_of (slots a p)) by (by destruct (_ <? _)%nat). rewrite elem_of_app, list_elem_of_singleton.
      unfold xid_of in *. tauto.
    - cbn [px_xid]. pose proof (normal_not_invalid _ (proj1 (ag_next _ Hg))). destruct (so_idle _ _ (ag_slots _ Hg p Hp) Hx) as (_ & -> & _).
      unfold xid_of in *. set_solver. }
  change (runs (set_entry p e' a) x ↔ runs a x ∨ x = next_xid a). rewrite runs_set, (runs_split p a x), Hids by done. tauto.
Qed.
End History.

(** ** Every change keeps the invariant *)

Lemma insert_procno_perm p l : insert_procno p l ≡ₚ p :: l.
Proof. induction l as [|q l IH]; cbn [insert_procno]; [done|]. case_match; [done|]. rewrite IH. apply Permutation_swap. Qed.

Lemma remove_procno_spec p l : NoDup l → NoDup (remove_procno p l) ∧ ∀ q, q ∈ remove_procno p l ↔ q ∈ l ∧ q ≠ p.
Proof.
  induction l as [|r l IH]; cbn [remove_procno]; [set_solver|]. intros [Hr Hl]%NoDup_cons. destruct (IH Hl) as [IH1 IH2].
  destruct (Z.eqb_spec r p) as [->|].
  - split; [done|]. intros q. rewrite elem_of_cons. split; [|tauto]. intros Hq. split; [tauto|]. by intros ->.
  - split.
    + apply NoDup_cons. split; [|done]. rewrite IH2. tauto.
    + intros q. rewrite !elem_of_cons, IH2. split; [|tauto]. intros [->|?]; tauto.
Qed.

Section Keeps.
Context {tenv : TqualEnv} (w : Z) (Hw : normal w).
Implicit Types (a : procarray) (e : proc_entry) (p x : Z).

Notation ord := (ord w).
Notation inside := (inside w).
Notation assigned := (assigned w).
Notation array_good := (array_good w).
Notation slot_ok := (slot_ok w).
Notation evolves := (evolves w).
Notation keeps := (keeps w).
Notation allowed := (allowed w).

(** *** Ids are shown *)

Lemma new_top_ok p a a' :
  array_good a → allowed (ShowsXid p false) a → evolves a a' → assigned a' (next_xid a) →
  slot_ok a' (slots (show_new_xid p false a) p).
Proof.
  intros Hg (Hp & _ & Hids & Hd & Ht) He Ha. unfold show_new_xid. cbn [slots set_next]. rewrite slots_set, Z.eqb_refl.
  destruct (slot_ok_evolves w Hw a a' _ Hg He (ag_slots _ _ Hg p Hp)) as [Sids Sidle Stop Schildren Scache Sfull Snodup Sdec Sxmin]. apply ids_nil in Hids.
  destruct (Sidle Hids) as (E1 & E2 & E3). unfold xid_of, cache_of, overflow_of, xmin_of, decodes in *.
  split; unfold xid_of, cache_of, overflow_of, xmin_of, decodes; cbn [s_xact shown children store_xid negb px_xid px_subxids px_overflowed vacuumFlags x_xmin].
  - intros x. rewrite ids_cons. unfold xid_of. cbn. rewrite E2. intros [_ [->|?]]; [done|set_solver].
  - intros E. exfalso. apply (normal_not_invalid (next_xid a)); [apply (ag_next _ _ Hg)|done].
  - done.
  - rewrite E2. set_solver.
  - rewrite E1. set_solver.
  - rewrite E2. set_solver.
  - rewrite E1. constructor.
  - congruence.
  - done.
Qed.

Lemma new_child_ok p a a' :
  array_good a → allowed (ShowsXid p true) a → evolves a a' → assigned a' (next_xid a) →
  slot_ok a' (slots (show_new_xid p true a) p).
Proof.
  intros Hg (Hp & _ & Hids & Ht) He Ha. unfold show_new_xid. cbn [slots set_next]. rewrite slots_set, Z.eqb_refl.
  pose proof (ag_slots _ _ Hg p Hp) as Hok. rewrite ids_nil in Hids.
  assert (Hold : ∀ x, x ∈ ids (slots a p) → ord x < ord (next_xid a)) by (intros x Hx; by apply (so_ids _ _ _ Hok)).
  destruct (slot_ok_evolves w Hw a a' _ Hg He Hok) as [Sids Sidle Stop Schildren Scache Sfull Snodup Sdec Sxmin]. set (e' := mkSlot _ _ _ _).
  assert (Ex : xid_of e' = xid_of (slots a p)) by (unfold e', xid_of; cbn [s_xact shown store_xid negb]; by case_match).
  assert (Hnew : next_xid a ∉ cache_of (slots a p)).
  { intros Hin. apply Scache in Hin. pose proof (Hold (next_xid a)) as Hlt. rewrite ids_cons in Hlt. cut (ord (next_xid a) < ord (next_xid a)); [lia|auto]. }
  split; try (by rewrite Ex).
  - intros x. rewrite ids_cons, Ex. unfold e'. cbn [children]. rewrite elem_of_app, list_elem_of_singleton.
    intros (? & [->|[?| ->]]); [apply Sids; rewrite ids_cons; tauto..|done].
  - intros x. rewrite Ex. unfold e'. cbn [children]. rewrite elem_of_app, list_elem_of_singleton. intros [?| ->]; [auto|].
    split; [|done]. apply Hold. rewrite ids_cons. auto.
  - intros x. unfold e', cache_of. cbn [children s_xact shown store_xid negb]. rewrite elem_of_app, list_elem_of_singleton.
    case_match; cbn [px_subxids]; [rewrite elem_of_app, list_elem_of_singleton|]; intros; set_solver.
  - intros Ho x. revert Ho. unfold e', cache_of, overflow_of. cbn [children s_xact shown store_xid negb].
    rewrite elem_of_app, list_elem_of_singleton. case_match; cbn [px_overflowed px_subxids]; [|done].
    intros Ho. rewrite elem_of_app, list_elem_of_singleton. intros [?| ->]; [left; by apply Sfull|by right].
  - unfold e', cache_of. cbn [s_xact shown store_xid negb]. case_match; cbn [px_subxids]; [|done].
    apply NoDup_app. split_and!; [done|set_solver|apply NoDup_singleton].
  - done.
Qed.

Lemma show_new_xid_keeps p isSubXact a :
  array_good a → allowed (ShowsXid p isSubXact) a → inside (next_xid (show_new_xid p isSubXact a)) →
  keeps a (show_new_xid p isSubXact a).
Proof.
  intros Hg Hal Hin. set (a' := show_new_xid p isSubXact a).
  assert (Hp : p ∈ pgprocnos a) by (destruct isSubXact; apply Hal).
  assert (He : evolves a a').
  { apply evolves_new; [done|done|done|done|]. intros x. apply (new_xid_runs w); [done|done|done|].
    destruct isSubXact; destruct Hal as (_ & _ & Hids & _); by rewrite ids_nil in Hids. }
  assert (Ha : assigned a' (next_xid a)).
  { split; [apply Hg|]. apply (ord_next w); [apply Hg|done]. }
  split; [done|]. apply (good_evolves w Hw a); [done|done|apply Hg| |apply Hg|apply Hg].
  intros q Hq. destruct (decide (q = p)) as [->|Hne].
  - right. destruct isSubXact; [by apply new_child_ok|by apply new_top_ok].
  - left. split; [done|]. unfold a', show_new_xid. cbn [slots set_next]. rewrite slots_set. by rewrite (proj2 (Z.eqb_neq q p)).
Qed.
(** *** Transactions end *)

(** An entry without ids. *)
Lemma idle_ok a e :
  xid_of e = InvalidTransactionId → cache_of e = [] → children e = [] → overflow_of e = false →
  xmin_of e = InvalidTransactionId → slot_ok a e.
Proof.
  intros Ex Ec Ech Eo Em. pose proof (proj2 (ids_nil e) Ex) as Hids.
  split; rewrite ?Hids, ?Ex, ?Ec, ?Ech, ?Eo; try (done || set_solver). constructor.
Qed.

(** The entry is left without ids, and what ran there, and nowhere else, is up to [latestXid]. *)
Lemma idle_entry_keeps p e latestXid a :
  array_good a → p ∈ pgprocnos a → latest_of w a (ids (slots a p)) latestXid → slot_ok (advance_completed latestXid (set_entry p e a)) e →
  ids e = [] → keeps a (advance_completed latestXid (set_entry p e a)).
Proof.
  intros Hg Hp [Hl Hle] Hok Hids. set (a1 := set_entry p e a). set (a2 := advance_completed latestXid a1) in *.
  assert (Hs : latestCompletedXid a2 = latestCompletedXid (advance_completed latestXid a) ∧
    pgprocnos a2 = pgprocnos a ∧ slots a2 = slots a1 ∧ next_xid a2 = next_xid a ∧
    replication_slot_xmin a2 = replication_slot_xmin a ∧ replication_slot_catalog_xmin a2 = replication_slot_catalog_xmin a).
  { unfold a2, a1, advance_completed. cbn [latestCompletedXid set_entry]. by destruct (TransactionIdPrecedes _ _). }
  destruct Hs as (El & Ep & Es & En & Er & Erc).
  destruct (advance_completed_spec w latestXid a Hg Hl) as (Hc & Hc1 & Hc2 & _).
  assert (Hr : ∀ x, runs a2 x ↔ ∃ q, q ≠ p ∧ q ∈ pgprocnos a ∧ x ∈ ids (slots a q)).
  { intros x. transitivity (runs a1 x); [unfold runs; by rewrite Ep, Es|]. unfold a1. rewrite runs_set by done. rewrite Hids. set_solver. }
  assert (He : evolves a a2).
  { apply (evolves_ends w a a2 latestXid); rewrite ?El; try done.
    - intros x. rewrite Hr. intros (q & _ & ? & ?). by exists q.
    - intros x Hx Hn. rewrite Hr in Hn. apply (runs_split p a x Hp) in Hx as [?|?]; [by apply Hle|done]. }
  split; [done|]. apply (good_evolves w Hw a); [done|done|rewrite Ep; apply Hg| |rewrite Er; apply Hg|rewrite Erc; apply Hg].
  intros q. rewrite Ep, Es. intros Hq. unfold a1. rewrite slots_set. destruct (Z.eqb_spec q p) as [->|]; [by right|by left].
Qed.

(** The counter moves on. *)
Lemma advance_completed_fields latestXid a :
  let a' := advance_completed latestXid a in
  pgprocnos a' = pgprocnos a ∧ slots a' = slots a ∧ next_xid a' = next_xid a ∧
  replication_slot_xmin a' = replication_slot_xmin a ∧ replication_slot_catalog_xmin a' = replication_slot_catalog_xmin a.
Proof. unfold advance_completed. by destruct (TransactionIdPrecedes _ _). Qed.

Lemma assigned_valid a x : assigned a x → TransactionIdIsValid x = true.
Proof.
  intros [[Hx _] _]. apply normal_not_invalid in Hx. unfold TransactionIdIsValid. by rewrite (proj2 (Z.eqb_neq _ _)).
Qed.

Lemma end_keeps role p latestXid a :
  array_good a → allowed (Ends role p latestXid) a → keeps a (ProcArrayEndTransaction role p latestXid a).
Proof.
  intros Hg [Hp Hl]. unfold ProcArrayEndTransaction. rewrite (assigned_valid a) by apply Hl.
  set (e := mkSlot _ _ _ _). assert (Hk : keeps a (advance_completed latestXid (set_entry p e a))).
  { by apply idle_entry_keeps; [..|apply idle_ok|]. }
  case_bool_decide; [|done]. by apply (keeps_then w Hw _ _ _ Hg Hk), reset_same.
Qed.

Lemma clear_keeps p a : array_good a → allowed (Clears p) a → keeps a (ProcArrayClearTransaction p a).
Proof.
  intros Hg (Hp & Hd & q & Hq & Hdq & Hids). unfold ProcArrayClearTransaction. set (e := mkSlot _ _ _ _).
  assert (He : evolves a (set_entry p e a)).
  { apply evolves_runs; [done..|]. intros x. rewrite runs_set, (runs_split p a x) by done. split; [set_solver|].
    intros [Hx|?]; [right|by right]. exists q. rewrite Hids. split; [by intros ->|done]. }
  split; [done|]. apply good_set; [done..|]. intros _. by apply idle_ok.
Qed.
(** *** Subtransactions are rolled back *)

(** The entry without some of its children. *)
Lemma fewer_children_ok a e (cache xs : list Z) :
  slot_ok a e → (∀ x, x ∈ cache ↔ x ∈ cache_of e ∧ x ∉ xs) → NoDup cache →
  slot_ok a (mkSlot (s_proc e)
    (mkPGXACT (mkPgxact (xid_of e) cache (overflow_of e)) (xmin_of e) (vacuumFlags (s_xact e)) (delayChkpt (s_xact e)))
    (s_gxact e) (filter (λ x, x ∉ xs) (children e))).
Proof.
  intros [Sids Sidle Stop Schildren Scache Sfull Snodup Sdec Sxmin] Hc Hn. split; try done; cbn [children].
  - intros x Hx. apply Sids. rewrite ids_cons in *. cbn [children] in Hx. rewrite list_elem_of_filter in Hx. tauto.
  - intros E. destruct (Sidle E) as (E1 & -> & E3). split_and!; [|done|done]. apply elem_of_nil_inv. intros x Hx.
    apply Hc in Hx as [Hx _]. rewrite E1 in Hx. set_solver.
  - intros x. rewrite list_elem_of_filter. intros [_ ?]. auto.
  - intros x Hx. apply Hc in Hx as [? ?]. apply list_elem_of_filter. auto.
  - intros Ho x. rewrite list_elem_of_filter. intros [? ?]. apply Hc. auto.
Qed.

Lemma abort_sub_keeps p xid xids latestXid a :
  array_good a → allowed (AbortsSub p xid xids latestXid) a → keeps a (XidCacheRemoveRunningXids p xid xids latestXid a).
Proof.
  intros Hg (Hp & Htop & Hl & Hle). unfold XidCacheRemoveRunningXids. set (cache := XidCacheRemove _ _).
  assert (Hcache : NoDup cache ∧ ∀ x, x ∈ cache ↔ x ∈ cache_of (slots a p) ∧ x ∉ xid :: xids).
  { destruct (cache_removes_spec (reverse xids) _ (so_nodup _ _ _ (ag_slots _ _ Hg p Hp))) as [Hn1 H1].
    destruct (cache_remove_spec xid _ Hn1) as [Hn2 H2]. split; [done|]. intros x. unfold cache. rewrite H2, H1, elem_of_reverse, elem_of_cons. tauto. }
  rewrite (list_filter_iff _ (λ x, x ∉ xid :: xids)) by (intros x; rewrite elem_of_cons; tauto).
  set (e := mkSlot _ _ _ _). set (a1 := set_entry p e a).
  assert (Hids : ∀ x, x ∈ ids e ↔ x ∈ ids (slots a p) ∧ x ∉ xid :: xids).
  { intros x. rewrite !ids_cons. unfold e. cbn [children]. rewrite list_elem_of_filter. unfold xid_of at 1 2. cbn [s_xact shown px_xid].
    split; [|tauto]. intros (? & [->|?]); tauto. }
  destruct (advance_completed_spec w latestXid a Hg Hl) as (Hc & Hc1 & Hc2 & _).
  assert (El : latestCompletedXid (advance_completed latestXid a1) = latestCompletedXid (advance_completed latestXid a)).
  { unfold advance_completed. cbn [latestCompletedXid a1 set_entry]. by destruct (TransactionIdPrecedes _ _). }
  destruct (advance_completed_fields latestXid a1) as (Ep & Es & En & Er & Erc). set (a2 := advance_completed latestXid a1) in *.
  assert (Hr : ∀ x, runs a2 x ↔ x ∈ ids e ∨ ∃ q, q ≠ p ∧ q ∈ pgprocnos a ∧ x ∈ ids (slots a q)).
  { intros x. transitivity (runs a1 x); [unfold runs; by rewrite Ep, Es|]. by apply runs_set. }
  assert (He : evolves a a2).
  { apply (evolves_ends w a a2 latestXid); rewrite ?El; try done.
    - intros x. rewrite Hr, (runs_split p a x Hp), Hids. tauto.
    - intros x Hx Hn. rewrite Hr, Hids in Hn. apply (runs_split p a x Hp) in Hx.
      apply Hle. destruct (decide (x ∈ xid :: xids)); [done|]. tauto. }
  split; [done|]. apply (good_evolves w Hw a); [done|done|rewrite Ep; apply Hg| |rewrite Er; apply Hg|rewrite Erc; apply Hg].
  intros q. rewrite Ep, Es. intros Hq. unfold a1. rewrite slots_set. destruct (Z.eqb_spec q p) as [->|]; [right|by left].
  apply fewer_children_ok; [|apply Hcache|apply Hcache]. apply (slot_ok_evolves w Hw a); [done|done|by apply Hg].
Qed.

(** *** Entries come and go *)

Lemma add_keeps p a : array_good a → allowed (Adds p) a → keeps a (ProcArrayAdd p a).2.
Proof.
  intros Hg (Hp & Hok & _ & Hids). unfold ProcArrayAdd, get, bind, modify, raise. cbn.
  destruct (maxProcs a <=? _); [by apply (keeps_same w Hw)|]. cbn. set (a' := set_procnos _ a).
  assert (Hin : ∀ q, q ∈ pgprocnos a' ↔ q = p ∨ q ∈ pgprocnos a).
  { intros q. cbn. by rewrite insert_procno_perm, elem_of_cons. }
  assert (He : evolves a a').
  { apply evolves_runs; [done..|]. intros x. split.
    - intros (q & [->|Hq]%Hin & Hx); [by apply Hids|by exists q].
    - intros (q & Hq & Hx). exists q. rewrite Hin. auto. }
  split; [done|]. apply (good_evolves w Hw a); [done|done| | |apply Hg|apply Hg].
  - cbn. rewrite insert_procno_perm. apply NoDup_cons. split; [done|apply Hg].
  - intros q [->|Hq]%Hin; [right; by apply (slot_ok_evolves w Hw a)|by left].
Qed.

Lemma remove_keeps role p latestXid a :
  array_good a → allowed (Removes role p latestXid) a → keeps a (ProcArrayRemove role p latestXid a).
Proof.
  intros Hg [Hp Hl]. unfold ProcArrayRemove. set (a1 := if TransactionIdIsValid latestXid then _ else a).
  assert (H1 : assigned a (latestCompletedXid a1) ∧ ord (latestCompletedXid a) ≤ ord (latestCompletedXid a1) ∧
    (∀ x, x ∈ ids (slots a p) → ord x ≤ ord (latestCompletedXid a1)) ∧
    pgprocnos a1 = pgprocnos a ∧ slots a1 = slots a ∧ next_xid a1 = next_xid a ∧
    replication_slot_xmin a1 = replication_slot_xmin a ∧ replication_slot_catalog_xmin a1 = replication_slot_catalog_xmin a).
  { unfold a1. destruct (TransactionIdIsValid latestXid); [|rewrite Hl; split_and!; try done; [apply Hg..|set_solver]].
    destruct Hl as [Hl Hle]. destruct (advance_completed_spec w latestXid a Hg Hl) as (? & ? & ? & ?). split_and!; try tauto.
    intros x Hx. specialize (Hle x Hx). lia. }
  set (a2 := if bool_decide _ then _ else a1).
  assert (Hs : same_xids a1 a2) by (unfold a2; case_bool_decide; [apply completed_gxid_same|done]).
  destruct H1 as (Hc & Hc1 & Hc2 & Ep & Es & En & Er & Erc). destruct Hs as [Ep2 En2 El2 [Er2 Erc2] Hs2].
  destruct (remove_procno_spec p (pgprocnos a2)) as [Hnd Hin]; [rewrite Ep2, Ep; apply Hg|]. rewrite Ep2, Ep in Hnd, Hin.
  set (a3 := set_procnos _ a2).
  assert (Hids : ∀ q, ids (slots a3 q) = ids (slots a q)).
  { intros q. destruct (Hs2 q) as (E1 & E2 & _). unfold ids, xid_of. cbn. by rewrite E1, E2, Es. }
  assert (Hr : ∀ x, runs a3 x ↔ ∃ q, q ≠ p ∧ q ∈ pgprocnos a ∧ x ∈ ids (slots a q)).
  { intros x. unfold runs. cbn [a3 set_procnos pgprocnos]. rewrite Ep2, Ep. split.
    - intros (q & [? ?]%Hin & Hx). rewrite Hids in Hx. by exists q.
    - intros (q & ? & ? & ?). exists q. rewrite Hids, Hin. auto. }
  assert (He : evolves a a3).
  { apply (evolves_ends w a a3 (latestCompletedXid a1)); cbn [a3 set_procnos latestCompletedXid next_xid]; rewrite ?El2, ?En2, ?En; try done.
    - intros x. rewrite Hr, (runs_split p a x Hp). tauto.
    - intros x Hx Hn. rewrite Hr in Hn. apply (runs_split p a x Hp) in Hx as [?|?]; [by apply Hc2|done]. }
  split; [done|]. apply (good_evolves w Hw a); cbn [a3 set_procnos pgprocnos slots replication_slot_xmin replication_slot_catalog_xmin];
    rewrite ?Ep2, ?Ep, ?Er2, ?Er, ?Erc2, ?Erc; try done; [|apply Hg..].
  intros q [Hq _]%Hin. right. destruct (Hs2 q) as (E1 & E2 & _). rewrite Es in E1, E2. apply (slot_ok_ext w _ (slots a q)); [done|done|].
  apply (slot_ok_evolves w Hw a); [done|done|by apply Hg].
Qed.

Lemma set_slots_keeps x y a : array_good a → allowed (SetsSlots x y) a → keeps a (ProcArraySetReplicationSlotXmin x y a).
Proof.
  intros Hg [? ?]. set (a' := ProcArraySetReplicationSlotXmin x y a). assert (He : evolves a a') by (by apply evolves_runs).
  split; [done|]. apply (good_evolves w Hw a); try done; [apply Hg|]. intros q Hq. by left.
Qed.
End Keeps.
