(* ===== verification/ProcArrayRun.v ===== *)
(** * The process array: histories

    The array at every moment, and what stays as it is while somebody shares the lock: no transaction ends,
    an entry that stands for a transaction keeps doing so, and what an entry holds grows. *)
From S2P Require Import Prelude Proc DistributedSnapshot Slru DistribLog DistribLogRun DistribLogSpec Clog TransAm Varsup LocalDistribXact Dtm Htup ComboCid Tqual ProcArray ProcArrayFacts.

Section Run.
Context {tenv : TqualEnv} (w : Z) (Hw : normal w).
Implicit Types (a : procarray) (e : proc_entry) (p x : Z).

Notation ord := (ord w).
Notation inside := (inside w).
Notation array_good := (array_good w).
Notation keeps := (keeps w).
Notation allowed := (allowed w).
Notation bound := (bound w).
Notation oldest := (oldest w).

(** A change; [shared]: somebody shares the lock. *)
Definition moves (shared : bool) a a' : Prop :=
  ∃ ev, allowed ev a ∧ (shared = true → exclusive ev = false) ∧ inside (next_xid a') ∧ a' = effect ev a.

Lemma moves_keeps shared a a' : array_good a → moves shared a a' → keeps a a'.
Proof.
  intros Hg (ev & Hal & _ & Hin & ->). destruct ev; cbn [effect] in *.
  - by apply (keeps_same w Hw).
  - by apply show_new_xid_keeps.
  - by apply show_xmin_keeps.
  - by apply end_keeps.
  - by apply end_without_xid_keeps.
  - by apply clear_keeps.
  - by apply abort_sub_keeps.
  - by apply fill_keeps.
  - by apply add_keeps.
  - by apply remove_keeps.
  - apply (keeps_same w Hw); [done|apply assign_gxid_same].
  - apply (keeps_same w Hw); [done|apply end_gxact_same].
  - by apply set_slots_keeps.
  - by apply update_keeps.
Qed.

(** ** While the lock is shared *)

(** An entry goes on, starts a transaction, or leaves it to the entry of a prepared one. *)
Definition calm a e e' : Prop :=
  (xid_of e' = xid_of e ∧ children e ⊆ children e' ∧ cache_of e ⊆ cache_of e' ∧ (overflow_of e = true → overflow_of e' = true)) ∨ ids e = [] ∨
  ∃ q, q ∈ pgprocnos a ∧ dummy (slots a q) ∧ ids (slots a q) = ids e.

Record quiet_step a a' : Prop := {
  qs_procnos : pgprocnos a' = pgprocnos a;
  qs_latest : latestCompletedXid a' = latestCompletedXid a;
  qs_slots : replication_slot_xmin a' = replication_slot_xmin a ∧ replication_slot_catalog_xmin a' = replication_slot_catalog_xmin a;
  qs_pid : ∀ p, p ∈ pgprocnos a → pid (s_proc (slots a' p)) = pid (s_proc (slots a p));
  qs_dummy : ∀ p, p ∈ pgprocnos a → dummy (slots a p) →
    shown (s_xact (slots a' p)) = shown (s_xact (slots a p)) ∧ children (slots a' p) = children (slots a p);
  qs_calm : ∀ p, p ∈ pgprocnos a → calm a (slots a p) (slots a' p);
}.

(** One entry, of a process, changes. *)
Lemma quiet_set p e a :
  (p ∈ pgprocnos a → ¬ dummy (slots a p) ∧ pid (s_proc e) = pid (s_proc (slots a p)) ∧ calm a (slots a p) e) →
  quiet_step a (set_entry p e a).
Proof.
  intros H. split; try done; intros q Hq; rewrite slots_set; destruct (Z.eqb_spec q p) as [->|]; try done.
  - by apply H.
  - by destruct (H Hq).
  - by apply H.
  - by left.
Qed.

Lemma calm_same a e e' : shown (s_xact e') = shown (s_xact e) → children e' = children e → calm a e e'.
Proof. intros E1 E2. left. unfold xid_of, cache_of, overflow_of. by rewrite E1, E2. Qed.

Lemma quiet_same a a' : same_xids a a' → quiet_step a a'.
Proof.
  intros [Ep En El Er Hs]. split; try done; intros p Hp; destruct (Hs p) as (E1 & E2 & E3); rewrite ?E1, ?E3; try done.
  apply calm_same; [by rewrite E1|done].
Qed.

Lemma quiet_then a a1 a2 : quiet_step a a1 → same_xids a1 a2 → quiet_step a a2.
Proof.
  intros [Q1 Q2 [Q3 Q4] Q5 Q6 Q7] [Ep En El [Er1 Er2] Hs]. split; try congruence; [split; congruence|..]; intros p Hp;
    destruct (Hs p) as (E1 & E2 & E3).
  - rewrite E3. auto.
  - rewrite E1, E2. auto.
  - destruct (Q7 p Hp) as [?|?]; [|by right]. left. unfold xid_of, cache_of, overflow_of in *. by rewrite E1, E2.
Qed.

Lemma moves_quiet a a' : moves true a a' → quiet_step a a'.
Proof.
  intros (ev & Hal & Hex & _ & ->). specialize (Hex eq_refl). destruct ev; cbn [effect exclusive] in *; try discriminate Hex.
  - by apply quiet_same.
  - assert (Hq : quiet_step a (set_entry p (slots (show_new_xid p isSubXact a) p) a)).
    { apply quiet_set. intros Hp. unfold show_new_xid. cbn [slots set_next]. rewrite slots_set, Z.eqb_refl.
      destruct isSubXact; destruct Hal as (_ & Hd & Hids & _); split_and!; try done; [|by right; left].
      left. unfold xid_of, cache_of, overflow_of. cbn [s_xact shown store_xid negb children].
      case_match; cbn [px_xid px_subxids px_overflowed]; split_and!; (done || set_solver). }
    destruct Hq as [Q1 Q2 Q3 Q4 Q5 Q6]. unfold show_new_xid in *. cbn [slots set_next] in *. rewrite slots_set, Z.eqb_refl in *. by split.
  - apply quiet_set. intros Hp. destruct Hal as (_ & ? & _). split_and!; [done|done|by apply calm_same].
  - unfold ProcArrayEndTransaction. cbn [TransactionIdIsValid InvalidTransactionId Z.eqb negb]. set (a1 := set_entry p _ a).
    assert (quiet_step a a1).
    { apply quiet_set. intros Hp. destruct Hal as (_ & ? & _). split_and!; [done|done|by apply calm_same]. }
    case_bool_decide; [|done]. apply (quiet_then _ a1); [done|apply reset_same].
  - apply quiet_set. intros Hp. destruct Hal as (_ & ? & q & ? & ? & ?). split_and!; [done|done|]. right. right. by exists q.
  - apply quiet_set. intros Hp. done.
  - apply quiet_same, assign_gxid_same.
  - apply quiet_set. intros Hp. destruct Hal as (_ & ? & ? & _). split_and!; [done|done|by apply calm_same].
Qed.
(** ** Entries that stay *)

(** The entry that keeps [x] as long as the lock is shared: that of a prepared transaction if there is one. *)
Definition firm a p x : Prop :=
  p ∈ pgprocnos a ∧ x ∈ ids (slots a p) ∧
  (dummy (slots a p) ∨ ∀ q, q ∈ pgprocnos a → dummy (slots a q) → x ∉ ids (slots a q)).

#[export] Instance runs_dec a x : Decision (runs a x).
Proof.
  refine (cast_if (decide (Exists (λ p, x ∈ ids (slots a p)) (pgprocnos a)))); rewrite Exists_exists in *; unfold runs; done.
Defined.

Lemma firm_exists a x : runs a x → ∃ p, firm a p x.
Proof.
  intros (p & Hp & Hx). destruct (decide (Exists (λ q, pid (s_proc (slots a q)) = 0 ∧ x ∈ ids (slots a q)) (pgprocnos a))) as [He|Hn].
  - apply Exists_exists in He as (q & Hq & Hd & Hxq). exists q. split_and!; [done|done|by left].
  - exists p. split_and!; [done|done|right]. intros q Hq Hd Hxq. apply Hn, Exists_exists. by exists q.
Qed.

Lemma same_shown_ids e e' : shown (s_xact e') = shown (s_xact e) → children e' = children e → ids e' = ids e.
Proof. intros E1 E2. unfold ids, xid_of. by rewrite E1, E2. Qed.

Lemma firm_quiet a a' p x : quiet_step a a' → firm a p x →
  firm a' p x ∧ xid_of (slots a' p) = xid_of (slots a p) ∧ cache_of (slots a p) ⊆ cache_of (slots a' p) ∧
  (overflow_of (slots a p) = true → overflow_of (slots a' p) = true).
Proof.
  intros Hq (Hp & Hx & Hd). pose proof (qs_pid _ _ Hq) as Epid. pose proof (qs_procnos _ _ Hq) as Ep. unfold firm. rewrite Ep.
  assert (Hdummy : ∀ q, q ∈ pgprocnos a → dummy (slots a' q) → dummy (slots a q) ∧ ids (slots a' q) = ids (slots a q)).
  { intros q Hqin Hdq. unfold dummy in *. rewrite Epid in Hdq by done. destruct (qs_dummy _ _ Hq q Hqin Hdq).
    split; [done|by apply same_shown_ids]. }
  destruct (decide (pid (s_proc (slots a p)) = 0)) as [Hdp|Hdp].
  - destruct (qs_dummy _ _ Hq p Hp Hdp) as [E1 E2]. split_and!; [done|by rewrite (same_shown_ids (slots a p))| |..].
    + left. unfold dummy. by rewrite Epid.
    + unfold xid_of. by rewrite E1.
    + unfold cache_of. by rewrite E1.
    + unfold overflow_of. by rewrite E1.
  - destruct Hd as [?|Hd]; [done|]. destruct (qs_calm _ _ Hq p Hp) as [(E1 & E2 & E3 & E4)|[E|(q & Hqin & Hdq & E)]].
    + split_and!; [done| | |done|done|done].
      * apply ids_cons in Hx as [Hv Hx]. apply ids_cons. rewrite E1. split; [done|]. destruct Hx; [by left|right; by apply E2].
      * right. intros q Hqin Hdq. destruct (Hdummy q Hqin Hdq) as [? ->]. auto.
    + exfalso. rewrite E in Hx. by apply elem_of_nil in Hx.
    + exfalso. apply (Hd q Hqin Hdq). by rewrite E.
Qed.

(** ** The xmins that are shown *)

Definition xmin_kept a a' p : Prop :=
  p ∈ pgprocnos a ∧ xmin_of (slots a' p) = xmin_of (slots a p) ∧ decodes (slots a' p) = decodes (slots a p).

Definition xmin_new a e : Prop := xmin_of e = InvalidTransactionId ∨ oldest a (xmin_of e).

Definition xmins_follow a a' : Prop := ∀ q, q ∈ pgprocnos a' → xmin_kept a a' q ∨ xmin_new a (slots a' q).

Lemma xmin_set p e a : (p ∈ pgprocnos a → xmin_new a e ∨ xmin_kept a (set_entry p e a) p) → xmins_follow a (set_entry p e a).
Proof.
  intros H q Hq. destruct (decide (q = p)) as [->|Hne].
  - rewrite slots_set, Z.eqb_refl. destruct (H Hq); [by right|by left].
  - left. unfold xmin_kept. by rewrite slots_set, (proj2 (Z.eqb_neq q p)).
Qed.

Lemma follow_then a a1 a2 : xmins_follow a a1 → pgprocnos a2 ⊆ pgprocnos a1 →
  (∀ q, s_xact (slots a2 q) = s_xact (slots a1 q)) → xmins_follow a a2.
Proof.
  intros H Hsub Hs q Hq. specialize (H q (Hsub q Hq)). unfold xmin_kept, xmin_new, xmin_of, decodes in *. by rewrite Hs.
Qed.

Lemma follow_xact a a' : pgprocnos a' ⊆ pgprocnos a → (∀ q, s_xact (slots a' q) = s_xact (slots a q)) → xmins_follow a a'.
Proof. intros Hsub Hs. apply (follow_then a a); [|done|done]. intros q Hq. left. done. Qed.

Lemma follow_same a a' : same_xids a a' → xmins_follow a a'.
Proof. intros Hs. apply follow_xact; [by rewrite (sx_procnos _ _ Hs)|]. intros q. apply (sx_slots _ _ Hs q). Qed.

Lemma xmins_step a a' shared : array_good a → moves shared a a' → xmins_follow a a'.
Proof.
  intros Hg (ev & Hal & _ & _ & ->). destruct ev; cbn [effect].
  - by apply follow_same.
  - apply (follow_then _ (set_entry p (slots (show_new_xid p isSubXact a) p) a)); [|done|].
    + apply xmin_set. intros Hp. right. unfold xmin_kept, show_new_xid. cbn [slots set_next]. by rewrite !slots_set, Z.eqb_refl.
    + intros q. unfold show_new_xid. cbn [slots set_next]. rewrite !slots_set, Z.eqb_refl. done.
  - apply xmin_set. intros Hp. left. destruct Hal as (_ & _ & [->|?]); [by left|by right].
  - unfold ProcArrayEndTransaction. destruct Hal as [Hp Hl]. rewrite (assigned_valid w a) by apply Hl. set (a1 := set_entry p _ a).
    assert (H1 : xmins_follow a a1) by (apply xmin_set; intros _; left; by left).
    assert (H2 : xmins_follow a (advance_completed latestXid a1)).
    { destruct (advance_completed_fields latestXid a1) as (Ep & Es & _). apply (follow_then a a1); [done|by rewrite Ep|by rewrite Es]. }
    case_bool_decide; [|done]. apply (follow_then _ _ _ H2); [done|]. intros q. apply (sx_slots _ _ (reset_same p _) q).
  - unfold ProcArrayEndTransaction. cbn [TransactionIdIsValid InvalidTransactionId Z.eqb negb]. set (a1 := set_entry p _ a).
    assert (H1 : xmins_follow a a1) by (apply xmin_set; intros _; left; by left).
    case_bool_decide; [|done]. apply (follow_then _ _ _ H1); [done|]. intros q. apply (sx_slots _ _ (reset_same p _) q).
  - apply xmin_set. intros _. left. by left.
  - unfold XidCacheRemoveRunningXids. set (a1 := set_entry p _ a). destruct (advance_completed_fields latestXid a1) as (Ep & Es & _).
    apply (follow_then a a1); [|by rewrite Ep|by rewrite Es]. apply xmin_set. intros Hp. right. unfold xmin_kept.
    by rewrite slots_set, Z.eqb_refl.
  - apply xmin_set. intros Hp. done.
  - destruct Hal as (Hp & _ & Hx & _). unfold ProcArrayAdd, get, bind, modify, raise. cbn.
    destruct (maxProcs a <=? _); [by apply follow_same|]. cbn. intros q Hq. cbn in Hq.
    rewrite insert_procno_perm, elem_of_cons in Hq. destruct Hq as [->|Hq]; [right; by left|by left].
  - unfold ProcArrayRemove. set (a1 := if TransactionIdIsValid latestXid then _ else a). set (a2 := if bool_decide _ then _ else a1).
    assert (E1 : pgprocnos a1 = pgprocnos a ∧ slots a1 = slots a).
    { unfold a1. destruct (TransactionIdIsValid _); [|done]. destruct (advance_completed_fields latestXid a) as (? & ? & _). done. }
    assert (E2 : same_xids a1 a2) by (unfold a2; case_bool_decide; [apply completed_gxid_same|done]).
    destruct E1 as [Ep Es], E2 as [Ep2 _ _ _ Hs]. apply follow_xact; cbn.
    + intros q Hq. rewrite Ep2, Ep in Hq. by apply (proj2 (remove_procno_spec p _ (ag_nodup _ _ Hg))) in Hq as [? _].
    + intros q. destruct (Hs q) as (-> & _). by rewrite Es.
  - apply follow_same, assign_gxid_same.
  - apply follow_same, end_gxact_same.
  - by apply follow_xact.
  - apply xmin_set. intros Hp. destruct Hal as (_ & _ & _ & [E|[_ E]]); [right|left; by left].
    unfold xmin_kept. by rewrite slots_set, Z.eqb_refl.
Qed.
(** ** Histories *)

Lemma moves_star shared a a' : array_good a → rtc (moves shared) a a' → array_good a'.
Proof. intros Hg H. induction H as [|a1 a2 a3 H12 _ IH]; [done|]. apply IH. by apply (moves_keeps shared a1). Qed.

(** What is true after any number of changes. *)
Lemma stays_star (P : procarray → Prop) shared :
  (∀ a a', array_good a → moves shared a a' → P a → P a') → ∀ a a', array_good a → rtc (moves shared) a a' → P a → P a'.
Proof.
  intros Hstep a a' Hg H. induction H as [|a1 a2 a3 H12 _ IH]; [done|]. intros HP.
  apply IH; [by apply (moves_keeps shared a1)|by apply (Hstep a1)].
Qed.

Context {env : ProcEnv}.

Record history : Prop := {
  h_start : array_good (memory 0);
  h_moves : ∀ n, rtc (moves false) (memory n) (memory (S n));
}.

(** The lock is shared from [n] to [m]. *)
Definition shared_lock (n m : nat) : Prop := ∀ k, (n ≤ k < m)%nat → rtc (moves true) (memory k) (memory (S k)).

Context (Hh : history).

Lemma history_good n : array_good (memory n).
Proof. induction n as [|n IH]; [apply Hh|]. apply (moves_star false _ _ IH), Hh. Qed.

Lemma history_stays (P : procarray → Prop) n m :
  (∀ a a', array_good a → moves false a a' → P a → P a') → (n ≤ m)%nat → P (memory n) → P (memory m).
Proof.
  intros Hstep Hle Hn. induction Hle as [|m _ IH]; [done|].
  apply (stays_star P false Hstep (memory m)); [apply history_good|apply Hh|done].
Qed.

Lemma shared_stays (P : procarray → Prop) n m :
  (∀ a a', array_good a → moves true a a' → P a → P a') → shared_lock n m → (n ≤ m)%nat → P (memory n) → P (memory m).
Proof.
  intros Hstep Hsh Hle Hn. induction Hle as [|m Hle IH]; [done|].
  apply (stays_star P true Hstep (memory m)); [apply history_good|apply Hsh; lia|].
  apply IH. intros k Hk. apply Hsh. lia.
Qed.

Lemma shared_lock_part n m n' m' : shared_lock n m → (n ≤ n')%nat → (m' ≤ m)%nat → shared_lock n' m'.
Proof. intros Hs ? ? k Hk. apply Hs. lia. Qed.

Lemma bound_stays n m v : (n ≤ m)%nat → bound (memory n) v → bound (memory m) v.
Proof.
  apply (history_stays (λ a, bound a v)). intros a a' Hg Hm. apply (bound_evolves w Hw); [done|]. by apply (moves_keeps false).
Qed.

(** What is over stays over. *)
Lemma ended_stays n m x : (n ≤ m)%nat → ended w (memory n) x → ended w (memory m) x.
Proof.
  apply (history_stays (λ a, ended w a x)). intros a a' Hg Hm [Ha Hn]. destruct (moves_keeps false a a' Hg Hm) as [He _].
  split; [by apply (assigned_evolves w a)|]. intros Hr. apply (ev_runs _ _ _ He) in Hr as [?| ->]; [done|].
  destruct Ha as [_ ?]. lia.
Qed.

(** What runs later runs now, or its id is not assigned yet. *)
Lemma ran_before n m x : (n ≤ m)%nat → runs (memory m) x → runs (memory n) x ∨ ord (next_xid (memory n)) ≤ ord x.
Proof.
  intros Hle Hr. destruct (Z.le_gt_cases (ord (next_xid (memory n))) (ord x)) as [|Hlt]; [by right|left].
  destruct (decide (runs (memory n) x)) as [?|Hn]; [done|].
  exfalso. apply (ended_stays n m x Hle); [|done]. split; [|done]. split; [by apply (running_assigned w _ x (history_good m))|done].
Qed.

Lemma latest_shared n m : shared_lock n m → (n ≤ m)%nat → latestCompletedXid (memory m) = latestCompletedXid (memory n).
Proof.
  intros Hs Hle. apply (shared_stays (λ a, latestCompletedXid a = latestCompletedXid (memory n)) n m); [|done|done|done].
  intros a a' _ Hm ?. by rewrite (qs_latest _ _ (moves_quiet _ _ Hm)).
Qed.

Lemma procnos_shared n m : shared_lock n m → (n ≤ m)%nat → pgprocnos (memory m) = pgprocnos (memory n).
Proof.
  intros Hs Hle. apply (shared_stays (λ a, pgprocnos a = pgprocnos (memory n)) n m); [|done|done|done].
  intros a a' _ Hm ?. by rewrite (qs_procnos _ _ (moves_quiet _ _ Hm)).
Qed.

Lemma firm_shared n m p x : shared_lock n m → (n ≤ m)%nat → firm (memory n) p x →
  firm (memory m) p x ∧ xid_of (slots (memory m) p) = xid_of (slots (memory n) p) ∧
  cache_of (slots (memory n) p) ⊆ cache_of (slots (memory m) p) ∧
  (overflow_of (slots (memory n) p) = true → overflow_of (slots (memory m) p) = true).
Proof.
  intros Hs Hle Hf. apply (shared_stays (λ a, firm a p x ∧ xid_of (slots a p) = xid_of (slots (memory n) p) ∧
    cache_of (slots (memory n) p) ⊆ cache_of (slots a p) ∧ (overflow_of (slots (memory n) p) = true → overflow_of (slots a p) = true)) n m);
    [|done|done|done].
  intros a a' _ Hm (Hfa & Ex & Hc & Ho). destruct (firm_quiet a a' p x (moves_quiet _ _ Hm) Hfa) as (? & E & ? & ?).
  split_and!; [done|congruence|by etransitivity|auto].
Qed.

Lemma runs_shared n m x : shared_lock n m → (n ≤ m)%nat → runs (memory n) x → runs (memory m) x.
Proof. intros Hs Hle (p & Hf)%firm_exists. apply (firm_shared n m) in Hf as [(? & ? & _) _]; [|done..]. by exists p. Qed.

(** The oldest id is the same all the time. *)
Lemma oldest_shared n m v : shared_lock n m → (n ≤ m)%nat → oldest (memory n) v → oldest (memory m) v.
Proof.
  intros Hs Hle [Hb Hv]. split; [by apply (bound_stays n)|]. rewrite (latest_shared n m) by done.
  destruct Hv; [by left|right; by apply (runs_shared n)].
Qed.

(** ** Ids that nobody looks at *)

(** No snapshot in use needs what is before [v]. *)
Definition spared v e : Prop := decodes e = true ∨ xmin_of e = InvalidTransactionId ∨ ord v ≤ ord (xmin_of e).

Lemma spared_step shared v p a a' :
  array_good a → moves shared a a' → bound a v → p ∈ pgprocnos a' → (p ∈ pgprocnos a → spared v (slots a p)) → spared v (slots a' p).
Proof.
  intros Hg Hm (_ & Hl & Hr) Hp Hsp. destruct (xmins_step a a' shared Hg Hm p Hp) as [(Hpa & E1 & E2)|[E|[_ [E|E]]]].
  - specialize (Hsp Hpa). unfold spared in *. by rewrite E1, E2.
  - right. by left.
  - right. right. by rewrite E.
  - right. right. by apply Hr.
Qed.

(** Once a bound is below what every entry showed at one moment while the lock was shared, it is below what any
    entry shows from then on. *)
Lemma spared_later v n n' m :
  bound (memory n) v → shared_lock n n' → (n ≤ n')%nat → (n' ≤ m)%nat →
  (∀ p, p ∈ pgprocnos (memory n) → ∃ k, (n ≤ k ≤ n')%nat ∧ spared v (slots (memory k) p)) →
  ∀ p, p ∈ pgprocnos (memory m) → spared v (slots (memory m) p).
Proof.
  intros Hb Hs Hnn Hnm Hsp.
  apply (history_stays (λ a, bound a v ∧ ∀ p, p ∈ pgprocnos a → spared v (slots a p)) n' m); [|done|].
  - intros a a' Hg Hm [Hba Ha]. split; [|intros p Hp; apply (spared_step false v p a a'); auto].
    apply (bound_evolves w Hw a); [done|by apply (moves_keeps false)|done].
  - split; [by apply (bound_stays n)|]. intros p. rewrite (procnos_shared n n') by done. intros Hp.
    destruct (Hsp p Hp) as (k & Hk & Hspk).
    apply (shared_stays (λ a, p ∈ pgprocnos a ∧ bound a v ∧ spared v (slots a p)) k n'); [|apply (shared_lock_part n n'); [done|lia|lia]|lia|].
    + intros a a' Hg Hm (Hpa & Hba & Ha). pose proof (moves_quiet a a' Hm) as Hq.
      assert (Hpa' : p ∈ pgprocnos a') by (by rewrite (qs_procnos _ _ Hq)). split_and!; [done| |].
      * apply (bound_evolves w Hw a); [done|by apply (moves_keeps true)|done].
      * by apply (spared_step true v p a).
    + split_and!; [|apply (bound_stays n); [lia|done]|done].
      rewrite (procnos_shared n k); [done|apply (shared_lock_part n n'); [done|lia|lia]|lia].
Qed.
End Run.
