(* ===== verification/ProcArraySnapshot.v ===== *)
(** * Snapshots of the process array

    What [GetSnapshotData] collects while others go on: a transaction counts as running for the snapshot if and
    only if it had not ended when the lock was taken. *)
From S2P Require Import Prelude Proc DistributedSnapshot Slru DistribLog DistribLogRun DistribLogSpec Clog TransAm Varsup LocalDistribXact Dtm Htup ComboCid Tqual ProcArray ProcArrayFacts ProcArrayRun.

Section Snapshot.
Context {denv : DlogEnv} {tenv : TqualEnv} (w : Z) (Hw : normal w) {env : ProcEnv} (Hh : history w).
Implicit Types (a : procarray) (e : proc_entry) (p x : Z).

Notation ord := (ord w).
Notation inside := (inside w).
Notation array_good := (array_good w).
Notation bound := (bound w).
Notation oldest := (oldest w).
Notation ended := (ended w).
Notation spared := (spared w).
Notation shared_lock := (shared_lock w).

(** What the loop finds only grows. *)
Record further (r r' : running) : Prop := {
  fu_xip : r_xip r ⊆ r_xip r';
  fu_subxip : r_suboverflowed r' = true ∨ r_subxip r ⊆ r_subxip r';
  fu_over : r_suboverflowed r = true → r_suboverflowed r' = true;
  fu_xmin : inside (r_xmin r') ∧ ord (r_xmin r') ≤ ord (r_xmin r);
  fu_global : inside (r_globalxmin r') ∧ ord (r_globalxmin r') ≤ ord (r_globalxmin r);
}.

Lemma further_trans r1 r2 r3 : further r1 r2 → further r2 r3 → further r1 r3.
Proof.
  intros [A1 A2 A3 [A4 A5] [A6 A7]] [B1 B2 B3 [B4 B5] [B6 B7]]. split; [set_solver| |auto|split; [done|lia]..].
  destruct A2 as [?|?]; [left; auto|]. destruct B2; [by left|right; set_solver].
Qed.

(** The ids below [xmax] of an entry that stays are found. *)
Definition finds (xmax : Z) (r : running) a p : Prop :=
  ∀ x, firm a p x → ord (xid_of (slots a p)) < ord xmax →
    ord (r_xmin r) ≤ ord (xid_of (slots a p)) ∧
    (p ≠ MyProc → xid_of (slots a p) ∈ r_xip r ∧ (x = xid_of (slots a p) ∨ r_suboverflowed r = true ∨ x ∈ r_subxip r)).

Lemma finds_further xmax r r' a p : further r r' → finds xmax r a p → finds xmax r' a p.
Proof.
  intros [F1 F2 F3 [_ F4] _] H x Hf Hlt. destruct (H x Hf Hlt) as [H1 H2]. split; [lia|]. intros Hp.
  destruct (H2 Hp) as [? [?|[?|?]]]; (split; [auto|]); auto. destruct F2; auto.
Qed.

(** Nothing else is. *)
Record justified (xmax : Z) (n m : nat) (r r' : running) : Prop := {
  ju_xip : ∀ x, x ∈ r_xip r' → x ∈ r_xip r ∨ ∃ k, (n ≤ k ≤ m)%nat ∧ runs (memory k) x;
  ju_subxip : ∀ x, x ∈ r_subxip r' → x ∈ r_subxip r ∨ ∃ k, (n ≤ k ≤ m)%nat ∧ runs (memory k) x;
  ju_xmin : r_xmin r' = r_xmin r ∨ ord (r_xmin r') < ord xmax ∧ ∃ k, (n ≤ k ≤ m)%nat ∧ runs (memory k) (r_xmin r');
}.

Lemma justified_trans xmax n k m r1 r2 r3 : (n ≤ k ≤ m)%nat →
  justified xmax n k r1 r2 → justified xmax k m r2 r3 → justified xmax n m r1 r3.
Proof.
  intros Hk [A1 A2 A3] [B1 B2 B3]. split.
  - intros x [[?|(i & ? & ?)]%A1|(i & ? & ?)]%B1; [by left|right; exists i; split; [lia|done]..].
  - intros x [[?|(i & ? & ?)]%A2|(i & ? & ?)]%B2; [by left|right; exists i; split; [lia|done]..].
  - destruct B3 as [E|(? & i & ? & ?)]; [|right; split; [done|]; exists i; split; [lia|done]].
    rewrite E. destruct A3 as [?|(? & i & ? & ?)]; [by left|right; split; [done|]; exists i; split; [lia|done]].
Qed.

Lemma firm_ids n p x : firm (memory n) p x → xid_of (slots (memory n) p) ≠ InvalidTransactionId ∧ decodes (slots (memory n) p) = false.
Proof.
  intros (Hp & [Hv _]%ids_cons & _). split; [done|]. destruct (decodes _) eqn:E; [|done].
  by apply (so_decoding _ _ _ (ag_slots _ _ (history_good w Hw Hh n) p Hp)) in E.
Qed.

(** What is read is an id that runs, or the entry is idle. *)
Lemma read_xid n p : p ∈ pgprocnos (memory n) → let x := xid_of (slots (memory n) p) in
  x = InvalidTransactionId ∨ inside x ∧ runs (memory n) x.
Proof.
  intros Hp x. destruct (decide (x = InvalidTransactionId)) as [|Hne]; [by left|right].
  assert (Hr : runs (memory n) x) by (exists p; split; [done|apply ids_cons; tauto]).
  split; [|done]. by apply (running_assigned w _ x (history_good w Hw Hh n)).
Qed.

Lemma read_xmin n p : p ∈ pgprocnos (memory n) → let x := xmin_of (slots (memory n) p) in x = InvalidTransactionId ∨ inside x.
Proof.
  intros Hp x. destruct (so_xmin _ _ _ (ag_slots _ _ (history_good w Hw Hh n) p Hp)) as [?|[? _]]; [by left|by right].
Qed.

(** What is cached runs. *)
Lemma cached_runs n p x : p ∈ pgprocnos (memory n) → x ∈ cache_of (slots (memory n) p) → runs (memory n) x.
Proof.
  intros Hp Hx. pose proof (ag_slots _ _ (history_good w Hw Hh n) p Hp) as Hok. apply (so_cache _ _ _ Hok) in Hx.
  exists p. split; [done|]. apply ids_cons. split; [|by right]. intros E. destruct (so_idle _ _ _ Hok E) as (_ & Ec & _).
  rewrite Ec in Hx. set_solver.
Qed.

Lemma inside_normal x : inside x → TransactionIdIsNormal x = true.
Proof. intros [[? _] _]. unfold TransactionIdIsNormal. by apply Z.leb_le. Qed.

(** The smaller one of two ids, if the first is one. *)
Lemma min_spec x y : x = InvalidTransactionId ∨ inside x → inside y →
  let z := if TransactionIdIsNormal x && NormalTransactionIdPrecedes x y then x else y in
  inside z ∧ ord z ≤ ord y ∧ (x = InvalidTransactionId ∨ ord z ≤ ord x).
Proof.
  intros Hx Hy z. destruct Hx as [E|Hx]; [split_and!; subst; [done..|by left]|].
  unfold z. rewrite (inside_normal x) by done. rewrite (normal_precedes_ord w) by (apply Hx || apply Hy). cbn [andb].
  destruct (Z.ltb_spec (ord x) (ord y)); split_and!; auto; lia.
Qed.
Lemma further_same r r' g :
  inside (r_xmin r) → inside g → ord g ≤ ord (r_globalxmin r) → r' = mkRunning (r_xmin r) g (r_xip r) (r_subxip r) (r_suboverflowed r) →
  further r r'.
Proof. intros ? ? ? ->. split; cbn; auto; done. Qed.

Definition visited (xmax p : Z) (r r' : running) (n n' : nat) : Prop :=
  further r r' ∧ finds xmax r' (memory n) p ∧ justified xmax n n' r r' ∧
  ∃ k, (n ≤ k ≤ n')%nat ∧ spared (r_globalxmin r') (slots (memory k) p).

Section Visit.
Context (n m : nat) (p : Z) (Hs : shared_lock n m) (Hp : p ∈ pgprocnos (memory n)).

Lemma entry_stays k : (n ≤ k ≤ m)%nat → p ∈ pgprocnos (memory k).
Proof. intros Hk. rewrite (procnos_shared w Hw Hh n k); [done|apply (shared_lock_part w n m); [done|lia|lia]|lia]. Qed.

Lemma firm_at k x : (n ≤ k ≤ m)%nat → firm (memory n) p x →
  firm (memory k) p x ∧ xid_of (slots (memory k) p) = xid_of (slots (memory n) p) ∧
  cache_of (slots (memory n) p) ⊆ cache_of (slots (memory k) p) ∧
  (overflow_of (slots (memory n) p) = true → overflow_of (slots (memory k) p) = true).
Proof. intros Hk. apply (firm_shared w Hw Hh n k p x); [apply (shared_lock_part w n m); [done|lia|lia]|lia]. Qed.

(** The xmin that is read, and the smaller one of it and the one so far. *)
Lemma xmin_at k g : (n ≤ k ≤ m)%nat → inside g →
  let x := xmin_of (slots (memory k) p) in
  let g' := if TransactionIdIsNormal x && NormalTransactionIdPrecedes x g then x else g in
  inside g' ∧ ord g' ≤ ord g ∧ spared g' (slots (memory k) p).
Proof.
  intros Hk Hg x g'. destruct (min_spec x g) as (? & ? & ?); [by apply read_xmin, entry_stays|done|].
  split_and!; [done..|by right].
Qed.

(** The entry has no id to be collected. *)
Lemma visited_without xmax k r g :
  inside xmax → inside (r_xmin r) → (n ≤ k ≤ m)%nat → inside g → ord g ≤ ord (r_globalxmin r) →
  (∃ k, (n ≤ k ≤ m)%nat ∧ spared g (slots (memory k) p)) →
  (let xid := xid_of (slots (memory k) p) in negb (TransactionIdIsNormal xid) || negb (NormalTransactionIdPrecedes xid xmax) = true) →
  visited xmax p r (mkRunning (r_xmin r) g (r_xip r) (r_subxip r) (r_suboverflowed r)) n m.
Proof.
  intros Hmax Hmin Hk Hg Hgl Hsp Ex. split_and!; [by apply (further_same r _ g)| |split; auto|done].
  intros x Hf Hlt. exfalso. destruct (firm_at k x Hk Hf) as (Hfk & E & _). rewrite <-E in Hlt.
  destruct (read_xid k p (entry_stays k Hk)) as [E0|[Hi _]]; [by destruct (firm_ids k p x Hfk)|].
  cbv zeta in Ex. rewrite (inside_normal _ Hi), (normal_precedes_ord w) in Ex by (apply Hi || apply Hmax).
  cbn [negb orb] in Ex. apply negb_true_iff, Z.ltb_ge in Ex. lia.
Qed.

(** The entry has one. *)
Lemma visited_with xmax k r r' g :
  inside xmax → inside (r_xmin r) → (n ≤ k ≤ m)%nat → inside g → ord g ≤ ord (r_globalxmin r) →
  (∃ k, (n ≤ k ≤ m)%nat ∧ spared g (slots (memory k) p)) →
  let xid := xid_of (slots (memory k) p) in
  negb (TransactionIdIsNormal xid) || negb (NormalTransactionIdPrecedes xid xmax) = false →
  r_xmin r' = (if NormalTransactionIdPrecedes xid (r_xmin r) then xid else r_xmin r) → r_globalxmin r' = g →
  (p = MyProc ∧ r_xip r' = r_xip r ∨ r_xip r' = r_xip r ++ [xid]) →
  (r_suboverflowed r' = r_suboverflowed r ∧ r_subxip r' = r_subxip r ∧ (p = MyProc ∨ r_suboverflowed r = true) ∨
   r_suboverflowed r' = true ∧ r_subxip r' = r_subxip r ∨
   r_suboverflowed r = false ∧ r_suboverflowed r' = false ∧ ∃ i j, (n ≤ i ≤ j)%nat ∧ (j ≤ m)%nat ∧
     overflow_of (slots (memory i) p) = false ∧ r_subxip r' = r_subxip r ++ cache_of (slots (memory j) p)) →
  visited xmax p r r' n m.
Proof.
  intros Hmax [Hmin Hmin'] Hk Hg Hgl Hsp xid Ex Exmin Eglob Hxip Hsub.
  apply orb_false_iff in Ex as [Ex1%negb_false_iff Ex2%negb_false_iff].
  assert (Hx : inside xid ∧ runs (memory k) xid).
  { destruct (read_xid k p (entry_stays k Hk)) as [E|?]; [|done]. unfold xid in Ex1. by rewrite E in Ex1. }
  destruct Hx as [[Hx Hx'] Hr]. rewrite (normal_precedes_ord w) in Ex2, Exmin by (done || apply Hmax). apply Z.ltb_lt in Ex2.
  assert (Hm : inside (r_xmin r') ∧ ord (r_xmin r') ≤ ord (r_xmin r) ∧ ord (r_xmin r') ≤ ord xid ∧ (r_xmin r' = r_xmin r ∨ r_xmin r' = xid)).
  { rewrite Exmin. destruct (Z.ltb_spec (ord xid) (ord (r_xmin r))); split_and!; (done || lia || auto). }
  destruct Hm as (Hm1 & Hm2 & Hm3 & Hm4). split_and!.
  - split; rewrite ?Eglob; try done.
    + destruct Hxip as [[_ ->]| ->]; set_solver.
    + destruct Hsub as [(? & -> & _)|[(? & ->)|(_ & ? & i & j & _ & _ & _ & ->)]]; set_solver.
    + intros Ho. destruct Hsub as [(-> & _)|[(? & _)|(? & _)]]; congruence.
  - intros x Hf Hlt. destruct (firm_at k x Hk Hf) as (Hfk & E & _). rewrite <-E. fold xid. split; [done|]. intros Hne.
    destruct Hxip as [[? _]| ->]; [done|]. split; [set_solver|].
    destruct Hsub as [(-> & _ & [?|?])|[(? & _)|(_ & _ & i & j & Hij & Hj & Ho & ->)]]; [done|auto..|].
    destruct (firm_at i x) as (Hfi & Ei & _); [lia|done|]. destruct Hfi as (Hpi & [_ Hxi]%ids_cons & _).
    destruct Hxi as [Exi|Hxi]; [left; unfold xid; by rewrite E, <-Ei|right; right].
    apply (so_full _ _ _ (ag_slots _ _ (history_good w Hw Hh i) p Hpi) Ho) in Hxi.
    destruct (firm_shared w Hw Hh i j p x) as (_ & _ & Hc & _); [apply (shared_lock_part w n m); [done|lia|lia]|lia|apply firm_at; [lia|done]|].
    apply elem_of_app. right. by apply Hc.
  - split.
    + intros y. destruct Hxip as [[_ ->]| ->]; [auto|]. rewrite elem_of_app, list_elem_of_singleton.
      intros [?| ->]; [by left|right]. exists k. done.
    + intros y. destruct Hsub as [(_ & -> & _)|[(_ & ->)|(_ & _ & i & j & Hij & Hj & _ & ->)]]; [auto..|].
      rewrite elem_of_app. intros [?|Hy]; [by left|right]. exists j. split; [lia|].
      apply (cached_runs j p); [apply entry_stays; lia|done].
    + destruct Hm4 as [?| ->]; [by left|right; split; [done|by exists k]].
  - by rewrite Eglob.
Qed.
End Visit.

Lemma visit_xact_spec xmax p r n :
  inside xmax → inside (r_xmin r) → inside (r_globalxmin r) → p ∈ pgprocnos (memory n) →
  ∃ r' n', visit_xact xmax p r n = (Ret r', n') ∧ (n ≤ n')%nat ∧ (shared_lock n n' → visited xmax p r r' n n').
Proof.
  intros Hmax Hmin Hglob Hp. unfold visit_xact, read, bind, ret. cbn.
  destruct (has (vacuumFlags (s_xact (slots (memory n) p))) PROC_IN_LOGICAL_DECODING) eqn:Ed.
  { exists r, (S n). split_and!; [done|lia|]. intros Hs. split_and!.
    - by apply (further_same r r (r_globalxmin r)); [..|destruct r].
    - intros x [_ Hf]%firm_ids. unfold decodes in Hf. congruence.
    - split; auto.
    - exists n. split; [lia|by left]. }
  assert (Hg := λ m Hs, xmin_at n m p Hs Hp (S n) (r_globalxmin r)). cbn in Hg.
  set (g := if _ && _ then xmin_of _ else _) in *.
  assert (Hg' : ∀ m, shared_lock n m → (S n ≤ m)%nat →
    inside g ∧ ord g ≤ ord (r_globalxmin r) ∧ ∃ k, (n ≤ k ≤ m)%nat ∧ spared g (slots (memory k) p)).
  { intros m Hs Hm. destruct (Hg m Hs) as (? & ? & ?); [lia|done|]. split_and!; [done..|]. exists (S n). split; [lia|done]. }
  clearbody g. clear Hg. destruct (negb _ || negb _) eqn:Ex; [|destruct (p =? MyProc) eqn:Ep; [|destruct (r_suboverflowed r) eqn:Eo;
    [|destruct (overflow_of (slots (memory (S (S (S n)))) p)) eqn:Eov]]];
    (eexists _, _; split_and!; [reflexivity|lia|]); intros Hs; destruct (Hg' _ Hs) as (? & ? & ?); try lia.
  - by apply (visited_without n _ p Hs Hp xmax (S (S n)) r g); [..|lia|done|done|done|].
  - apply (visited_with n _ p Hs Hp xmax (S (S n)) r _ g); try done; [lia|left|left]; cbn; apply Z.eqb_eq in Ep; auto.
  - apply (visited_with n _ p Hs Hp xmax (S (S n)) r _ g); try done; [lia|by right|left]; cbn; auto.
  - apply (visited_with n _ p Hs Hp xmax (S (S n)) r _ g); try done; [lia|by right|right; by left].
  - apply (visited_with n _ p Hs Hp xmax (S (S n)) r _ g); try done; [lia|by right|right; right].
    split_and!; [done..|]. exists (S (S (S n))), (S (S (S (S n)))). split_and!; [lia..|done|done].
Qed.

Lemma scan_xacts_returns xmax l r n : ∃ r' n', scan_xacts xmax l r n = (Ret r', n') ∧ (n ≤ n')%nat.
Proof.
  induction l as [|p l IH] in r, n |- *; cbn [scan_xacts]; [by exists r, n|]. unfold bind at 1.
  assert (Hv : ∃ r1 n1, visit_xact xmax p r n = (Ret r1, n1) ∧ (n ≤ n1)%nat).
  { unfold visit_xact, read, bind, ret. cbn. repeat case_match; eexists _, _; (split; [reflexivity|lia]). }
  destruct Hv as (r1 & n1 & -> & ?). destruct (IH r1 n1) as (r' & n' & -> & ?). exists r', n'. split; [done|lia].
Qed.

(** The loop. *)
Definition scanned (xmax : Z) (l : list Z) (r r' : running) (n n' : nat) : Prop :=
  further r r' ∧ justified xmax n n' r r' ∧
  ∀ p, p ∈ l → finds xmax r' (memory n) p ∧ ∃ k, (n ≤ k ≤ n')%nat ∧ spared (r_globalxmin r') (slots (memory k) p).

Lemma spared_le v v' e : ord v ≤ ord v' → spared v' e → spared v e.
Proof. intros ? [?|[?|?]]; [by left|right; by left|right; right; lia]. Qed.

Lemma finds_later xmax r p n k : shared_lock n k → (n ≤ k)%nat → finds xmax r (memory k) p → finds xmax r (memory n) p.
Proof. intros Hs Hle H x Hf. destruct (firm_shared w Hw Hh n k p x Hs Hle Hf) as (Hfk & E & _). specialize (H x Hfk). by rewrite E in H. Qed.

Lemma scan_xacts_spec xmax l r n r' n' :
  inside xmax → inside (r_xmin r) → inside (r_globalxmin r) → l ⊆ pgprocnos (memory n) →
  scan_xacts xmax l r n = (Ret r', n') → shared_lock n n' → scanned xmax l r r' n n'.
Proof.
  intros Hmax. induction l as [|p l IH] in r, n |- *; intros Hmin Hglob Hl; cbn [scan_xacts].
  { intros [= -> ->] _. split_and!; [by apply (further_same r' r' (r_globalxmin r')); [..|destruct r']|split; auto|set_solver]. }
  unfold bind at 1. destruct (visit_xact_spec xmax p r n) as (r1 & n1 & -> & Hn1 & Hv); [done..|set_solver|].
  intros E Hs. assert (Hn' : (n1 ≤ n')%nat).
  { destruct (scan_xacts_returns xmax l r1 n1) as (? & ? & E' & ?). rewrite E in E'. by injection E' as -> ->. }
  destruct Hv as (Hf & Hfi & Hj & k & Hk & Hsp); [apply (shared_lock_part w n n'); [done|lia|lia]|].
  destruct (IH r1 n1) as (Hf2 & Hj2 & Hfi2); [apply Hf|apply Hf| |done|apply (shared_lock_part w n n'); [done|lia|lia]|].
  { rewrite (procnos_shared w Hw Hh n n1); [set_solver|apply (shared_lock_part w n n'); [done|lia|lia]|lia]. }
  split_and!; [by eapply further_trans|by apply (justified_trans xmax n n1 n' r r1 r')|].
  intros q [->|Hq]%elem_of_cons.
  - split; [by apply (finds_further xmax r1)|]. exists k. split; [lia|]. apply (spared_le _ (r_globalxmin r1)); [apply Hf2|done].
  - destruct (Hfi2 q Hq) as (Hq1 & i & Hi & Hqs). split.
    + apply (finds_later xmax r' q n n1); [apply (shared_lock_part w n n'); [done|lia|lia]|lia|done].
    + exists i. split; [lia|done].
Qed.

(** ** What was collected *)

Lemma top_first a p x : array_good a → p ∈ pgprocnos a → x ∈ ids (slots a p) →
  xid_of (slots a p) ≠ InvalidTransactionId ∧ ord (xid_of (slots a p)) ≤ ord x ∧ TopmostTransaction x = xid_of (slots a p).
Proof.
  intros Hg Hp [Hv Hx]%ids_cons. pose proof (ag_slots _ _ Hg p Hp) as Hok. split; [done|]. destruct Hx as [->|Hx].
  - split; [done|by apply (so_top _ _ _ Hok)].
  - apply (so_children _ _ _ Hok) in Hx as [? ?]. split; [lia|done].
Qed.

Lemma found_in (l : list Z) x : existsb (Z.eqb x) l = true ↔ x ∈ l.
Proof.
  rewrite existsb_exists. split.
  - intros (y & Hy & ->%Z.eqb_eq). by apply list_elem_of_In.
  - intros Hx. exists x. split; [by apply list_elem_of_In|apply Z.eqb_refl].
Qed.

Section Collected.
Context (n n1 m : nat) (r : running) (Hs : shared_lock n m) (Hn : (n ≤ n1 ≤ m)%nat).

Notation xmax := (TransactionIdAdvance (latestCompletedXid (memory n))).

Context (Hr : scanned xmax (pgprocnos (memory n1)) (mkRunning xmax xmax [] [] false) r n1 m).

Lemma xmax_at : inside xmax ∧ ord (latestCompletedXid (memory n)) < ord xmax ≤ ord (next_xid (memory n)).
Proof. apply (advance_latest w Hw), (history_good w Hw Hh). Qed.

Lemma found_all p : p ∈ pgprocnos (memory n) → finds xmax r (memory n) p.
Proof.
  intros Hp. apply (finds_later xmax r p n n1); [apply (shared_lock_part w n m); [done|lia|lia]|lia|].
  apply Hr. rewrite (procnos_shared w Hw Hh n n1); [done|apply (shared_lock_part w n m); [done|lia|lia]|lia].
Qed.

Lemma ran_at_start x k : (n1 ≤ k ≤ m)%nat → runs (memory k) x → ord x < ord xmax → runs (memory n) x.
Proof.
  intros Hk Hx Hlt. destruct (ran_before w Hw Hh n k x) as [?|?]; [lia|done|done|]. pose proof xmax_at. lia.
Qed.

Lemma xmin_bound : bound (memory n) (r_xmin r).
Proof.
  destruct Hr as (Hf & _ & _). destruct (fu_xmin _ _ Hf) as [Hi Hle]. cbn in Hle. split_and!; [done|done|].
  intros x (p & Hfirm)%firm_exists. pose proof Hfirm as (Hp & Hx & _).
  destruct (top_first _ p x (history_good w Hw Hh n) Hp Hx) as (Hv & Ht & _).
  destruct (Z.lt_ge_cases (ord (xid_of (slots (memory n) p))) (ord xmax)) as [Hlt|]; [|lia].
  destruct (found_all p Hp x Hfirm Hlt). lia.
Qed.

(** The xmin is the oldest id, at the start and as long as the lock is shared. *)
Lemma xmin_oldest : oldest (memory n) (r_xmin r).
Proof.
  split; [apply xmin_bound|]. destruct Hr as (_ & Hj & _). destruct (ju_xmin _ _ _ _ _ Hj) as [?|(Hlt & k & Hk & Hx)]; [by left|right].
  by apply (ran_at_start _ k).
Qed.

Definition snapshot_of (S : SnapshotData) : Prop :=
  snap_xmin S = r_xmin r ∧ snap_xmax S = xmax ∧ xip S = r_xip r ∧ subxip S = r_subxip r ∧ suboverflowed S = r_suboverflowed r ∧
  takenDuringRecovery S = false.

Lemma snapshot_holds_running S x :
  snapshot_of S → inside x → ¬ ended (memory n) x → x ∉ ids (slots (memory n) MyProc) → XidInMVCCSnapshot_Local x S = true.
Proof.
  intros (E1 & E2 & E3 & E4 & E5 & E6) Hx Hne Hown. pose proof xmax_at as [Hmax Hmax'].
  destruct xmin_bound as (Hmin & Hle & Hb). unfold XidInMVCCSnapshot_Local. rewrite E1, E2, E3, E4, E5, E6.
  rewrite (follows_or_equals_ord w) by done. cbn [negb].
  assert (Hcase : ord xmax ≤ ord x ∨ ord x < ord xmax ∧ runs (memory n) x).
  { destruct (Z.lt_ge_cases (ord x) (ord xmax)) as [Hlt|]; [right|by left]. split; [done|].
    destruct (decide (runs (memory n) x)) as [|Hnr]; [done|]. exfalso. apply Hne. split; [split; [done|lia]|done]. }
  destruct Hcase as [Hge|[Hlt Hrun]].
  { rewrite (precedes_ord w), (proj2 (Z.ltb_ge _ _)) by (done || lia). by rewrite (proj2 (Z.leb_le _ _)). }
  rewrite (precedes_ord w x), (proj2 (Z.ltb_ge _ _)) by (done || by apply Hb). rewrite (proj2 (Z.leb_gt _ _)) by done.
  apply firm_exists in Hrun as [p Hfirm]. pose proof Hfirm as (Hp & Hids & _).
  destruct (top_first _ p x (history_good w Hw Hh n) Hp Hids) as (Hv & Ht & Etop).
  destruct (found_all p Hp x Hfirm) as (Hxm & Hin); [lia|]. destruct Hin as [Hxip Hsub]; [by intros ->|].
  assert (HX : inside (xid_of (slots (memory n) p))) by (by destruct (read_xid n p Hp) as [|[? _]]).
  destruct (r_suboverflowed r); cbn [negb].
  - rewrite Etop, (precedes_ord w), (proj2 (Z.ltb_ge _ _)) by done. by apply found_in.
  - destruct (existsb (Z.eqb x) (r_subxip r)) eqn:Esub; [done|]. destruct Hsub as [->|[?|Hsub]]; [by apply found_in|done|].
    apply found_in in Hsub. congruence.
Qed.

Lemma snapshot_omits_ended S x :
  snapshot_of S → ended (memory n) x → (suboverflowed S = true → ended (memory n) (TopmostTransaction x)) →
  XidInMVCCSnapshot_Local x S = false.
Proof.
  intros (E1 & E2 & E3 & E4 & E5 & E6) Hx Htop. pose proof xmax_at as [Hmax Hmax']. destruct Hr as (_ & Hj & _).
  pose proof (ag_ended _ _ (history_good w Hw Hh n) x Hx) as Hlate.
  assert (Hxip : ∀ y, ended (memory n) y → existsb (Z.eqb y) (r_xip r) = false).
  { intros y Hy. apply not_true_iff_false. rewrite found_in. intros [?|(k & Hk & Hrun)]%(ju_xip _ _ _ _ _ Hj); [set_solver|].
    destruct (ended_stays w Hw Hh n k y) as [_ ?]; [lia|done|done]. }
  assert (Hsub : existsb (Z.eqb x) (r_subxip r) = false).
  { apply not_true_iff_false. rewrite found_in. intros [?|(k & Hk & Hrun)]%(ju_subxip _ _ _ _ _ Hj); [set_solver|].
    destruct (ended_stays w Hw Hh n k x) as [_ ?]; [lia|done|done]. }
  unfold XidInMVCCSnapshot_Local. rewrite E5 in Htop. rewrite E1, E2, E3, E4, E5, E6, Hsub.
  rewrite (follows_or_equals_ord w), (proj2 (Z.leb_gt _ _)) by (apply Hx || done || lia).
  rewrite (Hxip x Hx). destruct (r_suboverflowed r); cbn [negb]; [rewrite (Hxip _ (Htop eq_refl))|]; by repeat case_match.
Qed.
End Collected.

(** ** The routine *)

Lemma scan_gxids_moves maxCount l r n : (n ≤ (scan_gxids maxCount l r n).2)%nat.
Proof.
  induction l as [|p l IH] in r, n |- *; cbn [scan_gxids]; [done|]. unfold read, bind, ret, raise. cbn.
  repeat case_match; cbn; try lia; (etransitivity; [|apply IH]; lia).
Qed.

Lemma create_moves snapshotId d n : (n ≤ (CreateDistributedSnapshot snapshotId d n).2)%nat.
Proof.
  unfold CreateDistributedSnapshot. destruct (negb _); [done|]. unfold read, bind, ret. cbn.
  set (first := u32 _). pose proof (scan_gxids_moves (maxCount d) (pgprocnos (memory (S n))) (mkGxids first first first []) (S (S n))) as Hm.
  destruct (scan_gxids _ _ _ _) as [[r| | |] n1]; cbn in *; lia.
Qed.

(** The globals that a local snapshot leaves. *)
Definition min_global (r : running) : Z := if TransactionIdPrecedes (r_xmin r) (r_globalxmin r) then r_xmin r else r_globalxmin r.

Lemma wp_read {A} (q : procarray → A) (Q : outcome A → nat → Prop) n : Q (Ret (q (memory n))) (S n) → wp (read q) Q n.
Proof. done. Qed.

Lemma wp_is {A} (m : proc nat A) (Q : outcome A → nat → Prop) n o n' : m n = (o, n') → Q o n' → wp m Q n.
Proof. unfold wp. by intros ->. Qed.

Definition fails {A} (o : outcome A) : Prop := match o with Ret _ => False | _ => True end.

Lemma distributed_part_spec malloc context sent have d globalxmin n :
  wp (distributed_part malloc context sent have d globalxmin)
    (λ o n', n' = n ∧ (IS_QUERY_DISPATCHER = false ∨ o = Ret (have, d, globalxmin))) n.
Proof.
  unfold distributed_part. destruct IS_QUERY_DISPATCHER; cbn [negb]; [apply proc_ret; auto|].
  assert (Hn : ∀ n, (FillInDistributedSnapshot malloc context sent d n).2 = n).
  { intros k. unfold FillInDistributedSnapshot, ret, raise. repeat case_match; done. }
  unfold wp, bind. destruct (FillInDistributedSnapshot _ _ _ _ _) as [[[h d']| | |] k] eqn:E; specialize (Hn n); rewrite E in Hn;
    cbn in *; subst; auto. unfold in_dlog, ret. destruct h; [|destruct gp_maintenance_mode; cbn; [auto|]];
    by destruct ((_ (dlog_at n)).1); auto.
Qed.

(** How a snapshot is taken, or why it is not. *)
Definition took (context : DtxContext) (n : nat) (o : outcome (SnapshotData * snapshot_globals)) (n' : nat) : Prop :=
  let xmax := TransactionIdAdvance (latestCompletedXid (memory n)) in
  fails o ∧ (IS_QUERY_DISPATCHER = false ∨ context = DTX_CONTEXT_QD_DISTRIBUTED_CAPABLE) ∨
  ∃ n1 r n2, (n ≤ n1)%nat ∧ n' = S (S (S n2)) ∧
    scan_xacts xmax (pgprocnos (memory n1)) (mkRunning xmax xmax [] [] false) (S n1) = (Ret r, n2) ∧
    match o with
    | Ret (s, g) =>
        snapshot_of n r s ∧
        (let mine := xmin_of (slots (memory (S (S n2))) MyProc) in
         shown_xmin g = if negb (TransactionIdIsValid mine) then snap_xmin s else mine) ∧
        (IS_QUERY_DISPATCHER = true →
         g_RecentGlobalDataXmin g = older_slot (replication_slot_xmin (memory n2)) (defer_cleanup (min_global r)) ∧
         (g_RecentGlobalXmin g = g_RecentGlobalDataXmin g ∨
          g_RecentGlobalXmin g = older_slot (replication_slot_catalog_xmin (memory (S n2))) (g_RecentGlobalDataXmin g)))
    | _ => IS_QUERY_DISPATCHER = true → TransactionIdFollows (min_global r) (r_xmin r) = true
    end.

Lemma GetSnapshotData_took malloc context sent snapshotId cid old n :
  wp (GetSnapshotData malloc context sent snapshotId cid old) (took context n) n.
Proof.
  unfold GetSnapshotData. apply proc_bind, wp_read. cbn [next]. set (xmax := TransactionIdAdvance _). apply proc_bind.
  apply (proc_mono _ (λ o n1, (n ≤ n1)%nat ∧ (fails o → context = DTX_CONTEXT_QD_DISTRIBUTED_CAPABLE))).
  { case_bool_decide; [|apply proc_ret; cbn; split; [lia|done]]. pose proof (create_moves snapshotId (ds (distribSnapshotWithLocalMapping old)) (S n)).
    unfold wp, bind, ret. destruct (CreateDistributedSnapshot _ _ _) as [[?| | |] ?]; cbn in *; (split; [lia|done]). }
  intros [[[have d] dxmin]| | |] n1 [Hn1 Ho]; cbn [next]; try (left; split; [done|right; by apply Ho]).
  apply proc_bind. unfold collect_running. apply proc_bind, wp_read. cbn [next].
  destruct (scan_xacts_returns xmax (pgprocnos (memory n1)) (mkRunning xmax xmax [] [] false) (S n1)) as (r & n2 & Er & Hn2).
  apply (wp_is _ _ _ _ _ Er). cbn [next]. apply proc_bind, wp_read. cbn [next]. apply proc_bind, wp_read. cbn [next].
  apply proc_bind, wp_read. cbn [next]. fold (min_global r). apply proc_bind.
  eapply proc_mono; [apply distributed_part_spec|]. intros o n3 [-> Hd].
  destruct o as [[[have' d'] g]| | |]; cbn [next]; try (left; split; [done|]; by destruct Hd; [left|]).
  destruct (TransactionIdFollows g (r_xmin r)) eqn:Ef.
  - apply wp_raise. right. exists n1, r, n2. split_and!; [done..|]. intros Hq. destruct Hd as [?|[= _ _ ->]]; [congruence|done].
  - apply proc_ret. right. exists n1, r, n2. do 5 (split; [done|]). intros Hq.
    destruct Hd as [?|[= _ _ ->]]; [congruence|]. split; [done|]. cbn. destruct (TransactionIdIsNormal _); auto.
Qed.

Lemma min_global_spec r : inside (r_xmin r) → inside (r_globalxmin r) →
  inside (min_global r) ∧ ord (min_global r) ≤ ord (r_xmin r) ∧ ord (min_global r) ≤ ord (r_globalxmin r).
Proof.
  intros ? ?. unfold min_global. rewrite (precedes_ord w) by done.
  destruct (Z.ltb_spec (ord (r_xmin r)) (ord (r_globalxmin r))); split_and!; (done || lia).
Qed.

(** What is true of a snapshot taken from [n] on. *)
Record exact (n n' : nat) (s : SnapshotData) (g : snapshot_globals) : Prop := {
  ex_running : ∀ x, inside x → x ∉ ids (slots (memory n) MyProc) → ¬ ended (memory n) x → XidInMVCCSnapshot_Local x s = true;
  ex_ended : ∀ x, ended (memory n) x → (suboverflowed s = true → ended (memory n) (TopmostTransaction x)) →
    XidInMVCCSnapshot_Local x s = false;
  ex_oldest : oldest (memory n) (snap_xmin s) ∧ oldest (memory n') (snap_xmin s);
  ex_shown : shown_xmin g = snap_xmin s ∨ ∃ k, (n ≤ k < n')%nat ∧ shown_xmin g = xmin_of (slots (memory k) MyProc);
}.

Lemma took_exact context n o n' : took context n o n' → shared_lock n n' →
  match o with
  | Ret (s, g) => exact n n' s g
  | _ => IS_QUERY_DISPATCHER = false ∨ context = DTX_CONTEXT_QD_DISTRIBUTED_CAPABLE
  end.
Proof.
  intros [[Hf Hq]|(n1 & r & n2 & Hn1 & -> & Er & Ho)] Hs; [by destruct o|].
  set (xmax := TransactionIdAdvance (latestCompletedXid (memory n))) in *.
  destruct (xmax_at n) as [Hmax _]. destruct (scan_xacts_returns xmax (pgprocnos (memory n1)) (mkRunning xmax xmax [] [] false) (S n1)) as (? & ? & Er' & Hn2).
  rewrite Er in Er'. injection Er' as <- <-.
  assert (Hs' : ∀ i j, (n ≤ i)%nat → (j ≤ n2)%nat → shared_lock i j) by (intros i j ? ?; apply (shared_lock_part w n (S (S (S n2)))); [done|lia|lia]).
  assert (Hsc : scanned xmax (pgprocnos (memory (S n1))) (mkRunning xmax xmax [] [] false) r (S n1) n2).
  { rewrite (procnos_shared w Hw Hh n1 (S n1)) by (lia || apply Hs'; lia). apply scan_xacts_spec; [done..| |done|apply Hs'; lia].
    by rewrite (procnos_shared w Hw Hh n1 (S n1)) by (lia || apply Hs'; lia). }
  assert (Hold : oldest (memory n) (r_xmin r)) by (apply (xmin_oldest n (S n1) n2); [apply Hs'; lia|lia|done]).
  assert (Hok : IS_QUERY_DISPATCHER = true → TransactionIdFollows (min_global r) (r_xmin r) = true → False).
  { intros _. destruct Hsc as (Hf & _). destruct (fu_xmin _ _ Hf), (fu_global _ _ Hf).
    destruct (min_global_spec r) as (? & ? & ?); [done..|]. rewrite (follows_ord w) by done. rewrite Z.ltb_lt. lia. }
  destruct o as [[s g]| | |]; [|destruct IS_QUERY_DISPATCHER; [exfalso; auto|by left]..].
  destruct Ho as (Hof & Hshown & _). pose proof Hof as (E1 & _). split.
  - intros x Hx Hown Hne. apply (snapshot_holds_running n (S n1) n2 r) ; try done; [apply Hs'; lia|lia].
  - intros x Hx Htop. apply (snapshot_omits_ended n (S n1) n2 r); try done; lia || (apply Hs'; lia).
  - rewrite E1. split; [done|]. apply (oldest_shared w Hw Hh n); [done|lia|done].
  - rewrite Hshown. destruct (negb _); [by left|right]. exists (S (S n2)). split; [lia|done].
Qed.
End Snapshot.

(** C6: a snapshot is as of the moment the lock was taken, although transactions start while the array is
    searched and prepared ones move between entries: for [XidInMVCCSnapshot_Local] every id of another process
    that has not ended by then is running, also those assigned later, and one that has ended is not, unless too many
    subtransactions ran for them to be listed and its topmost transaction still runs; the xmin is the oldest
    running id, and still is when it is shown.  The dispatcher always gets a snapshot if it needs no distributed
    one. *)
Theorem snapshot_exact {denv : DlogEnv} {tenv : TqualEnv} {env : ProcEnv} (w : Z) (malloc : Z → option (list Z))
    (context : DtxContext) (sent : DistributedSnapshot) (snapshotId cid : Z) (old : SnapshotData) (n : nat) :
  normal w → history w →
  wp (GetSnapshotData malloc context sent snapshotId cid old)
    (λ o n', shared_lock w n n' →
       match o with
       | Ret (s, g) => exact w n n' s g
       | _ => IS_QUERY_DISPATCHER = false ∨ context = DTX_CONTEXT_QD_DISTRIBUTED_CAPABLE
       end) n.
Proof. intros Hw Hh. eapply proc_mono; [apply GetSnapshotData_took|]. intros o n' Ht Hs. by apply (took_exact w Hw Hh context n o n'). Qed.
