(* ===== verification/ProcArrayOldest.v ===== *)
(** * The oldest id that matters

    [GetOldestXmin] with [allDbs] set: from then on, whoever looks at a database, or will, sees what committed
    before its result.  Without [allDbs], where transactions of other databases do not count, this is not so and
    nothing is claimed. *)
From S2P Require Import Prelude Proc DistributedSnapshot Slru DistribLog DistribLogRun DistribLogSpec Clog TransAm Varsup LocalDistribXact Dtm Htup ComboCid Tqual ProcArray ProcArrayFacts ProcArrayRun ProcArraySnapshot.

Section Oldest.
Context {denv : DlogEnv} {tenv : TqualEnv} (w : Z) (Hw : normal w) {env : ProcEnv} (Hh : history w).
Implicit Types (a : procarray) (e : proc_entry) (p x : Z).

Notation ord := (ord w).
Notation inside := (inside w).
Notation bound := (bound w).
Notation oldest := (oldest w).
Notation spared := (spared w).
Notation shared_lock := (shared_lock w).

(** The setting does not reach past the window. *)
Definition roomy : Prop :=
  0 ≤ vacuum_defer_cleanup_age ∧
  ∀ n, vacuum_defer_cleanup_age ≤ ord (latestCompletedXid (memory n)) ∧
    ∀ p, p ∈ pgprocnos (memory n) → let e := slots (memory n) p in
      (xid_of e = InvalidTransactionId ∨ vacuum_defer_cleanup_age ≤ ord (xid_of e)) ∧
      (xmin_of e = InvalidTransactionId ∨ vacuum_defer_cleanup_age ≤ ord (xmin_of e)).

Context (Hroom : roomy).

Definition far x : Prop := inside x ∧ vacuum_defer_cleanup_age ≤ ord x.

Lemma earlier_spec x y : x = InvalidTransactionId ∨ far x → far y →
  far (earlier x y) ∧ ord (earlier x y) ≤ ord y ∧ (x = InvalidTransactionId ∨ ord (earlier x y) ≤ ord x).
Proof.
  unfold earlier. intros [->|[Hx Hx']] Hy; [split_and!; [done..|by left]|].
  rewrite (inside_normal w x), (precedes_ord w) by (done || apply Hy). cbn [andb].
  destruct (Z.ltb_spec (ord x) (ord y)); split_and!; try done; lia || (right; lia).
Qed.

Lemma visit_oldest_spec p result n :
  wp (visit_oldest true p result)
    (λ o n', (n ≤ n')%nat ∧ ∃ v, o = Ret v ∧
      (p ∈ pgprocnos (memory n) → far result → shared_lock n n' →
       far v ∧ ord v ≤ ord result ∧ (∀ x, firm (memory n) p x → ord v ≤ ord (xid_of (slots (memory n) p))) ∧
       ∃ k, (n ≤ k ≤ n')%nat ∧ spared v (slots (memory k) p))) n.
Proof.
  unfold visit_oldest. apply proc_bind, wp_read. cbn [next]. destruct (has _ _) eqn:Ed.
  { apply proc_ret. split; [lia|]. exists result. split; [done|]. intros Hp Hf Hs. split_and!; [done..| |exists n; split; [lia|by left]].
    intros x [_ Hd]%(firm_ids w Hw Hh). unfold decodes in Hd. congruence. }
  apply proc_bind, wp_read. cbn [next orb]. apply proc_bind, wp_read. cbn [next]. apply proc_bind, wp_read. cbn [next].
  apply proc_ret. split; [lia|]. eexists. split; [done|]. intros Hp Hf Hs.
  assert (Hin := λ k Hk, entry_stays w Hw Hh n _ p Hs Hp k Hk). destruct Hroom as [Hage Hr].
  set (k2 := S (S n)) in *. set (k3 := S k2) in *.
  assert (Hx : xid_of (slots (memory k2) p) = InvalidTransactionId ∨ far (xid_of (slots (memory k2) p))).
  { specialize (Hin k2 ltac:(lia)). destruct (read_xid w Hw Hh k2 p Hin) as [?|[? _]]; [by left|].
    destruct (proj2 (Hr k2) p Hin) as [[?|?] _]; [by left|by right]. }
  assert (Hm : xmin_of (slots (memory k3) p) = InvalidTransactionId ∨ far (xmin_of (slots (memory k3) p))).
  { specialize (Hin k3 ltac:(lia)). destruct (read_xmin w Hw Hh k3 p Hin) as [?|?]; [by left|].
    destruct (proj2 (Hr k3) p Hin) as [_ [?|?]]; [by left|by right]. }
  destruct (earlier_spec _ _ Hx Hf) as (Hf1 & Hle1 & Hx1). destruct (earlier_spec _ _ Hm Hf1) as (Hf2 & Hle2 & Hm2).
  split_and!; [done|lia| |exists k3; split; [lia|by right]].
  intros x Hfirm. destruct (firm_at w Hw Hh n _ p Hs k2 x) as (Hf' & <- & _); [lia|done|].
  destruct Hx1 as [E|?]; [|lia]. by destruct (firm_ids w Hw Hh k2 p x Hf').
Qed.

Lemma scan_oldest_spec l result n :
  wp (scan_oldest true l result)
    (λ o n', (n ≤ n')%nat ∧ ∃ v, o = Ret v ∧
      (l ⊆ pgprocnos (memory n) → far result → shared_lock n n' →
       far v ∧ ord v ≤ ord result ∧
       ∀ p, p ∈ l → (∀ x, firm (memory n) p x → ord v ≤ ord (xid_of (slots (memory n) p))) ∧
         ∃ k, (n ≤ k ≤ n')%nat ∧ spared v (slots (memory k) p))) n.
Proof.
  induction l as [|p l IH] in result, n |- *; cbn [scan_oldest].
  { apply proc_ret. split; [lia|]. exists result. split; [done|]. intros _ ? _. split_and!; [done..|set_solver]. }
  apply proc_bind. eapply proc_mono; [apply visit_oldest_spec|]. intros o n1 (Hn1 & v1 & -> & Hv). cbn [next].
  eapply proc_mono; [apply IH|]. intros o n2 (Hn2 & v & -> & Hl). split; [lia|]. exists v. split; [done|]. intros Hsub Hf Hs.
  assert (Hs1 : shared_lock n n1) by (apply (shared_lock_part w n n2); [done|lia|lia]).
  destruct Hv as (Hf1 & Hle1 & Hx1 & k & Hk & Hsp); [set_solver|done|done|].
  destruct Hl as (Hf2 & Hle2 & Hl); [rewrite (procnos_shared w Hw Hh n n1) by done; set_solver|done|apply (shared_lock_part w n n2); [done|lia|lia]|].
  split_and!; [done|lia|]. intros q [->|Hq]%elem_of_cons.
  - split; [intros x Hx; specialize (Hx1 x Hx); lia|]. exists k. split; [lia|]. by apply (spared_le w _ v1).
  - destruct (Hl q Hq) as (Hxq & i & Hi & Hspi). split; [|exists i; split; [lia|done]].
    intros x Hx. destruct (firm_shared w Hw Hh n n1 q x Hs1 Hn1 Hx) as (Hfx & <- & _). by apply (Hxq x).
Qed.

(** ** What is subtracted, and replication slots *)

Lemma defer_cleanup_spec x : far x → inside (defer_cleanup x) ∧ ord (defer_cleanup x) ≤ ord x.
Proof.
  intros [[Hx Hx'] Hf]. destruct Hroom as [Hage _]. set (y := u32 (x - vacuum_defer_cleanup_age)).
  assert (Hy : 0 ≤ y < 2 ^ 32 ∧ ord y = ord x - vacuum_defer_cleanup_age).
  { unfold y, u32, ProcArrayFacts.ord, ahead in *. split; [apply Z.mod_pos_bound; lia|]. rewrite Zminus_mod_idemp_l.
    replace (x - vacuum_defer_cleanup_age - w) with ((x - w) - vacuum_defer_cleanup_age) by lia. rewrite <-Zminus_mod_idemp_l.
    apply Z.mod_small. pose proof (Z.mod_pos_bound (x - w) (2 ^ 32)). lia. }
  unfold defer_cleanup. fold y. unfold TransactionIdIsNormal. destruct (Z.leb_spec FirstNormalTransactionId y) as [Hn|Hn].
  - split; [split; [split; lia|lia]|lia].
  - assert (Hle : ord FirstNormalTransactionId ≤ ord x).
    { destruct Hy as [Hy1 Hy2]. unfold ProcArrayFacts.ord, ahead, normal, FirstNormalTransactionId in *.
      Z.to_euclidean_division_equations; lia. }
    split; [split; [by unfold normal, FirstNormalTransactionId|lia]|done].
Qed.

Lemma older_slot_spec s y : s = InvalidTransactionId ∨ inside s → inside y → inside (older_slot s y) ∧ ord (older_slot s y) ≤ ord y.
Proof.
  unfold older_slot. intros [->|Hs] Hy; [done|]. rewrite (normal_precedes_ord w) by (apply Hs || apply Hy).
  destruct (TransactionIdIsValid s); cbn [andb]; [|done]. destruct (Z.ltb_spec (ord s) (ord y)); (split; [done|lia]).
Qed.

(** ** The result *)

(** What holds from [n] on, if the lock was shared up to [n']. *)
Record horizon_at (n n' : nat) (v : Z) : Prop := {
  ho_inside : inside v;
  ho_bound : bound (memory n) v;
  ho_shown : ∀ m p, (n' ≤ m)%nat → p ∈ pgprocnos (memory m) → spared v (slots (memory m) p);
}.

Lemma horizon_le n n' v v' : horizon_at n n' v → inside v' → ord v' ≤ ord v → horizon_at n n' v'.
Proof.
  intros [Hi (_ & Hb1 & Hb2) Hs] Hi' Hle. split; [done|split_and!; [done|lia|]|].
  - intros x Hx. specialize (Hb2 x Hx). lia.
  - intros m p Hm Hp. apply (spared_le w _ v); auto.
Qed.

Lemma local_oldest_spec catalog n :
  wp (GetLocalOldestXmin true catalog) (λ o n', (n ≤ n')%nat ∧ ∃ v, o = Ret v ∧ (shared_lock n n' → horizon_at n n' v)) n.
Proof.
  unfold GetLocalOldestXmin. apply proc_bind, wp_read. cbn [next]. apply proc_bind, wp_read. cbn [next]. apply proc_bind.
  eapply proc_mono; [apply scan_oldest_spec|]. intros o n2 (Hn2 & v0 & -> & Hv). cbn [next].
  apply proc_bind, wp_read. cbn [next]. apply proc_bind, wp_read. cbn [next]. apply proc_ret. split; [lia|]. eexists. split; [done|]. intros Hs.
  assert (Hs' : ∀ i j, (n ≤ i)%nat → (j ≤ S (S n2))%nat → shared_lock i j) by (intros i j ? ?; by apply (shared_lock_part w n (S (S n2)))).
  destruct (xmax_at w Hw Hh n) as [Hmax Hmax']. destruct Hroom as [Hage Hr].
  assert (Ep : ∀ k, (n ≤ k ≤ n2)%nat → pgprocnos (memory k) = pgprocnos (memory n)) by (intros k Hk; apply (procnos_shared w Hw Hh); [apply Hs'; lia|lia]).
  destruct Hv as (Hf & Hle & Hl); [by rewrite (Ep (S n)), (Ep (S (S n))) by lia|split; [done|destruct (Hr n); lia]|apply Hs'; lia|].
  rewrite (Ep (S n)) in Hl by lia.
  assert (Hho : horizon_at n (S (S n2)) v0).
  { assert (Hb : bound (memory n) v0).
    { split_and!; [apply Hf|done|]. intros x (p & Hfirm)%firm_exists. pose proof Hfirm as (Hp & Hx & _).
      destruct (top_first w _ p x (history_good w Hw Hh n) Hp Hx) as (_ & Ht & _).
      destruct (firm_shared w Hw Hh n (S (S n)) p x) as (Hf2 & E & _); [apply Hs'; lia|lia|done|].
      destruct (Hl p Hp) as [H1 _]. specialize (H1 x Hf2). rewrite E in H1. lia. }
    split; [apply Hf|done|]. intros m p Hm. apply (spared_later w Hw Hh v0 n (S (S n2)) m); [done|done|lia|done|].
    intros q Hq. destruct (Hl q Hq) as (_ & k & Hk & Hsp). exists k. split; [lia|done]. }
  pose proof (history_good w Hw Hh n2) as Hg2. pose proof (history_good w Hw Hh (S n2)) as Hg3.
  destruct (defer_cleanup_spec v0 Hf) as [Hi1 Hle1].
  destruct (older_slot_spec (replication_slot_xmin (memory n2)) _ (ag_rep _ _ Hg2) Hi1) as [Hi2 Hle2].
  destruct (older_slot_spec (replication_slot_catalog_xmin (memory (S n2))) _ (ag_rep_catalog _ _ Hg3) Hi2) as [Hi3 Hle3].
  apply (horizon_le _ _ v0); [done|by destruct catalog|destruct catalog; lia].
Qed.

Lemma oldest_spec catalog n :
  (∀ k, dl_oldestXmin (dlog_at k) = InvalidTransactionId ∨ inside (dl_oldestXmin (dlog_at k))) →
  wp (GetOldestXmin true catalog) (λ o n', (n ≤ n')%nat ∧ ∃ v, o = Ret v ∧ (shared_lock n n' → horizon_at n n' v)) n.
Proof.
  intros Hd. unfold GetOldestXmin. apply proc_bind. eapply proc_mono; [apply local_oldest_spec|]. intros o n' (Hn & v & -> & Hv). cbn [next].
  destruct (_ && _); [|apply proc_ret; eauto]. unfold wp, in_dlog, DistributedLog_GetOldestXmin, bind, get, ret. cbn.
  destruct (Hd n') as [->|Hi]; [cbn; eauto|]. destruct (negb _ || _) eqn:E; cbn; [eauto|]. split; [done|]. eexists. split; [done|].
  intros Hs. specialize (Hv Hs). apply (horizon_le _ _ v); [done|done|]. apply orb_false_iff in E as [_ E].
  rewrite (follows_ord w) in E by (done || apply Hv). apply Z.ltb_ge in E. lia.
Qed.

(** A snapshot that is taken later, or at the same time, sees what is before it. *)
Lemma horizon_snapshot n n' v k k' s g x :
  horizon_at n n' v → exact w k k' s g → (n ≤ k)%nat ∨ (k ≤ n)%nat ∧ shared_lock k n →
  inside x → TransactionIdPrecedes x v = true → XidInMVCCSnapshot_Local x s = false.
Proof.
  intros [Hi Hb _] He Hk Hx Hp. destruct (ex_oldest _ _ _ _ _ He) as [Ho _].
  assert (Hle : ord v ≤ ord (snap_xmin s) ∧ inside (snap_xmin s)).
  { destruct Hk as [Hk|[Hk Hs]].
    - destruct (bound_stays w Hw Hh n k v Hk Hb) as (_ & Hl & Hr). destruct Ho as [[? _] [E|E]]; (split; [|done]); [by rewrite E|by apply Hr].
    - apply (oldest_shared w Hw Hh k n _ Hs Hk) in Ho as [[? _] [E|E]]; (split; [|done]); destruct Hb as (_ & Hl & Hr); [by rewrite E|by apply Hr]. }
  rewrite (precedes_ord w) in Hp by done. apply Z.ltb_lt in Hp. unfold XidInMVCCSnapshot_Local.
  rewrite (precedes_ord w x) by (done || apply Hle). by rewrite (proj2 (Z.ltb_lt _ _)) by lia.
Qed.
End Oldest.

