(* ===== verification/ProcArrayProgress.v ===== *)
(** * Running transactions

    The answer of [TransactionIdIsInProgress] while transactions start, and, before and after the array is
    searched, end. *)
From S2P Require Import Prelude Proc DistributedSnapshot Slru DistribLog DistribLogRun DistribLogSpec Clog TransAm Varsup LocalDistribXact Dtm Htup ComboCid Tqual ProcArray ProcArrayFacts ProcArrayRun ProcArraySnapshot.

Section Progress.
Context {tenv : TqualEnv} (w : Z) (Hw : normal w) {env : ProcEnv} (Hh : history w).
Implicit Types (a : procarray) (e : proc_entry) (p x : Z).

Notation ord := (ord w).
Notation inside := (inside w).
Notation bound := (bound w).
Notation ended := (ended w).
Notation shared_lock := (shared_lock w).

(** What the search says of an entry: [x] is one of its ids only if there are more than it has room for. *)
Definition passed x p (n : nat) (xids : list Z) : Prop :=
  p ≠ MyProc → firm (memory n) p x → x ≠ xid_of (slots (memory n) p) ∧ xid_of (slots (memory n) p) ∈ xids.

(** What is collected ran at some moment. *)
Definition collected (n n' : nat) (xids xids' : list Z) : Prop :=
  xids ⊆ xids' ∧ ∀ y, y ∈ xids' → y ∈ xids ∨ ∃ k, (n ≤ k ≤ n')%nat ∧ runs (memory k) y.

Lemma collected_same n n' xids : collected n n' xids xids.
Proof. split; [done|auto]. Qed.

Definition searched x (l : list Z) (n n' : nat) (xids : list Z) (found : bool) (xids' : list Z) : Prop :=
  if found then ∃ k, (n ≤ k ≤ n')%nat ∧ runs (memory k) x
  else collected n n' xids xids' ∧ ∀ p, p ∈ l → passed x p n xids'.

Lemma searched_cons x p l n n1 n' xids xids1 found xids' :
  (n ≤ n1 ≤ n')%nat → shared_lock n n' → collected n n1 xids xids1 → passed x p n xids1 →
  searched x l n1 n' xids1 found xids' → searched x (p :: l) n n' xids found xids'.
Proof.
  intros Hn Hs [Hc1 Hc2] Hp. destruct found; cbn [searched]; [intros (k & Hk & ?); exists k; split; [lia|done]|].
  intros [[Hc3 Hc4] Hl]. split; [split|].
  - set_solver.
  - intros y [Hy|(k & Hk & ?)]%Hc4; [|right; exists k; split; [lia|done]].
    apply Hc2 in Hy as [?|(k & Hk & ?)]; [by left|right; exists k; split; [lia|done]].
  - intros q [->|Hq]%elem_of_cons; intros Hne Hf; [by destruct (Hp Hne Hf); auto|].
    destruct (firm_shared w Hw Hh n n1 q x) as (Hf1 & E & _); [apply (shared_lock_part w n n'); [done|lia|lia]|lia|done|].
    rewrite <-E. by apply Hl.
Qed.

(** An entry whose cache does not have [x]. *)
Lemma not_cached x p n xids (overflowed : bool) :
  shared_lock n (S (S (S n))) → p ∈ pgprocnos (memory n) → xid_of (slots (memory n) p) ≠ x →
  x ∉ cache_of (slots (memory (S n)) p) → overflow_of (slots (memory (S (S n))) p) = overflowed →
  TransactionIdIsValid (xid_of (slots (memory n) p)) = true →
  let xids1 := if overflowed then xids ++ [xid_of (slots (memory n) p)] else xids in
  collected n (S (S (S n))) xids xids1 ∧ passed x p n xids1.
Proof.
  intros Hs Hp Hne Hc Ho Hv xids1. assert (Hr : runs (memory n) (xid_of (slots (memory n) p))).
  { destruct (read_xid w Hw Hh n p Hp) as [E|[_ ?]]; [by rewrite E in Hv|done]. }
  split; [split|].
  - unfold xids1. destruct overflowed; set_solver.
  - intros y. unfold xids1. destruct overflowed; [|auto]. rewrite elem_of_app, list_elem_of_singleton.
    intros [?| ->]; [by left|right; exists n; split; [lia|done]].
  - intros _ Hf. split; [congruence|].
    destruct (firm_at w Hw Hh n _ p Hs (S n) x) as (Hf1 & E1 & _); [lia|done|].
    destruct (firm_shared w Hw Hh (S n) (S (S n)) p x) as (_ & _ & _ & Hov); [apply (shared_lock_part w n (S (S (S n)))); [done|lia|lia]|lia|done|].
    destruct Hf1 as (Hp1 & [_ [?|Hx]]%ids_cons & _); [congruence|].
    destruct (overflow_of (slots (memory (S n)) p)) eqn:Eo.
    + unfold xids1. rewrite <-Ho, Hov by done. set_solver.
    + by apply (so_full _ _ _ (ag_slots _ _ (history_good w Hw Hh (S n)) p Hp1) Eo) in Hx.
Qed.

Lemma scan_running_spec x l xids n :
  inside x →
  wp (scan_running x l xids)
    (λ o n', (n ≤ n')%nat ∧ ∃ found xids', o = Ret (found, xids') ∧
       (l ⊆ pgprocnos (memory n) → shared_lock n n' → searched x l n n' xids found xids')) n.
Proof.
  intros Hx. induction l as [|p l IH] in n, xids |- *; cbn [scan_running].
  { apply proc_ret. split; [lia|]. exists false, xids. split; [done|]. intros _ _. split; [apply collected_same|set_solver]. }
  assert (Hgo : ∀ n1 xids1, (n ≤ n1)%nat →
    (p ∈ pgprocnos (memory n) → shared_lock n n1 → collected n n1 xids xids1 ∧ passed x p n xids1) →
    wp (scan_running x l xids1)
      (λ o n', (n ≤ n')%nat ∧ ∃ found xids', o = Ret (found, xids') ∧
         (p :: l ⊆ pgprocnos (memory n) → shared_lock n n' → searched x (p :: l) n n' xids found xids')) n1).
  { intros n1 xids1 Hn1 H1. eapply proc_mono; [apply IH|]. intros o n' (Hn' & found & xids' & -> & Hl). split; [lia|].
    exists found, xids'. split; [done|]. intros Hsub Hs.
    assert (Hs1 : shared_lock n n1) by (apply (shared_lock_part w n n'); [done|lia|lia]).
    destruct H1 as [Hc Hp]; [set_solver|done|]. apply (searched_cons x p l n n1 n' xids xids1); [lia|done|done|done|].
    apply Hl; [rewrite (procnos_shared w Hw Hh n n1) by done; set_solver|apply (shared_lock_part w n n'); [done|lia|lia]]. }
  assert (Hskip : ∀ n1, (n ≤ n1)%nat → (p ∈ pgprocnos (memory n) → passed x p n xids) → _) by
    (intros n1 Hn1 H1; apply (Hgo n1 xids Hn1); intros Hp _; split; [apply collected_same|by apply H1]).
  destruct (Z.eqb_spec p MyProc) as [E|_]; [by apply Hskip|]. apply proc_bind, wp_read. cbn [next].
  set (X := xid_of (slots (memory n) p)) in *. destruct (TransactionIdIsValid X) eqn:Ev; cbn [negb].
  2:{ apply Hskip; [lia|]. intros Hp _ [Hv _]%(firm_ids w Hw Hh). unfold TransactionIdIsValid in Ev.
      apply negb_false_iff, Z.eqb_eq in Ev. done. }
  destruct (Z.eqb_spec X x) as [E|Hne].
  { apply proc_ret. split; [lia|]. eexists true, _. split; [done|]. intros Hsub _. exists n. split; [lia|]. rewrite <-E.
    destruct (read_xid w Hw Hh n p) as [E0|[_ ?]]; [set_solver| |done]. unfold X in Ev. by rewrite E0 in Ev. }
  destruct (TransactionIdPrecedes x X) eqn:Ep.
  { apply Hskip; [lia|]. intros Hp _ Hf. exfalso. destruct (firm_ids w Hw Hh n p x Hf) as [Hv _].
    destruct (read_xid w Hw Hh n p Hp) as [?|[Hi _]]; [done|]. rewrite (precedes_ord w) in Ep by done. apply Z.ltb_lt in Ep.
    destruct Hf as (_ & Hids & _). destruct (top_first w _ p x (history_good w Hw Hh n) Hp Hids) as (_ & ? & _). unfold X in Ep. lia. }
  apply proc_bind, wp_read. cbn [next]. destruct (existsb _ _) eqn:Ec.
  { apply proc_ret. split; [lia|]. eexists true, _. split; [done|]. intros Hsub Hs. exists (S n). split; [lia|]. apply found_in in Ec.
    assert (Hp1 : p ∈ pgprocnos (memory (S n))) by (apply (entry_stays w Hw Hh n _ p Hs); [set_solver|lia]).
    by apply (cached_runs w Hw Hh (S n) p). }
  apply proc_bind, wp_read. cbn [next]. apply Hgo; [lia|]. intros Hp Hs. apply not_cached; try done.
  by rewrite <-found_in, Ec.
Qed.

(** What the process knows already, and what the logs say: [RecentXmin] comes from a snapshot of its own, and a
    subtransaction that is over before its topmost transaction was rolled back, and marked so before. *)
Record knows (n : nat) x : Prop := {
  kn_recent : bound (memory n) RecentXmin;
  kn_own : x ∈ ids (slots (memory n) MyProc) → TransactionIdIsCurrentTransactionId x = true;
  kn_current : TransactionIdIsCurrentTransactionId x = true → runs (memory n) x;
  kn_rolled_back : ended (memory n) x → TopmostTransaction x ≠ x → (∃ k, (n ≤ k)%nat ∧ runs (memory k) (TopmostTransaction x)) →
    DidAbort x = true;
}.

(** The answers that are right. *)
Definition answers x (n : nat) (b : bool) : Prop :=
  if b then ¬ ended (memory n) x else ended (memory n) x ∨ KnownCompleted x = true ∨ DidAbort x = true.

Lemma searched_earlier x l n k n' found xids' :
  (n ≤ k ≤ n')%nat → shared_lock n n' → searched x l k n' [] found xids' → searched x l n n' [] found xids'.
Proof.
  intros Hk Hs. destruct found; cbn [searched]; [intros (i & Hi & ?); exists i; split; [lia|done]|]. intros [[_ Hc] Hl]. split; [split|].
  - set_solver.
  - intros y [?|(i & Hi & ?)]%Hc; [by left|right; exists i; split; [lia|done]].
  - intros p Hp Hne Hf.
    destruct (firm_shared w Hw Hh n k p x) as (Hfk & <- & _); [apply (shared_lock_part w n n'); [done|lia|lia]|lia|done|]. by apply Hl.
Qed.

(** Not found, so [x] is a subtransaction for which there was no room, or does not run. *)
Lemma not_found x n n' xids :
  x ∉ ids (slots (memory n) MyProc) → searched x (pgprocnos (memory n)) n n' [] false xids → runs (memory n) x →
  TopmostTransaction x ≠ x ∧ TopmostTransaction x ∈ xids.
Proof.
  intros Hown [_ Hl] (p & Hf)%firm_exists. pose proof Hf as (Hp & Hx & _).
  destruct (top_first w _ p x (history_good w Hw Hh n) Hp Hx) as (_ & _ & ->).
  assert (p ≠ MyProc) by (by intros ->). destruct (Hl p Hp) as [? ?]; [done|done|]. by split.
Qed.

Lemma over x n : inside x → ord x ≤ ord (latestCompletedXid (memory n)) → ¬ runs (memory n) x → ended (memory n) x.
Proof.
  intros Hx Hle Hn. split; [split; [done|]|done]. destruct (ag_latest _ _ (history_good w Hw Hh n)). lia.
Qed.

Lemma in_progress_spec x n :
  inside x → knows n x →
  wp (TransactionIdIsInProgress x) (λ o n', ∃ b, o = Ret b ∧ (shared_lock n n' → answers x n b)) n.
Proof.
  intros Hx [Hrec Hown Hcur Hroll]. pose proof (history_good w Hw Hh n) as Hg. destruct (advance_latest w Hw _ Hg) as [Hadv Hadv'].
  unfold TransactionIdIsInProgress. rewrite (precedes_ord w) by (done || apply Hrec).
  destruct (Z.ltb_spec (ord x) (ord RecentXmin)) as [Hlt|_].
  { apply proc_ret. exists false. split; [done|]. intros _. left. destruct Hrec as (Hi & Hl & Hr). split; [split; [done|lia]|].
    intros Hrun. specialize (Hr x Hrun). lia. }
  destruct (KnownCompleted x) eqn:Ek; [apply proc_ret; exists false; split; [done|]; intros _; right; by left|].
  destruct (TransactionIdIsCurrentTransactionId x) eqn:Ec.
  { apply proc_ret. exists true. split; [done|]. intros _ [_ Hn]. by apply Hn, Hcur. }
  assert (Hnown : x ∉ ids (slots (memory n) MyProc)) by (intros ?%Hown; congruence).
  apply proc_bind, wp_read. cbn [next]. rewrite (precedes_ord w) by (done || apply Hg).
  destruct (Z.ltb_spec (ord (latestCompletedXid (memory n))) (ord x)) as [Hlt|Hge].
  { apply proc_ret. exists true. split; [done|]. intros _ He. apply (ag_ended _ _ Hg) in He. lia. }
  apply proc_bind, wp_read. cbn [next]. apply proc_bind. eapply proc_mono; [by apply scan_running_spec|].
  intros o n' (Hn' & found & xids & -> & Hsearch). cbn [next].
  assert (Hs' : shared_lock n n' → searched x (pgprocnos (memory n)) n n' [] found xids).
  { intros Hs. assert (Hpart : ∀ i j, (n ≤ i)%nat → (j ≤ n')%nat → shared_lock i j) by (intros; by apply (shared_lock_part w n n')).
    rewrite (procnos_shared w Hw Hh n (S n)) in Hsearch by (lia || apply Hpart; lia).
    rewrite (procnos_shared w Hw Hh n (S (S n))) in Hsearch by (lia || apply Hpart; lia).
    apply (searched_earlier x _ n (S (S n))); [lia|done|]. apply Hsearch; [done|apply Hpart; lia]. }
  destruct found.
  { apply proc_ret. exists true. split; [done|]. intros Hs He. destruct (Hs' Hs) as (k & Hk & Hrun).
    by destruct (ended_stays w Hw Hh n k x) as [_ ?]; [lia|..]. }
  assert (Hno : shared_lock n n' → (TopmostTransaction x ≠ x → TopmostTransaction x ∉ xids) → ended (memory n) x).
  { intros Hs Ht. apply over; [done|done|]. intros Hrun. destruct (not_found x n n' xids Hnown (Hs' Hs) Hrun) as [Hne Hin]. by apply Ht in Hne. }
  case_bool_decide as Enil.
  { apply proc_ret. exists false. split; [done|]. intros Hs. left. apply Hno; [done|]. rewrite Enil. set_solver. }
  destruct (DidAbort x) eqn:Ea; [apply proc_ret; exists false; split; [done|]; intros _; right; by right|].
  destruct (Z.eqb_spec (TopmostTransaction x) x) as [Et|Hnt]; [apply proc_ret; exists false; split; [done|]; intros Hs; left; by apply Hno|].
  apply proc_ret. eexists. split; [done|]. intros Hs. destruct (existsb _ _) eqn:Ex; cbn [answers].
  - intros He. apply found_in in Ex. apply (Hs' Hs) in Ex as [?|(k & Hk & Hrun)]; [set_solver|].
    enough (false = true) by done. apply Hroll; [done|done|]. exists k. split; [lia|done].
  - left. apply Hno; [done|]. intros _ Hin. apply found_in in Hin. congruence.
Qed.
End Progress.

(** C16: [TransactionIdIsInProgress] returns; its answer yes is given only for an id that had not ended when the lock was
    taken, and its answer no only for one that had, or that the logs know to be over, whether the id is that of a
    transaction, of a subtransaction in the cache, or of one for which the cache had no room. *)
Theorem in_progress_exact {tenv : TqualEnv} {env : ProcEnv} (w x : Z) (n : nat) :
  normal w → history w → inside w x → knows w n x →
  wp (TransactionIdIsInProgress x)
    (λ o n', ∃ b, o = Ret b ∧
       (shared_lock w n n' →
        if (b : bool) then ¬ ended w (memory n) x else ended w (memory n) x ∨ KnownCompleted x = true ∨ DidAbort x = true)) n.
Proof. intros Hw Hh. by apply in_progress_spec. Qed.
