(* ===== verification/ProcArraySample.v ===== *)
(** * The process array: a history

    Five entries: the own process, one that runs transaction 101 with the subtransactions 103 (and 105, for which
    its cache has no room), one without a transaction, and transaction 102, which is prepared and still has the
    entry of its process too.  While the array is searched a transaction starts and that process lets go. *)
From S2P Require Import Prelude Proc DistributedSnapshot DistributedSnapshotFacts Slru DistribLog DistribLogRun DistribLogSpec Clog TransAm Varsup LocalDistribXact Dtm Htup ComboCid Tqual ProcArray ProcArrayFacts ProcArrayRun ProcArraySnapshot ProcArrayOldest ProcArrayProgress.

Module ProcArraySample.
Definition proc0 (i : Z) : PGPROC := mkPGPROC i 1 0 false false LOCALDISTRIBXACT_STATE_NONE.
Definition gx0 (g : Z) : TMGXACT := mkTMGXACT 0 g 0 false 0.
Definition entry (i x : Z) (cache : list Z) (over : bool) (m : Z) (subs : list Z) : proc_entry :=
  mkSlot (proc0 i) (mkPGXACT (mkPgxact x cache over) m 0 false) (gx0 0) subs.

Definition entries (p : Z) : proc_entry :=
  if p =? 2 then entry 12 101 [103] true 101 [103; 105]
  else if p =? 4 then entry 14 102 [] false 0 []
  else if p =? 5 then entry 0 102 [] false 0 []
  else entry (10 + p) 0 [] false 0 [].

Definition array0 : procarray := mkProcArray [1; 2; 3; 4; 5] 8 entries 104 20 106 20 0 0.

Definition events : list event := [Nothing; Nothing; Nothing; Nothing; ShowsXid 3 false; Clears 4; ShowsXmin 1 101].

Definition at_step (n : nat) : procarray := foldl (λ a ev, effect ev a) array0 (take n events).

#[export] Instance sample_dlog_env : DlogEnv := mkDlogEnv 1024 (λ _, IoDone) false false true (λ _, None).
Definition dlog0 : dlog := set_oldestXmin 60 (DistributedLog_ShmemInit ∅ 0 [] 0).

#[export] Instance sample_penv : ProcEnv :=
  mkProcEnv at_step 1 1 100 (λ x, x =? 70) (λ _, false) 5 (λ _, dlog0) 10 true false false 7 0 false.

Definition moment0 : moment := mkMoment (λ _, false) (λ _, false) (λ _, false) (mkLog 3 ∅) None.

#[export] Instance sample_tenv : TqualEnv :=
  mkTqualEnv (λ _, moment0) (λ _, false) (λ _, []) (λ x, if (x =? 103) || (x =? 105) then 101 else x) 4 false true true 20000 2200.

Lemma window_normal : normal 50.
Proof. by vm_compute. Qed.

Lemma small_ord x : 50 ≤ x < 2 ^ 31 → ord 50 x = x - 50.
Proof. intros ?. unfold ord, ahead. apply Z.mod_small. lia. Qed.

Lemma small_inside x : 50 ≤ x < 2 ^ 31 → inside 50 x.
Proof. intros ?. unfold inside. rewrite small_ord by done. unfold normal, FirstNormalTransactionId. lia. Qed.

Lemma ord_small x y : normal x → 50 ≤ y < 2 ^ 31 → ord 50 x < ord 50 y → 50 ≤ x < y.
Proof.
  intros Hx Hy. rewrite (small_ord y) by done. unfold ord, ahead, normal, FirstNormalTransactionId in *.
  Z.to_euclidean_division_equations; lia.
Qed.

Lemma array0_runs x : runs array0 x ↔ x ∈ [101; 103; 105; 102].
Proof.
  unfold runs. split.
  - intros (p & Hp & Hx). cbn in Hp. rewrite !elem_of_cons, elem_of_nil in Hp.
    destruct Hp as [->|[->|[->|[->|[->|[]]]]]]; cbn in Hx; set_solver.
  - intros Hx. rewrite !elem_of_cons, elem_of_nil in Hx.
    destruct Hx as [->|[->|[->|[->|[]]]]]; [exists 2|exists 2|exists 2|exists 4]; (split; [cbn; set_solver|cbn; set_solver]).
Qed.

Lemma array0_bound : bound 50 array0 101.
Proof.
  split_and!; [by apply small_inside|by vm_compute|]. intros x Hx%array0_runs. rewrite !elem_of_cons, elem_of_nil in Hx.
  destruct Hx as [->|[->|[->|[->|[]]]]]; by vm_compute.
Qed.

Lemma assigned0 x : 50 ≤ x < 106 → assigned 50 array0 x.
Proof. intros ?. split; [apply small_inside; lia|]. cbn [array0 next_xid]. rewrite !small_ord; lia. Qed.

Lemma ids_assigned e : forallb (λ x, (50 <=? x) && (x <? 106)) (ids e) = true → ∀ x, x ∈ ids e → assigned 50 array0 x.
Proof.
  intros H x Hx. rewrite forallb_forall in H. apply list_elem_of_In, H, andb_true_iff in Hx as [?%Z.leb_le ?%Z.ltb_lt].
  apply assigned0. lia.
Qed.

Lemma single_ok i x : 50 ≤ x < 106 → TopmostTransaction x = x → slot_ok 50 array0 (entry i x [] false 0 []).
Proof.
  intros Hx Ht. assert (Hv : x ≠ InvalidTransactionId) by (unfold InvalidTransactionId; lia). split; cbn [entry].
  - intros y [_ [->|Hy]]%ids_cons; [by apply assigned0|]. cbn in Hy. set_solver.
  - done.
  - done.
  - intros y Hy. cbn in Hy. set_solver.
  - intros y Hy. cbn in Hy. set_solver.
  - intros _ y Hy. cbn in Hy. set_solver.
  - constructor.
  - done.
  - by left.
Qed.

Lemma array0_slot p : p ∈ pgprocnos array0 → slot_ok 50 array0 (slots array0 p).
Proof.
  cbn [array0 pgprocnos slots]. rewrite !elem_of_cons, elem_of_nil.
  intros [->|[->|[->|[->|[->|[]]]]]]; cbn [entries Z.eqb Pos.eqb]; try (by apply idle_ok); try (by apply single_ok).
  split; cbn [entry].
  - by apply ids_assigned.
  - done.
  - done.
  - intros x Hx. cbn in Hx. rewrite !elem_of_cons, elem_of_nil in Hx. destruct Hx as [->|[->|[]]]; by vm_compute.
  - intros x Hx. cbn in *. set_solver.
  - done.
  - apply NoDup_singleton.
  - done.
  - right. apply array0_bound.
Qed.

Lemma array0_good : array_good 50 array0.
Proof.
  split.
  - cbn. apply (bool_decide_unpack _). by vm_compute.
  - apply array0_slot.
  - by apply small_inside.
  - by apply assigned0.
  - intros x [[Hx Hlt] Hn]. cbn in *. rewrite array0_runs in Hn. apply ord_small in Hlt; [|apply Hx|lia].
    rewrite !small_ord by lia. assert (x ≠ 105) by (intros ->; set_solver). lia.
  - by left.
  - by left.
Qed.

(** ** The steps *)

Lemma starts : moves 50 true array0 (at_step 5).
Proof.
  exists (ShowsXid 3 false). split_and!; [|done|by apply small_inside|done].
  split_and!; [cbn; set_solver|by vm_compute|done|done|done].
Qed.

Lemma lets_go : moves 50 true (at_step 5) (at_step 6).
Proof.
  exists (Clears 4). split_and!; [|done|by apply small_inside|done].
  split_and!; [cbn; set_solver|by vm_compute|]. exists 5. split_and!; [cbn; set_solver|done|done].
Qed.

Lemma good5 : array_good 50 (at_step 5) ∧ bound 50 (at_step 5) 101.
Proof.
  destruct (moves_keeps 50 window_normal true _ _ array0_good starts) as [He Hg]. split; [done|].
  by apply (bound_evolves 50 window_normal array0); [apply array0_good| |apply array0_bound].
Qed.

Lemma good6 : array_good 50 (at_step 6) ∧ bound 50 (at_step 6) 101.
Proof.
  destruct good5 as [Hg Hb]. destruct (moves_keeps 50 window_normal true _ _ Hg lets_go) as [He Hg6]. split; [done|].
  by apply (bound_evolves 50 window_normal (at_step 5)).
Qed.

Lemma shows : moves 50 true (at_step 6) (at_step 7).
Proof.
  exists (ShowsXmin 1 101). split_and!; [|done|by apply small_inside|done].
  split_and!; [cbn; set_solver|by vm_compute|]. right. split; [apply good6|]. right. exists 2. split; [cbn; set_solver|].
  apply ids_cons. split; [done|by left].
Qed.

Lemma step_moves n : rtc (moves 50 true) (at_step n) (at_step (S n)).
Proof.
  destruct (decide (n ≤ 3)%nat) as [Hn|Hn].
  { assert (E : at_step n = array0 ∧ at_step (S n) = array0) by (by destruct n as [|[|[|[|n]]]]; [..|lia]).
    destruct E as [-> ->]. apply rtc_refl. }
  destruct (decide (n = 4%nat)) as [->|]; [apply rtc_once, starts|].
  destruct (decide (n = 5%nat)) as [->|]; [apply rtc_once, lets_go|].
  destruct (decide (n = 6%nat)) as [->|]; [apply rtc_once, shows|].
  assert (E : ∀ k, (7 ≤ k)%nat → at_step k = at_step 7) by (intros k Hk; unfold at_step; by rewrite !take_ge by (cbn; lia)).
  rewrite (E n), (E (S n)) by lia. apply rtc_refl.
Qed.

Lemma sample_history : history 50.
Proof.
  split; [apply array0_good|]. intros n. eapply rtc_subrel; [|apply step_moves].
  intros a a' (ev & ? & _ & ? & ?). by exists ev.
Qed.

Lemma sample_shared n m : shared_lock 50 n m.
Proof. intros k _. apply step_moves. Qed.

(** ** The theorems at this history *)

Definition ds0 : DistributedSnapshot := mkDS 0 0 0 0 0 0 0 None.
Definition old0 : SnapshotData := mkSnapshot 0 0 [] [] false false false 0 (mkDslm ds0 0 0 0 0 []).
Definition take_snapshot : proc nat (SnapshotData * snapshot_globals) :=
  GetSnapshotData (λ _, None) DTX_CONTEXT_LOCAL_ONLY ds0 1 0 old0.

Definition taken0 : SnapshotData * snapshot_globals :=
  match (take_snapshot 0%nat).1 with Ret r => r | _ => (old0, mkGlobals 0 None 0 0 0) end.

Lemma taken_run : take_snapshot 0%nat = (Ret (taken0.1, taken0.2), 21%nat).
Proof. vm_compute. reflexivity. Qed.

(** 105 and 106 are behind the snapshot, 102 and 103 run, 104 is over. *)
Lemma snapshot_exact_witness :
  exact 50 0%nat 21%nat taken0.1 taken0.2 ∧ snap_xmin taken0.1 = 101 ∧
  map (λ x, XidInMVCCSnapshot_Local x taken0.1) [100; 101; 102; 103; 104; 105; 106] = [false; true; true; true; false; true; true].
Proof.
  split_and!; [|vm_compute; reflexivity|vm_compute; reflexivity].
  exact (wp_run _ _ _ _ _ (snapshot_exact 50 (λ _, None) DTX_CONTEXT_LOCAL_ONLY ds0 1 0 old0 0%nat window_normal sample_history)
    taken_run (sample_shared _ _)).
Defined.

(** Every id that is shown is one of the last. *)
Definition late (x : Z) : bool := (x =? InvalidTransactionId) || ((101 <=? x) && (x <? 200)).

Lemma late_spec x : late x = true → x = InvalidTransactionId ∨ 5 ≤ ord 50 x.
Proof.
  unfold late. intros [?%Z.eqb_eq|[?%Z.leb_le ?%Z.ltb_lt]%andb_true_iff]%orb_true_iff; [by left|right]. rewrite small_ord; lia.
Qed.

Definition all_late (a : procarray) : bool :=
  late (latestCompletedXid a) && forallb (λ p, late (xid_of (slots a p)) && late (xmin_of (slots a p))) (pgprocnos a).

Lemma steps_late n : all_late (at_step n) = true.
Proof.
  assert (E : ∃ k, k ∈ seq 0 8 ∧ at_step n = at_step k).
  { destruct (decide (n < 8)%nat); [exists n; split; [apply elem_of_seq; lia|done]|]. exists 7%nat. split; [apply elem_of_seq; lia|].
    unfold at_step. by rewrite !take_ge by (cbn; lia). }
  destruct E as (k & Hk & ->). assert (H : forallb (λ k, all_late (at_step k)) (seq 0 8) = true) by (vm_compute; reflexivity).
  rewrite forallb_forall in H. by apply H, list_elem_of_In.
Qed.

Lemma sample_roomy : roomy 50.
Proof.
  split; [by vm_compute|]. intros n. pose proof (steps_late n) as [Hl Hs]%andb_true_iff. split.
  - destruct (late_spec _ Hl) as [E|?]; [|done].
    destruct (ag_latest _ _ (history_good 50 window_normal sample_history n)) as [[Hn _] _]. by apply normal_not_invalid in Hn.
  - intros p Hp. rewrite forallb_forall in Hs. apply list_elem_of_In, Hs, andb_true_iff in Hp as [H1 H2].
    split; by apply late_spec.
Qed.


(** 103 is in the cache, 105 is not, and runs; 104 and 70 are over. *)
Lemma sample_knows x : runs array0 x ∨ 102 ≤ x < 105 → knows 50 0%nat x.
Proof.
  intros Hx. split.
  - split_and!; [by apply small_inside|by vm_compute|]. intros y Hy%array0_runs. cbn. rewrite !elem_of_cons, elem_of_nil in Hy.
    destruct Hy as [->|[->|[->|[->|[]]]]]; by vm_compute.
  - cbn. set_solver.
  - done.
  - intros [_ Hn] Ht _. exfalso. apply Hn. apply array0_runs. cbn in Ht. revert Ht.
    destruct (Z.eqb_spec x 103) as [->|]; [set_solver|]. destruct (Z.eqb_spec x 105) as [->|]; [set_solver|done].
Qed.

Lemma in_progress_exact_witness :
  wp (TransactionIdIsInProgress 105) (λ o n', o = Ret true ∧ ¬ ended 50 array0 105) 0%nat ∧
  wp (TransactionIdIsInProgress 104) (λ o n', o = Ret false ∧ ended 50 array0 104) 0%nat.
Proof.
  pose proof (in_progress_exact 50 105 0%nat window_normal sample_history) as H5.
  pose proof (in_progress_exact 50 104 0%nat window_normal sample_history) as H4. unfold wp in *.
  assert (E5 : (TransactionIdIsInProgress 105 0%nat).1 = Ret true) by (vm_compute; reflexivity).
  assert (E4 : (TransactionIdIsInProgress 104 0%nat).1 = Ret false) by (vm_compute; reflexivity). rewrite E5 in *. rewrite E4 in *. split.
  - split; [done|]. destruct H5 as (b & [= <-] & H); [by apply small_inside|apply sample_knows; left; apply array0_runs; set_solver|].
    apply H, sample_shared.
  - split; [done|]. destruct H4 as (b & [= <-] & H); [by apply small_inside|apply sample_knows; right; lia|].
    destruct (H (sample_shared _ _)) as [?|[[=]|[=]]]. done.
Defined.
End ProcArraySample.

(** ** Distributed ids that are assigned during the search *)

Module GxidRace.
Import ProcArraySample.

(** Two processes start distributed transactions, the first one after its entry was read. *)
Definition gxid_events : list event := replicate 6 Nothing ++ [AssignsGxid 2; AssignsGxid 4].
Definition at_gxid (n : nat) : procarray := foldl (λ a ev, effect ev a) array0 (take n gxid_events).

Definition race_env : ProcEnv :=
  mkProcEnv at_gxid 1 1 100 (λ _, false) (λ _, false) 0 (λ _, dlog0) 10 true false false 7 0 false.

Lemma gxid_moves n : rtc (moves 50 true) (at_gxid n) (at_gxid (S n)).
Proof.
  destruct (decide (n < 6)%nat) as [Hn|Hn].
  { assert (E : at_gxid n = array0 ∧ at_gxid (S n) = array0) by (by destruct n as [|[|[|[|[|[|n]]]]]]; [..|lia]).
    destruct E as [-> ->]. apply rtc_refl. }
  destruct (decide (n = 6%nat)) as [->|]; [apply rtc_once; exists (AssignsGxid 2); split_and!; [done|done|by apply small_inside|done]|].
  destruct (decide (n = 7%nat)) as [->|]; [apply rtc_once; exists (AssignsGxid 4); split_and!; [done|done|by apply small_inside|done]|].
  assert (E : ∀ k, (8 ≤ k)%nat → at_gxid k = at_gxid 8) by (intros k Hk; unfold at_gxid; by rewrite !take_ge by (cbn; lia)).
  rewrite (E n), (E (S n)) by lia. apply rtc_refl.
Qed.

Definition ds10 : DistributedSnapshot := mkDS 0 0 0 0 0 0 10 (Some []).
Definition race_taken : DistributedSnapshot * Z :=
  match (@CreateDistributedSnapshot race_env 1 ds10 0%nat).1 with Ret r => r | _ => (ds10, 0) end.
Definition race_log : DistributedLog := mkLog 3 {[200 := mkLogEntry 7 21]}.

(** C34: while a distributed snapshot is created, with the lock shared as it is, a process whose entry was read
    already takes a distributed id, and another one the next: the snapshot has the second as its xmax, so the first
    transaction, which runs, counts as over for it, and once it commits on a segment its rows there are visible. *)
Theorem dsnap_misses_running :
  ∃ (env : ProcEnv) (d : DistributedSnapshot) (dxmin : Z) (n : nat) (p g : Z) (log : DistributedLog) m c,
    history 50 ∧ shared_lock 50 0 n ∧
    CreateDistributedSnapshot 1 ds10 0%nat = (Ret (d, dxmin), n) ∧
    p ∈ pgprocnos (memory n) ∧ g_gxid (s_gxact (slots (memory n) p)) = g ∧ latestCompletedDxid (memory n) < g < DistributedSnapshot.xmax d ∧
    log_committed_check log 200 = Ok (Some (distribTransactionTimeStamp d, g)) ∧
    DistributedSnapshotWithLocalMapping_CommittedTest 4 log (mkDslm d 0 0 0 0 []) LocalDistribXactCache_init 200 false
      = Ok (DISTRIBUTEDSNAPSHOT_COMMITTED_VISIBLE, m, c).
Proof.
  exists race_env, race_taken.1, race_taken.2, 13%nat, 2, 21, race_log. eexists _, _.
  split; [split; [apply array0_good|]|].
  { intros n. eapply rtc_subrel; [|apply gxid_moves]. intros a a' (ev & ? & _ & ? & ?). by exists ev. }
  split; [intros k _; apply gxid_moves|]. split; [vm_compute; reflexivity|]. split; [cbn; set_solver|].
  split; [vm_compute; reflexivity|]. split; [vm_compute; done|]. split; vm_compute; reflexivity.
Qed.
End GxidRace.
