(* ===== verification/Standby.v ===== *)
(** * Transactions of the primary on a standby ([storage/ipc/procarray.c], [utils/adt/xid.c])

    A standby replays the log of its primary.  No process of its own has transactions, so it keeps the ids
    that run on the primary in an array: in the order in which they were assigned, with gaps where a
    transaction has ended, between a tail and a head.  Only the startup process changes it.  What it does to
    the array and to the shared variables when it replays a record is in the second part: ids that are
    observed, transactions that end, subtransactions that are reported, and the list of running
    transactions by which the standby gets its first snapshot.

    The arrays of ids and of marks have the same index, so a cell is a pair.  What the server asks of its
    logs is in [StandbyLog]; the subtransaction log is that of [SubTrans].  Locks of replayed transactions
    ([StandbyReleaseOldLocks]) are not part of the state. *)
From stdpp Require Import sorting.
From S2P Require Import Prelude Proc DistributedSnapshot Slru DistribLog Clog SubTrans TransAm.

Class KnownEnv := mkKnownEnv { PROCARRAY_MAXPROCS : Z }.

(** What the server answers at some time of the transactions that are prepared ([twophase.c]), and of those
    that have committed and aborted ([TransAm]). *)
Class StandbyLog := mkStandbyLog {
  StandbyTransactionIdIsPrepared : Z → bool;
  StandbyDidCommit : Z → bool;
  StandbyDidAbort : Z → bool;
}.

(** [cells]: [KnownAssignedXids] with [KnownAssignedXidsValid]. *)
Record known := mkKnown {
  cells : list (Z * bool);
  maxKnownAssignedXids : Z;
  numKnownAssignedXids : Z;
  tailKnownAssignedXids : nat;
  headKnownAssignedXids : nat;
}.

Definition known_init (n : nat) : known := mkKnown (replicate n (0, false)) (Z.of_nat n) 0 0 0.

Section KnownXids.
Context {kenv : KnownEnv} {slog : StandbyLog}.

(** ** The array *)

(** [n] cells from [i] on are read, those that are valid are written from [j] on. *)
Fixpoint compress_cells (n i j : nat) (c : list (Z * bool)) : list (Z * bool) * nat :=
  match n with
  | O => (c, j)
  | S n =>
      match c !! i with
      | Some (x, true) => compress_cells n (S i) (S j) (<[j := (x, true)]> c)
      | _ => compress_cells n (S i) j c
      end
  end.

Definition KnownAssignedXidsCompress (force : bool) (k : known) : known :=
  let head := headKnownAssignedXids k in
  let tail := tailKnownAssignedXids k in
  let nelements := Z.of_nat head - Z.of_nat tail in
  if negb force && ((nelements <? 4 * PROCARRAY_MAXPROCS) || (nelements <? 2 * numKnownAssignedXids k)) then k
  else
    let '(c, compress_index) := compress_cells (head - tail) tail 0 (cells k) in
    mkKnown c (maxKnownAssignedXids k) (numKnownAssignedXids k) 0 compress_index.

(** The ids that follow [next_xid], up to [to_xid]; [fuel] bounds them. *)
Fixpoint count_xids (fuel : nat) (next_xid to_xid : Z) : nat :=
  match fuel with
  | O => O
  | S fuel => if TransactionIdPrecedes next_xid to_xid then S (count_xids fuel (TransactionIdAdvance next_xid) to_xid) else O
  end.

Definition nxids (from_xid to_xid : Z) : nat :=
  if from_xid <=? to_xid then Z.to_nat (to_xid - from_xid + 1)
  else S (count_xids (Z.to_nat (u32 (to_xid - from_xid))) from_xid to_xid).

Fixpoint insert_xids (n : nat) (next_xid : Z) (i : nat) (c : list (Z * bool)) : list (Z * bool) :=
  match n with
  | O => c
  | S n => insert_xids n (TransactionIdAdvance next_xid) (S i) (<[i := (next_xid, true)]> c)
  end.

(** The last cell, if there is one, holds an id that is not before [from_xid]. *)
Definition out_of_order (from_xid : Z) (k : known) : bool :=
  (tailKnownAssignedXids k <? headKnownAssignedXids k)%nat &&
  match cells k !! (headKnownAssignedXids k - 1)%nat with
  | Some (x, _) => TransactionIdFollowsOrEquals x from_xid
  | None => false
  end.

Definition append_xids (n : nat) (from_xid : Z) (k : known) : known :=
  mkKnown (insert_xids n from_xid (headKnownAssignedXids k) (cells k)) (maxKnownAssignedXids k)
    (numKnownAssignedXids k + Z.of_nat n) (tailKnownAssignedXids k) (headKnownAssignedXids k + n).

Definition KnownAssignedXidsAdd (from_xid to_xid : Z) : proc known unit :=
  let n := nxids from_xid to_xid in
  k <- get;;
  if out_of_order from_xid k then raise ERROR
  else
    (if maxKnownAssignedXids k <? Z.of_nat (headKnownAssignedXids k + n)
     then
       modify (KnownAssignedXidsCompress true);;
       k <- get;;
       if maxKnownAssignedXids k <? Z.of_nat (headKnownAssignedXids k + n) then raise ERROR else ret tt
     else ret tt);;
    modify (append_xids n from_xid).

(** The binary search. *)
Fixpoint search_cells (fuel : nat) (xid first last : Z) (c : list (Z * bool)) : option nat :=
  match fuel with
  | O => None
  | S fuel =>
      if last <? first then None
      else
        let mid_index := (first + last) / 2 in
        match c !! Z.to_nat mid_index with
        | Some (mid_xid, _) =>
            if xid =? mid_xid then Some (Z.to_nat mid_index)
            else if TransactionIdPrecedes xid mid_xid then search_cells fuel xid first (mid_index - 1) c
            else search_cells fuel xid (mid_index + 1) last c
        | None => None
        end
  end.

(** The first of the [n] cells from [i] on that is valid, or the one behind them. *)
Fixpoint first_valid (n i : nat) (c : list (Z * bool)) : nat :=
  match n with
  | O => i
  | S n => match c !! i with Some (_, true) => i | _ => first_valid n (S i) c end
  end.

(** The pointers after cells at the tail have become invalid. *)
Definition move_tail (i : nat) (c : list (Z * bool)) (num : Z) (k : known) : known :=
  if (headKnownAssignedXids k <=? i)%nat then mkKnown c (maxKnownAssignedXids k) num 0 0
  else mkKnown c (maxKnownAssignedXids k) num i (headKnownAssignedXids k).

Definition KnownAssignedXidsSearch (xid : Z) (remove : bool) (k : known) : bool * known :=
  let head := headKnownAssignedXids k in
  let tail := tailKnownAssignedXids k in
  match search_cells (S (head - tail)) xid (Z.of_nat tail) (Z.of_nat head - 1) (cells k) with
  | None => (false, k)
  | Some i =>
      match cells k !! i with
      | Some (x, true) =>
          (true,
           if remove then
             let c := <[i := (x, false)]> (cells k) in
             let num := numKnownAssignedXids k - 1 in
             if (i =? tail)%nat then move_tail (first_valid (head - S tail) (S tail) c) c num k
             else mkKnown c (maxKnownAssignedXids k) num tail head
           else k)
      | _ => (false, k)
      end
  end.

Definition KnownAssignedXidExists (xid : Z) (k : known) : bool := (KnownAssignedXidsSearch xid false k).1.

Definition KnownAssignedXidsRemove (xid : Z) (k : known) : known := (KnownAssignedXidsSearch xid true k).2.

Definition KnownAssignedXidsRemoveTree (xid : Z) (subxids : list Z) (k : known) : known :=
  let k := if TransactionIdIsValid xid then KnownAssignedXidsRemove xid k else k in
  KnownAssignedXidsCompress false (foldl (λ k x, KnownAssignedXidsRemove x k) k subxids).

(** Of [n] cells from [i] on those before [removeXid] become invalid; how many. *)
Fixpoint prune_cells (n i : nat) (removeXid : Z) (c : list (Z * bool)) : list (Z * bool) * Z :=
  match n with
  | O => (c, 0)
  | S n =>
      match c !! i with
      | Some (x, true) =>
          if TransactionIdFollowsOrEquals x removeXid then (c, 0)
          else if negb (StandbyTransactionIdIsPrepared x) then
            let '(c, count) := prune_cells n (S i) removeXid (<[i := (x, false)]> c) in (c, count + 1)
          else prune_cells n (S i) removeXid c
      | _ => prune_cells n (S i) removeXid c
      end
  end.

Definition KnownAssignedXidsReset (k : known) : known := mkKnown (cells k) (maxKnownAssignedXids k) 0 0 0.

Definition KnownAssignedXidsRemovePreceding (removeXid : Z) (k : known) : known :=
  if negb (TransactionIdIsValid removeXid) then KnownAssignedXidsReset k
  else
    let head := headKnownAssignedXids k in
    let tail := tailKnownAssignedXids k in
    let '(c, count) := prune_cells (head - tail) tail removeXid (cells k) in
    KnownAssignedXidsCompress false (move_tail (first_valid (head - tail) tail c) c (numKnownAssignedXids k - count) k).

(** The ids found, with those found before in [xarray], and the xmin. *)
Fixpoint get_cells (n i : nat) (xmax : Z) (c : list (Z * bool)) (xarray : list Z) (xmin : Z) : list Z * Z :=
  match n with
  | O => (xarray, xmin)
  | S n =>
      match c !! i with
      | Some (knownXid, true) =>
          let xmin := if bool_decide (xarray = []) && TransactionIdPrecedes knownXid xmin then knownXid else xmin in
          if TransactionIdIsValid xmax && TransactionIdFollowsOrEquals knownXid xmax then (xarray, xmin)
          else get_cells n (S i) xmax c (xarray ++ [knownXid]) xmin
      | _ => get_cells n (S i) xmax c xarray xmin
      end
  end.

Definition KnownAssignedXidsGetAndSetXmin (xmin xmax : Z) (k : known) : list Z * Z :=
  get_cells (headKnownAssignedXids k - tailKnownAssignedXids k) (tailKnownAssignedXids k) xmax (cells k) [] xmin.

Definition KnownAssignedXidsGet (xmax : Z) (k : known) : list Z := (KnownAssignedXidsGetAndSetXmin InvalidTransactionId xmax k).1.

Definition KnownAssignedXidsGetOldestXmin (k : known) : Z :=
  let head := headKnownAssignedXids k in
  let tail := tailKnownAssignedXids k in
  let i := first_valid (head - tail) tail (cells k) in
  if (i <? head)%nat then match cells k !! i with Some (x, _) => x | None => InvalidTransactionId end else InvalidTransactionId.


End KnownXids.

(** ** The standby *)

Inductive HotStandbyState := STANDBY_DISABLED | STANDBY_INITIALIZED | STANDBY_SNAPSHOT_PENDING | STANDBY_SNAPSHOT_READY.

#[global] Instance HotStandbyState_eq_dec : EqDecision HotStandbyState.
Proof. solve_decision. Defined.

(** [xids]: the [xcnt] transactions and behind them the subtransactions. *)
Record RunningTransactionsData := mkRunningXacts {
  xcnt : Z;
  subxid_overflow : bool;
  r_nextXid : Z;
  oldestRunningXid : Z;
  r_latestCompletedXid : Z;
  xids : list Z;
}.

Record standby := mkStandby {
  known_xids : known;
  sb_subtrans : slru sub_page;
  standbyState : HotStandbyState;
  latestObservedXid : Z;
  standbySnapshotPendingXmin : Z;
  lastOverflowedXid : Z;
  sb_latestCompletedXid : Z;
  sb_nextXid : Z;
}.

Definition with_known (k : known) (s : standby) : standby :=
  mkStandby k (sb_subtrans s) (standbyState s) (latestObservedXid s) (standbySnapshotPendingXmin s) (lastOverflowedXid s)
    (sb_latestCompletedXid s) (sb_nextXid s).
Definition with_subtrans (t : slru sub_page) (s : standby) : standby :=
  mkStandby (known_xids s) t (standbyState s) (latestObservedXid s) (standbySnapshotPendingXmin s) (lastOverflowedXid s)
    (sb_latestCompletedXid s) (sb_nextXid s).

Definition on_known {A} (m : proc known A) : proc standby A := λ s, let '(o, k) := m (known_xids s) in (o, with_known k s).
Definition on_subtrans {A} (m : proc (slru sub_page) A) : proc standby A := λ s, let '(o, t) := m (sb_subtrans s) in (o, with_subtrans t s).

Definition set_state (st : HotStandbyState) (s : standby) : standby :=
  mkStandby (known_xids s) (sb_subtrans s) st (latestObservedXid s) (standbySnapshotPendingXmin s) (lastOverflowedXid s)
    (sb_latestCompletedXid s) (sb_nextXid s).
Definition set_observed (x : Z) (s : standby) : standby :=
  mkStandby (known_xids s) (sb_subtrans s) (standbyState s) x (standbySnapshotPendingXmin s) (lastOverflowedXid s)
    (sb_latestCompletedXid s) (sb_nextXid s).
Definition set_pending (x : Z) (s : standby) : standby :=
  mkStandby (known_xids s) (sb_subtrans s) (standbyState s) (latestObservedXid s) x (lastOverflowedXid s)
    (sb_latestCompletedXid s) (sb_nextXid s).
Definition set_overflowed (x : Z) (s : standby) : standby :=
  mkStandby (known_xids s) (sb_subtrans s) (standbyState s) (latestObservedXid s) (standbySnapshotPendingXmin s) x
    (sb_latestCompletedXid s) (sb_nextXid s).
Definition set_completed (x : Z) (s : standby) : standby :=
  mkStandby (known_xids s) (sb_subtrans s) (standbyState s) (latestObservedXid s) (standbySnapshotPendingXmin s) (lastOverflowedXid s)
    x (sb_nextXid s).
Definition set_next (x : Z) (s : standby) : standby :=
  mkStandby (known_xids s) (sb_subtrans s) (standbyState s) (latestObservedXid s) (standbySnapshotPendingXmin s) (lastOverflowedXid s)
    (sb_latestCompletedXid s) x.

(** ** The order of the sort *)

Definition xidComparator (xid1 xid2 : Z) : Z := if xid2 <? xid1 then 1 else if xid1 <? xid2 then -1 else 0.

Definition xid_sorts (xid1 xid2 : Z) : Prop := xidComparator xid1 xid2 ≤ 0.

#[global] Instance xid_sorts_dec x y : Decision (xid_sorts x y).
Proof. unfold xid_sorts. apply _. Defined.

Section Standby.
Context {env : TransamEnv} {kenv : KnownEnv} {slog : StandbyLog}.

Definition ProcArrayInitRecovery (initializedUptoXID : Z) (s : standby) : standby :=
  set_observed (TransactionIdRetreat initializedUptoXID) s.

(** ** Ids and ends of transactions *)

(** The entries of the subtransaction log for the ids that follow [next_expected_xid], up to [xid]; [fuel] bounds them. *)
Fixpoint extend_after (fuel : nat) (next_expected_xid xid : Z) : proc standby unit :=
  match fuel with
  | O => raise PANIC
  | S fuel =>
      if TransactionIdPrecedes next_expected_xid xid then
        let next_expected_xid := TransactionIdAdvance next_expected_xid in
        on_subtrans (ExtendSUBTRANS next_expected_xid);;
        extend_after fuel next_expected_xid xid
      else ret tt
  end.

Definition RecordKnownAssignedTransactionIds (xid : Z) : proc standby unit :=
  s <- get;;
  let observed := latestObservedXid s in
  if TransactionIdFollows xid observed then
    extend_after (S (Z.to_nat (u32 (xid - observed)))) observed xid;;
    if bool_decide (standbyState s = STANDBY_DISABLED ∨ standbyState s = STANDBY_INITIALIZED) then modify (set_observed xid)
    else
      on_known (KnownAssignedXidsAdd (TransactionIdAdvance observed) xid);;
      modify (set_observed xid);;
      modify (set_next (TransactionIdAdvance xid))
  else ret tt.

Definition ExpireTreeKnownAssignedTransactionIds (xid : Z) (subxids : list Z) (max_xid : Z) : proc standby unit :=
  on_known (modify (KnownAssignedXidsRemoveTree xid subxids));;
  modify (λ s, if TransactionIdPrecedes (sb_latestCompletedXid s) max_xid then set_completed max_xid s else s).

Definition ExpireAllKnownAssignedTransactionIds : proc standby unit :=
  on_known (modify (KnownAssignedXidsRemovePreceding InvalidTransactionId)).

Definition ExpireOldKnownAssignedTransactionIds (xid : Z) : proc standby unit :=
  on_known (modify (KnownAssignedXidsRemovePreceding xid)).

Fixpoint set_parents (topxid : Z) (subxids : list Z) : proc standby unit :=
  match subxids with
  | [] => ret tt
  | x :: subxids => on_subtrans (SubTransSetParent x topxid);; set_parents topxid subxids
  end.

Definition ProcArrayApplyXidAssignment (topxid : Z) (subxids : list Z) : proc standby unit :=
  let max_xid := TransactionIdLatest topxid subxids in
  RecordKnownAssignedTransactionIds max_xid;;
  set_parents topxid subxids;;
  s <- get;;
  if bool_decide (standbyState s = STANDBY_INITIALIZED) then ret tt
  else
    on_known (modify (KnownAssignedXidsRemoveTree InvalidTransactionId subxids));;
    modify (λ s, if TransactionIdPrecedes (lastOverflowedXid s) max_xid then set_overflowed max_xid s else s).

(** ** The running transactions *)

(** The ids of the list that have not ended. *)
Definition not_completed (l : list Z) : list Z := filter (λ xid, StandbyDidCommit xid || StandbyDidAbort xid = false) l.

(** [prev]: the id in front, for those that are listed twice. *)
Fixpoint add_each (prev : option Z) (l : list Z) : proc known unit :=
  match l with
  | [] => ret tt
  | x :: l => (if bool_decide (prev = Some x) then ret tt else KnownAssignedXidsAdd x x);; add_each (Some x) l
  end.

Definition add_running (l : list Z) : proc known unit :=
  if bool_decide (l = []) then ret tt
  else
    k <- get;;
    if negb (numKnownAssignedXids k =? 0) then raise ERROR
    else add_each None (merge_sort xid_sorts l).

(** [latestObservedXid] goes up to [nextXid]; [fuel] bounds the ids. *)
Fixpoint extend_upto (fuel : nat) (nextXid : Z) : proc standby unit :=
  match fuel with
  | O => raise PANIC
  | S fuel =>
      s <- get;;
      if TransactionIdPrecedes (latestObservedXid s) nextXid then
        on_subtrans (ExtendSUBTRANS (latestObservedXid s));;
        modify (λ s, set_observed (TransactionIdAdvance (latestObservedXid s)) s);;
        extend_upto fuel nextXid
      else ret tt
  end.

Definition observe_running (nextXid : Z) : proc standby unit :=
  modify (λ s, set_observed (TransactionIdAdvance (latestObservedXid s)) s);;
  s <- get;;
  extend_upto (S (Z.to_nat (u32 (nextXid - latestObservedXid s)))) nextXid;;
  modify (λ s, set_observed (TransactionIdRetreat (latestObservedXid s)) s).

(** From the list in the record to the first snapshot. *)
Definition initialise_running (running : RunningTransactionsData) : proc standby unit :=
  on_known (add_running (not_completed (xids running)));;
  observe_running (r_nextXid running);;
  modify (λ s, if subxid_overflow running
    then set_overflowed (latestObservedXid s) (set_pending (latestObservedXid s) (set_state STANDBY_SNAPSHOT_PENDING s))
    else set_pending InvalidTransactionId (set_state STANDBY_SNAPSHOT_READY s));;
  modify (λ s, if TransactionIdPrecedes (sb_latestCompletedXid s) (r_latestCompletedXid running)
    then set_completed (r_latestCompletedXid running) s else s);;
  modify (λ s, let nextXid := TransactionIdAdvance (latestObservedXid s) in
    if TransactionIdFollows nextXid (sb_nextXid s) then set_next nextXid s else s).

Definition ProcArrayApplyRecoveryInfo (running : RunningTransactionsData) : proc standby unit :=
  ExpireOldKnownAssignedTransactionIds (oldestRunningXid running);;
  s <- get;;
  match standbyState s with
  | STANDBY_SNAPSHOT_READY => ret tt
  | STANDBY_SNAPSHOT_PENDING =>
      if negb (subxid_overflow running) || (xcnt running =? 0) then
        on_known (modify KnownAssignedXidsReset);;
        modify (set_state STANDBY_INITIALIZED);;
        initialise_running running
      else if TransactionIdPrecedes (standbySnapshotPendingXmin s) (oldestRunningXid running)
        then modify (set_state STANDBY_SNAPSHOT_READY)
        else ret tt
  | _ => initialise_running running
  end.

(** ** Snapshots *)

(** What [GetSnapshotData] puts into a snapshot while the server is in recovery: [xmin], [xmax], [subxip] and
    [suboverflowed].  [xmin] starts from [xmax], the id behind the last one that completed. *)
Definition standby_snapshot (s : standby) : Z * Z * list Z * bool :=
  let xmax := TransactionIdAdvance (sb_latestCompletedXid s) in
  let '(subxip, xmin) := KnownAssignedXidsGetAndSetXmin xmax xmax (known_xids s) in
  (xmin, xmax, subxip, TransactionIdPrecedesOrEquals xmin (lastOverflowedXid s)).
End Standby.
