(* ===== verification/StandbyFacts.v ===== *)
(** * Transactions of the primary on a standby: what replay does to the known ids

    The array stands for a sorted list: every routine on it does to the list of ids that it stands for what its
    name says, whatever gaps there are and wherever tail and head are.  From this follows what a record does to
    the list, and when it cannot be replayed. *)
From stdpp Require Import sorting.
From S2P Require Import Prelude Proc DistributedSnapshot Slru DistribLog DistribLogRun DistribLogSpec Clog SubTrans TransAm Varsup ProcArrayFacts Standby.

(** ** Cells *)

Definition valid_ids (l : list (Z * bool)) : list Z := omap (λ c, if (c.2 : bool) then Some c.1 else None) l.

Lemma valid_ids_app l1 l2 : valid_ids (l1 ++ l2) = valid_ids l1 ++ valid_ids l2.
Proof. apply omap_app. Qed.

Lemma valid_ids_cons x (b : bool) l : valid_ids ((x, b) :: l) = if b then x :: valid_ids l else valid_ids l.
Proof. by destruct b. Qed.

Lemma valid_ids_all xs : valid_ids ((λ x, (x, true)) <$> xs) = xs.
Proof. induction xs as [|x xs IH]; [done|]. cbn. f_equal. apply IH. Qed.

Lemma valid_ids_elem l x : x ∈ valid_ids l ↔ (x, true) ∈ l.
Proof.
  unfold valid_ids. rewrite list_elem_of_omap. split.
  - intros ([y []] & Hy & E); [|done]. by injection E as ->.
  - intros Hx. by exists (x, true).
Qed.

(** The cells that an index loop goes through. *)
Lemma cell_at (pre l post : list (Z * bool)) c : (pre ++ (c :: l) ++ post) !! length pre = Some c.
Proof. rewrite lookup_app_r, Nat.sub_diag by lia. done. Qed.

Lemma insert_at (pre l post : list (Z * bool)) c c' : <[length pre := c']> (pre ++ (c :: l) ++ post) = pre ++ (c' :: l) ++ post.
Proof. by rewrite insert_app_r_alt, Nat.sub_diag by lia. Qed.

Lemma cell_behind (pre l post : list (Z * bool)) c : pre ++ (c :: l) ++ post = (pre ++ [c]) ++ l ++ post.
Proof. by rewrite <-app_assoc. Qed.

Lemma length_behind (pre : list (Z * bool)) c : S (length pre) = length (pre ++ [c]).
Proof. rewrite length_app. cbn. lia. Qed.

Section Loops.
Context {kenv : KnownEnv} {slog : StandbyLog}.

Fixpoint skipped (l : list (Z * bool)) : nat :=
  match l with (_, false) :: l => S (skipped l) | _ => O end.

Lemma first_valid_list pre l post : first_valid (length l) (length pre) (pre ++ l ++ post) = (length pre + skipped l)%nat.
Proof.
  induction l as [|[x b] l IH] in pre |- *; cbn [length first_valid skipped]; [lia|]. rewrite cell_at. destruct b; [lia|].
  rewrite cell_behind, (length_behind pre (x, false)), IH, length_app. cbn. lia.
Qed.

Lemma skipped_le l : (skipped l ≤ length l)%nat.
Proof. induction l as [|[x []] l IH]; cbn; lia. Qed.

Lemma skipped_valid l : valid_ids (drop (skipped l) l) = valid_ids l.
Proof. induction l as [|[x []] l IH]; cbn [skipped]; [done|done|]. cbn [drop]. by rewrite IH. Qed.

Lemma skipped_all l : (length l ≤ skipped l)%nat → valid_ids l = [].
Proof. induction l as [|[x []] l IH]; cbn [skipped length]; [done|lia|]. intros ?. cbn. apply IH. lia. Qed.

Lemma skipped_head l : (skipped l < length l)%nat → ∃ x, l !! skipped l = Some (x, true) ∧ head (valid_ids l) = Some x.
Proof.
  induction l as [|[x []] l IH]; cbn [skipped length]; [lia|by exists x|]. intros ?. destruct IH as (y & ? & ?); [lia|]. by exists y.
Qed.

(** Pruning, on the cells themselves. *)
Fixpoint prune (r : Z) (l : list (Z * bool)) : list (Z * bool) :=
  match l with
  | [] => []
  | (x, true) :: l =>
      if TransactionIdFollowsOrEquals x r then (x, true) :: l
      else (x, StandbyTransactionIdIsPrepared x) :: prune r l
  | c :: l => c :: prune r l
  end.

Lemma prune_list r pre l post :
  prune_cells (length l) (length pre) r (pre ++ l ++ post) =
  (pre ++ prune r l ++ post, Z.of_nat (length (valid_ids l)) - Z.of_nat (length (valid_ids (prune r l)))).
Proof.
  induction l as [|[x b] l IH] in pre |- *; cbn [length prune_cells prune]; [done|]. rewrite cell_at.
  destruct b; [|rewrite cell_behind, (length_behind pre (x, false)), IH, <-app_assoc; done].
  destruct (TransactionIdFollowsOrEquals x r); [by rewrite Z.sub_diag|].
  destruct (StandbyTransactionIdIsPrepared x) eqn:Ep; cbn [negb].
  - rewrite cell_behind, (length_behind pre (x, true)), IH, <-app_assoc, !valid_ids_cons. f_equal. cbn [length]. lia.
  - rewrite insert_at, cell_behind, (length_behind pre (x, false)), IH, <-app_assoc, !valid_ids_cons. f_equal. cbn [length]. lia.
Qed.

Lemma prune_fst r l : (prune r l).*1 = l.*1.
Proof. induction l as [|[x []] l IH]; cbn [prune]; [done| |by cbn; f_equal]. case_match; [done|]. cbn. by f_equal. Qed.

(** Reading, on the ids. *)
Fixpoint below (xmax : Z) (xs : list Z) : list Z :=
  match xs with
  | [] => []
  | x :: xs => if TransactionIdIsValid xmax && TransactionIdFollowsOrEquals x xmax then [] else x :: below xmax xs
  end.

Lemma get_list xmax pre l post xarray xmin :
  get_cells (length l) (length pre) xmax (pre ++ l ++ post) xarray xmin =
  (xarray ++ below xmax (valid_ids l),
   match xarray, valid_ids l with [], x :: _ => if TransactionIdPrecedes x xmin then x else xmin | _, _ => xmin end).
Proof.
  induction l as [|[x b] l IH] in pre, xarray, xmin |- *; cbn [length get_cells].
  { cbn. rewrite app_nil_r. by destruct xarray. }
  rewrite cell_at. destruct b; [|rewrite cell_behind, (length_behind pre (x, false)), IH; done]. cbn [valid_ids omap list_omap snd fst].
  cbn [below]. set (m := if _ && _ then x else xmin).
  assert (Em : m = match xarray with [] => if TransactionIdPrecedes x xmin then x else xmin | _ => xmin end) by (unfold m; by destruct xarray).
  destruct (_ && TransactionIdFollowsOrEquals x xmax); [rewrite app_nil_r, Em; by destruct xarray|].
  rewrite cell_behind, (length_behind pre (x, true)), IH, <-app_assoc, Em. f_equal. by destruct xarray.
Qed.

(** Insertion. *)
Fixpoint next_ids (n : nat) (x : Z) : list Z := match n with O => [] | S n => x :: next_ids n (TransactionIdAdvance x) end.

Lemma length_next_ids n x : length (next_ids n x) = n.
Proof. induction n as [|n IH] in x |- *; cbn; [done|]. by rewrite IH. Qed.

Lemma insert_list n x pre old post : length old = n →
  insert_xids n x (length pre) (pre ++ old ++ post) = pre ++ ((λ y, (y, true)) <$> next_ids n x) ++ post.
Proof.
  induction n as [|n IH] in x, pre, old |- *; intros Hl; [by destruct old|]. destruct old as [|c old]; [done|]. injection Hl as Hl.
  cbn [insert_xids next_ids]. rewrite insert_at, cell_behind, (length_behind pre (x, true)), IH by done. by rewrite <-app_assoc.
Qed.

(** Compression writes behind what it reads. *)
Lemma compress_list n i j c : (j ≤ i)%nat → (i + n ≤ length c)%nat →
  let r := compress_cells n i j c in let xs := valid_ids (take n (drop i c)) in
  length r.1 = length c ∧ r.2 = (j + length xs)%nat ∧ take r.2 r.1 = take j c ++ ((λ x, (x, true)) <$> xs).
Proof.
  induction n as [|n IH] in i, j, c |- *; intros Hj Hn; cbn [compress_cells].
  { cbn. rewrite Nat.add_0_r, app_nil_r. done. }
  destruct (c !! i) as [[x b]|] eqn:Ec; [|apply lookup_ge_None in Ec; lia]. rewrite (drop_S c (x, b) i) by done. cbn [take].
  destruct b.
  - destruct (IH (S i) (S j) (<[j := (x, true)]> c)) as (E1 & E2 & E3); [lia|rewrite length_insert; lia|].
    rewrite drop_insert_lt in E2, E3 by lia. rewrite length_insert in E1. cbv zeta. rewrite valid_ids_cons, E1, E3, E2. split_and!; [done|cbn [length]; lia|].
    rewrite (take_S_r _ _ (x, true)) by (apply list_lookup_insert_eq; lia). rewrite take_insert_ge by lia.
    rewrite <-app_assoc. done.
  - destruct (IH (S i) j c) as (E1 & E2 & E3); [lia|lia|]. done.
Qed.
End Loops.

(** ** What the array stands for *)

Section Known.
Context {kenv : KnownEnv} {slog : StandbyLog} (w : Z) (Hw : normal w).

Notation ord := (ord w).
Notation inside := (inside w).

Definition before (x y : Z) : Prop := ord x < ord y.

(** [l]: the cells from tail to head. *)
Record rep (k : known) (l : list (Z * bool)) : Prop := {
  rp_max : maxKnownAssignedXids k = Z.of_nat (length (cells k));
  rp_cells : ∃ pre post, cells k = pre ++ l ++ post ∧ tailKnownAssignedXids k = length pre ∧
    headKnownAssignedXids k = (length pre + length l)%nat;
  rp_inside : Forall inside (l.*1);
  rp_sorted : StronglySorted before (l.*1);
  rp_num : numKnownAssignedXids k = Z.of_nat (length (valid_ids l));
}.

(** The array holds [xs], and no cell, valid or not, has an id behind [v]. *)
Definition known_is (k : known) (xs : list Z) (v : Z) : Prop :=
  ∃ l, rep k l ∧ valid_ids l = xs ∧ Forall (λ x, ord x ≤ ord v) (l.*1).

Lemma valid_fst l x : x ∈ valid_ids l → x ∈ l.*1.
Proof. intros Hx%valid_ids_elem. apply list_elem_of_fmap. by exists (x, true). Qed.

Lemma valid_sorted l : StronglySorted before (l.*1) → StronglySorted before (valid_ids l).
Proof.
  induction l as [|[x b] l IH]; [done|]. cbn [fmap list_fmap fst]. rewrite StronglySorted_cons. intros [Hx Hl]. rewrite valid_ids_cons.
  destruct b; [|by apply IH]. apply StronglySorted_cons. split; [|by apply IH]. rewrite Forall_forall in *. intros y Hy%valid_fst. by apply Hx.
Qed.

Lemma known_sorted k xs v : known_is k xs v → StronglySorted before xs ∧ Forall inside xs ∧ Forall (λ x, ord x ≤ ord v) xs.
Proof.
  intros (l & Hr & <- & Hv). split; [apply valid_sorted, Hr|]. pose proof (rp_inside _ _ Hr) as Hi. rewrite !Forall_forall in *.
  split; intros x Hx%valid_fst; auto.
Qed.

Lemma known_init_is n v : known_is (known_init n) [] v.
Proof.
  exists []. split_and!; [|done|constructor]. split; [by cbn; rewrite length_replicate| |constructor|constructor|done].
  by exists [], (replicate n (0, false)).
Qed.

Lemma fst_all (xs : list Z) : ((λ x, (x, true)) <$> xs).*1 = xs.
Proof. rewrite <-list_fmap_compose. apply list_fmap_id. Qed.

Lemma known_bound k xs v v' : known_is k xs v → ord v ≤ ord v' → known_is k xs v'.
Proof. intros (l & Hr & E & Hv) Hle. exists l. split_and!; [done|done|]. eapply Forall_impl; [exact Hv|]. cbn. lia. Qed.

Lemma rep_empty k v : rep k [] → known_is k [] v.
Proof. intros Hr. by exists []. Qed.

(** *** Compression *)

Lemma compress_rep force k l : rep k l → ∃ l', rep (KnownAssignedXidsCompress force k) l' ∧ valid_ids l' = valid_ids l ∧ l'.*1 ⊆ l.*1 ∧
  (force = true → headKnownAssignedXids (KnownAssignedXidsCompress force k) = length (valid_ids l)) ∧
  maxKnownAssignedXids (KnownAssignedXidsCompress force k) = maxKnownAssignedXids k.
Proof.
  intros Hr. unfold KnownAssignedXidsCompress. set (b := negb force && _).
  assert (Hb : force = true → b = false) by (by intros ->). destruct b; [exists l; split_and!; try done; by intros ?%Hb|].
  destruct Hr as [Hm (pre & post & Ec & Et & Eh) Hi Hs Hn].
  rewrite Et, Eh, Nat.add_comm, Nat.add_sub. destruct (compress_list (length l) (length pre) 0 (cells k)) as (E1 & E2 & E3); [lia|rewrite Ec, !length_app; lia|].
  assert (El : take (length l) (drop (length pre) (cells k)) = l) by (by rewrite Ec, drop_app_length, take_app_length).
  rewrite El in E2, E3. destruct (compress_cells _ _ _ _) as [c j] eqn:Ecc. cbn [fst snd] in *.
  exists ((λ x, (x, true)) <$> valid_ids l). rewrite valid_ids_all, fst_all. split_and!; try done; [|by intros x; apply valid_fst].
  split; cbn; rewrite ?fst_all, ?valid_ids_all; [congruence| | |by apply valid_sorted|done].
  - exists [], (drop j c). rewrite length_fmap. split_and!; [|done|done]. rewrite take_0 in E3. cbn [app] in *. by rewrite <-E3, take_drop.
  - rewrite Forall_forall in *. intros x Hx%valid_fst. auto.
Qed.

Lemma rep_known k l xs v : rep k l → valid_ids l = xs → Forall (λ x, ord x ≤ ord v) (l.*1) → known_is k xs v.
Proof. intros. by exists l. Qed.

Lemma compress_known force k xs v : known_is k xs v → known_is (KnownAssignedXidsCompress force k) xs v.
Proof.
  intros (l & Hr & <- & Hv). destruct (compress_rep force k l Hr) as (l' & Hr' & E & Hsub & _).
  apply (rep_known _ l'); [done|done|]. rewrite Forall_forall in *. auto.
Qed.

(** *** Ranges of ids *)

(** [to] is [m] ids behind [from]. *)
Fixpoint leads (m : nat) (from to : Z) : Prop :=
  match m with O => from = to | S m => ord from < ord to ∧ leads m (TransactionIdAdvance from) to end.

Lemma count_leads fuel x to : inside x → inside to → ord x ≤ ord to → ord to - ord x ≤ Z.of_nat fuel → leads (count_xids fuel x to) x to.
Proof.
  induction fuel as [|fuel IH] in x |- *; intros Hx Hto Hle Hf; cbn [count_xids].
  { cbn. apply (ord_inj w); [apply Hx|apply Hto|lia]. }
  rewrite (precedes_ord w) by done. destruct (Z.ltb_spec (ord x) (ord to)) as [Hlt|?].
  - destruct (advance_ord w Hw x to Hx Hto Hlt) as [Ha ?]. cbn. split; [done|]. apply IH; [done|done|lia|lia].
  - cbn. apply (ord_inj w); [apply Hx|apply Hto|lia].
Qed.

Lemma plain_leads m x to : inside x → inside to → ord x ≤ ord to → to = x + Z.of_nat m → leads m x to.
Proof.
  induction m as [|m IH] in x |- *; intros Hx Hto Hle E; cbn [leads]; [lia|].
  assert (Hlt : ord x < ord to).
  { destruct (Z.eq_dec (ord x) (ord to)) as [Eo|]; [|lia]. apply (ord_inj w) in Eo; [lia|apply Hx|apply Hto]. }
  assert (Ea : TransactionIdAdvance x = x + 1).
  { destruct Hx as [[? ?] _], Hto as [[? ?] _]. unfold TransactionIdAdvance, u32, FirstNormalTransactionId in *.
    rewrite Z.mod_small by lia. case_match; [lia|done]. }
  split; [done|]. destruct (advance_ord w Hw x to Hx Hto Hlt) as [Ha ?]. apply IH; [done|done|lia|]. rewrite Ea. lia.
Qed.

Lemma nxids_leads from to : inside from → inside to → ord from ≤ ord to → ∃ m, nxids from to = S m ∧ leads m from to.
Proof.
  intros Hf Ht Hle. unfold nxids. destruct (Z.leb_spec from to) as [Hn|Hn].
  - exists (Z.to_nat (to - from)). split; [lia|]. apply plain_leads; [done..|lia].
  - eexists. split; [done|]. apply count_leads; [done..|]. rewrite Z2Nat.id by (unfold u32; apply Z.mod_pos_bound; lia).
    unfold ProcArrayFacts.ord, ahead, u32 in *. Z.to_euclidean_division_equations. lia.
Qed.

(** The ids from [from] to [to], in their order. *)
Lemma next_ids_range m from to : inside from → inside to → ord from ≤ ord to → leads m from to →
  StronglySorted before (next_ids (S m) from) ∧ ∀ y, y ∈ next_ids (S m) from ↔ inside y ∧ ord from ≤ ord y ≤ ord to.
Proof.
  induction m as [|m IH] in from |- *; intros Hf Ht Hle Hl.
  { cbn in Hl. subst to. cbn [next_ids]. split; [repeat constructor|]. intros y. rewrite list_elem_of_singleton. split; [by intros ->|].
    intros [Hy ?]. apply (ord_inj w); [apply Hy|apply Hf|lia]. }
  destruct Hl as [Hlt Hl].
  destruct (advance_ord w Hw from to Hf Ht Hlt) as [Ha Ha']. destruct (IH (TransactionIdAdvance from)) as [IHs IHy]; [done..|lia|done|].
  destruct (ord_next w from Hf Ha) as [_ Hgap]. change (next_ids (S (S m)) from) with (from :: next_ids (S m) (TransactionIdAdvance from)). split.
  - apply StronglySorted_cons. split; [|done]. apply Forall_forall. intros y Hy%IHy. unfold before. lia.
  - intros y. rewrite elem_of_cons, IHy. split.
    + intros [->|[? ?]]; [done|]. split; [done|lia].
    + intros [Hy Hy']. destruct (Z.lt_ge_cases (ord y) (ord (TransactionIdAdvance from))) as [H|]; [left|right; split; [done|lia]].
      apply Hgap in H; [|done]. apply (ord_inj w); [apply Hy|apply Hf|lia].
Qed.

Definition range (from to : Z) : list Z := next_ids (nxids from to) from.

Lemma range_spec from to : inside from → inside to → ord from ≤ ord to →
  StronglySorted before (range from to) ∧ ∀ y, y ∈ range from to ↔ inside y ∧ ord from ≤ ord y ≤ ord to.
Proof. intros Hf Ht Hle. destruct (nxids_leads from to Hf Ht Hle) as (m & E & Hl). unfold range. rewrite E. by apply next_ids_range. Qed.

(** *** Insertion *)

Lemma out_of_order_spec from k l : rep k l → inside from →
  if out_of_order from k then ∃ x, x ∈ l.*1 ∧ ord from ≤ ord x else ∀ x, x ∈ l.*1 → ord x < ord from.
Proof.
  intros [Hm (pre & post & Ec & Et & Eh) Hi Hs Hn] Hf. unfold out_of_order. rewrite Ec, Et, Eh.
  destruct l as [|[x b] l' _] using rev_ind; [cbn [length]; rewrite Nat.add_0_r, Nat.ltb_irrefl; cbn [andb]; set_solver|].
  assert (Hlt : (length pre <? length pre + length (l' ++ [(x, b)]))%nat = true) by (apply Nat.ltb_lt; rewrite length_app; cbn; lia).
  rewrite Hlt. cbn [andb]. replace (length pre + length (l' ++ [(x, b)]) - 1)%nat with (length (pre ++ l')) by (rewrite !length_app; cbn; lia).
  assert (El : pre ++ (l' ++ [(x, b)]) ++ post = (pre ++ l') ++ ((x, b) :: []) ++ post) by (by rewrite <-!app_assoc). rewrite El, cell_at.
  rewrite fmap_app in *. cbn [fmap list_fmap fst] in *. assert (Hx : inside x) by (rewrite Forall_forall in Hi; apply Hi; set_solver).
  rewrite (follows_or_equals_ord w) by done. destruct (Z.leb_spec (ord from) (ord x)).
  - exists x. split; [set_solver|done].
  - intros y. rewrite elem_of_app, list_elem_of_singleton. intros [Hy| ->]; [|done].
    pose proof (StronglySorted_app_1_elem_of _ _ _ y x Hs Hy ltac:(set_solver)) as Hb. unfold before in Hb. lia.
Qed.

Lemma insert_rep from to k l : rep k l → inside from → inside to → ord from ≤ ord to → (∀ x, x ∈ l.*1 → ord x < ord from) →
  Z.of_nat (headKnownAssignedXids k + nxids from to) ≤ maxKnownAssignedXids k →
  rep (append_xids (nxids from to) from k) (l ++ ((λ x, (x, true)) <$> range from to)).
Proof.
  intros [Hm (pre & post & Ec & Et & Eh) Hi Hs Hn] Hf Ht Hle Hb Hroom. set (n := nxids from to) in *.
  destruct (range_spec from to Hf Ht Hle) as [Hrs Hry]. assert (Hlen : length (range from to) = n) by apply length_next_ids.
  rewrite Hm, Ec, !length_app in Hroom. assert (Hpost : (n ≤ length post)%nat) by lia.
  assert (Enew : insert_xids n from (headKnownAssignedXids k) (cells k) = (pre ++ l) ++ ((λ x, (x, true)) <$> range from to) ++ drop n post).
  { rewrite Ec, app_assoc, <-(take_drop n post) at 1. rewrite Eh, <-length_app. apply insert_list. by rewrite length_take, Nat.min_l. }
  unfold append_xids. split; cbn [cells maxKnownAssignedXids numKnownAssignedXids tailKnownAssignedXids headKnownAssignedXids]; rewrite ?Enew.
  - rewrite Hm, Ec, !length_app, length_fmap, length_drop, Hlen. lia.
  - exists pre, (drop n post). rewrite <-!app_assoc, length_app, length_fmap, Hlen, Eh. split_and!; [done|done|lia].
  - rewrite fmap_app, fst_all, Forall_app. split; [done|]. apply Forall_forall. intros y Hy%Hry. apply Hy.
  - rewrite fmap_app, fst_all. apply StronglySorted_app_2; [|done|done]. intros x y Hx Hy%Hry. unfold before. specialize (Hb x Hx). lia.
  - rewrite valid_ids_app, valid_ids_all, length_app, Hlen. lia.
Qed.

(** The ids are added behind the others, or there is no room for them, or one is not in front of the first. *)
Definition added (from to : Z) (k : known) (xs : list Z) (v : Z) (o : outcome unit) (k' : known) : Prop :=
  maxKnownAssignedXids k' = maxKnownAssignedXids k ∧
  match o with
  | Ret _ => known_is k' (xs ++ range from to) to ∧ Forall (λ x, ord x < ord from) xs
  | ERROR => known_is k' xs v ∧ ((tailKnownAssignedXids k < headKnownAssignedXids k)%nat ∧ ord from ≤ ord v ∨ maxKnownAssignedXids k < Z.of_nat (length xs + length (range from to)))
  | _ => False
  end.

Lemma add_spec from to k xs v :
  known_is k xs v → inside from → inside to → ord from ≤ ord to → wp (KnownAssignedXidsAdd from to) (added from to k xs v) k.
Proof.
  intros (l & Hr & <- & Hv) Hf Ht Hle. unfold KnownAssignedXidsAdd. apply proc_bind, wp_get. cbn [next].
  pose proof (out_of_order_spec from k l Hr Hf) as Hord. destruct (out_of_order from k).
  { apply wp_raise. split; [done|]. destruct Hord as (x & Hx & Hxo). split; [by exists l|left]. split; [|rewrite Forall_forall in Hv; specialize (Hv x Hx); lia].
    destruct (rp_cells _ _ Hr) as (pre & post & _ & -> & ->). destruct l; [by apply elem_of_nil in Hx|cbn; lia]. }
  assert (Hins : ∀ k1 l1, rep k1 l1 → valid_ids l1 = valid_ids l → l1.*1 ⊆ l.*1 → maxKnownAssignedXids k1 = maxKnownAssignedXids k →
    Z.of_nat (headKnownAssignedXids k1 + nxids from to) ≤ maxKnownAssignedXids k1 →
    wp (modify (append_xids (nxids from to) from)) (added from to k (valid_ids l) v) k1).
  { intros k1 l1 Hr1 E1 Hsub Em Hroom. apply wp_modify. split; [done|]. split; [|rewrite Forall_forall; intros x Hx%valid_fst; auto].
    eexists. split; [apply (insert_rep from to k1 l1 Hr1 Hf Ht Hle); [intros x Hx; by apply Hord, Hsub|done]|].
    rewrite valid_ids_app, valid_ids_all, E1, fmap_app, fst_all. split; [done|]. apply Forall_app. rewrite !Forall_forall. split.
    - intros x Hx. specialize (Hord x (Hsub x Hx)). lia.
    - intros x Hx%range_spec; [lia|done..]. }
  apply proc_bind. destruct (Z.ltb_spec (maxKnownAssignedXids k) (Z.of_nat (headKnownAssignedXids k + nxids from to))).
  2:{ apply proc_ret. cbn [next]. apply (Hins k l); auto. }
  apply proc_bind, wp_modify. cbn [next]. apply proc_bind, wp_get. cbn [next].
  destruct (compress_rep true k l Hr) as (l' & Hr' & E & Hsub & Eh & Em). rewrite Eh, Em by done.
  destruct (Z.ltb_spec (maxKnownAssignedXids k) (Z.of_nat (length (valid_ids l) + nxids from to))).
  - apply wp_raise. cbn [next]. split; [done|]. split; [exists l'; split_and!; [done|done|]|right; unfold range; by rewrite length_next_ids].
    rewrite Forall_forall in *. auto.
  - apply proc_ret. cbn [next]. apply (Hins _ l'); auto. rewrite Eh, Em by done. lia.
Qed.

(** *** Search *)

Lemma sorted_at k l i j x y : rep k l → (tailKnownAssignedXids k ≤ i < j)%nat → (j < headKnownAssignedXids k)%nat →
  cells k !! i = Some x → cells k !! j = Some y → ord x.1 < ord y.1.
Proof.
  intros [_ (pre & post & Ec & Et & Eh) _ Hs _] Hi Hj. rewrite Et in Hi. rewrite Eh in Hj. rewrite Ec.
  rewrite (lookup_app_r pre _ i), (lookup_app_r pre _ j), (lookup_app_l l _ (i - _)), (lookup_app_l l _ (j - _)) by lia.
  intros Hx Hy. set (i' := (i - length pre)%nat) in *. set (j' := (j - length pre)%nat) in *.
  rewrite <-(take_drop j' l), fmap_app in Hs. apply (StronglySorted_app_1_elem_of _ _ _ x.1 y.1) in Hs; [done|..].
  - apply list_elem_of_fmap. exists x. split; [done|]. apply (list_elem_of_lookup_2 _ i'). rewrite lookup_take_lt by lia. done.
  - apply list_elem_of_fmap. exists y. split; [done|]. apply (list_elem_of_lookup_2 _ 0). by rewrite lookup_drop, Nat.add_0_r.
Qed.

Lemma search_spec k l x fuel first last :
  rep k l → inside x → Z.of_nat (tailKnownAssignedXids k) ≤ first → last < Z.of_nat (headKnownAssignedXids k) →
  last - first < Z.of_nat fuel →
  (∀ i c, (tailKnownAssignedXids k ≤ i < headKnownAssignedXids k)%nat → cells k !! i = Some c → c.1 = x → first ≤ Z.of_nat i ≤ last) →
  match search_cells fuel x first last (cells k) with
  | Some i => (tailKnownAssignedXids k ≤ i < headKnownAssignedXids k)%nat ∧ ∃ b, cells k !! i = Some (x, b)
  | None => ∀ i c, (tailKnownAssignedXids k ≤ i < headKnownAssignedXids k)%nat → cells k !! i = Some c → c.1 ≠ x
  end.
Proof.
  intros Hr Hx. pose proof Hr as [_ (pre & post & Ec & Et & Eh) Hi _ _].
  assert (Hcell : ∀ i, (tailKnownAssignedXids k ≤ i < headKnownAssignedXids k)%nat → ∃ y b, cells k !! i = Some (y, b) ∧ inside y).
  { intros i Hti. destruct (cells k !! i) as [[y b]|] eqn:E; [|apply lookup_ge_None in E; rewrite Ec, !length_app in E; lia].
    exists y, b. split; [done|]. rewrite Forall_forall in Hi. apply Hi, list_elem_of_fmap. exists (y, b). split; [done|].
    rewrite Ec, lookup_app_r, lookup_app_l in E by lia. by apply list_elem_of_lookup_2 in E. }
  induction fuel as [|fuel IH] in first, last |- *; intros Hfi Hla Hfuel Hin; cbn [search_cells].
  { intros i c Hti Hc E. specialize (Hin i c Hti Hc E). lia. }
  destruct (Z.ltb_spec last first) as [Hlt|Hge]; [intros i c Hti Hc E; specialize (Hin i c Hti Hc E); lia|].
  set (mid := (first + last) / 2). assert (Hmid : first ≤ mid ≤ last) by (unfold mid; Z.to_euclidean_division_equations; lia).
  destruct (Hcell (Z.to_nat mid)) as (y & b & Ey & Hy); [lia|]. rewrite Ey.
  destruct (Z.eqb_spec x y) as [->|Hne]; [split; [lia|by exists b]|]. rewrite (precedes_ord w) by done.
  assert (Hnear : ∀ i c, (tailKnownAssignedXids k ≤ i < headKnownAssignedXids k)%nat → cells k !! i = Some c → c.1 = x →
    if ord x <? ord y then Z.of_nat i < mid else mid < Z.of_nat i).
  { intros i c Hti Hc E. destruct (Nat.lt_trichotomy i (Z.to_nat mid)) as [H|[->|H]].
    - pose proof (sorted_at k l i (Z.to_nat mid) c (y, b) Hr ltac:(lia) ltac:(lia) Hc Ey) as Hs. rewrite E in Hs. cbn in Hs.
      rewrite (proj2 (Z.ltb_lt _ _)) by done. lia.
    - rewrite Ey in Hc. injection Hc as <-. cbn in E. congruence.
    - pose proof (sorted_at k l (Z.to_nat mid) i (y, b) c Hr ltac:(lia) ltac:(lia) Ey Hc) as Hs. rewrite E in Hs. cbn in Hs.
      rewrite (proj2 (Z.ltb_ge _ _)) by lia. lia. }
  destruct (ord x <? ord y); (apply IH; [lia|lia|lia|]); intros i c Hti Hc E; specialize (Hnear i c Hti Hc E); specialize (Hin i c Hti Hc E); lia.
Qed.

Lemma sorted_nodup xs : StronglySorted before xs → NoDup xs.
Proof.
  induction xs as [|x xs IH]; [constructor|]. rewrite StronglySorted_cons. intros [Hx Hs]. apply NoDup_cons. split; [|auto].
  intros Hin. rewrite Forall_forall in Hx. specialize (Hx x Hin). unfold before in Hx. lia.
Qed.

(** The cell that the search finds, among the others. *)
Lemma search_found k l x : rep k l → inside x →
  match search_cells (S (headKnownAssignedXids k - tailKnownAssignedXids k)) x (Z.of_nat (tailKnownAssignedXids k))
          (Z.of_nat (headKnownAssignedXids k) - 1) (cells k) with
  | Some i => ∃ b l1 l2, l = l1 ++ (x, b) :: l2 ∧ i = (tailKnownAssignedXids k + length l1)%nat ∧ cells k !! i = Some (x, b)
  | None => x ∉ l.*1
  end.
Proof.
  intros Hr Hx. pose proof Hr as [_ (pre & post & Ec & Et & Eh) _ _ _].
  pose proof (search_spec k l x (S (headKnownAssignedXids k - tailKnownAssignedXids k)) (Z.of_nat (tailKnownAssignedXids k))
    (Z.of_nat (headKnownAssignedXids k) - 1) Hr Hx ltac:(lia) ltac:(lia) ltac:(lia) ltac:(intros; lia)) as H.
  destruct (search_cells _ _ _ _ _) as [i|].
  - destruct H as (Hi & b & Hb). exists b. pose proof Hb as Hb'. rewrite Ec, lookup_app_r, lookup_app_l in Hb' by lia.
    apply list_elem_of_split_length in Hb' as (l1 & l2 & -> & Hl1). exists l1, l2. split_and!; [done|lia|done].
  - rewrite list_elem_of_fmap. intros ([y b] & -> & Hy). apply list_elem_of_lookup_1 in Hy as [j Hj].
    pose proof (lookup_lt_Some _ _ _ Hj). apply (H (length pre + j)%nat (y, b)); [lia| |done].
    rewrite Ec, lookup_app_r, lookup_app_l by lia. by replace (length pre + j - length pre)%nat with j by lia.
Qed.

Lemma exists_spec k xs v x : known_is k xs v → inside x → KnownAssignedXidExists x k = bool_decide (x ∈ xs).
Proof.
  intros (l & Hr & <- & _) Hx. unfold KnownAssignedXidExists, KnownAssignedXidsSearch. pose proof (search_found k l x Hr Hx) as H.
  destruct (search_cells _ _ _ _ _) as [i|].
  - destruct H as (b & l1 & l2 & El & _ & ->). destruct b; cbn [fst].
    + symmetry. apply bool_decide_eq_true. rewrite valid_ids_elem, El. set_solver.
    + symmetry. apply bool_decide_eq_false. intros Hin. pose proof (rp_sorted _ _ Hr) as Hs. apply sorted_nodup in Hs. rewrite El in *.
      rewrite fmap_app in Hs. cbn in Hs. rewrite valid_ids_app, valid_ids_cons, elem_of_app in Hin.
      apply NoDup_app in Hs as (_ & H1 & [H2 _]%NoDup_cons). destruct Hin as [Hin|Hin]; apply valid_fst in Hin; set_solver.
  - cbn [fst]. symmetry. apply bool_decide_eq_false. intros Hin. by apply valid_fst in Hin.
Qed.

(** *** Removal *)

Lemma move_tail_known c num k l v :
  rep (mkKnown c (maxKnownAssignedXids k) num (tailKnownAssignedXids k) (headKnownAssignedXids k)) l → Forall (λ x, ord x ≤ ord v) (l.*1) →
  known_is (move_tail (tailKnownAssignedXids k + skipped l) c num k) (valid_ids l) v.
Proof.
  intros [Hm (pre & post & Ec & Et & Eh) Hi Hs Hn] Hv. cbn in *. unfold move_tail. rewrite Et, Eh.
  destruct (Nat.leb_spec (length pre + length l) (length pre + skipped l)) as [Hle|Hgt].
  - assert (E : valid_ids l = []) by (apply skipped_all; lia). exists []. rewrite E in *. split_and!; [|done|constructor].
    split; [done|by exists [], c|constructor|constructor|done].
  - exists (drop (skipped l) l). rewrite skipped_valid. assert (Hsub : (drop (skipped l) l).*1 = drop (skipped l) (l.*1)) by apply fmap_drop.
    split_and!; [|done|rewrite Hsub; by apply Forall_drop]. split; cbn; [done| | | |by rewrite skipped_valid].
    + exists (pre ++ take (skipped l) l), post. rewrite Ec, !length_app, length_take, length_drop, Nat.min_l by lia.
      split_and!; [|lia|lia]. by rewrite <-app_assoc, (app_assoc (take _ _)), take_drop.
    + rewrite Hsub. by apply Forall_drop.
    + rewrite Hsub. rewrite <-(take_drop (skipped l) (l.*1)) in Hs. by apply StronglySorted_app_1_r in Hs.
Qed.

Lemma remove_spec k xs v x : known_is k xs v → inside x → known_is (KnownAssignedXidsRemove x k) (filter (λ y, y ≠ x) xs) v.
Proof.
  intros (l & Hr & <- & Hv) Hx. unfold KnownAssignedXidsRemove, KnownAssignedXidsSearch. pose proof (search_found k l x Hr Hx) as H.
  assert (Hid : x ∉ valid_ids l → known_is k (filter (λ y, y ≠ x) (valid_ids l)) v).
  { intros Hn. exists l. split_and!; [done| |done]. symmetry. apply filter_all. intros y Hy ->. done. }
  destruct (search_cells _ _ _ _ _) as [i|]; [|cbn [snd]; apply Hid; by intros ?%valid_fst].
  destruct H as (b & l1 & l2 & El & Ei & Ec'). rewrite Ec'. pose proof Hr as [Hm (pre & post & Ec & Et & Eh) Hi Hs Hn].
  assert (Hx12 : x ∉ valid_ids l1 ∧ x ∉ valid_ids l2).
  { apply sorted_nodup in Hs. rewrite El, fmap_app in Hs. cbn in Hs. apply NoDup_app in Hs as (_ & H1 & [H2 _]%NoDup_cons).
    split; intros Hin%valid_fst; set_solver. }
  destruct b; cbn [snd]; [|apply Hid; rewrite El, valid_ids_app, valid_ids_cons; set_solver].
  set (l' := l1 ++ (x, false) :: l2). assert (Ef : l'.*1 = l.*1) by (unfold l'; rewrite El, !fmap_app; done).
  assert (Ev : valid_ids l' = filter (λ y, y ≠ x) (valid_ids l)).
  { unfold l'. rewrite El, !valid_ids_app, !valid_ids_cons, filter_app. rewrite filter_cons_False by (intros Hne; by apply Hne).
    rewrite !filter_all by (by intros y Hy ->; destruct Hx12). done. }
  assert (Ecell : <[i := (x, false)]> (cells k) = pre ++ l' ++ post).
  { rewrite Ec, El, Ei, Et, <-length_app. unfold l'.
    assert (Ea : ∀ b, pre ++ (l1 ++ (x, b) :: l2) ++ post = (pre ++ l1) ++ ((x, b) :: l2) ++ post) by (intros; by rewrite <-!app_assoc).
    by rewrite !Ea, insert_at. }
  assert (Hr' : rep (mkKnown (<[i := (x, false)]> (cells k)) (maxKnownAssignedXids k) (numKnownAssignedXids k - 1) (tailKnownAssignedXids k)
    (headKnownAssignedXids k)) l').
  { split; cbn; rewrite ?Ef; [by rewrite length_insert| |done|done|].
    - exists pre, post. rewrite Ecell, Eh, El. unfold l'. rewrite !length_app. done.
    - unfold l'. rewrite Hn, El, !valid_ids_app, !valid_ids_cons, !length_app. cbn [length]. lia. }
  rewrite <-Ev. destruct (Nat.eqb_spec i (tailKnownAssignedXids k)) as [E|Hne]; [|exists l'; by rewrite Ef].
  assert (E1 : l1 = []) by (apply length_zero_iff_nil; lia). subst l1.
  replace (first_valid _ _ _) with (tailKnownAssignedXids k + skipped l')%nat; [apply move_tail_known; [done|by rewrite Ef]|].
  rewrite Ecell, Et, Eh, El. unfold l'. rewrite !app_nil_l. cbn [length skipped]. rewrite cell_behind, (length_behind pre (x, false)).
  replace (length pre + S (length l2) - length (pre ++ [(x, false)]))%nat with (length l2) by (rewrite length_app; cbn; lia).
  rewrite first_valid_list, length_app. cbn. lia.
Qed.

Definition minus (ys xs : list Z) : list Z := filter (λ y, y ∉ ys) xs.

Lemma minus_cons y ys xs : minus ys (filter (λ z, z ≠ y) xs) = minus (y :: ys) xs.
Proof. unfold minus. rewrite list_filter_filter. apply list_filter_iff. intros z. set_solver. Qed.

Lemma remove_all_spec ys k xs v : known_is k xs v → Forall inside ys →
  known_is (foldl (λ k x, KnownAssignedXidsRemove x k) k ys) (minus ys xs) v.
Proof.
  induction ys as [|y ys IH] in k, xs |- *; intros Hk Hys; cbn [foldl].
  - unfold minus. rewrite filter_all by set_solver. done.
  - apply Forall_cons in Hys as [Hy Hys]. rewrite <-minus_cons. apply IH; [by apply remove_spec|done].
Qed.

Lemma remove_tree_spec x subs k xs v : known_is k xs v → (x ≠ InvalidTransactionId → inside x) → Forall inside subs →
  known_is (KnownAssignedXidsRemoveTree x subs k) (minus (x :: subs) xs) v.
Proof.
  intros Hk Hx Hs. unfold KnownAssignedXidsRemoveTree. apply compress_known. rewrite <-minus_cons. apply remove_all_spec; [|done].
  unfold TransactionIdIsValid. destruct (Z.eqb_spec x InvalidTransactionId) as [->|Hne]; cbn [negb]; [|by apply remove_spec; auto].
  rewrite filter_all; [done|]. intros y Hy ->. destruct (known_sorted _ _ _ Hk) as (_ & Hi & _).
  rewrite Forall_forall in Hi. apply Hi in Hy as [Hn _]. by apply normal_not_invalid in Hn.
Qed.

(** *** Pruning *)

Definition kept (r x : Z) : Prop := ord r ≤ ord x ∨ StandbyTransactionIdIsPrepared x = true.

#[global] Instance kept_dec r x : Decision (kept r x).
Proof. unfold kept. apply _. Defined.

Lemma prune_valid r l : StronglySorted before (l.*1) → Forall inside (l.*1) → inside r → valid_ids (prune r l) = filter (kept r) (valid_ids l).
Proof.
  induction l as [|[x b] l IH]; [done|]. cbn [fmap list_fmap fst]. rewrite StronglySorted_cons, Forall_cons. intros [Hx Hs] [Hi Hl] Hr.
  cbn [prune]. destruct b; [|rewrite !valid_ids_cons; by apply IH]. rewrite (follows_or_equals_ord w) by done. destruct (Z.leb_spec (ord r) (ord x)) as [Hle|Hlt].
  - rewrite filter_all; [done|]. intros y [->|Hy]%elem_of_cons; [by left|]. apply valid_fst in Hy. rewrite Forall_forall in Hx.
    specialize (Hx y Hy). unfold before in Hx. left. lia.
  - rewrite !valid_ids_cons, IH by done. destruct (StandbyTransactionIdIsPrepared x) eqn:Ep.
    + rewrite filter_cons_True by (by right). done.
    + rewrite filter_cons_False; [done|]. intros [?|?]; [lia|congruence].
Qed.

Lemma preceding_spec r k xs v : known_is k xs v → inside r →
  known_is (KnownAssignedXidsRemovePreceding r k) (filter (kept r) xs) v.
Proof.
  intros (l & Hrep & <- & Hv) Hr. unfold KnownAssignedXidsRemovePreceding, TransactionIdIsValid.
  rewrite (proj2 (Z.eqb_neq _ _)) by (apply normal_not_invalid, Hr). cbn [negb]. destruct Hrep as [Hm (pre & post & Ec & Et & Eh) Hi Hs Hn].
  rewrite Ec, Et, Eh, Nat.add_comm, Nat.add_sub, prune_list.
  assert (El : length (prune r l) = length l) by (by rewrite <-(length_fmap fst), prune_fst, length_fmap).
  rewrite <-El at 1. rewrite first_valid_list, <-Et, <-prune_valid by done. apply compress_known, move_tail_known; [|by rewrite prune_fst].
  split; cbn; rewrite ?prune_fst; [|exists pre, post; rewrite El, Et, Eh; done|done|done|lia].
  rewrite Hm, Ec, !length_app, El. done.
Qed.

Lemma reset_known k xs v v' : known_is k xs v → known_is (KnownAssignedXidsReset k) [] v'.
Proof. intros (l & [Hm _ _ _ _] & _ & _). apply rep_empty. split; [done|by exists [], (cells k)|constructor|constructor|done]. Qed.

(** *** Reading *)

Lemma below_filter xmax xs : StronglySorted before xs → Forall inside xs → inside xmax → below xmax xs = filter (λ y, ord y < ord xmax) xs.
Proof.
  intros Hs Hi Hx. assert (Hv : TransactionIdIsValid xmax = true).
  { unfold TransactionIdIsValid. by rewrite (proj2 (Z.eqb_neq _ _)) by (apply normal_not_invalid, Hx). }
  induction xs as [|x xs IH]; [done|]. rewrite StronglySorted_cons, Forall_cons in *. destruct Hs as [Hxs Hs], Hi as [Hix Hi].
  cbn [below]. rewrite Hv, (follows_or_equals_ord w) by done. cbn [andb]. destruct (Z.leb_spec (ord xmax) (ord x)).
  - symmetry. apply filter_none. intros y [->|Hy]%elem_of_cons; [lia|]. rewrite Forall_forall in Hxs. specialize (Hxs y Hy). unfold before in Hxs. lia.
  - rewrite filter_cons_True by done. f_equal. auto.
Qed.

Lemma get_spec xmin xmax k xs v : known_is k xs v → inside xmax →
  KnownAssignedXidsGetAndSetXmin xmin xmax k =
  (filter (λ y, ord y < ord xmax) xs, match xs with x :: _ => if TransactionIdPrecedes x xmin then x else xmin | [] => xmin end).
Proof.
  intros Hk Hx. destruct (known_sorted _ _ _ Hk) as (Hs & Hi & _). destruct Hk as (l & [_ (pre & post & Ec & Et & Eh) _ _ _] & <- & _).
  unfold KnownAssignedXidsGetAndSetXmin. rewrite Ec, Et, Eh, Nat.add_comm, Nat.add_sub, get_list, below_filter by done. done.
Qed.

Lemma oldest_known k xs v : known_is k xs v → KnownAssignedXidsGetOldestXmin k = default InvalidTransactionId (head xs).
Proof.
  intros (l & [_ (pre & post & Ec & Et & Eh) _ _ _] & <- & _). unfold KnownAssignedXidsGetOldestXmin.
  rewrite Ec, Et, Eh, (Nat.add_comm _ (length l)), Nat.add_sub, first_valid_list, Nat.add_comm. pose proof (skipped_le l).
  destruct (Nat.ltb_spec (skipped l + length pre) (length l + length pre)) as [Hlt|Hge].
  - destruct (skipped_head l) as (x & Hx & Hh); [lia|]. rewrite lookup_app_r, lookup_app_l by lia.
    replace (skipped l + length pre - length pre)%nat with (skipped l) by lia. by rewrite Hx, Hh.
  - by rewrite skipped_all by lia.
Qed.

(** *** An array without cells *)

Lemma compress_empty force k : rep k [] → rep (KnownAssignedXidsCompress force k) [].
Proof.
  intros Hr. destruct (compress_rep force k [] Hr) as ([|c l'] & Hr' & _ & Hsub & _); [done|].
  specialize (Hsub c.1). cbn in Hsub. set_solver.
Qed.

Lemma remove_empty x k : rep k [] → KnownAssignedXidsRemove x k = k.
Proof.
  intros Hr. destruct (rp_cells _ _ Hr) as (pre & post & _ & Et & Eh). unfold KnownAssignedXidsRemove, KnownAssignedXidsSearch. cbn [search_cells].
  rewrite Et, Eh. cbn [length]. rewrite (proj2 (Z.ltb_lt _ _)) by lia. done.
Qed.

Lemma remove_tree_empty x subs k : rep k [] → rep (KnownAssignedXidsRemoveTree x subs k) [].
Proof.
  intros Hr. unfold KnownAssignedXidsRemoveTree. apply compress_empty.
  assert (E : ∀ ys, foldl (λ k x, KnownAssignedXidsRemove x k) k ys = k) by (intros ys; induction ys; cbn [foldl]; [done|by rewrite remove_empty]).
  case_match; rewrite ?remove_empty by done; by rewrite E.
Qed.

Lemma reset_empty k xs v : known_is k xs v → rep (KnownAssignedXidsReset k) [].
Proof. intros (l & [Hm _ _ _ _] & _ & _). split; [done|by exists [], (cells k)|constructor|constructor|done]. Qed.

Lemma preceding_empty r k : rep k [] → rep (KnownAssignedXidsRemovePreceding r k) [].
Proof.
  intros Hr. pose proof Hr as [Hm (pre & post & Ec & Et & Eh) _ _ Hn]. unfold KnownAssignedXidsRemovePreceding.
  case_match; [apply (reset_empty _ [] 0); by apply rep_empty|]. rewrite Et, Eh. cbn [length]. rewrite Nat.add_0_r, Nat.sub_diag. cbn [prune_cells first_valid].
  apply compress_empty. unfold move_tail. rewrite Eh. cbn [length]. rewrite Nat.add_0_r, Nat.leb_refl.
  split; cbn; [done|by exists [], (cells k)|constructor|constructor|]. rewrite Hn. done.
Qed.

Lemma preceding_max r k : maxKnownAssignedXids (KnownAssignedXidsRemovePreceding r k) = maxKnownAssignedXids k.
Proof.
  unfold KnownAssignedXidsRemovePreceding. case_match; [done|]. destruct (prune_cells _ _ _ _) as [c n]. unfold KnownAssignedXidsCompress.
  case_match; [unfold move_tail; by case_match|]. destruct (compress_cells _ _ _ _). unfold move_tail. by case_match.
Qed.
End Known.

(** ** Replay *)

Lemma on_known_spec {A} (m : proc known A) (Q : outcome A → standby → Prop) s :
  wp m (λ o k, Q o (with_known k s)) (known_xids s) → wp (on_known m) Q s.
Proof. unfold wp, on_known. by destruct (m (known_xids s)). Qed.

Lemma on_subtrans_spec {A} (m : proc (slru sub_page) A) (Q : outcome A → standby → Prop) s :
  wp m (λ o t, Q o (with_subtrans t s)) (sb_subtrans s) → wp (on_subtrans m) Q s.
Proof. unfold wp, on_subtrans. by destruct (m (sb_subtrans s)). Qed.

Section StandbyFacts.
Context {env : TransamEnv} {kenv : KnownEnv} {slog : StandbyLog} (w : Z) (Hw : normal w).

Notation ord := (ord w).
Notation inside := (inside w).
Notation known_is := (known_is w).

(** ** The subtransaction log *)

(** The entries for a list of ids. *)
Fixpoint extend_each (l : list Z) : proc (slru sub_page) unit :=
  match l with [] => ret tt | x :: l => ExtendSUBTRANS x;; extend_each l end.

Lemma extend_after_each fuel m a b s : inside a → inside b → leads w m a b → (m < fuel)%nat →
  extend_after fuel a b s = on_subtrans (extend_each (next_ids m (TransactionIdAdvance a))) s.
Proof.
  induction fuel as [|fuel IH] in m, a, s |- *; intros Ha Hb Hl Hm; [lia|]. cbn [extend_after]. rewrite (precedes_ord w) by done.
  destruct m as [|m]; cbn [leads] in Hl.
  - subst b. rewrite Z.ltb_irrefl. cbn. by destruct s.
  - destruct Hl as [Hlt Hl]. rewrite (proj2 (Z.ltb_lt _ _)) by done. destruct (advance_ord w Hw a b Ha Hb Hlt) as [Ha' _].
    cbn [next_ids extend_each]. unfold bind at 1. unfold on_subtrans at 1 2. unfold bind at 1.
    destruct (ExtendSUBTRANS _ (sb_subtrans s)) as [[[]| | |] t]; try done. rewrite (IH m) by (done || lia).
    unfold on_subtrans. cbn [sb_subtrans with_subtrans]. by destruct (extend_each _ t).
Qed.

(** The ids behind [a], up to [b]. *)
Definition after (a b : Z) : list Z := range (TransactionIdAdvance a) b.

Lemma leads_bound m a b : inside a → inside b → leads w m a b → Z.of_nat m ≤ ord b - ord a.
Proof.
  intros Ha Hb. induction m as [|m IH] in a, Ha |- *; intros Hl; cbn [leads] in Hl; [subst; lia|]. destruct Hl as [Hlt Hl].
  destruct (advance_ord w Hw a b Ha Hb Hlt) as [Ha' Hle]. specialize (IH _ Ha' Hl). lia.
Qed.

Lemma after_leads a b : inside a → inside b → ord a < ord b → ∃ m, leads w m a b ∧ after a b = next_ids m (TransactionIdAdvance a) ∧ Z.of_nat m ≤ ord b - ord a.
Proof.
  intros Ha Hb Hlt. destruct (advance_ord w Hw a b Ha Hb Hlt) as [Ha' Hle].
  destruct (nxids_leads w Hw _ _ Ha' Hb ltac:(lia)) as (m & E & Hl). exists (S m). split_and!; [by split|unfold after, range; by rewrite E|].
  pose proof (leads_bound m _ b Ha' Hb Hl). lia.
Qed.

Lemma after_spec a b : inside a → inside b → ord a < ord b →
  StronglySorted (before w) (after a b) ∧ ∀ y, y ∈ after a b ↔ inside y ∧ ord a < ord y ≤ ord b.
Proof.
  intros Ha Hb Hlt. destruct (advance_ord w Hw a b Ha Hb Hlt) as [Ha' Hle]. destruct (range_spec w Hw _ _ Ha' Hb ltac:(lia)) as [Hs Hy].
  split; [done|]. intros y. rewrite Hy. destruct (ord_next w a Ha Ha') as [? Hgap]. split; intros [Hi ?]; (split; [done|]).
  - lia.
  - split; [|lia]. destruct (Z.lt_ge_cases (ord y) (ord (TransactionIdAdvance a))) as [Hg|]; [apply Hgap in Hg; [lia|done]|done].
Qed.

Lemma gap_u32 a b : ord a ≤ ord b → ord b - ord a ≤ u32 (b - a).
Proof. unfold ProcArrayFacts.ord, ahead, u32. Z.to_euclidean_division_equations. lia. Qed.

(** ** Ids *)

Definition behind (v x : Z) : list Z := if ord v <? ord x then after v x else [].

Definition tracks (s : standby) : Prop := standbyState s = STANDBY_SNAPSHOT_PENDING ∨ standbyState s = STANDBY_SNAPSHOT_READY.

(** What else is in the state. *)
Definition same_vars (s s' : standby) : Prop :=
  standbyState s' = standbyState s ∧ standbySnapshotPendingXmin s' = standbySnapshotPendingXmin s ∧
  lastOverflowedXid s' = lastOverflowedXid s ∧ sb_latestCompletedXid s' = sb_latestCompletedXid s ∧
  maxKnownAssignedXids (known_xids s') = maxKnownAssignedXids (known_xids s).

Definition latest (v x : Z) : Z := if ord v <? ord x then x else v.

(** The ids up to [x] are observed, or the subtransaction log could not be extended, or there is no room. *)
Definition observes (x : Z) (xs : list Z) (s : standby) (o : outcome unit) (s' : standby) : Prop :=
  let v := latestObservedXid s in
  match o with
  | Ret _ => same_vars s s' ∧ latestObservedXid s' = latest v x ∧ known_is (known_xids s') xs (latest v x)
  | o => (extend_each (behind v x) (sb_subtrans s)).1 = o ∨
         o = ERROR ∧ maxKnownAssignedXids (known_xids s) < Z.of_nat (length xs)
  end.

Lemma extend_after_spec a x (Q : outcome unit → standby → Prop) s : inside a → inside x → ord a < ord x →
  (∀ t, Q (extend_each (after a x) (sb_subtrans s)).1 (with_subtrans t s)) →
  wp (extend_after (S (Z.to_nat (u32 (x - a)))) a x) Q s.
Proof.
  intros Ha Hx Hlt HQ. destruct (after_leads a x Ha Hx Hlt) as (m & Hl & Ea & Hm). pose proof (gap_u32 a x ltac:(lia)).
  unfold wp. rewrite (extend_after_each _ m) by (done || lia). rewrite <-Ea. unfold on_subtrans. specialize (HQ (extend_each (after a x) (sb_subtrans s)).2).
  by destruct (extend_each _ _).
Qed.

Lemma record_spec x xs s : tracks s → inside (latestObservedXid s) → inside x → known_is (known_xids s) xs (latestObservedXid s) →
  wp (RecordKnownAssignedTransactionIds x) (observes x (xs ++ behind (latestObservedXid s) x) s) s.
Proof.
  intros Ht Hv Hx Hk. unfold RecordKnownAssignedTransactionIds. apply proc_bind, wp_get. cbn [next]. rewrite (follows_ord w) by done.
  unfold observes, behind, latest. set (v := latestObservedXid s) in *. destruct (Z.ltb_spec (ord v) (ord x)) as [Hlt|Hge].
  2:{ apply proc_ret. by rewrite app_nil_r. }
  apply proc_bind, extend_after_spec; [done..|]. intros t. destruct (extend_each _ _).1 as [[]| | |]; cbn [next]; [|by left..].
  rewrite bool_decide_false by (intros [E|E]; destruct Ht; congruence).
  destruct (advance_ord w Hw v x Hv Hx Hlt) as [Ha Hle].
  apply proc_bind, on_known_spec. eapply proc_mono; [apply (add_spec w Hw _ x _ xs v); [done..|lia]|].
  intros o k [Em Ho]. destruct o as [[]| | |]; cbn [next]; [|right; split; [done|]|done..].
  - apply proc_bind, wp_modify. cbn [next]. apply wp_modify. cbn. split_and!; [|done|apply Ho]. by split_and!.
  - destruct Ho as [_ [[_ Hbad]|Hfull]]; [lia|]. by rewrite length_app.
Qed.

Lemma record_initialized x s : standbyState s = STANDBY_INITIALIZED → inside (latestObservedXid s) → inside x →
  wp (RecordKnownAssignedTransactionIds x) (λ o s', match o with
    | Ret _ => same_vars s s' ∧ latestObservedXid s' = latest (latestObservedXid s) x ∧ known_xids s' = known_xids s
    | o => (extend_each (behind (latestObservedXid s) x) (sb_subtrans s)).1 = o
    end) s.
Proof.
  intros Hst Hv Hx. unfold RecordKnownAssignedTransactionIds. apply proc_bind, wp_get. cbn [next]. rewrite (follows_ord w) by done.
  unfold behind, latest. set (v := latestObservedXid s) in *. destruct (Z.ltb_spec (ord v) (ord x)) as [Hlt|Hge]; [|by apply proc_ret].
  apply proc_bind, extend_after_spec; [done..|]. intros t. destruct (extend_each _ _).1 as [[]| | |]; cbn [next]; [|done..].
  rewrite bool_decide_true by (by right). by apply wp_modify.
Qed.

(** ** Ends *)

Lemma expire_spec x subs m xs v s : known_is (known_xids s) xs v → inside x → Forall inside subs →
  wp (ExpireTreeKnownAssignedTransactionIds x subs m) (λ o s',
    o = Ret tt ∧ latestObservedXid s' = latestObservedXid s ∧ standbyState s' = standbyState s ∧
    standbySnapshotPendingXmin s' = standbySnapshotPendingXmin s ∧ lastOverflowedXid s' = lastOverflowedXid s ∧
    sb_latestCompletedXid s' = (if TransactionIdPrecedes (sb_latestCompletedXid s) m then m else sb_latestCompletedXid s) ∧
    known_is (known_xids s') (minus (x :: subs) xs) v) s.
Proof.
  intros Hk Hx Hs. unfold ExpireTreeKnownAssignedTransactionIds. apply proc_bind, on_known_spec, wp_modify. cbn [next]. apply wp_modify.
  assert (H' : known_is (KnownAssignedXidsRemoveTree x subs (known_xids s)) (minus (x :: subs) xs) v) by (by apply remove_tree_spec).
  cbn. by case_match.
Qed.

Lemma set_parents_spec top subs s : wp (set_parents top subs) (λ o s', ∃ t, s' = with_subtrans t s) s.
Proof.
  induction subs as [|x subs IH] in s |- *; cbn [set_parents]; [apply proc_ret; exists (sb_subtrans s); by destruct s|].
  apply proc_bind, on_subtrans_spec. unfold wp. destruct (SubTransSetParent x top (sb_subtrans s)) as [[[]| | |] t]; cbn; try by exists t.
  eapply proc_mono; [apply IH|]. intros o s' [t' ->]. by exists t'.
Qed.

Lemma latest_tree x subs : inside x → Forall inside subs →
  inside (TransactionIdLatest x subs) ∧ TransactionIdLatest x subs ∈ x :: subs ∧ Forall (λ y, ord y ≤ ord (TransactionIdLatest x subs)) (x :: subs).
Proof.
  intros Hx. induction subs as [|y subs IH]; intros Hs; [split_and!; [done|by left|by repeat constructor]|]. apply Forall_cons in Hs as [Hy Hs].
  destruct (IH Hs) as (Hi & Hin & Hle). apply Forall_cons in Hle as [Hlx Hle]. cbn [TransactionIdLatest foldr]. fold (TransactionIdLatest x subs).
  rewrite (precedes_ord w) by done. destruct (Z.ltb_spec (ord (TransactionIdLatest x subs)) (ord y)).
  - split_and!; [done|set_solver|]. repeat (apply Forall_cons; split); [lia|lia|]. eapply Forall_impl; [exact Hle|]. cbn. lia.
  - split_and!; [done|set_solver|]. by repeat (apply Forall_cons; split).
Qed.

(** ** The running transactions *)

(** The order of the sort is not that of the ids. *)
Definition wraps (l : list Z) : Prop := ∃ x y, x ∈ l ∧ y ∈ l ∧ x < y ∧ ord y < ord x.

(** The ids [l] behind [p]. *)
Definition adds_all (p : Z) (l xs : list Z) (k : known) (o : outcome unit) (k' : known) : Prop :=
  maxKnownAssignedXids k' = maxKnownAssignedXids k ∧
  match o with
  | Ret _ => ∃ ys v, known_is k' ys v ∧ v ∈ p :: l ∧ (∀ y, y ∈ ys ↔ y ∈ xs ∨ y ∈ l) ∧ Forall (λ y, ord p ≤ ord y) l ∧ ¬ wraps (p :: l)
  | ERROR => wraps (p :: l) ∨ maxKnownAssignedXids k < Z.of_nat (length xs + length l)
  | _ => False
  end.

Lemma range_single x : range x x = [x].
Proof. unfold range, nxids. rewrite Z.leb_refl, Z.sub_diag. done. Qed.

Lemma wraps_cons p x l : StronglySorted Z.le (p :: x :: l) → ord p < ord x → Forall (λ y, ord x ≤ ord y) l → ¬ wraps (x :: l) → ¬ wraps (p :: x :: l).
Proof.
  intros [Hp _]%StronglySorted_cons Hlt Hle Hnw (a & b & Ha & Hb & Hab & Ho). rewrite Forall_forall in Hp, Hle.
  apply elem_of_cons in Ha as [->|Ha], Hb as [->|Hb]; [lia| |specialize (Hp a Ha); lia|apply Hnw; by exists a, b].
  apply elem_of_cons in Hb as [->|Hb]; [lia|]. specialize (Hle b Hb). lia.
Qed.

Lemma add_each_spec p l xs k : known_is k xs p → p ∈ xs → inside p → Forall inside l → StronglySorted Z.le (p :: l) →
  wp (add_each (Some p) l) (adds_all p l xs k) k.
Proof.
  induction l as [|x l IH] in p, xs, k |- *; intros Hk Hp Hip Hi Hs; cbn [add_each].
  { apply proc_ret. split; [done|]. exists xs, p. split_and!; [done|by left|set_solver|done|].
    intros (y & z & Hy & Hz & ? & ?). apply list_elem_of_singleton in Hy, Hz. lia. }
  apply Forall_cons in Hi as [Hx Hi]. pose proof Hs as Hs0. apply StronglySorted_cons in Hs as [Hps Hs]. apply proc_bind. case_bool_decide as E.
  { injection E as <-. apply proc_ret. cbn [next]. eapply proc_mono; [by apply (IH p xs)|]. intros o k' [Em Ho]. split; [done|]. destruct o; try done.
    - destruct Ho as (ys & v & ? & ? & Hy & Hle & Hnw). exists ys, v. split_and!; [done|set_solver|intros y; rewrite Hy; set_solver|by constructor|].
      intros (y & z & ? & ? & ?). apply Hnw. exists y, z. set_solver.
    - destruct Ho as [(a & b & ? & ? & ?)|?]; [left; exists a, b; set_solver|right; cbn [length] in *; lia]. }
  assert (Hpx : p < x) by (apply Forall_cons in Hps as [? _]; assert (p ≠ x) by congruence; lia).
  eapply proc_mono; [apply (add_spec w Hw x x k xs p); [done..|lia]|]. intros o k' [Em Ho]. destruct o as [[]| | |]; cbn [next]; try done.
  - destruct Ho as [Hk' Hlt]. rewrite range_single in Hk'. eapply proc_mono; [apply (IH x (xs ++ [x])); [done|set_solver|done..]|].
    intros o k'' [Em' Ho]. split; [congruence|]. destruct o; try done.
    + destruct Ho as (ys & v & ? & ? & Hy & Hle & Hnw). assert (Hpx' : ord p < ord x) by (rewrite Forall_forall in Hlt; auto).
      exists ys, v. split_and!; [done|by right| |constructor; [lia|eapply Forall_impl; [exact Hle|]; cbn; lia]|by apply wraps_cons].
      intros y. rewrite Hy, elem_of_app, !elem_of_cons, elem_of_nil. split; intros; repeat destruct_or?; subst; tauto.
    + destruct Ho as [(a & b & ? & ? & ?)|?]; [left; exists a, b; set_solver|right; rewrite length_app in *; cbn [length] in *; lia].
  - split; [done|]. destruct Ho as [_ [[_ Hbad]|Hfull]]; [left|right; rewrite range_single in Hfull; cbn [length] in *; lia].
    exists p, x. split_and!; [set_solver|set_solver|done|]. destruct (Z.eq_dec (ord x) (ord p)) as [E'|]; [|lia].
    apply (ord_inj w) in E'; [lia|apply Hx|apply Hip].
Qed.

#[global] Instance xid_sorts_total : Total xid_sorts.
Proof. intros x y. unfold xid_sorts, xidComparator. destruct (Z.ltb_spec y x), (Z.ltb_spec x y); lia. Qed.

Lemma xid_sorts_le x y : xid_sorts x y ↔ x ≤ y.
Proof. unfold xid_sorts, xidComparator. destruct (Z.ltb_spec y x), (Z.ltb_spec x y); lia. Qed.

#[global] Instance xid_sorts_trans : Transitive xid_sorts.
Proof. intros x y z. rewrite !xid_sorts_le. lia. Qed.

Lemma sort_ids l : StronglySorted Z.le (merge_sort xid_sorts l) ∧ merge_sort xid_sorts l ≡ₚ l.
Proof.
  split; [|apply merge_sort_Permutation]. assert (Hs : StronglySorted xid_sorts (merge_sort xid_sorts l)) by apply (StronglySorted_merge_sort xid_sorts).
  induction Hs as [|x xs Hs IH Hx]; constructor; [done|]. eapply Forall_impl; [exact Hx|]. intros y. apply xid_sorts_le.
Qed.

(** An empty array gets the ids of the list. *)
Lemma add_running_spec l k : rep w k [] → Forall inside l →
  wp (add_running l) (λ o k', maxKnownAssignedXids k' = maxKnownAssignedXids k ∧ match o with
    | Ret _ => ¬ wraps l ∧ ((l = [] ∧ k' = k) ∨ ∃ ys v, known_is k' ys v ∧ v ∈ l ∧ ∀ y, y ∈ ys ↔ y ∈ l)
    | ERROR => wraps l ∨ maxKnownAssignedXids k < Z.of_nat (length l)
    | _ => False
    end) k.
Proof.
  intros Hr Hi. unfold add_running. case_bool_decide as E.
  { subst l. apply proc_ret. split; [done|]. split; [|by left]. intros (a & b & Ha & _). by apply elem_of_nil in Ha. }
  apply proc_bind, wp_get. cbn [next].
  rewrite (rp_num _ _ _ Hr). cbn [valid_ids omap list_omap length Z.of_nat Z.eqb negb]. destruct (sort_ids l) as [Hs Hp].
  assert (Hi' : Forall inside (merge_sort xid_sorts l)) by (by rewrite Hp). destruct (merge_sort xid_sorts l) as [|x l']; [by apply Permutation_nil in Hp|].
  apply Forall_cons in Hi' as [Hx Hi']. cbn [add_each]. rewrite bool_decide_false by done. apply proc_bind.
  eapply proc_mono; [apply (add_spec w Hw x x k [] x); [by apply rep_empty|done|done|lia]|]. intros o k' [Em Ho]. rewrite range_single in Ho.
  pose proof (Permutation_length Hp) as Hlen. destruct o as [[]| | |]; cbn [next]; try done.
  - destruct Ho as [Hk' _]. eapply proc_mono; [apply (add_each_spec x l' [x]); [done|set_solver|done..]|]. intros o k'' [Em' Ho]. split; [congruence|]. destruct o; try done.
    + destruct Ho as (ys & v & ? & ? & Hy & _ & Hnw). split; [intros (y & z & Hy' & Hz & ?); apply Hnw; exists y, z; by rewrite !Hp|].
      right. exists ys, v. rewrite <-Hp. split_and!; [done|done|]. intros y. rewrite Hy, <-Hp. set_solver.
    + destruct Ho as [(a & b & ? & ? & ?)|?]; [left; exists a, b; by rewrite <-Hp|right; cbn [length] in *; lia].
  - split; [done|]. destruct Ho as [_ [[Hne _]|Hfull]]; [|right; cbn [length] in *; lia]. exfalso.
    destruct (rp_cells _ _ _ Hr) as (pre & post & _ & Et & Eh). cbn in Eh. lia.
Qed.

(** *** The ids in front of the next one *)

Lemma retreat_spec v n : inside v → inside n → ord v < ord n → let r := TransactionIdRetreat n in
  inside r ∧ TransactionIdAdvance r = n ∧ ord v ≤ ord r < ord n ∧ ∀ y, inside y → ord y < ord n → ord y ≤ ord r.
Proof.
  intros Hv Hn Hlt. cbv zeta. assert (Hr : inside (TransactionIdRetreat n) ∧ TransactionIdAdvance (TransactionIdRetreat n) = n).
  { unfold TransactionIdRetreat, TransactionIdAdvance, ProcArrayFacts.inside, ProcArrayFacts.ord, ahead, normal, MaxTransactionId, FirstNormalTransactionId, u32 in *.
    repeat case_match; rewrite ?Z.ltb_lt, ?Z.ltb_ge in *; Z.to_euclidean_division_equations; lia. }
  destruct Hr as [Hi Ha]. assert (Hgap := ord_next w _ Hi). rewrite Ha in Hgap. destruct (Hgap Hn) as [H1 H2]. split_and!; auto.
Qed.

Lemma extend_upto_spec fuel m n s : inside (latestObservedXid s) → inside n → leads w m (latestObservedXid s) n → (m < fuel)%nat →
  wp (extend_upto fuel n) (λ o s', match o with
    | Ret _ => ∃ t, s' = set_observed n (with_subtrans t s)
    | o => (extend_each (next_ids m (latestObservedXid s)) (sb_subtrans s)).1 = o
    end) s.
Proof.
  induction fuel as [|fuel IH] in m, s |- *; intros Ha Hn Hl Hm; [lia|]. cbn [extend_upto]. apply proc_bind, wp_get. cbn [next].
  rewrite (precedes_ord w) by done. destruct m as [|m]; cbn [leads] in Hl.
  { rewrite Hl, Z.ltb_irrefl. apply proc_ret. exists (sb_subtrans s). destruct s; cbn in *; by subst. }
  destruct Hl as [Hlt Hl]. rewrite (proj2 (Z.ltb_lt _ _)) by done. destruct (advance_ord w Hw _ n Ha Hn Hlt) as [Ha' _].
  apply proc_bind, on_subtrans_spec. cbn [next_ids extend_each]. set (x := latestObservedXid s) in *. unfold wp at 1.
  destruct (ExtendSUBTRANS x (sb_subtrans s)) as [o t] eqn:E. assert (Ebind : bind (ExtendSUBTRANS x) (λ _, extend_each (next_ids m (TransactionIdAdvance x)))
    (sb_subtrans s) = match o with Ret _ => extend_each (next_ids m (TransactionIdAdvance x)) t | ERROR => (ERROR, t) | FATAL => (FATAL, t) | PANIC => (PANIC, t) end).
  { unfold bind. rewrite E. by destruct o. }
  rewrite Ebind. destruct o as [[]| | |]; cbn [fst snd next]; [|done..].
  apply proc_bind, wp_modify. cbn [next]. eapply proc_mono; [apply (IH m); [done..|lia]|]. intros o s'. destruct o; [|done..]. intros [t' ->]. by exists t'.
Qed.

(** The subtransaction log cannot be extended for the ids behind [v] and in front of [n]. *)
Definition not_extended (v n : Z) (t : slru sub_page) (o : outcome unit) : Prop :=
  ∃ m, leads w m (TransactionIdAdvance v) n ∧ (extend_each (next_ids m (TransactionIdAdvance v)) t).1 = o.

(** Where the observed ids end after a list with [n] as the next id. *)
Lemma observe_running_spec n s : inside (latestObservedXid s) → inside n → ord (latestObservedXid s) < ord n →
  wp (observe_running n) (λ o s', match o with
    | Ret _ => ∃ t, s' = set_observed (TransactionIdRetreat n) (with_subtrans t s)
    | o => not_extended (latestObservedXid s) n (sb_subtrans s) o
    end) s.
Proof.
  intros Hv Hn Hlt. unfold observe_running. apply proc_bind, wp_modify. cbn [next]. apply proc_bind, wp_get. cbn [next].
  destruct (advance_ord w Hw _ n Hv Hn Hlt) as [Ha Hle]. destruct (after_leads _ n Hv Hn Hlt) as (m & Hl & _ & Hm).
  destruct m as [|m]; cbn [leads] in Hl; [rewrite Hl in Hlt; lia|]. destruct Hl as [_ Hl]. pose proof (gap_u32 _ n (proj2 Hle)).
  apply proc_bind. eapply proc_mono; [apply (extend_upto_spec _ m); [done|done|done|]|].
  { cbn [latestObservedXid set_observed]. assert (Hm' : Z.of_nat m ≤ ord n - ord (TransactionIdAdvance (latestObservedXid s))) by by apply leads_bound. lia. }
  intros o s'. destruct o; cbn [next]; [|by exists m..]. intros [t ->]. apply wp_modify. by exists t.
Qed.

(** The first snapshot, or why there is none. *)
Definition initialises (r : RunningTransactionsData) (s : standby) (o : outcome unit) (s' : standby) : Prop :=
  let v := TransactionIdRetreat (r_nextXid r) in
  match o with
  | Ret _ => ¬ wraps (not_completed (xids r)) ∧ latestObservedXid s' = v ∧ (∃ ys, known_is (known_xids s') ys v ∧ ∀ y, y ∈ ys ↔ y ∈ not_completed (xids r)) ∧
      standbyState s' = (if subxid_overflow r then STANDBY_SNAPSHOT_PENDING else STANDBY_SNAPSHOT_READY) ∧
      (subxid_overflow r = true → standbySnapshotPendingXmin s' = v) ∧
      lastOverflowedXid s' = (if subxid_overflow r then v else lastOverflowedXid s) ∧
      sb_latestCompletedXid s' =
        (if TransactionIdPrecedes (sb_latestCompletedXid s) (r_latestCompletedXid r) then r_latestCompletedXid r else sb_latestCompletedXid s) ∧
      maxKnownAssignedXids (known_xids s') = maxKnownAssignedXids (known_xids s)
  | o => not_extended (latestObservedXid s) (r_nextXid r) (sb_subtrans s) o ∨
         o = ERROR ∧ (wraps (not_completed (xids r)) ∨ maxKnownAssignedXids (known_xids s) < Z.of_nat (length (not_completed (xids r))))
  end.

Lemma initialise_spec r s : rep w (known_xids s) [] → inside (latestObservedXid s) → inside (r_nextXid r) →
  ord (latestObservedXid s) < ord (r_nextXid r) → Forall (λ y, inside y ∧ ord y < ord (r_nextXid r)) (not_completed (xids r)) →
  wp (initialise_running r) (initialises r s) s.
Proof.
  intros Hr Hv Hn Hlt Hl. unfold initialise_running. set (l := not_completed (xids r)) in *. set (n := r_nextXid r) in *.
  destruct (retreat_spec _ n Hv Hn Hlt) as (Hri & _ & _ & Hgap). apply proc_bind, on_known_spec.
  eapply proc_mono; [apply (add_running_spec l); [done|eapply Forall_impl; [exact Hl|by intros ? [? _]]]|]. intros o k [Em Ho].
  destruct o as [[]| | |]; cbn [next]; [|right; split; [done|]; done|done|done].
  apply proc_bind. eapply proc_mono; [apply (observe_running_spec n); done|]. intros o s1 Ho1. destruct o as [[]| | |]; cbn [next]; [|by left..].
  destruct Ho1 as [t ->]. apply proc_bind, wp_modify. cbn [next]. apply proc_bind, wp_modify. cbn [next]. apply wp_modify.
  assert (Hk : ∃ ys, known_is k ys (TransactionIdRetreat n) ∧ ∀ y, y ∈ ys ↔ y ∈ l).
  { destruct Ho as [_ [[El ->]|(ys & v & Hk & Hin & Hy)]]; [exists []; split; [by apply rep_empty|by rewrite El]|].
    exists ys. split; [|done]. eapply known_bound; [exact Hk|]. rewrite Forall_forall in Hl. destruct (Hl v Hin). by apply Hgap. }
  destruct Ho as [Hnw _]. unfold initialises. fold n l. destruct (subxid_overflow r); cbn; repeat case_match; cbn; by split_and!.
Qed.
End StandbyFacts.
