(* ===== verification/StandbyRun.v ===== *)
(** * A standby and its primary

    The primary assigns ids in their order and writes records; the standby replays them.  Whatever the
    primary does, the standby knows which transactions run there, or knows that it does not.

    All ids of a run lie in a window of half of all ids that begins at [w]; [top_of] is the top-level transaction
    of an id on the primary. *)
From stdpp Require Import sorting.
From S2P Require Import Prelude Proc DistributedSnapshot Slru DistribLog DistribLogRun DistribLogSpec Clog SubTrans SubTransFacts TransAm Varsup ProcArrayFacts Standby StandbyFacts.

(** The transactions and subtransactions that run, those that were lost without a record of their end, the
    subtransactions that were reported as such, and the next id, at the place in the log that is replayed. *)
Record primary := mkPrimary { p_running : gset Z; p_lost : gset Z; p_reported : gset Z; p_next : Z }.

Definition p_ids (p : primary) : gset Z := p_running p ∪ p_lost p.

Definition end_trees (xs : gset Z) (p : primary) : primary := mkPrimary (p_running p ∖ xs) (p_lost p) (p_reported p) (p_next p).

Section StandbyRun.
Context {env : TransamEnv} {kenv : KnownEnv} (w : Z) (Hw : normal w) (top_of : Z → Z).

Notation ord := (ord w).
Notation inside := (inside w).
Notation known_is := (known_is w).

(** With a transaction its subtransactions end. *)
Definition whole (p : primary) (xs : gset Z) : Prop := xs ⊆ p_running p ∧ ∀ y, y ∈ p_running p → top_of y ∈ xs → y ∈ xs.

(** The replay of the end of a transaction ([xact_redo_commit_internal], [xact_redo_abort]). *)
Definition replay_end (x : Z) (subs : list Z) : proc standby unit :=
  let max_xid := TransactionIdLatest x subs in
  RecordKnownAssignedTransactionIds max_xid;;
  ExpireTreeKnownAssignedTransactionIds x subs max_xid.

(** A list of the running transactions; only if it says so may it be short of some. *)
Record lists {slog : StandbyLog} (p : primary) (r : RunningTransactionsData) : Prop := {
  li_next : r_nextXid r = p_next p;
  li_oldest : inside (oldestRunningXid r) ∧ ∀ y, y ∈ p_running p → ord (oldestRunningXid r) ≤ ord y;
  li_completed : inside (r_latestCompletedXid r) ∧ ord (r_latestCompletedXid r) < ord (p_next p);
  li_ids : ∀ y, y ∈ not_completed (xids r) → y ∈ p_ids p;
  li_all : subxid_overflow r = false → ∀ y, y ∈ p_running p → y ∈ not_completed (xids r);
}.

Inductive replay : primary * standby → primary * standby → Prop :=
  | assigns p s :
      inside (TransactionIdAdvance (p_next p)) → top_of (p_next p) = p_next p ∨ top_of (p_next p) ∈ p_running p →
      top_of (top_of (p_next p)) = top_of (p_next p) →
      replay (p, s) (mkPrimary ({[p_next p]} ∪ p_running p) (p_lost p) (p_reported p) (TransactionIdAdvance (p_next p)), s)
  | loses p s xs : whole p xs → replay (p, s) (mkPrimary (p_running p ∖ xs) (p_lost p ∪ xs) (p_reported p) (p_next p), s)
  | writes p s x s' : x ∈ p_running p → RecordKnownAssignedTransactionIds x s = (Ret tt, s') → replay (p, s) (p, s')
  | ends p s x subs s' :
      whole p (list_to_set (x :: subs)) → replay_end x subs s = (Ret tt, s') → replay (p, s) (end_trees (list_to_set (x :: subs)) p, s')
  | reports p s t subs s' :
      t ∈ p_running p → (∀ y, y ∈ subs → y ∈ p_running p ∧ top_of y = t ∧ y ≠ t) → ProcArrayApplyXidAssignment t subs s = (Ret tt, s') →
      replay (p, s) (mkPrimary (p_running p) (p_lost p) (p_reported p ∪ list_to_set subs) (p_next p), s')
  | snapshots (slog : StandbyLog) p s r s' :
      lists p r → ProcArrayApplyRecoveryInfo r s = (Ret tt, s') → replay (p, s) (p, s').

(** ** What holds *)

Definition hidden (s : standby) (y : Z) : Prop := inside (lastOverflowedXid s) ∧ ord y ≤ ord (lastOverflowedXid s).

(** The list has only ids that run or were lost, and those that run and are not in it are accounted for. *)
Definition covers (p : primary) (s : standby) (xs : list Z) : Prop :=
  (∀ y, y ∈ xs → y ∈ p_ids p) ∧
  (∀ y, y ∈ p_running p → ord y ≤ ord (latestObservedXid s) → y ∈ xs ∨ y ∈ p_reported p ∧ hidden s y ∨
    standbyState s = STANDBY_SNAPSHOT_PENDING ∧ ord y ≤ ord (standbySnapshotPendingXmin s) ∧ hidden s y) ∧
  (standbyState s = STANDBY_SNAPSHOT_PENDING → inside (standbySnapshotPendingXmin s)).

Definition known_agrees (p : primary) (s : standby) : Prop :=
  standbyState s = STANDBY_INITIALIZED ∧ rep w (known_xids s) [] ∨
  tracks s ∧ ∃ xs, known_is (known_xids s) xs (latestObservedXid s) ∧ covers p s xs.

Record primary_ok (p : primary) : Prop := {
  po_next : inside (p_next p);
  po_ids : ∀ y, y ∈ p_ids p → inside y ∧ ord y < ord (p_next p);
  po_top : ∀ y, y ∈ p_running p → top_of y ∈ p_running p ∧ top_of (top_of y) = top_of y ∧ ord (top_of y) ≤ ord y;
  po_reported : ∀ y, y ∈ p_reported p → top_of y ≠ y;
}.

Record agrees (p : primary) (s : standby) : Prop := {
  ag_seen : inside (latestObservedXid s) ∧ ord (latestObservedXid s) < ord (p_next p);
  ag_new : ∀ y, inside y → ord (latestObservedXid s) < ord y < ord (p_next p) → y ∈ p_ids p;
  ag_done : inside (sb_latestCompletedXid s) ∧ ord (sb_latestCompletedXid s) ≤ ord (latestObservedXid s);
  ag_over : lastOverflowedXid s = InvalidTransactionId ∨ inside (lastOverflowedXid s);
  ag_known : known_agrees p s;
}.

Definition returns (P : standby → Prop) (o : outcome unit) (s : standby) : Prop := match o with Ret _ => P s | _ => True end.

Lemma latest_le v x : ord v ≤ ord (latest w v x) ∧ ord x ≤ ord (latest w v x) ∧ (latest w v x = v ∨ latest w v x = x).
Proof. unfold latest. destruct (Z.ltb_spec (ord v) (ord x)); split_and!; auto; lia. Qed.

Lemma behind_spec v x y : inside v → inside x → y ∈ behind w v x ↔ inside y ∧ ord v < ord y ≤ ord x.
Proof.
  intros Hv Hx. unfold behind. destruct (Z.ltb_spec (ord v) (ord x)) as [Hlt|Hge]; [by apply (after_spec w Hw)|].
  split; [by intros ?%elem_of_nil|lia].
Qed.

Lemma covers_observed p s s' xs x : primary_ok p → agrees p s → inside x → ord x < ord (p_next p) → same_vars s s' →
  latestObservedXid s' = latest w (latestObservedXid s) x → covers p s xs → covers p s' (xs ++ behind w (latestObservedXid s) x).
Proof.
  intros Hp Ha Hx Hlt (Est & Epe & Eov & _) Ev (Hin & Hall & Hpe). destruct (ag_seen _ _ Ha) as [Hv _]. unfold covers, hidden in *. rewrite Est, Epe, Eov, Ev. split_and!; [| |done].
  - intros y [Hy|Hy]%elem_of_app; [auto|]. apply behind_spec in Hy as [? ?]; [|done..]. apply (ag_new _ _ Ha); [done|lia].
  - intros y Hy Hle. destruct (po_ids _ Hp y ltac:(unfold p_ids; set_solver)) as [Hi _].
    destruct (Z.le_gt_cases (ord y) (ord (latestObservedXid s))) as [H|H]; [destruct (Hall y Hy H) as [?|?]; [left; set_solver|by right]|].
    left. apply elem_of_app. right. apply behind_spec; [done..|]. split; [done|]. destruct (latest_le (latestObservedXid s) x) as (_ & _ & [E|E]); rewrite E in Hle; lia.
Qed.

Lemma record_agrees p s x : primary_ok p → agrees p s → inside x → ord x < ord (p_next p) →
  wp (RecordKnownAssignedTransactionIds x) (returns (λ s', agrees p s' ∧ ord x ≤ ord (latestObservedXid s') ∧ standbyState s' = standbyState s)) s.
Proof.
  intros Hp Ha Hx Hlt. destruct (ag_seen _ _ Ha) as [Hv Hvn]. destruct (latest_le (latestObservedXid s) x) as (H1 & H2 & H3).
  assert (Hrest : ∀ s', same_vars s s' → latestObservedXid s' = latest w (latestObservedXid s) x → known_agrees p s' →
    agrees p s' ∧ ord x ≤ ord (latestObservedXid s') ∧ standbyState s' = standbyState s).
  { intros s' Hs Ev Hk. pose proof Hs as (Est & _ & Eov & Eco & _). split_and!; [|by rewrite Ev|done]. split; rewrite ?Ev, ?Eco, ?Eov.
    - destruct H3 as [->| ->]; done.
    - intros y Hy ?. apply (ag_new _ _ Ha); [done|lia].
    - destruct (ag_done _ _ Ha). split; [done|lia].
    - apply Ha.
    - done. }
  destruct (ag_known _ _ Ha) as [[Hst Hr]|(Ht & xs & Hk & Hc)].
  - eapply proc_mono; [by apply (record_initialized w Hw)|]. intros o s'. destruct o; [|done..]. intros (Hs & Ev & Ek). apply Hrest; [done..|].
    left. rewrite Ek. by rewrite (proj1 Hs).
  - eapply proc_mono; [by apply (record_spec w Hw x xs)|]. intros o s'. destruct o; [|done..]. intros (Hs & Ev & Hk'). apply Hrest; [done..|].
    right. split; [unfold tracks; by rewrite (proj1 Hs)|]. eexists. rewrite Ev. split; [exact Hk'|]. by eapply covers_observed.
Qed.

(** ** Ends *)

Lemma minus_elem ys xs y : y ∈ minus ys xs ↔ y ∈ xs ∧ y ∉ ys.
Proof. unfold minus. rewrite list_elem_of_filter. tauto. Qed.

Lemma whole_ids p xs y : primary_ok p → xs ⊆ p_running p → y ∈ xs → inside y ∧ ord y < ord (p_next p).
Proof. intros Hp Hsub Hy. apply Hp. unfold p_ids. set_solver. Qed.

Lemma expire_agrees p s x subs : let m := TransactionIdLatest x subs in
  primary_ok p → agrees p s → whole p (list_to_set (x :: subs)) → ord m ≤ ord (latestObservedXid s) →
  wp (ExpireTreeKnownAssignedTransactionIds x subs m) (returns (λ s', agrees (end_trees (list_to_set (x :: subs)) p) s')) s.
Proof.
  intros m Hp Ha [Hsub Hwh] Hm. assert (Hin : ∀ y, y ∈ x :: subs → inside y) by (intros y Hy; apply (whole_ids p _ y Hp Hsub); set_solver).
  assert (Hx : inside x) by (apply Hin; left). assert (Hs : Forall inside subs) by (apply Forall_forall; intros y Hy; apply Hin; by right).
  destruct (latest_tree w Hw x subs Hx Hs) as (Hmi & _ & Hle). fold m in Hmi, Hle.
  assert (Hseen : ∀ y, y ∈ x :: subs → ord y ≤ ord (latestObservedXid s)) by (rewrite Forall_forall in Hle; intros y Hy; specialize (Hle y Hy); lia).
  assert (Hrest : ∀ s', latestObservedXid s' = latestObservedXid s → lastOverflowedXid s' = lastOverflowedXid s →
    sb_latestCompletedXid s' = (if TransactionIdPrecedes (sb_latestCompletedXid s) m then m else sb_latestCompletedXid s) →
    known_agrees (end_trees (list_to_set (x :: subs)) p) s' → agrees (end_trees (list_to_set (x :: subs)) p) s').
  { intros s' Ev Eo Ec Hk. split; rewrite ?Ev, ?Eo, ?Ec; [apply Ha| |destruct (ag_done _ _ Ha); by case_match|apply Ha|done].
    intros y Hy Hlt. pose proof (ag_new _ _ Ha y Hy Hlt) as Hold. unfold p_ids, end_trees in *. cbn in *.
    assert (y ∉ x :: subs) by (intros Hy'%Hseen; lia). set_solver. }
  destruct (ag_known _ _ Ha) as [[Hst Hr]|(Ht & xs & Hk & Hc)].
  - unfold ExpireTreeKnownAssignedTransactionIds. apply proc_bind, on_known_spec, wp_modify. cbn [next]. apply wp_modify. cbn [returns].
    assert (Hr' : rep w (KnownAssignedXidsRemoveTree x subs (known_xids s)) []) by (by apply remove_tree_empty).
    cbn [sb_latestCompletedXid with_known]. destruct (TransactionIdPrecedes (sb_latestCompletedXid s) m) eqn:E; (apply Hrest; [done|done|first [by rewrite E|done]|by left]).
  - eapply proc_mono; [by apply (expire_spec w Hw x subs m xs (latestObservedXid s))|]. intros o s' (-> & Ev & Est & Epe & Eo & Ec & Hk'). cbn [returns].
    apply Hrest; [done..|]. right. split; [unfold tracks; by rewrite Est|]. rewrite Ev. eexists. split; [exact Hk'|].
    destruct Hc as (Hc1 & Hc2 & Hc3). unfold covers, hidden, end_trees, p_ids in *. rewrite Est, Epe, Ev, Eo. cbn. split_and!; [| |done].
    + intros y [Hy Hn]%minus_elem. specialize (Hc1 y Hy). set_solver.
    + intros y [Hy Hn]%elem_of_difference Hyv. destruct (Hc2 y Hy Hyv) as [?|?]; [left; apply minus_elem; set_solver|by right].
Qed.

Lemma end_ok p xs : primary_ok p → whole p xs → primary_ok (end_trees xs p).
Proof.
  intros Hp [Hsub Hwh]. split; cbn; [apply Hp| | |apply Hp].
  - intros y Hy. apply Hp. unfold p_ids, end_trees in *. cbn in *. set_solver.
  - intros y [Hy Hn]%elem_of_difference. destruct (po_top _ Hp y Hy) as (? & ? & ?). split_and!; try done. apply elem_of_difference. split; [done|]. intros ?. by apply Hn, Hwh.
Qed.

Lemma end_agrees p s x subs : primary_ok p → agrees p s → whole p (list_to_set (x :: subs)) →
  wp (replay_end x subs) (returns (agrees (end_trees (list_to_set (x :: subs)) p))) s.
Proof.
  intros Hp Ha Hwh. assert (Hin : ∀ y, y ∈ x :: subs → inside y ∧ ord y < ord (p_next p)) by (intros y Hy; apply (whole_ids p _ y Hp (proj1 Hwh)); set_solver).
  assert (Hx : inside x) by (apply Hin; left). assert (Hs : Forall inside subs) by (apply Forall_forall; intros y Hy; apply Hin; by right).
  destruct (latest_tree w Hw x subs Hx Hs) as (Hmi & Hmin & _). unfold replay_end. apply proc_bind.
  eapply proc_mono; [apply (record_agrees p); [done..|apply Hin, Hmin]|]. intros o s1. destruct o as [[]| | |]; cbn [next returns]; [|done..].
  intros (Ha1 & Hm & _). by apply expire_agrees.
Qed.

(** ** Reports of subtransactions *)

Lemma overflowed_later o m : o = InvalidTransactionId ∨ inside o → inside m → let o' := if TransactionIdPrecedes o m then m else o in
  inside o' ∧ ord m ≤ ord o' ∧ (inside o → ord o ≤ ord o').
Proof.
  intros Ho Hm. cbv zeta. destruct Ho as [->|Ho].
  - assert (Hp : TransactionIdPrecedes InvalidTransactionId m = true).
    { destruct Hm as [Hm _]. unfold TransactionIdPrecedes, normal, FirstNormalTransactionId, InvalidTransactionId in *. cbn. apply Z.ltb_lt. lia. }
    rewrite Hp. split_and!; [done|lia|]. intros [Hn _]. by apply normal_not_invalid in Hn.
  - rewrite (precedes_ord w) by done. destruct (Z.ltb_spec (ord o) (ord m)); split_and!; try done; intros; lia.
Qed.

Lemma report_agrees p s t subs : primary_ok p → agrees p s → t ∈ p_running p → (∀ y, y ∈ subs → y ∈ p_running p ∧ top_of y = t ∧ y ≠ t) →
  wp (ProcArrayApplyXidAssignment t subs) (returns (agrees (mkPrimary (p_running p) (p_lost p) (p_reported p ∪ list_to_set subs) (p_next p)))) s.
Proof.
  intros Hp Ha Ht Hsubs. assert (Hin : ∀ y, y ∈ t :: subs → inside y ∧ ord y < ord (p_next p)).
  { intros y Hy. apply Hp. unfold p_ids. apply elem_of_cons in Hy as [->|Hy%Hsubs]; set_solver. }
  assert (Hti : inside t) by (apply Hin; left). assert (Hs : Forall inside subs) by (apply Forall_forall; intros y Hy; apply Hin; by right).
  destruct (latest_tree w Hw t subs Hti Hs) as (Hmi & Hmin & Hle). unfold ProcArrayApplyXidAssignment. set (m := TransactionIdLatest t subs) in *.
  apply proc_bind. eapply proc_mono; [apply (record_agrees p s m); [done..|apply Hin, Hmin]|]. intros o s1. destruct o as [[]| | |]; cbn [next returns]; [|done..].
  intros (Ha1 & Hm & _). apply proc_bind. eapply proc_mono; [apply set_parents_spec|]. intros o s2 [t2 ->]. destruct o as [[]| | |]; cbn [next returns]; [|done..].
  apply proc_bind, wp_get. cbn [next standbyState with_subtrans]. case_bool_decide as Est.
  { apply proc_ret. destruct (ag_known _ _ Ha1) as [Hk|[[?|?] _]]; [|congruence..]. destruct Ha1 as [H1 H2 H3 H4 _]. split; [done..|by left]. }
  destruct (ag_known _ _ Ha1) as [[? _]|(Htr & xs & Hk & Hc)]; [done|].
  apply proc_bind, on_known_spec, wp_modify. cbn [next]. apply wp_modify. cbn [returns lastOverflowedXid with_known with_subtrans].
  assert (Hk' : known_is (KnownAssignedXidsRemoveTree InvalidTransactionId subs (known_xids s1)) (minus (InvalidTransactionId :: subs) xs) (latestObservedXid s1)) by (by apply remove_tree_spec).
  set (s3 := if TransactionIdPrecedes _ _ then _ else _).
  assert (E3 : latestObservedXid s3 = latestObservedXid s1 ∧ sb_latestCompletedXid s3 = sb_latestCompletedXid s1 ∧ standbyState s3 = standbyState s1 ∧
    standbySnapshotPendingXmin s3 = standbySnapshotPendingXmin s1 ∧ known_xids s3 = KnownAssignedXidsRemoveTree InvalidTransactionId subs (known_xids s1)) by (unfold s3; by case_match).
  assert (Eo : inside (lastOverflowedXid s3) ∧ ord m ≤ ord (lastOverflowedXid s3) ∧ (∀ y, hidden s1 y → hidden s3 y)) .
  { destruct (overflowed_later (lastOverflowedXid s1) m (ag_over _ _ Ha1) Hmi) as (E1 & E2 & E3').
    assert (Eov : lastOverflowedXid s3 = if TransactionIdPrecedes (lastOverflowedXid s1) m then m else lastOverflowedXid s1) by (unfold s3; by case_match).
    unfold hidden. rewrite Eov. split_and!; [done|done|]. intros y [Hi Hy]. split; [done|]. specialize (E3' Hi). lia. }
  destruct E3 as (Ev & Ec & Es & Epe & Ek), Eo as (Eo1 & Eo2 & Eo3). destruct Ha1 as [H1 H2 H3 H4 _]. split; rewrite ?Ev, ?Ec; [done..|by right|].
  right. split; [unfold tracks; by rewrite Es|]. rewrite Ek, Ev. eexists. split; [exact Hk'|]. destruct Hc as (Hc1 & Hc2 & Hc3).
  unfold covers. rewrite Ev, Es, Epe. cbn. split_and!; [| |done].
  - intros y [Hy _]%minus_elem. by apply Hc1.
  - intros y Hy Hyv. destruct (decide (y ∈ subs)) as [Hys|Hys].
    + right. left. split; [set_solver|]. split; [done|]. rewrite Forall_forall in Hle. specialize (Hle y ltac:(by right)). lia.
    + destruct (Hc2 y Hy Hyv) as [Hyx|[[? ?]|(? & ? & ?)]]; [left|right; left; split; [set_solver|auto]|right; right; auto].
      apply minus_elem. split; [done|]. intros [->|?]%elem_of_cons; [|done].
      destruct (po_ids _ Hp InvalidTransactionId) as [[Hn _] _]; [unfold p_ids; set_solver|by apply normal_not_invalid in Hn].
Qed.

(** ** Lists of the running transactions *)

Lemma prune_agrees {slog : StandbyLog} p s old : agrees p s → inside old → (∀ y, y ∈ p_running p → ord old ≤ ord y) →
  agrees p (with_known (KnownAssignedXidsRemovePreceding old (known_xids s)) s).
Proof.
  intros [H1 H2 H3 H4 Hk] Hold Hle. split; [done..|]. destruct Hk as [[Hst Hr]|(Ht & xs & Hk & Hc1 & Hc2 & Hc3)].
  - left. split; [done|]. by apply preceding_empty.
  - right. split; [done|]. eexists. split; [by apply (preceding_spec w); [exact Hk|]|]. split_and!; [| |done].
    + intros y [_ Hy]%list_elem_of_filter. auto.
    + intros y Hy Hyv. destruct (Hc2 y Hy Hyv) as [?|?]; [left|by right]. apply list_elem_of_filter. split; [|done]. left. auto.
Qed.

Lemma initialise_agrees {slog : StandbyLog} p s r : primary_ok p → lists p r → rep w (known_xids s) [] →
  inside (latestObservedXid s) ∧ ord (latestObservedXid s) < ord (p_next p) →
  inside (sb_latestCompletedXid s) ∧ ord (sb_latestCompletedXid s) ≤ ord (latestObservedXid s) →
  lastOverflowedXid s = InvalidTransactionId ∨ inside (lastOverflowedXid s) →
  wp (initialise_running r) (returns (agrees p)) s.
Proof.
  intros Hp [En _ [Hci Hcl] Hids Hall] Hr [Hv Hvn] [Hdi Hdl] Ho. destruct (retreat_spec w Hw _ _ Hv (po_next _ Hp) Hvn) as (Hri & _ & [Hvr Hrn] & Hgap).
  eapply proc_mono; [apply (initialise_spec w Hw); rewrite ?En; [done|done|apply Hp|done|]|].
  { apply Forall_forall. intros y Hy%Hids. by apply Hp. }
  intros o s'. destruct o as [[]| | |]; [|done..]. unfold initialises. rewrite En. intros (_ & Ev & (ys & Hk & Hy) & Est & Epe & Eov & Ec & _).
  cbn [returns]. split; rewrite ?Ev, ?Ec, ?Eov; [done| | | |].
  - intros y Hyi Hlt. assert (ord y ≤ ord (TransactionIdRetreat (p_next p))) by (apply Hgap; [done|lia]). lia.
  - assert (ord (r_latestCompletedXid r) ≤ ord (TransactionIdRetreat (p_next p))) by (by apply Hgap). case_match; (split; [done|lia]).
  - destruct (subxid_overflow r); [by right|done].
  - right. split; [unfold tracks; rewrite Est; destruct (subxid_overflow r); auto|]. exists ys. rewrite Ev. split; [done|]. unfold covers, hidden. rewrite Ev, Est, Eov.
    split_and!; [intros y Hin; by apply Hids, Hy| |].
    + intros y Hyr Hyv. destruct (subxid_overflow r) eqn:Eo; [right; right|left; apply Hy; auto]. rewrite (Epe eq_refl). done.
    + destruct (subxid_overflow r); [|done]. by rewrite (Epe eq_refl).
Qed.

Lemma ready_agrees p s old : agrees p s → standbyState s = STANDBY_SNAPSHOT_PENDING → inside old → (∀ y, y ∈ p_running p → ord old ≤ ord y) →
  TransactionIdPrecedes (standbySnapshotPendingXmin s) old = true → agrees p (set_state STANDBY_SNAPSHOT_READY s).
Proof.
  intros [H1 H2 H3 H4 Hk] Hst Hold Hle Hpre. split; [done..|]. destruct Hk as [[? _]|(Ht & xs & Hk & Hc1 & Hc2 & Hc3)]; [congruence|].
  right. split; [by right|]. exists xs. split; [done|]. split_and!; [done| |done]. rewrite (precedes_ord w) in Hpre by auto. apply Z.ltb_lt in Hpre.
  intros y Hy Hyv. destruct (Hc2 y Hy Hyv) as [?|[?|(_ & Hpe & _)]]; [by left|right; by left|]. specialize (Hle y Hy). lia.
Qed.

Lemma recovery_agrees {slog : StandbyLog} p s r : primary_ok p → agrees p s → lists p r → wp (ProcArrayApplyRecoveryInfo r) (returns (agrees p)) s.
Proof.
  intros Hp Ha Hl. pose proof Hl as [_ [Hold Hle] _ _ _]. unfold ProcArrayApplyRecoveryInfo, ExpireOldKnownAssignedTransactionIds.
  apply proc_bind, on_known_spec, wp_modify. cbn [next]. apply proc_bind, wp_get. cbn [next].
  pose proof (prune_agrees p s _ Ha Hold Hle) as Ha'. set (s1 := with_known _ s) in *. pose proof Ha' as [H1 H2 H3 H4 Hk].
  destruct (standbyState s1) eqn:Est.
  - exfalso. destruct Hk as [[? _]|[[?|?] _]]; congruence.
  - destruct Hk as [[_ Hr]|[[?|?] _]]; [by apply initialise_agrees|congruence..].
  - destruct Hk as [[? _]|(_ & xs & Hk & _)]; [congruence|]. case_match.
    + apply proc_bind, on_known_spec, wp_modify. cbn [next]. apply proc_bind, wp_modify. cbn [next]. apply initialise_agrees; [done|done| |done..].
      by eapply reset_empty.
    + destruct (TransactionIdPrecedes _ _) eqn:E; [|by apply proc_ret]. apply wp_modify. by apply (ready_agrees p s1 (oldestRunningXid r)).
  - by apply proc_ret.
Qed.

(** ** All steps *)

Lemma assign_ok p : primary_ok p → inside (TransactionIdAdvance (p_next p)) → top_of (p_next p) = p_next p ∨ top_of (p_next p) ∈ p_running p →
  top_of (top_of (p_next p)) = top_of (p_next p) →
  primary_ok (mkPrimary ({[p_next p]} ∪ p_running p) (p_lost p) (p_reported p) (TransactionIdAdvance (p_next p))).
Proof.
  intros Hp Ha Ht Htt. destruct (ord_next w _ (po_next _ Hp) Ha) as [Hlt _]. split; cbn; [done| | |apply Hp].
  - intros y Hy. unfold p_ids in Hy. cbn in Hy. destruct (decide (y = p_next p)) as [->|Hne]; [split; [apply Hp|lia]|].
    destruct (po_ids _ Hp y) as [? ?]; [unfold p_ids; set_solver|]. split; [done|lia].
  - intros y [->%elem_of_singleton|Hy]%elem_of_union.
    + destruct Ht as [Ht|Ht]; [rewrite !Ht; split_and!; [set_solver|done|lia]|]. destruct (po_ids _ Hp (top_of (p_next p))) as [? ?]; [unfold p_ids; set_solver|].
      split_and!; [set_solver|done|lia].
    + destruct (po_top _ Hp _ Hy) as (? & ? & ?). split_and!; [set_solver|done|done].
Qed.

Lemma replay_keeps c c' : replay c c' → primary_ok c.1 → agrees c.1 c.2 → primary_ok c'.1 ∧ agrees c'.1 c'.2.
Proof.
  intros Hstep Hp Ha. destruct Hstep as [p s Hi Ht Htt|p s xs [Hsub Hwh]|p s x s' Hx E|p s x subs s' Hwh E|p s t subs s' Ht Hs E|slog p s r s' Hl E]; cbn [fst snd] in *.
  - split; [by apply assign_ok|]. destruct (ord_next w _ (po_next _ Hp) Hi) as [Hlt Hgap]. destruct Ha as [[H1 H1'] H2 H3 H4 Hk]. split; cbn; [split; [done|lia]| |done|done|].
    + intros y Hy Hb. unfold p_ids in *. cbn. destruct (Z.lt_ge_cases (ord y) (ord (p_next p))) as [|Hge]; [specialize (H2 y Hy); set_solver|].
      assert (E : y = p_next p) by (apply (ord_inj w); [apply Hy|apply Hp|specialize (Hgap y Hy (proj2 Hb)); lia]). set_solver.
    + destruct Hk as [Hk|(Ht' & xs & Hk & Hc1 & Hc2 & Hc3)]; [by left|]. right. split; [done|]. exists xs. split; [done|]. split_and!; [| |done].
      * intros y Hy%Hc1. unfold p_ids in *. cbn. set_solver.
      * cbn. intros y [->%elem_of_singleton|Hy]%elem_of_union Hyv; [lia|auto].
  - split.
    + destruct (end_ok p xs Hp (conj Hsub Hwh)) as [H1 H2 H3 H4]. split; [done| |done|done]. intros y Hy. apply Hp. unfold p_ids in *. cbn in Hy. set_solver.
    + assert (Hids : ∀ y, y ∈ p_ids p → y ∈ p_ids (mkPrimary (p_running p ∖ xs) (p_lost p ∪ xs) (p_reported p) (p_next p))).
      { intros y. unfold p_ids. cbn. destruct (decide (y ∈ xs)); set_solver. }
      destruct Ha as [H1 H2 H3 H4 Hk]. split; cbn; [done|intros; apply Hids; auto|done|done|].
      destruct Hk as [Hk|(Ht' & ys & Hk & Hc1 & Hc2 & Hc3)]; [by left|]. right. split; [done|]. exists ys. split; [done|]. split_and!; [auto| |done].
      cbn. intros y [Hy _]%elem_of_difference. auto.
  - split; [done|]. destruct (po_ids _ Hp x) as [? ?]; [unfold p_ids; set_solver|]. eapply wp_run in E; [|by apply (record_agrees p s x)]. by destruct E.
  - split; [by apply end_ok|]. eapply wp_run in E; [|by apply end_agrees]. done.
  - eapply wp_run in E; [|by apply report_agrees]. split; [|done]. split; cbn; [apply Hp| |apply Hp|].
    + intros y Hy. by apply Hp.
    + intros y [Hy|Hy%elem_of_list_to_set]%elem_of_union; [by apply Hp|]. apply Hs in Hy as (_ & ? & ?). congruence.
  - split; [done|]. eapply wp_run in E; [|by apply recovery_agrees]. done.
Qed.

(** A standby that has replayed nothing yet, and the primary at that place in the log. *)
Record starts (p : primary) (s : standby) : Prop := {
  st_primary : primary_ok p;
  st_state : standbyState s = STANDBY_INITIALIZED;
  st_known : rep w (known_xids s) [];
  st_seen : inside (latestObservedXid s) ∧ TransactionIdAdvance (latestObservedXid s) = p_next p;
  st_done : inside (sb_latestCompletedXid s) ∧ ord (sb_latestCompletedXid s) ≤ ord (latestObservedXid s);
  st_over : lastOverflowedXid s = InvalidTransactionId;
}.

Lemma start_agrees p s : starts p s → agrees p s.
Proof.
  intros [Hp Hst Hr [Hv Hn] Hd Ho]. pose proof (po_next _ Hp) as Hni. destruct (ord_next w _ Hv) as [Hlt Hgap]; [by rewrite Hn|]. rewrite Hn in *.
  split; [done| |done|by left|by left]. intros y Hy Hb. specialize (Hgap y Hy (proj2 Hb)). lia.
Qed.

Lemma reached_agrees p0 s0 c : starts p0 s0 → rtc replay (p0, s0) c → primary_ok c.1 ∧ agrees c.1 c.2.
Proof.
  intros Hs Hr. remember (p0, s0) as c0 eqn:E. assert (H0 : primary_ok c0.1 ∧ agrees c0.1 c0.2) by (subst; split; [apply Hs|by apply start_agrees]).
  clear E Hs. induction Hr as [|c1 c2 c3 Hstep _ IH]; [done|]. apply IH, (replay_keeps c1); [done|apply H0..].
Qed.

(** ** Snapshots *)

Lemma snapshot_xmin xs xmax : StronglySorted (before w) xs → Forall inside xs → inside xmax →
  let xmin := match xs with x :: _ => if TransactionIdPrecedes x xmax then x else xmax | [] => xmax end in
  inside xmin ∧ ord xmin ≤ ord xmax ∧ Forall (λ y, ord xmin ≤ ord y) xs.
Proof.
  intros Hs Hi Hx. cbv zeta. destruct xs as [|x xs]; [split_and!; [done|lia|done]|]. apply StronglySorted_cons in Hs as [Hxs _]. apply Forall_cons in Hi as [Hix _].
  rewrite (precedes_ord w) by done. destruct (Z.ltb_spec (ord x) (ord xmax)); (split_and!; [done|lia|]).
  all: apply Forall_cons; split; [lia|]; eapply Forall_impl; [exact Hxs|]; unfold before; cbn; lia.
Qed.

(** A transaction that runs is behind [xmax], or in the list, or its top-level transaction is and the snapshot says that ids are missing. *)
Definition snapshot_covers (p : primary) (snap : Z * Z * list Z * bool) : Prop :=
  let '(xmin, xmax, subxip, suboverflowed) := snap in
  (∀ y, y ∈ p_running p → ord xmin ≤ ord y ∧
    (ord xmax ≤ ord y ∨ y ∈ subxip ∨ suboverflowed = true ∧ y ∈ p_reported p ∧ top_of y ∈ subxip)) ∧
  (∀ y, y ∈ subxip → y ∈ p_ids p ∧ ord xmin ≤ ord y < ord xmax).

Lemma ready_snapshot p s : primary_ok p → agrees p s → standbyState s = STANDBY_SNAPSHOT_READY → snapshot_covers p (standby_snapshot s).
Proof.
  intros Hp Ha Hst. destruct (ag_known _ _ Ha) as [[? _]|(_ & xs & Hk & Hc1 & Hc2 & _)]; [congruence|].
  destruct (ag_done _ _ Ha) as [Hd Hdv], (ag_seen _ _ Ha) as [Hv Hvn]. destruct (known_sorted w _ _ _ Hk) as (Hs & Hi & _).
  set (xmax := TransactionIdAdvance (sb_latestCompletedXid s)).
  destruct (advance_ord w Hw _ (p_next p) Hd (po_next _ Hp) ltac:(lia)) as [Hxi Hxo]. fold xmax in Hxi, Hxo.
  assert (Hgap : ∀ y, inside y → ord y < ord xmax → ord y ≤ ord (latestObservedXid s)).
  { intros y Hy Hlt. destruct (ord_next w _ Hd Hxi) as [_ Hg]. specialize (Hg y Hy Hlt). lia. }
  unfold standby_snapshot. fold xmax. rewrite (get_spec w _ _ _ _ _ Hk Hxi). destruct (snapshot_xmin xs xmax Hs Hi Hxi) as (Hmi & Hmx & Hml).
  set (xmin := match xs with [] => _ | _ => _ end) in *. rewrite Forall_forall in Hml.
  assert (Hlisted : ∀ y, y ∈ xs → ord y < ord xmax → y ∈ filter (λ y, ord y < ord xmax) xs) by (intros; by apply list_elem_of_filter).
  split.
  - intros y Hy. destruct (po_ids _ Hp y) as [Hyi _]; [unfold p_ids; set_solver|]. destruct (Z.le_gt_cases (ord xmax) (ord y)) as [|Hlt]; [split; [lia|by left]|].
    destruct (Hc2 y Hy (Hgap y Hyi Hlt)) as [Hyx|[[Hrep [Hoi Hoy]]|(? & _)]]; [split; [auto|right; left; auto]| |congruence].
    destruct (po_top _ Hp y Hy) as (Ht & Htt & Hto). destruct (po_ids _ Hp (top_of y)) as [Hti _]; [unfold p_ids; set_solver|].
    assert (Htx : top_of y ∈ xs).
    { destruct (Hc2 (top_of y) Ht (Hgap _ Hti ltac:(lia))) as [?|[[Hr _]|(? & _)]]; [done|by apply (po_reported _ Hp) in Hr|congruence]. }
    specialize (Hml _ Htx). split; [lia|]. right; right. rewrite (precedes_or_equals_ord w) by done. split_and!; [apply Z.leb_le; lia|done|]. apply Hlisted; [done|lia].
  - intros y [Hlt Hy]%list_elem_of_filter. split; [auto|]. split; [auto|done].
Qed.

(** ** Errors *)

Lemma room_enough (p : primary) (l : list Z) : NoDup l → (∀ y, y ∈ l → y ∈ p_ids p) → (length l ≤ size (p_ids p))%nat.
Proof.
  intros Hn Hsub. rewrite <-(size_list_to_set (C := gset Z) l Hn). apply subseteq_size. intros y. rewrite elem_of_list_to_set. auto.
Qed.

(** An id that runs is observed, unless the subtransaction log cannot be extended or more ids run than there is room for. *)
Definition observe_outcome (p : primary) (s : standby) (x : Z) : Prop :=
  match (RecordKnownAssignedTransactionIds x s).1 with
  | Ret _ => True
  | o => (extend_each (behind w (latestObservedXid s) x) (sb_subtrans s)).1 = o ∨
         o = ERROR ∧ maxKnownAssignedXids (known_xids s) < Z.of_nat (size (p_ids p))
  end.

Lemma observe_outcome_spec p s x : primary_ok p → agrees p s → x ∈ p_running p → observe_outcome p s x.
Proof.
  intros Hp Ha Hx. destruct (po_ids _ Hp x) as [Hxi Hxn]; [unfold p_ids; set_solver|]. destruct (ag_seen _ _ Ha) as [Hv _]. unfold observe_outcome.
  destruct (ag_known _ _ Ha) as [[Hst _]|(Ht & xs & Hk & Hc)].
  - pose proof (record_initialized w Hw x s Hst Hv Hxi) as H. unfold wp in H. destruct (_ s).1; [done|by left..].
  - pose proof (record_spec w Hw x xs s Ht Hv Hxi Hk) as H. unfold wp, observes in H. set (v := latestObservedXid s) in *.
    assert (Hlen : (length (xs ++ behind w v x) ≤ size (p_ids p))%nat).
    { apply room_enough.
      - destruct (known_sorted w _ _ _ Hk) as (Hs & _ & Hle). rewrite Forall_forall in Hle. apply NoDup_app. split_and!; [by apply (sorted_nodup w)| |].
        + intros y Hy Hy'. apply behind_spec in Hy' as [_ ?]; [|done..]. specialize (Hle y Hy). cbn in Hle. lia.
        + unfold behind. destruct (Z.ltb_spec (ord v) (ord x)); [|constructor]. apply (sorted_nodup w). by apply (after_spec w Hw).
      - intros y [Hy|Hy]%elem_of_app; [by apply Hc|]. apply behind_spec in Hy as [Hyi ?]; [|done..]. apply (ag_new _ _ Ha); [done|]. fold v. lia. }
    destruct (_ s).1; [done|..]; (destruct H as [H|[? H]]; [by left|right; split; [done|lia]]).
Qed.


Lemma initialise_wraps {slog : StandbyLog} r s : rep w (known_xids s) [] → Forall inside (not_completed (xids r)) → wraps w (not_completed (xids r)) →
  wp (initialise_running r) (λ o _, o = ERROR) s.
Proof.
  intros Hr Hi Hwr. unfold initialise_running. apply proc_bind, on_known_spec. eapply proc_mono; [by apply (add_running_spec w Hw)|].
  intros o k [_ Ho]. destruct o; cbn [next]; [|done..]. by destruct Ho.
Qed.

End StandbyRun.

(** ** Examples *)

Import SubtransSample.

Ltac show_inside := split; [split; vm_compute; done|vm_compute; done].

Lemma returned (m : proc standby unit) s : (m s).1 = Ret tt → m s = (Ret tt, (m s).2).
Proof. destruct (m s) as [o s']. cbn. by intros ->. Qed.

(** ** A standby that gets ready, and a subtransaction that is reported *)

Module Follows.
#[export] Instance sample_kenv : KnownEnv := mkKnownEnv 10.
#[export] Instance sample_log : StandbyLog := mkStandbyLog (λ _, false) (λ _, false) (λ _, false).

Definition top (x : Z) : Z := if x =? 5 then 4 else x.

Definition s0 : standby := mkStandby (known_init 8) sub1 STANDBY_INITIALIZED 3 0 0 3 4.
Definition list1 : RunningTransactionsData := mkRunningXacts 2 false 7 4 3 [4; 6; 5].
Definition s1 : standby := (ProcArrayApplyRecoveryInfo list1 s0).2.
Definition s2 : standby := (ProcArrayApplyXidAssignment 4 [5] s1).2.
Definition s3 : standby := (replay_end 6 [] s2).2.

Definition p0 : primary := mkPrimary ∅ ∅ ∅ 4.
Definition p1 : primary := mkPrimary {[6; 5; 4]} ∅ ∅ 7.
Definition p2 : primary := mkPrimary {[6; 5; 4]} ∅ {[5]} 7.
Definition p3 : primary := end_trees {[6]} p2.

Lemma normal_three : normal 3.
Proof. unfold normal, FirstNormalTransactionId. lia. Qed.

Lemma starts0 : starts 3 top p0 s0.
Proof.
  split; [| | | | |done].
  - split; cbn; [show_inside|set_solver|set_solver|set_solver].
  - done.
  - split; [done|by exists [], (replicate 8 (0, false))|constructor|constructor|done].
  - split; [show_inside|done].
  - split; [show_inside|by vm_compute].
Qed.

Lemma assigned : rtc (replay 3 top) (p0, s0) (p1, s0).
Proof.
  eapply rtc_l; [apply assigns; cbn; [show_inside|by left|done]|]. cbn [p_next p0 p_running p_lost p_reported].
  eapply rtc_l; [apply assigns; cbn; [show_inside|right; set_solver|done]|]. cbn [p_next p_running p_lost p_reported].
  eapply rtc_l; [apply assigns; cbn; [show_inside|by left|done]|]. cbn [p_next p_running p_lost p_reported].
  replace ({[TransactionIdAdvance (TransactionIdAdvance 4)]} ∪ ({[TransactionIdAdvance 4]} ∪ ({[4]} ∪ ∅)) : gset Z) with ({[6; 5; 4]} : gset Z)
    by (change (TransactionIdAdvance (TransactionIdAdvance 4)) with 6; change (TransactionIdAdvance 4) with 5; set_solver).
  apply rtc_refl.
Qed.

Lemma listed : lists 3 p1 list1.
Proof.
  split; [done| | | |].
  - split; [show_inside|]. cbn. intros y Hy. assert (y = 6 ∨ y = 5 ∨ y = 4) as [->|[-> | ->]] by set_solver; by vm_compute.
  - split; [show_inside|by vm_compute].
  - intros y. replace (not_completed (xids list1)) with [4; 6; 5] by done. unfold p_ids. cbn. set_solver.
  - intros _ y. replace (not_completed (xids list1)) with [4; 6; 5] by done. cbn. set_solver.
Qed.

Lemma followed : rtc (replay 3 top) (p0, s0) (p3, s3).
Proof.
  etransitivity; [apply assigned|]. eapply rtc_l.
  { apply (snapshots 3 top sample_log p1 s0 list1 s1); [apply listed|]. apply returned. by vm_compute. }
  eapply rtc_l.
  { apply (reports 3 top p1 s1 4 [5] s2); [cbn; set_solver|intros y ->%list_elem_of_singleton; cbn; split_and!; [set_solver|done|done]|].
    apply returned. by vm_compute. }
  replace (mkPrimary (p_running p1) (p_lost p1) (p_reported p1 ∪ list_to_set [5]) (p_next p1)) with p2 by (unfold p2; f_equal; cbn; set_solver).
  apply rtc_once. replace p3 with (end_trees (list_to_set [6]) p2) by (unfold p3; f_equal; cbn; set_solver).
  apply (ends 3 top p2 s2 6 [] s3).
  - split; [cbn; set_solver|]. cbn. intros y Hy. assert (y = 6 ∨ y = 5 ∨ y = 4) as [->|[-> | ->]] by set_solver; cbn; set_solver.
  - apply returned. by vm_compute.
Qed.

End Follows.

(** ** Ids around the end of the numbers *)

Module Wraps.
#[export] Instance sample_kenv : KnownEnv := mkKnownEnv 10.
#[export] Instance sample_log : StandbyLog := mkStandbyLog (λ _, false) (λ _, false) (λ _, false).

Definition w : Z := 4294967290.
Definition s0 : standby := mkStandby (known_init 8) sub1 STANDBY_INITIALIZED 5 0 0 5 6.
Definition p0 : primary := mkPrimary {[4294967295; 4]} ∅ ∅ 6.
Definition list1 : RunningTransactionsData := mkRunningXacts 2 false 6 4294967295 5 [4294967295; 4].

Lemma normal_w : normal w.
Proof. unfold normal, w, FirstNormalTransactionId. lia. Qed.

Lemma wraps_starts : starts w (λ x, x) p0 s0.
Proof.
  split; [| | | | |done].
  - split; [show_inside| |intros y ?; done|cbn; set_solver].
    intros y Hy. unfold p_ids in Hy. cbn in Hy. assert (y = 4294967295 ∨ y = 4) as [-> | ->] by set_solver; (split; [show_inside|by vm_compute]).
  - done.
  - split; [done|by exists [], (replicate 8 (0, false))|constructor|constructor|done].
  - split; [show_inside|done].
  - split; [show_inside|by vm_compute].
Qed.

Lemma wraps_listed : lists w p0 list1.
Proof.
  split; [done| | | |].
  - split; [show_inside|]. cbn. intros y Hy. assert (y = 4294967295 ∨ y = 4) as [-> | ->] by set_solver; by vm_compute.
  - split; [show_inside|by vm_compute].
  - intros y. replace (not_completed (xids list1)) with [4294967295; 4] by done. unfold p_ids. cbn. set_solver.
  - intros _ y. replace (not_completed (xids list1)) with [4294967295; 4] by done. cbn. set_solver.
Qed.

End Wraps.
